(* ===== verification/_CoqProject ===== *)
-Q . S2P
Prelude.v
Text.v
Domain.v
TaskSummary.v
StateModel.v
Workspace.v
SessionRegistry.v
RequestRegistry.v
Scheduler.v
TaskRegistry.v
ExecutionRegistry.v
ExecutionFacts.v
ExecutionProperties.v
CommandControl.v
Convergence.v
Effects.v
Orchestrator.v
OrchestratorProperties.v
Recovery.v
RecoveryProperties.v
WindowsPath.v
BrokerProtocol.v
BrokerPipe.v
Broker.v
BrokerProperties.v
PrivilegeControl.v
PrivilegeProperties.v
CodingEdit.v
HostFs.v
HostLogic.v
PathAuthority.v
FilesystemService.v
HostExamples.v
FilesystemFacts.v
FilesystemConfinement.v
FilesystemChanges.v
FilesystemWalk.v
FilesystemSearch.v
FilesystemExamples.v
CodingEditService.v
WorkflowCheckpoint.v
BrokerFilesystem.v
BrokerFilesystemProperties.v
Json.v
Policy.v
PolicyReview.v
PolicyDocument.v
PolicyDecision.v
PolicyProperties.v
Guard.v
OutputHandles.v
Facade.v
FacadeOutput.v
FacadeArguments.v
FacadeRequests.v
FacadeFilesystem.v
FacadeWorkflow.v
FacadeCoding.v
FacadeEntry.v
FacadeDurable.v
FacadeSpec.v
FacadeOnce.v
FacadeTasks.v
FacadeCommands.v
FacadeCommandsProperties.v
Supervisor.v
SupervisorArguments.v
SupervisorProperties.v
GitRecords.v
GitAdapter.v
GitAdapterProperties.v
VerificationPlan.v
VerificationPlanProperties.v
Update.v
Snapshot.v
DesktopProjection.v
DesktopLifecycle.v
DesktopLifecycleProperties.v
TunnelHealth.v
Settings.v
