(* ===== verification/Prelude.v ===== *)
(** * LocalBridge: a verification library

    LocalBridge is a Windows desktop application that lets a remote coding
    client work in a project on this machine: an MCP server on the loopback
    interface runs file, command and workflow tools under a permission mode, a
    tunnel process connects it to the client, a control plane decides what may
    run, and a tray application shows its state.  This library models the parts
    of [src/src-tauri/src] that decide (the state machines, registries, parsers
    and persisted formats) and proves what makes them correct.

    ** How the program fits together

    - A request arrives at the MCP server with a session id.  [SessionRegistry]
      knows the live sessions, the requests they own and the tool catalog they were
      told of, [RequestRegistry] the
      requests in flight, their cancellation and their errors.
    - [Scheduler] admits it: observation and control run at once within bounds,
      foreground work waits in one bounded line.  [TaskRegistry] records its
      lifecycle, under a summary that [TaskSummary] has cleaned of secrets.
    - A command that outlives its call is an execution.  [ExecutionRegistry]
      owns its record, persists every change before it answers, and hands
      executions of closed sessions to whoever holds their adoption token;
      [CommandControl] polls, writes to and kills it through the runtime;
      [OutputHandles] names its retained output.
    - [Convergence] owns the desired state (permission, project, services,
      connection), compares it with what is observed, decides whether work is
      authorized and plans the next action; [Snapshot] publishes the versioned
      result every reader sees.
    - [Workspace] is the project registry, which grants nothing until the path
      has been validated again; [Settings] persists it and migrates old files.
    - [Orchestrator] starts, stops and recovers the
      runtime and the tunnel over any driver; [Recovery] decides when and how often.
      [Supervisor] starts the processes themselves, in jobs that end with them.
    - The MCP facade takes the public tool calls: [Guard] asks the policy
      ([Policy], [PolicyDocument], [PolicyReview], [PolicyDecision]) first, the
      [Facade] files read the arguments, run workflows and coding tasks step by
      step with a checkpoint ([WorkflowCheckpoint]) before each effect, and keep
      the sessions of commands over the execution registry ([FacadeCommands]).
    - [FilesystemService] changes files only through handles that [PathAuthority]
      has validated; [CodingEdit] parses patches and applies their hunks,
      [CodingEditService] through that service.
    - [GitAdapter] answers the git tools: it runs git in a repository below the
      authority and reads what it prints ([GitRecords]); [VerificationPlan] proposes
      how a project is checked.
    - What needs an administrator goes through the gate of [PrivilegeControl] to
      an elevated broker ([BrokerProtocol], [BrokerPipe], [Broker]), whose file
      worker is [BrokerFilesystem].
    - The desktop projects the runtime's state into the snapshot
      ([DesktopProjection]) and owns its life ([DesktopLifecycle]); [TunnelHealth]
      probes the tunnel; [Update] discovers releases.

    ** Files and sources (paths below [src/src-tauri/src])

    - [Prelude]: the [Result] monad, machine integers, record update, lists,
      state machines with invariants and refinement ([StateMachine],
      [Invariant], [Stable], [Refinement]).
    - [Text]: the operations of [str], [char] and UTF-8 the sources use;
      [Json]: the views of [serde_json::Value]; [Effects]: computations over
      several calls, with other threads between them.
    - [Domain], [StateModel]: [domain/*.rs] and [state/*.rs].
    - [TaskSummary]: [domain/task.rs] and its sanitizer.
    - [Workspace]: [workspace/registry.rs], [workspace/validator.rs], the
      project commands of [commands/ui.rs].
    - [SessionRegistry], [RequestRegistry], [Scheduler], [TaskRegistry],
      [CommandControl], [Convergence], [Update], [Snapshot],
      [WorkflowCheckpoint]: the file of that name under [control_plane];
      [SessionRegistry] also has the updates of [mcp/server.rs].
    - [ExecutionRegistry] (definitions), [ExecutionFacts] (what each
      transaction does) and [ExecutionProperties] (what holds across crashes and
      interleavings): [control_plane/execution_registry.rs].
    - [Orchestrator], [Recovery] with [OrchestratorProperties],
      [RecoveryProperties]: [runtime/orchestrator.rs], [runtime/recovery.rs],
      [runtime/cancellation.rs].
    - [Supervisor] with [SupervisorArguments] (command lines, environments) and
      [SupervisorProperties] (processes, handles): [runtime/windows_supervisor.rs].
    - [WindowsPath]: [filesystem/policy.rs] and path components.  [HostFs]: the
      file system of Windows as objects with failing calls; [HostLogic]: rules for
      programs over it; [HostExamples]: a concrete one.
    - [PathAuthority]: [workspace/path_authority.rs].
    - [FilesystemService] (definitions), [FilesystemFacts],
      [FilesystemConfinement], [FilesystemChanges], [FilesystemWalk],
      [FilesystemSearch], [FilesystemExamples]: [filesystem/service.rs].
    - [CodingEdit], [CodingEditService]: [filesystem/edit.rs].
    - [GitRecords] (what git prints), [GitAdapter], [GitAdapterProperties]:
      [workspace/git_adapter.rs].
    - [VerificationPlan], [VerificationPlanProperties]:
      [execution/verification.rs] and its caller in [mcp/facade.rs].
    - [BrokerProtocol]: [privilege/protocol.rs]; [BrokerPipe], [Broker],
      [BrokerProperties]: [privilege/broker.rs] and the framing of
      [privilege/windows.rs]; [PrivilegeControl], [PrivilegeProperties]:
      [privilege/control.rs]; [BrokerFilesystem], [BrokerFilesystemProperties]:
      [privilege/filesystem.rs].
    - [Policy], [PolicyReview], [PolicyDocument], [PolicyDecision],
      [PolicyProperties]: [execution/policy.rs].  [Guard]: [mcp/guard.rs].
    - [Facade], [FacadeOutput], [FacadeArguments], [FacadeRequests],
      [FacadeFilesystem], [FacadeWorkflow], [FacadeCoding], [FacadeEntry],
      [FacadeCommands]: parts of [mcp/facade.rs], [mcp/public_contract.rs] and
      [diagnostics/error.rs].  [FacadeDurable] connects them with the checkpoint
      file, [FacadeSpec] is the logic of programs over both, [FacadeOnce],
      [FacadeTasks] and [FacadeCommandsProperties] are what holds of them.
    - [DesktopProjection], [DesktopLifecycle], [DesktopLifecycleProperties]:
      [app/background.rs].
    - [TunnelHealth]: [tunnel/fault.rs], [tunnel/health.rs].
    - [OutputHandles]: [execution/output_handles.rs].
    - [Settings]: [settings/model.rs], [migration.rs], [store.rs].

    ** Conventions

    A component behind a mutex is a state record, and each method a function on
    it: one critical section, one atomic step.  What a method reads from outside
    (the clock, a random id, the outcome of a system call) is an argument or a
    field of an interface, so the theorems hold for every value.  A method that
    takes the lock several times takes the steps of other threads between its
    sections as an argument.  [Result] is [result], its [?] is stdpp's bind; a
    Rust panic is a value of its own ([None], [Panicked] or [Panics]), because
    the release profile aborts the process on it.  Integers are [N] with their
    width's saturation, wrap-around or overflow written out.  Strings are lists of
    scalar values where their characters matter and [string] where they are
    only compared; hash maps are [gmap]s, and an operation that depends on their
    iteration order takes it from [map_to_list].

    Code that is not in the repository is an interface with the laws its
    documentation states: the JSON codecs ([ExecutionCodec], [SettingsCodec]: what
    was written reads back), the Windows calls ([Win32Files], [Windows] with
    [Faults] for which of them fail, [Win32] for processes), the socket
    ([HealthTransport]), the supervised runtime ([RuntimeCommandControl],
    [PrivateRuntime]).  Each file that has one also has a concrete instance, on
    which its witnesses run.

    ** What the theorems show

    - Executions: the registry's invariant and bounds; a crash at any point
      recovers to the last answered state or the one being written, and running
      executions are then lost, never resurrected; a transaction changes memory
      only if it reached the disk; a recorded outcome never changes; an execution
      with a live owner cannot be taken, adoption needs the token and consumes it.
    - Command control: the handler refines the registry under interference; the
      status it reports is the one recorded; a kill is reported as cancelled.
    - Scheduling: bounds and permit accounting, service in arrival order,
      refinement of a bounded first-in first-out lock, and that no wake-up is lost.
    - Convergence: work is authorized exactly when desired and observed state
      agree; the effective permission never exceeds what is configured or
      granted; a revision identifies the desired state, and the snapshot.
    - Sessions, requests, tasks, output: bounds, exact expiry, cancellation
      intent that is never lost, forward-only lifecycles, bounded retention.
    - Projects and settings: a workspace is resolved only if its directory still
      has the recorded identity; every historical version migrates to its
      reference upgrade; a save never loses the settings.
    - Text: the patch parser inverts printing, hunks keep the file's format and
      change one place; the secret scanner equals its specification; the chunk
      decoder inverts encoding and terminates.
    - Files: an operation in a workspace touches nothing outside its root; a write
      is seen whole or not at all; a deletion removes the subtree its path names and
      nothing else; an edit with a hash changes only the content it was made for;
      listings and searches are exact; a patch changes the files it names as it says.
    - Git and verification: a git tool changes no file, runs git only in a repository
      the authority allows, and its status reads back what git printed; a plan only
      proposes supported checks of the project, in an order that respects their
      priority, and its search for manifests ends.
    - Runtime: the orchestrator drives its parts in one protocol, a recovery starts
      nothing without having read its permit just before, recovery attempts follow
      their schedule, and at most one desktop runtime runs at a time.
    - Processes: a bounded command leaves no process and no handle, whichever call
      fails; stopping means that the job is empty; every wait ends; Windows splits a
      command line into the arguments it was built from.
    - Administration: the broker answers no message twice, a conversation equals
      direct calls, the gate opens once per generation, and what the reviewed
      policy does not name is not run.
    - Public tools: a workflow's steps and a coding task's edit start at most once
      across restarts, failures and concurrent owners; nothing is persisted that
      was not verified; answers tell what happened; output is delivered once, in
      order and completely; command sessions are the registry's own steps.

    Some theorems show behaviour that a reader may not expect, for instance
    [failed_edit_is_stuck], [installation_is_not_protected] or
    [timed_out_is_recorded_cancelled]: they say what the code does.

    ** Bounds and fuel

    Loops that are not structural carry fuel and run out of it visibly; each has
    a theorem that the caller's fuel suffices: [decode_chunked] needs one unit per
    input byte ([decode_chunked_total]), the patch loops one per line
    ([parse_patch_total]), replacement and counting one per character
    ([replace_aux_fuel], [count_aux_zero]), migration one per version
    ([migrate_loop_from_1] and its companions), a wildcard one per character of
    pattern and value ([wildcard_match_correct]), a polling loop one per ten
    milliseconds ([waits_end]); output pages need one per page
    ([pages_cover_output]), the search for manifests [manifest_fuel]
    ([manifest_search_ends]), the climb to a repository one per path component.
    The scheduler's machine stops before its 64-bit ticket counter would wrap.

    ** What is not modelled

    Of [mcp/facade.rs], the negotiation of capabilities, the discovery of the
    workspace, the document and image tools and the choice of a shell;
    [mcp/server.rs] and [mcp/http.rs] (routing, schemas and transport over the
    components above); [execution/shell.rs] and [execution/toolbox.rs] (which
    programs the machine has); [workspace/context.rs] and [document/mod.rs]
    (summaries and document formats); [tunnel/runtime.rs] and the stores of
    credentials (calls of Windows around the supervisor); the windows, tray and
    Tauri commands of [app], [tray] and [commands].  What Windows, git, serde,
    TOML, base64 and the encryption do is always an interface.  The laws of
    [Windows] idealise names with trailing dots and spaces, and share modes are only
    calls that may fail (see [HostFs]). *)

From Stdlib Require Export Lia ZArith ZifyN ZifyNat ZifyBool.
From stdpp Require Export base gmap strings fin_maps relations numbers list.

#[global] Set Default Goal Selector "!".

Declare Scope rust_scope.
Delimit Scope rust_scope with rust.

(** ** Fallible code: [Result<A, E>] and the [?] operator

    [result E A] is Rust's [Result<A, E>].  [x ← m; k] of stdpp is the [?]
    operator: the error of [m] is returned at once. *)

Inductive result (E A : Type) : Type :=
  | Ok (a : A)
  | Err (e : E).
Arguments Ok {E A} a.
Arguments Err {E A} e.

#[export] Instance result_ret {E} : MRet (result E) := λ A a, Ok a.
#[export] Instance result_bind {E} : MBind (result E) := λ A B f m,
  match m with Ok a => f a | Err e => Err e end.
#[export] Instance result_fmap {E} : FMap (result E) := λ A B f m,
  match m with Ok a => Ok (f a) | Err e => Err e end.

#[export] Instance result_eq_dec {E A} `{EqDecision E, EqDecision A} :
  EqDecision (result E A).
Proof. solve_decision. Defined.

(** [Option::ok_or] and [Result::map_err]. *)
Definition ok_or {E A} (e : E) (o : option A) : result E A :=
  match o with Some a => Ok a | None => Err e end.

Definition map_err {E F A} (f : E → F) (m : result E A) : result F A :=
  match m with Ok a => Ok a | Err e => Err (f e) end.

Definition is_ok {E A} (m : result E A) : bool :=
  match m with Ok _ => true | Err _ => false end.

Lemma is_ok_Ok {E A} (r : result E A) : is_ok r = true → ∃ a, r = Ok a.
Proof. destruct r as [a|]; [by exists a|done]. Qed.

Lemma is_ok_unit {E} (r : result E unit) : is_ok r = true → r = Ok ().
Proof. by destruct r as [[]|]. Qed.

Lemma ok_or_Ok {E A} (e : E) (o : option A) a : ok_or e o = Ok a ↔ o = Some a.
Proof. destruct o; simpl; naive_solver. Qed.

Lemma map_err_Ok {E F A} (f : E → F) (m : result E A) a :
  map_err f m = Ok a ↔ m = Ok a.
Proof. destruct m; simpl; naive_solver. Qed.

Lemma bind_Ok {E A B} (m : result E A) (f : A → result E B) b :
  m ≫= f = Ok b ↔ ∃ a, m = Ok a ∧ f a = Ok b.
Proof. destruct m; simpl; unfold mbind, result_bind; naive_solver. Qed.

(** ** Machine integers

    An unsigned machine integer is an [N] that stays at most its maximum;
    [usize] is 64 bits wide, the width of the only supported target
    (Windows x64).  Saturating and wrapping operations are written out. *)

Definition u8_max : N := 255.
Definition u32_max : N := 4294967295.
Definition u64_max : N := 18446744073709551615.
Definition usize_max : N := 18446744073709551615.

Definition saturating_add (max a b : N) : N := N.min (a + b) max.
Definition saturating_sub (a b : N) : N := a - b.
Definition wrapping_add (max a b : N) : N := (a + b) mod (max + 1).

Lemma wrapping_add_exact max a b : (a + b ≤ max)%N → wrapping_add max a b = (a + b)%N.
Proof. intros H. apply N.mod_small. lia. Qed.

Lemma saturating_add_le max a b : (saturating_add max a b ≤ max)%N.
Proof. unfold saturating_add. lia. Qed.

Lemma saturating_add_exact max a b :
  (a + b ≤ max)%N → saturating_add max a b = (a + b)%N.
Proof. unfold saturating_add. lia. Qed.

(** ** Record update: [r <| field := v |>]

    Every record of the development declares an [Eta] instance that lists its
    fields once; [set_field p f r] rebuilds [r] with the field [p] changed. *)

Class Eta (R : Type) := eta : R → R.

Class Setter {R T : Type} (p : R → T) := set_field : (T → T) → R → R.
Arguments set_field {R T} p {_} _ _.

Ltac build_setter p :=
  match type of p with
  | ?R → ?T =>
      let e := constr:(_ : Eta R) in
      exact (λ (f : T → T) (r : R),
        ltac:(let b := eval hnf in (@eta R e r) in
              let b' := eval pattern (p r) in b in
              match b' with
              | ?g _ => let x := eval cbv beta in (g (f (p r))) in exact x
              end))
  end.

#[export] Hint Extern 0 (Setter ?p) => build_setter p : typeclass_instances.

#[warnings="-postfix-notation-not-level-1"]
Notation "r <| p := v |>" := (set_field p (λ _, v) r)
  (at level 12, left associativity, v at level 99, format "r  <| p  :=  v |>").
#[warnings="-postfix-notation-not-level-1"]
Notation "r <| p ::= f |>" := (set_field p f r)
  (at level 12, left associativity, f at level 99, format "r  <| p  ::=  f |>").

(** ** Iterators over vectors

    [find] is Stdlib's; [position], [find_last] ([iter().rev().find]),
    [update_first] ([iter_mut().find] followed by a mutation) and [countb]
    ([iter().filter().count()]) are the other iterator chains of the code. *)

Fixpoint position {A} (p : A → bool) (l : list A) : option nat :=
  match l with
  | [] => None
  | x :: l => if p x then Some 0 else S <$> position p l
  end.

Definition find_last {A} (p : A → bool) (l : list A) : option A :=
  List.find p (rev l).

Fixpoint update_first {A} (p : A → bool) (f : A → A) (l : list A) : list A :=
  match l with
  | [] => []
  | x :: l => if p x then f x :: l else x :: update_first p f l
  end.

(** [iter().find_map(f)]. *)
Fixpoint find_map {A B} (f : A → option B) (l : list A) : option B :=
  match l with
  | [] => None
  | x :: l => match f x with Some y => Some y | None => find_map f l end
  end.

Definition countb {A} (p : A → bool) (l : list A) : nat :=
  length (List.filter p l).

Section iterators.
Context {A : Type}.
Implicit Types (p : A → bool) (l : list A) (x : A).

Lemma position_Some p l i :
  position p l = Some i →
  ∃ x, l !! i = Some x ∧ p x = true ∧
       ∀ j y, j < i → l !! j = Some y → p y = false.
Proof.
  revert i. induction l as [|x l IH]; intros i; simpl; [done|].
  destruct (p x) eqn:Hx.
  - intros [= <-]. exists x. repeat split; [done|lia].
  - destruct (position p l) as [k|] eqn:Hk; simpl; [|done].
    intros [= <-]. destruct (IH k eq_refl) as (y & Hy & Hp & Hlt).
    exists y. repeat split; [done..|]. intros [|j] z Hj; simpl.
    + by intros [= <-].
    + apply Hlt. lia.
Qed.

Lemma position_None p l :
  position p l = None ↔ ∀ x, x ∈ l → p x = false.
Proof.
  induction l as [|x l IH]; simpl.
  { split; [|done]. intros _ x. by rewrite elem_of_nil. }
  destruct (p x) eqn:Hx.
  - split; [done|]. intros H. rewrite H in Hx; [done|left].
  - rewrite fmap_None, IH; clear IH. split; intros H y.
    + rewrite elem_of_cons. intros [->|?]; auto.
    + intros ?. apply H. by right.
Qed.

Lemma find_Some_elem p l x :
  List.find p l = Some x → x ∈ l ∧ p x = true.
Proof. intros [H1 H2]%find_some. by rewrite list_elem_of_In. Qed.

Lemma find_None_iff p l :
  List.find p l = None ↔ ∀ x, x ∈ l → p x = false.
Proof.
  split.
  - intros H x Hx. eapply find_none; [done|]. by rewrite <-list_elem_of_In.
  - intros H. destruct (List.find p l) as [x|] eqn:E; [|done].
    apply find_Some_elem in E as [Hin Hp]. by rewrite H in Hp.
Qed.

Lemma find_last_Some p l x :
  find_last p l = Some x → x ∈ l ∧ p x = true.
Proof.
  unfold find_last. intros [H1 H2]%find_Some_elem. split; [|done].
  rewrite list_elem_of_In in H1.
  rewrite list_elem_of_In. by apply in_rev.
Qed.

Lemma find_last_None p l :
  find_last p l = None ↔ ∀ x, x ∈ l → p x = false.
Proof.
  unfold find_last. rewrite find_None_iff.
  split; intros H x Hx; apply H; revert Hx;
    rewrite !list_elem_of_In, <-in_rev; done.
Qed.

Lemma find_map_Some {B} (f : A → option B) l y :
  find_map f l = Some y →
  ∃ l1 x l2, l = l1 ++ x :: l2 ∧ f x = Some y ∧ Forall (λ z, f z = None) l1.
Proof.
  induction l as [|x l IH]; simpl; [done|]. destruct (f x) as [z|] eqn:Hf.
  - intros [= <-]. exists [], x, l. done.
  - intros (l1 & x' & l2 & -> & ? & ?)%IH. exists (x :: l1), x', l2.
    split_and!; [done..|]. by constructor.
Qed.

Lemma find_map_None {B} (f : A → option B) l :
  find_map f l = None ↔ ∀ x, x ∈ l → f x = None.
Proof.
  induction l as [|x l IH]; simpl.
  { split; [|done]. intros _ x Hx. by apply elem_of_nil in Hx. }
  setoid_rewrite elem_of_cons. destruct (f x) eqn:Hf.
  - split; [done|]. intros H. rewrite H in Hf; [done|by left].
  - rewrite IH. split; [intros H y [->|?]; auto|auto].
Qed.

Lemma length_update_first p f l : length (update_first p f l) = length l.
Proof. induction l as [|x l IH]; simpl; [done|]. case_match; simpl; lia. Qed.

(** The element [find] returns is the one [update_first] replaces. *)
Lemma find_split p l x :
  List.find p l = Some x →
  ∃ l1 l2, l = l1 ++ x :: l2 ∧ Forall (λ y, p y = false) l1 ∧ p x = true ∧
    ∀ f, update_first p f l = l1 ++ f x :: l2.
Proof.
  induction l as [|y l IH]; simpl; [done|].
  destruct (p y) eqn:Hy.
  - intros [= <-]. exists [], l. done.
  - intros (l1 & l2 & -> & HF & Hx & Hu)%IH.
    exists (y :: l1), l2. repeat split; [by constructor|done|].
    intros f. simpl. by rewrite Hu.
Qed.

Lemma update_first_None p f l :
  List.find p l = None → update_first p f l = l.
Proof.
  induction l as [|x l IH]; simpl; [done|].
  destruct (p x); [done|]. intros H. f_equal. auto.
Qed.

(** Mutations that [p] does not see do not change which element is found. *)
Lemma find_update_first p f l :
  (∀ x, p x = true → p (f x) = true) →
  List.find p (update_first p f l) = f <$> List.find p l.
Proof.
  intros Hp. induction l as [|x l IH]; simpl; [done|].
  destruct (p x) eqn:Hx; simpl; [by rewrite Hp|by rewrite Hx].
Qed.

Lemma find_map_same p f l :
  (∀ x, p (f x) = p x) → List.find p (map f l) = f <$> List.find p l.
Proof.
  intros Hp. induction l as [|x l IH]; simpl; [done|]. rewrite Hp. by destruct (p x).
Qed.

Lemma countb_app p l1 l2 : countb p (l1 ++ l2) = countb p l1 + countb p l2.
Proof. unfold countb. by rewrite List.filter_app, length_app. Qed.

Lemma countb_cons p x l :
  countb p (x :: l) = (if p x then 1 else 0) + countb p l.
Proof. unfold countb. simpl. by destruct (p x). Qed.

Lemma countb_nil p : countb p [] = 0.
Proof. done. Qed.

Lemma countb_le p l : countb p l ≤ length l.
Proof. apply List.filter_length_le. Qed.

Lemma countb_ext p q l :
  (∀ x, x ∈ l → p x = q x) → countb p l = countb q l.
Proof.
  induction l as [|x l IH]; intros H; [done|].
  rewrite !countb_cons, (H x), IH; [done| |]; set_solver.
Qed.

Lemma countb_map p (f : A → A) l : countb p (map f l) = countb (λ x, p (f x)) l.
Proof.
  induction l as [|x l IH]; [done|]. simpl. rewrite !countb_cons. by rewrite IH.
Qed.

Lemma countb_pos p l x : x ∈ l → p x = true → 0 < countb p l.
Proof.
  induction l as [|y l IH]; [by rewrite elem_of_nil|].
  rewrite elem_of_cons, countb_cons. intros [->|Hin] Hp; [by rewrite Hp; lia|].
  specialize (IH Hin Hp). lia.
Qed.

Lemma elem_of_delete_list (l : list A) i x : x ∈ delete i l → x ∈ l.
Proof.
  revert i. induction l as [|y l IH]; intros [|i]; simpl; [done..| |].
  - by right.
  - rewrite !elem_of_cons. intros [->|H]; [by left|]. right. by eapply IH.
Qed.

Lemma filterb_elem p l x : x ∈ List.filter p l ↔ x ∈ l ∧ p x = true.
Proof. by rewrite !list_elem_of_In, filter_In. Qed.
End iterators.

(** ** Sublists *)

Lemma filter_sublist {A} (p : A → bool) (l : list A) : sublist (List.filter p l) l.
Proof.
  induction l as [|x l IH]; simpl; [done|].
  destruct (p x); [by apply sublist_skip|by apply sublist_cons].
Qed.

Lemma sublist_fmap {A B} (f : A → B) (l k : list A) :
  sublist l k → sublist (f <$> l) (f <$> k).
Proof. induction 1; simpl; by constructor. Qed.

Lemma sublist_mem {A} (l k : list A) x : sublist l k → x ∈ l → x ∈ k.
Proof. intros Hs Hx. eapply elem_of_submseteq; [done|by apply sublist_submseteq]. Qed.

Lemma sublist_nodup {A} (l k : list A) : sublist l k → NoDup k → NoDup l.
Proof.
  induction 1 as [|x l k Hl IH|x l k Hl IH]; [done| |].
  - rewrite !NoDup_cons. intros [Hx Hk]. split; [|auto].
    intros Hin. apply Hx. by eapply sublist_mem.
  - rewrite NoDup_cons. intros [_ Hk]. auto.
Qed.

Lemma delete_sublist {A} (l : list A) i : sublist (delete i l) l.
Proof.
  revert i. induction l as [|x l IH]; intros [|i]; simpl; [done..| |].
  - by apply sublist_cons.
  - by apply sublist_skip.
Qed.

Lemma singleton_sublist {A} (x : A) l : x ∈ l → sublist [x] l.
Proof. induction 1; [apply sublist_skip, sublist_nil_l|by apply sublist_cons]. Qed.

(** ** Reference: a list without its first matching elements *)

(** [l] without its first [n] elements that satisfy [p]. *)
Fixpoint drop_oldest {A} (p : A → bool) (n : nat) (l : list A) : list A :=
  match l with
  | [] => []
  | x :: l => if p x && (0 <? n) then drop_oldest p (pred n) l else x :: drop_oldest p n l
  end.

Section drop_oldest.
Context {A : Type}.
Implicit Types (p q : A → bool) (l : list A).

Lemma drop_oldest_0 p l : drop_oldest p 0 l = l.
Proof. induction l as [|x l IH]; simpl; [done|]. by rewrite andb_false_r, IH. Qed.

Lemma drop_oldest_S p n l :
  drop_oldest p (S n) l = drop_oldest p n (drop_oldest p 1 l).
Proof.
  induction l as [|x l IH]; simpl; [done|].
  destruct (p x) eqn:Hx; simpl; [by rewrite drop_oldest_0|]. by rewrite Hx, IH.
Qed.

Lemma drop_oldest_position p l i :
  position p l = Some i → drop_oldest p 1 l = delete i l.
Proof.
  revert i. induction l as [|x l IH]; intros i; simpl; [done|].
  destruct (p x); simpl; [intros [= <-]; apply drop_oldest_0|].
  destruct (position p l) as [j|]; simpl; [|done]. intros [= <-]. simpl. by rewrite (IH j).
Qed.

Lemma drop_oldest_none p n l :
  (∀ x, x ∈ l → p x = false) → drop_oldest p n l = l.
Proof.
  induction l as [|x l IH]; intros H; simpl; [done|].
  rewrite (H x) by left. simpl. f_equal. apply IH. intros y Hy. apply H. by right.
Qed.

Lemma drop_oldest_ext p q n l :
  (∀ x, x ∈ l → p x = q x) → drop_oldest p n l = drop_oldest q n l.
Proof.
  revert n. induction l as [|x l IH]; intros n H; simpl; [done|].
  rewrite (H x) by left. rewrite !IH by (intros y Hy; apply H; by right). done.
Qed.

Lemma drop_oldest_sublist p n l : sublist (drop_oldest p n l) l.
Proof.
  revert n. induction l as [|x l IH]; intros n; simpl; [done|].
  destruct (p x && _); [by apply sublist_cons|by apply sublist_skip].
Qed.

Lemma drop_oldest_keeps p n l x : x ∈ l → p x = false → x ∈ drop_oldest p n l.
Proof.
  revert n. induction l as [|y l IH]; intros n; simpl; [done|].
  rewrite elem_of_cons. intros [<-|Hin] Hp.
  - rewrite Hp. simpl. left.
  - destruct (p y && _); [auto|right; auto].
Qed.

Lemma drop_oldest_length p n l :
  length (drop_oldest p n l) = length l - n `min` countb p l.
Proof.
  revert n. induction l as [|x l IH]; intros n; simpl; [done|].
  rewrite countb_cons. pose proof (countb_le p l).
  destruct (p x); simpl; [|rewrite IH; lia].
  destruct n as [|n]; simpl; rewrite IH; simpl; lia.
Qed.
End drop_oldest.

Lemma NoDup_fmap_elem {A B} (f : A → B) (l : list A) x y :
  NoDup (f <$> l) → x ∈ l → y ∈ l → f x = f y → x = y.
Proof.
  intros Hnd [i Hi]%list_elem_of_lookup [j Hj]%list_elem_of_lookup Hf.
  assert (i = j) as ->; [|congruence].
  eapply NoDup_lookup; [done|by rewrite list_lookup_fmap, Hi|].
  rewrite list_lookup_fmap, Hj. simpl. by rewrite Hf.
Qed.

Create Rewrite HintDb counts.
#[export] Hint Rewrite @countb_app @countb_cons @countb_nil : counts.

(** ** State machines, invariants and refinement

    A component whose operations run under one lock is a [StateMachine]: the
    initial states and one atomic step per critical section.  The interface
    classes below are what a component promises; [invariant_reachable],
    [stable_rtc] and [refinement_reachable] are what a client gets. *)

Class StateMachine (S : Type) := {
  sm_init : S → Prop;
  sm_step : S → S → Prop
}.

Definition reachable {S} `{StateMachine S} (s : S) : Prop :=
  ∃ s0, sm_init s0 ∧ rtc sm_step s0 s.

(** [I] holds initially and every step preserves it. *)
Class Invariant {S} `{StateMachine S} (I : S → Prop) : Prop := {
  invariant_init : ∀ s, sm_init s → I s;
  invariant_step : ∀ s s', I s → sm_step s s' → I s'
}.

(** Under the invariant [I], [P] is never lost once it holds. *)
Class Stable {S} `{StateMachine S} (I P : S → Prop) : Prop :=
  stable_step : ∀ s s', I s → P s → sm_step s s' → P s'.

(** [abs] maps every step to at most one step of the abstract machine. *)
Class Refinement {S A} `{StateMachine S, StateMachine A}
    (I : S → Prop) (abs : S → A) : Prop := {
  refinement_init : ∀ s, sm_init s → sm_init (abs s);
  refinement_step : ∀ s s', I s → sm_step s s' →
    abs s' = abs s ∨ sm_step (abs s) (abs s')
}.

Section state_machines.
Context {S} `{StateMachine S}.

Lemma reachable_step (s s' : S) : reachable s → sm_step s s' → reachable s'.
Proof. intros (s0 & ? & ?) ?. exists s0. split; [done|]. by eapply rtc_r. Qed.

Lemma invariant_rtc (I : S → Prop) `{!Invariant I} s s' :
  I s → rtc sm_step s s' → I s'.
Proof. intros HI Hs. induction Hs as [|s s1 s2 Hst _ IH]; [done|].
  apply IH. by eapply (invariant_step (I:=I)). Qed.

Lemma invariant_reachable (I : S → Prop) `{!Invariant I} s : reachable s → I s.
Proof.
  intros (s0 & ? & ?). apply (invariant_rtc I s0); [|done].
  by apply (invariant_init (I:=I)).
Qed.

Lemma stable_rtc (I P : S → Prop) `{!Invariant I, !Stable I P} s s' :
  I s → P s → rtc sm_step s s' → P s'.
Proof.
  intros HI HP Hs. revert HI HP.
  induction Hs as [|s1 s2 s3 Hstep _ IH]; [done|]. intros HI HP.
  apply IH; [by eapply (invariant_step (I:=I))|].
  by apply (stable_step (I:=I) (P:=P) s1 s2).
Qed.

Lemma refinement_reachable {A} `{StateMachine A} (I : S → Prop) (abs : S → A)
    `{!Invariant I, !Refinement I abs} s :
  reachable s → reachable (abs s).
Proof.
  intros (s0 & Hi & Hs).
  cut (rtc sm_step (abs s0) (abs s)).
  { exists (abs s0). split; [by apply (refinement_init (I:=I))|done]. }
  assert (I s0) as HI by by apply (invariant_init (I:=I)).
  clear Hi. induction Hs as [|s0 s1 s2 Hstep _ IH]; [done|].
  destruct (refinement_step (I:=I) s0 s1 HI Hstep) as [<-|?].
  - apply IH. by eapply (invariant_step (I:=I)).
  - eapply rtc_l; [done|]. apply IH. by eapply (invariant_step (I:=I)).
Qed.
End state_machines.

(** ** Automation *)

(** Case analysis on every [match] and [if] of the hypotheses and the goal. *)
Ltac split_matches :=
  repeat (case_match || simplify_eq/=).

(** A closed decidable goal, by evaluation. *)
Ltac by_decision := apply (bool_decide_eq_true_1 _); vm_compute; reflexivity.

(** Inverts a hypothesis [f args = Ok r] after unfolding. *)
Ltac invert_result H := simpl in H; repeat (case_match; simplify_eq/=); try done.
