(* ===== verification/Text.v ===== *)
(** * Text: Rust's [str], [char] and byte slices

    The string operations of the standard library the code relies on.  A
    [ustr] is the sequence of Unicode scalar values of a [&str]; a [bytes] is a
    [&[u8]].  [utf8_encode] and [utf8_decode] are [str::as_bytes] and
    [str::from_utf8]. *)

From Stdlib Require Import Sorted.
From S2P Require Import Prelude.
#[local] Open Scope N_scope.

Abbreviation ustr := (list N).
Abbreviation bytes := (list N).

(** A literal of the source. *)
Definition lit (s : string) : ustr := map Ascii.N_of_ascii (String.list_ascii_of_string s).

(** ** Characters *)

Definition is_scalar (c : N) : bool :=
  (c <? 0xD800) || ((0xDFFF <? c) && (c <=? 0x10FFFF)).

Definition in_range (lo hi c : N) : bool := (lo <=? c) && (c <=? hi).

(** [char::is_whitespace]: the Unicode property White_Space. *)
Definition is_whitespace (c : N) : bool :=
  in_range 0x9 0xD c || (c =? 0x20) || (c =? 0x85) || (c =? 0xA0) ||
  (c =? 0x1680) || in_range 0x2000 0x200A c || (c =? 0x2028) || (c =? 0x2029) ||
  (c =? 0x202F) || (c =? 0x205F) || (c =? 0x3000).

(** [char::is_control]: the general category Cc. *)
Definition is_control (c : N) : bool := in_range 0 0x1F c || in_range 0x7F 0x9F c.

Definition is_ascii_whitespace (c : N) : bool :=
  (c =? 0x20) || (c =? 0x9) || (c =? 0xA) || (c =? 0xC) || (c =? 0xD).

Definition is_ascii_digit (c : N) : bool := in_range 0x30 0x39 c.
Definition is_ascii_upper (c : N) : bool := in_range 0x41 0x5A c.
Definition is_ascii_lower (c : N) : bool := in_range 0x61 0x7A c.
Definition is_ascii_alphanumeric (c : N) : bool :=
  is_ascii_digit c || is_ascii_upper c || is_ascii_lower c.
Definition is_ascii_hexdigit (c : N) : bool :=
  is_ascii_digit c || in_range 0x41 0x46 c || in_range 0x61 0x66 c.

Definition ascii_lower (c : N) : N := if is_ascii_upper c then c + 32 else c.
Definition to_ascii_lowercase (s : ustr) : ustr := map ascii_lower s.
Definition ascii_upper (c : N) : N := if is_ascii_lower c then c - 32 else c.
Definition to_ascii_uppercase (s : ustr) : ustr := map ascii_upper s.
Definition eq_ignore_ascii_case (s t : ustr) : bool :=
  bool_decide (to_ascii_lowercase s = to_ascii_lowercase t).

(** ** Searching *)

Fixpoint starts_with (p s : ustr) : bool :=
  match p, s with
  | [], _ => true
  | a :: p, b :: s => (a =? b) && starts_with p s
  | _, [] => false
  end.

Definition strip_prefix (p s : ustr) : option ustr :=
  if starts_with p s then Some (drop (length p) s) else None.

Definition ends_with (p s : ustr) : bool := starts_with (rev p) (rev s).

Definition strip_suffix (p s : ustr) : option ustr :=
  if ends_with p s then Some (take (length s - length p) s) else None.

(** [str::find]: the position of the first match. *)
Fixpoint find_sub (p s : ustr) : option nat :=
  if starts_with p s then Some 0%nat else
  match s with
  | [] => None
  | _ :: s => S <$> find_sub p s
  end.

Definition contains (p s : ustr) : bool := bool_decide (is_Some (find_sub p s)).

(** [str::replacen(p, r, 1)]. *)
Definition replace_first (p r s : ustr) : ustr :=
  match find_sub p s with
  | Some i => take i s ++ r ++ drop (i + length p) s
  | None => s
  end.

(** Non-overlapping matches from the left ([str::match_indices] and
    [str::replace]); [n] bounds the number of steps and [length s] suffices.
    An empty pattern matches at every boundary. *)
Fixpoint count_matches_aux (n : nat) (p s : ustr) : nat :=
  match n with
  | O => O
  | S n => match find_sub p s with
           | None => O
           | Some i => S (count_matches_aux n p (drop (i + length p) s))
           end
  end.

Definition count_matches (p s : ustr) : nat :=
  match p with
  | [] => S (length s)
  | _ => count_matches_aux (length s) p s
  end.

Fixpoint replace_aux (n : nat) (p r s : ustr) : ustr :=
  match n with
  | O => s
  | S n => match find_sub p s with
           | None => s
           | Some i => take i s ++ r ++ replace_aux n p r (drop (i + length p) s)
           end
  end.

(** [str::replace] with a non-empty pattern. *)
Definition replace (p r s : ustr) : ustr := replace_aux (length s) p r s.

(** ** Splitting and trimming *)

Fixpoint drop_while (f : N → bool) (s : ustr) : ustr :=
  match s with
  | c :: s' => if f c then drop_while f s' else s
  | [] => []
  end.

Definition trim_end_matches (f : N → bool) (s : ustr) : ustr :=
  rev (drop_while f (rev s)).
Definition trim (s : ustr) : ustr :=
  trim_end_matches is_whitespace (drop_while is_whitespace s).

(** [str::split(f)]: one more piece than there are separators. *)
Fixpoint split_on (f : N → bool) (s : ustr) : list ustr :=
  match s with
  | [] => [[]]
  | c :: s =>
      if f c then [] :: split_on f s
      else match split_on f s with
           | w :: ws => (c :: w) :: ws
           | [] => [[c]]
           end
  end.

(** [str::split_whitespace]: the non-empty pieces. *)
Definition split_whitespace (s : ustr) : list ustr :=
  List.filter (λ w, negb (Nat.eqb (length w) 0)) (split_on is_whitespace s).

(** [[T]::join]. *)
Fixpoint join (sep : ustr) (ws : list ustr) : ustr :=
  match ws with
  | [] => []
  | [w] => w
  | w :: ws => w ++ sep ++ join sep ws
  end.

(** [str::split_once(c)]. *)
Fixpoint split_once (c : N) (s : ustr) : option (ustr * ustr) :=
  match s with
  | [] => None
  | a :: s => if a =? c then Some ([], s)
              else match split_once c s with
                   | Some (u, v) => Some (a :: u, v)
                   | None => None
                   end
  end.

Definition LF : ustr := [0x0A].
Definition CR : ustr := [0x0D].

(** [str::lines]: a carriage return before the line feed is dropped with it,
    and the last piece is a line only if it is not empty. *)
Definition strip_cr (line : ustr) : ustr := default line (strip_suffix CR line).
Definition lines (s : ustr) : list ustr :=
  let pieces := split_on (N.eqb 0x0A) s in
  (map strip_cr (removelast pieces) ++
   match last pieces with Some [] | None => [] | Some line => [line] end)%list.

(** [str::split] with a string that is not empty; the pieces are found one by
    one, [length s] bounds them. *)
Fixpoint split_sub (fuel : nat) (p s : ustr) : list ustr :=
  match fuel with
  | O => [s]
  | S fuel => match find_sub p s with
              | None => [s]
              | Some i => take i s :: split_sub fuel p (drop (i + length p) s)
              end
  end.
Definition split_str (p s : ustr) : list ustr := split_sub (length s) p s.

(** [str::match_indices] with a string that is not empty: where the matches that
    do not overlap begin, after [at]. *)
Fixpoint match_indices_from (fuel : nat) (at_ : nat) (p s : ustr) : list nat :=
  match fuel with
  | O => []
  | S fuel => match find_sub p s with
              | None => []
              | Some i => (at_ + i)%nat ::
                  match_indices_from fuel (at_ + i + length p) p (drop (i + length p) s)
              end
  end.
Definition match_indices (p s : ustr) : list nat := match_indices_from (length s) 0 p s.

(** ** Order *)

(** [str::cmp]: by scalar values, which is the order of the UTF-8 bytes. *)
Fixpoint ustr_leb (s t : ustr) : bool :=
  match s, t with
  | [], _ => true
  | _ :: _, [] => false
  | a :: s, b :: t => if a <? b then true else if b <? a then false else ustr_leb s t
  end.

(** [slice::sort_by]: a stable sort. *)
Fixpoint insert_by {A} (le : A → A → bool) (x : A) (l : list A) : list A :=
  match l with
  | [] => [x]
  | y :: l' => if le x y then x :: l else y :: insert_by le x l'
  end.
Definition sort_by {A} (le : A → A → bool) : list A → list A := foldr (insert_by le) [].

(** ** UTF-8 *)

Definition utf8_encode_char (c : N) : bytes :=
  if c <? 0x80 then [c]
  else if c <? 0x800 then [0xC0 + c / 64; 0x80 + c mod 64]
  else if c <? 0x10000 then
    [0xE0 + c / 4096; 0x80 + (c / 64) mod 64; 0x80 + c mod 64]
  else [0xF0 + c / 262144; 0x80 + (c / 4096) mod 64;
        0x80 + (c / 64) mod 64; 0x80 + c mod 64].

Definition utf8_encode (s : ustr) : bytes := concat (map utf8_encode_char s).

(** [str::len]: the length of the UTF-8 encoding. *)
Definition byte_len (s : ustr) : nat := length (utf8_encode s).

Definition is_cont (b : N) : bool := in_range 0x80 0xBF b.

(** [str::from_utf8]: shortest forms and scalar values only. *)
Fixpoint utf8_decode (bs : bytes) : option ustr :=
  match bs with
  | [] => Some []
  | b0 :: rest =>
    if b0 <? 0x80 then cons b0 <$> utf8_decode rest
    else if in_range 0xC0 0xDF b0 then
      match rest with
      | b1 :: rest =>
          let c := (b0 - 0xC0) * 64 + (b1 - 0x80) in
          if is_cont b1 && (0x80 <=? c) then cons c <$> utf8_decode rest else None
      | _ => None
      end
    else if in_range 0xE0 0xEF b0 then
      match rest with
      | b1 :: b2 :: rest =>
          let c := (b0 - 0xE0) * 4096 + (b1 - 0x80) * 64 + (b2 - 0x80) in
          if is_cont b1 && is_cont b2 && (0x800 <=? c) && is_scalar c
          then cons c <$> utf8_decode rest else None
      | _ => None
      end
    else if in_range 0xF0 0xF7 b0 then
      match rest with
      | b1 :: b2 :: b3 :: rest =>
          let c := (b0 - 0xF0) * 262144 + (b1 - 0x80) * 4096 +
                   (b2 - 0x80) * 64 + (b3 - 0x80) in
          if is_cont b1 && is_cont b2 && is_cont b3 && (0x10000 <=? c) && is_scalar c
          then cons c <$> utf8_decode rest else None
      | _ => None
      end
    else None
  end.

(** The text of a literal that is written in UTF-8. *)
Definition text (s : string) : ustr := default [] (utf8_decode (lit s)).

(** ** Facts *)

Ltac Zify.zify_post_hook ::= Z.to_euclidean_division_equations.

Ltac bool_lia :=
  unfold is_scalar, is_cont, in_range, is_whitespace in *; lia.

Lemma utf8_decode_char c bs :
  is_scalar c = true →
  utf8_decode (utf8_encode_char c ++ bs) = cons c <$> utf8_decode bs.
Proof.
  intros Hc. unfold utf8_encode_char.
  destruct (c <? 0x80) eqn:H1; [simpl; by rewrite H1|].
  destruct (c <? 0x800) eqn:H2; [|destruct (c <? 0x10000) eqn:H3].
  - set (b0 := 0xC0 + c / 64). set (b1 := 0x80 + c mod 64).
    assert ((b0 <? 0x80) = false ∧ in_range 0xC0 0xDF b0 = true ∧ is_cont b1 = true ∧
      (b0 - 0xC0) * 64 + (b1 - 0x80) = c ∧ (0x80 <=? c) = true)
      as (E1 & E2 & E3 & E4 & E5) by (subst b0 b1; repeat split; bool_lia).
    simpl. by rewrite E1, E2, E4, E3, E5.
  - set (b0 := 0xE0 + c / 4096). set (b1 := 0x80 + (c / 64) mod 64).
    set (b2 := 0x80 + c mod 64).
    assert ((b0 <? 0x80) = false ∧ in_range 0xC0 0xDF b0 = false ∧
      in_range 0xE0 0xEF b0 = true ∧ is_cont b1 = true ∧ is_cont b2 = true ∧
      (b0 - 0xE0) * 4096 + (b1 - 0x80) * 64 + (b2 - 0x80) = c ∧ (0x800 <=? c) = true)
      as (E1 & E2 & E3 & E4 & E5 & E6 & E7) by (subst b0 b1 b2; repeat split; bool_lia).
    simpl. by rewrite E1, E2, E3, E6, E4, E5, E7, Hc.
  - set (b0 := 0xF0 + c / 262144). set (b1 := 0x80 + (c / 4096) mod 64).
    set (b2 := 0x80 + (c / 64) mod 64). set (b3 := 0x80 + c mod 64).
    assert ((b0 <? 0x80) = false ∧ in_range 0xC0 0xDF b0 = false ∧
      in_range 0xE0 0xEF b0 = false ∧ in_range 0xF0 0xF7 b0 = true ∧
      is_cont b1 = true ∧ is_cont b2 = true ∧ is_cont b3 = true ∧
      (b0 - 0xF0) * 262144 + (b1 - 0x80) * 4096 + (b2 - 0x80) * 64 + (b3 - 0x80) = c ∧
      (0x10000 <=? c) = true)
      as (E1 & E2 & E3 & E4 & E5 & E6 & E7 & E8 & E9)
      by (subst b0 b1 b2 b3; repeat split; bool_lia).
    simpl. by rewrite E1, E2, E3, E4, E8, E5, E6, E7, E9, Hc.
Qed.

(** Every valid string survives [as_bytes] followed by [from_utf8]. *)
Lemma utf8_roundtrip s :
  Forall (λ c, is_scalar c = true) s → utf8_decode (utf8_encode s) = Some s.
Proof.
  induction 1 as [|c s Hc _ IH]; [done|].
  change (utf8_encode (c :: s)) with (utf8_encode_char c ++ utf8_encode s).
  by rewrite utf8_decode_char, IH.
Qed.

(** Only shortest forms decode: a text has no other bytes. *)
Lemma utf8_encode_decode bs s : utf8_decode bs = Some s → utf8_encode s = bs.
Proof.
  remember (length bs) as n eqn:Hn. revert bs s Hn.
  induction (lt_wf n) as [n _ IH]. intros [|b0 bs] s -> Hs; [by injection Hs as <-|].
  assert (Hstep : ∀ c rest r, utf8_decode rest = Some r → (length rest < length (b0 :: bs))%nat →
    utf8_encode (c :: r) = utf8_encode_char c ++ rest).
  { intros c rest r Hr Hl. change (utf8_encode (c :: r)) with (utf8_encode_char c ++ utf8_encode r).
    f_equal. by eapply IH. }
  simpl in Hs. repeat case_match; try done; apply fmap_Some in Hs as (r & Hr & ->); subst;
    (rewrite (Hstep _ _ _ Hr); [|simpl; lia]);
    unfold utf8_encode_char; repeat case_match; try bool_lia; simpl; repeat f_equal; bool_lia.
Qed.

Lemma utf8_encode_app s t : utf8_encode (s ++ t) = utf8_encode s ++ utf8_encode t.
Proof. unfold utf8_encode. by rewrite map_app, concat_app. Qed.
Lemma byte_len_app s t : byte_len (s ++ t) = (byte_len s + byte_len t)%nat.
Proof. unfold byte_len. by rewrite utf8_encode_app, length_app. Qed.

(** Sorting loses nothing and adds nothing. *)
Lemma insert_by_perm {A} (le : A → A → bool) x l : insert_by le x l ≡ₚ x :: l.
Proof. induction l as [|y l IH]; simpl; [done|]. case_match; [done|]. rewrite IH. apply Permutation_swap. Qed.
Lemma sort_by_perm {A} (le : A → A → bool) l : sort_by le l ≡ₚ l.
Proof. induction l as [|x l IH]; [done|]. simpl. by rewrite insert_by_perm, IH. Qed.

Section sorting.
Context {A : Type} (le : A → A → bool) (R : A → A → Prop).
Hypothesis Hle : ∀ a b, le a b = true → R a b.
Hypothesis Hgt : ∀ a b, le a b = false → R b a.
Hypothesis Htrans : ∀ a b c, R a b → R b c → R a c.

Lemma insert_by_sorted x l : StronglySorted R l → StronglySorted R (insert_by le x l).
Proof.
  induction l as [|y l IH]; simpl; intros Hs; [by repeat constructor|].
  apply StronglySorted_inv in Hs as [Hs Hy]. destruct (le x y) eqn:Hxy.
  - constructor; [by constructor|]. constructor; [by apply Hle|].
    eapply Forall_impl; [exact Hy|]. intros z. apply Htrans. by apply Hle.
  - constructor; [by apply IH|]. rewrite insert_by_perm. constructor; [by apply Hgt|done].
Qed.
Lemma sort_by_sorted l : StronglySorted R (sort_by le l).
Proof. induction l; simpl; [constructor|by apply insert_by_sorted]. Qed.
End sorting.

Lemma ustr_leb_total s t : ustr_leb s t = false → ustr_leb t s = true.
Proof.
  revert t. induction s as [|a s IH]; intros [|b t]; simpl; try done.
  destruct (N.ltb_spec a b), (N.ltb_spec b a); try done; try lia. apply IH.
Qed.
Lemma ustr_leb_trans s t u : ustr_leb s t = true → ustr_leb t u = true → ustr_leb s u = true.
Proof.
  revert t u. induction s as [|a s IH]; intros [|b t] [|c u]; simpl; try done.
  destruct (N.ltb_spec a b), (N.ltb_spec b a), (N.ltb_spec b c), (N.ltb_spec c b), (N.ltb_spec a c), (N.ltb_spec c a);
    try done; try lia. apply IH.
Qed.
Lemma ustr_leb_antisym s t : ustr_leb s t = true → ustr_leb t s = true → s = t.
Proof.
  revert t. induction s as [|a s IH]; intros [|b t]; simpl; try done.
  destruct (N.ltb_spec a b), (N.ltb_spec b a); try done; try lia.
  intros. f_equal; [lia|by apply IH].
Qed.

(** *** Matching *)

Lemma starts_with_iff p s : starts_with p s = true ↔ ∃ v, s = p ++ v.
Proof.
  revert s. induction p as [|a p IH]; intros s; simpl.
  { split; [eauto|done]. }
  destruct s as [|b s]; simpl.
  { split; [done|]. intros [v Hv]. done. }
  rewrite andb_true_iff, N.eqb_eq, IH. split.
  - intros (-> & v & ->). eauto.
  - intros (v & [= -> ->]). eauto.
Qed.

Lemma starts_with_app p v : starts_with p (p ++ v) = true.
Proof. apply starts_with_iff. eauto. Qed.

Lemma starts_with_app_inv p u v :
  starts_with p (u ++ v) = true → (length p ≤ length u)%nat → starts_with p u = true.
Proof.
  rewrite !starts_with_iff. intros [w Hw] Hlen.
  exists (drop (length p) u).
  rewrite <-(take_drop (length p) u) at 1. f_equal.
  apply (f_equal (take (length p))) in Hw.
  rewrite take_app_le, take_app_length in Hw by lia. done.
Qed.

Lemma find_sub_Some p s i :
  find_sub p s = Some i →
  ∃ u v, s = u ++ p ++ v ∧ length u = i ∧
    ∀ u' v', s = u' ++ p ++ v' → (i ≤ length u')%nat.
Proof.
  revert i. induction s as [|c s IH]; intros i; simpl.
  - destruct (starts_with p []) eqn:E; [|done]. intros [= <-].
    apply starts_with_iff in E as [v ->]. exists [], v. split_and!; [done..|lia].
  - destruct (starts_with p (c :: s)) eqn:E.
    + intros [= <-]. apply starts_with_iff in E as [v Hv].
      exists [], v. split_and!; [done..|lia].
    + destruct (find_sub p s) as [k|]; simpl; [|done]. intros [= <-].
      destruct (IH k eq_refl) as (u & v & -> & <- & Hmin).
      exists (c :: u), v. split_and!; [done..|].
      intros [|c' u'] v' Heq; simpl in *.
      * by rewrite Heq, starts_with_app in E.
      * simplify_eq. apply le_n_S. by eapply Hmin.
Qed.

Lemma find_sub_None p s : find_sub p s = None ↔ ∀ u v, s ≠ u ++ p ++ v.
Proof.
  split.
  - induction s as [|c s IH]; simpl; destruct (starts_with p _) eqn:E; try done.
    + intros _ [|??] v Heq; simpl in *; [|done].
      by rewrite Heq, starts_with_app in E.
    + rewrite fmap_None. intros HN [|c' u] v Heq; simpl in *.
      * by rewrite Heq, starts_with_app in E.
      * simplify_eq. by eapply IH.
  - intros H. destruct (find_sub p s) as [i|] eqn:E; [|done].
    apply find_sub_Some in E as (u & v & -> & _). exfalso. by eapply H.
Qed.

(** The first match is where the first character of the pattern first occurs,
    if the rest of the pattern follows it. *)
Lemma find_sub_first c p u v :
  Forall (λ x, x ≠ c) u → find_sub (c :: p) (u ++ (c :: p) ++ v) = Some (length u).
Proof.
  induction 1 as [|x u Hx Hu IH].
  - destruct v; simpl; by rewrite N.eqb_refl, ?starts_with_app.
  - change (find_sub (c :: p) ((x :: u) ++ (c :: p) ++ v)) with
      (if starts_with (c :: p) (x :: u ++ (c :: p) ++ v) then Some 0%nat
       else S <$> find_sub (c :: p) (u ++ (c :: p) ++ v)).
    assert (starts_with (c :: p) (x :: u ++ (c :: p) ++ v) = false) as ->.
    { cbn [starts_with]. by rewrite (proj2 (N.eqb_neq c x)). }
    by rewrite IH.
Qed.

Lemma contains_iff p s : contains p s = true ↔ ∃ u v, s = u ++ p ++ v.
Proof.
  unfold contains. rewrite bool_decide_eq_true. split.
  - intros [i (u & v & -> & _)%find_sub_Some]. eauto.
  - intros (u & v & Heq). destruct (find_sub p s) eqn:E; [done|].
    by eapply find_sub_None in E.
Qed.

Lemma contains_false_iff p s : contains p s = false ↔ ∀ u v, s ≠ u ++ p ++ v.
Proof.
  rewrite <-find_sub_None. unfold contains.
  destruct (find_sub p s); case_bool_decide as Hd; split; try done.
  by destruct Hd.
Qed.

(** Two decompositions around occurrences of the same pattern either leave the
    second occurrence clear of the first one, or overlap it. *)
Lemma app_split_le {A} (u1 u2 v1 v2 : list A) :
  u1 ++ v1 = u2 ++ v2 → (length u1 ≤ length u2)%nat →
  ∃ w, u2 = u1 ++ w ∧ v1 = w ++ v2.
Proof.
  intros Heq Hlen. exists (drop (length u1) u2).
  apply (f_equal (take (length u1))) in Heq as Ht.
  apply (f_equal (drop (length u1))) in Heq as Hd.
  rewrite take_app_length, take_app_le in Ht by lia.
  rewrite drop_app_length, drop_app_le in Hd by lia.
  split; [|done]. pose proof (take_drop (length u1) u2). congruence.
Qed.

Lemma to_ascii_lowercase_app s t :
  to_ascii_lowercase (s ++ t) = to_ascii_lowercase s ++ to_ascii_lowercase t.
Proof. apply map_app. Qed.

Lemma length_to_ascii_lowercase s : length (to_ascii_lowercase s) = length s.
Proof. apply length_map. Qed.
