(* ===== verification/Domain.v ===== *)
(** * Domain: the typed vocabulary of the control plane

    The data of [src/src-tauri/src/domain]: identities, lifecycle, errors,
    sessions and executions.  Identities are newtypes over strings, so a task
    id and a session id with the same text stay distinct values. *)

From S2P Require Import Prelude Text.

(** Milliseconds since the epoch: a [u64]. *)
Abbreviation millis := N.

(** ** Identities *)

(* @src domain/identity.rs:43-54 McpSessionId *)
Record McpSessionId := MkMcpSessionId { mcp_session_str : string }.
(* @src domain/identity.rs:62-73 PublicSessionId *)
Record PublicSessionId := MkPublicSessionId { public_session_str : string }.
(* @src domain/identity.rs:81-92 TaskId *)
Record TaskId := MkTaskId { task_id_str : string }.
(* @src domain/identity.rs:100-111 ExecutionId *)
Record ExecutionId := MkExecutionId { execution_id_str : string }.
(* @src domain/identity.rs:5-16 AdoptionToken *)
Record AdoptionToken := MkAdoptionToken { adoption_token_str : string }.
(* @src domain/identity.rs:24-35 AdoptionTokenHash *)
Record AdoptionTokenHash := MkAdoptionTokenHash { adoption_hash_str : string }.
(* @src domain/execution.rs:9-20 RuntimeCommandHandle *)
Record RuntimeCommandHandle := MkRuntimeCommandHandle { runtime_handle_str : string }.

(* @src domain/identity.rs:119-123 RpcRequestId *)
Inductive RpcRequestId :=
  | RpcNumber (value : Z)
  | RpcString (value : string).

(* @src domain/identity.rs:134-147 RequestKey *)
Record RequestKey := MkRequestKey {
  rk_session_id : McpSessionId;
  rk_request_id : RpcRequestId
}.

#[export] Instance McpSessionId_eq_dec : EqDecision McpSessionId.
Proof. solve_decision. Defined.
#[export] Instance PublicSessionId_eq_dec : EqDecision PublicSessionId.
Proof. solve_decision. Defined.
#[export] Instance TaskId_eq_dec : EqDecision TaskId.
Proof. solve_decision. Defined.
#[export] Instance ExecutionId_eq_dec : EqDecision ExecutionId.
Proof. solve_decision. Defined.
#[export] Instance AdoptionToken_eq_dec : EqDecision AdoptionToken.
Proof. solve_decision. Defined.
#[export] Instance AdoptionTokenHash_eq_dec : EqDecision AdoptionTokenHash.
Proof. solve_decision. Defined.
#[export] Instance RuntimeCommandHandle_eq_dec : EqDecision RuntimeCommandHandle.
Proof. solve_decision. Defined.
#[export] Instance RpcRequestId_eq_dec : EqDecision RpcRequestId.
Proof. solve_decision. Defined.
#[export] Instance RequestKey_eq_dec : EqDecision RequestKey.
Proof. solve_decision. Defined.

#[export] Program Instance McpSessionId_countable : Countable McpSessionId :=
  inj_countable' mcp_session_str MkMcpSessionId _.
Next Obligation. by intros []. Qed.
#[export] Program Instance TaskId_countable : Countable TaskId :=
  inj_countable' task_id_str MkTaskId _.
Next Obligation. by intros []. Qed.
#[export] Program Instance ExecutionId_countable : Countable ExecutionId :=
  inj_countable' execution_id_str MkExecutionId _.
Next Obligation. by intros []. Qed.
#[export] Program Instance RpcRequestId_countable : Countable RpcRequestId :=
  inj_countable'
    (λ r, match r with RpcNumber z => inl z | RpcString s => inr s end)
    (λ r, match r with inl z => RpcNumber z | inr s => RpcString s end) _.
Next Obligation. by intros []. Qed.
#[export] Program Instance RequestKey_countable : Countable RequestKey :=
  inj_countable' (λ k, (rk_session_id k, rk_request_id k))
    (λ p, MkRequestKey p.1 p.2) _.
Next Obligation. by intros []. Qed.

(** ** Lifecycle *)

(* @src domain/lifecycle.rs:3-12 TerminalOutcome *)
Inductive TerminalOutcome :=
  | Completed | Failed | Cancelled | TimedOut | Lost | Blocked.

(* @src domain/lifecycle.rs:14-25 TerminalOutcome::as_str *)
Definition outcome_as_str (o : TerminalOutcome) : string :=
  match o with
  | Completed => "completed"
  | Failed => "failed"
  | Cancelled => "cancelled"
  | TimedOut => "timed_out"
  | Lost => "lost"
  | Blocked => "blocked"
  end.

(* @src domain/lifecycle.rs:27-33 LifecycleState *)
Inductive LifecycleState :=
  | LifecycleQueued
  | LifecycleRunning
  | LifecycleTerminal (outcome : TerminalOutcome).

(* @src domain/lifecycle.rs:35-39 LifecycleState::is_terminal *)
Definition lifecycle_is_terminal (s : LifecycleState) : bool :=
  match s with LifecycleTerminal _ => true | _ => false end.

#[export] Instance TerminalOutcome_eq_dec : EqDecision TerminalOutcome.
Proof. solve_decision. Defined.
#[export] Instance LifecycleState_eq_dec : EqDecision LifecycleState.
Proof. solve_decision. Defined.

(* @src domain/session.rs:1-7 McpSessionState *)
Inductive McpSessionState := SessionCreated | SessionActive | SessionClosing | SessionClosed.

(* @src domain/session.rs:9-13 McpSessionState::accepts_requests *)
Definition accepts_requests (s : McpSessionState) : bool :=
  match s with SessionCreated | SessionActive => true | _ => false end.

#[export] Instance McpSessionState_eq_dec : EqDecision McpSessionState.
Proof. solve_decision. Defined.

(** ** Errors *)

(* @src domain/error.rs:5-15 ErrorCategory *)
Inductive ErrorCategory :=
  | Validation | Authorization | Capacity | Conflict | Timeout | Unavailable | Internal.

(* @src domain/error.rs:17-26 OperationError *)
Record OperationError := MkOperationError {
  oe_code : string;
  oe_category : ErrorCategory;
  oe_message : string;
  oe_retryable : bool;
  oe_operation_id : option string;
  oe_request : option RequestKey;
  oe_task_id : option TaskId
}.
#[export] Instance eta_OperationError : Eta OperationError := λ r,
  MkOperationError (oe_code r) (oe_category r) (oe_message r) (oe_retryable r)
    (oe_operation_id r) (oe_request r) (oe_task_id r).

(* @src domain/error.rs:29-44 OperationError::new *)
Definition new_error (code : string) (category : ErrorCategory) (message : string)
    (retryable : bool) : OperationError :=
  MkOperationError code category message retryable None None None.

(* @src domain/error.rs:46-49 OperationError::for_operation *)
Definition for_operation (e : OperationError) (operation_id : string) : OperationError :=
  e <| oe_operation_id := Some operation_id |>.
(* @src domain/error.rs:51-54 OperationError::for_request *)
Definition for_request (e : OperationError) (request : RequestKey) : OperationError :=
  e <| oe_request := Some request |>.
(* @src domain/error.rs:56-59 OperationError::for_task *)
Definition for_task (e : OperationError) (task_id : TaskId) : OperationError :=
  e <| oe_task_id := Some task_id |>.

(* @src domain/error.rs:62-72 FaultSource *)
Inductive FaultSource :=
  | FaultRuntime | FaultAuthority | FaultScheduler | FaultWorkspace
  | FaultConnection | FaultSettings | FaultSnapshot.

(* @src domain/error.rs:74-81 PersistentFault *)
Record PersistentFault := MkPersistentFault {
  pf_id : string;
  pf_source : FaultSource;
  pf_error : OperationError;
  pf_first_seen_at_ms : millis;
  pf_last_seen_at_ms : millis
}.

#[export] Instance ErrorCategory_eq_dec : EqDecision ErrorCategory.
Proof. solve_decision. Defined.
#[export] Instance OperationError_eq_dec : EqDecision OperationError.
Proof. solve_decision. Defined.
#[export] Instance FaultSource_eq_dec : EqDecision FaultSource.
Proof. solve_decision. Defined.
#[export] Instance PersistentFault_eq_dec : EqDecision PersistentFault.
Proof. solve_decision. Defined.

(** ** Executions *)

(* @src domain/execution.rs:28-36 ExecutionTerminal *)
Record ExecutionTerminal := MkExecutionTerminal {
  et_outcome : TerminalOutcome;
  et_exit_code : option Z;
  et_signal : option string;
  et_output_refs : list string;
  et_error_code : option string;
  et_completed_at_ms : millis
}.
#[export] Instance eta_ExecutionTerminal : Eta ExecutionTerminal := λ r,
  MkExecutionTerminal (et_outcome r) (et_exit_code r) (et_signal r)
    (et_output_refs r) (et_error_code r) (et_completed_at_ms r).

(* @src domain/execution.rs:38-44 ExecutionState *)
Inductive ExecutionState :=
  | ExecutionQueued
  | ExecutionRunning
  | ExecutionTerminated (terminal : ExecutionTerminal).

(* @src domain/execution.rs:46-50 ExecutionState::is_terminal *)
Definition execution_is_terminal (s : ExecutionState) : bool :=
  match s with ExecutionTerminated _ => true | _ => false end.

(* @src domain/execution.rs:52-68 ExecutionRecord *)
Record ExecutionRecord := MkExecutionRecord {
  er_id : ExecutionId;
  er_task_id : TaskId;
  er_public_session_id : PublicSessionId;
  er_owner_session : option McpSessionId;
  er_adoption_token_hash : option AdoptionTokenHash;
  er_runtime_handle : option RuntimeCommandHandle;
  er_state : ExecutionState;
  er_started_at_ms : millis;
  er_last_observed_at_ms : millis;
  er_orphaned_at_ms : option millis
}.
#[export] Instance eta_ExecutionRecord : Eta ExecutionRecord := λ r,
  MkExecutionRecord (er_id r) (er_task_id r) (er_public_session_id r)
    (er_owner_session r) (er_adoption_token_hash r) (er_runtime_handle r)
    (er_state r) (er_started_at_ms r) (er_last_observed_at_ms r)
    (er_orphaned_at_ms r).

#[export] Instance ExecutionTerminal_eq_dec : EqDecision ExecutionTerminal.
Proof. solve_decision. Defined.
#[export] Instance ExecutionState_eq_dec : EqDecision ExecutionState.
Proof. solve_decision. Defined.
#[export] Instance ExecutionRecord_eq_dec : EqDecision ExecutionRecord.
Proof. solve_decision. Defined.

(** Requests of different sessions never share a key, whatever their ids. *)
Lemma request_key_scoped s1 s2 r1 r2 :
  s1 ≠ s2 → MkRequestKey s1 r1 ≠ MkRequestKey s2 r2.
Proof. congruence. Qed.
