(* ===== verification/TaskSummary.v ===== *)
(** * TaskSummary: what of an untrusted request may be shown

    [src/src-tauri/src/domain/task.rs]: [SafeTaskSummary::from_untrusted]
    normalises a raw request, drops it entirely when it looks like it carries
    a secret, and bounds its length otherwise. *)

From S2P Require Import Prelude Text Domain.
#[local] Open Scope N_scope.

(* @src domain/task.rs:5-5 MAX_SAFE_SUMMARY_CHARS *)
Definition MAX_SAFE_SUMMARY_CHARS : nat := 160.

(* @src domain/task.rs:6-17 SENSITIVE_MARKERS *)
Definition SENSITIVE_MARKERS : list ustr := Eval vm_compute in
  lit <$> ["authorization:"; "bearer "; "api_key"; "api-key"; "runtime api key";
           "credential"; "session secret"; "broker nonce"; "nonce="; "sk-"].

(* @src domain/task.rs:18-53 SENSITIVE_KEYS *)
Definition SENSITIVE_KEYS : list ustr := Eval vm_compute in
  lit <$> ["token"; "access_token"; "access-token"; "refresh_token"; "refresh-token";
           "id_token"; "id-token"; "auth_token"; "auth-token"; "session_token";
           "session-token"; "client_token"; "client-token"; "api_key"; "api-key";
           "apikey"; "runtime_api_key"; "runtime-api-key"; "password"; "passwd";
           "passphrase"; "pwd"; "secret"; "private_key"; "private-key";
           "secret_key"; "secret-key"; "client_secret"; "client-secret";
           "session_secret"; "session-secret"; "authorization"; "nonce"; "credential"].

(* @src domain/task.rs:55-57 is_identifier_char *)
Definition is_identifier_char (c : N) : bool := is_ascii_alphanumeric c || (c =? 0x5F).

(** [Option::is_none_or]. *)
Definition is_none_or {A} (f : A → bool) (o : option A) : bool :=
  match o with None => true | Some a => f a end.

(** One occurrence of a key between [before] and [after] is a leak when it is a
    whole identifier and is followed by [=] or [:], or is a [--] option. *)
(* @src domain/task.rs:66-79 contains_sensitive_key_value (the test of one match) *)
Definition sensitive_at (before after : ustr) : bool :=
  let bounded_before := is_none_or (λ c, negb (is_identifier_char c)) (list.last before) in
  let bounded_after := is_none_or (λ c, negb (is_identifier_char c)) (list.head after) in
  bounded_before && bounded_after &&
  (let suffix := drop_while (λ c, is_ascii_whitespace c || (c =? 0x27) || (c =? 0x22)) after in
   starts_with (lit "=") suffix || starts_with (lit ":") suffix ||
   ends_with (lit "--") before).

(** The [while let] loop over the matches of one key: [before] is
    [lower[..search_from]], [rest] is [lower[search_from..]]. *)
(* @src domain/task.rs:59-84 contains_sensitive_key_value (the loop of one key) *)
Fixpoint scan_key (fuel : nat) (key before rest : ustr) : bool :=
  match fuel with
  | O => false
  | S fuel =>
    match find_sub key rest with
    | None => false
    | Some i =>
        let before' := before ++ take i rest in
        let after := drop (i + length key) rest in
        sensitive_at before' after || scan_key fuel key (before' ++ key) after
    end
  end.

(** Every key is non-empty, so each round consumes a character and
    [S (length lower)] rounds always reach the end of the text. *)
(* @src domain/task.rs:59-84 contains_sensitive_key_value *)
Definition contains_sensitive_key_value (lower : ustr) : bool :=
  existsb (λ key, scan_key (S (length lower)) key [] lower) SENSITIVE_KEYS.

(* @src domain/task.rs:86-98 TaskKind *)
Inductive TaskKind :=
  | ReadFile | SearchCode | ModifyFile | ExecuteCommand | GitOperation
  | BuildTask | TestTask | ElevatedOperation | OtherTask.

(* @src domain/task.rs:100-105 SafeTaskSummary *)
Inductive SafeTaskSummary :=
  | SummaryOmitted
  | SummaryText (text : ustr).

(* @src domain/task.rs:109-109 from_untrusted (whitespace normalisation) *)
Definition normalize_summary (raw : ustr) : ustr :=
  join (lit " ") (split_whitespace raw).

(** The ellipsis [U+2026]. *)
Definition ellipsis : ustr := [0x2026].

(* @src domain/task.rs:108-128 SafeTaskSummary::from_untrusted *)
Definition from_untrusted (raw : ustr) : SafeTaskSummary :=
  let normalized := normalize_summary raw in
  if bool_decide (normalized = []) then SummaryOmitted else
  let lower := to_ascii_lowercase normalized in
  if existsb (λ marker, contains marker lower) SENSITIVE_MARKERS
     || contains_sensitive_key_value lower
  then SummaryOmitted
  else
    let text := take MAX_SAFE_SUMMARY_CHARS normalized in
    match drop MAX_SAFE_SUMMARY_CHARS normalized with
    | _ :: _ => SummaryText (text ++ ellipsis)
    | [] => SummaryText text
    end.

(* @src domain/task.rs:130-135 SafeTaskSummary::as_deref *)
Definition summary_as_deref (s : SafeTaskSummary) : option ustr :=
  match s with SummaryOmitted => None | SummaryText v => Some v end.

(* @src domain/task.rs:138-149 TaskRecord *)
Record TaskRecord := MkTaskRecord {
  tr_id : TaskId;
  tr_owner_session : McpSessionId;
  tr_request : RequestKey;
  tr_kind : TaskKind;
  tr_summary : SafeTaskSummary;
  tr_lifecycle : LifecycleState;
  tr_created_at_ms : millis;
  tr_updated_at_ms : millis;
  tr_error : option OperationError
}.
#[export] Instance eta_TaskRecord : Eta TaskRecord := λ r,
  MkTaskRecord (tr_id r) (tr_owner_session r) (tr_request r) (tr_kind r) (tr_summary r)
    (tr_lifecycle r) (tr_created_at_ms r) (tr_updated_at_ms r) (tr_error r).

#[export] Instance TaskKind_eq_dec : EqDecision TaskKind.
Proof. solve_decision. Defined.
#[export] Instance SafeTaskSummary_eq_dec : EqDecision SafeTaskSummary.
Proof. solve_decision. Defined.
#[export] Instance TaskRecord_eq_dec : EqDecision TaskRecord.
Proof. solve_decision. Defined.

Example summary_omits_bearer :
  from_untrusted (lit "Authorization: Bearer hidden-value") = SummaryOmitted.
Proof. vm_compute. reflexivity. Qed.
Example summary_omits_option :
  from_untrusted (lit "--password hidden-value") = SummaryOmitted.
Proof. vm_compute. reflexivity. Qed.
Example summary_keeps_tokenizer :
  from_untrusted (lit "read  src/tokenizer.rs ") = SummaryText (lit "read src/tokenizer.rs").
Proof. vm_compute. reflexivity. Qed.

(** ** The key scan finds every leaking occurrence

    The loop only looks at non-overlapping matches.  That loses nothing because
    no key has a border: two occurrences of a key never overlap. *)

Definition border_free (key : ustr) : bool :=
  forallb (λ k, negb (starts_with (drop k key) key)) (seq 1 (length key - 1)).

Lemma border_free_no_overlap key u0 v0 u v :
  border_free key = true →
  u0 ++ key ++ v0 = u ++ key ++ v →
  (length u0 < length u)%nat →
  (length u0 + length key ≤ length u)%nat.
Proof.
  intros Hbf Heq Hlt. destruct (decide (length u0 + length key ≤ length u)%nat) as [|Hov]; [done|].
  exfalso. apply app_split_le in Heq as (w & Hu & Heq); [|lia].
  apply (f_equal length) in Hu as Hlen. rewrite length_app in Hlen.
  assert (starts_with (drop (length w) key) key = true) as Hsw.
  { apply (starts_with_app_inv _ key v); [|rewrite length_drop; lia].
    apply starts_with_iff. exists v0.
    apply (f_equal (drop (length w))) in Heq.
    rewrite drop_app_le, drop_app_length in Heq by lia. done. }
  unfold border_free in Hbf. rewrite forallb_forall in Hbf.
  specialize (Hbf (length w)). rewrite Hsw in Hbf.
  cut (negb true = true); [done|]. apply Hbf. apply in_seq. lia.
Qed.

Section scan.
Context (key : ustr) (Hne : key ≠ []) (Hbf : border_free key = true).

Lemma scan_key_spec fuel before rest :
  (length rest < fuel)%nat →
  scan_key fuel key before rest = true ↔
  ∃ u v, rest = u ++ key ++ v ∧ sensitive_at (before ++ u) v = true.
Proof.
  revert before rest. induction fuel as [|fuel IH]; intros before rest Hf; [lia|].
  simpl. destruct (find_sub key rest) as [i|] eqn:Hfind.
  2:{ split; [done|]. intros (u & v & -> & _). by eapply find_sub_None in Hfind. }
  apply find_sub_Some in Hfind as (u0 & v0 & -> & <- & Hmin).
  replace (drop (length u0 + length key) (u0 ++ key ++ v0)) with v0
    by (rewrite app_assoc, <-length_app; by rewrite drop_app_length).
  rewrite take_app_length, <-app_assoc.
  assert (0 < length key)%nat by (destruct key; simpl in *; [done|lia]).
  assert (length v0 < fuel)%nat as Hf' by (rewrite !length_app in Hf; lia).
  rewrite orb_true_iff, (IH _ _ Hf'). split.
  - intros [Hs|(u & v & -> & Hs)]; [by exists u0, v0|].
    exists (u0 ++ key ++ u), v. rewrite <-!app_assoc in Hs. by rewrite <-!app_assoc.
  - intros (u & v & Heq & Hs). pose proof (Hmin _ _ Heq) as Hle.
    destruct (decide (length u0 = length u)) as [Hl|Hl].
    + apply app_inj_1 in Heq as [-> Heq]; [|done].
      apply app_inv_head in Heq as ->. by left.
    + right. pose proof (border_free_no_overlap _ _ _ _ _ Hbf Heq ltac:(lia)) as Hov.
      rewrite app_assoc in Heq.
      apply app_split_le in Heq as (w & -> & ->); [|rewrite length_app; lia].
      exists w, v. split; [done|]. rewrite <-!app_assoc in Hs. by rewrite <-!app_assoc.
Qed.
End scan.

Lemma sensitive_keys_border_free :
  forallb (λ key, negb (bool_decide (key = [])) && border_free key) SENSITIVE_KEYS = true.
Proof. vm_compute. reflexivity. Qed.

Lemma contains_sensitive_key_value_iff lower :
  contains_sensitive_key_value lower = true ↔
  ∃ key u v, In key SENSITIVE_KEYS ∧ lower = u ++ key ++ v ∧ sensitive_at u v = true.
Proof.
  unfold contains_sensitive_key_value. rewrite existsb_exists.
  pose proof sensitive_keys_border_free as Hkeys. rewrite forallb_forall in Hkeys.
  assert (∀ key, In key SENSITIVE_KEYS →
    scan_key (S (length lower)) key [] lower = true ↔
    ∃ u v, lower = u ++ key ++ v ∧ sensitive_at u v = true) as Hspec.
  { intros key Hin. specialize (Hkeys key Hin).
    apply andb_true_iff in Hkeys as [Hne%negb_true_iff Hbf].
    apply bool_decide_eq_false in Hne. apply (scan_key_spec key Hne Hbf _ [] lower). lia. }
  split.
  - intros (key & Hin & Hs). apply Hspec in Hs as (u & v & ? & ?); eauto 8.
  - intros (key & u & v & Hin & ? & ?). exists key. split; [done|]. apply Hspec; eauto.
Qed.

(** ** The visible text *)

Lemma sensitive_markers_plain :
  forallb (λ m, negb (bool_decide (m = [])) && forallb (λ c, negb (c =? 0x2026)) m)
    SENSITIVE_MARKERS = true.
Proof. vm_compute. reflexivity. Qed.

(** Truncating and appending a character that occurs in no marker never
    creates a marker. *)
Lemma truncated_marker_free (m s : ustr) k e :
  m ≠ [] → forallb (λ c, negb (c =? e)) m = true →
  contains m s = false → contains m (take k s ++ [e]) = false.
Proof.
  intros Hne Hm. rewrite !contains_false_iff. intros Hs u v Heq.
  destruct v as [|x v] using rev_ind.
  - rewrite app_nil_r in Heq. destruct m as [|y m] using rev_ind; [done|].
    rewrite app_assoc in Heq. apply app_inj_tail in Heq as [_ <-].
    rewrite forallb_forall in Hm. specialize (Hm e).
    rewrite N.eqb_refl in Hm. apply diff_false_true, Hm, in_app_iff. simpl. auto.
  - rewrite !app_assoc in Heq. apply app_inj_tail in Heq as [Heq _].
    apply (Hs u (v ++ drop k s)). rewrite <-(take_drop k s) at 1.
    by rewrite Heq, <-!app_assoc.
Qed.

Lemma from_untrusted_Text raw t :
  from_untrusted raw = SummaryText t →
  let n := normalize_summary raw in
  t = (if (length n <=? MAX_SAFE_SUMMARY_CHARS)%nat then n
       else take MAX_SAFE_SUMMARY_CHARS n ++ ellipsis) ∧
  (∀ m, In m SENSITIVE_MARKERS → contains m (to_ascii_lowercase n) = false) ∧
  contains_sensitive_key_value (to_ascii_lowercase n) = false.
Proof.
  unfold from_untrusted. set (n := normalize_summary raw).
  case_bool_decide; [done|].
  destruct (existsb _ _ || _) eqn:Hsec; [done|].
  apply orb_false_iff in Hsec as [Hm Hk]. intros Ht. split_and!; [|intros m Hin|done].
  - destruct (drop MAX_SAFE_SUMMARY_CHARS n) as [|c d] eqn:Hd; simplify_eq/=;
      apply (f_equal length) in Hd; rewrite length_drop in Hd; simpl in Hd.
    + rewrite (proj2 (Nat.leb_le _ _)) by lia. rewrite take_ge; [done|lia].
    + rewrite (proj2 (Nat.leb_gt _ _)); [done|lia].
  - apply not_true_iff_false. intros Hc. apply diff_false_true. rewrite <-Hm.
    apply existsb_exists. eauto.
Qed.

(** C30 (safety): what the interface shows of an untrusted request is bounded
    and carries no secret marker.  Whenever [from_untrusted] returns a text, the
    text has at most 161 characters, its lower-case form contains no marker of
    [SENSITIVE_MARKERS] (truncation and the appended ellipsis included), and the
    normalised request it comes from nowhere assigns one of [SENSITIVE_KEYS]. *)
Theorem from_untrusted_safe raw t :
  from_untrusted raw = SummaryText t →
  (length t ≤ 161)%nat ∧
  (∀ m, In m SENSITIVE_MARKERS → contains m (to_ascii_lowercase t) = false) ∧
  (∀ key u v, In key SENSITIVE_KEYS →
     to_ascii_lowercase (normalize_summary raw) = u ++ key ++ v →
     sensitive_at u v = false).
Proof.
  intros (Ht & Hm & Hk)%from_untrusted_Text. split_and!.
  - rewrite Ht. case_match eqn:Hl; [apply Nat.leb_le in Hl|]; unfold MAX_SAFE_SUMMARY_CHARS in *.
    + lia.
    + rewrite length_app, length_take. change (length ellipsis) with 1%nat. lia.
  - intros m Hin. specialize (Hm m Hin). rewrite Ht. case_match; [done|].
    pose proof sensitive_markers_plain as Hp. rewrite forallb_forall in Hp.
    specialize (Hp m Hin). apply andb_true_iff in Hp as [Hne%negb_true_iff Hp].
    apply bool_decide_eq_false in Hne.
    rewrite to_ascii_lowercase_app. unfold to_ascii_lowercase at 1.
    rewrite <-firstn_map. by apply truncated_marker_free.
  - intros key u v Hin Heq. apply not_true_iff_false. intros Hs.
    apply diff_false_true. rewrite <-Hk. apply contains_sensitive_key_value_iff. eauto 8.
Qed.

Lemma from_untrusted_safe_witness :
  from_untrusted (lit "cargo  test") = SummaryText (lit "cargo test") ∧
  (length (lit "cargo test") ≤ 161)%nat.
Proof.
  split; [vm_compute; reflexivity|].
  refine (proj1 (from_untrusted_safe (lit "cargo  test") _ _)).
  vm_compute. reflexivity.
Defined.

(** The scanning loop is complete.  Although it only examines
    non-overlapping matches, it reports a text exactly when some key of
    [SENSITIVE_KEYS] occurs anywhere in it as a whole identifier that is
    assigned or passed as an option. *)
Theorem key_scan_equiv lower :
  contains_sensitive_key_value lower = true ↔
  ∃ key u v, In key SENSITIVE_KEYS ∧ lower = u ++ key ++ v ∧ sensitive_at u v = true.
Proof. apply contains_sensitive_key_value_iff. Qed.
