(* ===== verification/StateModel.v ===== *)
(** * StateModel: the enumerations the control plane and the runtime share

    [src/src-tauri/src/state]: permission modes, the privilege broker's state,
    the runtime's state, and the presentation of the current task. *)

From S2P Require Import Prelude Text Domain TaskSummary.

(** A [PathBuf].  Paths are compared but never taken apart here; [std::path]
    compares them by components, so a path stands for its normal form. *)
Abbreviation path := string.

(** ** Permission *)

(* @src state/permission.rs:3-9 PermissionMode *)
Inductive PermissionMode := PermissionEdit | PermissionFull | PermissionElevated.

(* @src state/permission.rs:12-17 PermissionMode::ordinary_execution_mode *)
Definition ordinary_execution_mode (m : PermissionMode) : PermissionMode :=
  match m with PermissionElevated => PermissionFull | mode => mode end.

(* @src state/permission.rs:19-21 PermissionMode::elevation_selected *)
Definition elevation_selected (m : PermissionMode) : bool :=
  match m with PermissionElevated => true | _ => false end.

(* @src state/permission.rs:24-35 Capability *)
Inductive Capability :=
  | CapRead | CapWrite | CapProcessExec | CapGit | CapWorkflow
  | CapPrivilegedExternalRuntime | CapElevatedExec | CapControlPlane | CapUnknown.

(* @src state/permission.rs:38-40 Capability::is_control_plane *)
Definition is_control_plane (c : Capability) : bool :=
  match c with CapControlPlane => true | _ => false end.

(* @src state/permission.rs:42-44 Capability::requires_privileged_broker *)
Definition requires_privileged_broker (c : Capability) : bool :=
  match c with CapElevatedExec => true | _ => false end.

(** ** Privilege *)

(* @src state/privilege.rs:3-14 GenerationId *)
Record GenerationId := MkGenerationId { generation_get : N }.

(* @src state/privilege.rs:16-27 PrivilegeFault *)
Inductive PrivilegeFault :=
  | UacDenied | BrokerLaunchFailed | HandshakeFailed | BrokerExited
  | IpcUnavailable | ProtocolMismatch | UnauthorizedPeer | PrivilegeUnknown.

(* @src state/privilege.rs:29-37 PrivilegeState *)
Inductive PrivilegeState :=
  | PrivilegeDisabled
  | PrivilegeRequested
  | PrivilegeAwaitingUac
  | PrivilegeActive (broker_generation : GenerationId)
  | PrivilegeFaulted (fault : PrivilegeFault).

(* @src state/privilege.rs:40-42 PrivilegeState::accepts_privileged_calls *)
Definition accepts_privileged_calls (s : PrivilegeState) : bool :=
  match s with PrivilegeActive _ => true | _ => false end.

(* @src state/privilege.rs:44-46 PrivilegeState::needs_explicit_user_authorization *)
Definition needs_explicit_user_authorization (s : PrivilegeState) : bool :=
  match s with PrivilegeRequested | PrivilegeAwaitingUac => true | _ => false end.

(* @src state/privilege.rs:48-50 PrivilegeState::is_faulted *)
Definition privilege_is_faulted (s : PrivilegeState) : bool :=
  match s with PrivilegeFaulted _ => true | _ => false end.

(** ** Runtime *)

(* @src state/runtime.rs:5-11 RuntimeComponent *)
Inductive RuntimeComponent := CodingRuntime | PolicyEnforcement | TunnelComponent.

(* @src state/runtime.rs:13-39 RuntimeFault *)
Inductive RuntimeFault :=
  | WorkspaceMissing | WorkspaceInvalid | RuntimeMissing | RuntimeChecksumMismatch
  | ProcessOwnershipFailed | McpSpawnFailed | McpHealthTimeout | McpExited
  | PolicyBindFailed | PolicyInvalid | PolicyCapabilityUnknown | TunnelIdMissing
  | RuntimeKeyMissing | SecretStoreFailed | SecretInjectionUnsupported
  | TunnelAuthFailed | TunnelSpawnFailed | TunnelHealthTimeout | TunnelExited
  | PortUnavailable | ConfigurationInvalid | UserStopped | RuntimeUnknown.

(* @src state/runtime.rs:41-61 RuntimeState *)
Inductive RuntimeState :=
  | RuntimeStopped
  | StartingMcp
  | WaitingMcpReady
  | StartingPolicyEnforcement
  | WaitingPolicyReady
  | StartingTunnel
  | WaitingTunnelReady
  | RuntimeReady
  | Recovering (component : RuntimeComponent) (attempt : N)
  | SwitchingWorkspace (from candidate : path)
  | RuntimeFaulted (fault : RuntimeFault).

(* @src state/runtime.rs:64-66 RuntimeState::is_ready *)
Definition runtime_is_ready (s : RuntimeState) : bool :=
  match s with RuntimeReady => true | _ => false end.

(* @src state/runtime.rs:68-70 RuntimeState::is_faulted *)
Definition runtime_is_faulted (s : RuntimeState) : bool :=
  match s with RuntimeFaulted _ => true | _ => false end.

(* @src state/runtime.rs:73-81 ComponentLifecycle *)
Inductive ComponentLifecycle :=
  | ComponentStopped | ComponentStarting | ComponentWaitingReady | ComponentReady
  | ComponentStopping | ComponentFaulted (fault : RuntimeFault).

(* @src state/runtime.rs:83-96 ComponentStatus *)
Record ComponentStatus := MkComponentStatus {
  cs_component : RuntimeComponent;
  cs_lifecycle : ComponentLifecycle
}.

#[export] Instance PermissionMode_eq_dec : EqDecision PermissionMode.
Proof. solve_decision. Defined.
#[export] Instance Capability_eq_dec : EqDecision Capability.
Proof. solve_decision. Defined.
#[export] Instance GenerationId_eq_dec : EqDecision GenerationId.
Proof. solve_decision. Defined.
#[export] Instance PrivilegeFault_eq_dec : EqDecision PrivilegeFault.
Proof. solve_decision. Defined.
#[export] Instance PrivilegeState_eq_dec : EqDecision PrivilegeState.
Proof. solve_decision. Defined.
#[export] Instance RuntimeComponent_eq_dec : EqDecision RuntimeComponent.
Proof. solve_decision. Defined.
#[export] Instance RuntimeFault_eq_dec : EqDecision RuntimeFault.
Proof. solve_decision. Defined.
#[export] Instance RuntimeState_eq_dec : EqDecision RuntimeState.
Proof. solve_decision. Defined.

(** ** The current task *)

(* @src state/task.rs:3-11 TaskExecutionState *)
Inductive TaskExecutionState :=
  | TaskIdle | TaskRunning | TaskAwaitingAuthorization | TaskBlocked | TaskFailed
  | TaskCancelled.

(* @src state/task.rs:13-17 TaskExecutionState::is_terminal *)
Definition task_state_is_terminal (s : TaskExecutionState) : bool :=
  match s with TaskBlocked | TaskFailed | TaskCancelled => true | _ => false end.

#[export] Instance TaskExecutionState_eq_dec : EqDecision TaskExecutionState.
Proof. solve_decision. Defined.

(* @src state/task.rs:122-130 CurrentTaskContractError *)
Inductive CurrentTaskContractError :=
  | ActiveTaskCannotBeIdle
  | NoActiveTask
  | InvalidStateTransition (from to : TaskExecutionState).

(* @src state/task.rs:19-25 CurrentTask *)
Record CurrentTask := MkCurrentTask {
  ct_kind : TaskKind;
  ct_summary : SafeTaskSummary;
  ct_state : TaskExecutionState
}.
#[export] Instance eta_CurrentTask : Eta CurrentTask := λ r,
  MkCurrentTask (ct_kind r) (ct_summary r) (ct_state r).

(* @src state/task.rs:28-41 CurrentTask::new *)
Definition new_current_task (kind : TaskKind) (summary : SafeTaskSummary)
    (state : TaskExecutionState) : result CurrentTaskContractError CurrentTask :=
  if bool_decide (state = TaskIdle) then Err ActiveTaskCannotBeIdle
  else Ok (MkCurrentTask kind summary state).

(* @src state/task.rs:44-49 CurrentTaskStatus *)
Inductive CurrentTaskStatus :=
  | StatusIdle
  | StatusActive (task : CurrentTask).

(* @src state/task.rs:76-85 CurrentTaskStatus::project *)
Definition project_status (kind : TaskKind) (summary : SafeTaskSummary)
    (state : TaskExecutionState) : result CurrentTaskContractError CurrentTaskStatus :=
  if bool_decide (state = TaskIdle) then Ok StatusIdle
  else t ← new_current_task kind summary state; Ok (StatusActive t).

(* @src state/task.rs:87-93 CurrentTaskStatus::start *)
Definition start_status (kind : TaskKind) (raw_summary : ustr) : CurrentTaskStatus :=
  StatusActive (MkCurrentTask kind (from_untrusted raw_summary) TaskRunning).

(* @src state/task.rs:95-115 CurrentTaskStatus::set_state *)
Definition set_state (self : CurrentTaskStatus) (state : TaskExecutionState) :
    CurrentTaskStatus * result CurrentTaskContractError unit :=
  match state with
  | TaskIdle => (StatusIdle, Ok ())
  | _ =>
    match self with
    | StatusIdle => (self, Err NoActiveTask)
    | StatusActive task =>
        if task_state_is_terminal (ct_state task)
        then (self, Err (InvalidStateTransition (ct_state task) state))
        else (StatusActive (task <| ct_state := state |>), Ok ())
    end
  end.

(* @src state/task.rs:117-119 CurrentTaskStatus::clear *)
Definition clear_status (self : CurrentTaskStatus) : CurrentTaskStatus := StatusIdle.

(** The status the interface shows is built by [project] and [start] and
    changed by [set_state] and [clear]. *)
Inductive status_step : CurrentTaskStatus → CurrentTaskStatus → Prop :=
  | StepSetState s state : status_step s (set_state s state).1
  | StepClear s : status_step s (clear_status s).

#[export] Instance status_machine : StateMachine CurrentTaskStatus := {|
  sm_init s := s = StatusIdle ∨ (∃ kind raw, s = start_status kind raw) ∨
    (∃ kind summary state, project_status kind summary state = Ok s);
  sm_step := status_step
|}.

(** An active task is never presented as idle. *)
Definition status_wf (s : CurrentTaskStatus) : Prop :=
  match s with StatusIdle => True | StatusActive t => ct_state t ≠ TaskIdle end.

#[export] Instance status_wf_invariant : Invariant status_wf.
Proof.
  split.
  - intros s [->|[(kind & raw & ->)|(kind & summary & state & Hp)]]; [done..|].
    unfold project_status, new_current_task in Hp.
    by case_bool_decide; simplify_eq/=.
  - intros s s' Hs Hstep. destruct Hstep as [s state|s]; [|done].
    by destruct state, s as [|[? ? []]]; simpl in *.
Qed.

(** A finished task stays as it is until it is cleared. *)
Lemma set_state_terminal t state :
  task_state_is_terminal (ct_state t) = true →
  set_state (StatusActive t) state =
    (if bool_decide (state = TaskIdle) then (StatusIdle, Ok ())
     else (StatusActive t, Err (InvalidStateTransition (ct_state t) state))).
Proof. intros Ht. destruct state; simpl; rewrite ?Ht; done. Qed.

(** in every reachable status of the current task an active task
    carries a state other than idle, and once that state is terminal the only
    change any further [set_state] can make is back to idle; every other request
    is answered by [InvalidStateTransition] and leaves the status untouched. *)
Theorem current_task_no_resurrection s :
  reachable s →
  status_wf s ∧
  ∀ t state, s = StatusActive t → task_state_is_terminal (ct_state t) = true →
    set_state s state =
      (if bool_decide (state = TaskIdle) then (StatusIdle, Ok ())
       else (s, Err (InvalidStateTransition (ct_state t) state))).
Proof.
  intros Hr. split; [by apply (invariant_reachable status_wf)|].
  intros t state -> Ht. by apply set_state_terminal.
Qed.

Lemma current_task_no_resurrection_witness :
  let s := StatusActive (MkCurrentTask TestTask SummaryOmitted TaskFailed) in
  set_state s TaskRunning = (s, Err (InvalidStateTransition TaskFailed TaskRunning)).
Proof.
  intros s.
  refine (proj2 (current_task_no_resurrection s _)
    (MkCurrentTask TestTask SummaryOmitted TaskFailed) TaskRunning _ _).
  - exists s. split; [|constructor]. right. right.
    exists TestTask, SummaryOmitted, TaskFailed. reflexivity.
  - reflexivity.
  - reflexivity.
Defined.
