(* ===== verification/Workspace.v ===== *)
(** * Workspace: the project registry and the identity of a workspace

    [src/src-tauri/src/workspace/registry.rs] and [validator.rs], with the
    project commands of [commands/ui.rs] that edit the registry.  The Windows
    file calls of the validator are the interface [Win32Files]. *)

From S2P Require Import Prelude Text Domain TaskSummary StateModel.
#[local] Open Scope N_scope.

(** ** Data *)

(* @src workspace/registry.rs:8-8 WorkspaceId *)
Record WorkspaceId := MkWorkspaceId { workspace_id_str : ustr }.
#[export] Instance WorkspaceId_eq_dec : EqDecision WorkspaceId.
Proof. solve_decision. Defined.

(* @src workspace/registry.rs:302-317 WorkspaceRegistryError *)
Inductive WorkspaceRegistryError :=
  | EmptyWorkspaceId | EmptyValidatedIdentity | EmptyDisplayPath | WorkspaceIdCollision
  | DuplicateWorkspaceId | DuplicateValidatedIdentity | ActiveWorkspaceMissingFromRegistry
  | WorkspaceIdMissing | PersistedIdentityMismatch | ExecutionPathUnavailable
  | ExecutionPathIdentityMismatch | WorkspaceNotDirectory
  | WorkspaceValidationWindowsApi (operation : string) (code : N)
  | UnsupportedPlatform.

(** [value.trim().is_empty()]. *)
Definition blank (s : ustr) : bool := bool_decide (trim s = []).

(* @src workspace/registry.rs:11-17 WorkspaceId::from_validated *)
Definition workspace_id_from (value : ustr) : result WorkspaceRegistryError WorkspaceId :=
  if blank value then Err EmptyWorkspaceId else Ok (MkWorkspaceId value).

(* @src workspace/registry.rs:28-28 PersistedWorkspaceIdentity *)
Record PersistedWorkspaceIdentity := MkPersistedIdentity { persisted_identity_str : ustr }.
#[export] Instance PersistedWorkspaceIdentity_eq_dec : EqDecision PersistedWorkspaceIdentity.
Proof. solve_decision. Defined.

(* @src workspace/registry.rs:35-43 PersistedWorkspaceIdentity::from_persisted_claim *)
Definition identity_from_claim (value : ustr) :
    result WorkspaceRegistryError PersistedWorkspaceIdentity :=
  if blank value then Err EmptyValidatedIdentity else Ok (MkPersistedIdentity value).

(* @src workspace/validator.rs:24-24 ValidatedWorkspaceIdentity *)
Record ValidatedWorkspaceIdentity := MkValidatedIdentity { identity_str : ustr }.
#[export] Instance ValidatedWorkspaceIdentity_eq_dec : EqDecision ValidatedWorkspaceIdentity.
Proof. solve_decision. Defined.

(* @src workspace/validator.rs:27-32 ValidatedWorkspaceIdentity::from_filesystem *)
Definition identity_from_filesystem (value : ustr) :
    result WorkspaceRegistryError ValidatedWorkspaceIdentity :=
  if blank value then Err EmptyValidatedIdentity else Ok (MkValidatedIdentity value).

(* @src workspace/validator.rs:40-44 ValidatedWorkspace *)
Record ValidatedWorkspace := MkValidatedWorkspace {
  vw_identity : ValidatedWorkspaceIdentity;
  vw_resolved_path : path;
  vw_execution_path : path
}.

(* @src workspace/registry.rs:52-57 WorkspaceEntry *)
Record WorkspaceEntry := MkWorkspaceEntry {
  we_workspace_id : WorkspaceId;
  we_display_path : path;
  we_validated_identity : PersistedWorkspaceIdentity;
  we_last_opened_at : N
}.
#[export] Instance eta_WorkspaceEntry : Eta WorkspaceEntry := λ r,
  MkWorkspaceEntry (we_workspace_id r) (we_display_path r) (we_validated_identity r)
    (we_last_opened_at r).

(* @src workspace/registry.rs:92-103 WorkspaceEntry::validate *)
Definition validate_entry (e : WorkspaceEntry) : result WorkspaceRegistryError unit :=
  if bool_decide (we_display_path e = ""%string) then Err EmptyDisplayPath
  else if blank (workspace_id_str (we_workspace_id e)) then Err EmptyWorkspaceId
  else if blank (persisted_identity_str (we_validated_identity e))
       then Err EmptyValidatedIdentity
  else Ok ().

(* @src workspace/registry.rs:60-74 WorkspaceEntry::from_validated *)
Definition entry_from_validated (id : WorkspaceId) (display_path : path)
    (validated : ValidatedWorkspace) (last_opened_at : N) :
    result WorkspaceRegistryError WorkspaceEntry :=
  let entry := MkWorkspaceEntry id display_path
    (MkPersistedIdentity (identity_str (vw_identity validated))) last_opened_at in
  _ ← validate_entry entry; Ok entry.

(* @src workspace/registry.rs:76-90 WorkspaceEntry::from_persisted_claim *)
Definition entry_from_persisted_claim (id : WorkspaceId) (display_path : path)
    (identity_claim : ustr) (last_opened_at : N) :
    result WorkspaceRegistryError WorkspaceEntry :=
  identity ← identity_from_claim identity_claim;
  let entry := MkWorkspaceEntry id display_path identity last_opened_at in
  _ ← validate_entry entry; Ok entry.

(** ** The registry *)

(* @src workspace/registry.rs:114-116 WorkspaceRegistry *)
Abbreviation WorkspaceRegistry := (list WorkspaceEntry).

Definition has_id (id : WorkspaceId) (e : WorkspaceEntry) : bool :=
  bool_decide (we_workspace_id e = id).
Definition has_identity (i : PersistedWorkspaceIdentity) (e : WorkspaceEntry) : bool :=
  bool_decide (we_validated_identity e = i).

(* @src workspace/registry.rs:123-125 WorkspaceRegistry::get *)
Definition get_entry (r : WorkspaceRegistry) (id : WorkspaceId) : option WorkspaceEntry :=
  List.find (has_id id) r.

(* @src workspace/registry.rs:128-134 WorkspaceRegistry::remove *)
Definition remove_entry (r : WorkspaceRegistry) (id : WorkspaceId) :
    WorkspaceRegistry * option WorkspaceEntry :=
  match position (has_id id) r with
  | Some index => (delete index r, r !! index)
  | None => (r, None)
  end.

(* @src workspace/registry.rs:161-185 WorkspaceRegistry::upsert_entry *)
Definition upsert_entry (r : WorkspaceRegistry) (incoming : WorkspaceEntry) :
    result WorkspaceRegistryError (WorkspaceRegistry * WorkspaceId) :=
  _ ← validate_entry incoming;
  match List.find (has_identity (we_validated_identity incoming)) r with
  | Some existing =>
      Ok (update_first (has_identity (we_validated_identity incoming))
            (λ e, e <| we_display_path := we_display_path incoming |>
                    <| we_last_opened_at := we_last_opened_at incoming |>) r,
          we_workspace_id existing)
  | None =>
      if existsb (has_id (we_workspace_id incoming)) r then Err WorkspaceIdCollision
      else Ok ((r ++ [incoming])%list, we_workspace_id incoming)
  end.

(* @src workspace/registry.rs:137-150 WorkspaceRegistry::upsert_validated *)
Definition upsert_validated (r : WorkspaceRegistry) (id : WorkspaceId) (display_path : path)
    (validated : ValidatedWorkspace) (last_opened_at : N) :
    result WorkspaceRegistryError (WorkspaceRegistry * WorkspaceId) :=
  entry ← entry_from_validated id display_path validated last_opened_at;
  upsert_entry r entry.

(** The loop of [validate]: [seen] are the entries before the current one. *)
(* @src workspace/registry.rs:187-204 WorkspaceRegistry::validate *)
Fixpoint validate_from (seen r : WorkspaceRegistry) : result WorkspaceRegistryError unit :=
  match r with
  | [] => Ok ()
  | entry :: rest =>
      _ ← validate_entry entry;
      if existsb (has_id (we_workspace_id entry)) seen then Err DuplicateWorkspaceId
      else if existsb (has_identity (we_validated_identity entry)) seen
           then Err DuplicateValidatedIdentity
      else validate_from (seen ++ [entry])%list rest
  end.
Definition validate_registry (r : WorkspaceRegistry) : result WorkspaceRegistryError unit :=
  validate_from [] r.

(* @src workspace/registry.rs:209-212 PendingWorkspaceReason *)
Inductive PendingWorkspaceReason := ValidatedIdentityMissing | PendingWorkspaceIdMissing.

(* @src workspace/registry.rs:216-220 PendingWorkspaceConfirmation *)
Record PendingWorkspaceConfirmation := MkPendingConfirmation {
  pc_workspace_id : option ustr;
  pc_display_path : path;
  pc_reason : PendingWorkspaceReason
}.

(* @src workspace/registry.rs:224-229 WorkspacePersistence *)
Record WorkspacePersistence := MkWorkspacePersistence {
  wp_registry : WorkspaceRegistry;
  wp_active : option WorkspaceId;
  wp_pending : option PendingWorkspaceConfirmation
}.
#[export] Instance eta_WorkspacePersistence : Eta WorkspacePersistence := λ r,
  MkWorkspacePersistence (wp_registry r) (wp_active r) (wp_pending r).

Definition default_persistence : WorkspacePersistence := MkWorkspacePersistence [] None None.

(* @src workspace/registry.rs:232-245 WorkspacePersistence::validate *)
Definition validate_persistence (p : WorkspacePersistence) : result WorkspaceRegistryError unit :=
  _ ← validate_registry (wp_registry p);
  _ ← match wp_active p with
      | Some active_id => if bool_decide (get_entry (wp_registry p) active_id = None)
                          then Err ActiveWorkspaceMissingFromRegistry else Ok ()
      | None => Ok ()
      end;
  match wp_pending p with
  | Some pending => if bool_decide (pc_display_path pending = ""%string)
                    then Err EmptyDisplayPath else Ok ()
  | None => Ok ()
  end.

(* @src workspace/registry.rs:252-256 WorkspacePersistence::active_entry *)
Definition active_entry (p : WorkspacePersistence) : option WorkspaceEntry :=
  id ← wp_active p; get_entry (wp_registry p) id.

(* @src workspace/registry.rs:259-265 WorkspacePersistence::set_active_reference *)
Definition set_active_reference (p : WorkspacePersistence) (id : WorkspaceId) :
    result WorkspaceRegistryError WorkspacePersistence :=
  if bool_decide (get_entry (wp_registry p) id = None)
  then Err ActiveWorkspaceMissingFromRegistry
  else Ok (p <| wp_active := Some id |>).

(* @src workspace/registry.rs:267-269 WorkspacePersistence::clear_active *)
Definition clear_active (p : WorkspacePersistence) : WorkspacePersistence :=
  p <| wp_active := None |>.

(* @src workspace/registry.rs:107-110 ResolvedWorkspace *)
Record ResolvedWorkspace := MkResolvedWorkspace {
  rw_workspace_id : WorkspaceId;
  rw_validated : ValidatedWorkspace
}.

(** ** The validator *)

(** [\\?\] and [\\?\UNC\], as UTF-16. *)
Definition verbatim : list N := lit "\\?\".
Definition verbatim_unc : list N := lit "\\?\UNC\".

(** What [GetFileInformationByHandle] and [GetFinalPathNameByHandleW] report of
    an open handle. *)
Record FileInformation := MkFileInformation {
  fi_directory : bool;
  fi_volume_serial_number : N;
  fi_file_index_high : N;
  fi_file_index_low : N
}.

(** The calls on a handle opened for the path: its information, then its
    final path; and the conversions between a [PathBuf] and its UTF-16 units. *)
Class Win32Files := {
  file_information : path → result WorkspaceRegistryError FileInformation;
  final_path_from_handle : path → result WorkspaceRegistryError path;
  encode_wide : path → list N;
  from_wide : list N → path;
  file_information_bounds : ∀ p i, file_information p = Ok i →
    fi_volume_serial_number i ≤ u32_max ∧ fi_file_index_high i ≤ u32_max ∧
    fi_file_index_low i ≤ u32_max
}.

(** [{:0width$x}] of a number below [16 ^ width]. *)
Fixpoint hex_padded (width : nat) (n : N) : ustr :=
  match width with
  | O => []
  | S width => (hex_padded width (n / 16) ++
      [let d := n mod 16 in if d <? 10 then 0x30 + d else 0x57 + d])%list
  end.

(* @src workspace/validator.rs:121-126 inspect_workspace_path (the identity) *)
Definition file_index (i : FileInformation) : N :=
  N.lor (N.shiftl (fi_file_index_high i) 32) (fi_file_index_low i).
Definition file_identity (i : FileInformation) : ustr :=
  (lit "win32-file-id:" ++ hex_padded 8 (fi_volume_serial_number i) ++ lit ":" ++
   hex_padded 16 (file_index i))%list.

Section validator.
Context `{Win32Files}.

(* @src workspace/validator.rs:87-128 inspect_workspace_path *)
Definition inspect_workspace_path (p : path) :
    result WorkspaceRegistryError (ValidatedWorkspaceIdentity * path) :=
  if bool_decide (p = ""%string) then Err EmptyDisplayPath else
  info ← file_information p;
  if negb (fi_directory info) then Err WorkspaceNotDirectory else
  resolved_path ← final_path_from_handle p;
  identity ← identity_from_filesystem (file_identity info);
  Ok (identity, resolved_path).

(* @src workspace/validator.rs:160-164 is_verbatim_path *)
Definition is_verbatim_path (p : path) : bool := starts_with verbatim (encode_wide p).

(* @src workspace/validator.rs:130-158 ordinary_path_from_resolved *)
Definition ordinary_path_from_resolved (resolved : path) : option path :=
  let wide := encode_wide resolved in
  let ordinary :=
    if starts_with verbatim_unc wide
    then (lit "\\" ++ drop (length verbatim_unc) wide)%list
    else if starts_with verbatim wide then drop (length verbatim) wide
    else wide in
  if bool_decide (ordinary = []) then None else
  let p := from_wide ordinary in
  if is_verbatim_path p then None else Some p.

(* @src workspace/validator.rs:64-79 WorkspaceValidator::validate *)
Definition validate_path (p : path) : result WorkspaceRegistryError ValidatedWorkspace :=
  '(identity, resolved_path) ← inspect_workspace_path p;
  execution_path ← ok_or ExecutionPathUnavailable (ordinary_path_from_resolved resolved_path);
  '(execution_identity, _) ← inspect_workspace_path execution_path;
  if negb (bool_decide (execution_identity = identity)) then Err ExecutionPathIdentityMismatch
  else Ok (MkValidatedWorkspace identity resolved_path execution_path).

(* @src workspace/registry.rs:273-289 WorkspacePersistence::resolve_active *)
Definition resolve_active (p : WorkspacePersistence) :
    result WorkspaceRegistryError (option ResolvedWorkspace) :=
  _ ← validate_persistence p;
  match active_entry p with
  | None => Ok None
  | Some active =>
      validated ← validate_path (we_display_path active);
      if negb (bool_decide (persisted_identity_str (we_validated_identity active) =
                            identity_str (vw_identity validated)))
      then Err PersistedIdentityMismatch
      else Ok (Some (MkResolvedWorkspace (we_workspace_id active) validated))
  end.

(** ** The project commands

    What each command does to the persisted data before it saves it; [None] is
    a command that ends with an error and saves nothing. *)

(* @src commands/ui.rs:774-815 add_project_blocking *)
Definition add_project (p : WorkspacePersistence) (candidate : path) (generated : ustr)
    (now_seconds : N) (defer_activation : bool) : option WorkspacePersistence :=
  match
    validated ← validate_path candidate;
    generated ← workspace_id_from generated;
    '(registry, id) ← upsert_validated (wp_registry p) generated (vw_execution_path validated)
                        validated now_seconds;
    let p := p <| wp_registry := registry |> in
    if (defer_activation : bool) then Ok p else set_active_reference p id
  with Ok p => Some p | Err _ => None end.

(* @src commands/ui.rs:828-856 select_project_blocking *)
Definition select_project (p : WorkspacePersistence) (id : ustr) : option WorkspacePersistence :=
  match
    id ← workspace_id_from id;
    entry ← ok_or WorkspaceIdMissing (get_entry (wp_registry p) id);
    validated ← validate_path (we_display_path entry);
    if negb (bool_decide (persisted_identity_str (we_validated_identity entry) =
                          identity_str (vw_identity validated)))
    then Err PersistedIdentityMismatch
    else set_active_reference p id
  with Ok p => Some p | Err _ => None end.

(* @src commands/ui.rs:869-883 remove_project_blocking *)
Definition remove_project (p : WorkspacePersistence) (id : ustr) : option WorkspacePersistence :=
  match
    id ← workspace_id_from id;
    _ ← ok_or WorkspaceIdMissing (get_entry (wp_registry p) id);
    let p := if bool_decide (wp_active p = Some id) then clear_active p else p in
    Ok (p <| wp_registry ::= λ r, (remove_entry r id).1 |>)
  with Ok p => Some p | Err _ => None end.
End validator.

(** ** Validity *)

Record valid_registry (r : WorkspaceRegistry) : Prop := {
  vr_entries : ∀ e, e ∈ r → validate_entry e = Ok ();
  vr_ids : NoDup (we_workspace_id <$> r);
  vr_identities : NoDup (we_validated_identity <$> r)
}.

Record valid_persistence (p : WorkspacePersistence) : Prop := {
  vp_registry : valid_registry (wp_registry p);
  vp_active : ∀ id, wp_active p = Some id → ∃ e, get_entry (wp_registry p) id = Some e;
  vp_pending : ∀ c, wp_pending p = Some c → pc_display_path c ≠ ""%string
}.

Lemma existsb_field {A B} `{EqDecision B} (f : A → B) (b : B) (l : list A) :
  existsb (λ x, bool_decide (f x = b)) l = true ↔ b ∈ f <$> l.
Proof.
  rewrite existsb_exists, list_elem_of_fmap. split.
  - intros (x & Hx & <-%bool_decide_eq_true). exists x. by rewrite list_elem_of_In.
  - intros (x & -> & Hx). exists x. rewrite <-list_elem_of_In. by rewrite bool_decide_eq_true_2.
Qed.

Lemma existsb_field_false {A B} `{EqDecision B} (f : A → B) (b : B) (l : list A) :
  existsb (λ x, bool_decide (f x = b)) l = false ↔ b ∉ f <$> l.
Proof. rewrite <-existsb_field. by rewrite not_true_iff_false. Qed.

Lemma validate_entry_unit e x : validate_entry e = Ok x → validate_entry e = Ok ().
Proof. by destruct x. Qed.

Lemma nodup_fmap_cons_app {A B} (f : A → B) l x k :
  NoDup (f <$> (l ++ [x]) ++ k)%list ↔ NoDup (f <$> l ++ x :: k)%list.
Proof. by rewrite <-app_assoc. Qed.

Lemma validate_from_iff seen r :
  NoDup (we_workspace_id <$> seen) → NoDup (we_validated_identity <$> seen) →
  validate_from seen r = Ok () ↔
  (∀ e, e ∈ r → validate_entry e = Ok ()) ∧ NoDup (we_workspace_id <$> (seen ++ r)%list) ∧
  NoDup (we_validated_identity <$> (seen ++ r)%list).
Proof.
  revert seen. induction r as [|e r IH]; intros seen Hid Hit; cbn [validate_from].
  { rewrite app_nil_r. split; [|done]. intros _. split_and!; [|done..].
    by intros e ?%not_elem_of_nil. }
  assert (∀ (B : Type) (f : WorkspaceEntry → B), NoDup (f <$> (seen ++ e :: r)%list) → f e ∉ f <$> seen)
    as Hnew.
  { intros B f Hnd Hin. rewrite fmap_app, NoDup_app in Hnd. destruct Hnd as (_ & Hd & _).
    apply (Hd (f e)); [done|]. rewrite fmap_cons. by left. }
  destruct (validate_entry e) as [[]|err] eqn:He; cbn [mbind result_bind].
  2:{ split; [done|]. intros [Hall _]. rewrite Hall in He by (by left). done. }
  destruct (existsb (has_id _) seen) eqn:Hx.
  { apply existsb_field in Hx. split; [done|]. intros (_ & Hnd & _). by apply Hnew in Hnd. }
  destruct (existsb (has_identity _) seen) eqn:Hy.
  { apply existsb_field in Hy. split; [done|]. intros (_ & _ & Hnd). by apply Hnew in Hnd. }
  apply existsb_field_false in Hx, Hy. rewrite IH.
  - rewrite !nodup_fmap_cons_app. split; intros (Hall & ? & ?); (split_and!; [|done..]).
    + intros e' [->|?]%elem_of_cons; [done|by apply Hall].
    + intros e' ?. apply Hall. by right.
  - rewrite fmap_app. apply NoDup_app. split_and!; [done| |apply NoDup_singleton].
    by intros z Hz ->%list_elem_of_singleton.
  - rewrite fmap_app. apply NoDup_app. split_and!; [done| |apply NoDup_singleton].
    by intros z Hz ->%list_elem_of_singleton.
Qed.

Lemma validate_registry_iff r : validate_registry r = Ok () ↔ valid_registry r.
Proof.
  unfold validate_registry. rewrite validate_from_iff by constructor. simpl.
  split; [intros (? & ? & ?); by split|by intros []].
Qed.

Lemma validate_persistence_iff p : validate_persistence p = Ok () ↔ valid_persistence p.
Proof.
  unfold validate_persistence. split.
  - destruct (validate_registry _) as [[]|] eqn:Hr; [|done]. apply validate_registry_iff in Hr.
    cbn [mbind result_bind].
    intros H. split; [done| |].
    + intros id Hid. rewrite Hid in H. case_bool_decide as Hg; [done|].
      destruct (get_entry _ id) as [e|]; [by exists e|done].
    + intros c Hc. rewrite Hc in H. destruct (match wp_active p with Some _ => _ | None => _ end); [|done].
      cbn [mbind result_bind] in H. by case_bool_decide.
  - intros [Hr Ha Hc]. apply validate_registry_iff in Hr as ->. cbn [mbind result_bind].
    assert ((match wp_active p with
             | Some active_id => if bool_decide (get_entry (wp_registry p) active_id = None)
                                 then Err ActiveWorkspaceMissingFromRegistry else Ok ()
             | None => Ok () end) = Ok ()) as ->.
    { destruct (wp_active p) as [id|]; [|done]. destruct (Ha id eq_refl) as [e ->]. done. }
    cbn [mbind result_bind]. destruct (wp_pending p) as [c|]; [|done].
    by rewrite bool_decide_eq_false_2 by (by apply Hc).
Qed.

(** ** The registry operations *)

Lemma get_entry_Some r id e :
  get_entry r id = Some e → e ∈ r ∧ we_workspace_id e = id.
Proof.
  intros [Hin Hid]%find_Some_elem. split; [done|]. unfold has_id in Hid.
  by apply bool_decide_eq_true in Hid.
Qed.

Lemma get_entry_elem r e : e ∈ r → is_Some (get_entry r (we_workspace_id e)).
Proof.
  intros He. unfold get_entry. destruct (List.find _ r) as [e'|] eqn:Hf; [done|].
  rewrite find_None_iff in Hf. specialize (Hf e He). unfold has_id in Hf.
  by rewrite bool_decide_eq_true_2 in Hf.
Qed.

Lemma fmap_update_first_same {A B} (g : A → B) p f (l : list A) :
  (∀ x, g (f x) = g x) → g <$> update_first p f l = g <$> l.
Proof.
  intros Hg. induction l as [|x l IH]; [done|]. cbn [update_first].
  destruct (p x); rewrite !fmap_cons; [by rewrite Hg|by rewrite IH].
Qed.

Lemma update_first_elem {A} p f (l : list A) x :
  x ∈ update_first p f l → x ∈ l ∨ ∃ y, y ∈ l ∧ x = f y.
Proof.
  induction l as [|y l IH]; [by left|]. simpl. destruct (p y).
  - intros [->|?]%elem_of_cons; [right; exists y; split; [by left|done]|left; by right].
  - intros [->|Hx]%elem_of_cons; [left; by left|]. destruct (IH Hx) as [?|(z & ? & ?)].
    + left; by right.
    + right. exists z. split; [by right|done].
Qed.

(** What a successful upsert does. *)
Lemma upsert_entry_Ok r incoming r' id :
  valid_registry r → upsert_entry r incoming = Ok (r', id) →
  valid_registry r' ∧ is_Some (get_entry r' id) ∧
  ((we_validated_identity incoming ∉ we_validated_identity <$> r) ∧
     (we_workspace_id incoming ∉ we_workspace_id <$> r) ∧
     id = we_workspace_id incoming ∧ r' = (r ++ [incoming])%list ∨
   (∃ existing, existing ∈ r ∧ we_validated_identity existing = we_validated_identity incoming ∧
     id = we_workspace_id existing ∧ we_workspace_id <$> r' = we_workspace_id <$> r ∧
     we_validated_identity <$> r' = we_validated_identity <$> r)).
Proof.
  intros [Hall Hid Hit]. unfold upsert_entry.
  destruct (validate_entry incoming) as [[]|] eqn:Hv; cbn [mbind result_bind]; [|done].
  destruct (List.find _ r) as [existing|] eqn:Hf.
  - intros [= <- <-].
    apply find_Some_elem in Hf as [Hin Hsame%bool_decide_eq_true].
    match goal with |- context [update_first ?p ?f r] => set (r' := update_first p f r) end.
    assert (we_workspace_id <$> r' = we_workspace_id <$> r) as Hids
      by by apply fmap_update_first_same.
    assert (we_validated_identity <$> r' = we_validated_identity <$> r) as Hits
      by by apply fmap_update_first_same.
    split_and!.
    + split; [|by rewrite Hids|by rewrite Hits].
      intros e [He|(y & Hy & ->)]%update_first_elem; [by apply Hall|].
      specialize (Hall _ Hy). clear -Hall Hv. unfold validate_entry in *. simpl.
      repeat case_match; done.
    + assert (we_workspace_id existing ∈ we_workspace_id <$> r') as Hex.
      { rewrite Hids. by apply list_elem_of_fmap_2. }
      apply list_elem_of_fmap in Hex as (e & -> & He). by apply get_entry_elem.
    + right. by exists existing.
  - destruct (existsb _ r) eqn:Hx; [done|]. intros [= <- <-].
    apply existsb_field_false in Hx.
    assert (we_validated_identity incoming ∉ we_validated_identity <$> r) as Hnew.
    { intros (e & He & Hin)%list_elem_of_fmap. rewrite find_None_iff in Hf.
      specialize (Hf e Hin). unfold has_identity in Hf. by rewrite bool_decide_eq_true_2 in Hf. }
    split_and!.
    + split.
      * intros e [?|He]%elem_of_app; [by apply Hall|].
        by apply list_elem_of_singleton in He as ->.
      * rewrite fmap_app. apply NoDup_app. split_and!; [done| |apply NoDup_singleton].
        by intros z Hz ->%list_elem_of_singleton.
      * rewrite fmap_app. apply NoDup_app. split_and!; [done| |apply NoDup_singleton].
        by intros z Hz ->%list_elem_of_singleton.
    + apply get_entry_elem. apply elem_of_app. right. by left.
    + left. done.
Qed.

Lemma get_entry_fmap r r' id :
  we_workspace_id <$> r' = we_workspace_id <$> r →
  is_Some (get_entry r id) → is_Some (get_entry r' id).
Proof.
  intros Hids [e [He <-]%get_entry_Some].
  assert (we_workspace_id e ∈ we_workspace_id <$> r') as Hin
    by (rewrite Hids; by apply list_elem_of_fmap_2).
  apply list_elem_of_fmap in Hin as (e' & -> & He'). by apply get_entry_elem.
Qed.

Lemma get_entry_app r e id : is_Some (get_entry r id) → is_Some (get_entry (r ++ [e])%list id).
Proof.
  intros [e' [He' <-]%get_entry_Some]. apply get_entry_elem, elem_of_app. by left.
Qed.

(** Removing a project removes exactly its entry. *)
Lemma remove_entry_spec r id :
  valid_registry r →
  valid_registry (remove_entry r id).1 ∧ get_entry (remove_entry r id).1 id = None ∧
  ∀ e, e ∈ (remove_entry r id).1 ↔ e ∈ r ∧ we_workspace_id e ≠ id.
Proof.
  intros [Hall Hid Hit]. unfold remove_entry.
  assert (∀ e, e ∈ (match position (has_id id) r with
     | Some index => (delete index r, r !! index) | None => (r, None) end).1 ↔
     e ∈ r ∧ we_workspace_id e ≠ id) as Hmem.
  { intros e. destruct (position (has_id id) r) as [i|] eqn:Hp; simpl.
    - apply position_Some in Hp as (x & Hx & Hpx%bool_decide_eq_true & Hbefore).
      pose proof (take_drop_middle _ _ _ Hx) as Hr. rewrite <-Hr in Hid.
      assert (e ∈ r ↔ e ∈ take i r ++ x :: drop (S i) r) as -> by by rewrite Hr.
      rewrite delete_take_drop.
      rewrite fmap_app, fmap_cons in Hid. apply NoDup_app in Hid as (_ & Hd & Hn).
      apply NoDup_cons in Hn as [Hn _].
      rewrite !elem_of_app, elem_of_cons. split.
      + intros [Hin|Hin].
        * split; [by left|]. intros Heq. apply (Hd (we_workspace_id e)).
          { by apply list_elem_of_fmap_2. } rewrite Heq, <-Hpx. by left.
        * split; [by right; right|]. intros Heq. apply Hn. rewrite Hpx, <-Heq.
          by apply list_elem_of_fmap_2.
      + intros [[?|[->|?]] Hne]; [by left|congruence|by right].
    - split; [|by intros []]. intros Hin. split; [done|]. intros <-.
      rewrite position_None in Hp. specialize (Hp e Hin). unfold has_id in Hp.
      by rewrite bool_decide_eq_true_2 in Hp. }
  split_and!; [| |done].
  - assert (sublist (match position (has_id id) r with
      | Some index => (delete index r, r !! index) | None => (r, None) end).1 r) as Hsub.
    { destruct (position _ r); [apply delete_sublist|done]. }
    split.
    + intros e He. apply Hall. by eapply sublist_mem.
    + eapply sublist_nodup; [by apply sublist_fmap|done].
    + eapply sublist_nodup; [by apply sublist_fmap|done].
  - apply find_None_iff. intros e [_ Hne]%Hmem. unfold has_id. by apply bool_decide_eq_false.
Qed.

Lemma upsert_entry_stored r incoming r' id :
  upsert_entry r incoming = Ok (r', id) →
  ∃ e, e ∈ r' ∧ we_workspace_id e = id ∧
    we_validated_identity e = we_validated_identity incoming ∧
    we_display_path e = we_display_path incoming ∧
    we_last_opened_at e = we_last_opened_at incoming.
Proof.
  unfold upsert_entry. destruct (validate_entry incoming); cbn [mbind result_bind]; [|done].
  destruct (List.find _ r) as [existing|] eqn:Hf.
  - intros [= <- <-]. apply find_split in Hf as (l1 & l2 & _ & _ & Hp%bool_decide_eq_true & ->).
    eexists. split_and!; [apply elem_of_app; right; by left|done|exact Hp|done|done].
  - destruct (existsb _ r); [done|]. intros [= <- <-]. exists incoming.
    split_and!; [|done..]. apply elem_of_app. right. by left.
Qed.

(** ** The identity of a workspace names one directory *)

Lemma hex_padded_inj w n m :
  n < 16 ^ N.of_nat w → m < 16 ^ N.of_nat w → hex_padded w n = hex_padded w m → n = m.
Proof.
  revert n m. induction w as [|w IH]; intros n m Hn Hm.
  - simpl in *. lia.
  - cbn [hex_padded]. rewrite Nat2N.inj_succ, N.pow_succ_r' in Hn, Hm. intros Heq.
    apply app_inj_tail in Heq as [Hq Hd].
    apply IH in Hq; [|apply N.Div0.div_lt_upper_bound; lia..].
    assert (n mod 16 = m mod 16) as Hmod.
    { assert (n mod 16 < 16) by by apply N.mod_lt. assert (m mod 16 < 16) by by apply N.mod_lt.
      destruct (n mod 16 <? 10) eqn:H1, (m mod 16 <? 10) eqn:H2;
        rewrite ?N.ltb_lt, ?N.ltb_ge in *; lia. }
    lia.
Qed.

Lemma hex_padded_length w n : length (hex_padded w n) = w.
Proof. revert n. induction w as [|w IH]; intros n; [done|]. simpl. rewrite length_app, IH. simpl. lia. Qed.

Lemma file_index_split i :
  fi_file_index_low i ≤ u32_max →
  file_index i = fi_file_index_high i * 2 ^ 32 + fi_file_index_low i.
Proof.
  intros Hl. unfold file_index.
  assert (N.land (N.shiftl (fi_file_index_high i) 32) (fi_file_index_low i) = 0) as Hdis.
  { apply N.bits_inj_0. intros n. rewrite N.land_spec. destruct (N.lt_ge_cases n 32) as [Hn|Hn].
    - by rewrite N.shiftl_spec_low.
    - apply andb_false_iff. right. rewrite N.testbit_eqb, N.div_small; [done|].
      apply N.lt_le_trans with (2 ^ 32); [|by apply N.pow_le_mono_r].
      unfold u32_max in Hl. change (2 ^ 32) with 4294967296. lia. }
  rewrite <-N.lxor_lor, <-N.add_nocarry_lxor by done. by rewrite N.shiftl_mul_pow2.
Qed.

(** Two directories with the same identity have the same volume and file index. *)
Lemma file_identity_inj i j :
  fi_volume_serial_number i ≤ u32_max → fi_volume_serial_number j ≤ u32_max →
  fi_file_index_high i ≤ u32_max → fi_file_index_high j ≤ u32_max →
  fi_file_index_low i ≤ u32_max → fi_file_index_low j ≤ u32_max →
  file_identity i = file_identity j →
  fi_volume_serial_number i = fi_volume_serial_number j ∧
  fi_file_index_high i = fi_file_index_high j ∧ fi_file_index_low i = fi_file_index_low j.
Proof.
  unfold u32_max. intros Hvi Hvj Hhi Hhj Hli Hlj Heq. unfold file_identity in Heq.
  apply app_inv_head in Heq. apply app_inj_1 in Heq as [Hv Heq]; [|by rewrite !hex_padded_length].
  apply app_inv_head in Heq.
  pose proof (file_index_split i Hli) as Hi. pose proof (file_index_split j Hlj) as Hj.
  change (2 ^ 32) with 4294967296 in Hi, Hj.
  apply hex_padded_inj in Hv.
  2,3: change (16 ^ N.of_nat 8) with 4294967296; lia.
  apply hex_padded_inj in Heq.
  2,3: change (16 ^ N.of_nat 16) with 18446744073709551616; lia.
  lia.
Qed.

Section workspace_theorems.
Context `{Win32Files}.

Lemma inspect_Ok p id resolved :
  inspect_workspace_path p = Ok (id, resolved) →
  p ≠ ""%string ∧ final_path_from_handle p = Ok resolved ∧
  ∃ info, file_information p = Ok info ∧ fi_directory info = true ∧
    id = MkValidatedIdentity (file_identity info).
Proof.
  unfold inspect_workspace_path. case_bool_decide; [done|].
  destruct (file_information p) as [info|] eqn:Hi; cbn [mbind result_bind]; [|done].
  destruct (fi_directory info) eqn:Hd; cbn [negb]; [|done].
  destruct (final_path_from_handle p) as [r|] eqn:Hf; cbn [mbind result_bind]; [|done].
  unfold identity_from_filesystem. destruct (blank _); cbn [mbind result_bind]; [done|].
  intros [= <- <-]. split_and!; [done..|]. by exists info.
Qed.

(** A validated workspace is a directory whose execution path opens the same
    directory. *)
Lemma validate_path_Ok p v :
  validate_path p = Ok v →
  is_verbatim_path (vw_execution_path v) = false ∧ vw_execution_path v ≠ ""%string ∧
  final_path_from_handle p = Ok (vw_resolved_path v) ∧
  ordinary_path_from_resolved (vw_resolved_path v) = Some (vw_execution_path v) ∧
  ∃ i j, file_information p = Ok i ∧ file_information (vw_execution_path v) = Ok j ∧
    vw_identity v = MkValidatedIdentity (file_identity i) ∧
    fi_directory i = true ∧ fi_directory j = true ∧
    fi_volume_serial_number i = fi_volume_serial_number j ∧
    fi_file_index_high i = fi_file_index_high j ∧ fi_file_index_low i = fi_file_index_low j.
Proof.
  unfold validate_path. destruct (inspect_workspace_path p) as [[id r]|] eqn:Hp; simpl; [|done].
  destruct (ordinary_path_from_resolved r) as [e|] eqn:Ho; simpl; [|done].
  destruct (inspect_workspace_path e) as [[id' r']|] eqn:He; simpl; [|done].
  case_bool_decide as Hsame; simpl; [|done]. intros [= <-]. simpl. subst id'.
  apply inspect_Ok in Hp as (_ & Hfp & i & Hi & Hdi & ->).
  apply inspect_Ok in He as (Hne & _ & j & Hj & Hdj & Hident%(f_equal identity_str)).
  cbn [identity_str] in Hident.
  split_and!; [|done..|].
  - unfold ordinary_path_from_resolved in Ho. case_bool_decide; [done|].
    destruct (is_verbatim_path _) eqn:Hv in Ho; [done|]. by injection Ho as <-.
  - exists i, j. destruct (file_information_bounds _ _ Hi) as (? & ? & ?).
    destruct (file_information_bounds _ _ Hj) as (? & ? & ?).
    destruct (file_identity_inj i j) as (? & ? & ?); [done..|]. done.
Qed.

(** C28 (safety): Persisted workspace data grants nothing by itself.
    [resolve_active] yields a workspace exactly when the data is valid and the
    active entry's path, validated now, has the identity recorded for it; and a
    validated path is a directory whose execution path is an ordinary path that
    opens the same directory: the same volume and the same file index. *)
Theorem resolve_active_vetted p :
  (∀ w, resolve_active p = Ok (Some w) ↔
     valid_persistence p ∧ ∃ e, active_entry p = Some e ∧ rw_workspace_id w = we_workspace_id e ∧
       validate_path (we_display_path e) = Ok (rw_validated w) ∧
       identity_str (vw_identity (rw_validated w)) =
         persisted_identity_str (we_validated_identity e)) ∧
  (resolve_active p = Ok None ↔ valid_persistence p ∧ wp_active p = None) ∧
  (∀ w, resolve_active p = Ok (Some w) → ∃ e i j, active_entry p = Some e ∧
     file_information (we_display_path e) = Ok i ∧
     file_information (vw_execution_path (rw_validated w)) = Ok j ∧
     fi_directory i = true ∧ fi_directory j = true ∧
     (fi_volume_serial_number i, fi_file_index_high i, fi_file_index_low i) =
       (fi_volume_serial_number j, fi_file_index_high j, fi_file_index_low j) ∧
     persisted_identity_str (we_validated_identity e) = file_identity i ∧
     is_verbatim_path (vw_execution_path (rw_validated w)) = false).
Proof.
  assert (∀ w, resolve_active p = Ok (Some w) ↔
     valid_persistence p ∧ ∃ e, active_entry p = Some e ∧ rw_workspace_id w = we_workspace_id e ∧
       validate_path (we_display_path e) = Ok (rw_validated w) ∧
       identity_str (vw_identity (rw_validated w)) =
         persisted_identity_str (we_validated_identity e)) as Hiff.
  { intros w. rewrite <-validate_persistence_iff. unfold resolve_active.
    destruct (validate_persistence p) as [[]|] eqn:Hv; simpl; [|by split; [|intros []]].
    destruct (active_entry p) as [e|] eqn:Ha; [|by split; [|intros (_ & ? & ? & _)]].
    destruct (validate_path (we_display_path e)) as [v|] eqn:Hval; simpl.
    2:{ split; [done|]. intros (_ & e' & [= <-] & _ & Hv' & _). congruence. }
    destruct (bool_decide _) eqn:Hi; simpl;
      [apply bool_decide_eq_true in Hi|apply bool_decide_eq_false in Hi].
    - split; [intros [= <-]; split; [done|]; by exists e|].
      intros (_ & e' & [= <-] & Hid & Hv' & Hident). rewrite Hval in Hv'.
      destruct w. by simplify_eq/=.
    - split; [done|]. intros (_ & e' & [= <-] & Hid & Hv' & Hident). rewrite Hval in Hv'.
      destruct Hi. by simplify_eq/=. }
  split_and!; [done| |].
  - rewrite <-validate_persistence_iff. unfold resolve_active.
    destruct (validate_persistence p) as [[]|] eqn:Hv; simpl; [|by split; [|intros []]].
    unfold active_entry. destruct (wp_active p) as [id|] eqn:Hid; simpl; [|done].
    split; [|by intros []]. apply validate_persistence_iff in Hv as [_ Ha _].
    destruct (Ha id Hid) as [e ->]. destruct (validate_path _); simpl; [|done].
    by destruct (negb _).
  - intros w (Hvalid & e & Ha & Hid & Hval & Hident)%Hiff.
    apply validate_path_Ok in Hval as (Hverb & _ & _ & _ & i & j & Hi & Hj & Hvi & Hdi & Hdj & Hvol & Hhi & Hlo).
    exists e, i, j. split_and!; [done..|by rewrite Hvol, Hhi, Hlo| |done].
    rewrite <-Hident, Hvi. done.
Qed.

(** ** The project commands as a state machine *)

(** Loaded data has been validated. *)
Inductive project_step : WorkspacePersistence → WorkspacePersistence → Prop :=
  | StepAdd p candidate generated now defer p' :
      add_project p candidate generated now defer = Some p' → project_step p p'
  | StepSelect p id p' : select_project p id = Some p' → project_step p p'
  | StepRemove p id p' : remove_project p id = Some p' → project_step p p'.

#[export] Instance project_machine : StateMachine WorkspacePersistence := {
  sm_init := λ p, validate_persistence p = Ok ();
  sm_step := project_step
}.

Lemma set_active_Ok p id p' :
  set_active_reference p id = Ok p' →
  is_Some (get_entry (wp_registry p) id) ∧ p' = p <| wp_active := Some id |>.
Proof.
  unfold set_active_reference. case_bool_decide as Hg; [done|]. intros [= <-].
  split; [|done]. by destruct (get_entry _ _).
Qed.

Lemma add_project_spec p candidate generated now defer p' :
  valid_persistence p → add_project p candidate generated now defer = Some p' →
  valid_persistence p' ∧ wp_pending p' = wp_pending p ∧
  ∃ v e, validate_path candidate = Ok v ∧ e ∈ wp_registry p' ∧
    persisted_identity_str (we_validated_identity e) = identity_str (vw_identity v) ∧
    we_display_path e = vw_execution_path v ∧ we_last_opened_at e = now ∧
    (∀ old, old ∈ wp_registry p → we_validated_identity old = we_validated_identity e →
       we_workspace_id old = we_workspace_id e) ∧
    wp_active p' = (if defer : bool then wp_active p else Some (we_workspace_id e)) ∧
    (∀ id, is_Some (get_entry (wp_registry p) id) → is_Some (get_entry (wp_registry p') id)).
Proof.
  intros [Hr Ha Hc]. unfold add_project.
  destruct (validate_path candidate) as [v|] eqn:Hv; simpl; [|done].
  destruct (workspace_id_from generated) as [gen|] eqn:Hg; simpl; [|done].
  unfold upsert_validated, entry_from_validated.
  set (incoming := MkWorkspaceEntry _ _ _ _).
  destruct (validate_entry incoming) eqn:Hve; simpl; [|done].
  destruct (upsert_entry (wp_registry p) incoming) as [[r' id]|] eqn:Hu; simpl; [|done].
  apply upsert_entry_stored in Hu as Hst.
  destruct Hst as (e & He & Hid & Hident & Hpath & Hnow).
  apply upsert_entry_Ok in Hu as (Hr' & Hsome & Hcase); [|done].
  assert (∀ id', is_Some (get_entry (wp_registry p) id') → is_Some (get_entry r' id')) as Hkeep.
  { intros id' Hs. destruct Hcase as [(_ & _ & _ & ->)|(ex & _ & _ & _ & Hids & _)].
    - by apply get_entry_app.
    - by eapply get_entry_fmap. }
  assert (∀ old, old ∈ wp_registry p → we_validated_identity old = we_validated_identity e →
    we_workspace_id old = we_workspace_id e) as Hsame.
  { intros old Hold Heq. rewrite Hident in Heq.
    destruct Hcase as [(Hnew & _)|(ex & Hex & Hexi & -> & _)].
    - destruct Hnew. rewrite <-Heq. by apply list_elem_of_fmap_2.
    - rewrite Hid. f_equal. apply (NoDup_fmap_elem we_validated_identity (wp_registry p));
        [by destruct Hr|done..|congruence]. }
  intros Hfin.
  assert (p' = (if defer then p <| wp_registry := r' |>
                else p <| wp_registry := r' |> <| wp_active := Some id |>)) as ->.
  { destruct defer; [by simplify_eq|].
    destruct (set_active_reference _ id) eqn:Hs in Hfin; [|done].
    apply set_active_Ok in Hs as [_ ->]. by simplify_eq. }
  split_and!.
  - destruct defer; split; simpl; try done.
    + intros id' Hid'. destruct (Ha id' Hid') as [e' He']. apply Hkeep. by exists e'.
    + intros id' [= <-]. done.
  - by destruct defer.
  - exists v, e. split_and!; [done|by destruct defer|by rewrite Hident|done|done|done| |by destruct defer].
    destruct defer; simpl; [done|by rewrite Hid].
Qed.

Lemma select_project_spec p id p' :
  valid_persistence p → select_project p id = Some p' →
  valid_persistence p' ∧ wp_registry p' = wp_registry p ∧ wp_active p' = Some (MkWorkspaceId id).
Proof.
  intros [Hr Ha Hc]. unfold select_project, workspace_id_from.
  destruct (blank id); simpl; [done|].
  destruct (get_entry _ _) as [e|] eqn:He; simpl; [|done].
  destruct (validate_path _) as [v|]; simpl; [|done]. destruct (negb _); [done|].
  destruct (set_active_reference _ _) eqn:Hs; [|done]. intros [= <-].
  apply set_active_Ok in Hs as [_ ->]. split_and!; [|done..].
  split; simpl; [done| |done]. intros id' [= <-]. by exists e.
Qed.

Lemma remove_project_spec p id p' :
  valid_persistence p → remove_project p id = Some p' →
  valid_persistence p' ∧ get_entry (wp_registry p') (MkWorkspaceId id) = None ∧
  wp_active p' = (if decide (wp_active p = Some (MkWorkspaceId id)) then None else wp_active p) ∧
  ∀ e, e ∈ wp_registry p' ↔ e ∈ wp_registry p ∧ we_workspace_id e ≠ MkWorkspaceId id.
Proof.
  intros [Hr Ha Hc]. unfold remove_project, workspace_id_from.
  destruct (blank id); simpl; [done|]. set (wid := MkWorkspaceId id).
  destruct (get_entry _ _) as [e|] eqn:He; simpl; [|done]. intros [= <-].
  destruct (remove_entry_spec (wp_registry p) wid Hr) as (Hr' & Hnone & Hmem).
  assert (∀ q : WorkspacePersistence, q = (if bool_decide (wp_active p = Some wid) then clear_active p else p) →
    wp_registry q = wp_registry p ∧ wp_pending q = wp_pending p ∧
    wp_active q = (if decide (wp_active p = Some wid) then None else wp_active p)) as Hq.
  { intros q ->. case_bool_decide as Hact; [rewrite decide_True by done|rewrite decide_False by done]; done. }
  destruct (Hq _ eq_refl) as (Hqr & Hqp & Hqa). simpl. rewrite Hqr, Hqa.
  split_and!; [|done..]. split; simpl; rewrite ?Hqr, ?Hqa, ?Hqp; try done.
  intros id' Hid'. destruct (decide _) as [|Hne]; [done|]. destruct (Ha id' Hid') as [e' [Hin <-]%get_entry_Some].
  destruct (get_entry_elem (remove_entry (wp_registry p) wid).1 e') as [e'' ?].
  - apply Hmem. split; [done|]. intros Heq. apply Hne. by rewrite Hid', Heq.
  - by exists e''.
Qed.

#[export] Instance project_invariant : Invariant valid_persistence.
Proof.
  split.
  - intros p. apply validate_persistence_iff.
  - intros p p' Hv Hst. destruct Hst as [p c g n d p' Hs|p id p' Hs|p id p' Hs].
    + exact (proj1 (add_project_spec p c g n d p' Hv Hs)).
    + exact (proj1 (select_project_spec p id p' Hv Hs)).
    + exact (proj1 (remove_project_spec p id p' Hv Hs)).
Qed.

(** Whatever project commands run on validated data, the data
    they leave passes the validation that guards saving it: the ids and the
    recorded identities are unique, every entry is complete, and the active
    project is in the registry.  Adding a path stores the identity just
    validated, under the id the project already had if it was known, and never
    loses another project; removing a project removes its entry only, and the
    selection if it was selected. *)
Theorem project_commands_valid p (Hp : reachable p) :
  validate_persistence p = Ok () ∧
  NoDup (we_workspace_id <$> wp_registry p) ∧
  NoDup (we_validated_identity <$> wp_registry p) ∧
  (∀ id, wp_active p = Some id → is_Some (active_entry p)) ∧
  (∀ candidate generated now defer p', add_project p candidate generated now defer = Some p' →
     ∃ v e, validate_path candidate = Ok v ∧ e ∈ wp_registry p' ∧
       persisted_identity_str (we_validated_identity e) = identity_str (vw_identity v) ∧
       we_display_path e = vw_execution_path v ∧
       (∀ old, old ∈ wp_registry p → we_validated_identity old = we_validated_identity e →
          we_workspace_id old = we_workspace_id e) ∧
       wp_active p' = (if defer : bool then wp_active p else Some (we_workspace_id e)) ∧
       ∀ id, is_Some (get_entry (wp_registry p) id) → is_Some (get_entry (wp_registry p') id)) ∧
  (∀ id p', remove_project p id = Some p' →
     wp_active p' = (if decide (wp_active p = Some (MkWorkspaceId id)) then None else wp_active p) ∧
     ∀ e, e ∈ wp_registry p' ↔ e ∈ wp_registry p ∧ we_workspace_id e ≠ MkWorkspaceId id).
Proof.
  apply (invariant_reachable valid_persistence) in Hp as Hv.
  pose proof Hv as [[Hall Hids Hits] Ha Hc].
  split_and!; [by apply validate_persistence_iff|done|done| | |].
  - intros id Hid. unfold active_entry. rewrite Hid. simpl. destruct (Ha id Hid) as [e ->]. done.
  - intros candidate generated now defer p' Hadd.
    destruct (add_project_spec _ _ _ _ _ _ Hv Hadd) as (Hv' & _ & v & e & Hval & He & Hi & Hd & _ & Hsame & Hact & Hkeep).
    exists v, e. by split_and!.
  - intros id p' Hrem. by destruct (remove_project_spec _ _ _ Hv Hrem) as (_ & _ & ? & ?).
Qed.
End workspace_theorems.

(** ** A machine with two directories *)

Definition demo_wide (w : list N) : path :=
  String.string_of_list_ascii (map Ascii.ascii_of_N w).

#[local] Program Instance demo_files : Win32Files := {
  file_information := λ p,
    if bool_decide (p = "C:\work"%string) then Ok (MkFileInformation true 7 1 2)
    else if bool_decide (p = "C:\notes"%string) then Ok (MkFileInformation true 7 1 3)
    else Err (WorkspaceValidationWindowsApi "CreateFileW" 2);
  final_path_from_handle := λ p, Ok (String.append "\\?\" p);
  encode_wide := lit;
  from_wide := demo_wide
}.
Next Obligation.
  intros p i. simpl. repeat case_bool_decide; intros [= <-]; unfold u32_max; simpl; lia.
Qed.

Definition demo_project : WorkspacePersistence :=
  default default_persistence (add_project default_persistence "C:\work" (lit "w-1") 10 false).

Lemma project_commands_valid_witness :
  reachable demo_project ∧ validate_persistence demo_project = Ok () ∧
  length (wp_registry demo_project) = 1%nat ∧
  is_Some (active_entry demo_project).
Proof.
  assert (reachable demo_project) as Hr.
  { exists default_persistence. split; [done|].
    eapply rtc_l; [|apply rtc_refl].
    apply (StepAdd _ "C:\work" (lit "w-1") 10 false). by vm_compute. }
  destruct (project_commands_valid demo_project Hr) as (Hv & _ & _ & Ha & _).
  split_and!; [done|done|by vm_compute|].
  apply (Ha (MkWorkspaceId (lit "w-1"))). by vm_compute.
Defined.

Lemma resolve_active_vetted_witness :
  ∃ w, resolve_active demo_project = Ok (Some w) ∧ valid_persistence demo_project ∧
    vw_execution_path (rw_validated w) = "C:\work"%string ∧
    is_verbatim_path (vw_execution_path (rw_validated w)) = false.
Proof.
  destruct (resolve_active demo_project) as [[w|]|] eqn:Hw; [|by vm_compute in Hw..].
  destruct (resolve_active_vetted demo_project) as (Hiff & _ & Hall).
  exists w. split_and!; [done|by apply Hiff in Hw as [? _]| |].
  - vm_compute in Hw. by injection Hw as <-.
  - by destruct (Hall w Hw) as (e & i & j & _ & _ & _ & _ & _ & _ & _ & ?).
Defined.
