(* ===== verification/SessionRegistry.v ===== *)
(** * SessionRegistry: MCP sessions, their request leases and their expiry

    [src/src-tauri/src/control_plane/session_registry.rs].  The registry is a
    map behind one mutex: each operation below is the critical section of the
    method of that name, with the clock value it reads as the argument [now]. *)

From S2P Require Import Prelude Text Domain.

(* @src control_plane/session_registry.rs:8-8 MCP_SESSION_TTL_MS *)
Definition MCP_SESSION_TTL_MS : N := 300000.

(* @src control_plane/session_registry.rs:10-20 SessionRecord *)
Record SessionRecord := MkSessionRecord {
  sr_id : McpSessionId;
  sr_state : McpSessionState;
  sr_protocol : string;
  sr_tool_catalog_signature : string;
  sr_tools_list_changed_pending : bool;
  sr_created_at_ms : millis;
  sr_last_seen_ms : millis;
  sr_owned_requests : gset RequestKey
}.
#[export] Instance eta_SessionRecord : Eta SessionRecord := λ r,
  MkSessionRecord (sr_id r) (sr_state r) (sr_protocol r) (sr_tool_catalog_signature r)
    (sr_tools_list_changed_pending r) (sr_created_at_ms r) (sr_last_seen_ms r)
    (sr_owned_requests r).

(* @src control_plane/session_registry.rs:61-62 SessionRegistry *)
Abbreviation SessionRegistry := (gmap McpSessionId SessionRecord).

(* @src control_plane/session_registry.rs:55-59 SessionInsertError *)
Inductive SessionInsertError := SessionCapacity | SessionAlreadyExists.

(* @src control_plane/session_registry.rs:23-35 SessionRecord::new *)
Definition new_session (id : McpSessionId) (protocol signature : string) (now : millis) :
    SessionRecord :=
  MkSessionRecord id SessionCreated protocol signature true now now ∅.

(* @src control_plane/session_registry.rs:37-42 SessionRecord::touch *)
Definition touch (now : millis) (s : SessionRecord) : SessionRecord :=
  let s := s <| sr_last_seen_ms := now |> in
  if bool_decide (sr_state s = SessionCreated) then s <| sr_state := SessionActive |> else s.

(* @src control_plane/session_registry.rs:44-48 SessionRecord::begin_closing *)
Definition begin_closing (s : SessionRecord) : SessionRecord :=
  if accepts_requests (sr_state s) then s <| sr_state := SessionClosing |> else s.

(* @src control_plane/session_registry.rs:50-52 SessionRecord::close *)
Definition close (s : SessionRecord) : SessionRecord := s <| sr_state := SessionClosed |>.

(* @src control_plane/session_registry.rs:93-112 SessionRegistry::insert_bounded *)
Definition insert_bounded (sessions : SessionRegistry) (session : SessionRecord)
    (max_sessions : nat) : SessionRegistry * result SessionInsertError unit :=
  if max_sessions <=? size sessions then (sessions, Err SessionCapacity) else
  match sessions !! sr_id session with
  | None => (<[sr_id session := session]> sessions, Ok ())
  | Some _ => (sessions, Err SessionAlreadyExists)
  end.

(* @src control_plane/session_registry.rs:114-120 SessionRegistry::get *)
Definition get (sessions : SessionRegistry) (id : McpSessionId) : option SessionRecord :=
  sessions !! id.

(* @src control_plane/session_registry.rs:122-131 SessionRegistry::close_and_remove *)
Definition close_and_remove (sessions : SessionRegistry) (id : McpSessionId) :
    SessionRegistry * option SessionRecord :=
  match sessions !! id with
  | None => (sessions, None)
  | Some session => (delete id sessions, Some (close (begin_closing session)))
  end.

(* @src control_plane/session_registry.rs:143-158 SessionRegistry::update *)
Definition update {R} (sessions : SessionRegistry) (id : McpSessionId) (now : millis)
    (f : SessionRecord → SessionRecord * R) : SessionRegistry * option R :=
  match sessions !! id with
  | None => (sessions, None)
  | Some session =>
      if negb (accepts_requests (sr_state session)) then (sessions, None) else
      let '(session, r) := f (touch now session) in
      (<[id := session]> sessions, Some r)
  end.

(** [HashSet::insert] and [HashSet::remove] return whether the set changed. *)
(* @src control_plane/session_registry.rs:133-136 SessionRegistry::add_request *)
Definition add_request (sessions : SessionRegistry) (owner : McpSessionId)
    (request : RequestKey) (now : millis) : SessionRegistry * bool :=
  let '(sessions, changed) := update sessions owner now (λ session,
    (session <| sr_owned_requests ::= union {[ request ]} |>,
     negb (bool_decide (request ∈ sr_owned_requests session)))) in
  (sessions, default false changed).

(* @src control_plane/session_registry.rs:138-141 SessionRegistry::remove_request *)
Definition remove_request (sessions : SessionRegistry) (owner : McpSessionId)
    (request : RequestKey) (now : millis) : SessionRegistry * bool :=
  let '(sessions, changed) := update sessions owner now (λ session,
    (session <| sr_owned_requests ::= (.∖ {[ request ]}) |>,
     bool_decide (request ∈ sr_owned_requests session))) in
  (sessions, default false changed).

(** The three updates of the transport itself.  The first one runs when a client
    opens the event stream: a catalog whose signature changed leaves a
    notification pending, and the pending notification is taken by the stream
    that was opened. *)
(* @src mcp/server.rs:1184-1193 handle_connection (an event stream is opened) *)
Definition take_list_changed (sessions : SessionRegistry) (id : McpSessionId)
    (current_signature : string) (now : millis) : SessionRegistry * bool :=
  let '(sessions, pending) := update sessions id now (λ stored,
    let stored :=
      if bool_decide (sr_tool_catalog_signature stored = current_signature) then stored else
      stored <| sr_tool_catalog_signature := current_signature |>
             <| sr_tools_list_changed_pending := true |> in
    let pending := sr_tools_list_changed_pending stored in
    (stored <| sr_tools_list_changed_pending := false |>, pending)) in
  (sessions, default false pending).

(** A posted message compares the signature of a copy of the record, read before,
    and updates the record if it differs; the two critical sections are separate,
    so the update does not depend on the comparison still being true. *)
(* @src mcp/server.rs:1335-1338 handle_connection (a changed tool catalog) *)
Definition record_list_changed (sessions : SessionRegistry) (id : McpSessionId)
    (current_signature : string) (now : millis) : SessionRegistry * option () :=
  update sessions id now (λ stored,
    (stored <| sr_tool_catalog_signature := current_signature |>
            <| sr_tools_list_changed_pending := true |>, ())).

(* @src mcp/server.rs:1352-1352 handle_connection (the session is in use) *)
Definition keep_alive (sessions : SessionRegistry) (id : McpSessionId) (now : millis) :
    SessionRegistry * option () :=
  update sessions id now (λ stored, (stored, ())).

(* @src control_plane/session_registry.rs:165-173 SessionRegistry::reap_expired_at (the filter) *)
Definition expired (now_ms ttl_ms : N) (session : SessionRecord) : bool :=
  accepts_requests (sr_state session) &&
  bool_decide (sr_owned_requests session = ∅) &&
  (ttl_ms <=? saturating_sub now_ms (sr_last_seen_ms session))%N.

(** The loop over the collected ids; the order is the map's. *)
(* @src control_plane/session_registry.rs:174-183 SessionRegistry::reap_expired_at (the removal) *)
Fixpoint reap_ids (ids : list McpSessionId) (sessions : SessionRegistry) :
    SessionRegistry * list SessionRecord :=
  match ids with
  | [] => (sessions, [])
  | id :: ids =>
      let '(sessions, closed) := close_and_remove sessions id in
      let '(sessions, reaped) := reap_ids ids sessions in
      (sessions, match closed with Some r => r :: reaped | None => reaped end)
  end.

(* @src control_plane/session_registry.rs:160-183 SessionRegistry::reap_expired_at *)
Definition reap_expired_at (sessions : SessionRegistry) (now_ms ttl_ms : N) :
    SessionRegistry * list SessionRecord :=
  reap_ids
    (fst <$> List.filter (λ kv, expired now_ms ttl_ms kv.2) (map_to_list sessions)) sessions.

(* @src control_plane/session_registry.rs:64-82 SessionReaper *)
Record SessionReaper := MkSessionReaper { reaper_ttl_ms : N }.
(* @src control_plane/session_registry.rs:79-81 SessionReaper::reap_at *)
Definition reap_at (reaper : SessionReaper) (sessions : SessionRegistry) (now_ms : N) :=
  reap_expired_at sessions now_ms (reaper_ttl_ms reaper).

(** ** The registry as a state machine *)

Section machine.
(** The transport bounds the number of sessions by [max_sessions]. *)
Context (max_sessions : nat).

Inductive session_step : SessionRegistry → SessionRegistry → Prop :=
  | StepInsert m id protocol signature now :
      session_step m (insert_bounded m (new_session id protocol signature now) max_sessions).1
  | StepClose m id : session_step m (close_and_remove m id).1
  | StepKeepAlive m id now : session_step m (keep_alive m id now).1
  | StepTakeListChanged m id signature now :
      session_step m (take_list_changed m id signature now).1
  | StepRecordListChanged m id signature now :
      session_step m (record_list_changed m id signature now).1
  | StepAdd m id request now : session_step m (add_request m id request now).1
  | StepRemove m id request now : session_step m (remove_request m id request now).1
  | StepReap m now ttl : session_step m (reap_expired_at m now ttl).1.

#[export] Instance session_machine : StateMachine SessionRegistry := {|
  sm_init m := m = ∅;
  sm_step := session_step
|}.

(** The map is bounded, keyed by the records' own ids, and a stored session
    still accepts requests: closing and removing happen under one lock. *)
Record session_inv (m : SessionRegistry) : Prop := {
  sessions_bounded : size m ≤ max_sessions;
  sessions_keyed : ∀ id s, m !! id = Some s → sr_id s = id;
  sessions_live : ∀ id s, m !! id = Some s → accepts_requests (sr_state s) = true
}.
End machine.

(** ** Facts *)

Implicit Types (m : SessionRegistry) (s : SessionRecord).

Lemma close_and_remove_fst m id : (close_and_remove m id).1 = delete id m.
Proof.
  unfold close_and_remove. destruct (m !! id) eqn:E; simpl; [done|].
  by rewrite delete_id.
Qed.

Lemma touch_keeps_id now s : sr_id (touch now s) = sr_id s.
Proof. unfold touch. by case_bool_decide. Qed.

Lemma touch_accepts now s :
  accepts_requests (sr_state s) = true → accepts_requests (sr_state (touch now s)) = true.
Proof. unfold touch. intros H. by case_bool_decide. Qed.

(** [update] refreshes exactly the addressed live session. *)
Lemma update_Some {R} m id now (f : SessionRecord → SessionRecord * R) s :
  m !! id = Some s → accepts_requests (sr_state s) = true →
  update m id now f = (<[id := (f (touch now s)).1]> m, Some (f (touch now s)).2).
Proof.
  intros Hs Ha. unfold update. rewrite Hs, Ha. simpl. by destruct (f _).
Qed.

Lemma reap_ids_fst ids m id :
  (reap_ids ids m).1 !! id = if decide (id ∈ ids) then None else m !! id.
Proof.
  revert m. induction ids as [|i ids IH]; intros m.
  { case_decide as Hin; [by apply elem_of_nil in Hin|done]. }
  cbn [reap_ids].
  pose proof (close_and_remove_fst m i) as Hc.
  destruct (close_and_remove m i) as [m1 c]. simpl in Hc. subst m1.
  pose proof (IH (delete i m)) as IHm.
  destruct (reap_ids ids (delete i m)) as [m2 l]. cbn [fst] in *. rewrite IHm.
  destruct (decide (id = i)) as [->|Hne].
  - rewrite lookup_delete_eq.
    destruct (decide (i ∈ i :: ids)) as [|Hn]; [by case_decide|].
    destruct Hn. by left.
  - rewrite lookup_delete_ne by done.
    destruct (decide (id ∈ ids)) as [Hi|Hi], (decide (id ∈ i :: ids)) as [Hin|Hin];
      rewrite ?elem_of_cons in Hin; naive_solver.
Qed.

Lemma elem_of_expired_ids m now ttl id :
  id ∈ (fst <$> List.filter (λ kv, expired now ttl kv.2) (map_to_list m)) ↔
  ∃ s, m !! id = Some s ∧ expired now ttl s = true.
Proof.
  rewrite list_elem_of_fmap. split.
  - intros ([k s] & -> & [Hin He]%filterb_elem).
    apply elem_of_map_to_list in Hin. eauto.
  - intros (s & Hs & He). exists (id, s). split; [done|].
    apply filterb_elem. split; [by apply elem_of_map_to_list|done].
Qed.

Lemma reap_expired_at_lookup m now ttl id :
  (reap_expired_at m now ttl).1 !! id =
  match m !! id with
  | Some s => if expired now ttl s then None else Some s
  | None => None
  end.
Proof.
  unfold reap_expired_at. rewrite reap_ids_fst.
  destruct (m !! id) as [s|] eqn:Hs.
  - destruct (expired now ttl s) eqn:He; case_decide as Hin; try done.
    + destruct Hin. apply elem_of_expired_ids. eauto.
    + apply elem_of_expired_ids in Hin as (s' & Hs' & He'). congruence.
  - by case_decide.
Qed.

Lemma reap_expired_at_subseteq m now ttl : (reap_expired_at m now ttl).1 ⊆ m.
Proof.
  apply map_subseteq_spec. intros id s. rewrite reap_expired_at_lookup.
  repeat case_match; naive_solver.
Qed.

Lemma reap_ids_snd ids m r :
  r ∈ (reap_ids ids m).2 →
  ∃ id s, id ∈ ids ∧ m !! id = Some s ∧ r = close (begin_closing s).
Proof.
  revert m. induction ids as [|i ids IH]; intros m; cbn [reap_ids].
  { simpl. by rewrite elem_of_nil. }
  pose proof (close_and_remove_fst m i) as Hm.
  destruct (close_and_remove m i) as [m1 c] eqn:Hc. simpl in Hm. subst m1.
  pose proof (IH (delete i m)) as IHm.
  destruct (reap_ids ids (delete i m)) as [m2 l]. cbn [snd] in *. intros Hr.
  assert (r ∈ l ∨ c = Some r) as [Hl| ->].
  { destruct c; [apply elem_of_cons in Hr; naive_solver|by left]. }
  - destruct (IHm Hl) as (id & s & Hin & Hs & ->).
    apply lookup_delete_Some in Hs as [_ Hs]. exists id, s. split; [by right|done].
  - unfold close_and_remove in Hc. destruct (m !! i) as [s|] eqn:Hs; [|done].
    simplify_eq. exists i, s. split; [by left|done].
Qed.

(** A closed record keeps everything but its state. *)
Lemma close_begin_closing s :
  close (begin_closing s) = s <| sr_state := SessionClosed |>.
Proof. unfold close, begin_closing. by case_match. Qed.

Lemma reap_expired_at_snd m now ttl r :
  r ∈ (reap_expired_at m now ttl).2 →
  ∃ id s, m !! id = Some s ∧ expired now ttl s = true ∧
    r = s <| sr_state := SessionClosed |>.
Proof.
  intros (id & s & Hin & Hs & ->)%reap_ids_snd.
  apply elem_of_expired_ids in Hin as (s' & Hs' & He).
  rewrite close_begin_closing. naive_solver.
Qed.

(** The tests of the reaper, as a proposition. *)
Lemma expired_iff now ttl s :
  expired now ttl s = true ↔
  accepts_requests (sr_state s) = true ∧ sr_owned_requests s = ∅ ∧
  (ttl ≤ now - sr_last_seen_ms s)%N.
Proof.
  unfold expired, saturating_sub.
  rewrite !andb_true_iff, bool_decide_eq_true, N.leb_le. naive_solver.
Qed.

(** *** The invariant *)

(** Replacing the record of a present session by a live record with the same
    id keeps the invariant, and so does shrinking the map. *)
Lemma session_inv_replace max m id s s' :
  session_inv max m → m !! id = Some s → sr_id s' = id →
  accepts_requests (sr_state s') = true → session_inv max (<[id := s']> m).
Proof.
  intros [Hb Hk Hl] Hs Hid Ha. split.
  - rewrite map_size_insert_Some by (by eexists); done.
  - intros i t. rewrite lookup_insert_Some. naive_solver.
  - intros i t. rewrite lookup_insert_Some. naive_solver.
Qed.

Lemma session_inv_subseteq max m m' :
  session_inv max m → m' ⊆ m → session_inv max m'.
Proof.
  intros [Hb Hk Hl] Hsub. split.
  - apply map_subseteq_size in Hsub. lia.
  - intros id s Hs. apply Hk. by eapply lookup_weaken.
  - intros id s Hs. apply (Hl id). by eapply lookup_weaken.
Qed.

Lemma session_inv_update {R} max m id now (f : SessionRecord → SessionRecord * R) :
  (∀ s, sr_id (f s).1 = sr_id s ∧ sr_state (f s).1 = sr_state s) →
  session_inv max m → session_inv max (update m id now f).1.
Proof.
  intros Hf Hi. unfold update. destruct (m !! id) as [s|] eqn:Hs; [|done].
  destruct (accepts_requests (sr_state s)) eqn:Ha; simpl; [|done].
  destruct (Hf (touch now s)) as [Hid Hst].
  destruct (f (touch now s)) as [s' r]. simpl in *.
  eapply session_inv_replace; [done..| |].
  - rewrite Hid, touch_keeps_id. by eapply sessions_keyed.
  - rewrite Hst. by apply touch_accepts.
Qed.

Lemma let_update_fst {R} (x : SessionRegistry * option R) (d : R) :
  (let '(m, c) := x in (m, default d c)).1 = x.1.
Proof. by destruct x. Qed.

#[export] Instance session_invariant max :
  @Invariant SessionRegistry (session_machine max) (session_inv max).
Proof.
  split.
  - intros m ->. split; [rewrite map_size_empty; lia| |]; intros ??; by rewrite lookup_empty.
  - intros m m' Hi Hstep. destruct Hstep.
    + unfold insert_bounded. destruct (max <=? size m) eqn:Hsz; [done|]. simpl.
      apply Nat.leb_gt in Hsz.
      destruct (m !! id) eqn:Hid; [done|]. simpl. destruct Hi as [Hb Hk Hl]. split.
      * rewrite map_size_insert_None by done. lia.
      * intros i t. rewrite lookup_insert_Some. naive_solver.
      * intros i t. rewrite lookup_insert_Some. naive_solver.
    + rewrite close_and_remove_fst. eapply session_inv_subseteq, delete_subseteq. done.
    + by apply session_inv_update.
    + unfold take_list_changed. rewrite let_update_fst.
      apply session_inv_update; [intros t; by case_bool_decide|done].
    + by apply session_inv_update.
    + unfold add_request. rewrite let_update_fst. by apply session_inv_update.
    + unfold remove_request. rewrite let_update_fst. by apply session_inv_update.
    + eapply session_inv_subseteq, reap_expired_at_subseteq. done.
Qed.

(** C29 (invariant): whatever sequence of operations the transport performs, its
    own updates of the tool catalog included, the registry never holds more than [max_sessions] sessions, every record is
    stored under its own id, and every stored session still accepts requests:
    closing and removing a session is one atomic step, so no request can ever be
    attached to a closing or closed session. *)
Theorem session_registry_invariant max_sessions (m : SessionRegistry) :
  @reachable _ (session_machine max_sessions) m →
  size m ≤ max_sessions ∧
  (∀ id s, m !! id = Some s → sr_id s = id ∧ accepts_requests (sr_state s) = true).
Proof.
  intros Hr. pose proof (@invariant_reachable _ (session_machine max_sessions)
    (session_inv max_sessions) _ m Hr) as [Hb Hk Hl].
  split; [done|]. intros id s Hs. split; [by apply Hk|by eapply Hl].
Qed.

Lemma session_registry_invariant_witness :
  let m := (insert_bounded ∅ (new_session (MkMcpSessionId "a") "v1" "sig" 5) 1).1 in
  size m ≤ 1.
Proof.
  intros m. refine (proj1 (session_registry_invariant 1 m _)).
  exists ∅. split; [reflexivity|]. eapply rtc_l; [|apply rtc_refl].
  exact (StepInsert 1 ∅ (MkMcpSessionId "a") "v1" "sig" 5).
Defined.

(** The TTL reaper removes exactly the sessions that accept
    requests, own no active request and have been silent for at least the TTL
    (the clock subtraction saturates, so a clock that ran backwards expires
    nothing with a positive TTL), returns each of them closed and otherwise
    unchanged, and leaves every other session as it was; a session with an
    active request lease is never reaped. *)
Theorem reap_exact (m : SessionRegistry) now ttl :
  (∀ id, (reap_expired_at m now ttl).1 !! id =
     match m !! id with
     | Some s => if expired now ttl s then None else Some s
     | None => None
     end) ∧
  (∀ r, r ∈ (reap_expired_at m now ttl).2 → ∃ id s, m !! id = Some s ∧
     expired now ttl s = true ∧ r = s <| sr_state := SessionClosed |>) ∧
  (∀ id s, m !! id = Some s → sr_owned_requests s ≠ ∅ →
     (reap_expired_at m now ttl).1 !! id = Some s).
Proof.
  split_and!; [apply reap_expired_at_lookup|apply reap_expired_at_snd|].
  intros id s Hs Ho. rewrite reap_expired_at_lookup, Hs.
  destruct (expired now ttl s) eqn:He; [|done].
  apply expired_iff in He as (_ & He & _). done.
Qed.

(** A request lease is exactly what [add_request] and
    [remove_request] make it.  On a session that accepts requests, adding a
    fresh request reports [true], refreshes and activates the session and
    records the lease, and removing it again reports [true] and takes the lease
    away without touching the other leases. *)
Theorem request_lease_roundtrip (m : SessionRegistry) id s k now1 now2 :
  m !! id = Some s → accepts_requests (sr_state s) = true → k ∉ sr_owned_requests s →
  ∃ m1 m2 s1 s2,
    add_request m id k now1 = (m1, true) ∧ m1 !! id = Some s1 ∧
    sr_owned_requests s1 = {[ k ]} ∪ sr_owned_requests s ∧
    sr_state s1 = SessionActive ∧ sr_last_seen_ms s1 = now1 ∧
    remove_request m1 id k now2 = (m2, true) ∧ m2 !! id = Some s2 ∧
    sr_owned_requests s2 = sr_owned_requests s ∧ sr_last_seen_ms s2 = now2.
Proof.
  intros Hs Ha Hk.
  assert (∀ now t, accepts_requests (sr_state t) = true →
    sr_state (touch now t) = SessionActive ∧ sr_last_seen_ms (touch now t) = now ∧
    sr_owned_requests (touch now t) = sr_owned_requests t) as Htouch.
  { intros now t. unfold touch. case_bool_decide as Hc; simpl in *.
    - done.
    - by destruct (sr_state t). }
  destruct (Htouch now1 s Ha) as (Hst & Hseen & Hown).
  set (s1 := touch now1 s <| sr_owned_requests ::= union {[ k ]} |>).
  assert (accepts_requests (sr_state s1) = true) as Ha1 by (subst s1; simpl; by rewrite Hst).
  destruct (Htouch now2 s1 Ha1) as (Hst2 & Hseen2 & Hown2).
  exists (<[id := s1]> m),
    (<[id := touch now2 s1 <| sr_owned_requests ::= (.∖ {[ k ]}) |>]> (<[id := s1]> m)),
    s1, (touch now2 s1 <| sr_owned_requests ::= (.∖ {[ k ]}) |>).
  assert (m !! id = Some s → (<[id := s1]> m) !! id = Some s1) as Hl1
    by (intros _; apply lookup_insert_eq).
  split_and!.
  - unfold add_request. rewrite (update_Some m id now1 _ s Hs Ha). cbn [fst snd default].
    rewrite Hown. by rewrite bool_decide_eq_false_2.
  - by apply Hl1.
  - subst s1. simpl. by rewrite Hown.
  - subst s1. simpl. done.
  - subst s1. simpl. done.
  - unfold remove_request. rewrite (update_Some _ id now2 _ s1 (Hl1 Hs) Ha1).
    cbn [fst snd default]. rewrite Hown2. rewrite bool_decide_eq_true_2; [done|].
    subst s1. simpl. set_solver.
  - apply lookup_insert_eq.
  - simpl. rewrite Hown2. subst s1. simpl. rewrite Hown. set_solver.
  - simpl. done.
Qed.

Lemma request_lease_roundtrip_witness :
  let id := MkMcpSessionId "a" in
  let k := MkRequestKey id (RpcNumber 7) in
  let m : SessionRegistry := {[ id := new_session id "v1" "sig" 5 ]} in
  ∃ m1 m2 s1 s2,
    add_request m id k 6 = (m1, true) ∧ m1 !! id = Some s1 ∧
    sr_owned_requests s1 = {[ k ]} ∪ ∅ ∧
    sr_state s1 = SessionActive ∧ sr_last_seen_ms s1 = 6%N ∧
    remove_request m1 id k 9 = (m2, true) ∧ m2 !! id = Some s2 ∧
    sr_owned_requests s2 = ∅ ∧ sr_last_seen_ms s2 = 9%N.
Proof.
  intros id k m.
  apply (request_lease_roundtrip m id (new_session id "v1" "sig" 5) k 6 9).
  - apply lookup_singleton_eq.
  - reflexivity.
  - apply not_elem_of_empty.
Defined.
