(* ===== verification/RequestRegistry.v ===== *)
(** * RequestRegistry: in-flight requests, their cancellation and their errors

    [src/src-tauri/src/control_plane/request_registry.rs]. *)

From S2P Require Import Prelude Text Domain.

(* @src control_plane/request_registry.rs:7-7 MAX_RETAINED_REQUEST_ERRORS *)
Definition MAX_RETAINED_REQUEST_ERRORS : nat := 256.

(** A cancellation flag shared with a filesystem operation: the address of an
    [AtomicBool] (the registry stores the handle and never reads the flag). *)
(* @src filesystem/service.rs:46-47 FilesystemCancellation *)
Record FilesystemCancellation := MkFilesystemCancellation { cancellation_cell : N }.

(* @src control_plane/request_registry.rs:9-16 RequestCancellationTarget *)
Inductive RequestCancellationTarget :=
  | QueuedWork
  | RuntimeTarget (id : RpcRequestId)
  | WorkspaceFilesystem (flag : FilesystemCancellation)
  | PrivilegedFilesystem (operation : string)
  | PrivilegedExecution (operation : string).

(* @src control_plane/request_registry.rs:25-29 ActiveRequestState *)
Inductive ActiveRequestState := RequestActive | CancellationRequested.
#[export] Instance ActiveRequestState_eq_dec : EqDecision ActiveRequestState.
Proof. solve_decision. Defined.

(* @src control_plane/request_registry.rs:18-23 ActiveRequest *)
Record ActiveRequest := MkActiveRequest {
  ar_key : RequestKey;
  ar_cancellation : RequestCancellationTarget;
  ar_state : ActiveRequestState
}.
#[export] Instance eta_ActiveRequest : Eta ActiveRequest := λ r,
  MkActiveRequest (ar_key r) (ar_cancellation r) (ar_state r).

(* @src control_plane/request_registry.rs:31-34 RequestRegistryError *)
Inductive RequestRegistryError := AlreadyActive.

(* @src control_plane/request_registry.rs:36-43 RequestRegistryState *)
Record RequestRegistryState := MkRequestRegistryState {
  rr_active : gmap RequestKey ActiveRequest;
  rr_errors : list (RequestKey * OperationError)
}.
#[export] Instance eta_RequestRegistryState : Eta RequestRegistryState := λ r,
  MkRequestRegistryState (rr_active r) (rr_errors r).

Definition empty_requests : RequestRegistryState := MkRequestRegistryState ∅ [].

(* @src control_plane/request_registry.rs:46-67 RequestRegistry::register *)
Definition register (self : RequestRegistryState) (key : RequestKey)
    (cancellation : RequestCancellationTarget) :
    RequestRegistryState * result RequestRegistryError unit :=
  match rr_active self !! key with
  | Some _ => (self, Err AlreadyActive)
  | None =>
      (self <| rr_active ::= <[key := MkActiveRequest key cancellation RequestActive]> |>,
       Ok ())
  end.

(* @src control_plane/request_registry.rs:69-81 RequestRegistry::replace_cancellation_target *)
Definition replace_cancellation_target (self : RequestRegistryState) (key : RequestKey)
    (cancellation : RequestCancellationTarget) :
    RequestRegistryState * option ActiveRequest :=
  match rr_active self !! key with
  | None => (self, None)
  | Some request =>
      let request := request <| ar_cancellation := cancellation |> in
      (self <| rr_active ::= <[key := request]> |>, Some request)
  end.

(* @src control_plane/request_registry.rs:83-91 RequestRegistry::request_cancellation *)
Definition request_cancellation (self : RequestRegistryState) (key : RequestKey) :
    RequestRegistryState * option ActiveRequest :=
  match rr_active self !! key with
  | None => (self, None)
  | Some request =>
      let request := request <| ar_state := CancellationRequested |> in
      (self <| rr_active ::= <[key := request]> |>, Some request)
  end.

(* @src control_plane/request_registry.rs:93-100 RequestRegistry::cancellation_was_requested *)
Definition cancellation_was_requested (self : RequestRegistryState) (key : RequestKey) : bool :=
  match rr_active self !! key with
  | Some request => bool_decide (ar_state request = CancellationRequested)
  | None => false
  end.

(* @src control_plane/request_registry.rs:102-109 RequestRegistry::active *)
Definition active (self : RequestRegistryState) (key : RequestKey) : option ActiveRequest :=
  rr_active self !! key.

(* @src control_plane/request_registry.rs:111-117 RequestRegistry::remove *)
Definition remove (self : RequestRegistryState) (key : RequestKey) :
    RequestRegistryState * option ActiveRequest :=
  (self <| rr_active ::= delete key |>, rr_active self !! key).

(* @src control_plane/request_registry.rs:139-147 RequestRegistry::all *)
Definition all (self : RequestRegistryState) : list ActiveRequest :=
  (map_to_list (rr_active self)).*2.

(* @src control_plane/request_registry.rs:128-137 RequestRegistry::owned_by *)
Definition owned_by (self : RequestRegistryState) (session_id : McpSessionId) :
    list ActiveRequest :=
  List.filter (λ request, bool_decide (rk_session_id (ar_key request) = session_id))
    (all self).

(** [while errors.len() > MAX { errors.pop_front() }]. *)
(* @src control_plane/request_registry.rs:157-159 RequestRegistry::record_error (the trim loop) *)
Fixpoint trim_front {A} (max : nat) (l : list A) : list A :=
  match l with
  | [] => []
  | x :: l' => if max <? length l then trim_front max l' else l
  end.

(* @src control_plane/request_registry.rs:149-160 RequestRegistry::record_error *)
Definition record_error (self : RequestRegistryState) (key : RequestKey)
    (error : OperationError) : RequestRegistryState :=
  self <| rr_errors ::= λ errors,
    trim_front MAX_RETAINED_REQUEST_ERRORS (errors ++ [(key, for_request error key)]) |>.

(* @src control_plane/request_registry.rs:162-172 RequestRegistry::latest_error *)
Definition latest_error (self : RequestRegistryState) (key : RequestKey) :
    option OperationError :=
  snd <$> find_last (λ entry, bool_decide (entry.1 = key)) (rr_errors self).

(** ** The registry as a state machine *)

Inductive request_step : RequestRegistryState → RequestRegistryState → Prop :=
  | StepRegister r key target : request_step r (register r key target).1
  | StepReplace r key target : request_step r (replace_cancellation_target r key target).1
  | StepCancel r key : request_step r (request_cancellation r key).1
  | StepRemove r key : request_step r (remove r key).1
  | StepRecord r key error : request_step r (record_error r key error).

#[export] Instance request_machine : StateMachine RequestRegistryState := {|
  sm_init r := r = empty_requests;
  sm_step := request_step
|}.

Record request_inv (r : RequestRegistryState) : Prop := {
  requests_keyed : ∀ k a, rr_active r !! k = Some a → ar_key a = k;
  errors_bounded : length (rr_errors r) ≤ MAX_RETAINED_REQUEST_ERRORS;
  errors_scoped : ∀ k e, (k, e) ∈ rr_errors r → oe_request e = Some k
}.

(** ** Facts *)

Lemma trim_front_drop {A} max (l : list A) : trim_front max l = drop (length l - max) l.
Proof.
  induction l as [|x l IH]; [by rewrite drop_nil|]. cbn [trim_front].
  destruct (max <? length (x :: l)) eqn:E; simpl in E.
  - apply Nat.ltb_lt in E. rewrite IH. simpl length.
    by replace (S (length l) - max) with (S (length l - max)) by lia.
  - apply Nat.ltb_ge in E. simpl length.
    by replace (S (length l) - max) with 0 by lia.
Qed.

Lemma trim_front_length {A} max (l : list A) : length (trim_front max l) ≤ max.
Proof. rewrite trim_front_drop, length_drop. lia. Qed.

Lemma trim_front_elem {A} max (l : list A) x : x ∈ trim_front max l → x ∈ l.
Proof. rewrite trim_front_drop. intros [i Hi]%list_elem_of_lookup.
  rewrite lookup_drop in Hi. by eapply list_elem_of_lookup_2. Qed.

Lemma trim_front_last {A} max (l : list A) x :
  0 < max → trim_front max (l ++ [x]) = drop (S (length l) - max) l ++ [x].
Proof.
  intros Hm. rewrite trim_front_drop, length_app. simpl.
  rewrite drop_app_le by lia. by rewrite Nat.add_1_r.
Qed.

(** What one step does to the entry of a key. *)
Lemma request_step_lookup r r' k :
  request_step r r' →
  rr_active r' !! k = rr_active r !! k ∨
  rr_active r' !! k = None ∨
  (rr_active r !! k = None ∧ ∃ a, rr_active r' !! k = Some a ∧ ar_key a = k ∧
     ar_state a = RequestActive) ∨
  ∃ a a', rr_active r !! k = Some a ∧ rr_active r' !! k = Some a' ∧ ar_key a' = ar_key a ∧
     (ar_state a' = ar_state a ∨ ar_state a' = CancellationRequested).
Proof.
  intros Hstep. destruct Hstep as [r key t|r key t|r key|r key|r key e].
  - unfold register. destruct (rr_active r !! key) eqn:Hk; simpl; [by left|].
    destruct (decide (key = k)) as [->|Hne].
    + do 2 right. left. rewrite lookup_insert_eq. eauto.
    + left. by rewrite lookup_insert_ne.
  - unfold replace_cancellation_target. destruct (rr_active r !! key) as [a|] eqn:Hk; [|by left].
    simpl. destruct (decide (key = k)) as [->|Hne].
    + do 3 right. rewrite lookup_insert_eq. eauto 8.
    + left. by rewrite lookup_insert_ne.
  - unfold request_cancellation. destruct (rr_active r !! key) as [a|] eqn:Hk; [|by left].
    simpl. destruct (decide (key = k)) as [->|Hne].
    + do 3 right. rewrite lookup_insert_eq. eauto 8.
    + left. by rewrite lookup_insert_ne.
  - simpl. destruct (decide (key = k)) as [->|Hne].
    + right. left. apply lookup_delete_eq.
    + left. by rewrite lookup_delete_ne.
  - by left.
Qed.

Lemma request_step_errors r r' :
  request_step r r' →
  rr_errors r' = rr_errors r ∨ ∃ k e, r' = record_error r k e.
Proof.
  intros Hstep. destruct Hstep; [| | | |right; eauto]; left.
  - unfold register. by case_match.
  - unfold replace_cancellation_target. by case_match.
  - unfold request_cancellation. by case_match.
  - done.
Qed.

#[export] Instance request_invariant : Invariant request_inv.
Proof.
  split.
  - intros r ->. split; simpl; [intros ??; by rewrite lookup_empty|
      unfold MAX_RETAINED_REQUEST_ERRORS; lia|intros ??; by rewrite elem_of_nil].
  - intros r r' [Hk Hb Hs] Hstep. split.
    + intros k a Ha. destruct (request_step_lookup r r' k Hstep)
        as [Heq|[Heq|[(_ & a' & Heq & ? & _)|(b & b' & Hb1 & Heq & Hkey & _)]]];
        rewrite Heq in Ha; simplify_eq; [by apply Hk|done|]. rewrite Hkey. by apply Hk.
    + destruct (request_step_errors r r' Hstep) as [->|(k & e & ->)]; [done|].
      apply trim_front_length.
    + destruct (request_step_errors r r' Hstep) as [->|(k & e & ->)]; [done|].
      intros k' e' Hin%trim_front_elem. apply elem_of_app in Hin as [Hin|Hin]; [by apply Hs|].
      apply list_elem_of_singleton in Hin. by simplify_eq.
Qed.

Lemma elem_of_owned_by r session a :
  request_inv r →
  a ∈ owned_by r session ↔
    rr_active r !! ar_key a = Some a ∧ rk_session_id (ar_key a) = session.
Proof.
  intros Hr. unfold owned_by, all. rewrite filterb_elem, bool_decide_eq_true.
  rewrite list_elem_of_fmap. split.
  - intros (([k b] & -> & Hb) & Hs). apply elem_of_map_to_list in Hb.
    simpl in *. split; [|done]. by rewrite (requests_keyed r Hr k b Hb).
  - intros [Ha Hs]. split; [|done]. exists (ar_key a, a). split; [done|].
    by apply elem_of_map_to_list.
Qed.

(** A cancellation intent is never lost.  Once cancellation of an
    in-flight request has been asked for, every later operation on the registry,
    whichever request it addresses, either retires the request or leaves it
    marked as cancelled; replacing its target (queued work that becomes a
    runtime call) keeps the mark, and registering the same key again is refused
    without touching the entry. *)
Theorem cancellation_intent_kept r r' key :
  reachable r →
  cancellation_was_requested r key = true →
  sm_step r r' →
  (active r' key = None ∨ cancellation_was_requested r' key = true) ∧
  (∀ target, register r key target = (r, Err AlreadyActive)).
Proof.
  intros _ Hc Hstep. unfold cancellation_was_requested, active in *.
  destruct (rr_active r !! key) as [a|] eqn:Ha; [|done].
  apply bool_decide_eq_true in Hc. split.
  - destruct (request_step_lookup r r' key Hstep)
      as [Heq|[Heq|[(Hn & _)|(b & b' & Hb1 & Heq & _ & Hst)]]].
    + right. rewrite Heq, Ha. by apply bool_decide_eq_true.
    + by left.
    + congruence.
    + right. rewrite Heq. apply bool_decide_eq_true.
      destruct Hst; congruence.
  - intros target. unfold register. by rewrite Ha.
Qed.

Lemma cancellation_intent_kept_witness :
  let k := MkRequestKey (MkMcpSessionId "a") (RpcNumber 3) in
  let r1 := (register empty_requests k QueuedWork).1 in
  let r2 := (request_cancellation r1 k).1 in
  let r3 := (replace_cancellation_target r2 k (RuntimeTarget (RpcNumber 103))).1 in
  active r3 k = None ∨ cancellation_was_requested r3 k = true.
Proof.
  intros k r1 r2 r3. refine (proj1 (cancellation_intent_kept r2 r3 k _ _ _)).
  - exists empty_requests. split; [reflexivity|].
    eapply rtc_l; [exact (StepRegister empty_requests k QueuedWork)|].
    eapply rtc_l; [exact (StepCancel r1 k)|]. apply rtc_refl.
  - vm_compute. reflexivity.
  - exact (StepReplace r2 k (RuntimeTarget (RpcNumber 103))).
Defined.

(** in every reachable registry the error history holds at most
    256 entries, each error carries the key of the request it belongs to (so the
    latest error of a key is an error of that very request), and the requests
    owned by a session are exactly the in-flight entries whose key names that
    session: another session's equal request id is never returned. *)
Theorem request_registry_scoped r :
  reachable r →
  length (rr_errors r) ≤ 256 ∧
  (∀ key e, latest_error r key = Some e → oe_request e = Some key) ∧
  (∀ session a, a ∈ owned_by r session ↔
     active r (ar_key a) = Some a ∧ rk_session_id (ar_key a) = session).
Proof.
  intros Hr. pose proof (invariant_reachable request_inv r Hr) as Hi. split_and!.
  - apply (errors_bounded r Hi).
  - intros key e He. unfold latest_error in He.
    destruct (find_last _ _) as [[k e']|] eqn:Hf; simplify_eq/=.
    apply find_last_Some in Hf as [Hin Hk]. apply bool_decide_eq_true in Hk. simpl in Hk.
    subst k. by apply (errors_scoped r Hi).
  - intros session a. by apply elem_of_owned_by.
Qed.

Lemma request_registry_scoped_witness :
  let k := MkRequestKey (MkMcpSessionId "a") (RpcNumber 4) in
  length (rr_errors (record_error empty_requests k
    (new_error "Request.Unavailable" Unavailable "unavailable" true))) ≤ 256.
Proof.
  intros k. refine (proj1 (request_registry_scoped _ _)).
  exists empty_requests. split; [reflexivity|].
  eapply rtc_l; [|apply rtc_refl]. exact (StepRecord empty_requests k _).
Defined.
