(* ===== verification/Scheduler.v ===== *)
(** * Scheduler: admission of observation, control and foreground work

    [src/src-tauri/src/control_plane/scheduler.rs].  Three lanes share one mutex
    and one condition variable.  The two immediate lanes are bounded counters;
    the work lane has one slot and a bounded queue of blocked threads.

    The operations are the critical sections of the code on [SchedulerState].
    [Scheduler] adds what the mutex does not hold: the ticket counter, the
    threads that drew a ticket and wait for the lock, the threads blocked in
    [Condvar::wait] with their pending notifications, and the live permits. *)

From S2P Require Import Prelude Text Domain.
#[local] Open Scope N_scope.

(** ** Data *)

(* @src control_plane/scheduler.rs:11-11 MAX_WORK_QUEUE *)
Definition MAX_WORK_QUEUE : N := 32.
(* @src control_plane/scheduler.rs:12-12 MAX_OBSERVATION_ACTIVE *)
Definition MAX_OBSERVATION_ACTIVE : N := 16.
(* @src control_plane/scheduler.rs:13-13 MAX_CONTROL_ACTIVE *)
Definition MAX_CONTROL_ACTIVE : N := 16.
(* @src control_plane/scheduler.rs:14-14 FOREGROUND_WORK_SLOTS *)
Definition FOREGROUND_WORK_SLOTS : N := 1.

(* @src control_plane/scheduler.rs:17-22 SchedulerLane *)
Inductive SchedulerLane := LaneObservation | LaneControl | LaneWork.

(* @src control_plane/scheduler.rs:24-30 SchedulerAdmissionError *)
Inductive SchedulerAdmissionError :=
  | QueueCapacityExceeded | ImmediateCapacityExceeded | AdmissionCancelled
  | AdmissionClosed.

(* @src control_plane/scheduler.rs:32-45 SchedulerSnapshot *)
Record SchedulerSnapshot := MkSchedulerSnapshot {
  ss_observation_active : N;
  ss_observation_capacity : N;
  ss_control_active : N;
  ss_control_capacity : N;
  ss_work_running : N;
  ss_work_queued : N;
  ss_work_capacity : N;
  ss_rejected_total : N
}.
#[export] Instance SchedulerSnapshot_eq_dec : EqDecision SchedulerSnapshot.
Proof. solve_decision. Defined.

(* @src control_plane/scheduler.rs:48-59 SchedulerSnapshot::idle *)
Definition idle_snapshot : SchedulerSnapshot :=
  MkSchedulerSnapshot 0 MAX_OBSERVATION_ACTIVE 0 MAX_CONTROL_ACTIVE 0 0 MAX_WORK_QUEUE 0.

(* @src control_plane/scheduler.rs:62-68 QueuedWork *)
Record QueuedWork := MkQueuedWork {
  qw_ticket : N;
  qw_owner_session : McpSessionId;
  qw_task_id : TaskId;
  qw_request : RequestKey
}.

(* @src control_plane/scheduler.rs:70-79 SchedulerState *)
Record SchedulerState := MkSchedulerState {
  st_observation_active : N;
  st_control_active : N;
  st_work_running : N;
  st_queue : list QueuedWork;
  st_cancelled : gset N;
  st_rejected_total : N;
  st_closed : bool
}.
#[export] Instance eta_SchedulerState : Eta SchedulerState := λ r,
  MkSchedulerState (st_observation_active r) (st_control_active r) (st_work_running r)
    (st_queue r) (st_cancelled r) (st_rejected_total r) (st_closed r).

Definition queue_len (s : SchedulerState) : N := N.of_nat (length (st_queue s)).

Definition incr_usize (n : N) : N := saturating_add usize_max n 1.
Definition reject (s : SchedulerState) : SchedulerState :=
  s <| st_rejected_total ::= λ n, saturating_add u64_max n 1 |>.

(** ** Operations on the locked state *)

(** [None] is the [assert!] failing: the work lane is never entered here. *)
(* @src control_plane/scheduler.rs:110-145 Scheduler::enter_immediate *)
Definition enter_immediate (s : SchedulerState) (lane : SchedulerLane) :
    option (SchedulerState * result SchedulerAdmissionError unit) :=
  match lane with
  | LaneWork => None
  | _ =>
    Some (if st_closed s then (s, Err AdmissionClosed) else
    match lane with
    | LaneObservation =>
        if MAX_OBSERVATION_ACTIVE <=? st_observation_active s
        then (reject s, Err ImmediateCapacityExceeded)
        else (s <| st_observation_active ::= incr_usize |>, Ok ())
    | _ =>
        if MAX_CONTROL_ACTIVE <=? st_control_active s
        then (reject s, Err ImmediateCapacityExceeded)
        else (s <| st_control_active ::= incr_usize |>, Ok ())
    end)
  end.

(** What a thread that asks for the work lane is told before it would block. *)
Inductive AdmitOutcome :=
  | Granted
  | Refused (e : SchedulerAdmissionError)
  | Parked.
#[export] Instance SchedulerAdmissionError_eq_dec : EqDecision SchedulerAdmissionError.
Proof. solve_decision. Defined.
#[export] Instance AdmitOutcome_eq_dec : EqDecision AdmitOutcome.
Proof. solve_decision. Defined.

(* @src control_plane/scheduler.rs:154-178 Scheduler::admit_work_for_request (until the wait loop) *)
Definition admit_enter (s : SchedulerState) (ticket : N) (owner_session : McpSessionId)
    (task_id : TaskId) (request : RequestKey) : SchedulerState * AdmitOutcome :=
  if st_closed s then (s, Refused AdmissionClosed) else
  if (st_work_running s <? FOREGROUND_WORK_SLOTS) && bool_decide (st_queue s = [])
  then (s <| st_work_running ::= N.add 1 |>, Granted)
  else if MAX_WORK_QUEUE <=? queue_len s
  then (reject s, Refused QueueCapacityExceeded)
  else (s <| st_queue ::= λ q, (q ++ [MkQueuedWork ticket owner_session task_id request])%list |>,
        Parked).

(** One round of the wait loop, after [wait] returned with the lock. *)
(* @src control_plane/scheduler.rs:180-201 Scheduler::admit_work_for_request (the wait loop) *)
Definition admit_resume (s : SchedulerState) (ticket : N) : SchedulerState * AdmitOutcome :=
  if bool_decide (ticket ∈ st_cancelled s)
  then (s <| st_cancelled ::= (.∖ {[ ticket ]}) |>, Refused AdmissionCancelled)
  else match st_queue s with
  | front :: rest =>
      if (qw_ticket front =? ticket) && (st_work_running s <? FOREGROUND_WORK_SLOTS)
      then (s <| st_queue := rest |> <| st_work_running ::= N.add 1 |>, Granted)
      else (s, Parked)
  | [] => (s, Parked)
  end.

(** Removing the queued entry at [index] and leaving its ticket as cancelled. *)
Definition cancel_index (s : SchedulerState) (index : nat) (queued : QueuedWork) :
    SchedulerState :=
  s <| st_queue ::= delete index |> <| st_cancelled ::= union {[ qw_ticket queued ]} |>.

(** [position] followed by [VecDeque::remove]; [None] is the early return. *)
Definition locate (p : QueuedWork → bool) (s : SchedulerState) : option (nat * QueuedWork) :=
  index ← position p (st_queue s);
  queued ← st_queue s !! index;
  Some (index, queued).

(* @src control_plane/scheduler.rs:217-234 Scheduler::cancel_queued_request *)
Definition cancel_queued_request (s : SchedulerState) (request : RequestKey) :
    SchedulerState * option TaskId :=
  match locate (λ queued, bool_decide (qw_request queued = request)) s with
  | None => (s, None)
  | Some (index, queued) => (cancel_index s index queued, Some (qw_task_id queued))
  end.

(* @src control_plane/scheduler.rs:273-293 Scheduler::cancel_queued_task *)
Definition cancel_queued_task (s : SchedulerState) (owner : McpSessionId) (task_id : TaskId) :
    SchedulerState * bool :=
  match locate (λ queued, bool_decide (qw_owner_session queued = owner) &&
                          bool_decide (qw_task_id queued = task_id)) s with
  | None => (s, false)
  | Some (index, queued) => (cancel_index s index queued, true)
  end.

(** The draining loop shared by [close] and [cancel_queued_by_session]: the
    entries that satisfy [drop] are cancelled in order, the others retained. *)
(* @src control_plane/scheduler.rs:260-267 Scheduler::cancel_queued_by_session (the loop) *)
Fixpoint drain_queue (drop : QueuedWork → bool) (queue : list QueuedWork)
    (cancelled : gset N) : list QueuedWork * gset N * list TaskId :=
  match queue with
  | [] => ([], cancelled, [])
  | queued :: queue =>
      if drop queued then
        let '(retained, cancelled, tasks) :=
          drain_queue drop queue ({[ qw_ticket queued ]} ∪ cancelled) in
        (retained, cancelled, qw_task_id queued :: tasks)
      else
        let '(retained, cancelled, tasks) := drain_queue drop queue cancelled in
        (queued :: retained, cancelled, tasks)
  end.

(* @src control_plane/scheduler.rs:252-271 Scheduler::cancel_queued_by_session *)
Definition cancel_queued_by_session (s : SchedulerState) (owner : McpSessionId) :
    SchedulerState * list TaskId :=
  let '(retained, cancelled, tasks) :=
    drain_queue (λ queued, bool_decide (qw_owner_session queued = owner))
      (st_queue s) (st_cancelled s) in
  (s <| st_queue := retained |> <| st_cancelled := cancelled |>, tasks).

(* @src control_plane/scheduler.rs:236-250 Scheduler::close *)
Definition close (s : SchedulerState) : SchedulerState * list TaskId :=
  let '(retained, cancelled, tasks) :=
    drain_queue (λ _, true) (st_queue s) (st_cancelled s) in
  (s <| st_closed := true |> <| st_queue := retained |> <| st_cancelled := cancelled |>, tasks).

(* @src control_plane/scheduler.rs:295-311 Scheduler::snapshot *)
Definition snapshot (s : SchedulerState) : SchedulerSnapshot :=
  MkSchedulerSnapshot (st_observation_active s) MAX_OBSERVATION_ACTIVE
    (st_control_active s) MAX_CONTROL_ACTIVE (st_work_running s) (queue_len s)
    MAX_WORK_QUEUE (st_rejected_total s).

(** [None] is the [unreachable!] of the work lane. *)
(* @src control_plane/scheduler.rs:314-330 ImmediatePermit::drop *)
Definition drop_immediate (s : SchedulerState) (lane : SchedulerLane) : option SchedulerState :=
  match lane with
  | LaneObservation => Some (s <| st_observation_active ::= λ n, saturating_sub n 1 |>)
  | LaneControl => Some (s <| st_control_active ::= λ n, saturating_sub n 1 |>)
  | LaneWork => None
  end.

(* @src control_plane/scheduler.rs:332-347 WorkPermit::drop *)
Definition drop_work (s : SchedulerState) : SchedulerState :=
  s <| st_work_running ::= λ n, saturating_sub n 1 |>.

(** ** The scheduler and its threads *)

(* @src control_plane/scheduler.rs:81-107 SchedulerInner, Scheduler, SchedulerPermit *)
Record Scheduler := MkScheduler {
  sc_state : SchedulerState;
  (** [TICKET_GENERATION] *)
  sc_next_ticket : N;
  (** threads that drew a ticket and have not yet taken the lock *)
  sc_entering : gset N;
  (** threads in [Condvar::wait], with "a notification is pending" *)
  sc_waiting : gmap N bool;
  (** live permits: observation, control, work *)
  sc_observation_permits : nat;
  sc_control_permits : nat;
  sc_work_permits : nat
}.
#[export] Instance eta_Scheduler : Eta Scheduler := λ r,
  MkScheduler (sc_state r) (sc_next_ticket r) (sc_entering r) (sc_waiting r)
    (sc_observation_permits r) (sc_control_permits r) (sc_work_permits r).

Definition empty_state : SchedulerState := MkSchedulerState 0 0 0 [] ∅ 0 false.
Definition empty_scheduler : Scheduler := MkScheduler empty_state 1 ∅ ∅ 0 0 0.

(** [Condvar::notify_all]. *)
Definition notify_all (sc : Scheduler) : Scheduler :=
  sc <| sc_waiting ::= fmap (λ _, true) |>.

(** A thread leaves the wait, or goes back to it with its wake-up consumed. *)
Definition settle_wait (sc : Scheduler) (ticket : N) (o : AdmitOutcome) : Scheduler :=
  match o with
  | Parked => sc <| sc_waiting ::= <[ticket := false]> |>
  | Granted => sc <| sc_waiting ::= delete ticket |> <| sc_work_permits ::= S |>
  | Refused _ => sc <| sc_waiting ::= delete ticket |>
  end.

Definition immediate_permits (lane : SchedulerLane) (sc : Scheduler) : nat :=
  match lane with
  | LaneObservation => sc_observation_permits sc
  | LaneControl => sc_control_permits sc
  | LaneWork => 0%nat
  end.

Definition set_immediate_permits (lane : SchedulerLane) (f : nat → nat) (sc : Scheduler) :
    Scheduler :=
  match lane with
  | LaneObservation => sc <| sc_observation_permits ::= f |>
  | LaneControl => sc <| sc_control_permits ::= f |>
  | LaneWork => sc
  end.

(** One atomic step of some thread.  The only bound is on the ticket counter:
    the model stops before the [u64] would wrap. *)
Inductive scheduler_step : Scheduler → Scheduler → Prop :=
  | StepFetch sc :
      sc_next_ticket sc < u64_max →
      scheduler_step sc (sc <| sc_next_ticket ::= wrapping_add u64_max 1 |>
                            <| sc_entering ::= union {[ sc_next_ticket sc ]} |>)
  | StepAdmit sc ticket owner task request s o :
      ticket ∈ sc_entering sc →
      admit_enter (sc_state sc) ticket owner task request = (s, o) →
      scheduler_step sc (settle_wait (sc <| sc_state := s |>
                                         <| sc_entering ::= (.∖ {[ ticket ]}) |>) ticket o)
  | StepWake sc ticket b s o :
      sc_waiting sc !! ticket = Some b →
      admit_resume (sc_state sc) ticket = (s, o) →
      scheduler_step sc (settle_wait (sc <| sc_state := s |>) ticket o)
  | StepEnter sc lane s r :
      enter_immediate (sc_state sc) lane = Some (s, r) →
      scheduler_step sc (set_immediate_permits lane (if is_ok r then S else id)
                           (sc <| sc_state := s |>))
  | StepDropImmediate sc lane s :
      (0 < immediate_permits lane sc)%nat →
      drop_immediate (sc_state sc) lane = Some s →
      scheduler_step sc (set_immediate_permits lane pred (sc <| sc_state := s |>))
  | StepDropWork sc :
      (0 < sc_work_permits sc)%nat →
      scheduler_step sc (notify_all (sc <| sc_state ::= drop_work |> <| sc_work_permits ::= pred |>))
  | StepCancelRequest sc request s task :
      cancel_queued_request (sc_state sc) request = (s, Some task) →
      scheduler_step sc (notify_all (sc <| sc_state := s |>))
  | StepCancelTask sc owner task s :
      cancel_queued_task (sc_state sc) owner task = (s, true) →
      scheduler_step sc (notify_all (sc <| sc_state := s |>))
  | StepCancelSession sc owner s tasks :
      cancel_queued_by_session (sc_state sc) owner = (s, tasks) →
      scheduler_step sc (notify_all (sc <| sc_state := s |>))
  | StepClose sc s tasks :
      close (sc_state sc) = (s, tasks) →
      scheduler_step sc (notify_all (sc <| sc_state := s |>)).

#[export] Instance scheduler_machine : StateMachine Scheduler := {|
  sm_init sc := sc = empty_scheduler;
  sm_step := scheduler_step
|}.

(** ** The contract: a lock with a bounded first-in first-out line *)

Record WorkLine := MkWorkLine {
  wl_busy : bool;
  wl_line : list N;
  wl_shut : bool
}.

Inductive line_step : WorkLine → WorkLine → Prop :=
  | LineTake : line_step (MkWorkLine false [] false) (MkWorkLine true [] false)
  | LineJoin busy line ticket :
      ticket ∉ line → (length line < 32)%nat → (busy = true ∨ line ≠ []) →
      line_step (MkWorkLine busy line false) (MkWorkLine busy (line ++ [ticket])%list false)
  | LineServe ticket line shut :
      line_step (MkWorkLine false (ticket :: line) shut) (MkWorkLine true line shut)
  | LineLeave line shut : line_step (MkWorkLine true line shut) (MkWorkLine false line shut)
  | LineAbandon busy line line' shut :
      sublist line' line →
      line_step (MkWorkLine busy line shut) (MkWorkLine busy line' shut)
  | LineShut busy line shut :
      line_step (MkWorkLine busy line shut) (MkWorkLine busy [] true).

#[export] Instance line_machine : StateMachine WorkLine := {|
  sm_init w := w = MkWorkLine false [] false;
  sm_step := line_step
|}.

Definition tickets (s : SchedulerState) : list N := qw_ticket <$> st_queue s.

Definition work_line (sc : Scheduler) : WorkLine :=
  MkWorkLine (0 <? st_work_running (sc_state sc)) (tickets (sc_state sc))
    (st_closed (sc_state sc)).

(** ** Facts about the queue operations *)

Lemma drain_queue_spec drop queue cancelled retained cancelled' tasks :
  drain_queue drop queue cancelled = (retained, cancelled', tasks) →
  retained = List.filter (λ x, negb (drop x)) queue ∧
  tasks = qw_task_id <$> List.filter drop queue ∧
  ∀ t, t ∈ cancelled' ↔
       t ∈ cancelled ∨ ∃ x, x ∈ queue ∧ drop x = true ∧ qw_ticket x = t.
Proof.
  revert cancelled retained cancelled' tasks.
  induction queue as [|x queue IH]; intros c r c' ts; cbn [drain_queue].
  { intros [= <- <- <-]. split_and!; [done..|]. intros t. split; [by left|].
    intros [?|(x & Hx & _)]; [done|]. by apply elem_of_nil in Hx. }
  simpl. destruct (drop x) eqn:Hx; simpl.
  - destruct (drain_queue drop queue _) as [[r1 c1] t1] eqn:E. intros [= <- <- <-].
    apply IH in E as (-> & -> & Hc). split_and!; [done..|]. intros t.
    rewrite Hc, elem_of_union, elem_of_singleton. setoid_rewrite elem_of_cons. split.
    + intros [[->|?]|(y & ? & ? & ?)]; eauto 8.
    + intros [?|(y & [->|?] & ? & ?)]; eauto 8.
  - destruct (drain_queue drop queue _) as [[r1 c1] t1] eqn:E. intros [= <- <- <-].
    apply IH in E as (-> & -> & Hc). split_and!; [done..|]. intros t.
    rewrite Hc. setoid_rewrite elem_of_cons. split.
    + intros [?|(y & ? & ? & ?)]; eauto 8.
    + intros [?|(y & [->|?] & ? & ?)]; [eauto 8|congruence|eauto 8].
Qed.

(** [withdraws s s'] : some queued entries become cancelled, nothing else
    changes but, possibly, the closing of the scheduler. *)
Record withdraws (s s' : SchedulerState) : Prop := {
  wd_observation : st_observation_active s' = st_observation_active s;
  wd_control : st_control_active s' = st_control_active s;
  wd_work : st_work_running s' = st_work_running s;
  wd_sublist : sublist (tickets s') (tickets s);
  wd_tickets : ∀ t, t ∈ tickets s ∨ t ∈ st_cancelled s ↔
                    t ∈ tickets s' ∨ t ∈ st_cancelled s';
  wd_disjoint : NoDup (tickets s) → (∀ t, t ∈ tickets s → t ∉ st_cancelled s) →
                ∀ t, t ∈ tickets s' → t ∉ st_cancelled s';
  wd_closed : st_closed s' = st_closed s ∨ st_closed s' = true ∧ st_queue s' = []
}.

Lemma locate_Some p s i q :
  locate p s = Some (i, q) → st_queue s !! i = Some q ∧ p q = true.
Proof.
  unfold locate. intros (j & Hp & (x & Hx & [= -> ->])%bind_Some)%bind_Some.
  apply position_Some in Hp as (y & Hy & ? & _). by simplify_eq.
Qed.

Lemma cancel_index_withdraws s i q :
  st_queue s !! i = Some q → withdraws s (cancel_index s i q).
Proof.
  intros Hq. pose proof (delete_take_drop (st_queue s) i) as Hd.
  pose proof (take_drop_middle _ _ _ Hq) as Hsplit.
  assert (∀ t, t ∈ tickets s ↔ t ∈ tickets (cancel_index s i q) ∨ t = qw_ticket q) as Ht.
  { intros t. unfold tickets, cancel_index. simpl. rewrite Hd, <-Hsplit at 1.
    rewrite !fmap_app, fmap_cons, !elem_of_app, elem_of_cons. tauto. }
  split; try done.
  - apply sublist_fmap, delete_sublist.
  - intros t. rewrite Ht. simpl. rewrite elem_of_union, elem_of_singleton. tauto.
  - intros Hnd Hdis t Hin. simpl. rewrite not_elem_of_union, not_elem_of_singleton. split.
    + intros ->. unfold tickets in *. rewrite <-Hsplit, fmap_app, fmap_cons in Hnd.
      simpl in Hin. rewrite Hd, fmap_app in Hin.
      apply NoDup_app in Hnd as (_ & Hno & Hnd). apply NoDup_cons in Hnd as [Hno' _].
      apply elem_of_app in Hin as [Hin|Hin]; [|done].
      apply (Hno _ Hin). by left.
    + apply Hdis. apply Ht. by left.
  - by left.
Qed.

Lemma drain_withdraws s d retained cancelled tasks closed' :
  drain_queue d (st_queue s) (st_cancelled s) = (retained, cancelled, tasks) →
  closed' = st_closed s ∨ closed' = true ∧ retained = [] →
  withdraws s (s <| st_closed := closed' |> <| st_queue := retained |>
                 <| st_cancelled := cancelled |>).
Proof.
  intros (-> & -> & Hc)%drain_queue_spec Hcl. split; simpl; try done.
  - apply sublist_fmap, filter_sublist.
  - intros t. simpl. rewrite Hc. unfold tickets. simpl. rewrite !list_elem_of_fmap.
    setoid_rewrite filterb_elem. setoid_rewrite negb_true_iff.
    split.
    + intros [(x & -> & Hx)|?]; [|tauto]. destruct (d x) eqn:Hd; eauto 8.
    + intros [(x & -> & Hx & _)|[?|(x & Hx & _ & <-)]]; eauto.
  - intros Hnd Hdis t Hin. rewrite Hc. unfold tickets in *. simpl in Hin.
    apply list_elem_of_fmap in Hin as (x & -> & [Hx Hdx%negb_true_iff]%filterb_elem).
    intros [Hcan|(y & Hy & Hdy & Heq)].
    + eapply Hdis; [|done]. apply list_elem_of_fmap. eauto.
    + assert (x = y) as ->; [by eapply (NoDup_fmap_elem qw_ticket)|congruence].
Qed.

Lemma record_id_closed s q c :
  s <| st_queue := q |> <| st_cancelled := c |> =
  s <| st_closed := st_closed s |> <| st_queue := q |> <| st_cancelled := c |>.
Proof. done. Qed.

Lemma cancel_queued_request_withdraws s request s' task :
  cancel_queued_request s request = (s', Some task) → withdraws s s'.
Proof.
  unfold cancel_queued_request. destruct (locate _ s) as [[i q]|] eqn:E; [|done].
  intros [= <- _]. apply locate_Some in E as [E _]. by apply cancel_index_withdraws.
Qed.

Lemma cancel_queued_task_withdraws s owner task s' :
  cancel_queued_task s owner task = (s', true) → withdraws s s'.
Proof.
  unfold cancel_queued_task. destruct (locate _ s) as [[i q]|] eqn:E; [|done].
  intros [= <-]. apply locate_Some in E as [E _]. by apply cancel_index_withdraws.
Qed.

Lemma cancel_queued_by_session_withdraws s owner s' tasks :
  cancel_queued_by_session s owner = (s', tasks) → withdraws s s'.
Proof.
  unfold cancel_queued_by_session. destruct (drain_queue _ _ _) as [[r c] ts] eqn:E.
  intros [= <- _]. rewrite record_id_closed. eapply drain_withdraws; [done|by left].
Qed.

Lemma drain_all q c : (drain_queue (λ _, true) q c).1.1 = [].
Proof.
  destruct (drain_queue _ q c) as [[r c'] ts] eqn:E.
  apply drain_queue_spec in E as (-> & _ & _). simpl.
  induction q; [done|]. by simpl.
Qed.

Lemma close_withdraws s s' tasks : close s = (s', tasks) → withdraws s s'.
Proof.
  unfold close. pose proof (drain_all (st_queue s) (st_cancelled s)) as Hr.
  destruct (drain_queue _ _ _) as [[r c] ts] eqn:E. simpl in Hr. subst r.
  intros [= <- _]. eapply drain_withdraws; [done|by right].
Qed.


(** ** The invariant *)

Record sched_inv (sc : Scheduler) : Prop := {
  si_observation : st_observation_active (sc_state sc) = N.of_nat (sc_observation_permits sc);
  si_observation_le : st_observation_active (sc_state sc) ≤ MAX_OBSERVATION_ACTIVE;
  si_control : st_control_active (sc_state sc) = N.of_nat (sc_control_permits sc);
  si_control_le : st_control_active (sc_state sc) ≤ MAX_CONTROL_ACTIVE;
  si_work : st_work_running (sc_state sc) = N.of_nat (sc_work_permits sc);
  si_work_le : st_work_running (sc_state sc) ≤ FOREGROUND_WORK_SLOTS;
  si_queue : queue_len (sc_state sc) ≤ MAX_WORK_QUEUE;
  si_nodup : NoDup (tickets (sc_state sc));
  si_dom t : is_Some (sc_waiting sc !! t) ↔
             t ∈ tickets (sc_state sc) ∨ t ∈ st_cancelled (sc_state sc);
  si_disjoint t : t ∈ tickets (sc_state sc) → t ∉ st_cancelled (sc_state sc);
  si_entering t : t ∈ sc_entering sc → sc_waiting sc !! t = None;
  si_old t : t ∈ sc_entering sc ∨ is_Some (sc_waiting sc !! t) → t < sc_next_ticket sc;
  si_closed : st_closed (sc_state sc) = true → st_queue (sc_state sc) = [];
  si_told t : t ∈ st_cancelled (sc_state sc) → sc_waiting sc !! t = Some true;
  si_front t rest : st_work_running (sc_state sc) = 0 →
                    tickets (sc_state sc) = t :: rest → sc_waiting sc !! t = Some true
}.

Lemma queue_len_tickets s : queue_len s = N.of_nat (length (tickets s)).
Proof. unfold queue_len, tickets. by rewrite length_fmap. Qed.

Lemma waiting_notified sc t :
  is_Some (sc_waiting sc !! t) → sc_waiting (notify_all sc) !! t = Some true.
Proof. intros [b Hb]. simpl. by rewrite lookup_fmap, Hb. Qed.

(** Cancelling queued work and waking every waiter. *)
Lemma sched_inv_withdraw sc s :
  sched_inv sc → withdraws (sc_state sc) s → sched_inv (notify_all (sc <| sc_state := s |>)).
Proof.
  intros HI HW.
  assert (∀ t, is_Some (sc_waiting (notify_all (sc <| sc_state := s |>)) !! t) ↔
               is_Some (sc_waiting sc !! t)) as Hd.
  { intros t. simpl. by rewrite lookup_fmap, fmap_is_Some. }
  split; simpl; rewrite ?(wd_observation _ _ HW), ?(wd_control _ _ HW), ?(wd_work _ _ HW);
    try by apply HI.
  - rewrite queue_len_tickets.
    pose proof (sublist_length _ _ (wd_sublist _ _ HW)). pose proof (si_queue _ HI) as Hq.
    rewrite queue_len_tickets in Hq. lia.
  - eapply sublist_nodup; [apply (wd_sublist _ _ HW)|apply HI].
  - intros t. specialize (Hd t). simpl in Hd.
    rewrite Hd, (si_dom _ HI), (wd_tickets _ _ HW). done.
  - apply (wd_disjoint _ _ HW); apply HI.
  - intros t Ht. by rewrite lookup_fmap, (si_entering _ HI _ Ht).
  - intros t Ht. apply (si_old _ HI). specialize (Hd t). simpl in Hd. tauto.
  - intros Hc. destruct (wd_closed _ _ HW) as [Hc'|[_ ?]]; [|done].
    rewrite Hc' in Hc. pose proof (wd_sublist _ _ HW) as Hs. unfold tickets in Hs.
    rewrite (si_closed _ HI Hc) in Hs. apply sublist_nil_r in Hs. by apply fmap_nil_inv in Hs.
  - intros t Ht. apply (waiting_notified sc t), (si_dom _ HI), (wd_tickets _ _ HW). by right.
  - intros t rest _ Ht. apply (waiting_notified sc t), (si_dom _ HI), (wd_tickets _ _ HW).
    left. rewrite Ht. left.
Qed.

Lemma sched_inv_fetch sc :
  sched_inv sc → sc_next_ticket sc < u64_max →
  sched_inv (sc <| sc_next_ticket ::= wrapping_add u64_max 1 |>
                <| sc_entering ::= union {[ sc_next_ticket sc ]} |>).
Proof.
  intros HI Hn. pose proof (si_old _ HI) as Hold.
  assert (wrapping_add u64_max 1 (sc_next_ticket sc) = sc_next_ticket sc + 1) as Hw.
  { unfold wrapping_add. rewrite N.mod_small; unfold u64_max in *; lia. }
  split; simpl; try by apply HI.
  - intros t [->%elem_of_singleton|Ht]%elem_of_union; [|by apply HI].
    apply eq_None_not_Some. intros Hs. specialize (Hold _ (or_intror Hs)). lia.
  - intros t [[->%elem_of_singleton|Ht]%elem_of_union|Hs]; rewrite Hw; [lia| |].
    + specialize (Hold _ (or_introl Ht)). lia.
    + specialize (Hold _ (or_intror Hs)). lia.
Qed.

Lemma sched_inv_admit sc ticket owner task request s o :
  sched_inv sc → ticket ∈ sc_entering sc →
  admit_enter (sc_state sc) ticket owner task request = (s, o) →
  sched_inv (settle_wait (sc <| sc_state := s |> <| sc_entering ::= (.∖ {[ ticket ]}) |>) ticket o).
Proof.
  intros HI Hent. pose proof (si_entering _ HI _ Hent) as Hnone.
  assert ((ticket ∉ tickets (sc_state sc)) ∧ (ticket ∉ st_cancelled (sc_state sc))) as [Hnt Hnc].
  { pose proof (proj2 (si_dom _ HI ticket)) as Hd. rewrite Hnone in Hd.
    split; intros ?; destruct Hd; eauto; done. }
  assert (∀ r : AdmitOutcome, (match r with Refused _ => True | _ => False end) →
    ∀ s', (s' = sc_state sc ∨ s' = reject (sc_state sc)) →
    sched_inv (settle_wait (sc <| sc_state := s' |> <| sc_entering ::= (.∖ {[ ticket ]}) |>)
                 ticket r)) as Hrefuse.
  { intros [] Hr s' Hs'; try done.
    assert (tickets s' = tickets (sc_state sc)) as Ht' by by destruct Hs' as [->| ->].
    split; simpl; rewrite ?Ht', ?(delete_id _ _ Hnone);
      try (by destruct Hs' as [->| ->]; apply HI).
    - intros t. rewrite elem_of_difference. intros [? _]. by apply HI.
    - intros t. rewrite elem_of_difference. intros Ht. apply HI. tauto. }
  unfold admit_enter. destruct (st_closed _) eqn:Hcl.
  { intros [= <- <-]. apply Hrefuse; [done|by left]. }
  destruct ((_ <? _) && _) eqn:Hfree.
  { intros [= <- <-]. apply andb_true_iff in Hfree as [Hlt%N.ltb_lt Hq%bool_decide_eq_true].
    unfold FOREGROUND_WORK_SLOTS in Hlt. assert (st_work_running (sc_state sc) = 0) as H0 by lia.
    pose proof (si_work _ HI). split; simpl; rewrite ?(delete_id _ _ Hnone); try by apply HI.
    - lia.
    - unfold FOREGROUND_WORK_SLOTS. lia.
    - intros t. rewrite elem_of_difference. intros [? _]. by apply HI.
    - intros t. rewrite elem_of_difference. intros Ht. apply HI. tauto.
    - intros t rest. lia. }
  destruct (MAX_WORK_QUEUE <=? queue_len _) eqn:Hfull.
  { intros [= <- <-]. apply Hrefuse; [done|by right]. }
  intros [= <- <-]. apply N.leb_gt in Hfull. split; simpl; try by apply HI.
  - unfold queue_len. simpl. rewrite length_app. simpl. unfold queue_len in Hfull. lia.
  - unfold tickets. simpl. rewrite fmap_app, NoDup_app. split_and!; [apply HI| |apply NoDup_singleton].
    intros x Hx. cbn. rewrite list_elem_of_singleton. by intros ->.
  - intros t. unfold tickets. simpl. rewrite fmap_app, elem_of_app, lookup_insert_is_Some.
    simpl. rewrite list_elem_of_singleton, (si_dom _ HI). unfold tickets. destruct (decide (ticket = t)); naive_solver.
  - intros t. unfold tickets. simpl. rewrite fmap_app, elem_of_app.
    simpl. rewrite list_elem_of_singleton. intros [?| ->]; [by apply HI|done].
  - intros t. rewrite elem_of_difference, not_elem_of_singleton. intros [Ht Hne].
    rewrite lookup_insert_ne by done. by apply HI.
  - intros t. rewrite elem_of_difference, lookup_insert_is_Some.
    intros [[Ht _]|[<-|[_ Ht]]]; apply HI; tauto.
  - intros Hc. congruence.
  - intros t Ht. rewrite lookup_insert_ne by (intros ->; done). by apply HI.
  - intros t rest H0. unfold tickets. simpl. rewrite fmap_app. simpl.
    destruct (st_queue (sc_state sc)) as [|q rest0] eqn:Hq; simpl.
    + rewrite H0 in Hfree. rewrite bool_decide_eq_true_2 in Hfree; done.
    + intros [= <- _]. assert (qw_ticket q ∈ tickets (sc_state sc)) as Hin.
      { unfold tickets. rewrite Hq. left. }
      rewrite lookup_insert_ne by (intros ->; done).
      eapply (si_front _ HI); [done|]. unfold tickets. by rewrite Hq.
Qed.

Lemma sched_inv_wake sc ticket b s o :
  sched_inv sc → sc_waiting sc !! ticket = Some b →
  admit_resume (sc_state sc) ticket = (s, o) →
  sched_inv (settle_wait (sc <| sc_state := s |>) ticket o).
Proof.
  intros HI Hw. assert (is_Some (sc_waiting sc !! ticket)) as Hs by eauto.
  unfold admit_resume. case_bool_decide as Hc.
  { intros [= <- <-]. split; simpl; try by apply HI.
    - intros t. pose proof (si_dom _ HI t) as Hd. unfold tickets in *. simpl.
      rewrite lookup_delete_is_Some, Hd, elem_of_difference, not_elem_of_singleton.
      destruct (decide (ticket = t)) as [<-|]; [|naive_solver].
      split; [naive_solver|]. intros [Ht|[_ ?]]; [|done]. by apply (si_disjoint _ HI) in Ht.
    - intros t Ht. rewrite elem_of_difference. intros [? _]. by eapply (si_disjoint _ HI).
    - intros t Ht. apply lookup_delete_None. right. by apply HI.
    - intros t [Ht|Ht]; apply (si_old _ HI); [by left|].
      apply lookup_delete_is_Some in Ht as [_ ?]. by right.
    - intros t [Ht Hne]%elem_of_difference. rewrite lookup_delete_ne; [by apply HI|set_solver].
    - intros t rest H0 Ht. change (tickets (sc_state sc) = t :: rest) in Ht.
      rewrite lookup_delete_ne; [by eapply (si_front _ HI)|]. intros ->. eapply (si_disjoint _ HI); [|done]. rewrite Ht. left. }
  assert (ticket ∈ tickets (sc_state sc)) as Hin.
  { apply (si_dom _ HI) in Hs as [?|?]; done. }
  assert (∀ front rest, tickets (sc_state sc) = front :: rest →
    ¬ (front = ticket ∧ st_work_running (sc_state sc) = 0) →
    sched_inv (sc <| sc_waiting ::= <[ticket := false]> |>)) as Hparked.
  { intros front rest Hq Hno. split; simpl; try by apply HI.
    - intros t. rewrite lookup_insert_is_Some, <-(si_dom _ HI).
      destruct (decide (ticket = t)) as [<-|]; naive_solver.
    - intros t Ht. rewrite lookup_insert_ne; [by apply HI|].
      intros <-. rewrite (si_entering _ HI _ Ht) in Hw. done.
    - intros t [Ht|Ht]; apply (si_old _ HI); [by left|right].
      apply lookup_insert_is_Some in Ht as [<-|[_ Ht]]; done.
    - intros t Ht. rewrite lookup_insert_ne by (by intros <-). by apply HI.
    - intros t rest' H0 Ht. rewrite lookup_insert_ne; [by eapply (si_front _ HI)|].
      intros <-. apply Hno. split; [|done]. congruence. }
  unfold tickets in Hparked. destruct (st_queue (sc_state sc)) as [|front rest] eqn:Hq.
  { unfold tickets in Hin. rewrite Hq in Hin. by apply elem_of_nil in Hin. }
  destruct ((qw_ticket front =? ticket) && _) eqn:Hturn.
  2:{ intros [= <- <-]. destruct sc. simpl in *. eapply Hparked; [done|].
      intros [He H0]. rewrite H0, He, N.eqb_refl in Hturn. done. }
  intros [= <- <-]. apply andb_true_iff in Hturn as [He%N.eqb_eq Hlt%N.ltb_lt].
  unfold FOREGROUND_WORK_SLOTS in Hlt. assert (st_work_running (sc_state sc) = 0) as H0 by lia.
  pose proof (si_work _ HI). pose proof (si_nodup _ HI) as Hnd. unfold tickets in Hnd.
  rewrite Hq, fmap_cons, He in Hnd. apply NoDup_cons in Hnd as [Hni Hnd].
  assert (∀ t, t ∈ tickets (sc_state sc) ↔ t = ticket ∨ t ∈ qw_ticket <$> rest) as Ht.
  { intros t. unfold tickets. by rewrite Hq, fmap_cons, He, elem_of_cons. }
  split; simpl; try by apply HI.
  - lia.
  - unfold FOREGROUND_WORK_SLOTS. lia.
  - pose proof (si_queue _ HI) as Hl. unfold queue_len in *. rewrite Hq in Hl. simpl in *. lia.
  - done.
  - intros t. rewrite lookup_delete_is_Some, (si_dom _ HI), Ht. unfold tickets. simpl.
    destruct (decide (ticket = t)) as [<-|]; naive_solver.
  - intros t Hr. apply (si_disjoint _ HI), Ht. by right.
  - intros t Hen. apply lookup_delete_None. right. by apply HI.
  - intros t [Hen|Hen]; apply (si_old _ HI); [by left|].
    apply lookup_delete_is_Some in Hen as [_ ?]. by right.
  - intros Hcl. rewrite (si_closed _ HI Hcl) in Hq. done.
  - intros t Hcn. rewrite lookup_delete_ne by (by intros <-). by apply HI.
  - intros t rest'. lia.
Qed.

Lemma sched_inv_step sc sc' : sched_inv sc → scheduler_step sc sc' → sched_inv sc'.
Proof.
  intros HI Hstep. destruct Hstep as
    [sc Hn|sc ticket owner task request s o Hent Hop|sc ticket b s o Hw Hop|sc lane s r Hop
    |sc lane s Hl Hop|sc Hl|sc request s task Hop|sc owner task s Hop|sc owner s tasks Hop
    |sc s tasks Hop].
  - by apply sched_inv_fetch.
  - by eapply sched_inv_admit.
  - by eapply sched_inv_wake.
  - pose proof (si_observation _ HI). pose proof (si_control _ HI).
    unfold enter_immediate in Hop. destruct lane; simplify_eq/=; split_matches;
      split; simpl; try (by apply HI); unfold incr_usize, saturating_add;
      unfold MAX_OBSERVATION_ACTIVE, MAX_CONTROL_ACTIVE, usize_max in *; lia.
  - pose proof (si_observation _ HI). pose proof (si_control _ HI).
    pose proof (si_observation_le _ HI). pose proof (si_control_le _ HI).
    destruct lane; simplify_eq/=; split; simpl; try (by apply HI);
      unfold saturating_sub; lia.
  - pose proof (si_work _ HI). pose proof (si_work_le _ HI).
    assert (∀ t, is_Some (sc_waiting sc !! t) →
      ((λ _, true) <$> sc_waiting sc) !! t = Some true) as Hwk by apply waiting_notified.
    split; simpl; try (by apply HI).
    + unfold saturating_sub. lia.
    + unfold saturating_sub. lia.
    + intros t. rewrite lookup_fmap, fmap_is_Some. apply HI.
    + intros t Ht. by rewrite lookup_fmap, (si_entering _ HI _ Ht).
    + intros t. rewrite lookup_fmap, fmap_is_Some. apply HI.
    + intros t Ht. by apply Hwk, (si_dom _ HI); right.
    + intros t rest _ Ht. apply Hwk, (si_dom _ HI). left.
      change (t ∈ tickets (sc_state sc)).
      unfold tickets in *. simpl in Ht. rewrite Ht. left.
  - by eapply sched_inv_withdraw, cancel_queued_request_withdraws.
  - by eapply sched_inv_withdraw, cancel_queued_task_withdraws.
  - by eapply sched_inv_withdraw, cancel_queued_by_session_withdraws.
  - by eapply sched_inv_withdraw, close_withdraws.
Qed.

#[export] Instance sched_invariant : Invariant sched_inv.
Proof.
  split; [|apply sched_inv_step]. intros ? ->.
  split; simpl; unfold tickets, queue_len; simpl; try done; try (by intros; set_solver).
  - by constructor.
  - intros t. rewrite lookup_empty. split; [by intros []|set_solver].
  - intros t [?|[? ?]]; [set_solver|by rewrite lookup_empty in *].
Qed.

(** ** Refinement of the contract *)

Lemma withdraw_line sc s :
  withdraws (sc_state sc) s →
  line_step (work_line sc) (work_line (notify_all (sc <| sc_state := s |>))).
Proof.
  intros HW. unfold work_line. simpl. rewrite (wd_work _ _ HW).
  destruct (wd_closed _ _ HW) as [->|[-> Hq]].
  - apply LineAbandon, (wd_sublist _ _ HW).
  - unfold tickets at 2. rewrite Hq. apply LineShut.
Qed.

Lemma admit_line sc ticket owner task request s o :
  sched_inv sc → ticket ∈ sc_entering sc →
  admit_enter (sc_state sc) ticket owner task request = (s, o) →
  work_line (sc <| sc_state := s |>) = work_line sc ∨
  line_step (work_line sc) (work_line (sc <| sc_state := s |>)).
Proof.
  intros HI Hent. unfold admit_enter, work_line. simpl.
  destruct (st_closed _) eqn:Hcl; [intros [= <- _]; rewrite Hcl; by left|].
  destruct ((_ <? _) && _) eqn:Hfree.
  { intros [= <- _]. apply andb_true_iff in Hfree as [Hlt%N.ltb_lt Hq%bool_decide_eq_true].
    unfold FOREGROUND_WORK_SLOTS in Hlt. assert (st_work_running (sc_state sc) = 0) as H0 by lia.
    right. unfold tickets. simpl. rewrite Hq, Hcl, H0. apply LineTake. }
  destruct (_ <=? queue_len _) eqn:Hfull.
  { intros [= <- _]. left. unfold tickets. simpl. by rewrite Hcl. }
  intros [= <- _]. right. apply N.leb_gt in Hfull. unfold tickets. simpl.
  rewrite fmap_app, Hcl. apply LineJoin.
  - intros Hin. pose proof (proj2 (si_dom _ HI ticket) (or_introl Hin)) as [b Hb].
    by rewrite (si_entering _ HI _ Hent) in Hb.
  - rewrite length_fmap. unfold queue_len, MAX_WORK_QUEUE in Hfull. lia.
  - apply andb_false_iff in Hfree as [Hb%N.ltb_ge|Hq%bool_decide_eq_false]; [left|right].
    + unfold FOREGROUND_WORK_SLOTS in Hb. apply N.ltb_lt. lia.
    + intros ?%fmap_nil_inv. done.
Qed.

(** Only the front waiter is admitted, and only into the free slot. *)
Lemma admit_resume_granted s ticket s' :
  admit_resume s ticket = (s', Granted) →
  (ticket ∉ st_cancelled s) ∧ st_work_running s = 0 ∧ st_work_running s' = 1 ∧
  tickets s = ticket :: tickets s' ∧ st_closed s' = st_closed s.
Proof.
  unfold admit_resume, tickets. case_bool_decide; [done|].
  destruct (st_queue s) as [|front rest]; [done|].
  destruct ((_ =? _) && _) eqn:Hturn; [|done]. intros [= <-]. simpl.
  apply andb_true_iff in Hturn as [->%N.eqb_eq Hlt%N.ltb_lt].
  unfold FOREGROUND_WORK_SLOTS in Hlt. split_and!; [done|lia|lia|done|done].
Qed.

Lemma admit_resume_others s ticket s' o :
  admit_resume s ticket = (s', o) → o ≠ Granted →
  tickets s' = tickets s ∧ st_work_running s' = st_work_running s ∧
  st_closed s' = st_closed s.
Proof.
  unfold admit_resume, tickets. intros Hop Ho.
  case_bool_decide; [by simplify_eq/=|]. destruct (st_queue s) as [|front rest] eqn:Hq; [by simplify_eq/=; rewrite Hq|].
  destruct (_ && _); [congruence|]. simplify_eq/=. by rewrite Hq.
Qed.

Lemma settle_wait_state sc ticket o : sc_state (settle_wait sc ticket o) = sc_state sc.
Proof. by destruct o. Qed.

Lemma enter_immediate_line s lane s' r :
  enter_immediate s lane = Some (s', r) →
  st_work_running s' = st_work_running s ∧ st_queue s' = st_queue s ∧
  st_closed s' = st_closed s.
Proof. unfold enter_immediate. intros Hop. split_matches; by split_and!. Qed.

#[export] Instance scheduler_line_refinement : Refinement sched_inv work_line.
Proof.
  split; [by intros ? ->|]. intros sc sc' HI Hstep. destruct Hstep as
    [sc Hn|sc ticket owner task request s o Hent Hop|sc ticket b s o Hw Hop|sc lane s r Hop
    |sc lane s Hl Hop|sc Hl|sc request s task Hop|sc owner task s Hop|sc owner s tasks Hop
    |sc s tasks Hop].
  - by left.
  - destruct (admit_line _ _ _ _ _ _ _ HI Hent Hop) as [He|He]; [left|right];
      revert He; unfold work_line; by rewrite settle_wait_state.
  - destruct (decide (o = Granted)) as [->|Ho].
    + right. unfold work_line. rewrite settle_wait_state. simpl.
      apply admit_resume_granted in Hop as (_ & -> & -> & -> & ->). apply LineServe.
    + left. unfold work_line. rewrite settle_wait_state. simpl.
      by apply admit_resume_others in Hop as (-> & -> & ->).
  - left. apply enter_immediate_line in Hop as (H1 & H2 & H3).
    unfold work_line, tickets. destruct lane, r; simpl; by rewrite H1, H2, H3.
  - left. unfold work_line, tickets. destruct lane; by simplify_eq/=.
  - right. unfold work_line. simpl. pose proof (si_work _ HI). pose proof (si_work_le _ HI).
    unfold FOREGROUND_WORK_SLOTS in *. replace (st_work_running (sc_state sc)) with 1 by lia.
    apply LineLeave.
  - right. by eapply withdraw_line, cancel_queued_request_withdraws.
  - right. by eapply withdraw_line, cancel_queued_task_withdraws.
  - right. by eapply withdraw_line, cancel_queued_by_session_withdraws.
  - right. by eapply withdraw_line, close_withdraws.
Qed.

(** ** Order of service *)

(** [t] is queued ahead of [u]. *)
Abbreviation ahead t u l := (sublist [t; u] l).

Lemma sublist_ahead (l l' : list N) t u :
  sublist l' l → NoDup l → t ∈ l' → u ∈ l' → t ≠ u → ahead t u l → ahead t u l'.
Proof.
  intros Hs. induction Hs as [|x l' l Hs IH|x l' l Hs IH]; intros Hnd Ht Hu Hne Ha.
  - by apply elem_of_nil in Ht.
  - apply NoDup_cons in Hnd as [Hx Hnd].
    assert (∀ y, y ∈ l' → y ∈ l) as Hsub.
    { intros y Hy. by eapply sublist_mem. }
    inversion Ha as [|? ? ? Ha'|? ? ? Ha']; subst.
    + apply elem_of_cons in Hu as [->|Hu]; [done|]. by apply sublist_skip, singleton_sublist.
    + assert (t ∈ l ∧ u ∈ l) as [Htl Hul].
      { split; (eapply (sublist_mem [t; u]); [done|]); set_solver. }
      apply sublist_cons, IH; [done|set_solver..|done|done].
  - apply NoDup_cons in Hnd as [Hx Hnd].
    assert (t ∈ l) as Htl by (by eapply sublist_mem).
    inversion Ha; subst; [done|auto].
Qed.

(** Every step removes entries from the queue or appends a fresh ticket. *)
Lemma step_tickets sc sc' :
  sched_inv sc → scheduler_step sc sc' →
  (∀ t, t ∈ sc_entering sc' → t ∈ sc_entering sc ∨ t = sc_next_ticket sc) ∧
  sc_next_ticket sc ≤ sc_next_ticket sc' ∧
  (sublist (tickets (sc_state sc')) (tickets (sc_state sc)) ∨
   ∃ k, k ∈ sc_entering sc ∧
        tickets (sc_state sc') = (tickets (sc_state sc) ++ [k])%list).
Proof.
  intros HI Hstep.
  assert (∀ s, withdraws (sc_state sc) s →
    (∀ t, t ∈ sc_entering (notify_all (sc <| sc_state := s |>)) →
          t ∈ sc_entering sc ∨ t = sc_next_ticket sc) ∧
    sc_next_ticket sc ≤ sc_next_ticket sc ∧
    (sublist (tickets s) (tickets (sc_state sc)) ∨
     ∃ k, k ∈ sc_entering sc ∧ tickets s = (tickets (sc_state sc) ++ [k])%list)) as HW.
  { intros s HW. split_and!; [tauto|lia|left; apply (wd_sublist _ _ HW)]. }
  destruct Hstep as
    [sc Hn|sc ticket owner task request s o Hent Hop|sc ticket b s o Hw Hop|sc lane s r Hop
    |sc lane s Hl Hop|sc Hl|sc request s task Hop|sc owner task s Hop|sc owner s tasks Hop
    |sc s tasks Hop].
  - simpl. split_and!; [set_solver| |by left].
    unfold wrapping_add. rewrite N.mod_small; unfold u64_max in *; lia.
  - split_and!; [destruct o; simpl; set_solver|by destruct o|].
    rewrite settle_wait_state. simpl. unfold admit_enter in Hop. unfold tickets.
    split_matches; simpl; try by left. right. exists ticket. by rewrite fmap_app.
  - split_and!; [destruct o; simpl; by left|by destruct o|].
    rewrite settle_wait_state. simpl. left. destruct (decide (o = Granted)) as [->|Ho].
    + apply admit_resume_granted in Hop as (_ & _ & _ & -> & _). by apply sublist_cons.
    + by apply admit_resume_others in Hop as (-> & _ & _).
  - apply enter_immediate_line in Hop as (_ & Hq & _). unfold tickets.
    destruct lane, r; simpl; rewrite ?Hq; (split_and!; [tauto|lia|by left]).
  - unfold tickets. destruct lane; simplify_eq/=; (split_and!; [tauto|lia|by left]).
  - split_and!; simpl; [tauto|lia|by left].
  - by eapply HW, cancel_queued_request_withdraws.
  - by eapply HW, cancel_queued_task_withdraws.
  - by eapply HW, cancel_queued_by_session_withdraws.
  - by eapply HW, close_withdraws.
Qed.

(** [t] and [u] are old tickets and, while both are queued, [t] stays ahead. *)
Definition keeps_order (t u : N) (sc : Scheduler) : Prop :=
  (t ∉ sc_entering sc) ∧ (u ∉ sc_entering sc) ∧
  t < sc_next_ticket sc ∧ u < sc_next_ticket sc ∧
  (t ∈ tickets (sc_state sc) → u ∈ tickets (sc_state sc) →
   ahead t u (tickets (sc_state sc))).

Lemma keeps_order_stable t u : t ≠ u → Stable sched_inv (keeps_order t u).
Proof.
  intros Hne sc sc' HI (Ht & Hu & Htn & Hun & Ha) Hstep.
  destruct (step_tickets _ _ HI Hstep) as (Hent & Hnext & Hq).
  split_and!; [intros H; apply Hent in H as [?| ->]; [done|lia]..|lia|lia|].
  intros Ht' Hu'. destruct Hq as [Hq|(k & Hk & Hq)].
  - assert (∀ x, x ∈ tickets (sc_state sc') → x ∈ tickets (sc_state sc)) as Hsub.
    { intros x Hx. by eapply sublist_mem. }
    eapply sublist_ahead; [done|apply HI|done..|]. auto.
  - rewrite Hq in *. rewrite elem_of_app, list_elem_of_singleton in Ht', Hu'.
    destruct Ht' as [Ht'| ->]; [|done]. destruct Hu' as [Hu'| ->]; [|done].
    apply sublist_inserts_r. auto.
Qed.

Lemma ahead_not_front (t u : N) (q : list N) : NoDup (u :: q) → t ≠ u → ¬ ahead t u (u :: q).
Proof.
  intros [Hu _]%NoDup_cons Hne Ha. inversion Ha as [|? ? ? Ha'|? ? ? Ha']; subst; [done|].
  apply Hu. eapply (sublist_mem [t; u]); [done|set_solver].
Qed.

(** ** Properties *)

(** In every reachable state the scheduler's counters are
    exact (each counter equals the number of live permits of its lane),
    at most 16 observation and 16 control permits and one work permit are
    alive, at most 32 requests are queued, all under distinct tickets, every
    blocked thread is either queued or cancelled and never both, and a closed
    scheduler has an empty queue. *)
Theorem scheduler_invariant (sc : Scheduler) (Hr : reachable sc) :
  let s := snapshot (sc_state sc) in
  ss_observation_active s = N.of_nat (sc_observation_permits sc) ∧
  ss_observation_active s ≤ 16 ∧
  ss_control_active s = N.of_nat (sc_control_permits sc) ∧ ss_control_active s ≤ 16 ∧
  ss_work_running s = N.of_nat (sc_work_permits sc) ∧ ss_work_running s ≤ 1 ∧
  ss_work_queued s ≤ 32 ∧ NoDup (tickets (sc_state sc)) ∧
  (∀ t, is_Some (sc_waiting sc !! t) ↔
        t ∈ tickets (sc_state sc) ∨ t ∈ st_cancelled (sc_state sc)) ∧
  (∀ t, t ∈ tickets (sc_state sc) → t ∉ st_cancelled (sc_state sc)) ∧
  (st_closed (sc_state sc) = true → ss_work_queued s = 0).
Proof.
  apply (invariant_reachable sched_inv) in Hr as HI. simpl.
  split_and!; try by apply HI. intros Hc.
  unfold queue_len. by rewrite (si_closed _ HI Hc).
Qed.

(** C20 (liveness): No wake-up is lost.  Whenever the work slot is free and a
    request is first in the queue, its thread has a pending notification and
    the round it runs next admits it; and every cancelled waiter has a pending
    notification and its next round returns [AdmissionCancelled]. *)
Theorem no_lost_wakeup (sc : Scheduler) (Hr : reachable sc) :
  (∀ t rest, sc_work_permits sc = 0%nat → tickets (sc_state sc) = t :: rest →
     sc_waiting sc !! t = Some true ∧
     ∃ s, admit_resume (sc_state sc) t = (s, Granted) ∧ tickets s = rest) ∧
  (∀ t, t ∈ st_cancelled (sc_state sc) →
     sc_waiting sc !! t = Some true ∧
     ∃ s, admit_resume (sc_state sc) t = (s, Refused AdmissionCancelled) ∧
          st_queue s = st_queue (sc_state sc)).
Proof.
  apply (invariant_reachable sched_inv) in Hr as HI. split.
  - intros t rest Hp Hq. assert (st_work_running (sc_state sc) = 0) as H0.
    { rewrite (si_work _ HI), Hp. done. }
    split; [by eapply si_front|]. pose proof (si_disjoint _ HI t) as Hd. rewrite Hq in Hd.
    unfold admit_resume, tickets in *. destruct (st_queue _) as [|front q]; [done|].
    simplify_eq/=. rewrite bool_decide_eq_false_2 by (apply Hd; left).
    rewrite N.eqb_refl, H0. by eexists.
  - intros t Ht. split; [by apply HI|]. unfold admit_resume.
    rewrite bool_decide_eq_true_2 by done. by eexists.
Qed.

(** The work lane is first come, first served.  Once a request
    is queued ahead of another one, no thread resuming the later one is
    admitted while the earlier one is still queued, whatever cancellations,
    admissions and releases happen in between. *)
Theorem work_is_served_in_order (sc sc' : Scheduler) t u s
    (Hr : reachable sc) (Hahead : ahead t u (tickets (sc_state sc)))
    (Hs : rtc sm_step sc sc') (Ht : t ∈ tickets (sc_state sc')) :
  admit_resume (sc_state sc') u ≠ (s, Granted).
Proof.
  apply (invariant_reachable sched_inv) in Hr as HI. intros Ha.
  apply admit_resume_granted in Ha as (_ & _ & _ & Hq & _).
  assert (t ∈ tickets (sc_state sc) ∧ u ∈ tickets (sc_state sc)) as [Ht0 Hu0].
  { split; (eapply (sublist_mem [t; u]); [done|]); set_solver. }
  assert (t ≠ u) as Hne.
  { intros ->. pose proof (sublist_nodup _ _ Hahead (si_nodup _ HI)) as Hd.
    apply NoDup_cons in Hd as [Hd _]. set_solver. }
  assert (∀ x, x ∈ tickets (sc_state sc) → (x ∉ sc_entering sc) ∧ x < sc_next_ticket sc) as Hold.
  { intros x Hx. pose proof (proj2 (si_dom _ HI x) (or_introl Hx)) as Hsome. split.
    - intros Hent. rewrite (si_entering _ HI _ Hent) in Hsome. by destruct Hsome.
    - apply (si_old _ HI). by right. }
  assert (keeps_order t u sc') as (_ & _ & _ & _ & Ha').
  { pose proof (keeps_order_stable t u Hne).
    apply (stable_rtc sched_inv (keeps_order t u) sc sc'); [done| |done].
    split_and!; [by apply Hold..|done]. }
  pose proof (invariant_rtc sched_inv _ _ HI Hs) as HI'.
  eapply (ahead_not_front t u (tickets s)); [|done|].
  - rewrite <-Hq. apply HI'.
  - rewrite <-Hq. apply Ha'; [done|]. rewrite Hq. left.
Qed.

(** C19 (refinement): The work lane implements a lock with a bounded
    first-in first-out line: every atomic step of the scheduler's threads is
    either invisible or one step of the line (take the free lock, join at the
    end of a line of fewer than 32, serve the first, leave, abandon some
    places, shut). *)
Theorem scheduler_refines_line (sc sc' : Scheduler) (Hr : reachable sc) (Hs : sm_step sc sc') :
  reachable (work_line sc) ∧
  (work_line sc' = work_line sc ∨ sm_step (work_line sc) (work_line sc')).
Proof.
  split; [by apply (refinement_reachable sched_inv work_line)|].
  apply (refinement_step (I:=sched_inv)); [|done].
  by apply (invariant_reachable sched_inv).
Qed.

(** ** Witnesses: one holder, two queued requests *)

Definition demo_request (n : N) : RequestKey :=
  MkRequestKey (MkMcpSessionId "session") (RpcNumber (Z.of_N n)).

Definition demo_enter (sc : Scheduler) : Scheduler :=
  let ticket := sc_next_ticket sc in
  let '(s, o) := admit_enter (sc_state sc) ticket (MkMcpSessionId "session")
    (MkTaskId "task") (demo_request ticket) in
  settle_wait (sc <| sc_next_ticket ::= wrapping_add u64_max 1 |>
                  <| sc_state := s |>) ticket o.

Lemma demo_enter_reachable sc :
  sc_next_ticket sc < u64_max → sc_entering sc = ∅ →
  reachable sc → reachable (demo_enter sc).
Proof.
  intros Hn He Hr. unfold demo_enter.
  destruct (admit_enter _ _ _ _ _) as [s o] eqn:Hop.
  eapply reachable_step; [eapply reachable_step; [done|]|].
  - by apply StepFetch.
  - match goal with |- sm_step ?a ?b => cut (scheduler_step a b); [done|] end.
    replace (settle_wait _ _ _) with
      (settle_wait (sc <| sc_next_ticket ::= wrapping_add u64_max 1 |>
                       <| sc_entering ::= union {[ sc_next_ticket sc ]} |>
                       <| sc_state := s |>
                       <| sc_entering ::= (.∖ {[ sc_next_ticket sc ]}) |>)
                   (sc_next_ticket sc) o).
    + eapply StepAdmit; [simpl; set_solver|done].
    + f_equal. destruct sc. simpl in *. subst. unfold set_field; simpl. f_equal. set_solver.
Qed.

Definition demo_queued : Scheduler := demo_enter (demo_enter (demo_enter empty_scheduler)).

Lemma demo_queued_reachable : reachable demo_queued.
Proof.
  repeat (apply demo_enter_reachable; [vm_compute; done|vm_compute; done|]).
  by exists empty_scheduler.
Qed.

Lemma scheduler_invariant_witness :
  tickets (sc_state demo_queued) = [2; 3] ∧ ss_work_running (snapshot (sc_state demo_queued)) ≤ 1.
Proof.
  split; [by vm_compute|]. apply (scheduler_invariant demo_queued demo_queued_reachable).
Defined.

Definition demo_released : Scheduler :=
  notify_all (demo_queued <| sc_state ::= drop_work |> <| sc_work_permits ::= pred |>).

Lemma demo_release : scheduler_step demo_queued demo_released.
Proof. apply StepDropWork. vm_compute. lia. Qed.

Lemma no_lost_wakeup_witness :
  ∃ s, admit_resume (sc_state demo_released) 2 = (s, Granted) ∧ tickets s = [3].
Proof.
  assert (reachable demo_released) as Hr.
  { eapply reachable_step; [apply demo_queued_reachable|apply demo_release]. }
  by apply (proj1 (no_lost_wakeup demo_released Hr) 2 [3]).
Defined.

Lemma work_is_served_in_order_witness :
  sc_work_permits demo_released = 0%nat ∧
  ∀ s, admit_resume (sc_state demo_released) 3 ≠ (s, Granted).
Proof.
  split; [by vm_compute|]. intros s.
  apply (work_is_served_in_order demo_queued demo_released 2 3).
  - apply demo_queued_reachable.
  - vm_compute. repeat constructor.
  - apply rtc_once, demo_release.
  - vm_compute. left.
Defined.

Lemma scheduler_refines_line_witness :
  reachable (work_line demo_queued) ∧
  work_line demo_released = MkWorkLine false [2; 3] false.
Proof.
  split; [|by vm_compute].
  apply (scheduler_refines_line demo_queued demo_released).
  - apply demo_queued_reachable.
  - apply demo_release.
Defined.
