(* ===== verification/TaskRegistry.v ===== *)
(** * TaskRegistry: the lifecycle of tasks and the bounded task history

    [src/src-tauri/src/control_plane/task_registry.rs].  One mutex guards a map
    of task records and the order in which the tasks were queued.  Task ids are
    random; the step relation takes a fresh one, the clock is an argument. *)

From S2P Require Import Prelude Text Domain TaskSummary.

(** ** Data *)

(* @src control_plane/task_registry.rs:10-10 MAX_RETAINED_TASKS *)
Definition MAX_RETAINED_TASKS : nat := 256.

(* @src control_plane/task_registry.rs:12-19 TaskTransitionError *)
Inductive TaskTransitionError :=
  | UnknownTask (task_id : TaskId)
  | AlreadyTerminal (task_id : TaskId) (outcome : TerminalOutcome).

(* @src control_plane/task_registry.rs:21-28 TaskRegistryState, TaskRegistry *)
Record TaskRegistryState := MkTaskRegistryState {
  trs_tasks : gmap TaskId TaskRecord;
  trs_order : list TaskId
}.
#[export] Instance eta_TaskRegistryState : Eta TaskRegistryState := λ r,
  MkTaskRegistryState (trs_tasks r) (trs_order r).

Definition empty_registry : TaskRegistryState := MkTaskRegistryState ∅ [].

(** ** Operations *)

Definition task_terminal (t : TaskRecord) : bool := lifecycle_is_terminal (tr_lifecycle t).

Definition is_retired (s : TaskRegistryState) (task_id : TaskId) : bool :=
  match trs_tasks s !! task_id with Some t => task_terminal t | None => false end.

(** The body of the trimming loop; [None] leaves the loop. *)
Definition trim_round (s : TaskRegistryState) : option TaskRegistryState :=
  if MAX_RETAINED_TASKS <? size (trs_tasks s) then
    match position (is_retired s) (trs_order s) with
    | None => None
    | Some index =>
      Some match trs_order s !! index with
      | Some task_id => s <| trs_order ::= delete index |> <| trs_tasks ::= delete task_id |>
      | None => s
      end
    end
  else None.

Fixpoint trim_loop (fuel : nat) (s : TaskRegistryState) : TaskRegistryState :=
  match fuel with
  | O => s
  | S fuel => match trim_round s with Some s' => trim_loop fuel s' | None => s end
  end.

(** Every round removes one entry of the order: its length is fuel enough. *)
(* @src control_plane/task_registry.rs:217-231 trim_terminal_history *)
Definition trim_terminal_history (s : TaskRegistryState) : TaskRegistryState :=
  trim_loop (length (trs_order s)) s.

(* @src control_plane/task_registry.rs:31-59 TaskRegistry::queue *)
Definition queue (now : millis) (task_id : TaskId) (owner_session : McpSessionId)
    (request : RequestKey) (kind : TaskKind) (summary : SafeTaskSummary)
    (s : TaskRegistryState) : TaskRegistryState * TaskId :=
  let record := MkTaskRecord task_id owner_session request kind summary
    LifecycleQueued now now None in
  (trim_terminal_history
     (s <| trs_order ::= λ o, o ++ [task_id] |> <| trs_tasks ::= <[task_id := record]> |>),
   task_id).

(* @src control_plane/task_registry.rs:61-82 TaskRegistry::mark_running *)
Definition mark_running (now : millis) (task_id : TaskId) (s : TaskRegistryState) :
    TaskRegistryState * result TaskTransitionError unit :=
  match trs_tasks s !! task_id with
  | None => (s, Err (UnknownTask task_id))
  | Some task =>
    match tr_lifecycle task with
    | LifecycleQueued =>
        (s <| trs_tasks ::= <[task_id := task <| tr_lifecycle := LifecycleRunning |>
                                              <| tr_updated_at_ms := now |>]> |>, Ok ())
    | LifecycleRunning => (s, Ok ())
    | LifecycleTerminal outcome => (s, Err (AlreadyTerminal task_id outcome))
    end
  end.

(** What [finish] and [finish_with_error] share: [settle] writes the record. *)
Definition finish_by (settle : TaskRecord → TaskRecord) (task_id : TaskId)
    (outcome : TerminalOutcome) (s : TaskRegistryState) :
    TaskRegistryState * result TaskTransitionError unit :=
  match trs_tasks s !! task_id with
  | None => (s, Err (UnknownTask task_id))
  | Some task =>
    match tr_lifecycle task with
    | LifecycleQueued | LifecycleRunning =>
        (trim_terminal_history (s <| trs_tasks ::= <[task_id := settle task]> |>), Ok ())
    | LifecycleTerminal existing =>
        if bool_decide (existing = outcome) then (s, Ok ())
        else (s, Err (AlreadyTerminal task_id existing))
    end
  end.

(* @src control_plane/task_registry.rs:84-110 TaskRegistry::finish *)
Definition finish (now : millis) (task_id : TaskId) (outcome : TerminalOutcome) :
    TaskRegistryState → TaskRegistryState * result TaskTransitionError unit :=
  finish_by (λ task, task <| tr_lifecycle := LifecycleTerminal outcome |>
                          <| tr_updated_at_ms := now |>) task_id outcome.

(* @src control_plane/task_registry.rs:112-140 TaskRegistry::finish_with_error *)
Definition finish_with_error (now : millis) (task_id : TaskId) (outcome : TerminalOutcome)
    (error : OperationError) :
    TaskRegistryState → TaskRegistryState * result TaskTransitionError unit :=
  finish_by (λ task, task <| tr_lifecycle := LifecycleTerminal outcome |>
                          <| tr_updated_at_ms := now |>
                          <| tr_error := Some (for_task error task_id) |>) task_id outcome.

(* @src control_plane/task_registry.rs:142-149 TaskRegistry::get *)
Definition get (s : TaskRegistryState) (task_id : TaskId) : option TaskRecord :=
  trs_tasks s !! task_id.

(** The order of [HashMap::values] is not specified: the result is a set of
    records, here listed in the order of the keys' encodings. *)
(* @src control_plane/task_registry.rs:151-160 TaskRegistry::active_owned_by *)
Definition active_owned_by (s : TaskRegistryState) (owner : McpSessionId) : list TaskRecord :=
  List.filter (λ t, bool_decide (tr_owner_session t = owner) && negb (task_terminal t))
    (map_to_list (trs_tasks s)).*2.

(* @src control_plane/task_registry.rs:162-174 TaskRegistry::owned_by *)
Definition owned_by (s : TaskRegistryState) (owner : McpSessionId) : list TaskRecord :=
  List.filter (λ t, bool_decide (tr_owner_session t = owner))
    (omap (λ id, trs_tasks s !! id) (trs_order s)).

(** [order.iter().rev().find_map(|id| tasks.get(id).filter(p).cloned())]. *)
Definition newest (p : TaskRecord → bool) (s : TaskRegistryState) : option TaskRecord :=
  find_map (λ id, t ← trs_tasks s !! id; if p t then Some t else None) (rev (trs_order s)).

(* @src control_plane/task_registry.rs:176-193 TaskRegistry::latest_active *)
Definition latest_active (s : TaskRegistryState) : option TaskRecord :=
  find_map (λ lifecycle, newest (λ t, bool_decide (tr_lifecycle t = lifecycle)) s)
    [LifecycleRunning; LifecycleQueued].

(* @src control_plane/task_registry.rs:199-214 TaskRegistry::latest_terminal_excluding *)
Definition latest_terminal_excluding (s : TaskRegistryState) (excluded : gset TaskId) :
    option TaskRecord :=
  newest (λ t, task_terminal t && negb (bool_decide (tr_id t ∈ excluded))) s.

(* @src control_plane/task_registry.rs:195-197 TaskRegistry::latest_terminal *)
Definition latest_terminal (s : TaskRegistryState) : option TaskRecord :=
  latest_terminal_excluding s ∅.

(** ** The registry as a machine *)

Inductive registry_step : TaskRegistryState → TaskRegistryState → Prop :=
  | StepQueue now id owner request kind summary s :
      trs_tasks s !! id = None →
      registry_step s (queue now id owner request kind summary s).1
  | StepMarkRunning now id s : registry_step s (mark_running now id s).1
  | StepFinish now id outcome s : registry_step s (finish now id outcome s).1
  | StepFinishWithError now id outcome error s :
      registry_step s (finish_with_error now id outcome error s).1.

#[export] Instance task_registry_machine : StateMachine TaskRegistryState := {|
  sm_init s := s = empty_registry;
  sm_step := registry_step
|}.

(** ** Well-formedness *)

Record registry_wf (s : TaskRegistryState) : Prop := {
  rw_nodup : NoDup (trs_order s);
  rw_dom id : id ∈ trs_order s ↔ is_Some (trs_tasks s !! id);
  rw_key id t : trs_tasks s !! id = Some t → tr_id t = id
}.

Lemma registry_wf_dom s : registry_wf s → dom (trs_tasks s) = list_to_set (trs_order s).
Proof.
  intros HW. apply set_eq. intros id.
  by rewrite elem_of_dom, elem_of_list_to_set, (rw_dom _ HW).
Qed.

Lemma registry_wf_size s : registry_wf s → size (trs_tasks s) = length (trs_order s).
Proof.
  intros HW. rewrite <-size_dom, (registry_wf_dom s HW).
  apply size_list_to_set, HW.
Qed.

Lemma task_trim_round_Some s s' :
  registry_wf s → trim_round s = Some s' →
  registry_wf s' ∧ size (trs_tasks s) = S (size (trs_tasks s')) ∧
  MAX_RETAINED_TASKS < size (trs_tasks s) ∧
  trs_order s' = drop_oldest (is_retired s) 1 (trs_order s) ∧
  ∀ id, trs_tasks s' !! id =
        if decide (id ∈ trs_order s') then trs_tasks s !! id else None.
Proof.
  intros HW. unfold trim_round. destruct (_ <? _) eqn:Hn; [|done]. apply Nat.ltb_lt in Hn.
  destruct (position _ _) as [i|] eqn:Hp; [|done].
  pose proof (drop_oldest_position _ _ _ Hp) as Hd.
  apply position_Some in Hp as (id & Hid & Hret & _). rewrite Hid. intros [= <-]. simpl.
  pose proof (rw_nodup _ HW) as Hnd.
  assert (∀ x, x ∈ delete i (trs_order s) ↔ x ∈ trs_order s ∧ x ≠ id) as Hin.
  { intros x. rewrite <-(take_drop_middle _ _ _ Hid) at 2.
    rewrite <-(take_drop_middle _ _ _ Hid) in Hnd. rewrite delete_take_drop.
    apply NoDup_app in Hnd as (_ & Hno & Hnd). apply NoDup_cons in Hnd as [Hni _].
    rewrite !elem_of_app, elem_of_cons. specialize (Hno x). set_solver. }
  assert (is_Some (trs_tasks s !! id)) as Hs.
  { apply (rw_dom _ HW). by eapply list_elem_of_lookup_2. }
  split_and!.
  - split; simpl.
    + rewrite <-Hd. eapply sublist_nodup; [apply drop_oldest_sublist|done].
    + intros x. rewrite Hin, lookup_delete_is_Some, (rw_dom _ HW). naive_solver.
    + intros x t. rewrite lookup_delete_Some. intros [_ ?]. by eapply rw_key.
  - destruct Hs as [t Ht]. rewrite map_size_delete, Ht. simpl. lia.
  - done.
  - done.
  - intros x. rewrite lookup_delete. case_decide as Hx; case_decide as Hx'.
    + subst. apply Hin in Hx' as [_ ?]. done.
    + done.
    + done.
    + rewrite Hin in Hx'. apply eq_None_not_Some. rewrite <-(rw_dom _ HW). naive_solver.
Qed.
Lemma task_trim_round_None s :
  registry_wf s → trim_round s = None →
  size (trs_tasks s) ≤ MAX_RETAINED_TASKS ∨ ∀ id, is_retired s id = false.
Proof.
  intros HW. unfold trim_round. destruct (_ <? _) eqn:Hn; [|apply Nat.ltb_ge in Hn; by left].
  destruct (position _ _) eqn:Hp; [done|]. intros _. right. intros id.
  destruct (decide (id ∈ trs_order s)) as [Hin|Hin]; [by eapply position_None in Hp|].
  rewrite (rw_dom _ HW), <-eq_None_not_Some in Hin. unfold is_retired. by rewrite Hin.
Qed.

(** What a state looks like after trimming [s]. *)
Record trimmed (s s' : TaskRegistryState) : Prop := {
  tm_wf : registry_wf s';
  tm_order : trs_order s' = drop_oldest (is_retired s)
               (size (trs_tasks s) - MAX_RETAINED_TASKS) (trs_order s);
  tm_tasks id : trs_tasks s' !! id =
    if decide (id ∈ trs_order s') then trs_tasks s !! id else None
}.

Lemma task_trim_loop_spec fuel s :
  registry_wf s → length (trs_order s) ≤ fuel → trimmed s (trim_loop fuel s).
Proof.
  revert s. induction fuel as [|fuel IH]; intros s HW Hl.
  - pose proof (registry_wf_size s HW). destruct (trs_order s) as [|] eqn:Ho; [|simpl in *; lia].
    split; [done|by rewrite Ho|]. intros id. simpl. case_decide as Hin; [done|].
    by rewrite (rw_dom _ HW), <-eq_None_not_Some in Hin.
  - simpl. destruct (trim_round s) as [s1|] eqn:Hr.
    + destruct (task_trim_round_Some _ _ HW Hr) as (HW1 & Hsz & Hmax & Ho1 & Ht1).
      pose proof (registry_wf_size s HW). pose proof (registry_wf_size s1 HW1).
      destruct (IH s1 HW1) as [HW2 Ho2 Ht2]; [lia|]. split; [done| |].
      * rewrite Ho2, Ho1.
        replace (size (trs_tasks s) - MAX_RETAINED_TASKS)
          with (S (size (trs_tasks s1) - MAX_RETAINED_TASKS)) by lia.
        rewrite (drop_oldest_S (is_retired s) (_ - _)). apply drop_oldest_ext. intros id Hid.
        rewrite <-Ho1 in Hid. unfold is_retired. by rewrite Ht1, decide_True.
      * intros id. rewrite Ht2, Ht1. case_decide as Hin; [|done].
        rewrite decide_True; [done|]. rewrite Ho2 in Hin.
        eapply sublist_mem; [apply drop_oldest_sublist|done].
    + split; [done| |].
      * destruct (task_trim_round_None s HW Hr) as [Hle|Hno].
        -- replace (_ - _) with 0 by lia. by rewrite drop_oldest_0.
        -- by rewrite drop_oldest_none by auto.
      * intros id. case_decide as Hin; [done|].
        by rewrite (rw_dom _ HW), <-eq_None_not_Some in Hin.
Qed.

Lemma trim_spec s : registry_wf s → trimmed s (trim_terminal_history s).
Proof. intros HW. by apply task_trim_loop_spec. Qed.

Definition within_bound (s : TaskRegistryState) : Prop :=
  size (trs_tasks s) ≤ MAX_RETAINED_TASKS ∨ ∀ id, is_retired s id = false.

Lemma trim_bound s : registry_wf s → within_bound (trim_terminal_history s).
Proof.
  intros HW. destruct (trim_spec s HW) as [HW' Ho Ht].
  pose proof (registry_wf_size s HW) as Hsz. pose proof (registry_wf_size _ HW') as Hsz'.
  unfold within_bound. rewrite Hsz', Ho, drop_oldest_length, Hsz.
  set (n := length (trs_order s) - MAX_RETAINED_TASKS) in *.
  set (c := countb _ _) in *.
  destruct (decide (n ≤ c)) as [Hle|Hgt]; [left; lia|right]. intros id.
  unfold is_retired. rewrite Ht. case_decide as Hin; [|done].
  destruct (is_retired s id) eqn:Hret; [|done]. exfalso.
  assert (∀ m l, countb (is_retired s) l ≤ m →
    ∀ x, x ∈ drop_oldest (is_retired s) m l → is_retired s x = false) as Hall.
  { clear. intros m l. revert m. induction l as [|y l IH]; intros m; simpl.
    { intros _ x Hx. by apply elem_of_nil in Hx. }
    rewrite countb_cons.
    destruct (is_retired s y) eqn:Hy; simpl; intros Hm x.
    - destruct (0 <? m) eqn:H0; [|apply Nat.ltb_ge in H0; lia]. apply IH. lia.
    - rewrite elem_of_cons. intros [->|Hx]; [done|]. eapply IH; [|done]. lia. }
  rewrite Ho, Hsz in Hin. apply Hall in Hin; [congruence|lia].
Qed.

(** A record that trimming may drop is terminal and the map is over-full. *)
Lemma trim_keeps s id t :
  registry_wf s → trs_tasks s !! id = Some t →
  trs_tasks (trim_terminal_history s) !! id = Some t ∨
  trs_tasks (trim_terminal_history s) !! id = None ∧ task_terminal t = true ∧
  MAX_RETAINED_TASKS < size (trs_tasks s).
Proof.
  intros HW Hid. destruct (trim_spec s HW) as [_ Ho Ht]. rewrite Ht.
  case_decide as Hin; [by left|right]. split; [done|].
  assert (id ∈ trs_order s) as Hord by (apply (rw_dom _ HW); eauto).
  rewrite Ho in Hin. split.
  - destruct (task_terminal t) eqn:Hterm; [done|]. destruct Hin.
    apply drop_oldest_keeps; [done|]. unfold is_retired. by rewrite Hid.
  - destruct (decide (MAX_RETAINED_TASKS < size (trs_tasks s))) as [?|Hle]; [done|].
    destruct Hin. replace (_ - _) with 0 by lia. by rewrite drop_oldest_0.
Qed.

Lemma registry_wf_insert s id t t' :
  registry_wf s → trs_tasks s !! id = Some t → tr_id t' = tr_id t →
  registry_wf (s <| trs_tasks ::= <[id := t']> |>).
Proof.
  intros [Hnd Hdom Hkey] Hid Ht. split; simpl; [done| |].
  - intros x. rewrite lookup_insert_is_Some, Hdom.
    destruct (decide (id = x)) as [<-|]; naive_solver.
  - intros x u. rewrite lookup_insert_Some. intros [[<- <-]|[_ Hx]]; [|by apply Hkey].
    rewrite Ht. by apply Hkey.
Qed.

Lemma registry_wf_queue s id t :
  registry_wf s → trs_tasks s !! id = None → tr_id t = id →
  registry_wf (s <| trs_order ::= λ o, o ++ [id] |> <| trs_tasks ::= <[id := t]> |>).
Proof.
  intros [Hnd Hdom Hkey] Hid Ht. assert (id ∉ trs_order s) as Hni.
  { rewrite Hdom, Hid. by intros [? ?]. }
  split; simpl.
  - apply NoDup_app. split_and!; [done| |apply NoDup_singleton].
    intros x Hx ->%list_elem_of_singleton. done.
  - intros x. rewrite elem_of_app, list_elem_of_singleton, lookup_insert_is_Some, Hdom.
    destruct (decide (id = x)) as [<-|]; naive_solver.
  - intros x u. rewrite lookup_insert_Some. intros [[<- <-]|[_ Hx]]; [done|by apply Hkey].
Qed.

Definition registry_inv (s : TaskRegistryState) : Prop := registry_wf s ∧ within_bound s.

Lemma trim_inv s : registry_wf s → registry_inv (trim_terminal_history s).
Proof. intros HW. split; [apply (trim_spec s HW)|by apply trim_bound]. Qed.

Lemma finish_by_inv settle id outcome s :
  (∀ t, tr_id (settle t) = tr_id t) →
  registry_inv s → registry_inv (finish_by settle id outcome s).1.
Proof.
  intros Hset [HW HB]. unfold finish_by. destruct (trs_tasks s !! id) as [t|] eqn:Hid; [|done].
  destruct (tr_lifecycle t); simpl; [apply trim_inv..|by case_bool_decide];
    by eapply registry_wf_insert.
Qed.

#[export] Instance task_registry_inv : Invariant registry_inv.
Proof.
  split.
  - intros ? ->. split; [|left; simpl; rewrite map_size_empty; lia].
    split; simpl; [by apply NoDup_nil| |by intros ??; rewrite lookup_empty].
    intros id. rewrite lookup_empty. split; [by intros ?%elem_of_nil|by intros [? ?]].
  - intros s s' HI Hs. destruct Hs as [now id owner request kind summary s Hid|now id s
      |now id outcome s|now id outcome error s].
    + apply trim_inv, registry_wf_queue; [apply HI|done..].
    + unfold mark_running. destruct (trs_tasks s !! id) as [t|] eqn:Hid; [|done].
      destruct (tr_lifecycle t) eqn:Hl; [|done..]. destruct HI as [HW HB].
      split; [by eapply registry_wf_insert|]. destruct HB as [HB|HB]; [left|right].
      * simpl. by rewrite map_size_insert_Some.
      * intros x. specialize (HB x). unfold is_retired in *. simpl.
        rewrite lookup_insert. by case_decide.
    + by apply finish_by_inv.
    + by apply finish_by_inv.
Qed.

(** ** Properties *)

(** The transitions a record may make: identity fields never change, and the
    lifecycle only moves forward. *)
Definition record_progress (t t' : TaskRecord) : Prop :=
  (tr_id t', tr_owner_session t', tr_request t', tr_kind t', tr_summary t', tr_created_at_ms t') =
  (tr_id t, tr_owner_session t, tr_request t, tr_kind t, tr_summary t, tr_created_at_ms t) ∧
  match tr_lifecycle t, tr_lifecycle t' with
  | LifecycleTerminal _, _ => t' = t
  | LifecycleRunning, LifecycleQueued => False
  | _, _ => True
  end.

Lemma record_progress_refl t : record_progress t t.
Proof. split; [done|]. by destruct (tr_lifecycle t). Qed.

Lemma finish_by_task settle id outcome s x t :
  (∀ u, tr_lifecycle (settle u) = LifecycleTerminal outcome ∧
        ∀ l, tr_lifecycle u = l → lifecycle_is_terminal l = false → record_progress u (settle u)) →
  registry_inv s → trs_tasks s !! x = Some t →
  let s' := (finish_by settle id outcome s).1 in
  (∃ t', trs_tasks s' !! x = Some t' ∧ record_progress t t') ∨
  trs_tasks s' !! x = None ∧ MAX_RETAINED_TASKS < size (trs_tasks s) ∧
  (task_terminal t = true ∨ x = id).
Proof.
  intros Hset [HW HB] Hx. simpl. unfold finish_by.
  destruct (trs_tasks s !! id) as [u|] eqn:Hid; [|eauto using record_progress_refl].
  destruct (lifecycle_is_terminal (tr_lifecycle u)) eqn:Hterm.
  { destruct (tr_lifecycle u); [done..|]. case_bool_decide; eauto using record_progress_refl. }
  destruct (Hset u) as [Hsl Hprog]. specialize (Hprog _ eq_refl Hterm).
  assert (∀ o : result TaskTransitionError unit,
    let s' := (trim_terminal_history (s <| trs_tasks ::= <[id:=settle u]> |>), o).1 in
    (∃ t', trs_tasks s' !! x = Some t' ∧ record_progress t t') ∨
    trs_tasks s' !! x = None ∧ MAX_RETAINED_TASKS < size (trs_tasks s) ∧
    (task_terminal t = true ∨ x = id)) as Hgo.
  { intros o. simpl. set (s1 := s <| trs_tasks ::= <[id:=settle u]> |>).
    assert (registry_wf s1) as HW1.
    { eapply registry_wf_insert; [done..|]. by destruct Hprog as [[=] _]. }
    assert (size (trs_tasks s1) = size (trs_tasks s)) as Hsz by by apply map_size_insert_Some.
    assert (∃ t1, trs_tasks s1 !! x = Some t1 ∧ record_progress t t1 ∧ (t1 = t ∨ x = id))
      as (t1 & Hx1 & Hp1 & Hor).
    { subst s1. simpl. destruct (decide (x = id)) as [->|Hne].
      - simplify_map_eq. eauto.
      - rewrite lookup_insert_ne by done. eauto using record_progress_refl. }
    destruct (trim_keeps s1 x t1 HW1 Hx1) as [Hk|(Hk & Ht & Hn)]; [left; eauto|right].
    split_and!; [done|lia|]. destruct Hor as [->| ->]; auto. }
  destruct (tr_lifecycle u); [apply (Hgo (Ok ()))..|done].
Qed.

(** The task registry stays consistent: the order lists
    every retained task exactly once, each record is stored under its own id,
    and either at most 256 tasks are retained or every retained task is still
    active. *)
Theorem task_registry_invariant (s : TaskRegistryState) (Hr : reachable s) :
  NoDup (trs_order s) ∧ (∀ id, id ∈ trs_order s ↔ is_Some (get s id)) ∧
  (∀ id t, get s id = Some t → tr_id t = id) ∧
  (length (trs_order s) ≤ 256 ∨ ∀ id t, get s id = Some t → task_terminal t = false).
Proof.
  apply (invariant_reachable registry_inv) in Hr as [HW HB].
  split_and!; [apply HW..|]. destruct HB as [HB|HB]; [left|right].
  - by rewrite <-(registry_wf_size s HW).
  - intros id t Hid. specialize (HB id). unfold is_retired, get in *. by rewrite Hid in HB.
Qed.

(** A task's life is one-way.  Over any step of the registry, a
    retained task keeps its identity and never moves back in its lifecycle, a
    terminal record (outcome, error and time) never changes, and a task is
    evicted only from a history of more than 256 entries and only when it is
    terminal or is the one just finished by this step. *)
Theorem task_lifecycle (s s' : TaskRegistryState) id t
    (Hr : reachable s) (Hs : sm_step s s') (Ht : get s id = Some t) :
  (∃ t', get s' id = Some t' ∧ record_progress t t') ∨
  get s' id = None ∧ 256 ≤ size (trs_tasks s) ∧
  (task_terminal t = true ∨ ∃ now outcome, (s' = (finish now id outcome s).1 ∨
     ∃ error, s' = (finish_with_error now id outcome error s).1)).
Proof.
  apply (invariant_reachable registry_inv) in Hr as HI. unfold get in *.
  destruct Hs as [now x owner request kind summary s Hx|now x s
      |now x outcome s|now x outcome error s].
  - simpl. pose proof (registry_wf_queue _ x (MkTaskRecord x owner request kind summary
      LifecycleQueued now now None) (proj1 HI) Hx eq_refl) as HW.
    destruct (trim_keeps _ id t HW) as [Hk|(Hk & Hterm & Hn)].
    + simpl. rewrite lookup_insert_ne; [done|congruence].
    + left. eauto using record_progress_refl.
    + right. simpl in Hn. rewrite map_size_insert_None in Hn by done.
      unfold MAX_RETAINED_TASKS in Hn. split_and!; [done|lia|by left].
  - left. unfold mark_running. destruct (trs_tasks s !! x) as [u|] eqn:Hx;
      [|eauto using record_progress_refl].
    destruct (tr_lifecycle u) eqn:Hl; simpl; [|eauto using record_progress_refl..].
    destruct (decide (x = id)) as [->|]; simplify_map_eq; [|eauto using record_progress_refl].
    eexists. split; [done|]. split; [done|]. by rewrite Hl.
  - destruct (finish_by_task (λ u, u <| tr_lifecycle := LifecycleTerminal outcome |>
        <| tr_updated_at_ms := now |>) x outcome s id t) as [?|(? & ? & [?| ->])]; [| |done|..].
    + intros u. split; [done|]. intros l <- Hn. split; [done|]. by destruct (tr_lifecycle u).
    + done.
    + by left.
    + right. unfold MAX_RETAINED_TASKS in *. split_and!; [done|lia|by left].
    + right. unfold MAX_RETAINED_TASKS in *. split_and!; [done|lia|right; eauto].
  - destruct (finish_by_task (λ u, u <| tr_lifecycle := LifecycleTerminal outcome |>
        <| tr_updated_at_ms := now |> <| tr_error := Some (for_task error x) |>)
        x outcome s id t) as [?|(? & ? & [?| ->])]; [| |done|..].
    + intros u. split; [done|]. intros l <- Hn. split; [done|]. by destruct (tr_lifecycle u).
    + done.
    + by left.
    + right. unfold MAX_RETAINED_TASKS in *. split_and!; [done|lia|by left].
    + right. unfold MAX_RETAINED_TASKS in *. split_and!; [done|lia|right; eauto].
Qed.

(** Trimming removes exactly the oldest terminal tasks, as
    many as exceed the limit: on a well-formed registry the loop computes the
    order without its first [n - 256] terminal entries, and keeps exactly the
    records of the entries that remain, unchanged. *)
Theorem trim_is_oldest_first s (HW : registry_wf s) :
  let s' := trim_terminal_history s in
  trs_order s' = drop_oldest (is_retired s) (length (trs_order s) - 256) (trs_order s) ∧
  ∀ id, get s' id = if decide (id ∈ trs_order s') then get s id else None.
Proof.
  destruct (trim_spec s HW) as [_ Ho Ht]. rewrite (registry_wf_size s HW) in Ho. by split.
Qed.

Lemma newest_Some p s t :
  registry_wf s → newest p s = Some t →
  ∃ o1 o2, trs_order s = o1 ++ tr_id t :: o2 ∧ trs_tasks s !! tr_id t = Some t ∧ p t = true ∧
    ∀ id u, id ∈ o2 → trs_tasks s !! id = Some u → p u = false.
Proof.
  intros HW. unfold newest. intros (l1 & id & l2 & Hl & Hf & Hno)%find_map_Some.
  apply bind_Some in Hf as (u & Hu & Hp). destruct (p u) eqn:Hpu; simplify_eq.
  assert (tr_id t = id) as Hid by by eapply rw_key. subst id.
  exists (rev l2), (rev l1). split_and!; [|done..|].
  - rewrite <-(rev_involutive (trs_order s)), Hl, rev_app_distr. simpl. by rewrite <-app_assoc.
  - intros id u Hin Hid. rewrite list_elem_of_In, <-in_rev, <-list_elem_of_In in Hin.
    rewrite Forall_forall in Hno. specialize (Hno id). rewrite Hid in Hno. simpl in Hno.
    destruct (p u); [|done]. by specialize (Hno Hin).
Qed.

Lemma newest_None p s :
  registry_wf s → newest p s = None → ∀ id u, trs_tasks s !! id = Some u → p u = false.
Proof.
  intros HW. unfold newest. rewrite find_map_None. intros H id u Hid.
  specialize (H id). rewrite Hid in H. simpl in H. destruct (p u); [|done].
  assert (id ∈ trs_order s) as Hin by (apply (rw_dom _ HW); eauto).
  rewrite list_elem_of_In, in_rev, <-list_elem_of_In in Hin. by specialize (H Hin).
Qed.

(** [latest_active] prefers running work over queued work
    and the newest over the older: when it returns a running task every later
    task is not running; when it returns a queued task nothing is running and
    every later task is not queued; and it returns nothing only if every
    retained task is terminal. *)
Theorem latest_active_correct (s : TaskRegistryState) (Hr : reachable s) :
  match latest_active s with
  | Some t =>
      ∃ o1 o2, trs_order s = o1 ++ tr_id t :: o2 ∧ get s (tr_id t) = Some t ∧
        (tr_lifecycle t = LifecycleRunning ∨
         tr_lifecycle t = LifecycleQueued ∧
         ∀ id u, get s id = Some u → tr_lifecycle u ≠ LifecycleRunning) ∧
        ∀ id u, id ∈ o2 → get s id = Some u → tr_lifecycle u ≠ tr_lifecycle t
  | None => ∀ id u, get s id = Some u → task_terminal u = true
  end.
Proof.
  apply (invariant_reachable registry_inv) in Hr as [HW _]. unfold latest_active, get. simpl.
  destruct (newest _ s) as [t|] eqn:E1.
  { apply newest_Some in E1 as (o1 & o2 & Ho & Ht & Hp%bool_decide_eq_true & Hno); [|done].
    exists o1, o2. rewrite Hp. split_and!; [done..|by left|].
    intros id u Hin Hu. specialize (Hno _ _ Hin Hu). by apply bool_decide_eq_false in Hno. }
  pose proof (newest_None _ s HW E1) as Hnr. clear E1.
  destruct (newest _ s) as [t|] eqn:E2.
  { apply newest_Some in E2 as (o1 & o2 & Ho & Ht & Hp%bool_decide_eq_true & Hno); [|done].
    exists o1, o2. rewrite Hp. split_and!; [done..| |].
    - right. split; [done|]. intros id u Hu. specialize (Hnr _ _ Hu).
      by apply bool_decide_eq_false in Hnr.
    - intros id u Hin Hu. specialize (Hno _ _ Hin Hu). by apply bool_decide_eq_false in Hno. }
  pose proof (newest_None _ s HW E2) as Hnq. intros id u Hu.
  specialize (Hnr _ _ Hu). specialize (Hnq _ _ Hu).
  apply bool_decide_eq_false in Hnr, Hnq. unfold task_terminal. by destruct (tr_lifecycle u).
Qed.

(** ** Witnesses *)

Definition demo_id (k : string) : TaskId := MkTaskId k.
Definition demo_key : RequestKey := MkRequestKey (MkMcpSessionId "s") (RpcNumber 1).

Definition demo_queue (k : string) (s : TaskRegistryState) : TaskRegistryState :=
  (queue 10 (demo_id k) (MkMcpSessionId "s") demo_key ReadFile SummaryOmitted s).1.

Definition demo_registry : TaskRegistryState :=
  (finish 12 (demo_id "a") Completed
    (mark_running 11 (demo_id "b") (demo_queue "b" (demo_queue "a" empty_registry))).1).1.

Lemma demo_registry_reachable : reachable demo_registry.
Proof.
  eapply reachable_step; [|apply StepFinish]. eapply reachable_step; [|apply StepMarkRunning].
  eapply reachable_step; [|by apply StepQueue]. eapply reachable_step; [|by apply StepQueue].
  by exists empty_registry.
Qed.

Lemma task_registry_invariant_witness : trs_order demo_registry = [demo_id "a"; demo_id "b"] ∧
  NoDup (trs_order demo_registry).
Proof.
  split; [by vm_compute|]. apply (task_registry_invariant _ demo_registry_reachable).
Defined.

Lemma task_lifecycle_witness :
  let s' := (finish 13 (demo_id "b") Failed demo_registry).1 in
  ∃ t, get demo_registry (demo_id "a") = Some t ∧ task_terminal t = true ∧
  ((∃ t', get s' (demo_id "a") = Some t' ∧ record_progress t t') ∨
   get s' (demo_id "a") = None ∧ 256 ≤ size (trs_tasks demo_registry) ∧
  (task_terminal t = true ∨ ∃ now outcome, (s' = (finish now (demo_id "a") outcome demo_registry).1 ∨
     ∃ error, s' = (finish_with_error now (demo_id "a") outcome error demo_registry).1))).
Proof.
  intros s'. eexists. split; [by vm_compute|split; [by vm_compute|]].
  apply (task_lifecycle demo_registry s' (demo_id "a")).
  - apply demo_registry_reachable.
  - apply StepFinish.
  - by vm_compute.
Defined.

Lemma trim_is_oldest_first_witness :
  trs_order (trim_terminal_history demo_registry) = trs_order demo_registry.
Proof.
  rewrite (proj1 (trim_is_oldest_first demo_registry
    (proj1 (invariant_reachable registry_inv _ demo_registry_reachable)))).
  by vm_compute.
Defined.

Lemma latest_active_correct_witness :
  ∃ t, latest_active demo_registry = Some t ∧ tr_id t = demo_id "b" ∧
       get demo_registry (tr_id t) = Some t.
Proof.
  pose proof (latest_active_correct demo_registry demo_registry_reachable) as H.
  destruct (latest_active demo_registry) as [t|] eqn:E; [|by vm_compute in E].
  destruct H as (o1 & o2 & Ho & Ht & _). exists t. split; [done|]. split; [|done].
  vm_compute in E. by injection E as <-.
Defined.
