(* ===== verification/ExecutionRegistry.v ===== *)
(** * ExecutionRegistry: long-running commands, their owners and their record

    [src/src-tauri/src/control_plane/execution_registry.rs].  The registry of
    executions is kept in memory under one mutex and written through to a file
    by every transaction.  This file holds the data and the operations;
    [ExecutionInvariants] and [ExecutionRecovery] hold the theorems.

    JSON coding (serde_json) and SHA-256 (sha2) are the interface
    [ExecutionCodec].  Clock readings, random ids and the outcome of every
    file-system call are arguments. *)

From stdpp Require Import pretty.
From S2P Require Import Prelude Text Domain.
#[local] Open Scope N_scope.

(** ** Data *)

(* @src control_plane/execution_registry.rs:20-20 EXECUTION_STATE_VERSION *)
Definition EXECUTION_STATE_VERSION : N := 4.
(* @src control_plane/execution_registry.rs:21-21 MAX_ACTIVE_EXECUTIONS *)
Definition MAX_ACTIVE_EXECUTIONS : nat := 64.
(* @src control_plane/execution_registry.rs:22-22 MAX_TERMINAL_EXECUTIONS *)
Definition MAX_TERMINAL_EXECUTIONS : nat := 64.
(* @src control_plane/execution_registry.rs:23-23 EXECUTION_ORPHAN_TTL_MS *)
Definition EXECUTION_ORPHAN_TTL_MS : N := 30 * 60 * 1000.
(* @src control_plane/execution_registry.rs:24-24 EXECUTION_MAX_DETACHED_AGE_MS *)
Definition EXECUTION_MAX_DETACHED_AGE_MS : N := 24 * 60 * 60 * 1000.
(* @src control_plane/execution_registry.rs:25-25 MAX_OUTPUT_REFS *)
Definition MAX_OUTPUT_REFS : nat := 4.
(* @src control_plane/execution_registry.rs:26-26 MAX_STABLE_TOKEN *)
Definition MAX_STABLE_TOKEN : nat := 128.

(* @src control_plane/execution_registry.rs:29-33 PersistedExecutionState *)
Record PersistedExecutionState := MkPersistedExecutionState {
  pes_version : N;
  pes_executions : list ExecutionRecord
}.
#[export] Instance eta_PersistedExecutionState : Eta PersistedExecutionState := λ r,
  MkPersistedExecutionState (pes_version r) (pes_executions r).

(* @src control_plane/execution_registry.rs:35-42 PersistedExecutionState::default *)
Definition default_state : PersistedExecutionState :=
  MkPersistedExecutionState EXECUTION_STATE_VERSION [].

(* @src control_plane/execution_registry.rs:44-48 LegacyCommandOwner *)
Record LegacyCommandOwner := MkLegacyCommandOwner {
  lco_task_id : string;
  lco_session_id : string
}.
(* @src control_plane/execution_registry.rs:50-54 LegacyCurrentCommand *)
Record LegacyCurrentCommand := MkLegacyCurrentCommand {
  lcc_owner : LegacyCommandOwner;
  lcc_started_at_ms : millis
}.
(* @src control_plane/execution_registry.rs:56-64 LegacyTerminalStatus *)
Inductive LegacyTerminalStatus :=
  | LegacyCompleted | LegacyFailed | LegacyTimedOut | LegacyCancelled | LegacyLost.
(* @src control_plane/execution_registry.rs:66-75 LegacyTerminalCommand *)
Record LegacyTerminalCommand := MkLegacyTerminalCommand {
  ltc_owner : LegacyCommandOwner;
  ltc_status : LegacyTerminalStatus;
  ltc_exit_code : option Z;
  ltc_signal : option string;
  ltc_output_refs : list string;
  ltc_error_code : option string;
  ltc_completed_at_ms : millis
}.
(* @src control_plane/execution_registry.rs:77-83 LegacyTaskState *)
Record LegacyTaskState := MkLegacyTaskState {
  lts_version : N;
  lts_legacy_running_command : option LegacyCurrentCommand;
  lts_terminal_commands : list LegacyTerminalCommand
}.

(** A path of a file: its directory and its name. *)
Definition FilePath : Type := string * string.
Definition FileSystem : Type := gmap FilePath bytes.

(* @src control_plane/execution_registry.rs:85-93 ExecutionRegistryInner, ExecutionRegistry *)
Record ExecutionRegistryInner := MkExecutionRegistryInner {
  eri_path : FilePath;
  eri_state : PersistedExecutionState;
  eri_cancellation_signals : gmap ExecutionId string
}.
#[export] Instance eta_ExecutionRegistryInner : Eta ExecutionRegistryInner := λ r,
  MkExecutionRegistryInner (eri_path r) (eri_state r) (eri_cancellation_signals r).

(* @src control_plane/execution_registry.rs:95-114 ExecutionRegistryError *)
Inductive ExecutionRegistryError :=
  | Storage (operation : string)
  | CapacityExceeded
  | UnknownExecution (id : ExecutionId)
  | UnknownPublicSession (id : PublicSessionId)
  | PublicSessionCollision (id : PublicSessionId)
  | OwnerConflict (execution_id : ExecutionId) (existing attempted : McpSessionId)
  | NotOrphaned (id : ExecutionId)
  | AdoptionDenied
  | RuntimeHandleCollision (handle : RuntimeCommandHandle)
  | AlreadyTerminal (execution_id : ExecutionId) (outcome : TerminalOutcome).
#[export] Instance ExecutionRegistryError_eq_dec : EqDecision ExecutionRegistryError.
Proof. solve_decision. Defined.

#[local] Open Scope string_scope.
(* @src control_plane/execution_registry.rs:116-147 ExecutionRegistryError::fmt *)
Definition error_to_string (e : ExecutionRegistryError) : string :=
  match e with
  | Storage operation => "execution registry " +:+ operation +:+ " failed"
  | CapacityExceeded => "execution registry capacity exceeded"
  | UnknownExecution id => "unknown execution " +:+ execution_id_str id
  | UnknownPublicSession id => "unknown public session " +:+ public_session_str id
  | PublicSessionCollision id => "public session collision " +:+ public_session_str id
  | OwnerConflict execution_id existing attempted =>
      "execution " +:+ execution_id_str execution_id +:+ " is owned by " +:+
      mcp_session_str existing +:+ ", not " +:+ mcp_session_str attempted
  | NotOrphaned id => "execution " +:+ execution_id_str id +:+ " is not orphaned"
  | AdoptionDenied => "execution adoption credential was rejected"
  | RuntimeHandleCollision handle =>
      "runtime command handle collision " +:+ runtime_handle_str handle
  | AlreadyTerminal execution_id outcome =>
      "execution " +:+ execution_id_str execution_id +:+ " already terminal as " +:+
      outcome_as_str outcome
  end.
#[local] Close Scope string_scope.

(* @src control_plane/execution_registry.rs:149-153 StartedExecution *)
Record StartedExecution := MkStartedExecution {
  se_execution_id : ExecutionId;
  se_adoption_token : AdoptionToken
}.
(* @src control_plane/execution_registry.rs:155-159 AdoptedExecution *)
Record AdoptedExecution := MkAdoptedExecution {
  ae_execution : ExecutionRecord;
  ae_next_adoption_token : AdoptionToken
}.

(** ** The libraries the registry relies on *)

(** [serde_json] reading and writing the two file formats, and the hexadecimal
    SHA-256 digest of a token. *)
Class ExecutionCodec := {
  to_vec_pretty : PersistedExecutionState → option bytes;
  from_slice_state : bytes → option PersistedExecutionState;
  from_slice_legacy : bytes → option LegacyTaskState;
  sha256_hex : string → string
}.

(** What a record looks like after being written and read back: the token
    hash is [skip_serializing], the runtime handle is [skip]. *)
Definition durable_record (e : ExecutionRecord) : ExecutionRecord :=
  e <| er_adoption_token_hash := None |> <| er_runtime_handle := None |>.
Definition durable (s : PersistedExecutionState) : PersistedExecutionState :=
  s <| pes_executions ::= map durable_record |>.

(** The documented behaviour of the derived [Serialize] and [Deserialize]:
    what was written, with the trailing newline, reads back as its durable view. *)
Class ExecutionCodecLaws `{ExecutionCodec} : Prop :=
  from_slice_to_vec s bytes :
    to_vec_pretty s = Some bytes →
    from_slice_state (bytes ++ [10]) = Some (durable s).

(** ** Tokens and terminal records *)

(** [str::is_char_boundary] at a position inside the string. *)
Definition is_char_boundary (s : string) (i : nat) : bool :=
  match String.get i s with
  | Some c => negb (is_cont (Ascii.N_of_ascii c))
  | None => (i =? String.length s)%nat
  end.

(** [String::truncate] panics off a character boundary: [None]. *)
(* @src control_plane/execution_registry.rs:926-931 bounded_token *)
Definition bounded_token (value : string) : option string :=
  if (MAX_STABLE_TOKEN <? String.length value)%nat then
    if is_char_boundary value MAX_STABLE_TOKEN
    then Some (String.substring 0 MAX_STABLE_TOKEN value)
    else None
  else Some value.

(** [Option::map] with a function that may panic. *)
Definition option_try {A B} (f : A → option B) (o : option A) : option (option B) :=
  match o with Some a => Some <$> f a | None => Some None end.

(* @src control_plane/execution_registry.rs:729-740 sanitize_terminal *)
Definition sanitize_terminal (terminal : ExecutionTerminal) : option ExecutionTerminal :=
  signal ← option_try bounded_token (et_signal terminal);
  output_refs ← mapM bounded_token
    (take MAX_OUTPUT_REFS
       (List.filter (String.prefix "lb-output-") (et_output_refs terminal)));
  error_code ← option_try bounded_token (et_error_code terminal);
  Some (terminal <| et_signal := signal |> <| et_output_refs := output_refs |>
                 <| et_error_code := error_code |>).

(* @src control_plane/execution_registry.rs:742-751 lost_terminal *)
Definition lost_terminal (now : millis) : ExecutionTerminal :=
  MkExecutionTerminal Lost None None [] (Some "SessionUnavailable"%string) now.

(** ** Loading and repairing the state *)

Definition record_terminal (e : ExecutionRecord) : bool := execution_is_terminal (er_state e).

(** The body of the [while] loop; [None] leaves it. *)
Definition trim_round (l : list ExecutionRecord) : option (list ExecutionRecord) :=
  if (MAX_TERMINAL_EXECUTIONS <? countb record_terminal l)%nat then
    index ← position record_terminal l;
    Some (delete index l)
  else None.

Fixpoint trim_loop (fuel : nat) (l : list ExecutionRecord) : list ExecutionRecord :=
  match fuel with
  | O => l
  | S fuel => match trim_round l with Some l' => trim_loop fuel l' | None => l end
  end.

(** Every round removes one record: the length is fuel enough. *)
(* @src control_plane/execution_registry.rs:807-824 trim_state *)
Definition trim_state (s : PersistedExecutionState) : PersistedExecutionState :=
  s <| pes_executions ::= λ l, trim_loop (length l) l |>.

Definition legacy_outcome (status : LegacyTerminalStatus) : TerminalOutcome :=
  match status with
  | LegacyCompleted => Completed
  | LegacyFailed => Failed
  | LegacyTimedOut => TimedOut
  | LegacyCancelled => Cancelled
  | LegacyLost => Lost
  end.

(* @src control_plane/execution_registry.rs:755-780 migrate_legacy_state (one terminal command) *)
Definition migrate_terminal (index : nat) (t : LegacyTerminalCommand) : option ExecutionRecord :=
  terminal ← sanitize_terminal
    (MkExecutionTerminal (legacy_outcome (ltc_status t)) (ltc_exit_code t) (ltc_signal t)
       (ltc_output_refs t) (ltc_error_code t) (ltc_completed_at_ms t));
  Some (MkExecutionRecord
    (MkExecutionId ("legacy-execution-" +:+ pretty index)) (MkTaskId (lco_task_id (ltc_owner t)))
    (MkPublicSessionId (lco_session_id (ltc_owner t))) None None None
    (ExecutionTerminated terminal) (ltc_completed_at_ms t) (ltc_completed_at_ms t) None).

(* @src control_plane/execution_registry.rs:753-805 migrate_legacy_state *)
Definition migrate_legacy_state (now : millis) (legacy : LegacyTaskState) :
    option PersistedExecutionState :=
  executions ← mapM (λ p, migrate_terminal p.1 p.2)
    (zip (seq 0 (length (lts_terminal_commands legacy))) (lts_terminal_commands legacy));
  let recovered :=
    match lts_legacy_running_command legacy with
    | None => []
    | Some current =>
        let session := MkPublicSessionId (lco_session_id (lcc_owner current)) in
        if existsb (λ e, bool_decide (er_public_session_id e = session)) executions then []
        else [MkExecutionRecord (MkExecutionId "legacy-execution-recovered")
                (MkTaskId (lco_task_id (lcc_owner current))) session None None None
                (ExecutionTerminated (lost_terminal now)) (lcc_started_at_ms current)
                (lcc_started_at_ms current) None]
    end in
  Some (MkPersistedExecutionState EXECUTION_STATE_VERSION (executions ++ recovered)).

(** Outcomes of the system calls of one [persist_state]. *)
Record PersistIo := MkPersistIo {
  io_create_parent : bool;
  io_create_temp : bool;
  io_write_temp : bool;
  io_partial : bytes;
  io_remove_temp : bool;
  io_replace : bool;
  io_process_id : N;
  io_temp_sequence : N
}.

Definition temp_path (io : PersistIo) (path : FilePath) : FilePath :=
  (path.1, "." +:+ path.2 +:+ ".tmp-" +:+ pretty (io_process_id io) +:+ "-" +:+
           pretty (io_temp_sequence io))%string.

Definition remove_temp (io : PersistIo) (temp : FilePath) (fs : FileSystem) : FileSystem :=
  if io_remove_temp io then delete temp fs else fs.

(** A call either returns or panics; the release profile aborts on a panic. *)
Inductive call (A : Type) :=
  | Returned (r : result ExecutionRegistryError A)
  | Panicked.
Arguments Returned {A} r.
Arguments Panicked {A}.

Section codec.
Context `{ExecutionCodec}.

(** Both variants of [atomic_replace] move [temp] over [path] or change nothing. *)
(* @src control_plane/execution_registry.rs:844-911 persist_state, atomic_replace *)
Definition persist_state (io : PersistIo) (path : FilePath) (s : PersistedExecutionState)
    (fs : FileSystem) : FileSystem * result ExecutionRegistryError unit :=
  if negb (io_create_parent io) then (fs, Err (Storage "create_parent")) else
  match to_vec_pretty s with
  | None => (fs, Err (Storage "serialize"))
  | Some bytes =>
    let bytes := bytes ++ [10] in
    let temp := temp_path io path in
    if negb (io_create_temp io) || bool_decide (is_Some (fs !! temp))
    then (fs, Err (Storage "create_temp")) else
    if negb (io_write_temp io)
    then (remove_temp io temp (<[temp := io_partial io]> fs), Err (Storage "write_temp")) else
    if negb (io_replace io)
    then (remove_temp io temp (<[temp := bytes]> fs), Err (Storage "replace"))
    else (<[path := bytes]> (delete temp fs), Ok ())
  end.

Definition repair_observed (e : ExecutionRecord) : ExecutionRecord :=
  if er_last_observed_at_ms e =? 0
  then e <| er_last_observed_at_ms := er_started_at_ms e |> else e.

(** What [open_at] makes of the bytes of the file: the state and whether it was
    migrated; [None] is a panic. *)
(* @src control_plane/execution_registry.rs:174-195 ExecutionRegistry::open_at (reading the file) *)
Definition decode_state (now : millis) (bytes : bytes) :
    option (result ExecutionRegistryError (PersistedExecutionState * bool)) :=
  let legacy_branch :=
    match from_slice_legacy bytes with
    | None => Some (Err (Storage "parse"))
    | Some legacy =>
        if negb (lts_version legacy =? 1) then Some (Err (Storage "version"))
        else s ← migrate_legacy_state now legacy; Some (Ok (s, true))
    end in
  match from_slice_state bytes with
  | Some s =>
      if bool_decide (pes_version s ∈ [2; 3; EXECUTION_STATE_VERSION]) then
        let migrated := negb (pes_version s =? EXECUTION_STATE_VERSION) in
        Some (Ok (MkPersistedExecutionState EXECUTION_STATE_VERSION
                    (map repair_observed (pes_executions s)), migrated))
      else legacy_branch
  | None => legacy_branch
  end.

(** A live execution does not survive a restart. [clock i] is the reading of
    the clock for the [i]-th record. *)
(* @src control_plane/execution_registry.rs:199-205 ExecutionRegistry::open_at (recovery) *)
Definition recover_record (clock : nat → millis) (i : nat) (e : ExecutionRecord) :
    ExecutionRecord :=
  if record_terminal e then e
  else e <| er_state := ExecutionTerminated (lost_terminal (clock i)) |>
         <| er_adoption_token_hash := None |>.

(* @src control_plane/execution_registry.rs:168-216 ExecutionRegistry::open_at *)
Definition open_at (clock : nat → millis) (now : millis) (io : PersistIo) (read_ok : bool)
    (path : FilePath) (fs : FileSystem) : FileSystem * call ExecutionRegistryInner :=
  let decoded :=
    match fs !! path with
    | Some bytes => if read_ok then decode_state now bytes else Some (Err (Storage "read"))
    | None => Some (Ok (default_state, false))
    end in
  match decoded with
  | None => (fs, Panicked)
  | Some (Err e) => (fs, Returned (Err e))
  | Some (Ok (s, migrated)) =>
      let recovered := existsb (λ e, negb (record_terminal e)) (pes_executions s) in
      let s := trim_state (s <| pes_executions ::= imap (recover_record clock) |>) in
      let '(fs, persisted) :=
        if migrated || recovered then persist_state io path s fs else (fs, Ok ()) in
      (fs, Returned (_ ← persisted; Ok (MkExecutionRegistryInner path s ∅)))
  end.

(** ** Transactions *)

(** What a transaction's closure does to its copy of the state: it may fail,
    panic, or hand out a value of type [A]. *)
Definition mutation (A : Type) : Type :=
  PersistedExecutionState → option (result ExecutionRegistryError (PersistedExecutionState * A)).

(* @src control_plane/execution_registry.rs:711-726 ExecutionRegistry::transact *)
Definition transact {A} (io : PersistIo) (operation : string) (mutate : mutation A)
    (inner : ExecutionRegistryInner) (fs : FileSystem) :
    ExecutionRegistryInner * FileSystem * call A :=
  match mutate (eri_state inner) with
  | None => (inner, fs, Panicked)
  | Some (Err e) => (inner, fs, Returned (Err e))
  | Some (Ok (next, a)) =>
      let next := trim_state next in
      match persist_state io (eri_path inner) next fs with
      | (fs, Err _) => (inner, fs, Returned (Err (Storage operation)))
      | (fs, Ok _) => (inner <| eri_state := next |>, fs, Returned (Ok a))
      end
  end.

Definition by_id (id : ExecutionId) (e : ExecutionRecord) : bool := bool_decide (er_id e = id).
Definition by_public_session (id : PublicSessionId) (e : ExecutionRecord) : bool :=
  bool_decide (er_public_session_id e = id).

(* @src control_plane/execution_registry.rs:921-924 hash_adoption_token *)
Definition hash_adoption_token (token : AdoptionToken) : AdoptionTokenHash :=
  MkAdoptionTokenHash (sha256_hex (adoption_token_str token)).

(* @src control_plane/execution_registry.rs:237-284 ExecutionRegistry::start_owned *)
Definition start_owned (now : millis) (execution_id : ExecutionId)
    (adoption_token : AdoptionToken) (task_id : TaskId) (public_session_id : PublicSessionId)
    (owner_session : option McpSessionId) : mutation StartedExecution := λ s,
  if (MAX_ACTIVE_EXECUTIONS <=? countb (λ e, negb (record_terminal e)) (pes_executions s))%nat
  then Some (Err CapacityExceeded) else
  if existsb (by_public_session public_session_id) (pes_executions s)
  then Some (Err (PublicSessionCollision public_session_id)) else
  Some (Ok (s <| pes_executions ::= λ l, l ++
      [MkExecutionRecord execution_id task_id public_session_id owner_session
         (Some (hash_adoption_token adoption_token)) None ExecutionRunning now now None] |>,
    MkStartedExecution execution_id adoption_token)).

(* @src control_plane/execution_registry.rs:287-313 ExecutionRegistry::bind_owner *)
Definition bind_owner (execution_id : ExecutionId) (owner : McpSessionId) : mutation unit := λ s,
  Some (
    execution ← ok_or (UnknownExecution execution_id)
                  (List.find (by_id execution_id) (pes_executions s));
    match er_owner_session execution with
    | Some existing =>
        if bool_decide (existing = owner) then Ok (s, ())
        else Err (OwnerConflict execution_id existing owner)
    | None =>
        Ok (s <| pes_executions ::= update_first (by_id execution_id)
               (λ e, e <| er_owner_session := Some owner |> <| er_orphaned_at_ms := None |>) |>, ())
    end).

(* @src control_plane/execution_registry.rs:315-365 ExecutionRegistry::adopt_owner *)
Definition adopt_owner (now : millis) (next_token : AdoptionToken)
    (public_session_id : PublicSessionId) (adoption_token : AdoptionToken)
    (owner : McpSessionId) : mutation AdoptedExecution := λ s,
  Some (
    execution ← ok_or (UnknownPublicSession public_session_id)
                  (List.find (by_public_session public_session_id) (pes_executions s));
    match er_state execution with
    | ExecutionTerminated terminal => Err (AlreadyTerminal (er_id execution) (et_outcome terminal))
    | _ =>
      match er_owner_session execution with
      | Some existing => Err (OwnerConflict (er_id execution) existing owner)
      | None =>
        match er_orphaned_at_ms execution with
        | None => Err (NotOrphaned (er_id execution))
        | Some _ =>
          if negb (bool_decide
               (er_adoption_token_hash execution = Some (hash_adoption_token adoption_token)))
          then Err AdoptionDenied
          else
            let adopt e := e <| er_owner_session := Some owner |>
              <| er_adoption_token_hash := Some (hash_adoption_token next_token) |>
              <| er_orphaned_at_ms := None |> <| er_last_observed_at_ms := now |> in
            Ok (s <| pes_executions ::= update_first (by_public_session public_session_id) adopt |>,
                MkAdoptedExecution (adopt execution) next_token)
        end
      end
    end).

(** The checking loop: the first record of the task that cannot be taken over. *)
Fixpoint transfer_conflict (task_id : TaskId) (owner : McpSessionId)
    (l : list ExecutionRecord) : option ExecutionRegistryError :=
  match l with
  | [] => None
  | e :: l =>
      if negb (bool_decide (er_task_id e = task_id)) then transfer_conflict task_id owner l else
      if record_terminal e || bool_decide (er_owner_session e = Some owner)
      then transfer_conflict task_id owner l else
      match er_owner_session e with
      | Some existing => Some (OwnerConflict (er_id e) existing owner)
      | None =>
          match er_orphaned_at_ms e with
          | None => Some (NotOrphaned (er_id e))
          | Some _ => transfer_conflict task_id owner l
          end
      end
  end.

(* @src control_plane/execution_registry.rs:369-405 ExecutionRegistry::transfer_orphaned_workflow_executions *)
Definition transfer_orphaned_workflow_executions (task_id : TaskId) (owner : McpSessionId) :
    mutation unit := λ s,
  Some match transfer_conflict task_id owner (pes_executions s) with
  | Some e => Err e
  | None =>
      Ok (s <| pes_executions ::= map (λ e,
             if bool_decide (er_task_id e = task_id)
             then e <| er_owner_session := Some owner |> <| er_orphaned_at_ms := None |>
             else e) |>, ())
  end.

(* @src control_plane/execution_registry.rs:407-436 ExecutionRegistry::bind_runtime_handle *)
Definition bind_runtime_handle (execution_id : ExecutionId) (handle : RuntimeCommandHandle) :
    mutation unit := λ s,
  Some (
    if existsb (λ e, negb (bool_decide (er_id e = execution_id)) &&
                     bool_decide (er_runtime_handle e = Some handle) &&
                     negb (record_terminal e)) (pes_executions s)
    then Err (RuntimeHandleCollision handle) else
    execution ← ok_or (UnknownExecution execution_id)
                  (List.find (by_id execution_id) (pes_executions s));
    match er_runtime_handle execution with
    | Some existing =>
        if bool_decide (existing = handle) then Ok (s, ())
        else Err (RuntimeHandleCollision existing)
    | None =>
        Ok (s <| pes_executions ::= update_first (by_id execution_id)
               (λ e, e <| er_runtime_handle := Some handle |>) |>, ())
    end).

(** The transaction of [finish]; [forget_signal] is its second critical section. *)
(* @src control_plane/execution_registry.rs:504-532 ExecutionRegistry::finish (the transaction) *)
Definition finish (execution_id : ExecutionId) (terminal : ExecutionTerminal) : mutation unit := λ s,
  match List.find (by_id execution_id) (pes_executions s) with
  | None => Some (Err (UnknownExecution execution_id))
  | Some execution =>
    match er_state execution with
    | ExecutionQueued | ExecutionRunning =>
        sanitized ← sanitize_terminal terminal;
        Some (Ok (s <| pes_executions ::= update_first (by_id execution_id)
          (λ e, e <| er_last_observed_at_ms := et_completed_at_ms terminal |>
                  <| er_runtime_handle := None |> <| er_adoption_token_hash := None |>
                  <| er_state := ExecutionTerminated sanitized |>) |>, ()))
    | ExecutionTerminated existing =>
        Some (if bool_decide (et_outcome existing = et_outcome terminal) then Ok (s, ())
              else Err (AlreadyTerminal execution_id (et_outcome existing)))
    end
  end.

Definition owned_live (owner : McpSessionId) (e : ExecutionRecord) : bool :=
  negb (record_terminal e) && bool_decide (er_owner_session e = Some owner).

(* @src control_plane/execution_registry.rs:591-609 ExecutionRegistry::orphan_owned_by *)
Definition orphan_owned_by (now : millis) (owner : McpSessionId) : mutation N := λ s,
  Some (Ok (s <| pes_executions ::= map (λ e,
      if owned_live owner e
      then e <| er_owner_session := None |>
             <| er_orphaned_at_ms ::= λ o, Some (default now o) |>
      else e) |>,
    N.min (N.of_nat (countb (owned_live owner) (pes_executions s))) usize_max)).

Definition is_running (e : ExecutionRecord) : bool :=
  match er_state e with ExecutionRunning => true | _ => false end.

(* @src control_plane/execution_registry.rs:611-621 ExecutionRegistry::observe_all_running *)
Definition observe_all_running (now : millis) : mutation unit := λ s,
  Some (Ok (s <| pes_executions ::= map (λ e,
      if is_running e then e <| er_last_observed_at_ms := now |> else e) |>, ())).

Definition orphan_expired (now_ms : millis) (e : ExecutionRecord) : bool :=
  match er_orphaned_at_ms e with
  | Some orphaned_at => EXECUTION_ORPHAN_TTL_MS <=? saturating_sub now_ms orphaned_at
  | None => false
  end.
Definition max_age_expired (now_ms : millis) (e : ExecutionRecord) : bool :=
  EXECUTION_MAX_DETACHED_AGE_MS <=? saturating_sub now_ms (er_started_at_ms e).
Definition stale (now_ms : millis) (e : ExecutionRecord) : bool :=
  negb (record_terminal e) && (orphan_expired now_ms e || max_age_expired now_ms e).

Definition reap_record (now_ms : millis) (e : ExecutionRecord) : ExecutionRecord :=
  e <| er_state := ExecutionTerminated (MkExecutionTerminal Lost None None []
         (Some (if orphan_expired now_ms e then "ExecutionOrphanExpired"
                else "ExecutionMaxAgeExceeded")%string) now_ms) |>
    <| er_adoption_token_hash := None |> <| er_last_observed_at_ms := now_ms |>.

(** The transaction of [reap_stale]; [forget_signals] is its second section. *)
(* @src control_plane/execution_registry.rs:623-658 ExecutionRegistry::reap_stale (the transaction) *)
Definition reap_stale (now_ms : millis) : mutation (list ExecutionId) := λ s,
  Some (Ok (s <| pes_executions ::= map (λ e, if stale now_ms e then reap_record now_ms e else e) |>,
            er_id <$> List.filter (stale now_ms) (pes_executions s))).
End codec.

(** ** Cancellation signals *)

(* @src control_plane/execution_registry.rs:438-466 ExecutionRegistry::request_cancellation *)
Definition request_cancellation (public_session_id : PublicSessionId) (signal : string)
    (inner : ExecutionRegistryInner) : ExecutionRegistryInner * call unit :=
  match List.find (by_public_session public_session_id) (pes_executions (eri_state inner)) with
  | None => (inner, Returned (Err (UnknownPublicSession public_session_id)))
  | Some execution =>
    match er_state execution with
    | ExecutionTerminated terminal =>
        (inner, Returned (Err (AlreadyTerminal (er_id execution) (et_outcome terminal))))
    | _ =>
      match bounded_token signal with
      | None => (inner, Panicked)
      | Some token =>
          (inner <| eri_cancellation_signals ::= <[er_id execution := token]> |>,
           Returned (Ok ()))
      end
    end
  end.

(* @src control_plane/execution_registry.rs:468-486 ExecutionRegistry::cancellation_signal *)
Definition cancellation_signal (public_session_id : PublicSessionId)
    (inner : ExecutionRegistryInner) : option string :=
  execution ← List.find (by_public_session public_session_id) (pes_executions (eri_state inner));
  if record_terminal execution then None
  else eri_cancellation_signals inner !! er_id execution.

(* @src control_plane/execution_registry.rs:488-502 ExecutionRegistry::clear_cancellation *)
Definition clear_cancellation (public_session_id : PublicSessionId)
    (inner : ExecutionRegistryInner) : ExecutionRegistryInner :=
  match List.find (by_public_session public_session_id) (pes_executions (eri_state inner)) with
  | Some execution => inner <| eri_cancellation_signals ::= delete (er_id execution) |>
  | None => inner
  end.

(* @src control_plane/execution_registry.rs:533-542 ExecutionRegistry::finish (forgetting the signal) *)
Definition forget_signal (execution_id : ExecutionId) (inner : ExecutionRegistryInner) :
    ExecutionRegistryInner :=
  inner <| eri_cancellation_signals ::= delete execution_id |>.

(* @src control_plane/execution_registry.rs:659-669 ExecutionRegistry::reap_stale (forgetting the signals) *)
Definition forget_signals (lost : list ExecutionId) (inner : ExecutionRegistryInner) :
    ExecutionRegistryInner :=
  fold_left (λ inner id, forget_signal id inner) lost inner.

(** ** Queries *)

(* @src control_plane/execution_registry.rs:544-556 ExecutionRegistry::execution_for_public_session *)
Definition execution_for_public_session (s : PersistedExecutionState)
    (public_session_id : PublicSessionId) : option ExecutionRecord :=
  List.find (by_public_session public_session_id) (pes_executions s).

(* @src control_plane/execution_registry.rs:558-568 ExecutionRegistry::latest_running *)
Definition latest_running (s : PersistedExecutionState) : option ExecutionRecord :=
  find_last is_running (pes_executions s).

(* @src control_plane/execution_registry.rs:570-580 ExecutionRegistry::running *)
Definition running (s : PersistedExecutionState) : list ExecutionRecord :=
  List.filter is_running (pes_executions s).

(* @src control_plane/execution_registry.rs:582-589 ExecutionRegistry::all *)
Definition all (s : PersistedExecutionState) : list ExecutionRecord := pes_executions s.

(* @src control_plane/execution_registry.rs:671-684 ExecutionRegistry::running_owned_by *)
Definition running_owned_by (s : PersistedExecutionState) (owner : McpSessionId) :
    list ExecutionRecord :=
  List.filter (λ e, is_running e && bool_decide (er_owner_session e = Some owner))
    (pes_executions s).

(* @src control_plane/execution_registry.rs:686-696 ExecutionRegistry::latest_terminal *)
Definition latest_terminal (s : PersistedExecutionState) : option ExecutionRecord :=
  find_last record_terminal (pes_executions s).

(* @src control_plane/execution_registry.rs:699-709 ExecutionRegistry::latest_terminal_for_task *)
Definition latest_terminal_for_task (s : PersistedExecutionState) (task_id : TaskId) :
    option ExecutionRecord :=
  find_last (λ e, bool_decide (er_task_id e = task_id) && record_terminal e) (pes_executions s).
