(* ===== verification/ExecutionFacts.v ===== *)
(** * ExecutionFacts: what the transactions of the execution registry do

    One description per transaction of [ExecutionRegistry]: how it relates the
    records before and after ([evolves]), what trimming keeps, and what a write
    of the state file can change. *)

From stdpp Require Import pretty.
From S2P Require Import Prelude Text Domain ExecutionRegistry.

Abbreviation live e := (negb (record_terminal e)).

(** ** Trimming *)

Lemma trim_round_Some l l' :
  trim_round l = Some l' →
  MAX_TERMINAL_EXECUTIONS < countb record_terminal l ∧
  l' = drop_oldest record_terminal 1 l ∧ length l = S (length l') ∧
  countb record_terminal l = S (countb record_terminal l').
Proof.
  unfold trim_round. destruct (_ <? _)%nat eqn:Hn; [|done]. apply Nat.ltb_lt in Hn.
  intros (i & Hp & [= <-])%bind_Some. rewrite (drop_oldest_position _ _ _ Hp).
  apply position_Some in Hp as (x & Hx & Ht & _).
  pose proof (lookup_lt_Some _ _ _ Hx). split_and!; [done..| |].
  - rewrite length_delete by (eexists; exact Hx). lia.
  - rewrite <-(take_drop_middle _ _ _ Hx) at 1. rewrite delete_take_drop.
    autorewrite with counts. rewrite Ht. lia.
Qed.

Lemma trim_loop_spec fuel l :
  length l ≤ fuel →
  trim_loop fuel l =
  drop_oldest record_terminal (countb record_terminal l - MAX_TERMINAL_EXECUTIONS) l.
Proof.
  revert l. induction fuel as [|fuel IH]; intros l Hl.
  { by destruct l; [|simpl in *; lia]. }
  simpl. destruct (trim_round l) as [l'|] eqn:Hr.
  - apply trim_round_Some in Hr as (Hn & Hl' & Hlen & Hc). rewrite IH by lia.
    replace (countb record_terminal l - MAX_TERMINAL_EXECUTIONS)
      with (S (countb record_terminal l' - MAX_TERMINAL_EXECUTIONS)) by lia.
    by rewrite (drop_oldest_S _ (_ - _)), Hl'.
  - unfold trim_round in Hr. destruct (_ <? _)%nat eqn:Hn.
    + destruct (position _ _) eqn:Hp; [done|]. rewrite drop_oldest_none; [done|].
      by apply position_None.
    + apply Nat.ltb_ge in Hn. replace (_ - _) with 0 by lia. by rewrite drop_oldest_0.
Qed.

Definition trim_records (l : list ExecutionRecord) : list ExecutionRecord :=
  drop_oldest record_terminal (countb record_terminal l - MAX_TERMINAL_EXECUTIONS) l.

Lemma trim_state_eq s : trim_state s = s <| pes_executions ::= trim_records |>.
Proof. unfold trim_state, set_field. simpl. by rewrite trim_loop_spec. Qed.

Lemma trim_sublist l : sublist (trim_records l) l.
Proof. apply drop_oldest_sublist. Qed.

Lemma countb_drop_oldest (p : ExecutionRecord → bool) n l :
  countb p (drop_oldest p n l) = countb p l - n.
Proof.
  revert n. induction l as [|x l IH]; intros n; simpl; [done|]. rewrite countb_cons.
  destruct (p x) eqn:Hx; simpl; [|rewrite countb_cons, Hx, IH; lia].
  destruct n; simpl; [rewrite countb_cons, Hx|]; rewrite IH; lia.
Qed.

Lemma countb_live_drop_oldest n l :
  countb (λ e, live e) (drop_oldest record_terminal n l) = countb (λ e, live e) l.
Proof.
  revert n. induction l as [|x l IH]; intros n; simpl; [done|]. rewrite countb_cons.
  destruct (record_terminal x) eqn:Hx; simpl.
  - destruct (0 <? n)%nat; [by rewrite IH|]. rewrite countb_cons, Hx, IH. done.
  - rewrite countb_cons, Hx, IH. done.
Qed.

Lemma trim_terminal_bound l : countb record_terminal (trim_records l) ≤ MAX_TERMINAL_EXECUTIONS.
Proof. unfold trim_records. rewrite countb_drop_oldest. lia. Qed.

Lemma trim_live l : countb (λ e, live e) (trim_records l) = countb (λ e, live e) l.
Proof. apply countb_live_drop_oldest. Qed.

Lemma trim_idle l :
  countb record_terminal l ≤ MAX_TERMINAL_EXECUTIONS → trim_records l = l.
Proof.
  intros Hn. unfold trim_records. replace (_ - _) with 0 by lia. apply drop_oldest_0.
Qed.

Lemma trim_keeps_live l e : e ∈ l → live e = true → e ∈ trim_records l.
Proof. intros He Hl%negb_true_iff. by apply drop_oldest_keeps. Qed.

(** ** Records evolve *)

Lemma Forall2_update_first {A} (R : A → A → Prop) (p : A → bool) f l :
  (∀ x, R x x) → (∀ x, List.find p l = Some x → R x (f x)) →
  Forall2 R l (update_first p f l).
Proof.
  intros Hrefl. induction l as [|x l IH]; intros Hf; simpl; [constructor|].
  simpl in Hf. destruct (p x); constructor; auto.
  clear -Hrefl. induction l; constructor; auto.
Qed.

Lemma Forall2_map_r {A} (R : A → A → Prop) f (l : list A) :
  (∀ x, x ∈ l → R x (f x)) → Forall2 R l (map f l).
Proof.
  induction l as [|x l IH]; intros Hf; simpl; constructor.
  - apply Hf. left.
  - apply IH. intros y Hy. apply Hf. by right.
Qed.

Lemma Forall2_same {A} (R : A → A → Prop) (l : list A) : (∀ x, R x x) → Forall2 R l l.
Proof. intros HR. induction l; constructor; auto. Qed.

(** The change one transaction may make to one record. [ended] are the ids whose
    cancellation signal the call forgets afterwards. *)
Record evolves (orphaning : option McpSessionId) (ended : list ExecutionId)
    (e e' : ExecutionRecord) : Prop := {
  ev_identity : (er_id e', er_task_id e', er_public_session_id e', er_started_at_ms e') =
                (er_id e, er_task_id e, er_public_session_id e, er_started_at_ms e);
  ev_terminal : record_terminal e = true → er_state e' = er_state e;
  ev_ended : record_terminal e = false → record_terminal e' = true → er_id e ∈ ended;
  ev_owner owner : record_terminal e = false → er_owner_session e = Some owner →
    er_owner_session e' = Some owner ∨
    orphaning = Some owner ∧ er_owner_session e' = None ∧ is_Some (er_orphaned_at_ms e')
}.

Lemma evolves_refl o ended e : evolves o ended e e.
Proof. split; try done; [congruence|]. by left. Qed.

Lemma evolves_id o ended e e' : evolves o ended e e' → er_id e' = er_id e.
Proof. by intros [[=] _ _ _]. Qed.
Lemma evolves_public o ended e e' :
  evolves o ended e e' → er_public_session_id e' = er_public_session_id e.
Proof. by intros [[=] _ _ _]. Qed.
#[export] Hint Resolve evolves_refl : core.

Section codec.
Context `{ExecutionCodec}.

(** The transactions of the registry, as one type. *)
Inductive operation :=
  | OpStart (now : millis) (id : ExecutionId) (token : AdoptionToken) (task : TaskId)
      (public : PublicSessionId) (owner : option McpSessionId)
  | OpBindOwner (id : ExecutionId) (owner : McpSessionId)
  | OpAdopt (now : millis) (next : AdoptionToken) (public : PublicSessionId)
      (token : AdoptionToken) (owner : McpSessionId)
  | OpTransfer (task : TaskId) (owner : McpSessionId)
  | OpBindHandle (id : ExecutionId) (handle : RuntimeCommandHandle)
  | OpFinish (id : ExecutionId) (terminal : ExecutionTerminal)
  | OpOrphan (now : millis) (owner : McpSessionId)
  | OpObserve (now : millis)
  | OpReap (now : millis).

Definition operation_name (op : operation) : string :=
  match op with
  | OpStart _ _ _ _ _ _ => "start"
  | OpBindOwner _ _ => "bind_owner"
  | OpAdopt _ _ _ _ _ => "adopt_owner"
  | OpTransfer _ _ => "transfer_workflow_executions"
  | OpBindHandle _ _ => "bind_runtime_handle"
  | OpFinish _ _ => "finish"
  | OpOrphan _ _ => "orphan_owner"
  | OpObserve _ => "observe"
  | OpReap _ => "reap_stale"
  end.

(** The mutation of an operation, returning the ids whose signal is forgotten. *)
Definition forgetting {A} (ended : A → list ExecutionId) (m : mutation A) :
    mutation (list ExecutionId) := λ s, fmap (M:=result _) (λ p, (p.1, ended p.2)) <$> m s.

Definition operation_mutation (op : operation) : mutation (list ExecutionId) :=
  match op with
  | OpStart now id token task public owner =>
      forgetting (λ _, []) (start_owned now id token task public owner)
  | OpBindOwner id owner => forgetting (λ _, []) (bind_owner id owner)
  | OpAdopt now next public token owner =>
      forgetting (λ _, []) (adopt_owner now next public token owner)
  | OpTransfer task owner =>
      forgetting (λ _, []) (transfer_orphaned_workflow_executions task owner)
  | OpBindHandle id handle => forgetting (λ _, []) (bind_runtime_handle id handle)
  | OpFinish id terminal => forgetting (λ _, [id]) (finish id terminal)
  | OpOrphan now owner => forgetting (λ _, []) (orphan_owned_by now owner)
  | OpObserve now => forgetting (λ _, []) (observe_all_running now)
  | OpReap now => forgetting id (reap_stale now)
  end.

Definition operation_orphans (op : operation) : option McpSessionId :=
  match op with OpOrphan _ owner => Some owner | _ => None end.

(** What an operation adds: only [start_owned] adds a record, a new live one. *)
Definition added_by (op : operation) (s : PersistedExecutionState) (new : list ExecutionRecord) :
    Prop :=
  match op with
  | OpStart now id token task public owner =>
      new = [MkExecutionRecord id task public owner (Some (hash_adoption_token token)) None
               ExecutionRunning now now None] ∧
      countb (λ e, live e) (pes_executions s) < MAX_ACTIVE_EXECUTIONS ∧
      ∀ e, e ∈ pes_executions s → er_public_session_id e ≠ public
  | _ => new = []
  end.

(** The effect of one successful operation, before trimming. *)
Record effect (op : operation) (s s' : PersistedExecutionState) (ended : list ExecutionId) :
    Prop := {
  ef_version : pes_version s' = pes_version s;
  ef_records : ∃ l' new, pes_executions s' = l' ++ new ∧
    Forall2 (evolves (operation_orphans op) ended) (pes_executions s) l' ∧ added_by op s new
}.

Lemma effect_update op s p f ended :
  (∀ s0 new, new = [] → added_by op s0 new) →
  (∀ x, List.find p (pes_executions s) = Some x → evolves (operation_orphans op) ended x (f x)) →
  effect op s (s <| pes_executions ::= update_first p f |>) ended.
Proof.
  intros Hadd Hf. split; [done|]. eexists _, []. rewrite app_nil_r. split; [done|].
  split; [|by apply Hadd]. apply Forall2_update_first; auto.
Qed.

Lemma effect_map op s f ended :
  (∀ s0 new, new = [] → added_by op s0 new) →
  (∀ x, x ∈ pes_executions s → evolves (operation_orphans op) ended x (f x)) →
  effect op s (s <| pes_executions ::= map f |>) ended.
Proof.
  intros Hadd Hf. split; [done|]. eexists _, []. rewrite app_nil_r. split; [done|].
  split; [|by apply Hadd]. by apply Forall2_map_r.
Qed.

Lemma effect_none op s ended :
  (∀ s0 new, new = [] → added_by op s0 new) → effect op s s ended.
Proof.
  intros Hadd. split; [done|]. exists (pes_executions s), []. rewrite app_nil_r.
  split; [done|]. split; [by apply Forall2_same|by apply Hadd].
Qed.

Lemma forgetting_Ok {A} (ended : A → list ExecutionId) (m : mutation A) s s' l :
  forgetting ended m s = Some (Ok (s', l)) → ∃ a, m s = Some (Ok (s', a)) ∧ l = ended a.
Proof.
  unfold forgetting. destruct (m s) as [[[s1 a]|e]|]; simpl; [|done..].
  intros [= <- <-]. eauto.
Qed.

Lemma find_by_id id l e :
  List.find (by_id id) l = Some e → e ∈ l ∧ er_id e = id.
Proof. by intros [? ?%bool_decide_eq_true]%find_Some_elem. Qed.

Lemma find_by_public id l e :
  List.find (by_public_session id) l = Some e → e ∈ l ∧ er_public_session_id e = id.
Proof. by intros [? ?%bool_decide_eq_true]%find_Some_elem. Qed.

(** Changing only the owner of an ownerless record, or a hidden field. *)
Ltac evolve :=
  split; unfold record_terminal in *; simpl in *; try done; try congruence; try by left.

Lemma start_effect now id token task public owner s s' l :
  operation_mutation (OpStart now id token task public owner) s = Some (Ok (s', l)) →
  effect (OpStart now id token task public owner) s s' l.
Proof.
  intros (a & Ha & ->)%forgetting_Ok. unfold start_owned in Ha.
  destruct (_ <=? _)%nat eqn:Hn; [done|]. apply Nat.leb_gt in Hn.
  destruct (existsb _ _) eqn:Hex; [done|]. simplify_eq/=. split; [done|].
  eexists _, _. split; [done|]. split; [by apply Forall2_same|]. split_and!; [done..|].
  intros e He Heq. apply not_true_iff_false in Hex. apply Hex, existsb_exists.
  exists e. split; [by apply list_elem_of_In|]. by apply bool_decide_eq_true.
Qed.

Lemma bind_owner_effect id owner s s' l :
  operation_mutation (OpBindOwner id owner) s = Some (Ok (s', l)) →
  effect (OpBindOwner id owner) s s' l.
Proof.
  intros (a & Ha & ->)%forgetting_Ok. unfold bind_owner in Ha.
  destruct (List.find _ _) as [e|] eqn:Hf; simpl in Ha; [|done].
  destruct (er_owner_session e) as [existing|] eqn:Ho.
  - case_bool_decide; simplify_eq/=. by apply effect_none.
  - simplify_eq/=. apply effect_update; [done|].
    intros x Hx. rewrite Hf in Hx. simplify_eq. evolve.
Qed.

Lemma adopt_Ok now next public token owner s s' a :
  adopt_owner now next public token owner s = Some (Ok (s', a)) →
  ∃ e, List.find (by_public_session public) (pes_executions s) = Some e ∧
    record_terminal e = false ∧ er_owner_session e = None ∧ is_Some (er_orphaned_at_ms e) ∧
    er_adoption_token_hash e = Some (hash_adoption_token token) ∧
    let adopt e := e <| er_owner_session := Some owner |>
      <| er_adoption_token_hash := Some (hash_adoption_token next) |>
      <| er_orphaned_at_ms := None |> <| er_last_observed_at_ms := now |> in
    s' = s <| pes_executions ::= update_first (by_public_session public) adopt |> ∧
    a = MkAdoptedExecution (adopt e) next.
Proof.
  unfold adopt_owner. destruct (List.find _ _) as [e|] eqn:Hf; simpl; [|done].
  unfold record_terminal. destruct (er_state e) eqn:Hst; [| |done];
    (destruct (er_owner_session e) eqn:Ho; [done|];
     destruct (er_orphaned_at_ms e) eqn:Hor; [|done]; case_bool_decide; [|done]; simpl;
     intros [= <- <-]; exists e; rewrite Hst; by split_and!).
Qed.

Lemma adopt_effect now next public token owner s s' l :
  operation_mutation (OpAdopt now next public token owner) s = Some (Ok (s', l)) →
  effect (OpAdopt now next public token owner) s s' l.
Proof.
  intros (a & (e & Hf & Hl & Ho & _ & _ & -> & _)%adopt_Ok & ->)%forgetting_Ok.
  apply effect_update; [done|]. intros x Hx. rewrite Hf in Hx. simplify_eq. split; simpl; try done.
  - unfold record_terminal in *. simpl in *. congruence.
  - congruence.
Qed.

Lemma transfer_conflict_None task owner l e :
  transfer_conflict task owner l = None → e ∈ l → er_task_id e = task →
  record_terminal e = true ∨ er_owner_session e = Some owner ∨
  er_owner_session e = None ∧ is_Some (er_orphaned_at_ms e).
Proof.
  induction l as [|x l IH]; simpl; [by intros _ ?%elem_of_nil|].
  rewrite elem_of_cons. intros Hc [->|Hin] Ht.
  - rewrite bool_decide_eq_true_2 in Hc by done. simpl in Hc.
    destruct (record_terminal x); [by left|right]. simpl in Hc.
    case_bool_decide; [by left|right].
    destruct (er_owner_session x); [done|]. by destruct (er_orphaned_at_ms x).
  - apply IH; [|done..]. case_bool_decide; [|done]. simpl in Hc.
    destruct (_ || _); [done|]. destruct (er_owner_session x); [done|].
    by destruct (er_orphaned_at_ms x).
Qed.

Lemma transfer_effect task owner s s' l :
  operation_mutation (OpTransfer task owner) s = Some (Ok (s', l)) →
  effect (OpTransfer task owner) s s' l.
Proof.
  intros (a & Ha & ->)%forgetting_Ok. unfold transfer_orphaned_workflow_executions in Ha.
  destruct (transfer_conflict _ _ _) eqn:Hc; [done|]. simplify_eq/=.
  apply effect_map; [done|]. intros e He. case_bool_decide as Ht; [|done].
  split; simpl; try done; [unfold record_terminal; simpl; congruence|].
  intros o Hl Ho. destruct (transfer_conflict_None _ _ _ _ Hc He Ht) as [?|[?|[? _]]];
    [congruence|left; congruence|congruence].
Qed.

Lemma bind_handle_effect id handle s s' l :
  operation_mutation (OpBindHandle id handle) s = Some (Ok (s', l)) →
  effect (OpBindHandle id handle) s s' l.
Proof.
  intros (a & Ha & ->)%forgetting_Ok. unfold bind_runtime_handle in Ha.
  destruct (existsb _ _); [done|]. destruct (List.find _ _) as [e|] eqn:Hf; simpl in Ha; [|done].
  destruct (er_runtime_handle e).
  - case_bool_decide; simplify_eq/=. by apply effect_none.
  - simplify_eq/=. apply effect_update; [done|]. intros x _. evolve.
Qed.

Lemma finish_effect id terminal s s' l :
  operation_mutation (OpFinish id terminal) s = Some (Ok (s', l)) →
  effect (OpFinish id terminal) s s' l.
Proof.
  intros (a & Ha & ->)%forgetting_Ok. unfold finish in Ha.
  destruct (List.find _ _) as [e|] eqn:Hf; [|done].
  destruct (er_state e) as [| |existing] eqn:Hst.
  3:{ case_bool_decide; simplify_eq/=. by apply effect_none. }
  all: apply bind_Some in Ha as (t & _ & Ha); simplify_eq/=; apply effect_update; [done|];
    intros x Hx; rewrite Hf in Hx; injection Hx as <-; apply find_by_id in Hf as [_ <-];
    split; simpl; [done|unfold record_terminal; by rewrite Hst|intros; left|by left].
Qed.

Lemma orphan_effect now owner s s' l :
  operation_mutation (OpOrphan now owner) s = Some (Ok (s', l)) →
  effect (OpOrphan now owner) s s' l.
Proof.
  intros (a & Ha & ->)%forgetting_Ok. unfold orphan_owned_by in Ha. simplify_eq/=.
  apply effect_map; [done|]. intros e _. unfold owned_live. destruct (record_terminal e) eqn:Ht;
    simpl; [done|]. case_bool_decide as Ho; [|done]. split; simpl; try done.
  - unfold record_terminal. simpl. congruence.
  - intros o _ Heq. right. split_and!; [congruence|done|by eexists].
Qed.

Lemma observe_effect now s s' l :
  operation_mutation (OpObserve now) s = Some (Ok (s', l)) → effect (OpObserve now) s s' l.
Proof.
  intros (a & Ha & ->)%forgetting_Ok. unfold observe_all_running in Ha. simplify_eq/=.
  apply effect_map; [done|]. intros e _. destruct (is_running e); [|done]. evolve.
Qed.

Lemma reap_effect now s s' l :
  operation_mutation (OpReap now) s = Some (Ok (s', l)) → effect (OpReap now) s s' l.
Proof.
  intros (a & Ha & ->)%forgetting_Ok. unfold reap_stale in Ha. simplify_eq/=.
  apply effect_map; [done|]. intros e He. destruct (stale now e) eqn:Hs; [|done].
  assert (er_id e ∈ er_id <$> List.filter (stale now) (pes_executions s)) as Hin.
  { apply list_elem_of_fmap. exists e. split; [done|]. by apply filterb_elem. }
  unfold stale in Hs. apply andb_true_iff in Hs as [Hl%negb_true_iff _].
  split; simpl; try done; [congruence|by left].
Qed.

(** Every operation of the registry has an [effect]. *)
Lemma operation_effect op s s' l :
  operation_mutation op s = Some (Ok (s', l)) → effect op s s' l.
Proof.
  destruct op; eauto using start_effect, bind_owner_effect, adopt_effect, transfer_effect,
    bind_handle_effect, finish_effect, orphan_effect, observe_effect, reap_effect.
Qed.

(** ** What a transaction and a write of the file can change *)

Lemma temp_path_ne io path : temp_path io path ≠ path.
Proof.
  destruct path as [d f]. unfold temp_path. simpl. intros [= Hf].
  assert (∀ s1 s2, String.length (s1 +:+ s2) = String.length s1 + String.length s2) as Happ.
  { induction s1 as [|c s1 IH]; intros s2; simpl; [done|]. by rewrite IH. }
  apply (f_equal String.length) in Hf. simpl in Hf. rewrite !Happ in Hf. lia.
Qed.

Lemma persist_state_spec io path s fs fs' r :
  persist_state io path s fs = (fs', r) →
  (∃ e, r = Err e ∧ fs' !! path = fs !! path) ∨
  r = Ok () ∧ ∃ bytes, to_vec_pretty s = Some bytes ∧ fs' !! path = Some (bytes ++ [10%N]).
Proof.
  unfold persist_state. pose proof (temp_path_ne io path) as Hne.
  assert (∀ f v, (remove_temp io (temp_path io path) (<[temp_path io path := v]> f)) !! path =
                 f !! path) as Hrm.
  { intros f v. unfold remove_temp, FileSystem in *. destruct (io_remove_temp io).
    - transitivity (<[temp_path io path := v]> f !! path); [by apply lookup_delete_ne|].
      by apply lookup_insert_ne.
    - by apply lookup_insert_ne. }
  destruct (negb _); [intros [= <- <-]; left; eauto|].
  destruct (to_vec_pretty s) as [bytes|]; [|intros [= <- <-]; left; eauto].
  destruct (_ || _); [intros [= <- <-]; left; eauto|].
  destruct (negb (io_write_temp io)); [intros [= <- <-]; left; eauto|].
  destruct (negb (io_replace io)); intros [= <- <-]; [left; eauto|right].
  split; [done|]. exists bytes. split; [done|]. apply lookup_insert_eq.
Qed.

Lemma transact_spec {A} io name (m : mutation A) inner fs inner' fs' r :
  transact io name m inner fs = (inner', fs', r) →
  (inner' = inner ∧ fs' !! eri_path inner = fs !! eri_path inner ∧ ∀ a, r ≠ Returned (Ok a)) ∨
  ∃ next a bytes, m (eri_state inner) = Some (Ok (next, a)) ∧ r = Returned (Ok a) ∧
    inner' = inner <| eri_state := trim_state next |> ∧
    to_vec_pretty (trim_state next) = Some bytes ∧
    fs' !! eri_path inner = Some (bytes ++ [10%N]).
Proof.
  unfold transact. destruct (m _) as [[[next a]|e]|] eqn:Hm.
  - destruct (persist_state _ _ _ _) as [fs1 r1] eqn:Hp.
    apply persist_state_spec in Hp as [(e & -> & Hfs)|(-> & bytes & Hb & Hfs)].
    + intros [= <- <- <-]. by left.
    + intros [= <- <- <-]. right. eauto 10.
  - intros [= <- <- <-]. by left.
  - intros [= <- <- <-]. by left.
Qed.
End codec.

(** Retention is by start order: when 64 commands that were started later have
    finished, the outcome of a longer running one is dropped by the very
    transaction that records it. *)
Lemma finish_may_evict_itself e terminal t l :
  er_state e = ExecutionRunning → sanitize_terminal terminal = Some t →
  Forall (λ e, record_terminal e = true) l → length l = MAX_TERMINAL_EXECUTIONS →
  ∃ s', finish (er_id e) terminal (MkPersistedExecutionState EXECUTION_STATE_VERSION (e :: l)) =
          Some (Ok (s', ())) ∧
        pes_executions (trim_state s') = l.
Proof.
  intros Hst Ht Hl Hlen. eexists. split.
  - unfold finish, by_id. simpl. rewrite bool_decide_eq_true_2, Hst, Ht by done. done.
  - assert (countb record_terminal l = MAX_TERMINAL_EXECUTIONS) as Hc.
    { rewrite <-Hlen. clear -Hl. induction Hl as [|x l Hx Hl IH]; [done|].
      rewrite countb_cons, Hx, IH. done. }
    rewrite trim_state_eq. simpl. unfold by_id. rewrite bool_decide_eq_true_2 by done.
    unfold trim_records. rewrite countb_cons, Hc.
    cbn [record_terminal execution_is_terminal er_state set_field].
    replace (_ - _) with 1 by (simpl; lia). simpl. apply drop_oldest_0.
Qed.
