(* ===== verification/ExecutionProperties.v ===== *)
(** * ExecutionProperties: the execution registry across crashes

    The registry as a machine over memory and file system: transactions (which
    may fail at any system call), cancellation signals, the second critical
    sections of [finish] and [reap_stale], and restarts of the process, which
    may happen between any two steps. *)

From S2P Require Import Prelude Text Domain ExecutionRegistry ExecutionFacts.

(** ** The machine *)

Record World := MkWorld {
  w_inner : ExecutionRegistryInner;
  w_fs : FileSystem;
  (** executions whose second critical section has not run yet *)
  w_pending : gset ExecutionId
}.
#[export] Instance eta_World : Eta World := λ r, MkWorld (w_inner r) (w_fs r) (w_pending r).

Definition executions (w : World) : list ExecutionRecord := pes_executions (eri_state (w_inner w)).
Definition state_file (w : World) : option bytes := w_fs w !! eri_path (w_inner w).
Definition signals (w : World) : gmap ExecutionId string := eri_cancellation_signals (w_inner w).

Section codec.
Context `{ExecutionCodec}.

(** [next_execution_id] is random: a started execution has a new id. *)
Definition fresh_operation (op : operation) (w : World) : Prop :=
  match op with
  | OpStart _ id _ _ _ _ => ∀ e, e ∈ executions w → er_id e ≠ id
  | _ => True
  end.

Inductive world_step : World → World → Prop :=
  | StepCommit io op inner fs ended w :
      fresh_operation op w →
      transact io (operation_name op) (operation_mutation op) (w_inner w) (w_fs w) =
        (inner, fs, Returned (Ok ended)) →
      world_step w (MkWorld inner fs (list_to_set ended ∪ w_pending w))
  | StepReject io op inner fs e w :
      transact io (operation_name op) (operation_mutation op) (w_inner w) (w_fs w) =
        (inner, fs, Returned (Err e)) →
      world_step w (MkWorld inner fs (w_pending w))
  | StepRequestCancellation public signal inner r w :
      request_cancellation public signal (w_inner w) = (inner, Returned r) →
      world_step w (w <| w_inner := inner |>)
  | StepClearCancellation public w :
      world_step w (w <| w_inner ::= clear_cancellation public |>)
  | StepForget lost w :
      world_step w (w <| w_inner ::= forget_signals lost |>
                      <| w_pending ::= (.∖ list_to_set lost) |>)
  | StepRestart clock now io read_ok inner fs w :
      open_at clock now io read_ok (eri_path (w_inner w)) (w_fs w) = (fs, Returned (Ok inner)) →
      world_step w (MkWorld inner fs ∅).

(** A first run: no state file, an empty registry. *)
#[export] Instance execution_machine : StateMachine World := {|
  sm_init w := ∃ path fs, fs !! path = None ∧
    w = MkWorld (MkExecutionRegistryInner path default_state ∅) fs ∅;
  sm_step := world_step
|}.

(** What a restart makes of the records it reads. *)
Definition loaded (clock : nat → millis) (l : list ExecutionRecord) : list ExecutionRecord :=
  trim_records (imap (recover_record clock) (map repair_observed l)).

Lemma imap_recover_terminal clock l :
  Forall (λ e, record_terminal e = true) l → imap (recover_record clock) l = l.
Proof.
  intros Hl. revert clock. induction Hl as [|e l He Hl IH]; intros clock; simpl; [done|].
  unfold recover_record at 1. rewrite He. f_equal. apply (IH (clock ∘ S)).
Qed.

Lemma recover_record_terminal clock i e : record_terminal (recover_record clock i e) = true.
Proof. unfold recover_record. by destruct (record_terminal e) eqn:He. Qed.

Lemma loaded_terminal clock l : Forall (λ e, record_terminal e = true) (loaded clock l).
Proof.
  apply Forall_forall. intros e He. eapply sublist_mem in He; [|apply trim_sublist].
  apply elem_of_lookup_imap in He as (i & e0 & -> & _). apply recover_record_terminal.
Qed.

Lemma loaded_ids {A} (f : ExecutionRecord → A) clock l :
  (∀ i e, f (recover_record clock i e) = f e) → (∀ e, f (repair_observed e) = f e) →
  sublist (f <$> loaded clock l) (f <$> l).
Proof.
  intros Hr Ho. etransitivity; [apply sublist_fmap, trim_sublist|].
  assert (f <$> imap (recover_record clock) (map repair_observed l) = f <$> l) as ->; [|done].
  rewrite fmap_imap. revert clock Hr. induction l as [|e l IH]; intros clock Hr; simpl; [done|].
  f_equal; [by rewrite Hr|]. apply (IH (clock ∘ S)). intros i e'. by apply (Hr (S i)).
Qed.

Lemma countb_all (p : ExecutionRecord → bool) l :
  Forall (λ e, p e = true) l → countb p l = length l ∧ countb (λ e, negb (p e)) l = 0.
Proof.
  induction 1 as [|e l He Hl [IH1 IH2]]; [done|]. rewrite !countb_cons, He. simpl. lia.
Qed.

Lemma repair_idem e : repair_observed (repair_observed e) = repair_observed e.
Proof.
  unfold repair_observed. destruct (er_last_observed_at_ms e =? 0)%N eqn:Hz; simpl; [|by rewrite Hz].
  by destruct (er_started_at_ms e =? 0)%N.
Qed.

Lemma durable_repair e :
  durable_record (repair_observed (durable_record e)) = repair_observed (durable_record e).
Proof. unfold repair_observed. by destruct (_ =? 0)%N. Qed.

(** Loading an already repaired list of terminal records changes nothing more. *)
Lemma loaded_again clock clock' l :
  Forall (λ e, record_terminal e = true) (map repair_observed (map durable_record l)) →
  loaded clock (map durable_record l) =
  loaded clock (map durable_record (loaded clock' (map durable_record l))).
Proof.
  intros Hterm. unfold loaded at 1 3. rewrite !imap_recover_terminal by done.
  set (L := map repair_observed (map durable_record l)) in *.
  assert (∀ e, e ∈ trim_records L →
    durable_record e = e ∧ repair_observed e = e ∧ record_terminal e = true) as HL.
  { intros e He. eapply sublist_mem in He; [|apply trim_sublist].
    split_and!; [| |by eapply Forall_forall in Hterm].
    all: subst L; rewrite map_map in He;
      apply list_elem_of_In, in_map_iff in He as (e0 & <- & _);
      auto using durable_repair, repair_idem. }
  assert (∀ f : ExecutionRecord → ExecutionRecord, (∀ e, e ∈ trim_records L → f e = e) →
    map f (trim_records L) = trim_records L) as Hmap.
  { intros f Hf. clear -Hf. induction (trim_records L) as [|e m IH]; [done|]. simpl.
    rewrite Hf by left. f_equal. apply IH. intros x Hx. apply Hf. by right. }
  unfold loaded. rewrite !Hmap by (intros; by apply HL).
  rewrite imap_recover_terminal.
  - symmetry. apply trim_idle, trim_terminal_bound.
  - apply Forall_forall. intros e He. by apply HL.
Qed.

(** ** Opening a file the registry wrote *)

Lemma existsb_live_false l :
  existsb (λ e, negb (record_terminal e)) l = false →
  Forall (λ e, record_terminal e = true) l.
Proof.
  intros Hex. apply Forall_forall. intros e He. apply not_false_iff_true. intros Hn.
  apply not_true_iff_false in Hex. apply Hex, existsb_exists. exists e.
  by rewrite <-list_elem_of_In, Hn.
Qed.

Lemma open_written clock now io path fs bytes s1 fs' c :
  fs !! path = Some bytes → from_slice_state bytes = Some (durable s1) →
  pes_version s1 = EXECUTION_STATE_VERSION →
  open_at clock now io true path fs = (fs', c) →
  let l := map durable_record (pes_executions s1) in
  let s := MkPersistedExecutionState EXECUTION_STATE_VERSION (loaded clock l) in
  (c = Returned (Ok (MkExecutionRegistryInner path s ∅)) ∧
   (fs' !! path = Some bytes ∧ Forall (λ e, record_terminal e = true) (map repair_observed l) ∨
    ∃ bytes', to_vec_pretty s = Some bytes' ∧ fs' !! path = Some (bytes' ++ [10%N]))) ∨
  ∃ e, c = Returned (Err e) ∧ persist_state io path s fs = (fs', Err e) ∧
       fs' !! path = Some bytes.
Proof.
  intros Hb Hs Hv. unfold open_at. rewrite Hb. unfold decode_state. rewrite Hs.
  assert (pes_version (durable s1) = EXECUTION_STATE_VERSION) as -> by done.
  rewrite bool_decide_eq_true_2 by (vm_compute; repeat constructor). rewrite N.eqb_refl.
  rewrite trim_state_eq. simpl. intros Ho.
  change (trim_records (imap (recover_record clock)
    (map repair_observed (map durable_record (pes_executions s1)))))
    with (loaded clock (map durable_record (pes_executions s1))) in Ho.
  destruct (existsb _ _) eqn:Hex.
  - destruct (persist_state _ _ _ _) as [fs1 r1] eqn:Hp. injection Ho as <- <-.
    pose proof Hp as Hp'.
    apply persist_state_spec in Hp' as [(e & -> & Hfs)|(-> & bytes' & Hb' & Hfs)].
    + right. exists e. rewrite Hfs. done.
    + left. split; [done|]. right. by exists bytes'.
  - injection Ho as <- <-. left. split; [done|left]. split; [done|]. by apply existsb_live_false.
Qed.

(** ** The invariant *)

Definition disk_agrees (w : World) : Prop :=
  match state_file w with
  | None => executions w = []
  | Some bytes => ∃ s1, from_slice_state bytes = Some (durable s1) ∧
      pes_version s1 = EXECUTION_STATE_VERSION ∧
      ∀ clock, loaded clock (map durable_record (pes_executions s1)) =
               loaded clock (map durable_record (executions w))
  end.

Record exec_inv (w : World) : Prop := {
  xi_version : pes_version (eri_state (w_inner w)) = EXECUTION_STATE_VERSION;
  xi_live : countb (λ e, live e) (executions w) ≤ MAX_ACTIVE_EXECUTIONS;
  xi_terminal : countb record_terminal (executions w) ≤ MAX_TERMINAL_EXECUTIONS;
  xi_public : NoDup (er_public_session_id <$> executions w);
  xi_ids : NoDup (er_id <$> executions w);
  xi_disk : disk_agrees w;
  xi_signals id : is_Some (signals w !! id) →
    id ∈ w_pending w ∨ ∃ e, e ∈ executions w ∧ er_id e = id ∧ record_terminal e = false
}.

(** Memory and file may only change together. *)
Lemma exec_inv_weaken w w' :
  exec_inv w → eri_state (w_inner w') = eri_state (w_inner w) →
  state_file w' = state_file w →
  (∀ id, is_Some (signals w' !! id) →
     id ∈ w_pending w' ∨ ∃ e, e ∈ executions w ∧ er_id e = id ∧ record_terminal e = false) →
  exec_inv w'.
Proof.
  intros HI Hs Hf Hsig. assert (executions w' = executions w) as He
    by (unfold executions; by rewrite Hs).
  split; rewrite ?He, ?Hs; try apply HI.
  - unfold disk_agrees. rewrite Hf, He. apply (xi_disk _ HI).
  - done.
Qed.

Lemma evolves_fmap {A} (f : ExecutionRecord → A) o ended l l' :
  (∀ e e', evolves o ended e e' → f e' = f e) →
  Forall2 (evolves o ended) l l' → f <$> l' = f <$> l.
Proof. intros Hf. induction 1; simpl; [done|]. f_equal; [by eapply Hf|done]. Qed.

Lemma evolves_live_count o ended l l' :
  Forall2 (evolves o ended) l l' →
  countb (λ e, live e) l' ≤ countb (λ e, live e) l.
Proof.
  induction 1 as [|e e' l l' He Hl IH]; [done|]. rewrite !countb_cons.
  destruct (record_terminal e) eqn:Ht; simpl.
  - pose proof (ev_terminal _ _ _ _ He Ht) as Hst. unfold record_terminal in *.
    rewrite Hst, Ht. simpl. lia.
  - destruct (record_terminal e'); simpl; lia.
Qed.

Lemma NoDup_snoc {A} (l : list A) x : NoDup l → x ∉ l → NoDup (l ++ [x]).
Proof.
  intros Hl Hx. apply NoDup_app. split_and!; [done| |apply NoDup_singleton].
  intros y Hy ->%list_elem_of_singleton. done.
Qed.

Lemma list_elem_of_fmap_not {A B} (f : A → B) (l : list A) y :
  (∀ x, x ∈ l → f x ≠ y) → y ∉ f <$> l.
Proof. intros Hf (x & -> & Hx)%list_elem_of_fmap. by eapply Hf. Qed.

Lemma exec_inv_commit `{!ExecutionCodecLaws} io op inner fs ended w :
  exec_inv w → fresh_operation op w →
  transact io (operation_name op) (operation_mutation op) (w_inner w) (w_fs w) =
    (inner, fs, Returned (Ok ended)) →
  exec_inv (MkWorld inner fs (list_to_set ended ∪ w_pending w)).
Proof.
  intros HI Hfresh [(_ & _ & Hr)|(next & a & bytes & Hm & Hr & -> & Hb & Hf)]%transact_spec;
    [by destruct (Hr ended)|].
  simplify_eq. rewrite trim_state_eq in *. apply operation_effect in Hm as [Hv Hrec].
  destruct Hrec as (l' & new & Hl & Hev & Hnew).
  change (pes_executions (eri_state (w_inner w))) with (executions w) in Hev.
  assert (er_public_session_id <$> l' = er_public_session_id <$> executions w) as Hpub
    by (eapply evolves_fmap; [apply evolves_public|done]).
  assert (er_id <$> l' = er_id <$> executions w) as Hid
    by (eapply evolves_fmap; [apply evolves_id|done]).
  pose proof (evolves_live_count _ _ _ _ Hev) as Hlive. pose proof (xi_live _ HI) as Hlive'.
  split; unfold executions, signals; simpl.
  - rewrite Hv. apply HI.
  - rewrite trim_live, Hl. autorewrite with counts.
    assert (countb (λ e, live e) (executions w) + countb (λ e, live e) new ≤
            MAX_ACTIVE_EXECUTIONS); [|lia].
    destruct op; cbn [added_by] in Hnew; subst; rewrite ?countb_nil; try lia.
    destruct Hnew as (-> & Hn & _). unfold executions. rewrite countb_cons, countb_nil.
    cbn [record_terminal execution_is_terminal er_state negb]. lia.
  - apply trim_terminal_bound.
  - eapply sublist_nodup; [apply sublist_fmap, trim_sublist|]. rewrite Hl, fmap_app, Hpub.
    destruct op; simpl in Hnew; subst; simpl; rewrite ?app_nil_r; try apply HI.
    destruct Hnew as (-> & _ & Hn). simpl. apply NoDup_snoc; [apply HI|].
    by apply list_elem_of_fmap_not.
  - eapply sublist_nodup; [apply sublist_fmap, trim_sublist|]. rewrite Hl, fmap_app, Hid.
    destruct op; simpl in Hnew; subst; simpl; rewrite ?app_nil_r; try apply HI.
    destruct Hnew as (-> & _ & _). simpl. apply NoDup_snoc; [apply HI|].
    by apply list_elem_of_fmap_not.
  - unfold disk_agrees, state_file. simpl. rewrite Hf.
    exists (next <| pes_executions ::= trim_records |>). split_and!; [by apply from_slice_to_vec| |].
    + simpl. rewrite Hv. apply HI.
    + done.
  - intros id Hs. apply (xi_signals _ HI) in Hs as [Hs|(e & He & <- & Ht)].
    { left. set_solver. }
    apply list_elem_of_lookup in He as [i Hi].
    destruct (Forall2_lookup_l _ _ _ _ _ Hev Hi) as (e' & Hi' & He').
    destruct (record_terminal e') eqn:Ht'.
    + left. apply elem_of_union_l, elem_of_list_to_set. by apply (ev_ended _ _ _ _ He').
    + right. exists e'. split_and!; [|by eapply evolves_id|done].
      apply trim_keeps_live; [|by rewrite Ht']. rewrite Hl, elem_of_app. left.
      by eapply list_elem_of_lookup_2.
Qed.

(** A file that could not be read is an error; otherwise reading did not fail. *)
Lemma open_read_ok clock now io read_ok path fs fs' inner :
  open_at clock now io read_ok path fs = (fs', Returned (Ok inner)) →
  open_at clock now io true path fs = (fs', Returned (Ok inner)).
Proof. unfold open_at. destruct read_ok; [done|]. by destruct (fs !! path). Qed.

Lemma exec_inv_restart `{!ExecutionCodecLaws} clock now io read_ok inner fs w :
  exec_inv w →
  open_at clock now io read_ok (eri_path (w_inner w)) (w_fs w) = (fs, Returned (Ok inner)) →
  exec_inv (MkWorld inner fs ∅).
Proof.
  intros HI Ho%open_read_ok. pose proof (xi_disk _ HI) as Hd. unfold disk_agrees, state_file in Hd.
  destruct (w_fs w !! eri_path (w_inner w)) as [bytes|] eqn:Hb.
  - destruct Hd as (s1 & Hs1 & Hv & Hagree).
    destruct (open_written clock now io _ _ bytes s1 fs _ Hb Hs1 Hv Ho)
      as [(Hc & Hfile)|(e & He & _)]; [|congruence].
    injection Hc as ->. pose proof (loaded_terminal clock (map durable_record (pes_executions s1)))
      as Hterm. pose proof (countb_all _ _ Hterm) as [Ht Hl].
    split; unfold executions, signals; simpl; try done.
    + rewrite Hl. lia.
    + apply trim_terminal_bound.
    + rewrite Hagree. eapply sublist_nodup; [apply loaded_ids|].
      * intros i e. unfold recover_record. by destruct (record_terminal e).
      * intros e. unfold repair_observed. by destruct (_ =? 0)%N.
      * rewrite <-list_fmap_compose. apply (xi_public _ HI).
    + rewrite Hagree. eapply sublist_nodup; [apply loaded_ids|].
      * intros i e. unfold recover_record. by destruct (record_terminal e).
      * intros e. unfold repair_observed. by destruct (_ =? 0)%N.
      * rewrite <-list_fmap_compose. apply (xi_ids _ HI).
    + unfold disk_agrees, state_file. simpl.
      destruct Hfile as [[-> Hrep]|(bytes' & Hb' & ->)].
      * exists s1. split_and!; [done..|]. intros clock'. by apply loaded_again.
      * eexists. split; [by apply from_slice_to_vec|]. split; [done|]. done.
    + intros id. rewrite lookup_empty. by intros [? ?].
  - unfold open_at in Ho. rewrite Hb in Ho. simpl in Ho. injection Ho as <- <-.
    split; unfold executions, signals; simpl; try (by apply NoDup_nil); try done.
    + apply Nat.le_0_l.
    + apply Nat.le_0_l.
    + unfold disk_agrees, state_file. simpl. by rewrite Hb.
    + intros id. rewrite lookup_empty. by intros [? ?].
Qed.

Lemma exec_inv_request public signal inner r w :
  exec_inv w → request_cancellation public signal (w_inner w) = (inner, Returned r) →
  exec_inv (w <| w_inner := inner |>).
Proof.
  intros HI. unfold request_cancellation.
  destruct (List.find _ _) as [e|] eqn:Hf; [|intros [= <- _]; by destruct w].
  apply find_by_public in Hf as [Hin _].
  assert (record_terminal e = false → ∀ token,
    exec_inv (w <| w_inner := w_inner w <| eri_cancellation_signals ::= <[er_id e := token]> |> |>))
    as Hlive.
  { intros Ht token. eapply exec_inv_weaken; [done..|]. unfold signals. simpl.
    intros id [<-|[_ Hs]]%lookup_insert_is_Some; [right; by exists e|].
    by apply (xi_signals _ HI). }
  unfold record_terminal in Hlive.
  destruct (er_state e); [| |intros [= <- _]; by destruct w];
    (destruct (bounded_token signal) as [token|]; [|done]; intros [= <- _]; by apply Hlive).
Qed.

Lemma forget_signals_eq lost inner :
  eri_state (forget_signals lost inner) = eri_state inner ∧
  eri_path (forget_signals lost inner) = eri_path inner ∧
  ∀ id, eri_cancellation_signals (forget_signals lost inner) !! id =
        if decide (id ∈ lost) then None else eri_cancellation_signals inner !! id.
Proof.
  revert inner. induction lost as [|x lost IH]; intros inner.
  - split_and!; [done..|]. intros id. rewrite decide_False by apply not_elem_of_nil. done.
  - unfold forget_signals in *. cbn [fold_left].
    destruct (IH (forget_signal x inner)) as (-> & -> & Hl). split_and!; [done..|].
    intros id. rewrite Hl. cbn [forget_signal]. unfold forget_signal. cbn.
    destruct (decide (id ∈ lost)) as [Hin|Hin].
    + rewrite decide_True by (by right). done.
    + destruct (decide (id = x)) as [->|Hne].
      * rewrite decide_True by left. apply lookup_delete_eq.
      * rewrite decide_False by (rewrite elem_of_cons; tauto). by apply lookup_delete_ne.
Qed.

#[export] Instance execution_invariant `{!ExecutionCodecLaws} : Invariant exec_inv.
Proof.
  split.
  - intros ? (path & fs & Hfs & ->).
    split; unfold executions, signals; simpl; try (by apply NoDup_nil); try done; try apply Nat.le_0_l.
    + unfold disk_agrees, state_file. simpl. by rewrite Hfs.
    + intros id. rewrite lookup_empty. by intros [? ?].
  - intros w w' HI Hs. destruct Hs as [io op inner fs ended w Hfresh Ht|io op inner fs e w Ht
      |public signal inner r w Hr|public w|lost w|clock now io read_ok inner fs w Ho].
    + by eapply exec_inv_commit.
    + apply transact_spec in Ht as [(-> & Hf & _)|(next & a & bytes & _ & Hr & _)]; [|done].
      eapply exec_inv_weaken; [done|done|done|]. apply (xi_signals _ HI).
    + by eapply exec_inv_request.
    + assert (eri_state (clear_cancellation public (w_inner w)) = eri_state (w_inner w) ∧
              eri_path (clear_cancellation public (w_inner w)) = eri_path (w_inner w) ∧
              ∀ id, is_Some (eri_cancellation_signals (clear_cancellation public (w_inner w)) !! id)
                    → is_Some (signals w !! id)) as (Hst & Hp & Hsub).
      { unfold clear_cancellation. destruct (List.find _ _) as [e|]; [|done].
        split_and!; [done..|]. intros id. simpl. rewrite lookup_delete_is_Some. tauto. }
      eapply exec_inv_weaken; [done|done| |].
      * unfold state_file. simpl. by rewrite Hp.
      * intros id Hs. apply (xi_signals _ HI). by apply Hsub.
    + destruct (forget_signals_eq lost (w_inner w)) as (Hst & Hp & Hl).
      eapply exec_inv_weaken; [done|done| |].
      * unfold state_file. simpl. by rewrite Hp.
      * intros id. unfold signals. simpl. rewrite Hl. case_decide as Hin; [by intros [? ?]|].
        intros [?|?]%(xi_signals _ HI); [left|by right].
        rewrite elem_of_difference, elem_of_list_to_set. done.
    + by eapply exec_inv_restart.
Qed.

(** ** How the records of two states correspond *)

Lemma loaded_elem clock l e' :
  e' ∈ loaded clock (map durable_record l) →
  ∃ i e, e ∈ l ∧ e' = recover_record clock i (repair_observed (durable_record e)).
Proof.
  intros He. eapply sublist_mem in He; [|apply trim_sublist].
  apply elem_of_lookup_imap in He as (i & e0 & -> & Hi). exists i.
  apply list_elem_of_lookup_2 in Hi. rewrite map_map in Hi.
  apply list_elem_of_In, in_map_iff in Hi as (e & <- & Hin). exists e.
  by rewrite list_elem_of_In.
Qed.

Lemma recovered_fields clock i e :
  let e' := recover_record clock i (repair_observed (durable_record e)) in
  er_id e' = er_id e ∧ er_owner_session e' = er_owner_session e ∧
  record_terminal e' = true ∧ (record_terminal e = true → er_state e' = er_state e).
Proof.
  unfold recover_record, repair_observed, record_terminal.
  destruct (_ =? 0)%N; simpl; destruct (execution_is_terminal (er_state e)) eqn:Ht; simpl;
    rewrite ?Ht; by split_and!.
Qed.

(** Opening the file of a reachable world. *)
Lemma open_reachable clock now io w fs c :
  exec_inv w → open_at clock now io true (eri_path (w_inner w)) (w_fs w) = (fs, c) →
  c = Returned (Ok (MkExecutionRegistryInner (eri_path (w_inner w))
        (MkPersistedExecutionState EXECUTION_STATE_VERSION
           (loaded clock (map durable_record (executions w)))) ∅)) ∨
  ∃ e s, c = Returned (Err e) ∧ persist_state io (eri_path (w_inner w)) s (w_fs w) = (fs, Err e) ∧
         fs !! eri_path (w_inner w) = state_file w.
Proof.
  intros HI Ho. pose proof (xi_disk _ HI) as Hd. unfold disk_agrees, state_file in *.
  destruct (w_fs w !! eri_path (w_inner w)) as [bytes|] eqn:Hb.
  - destruct Hd as (s1 & Hs1 & Hv & Hagree).
    destruct (open_written clock now io _ _ bytes s1 fs _ Hb Hs1 Hv Ho) as [(-> & _)|(e & -> & ? & ?)].
    + left. by rewrite Hagree.
    + right. eauto 10.
  - left. unfold open_at in Ho. rewrite Hb in Ho. simpl in Ho. injection Ho as <- <-.
    by rewrite Hd.
Qed.

Record follows (e e' : ExecutionRecord) : Prop := {
  fo_outcome : record_terminal e = true → er_state e' = er_state e;
  fo_owner owner : record_terminal e = false → er_owner_session e = Some owner →
    er_owner_session e' = Some owner ∨
    er_owner_session e' = None ∧ is_Some (er_orphaned_at_ms e')
}.

Lemma step_follows w w' e e' :
  exec_inv w → world_step w w' →
  e ∈ executions w → e' ∈ executions w' → er_id e' = er_id e → follows e e'.
Proof.
  intros HI Hs He He' Hid.
  assert (∀ e0, e0 ∈ executions w → er_id e0 = er_id e → e0 = e) as Huniq.
  { intros e0 H0 Heq. eapply (NoDup_fmap_elem er_id); eauto using xi_ids. }
  assert (executions w' = executions w → follows e e') as Hsame.
  { intros Heq. rewrite Heq in He'. rewrite (Huniq e') by done. split; [done|by left]. }
  destruct Hs as [io op inner fs ended w Hfresh Ht|io op inner fs r w Ht
    |public signal inner r w Hr|public w|lost w|clock now io read_ok inner fs w Ho].
  - apply transact_spec in Ht as [(_ & _ & Hr)|(next & a & bytes & Hm & Hr & -> & _)];
      [by destruct (Hr ended)|]. rewrite trim_state_eq in He'.
    apply operation_effect in Hm as [_ (l' & new & Hl & Hev & Hnew)].
    unfold executions in He'. simpl in He'. eapply sublist_mem in He'; [|apply trim_sublist].
    rewrite Hl, elem_of_app in He'. destruct He' as [He'|He'].
    + apply list_elem_of_lookup in He' as [i Hi'].
      destruct (Forall2_lookup_r _ _ _ _ _ Hev Hi') as (e0 & Hi & H0).
      assert (e0 = e) as ->.
      { apply Huniq; [by eapply list_elem_of_lookup_2|]. rewrite <-Hid. symmetry.
        by eapply evolves_id. }
      split; [apply H0|]. intros o Hlive Ho.
      destruct (ev_owner _ _ _ _ H0 o Hlive Ho) as [?|(_ & ? & ?)]; auto.
    + destruct op; simpl in Hnew; subst; try by apply elem_of_nil in He'.
      destruct Hnew as (-> & _). apply list_elem_of_singleton in He' as ->.
      simpl in Hid. by destruct (Hfresh e).
  - apply transact_spec in Ht as [(-> & _)|(next & a & bytes & _ & Hr & _)]; [|done].
    by apply Hsame.
  - apply Hsame. unfold request_cancellation in Hr.
    destruct (List.find _ _) as [x|]; [|by injection Hr as <- _].
    destruct (er_state x); [destruct (bounded_token signal); [|done]..|]; by injection Hr as <- _.
  - apply Hsame. unfold executions, clear_cancellation. simpl. by destruct (List.find _ _).
  - apply Hsame. unfold executions. simpl. by rewrite (proj1 (forget_signals_eq lost (w_inner w))).
  - apply open_read_ok in Ho. destruct (open_reachable _ _ _ _ _ _ HI Ho) as [Hc|(? & ? & Hc & _)]; [|done].
    injection Hc as ->. unfold executions in He'. simpl in He'.
    apply loaded_elem in He' as (i & e0 & H0 & ->).
    destruct (recovered_fields clock i e0) as (Hi & Ho' & _ & Hst). simpl in *.
    rewrite Hi in Hid. rewrite (Huniq e0 H0 Hid) in *. split; [done|].
    intros o _ Howner. left. congruence.
Qed.

(** ** Properties *)

(** C2 (invariant): Across transactions, failed writes and restarts, at most
    64 executions are live and at most 64 terminal ones are kept, no two records
    share a public session or an execution id, and a pending cancellation signal
    belongs to a live execution or to one whose [finish] or [reap_stale] has yet
    to run its second critical section. *)
Theorem execution_registry_invariant `{!ExecutionCodecLaws} (w : World) (Hr : reachable w) :
  countb (λ e, live e) (executions w) ≤ 64 ∧
  countb record_terminal (executions w) ≤ 64 ∧
  NoDup (er_public_session_id <$> executions w) ∧ NoDup (er_id <$> executions w) ∧
  ∀ id, is_Some (signals w !! id) →
    id ∈ w_pending w ∨ ∃ e, e ∈ executions w ∧ er_id e = id ∧ record_terminal e = false.
Proof.
  apply (invariant_reachable exec_inv) in Hr as HI. split_and!; apply HI.
Qed.



(** A transaction is atomic.  Either it returns its value, the
    memory holds exactly the trimmed result of its mutation and the state file
    its serialisation; or it fails, and both memory and state file are as they
    were, whichever system call failed. *)
Theorem transact_atomic io op inner fs inner' fs' (r : call (list ExecutionId)) :
  transact io (operation_name op) (operation_mutation op) inner fs = (inner', fs', r) →
  (∃ ended next bytes,
     r = Returned (Ok ended) ∧
     operation_mutation op (eri_state inner) = Some (Ok (next, ended)) ∧
     inner' = inner <| eri_state := trim_state next |> ∧
     to_vec_pretty (trim_state next) = Some bytes ∧
     fs' !! eri_path inner = Some (bytes ++ [10%N])) ∨
  inner' = inner ∧ fs' !! eri_path inner = fs !! eri_path inner ∧
  (∀ ended, r ≠ Returned (Ok ended)).
Proof.
  intros [?|(next & a & bytes & ? & -> & ? & ? & ?)]%transact_spec; [by right|].
  left. eauto 10.
Qed.

(** C27 (safety): The recorded outcome of an execution is final.  Over any
    step, restarts included, a record that is terminal keeps its terminal state
    as long as it is kept at all. *)
Theorem execution_outcome_final `{!ExecutionCodecLaws} (w w' : World) e e'
    (Hr : reachable w) (Hs : sm_step w w') (He : e ∈ executions w)
    (He' : e' ∈ executions w') (Hid : er_id e' = er_id e) (Ht : record_terminal e = true) :
  er_state e' = er_state e.
Proof.
  apply (invariant_reachable exec_inv) in Hr as HI.
  by apply (fo_outcome _ _ (step_follows w w' e e' HI Hs He He' Hid)).
Qed.

(** C18 (safety): A live execution changes hands only through orphaning.  Over
    any step an execution owned by a session is afterwards still owned by it, or
    has no owner and carries the time it was orphaned; no step hands it directly
    to another session. *)
Theorem live_execution_never_stolen `{!ExecutionCodecLaws} (w w' : World) e e' owner
    (Hr : reachable w) (Hs : sm_step w w') (He : e ∈ executions w)
    (He' : e' ∈ executions w') (Hid : er_id e' = er_id e)
    (Hl : record_terminal e = false) (Ho : er_owner_session e = Some owner) :
  er_owner_session e' = Some owner ∨
  er_owner_session e' = None ∧ is_Some (er_orphaned_at_ms e').
Proof.
  apply (invariant_reachable exec_inv) in Hr as HI.
  by apply (fo_owner _ _ (step_follows w w' e e' HI Hs He He' Hid)).
Qed.

Lemma adopt_owner_succeeds now next public token owner s e :
  List.find (by_public_session public) (pes_executions s) = Some e →
  record_terminal e = false → er_owner_session e = None → is_Some (er_orphaned_at_ms e) →
  er_adoption_token_hash e = Some (hash_adoption_token token) →
  ∃ s' a, adopt_owner now next public token owner s = Some (Ok (s', a)).
Proof.
  intros Hf Hl Ho [t Hor] Hh. unfold adopt_owner. rewrite Hf. simpl.
  unfold record_terminal in Hl. destruct (er_state e); [| |done];
    (rewrite Ho, Hor, bool_decide_eq_true_2 by done; simpl; eauto).
Qed.

(** An execution can be adopted exactly when the public
    session is known, its execution is live, has no owner, has been orphaned and
    the presented token is the current one; the adopter is then its owner, it is
    no longer orphaned, and the next token replaces the presented one. *)
Theorem adoption_exact now next public token owner s :
  (∃ s' a, adopt_owner now next public token owner s = Some (Ok (s', a)) ∧
     execution_for_public_session s' public = Some (ae_execution a) ∧
     er_owner_session (ae_execution a) = Some owner ∧
     er_orphaned_at_ms (ae_execution a) = None ∧
     er_adoption_token_hash (ae_execution a) = Some (hash_adoption_token next) ∧
     ae_next_adoption_token a = next) ↔
  ∃ e, execution_for_public_session s public = Some e ∧ record_terminal e = false ∧
    er_owner_session e = None ∧ is_Some (er_orphaned_at_ms e) ∧
    er_adoption_token_hash e = Some (hash_adoption_token token).
Proof.
  unfold execution_for_public_session. split.
  - intros (s' & a & (e & ? & ? & ? & ? & ? & _)%adopt_Ok & _). eauto 10.
  - intros (e & Hf & Hl & Ho & Hor & Hh).
    destruct (adopt_owner_succeeds now next public token owner s e Hf Hl Ho Hor Hh)
      as (s' & a & Ha). exists s', a. split; [done|].
    apply adopt_Ok in Ha as (e0 & Hf0 & _ & _ & _ & _ & -> & ->). simplify_eq. simpl.
    split_and!; try done. rewrite find_update_first, Hf by done. done.
Qed.

(** An adoption token works once.  After an adoption, even when
    the adopter's session ends and the execution is orphaned again, presenting
    the same token is denied and the token handed out by that adoption is
    accepted, unless the two tokens have the same digest. *)
Theorem adoption_token_single_use now next public token owner s s' a
    now1 s1 n now2 next2 owner2
    (Ha : adopt_owner now next public token owner s = Some (Ok (s', a)))
    (Hor : orphan_owned_by now1 owner s' = Some (Ok (s1, n)))
    (Hdigest : sha256_hex (adoption_token_str next) ≠ sha256_hex (adoption_token_str token)) :
  adopt_owner now2 next2 public token owner2 s1 = Some (Err AdoptionDenied) ∧
  ∃ s2 a2, adopt_owner now2 next2 public next owner2 s1 = Some (Ok (s2, a2)).
Proof.
  apply adopt_Ok in Ha as (e & Hf & Hl & Ho & _ & _ & -> & _).
  unfold orphan_owned_by in Hor. injection Hor as <- _. unfold record_terminal in Hl.
  set (e1 := e <| er_adoption_token_hash := Some (hash_adoption_token next) |>
               <| er_last_observed_at_ms := now |> <| er_orphaned_at_ms := Some now1 |>).
  match goal with |- adopt_owner _ _ _ _ _ ?s1 = _ ∧ _ =>
    assert (List.find (by_public_session public) (pes_executions s1) = Some e1) as Hfind end.
  { simpl. rewrite find_map_same by (intros x; by destruct (owned_live owner x)).
    rewrite find_update_first, Hf by done. simpl. unfold owned_live, record_terminal. simpl.
    rewrite Hl, bool_decide_eq_true_2 by done. simpl. f_equal. subst e1. by destruct e; simplify_eq/=. }
  split.
  - unfold adopt_owner. rewrite Hfind. subst e1. simpl.
    destruct (er_state e); [| |done]; (rewrite Ho, bool_decide_eq_false_2; [done|];
      unfold hash_adoption_token; congruence).
  - by apply (adopt_owner_succeeds _ _ _ _ _ _ e1).
Qed.
End codec.

Lemma substring_spec n s :
  String.length (String.substring 0 n s) ≤ n ∧ String.prefix (String.substring 0 n s) s = true.
Proof.
  revert s. induction n as [|n IH]; intros [|c s]; simpl; try (split; [lia|done]).
  destruct (IH s) as [Hl Hp]. split; [lia|]. by destruct (Ascii.ascii_dec c c).
Qed.

Lemma prefix_refl s : String.prefix s s = true.
Proof. induction s as [|c s IH]; simpl; [done|]. by destruct (Ascii.ascii_dec c c). Qed.

Lemma get_None i s : String.get i s = None → String.length s ≤ i.
Proof.
  revert i. induction s as [|c s IH]; intros [|i]; simpl; try done; [lia|].
  intros H%IH. lia.
Qed.

(** Bounding a token never lengthens it and keeps short tokens as
    they are; it panics exactly when the token is longer than 128 bytes and byte
    128 is inside a character, which no ASCII token is. *)
Theorem bounded_token_exact value :
  match bounded_token value with
  | Some token =>
      String.length token ≤ 128 ∧ String.prefix token value = true ∧
      (String.length value ≤ 128 → token = value)
  | None =>
      128 < String.length value ∧
      ∃ c, String.get 128 value = Some c ∧ is_cont (Ascii.N_of_ascii c) = true
  end.
Proof.
  unfold bounded_token, MAX_STABLE_TOKEN. destruct (_ <? _)%nat eqn:Hlen.
  - apply Nat.ltb_lt in Hlen. destruct (is_char_boundary value 128) eqn:Hb.
    + destruct (substring_spec 128 value). split_and!; [done..|lia].
    + split; [done|]. unfold is_char_boundary in Hb.
      destruct (String.get 128 value) as [c|] eqn:Hc.
      * exists c. split; [done|]. by apply negb_false_iff in Hb.
      * apply get_None in Hc. lia.
  - apply Nat.ltb_ge in Hlen. split_and!; [done|apply prefix_refl|done].
Qed.

(** ** Witnesses: one command is started, orphaned, adopted and finished *)

Definition demo_exec (hash : option AdoptionTokenHash) (owner : option McpSessionId)
    (state : ExecutionState) (observed : millis) (orphaned : option millis) : ExecutionRecord :=
  MkExecutionRecord (MkExecutionId "x") (MkTaskId "t") (MkPublicSessionId "p") owner hash None
    state 10 observed orphaned.

Definition demo_state (e : ExecutionRecord) : PersistedExecutionState :=
  MkPersistedExecutionState 4 [e].

Definition demo_terminal : ExecutionTerminal := MkExecutionTerminal Completed (Some 0%Z) None [] None 20.

(** A coding that knows three states: enough to write, crash and read back. *)
Definition demo_table : list PersistedExecutionState :=
  [demo_state (demo_exec None (Some (MkMcpSessionId "a")) ExecutionRunning 10 None);
   demo_state (demo_exec None None ExecutionRunning 10 (Some 11%N));
   demo_state (demo_exec None None (ExecutionTerminated demo_terminal) 20 (Some 11%N))].

#[local] Instance PersistedExecutionState_eq_dec : EqDecision PersistedExecutionState.
Proof. solve_decision. Defined.

(** A coding of the states of a table, the others fail to serialise. *)
Definition table_codec (table : list PersistedExecutionState) : ExecutionCodec := {|
  to_vec_pretty s :=
    (λ i, [N.of_nat i]) <$> position (λ s', bool_decide (s' = durable s)) table;
  from_slice_state bytes :=
    match bytes with [i; 10%N] => table !! N.to_nat i | _ => None end;
  from_slice_legacy _ := None;
  sha256_hex s := s
|}.

Lemma table_codec_laws table : @ExecutionCodecLaws (table_codec table).
Proof.
  intros s bytes (i & Hp & ->)%fmap_Some. cbn. rewrite Nat2N.id.
  apply position_Some in Hp as (x & Hx & ->%bool_decide_eq_true & _). done.
Qed.

Definition demo_codec : ExecutionCodec := table_codec demo_table.
#[local] Existing Instance demo_codec.
#[local] Instance demo_codec_laws : ExecutionCodecLaws := table_codec_laws demo_table.

Definition demo_path : FilePath := ("dir", "state.json")%string.
Definition demo_io : PersistIo := MkPersistIo true true true [] true true 1 1.

Definition demo_apply (op : operation) (w : World) : World :=
  let '(inner, fs, r) := transact demo_io (operation_name op) (operation_mutation op)
    (w_inner w) (w_fs w) in
  MkWorld inner fs (list_to_set (match r with Returned (Ok l) => l | _ => [] end) ∪ w_pending w).

Definition demo_w0 : World :=
  MkWorld (MkExecutionRegistryInner demo_path default_state ∅) ∅ ∅.
Definition demo_w1 : World :=
  demo_apply (OpStart 10 (MkExecutionId "x") (MkAdoptionToken "k") (MkTaskId "t")
    (MkPublicSessionId "p") (Some (MkMcpSessionId "a"))) demo_w0.
Definition demo_w2 : World := demo_apply (OpOrphan 11 (MkMcpSessionId "a")) demo_w1.
Definition demo_w3 : World := demo_apply (OpFinish (MkExecutionId "x") demo_terminal) demo_w2.

Lemma demo_apply_step op w :
  fresh_operation op w →
  (∃ l, (transact demo_io (operation_name op) (operation_mutation op) (w_inner w) (w_fs w)).2 =
        Returned (Ok l)) →
  sm_step w (demo_apply op w).
Proof.
  intros Hf [l Hl]. unfold demo_apply. destruct (transact _ _ _ _ _) as [[inner fs] r] eqn:Ht.
  simpl in Hl. subst r. by eapply StepCommit.
Qed.

Lemma demo_w1_step : sm_step demo_w0 demo_w1.
Proof. apply demo_apply_step; [by intros e ?%elem_of_nil|eexists; by vm_compute]. Qed.
Lemma demo_w2_step : sm_step demo_w1 demo_w2.
Proof. apply demo_apply_step; [done|eexists; by vm_compute]. Qed.
Lemma demo_w3_step : sm_step demo_w2 demo_w3.
Proof. apply demo_apply_step; [done|eexists; by vm_compute]. Qed.

Lemma demo_w2_reachable : reachable demo_w2.
Proof.
  eapply reachable_step; [|apply demo_w2_step]. eapply reachable_step; [|apply demo_w1_step].
  exists demo_w0. split; [|done]. exists demo_path, ∅. done.
Qed.
Lemma demo_w3_reachable : reachable demo_w3.
Proof. eapply reachable_step; [apply demo_w2_reachable|apply demo_w3_step]. Qed.

Lemma execution_registry_invariant_witness :
  length (executions demo_w2) = 1 ∧ countb (λ e, live e) (executions demo_w2) ≤ 64.
Proof.
  split; [by vm_compute|]. apply (execution_registry_invariant demo_w2 demo_w2_reachable).
Defined.


Lemma execution_outcome_final_witness :
  ∃ e, e ∈ executions demo_w3 ∧ record_terminal e = true ∧
  ∀ w' e', sm_step demo_w3 w' → e' ∈ executions w' → er_id e' = er_id e → er_state e' = er_state e.
Proof.
  eexists. split; [vm_compute; left|]. split; [done|]. intros w' e' Hs He' Hid.
  eapply (execution_outcome_final demo_w3 w').
  - apply demo_w3_reachable.
  - done.
  - vm_compute. left.
  - done.
  - done.
  - done.
Defined.

Lemma live_execution_never_stolen_witness :
  ∃ e, e ∈ executions demo_w2 ∧ er_owner_session e = None ∧ is_Some (er_orphaned_at_ms e).
Proof.
  assert (reachable demo_w1) as Hr.
  { eapply reachable_step; [|apply demo_w1_step].
    exists demo_w0. split; [|done]. exists demo_path, ∅. done. }
  eexists. split; [vm_compute; left|].
  edestruct (live_execution_never_stolen demo_w1 demo_w2) as [Ho|Ho].
  - exact Hr.
  - apply demo_w2_step.
  - vm_compute. left.
  - vm_compute. left.
  - done.
  - done.
  - done.
  - done.
  - exact Ho.
Defined.

Lemma adoption_token_single_use_witness :
  ∃ s', adopt_owner 13 (MkAdoptionToken "k3") (MkPublicSessionId "p") (MkAdoptionToken "k")
          (MkMcpSessionId "c") s' = Some (Err AdoptionDenied) ∧
        record_terminal (default (demo_exec None None ExecutionQueued 0 None)
                           (head (pes_executions s'))) = false.
Proof.
  eexists. split.
  - eapply (adoption_token_single_use 12 (MkAdoptionToken "k2") _ (MkAdoptionToken "k")
      (MkMcpSessionId "b") (eri_state (w_inner demo_w2)) _ _ 12).
    + vm_compute. reflexivity.
    + vm_compute. reflexivity.
    + done.
  - done.
Defined.

Lemma transact_atomic_witness :
  ∃ inner fs, transact demo_io "observe" (operation_mutation (OpObserve 12%N))
      (w_inner demo_w3) (w_fs demo_w3) = (inner, fs, Returned (Ok [])) ∧
    eri_state inner = eri_state (w_inner demo_w3).
Proof.
  destruct (transact demo_io (operation_name (OpObserve 12%N))
    (operation_mutation (OpObserve 12%N)) (w_inner demo_w3) (w_fs demo_w3))
    as [[inner fs] r] eqn:Ht.
  destruct (transact_atomic demo_io (OpObserve 12%N) (w_inner demo_w3) (w_fs demo_w3) inner fs r Ht)
    as [(ended & next & bytes & -> & Hm & -> & _)|(_ & _ & Hr)].
  - exists (w_inner demo_w3 <| eri_state := trim_state next |>), fs.
    vm_compute in Hm. injection Hm as <- <-. split; [exact Ht|]. by vm_compute.
  - apply (f_equal snd) in Ht. vm_compute in Ht. by destruct (Hr []).
Defined.
