(* ===== verification/CommandControl.v ===== *)
(** * CommandControl: polling, writing to and killing a running command

    [src/src-tauri/src/control_plane/command_control.rs].  One handler runs
    beside the work lane; it calls the execution registry several times, each
    call one critical section, and the runtime once in between.  Other threads
    run at every gap: [env i] is what they do to the registry at the [i]-th one.

    The runtime is the interface [RuntimeCommandControl], as in the code. *)

From S2P Require Import Prelude Text Domain ExecutionRegistry ExecutionFacts ExecutionProperties.
#[local] Open Scope N_scope.

(** ** Data *)

(* @src control_plane/command_control.rs:8-8 COMMAND_CONTROL_TRANSPORT_HEADROOM_MS *)
Definition COMMAND_CONTROL_TRANSPORT_HEADROOM_MS : N := 1000.
(* @src control_plane/command_control.rs:9-9 COMMAND_CONTROL_UPSTREAM_HEADROOM_MS *)
Definition COMMAND_CONTROL_UPSTREAM_HEADROOM_MS : N := 500.

(* @src control_plane/command_control.rs:11-16 CommandControlAction *)
Inductive CommandControlAction := ActionPoll | ActionWrite | ActionKill.
#[export] Instance CommandControlAction_eq_dec : EqDecision CommandControlAction.
Proof. solve_decision. Defined.

(* @src control_plane/command_control.rs:18-23 CommandKillSignal *)
Inductive CommandKillSignal := SignalTerm | SignalKill | SignalInterrupt.

(* @src control_plane/command_control.rs:25-33 CommandKillSignal::as_str *)
Definition signal_as_str (s : CommandKillSignal) : string :=
  match s with SignalTerm => "TERM" | SignalKill => "KILL" | SignalInterrupt => "INT" end.

(* @src control_plane/command_control.rs:35-43 RuntimeCommandStatus *)
Inductive RuntimeCommandStatus :=
  | StatusRunning | StatusCompleted | StatusFailed | StatusCancelled | StatusTimedOut
  | StatusLost.
#[export] Instance RuntimeCommandStatus_eq_dec : EqDecision RuntimeCommandStatus.
Proof. solve_decision. Defined.

(* @src control_plane/command_control.rs:46-55 RuntimeCommandStatus::as_str *)
Definition status_as_str (s : RuntimeCommandStatus) : string :=
  match s with
  | StatusRunning => "running"
  | StatusCompleted => "completed"
  | StatusFailed => "failed"
  | StatusCancelled => "cancelled"
  | StatusTimedOut => "timed_out"
  | StatusLost => "lost"
  end.

(* @src control_plane/command_control.rs:57-66 RuntimeCommandStatus::terminal_outcome *)
Definition terminal_outcome (s : RuntimeCommandStatus) : option TerminalOutcome :=
  match s with
  | StatusRunning => None
  | StatusCompleted => Some Completed
  | StatusFailed => Some Failed
  | StatusCancelled => Some Cancelled
  | StatusTimedOut => Some TimedOut
  | StatusLost => Some Lost
  end.

(* @src control_plane/command_control.rs:69-77 RuntimeCommandRequest *)
Record RuntimeCommandRequest := MkRuntimeCommandRequest {
  rcr_runtime_handle : string;
  rcr_action : CommandControlAction;
  rcr_chars : option string;
  rcr_signal : option CommandKillSignal;
  rcr_wait_ms : N;
  rcr_request_id : RpcRequestId
}.
(* @src control_plane/command_control.rs:79-87 RuntimeCommandObservation *)
Record RuntimeCommandObservation := MkRuntimeCommandObservation {
  rco_status : RuntimeCommandStatus;
  rco_exit_code : option Z;
  rco_signal : option string;
  rco_stdout : string;
  rco_stderr : string;
  rco_truncated : option bool
}.
(* @src control_plane/command_control.rs:89-97 CommandControlRequest *)
Record CommandControlRequest := MkCommandControlRequest {
  ccr_action : CommandControlAction;
  ccr_chars : option string;
  ccr_signal : option CommandKillSignal;
  ccr_wait_ms : N;
  ccr_request_id : RpcRequestId;
  ccr_public_session_id : PublicSessionId
}.
(* @src control_plane/command_control.rs:99-106 RuntimeCommandControlError *)
Inductive RuntimeCommandControlError :=
  | RuntimeInvalidRequest | RuntimeSessionUnavailable | RuntimeCapabilityMismatch
  | RuntimeTimedOut | RuntimeUnavailable.
#[export] Instance RuntimeCommandControlError_eq_dec : EqDecision RuntimeCommandControlError.
Proof. solve_decision. Defined.

(* @src control_plane/command_control.rs:108-113 RuntimeCommandControl *)
Class RuntimeCommandControl :=
  control_command : RuntimeCommandRequest →
    result RuntimeCommandControlError RuntimeCommandObservation.

(* @src control_plane/command_control.rs:115-126 CommandControlResult *)
Record CommandControlResult := MkCommandControlResult {
  cres_status : RuntimeCommandStatus;
  cres_public_session_id : PublicSessionId;
  cres_task_id : TaskId;
  cres_stdout : string;
  cres_stderr : string;
  cres_elapsed_ms : N;
  cres_exit_code : option Z;
  cres_signal : option string;
  cres_truncated : option bool
}.
(* @src control_plane/command_control.rs:128-136 CommandControlError *)
Inductive CommandControlError :=
  | InvalidRequest | SessionUnavailable | ControlRuntimeUnavailable
  | ControlRuntimeCapabilityMismatch | OperationTimedOut | ExecutionConflict.
#[export] Instance CommandControlError_eq_dec : EqDecision CommandControlError.
Proof. solve_decision. Defined.

(** ** Helpers *)

(* @src control_plane/command_control.rs:274-280 result_from_terminal (the status) *)
Definition status_of_outcome (o : TerminalOutcome) : RuntimeCommandStatus :=
  match o with
  | Completed => StatusCompleted
  | Failed | Blocked => StatusFailed
  | Cancelled => StatusCancelled
  | TimedOut => StatusTimedOut
  | Lost => StatusLost
  end.

(* @src control_plane/command_control.rs:269-292 result_from_terminal *)
Definition result_from_terminal (execution : ExecutionRecord) (terminal : ExecutionTerminal) :
    CommandControlResult :=
  MkCommandControlResult (status_of_outcome (et_outcome terminal))
    (er_public_session_id execution) (er_task_id execution) "" ""
    (saturating_sub (et_completed_at_ms terminal) (er_started_at_ms execution))
    (et_exit_code terminal) (et_signal terminal) None.

(* @src control_plane/command_control.rs:294-302 terminal_error_code *)
Definition terminal_error_code (o : TerminalOutcome) : option string :=
  match o with
  | Completed => None
  | Cancelled => Some "ProcessCancelled"%string
  | TimedOut => Some "ProcessTimedOut"%string
  | Lost => Some "SessionUnavailable"%string
  | Failed | Blocked => Some "ProcessFailed"%string
  end.

(* @src control_plane/command_control.rs:304-314 map_runtime_error *)
Definition map_runtime_error (e : RuntimeCommandControlError) : CommandControlError :=
  match e with
  | RuntimeInvalidRequest => InvalidRequest
  | RuntimeSessionUnavailable => SessionUnavailable
  | RuntimeCapabilityMismatch => ControlRuntimeCapabilityMismatch
  | RuntimeTimedOut => OperationTimedOut
  | RuntimeUnavailable => ControlRuntimeUnavailable
  end.

(* @src control_plane/command_control.rs:316-322 map_execution_error *)
Definition map_execution_error (e : ExecutionRegistryError) : CommandControlError :=
  match e with
  | AlreadyTerminal _ _ => ExecutionConflict
  | UnknownExecution _ => SessionUnavailable
  | _ => ControlRuntimeUnavailable
  end.

(** ** The handler *)

Section handler.
Context `{ExecutionCodec} `{RuntimeCommandControl}.
(** What other threads do at each gap, the clock readings, and the outcome of
    the system calls of the write of the state file. *)
Context (env : nat → World → World) (now : nat → millis) (io : PersistIo).

(** [None] is a panic of the registry. *)
Definition reply : Type := option (World * result CommandControlError CommandControlResult).

Definition state_of (w : World) : PersistedExecutionState := eri_state (w_inner w).

(** [ExecutionRegistry::finish]: the transaction, then the second section. *)
Definition run_finish (w : World) (id : ExecutionId) (terminal : ExecutionTerminal) :
    World * call (list ExecutionId) :=
  let op := OpFinish id terminal in
  let '(inner, fs, r) :=
    transact io (operation_name op) (operation_mutation op) (w_inner w) (w_fs w) in
  match r with
  | Returned (Ok ended) =>
      let w := env 3 (MkWorld inner fs (list_to_set ended ∪ w_pending w)) in
      (w <| w_inner ::= forget_signals ended |> <| w_pending ::= (.∖ list_to_set ended) |>, r)
  | _ => (MkWorld inner fs (w_pending w), r)
  end.

(** The runtime lost the session of a command whose cancellation is pending. *)
(* @src control_plane/command_control.rs:180-203 control_command_during_work (a cancelled session is gone) *)
Definition settle_cancelled (w : World) (execution : ExecutionRecord) (public : PublicSessionId)
    (cancellation_signal : option string) : reply :=
  let terminal := MkExecutionTerminal Cancelled None cancellation_signal []
    (Some "ProcessCancelled"%string) (now 0) in
  let settle w :=
    Some (w, settled ← ok_or SessionUnavailable (execution_for_public_session (state_of w) public);
             match er_state settled with
             | ExecutionTerminated terminal => Ok (result_from_terminal settled terminal)
             | _ => Err ExecutionConflict
             end) in
  match run_finish (env 2 w) (er_id execution) terminal with
  | (_, Panicked) => None
  | (w, Returned (Ok _)) | (w, Returned (Err (AlreadyTerminal _ _))) => settle (env 4 w)
  | (w, Returned (Err e)) => Some (w, Err (map_execution_error e))
  end.

(** After an observation of the runtime. *)
(* @src control_plane/command_control.rs:215-267 control_command_during_work (after the observation) *)
Definition settle_observation (w : World) (request : CommandControlRequest)
    (execution : ExecutionRecord) (observation : RuntimeCommandObservation) : reply :=
  let cancellation_signal := cancellation_signal (ccr_public_session_id request) (w_inner w) in
  if bool_decide (ccr_action request = ActionKill) &&
     bool_decide (rco_status observation = StatusRunning)
  then Some (w, Err OperationTimedOut) else
  let outcome :=
    (λ o, if bool_decide (is_Some cancellation_signal) then Cancelled else o)
      <$> terminal_outcome (rco_status observation) in
  let finished :=
    match outcome with
    | None => (w, Returned (Ok []))
    | Some o =>
        run_finish (env 2 w) (er_id execution)
          (MkExecutionTerminal o (rco_exit_code observation)
             (match rco_signal observation with Some s => Some s | None => cancellation_signal end)
             [] (terminal_error_code o) (now 0))
    end in
  match finished with
  | (_, Panicked) => None
  | (w, Returned (Err e)) => Some (w, Err (map_execution_error e))
  | (w, Returned (Ok _)) =>
      Some (w, Ok (MkCommandControlResult
        (if bool_decide (outcome = Some Cancelled) then StatusCancelled
         else rco_status observation)
        (ccr_public_session_id request) (er_task_id execution)
        (rco_stdout observation) (rco_stderr observation)
        (saturating_sub (now 1) (er_started_at_ms execution)) (rco_exit_code observation)
        (match rco_signal observation with Some s => Some s | None => cancellation_signal end)
        (rco_truncated observation)))
  end.

(** The call of the runtime and what follows it. *)
(* @src control_plane/command_control.rs:170-213 control_command_during_work (the runtime call) *)
Definition call_runtime (w : World) (request : CommandControlRequest)
    (execution : ExecutionRecord) (handle : RuntimeCommandHandle) : reply :=
  let public := ccr_public_session_id request in
  let answer := control_command (MkRuntimeCommandRequest (runtime_handle_str handle)
    (ccr_action request) (ccr_chars request) (ccr_signal request)
    (N.min (ccr_wait_ms request) 30000) (ccr_request_id request)) in
  let w := env 1 w in
  match answer with
  | Ok observation => settle_observation w request execution observation
  | Err error =>
      let signal := cancellation_signal public (w_inner w) in
      if bool_decide (error = RuntimeSessionUnavailable) && bool_decide (is_Some signal)
      then settle_cancelled w execution public signal
      else
        let w := match error with
          | RuntimeInvalidRequest | RuntimeCapabilityMismatch =>
              (env 2 w) <| w_inner ::= clear_cancellation public |>
          | _ => w
          end in
        Some (w, Err (map_runtime_error error))
  end.

(* @src control_plane/command_control.rs:138-267 control_command_during_work *)
Definition control_command_during_work (w : World) (request : CommandControlRequest) : reply :=
  if bool_decide (ccr_action request = ActionWrite) &&
     match ccr_chars request with None => true | Some s => bool_decide (s = "") end
  then Some (w, Err InvalidRequest) else
  match execution_for_public_session (state_of w) (ccr_public_session_id request) with
  | None => Some (w, Err SessionUnavailable)
  | Some execution =>
    match er_state execution with
    | ExecutionTerminated terminal =>
        Some (w, if bool_decide (ccr_action request = ActionPoll)
                 then Ok (result_from_terminal execution terminal)
                 else Err SessionUnavailable)
    | _ =>
      match er_runtime_handle execution with
      | None => Some (w, Err SessionUnavailable)
      | Some handle =>
        if bool_decide (ccr_action request = ActionKill) then
          let w := env 0 w in
          match request_cancellation (ccr_public_session_id request)
                  (signal_as_str (default SignalTerm (ccr_signal request))) (w_inner w) with
          | (_, Panicked) => None
          | (inner, Returned (Err e)) =>
              Some (w <| w_inner := inner |>, Err (map_execution_error e))
          | (inner, Returned (Ok _)) =>
              call_runtime (w <| w_inner := inner |>) request execution handle
          end
        else call_runtime w request execution handle
      end
    end
  end.

(** ** The handler as a run of the registry *)

(** The other threads only take steps of the registry. *)
Definition env_ok : Prop := ∀ i w, rtc world_step w (env i w).

Lemma request_cancellation_rtc w public signal inner r :
  request_cancellation public signal (w_inner w) = (inner, Returned r) →
  world_step w (w <| w_inner := inner |>).
Proof. intros Hr. by eapply StepRequestCancellation. Qed.

Lemma run_finish_rtc w id terminal w' r :
  env_ok → run_finish w id terminal = (w', Returned r) → rtc world_step w w'.
Proof.
  intros Henv. unfold run_finish.
  destruct (transact _ _ _ _ _) as [[inner fs] [[ended|e]|]] eqn:Ht; intros [= <- <-].
  - eapply rtc_l; [by eapply (StepCommit io (OpFinish id terminal))|]. eapply rtc_r; [apply Henv|apply StepForget].
  - eapply rtc_once. by eapply (StepReject io (OpFinish id terminal)).
Qed.

(** What a successful [finish] leaves in the transaction's state. *)
Lemma run_finish_recorded w id terminal w' ended :
  run_finish w id terminal = (w', Returned (Ok ended)) →
  ∃ next e t, operation_mutation (OpFinish id terminal) (state_of w) = Some (Ok (next, ended)) ∧
    e ∈ pes_executions next ∧ er_id e = id ∧ er_state e = ExecutionTerminated t ∧
    et_outcome t = et_outcome terminal.
Proof.
  unfold run_finish. destruct (transact _ _ _ _ _) as [[inner fs] c] eqn:Ht.
  apply transact_spec in Ht as [(_ & _ & Hr)|(next & a & bytes & Hm & -> & _)].
  { intros Hrun. destruct c as [[l|e]|]; [by destruct (Hr l)|..]; by simplify_eq. }
  intros [= _ <-]. exists next. unfold state_of. cbn [operation_mutation] in Hm.
  pose proof Hm as (u & Hf & ->)%forgetting_Ok. unfold finish in Hf.
  destruct (List.find _ _) as [e|] eqn:Hfind; [|done].
  destruct (er_state e) as [| |existing] eqn:Hst.
  3:{ case_bool_decide; simplify_eq. apply find_by_id in Hfind as [Hin Hid]. by exists e, existing. }
  all: apply bind_Some in Hf as (t & Hs & Hf); simplify_eq;
    apply find_split in Hfind as (l1 & l2 & _ & _ & Hid%bool_decide_eq_true & Hu);
    unfold sanitize_terminal in Hs;
    repeat (apply bind_Some in Hs as (? & _ & Hs)); simplify_eq;
    eexists (set_field er_state _ _), _; split; [exact Hm|]; simpl; rewrite Hu, elem_of_app;
    split_and!; [right; left|done..].
Qed.

Lemma settle_cancelled_rtc w execution public signal w' r :
  env_ok → settle_cancelled w execution public signal = Some (w', r) → rtc world_step w w'.
Proof.
  intros Henv. unfold settle_cancelled. destruct (run_finish _ _ _) as [w1 [r1|]] eqn:Hf; [|done].
  apply run_finish_rtc in Hf; [|done]. assert (rtc world_step w w1) as Hw1.
  { etransitivity; [apply (Henv 2%nat)|done]. }
  destruct r1 as [ended|e]; [|destruct e]; intros [= <- _]; try done;
    (etransitivity; [done|apply Henv]).
Qed.

Lemma settle_observation_rtc w request execution observation w' r :
  env_ok → settle_observation w request execution observation = Some (w', r) →
  rtc world_step w w'.
Proof.
  intros Henv. unfold settle_observation. destruct (_ && _); [by intros [= <- _]|].
  destruct (terminal_outcome _) as [o|]; simpl; [|by intros [= <- _]].
  destruct (run_finish _ _ _) as [w1 [[ended|e]|]] eqn:Hf; [| |done]; intros [= <- _];
    (etransitivity; [apply (Henv 2%nat)|]; by eapply run_finish_rtc).
Qed.

Lemma call_runtime_rtc w request execution handle w' r :
  env_ok → call_runtime w request execution handle = Some (w', r) → rtc world_step w w'.
Proof.
  intros Henv. unfold call_runtime. intros Hc. etransitivity; [apply (Henv 1%nat)|].
  destruct (control_command _) as [observation|error].
  - by eapply settle_observation_rtc.
  - destruct (_ && _); [by eapply settle_cancelled_rtc|].
    destruct error; simplify_eq; try done;
      (eapply rtc_r; [apply (Henv 2%nat)|apply StepClearCancellation]).
Qed.

(** Whatever the request, the runtime's answer and the other threads do, the control
    handler changes memory and file only by the registry's own steps, so that every
    invariant of the registry holds throughout.  What it does with them is the subject
    of the theorems below. *)
Theorem control_refines_registry w request w' r
    (Henv : env_ok) (Hc : control_command_during_work w request = Some (w', r)) :
  rtc world_step w w'.
Proof.
  unfold control_command_during_work in Hc. destruct (_ && _); [by simplify_eq|].
  destruct (execution_for_public_session _ _) as [e|]; [|by simplify_eq].
  destruct (er_state e); [| |by simplify_eq];
    (destruct (er_runtime_handle e) as [handle|]; [|by simplify_eq];
     case_bool_decide; [|by eapply call_runtime_rtc];
     destruct (request_cancellation _ _ _) as [inner [[[]|err]|]] eqn:Hr; [| |done];
     (etransitivity; [apply (Henv 0%nat)|]); apply request_cancellation_rtc in Hr;
     (eapply rtc_l; [exact Hr|]); [by eapply call_runtime_rtc|by simplify_eq]).
Qed.

(** A terminal record of [e] in the state of [w1] or in the state a [finish]
    of it commits there. *)
Definition recorded (w1 : World) (e : ExecutionRecord) (t : ExecutionTerminal) : Prop :=
  er_state e = ExecutionTerminated t ∧
  (e ∈ executions w1 ∨ ∃ terminal next ended,
     operation_mutation (OpFinish (er_id e) terminal) (state_of w1) = Some (Ok (next, ended)) ∧
     e ∈ pes_executions next).

Lemma settle_cancelled_recorded w execution public signal w' res :
  env_ok → settle_cancelled w execution public signal = Some (w', Ok res) →
  ∃ w1 e t, rtc world_step w w1 ∧ recorded w1 e t ∧
            cres_status res = status_of_outcome (et_outcome t).
Proof.
  intros Henv Hs. pose proof (settle_cancelled_rtc _ _ _ _ _ _ Henv Hs) as Hrtc.
  unfold settle_cancelled in Hs.
  assert (∀ w0, Some (w0, settled ← ok_or SessionUnavailable
             (execution_for_public_session (state_of w0) public);
             match er_state settled with
             | ExecutionTerminated terminal => Ok (result_from_terminal settled terminal)
             | _ => Err ExecutionConflict
             end) = Some (w', Ok res) →
    ∃ w1 e t, rtc world_step w w1 ∧ recorded w1 e t ∧
            cres_status res = status_of_outcome (et_outcome t)) as Hgo.
  { intros w0 Hw0. injection Hw0 as -> Hr.
    destruct (execution_for_public_session _ _) as [e|] eqn:Hf; simpl in Hr; [|done].
    destruct (er_state e) as [| |t] eqn:Hst; simplify_eq.
    exists w', e, t. split; [done|]. split; [|done]. split; [done|left].
    by apply find_by_public in Hf as [? _]. }
  destruct (run_finish _ _ _) as [w2 [[ended|[]]|]]; try done; by eapply Hgo.
Qed.

Lemma settle_observation_recorded w request execution observation w' res :
  env_ok → settle_observation w request execution observation = Some (w', Ok res) →
  cres_status res ≠ StatusRunning →
  ∃ w1 e t, rtc world_step w w1 ∧ recorded w1 e t ∧
            cres_status res = status_of_outcome (et_outcome t).
Proof.
  intros Henv. unfold settle_observation. destruct (_ && _); [done|].
  set (signal := cancellation_signal _ _).
  destruct (terminal_outcome _) as [o|] eqn:Ho; simpl.
  2:{ intros [= _ <-]. simpl. by destruct (rco_status observation). }
  destruct (run_finish _ _ _) as [w1 [[ended|e]|]] eqn:Hf; intros Hr; simplify_eq. intros _.
  apply run_finish_recorded in Hf as (next & e & t & Hm & Hin & Hid & Hst & Hout).
  exists (env 2%nat w), e, t. split; [apply Henv|]. split.
  - split; [done|]. right. rewrite Hid. eauto.
  - simpl in *. rewrite Hout. destruct (bool_decide (is_Some signal)); [done|].
    destruct (rco_status observation); simpl in Ho; [done|by injection Ho as <-..].
Qed.

(** A terminal status that the handler reports has been
    recorded: whenever it answers with a status other than running, some
    registry state of the run holds, or a [finish] commits there, a terminal
    record with exactly the outcome that status stands for. *)
Theorem reported_status_is_recorded w request w' res
    (Henv : env_ok) (Hc : control_command_during_work w request = Some (w', Ok res))
    (Hstatus : cres_status res ≠ StatusRunning) :
  ∃ w1 e t, rtc world_step w w1 ∧ recorded w1 e t ∧
            cres_status res = status_of_outcome (et_outcome t).
Proof.
  unfold control_command_during_work in Hc. destruct (_ && _); [done|].
  destruct (execution_for_public_session _ _) as [e|] eqn:Hf; [|done].
  assert (∀ w0 handle, rtc world_step w w0 → call_runtime w0 request e handle = Some (w', Ok res) →
    ∃ w1 e t, rtc world_step w w1 ∧ recorded w1 e t ∧
            cres_status res = status_of_outcome (et_outcome t)) as Hcall.
  { intros w0 handle Hw0. unfold call_runtime.
    assert (rtc world_step w (env 1 w0)) as Hw1 by (etransitivity; [done|apply Henv]).
    destruct (control_command _) as [observation|error]; [|destruct (_ && _); [|done]]; intros Hr.
    - destruct (settle_observation_recorded _ _ _ _ _ _ Henv Hr Hstatus) as (w1 & e1 & t & ? & ?).
      exists w1, e1, t. split; [by etransitivity|done].
    - destruct (settle_cancelled_recorded _ _ _ _ _ _ Henv Hr) as (w1 & e1 & t & ? & ?).
      exists w1, e1, t. split; [by etransitivity|done]. }
  destruct (er_state e) as [| |t] eqn:Hst.
  3:{ case_bool_decide; simplify_eq. exists w', e, t. split; [done|]. split; [|done].
      split; [done|left]. by apply find_by_public in Hf as [? _]. }
  all: destruct (er_runtime_handle e) as [handle|]; [|done];
    case_bool_decide; [|by eapply Hcall];
    destruct (request_cancellation _ _ _) as [inner [[[]|err]|]] eqn:Hr; [|done..];
    (eapply Hcall; [|done]); (eapply rtc_r; [apply (Henv 0%nat)|]);
    by eapply request_cancellation_rtc.
Qed.

(** A command that is already terminal is answered from its
    record without consulting the runtime and without any change: a poll reports
    the recorded outcome, a kill or a non-empty write is refused. *)
Theorem terminal_command_is_answered w request execution t
    (Hf : execution_for_public_session (state_of w) (ccr_public_session_id request) = Some execution)
    (Hst : er_state execution = ExecutionTerminated t) :
  control_command_during_work w request =
  Some (w, match ccr_action request, ccr_chars request with
           | ActionPoll, _ => Ok (result_from_terminal execution t)
           | ActionWrite, (None | Some EmptyString) => Err InvalidRequest
           | _, _ => Err SessionUnavailable
           end).
Proof.
  unfold control_command_during_work. rewrite Hf, Hst.
  destruct (ccr_action request), (ccr_chars request) as [[|c chars]|]; done.
Qed.

Lemma kill_requested public signal inner execution :
  execution_for_public_session (eri_state inner) public = Some execution →
  record_terminal execution = false →
  let inner' := inner <| eri_cancellation_signals ::=
                  <[er_id execution := signal_as_str signal]> |> in
  request_cancellation public (signal_as_str signal) inner = (inner', Returned (Ok ())) ∧
  cancellation_signal public inner' = Some (signal_as_str signal).
Proof.
  unfold execution_for_public_session. intros Hf Hl. simpl.
  unfold request_cancellation, cancellation_signal. cbn [eri_state set_field]. simpl.
  rewrite Hf. simpl. rewrite Hl. unfold record_terminal in Hl. split.
  - by destruct (er_state execution), signal.
  - apply lookup_insert_eq.
Qed.

(** A kill is never reported as a success or as running.
    With no interference, killing a live command either observes that it still
    runs - then the caller gets [OperationTimedOut], the signal stays recorded
    and no record changes - or observes a terminal state, and then whatever the
    runtime says the process did, the status reported is [cancelled]. *)
Theorem kill_is_reported_cancelled w request execution handle observation
    (Henv : ∀ i w, env i w = w)
    (Hf : execution_for_public_session (state_of w) (ccr_public_session_id request) = Some execution)
    (Hl : record_terminal execution = false) (Hh : er_runtime_handle execution = Some handle)
    (Hkill : ccr_action request = ActionKill)
    (Hrun : ∀ rq, rcr_action rq = ActionKill → control_command rq = Ok observation) :
  (rco_status observation = StatusRunning →
     ∃ w', control_command_during_work w request = Some (w', Err OperationTimedOut) ∧
       cancellation_signal (ccr_public_session_id request) (w_inner w') =
         Some (signal_as_str (default SignalTerm (ccr_signal request))) ∧
       executions w' = executions w) ∧
  (rco_status observation ≠ StatusRunning →
     ∀ w' res, control_command_during_work w request = Some (w', Ok res) →
       cres_status res = StatusCancelled).
Proof.
  destruct (kill_requested _ (default SignalTerm (ccr_signal request)) _ _ Hf Hl) as [Hreq Hsig].
  assert (control_command_during_work w request =
    settle_observation (w <| w_inner := w_inner w <| eri_cancellation_signals ::=
        <[er_id execution := signal_as_str (default SignalTerm (ccr_signal request))]> |> |>)
      request execution observation) as ->.
  { unfold control_command_during_work. rewrite Hkill, Hf, Hh, Henv. simpl. rewrite Hreq.
    unfold record_terminal in Hl. unfold call_runtime.
    rewrite Hrun, !Henv by done. by destruct (er_state execution). }
  unfold settle_observation. rewrite Hkill. simpl. rewrite Hsig.
  rewrite (bool_decide_eq_true_2 (is_Some _)) by eauto. split.
  - intros ->. simpl. by eexists.
  - intros Hne w' res. rewrite (bool_decide_eq_false_2 _ Hne). simpl.
    destruct (rco_status observation); simpl; [done|..];
      (destruct (run_finish _ _ _) as [? [[?|?]|]]; intros [= _ <-]; done).
Qed.
End handler.

(** ** Witnesses: a live command with a runtime handle *)

Definition demo_live (state : ExecutionState) (observed : millis) : ExecutionRecord :=
  MkExecutionRecord (MkExecutionId "x") (MkTaskId "t") (MkPublicSessionId "p") None None
    (Some (MkRuntimeCommandHandle "h")) state 10 observed None.

Definition demo_cancelled : ExecutionTerminal :=
  MkExecutionTerminal Cancelled (Some 0%Z) (Some "TERM"%string) []
    (Some "ProcessCancelled"%string) 20.

Definition demo_control_codec : ExecutionCodec :=
  table_codec [durable (demo_state (demo_live (ExecutionTerminated demo_cancelled) 20))].
#[local] Existing Instance demo_control_codec.

Definition demo_observation (status : RuntimeCommandStatus) : RuntimeCommandObservation :=
  MkRuntimeCommandObservation status (Some 0%Z) None "out" "" None.
Definition demo_runtime (status : RuntimeCommandStatus) : RuntimeCommandControl :=
  λ _, Ok (demo_observation status).

Definition demo_world (e : ExecutionRecord) : World :=
  MkWorld (MkExecutionRegistryInner demo_path (demo_state e) ∅) ∅ ∅.
Definition demo_request (action : CommandControlAction) : CommandControlRequest :=
  MkCommandControlRequest action (Some "y"%string) None 100 (RpcNumber 1) (MkPublicSessionId "p").
Definition demo_quiet : nat → World → World := λ _ w, w.

Lemma demo_quiet_ok : env_ok demo_quiet.
Proof. intros i w. apply rtc_refl. Qed.

Definition demo_kill (status : RuntimeCommandStatus) : reply :=
  @control_command_during_work demo_control_codec (demo_runtime status) demo_quiet (λ _, 20)
    demo_io (demo_world (demo_live ExecutionRunning 10)) (demo_request ActionKill).

Lemma control_refines_registry_witness :
  ∃ w', rtc world_step (demo_world (demo_live ExecutionRunning 10)) w' ∧
    executions w' = [demo_live (ExecutionTerminated demo_cancelled) 20 <| er_runtime_handle := None |>].
Proof.
  destruct (demo_kill StatusCompleted) as [[w' r]|] eqn:Hk; [|by vm_compute in Hk].
  exists w'. split.
  - eapply (control_refines_registry (H0:=demo_runtime StatusCompleted)); [apply demo_quiet_ok|exact Hk].
  - vm_compute in Hk. injection Hk as <- _. by vm_compute.
Defined.

Lemma reported_status_is_recorded_witness :
  ∃ w1 e t, rtc world_step (demo_world (demo_live ExecutionRunning 10)) w1 ∧
    recorded w1 e t ∧ StatusCancelled = status_of_outcome (et_outcome t).
Proof.
  destruct (demo_kill StatusCompleted) as [[w' [res|e]]|] eqn:Hk; [|by vm_compute in Hk..].
  assert (cres_status res = StatusCancelled) as Hs.
  { pose proof Hk as Hk'. vm_compute in Hk'. by injection Hk' as _ <-. }
  rewrite <-Hs.
  eapply (reported_status_is_recorded (H0:=demo_runtime StatusCompleted));
    [apply demo_quiet_ok|exact Hk|by rewrite Hs].
Defined.

Lemma terminal_command_is_answered_witness :
  let w := demo_world (demo_live (ExecutionTerminated demo_cancelled) 20) in
  @control_command_during_work demo_control_codec (demo_runtime StatusRunning) demo_quiet
    (λ _, 20) demo_io w (demo_request ActionPoll) =
  Some (w, Ok (result_from_terminal (demo_live (ExecutionTerminated demo_cancelled) 20)
                 demo_cancelled)).
Proof.
  exact (terminal_command_is_answered (H0:=demo_runtime StatusRunning) demo_quiet (λ _, 20) demo_io
    (demo_world (demo_live (ExecutionTerminated demo_cancelled) 20)) (demo_request ActionPoll)
    (demo_live (ExecutionTerminated demo_cancelled) 20) demo_cancelled eq_refl eq_refl).
Defined.

Lemma kill_is_reported_cancelled_witness :
  ∃ w', demo_kill StatusRunning = Some (w', Err OperationTimedOut) ∧
    cancellation_signal (MkPublicSessionId "p") (w_inner w') = Some "TERM"%string.
Proof.
  edestruct (proj1 (kill_is_reported_cancelled (H0:=demo_runtime StatusRunning) demo_quiet (λ _, 20)
    demo_io (demo_world (demo_live ExecutionRunning 10)) (demo_request ActionKill)
    (demo_live ExecutionRunning 10) (MkRuntimeCommandHandle "h") (demo_observation StatusRunning)
    (λ _ _, eq_refl) eq_refl eq_refl eq_refl eq_refl (λ _ _, eq_refl)) eq_refl)
    as (w' & Hk & Hs & _).
  exists w'. by split.
Defined.
