(* ===== verification/Convergence.v ===== *)
(** * Convergence: desired, observed and effective state, and the reconciler

    [src/src-tauri/src/control_plane/convergence.rs].  The desired state has one
    versioned owner; the effective state is derived from it and from what is
    observed; the reconciler plans the next action from the three. *)

From S2P Require Import Prelude Text Domain TaskSummary StateModel Workspace.
#[local] Open Scope N_scope.

(** ** Data *)

(* @src tunnel/config.rs:7-8 TunnelId *)
Record TunnelId := MkTunnelId { tunnel_id_str : string }.

(* @src control_plane/convergence.rs:10-14 ServiceIntent *)
Inductive ServiceIntent := ServicesDisabled | ServicesEnabled.

(* @src control_plane/convergence.rs:16-20 DesiredWorkspace *)
Record DesiredWorkspace := MkDesiredWorkspace {
  dw_id : option WorkspaceId;
  dw_execution_path : path
}.
(* @src control_plane/convergence.rs:23-28 DesiredWorkspace::new *)
Definition new_desired_workspace (id : WorkspaceId) (execution_path : path) : DesiredWorkspace :=
  MkDesiredWorkspace (Some id) execution_path.
(* @src control_plane/convergence.rs:30-35 DesiredWorkspace::for_runtime_path *)
Definition for_runtime_path (execution_path : path) : DesiredWorkspace :=
  MkDesiredWorkspace None execution_path.

(* @src control_plane/convergence.rs:38-51 ConnectionProfile *)
Record ConnectionProfile := MkConnectionProfile {
  cp_tunnel_id : TunnelId;
  cp_credential_epoch : N
}.
#[export] Instance eta_ConnectionProfile : Eta ConnectionProfile := λ r,
  MkConnectionProfile (cp_tunnel_id r) (cp_credential_epoch r).

(* @src control_plane/convergence.rs:53-59 DesiredState *)
Record DesiredState := MkDesiredState {
  ds_permission : PermissionMode;
  ds_workspace : option DesiredWorkspace;
  ds_services : ServiceIntent;
  ds_connection : option ConnectionProfile
}.
#[export] Instance eta_DesiredState : Eta DesiredState := λ r,
  MkDesiredState (ds_permission r) (ds_workspace r) (ds_services r) (ds_connection r).

(* @src control_plane/convergence.rs:61-70 DesiredState::default *)
Definition default_desired : DesiredState :=
  MkDesiredState PermissionEdit None ServicesDisabled None.

#[export] Instance TunnelId_eq_dec : EqDecision TunnelId.
Proof. solve_decision. Defined.
#[export] Instance ServiceIntent_eq_dec : EqDecision ServiceIntent.
Proof. solve_decision. Defined.
#[export] Instance DesiredWorkspace_eq_dec : EqDecision DesiredWorkspace.
Proof. solve_decision. Defined.
#[export] Instance ConnectionProfile_eq_dec : EqDecision ConnectionProfile.
Proof. solve_decision. Defined.
#[export] Instance DesiredState_eq_dec : EqDecision DesiredState.
Proof. solve_decision. Defined.

(* @src control_plane/convergence.rs:72-82 DesiredStateSnapshot, VersionedDesiredState *)
Record VersionedDesiredState := MkVersionedDesiredState {
  vds_revision : N;
  vds_state : DesiredState
}.
#[export] Instance eta_VersionedDesiredState : Eta VersionedDesiredState := λ r,
  MkVersionedDesiredState (vds_revision r) (vds_state r).

(* @src control_plane/convergence.rs:84-91 VersionedDesiredState::default *)
Definition default_versioned : VersionedDesiredState := MkVersionedDesiredState 1 default_desired.

(** ** The owner of the desired state *)

(* @src control_plane/convergence.rs:142-153 DesiredStateOwner::mutate *)
Definition mutate (update : DesiredState → DesiredState) (current : VersionedDesiredState) :
    VersionedDesiredState * N :=
  let before := vds_state current in
  let current := current <| vds_state ::= update |> in
  let current :=
    if bool_decide (vds_state current = before) then current
    else current <| vds_revision ::= λ r, saturating_add u64_max r 1 |> in
  (current, vds_revision current).

(* @src control_plane/convergence.rs:114-116 DesiredStateOwner::replace *)
Definition replace_desired (state : DesiredState) := mutate (λ _, state).
(* @src control_plane/convergence.rs:118-120 DesiredStateOwner::set_permission *)
Definition set_permission (permission : PermissionMode) :=
  mutate (λ s, s <| ds_permission := permission |>).
(* @src control_plane/convergence.rs:122-124 DesiredStateOwner::set_workspace *)
Definition set_workspace (workspace : option DesiredWorkspace) :=
  mutate (λ s, s <| ds_workspace := workspace |>).
(* @src control_plane/convergence.rs:126-128 DesiredStateOwner::set_services *)
Definition set_services (services : ServiceIntent) :=
  mutate (λ s, s <| ds_services := services |>).
(* @src control_plane/convergence.rs:130-132 DesiredStateOwner::set_connection *)
Definition set_connection (connection : option ConnectionProfile) :=
  mutate (λ s, s <| ds_connection := connection |>).
(* @src control_plane/convergence.rs:134-140 DesiredStateOwner::mark_credentials_changed *)
Definition mark_credentials_changed :=
  mutate (λ s, s <| ds_connection ::= fmap (M:=option) (λ c,
    c <| cp_credential_epoch ::= λ e, saturating_add u64_max e 1 |>) |>).

Inductive desired_step : VersionedDesiredState → VersionedDesiredState → Prop :=
  | StepReplace state d : desired_step d (replace_desired state d).1
  | StepSetPermission permission d : desired_step d (set_permission permission d).1
  | StepSetWorkspace workspace d : desired_step d (set_workspace workspace d).1
  | StepSetServices services d : desired_step d (set_services services d).1
  | StepSetConnection connection d : desired_step d (set_connection connection d).1
  | StepCredentials d : desired_step d (mark_credentials_changed d).1.

#[export] Instance desired_machine : StateMachine VersionedDesiredState := {|
  sm_init d := d = default_versioned;
  sm_step := desired_step
|}.

(** ** Observed and effective state *)

(* @src control_plane/convergence.rs:156-162 ObservedState *)
Record ObservedState := MkObservedState {
  os_broker : PrivilegeState;
  os_runtime : RuntimeState;
  os_workspace : option path;
  os_connection : option ConnectionProfile
}.

(* @src control_plane/convergence.rs:164-172 AuthorityReconciliation *)
Inductive AuthorityReconciliation :=
  | AuthorityConverged | AuthorizationRequired | AwaitingAuthorization
  | BrokerUnavailable | DisablePending.
(* @src control_plane/convergence.rs:174-179 StructuredPathAuthority *)
Inductive StructuredPathAuthority := ActiveWorkspace | AdministratorBroker.

(* @src control_plane/convergence.rs:181-187 EffectiveAuthority *)
Record EffectiveAuthority := MkEffectiveAuthority {
  ea_configured : PermissionMode;
  ea_execution : PermissionMode;
  ea_structured_paths : StructuredPathAuthority;
  ea_reconciliation : AuthorityReconciliation
}.

(** [WorkspaceUnavailableReason] and [ConnectionUnavailableReason] have the
    same variants. *)
(* @src control_plane/convergence.rs:189-194 WorkspaceUnavailableReason *)
Inductive UnavailableReason := NotConfigured | RuntimeNotReady | DesiredObservedDiverged.
(* @src control_plane/convergence.rs:196-200 EffectiveWorkspaceAuthority *)
Inductive EffectiveWorkspaceAuthority :=
  | WorkspaceAvailable (workspace : DesiredWorkspace)
  | WorkspaceUnavailable (reason : UnavailableReason).
(* @src control_plane/convergence.rs:203-205 EffectiveWorkspaceAuthority::is_available *)
Definition workspace_is_available (w : EffectiveWorkspaceAuthority) : bool :=
  match w with WorkspaceAvailable _ => true | _ => false end.
(* @src control_plane/convergence.rs:208-214 EffectiveServiceState *)
Inductive EffectiveServiceState :=
  | ServiceDisabled | ServiceReconciling | ServiceAvailable | ServiceUnavailable.
(* @src control_plane/convergence.rs:216-227 ConnectionUnavailableReason, EffectiveConnection *)
Inductive EffectiveConnection :=
  | ConnectionAvailable (profile : ConnectionProfile)
  | ConnectionUnavailable (reason : UnavailableReason).

#[export] Instance StructuredPathAuthority_eq_dec : EqDecision StructuredPathAuthority.
Proof. solve_decision. Defined.
#[export] Instance AuthorityReconciliation_eq_dec : EqDecision AuthorityReconciliation.
Proof. solve_decision. Defined.
#[export] Instance EffectiveServiceState_eq_dec : EqDecision EffectiveServiceState.
Proof. solve_decision. Defined.

(* @src control_plane/convergence.rs:229-235 EffectiveState *)
Record EffectiveState := MkEffectiveState {
  es_authority : EffectiveAuthority;
  es_workspace : EffectiveWorkspaceAuthority;
  es_services : EffectiveServiceState;
  es_connection : EffectiveConnection
}.

(* @src control_plane/convergence.rs:238-248 EffectiveState::work_is_authorized *)
Definition work_is_authorized (e : EffectiveState) : bool :=
  workspace_is_available (es_workspace e) &&
  bool_decide (es_services e = ServiceAvailable) &&
  negb match es_connection e with
       | ConnectionUnavailable (RuntimeNotReady | DesiredObservedDiverged) => true
       | _ => false
       end.

(* @src control_plane/convergence.rs:251-257 ConvergenceSnapshot *)
Record ConvergenceSnapshot := MkConvergenceSnapshot {
  cvs_desired_revision : N;
  cvs_desired : DesiredState;
  cvs_observed : ObservedState;
  cvs_effective : EffectiveState
}.

(* @src control_plane/convergence.rs:375-414 derive_authority *)
Definition derive_authority (configured : PermissionMode) (broker : PrivilegeState) :
    EffectiveAuthority :=
  if negb (bool_decide (configured = PermissionElevated)) then
    MkEffectiveAuthority configured configured ActiveWorkspace
      match broker with PrivilegeDisabled => AuthorityConverged | _ => DisablePending end
  else
    match broker with
    | PrivilegeActive _ =>
        MkEffectiveAuthority configured PermissionElevated AdministratorBroker AuthorityConverged
    | PrivilegeDisabled =>
        MkEffectiveAuthority configured PermissionFull ActiveWorkspace AuthorizationRequired
    | PrivilegeRequested | PrivilegeAwaitingUac =>
        MkEffectiveAuthority configured PermissionFull ActiveWorkspace AwaitingAuthorization
    | PrivilegeFaulted _ =>
        MkEffectiveAuthority configured PermissionFull ActiveWorkspace BrokerUnavailable
    end.

(** A [path] stands for a Rust [Path] up to its equality, which compares components:
    two spellings of the same components are one [path]. *)
(* @src control_plane/convergence.rs:416-435 derive_workspace *)
Definition derive_workspace (desired : option DesiredWorkspace) (runtime : RuntimeState)
    (observed : option path) : EffectiveWorkspaceAuthority :=
  match desired with
  | None => WorkspaceUnavailable NotConfigured
  | Some desired =>
      if negb (runtime_is_ready runtime) then WorkspaceUnavailable RuntimeNotReady
      else if negb (bool_decide (observed = Some (dw_execution_path desired)))
      then WorkspaceUnavailable DesiredObservedDiverged
      else WorkspaceAvailable desired
  end.

(* @src control_plane/convergence.rs:437-454 derive_services *)
Definition derive_services (intent : ServiceIntent) (runtime : RuntimeState) :
    EffectiveServiceState :=
  if bool_decide (intent = ServicesDisabled) then ServiceDisabled else
  match runtime with
  | RuntimeReady => ServiceAvailable
  | RuntimeFaulted _ => ServiceUnavailable
  | RuntimeStopped => ServiceReconciling
  | StartingMcp | WaitingMcpReady | StartingPolicyEnforcement | WaitingPolicyReady
  | StartingTunnel | WaitingTunnelReady | Recovering _ _ | SwitchingWorkspace _ _ =>
      ServiceReconciling
  end.

(* @src control_plane/convergence.rs:456-473 derive_connection *)
Definition derive_connection (desired : option ConnectionProfile) (runtime : RuntimeState)
    (observed : option ConnectionProfile) : EffectiveConnection :=
  match desired with
  | None => ConnectionUnavailable NotConfigured
  | Some desired =>
      if negb (runtime_is_ready runtime) then ConnectionUnavailable RuntimeNotReady
      else if negb (bool_decide (observed = Some desired))
      then ConnectionUnavailable DesiredObservedDiverged
      else ConnectionAvailable desired
  end.

(* @src control_plane/convergence.rs:351-372 ConvergenceSnapshot::derive *)
Definition derive (desired : VersionedDesiredState) (observed : ObservedState) :
    ConvergenceSnapshot :=
  let state := vds_state desired in
  MkConvergenceSnapshot (vds_revision desired) state observed
    (MkEffectiveState
       (derive_authority (ds_permission state) (os_broker observed))
       (derive_workspace (ds_workspace state) (os_runtime observed) (os_workspace observed))
       (derive_services (ds_services state) (os_runtime observed))
       (derive_connection (ds_connection state) (os_runtime observed) (os_connection observed))).

(** ** The reconciler *)

(* @src control_plane/convergence.rs:259-264 PermissionReconcileAction *)
Inductive PermissionReconcileAction :=
  | PermissionNone | RequestAuthorization | DisableBroker.
(* @src control_plane/convergence.rs:266-274 RuntimeReconcileAction *)
Inductive RuntimeReconcileAction :=
  | ReconcileNone | ReconcileStart | ReconcileStop | ApplyWorkspace (path : path)
  | RestartConnection | WaitForObservation.
(* @src control_plane/convergence.rs:276-283 ReconcilePlan, Reconciler *)
Record ReconcilePlan := MkReconcilePlan {
  rp_permission : PermissionReconcileAction;
  rp_runtime : RuntimeReconcileAction
}.

(* @src control_plane/convergence.rs:287-295 Reconciler::plan (permission) *)
Definition plan_permission (desired : PermissionMode) (broker : PrivilegeState) :
    PermissionReconcileAction :=
  match desired, broker with
  | PermissionElevated, (PrivilegeDisabled | PrivilegeRequested | PrivilegeFaulted _) =>
      RequestAuthorization
  | PermissionElevated, _ => PermissionNone
  | _, PrivilegeDisabled => PermissionNone
  | _, _ => DisableBroker
  end.

(* @src control_plane/convergence.rs:297-342 Reconciler::plan (runtime) *)
Definition plan_runtime (snapshot : ConvergenceSnapshot) : RuntimeReconcileAction :=
  let runtime := os_runtime (cvs_observed snapshot) in
  match ds_services (cvs_desired snapshot) with
  | ServicesDisabled => if bool_decide (runtime ≠ RuntimeStopped) then ReconcileStop else ReconcileNone
  | ServicesEnabled =>
    match runtime with
    | RuntimeStopped | RuntimeFaulted _ => ReconcileStart
    | RuntimeReady =>
      match es_workspace (cvs_effective snapshot) with
      | WorkspaceUnavailable DesiredObservedDiverged =>
          match ds_workspace (cvs_desired snapshot) with
          | Some workspace => ApplyWorkspace (dw_execution_path workspace)
          | None => WaitForObservation
          end
      | WorkspaceUnavailable _ => WaitForObservation
      | WorkspaceAvailable _ =>
          match es_connection (cvs_effective snapshot) with
          | ConnectionUnavailable DesiredObservedDiverged => RestartConnection
          | _ => ReconcileNone
          end
      end
    | StartingMcp | WaitingMcpReady | StartingPolicyEnforcement | WaitingPolicyReady
    | StartingTunnel | WaitingTunnelReady | Recovering _ _ | SwitchingWorkspace _ _ =>
        WaitForObservation
    end
  end.

(* @src control_plane/convergence.rs:286-347 Reconciler::plan *)
Definition plan (snapshot : ConvergenceSnapshot) : ReconcilePlan :=
  MkReconcilePlan
    (plan_permission (ds_permission (cvs_desired snapshot)) (os_broker (cvs_observed snapshot)))
    (plan_runtime snapshot).

(** ** Properties *)

Lemma mutate_spec f d :
  vds_revision d ≤ u64_max →
  vds_revision d ≤ vds_revision (mutate f d).1 ∧ vds_revision (mutate f d).1 ≤ u64_max ∧
  (vds_revision (mutate f d).1 < u64_max → vds_revision (mutate f d).1 = vds_revision d →
   vds_state (mutate f d).1 = vds_state d).
Proof.
  intros Hd. unfold mutate, saturating_add. cbn. case_bool_decide as Heq; cbn.
  - done.
  - split_and!; lia.
Qed.

Lemma desired_step_mutate d d' : desired_step d d' → ∃ f, d' = (mutate f d).1.
Proof. intros []; by eexists. Qed.

(** The revision of the desired state never decreases, and below
    the saturation point it identifies the state: if it is the same after any
    sequence of accepted changes, the desired state is the same. *)
Theorem desired_revision_identifies_state d d'
    (Hd : vds_revision d ≤ u64_max) (Hs : rtc sm_step d d') :
  vds_revision d ≤ vds_revision d' ∧
  (vds_revision d' < u64_max → vds_revision d' = vds_revision d → vds_state d' = vds_state d).
Proof.
  cut (vds_revision d ≤ vds_revision d' ∧ vds_revision d' ≤ u64_max ∧
    (vds_revision d' < u64_max → vds_revision d' = vds_revision d → vds_state d' = vds_state d)).
  { tauto. }
  revert Hd. induction Hs as [d|d d1 d' Hs _ IH]; intros Hd; [done|].
  apply desired_step_mutate in Hs as [f ->].
  destruct (mutate_spec f d Hd) as (Hle & Hmax & Hsame).
  destruct (IH Hmax) as (Hle' & Hmax' & Hsame'). split_and!; [lia..|].
  intros Hlt Heq. rewrite Hsame', Hsame by lia. done.
Qed.

Definition mode_rank (m : PermissionMode) : nat :=
  match m with PermissionEdit => 0 | PermissionFull => 1 | PermissionElevated => 2 end.

(** Elevation needs both the user's choice and a live broker.
    The effective execution mode is elevated, and structured paths go through
    the administrator broker, exactly when elevation is configured and the
    broker is active; the execution mode never exceeds the configured one; and
    the authority is reported as converged exactly when the plan asks nothing of
    the broker and no authorization is in progress. *)
Theorem effective_authority_is_safe configured broker :
  let a := derive_authority configured broker in
  (ea_execution a = PermissionElevated ↔
     configured = PermissionElevated ∧ accepts_privileged_calls broker = true) ∧
  (ea_structured_paths a = AdministratorBroker ↔ ea_execution a = PermissionElevated) ∧
  (mode_rank (ea_execution a) ≤ mode_rank configured)%nat ∧
  (ea_reconciliation a = AuthorityConverged ↔
     plan_permission configured broker = PermissionNone ∧ broker ≠ PrivilegeAwaitingUac).
Proof. destruct configured, broker; simpl; (split_and!; [naive_solver..|lia|naive_solver]). Qed.

(** C21 (equivalence): Work is authorised exactly when there is nothing left to
    reconcile.  For the state derived from a desired and an observed state, work
    is authorised iff services are wanted and the runtime plan is empty; and the
    plan is empty iff services are off and the runtime is stopped, or services
    are on, the runtime is ready, it runs in the desired workspace, and it uses
    the desired connection if there is one. *)
Theorem work_authorized_iff_converged d o :
  let c := derive d o in let s := vds_state d in
  (work_is_authorized (cvs_effective c) = true ↔
     ds_services s = ServicesEnabled ∧ rp_runtime (plan c) = ReconcileNone) ∧
  (rp_runtime (plan c) = ReconcileNone ↔
     ds_services s = ServicesDisabled ∧ os_runtime o = RuntimeStopped ∨
     ds_services s = ServicesEnabled ∧ os_runtime o = RuntimeReady ∧
     (∃ w, ds_workspace s = Some w ∧ os_workspace o = Some (dw_execution_path w)) ∧
     (ds_connection s = None ∨ os_connection o = ds_connection s)).
Proof.
  destruct d as [rev [perm ws services conn]], o as [broker runtime ows oconn]. simpl.
  unfold plan, plan_runtime, derive, work_is_authorized, derive_workspace, derive_connection,
    derive_services. simpl.
  destruct services; simpl.
  { rewrite andb_false_r. simpl. case_bool_decide; naive_solver. }
  destruct runtime; simpl; try (destruct ws; simpl; naive_solver).
  destruct ws as [w|]; simpl; [|naive_solver].
  case_bool_decide as Hw; simpl; [|naive_solver].
  destruct conn as [c|]; simpl; [|naive_solver].
  case_bool_decide as Hc; simpl; naive_solver.
Qed.

(** ** Witnesses *)

Definition demo_desired : VersionedDesiredState :=
  (set_services ServicesEnabled
    (set_workspace (Some (new_desired_workspace (MkWorkspaceId (lit "w")) "C:\w")) default_versioned).1).1.

Lemma desired_revision_identifies_state_witness :
  vds_revision demo_desired = 3 ∧
  vds_state (set_services ServicesEnabled demo_desired).1 = vds_state demo_desired.
Proof.
  split; [by vm_compute|].
  apply (desired_revision_identifies_state demo_desired (set_services ServicesEnabled demo_desired).1).
  - by vm_compute.
  - apply rtc_once, StepSetServices.
  - by vm_compute.
  - by vm_compute.
Defined.

Example converged_is_authorized :
  work_is_authorized (cvs_effective (derive demo_desired
    (MkObservedState PrivilegeDisabled RuntimeReady (Some "C:\w"%string) None))) = true.
Proof. by vm_compute. Qed.
