(* ===== verification/Effects.v ===== *)
(** * Effects: effectful code over an explicit state, with panics

    [eff S A] is a Rust function that may change the state [S] and may panic,
    which aborts the process ([None]).  Its weakest precondition [wp] is total:
    it promises that the code returns. *)

From S2P Require Import Prelude.

Definition eff (S A : Type) : Type := S → S * option A.

#[export] Instance eff_ret {S} : MRet (eff S) := λ A a s, (s, Some a).
#[export] Instance eff_bind {S} : MBind (eff S) := λ A B f m s,
  match m s with
  | (s', Some a) => f a s'
  | (s', None) => (s', None)
  end.
#[export] Instance eff_fmap {S} : FMap (eff S) := λ A B f m s,
  let '(s', o) := m s in (s', f <$> o).

Definition get_state {S} : eff S S := λ s, (s, Some s).
Definition modify {S} (f : S → S) : eff S unit := λ s, (f s, Some tt).
Definition panic {S A} : eff S A := λ s, (s, None).

(** [Option::expect]. *)
Definition expect {S A} (o : option A) : eff S A :=
  match o with Some a => mret a | None => panic end.

(** A fallible call and the [?] operator: [x ←? m; k] is [let x = m?; k]. *)
Definition bind_ok {S E A B} (m : eff S (result E A)) (k : A → eff S (result E B)) :
    eff S (result E B) :=
  r ← m; match r with Ok a => k a | Err e => mret (Err e) end.

Notation "x ←? m ; k" := (bind_ok m (λ x, k))
  (at level 20, m at level 100, k at level 200, right associativity, only parsing).

(** Code of a part of the state. *)
Definition lift_part {S T A} (get : T → S) (put : S → T → T) (m : eff S A) : eff T A := λ t,
  let '(s', o) := m (get t) in (put s' t, o).

(** ** Weakest preconditions *)

Definition wp {S A} (m : eff S A) (Q : A → S → Prop) (s : S) : Prop :=
  match m s with
  | (s', Some a) => Q a s'
  | (_, None) => False
  end.

Section wp.
Context {S : Type}.
Implicit Types s : S.

Lemma wp_ret {A} (a : A) (Q : A → S → Prop) s : Q a s → wp (mret a) Q s.
Proof. done. Qed.

Lemma wp_bind {A B} (m : eff S A) (f : A → eff S B) Q s :
  wp m (λ a, wp (f a) Q) s → wp (m ≫= f) Q s.
Proof. unfold wp, mbind, eff_bind. cbv beta. by destruct (m s) as [s' [a|]]. Qed.

Lemma wp_bind_ok {E A B} (m : eff S (result E A)) (k : A → eff S (result E B)) Q s :
  wp m (λ r s', match r with Ok a => wp (k a) Q s' | Err e => Q (Err e) s' end) s →
  wp (bind_ok m k) Q s.
Proof.
  unfold bind_ok. intros H. apply wp_bind. revert H. unfold wp.
  destruct (m s) as [s' [[a|e]|]]; done.
Qed.

Lemma wp_get (Q : S → S → Prop) s : Q s s → wp get_state Q s.
Proof. done. Qed.

Lemma wp_modify (f : S → S) (Q : unit → S → Prop) s : Q tt (f s) → wp (modify f) Q s.
Proof. done. Qed.

Lemma wp_expect {A} (o : option A) a (Q : A → S → Prop) s :
  o = Some a → Q a s → wp (expect o) Q s.
Proof. by intros ->. Qed.

Lemma wp_wand {A} (m : eff S A) (P Q : A → S → Prop) s :
  wp m P s → (∀ a s', P a s' → Q a s') → wp m Q s.
Proof. unfold wp. destruct (m s) as [s' [a|]]; auto. Qed.

Lemma wp_run {A} (m : eff S A) Q s :
  wp m Q s → ∃ s' a, m s = (s', Some a) ∧ Q a s'.
Proof. unfold wp. destruct (m s) as [s' [a|]]; [eauto|done]. Qed.

Lemma run_wp {A} (m : eff S A) (Q : A → S → Prop) s s' a :
  wp m Q s → m s = (s', Some a) → Q a s'.
Proof. unfold wp. intros H E. by rewrite E in H. Qed.
End wp.

Lemma wp_lift {S T A} (get : T → S) (put : S → T → T) (m : eff S A) Q t :
  wp m (λ a s', Q a (put s' t)) (get t) → wp (lift_part get put m) Q t.
Proof. unfold wp, lift_part. by destruct (m (get t)) as [s' [a|]]. Qed.

Lemma wp_fmap {S A B} (f : A → B) (m : eff S A) Q s :
  wp m (λ a, Q (f a)) s → wp (f <$> m) Q s.
Proof. unfold wp, fmap, eff_fmap. by destruct (m s) as [s' [a|]]. Qed.
