(* ===== verification/Orchestrator.v ===== *)
(** * Orchestrator: the lifecycle of the runtime

    [src/src-tauri/src/runtime/orchestrator.rs] and
    [src/src-tauri/src/runtime/cancellation.rs].  The orchestrator starts the
    MCP server, the policy enforcement point (PEP) and the tunnel in that order,
    stops them in the reverse order, recovers the smallest part that has failed
    and may be cancelled while it does.

    Its driver is an oracle: [answer] decides the outcome of a call from all
    that has happened, so the theorems hold for every driver.  Every call is
    recorded in the trace of the [World].  The definitions come first, then the
    protocol automaton that the traces obey ([protocol_step]). *)

From S2P Require Import Prelude StateModel Effects.
#[local] Open Scope N_scope.

(** ** The driver *)

Record McpHandle := MkMcpHandle { mcp_number : N }.
Record PepHandle := MkPepHandle { pep_number : N }.
Record TunnelHandle := MkTunnelHandle { tunnel_number : N }.

#[export] Instance McpHandle_eq_dec : EqDecision McpHandle.
Proof. solve_decision. Defined.
#[export] Instance PepHandle_eq_dec : EqDecision PepHandle.
Proof. solve_decision. Defined.
#[export] Instance TunnelHandle_eq_dec : EqDecision TunnelHandle.
Proof. solve_decision. Defined.

(** A method and its [*_for_recovery] variant, which drivers may override. *)
Inductive CallMode := Plain | ForRecovery.

(* @src runtime/orchestrator.rs:16-83 RuntimeDriver *)
Inductive Call :=
  | StartMcp (mode : CallMode)
  | ConfirmMcp (mode : CallMode) (mcp : McpHandle)
  | StartPep (mcp : McpHandle)
  | ConfirmPep (mode : CallMode) (pep : PepHandle)
  | StartTunnel (mode : CallMode) (pep : PepHandle)
  | ConfirmTunnel (mode : CallMode) (tunnel : TunnelHandle)
  | StopTunnel (tunnel : TunnelHandle)
  | StopPep (pep : PepHandle)
  | StopMcp (mcp : McpHandle)
  | ConfigureWorkspace (workspace : path)
  | ProbeMcp (pep : PepHandle)
  | ProbePep (pep : PepHandle)
  | ProbeTunnel (tunnel : TunnelHandle).

(* @src runtime/orchestrator.rs:1037-1044 OutageGenerationId *)
Record OutageGenerationId := MkOutageGenerationId { outage_generation_get : N }.

#[export] Instance OutageGenerationId_eq_dec : EqDecision OutageGenerationId.
Proof. solve_decision. Defined.

(* @src runtime/recovery.rs:117-121 RecoveryAttemptResult *)
Inductive RecoveryAttemptResult := AttemptRecovered | AttemptFailed (f : RuntimeFault) | AttemptCancelled.

(* @src runtime/recovery.rs:124-139 RecoveryAttemptEvent *)
Inductive RecoveryAttemptEvent :=
  | AttemptStarted (generation : OutageGenerationId) (request_id : string)
      (component : RuntimeComponent) (fault : RuntimeFault) (attempt : N)
  | AttemptFinished (generation : OutageGenerationId) (request_id : string)
      (component : RuntimeComponent) (attempt : N) (res : RecoveryAttemptResult).

(** What happens, newest first in a trace: calls with the number of the handle
    they would return and their fault, reads of a recovery permit, states shown
    to the projection.  The others are events of the recovery controller
    ([Recovery]): cancellations, its clock, and the attempts it reports. *)
Inductive Event :=
  | Called (c : Call) (number : N) (fault : option RuntimeFault)
  | PermitRead (cancelled : bool)
  | Projected (state : RuntimeState)
  | CancelRequested
  | ClockRead (now : N)
  | Slept (duration : N)
  | Observed (e : RecoveryAttemptEvent).

(** [epoch] is the counter behind every permit: other threads may raise it at
    any moment, and it never comes down. *)
Class RuntimeDriver := {
  answer : list Event → Call → option RuntimeFault;
  epoch : list Event → N;
  epoch_mono e t : epoch t ≤ epoch (e :: t);
  epoch_cancel t : epoch t < epoch (CancelRequested :: t)
}.

(** ** State *)

(* @src runtime/cancellation.rs:23-26 RecoveryPermit *)
Record RecoveryPermit := MkRecoveryPermit { captured : N }.

(* @src runtime/orchestrator.rs:135-138 RuntimeHealthFailure *)
Record RuntimeHealthFailure := MkRuntimeHealthFailure {
  hf_component : RuntimeComponent;
  hf_fault : RuntimeFault
}.

(* @src runtime/orchestrator.rs:141-145 RecoveryScope *)
Inductive RecoveryScope := ScopeTunnel | PolicyAndTunnel | FullRuntime.

(* @src runtime/orchestrator.rs:148-151 WorkspaceSwitchError *)
Record WorkspaceSwitchError := MkWorkspaceSwitchError {
  candidate_fault : RuntimeFault;
  candidate_cleanup_fault : option RuntimeFault
}.

(* @src runtime/orchestrator.rs:154-157 OrchestratorError *)
Record OrchestratorError := MkOrchestratorError {
  oe_fault : RuntimeFault;
  oe_cleanup_fault : option RuntimeFault
}.

(* @src runtime/orchestrator.rs:175-178 ReadyHandles *)
Record ReadyHandles := MkReadyHandles {
  ready_pep : PepHandle;
  ready_tunnel : TunnelHandle
}.

(* @src runtime/orchestrator.rs:1047-1053 OutageGeneration *)
Record OutageGeneration := MkOutageGeneration {
  og_id : OutageGenerationId;
  og_request_id : string;
  og_component : RuntimeComponent;
  og_fault : RuntimeFault;
  og_user_attention_emitted : bool
}.

(* @src runtime/orchestrator.rs:1062-1065 OutageTracker *)
Record OutageTracker := MkOutageTracker {
  ot_next_generation : N;
  ot_active : option OutageGeneration
}.

(* @src runtime/orchestrator.rs:180-187 RuntimeOrchestrator *)
Record RuntimeOrchestrator := MkRuntimeOrchestrator {
  ro_state : RuntimeState;
  ro_ready : option ReadyHandles;
  ro_recovering_pep : option PepHandle;
  ro_recovering_mcp : option McpHandle;
  ro_outages : OutageTracker
}.

(** The orchestrator and everything that happened to it. *)
Record World := MkWorld {
  w_orchestrator : RuntimeOrchestrator;
  w_trace : list Event
}.

#[export] Instance eta_OutageGeneration : Eta OutageGeneration := λ r,
  MkOutageGeneration (og_id r) (og_request_id r) (og_component r) (og_fault r)
    (og_user_attention_emitted r).
#[export] Instance eta_OutageTracker : Eta OutageTracker := λ r,
  MkOutageTracker (ot_next_generation r) (ot_active r).
#[export] Instance eta_RuntimeOrchestrator : Eta RuntimeOrchestrator := λ r,
  MkRuntimeOrchestrator (ro_state r) (ro_ready r) (ro_recovering_pep r)
    (ro_recovering_mcp r) (ro_outages r).
#[export] Instance eta_World : Eta World := λ r,
  MkWorld (w_orchestrator r) (w_trace r).

(** ** Outages *)

Definition outage_default : OutageTracker := MkOutageTracker 0 None.

(** [format!("req-recovery-...")] is an argument. *)
(* @src runtime/orchestrator.rs:1068-1085 OutageTracker::begin *)
Definition outage_begin (component : RuntimeComponent) (fault : RuntimeFault)
    (request_id : string) (self : OutageTracker) : OutageTracker * OutageGenerationId :=
  let next_generation :=
    N.max (saturating_add u64_max (ot_next_generation self) 1) 1 in
  let id := MkOutageGenerationId next_generation in
  (MkOutageTracker next_generation
     (Some (MkOutageGeneration id request_id component fault false)), id).

(** [self.active.as_mut().filter(|active| active.id == generation)]. *)
Definition active_if (generation : OutageGenerationId) (self : OutageTracker) :
    option OutageGeneration :=
  active ← ot_active self;
  if bool_decide (og_id active = generation) then Some active else None.

(* @src runtime/orchestrator.rs:1087-1101 OutageTracker::mark_user_attention_required *)
Definition outage_mark_attention (generation : OutageGenerationId) (self : OutageTracker) :
    OutageTracker * bool :=
  match active_if generation self with
  | None => (self, false)
  | Some active =>
      if og_user_attention_emitted active then (self, false)
      else (self <| ot_active := Some (active <| og_user_attention_emitted := true |>) |>, true)
  end.

(* @src runtime/orchestrator.rs:1103-1119 OutageTracker::refresh *)
Definition outage_refresh (generation : OutageGenerationId) (component : RuntimeComponent)
    (fault : RuntimeFault) (self : OutageTracker) : OutageTracker * bool :=
  match active_if generation self with
  | None => (self, false)
  | Some active =>
      (self <| ot_active :=
         Some (active <| og_component := component |> <| og_fault := fault |>) |>, true)
  end.

(* @src runtime/orchestrator.rs:1121-1132 OutageTracker::clear *)
Definition outage_clear (generation : OutageGenerationId) (self : OutageTracker) :
    OutageTracker * bool :=
  match active_if generation self with
  | Some _ => (self <| ot_active := None |>, true)
  | None => (self, false)
  end.

(** ** Calls and small steps *)

Abbreviation prog A := (eff World (result OrchestratorError A)).

Definition no_cleanup (fault : RuntimeFault) : OrchestratorError :=
  MkOrchestratorError fault None.

(** [Result::err]. *)
Definition err {E A} (r : result E A) : option E :=
  match r with Ok _ => None | Err e => Some e end.

Definition emit (e : Event) : eff World unit := modify (λ w, w <| w_trace ::= cons e |>).
Definition with_orchestrator (f : RuntimeOrchestrator → RuntimeOrchestrator) : eff World unit :=
  modify (λ w, w <| w_orchestrator ::= f |>).
Definition orchestrator : eff World RuntimeOrchestrator := λ w, (w, Some (w_orchestrator w)).
Definition set_state (state : RuntimeState) : eff World unit :=
  with_orchestrator (λ o, o <| ro_state := state |>).
Definition set_ready (ready : option ReadyHandles) : eff World unit :=
  with_orchestrator (λ o, o <| ro_ready := ready |>).
Definition set_recovering_pep (pep : option PepHandle) : eff World unit :=
  with_orchestrator (λ o, o <| ro_recovering_pep := pep |>).
Definition set_recovering_mcp (mcp : option McpHandle) : eff World unit :=
  with_orchestrator (λ o, o <| ro_recovering_mcp := mcp |>).

Section driver.
Context `{!RuntimeDriver}.

(** One call of the driver: a fresh handle or a fault. *)
Definition call {A} (handle : N → A) (c : Call) : eff World (result RuntimeFault A) := λ w,
  let number := N.of_nat (length (w_trace w)) in
  let fault := answer (w_trace w) c in
  (w <| w_trace ::= cons (Called c number fault) |>,
   Some (match fault with None => Ok (handle number) | Some f => Err f end)).

Definition start_mcp (mode : CallMode) := call MkMcpHandle (StartMcp mode).
Definition confirm_mcp (mode : CallMode) (mcp : McpHandle) := call (λ _, ()) (ConfirmMcp mode mcp).
Definition start_pep (mcp : McpHandle) := call MkPepHandle (StartPep mcp).
Definition confirm_pep (mode : CallMode) (pep : PepHandle) := call (λ _, ()) (ConfirmPep mode pep).
Definition start_tunnel (mode : CallMode) (pep : PepHandle) :=
  call MkTunnelHandle (StartTunnel mode pep).
Definition confirm_tunnel (mode : CallMode) (t : TunnelHandle) :=
  call (λ _, ()) (ConfirmTunnel mode t).
Definition stop_tunnel (t : TunnelHandle) := call (λ _, ()) (StopTunnel t).
Definition stop_pep (pep : PepHandle) := call MkMcpHandle (StopPep pep).
Definition stop_mcp (mcp : McpHandle) := call (λ _, ()) (StopMcp mcp).

(* @src runtime/cancellation.rs:29-31 RecoveryPermit::is_cancelled *)
Definition is_cancelled (permit : RecoveryPermit) : eff World bool := λ w,
  let cancelled := bool_decide (epoch (w_trace w) ≠ captured permit) in
  (w <| w_trace ::= cons (PermitRead cancelled) |>, Some cancelled).

(* @src runtime/orchestrator.rs:987-996 RuntimeOrchestrator::check_recovery_permit *)
Definition check_recovery_permit (permit : RecoveryPermit) : prog unit :=
  cancelled ← is_cancelled permit;
  mret (if cancelled : bool then Err (no_cleanup UserStopped) else Ok ()).

(** [observer] tells whether the projection is a real one or [|_| {}]. *)
(* @src runtime/orchestrator.rs:998-1004 RuntimeOrchestrator::transition *)
Definition transition (observer : bool) (state : RuntimeState) : eff World unit :=
  set_state state;; if observer then emit (Projected state) else mret ().

(* @src runtime/orchestrator.rs:1013-1028 RuntimeOrchestrator::fail *)
Definition fail (observer : bool) (fault : RuntimeFault) (cleanup_fault : option RuntimeFault) :
    eff World OrchestratorError :=
  transition observer (RuntimeFaulted fault);;
  mret (MkOrchestratorError fault cleanup_fault).

(* @src runtime/orchestrator.rs:1006-1011 RuntimeOrchestrator::fail_without_cleanup *)
Definition fail_without_cleanup (observer : bool) (fault : RuntimeFault) :
    eff World OrchestratorError := fail observer fault None.

(* @src runtime/orchestrator.rs:1031-1035 merge_cleanup_fault *)
Definition merge_cleanup_fault (target candidate : option RuntimeFault) : option RuntimeFault :=
  match target with None => candidate | Some _ => target end.

(** [return Err(self.fail(...))]. *)
Definition failing {A} (e : eff World OrchestratorError) : prog A := Err <$> e.

(** ** Starting and stopping *)

(* @src runtime/orchestrator.rs:203-212 RuntimeOrchestrator::new *)
Definition runtime_new : RuntimeOrchestrator :=
  MkRuntimeOrchestrator RuntimeStopped None None None outage_default.

(* @src runtime/orchestrator.rs:572-577 RuntimeOrchestrator::cleanup_pep *)
Definition cleanup_pep (pep : PepHandle) : eff World (option RuntimeFault) :=
  r ← stop_pep pep;
  match r with
  | Ok mcp => err <$> stop_mcp mcp
  | Err fault => mret (Some fault)
  end.

(** [match self.driver.probe_...().map_err(|fault| RuntimeHealthFailure {..})?]. *)
Definition probe (component : RuntimeComponent) (c : Call) :
    eff World (result RuntimeHealthFailure unit) :=
  map_err (MkRuntimeHealthFailure component) <$> call (λ _, ()) c.

(* @src runtime/orchestrator.rs:272-301 RuntimeOrchestrator::probe_ready_health *)
Definition probe_ready_health : eff World (result RuntimeHealthFailure unit) :=
  o ← orchestrator;
  if negb (bool_decide (ro_state o = RuntimeReady)) then mret (Ok ()) else
  match ro_ready o with
  | None => mret (Err (MkRuntimeHealthFailure CodingRuntime ConfigurationInvalid))
  | Some ready =>
      _ ←? probe CodingRuntime (ProbeMcp (ready_pep ready));
      _ ←? probe PolicyEnforcement (ProbePep (ready_pep ready));
      probe TunnelComponent (ProbeTunnel (ready_tunnel ready))
  end.

(* @src runtime/orchestrator.rs:307-368 RuntimeOrchestrator::start_with_state_projection *)
Definition start_with_state_projection (observer : bool) : prog unit :=
  o ← orchestrator;
  if bool_decide (is_Some (ro_ready o)) || bool_decide (is_Some (ro_recovering_pep o)) ||
     bool_decide (is_Some (ro_recovering_mcp o)) ||
     negb (bool_decide (ro_state o = RuntimeStopped))
  then mret (Err (no_cleanup ConfigurationInvalid)) else
  transition observer StartingMcp;;
  r ← start_mcp Plain;
  match r with
  | Err fault => failing (fail_without_cleanup observer fault)
  | Ok mcp =>
  transition observer WaitingMcpReady;;
  r ← confirm_mcp Plain mcp;
  match r with
  | Err fault =>
      cleanup ← stop_mcp mcp;
      failing (fail observer fault (err cleanup))
  | Ok _ =>
  transition observer StartingPolicyEnforcement;;
  r ← start_pep mcp;
  match r with
  | Err fault => failing (fail_without_cleanup observer fault)
  | Ok pep =>
  transition observer WaitingPolicyReady;;
  r ← confirm_pep Plain pep;
  match r with
  | Err fault =>
      cleanup ← cleanup_pep pep;
      failing (fail observer fault cleanup)
  | Ok _ =>
  transition observer StartingTunnel;;
  r ← start_tunnel Plain pep;
  match r with
  | Err fault =>
      cleanup ← cleanup_pep pep;
      failing (fail observer fault cleanup)
  | Ok tunnel =>
  transition observer WaitingTunnelReady;;
  r ← confirm_tunnel Plain tunnel;
  match r with
  | Err fault =>
      stopped ← stop_tunnel tunnel;
      cleanup ← cleanup_pep pep;
      failing (fail observer fault (merge_cleanup_fault (err stopped) cleanup))
  | Ok _ =>
  set_ready (Some (MkReadyHandles pep tunnel));;
  transition observer RuntimeReady;;
  mret (Ok ())
  end end end end end end.

(* @src runtime/orchestrator.rs:303-305 RuntimeOrchestrator::start *)
Definition start : prog unit := start_with_state_projection false.

(* @src runtime/orchestrator.rs:388-400 RuntimeOrchestrator::stop_tunnel_for_exit *)
Definition stop_tunnel_for_exit : prog unit :=
  o ← orchestrator;
  match ro_ready o with
  | None => mret (Ok ())
  | Some (MkReadyHandles pep tunnel) =>
      set_ready None;;
      r ← stop_tunnel tunnel;
      set_recovering_pep (Some pep);;
      mret (map_err no_cleanup r)
  end.

(** The two [take]s of [finish_exit_after_tunnel], each with its clean-up fault. *)
Definition release_pep : eff World (option RuntimeFault) :=
  o ← orchestrator;
  match ro_recovering_pep o with
  | None => mret None
  | Some pep =>
      set_recovering_pep None;;
      r ← stop_pep pep;
      match r with
      | Ok mcp => set_recovering_mcp (Some mcp);; mret None
      | Err fault => mret (Some fault)
      end
  end.

Definition release_mcp : eff World (option RuntimeFault) :=
  o ← orchestrator;
  match ro_recovering_mcp o with
  | None => mret None
  | Some mcp => set_recovering_mcp None;; err <$> stop_mcp mcp
  end.

(* @src runtime/orchestrator.rs:407-431 RuntimeOrchestrator::finish_exit_after_tunnel_with_state_projection *)
Definition finish_exit_with_state_projection (observer : bool) : prog unit :=
  pep_fault ← release_pep;
  mcp_fault ← release_mcp;
  match merge_cleanup_fault pep_fault mcp_fault with
  | Some fault => failing (fail observer fault None)
  | None => transition observer RuntimeStopped;; mret (Ok ())
  end.

(* @src runtime/orchestrator.rs:403-405 RuntimeOrchestrator::finish_exit_after_tunnel *)
Definition finish_exit_after_tunnel : prog unit := finish_exit_with_state_projection false.

(* @src runtime/orchestrator.rs:374-385 RuntimeOrchestrator::stop_with_state_projection *)
Definition stop_with_state_projection (observer : bool) : prog unit :=
  tunnel ← stop_tunnel_for_exit;
  remaining ← finish_exit_with_state_projection observer;
  match oe_fault <$> err tunnel, remaining with
  | None, result => mret result
  | Some fault, Ok _ => failing (fail observer fault None)
  | Some fault, Err error => failing (fail observer fault (Some (oe_fault error)))
  end.

(* @src runtime/orchestrator.rs:370-372 RuntimeOrchestrator::stop *)
Definition stop : prog unit := stop_with_state_projection false.

(** ** Outages and faults of the orchestrator *)

Definition on_outages {A} (f : OutageTracker → OutageTracker * A) : eff World A := λ w,
  let '(outages, a) := f (ro_outages (w_orchestrator w)) in
  (w <| w_orchestrator ::= (λ o, o <| ro_outages := outages |>) |>, Some a).

(* @src runtime/orchestrator.rs:433-439 RuntimeOrchestrator::begin_outage *)
Definition begin_outage (component : RuntimeComponent) (fault : RuntimeFault)
    (request_id : string) : eff World OutageGenerationId :=
  on_outages (outage_begin component fault request_id).

(* @src runtime/orchestrator.rs:441-443 RuntimeOrchestrator::mark_user_attention_required *)
Definition mark_user_attention_required (generation : OutageGenerationId) : eff World bool :=
  on_outages (outage_mark_attention generation).

(* @src runtime/orchestrator.rs:445-447 RuntimeOrchestrator::clear_outage *)
Definition clear_outage (generation : OutageGenerationId) : eff World bool :=
  on_outages (outage_clear generation).

(* @src runtime/orchestrator.rs:449-451 RuntimeOrchestrator::active_outage *)
Definition active_outage : eff World (option OutageGeneration) :=
  (λ o, ot_active (ro_outages o)) <$> orchestrator.

(* @src runtime/orchestrator.rs:453-460 RuntimeOrchestrator::refresh_outage *)
Definition refresh_outage (generation : OutageGenerationId) (component : RuntimeComponent)
    (fault : RuntimeFault) : eff World bool :=
  on_outages (outage_refresh generation component fault).

(* @src runtime/orchestrator.rs:462-464 RuntimeOrchestrator::record_fault *)
Definition record_fault (fault : RuntimeFault) : eff World unit :=
  set_state (RuntimeFaulted fault).

(* @src runtime/orchestrator.rs:466-471 RuntimeOrchestrator::mark_detected_coding_runtime_recovery *)
Definition mark_detected_coding_runtime_recovery : eff World unit :=
  set_state (Recovering CodingRuntime 0).

(** ** Recovery that cannot be cancelled *)

(** The first step of every recovery: [if let Some(mut ready) = self.ready.take()]. *)
Definition release_tunnel : prog unit :=
  o ← orchestrator;
  match ro_ready o with
  | None => mret (Ok ())
  | Some ready =>
      set_ready None;;
      r ← stop_tunnel (ready_tunnel ready);
      match r with
      | Err fault => set_ready (Some ready);; mret (Err (no_cleanup fault))
      | Ok _ => set_recovering_pep (Some (ready_pep ready));; mret (Ok ())
      end
  end.

(** [if let Some(pep) = self.recovering_pep.take()]. *)
Definition reclaim_mcp : prog unit :=
  o ← orchestrator;
  match ro_recovering_pep o with
  | None => mret (Ok ())
  | Some pep =>
      set_recovering_pep None;;
      r ← stop_pep pep;
      match r with
      | Ok mcp => set_recovering_mcp (Some mcp);; mret (Ok ())
      | Err fault => mret (Err (no_cleanup fault))
      end
  end.

(* @src runtime/orchestrator.rs:858-868 RuntimeOrchestrator::recover_full_runtime *)
Definition recover_full_runtime : prog unit :=
  cleanup ← stop;
  match oe_fault <$> err cleanup with
  | Some fault => mret (Err (no_cleanup fault))
  | None => set_state RuntimeStopped;; start
  end.

(* @src runtime/orchestrator.rs:641-666 RuntimeOrchestrator::start_tunnel_from_recovering_pep *)
Definition start_tunnel_from_recovering_pep : prog unit :=
  o ← orchestrator;
  pep ← expect (ro_recovering_pep o);
  tunnel ←? map_err no_cleanup <$> start_tunnel Plain pep;
  r ← confirm_tunnel Plain tunnel;
  match r with
  | Err fault =>
      cleanup ← stop_tunnel tunnel;
      mret (Err (MkOrchestratorError fault (err cleanup)))
  | Ok _ =>
      o ← orchestrator;
      pep ← expect (ro_recovering_pep o);
      set_recovering_pep None;;
      set_ready (Some (MkReadyHandles pep tunnel));;
      mret (Ok ())
  end.

(** A PEP that is not confirmed is stopped and its MCP server kept: the error of
    [confirm_pep] or of the stop. *)
Definition reject_pep (pep : PepHandle) (fault : RuntimeFault) : prog unit :=
  r ← stop_pep pep;
  match r with
  | Ok mcp => set_recovering_mcp (Some mcp);; mret (Err (no_cleanup fault))
  | Err cleanup_fault => mret (Err (MkOrchestratorError fault (Some cleanup_fault)))
  end.

(* @src runtime/orchestrator.rs:716-769 RuntimeOrchestrator::recover_policy_and_tunnel *)
Definition recover_policy_and_tunnel : prog unit :=
  _ ←? release_tunnel;
  _ ←? reclaim_mcp;
  o ← orchestrator;
  match ro_recovering_mcp o with
  | None => recover_full_runtime
  | Some mcp =>
      set_recovering_mcp None;;
      r ← confirm_mcp Plain mcp;
      match r with
      | Err _ => set_recovering_mcp (Some mcp);; recover_full_runtime
      | Ok _ =>
          pep ←? map_err no_cleanup <$> start_pep mcp;
          r ← confirm_pep Plain pep;
          match r with
          | Err fault => reject_pep pep fault
          | Ok _ => set_recovering_pep (Some pep);; start_tunnel_from_recovering_pep
          end
      end
  end.

(* @src runtime/orchestrator.rs:579-602 RuntimeOrchestrator::recover_tunnel_only *)
Definition recover_tunnel_only : prog unit :=
  _ ←? release_tunnel;
  o ← orchestrator;
  if negb (bool_decide (is_Some (ro_recovering_pep o))) then
    if bool_decide (is_Some (ro_recovering_mcp o)) then recover_policy_and_tunnel
    else recover_full_runtime
  else
    pep ← expect (ro_recovering_pep o);
    r ← confirm_pep Plain pep;
    match r with
    | Err _ => recover_policy_and_tunnel
    | Ok _ => start_tunnel_from_recovering_pep
    end.

Definition scope_component (scope : RecoveryScope) : RuntimeComponent :=
  match scope with
  | ScopeTunnel => TunnelComponent
  | PolicyAndTunnel => PolicyEnforcement
  | FullRuntime => CodingRuntime
  end.

(* @src runtime/orchestrator.rs:473-499 RuntimeOrchestrator::recover_minimal *)
Definition recover_minimal (scope : RecoveryScope) (attempt : N) : prog unit :=
  set_state (Recovering (scope_component scope) attempt);;
  result ← match scope with
           | ScopeTunnel => recover_tunnel_only
           | PolicyAndTunnel => recover_policy_and_tunnel
           | FullRuntime => recover_full_runtime
           end;
  match result with
  | Ok _ => set_state RuntimeReady;; mret (Ok ())
  | Err error => set_state (RuntimeFaulted (oe_fault error));; mret (Err error)
  end.

(** ** Recovery under a permit *)

(** [if permit.is_cancelled() { <clean up>; return Err(UserStopped) }]. *)
Definition unless_cancelled {A} (permit : RecoveryPermit) (cleanup : eff World (option RuntimeFault))
    (k : prog A) : prog A :=
  cancelled ← is_cancelled permit;
  if cancelled : bool then
    cleanup_fault ← cleanup;
    mret (Err (MkOrchestratorError UserStopped cleanup_fault))
  else k.

(** [if let Err(fault) = r { <clean up>; return Err(fault) }]. *)
Definition or_clean_up {A B} (r : result RuntimeFault A)
    (cleanup : eff World (option RuntimeFault)) (k : A → prog B) : prog B :=
  match r with
  | Ok a => k a
  | Err fault => cleanup_fault ← cleanup; mret (Err (MkOrchestratorError fault cleanup_fault))
  end.

Definition stop_mcp_err (mcp : McpHandle) : eff World (option RuntimeFault) :=
  err <$> stop_mcp mcp.
Definition stop_tunnel_err (t : TunnelHandle) : eff World (option RuntimeFault) :=
  err <$> stop_tunnel t.
Definition stop_tunnel_and_pep (t : TunnelHandle) (pep : PepHandle) :
    eff World (option RuntimeFault) :=
  stopped ← stop_tunnel t;
  cleanup ← cleanup_pep pep;
  mret (merge_cleanup_fault (err stopped) cleanup).

(* @src runtime/orchestrator.rs:886-985 RuntimeOrchestrator::start_for_recovery *)
Definition start_for_recovery (permit : RecoveryPermit) : prog unit :=
  _ ←? check_recovery_permit permit;
  mcp ←? map_err no_cleanup <$> start_mcp ForRecovery;
  unless_cancelled permit (stop_mcp_err mcp) (
  r ← confirm_mcp ForRecovery mcp;
  or_clean_up r (stop_mcp_err mcp) (λ _,
  unless_cancelled permit (stop_mcp_err mcp) (
  pep ←? map_err no_cleanup <$> start_pep mcp;
  unless_cancelled permit (cleanup_pep pep) (
  r ← confirm_pep ForRecovery pep;
  or_clean_up r (cleanup_pep pep) (λ _,
  unless_cancelled permit (cleanup_pep pep) (
  r ← start_tunnel ForRecovery pep;
  or_clean_up r (cleanup_pep pep) (λ tunnel,
  unless_cancelled permit (stop_tunnel_and_pep tunnel pep) (
  r ← confirm_tunnel ForRecovery tunnel;
  or_clean_up r (stop_tunnel_and_pep tunnel pep) (λ _,
  unless_cancelled permit (stop_tunnel_and_pep tunnel pep) (
  set_ready (Some (MkReadyHandles pep tunnel));;
  mret (Ok ()))))))))))).

(* @src runtime/orchestrator.rs:870-884 RuntimeOrchestrator::recover_full_runtime_cancellable *)
Definition recover_full_runtime_cancellable (permit : RecoveryPermit) : prog unit :=
  cleanup ← stop;
  match oe_fault <$> err cleanup with
  | Some fault => mret (Err (no_cleanup fault))
  | None =>
      _ ←? check_recovery_permit permit;
      set_state RuntimeStopped;;
      start_for_recovery permit
  end.

(* @src runtime/orchestrator.rs:668-714 RuntimeOrchestrator::start_tunnel_from_recovering_pep_cancellable *)
Definition start_tunnel_from_recovering_pep_cancellable (permit : RecoveryPermit) : prog unit :=
  _ ←? check_recovery_permit permit;
  o ← orchestrator;
  pep ← expect (ro_recovering_pep o);
  tunnel ←? map_err no_cleanup <$> start_tunnel ForRecovery pep;
  unless_cancelled permit (stop_tunnel_err tunnel) (
  r ← confirm_tunnel ForRecovery tunnel;
  or_clean_up r (stop_tunnel_err tunnel) (λ _,
  unless_cancelled permit (stop_tunnel_err tunnel) (
  o ← orchestrator;
  pep ← expect (ro_recovering_pep o);
  set_recovering_pep None;;
  set_ready (Some (MkReadyHandles pep tunnel));;
  mret (Ok ())))).

(* @src runtime/orchestrator.rs:771-856 RuntimeOrchestrator::recover_policy_and_tunnel_cancellable *)
Definition recover_policy_and_tunnel_cancellable (permit : RecoveryPermit) : prog unit :=
  _ ←? check_recovery_permit permit;
  _ ←? release_tunnel;
  _ ←? check_recovery_permit permit;
  _ ←? reclaim_mcp;
  _ ←? check_recovery_permit permit;
  o ← orchestrator;
  match ro_recovering_mcp o with
  | None => recover_full_runtime_cancellable permit
  | Some mcp =>
      set_recovering_mcp None;;
      r ← confirm_mcp ForRecovery mcp;
      match r with
      | Err fault =>
          set_recovering_mcp (Some mcp);;
          if bool_decide (fault = UserStopped) then mret (Err (no_cleanup fault))
          else recover_full_runtime_cancellable permit
      | Ok _ =>
          cancelled ← is_cancelled permit;
          if cancelled : bool then
            set_recovering_mcp (Some mcp);; check_recovery_permit permit
          else
            pep ←? map_err no_cleanup <$> start_pep mcp;
            cancelled ← is_cancelled permit;
            if cancelled : bool then reject_pep pep UserStopped
            else
              r ← confirm_pep ForRecovery pep;
              match r with
              | Err fault => reject_pep pep fault
              | Ok _ =>
                  set_recovering_pep (Some pep);;
                  _ ←? check_recovery_permit permit;
                  start_tunnel_from_recovering_pep_cancellable permit
              end
      end
  end.

(* @src runtime/orchestrator.rs:604-639 RuntimeOrchestrator::recover_tunnel_only_cancellable *)
Definition recover_tunnel_only_cancellable (permit : RecoveryPermit) : prog unit :=
  _ ←? check_recovery_permit permit;
  _ ←? release_tunnel;
  _ ←? check_recovery_permit permit;
  o ← orchestrator;
  if negb (bool_decide (is_Some (ro_recovering_pep o))) then
    if bool_decide (is_Some (ro_recovering_mcp o))
    then recover_policy_and_tunnel_cancellable permit
    else recover_full_runtime_cancellable permit
  else
    pep ← expect (ro_recovering_pep o);
    r ← confirm_pep ForRecovery pep;
    match r with
    | Err fault =>
        if bool_decide (fault = UserStopped) then mret (Err (no_cleanup fault))
        else recover_policy_and_tunnel_cancellable permit
    | Ok _ =>
        _ ←? check_recovery_permit permit;
        start_tunnel_from_recovering_pep_cancellable permit
    end.

(* @src runtime/orchestrator.rs:501-537 RuntimeOrchestrator::recover_minimal_cancellable *)
Definition recover_minimal_cancellable (scope : RecoveryScope) (attempt : N)
    (permit : RecoveryPermit) : prog unit :=
  _ ←? check_recovery_permit permit;
  set_state (Recovering (scope_component scope) attempt);;
  result ← match scope with
           | ScopeTunnel => recover_tunnel_only_cancellable permit
           | PolicyAndTunnel => recover_policy_and_tunnel_cancellable permit
           | FullRuntime => recover_full_runtime_cancellable permit
           end;
  match result with
  | Ok _ => set_state RuntimeReady;; mret (Ok ())
  | Err error =>
      cancelled ← is_cancelled permit;
      set_state
        (if cancelled && bool_decide (oe_fault error = UserStopped) &&
            bool_decide (oe_cleanup_fault error = None)
         then Recovering (scope_component scope) attempt
         else RuntimeFaulted (oe_fault error));;
      mret (Err error)
  end.

(* @src runtime/orchestrator.rs:539-566 RuntimeOrchestrator::switch_workspace_to *)
Definition switch_workspace_to (candidate : path) :
    eff World (result WorkspaceSwitchError unit) :=
  let switch_error e := MkWorkspaceSwitchError (oe_fault e) (oe_cleanup_fault e) in
  if bool_decide (candidate = ""%string)
  then mret (Err (MkWorkspaceSwitchError WorkspaceInvalid None)) else
  _ ←? map_err switch_error <$> stop;
  r ← call (λ _, ()) (ConfigureWorkspace candidate);
  match r with
  | Err fault =>
      set_state (RuntimeFaulted fault);;
      mret (Err (MkWorkspaceSwitchError fault None))
  | Ok _ => map_err switch_error <$> start
  end.
End driver.

(** ** The lifecycle protocol

    What a driver is promised, whatever it answers.  A component is started
    only on a confirmed lower one, stopped only from the top, and no handle is
    used after it was given up.  A tunnel that could not be stopped is [stuck]:
    the orchestrator may try again, or give up on it.

    A phase says which handles the orchestrator owns, not which components
    answered their stop: [stop_mcp] and [stop_pep] give their handle up even when
    they fail, so [Down] is the phase in which the orchestrator owns nothing, and
    stopping the PEP under a stuck tunnel gives the tunnel up with it.  The fault
    of a stop that failed is in the trace and in the error of the operation. *)

Inductive Phase :=
  | Down
  | McpUp (mcp : McpHandle) (confirmed : bool)
  | PepUp (pep : PepHandle) (confirmed : bool) (stuck : option TunnelHandle)
  | TunnelUp (pep : PepHandle) (tunnel : TunnelHandle) (confirmed : bool).

Definition succeeded {A} (fault : option A) : bool :=
  match fault with None => true | Some _ => false end.

Definition call_step (phase : Phase) (c : Call) (n : N) (fault : option RuntimeFault) :
    option Phase :=
  let ok := succeeded fault in
  match phase, c with
  | Down, StartMcp _ => Some (if ok then McpUp (MkMcpHandle n) false else Down)
  | Down, ConfigureWorkspace _ => Some Down
  | McpUp m _, ConfirmMcp _ m' => if bool_decide (m' = m) then Some (McpUp m ok) else None
  | McpUp m true, StartPep m' =>
      if bool_decide (m' = m)
      then Some (if ok then PepUp (MkPepHandle n) false None else Down) else None
  | McpUp m _, StopMcp m' => if bool_decide (m' = m) then Some Down else None
  | PepUp p _ stuck, ConfirmPep _ p' =>
      if bool_decide (p' = p) then Some (PepUp p ok stuck) else None
  | PepUp p true stuck, StartTunnel _ p' =>
      if bool_decide (p' = p)
      then Some (if ok then TunnelUp p (MkTunnelHandle n) false else PepUp p true stuck) else None
  | PepUp p c (Some t), StopTunnel t' =>
      if bool_decide (t' = t) then Some (PepUp p c (if ok then None else Some t)) else None
  | PepUp p _ _, StopPep p' =>
      if bool_decide (p' = p)
      then Some (if ok then McpUp (MkMcpHandle n) false else Down) else None
  | TunnelUp p t _, ConfirmTunnel _ t' =>
      if bool_decide (t' = t) then Some (TunnelUp p t ok) else None
  | TunnelUp p t _, StopTunnel t' =>
      if bool_decide (t' = t) then Some (PepUp p false (if ok then None else Some t)) else None
  | TunnelUp p t true, (ProbeMcp p' | ProbePep p') =>
      if bool_decide (p' = p) then Some phase else None
  | TunnelUp p t true, ProbeTunnel t' => if bool_decide (t' = t) then Some phase else None
  | _, _ => None
  end.

Definition protocol_step (phase : Phase) (e : Event) : option Phase :=
  match e with Called c n fault => call_step phase c n fault | _ => Some phase end.

(** A component is started. *)
Definition starts (c : Call) : bool :=
  match c with StartMcp _ | StartPep _ | StartTunnel _ _ => true | _ => false end.

(** What the events say about the permit of a recovery: not read since the last
    call, just read as not cancelled, or read as cancelled.  Operations without a
    permit are [Unguarded]. *)
Inductive Heed := Unguarded | Unread | Cleared | HeedCancelled.

(** A call uses the last read of the permit up. *)
Definition called (heed : Heed) : Heed := match heed with Cleared => Unread | _ => heed end.

Definition may_start (heed : Heed) : bool :=
  match heed with Unguarded | Cleared => true | Unread | HeedCancelled => false end.

(** Under a permit, a component is started only right after the permit was read as
    not cancelled: no other call is between, and nothing is started after the
    permit was read as cancelled.  Only the orchestrator's own events are accepted. *)
Definition heed_step (heed : Heed) (e : Event) : option Heed :=
  match e with
  | PermitRead true => Some HeedCancelled
  | PermitRead false =>
      Some (match heed with HeedCancelled => HeedCancelled | _ => Cleared end)
  | Called c _ _ => if starts c && negb (may_start heed) then None else Some (called heed)
  | Projected _ => Some heed
  | _ => None
  end.

Definition own_event (e : Event) : bool :=
  match e with Called _ _ _ | PermitRead _ | Projected _ => true | _ => false end.

Definition accepts {S} (step : S → Event → option S) (init : S) (trace : list Event) : option S :=
  foldr (λ e s, s ← s; step s e) (Some init) trace.

(** The phase of a world, when its trace is one of the protocol. *)
Definition phase_of (w : World) : option Phase := accepts protocol_step Down (w_trace w).

(** What the orchestrator's fields hold in each phase: exactly what runs. *)
Inductive owns : Phase → RuntimeState → option ReadyHandles → option PepHandle →
    option McpHandle → Prop :=
  | owns_nothing st : owns Down st None None None
  | owns_mcp m c st : owns (McpUp m c) st None None (Some m)
  | owns_pep p c stuck st : owns (PepUp p c stuck) st None (Some p) None
  | owns_stuck p c t st : st ≠ RuntimeReady →
      owns (PepUp p c (Some t)) st (Some (MkReadyHandles p t)) None None
  | owns_ready p t st : owns (TunnelUp p t true) st (Some (MkReadyHandles p t)) None None.

(** ** The orchestrator as a state machine *)

Inductive Operation :=
  | OpStart (observer : bool)
  | OpStop (observer : bool)
  | OpStopTunnelForExit
  | OpFinishExit
  | OpProbe
  | OpRecover (scope : RecoveryScope) (attempt : N)
  | OpRecoverCancellable (scope : RecoveryScope) (attempt : N) (permit : RecoveryPermit)
  | OpSwitchWorkspace (candidate : path)
  | OpBeginOutage (component : RuntimeComponent) (fault : RuntimeFault) (request_id : string)
  | OpMarkAttention (generation : OutageGenerationId)
  | OpRefreshOutage (generation : OutageGenerationId) (component : RuntimeComponent)
      (fault : RuntimeFault)
  | OpClearOutage (generation : OutageGenerationId)
  | OpRecordFault (fault : RuntimeFault)
  | OpMarkDetected.

Section machine.
Context `{!RuntimeDriver}.

Definition run_operation (op : Operation) : eff World unit :=
  let done {A} (m : eff World A) := (λ _, ()) <$> m in
  match op with
  | OpStart observer => done (start_with_state_projection observer)
  | OpStop observer => done (stop_with_state_projection observer)
  | OpStopTunnelForExit => done stop_tunnel_for_exit
  | OpFinishExit => done finish_exit_after_tunnel
  | OpProbe => done probe_ready_health
  | OpRecover scope attempt => done (recover_minimal scope attempt)
  | OpRecoverCancellable scope attempt permit =>
      done (recover_minimal_cancellable scope attempt permit)
  | OpSwitchWorkspace candidate => done (switch_workspace_to candidate)
  | OpBeginOutage component fault request_id => done (begin_outage component fault request_id)
  | OpMarkAttention generation => done (mark_user_attention_required generation)
  | OpRefreshOutage generation component fault => done (refresh_outage generation component fault)
  | OpClearOutage generation => done (clear_outage generation)
  | OpRecordFault fault => record_fault fault
  | OpMarkDetected => mark_detected_coding_runtime_recovery
  end.

(** A permit was issued in the past. *)
Definition issued (permit : RecoveryPermit) (w : World) : Prop :=
  captured permit ≤ epoch (w_trace w).

Definition enabled (op : Operation) (w : World) : Prop :=
  match op with OpRecoverCancellable _ _ permit => issued permit w | _ => True end.

(** Anything but a call of the driver. *)
Definition is_call (e : Event) : bool := match e with Called _ _ _ => true | _ => false end.

(** An operation, or something that other code notes in the trace. *)
Inductive world_step : World → World → Prop :=
  | step_operation op w : enabled op w → world_step w (run_operation op w).1
  | step_noted e w : is_call e = false → world_step w (w <| w_trace ::= cons e |>).

#[export] Instance world_machine : StateMachine World := {
  sm_init w := w = MkWorld runtime_new [];
  sm_step := world_step
}.
End machine.

(** The phase accounts for the trace, and the fields for the phase. *)
Definition steady (w : World) : Prop :=
  let o := w_orchestrator w in
  ∃ ph, phase_of w = Some ph ∧
    owns ph (ro_state o) (ro_ready o) (ro_recovering_pep o) (ro_recovering_mcp o).
