(* ===== verification/OrchestratorProperties.v ===== *)
(** * OrchestratorProperties: the runtime's lifecycle is followed

    A small program logic executes the operations of [Orchestrator]
    symbolically: [view] describes a world by its phase, its fields and whether
    its permit was read as cancelled.  The specifications of the operations
    compose, and give the theorems at the end. *)

From S2P Require Import Prelude StateModel Effects Orchestrator.
#[local] Open Scope N_scope.

(** ** Symbolic execution *)

(** The permit is read as it is: the epoch has moved since it was issued, or not. *)
Fixpoint honest `{!RuntimeDriver} (permit : RecoveryPermit) (t0 new : list Event) : Prop :=
  match new with
  | [] => True
  | e :: new =>
      (∀ b, e = PermitRead b → b = bool_decide (epoch (new ++ t0) ≠ captured permit)) ∧
      honest permit t0 new
  end.

Section logic.
Context `{!RuntimeDriver} (t0 : list Event) (permit : RecoveryPermit) (ou : OutageTracker)
  (h0 : Heed).

(** The events since [t0] heed the permit; everything before obeys the protocol. *)
Record view (ph : Phase) (fl : Heed) (st : RuntimeState) (rd : option ReadyHandles)
    (rp : option PepHandle) (rm : option McpHandle) (w : World) : Prop := MkView {
  view_orchestrator : w_orchestrator w = MkRuntimeOrchestrator st rd rp rm ou;
  view_phase : phase_of w = Some ph;
  view_new : ∃ new, w_trace w = new ++ t0 ∧ accepts heed_step h0 new = Some fl ∧
    honest permit t0 new;
  view_captured : captured permit ≤ epoch (w_trace w);
  view_cancelled : fl = HeedCancelled → captured permit < epoch (w_trace w)
}.

Implicit Types (ph : Phase) (fl : Heed) (st : RuntimeState) (w : World).

Lemma view_emit ph fl st rd rp rm w e ph' fl' :
  view ph fl st rd rp rm w →
  protocol_step ph e = Some ph' → heed_step fl e = Some fl' →
  (fl' = HeedCancelled → fl = HeedCancelled ∨ captured permit < epoch (e :: w_trace w)) →
  (∀ b, e = PermitRead b → b = bool_decide (epoch (w_trace w) ≠ captured permit)) →
  view ph' fl' st rd rp rm (w <| w_trace ::= cons e |>).
Proof.
  intros [Ho Hp (new & Hn & Hh & Hr) Hk Hc] Hp' Hh' Hfl Hb.
  pose proof (epoch_mono e (w_trace w)) as Hm. destruct w as [o t]; simpl in *.
  split; simpl; [done|..].
  - unfold phase_of in *. simpl in *. by rewrite Hp.
  - exists (e :: new). rewrite Hn in *. split; [done|]. simpl. rewrite Hh. auto.
  - lia.
  - intros [->|?]%Hfl; [|done]. specialize (Hc eq_refl). lia.
Qed.

Lemma wp_with ph fl st rd rp rm w f st' rd' rp' rm' (Q : unit → World → Prop) :
  view ph fl st rd rp rm w →
  f (MkRuntimeOrchestrator st rd rp rm ou) = MkRuntimeOrchestrator st' rd' rp' rm' ou →
  (∀ w', view ph fl st' rd' rp' rm' w' → Q () w') →
  wp (with_orchestrator f) Q w.
Proof.
  intros [Ho Hp Hn Hk Hc] Hf HQ. apply HQ. split; try done.
  simpl. by rewrite Ho, Hf.
Qed.

Lemma wp_orchestrator ph fl st rd rp rm w (Q : RuntimeOrchestrator → World → Prop) :
  view ph fl st rd rp rm w → Q (MkRuntimeOrchestrator st rd rp rm ou) w →
  wp orchestrator Q w.
Proof. intros Hw HQ. unfold wp, orchestrator. by rewrite (view_orchestrator _ _ _ _ _ _ _ Hw). Qed.

Lemma wp_emit_projected ph fl st rd rp rm w s (Q : unit → World → Prop) :
  view ph fl st rd rp rm w → (∀ w', view ph fl st rd rp rm w' → Q () w') →
  wp (emit (Projected s)) Q w.
Proof. intros Hw HQ. apply HQ. eapply view_emit; [done..|by left|done]. Qed.

Lemma wp_call {A} (handle : N → A) c ph fl st rd rp rm w
    (Q : result RuntimeFault A → World → Prop) :
  view ph fl st rd rp rm w →
  starts c && negb (may_start fl) = false →
  (∀ n fault, ∃ ph', call_step ph c n fault = Some ph' ∧
     ∀ w', view ph' (called fl) st rd rp rm w' →
       Q (match fault with None => Ok (handle n) | Some f => Err f end) w') →
  wp (call handle c) Q w.
Proof.
  intros Hw Hfl Hall. unfold wp, call. edestruct Hall as (ph' & Hstep & HQ).
  apply HQ. eapply view_emit; [done|exact Hstep| | |done].
  - simpl. by rewrite Hfl.
  - left. by destruct fl.
Qed.

Lemma wp_is_cancelled ph fl st rd rp rm w (Q : bool → World → Prop) :
  view ph fl st rd rp rm w →
  (∀ w', view ph HeedCancelled st rd rp rm w' → Q true w') →
  (∀ w', fl ≠ HeedCancelled → view ph Cleared st rd rp rm w' → Q false w') →
  wp (is_cancelled permit) Q w.
Proof.
  intros Hw Ht Hf. unfold wp, is_cancelled. pose proof Hw as [_ _ _ Hk Hc].
  pose proof (epoch_mono (PermitRead true) (w_trace w)) as Hm.
  case_bool_decide as He.
  - apply Ht. eapply view_emit; [done|done|done| |]; [right; lia|].
    intros b [= <-]. by rewrite bool_decide_true.
  - assert (fl ≠ HeedCancelled) as Hfl. { intros ->. specialize (Hc eq_refl). lia. }
    apply Hf; [done|]. eapply view_emit; [done|done| |done|].
    { by destruct fl. }
    intros b [= <-]. rewrite bool_decide_false; [done|]. by intros [].
Qed.

(** A list of calls leaves what one call leaves. *)
Lemma called_idem fl : called (called fl) = called fl.
Proof. by destruct fl. Qed.

Lemma called_unguarded fl : called fl = Unguarded → fl = Unguarded.
Proof. by destruct fl. Qed.

(** One rule per kind of call, over the phases in which it is made. *)
Ltac call_rule Hw :=
  eapply wp_call; [exact Hw|first [reflexivity|
    cbn; match goal with H : may_start _ = true |- _ => by rewrite H end]|];
  intros ? [?|]; cbn [call_step succeeded]; rewrite ?bool_decide_true by done;
  repeat match goal with |- context [match ?x with _ => _ end] => is_var x; destruct x end;
  eexists; (split; [reflexivity|eauto]).

Lemma wp_start_mcp mode fl st rd rp rm w (Q : result RuntimeFault McpHandle → World → Prop) :
  view Down fl st rd rp rm w → may_start fl = true →
  (∀ m w', view (McpUp m false) (called fl) st rd rp rm w' → Q (Ok m) w') →
  (∀ f w', view Down (called fl) st rd rp rm w' → Q (Err f) w') →
  wp (start_mcp mode) Q w.
Proof. intros Hw Hstart Hok Herr. call_rule Hw. Qed.

Lemma wp_confirm_mcp mode m c fl st rd rp rm w (Q : result RuntimeFault unit → World → Prop) :
  view (McpUp m c) fl st rd rp rm w →
  (∀ w', view (McpUp m true) (called fl) st rd rp rm w' → Q (Ok ()) w') →
  (∀ f w', view (McpUp m false) (called fl) st rd rp rm w' → Q (Err f) w') →
  wp (confirm_mcp mode m) Q w.
Proof. intros Hw Hok Herr. call_rule Hw. Qed.

Lemma wp_start_pep m fl st rd rp rm w (Q : result RuntimeFault PepHandle → World → Prop) :
  view (McpUp m true) fl st rd rp rm w → may_start fl = true →
  (∀ p w', view (PepUp p false None) (called fl) st rd rp rm w' → Q (Ok p) w') →
  (∀ f w', view Down (called fl) st rd rp rm w' → Q (Err f) w') →
  wp (start_pep m) Q w.
Proof. intros Hw Hstart Hok Herr. call_rule Hw. Qed.

Lemma wp_confirm_pep mode p c stuck fl st rd rp rm w
    (Q : result RuntimeFault unit → World → Prop) :
  view (PepUp p c stuck) fl st rd rp rm w →
  (∀ w', view (PepUp p true stuck) (called fl) st rd rp rm w' → Q (Ok ()) w') →
  (∀ f w', view (PepUp p false stuck) (called fl) st rd rp rm w' → Q (Err f) w') →
  wp (confirm_pep mode p) Q w.
Proof. intros Hw Hok Herr. call_rule Hw. Qed.

Lemma wp_start_tunnel mode p stuck fl st rd rp rm w
    (Q : result RuntimeFault TunnelHandle → World → Prop) :
  view (PepUp p true stuck) fl st rd rp rm w → may_start fl = true →
  (∀ t w', view (TunnelUp p t false) (called fl) st rd rp rm w' → Q (Ok t) w') →
  (∀ f w', view (PepUp p true stuck) (called fl) st rd rp rm w' → Q (Err f) w') →
  wp (start_tunnel mode p) Q w.
Proof. intros Hw Hstart Hok Herr. call_rule Hw. Qed.

Lemma wp_confirm_tunnel mode p t c fl st rd rp rm w
    (Q : result RuntimeFault unit → World → Prop) :
  view (TunnelUp p t c) fl st rd rp rm w →
  (∀ w', view (TunnelUp p t true) (called fl) st rd rp rm w' → Q (Ok ()) w') →
  (∀ f w', view (TunnelUp p t false) (called fl) st rd rp rm w' → Q (Err f) w') →
  wp (confirm_tunnel mode t) Q w.
Proof. intros Hw Hok Herr. call_rule Hw. Qed.

Lemma wp_stop_tunnel p t c fl st rd rp rm w (Q : result RuntimeFault unit → World → Prop) :
  view (TunnelUp p t c) fl st rd rp rm w →
  (∀ w', view (PepUp p false None) (called fl) st rd rp rm w' → Q (Ok ()) w') →
  (∀ f w', view (PepUp p false (Some t)) (called fl) st rd rp rm w' → Q (Err f) w') →
  wp (stop_tunnel t) Q w.
Proof. intros Hw Hok Herr. call_rule Hw. Qed.

Lemma wp_stop_stuck p t c fl st rd rp rm w (Q : result RuntimeFault unit → World → Prop) :
  view (PepUp p c (Some t)) fl st rd rp rm w →
  (∀ w', view (PepUp p c None) (called fl) st rd rp rm w' → Q (Ok ()) w') →
  (∀ f w', view (PepUp p c (Some t)) (called fl) st rd rp rm w' → Q (Err f) w') →
  wp (stop_tunnel t) Q w.
Proof. intros Hw Hok Herr. call_rule Hw. Qed.

Lemma wp_stop_pep p c stuck fl st rd rp rm w (Q : result RuntimeFault McpHandle → World → Prop) :
  view (PepUp p c stuck) fl st rd rp rm w →
  (∀ m w', view (McpUp m false) (called fl) st rd rp rm w' → Q (Ok m) w') →
  (∀ f w', view Down (called fl) st rd rp rm w' → Q (Err f) w') →
  wp (stop_pep p) Q w.
Proof. intros Hw Hok Herr. call_rule Hw. Qed.

Lemma wp_stop_mcp m c fl st rd rp rm w (Q : result RuntimeFault unit → World → Prop) :
  view (McpUp m c) fl st rd rp rm w →
  (∀ w', view Down (called fl) st rd rp rm w' → Q (Ok ()) w') →
  (∀ f w', view Down (called fl) st rd rp rm w' → Q (Err f) w') →
  wp (stop_mcp m) Q w.
Proof. intros Hw Hok Herr. call_rule Hw. Qed.

(** Assignments of the orchestrator's fields. *)
Lemma wp_set_state ph fl st rd rp rm w st' (Q : unit → World → Prop) :
  view ph fl st rd rp rm w → (∀ w', view ph fl st' rd rp rm w' → Q () w') →
  wp (set_state st') Q w.
Proof. intros Hw HQ. by eapply wp_with. Qed.

Lemma wp_set_ready ph fl st rd rp rm w rd' (Q : unit → World → Prop) :
  view ph fl st rd rp rm w → (∀ w', view ph fl st rd' rp rm w' → Q () w') →
  wp (set_ready rd') Q w.
Proof. intros Hw HQ. by eapply wp_with. Qed.

Lemma wp_set_recovering_pep ph fl st rd rp rm w rp' (Q : unit → World → Prop) :
  view ph fl st rd rp rm w → (∀ w', view ph fl st rd rp' rm w' → Q () w') →
  wp (set_recovering_pep rp') Q w.
Proof. intros Hw HQ. by eapply wp_with. Qed.

Lemma wp_set_recovering_mcp ph fl st rd rp rm w rm' (Q : unit → World → Prop) :
  view ph fl st rd rp rm w → (∀ w', view ph fl st rd rp rm' w' → Q () w') →
  wp (set_recovering_mcp rm') Q w.
Proof. intros Hw HQ. by eapply wp_with. Qed.

Lemma wp_transition ph fl st rd rp rm w observer st' (Q : unit → World → Prop) :
  view ph fl st rd rp rm w → (∀ w', view ph fl st' rd rp rm w' → Q () w') →
  wp (transition observer st') Q w.
Proof.
  intros Hw HQ. apply wp_bind. eapply wp_set_state; [done|]. intros w' Hw'.
  destruct observer; [|by apply wp_ret; auto].
  eapply wp_emit_projected; [exact Hw'|]. auto.
Qed.

Lemma wp_fail ph fl st rd rp rm w observer f cleanup (Q : OrchestratorError → World → Prop) :
  view ph fl st rd rp rm w →
  (∀ w', view ph fl (RuntimeFaulted f) rd rp rm w' → Q (MkOrchestratorError f cleanup) w') →
  wp (fail observer f cleanup) Q w.
Proof.
  intros Hw HQ. apply wp_bind. eapply wp_transition; [done|]. intros. apply wp_ret. auto.
Qed.

(** One step of symbolic execution. *)
Ltac use_rule rule :=
  match goal with
  | Hw : view _ _ _ _ _ _ ?w |- wp _ _ ?w => eapply rule; [exact Hw|clear Hw; intros..]
  end.

Ltac use_start rule :=
  match goal with
  | Hw : view _ _ _ _ _ _ ?w |- wp _ _ ?w =>
      eapply rule; [exact Hw|first [reflexivity|assumption]|clear Hw; intros..]
  end.

Ltac step :=
  lazymatch goal with
  | |- wp (mret _) _ _ => apply wp_ret
  | |- wp (bind_ok _ _) _ _ => apply wp_bind_ok
  | |- wp (mbind _ _) _ _ => apply wp_bind
  | |- wp (fmap _ _) _ _ => apply wp_fmap
  | |- wp (failing _) _ _ => apply wp_fmap
  | |- wp orchestrator _ _ => 
      match goal with
      | Hw : view _ _ _ _ _ _ ?w |- wp _ _ ?w => eapply wp_orchestrator; [exact Hw|]
      end
  | |- wp (set_state _) _ _ => use_rule wp_set_state
  | |- wp (set_ready _) _ _ => use_rule wp_set_ready
  | |- wp (set_recovering_pep _) _ _ => use_rule wp_set_recovering_pep
  | |- wp (set_recovering_mcp _) _ _ => use_rule wp_set_recovering_mcp
  | |- wp (transition _ _) _ _ => use_rule wp_transition
  | |- wp (fail _ _ _) _ _ => use_rule wp_fail
  | |- wp (fail_without_cleanup _ _) _ _ => use_rule wp_fail
  | |- wp (start_mcp _) _ _ => use_start wp_start_mcp
  | |- wp (confirm_mcp _ _) _ _ => use_rule wp_confirm_mcp
  | |- wp (start_pep _) _ _ => use_start wp_start_pep
  | |- wp (confirm_pep _ _) _ _ => use_rule wp_confirm_pep
  | |- wp (start_tunnel _ _) _ _ => use_start wp_start_tunnel
  | |- wp (confirm_tunnel _ _) _ _ => use_rule wp_confirm_tunnel
  | |- wp (stop_tunnel _) _ _ => first [use_rule wp_stop_tunnel|use_rule wp_stop_stuck]
  | |- wp (stop_pep _) _ _ => use_rule wp_stop_pep
  | |- wp (stop_mcp _) _ _ => use_rule wp_stop_mcp
  | |- wp (is_cancelled _) _ _ => use_rule wp_is_cancelled
  | |- wp (expect (Some _)) _ _ => eapply wp_expect; [reflexivity|]
  end.
Ltac tidy :=
  cbn [map_err err fmap option_fmap option_map ro_state ro_ready ro_recovering_pep
       ro_recovering_mcp ready_pep ready_tunnel oe_fault oe_cleanup_fault].
Ltac steps := tidy; repeat (step; tidy).

(** The permit was read as before, or some calls were made since. *)
Definition settles (fl fl' : Heed) : Prop := called fl' = called fl.

Lemma settles_unguarded fl : settles Unguarded fl → fl = Unguarded.
Proof. apply called_unguarded. Qed.

#[local] Hint Extern 1 (settles _ _) => unfold settles in *; rewrite ?called_idem; congruence : core.

(** [cleanup_pep] takes a PEP down, with or without a fault. *)
Lemma wp_cleanup_pep p c stuck fl st rd rp rm w (Q : option RuntimeFault → World → Prop) :
  view (PepUp p c stuck) fl st rd rp rm w →
  (∀ f fl' w', view Down fl' st rd rp rm w' → settles fl fl' → Q f w') →
  wp (cleanup_pep p) Q w.
Proof. intros Hw HQ. unfold cleanup_pep. steps; eauto. Qed.

(** ** Starting *)

(** Every way to start: the runtime is ready, or nothing is left of it. *)
Definition started (r : result OrchestratorError unit) (w : World) : Prop :=
  match r with
  | Ok _ => ∃ p t fl, view (TunnelUp p t true) fl RuntimeReady
                        (Some (MkReadyHandles p t)) None None w
  | Err e => ∃ f fl, view Down fl (RuntimeFaulted f) None None None w ∧ oe_fault e = f
  end.

Lemma wp_start observer w :
  view Down Unguarded RuntimeStopped None None None w →
  wp (start_with_state_projection observer) started w.
Proof.
  intros Hw. unfold start_with_state_projection. steps. rewrite !bool_decide_false by (by intros [??]).
  rewrite bool_decide_true by done. cbn [orb negb].
  steps; try (use_rule wp_cleanup_pep; steps); simpl; eauto.
Qed.

(** ** Stopping *)

(** What may run below a tunnel that was given up. *)
Inductive lower : Phase → option PepHandle → option McpHandle → Prop :=
  | lower_nothing : lower Down None None
  | lower_mcp m c : lower (McpUp m c) None (Some m)
  | lower_pep p c stuck : lower (PepUp p c stuck) (Some p) None.

Lemma lower_owns ph st rp rm : lower ph rp rm → owns ph st None rp rm.
Proof. destruct 1; constructor. Qed.

Lemma wp_stop_tunnel_for_exit ph fl st rd rp rm w :
  view ph fl st rd rp rm w → owns ph st rd rp rm →
  wp stop_tunnel_for_exit (λ r w', ∃ ph' fl' rp' rm', 
    view ph' fl' st None rp' rm' w' ∧ lower ph' rp' rm' ∧ settles fl fl') w.
Proof.
  intros Hw Ho. unfold stop_tunnel_for_exit. steps.
  destruct Ho; steps; eauto 12 using lower.
Qed.

Lemma wp_finish_exit ph fl st rp rm w observer :
  view ph fl st None rp rm w → lower ph rp rm →
  wp (finish_exit_with_state_projection observer) (λ r w', match r with
    | Ok _ => ∃ fl', view Down fl' RuntimeStopped None None None w' ∧ settles fl fl'
    | Err e => ∃ fl', view Down fl' (RuntimeFaulted (oe_fault e)) None None None w'
    end) w.
Proof.
  intros Hw Hl. unfold finish_exit_with_state_projection, release_pep, release_mcp.
  steps. destruct Hl; steps; unfold merge_cleanup_fault; steps; simpl; eauto.
Qed.

Lemma wp_stop ph fl st rd rp rm w observer :
  view ph fl st rd rp rm w → owns ph st rd rp rm →
  wp (stop_with_state_projection observer) (λ r w', match r with
    | Ok _ => ∃ fl', view Down fl' RuntimeStopped None None None w' ∧ settles fl fl'
    | Err e => ∃ fl', view Down fl' (RuntimeFaulted (oe_fault e)) None None None w'
    end) w.
Proof.
  intros Hw Ho. unfold stop_with_state_projection. step.
  eapply wp_wand; [by eapply wp_stop_tunnel_for_exit|].
  intros tr w1 (ph1 & fl1 & rp1 & rm1 & Hw1 & Hl & Hfl). step.
  eapply wp_wand; [by eapply wp_finish_exit|]. intros rr w2 Hw2.
  destruct rr as [[]|e]; [destruct Hw2 as (fl2 & Hw2 & Hfl2)|destruct Hw2 as (fl2 & Hw2)];
    destruct tr as [|[f c]]; steps; simpl; eauto.
Qed.

(** ** Recovering *)

(** A recovery that succeeded, or one that failed and left what it owns. *)
Definition recovered (r : result OrchestratorError unit) (w : World) : Prop :=
  match r with
  | Ok _ => ∃ p t fl st, view (TunnelUp p t true) fl st (Some (MkReadyHandles p t)) None None w
  | Err _ => ∃ ph fl st rd rp rm, view ph fl st rd rp rm w ∧ owns ph st rd rp rm ∧ st ≠ RuntimeReady
  end.

Lemma recovered_err ph fl st rd rp rm w e :
  view ph fl st rd rp rm w → owns ph st rd rp rm → st ≠ RuntimeReady → recovered (Err e) w.
Proof. intros. by exists ph, fl, st, rd, rp, rm. Qed.

Lemma recovered_ok p t fl st w :
  view (TunnelUp p t true) fl st (Some (MkReadyHandles p t)) None None w → recovered (Ok ()) w.
Proof. intros. by exists p, t, fl, st. Qed.

Lemma wp_release_tunnel ph fl st rd rp rm w :
  view ph fl st rd rp rm w → owns ph st rd rp rm → st ≠ RuntimeReady →
  wp release_tunnel (λ r w', match r with
    | Ok _ => ∃ ph' fl' rp' rm', view ph' fl' st None rp' rm' w' ∧ lower ph' rp' rm' ∧
        settles fl fl'
    | Err _ => ∃ ph' fl' rd', view ph' fl' st rd' None None w' ∧ owns ph' st rd' None None
    end) w.
Proof.
  intros Hw Ho Hst. unfold release_tunnel. steps.
  destruct Ho; steps; eauto 12 using lower, owns.
Qed.

Lemma wp_reclaim_mcp ph fl st rp rm w :
  view ph fl st None rp rm w → lower ph rp rm →
  wp reclaim_mcp (λ r w', match r with
    | Ok _ => ∃ ph' fl' rm', view ph' fl' st None None rm' w' ∧ lower ph' None rm' ∧
        settles fl fl'
    | Err _ => ∃ fl', view Down fl' st None None None w'
    end) w.
Proof.
  intros Hw Hl. unfold reclaim_mcp. steps. destruct Hl; steps; eauto 10 using lower.
Qed.

Lemma wp_recover_full_runtime ph st rd rp rm w :
  view ph Unguarded st rd rp rm w → owns ph st rd rp rm →
  wp recover_full_runtime recovered w.
Proof.
  intros Hw Ho. unfold recover_full_runtime. step.
  eapply wp_wand; [by eapply wp_stop|]. intros [[]|e] w1.
  - intros (fl1 & Hw1 & ->%settles_unguarded). steps.
    eapply wp_wand; [by apply wp_start|]. intros [[]|e] w3.
    + intros (p & t & fl & Hw3). by eapply recovered_ok.
    + intros (f & fl & Hw3 & _). eapply recovered_err; eauto using owns.
  - intros (fl1 & Hw1). steps. eapply recovered_err; eauto using owns.
Qed.

Lemma wp_start_tunnel_from_recovering_pep p stuck st w :
  view (PepUp p true stuck) Unguarded st None (Some p) None w → st ≠ RuntimeReady →
  wp start_tunnel_from_recovering_pep recovered w.
Proof.
  intros Hw Hst. unfold start_tunnel_from_recovering_pep. steps;
    eauto using recovered_ok, recovered_err, owns.
Qed.

Lemma wp_reject_pep p c stuck fl st w f :
  view (PepUp p c stuck) fl st None None None w → st ≠ RuntimeReady →
  wp (reject_pep p f) recovered w.
Proof. intros Hw Hst. unfold reject_pep. steps; eauto using recovered_err, owns. Qed.

#[local] Hint Constructors owns lower : core.
#[local] Hint Resolve recovered_err recovered_ok lower_owns : core.

Lemma wp_recover_policy_and_tunnel ph st rd rp rm w :
  view ph Unguarded st rd rp rm w → owns ph st rd rp rm → st ≠ RuntimeReady →
  wp recover_policy_and_tunnel recovered w.
Proof.
  intros Hw Ho Hst. unfold recover_policy_and_tunnel. step.
  eapply wp_wand; [by eapply wp_release_tunnel|]. intros [[]|e] w1.
  2:{ intros (ph1 & fl1 & rd1 & Hw1 & Ho1). eauto. }
  intros (ph1 & fl1 & rp1 & rm1 & Hw1 & Hl1 & ->%settles_unguarded). step.
  eapply wp_wand; [by eapply wp_reclaim_mcp|]. intros [[]|e] w2.
  2:{ intros (fl2 & Hw2). eauto. }
  intros (ph2 & fl2 & rm2 & Hw2 & Hl2 & ->%settles_unguarded). steps. inversion Hl2; subst.
  - eapply wp_recover_full_runtime; eauto.
  - steps.
    + eapply wp_start_tunnel_from_recovering_pep; eauto.
    + eapply wp_reject_pep; eauto.
    + eauto.
    + eapply wp_recover_full_runtime; eauto.
Qed.

Lemma wp_recover_tunnel_only ph st rd rp rm w :
  view ph Unguarded st rd rp rm w → owns ph st rd rp rm → st ≠ RuntimeReady →
  wp recover_tunnel_only recovered w.
Proof.
  intros Hw Ho Hst. unfold recover_tunnel_only. step.
  eapply wp_wand; [by eapply wp_release_tunnel|]. intros [[]|e] w1.
  2:{ intros (ph1 & fl1 & rd1 & Hw1 & Ho1). eauto. }
  intros (ph1 & fl1 & rp1 & rm1 & Hw1 & Hl1 & ->%settles_unguarded). steps. destruct Hl1; simpl.
  - eapply wp_recover_full_runtime; eauto.
  - eapply wp_recover_policy_and_tunnel; eauto.
  - steps.
    + eapply wp_start_tunnel_from_recovering_pep; eauto.
    + eapply wp_recover_policy_and_tunnel; eauto.
Qed.

(** *** Under a permit *)

Lemma wp_check_recovery_permit ph fl st rd rp rm w
    (Q : result OrchestratorError unit → World → Prop) :
  view ph fl st rd rp rm w →
  (∀ w', fl ≠ HeedCancelled → view ph Cleared st rd rp rm w' → Q (Ok ()) w') →
  (∀ w', view ph HeedCancelled st rd rp rm w' → Q (Err (no_cleanup UserStopped)) w') →
  wp (check_recovery_permit permit) Q w.
Proof. intros Hw Hok Herr. unfold check_recovery_permit. steps; auto. Qed.

Ltac check_permit :=
  step; use_rule wp_check_recovery_permit; [|by eauto].

Lemma wp_start_for_recovery fl st w :
  view Down fl st None None None w → st ≠ RuntimeReady →
  wp (start_for_recovery permit) recovered w.
Proof.
  intros Hw Hst. unfold start_for_recovery. check_permit.
  unfold unless_cancelled, or_clean_up, stop_mcp_err, stop_tunnel_and_pep.
  steps; try (use_rule wp_cleanup_pep; steps); eauto.
Qed.

Lemma wp_recover_full_runtime_cancellable ph fl st rd rp rm w :
  view ph fl st rd rp rm w → owns ph st rd rp rm →
  wp (recover_full_runtime_cancellable permit) recovered w.
Proof.
  intros Hw Ho. unfold recover_full_runtime_cancellable. step.
  eapply wp_wand; [by eapply wp_stop|]. intros [[]|e] w1 Hw1;
    [destruct Hw1 as (fl1 & Hw1 & _)|destruct Hw1 as (fl1 & Hw1)]; steps; [|by eauto].
  use_rule wp_check_recovery_permit; [|by eauto].
  steps. eapply wp_start_for_recovery; eauto.
Qed.

Lemma wp_start_tunnel_from_recovering_pep_cancellable p stuck fl st w :
  view (PepUp p true stuck) fl st None (Some p) None w → st ≠ RuntimeReady →
  wp (start_tunnel_from_recovering_pep_cancellable permit) recovered w.
Proof.
  intros Hw Hst. unfold start_tunnel_from_recovering_pep_cancellable. check_permit.
  unfold unless_cancelled, or_clean_up, stop_tunnel_err. steps; eauto.
Qed.

Lemma wp_recover_policy_and_tunnel_cancellable ph fl st rd rp rm w :
  view ph fl st rd rp rm w → owns ph st rd rp rm → st ≠ RuntimeReady →
  wp (recover_policy_and_tunnel_cancellable permit) recovered w.
Proof.
  intros Hw Ho Hst. unfold recover_policy_and_tunnel_cancellable. check_permit. step.
  eapply wp_wand; [by eapply wp_release_tunnel|]. intros [[]|e] w1.
  2:{ intros (ph1 & fl1 & rd1 & Hw1 & Ho1). eauto. }
  intros (ph1 & fl1 & rp1 & rm1 & Hw1 & Hl1 & _). check_permit. step.
  eapply wp_wand; [by eapply wp_reclaim_mcp|]. intros [[]|e] w2.
  2:{ intros (fl2 & Hw2). eauto. }
  intros (ph2 & fl2 & rm2 & Hw2 & Hl2 & _). check_permit. steps. inversion Hl2; subst.
  { eapply wp_recover_full_runtime_cancellable; eauto. }
  steps; [by eapply wp_check_recovery_permit; eauto|by eapply wp_reject_pep; eauto|..].
  - use_rule wp_check_recovery_permit; [|by eauto].
    eapply wp_start_tunnel_from_recovering_pep_cancellable; eauto.
  - eapply wp_reject_pep; eauto.
  - eauto.
  - case_bool_decide; [by steps; eauto|].
    eapply wp_recover_full_runtime_cancellable; eauto.
Qed.

Lemma wp_recover_tunnel_only_cancellable ph fl st rd rp rm w :
  view ph fl st rd rp rm w → owns ph st rd rp rm → st ≠ RuntimeReady →
  wp (recover_tunnel_only_cancellable permit) recovered w.
Proof.
  intros Hw Ho Hst. unfold recover_tunnel_only_cancellable. check_permit. step.
  eapply wp_wand; [by eapply wp_release_tunnel|]. intros [[]|e] w1.
  2:{ intros (ph1 & fl1 & rd1 & Hw1 & Ho1). eauto. }
  intros (ph1 & fl1 & rp1 & rm1 & Hw1 & Hl1 & _). check_permit. steps. destruct Hl1; simpl.
  - eapply wp_recover_full_runtime_cancellable; eauto.
  - eapply wp_recover_policy_and_tunnel_cancellable; eauto.
  - steps.
    + use_rule wp_check_recovery_permit; [|by eauto].
      eapply wp_start_tunnel_from_recovering_pep_cancellable; eauto.
    + case_bool_decide; [by steps; eauto|].
      eapply wp_recover_policy_and_tunnel_cancellable; eauto.
Qed.
End logic.

(** ** The theorems *)

Section theorems.
Context `{!RuntimeDriver}.
Implicit Types (w : World) (permit : RecoveryPermit).

#[local] Hint Constructors owns lower : core.

(** From a steady world to a view of it, and back. *)
Lemma steady_view w permit h0 :
  steady w → issued permit w → h0 ≠ HeedCancelled → ∃ ph st rd rp rm,
    view (w_trace w) permit (ro_outages (w_orchestrator w)) h0 ph h0 st rd rp rm w ∧
    owns ph st rd rp rm.
Proof.
  intros (ph & Hp & Ho) Hi Hh. destruct w as [[st rd rp rm ou] t]. simpl in *.
  exists ph, st, rd, rp, rm. split; [|done]. split; [done..| |done|done].
  by exists [].
Qed.

Lemma view_steady t0 permit ou h0 ph fl st rd rp rm w :
  view t0 permit ou h0 ph fl st rd rp rm w → owns ph st rd rp rm → steady w.
Proof. intros [Ho Hp _ _ _] Hown. exists ph. by rewrite Ho. Qed.

Definition permit_now w : RecoveryPermit := MkRecoveryPermit (epoch (w_trace w)).

Lemma issued_now w : issued (permit_now w) w.
Proof. unfold issued. simpl. lia. Qed.

(** Specifications of the entry points, from a steady world. *)

(** The runtime is ready, its tunnel confirmed and nothing else is kept. *)
Definition serving w : Prop :=
  let o := w_orchestrator w in
  ro_state o = RuntimeReady ∧ ro_recovering_pep o = None ∧ ro_recovering_mcp o = None ∧
  ∃ p t, ro_ready o = Some (MkReadyHandles p t) ∧ phase_of w = Some (TunnelUp p t true).

(** Nothing runs and nothing is owned. *)
Definition all_down w : Prop :=
  let o := w_orchestrator w in
  phase_of w = Some Down ∧ ro_ready o = None ∧ ro_recovering_pep o = None ∧
  ro_recovering_mcp o = None.

(** The events between two worlds are the orchestrator's own, and its record of the
    outage is untouched. *)
Definition quiet w w' : Prop :=
  ro_outages (w_orchestrator w') = ro_outages (w_orchestrator w) ∧
  ∃ new, w_trace w' = new ++ w_trace w ∧ Forall (λ e, own_event e = true) new.

(** The events between two worlds, and that they heed the permit. *)
Definition heeded permit h0 w w' : Prop :=
  ∃ new fl, w_trace w' = new ++ w_trace w ∧ accepts heed_step h0 new = Some fl ∧
    honest permit (w_trace w) new.

Lemma view_serving t0 permit ou h0 p t fl w :
  view t0 permit ou h0 (TunnelUp p t true) fl RuntimeReady (Some (MkReadyHandles p t)) None None w →
  serving w.
Proof. intros [Ho Hp _ _ _]. unfold serving. rewrite Ho. naive_solver. Qed.

Lemma view_all_down t0 permit ou h0 fl st w :
  view t0 permit ou h0 Down fl st None None None w →
  all_down w ∧ ro_state (w_orchestrator w) = st.
Proof. intros [Ho Hp _ _ _]. unfold all_down. by rewrite Ho. Qed.

Lemma view_heeded w permit ou h0 ph fl st rd rp rm w' :
  view (w_trace w) permit ou h0 ph fl st rd rp rm w' → heeded permit h0 w w'.
Proof. intros [_ _ (new & ? & ? & ?) _ _]. by exists new, fl. Qed.

Lemma accepts_own new h0 fl :
  accepts heed_step h0 new = Some fl → Forall (λ e, own_event e = true) new.
Proof.
  revert fl. induction new as [|e new IH]; intros fl; [constructor|]. unfold accepts in *. simpl.
  destruct (foldr _ _ new) as [b|]; [|done]. simpl. intros He.
  constructor; [by destruct e|by eapply IH].
Qed.

Lemma view_quiet w permit h0 ph fl st rd rp rm w' :
  view (w_trace w) permit (ro_outages (w_orchestrator w)) h0 ph fl st rd rp rm w' → quiet w w'.
Proof.
  intros Hv. split; [by rewrite (view_orchestrator _ _ _ _ _ _ _ _ _ _ _ Hv)|].
  destruct (view_heeded _ _ _ _ _ _ _ _ _ _ _ Hv) as (new & fl' & ? & ?%accepts_own & _).
  by exists new.
Qed.

Lemma quiet_refl w : quiet w w.
Proof. split; [done|]. by exists []. Qed.

Lemma quiet_trans w1 w2 w3 : quiet w1 w2 → quiet w2 w3 → quiet w1 w3.
Proof.
  intros (O1 & n1 & H1 & F1) (O2 & n2 & H2 & F2). split; [congruence|]. exists (n2 ++ n1).
  rewrite H2, H1, (assoc_L (++)), Forall_app. done.
Qed.

Lemma view_state t0 permit ou h0 ph fl st rd rp rm w :
  view t0 permit ou h0 ph fl st rd rp rm w → ro_state (w_orchestrator w) = st.
Proof. by intros [-> _ _ _ _]. Qed.

Lemma serving_steady w : serving w → steady w.
Proof.
  intros (Hs & Hrp & Hrm & p & t & Hr & Hp). exists (TunnelUp p t true).
  rewrite Hr, Hrp, Hrm. eauto.
Qed.

Lemma all_down_steady w : all_down w → steady w.
Proof. intros (Hp & Hr & Hrp & Hrm). exists Down. rewrite Hr, Hrp, Hrm. eauto. Qed.

#[local] Hint Resolve serving_steady all_down_steady view_steady view_serving view_all_down
  view_heeded view_state issued_now view_quiet quiet_refl : core.

Lemma start_spec observer w :
  steady w →
  wp (start_with_state_projection observer) (λ r w', quiet w w' ∧ match r with
    | Ok _ => serving w'
    | Err e => (w' = w ∧ e = no_cleanup ConfigurationInvalid) ∨
               (all_down w' ∧ ro_state (w_orchestrator w') = RuntimeFaulted (oe_fault e))
    end) w.
Proof.
  intros Hs. destruct (steady_view w (permit_now w) Unguarded)
    as (ph & st & rd & rp & rm & Hw & Ho); auto.
  destruct (decide (rd = None ∧ rp = None ∧ rm = None ∧ st = RuntimeStopped))
    as [(-> & -> & -> & ->)|Hne].
  - inversion Ho; subst. eapply wp_wand; [by eapply wp_start|]. intros [[]|e] w'.
    + intros (p & t & fl & Hv). eauto.
    + intros (f & fl & Hv & <-). split; [eauto|]. right. eauto.
  - unfold start_with_state_projection. apply wp_bind. eapply wp_orchestrator; [exact Hw|].
    cbn [ro_state ro_ready ro_recovering_pep ro_recovering_mcp].
    match goal with |- wp (if ?b then _ else _) _ _ => destruct b eqn:Hb end;
      [apply wp_ret; auto|].
    rewrite !orb_false_iff, negb_false_iff, !bool_decide_eq_false, bool_decide_eq_true,
      <-!eq_None_not_Some in Hb. naive_solver.
Qed.

Lemma stop_spec observer w :
  steady w →
  wp (stop_with_state_projection observer) (λ r w', quiet w w' ∧ all_down w' ∧
    ro_state (w_orchestrator w') =
      match r with Ok _ => RuntimeStopped | Err e => RuntimeFaulted (oe_fault e) end) w.
Proof.
  intros Hs. destruct (steady_view w (permit_now w) Unguarded)
    as (ph & st & rd & rp & rm & Hw & Ho); auto.
  eapply wp_wand; [by eapply wp_stop|]. intros [[]|e] w'; [intros (fl & Hw' & _)|intros (fl & Hw')]; eauto.
Qed.

Lemma recover_minimal_spec scope attempt w :
  steady w →
  wp (recover_minimal scope attempt) (λ r w', steady w' ∧ quiet w w' ∧ match r with
    | Ok _ => serving w'
    | Err e => ro_state (w_orchestrator w') = RuntimeFaulted (oe_fault e)
    end) w.
Proof.
  intros Hs. destruct (steady_view w (permit_now w) Unguarded)
    as (ph & st & rd & rp & rm & Hw & Ho); auto.
  unfold recover_minimal. apply wp_bind. eapply wp_set_state; [exact Hw|]. intros w1 Hw1.
  assert (owns ph (Recovering (scope_component scope) attempt) rd rp rm) as Ho1.
  { destruct Ho; constructor. done. }
  apply wp_bind. eapply (wp_wand _ (recovered (w_trace w) (permit_now w) (ro_outages (w_orchestrator w)) Unguarded)).
  { destruct scope.
    - by eapply wp_recover_tunnel_only.
    - by eapply wp_recover_policy_and_tunnel.
    - by eapply wp_recover_full_runtime. }
  intros [[]|e] w2.
  - intros (p & t & fl & st2 & Hw2). apply wp_bind. eapply wp_set_state; [exact Hw2|].
    intros w3 Hw3. apply wp_ret. eauto 6.
  - intros (ph2 & fl & st2 & rd2 & rp2 & rm2 & Hw2 & Ho2 & _).
    apply wp_bind. eapply wp_set_state; [exact Hw2|]. intros w3 Hw3. apply wp_ret.
    split; [|eauto 6]. eapply view_steady; [done|]. destruct Ho2; constructor. done.
Qed.

(** How a cancellable recovery fails: the fault is recorded, or it was cancelled. *)
Definition failed_or_cancelled scope attempt w (e : OrchestratorError) w' : Prop :=
  ro_state (w_orchestrator w') = RuntimeFaulted (oe_fault e) ∨
  e = no_cleanup UserStopped ∧
  (ro_state (w_orchestrator w') = Recovering (scope_component scope) attempt ∨
   w_orchestrator w' = w_orchestrator w).

Lemma recover_minimal_cancellable_spec scope attempt permit w :
  steady w → issued permit w →
  wp (recover_minimal_cancellable scope attempt permit) (λ r w', steady w' ∧ heeded permit Unread w w' ∧
    quiet w w' ∧ match r with
    | Ok _ => serving w'
    | Err e => failed_or_cancelled scope attempt w e w'
    end) w.
Proof.
  intros Hs Hi. destruct (steady_view w permit Unread) as (ph & st & rd & rp & rm & Hw & Ho); [done..|].
  unfold recover_minimal_cancellable. apply wp_bind_ok.
  eapply wp_check_recovery_permit; [exact Hw| |].
  2:{ intros w1 Hw1. do 3 (split; [by eauto|]). right. split; [done|]. right.
      by rewrite (view_orchestrator _ _ _ _ _ _ _ _ _ _ _ Hw),
        (view_orchestrator _ _ _ _ _ _ _ _ _ _ _ Hw1). }
  intros w0 _ Hw0. apply wp_bind. eapply wp_set_state; [exact Hw0|]. intros w1 Hw1.
  assert (owns ph (Recovering (scope_component scope) attempt) rd rp rm) as Ho1.
  { destruct Ho; constructor. done. }
  apply wp_bind. eapply (wp_wand _ (recovered (w_trace w) permit (ro_outages (w_orchestrator w)) Unread)).
  { destruct scope.
    - by eapply wp_recover_tunnel_only_cancellable.
    - by eapply wp_recover_policy_and_tunnel_cancellable.
    - by eapply wp_recover_full_runtime_cancellable. }
  intros [[]|e] w2.
  - intros (p & t & fl & st2 & Hw2). apply wp_bind. eapply wp_set_state; [exact Hw2|].
    intros w3 Hw3. apply wp_ret. eauto 8.
  - intros (ph2 & fl & st2 & rd2 & rp2 & rm2 & Hw2 & Ho2 & _).
    assert (∀ b fl' w3 (st' := if b && bool_decide (oe_fault e = UserStopped) &&
              bool_decide (oe_cleanup_fault e = None)
         then Recovering (scope_component scope) attempt
         else RuntimeFaulted (oe_fault e)), view (w_trace w) permit (ro_outages (w_orchestrator w))
         Unread ph2 fl' st' rd2 rp2 rm2 w3 →
      steady w3 ∧ heeded permit Unread w w3 ∧ quiet w w3 ∧ failed_or_cancelled scope attempt w e w3) as Hfin.
    2:{ apply wp_bind. eapply wp_is_cancelled; [exact Hw2| |]; intros; apply wp_bind;
          (eapply wp_set_state; [done|]); intros; apply wp_ret; by eapply Hfin. }
    intros b fl' w3 st' Hw3. split.
    { eapply view_steady; [exact Hw3|]. unfold st'. destruct Ho2; constructor. by case_match. }
    do 2 (split; [by eauto|]). unfold failed_or_cancelled. rewrite (view_state _ _ _ _ _ _ _ _ _ _ _ Hw3).
    unfold st'.
    destruct b; simpl; [|by left]. do 2 (case_bool_decide; simpl; [|by left]).
    right. destruct e; simpl in *; subst. auto.
Qed.

Lemma stop_tunnel_for_exit_spec w :
  steady w → wp stop_tunnel_for_exit (λ _ w', steady w' ∧ quiet w w' ∧
    ro_ready (w_orchestrator w') = None) w.
Proof.
  intros Hs. destruct (steady_view w (permit_now w) Unguarded)
    as (ph & st & rd & rp & rm & Hw & Ho); auto.
  eapply wp_wand; [by eapply wp_stop_tunnel_for_exit|].
  intros r w' (ph' & fl' & rp' & rm' & Hw' & Hl & _). split_and!; [eauto using lower_owns|eauto|].
  by rewrite (view_orchestrator _ _ _ _ _ _ _ _ _ _ _ Hw').
Qed.

Lemma finish_exit_spec w :
  steady w → wp finish_exit_after_tunnel (λ _ w', steady w' ∧ quiet w w' ∧
    (ro_ready (w_orchestrator w) = None → all_down w')) w.
Proof.
  intros Hs. destruct (steady_view w (permit_now w) Unguarded)
    as (ph & st & rd & rp & rm & Hw & Ho); auto.
  pose proof (view_orchestrator _ _ _ _ _ _ _ _ _ _ _ Hw) as Hwo. destruct rd as [r|].
  - assert (ro_ready (w_orchestrator w) ≠ None) as Hne by by rewrite Hwo.
    unfold finish_exit_after_tunnel, finish_exit_with_state_projection, release_pep, release_mcp.
    inversion Ho; subst; apply wp_bind; apply wp_bind; (eapply wp_orchestrator; [exact Hw|]);
      apply wp_ret; apply wp_bind; apply wp_bind; (eapply wp_orchestrator; [exact Hw|]);
      apply wp_ret; apply wp_bind; (eapply wp_transition; [exact Hw|]); intros; apply wp_ret;
      (split_and!; [by eauto|by eauto|done]).
  - assert (lower ph rp rm) as Hl by (inversion Ho; subst; constructor).
    eapply (wp_wand _ _ _ _ (wp_finish_exit _ _ _ _ _ _ _ _ _ _ _ Hw Hl)).
    intros [[]|e] w'; [intros (fl & Hw' & _)|intros (fl & Hw')];
      (split_and!; [eauto|eauto|intros _; eapply view_all_down; exact Hw']).
Qed.

Lemma probe_spec w : steady w → wp probe_ready_health (λ _ w', steady w' ∧ quiet w w' ∧
  w_orchestrator w' = w_orchestrator w) w.
Proof.
  intros Hs. destruct (steady_view w (permit_now w) Unguarded)
    as (ph & st & rd & rp & rm & Hw & Ho); auto.
  pose proof (view_orchestrator _ _ _ _ _ _ _ _ _ _ _ Hw) as Heq.
  unfold probe_ready_health. apply wp_bind. eapply wp_orchestrator; [exact Hw|].
  cbn [ro_state ro_ready]. case_bool_decide; simpl; [|by apply wp_ret].
  destruct Ho; subst; try (by apply wp_ret).
  set (up := view (w_trace w) (permit_now w) (ro_outages (w_orchestrator w)) Unguarded
    (TunnelUp p t true) Unguarded RuntimeReady (Some (MkReadyHandles p t)) None None).
  assert (∀ c w1 component (Q : result RuntimeHealthFailure unit → World → Prop),
    up w1 →
    c ∈ [ProbeMcp p; ProbePep p; ProbeTunnel t] →
    (∀ r w', up w' → Q r w') →
    wp (probe component c) Q w1) as Hprobe.
  { intros c w1 component Q Hw1 Hc HQ. apply wp_fmap. eapply wp_call; [exact Hw1|by rewrite andb_false_r|].
    intros n f. exists (TunnelUp p t true).
    rewrite !elem_of_cons, elem_of_nil in Hc. destruct Hc as [->|[->|[->|[]]]]; simpl;
      rewrite bool_decide_true by done; auto. }
  assert (∀ r : result RuntimeHealthFailure unit, ∀ w', up w' →
    steady w' ∧ quiet w w' ∧ w_orchestrator w' = w_orchestrator w) as Hend.
  { intros _ w' Hw'. do 2 (split; [by eauto|]). by rewrite (view_orchestrator _ _ _ _ _ _ _ _ _ _ _ Hw'). }
  do 2 (apply wp_bind_ok; (eapply Hprobe; [eassumption|set_solver|]);
    intros [[]|] ? ?; [|by eapply (Hend (Ok tt))]).
  eapply Hprobe; [eassumption|set_solver|]. intros r' w3 Hw3. by eapply Hend.
Qed.

Lemma switch_workspace_spec candidate w :
  steady w →
  wp (switch_workspace_to candidate) (λ r w', steady w' ∧ quiet w w' ∧ match r with
    | Ok _ => serving w'
    | Err _ => w' = w ∨ all_down w'
    end) w.
Proof.
  intros Hs. unfold switch_workspace_to. case_bool_decide; [apply wp_ret; auto|].
  apply wp_bind_ok, wp_fmap. eapply wp_wand; [by apply stop_spec|].
  intros [[]|e] w1 (Hq & Hd & Hst); simpl; [|by auto].
  assert (∀ w', all_down w' → ∃ ou, ou = ro_outages (w_orchestrator w') ∧
    view (w_trace w') (permit_now w') ou Unguarded Down Unguarded (ro_state (w_orchestrator w'))
      None None None w')
    as Hdown.
  { intros w' Hd'. destruct (steady_view w' (permit_now w') Unguarded)
    as (ph & st & rd & rp & rm & Hw' & Ho);
      auto. exists (ro_outages (w_orchestrator w')). split; [done|]. destruct Hd' as (Hp & ?).
    pose proof Hw' as [Heq Hp' _ _ _]. rewrite Heq in *. simpl in *.
    rewrite Hp in Hp'. simplify_eq. destruct_and?. by simplify_eq. }
  destruct (Hdown w1 Hd) as (ou & Hou & Hw1). rewrite Hst in Hw1.
  apply wp_bind. eapply wp_call; [exact Hw1|done|].
  intros n [f|]; (eexists; split; [reflexivity|]); intros w2 Hw2.
  - apply wp_bind. eapply wp_set_state; [exact Hw2|]. intros w3 Hw3.
    apply wp_ret. destruct (view_all_down _ _ _ _ _ _ _ Hw3).
    assert (quiet w w3) by (eapply quiet_trans; [exact Hq|]; eapply view_quiet; by rewrite Hou in Hw3).
    auto.
  - apply wp_fmap. destruct (view_all_down _ _ _ _ _ _ _ Hw2) as [Hd2 Hs2].
    assert (quiet w w2) as Hq2
      by (eapply quiet_trans; [exact Hq|]; eapply view_quiet; by rewrite Hou in Hw2).
    eapply wp_wand; [eapply start_spec; auto|].
    intros [[]|e] w3 [Hq3 Hr]; simpl; pose proof (quiet_trans _ _ _ Hq2 Hq3); [auto|].
    destruct Hr as [[-> _]|[? _]]; auto.
Qed.

(** Every operation, and the invariant of the machine. *)
Lemma outage_operation_spec {A} (f : OutageTracker → OutageTracker * A) w :
  steady w → wp (on_outages f) (λ _ w', steady w') w.
Proof.
  unfold wp, on_outages. destruct w as [o t]; simpl. by destruct (f (ro_outages o)).
Qed.

Lemma set_state_spec st w :
  steady w → st ≠ RuntimeReady → wp (set_state st) (λ _ w', steady w') w.
Proof.
  intros (ph & Hp & Ho) Hst. exists ph. split; [done|].
  destruct w as [[] t]; simpl in *. destruct Ho; by constructor.
Qed.

Lemma operation_spec op w :
  steady w → enabled op w → wp (run_operation op) (λ _ w', steady w') w.
Proof.
  intros Hs He. destruct op; simpl; try apply wp_fmap.
  - eapply wp_wand; [by apply start_spec|]. intros [[]|e] w' [? Hr]; [auto|].
    destruct Hr as [[-> _]|[? _]]; auto.
  - eapply wp_wand; [by apply stop_spec|]. intros r w' (_ & ? & _); auto.
  - eapply wp_wand; [by apply stop_tunnel_for_exit_spec|]. by intros r w' [? _].
  - eapply wp_wand; [by apply finish_exit_spec|]. by intros r w' [? _].
  - eapply wp_wand; [by apply probe_spec|]. by intros r w' [? _].
  - eapply wp_wand; [by apply recover_minimal_spec|]. by intros r w' [? _].
  - eapply wp_wand; [by apply recover_minimal_cancellable_spec|]. by intros r w' [? _].
  - eapply wp_wand; [by apply switch_workspace_spec|]. by intros r w' [? _].
  - by apply outage_operation_spec.
  - by apply outage_operation_spec.
  - by apply outage_operation_spec.
  - by apply outage_operation_spec.
  - by apply set_state_spec.
  - by apply set_state_spec.
Qed.

#[export] Instance steady_invariant : Invariant steady.
Proof.
  split.
  - intros w ->. exists Down. auto.
  - intros w w' Hs Hstep. destruct Hstep as [op w He|e w He].
    + destruct (wp_run _ _ _ (operation_spec op w Hs He)) as (w' & [] & -> & Hw'). done.
    + destruct Hs as (ph & Hp & Ho). exists ph. split; [|done].
      destruct w as [o t]. unfold phase_of in *. simpl in *. rewrite Hp. by destruct e.
Qed.

(** Events after which a component may be started end, but for what they show, with
    a read of the permit as not cancelled. *)
Lemma heed_cleared new :
  accepts heed_step Unread new = Some Cleared →
  ∃ shown pre, new = shown ++ PermitRead false :: pre ∧ Forall (λ e, is_call e = false) shown.
Proof.
  unfold accepts. induction new as [|e new IH]; [done|]. simpl.
  destruct (foldr _ _ new) as [h|]; [|done]. simpl. destruct e as [c n f|[]| | | | |]; try done.
  - simpl. destruct (_ && _); [done|]. by destruct h.
  - intros _. by exists [], new.
  - intros [= ->]. destruct (IH eq_refl) as (shown & pre & -> & Hs).
    exists (Projected state :: shown), pre. by repeat constructor.
Qed.

Lemma heed_cancelled_suffix post pre fl :
  accepts heed_step Unread (post ++ pre) = Some fl → PermitRead true ∈ pre → fl = HeedCancelled.
Proof.
  intros Hacc Hin. apply list_elem_of_split in Hin as (l1 & l2 & ->).
  rewrite (assoc_L (++)) in Hacc. revert fl Hacc. generalize (post ++ l1). intros l.
  unfold accepts. induction l as [|e l IH]; intros fl; simpl.
  - destruct (foldr _ _ l2); simpl; congruence.
  - destruct (foldr _ _ _) as [h|]; [|done]. simpl. rewrite (IH h eq_refl).
    destruct e as [c n f|[]| | | | |]; simpl; [destruct (_ && _)|..]; congruence.
Qed.

Lemma accepts_app_inv h0 post pre fl :
  accepts heed_step h0 (post ++ pre) = Some fl → ∃ fl', accepts heed_step h0 pre = Some fl'.
Proof.
  revert fl. induction post as [|e post IH]; intros fl; [eauto|]. unfold accepts in *. simpl.
  destruct (foldr _ _ (post ++ pre)) as [h|] eqn:E; [|done]. intros _. by eapply IH.
Qed.

Lemma may_start_unread new fl :
  accepts heed_step Unread new = Some fl → may_start fl = true → fl = Cleared.
Proof.
  intros Hacc Hm. destruct fl; try done. exfalso. revert Hacc. unfold accepts.
  induction new as [|e new IH]; simpl; [done|].
  destruct (foldr _ _ new) as [h|]; [|done]. simpl.
  destruct e as [c n f|[]| | | | |]; simpl; try done.
  - destruct (_ && _); [done|]. intros [=]. by destruct h.
  - by destruct h.
Qed.

Lemma honest_app permit t0 post pre :
  honest permit t0 (post ++ pre) → honest permit t0 pre.
Proof. induction post as [|e post IH]; [done|]. intros [_ ?]. auto. Qed.

(** Every start of a run that heeds its permit. *)
Lemma heed_start permit t0 post c n f pre fl :
  accepts heed_step Unread (post ++ Called c n f :: pre) = Some fl →
  honest permit t0 (post ++ Called c n f :: pre) → starts c = true →
  (PermitRead true ∉ pre) ∧
  ∃ shown pre', pre = shown ++ PermitRead false :: pre' ∧
    Forall (λ e, is_call e = false) shown ∧ epoch (pre' ++ t0) = captured permit.
Proof.
  intros Hacc Hr%honest_app Hc. apply accepts_app_inv in Hacc as (h & Hacc).
  unfold accepts in Hacc. simpl in Hacc.
  destruct (foldr _ _ pre) as [h'|] eqn:Hp; [|done]. simpl in Hacc. rewrite Hc in Hacc.
  destruct (may_start h') eqn:Hm; [|done]. pose proof (may_start_unread _ _ Hp Hm) as ->. split.
  - intros Hin. by pose proof (heed_cancelled_suffix [] pre _ Hp Hin).
  - destruct (heed_cleared _ Hp) as (shown & pre' & -> & Hs). exists shown, pre'.
    split_and!; [done..|]. destruct Hr as [_ [Hb _]%honest_app].
    specialize (Hb false eq_refl). symmetry in Hb. apply bool_decide_eq_false in Hb.
    by apply dec_stable.
Qed.

(** A recovery that was cancelled before it began reads its permit and ends. *)
Lemma recover_cancelled scope attempt permit w :
  epoch (w_trace w) ≠ captured permit →
  recover_minimal_cancellable scope attempt permit w =
  (w <| w_trace ::= cons (PermitRead true) |>, Some (Err (no_cleanup UserStopped))).
Proof.
  intros Hc. unfold recover_minimal_cancellable, bind_ok, check_recovery_permit, is_cancelled,
    mbind, eff_bind, mret, eff_ret. by rewrite bool_decide_true.
Qed.

(** C24 (refinement): whatever the driver answers and whenever other threads cancel,
    the orchestrator follows the lifecycle protocol: the calls of every run are
    those of the automaton [protocol_step] (MCP server, PEP and tunnel are started
    in this order, each on a confirmed one below, stopped from the top, and no
    handle is used after it was given up), its fields own exactly the components
    that run, and no operation reaches one of its [expect]s. *)
Theorem orchestrator_follows_protocol op w :
  reachable w → enabled op w →
  steady w ∧ ∃ w', run_operation op w = (w', Some ()) ∧ steady w'.
Proof.
  intros Hs%(invariant_reachable steady) He. split; [done|].
  destruct (wp_run _ _ _ (operation_spec op w Hs He)) as (w' & [] & Hrun & Hw'). eauto.
Qed.

(** Starting is all or nothing: it ends with a confirmed tunnel over
    a confirmed PEP in state [Ready], or with everything taken down and the fault
    recorded, and it is refused without an effect when something is owned; stopping
    always ends with nothing running, even when a component refuses to stop. *)
Theorem start_and_stop_outcomes observer w :
  reachable w →
  (∃ w' r, start_with_state_projection observer w = (w', Some r) ∧ match r with
     | Ok _ => serving w'
     | Err e => (w' = w ∧ e = no_cleanup ConfigurationInvalid) ∨
                (all_down w' ∧ ro_state (w_orchestrator w') = RuntimeFaulted (oe_fault e))
     end) ∧
  (∃ w' r, stop_with_state_projection observer w = (w', Some r) ∧ all_down w' ∧
     ro_state (w_orchestrator w') =
       match r with Ok _ => RuntimeStopped | Err e => RuntimeFaulted (oe_fault e) end).
Proof.
  intros Hs%(invariant_reachable steady).
  split; apply wp_run; [eapply wp_wand; [by apply start_spec|]|eapply wp_wand; [by apply stop_spec|]];
    by intros r w' [_ ?].
Qed.

(** A recovery attempt succeeds only with the whole runtime
    serving again; when it fails the fault is recorded, and only a recovery
    cancelled by the user, with nothing left to clean up, stays [Recovering]. *)
Theorem recovery_outcomes scope attempt permit w :
  reachable w → issued permit w →
  ∃ w' r, recover_minimal_cancellable scope attempt permit w = (w', Some r) ∧ steady w' ∧
  match r with
  | Ok _ => serving w'
  | Err e => failed_or_cancelled scope attempt w e w'
  end.
Proof.
  intros Hs%(invariant_reachable steady) Hi.
  destruct (wp_run _ _ _ (recover_minimal_cancellable_spec scope attempt permit w Hs Hi))
    as (w' & r & Hrun & ? & _ & _ & ?). eauto 6.
Qed.

(** C25 (safety): a recovery starts nothing its permit does not allow.  In every recovery
    scope and for every driver, each start of a component follows a read of the permit
    that found it not cancelled, with no other call of the driver between the two, and
    that read told the truth of its moment; after a read that found the permit cancelled
    no component is started at all; and a recovery whose permit is cancelled before it
    begins reads it once, calls nothing, changes nothing and ends as stopped by the
    user. *)
Theorem recovery_heeds_cancellation scope attempt permit w w' r :
  reachable w → issued permit w →
  recover_minimal_cancellable scope attempt permit w = (w', r) →
  ∃ new, w_trace w' = new ++ w_trace w ∧
  (∀ post c n f pre, new = post ++ Called c n f :: pre → starts c = true →
     (PermitRead true ∉ pre) ∧
     ∃ shown pre', pre = shown ++ PermitRead false :: pre' ∧
       Forall (λ e, is_call e = false) shown ∧ epoch (pre' ++ w_trace w) = captured permit) ∧
  (epoch (w_trace w) ≠ captured permit → r = Some (Err (no_cleanup UserStopped)) ∧
     w_orchestrator w' = w_orchestrator w ∧ new = [PermitRead true]).
Proof.
  intros Hs%(invariant_reachable steady) Hi Hrun.
  destruct (wp_run _ _ _ (recover_minimal_cancellable_spec scope attempt permit w Hs Hi))
    as (w'' & r' & Hrun' & _ & (new & fl & Hnew & Hacc & Hr) & _).
  rewrite Hrun in Hrun'. simplify_eq. exists new. split; [done|]. split.
  - intros post c n f pre -> Hc. by eapply heed_start.
  - intros Hc. rewrite recover_cancelled in Hrun by done. simplify_eq.
    split_and!; [done..|]. by apply (app_inv_tail (w_trace w)).
Qed.
End theorems.

(** ** A driver for the witnesses *)

(** MCP server and PEP always come up; the tunnel does not, the first time. *)
#[local] Instance demo_driver : RuntimeDriver := {
  answer t c := match c with
                | StartTunnel Plain _ => Some TunnelSpawnFailed
                | _ => None
                end;
  epoch t := N.of_nat (length (List.filter (λ e, match e with CancelRequested => true
    | _ => false end) t));
  epoch_mono e t := ltac:(destruct e; simpl; lia);
  epoch_cancel t := ltac:(simpl; lia)
}.

Definition demo_world : World := MkWorld runtime_new [].
Lemma demo_reachable : reachable demo_world.
Proof. by exists demo_world. Qed.

Lemma orchestrator_follows_protocol_witness :
  ∃ w', run_operation (OpStart true) demo_world = (w', Some ()) ∧ steady w'.
Proof.
  destruct (orchestrator_follows_protocol (OpStart true) demo_world demo_reachable I)
    as (_ & w' & Hrun & Hs).
  exists w'. split; assumption.
Defined.

Lemma start_and_stop_outcomes_witness :
  ∃ w' r, stop_with_state_projection true demo_world = (w', Some r) ∧ all_down w'.
Proof.
  destruct (start_and_stop_outcomes true demo_world demo_reachable) as [_ (w' & r & Hrun & Hd & _)].
  exists w', r. split; assumption.
Defined.

Lemma recovery_outcomes_witness :
  ∃ w', recover_minimal_cancellable FullRuntime 1 (MkRecoveryPermit 0) demo_world =
    (w', Some (Ok ())) ∧ serving w'.
Proof.
  destruct (recovery_outcomes FullRuntime 1 (MkRecoveryPermit 0) demo_world demo_reachable)
    as (w' & r & Hrun & _ & Hr); [done|].
  assert (r = Ok ()) as ->.
  { apply (f_equal snd) in Hrun. vm_compute in Hrun. congruence. }
  exists w'. split; assumption.
Defined.

Definition demo_recovery : World :=
  (recover_minimal_cancellable FullRuntime 1 (MkRecoveryPermit 0) demo_world).1.

Lemma recovery_heeds_cancellation_witness :
  (∃ post c n f shown pre, starts c = true ∧ Forall (λ e, is_call e = false) shown ∧
     w_trace demo_recovery = post ++ Called c n f :: shown ++ PermitRead false :: pre) ∧
  ∃ w', recover_minimal_cancellable FullRuntime 1 (MkRecoveryPermit 0)
      (demo_world <| w_trace := [CancelRequested] |>) = (w', Some (Err (no_cleanup UserStopped))) ∧
    w_trace w' = [PermitRead true; CancelRequested].
Proof.
  split.
  - destruct (recovery_heeds_cancellation FullRuntime 1 (MkRecoveryPermit 0) demo_world
      demo_recovery (Some (Ok ())) demo_reachable) as (new & Hnew & Hstarts & _).
    { by vm_compute. }
    { by vm_compute. }
    rewrite app_nil_r in Hnew.
    destruct new as [|e0 [|e1 [|e2 [|e3 new]]]]; [by vm_compute in Hnew..|].
    set (start := Called (StartTunnel ForRecovery (MkPepHandle 7)) 11 None).
    assert (e3 = start) as -> by (by vm_compute in Hnew; injection Hnew).
    destruct (Hstarts [e0; e1; e2] _ _ _ new eq_refl eq_refl) as (_ & shown & pre & -> & Hs & _).
    exists [e0; e1; e2], (StartTunnel ForRecovery (MkPepHandle 7)), 11, None, shown, pre.
    split; [reflexivity|split; [exact Hs|exact Hnew]].
  - destruct (recover_minimal_cancellable FullRuntime 1 (MkRecoveryPermit 0)
      (demo_world <| w_trace := [CancelRequested] |>)) as [w' r] eqn:Hrun.
    destruct (recovery_heeds_cancellation FullRuntime 1 (MkRecoveryPermit 0)
      (demo_world <| w_trace := [CancelRequested] |>) w' r) as (new & Hnew & _ & Hcancelled).
    { eapply reachable_step; [apply demo_reachable|]. by apply (step_noted CancelRequested). }
    { by vm_compute. }
    { done. }
    destruct Hcancelled as (-> & _ & ->); [by vm_compute|]. by exists w'.
Defined.
