(* ===== verification/Recovery.v ===== *)
(** * Recovery: automatic and manual recovery of the runtime

    [src/src-tauri/src/runtime/recovery.rs] and [RecoveryCancellation] of
    [src/src-tauri/src/runtime/cancellation.rs].  [AutoRecoveryRuntime] watches the
    [Orchestrator]: it classifies a failure, opens an outage generation, retries
    with a growing delay at most five times, and asks for the user once.

    The clock and the request ids are an oracle over the trace, like the driver.
    The observer of attempts records them in the trace. *)

From S2P Require Import Prelude StateModel Effects Orchestrator.
#[local] Open Scope N_scope.

(** ** Classification *)

(* @src runtime/recovery.rs:11-11 RECONNECT_BACKOFF_SECONDS *)
Definition RECONNECT_BACKOFF_SECONDS : list N := [1; 2; 5; 10; 30].
(* @src runtime/recovery.rs:12-12 STABILITY_RESET_SECONDS *)
Definition STABILITY_RESET_SECONDS : N := 60.

(* @src runtime/recovery.rs:15-18 RecoveryDisposition *)
Inductive RecoveryDisposition := DispositionRecoverable | DispositionNonRecoverable.
#[export] Instance RecoveryDisposition_eq_dec : EqDecision RecoveryDisposition.
Proof. solve_decision. Defined.

(* @src runtime/recovery.rs:21-25 RuntimeOutage *)
Record RuntimeOutage := MkRuntimeOutage {
  outage_component : RuntimeComponent;
  outage_fault : RuntimeFault;
  outage_disposition : RecoveryDisposition
}.

(* @src runtime/recovery.rs:28-59 RuntimeOutage::classify *)
Definition classify (component : RuntimeComponent) (fault : RuntimeFault) : RuntimeOutage :=
  let disposition :=
    match fault with
    | McpHealthTimeout | McpExited | PolicyBindFailed | TunnelHealthTimeout | TunnelExited
    | PortUnavailable => DispositionRecoverable
    | WorkspaceMissing | WorkspaceInvalid | RuntimeMissing | RuntimeChecksumMismatch
    | ProcessOwnershipFailed | McpSpawnFailed | PolicyInvalid | PolicyCapabilityUnknown
    | TunnelIdMissing | RuntimeKeyMissing | SecretStoreFailed | SecretInjectionUnsupported
    | TunnelAuthFailed | TunnelSpawnFailed | ConfigurationInvalid | UserStopped
    | RuntimeUnknown => DispositionNonRecoverable
    end in
  MkRuntimeOutage component fault disposition.

(* @src runtime/recovery.rs:61-67 RuntimeOutage::recovery_scope *)
Definition recovery_scope (self : RuntimeOutage) : RecoveryScope :=
  match outage_component self with
  | TunnelComponent => ScopeTunnel
  | PolicyEnforcement => PolicyAndTunnel
  | CodingRuntime => FullRuntime
  end.

(** ** State *)

(* @src runtime/recovery.rs:99-114 RecoveryOutcome *)
Inductive RecoveryOutcome :=
  | OutcomeRecovered (generation : OutageGenerationId) (attempt : N)
  | OutcomeExhausted (generation : OutageGenerationId) (final_fault : RuntimeFault)
      (user_attention_required : bool)
  | OutcomeNonRecoverable (generation : OutageGenerationId) (fault : RuntimeFault)
      (user_attention_required : bool).

(* @src runtime/recovery.rs:142-145 ExhaustedGeneration *)
Record ExhaustedGeneration := MkExhaustedGeneration {
  ex_generation : OutageGenerationId;
  ex_final_fault : RuntimeFault
}.

(* @src runtime/recovery.rs:148-154 RecoveryController *)
Record RecoveryController := MkRecoveryController {
  rc_generation : option OutageGenerationId;
  rc_stable_since : option N;
  rc_current_attempt : N;
  rc_exhausted_generation : option ExhaustedGeneration
}.

(* @src runtime/recovery.rs:165-174 PendingAutoRecovery *)
Record PendingAutoRecovery := MkPendingAutoRecovery {
  pa_generation : OutageGenerationId;
  pa_request_id : string;
  pa_component : RuntimeComponent;
  pa_fault : RuntimeFault;
  pa_scope : RecoveryScope;
  pa_next_attempt : N;
  pa_next_deadline : N;
  pa_permit : RecoveryPermit
}.

(* @src runtime/recovery.rs:157-162 AutoRecoveryRuntime *)
Record AutoRecoveryRuntime := MkAutoRecoveryRuntime {
  ar_runtime : World;
  ar_controller : RecoveryController;
  ar_pending_auto : option PendingAutoRecovery
}.

#[export] Instance eta_RecoveryController : Eta RecoveryController := λ r,
  MkRecoveryController (rc_generation r) (rc_stable_since r) (rc_current_attempt r)
    (rc_exhausted_generation r).
#[export] Instance eta_PendingAutoRecovery : Eta PendingAutoRecovery := λ r,
  MkPendingAutoRecovery (pa_generation r) (pa_request_id r) (pa_component r) (pa_fault r)
    (pa_scope r) (pa_next_attempt r) (pa_next_deadline r) (pa_permit r).
#[export] Instance eta_AutoRecoveryRuntime : Eta AutoRecoveryRuntime := λ r,
  MkAutoRecoveryRuntime (ar_runtime r) (ar_controller r) (ar_pending_auto r).

(** ** Time

    A [Duration] is a number of nanoseconds; its addition panics beyond
    [u64::MAX] seconds.  The clock is monotone and stays thirty seconds away from
    that bound. *)

Definition from_secs (seconds : N) : N := seconds * 1000000000.
Definition duration_max : N := u64_max * 1000000000 + 999999999.

Class RecoveryEnvironment `{!RuntimeDriver} := {
  now_at : list Event → N;
  now_mono e t : now_at t ≤ now_at (e :: t);
  now_bound t : now_at t + from_secs 30 ≤ duration_max;
  request_id_at : list Event → string
}.

Section recovery.
Context `{!RuntimeDriver, !RecoveryEnvironment}.

Definition on_runtime {A} (m : eff World A) : eff AutoRecoveryRuntime A :=
  lift_part ar_runtime (λ w s, s <| ar_runtime := w |>) m.
Definition on_controller (f : RecoveryController → RecoveryController) :
    eff AutoRecoveryRuntime unit := modify (λ s, s <| ar_controller ::= f |>).
Definition controller : eff AutoRecoveryRuntime RecoveryController :=
  λ s, (s, Some (ar_controller s)).
Definition set_pending (pending : option PendingAutoRecovery) : eff AutoRecoveryRuntime unit :=
  modify (λ s, s <| ar_pending_auto := pending |>).

(* @src runtime/recovery.rs:70-73 RecoveryClock *)
Definition clock_now : eff World N := λ w,
  let now := now_at (w_trace w) in (w <| w_trace ::= cons (ClockRead now) |>, Some now).
Definition clock_sleep (duration : N) : eff World unit := emit (Slept duration).

Definition duration_add (a b : N) : eff World N :=
  if a + b <=? duration_max then mret (a + b) else panic.

(* @src runtime/cancellation.rs:10-15 RecoveryCancellation::permit *)
Definition permit : eff World RecoveryPermit := λ w,
  (w, Some (MkRecoveryPermit (epoch (w_trace w)))).

(* @src runtime/cancellation.rs:17-19 RecoveryCancellation::cancel *)
Definition cancel : eff World unit := emit CancelRequested.

Definition observe (e : RecoveryAttemptEvent) : eff World unit := emit (Observed e).

(** [runtime.begin_outage(...)], with the request id of the moment. *)
Definition begin_outage_now (outage : RuntimeOutage) : eff World OutageGenerationId := λ w,
  begin_outage (outage_component outage) (outage_fault outage) (request_id_at (w_trace w)) w.

(** ** The controller *)

(* @src runtime/recovery.rs:455-463 RecoveryController::new *)
Definition controller_new : RecoveryController := MkRecoveryController None None 0 None.

Definition begin_generation (outage : RuntimeOutage) :
    eff AutoRecoveryRuntime OutageGenerationId :=
  fresh ← on_runtime (begin_outage_now outage);
  on_controller (λ c, c <| rc_generation := Some fresh |> <| rc_exhausted_generation := None |>);;
  mret fresh.

(* @src runtime/recovery.rs:503-526 RecoveryController::begin_or_refresh_generation *)
Definition begin_or_refresh_generation (outage : RuntimeOutage) :
    eff AutoRecoveryRuntime OutageGenerationId :=
  c ← controller;
  match rc_generation c with
  | Some generation =>
      refreshed ← on_runtime
        (refresh_outage generation (outage_component outage) (outage_fault outage));
      if refreshed : bool then mret generation else begin_generation outage
  | None => begin_generation outage
  end.

(** [runtime.record_fault(..); runtime.mark_user_attention_required(generation)]. *)
Definition record_and_ask (generation : OutageGenerationId) (fault : RuntimeFault) :
    eff AutoRecoveryRuntime bool :=
  on_runtime (record_fault fault);;
  on_runtime (mark_user_attention_required generation).

Definition non_recoverable (generation : OutageGenerationId) (fault : RuntimeFault) :
    eff AutoRecoveryRuntime RecoveryOutcome :=
  user_attention_required ← record_and_ask generation fault;
  mret (OutcomeNonRecoverable generation fault user_attention_required).

Definition exhausted (generation : OutageGenerationId) (fault : RuntimeFault) :
    eff AutoRecoveryRuntime RecoveryOutcome :=
  user_attention_required ← record_and_ask generation fault;
  on_controller (λ c, c <| rc_exhausted_generation :=
                     Some (MkExhaustedGeneration generation fault) |>);;
  mret (OutcomeExhausted generation fault user_attention_required).

(** The loop of [run_generation] over the remaining delays, from [index]. *)
Fixpoint run_attempts (generation : OutageGenerationId) (component : RuntimeComponent)
    (scope : RecoveryScope) (index : N) (delays : list N) (final_fault : RuntimeFault) :
    eff AutoRecoveryRuntime RecoveryOutcome :=
  match delays with
  | [] => exhausted generation final_fault
  | seconds :: delays =>
      let attempt := index + 1 in
      on_controller (λ c, c <| rc_current_attempt := attempt |>);;
      on_runtime (clock_sleep (from_secs seconds));;
      r ← on_runtime (recover_minimal scope attempt);
      match r with
      | Ok _ =>
          on_controller (λ c, c <| rc_current_attempt := 0 |>);;
          now ← on_runtime clock_now;
          on_controller (λ c, c <| rc_stable_since := Some now |>
                               <| rc_exhausted_generation := None |>);;
          mret (OutcomeRecovered generation attempt)
      | Err error =>
          let classified := classify component (oe_fault error) in
          _ ← on_runtime
            (refresh_outage generation (outage_component classified) (outage_fault classified));
          if bool_decide (outage_disposition classified = DispositionNonRecoverable)
          then non_recoverable generation (outage_fault classified)
          else run_attempts generation component scope (index + 1) delays (oe_fault error)
      end
  end.

(* @src runtime/recovery.rs:571-636 RecoveryController::run_generation *)
Definition run_generation (generation : OutageGenerationId) (outage : RuntimeOutage) :
    eff AutoRecoveryRuntime RecoveryOutcome :=
  if bool_decide (outage_disposition outage = DispositionNonRecoverable)
  then non_recoverable generation (outage_fault outage)
  else run_attempts generation (outage_component outage) (recovery_scope outage) 0
         RECONNECT_BACKOFF_SECONDS (outage_fault outage).

(* @src runtime/recovery.rs:481-501 RecoveryController::recover_auto *)
Definition recover_auto (outage : RuntimeOutage) : eff AutoRecoveryRuntime RecoveryOutcome :=
  generation ← begin_or_refresh_generation outage;
  on_controller (λ c, c <| rc_stable_since := None |>);;
  c ← controller;
  let retired := exhausted ← rc_exhausted_generation c;
    if bool_decide (outage_disposition outage = DispositionRecoverable) &&
       bool_decide (ex_generation exhausted = generation)
    then Some (ex_final_fault exhausted) else None in
  match retired with
  | Some final_fault => mret (OutcomeExhausted generation final_fault false)
  | None =>
      on_controller (λ c, c <| rc_current_attempt := 0 |>);;
      run_generation generation outage
  end.

(* @src runtime/recovery.rs:528-539 RecoveryController::manual_retry *)
Definition manual_retry (outage : RuntimeOutage) : eff AutoRecoveryRuntime RecoveryOutcome :=
  generation ← on_runtime (begin_outage_now outage);
  on_controller (λ _, MkRecoveryController (Some generation) None 0 None);;
  run_generation generation outage.

(* @src runtime/recovery.rs:541-569 RecoveryController::observe_stable_ready *)
Definition observe_stable_ready : eff AutoRecoveryRuntime bool :=
  c ← controller;
  match rc_generation c with
  | None => mret false
  | Some generation =>
      o ← on_runtime orchestrator;
      if negb (bool_decide (ro_state o = RuntimeReady)) then
        on_controller (λ c, c <| rc_stable_since := None |>);; mret false
      else
        now ← on_runtime clock_now;
        match rc_stable_since c with
        | None => on_controller (λ c, c <| rc_stable_since := Some now |>);; mret false
        | Some stable_since =>
            if saturating_sub now stable_since <? from_secs STABILITY_RESET_SECONDS
            then mret false
            else
              cleared ← on_runtime (clear_outage generation);
              (if cleared : bool then on_controller (λ _, MkRecoveryController None None 0 None)
               else mret ());;
              mret cleared
        end
  end.

(** ** The runtime with automatic recovery *)

(* @src runtime/recovery.rs:181-192 AutoRecoveryRuntime::new_with_cancellation *)
Definition auto_recovery_new (runtime : World) : AutoRecoveryRuntime :=
  MkAutoRecoveryRuntime runtime controller_new None.

(* @src runtime/recovery.rs:273-284 AutoRecoveryRuntime::retire_recovery_generation *)
Definition retire_recovery_generation : eff AutoRecoveryRuntime unit :=
  set_pending None;;
  c ← controller;
  (match rc_generation c with
   | Some generation => _ ← on_runtime (clear_outage generation); mret ()
   | None =>
       active ← on_runtime active_outage;
       match active with
       | Some outage => _ ← on_runtime (clear_outage (og_id outage)); mret ()
       | None => mret ()
       end
   end);;
  on_controller (λ _, controller_new).

(* @src runtime/recovery.rs:268-271 AutoRecoveryRuntime::retire_recovery_for_failed_workspace_switch *)
Definition retire_recovery_for_failed_workspace_switch : eff AutoRecoveryRuntime unit :=
  on_runtime cancel;; retire_recovery_generation.

(* @src runtime/recovery.rs:214-228 AutoRecoveryRuntime::switch_workspace_after_control_cancellation *)
Definition switch_workspace_after_control_cancellation (candidate : path) :
    eff AutoRecoveryRuntime (result WorkspaceSwitchError unit) :=
  r ← on_runtime (switch_workspace_to candidate);
  match r with
  | Ok _ => retire_recovery_generation;; mret (Ok ())
  | Err error => retire_recovery_for_failed_workspace_switch;; mret (Err error)
  end.

(* @src runtime/recovery.rs:254-262 AutoRecoveryRuntime::manual_retry_current_outage *)
Definition manual_retry_current_outage : eff AutoRecoveryRuntime (option RecoveryOutcome) :=
  on_runtime cancel;;
  set_pending None;;
  active ← on_runtime active_outage;
  match active with
  | None => mret None
  | Some outage => Some <$> manual_retry (classify (og_component outage) (og_fault outage))
  end.

(* @src runtime/recovery.rs:286-331 AutoRecoveryRuntime::begin_cooperative_auto *)
Definition begin_cooperative_auto (outage : RuntimeOutage) :
    eff AutoRecoveryRuntime (option RecoveryOutcome) :=
  generation ← begin_or_refresh_generation outage;
  on_controller (λ c, c <| rc_stable_since := None |>);;
  if bool_decide (outage_disposition outage = DispositionNonRecoverable)
  then Some <$> non_recoverable generation (outage_fault outage) else
  c ← controller;
  let retired := exhausted ← rc_exhausted_generation c;
    if bool_decide (ex_generation exhausted = generation)
    then Some (ex_final_fault exhausted) else None in
  match retired with
  | Some final_fault => mret (Some (OutcomeExhausted generation final_fault false))
  | None =>
      on_controller (λ c, c <| rc_current_attempt := 0 |>);;
      (if bool_decide (outage_component outage = CodingRuntime)
       then on_runtime mark_detected_coding_runtime_recovery else mret ());;
      o ← on_runtime orchestrator;
      active ← on_runtime (expect (active_if generation (ro_outages o)));
      now ← on_runtime clock_now;
      first_delay ← on_runtime (expect (RECONNECT_BACKOFF_SECONDS !! 0%nat));
      deadline ← on_runtime (duration_add now (from_secs first_delay));
      p ← on_runtime permit;
      set_pending (Some (MkPendingAutoRecovery generation (og_request_id active)
        (outage_component outage) (outage_fault outage) (recovery_scope outage) 1 deadline p));;
      mret None
  end.

(* @src runtime/recovery.rs:333-451 AutoRecoveryRuntime::advance_pending_auto *)
Definition advance_pending_auto (pending : PendingAutoRecovery) :
    eff AutoRecoveryRuntime (option RecoveryOutcome) :=
  cancelled ← on_runtime (is_cancelled (pa_permit pending));
  if cancelled : bool then
    set_pending None;;
    on_controller (λ c, c <| rc_current_attempt := 0 |>);;
    mret None
  else
  now ← on_runtime clock_now;
  if now <? pa_next_deadline pending then mret None else
  let generation := pa_generation pending in
  let finished res := AttemptFinished generation (pa_request_id pending) (pa_component pending)
                        (pa_next_attempt pending) res in
  let attempt := pa_next_attempt pending in
  on_controller (λ c, c <| rc_current_attempt := attempt |>);;
  on_runtime (observe (AttemptStarted generation (pa_request_id pending) (pa_component pending)
                         (pa_fault pending) attempt));;
  r ← on_runtime (recover_minimal_cancellable (pa_scope pending) attempt (pa_permit pending));
  match r with
  | Ok _ =>
      on_runtime (observe (finished AttemptRecovered));;
      set_pending None;;
      on_controller (λ c, c <| rc_current_attempt := 0 |>);;
      now ← on_runtime clock_now;
      on_controller (λ c, c <| rc_stable_since := Some now |>
                           <| rc_exhausted_generation := None |>);;
      mret (Some (OutcomeRecovered generation attempt))
  | Err error =>
      cancelled ← on_runtime (is_cancelled (pa_permit pending));
      if cancelled && bool_decide (oe_fault error = UserStopped) &&
         bool_decide (oe_cleanup_fault error = None) then
        on_runtime (observe (finished AttemptCancelled));;
        set_pending None;;
        mret None
      else
        on_runtime (observe (finished (AttemptFailed (oe_fault error))));;
        let classified := classify (pa_component pending) (oe_fault error) in
        _ ← on_runtime
          (refresh_outage generation (outage_component classified) (outage_fault classified));
        if bool_decide (outage_disposition classified = DispositionNonRecoverable) then
          set_pending None;;
          Some <$> non_recoverable generation (outage_fault classified)
        else if N.of_nat (length RECONNECT_BACKOFF_SECONDS) <=? attempt then
          set_pending None;;
          Some <$> exhausted generation (outage_fault classified)
        else
          next_delay ← on_runtime (expect (RECONNECT_BACKOFF_SECONDS !! N.to_nat attempt));
          now ← on_runtime clock_now;
          deadline ← on_runtime (duration_add now (from_secs next_delay));
          set_pending (Some (pending <| pa_fault := outage_fault classified |>
                                     <| pa_next_attempt := attempt + 1 |>
                                     <| pa_next_deadline := deadline |>));;
          mret None
  end.

(* @src runtime/recovery.rs:234-252 AutoRecoveryRuntime::monitor_once_with_observer *)
Definition monitor_once_with_observer : eff AutoRecoveryRuntime (option RecoveryOutcome) :=
  s ← get_state;
  match ar_pending_auto s with
  | Some pending => advance_pending_auto pending
  | None =>
      if negb (bool_decide (ro_state (w_orchestrator (ar_runtime s)) = RuntimeReady))
      then mret None else
      r ← on_runtime probe_ready_health;
      match r with
      | Ok _ => _ ← observe_stable_ready; mret None
      | Err failure => begin_cooperative_auto (classify (hf_component failure) (hf_fault failure))
      end
  end.

(** ** The system

    What the application does with the runtime: it monitors, retries on the
    user's demand, switches the workspace, starts and stops; other threads cancel.
    The outcomes are kept, newest first. *)

Record RecoverySystem := MkRecoverySystem {
  sys_runtime : AutoRecoveryRuntime;
  sys_outcomes : list RecoveryOutcome
}.

Inductive RecoveryOperation :=
  | MonitorOnce
  | ManualRetry
  | SwitchWorkspace (candidate : path)
  | LifecycleStart (observer : bool)
  | LifecycleStop (observer : bool)
  | LifecycleStopTunnel
  | LifecycleFinishExit.

Definition run_recovery (op : RecoveryOperation) :
    eff AutoRecoveryRuntime (option RecoveryOutcome) :=
  let quietly {A} (m : eff AutoRecoveryRuntime A) := (λ _, None) <$> m in
  match op with
  | MonitorOnce => monitor_once_with_observer
  | ManualRetry => manual_retry_current_outage
  | SwitchWorkspace candidate => quietly (switch_workspace_after_control_cancellation candidate)
  | LifecycleStart observer => quietly (on_runtime (start_with_state_projection observer))
  | LifecycleStop observer => quietly (on_runtime (stop_with_state_projection observer))
  | LifecycleStopTunnel => quietly (on_runtime stop_tunnel_for_exit)
  | LifecycleFinishExit => quietly (on_runtime finish_exit_after_tunnel)
  end.

(** The 64-bit generation counter has not been used up. *)
Definition generations_left (s : AutoRecoveryRuntime) : Prop :=
  ot_next_generation (ro_outages (w_orchestrator (ar_runtime s))) < u64_max.

Definition log_outcome (o : option RecoveryOutcome) (l : list RecoveryOutcome) :
    list RecoveryOutcome := match o with Some o => o :: l | None => l end.

Inductive recovery_step : RecoverySystem → RecoverySystem → Prop :=
  | step_recovery op s l s' o :
      generations_left s → run_recovery op s = (s', Some o) →
      recovery_step (MkRecoverySystem s l) (MkRecoverySystem s' (log_outcome o l))
  | step_cancel s l :
      recovery_step (MkRecoverySystem s l)
        (MkRecoverySystem (s <| ar_runtime ::= (λ w, w <| w_trace ::= cons CancelRequested |>) |>) l).

#[export] Instance recovery_machine : StateMachine RecoverySystem := {
  sm_init s := s = MkRecoverySystem (auto_recovery_new (MkWorld runtime_new [])) [];
  sm_step := recovery_step
}.
End recovery.

(** ** The retry schedule

    What the attempts of a trace must look like: numbered from one without a
    gap, and every further one no earlier than the delay of its number after the
    clock was read at the end of the failed one. *)

Inductive RetryPhase :=
  | Fresh
  | Running (generation : OutageGenerationId) (attempt : N)
  | FailedAt (generation : OutageGenerationId) (attempt : N)
  | WaitUntil (generation : OutageGenerationId) (attempt deadline : N).

Definition retry_step (s : RetryPhase * N) (e : Event) : option (RetryPhase * N) :=
  let '(phase, last) := s in
  match e with
  | ClockRead now =>
      Some (match phase with
            | FailedAt g k =>
                match RECONNECT_BACKOFF_SECONDS !! N.to_nat k with
                | Some delay => WaitUntil g (k + 1) (now + from_secs delay)
                | None => phase
                end
            | _ => phase
            end, now)
  | Observed (AttemptStarted g _ _ _ k) =>
      match phase with
      | Running _ _ => None
      | WaitUntil g' k' deadline =>
          if bool_decide (k = 1) ||
             (bool_decide (g = g') && (k =? k') && (deadline <=? last))
          then Some (Running g k, last) else None
      | _ => if k =? 1 then Some (Running g k, last) else None
      end
  | Observed (AttemptFinished g _ _ k res) =>
      match phase with
      | Running g' k' =>
          if bool_decide (g = g') && (k =? k') then
            Some (match res with AttemptFailed _ => FailedAt g k | _ => Fresh end, last)
          else None
      | _ => None
      end
  | _ => Some s
  end.

(** The generation for which an outcome asks for the user. *)
Definition asks_user (o : RecoveryOutcome) : option OutageGenerationId :=
  match o with
  | OutcomeExhausted g _ true | OutcomeNonRecoverable g _ true => Some g
  | _ => None
  end.

(** The sleeps of a trace, in their order. *)
Definition sleeps (trace : list Event) : list N :=
  rev (omap (λ e, match e with Slept d => Some d | _ => None end) trace).
