(* ===== verification/RecoveryProperties.v ===== *)
(** * RecoveryProperties: recovery is bounded, paced and asks once

    The invariant of [Recovery]'s system and what follows: the schedule of the
    attempts, that the user is asked once per outage, that monitoring and retrying
    always return, and what a manual retry does. *)

From S2P Require Import Prelude StateModel Effects Orchestrator OrchestratorProperties Recovery.
#[local] Open Scope N_scope.

Section recovery.
Context `{!RuntimeDriver, !RecoveryEnvironment}.
Implicit Types (w : World) (log : list OutageGenerationId) (s : AutoRecoveryRuntime).

(** ** Outage generations and attention *)

(** The user was asked for the generations of [log], each once; ids only grow. *)
Record attention log (ot : OutageTracker) : Prop := MkAttention {
  attention_nodup : NoDup log;
  attention_old g : g ∈ log → outage_generation_get g ≤ ot_next_generation ot;
  attention_active a : ot_active ot = Some a →
    outage_generation_get (og_id a) ≤ ot_next_generation ot;
  attention_emitted a : ot_active ot = Some a → og_id a ∈ log →
    og_user_attention_emitted a = true
}.

Lemma active_if_Some g ot a :
  active_if g ot = Some a → ot_active ot = Some a ∧ og_id a = g.
Proof. unfold active_if. destruct (ot_active ot); simpl; [|done]. case_bool_decide; naive_solver. Qed.

Lemma attention_begin log component fault r ot :
  attention log ot → ot_next_generation ot < u64_max →
  attention log (outage_begin component fault r ot).1.
Proof.
  intros [Hn Ho Ha He] Hmax. unfold outage_begin.
  rewrite saturating_add_exact by (unfold u64_max in *; lia). split; simpl; [done|..].
  - intros g Hg%Ho. lia.
  - intros a [= <-]. simpl. lia.
  - intros a [= <-] Hg%Ho. simpl in Hg. lia.
Qed.

Lemma outage_begin_active component fault r ot :
  is_Some (active_if (outage_begin component fault r ot).2 (outage_begin component fault r ot).1).
Proof. unfold active_if. simpl. by rewrite bool_decide_true. Qed.

Lemma attention_refresh log g component fault ot :
  attention log ot → attention log (outage_refresh g component fault ot).1.
Proof.
  intros Hatt. unfold outage_refresh. destruct (active_if g ot) as [a|] eqn:Ha; [|done].
  apply active_if_Some in Ha as [Ha <-]. destruct Hatt as [Hn Ho Hact He].
  split; simpl; [done..| |]; intros ? [= <-]; simpl; [by apply Hact|by apply He].
Qed.

Lemma outage_refresh_active g component fault ot :
  (outage_refresh g component fault ot).2 = true →
  is_Some (active_if g (outage_refresh g component fault ot).1).
Proof.
  unfold outage_refresh. destruct (active_if g ot) as [a|] eqn:Ha; [|done].
  apply active_if_Some in Ha as [Ha <-]. intros _. unfold active_if. simpl.
  by rewrite bool_decide_true.
Qed.

Lemma attention_clear log g ot : attention log ot → attention log (outage_clear g ot).1.
Proof.
  intros Hatt. unfold outage_clear. destruct (active_if g ot) as [a|]; [|done].
  destruct Hatt as [Hn Ho Hact He]. by split.
Qed.

(** Asking the user extends the log exactly when the answer is yes. *)
Lemma attention_mark log g ot :
  attention log ot →
  attention (if (outage_mark_attention g ot).2 then g :: log else log)
    (outage_mark_attention g ot).1.
Proof.
  intros Hatt. unfold outage_mark_attention.
  destruct (active_if g ot) as [a|] eqn:Ha; [|done].
  apply active_if_Some in Ha as [Ha <-].
  destruct (og_user_attention_emitted a) eqn:Hem; [done|].
  destruct Hatt as [Hn Ho Hact He]. split; simpl.
  - constructor; [|done]. intros Hin. by rewrite (He a Ha Hin) in Hem.
  - intros g [->|Hg]%elem_of_cons; auto.
  - intros ? [= <-]. simpl. auto.
  - by intros ? [= <-].
Qed.

(** ** The invariant *)

Definition retry_of (trace : list Event) : option (RetryPhase * N) :=
  accepts retry_step (Fresh, 0) trace.

(** The world as recovery sees it; [k] is a value the epoch has reached,
    [ds] the sleeps so far. *)
Record wview log (rp : RetryPhase) (last k : N) (ds : list N) w : Prop := MkWView {
  wview_steady : steady w;
  wview_attention : attention log (ro_outages (w_orchestrator w));
  wview_retry : retry_of (w_trace w) = Some (rp, last);
  wview_epoch : k ≤ epoch (w_trace w);
  wview_sleeps : sleeps (w_trace w) = ds
}.

Definition idle (rp : RetryPhase) : Prop := match rp with Running _ _ => False | _ => True end.

(** A pending recovery is due at the time and with the number of the schedule, and
    its permit was issued. *)
Definition waiting (rp : RetryPhase) (k : N) (pending : option PendingAutoRecovery) : Prop :=
  idle rp ∧ ∀ p, pending = Some p →
    captured (pa_permit p) ≤ k ∧ 1 ≤ pa_next_attempt p ≤ 5 ∧
    (pa_next_attempt p = 1 ∨
     rp = WaitUntil (pa_generation p) (pa_next_attempt p) (pa_next_deadline p)).

Definition good log s : Prop :=
  ∃ rp last k ds, wview log rp last k ds (ar_runtime s) ∧ waiting rp k (ar_pending_auto s).

(** A state of the runtime during an operation. *)
Definition state pending log rp last k ds s : Prop :=
  ar_pending_auto s = pending ∧ wview log rp last k ds (ar_runtime s).

Lemma state_good pending log rp last k ds s :
  state pending log rp last k ds s → waiting rp k pending → good log s.
Proof. intros [<- Hw] Hwait. by exists rp, last, k, ds. Qed.

Lemma waiting_none rp k : idle rp → waiting rp k None.
Proof. by split. Qed.

(** ** Rules *)

Definition slept (e : Event) : list N := match e with Slept d => [d] | _ => [] end.

Lemma sleeps_cons e t : sleeps (e :: t) = sleeps t ++ slept e.
Proof. unfold sleeps. destruct e; simpl; by rewrite ?app_nil_r. Qed.

Lemma sleeps_own new t :
  Forall (λ e, own_event e = true) new → sleeps (new ++ t) = sleeps t.
Proof.
  induction 1 as [|e new He _ IH]; [done|]. simpl. rewrite sleeps_cons, IH.
  destruct e; simpl in *; by rewrite ?app_nil_r.
Qed.

Lemma epoch_app new t : epoch t ≤ epoch (new ++ t).
Proof. induction new as [|e new IH]; simpl; [lia|]. pose proof (epoch_mono e (new ++ t)). lia. Qed.

Lemma accepts_own_events trace new st :
  retry_of trace = Some st → Forall (λ e, own_event e = true) new →
  retry_of (new ++ trace) = Some st.
Proof.
  intros Hs. induction 1 as [|e new He _ IH]; [done|]. unfold retry_of, accepts in *. simpl.
  rewrite IH. destruct st as [ph last]. by destruct e.
Qed.

Lemma wview_quiet log rp last k ds w w' :
  wview log rp last k ds w → quiet w w' → steady w' → wview log rp last k ds w'.
Proof.
  intros [Hs Ha Hr Hk Hd] (Ho & new & Hn & Hf) Hs'. split; [done|by rewrite Ho|..]; rewrite Hn.
  - by apply accepts_own_events.
  - pose proof (epoch_app new (w_trace w)). lia.
  - by rewrite sleeps_own.
Qed.

Lemma wp_runtime {A} (m : eff World A) (Q : A → AutoRecoveryRuntime → Prop) s :
  wp m (λ a w', Q a (s <| ar_runtime := w' |>)) (ar_runtime s) → wp (on_runtime m) Q s.
Proof. intros HQ. by apply wp_lift. Qed.

(** Operations of the orchestrator. *)
Lemma wp_quietly {A} (m : eff World A) (P : World → A → World → Prop)
    pending log rp last k ds s (Q : A → AutoRecoveryRuntime → Prop) :
  state pending log rp last k ds s →
  (steady (ar_runtime s) → k ≤ epoch (w_trace (ar_runtime s)) →
   wp m (λ a w', steady w' ∧ quiet (ar_runtime s) w' ∧ P (ar_runtime s) a w') (ar_runtime s)) →
  (∀ a s', state pending log rp last k ds s' → P (ar_runtime s) a (ar_runtime s') → Q a s') →
  wp (on_runtime m) Q s.
Proof.
  intros [Hp Hw] Hm HQ. apply wp_runtime. eapply wp_wand; [apply Hm; apply Hw|].
  intros a w' (Hs & Hq & HP). apply HQ; [|done]. split; [done|]. by eapply wview_quiet.
Qed.

(** An event of the controller. *)
Lemma wview_event log rp last k ds w e rp' last' :
  wview log rp last k ds w → is_call e = false → retry_step (rp, last) e = Some (rp', last') →
  wview log rp' last' k (ds ++ slept e) (w <| w_trace ::= cons e |>).
Proof.
  intros [(ph & Hp & Ho) Ha Hr Hk Hd] He Hstep. destruct w as [o t]. simpl in *. split; simpl.
  - exists ph. split; [|done]. unfold phase_of in *. simpl in *. rewrite Hp. by destruct e.
  - done.
  - unfold retry_of, accepts in *. simpl. by rewrite Hr.
  - pose proof (epoch_mono e t). lia.
  - by rewrite sleeps_cons, Hd.
Qed.

Lemma wp_event e pending log rp last k ds s rp' last' (Q : unit → AutoRecoveryRuntime → Prop) :
  state pending log rp last k ds s → is_call e = false →
  retry_step (rp, last) e = Some (rp', last') →
  (∀ s', state pending log rp' last' k (ds ++ slept e) s' → Q () s') →
  wp (on_runtime (emit e)) Q s.
Proof.
  intros [Hp Hw] He Hstep HQ. apply wp_runtime, wp_modify, HQ. split; [done|].
  by eapply wview_event.
Qed.

Definition tick (rp : RetryPhase) (now : N) : RetryPhase :=
  match rp with
  | FailedAt g k =>
      match RECONNECT_BACKOFF_SECONDS !! N.to_nat k with
      | Some delay => WaitUntil g (k + 1) (now + from_secs delay)
      | None => rp
      end
  | _ => rp
  end.

Lemma wp_clock pending log rp last k ds s (Q : N → AutoRecoveryRuntime → Prop) :
  state pending log rp last k ds s →
  (∀ now s', now + from_secs 30 ≤ duration_max →
     state pending log (tick rp now) now k ds s' →
     w_orchestrator (ar_runtime s') = w_orchestrator (ar_runtime s) → Q now s') →
  wp (on_runtime clock_now) Q s.
Proof.
  intros [Hp Hw] HQ. apply wp_runtime. unfold wp, clock_now. apply HQ; [apply now_bound| |done].
  split; [done|].
  rewrite <-(app_nil_r ds). by eapply (wview_event _ _ _ _ _ _ (ClockRead _)).
Qed.

Lemma idle_tick rp now : idle rp → idle (tick rp now).
Proof. destruct rp; simpl; [done..|by case_match|done]. Qed.

Lemma waiting_tick rp k pending now : waiting rp k pending → waiting (tick rp now) k pending.
Proof.
  intros [Hi Hp]. split; [by apply idle_tick|]. intros p Hpe.
  destruct (Hp p Hpe) as (? & ? & [?| ->]); auto.
Qed.

(** Changes of the record of the outage. *)
Definition outages s : OutageTracker := ro_outages (w_orchestrator (ar_runtime s)).

Lemma wp_outages {A} (f : OutageTracker → OutageTracker * A) log' pending log rp last k ds s
    (Q : A → AutoRecoveryRuntime → Prop) :
  state pending log rp last k ds s →
  (attention log (outages s) → attention log' (f (outages s)).1) →
  (∀ s', state pending log' rp last k ds s' → outages s' = (f (outages s)).1 →
     Q (f (outages s)).2 s') →
  wp (on_runtime (on_outages f)) Q s.
Proof.
  intros [Hp [Hs Ha Hr Hk Hd]] Hatt HQ. apply wp_runtime. unfold wp, on_outages, outages in *.
  destruct (f _) as [ot a]. apply HQ; [|done].
  split; [done|]. destruct s as [[o t] c p]. simpl in *. split; simpl; auto.
Qed.

Lemma wp_set_orchestrator_state st pending log rp last k ds s
    (Q : unit → AutoRecoveryRuntime → Prop) :
  state pending log rp last k ds s → st ≠ RuntimeReady →
  (∀ s', state pending log rp last k ds s' →
     outages s' = outages s → Q () s') →
  wp (on_runtime (set_state st)) Q s.
Proof.
  intros [Hp [Hs Ha Hr Hk Hd]] Hst HQ. apply wp_runtime.
  pose proof (set_state_spec st _ Hs Hst) as Hs'. unfold wp, set_state, with_orchestrator, modify in *.
  apply HQ; [|done]. split; [done|]. destruct s as [[o t] c p]. simpl in *. by split.
Qed.

(** Changes of the controller and of the pending recovery. *)
Lemma wp_controller f pending log rp last k ds s (Q : unit → AutoRecoveryRuntime → Prop) :
  state pending log rp last k ds s →
  (∀ s', state pending log rp last k ds s' → ar_runtime s' = ar_runtime s →
     ar_controller s' = f (ar_controller s) → Q () s') →
  wp (on_controller f) Q s.
Proof. intros Hs HQ. by apply wp_modify, HQ. Qed.

Lemma wp_set_pending pending' pending log rp last k ds s (Q : unit → AutoRecoveryRuntime → Prop) :
  state pending log rp last k ds s →
  (∀ s', state pending' log rp last k ds s' → Q () s') →
  wp (set_pending pending') Q s.
Proof. intros [Hp Hw] HQ. apply wp_modify, HQ. by split. Qed.

Lemma wp_read_controller pending log rp last k ds s (Q : RecoveryController → AutoRecoveryRuntime → Prop) :
  state pending log rp last k ds s → (∀ c, c = ar_controller s → Q c s) → wp controller Q s.
Proof. intros _ HQ. by apply HQ. Qed.

(** ** Giving up *)

Definition logged (o : RecoveryOutcome) log : list OutageGenerationId :=
  match asks_user o with Some g => g :: log | None => log end.
Definition logged_option (o : option RecoveryOutcome) log : list OutageGenerationId :=
  match o with Some o => logged o log | None => log end.

Lemma record_and_ask_spec g f pending log rp last k ds s :
  state pending log rp last k ds s →
  wp (record_and_ask g f) (λ b s', state pending (if b : bool then g :: log else log) rp last k ds s') s.
Proof.
  intros Hs. unfold record_and_ask. apply wp_bind.
  eapply wp_set_orchestrator_state; [exact Hs|done|]. intros s1 Hs1 _.
  eapply wp_outages; [exact Hs1|by apply attention_mark|]. done.
Qed.

Lemma non_recoverable_spec g f pending log rp last k ds s :
  state pending log rp last k ds s →
  wp (non_recoverable g f) (λ o s', state pending (logged o log) rp last k ds s' ∧
    ∃ b, o = OutcomeNonRecoverable g f b) s.
Proof.
  intros Hs. apply wp_bind. eapply wp_wand; [by eapply record_and_ask_spec|].
  intros [|] s' Hs'; apply wp_ret; eauto.
Qed.

Lemma exhausted_spec g f pending log rp last k ds s :
  state pending log rp last k ds s →
  wp (exhausted g f) (λ o s', state pending (logged o log) rp last k ds s' ∧
    ∃ b, o = OutcomeExhausted g f b) s.
Proof.
  intros Hs. apply wp_bind. eapply wp_wand; [by eapply record_and_ask_spec|].
  intros b s' Hs'. apply wp_bind. eapply wp_controller; [exact Hs'|]. intros s2 Hs2 _ _.
  apply wp_ret. destruct b; eauto.
Qed.

Lemma refresh_outage_spec g c f pending log rp last k ds s :
  state pending log rp last k ds s →
  wp (on_runtime (refresh_outage g c f)) (λ b s', state pending log rp last k ds s' ∧
    ot_next_generation (outages s') = ot_next_generation (outages s) ∧
    (b = true → is_Some (active_if g (outages s')))) s.
Proof.
  intros Hs. eapply wp_outages; [exact Hs|by apply attention_refresh|].
  intros s' Hs' Heq. rewrite Heq. split_and!; [done| |by apply outage_refresh_active].
  unfold outage_refresh. by case_match.
Qed.

Lemma clear_outage_spec g pending log rp last k ds s :
  state pending log rp last k ds s →
  wp (on_runtime (clear_outage g)) (λ _ s', state pending log rp last k ds s') s.
Proof. intros Hs. eapply wp_outages; [exact Hs|by apply attention_clear|]. done. Qed.

Lemma begin_outage_now_spec outage pending log rp last k ds s :
  state pending log rp last k ds s → generations_left s →
  wp (on_runtime (begin_outage_now outage)) (λ g s', state pending log rp last k ds s' ∧
    is_Some (active_if g (outages s'))) s.
Proof.
  intros Hs Hleft.
  change (wp (on_runtime (on_outages (outage_begin (outage_component outage)
    (outage_fault outage) (request_id_at (w_trace (ar_runtime s)))))) (λ g s',
    state pending log rp last k ds s' ∧ is_Some (active_if g (outages s'))) s).
  eapply wp_outages; [exact Hs|intros ?; by apply attention_begin|].
  intros s' Hs' Heq. rewrite Heq. split; [done|]. apply outage_begin_active.
Qed.

Lemma begin_generation_spec outage pending log rp last k ds s :
  state pending log rp last k ds s → generations_left s →
  wp (begin_generation outage) (λ g s', state pending log rp last k ds s' ∧
    is_Some (active_if g (outages s'))) s.
Proof.
  intros Hs Hl. apply wp_bind. eapply wp_wand; [by eapply begin_outage_now_spec|].
  intros g s2 [Hs2 Ha]. apply wp_bind. eapply wp_controller; [exact Hs2|].
  intros s3 Hs3 Heq _. apply wp_ret. unfold outages. by rewrite Heq.
Qed.

Lemma begin_or_refresh_spec outage pending log rp last k ds s :
  state pending log rp last k ds s → generations_left s →
  wp (begin_or_refresh_generation outage) (λ g s', state pending log rp last k ds s' ∧
    is_Some (active_if g (outages s'))) s.
Proof.
  intros Hs Hleft. unfold begin_or_refresh_generation. apply wp_bind.
  eapply wp_read_controller; [exact Hs|]. intros c _.
  destruct (rc_generation c) as [g|]; [|by apply begin_generation_spec].
  apply wp_bind. eapply wp_wand; [by eapply refresh_outage_spec|].
  intros [|] s' (Hs' & Hn & Ha); [apply wp_ret; auto|].
  apply begin_generation_spec; [done|]. unfold generations_left, outages in *. by rewrite Hn.
Qed.

(** ** Manual recovery *)

Lemma serving_same w w' :
  steady w' → w_orchestrator w' = w_orchestrator w → serving w → serving w'.
Proof.
  intros (ph & Hp & Ho) Heq (Hst & Hrp & Hrm & p & t & Hr & _). unfold serving. rewrite Heq in *.
  rewrite Hst, Hrp, Hrm, Hr in Ho |- *. split_and!; [done..|]. inversion Ho; subst; [done|]. eauto.
Qed.

(** A recovery that waits [delays] before its attempts, from attempt [index + 1]. *)
Definition attempted (index : N) (delays : list N) (o : RecoveryOutcome) (ds ds' : list N)
    s' : Prop :=
  match o with
  | OutcomeRecovered _ attempt => ∃ n, (n < length delays)%nat ∧
      attempt = index + N.of_nat n + 1 ∧ ds' = ds ++ map from_secs (take (S n) delays) ∧
      serving (ar_runtime s')
  | OutcomeExhausted _ _ _ => ds' = ds ++ map from_secs delays
  | OutcomeNonRecoverable _ f _ => ∃ n, (n ≤ length delays)%nat ∧
      ds' = ds ++ map from_secs (take n delays) ∧
      ∀ component, outage_disposition (classify component f) = DispositionNonRecoverable
  end.

Lemma attempted_later index d delays o ds ds' s' :
  attempted (index + 1) delays o (ds ++ [from_secs d]) ds' s' →
  attempted index (d :: delays) o ds ds' s'.
Proof.
  destruct o as [g a|g f b|g f b]; simpl.
  - intros (n & Hn & -> & -> & ?). exists (S n). rewrite <-app_assoc. split_and!; [lia|lia|done|done].
  - intros ->. by rewrite <-app_assoc.
  - intros (n & Hn & -> & ?). exists (S n). rewrite <-app_assoc. split_and!; [lia|done|done].
Qed.

Lemma run_attempts_spec g component scope delays : ∀ index fault pending log rp last k ds s,
  state pending log rp last k ds s →
  wp (run_attempts g component scope index delays fault) (λ o s', ∃ rp' last' ds',
    state pending (logged o log) rp' last' k ds' s' ∧ (idle rp → idle rp') ∧
    attempted index delays o ds ds' s') s.
Proof.
  induction delays as [|d delays IH]; intros index fault pending log rp last k ds s Hs.
  { eapply wp_wand; [by eapply exhausted_spec|]. intros o s' (Hs' & b & ->).
    exists rp, last, ds. split_and!; [done..|]. simpl. by rewrite app_nil_r. }
  cbn [run_attempts]. apply wp_bind. eapply wp_controller; [exact Hs|]. intros s1 Hs1 _ _.
  apply wp_bind. eapply wp_event; [exact Hs1|done|by destruct rp|]. intros s2 Hs2.
  apply wp_bind. eapply (wp_quietly _ (λ _ r w', is_ok r = true → serving w')); [exact Hs2| |].
  { intros Hst _. eapply wp_wand; [by apply recover_minimal_spec|].
    by intros [[]|e] w' (? & ? & ?). }
  intros [[]|e] s3 Hs3 Hok; simpl in Hok.
  - apply wp_bind. eapply wp_controller; [exact Hs3|]. intros s4 Hs4 Heq4 _.
    apply wp_bind. eapply wp_clock; [exact Hs4|]. intros now s5 _ Hs5 Heq5.
    apply wp_bind. eapply wp_controller; [exact Hs5|]. intros s6 Hs6 Heq6 _.
    apply wp_ret. exists (tick rp now), now, (ds ++ [from_secs d]).
    split_and!; [done|apply idle_tick|]. exists 0%nat. simpl. split_and!; [lia|lia|done|].
    eapply serving_same; [apply Hs6| |by apply Hok].
    rewrite Heq6, Heq5, Heq4. done.
  - apply wp_bind. eapply wp_wand; [by eapply refresh_outage_spec|]. intros b s4 [Hs4 _].
    case_bool_decide as Hd.
    + eapply wp_wand; [by eapply non_recoverable_spec|]. intros o s5 (Hs5 & b' & ->).
      exists rp, last, (ds ++ [from_secs d]). split_and!; [done..|].
      exists 1%nat. simpl. split_and!; [lia|done|]. intros component'. exact Hd.
    + eapply wp_wand; [by eapply IH|]. intros o s5 (rp' & last' & ds' & Hs5 & Hi & Ha).
      exists rp', last', ds'. split_and!; [done..|]. by apply attempted_later.
Qed.

Lemma run_generation_spec g outage pending log rp last k ds s :
  (∀ component, outage_disposition (classify component (outage_fault outage)) =
     outage_disposition outage) →
  state pending log rp last k ds s →
  wp (run_generation g outage) (λ o s', ∃ rp' last' ds',
    state pending (logged o log) rp' last' k ds' s' ∧ (idle rp → idle rp') ∧
    attempted 0 RECONNECT_BACKOFF_SECONDS o ds ds' s') s.
Proof.
  intros Hcl Hs. unfold run_generation. case_bool_decide as Hd.
  - eapply wp_wand; [by eapply non_recoverable_spec|]. intros o s' (Hs' & b & ->).
    exists rp, last, ds. split_and!; [done..|]. exists 0%nat. rewrite app_nil_r.
    split_and!; [lia|done|]. intros component. by rewrite Hcl.
  - by eapply run_attempts_spec.
Qed.

Lemma manual_retry_current_outage_spec pending log rp last k ds s :
  state pending log rp last k ds s → idle rp → generations_left s →
  wp manual_retry_current_outage (λ o s', ∃ rp' last' ds',
    state None (logged_option o log) rp' last' k ds' s' ∧ idle rp' ∧
    match o with
    | None => ot_active (outages s) = None
    | Some o => attempted 0 RECONNECT_BACKOFF_SECONDS o ds ds' s'
    end) s.
Proof.
  intros Hs Hi Hleft. unfold manual_retry_current_outage.
  apply wp_bind. apply wp_runtime, wp_modify.
  set (s1 := s <| ar_runtime := _ |>).
  assert (state pending log rp last k ds s1) as Hs1.
  { split; [apply Hs|]. rewrite <-(app_nil_r ds).
    by eapply (wview_event _ _ _ _ _ _ CancelRequested); [apply Hs| |]. }
  apply wp_bind, wp_modify. set (s2 := s1 <| ar_pending_auto := _ |>).
  assert (state None log rp last k ds s2) as Hs2 by (split; [done|apply Hs1]).
  apply wp_bind, wp_runtime, wp_fmap. unfold wp, orchestrator.
  change (ot_active _) with (ot_active (outages s)).
  destruct (ot_active (outages s)) as [outage|]; [|by exists rp, last, ds].
  match goal with |- context [Some <$> ?m] => change (wp (Some <$> m) (λ o s', ∃ rp' last' ds',
    state None (logged_option o log) rp' last' k ds' s' ∧ idle rp' ∧
    match o with
    | None => Some outage = None
    | Some o => attempted 0 RECONNECT_BACKOFF_SECONDS o ds ds' s'
    end) s2) end.
  apply wp_fmap, wp_bind. eapply wp_wand; [by eapply begin_outage_now_spec|].
  intros g s3 [Hs3 _]. apply wp_bind. eapply wp_controller; [exact Hs3|]. intros s4 Hs4 _ _.
  eapply wp_wand; [by eapply run_generation_spec|].
  intros o s5 (rp' & last' & ds' & Hs5 & Hi' & Ha). exists rp', last', ds'. auto.
Qed.

(** ** Automatic recovery *)

Lemma wp_read_permit p pending log rp last k ds s (Q : bool → AutoRecoveryRuntime → Prop) :
  state pending log rp last k ds s →
  (∀ b s', state pending log rp last k ds s' → Q b s') →
  wp (on_runtime (is_cancelled p)) Q s.
Proof.
  intros [Hp Hw] HQ. apply wp_runtime. unfold wp, is_cancelled. apply HQ. split; [done|].
  rewrite <-(app_nil_r ds). by eapply (wview_event _ _ _ _ _ _ (PermitRead _)).
Qed.

Lemma wp_duration_add a b (Q : N → World → Prop) w :
  a + from_secs 30 ≤ duration_max → b ≤ from_secs 30 → Q (a + b) w →
  wp (duration_add a b) Q w.
Proof.
  intros Ha Hb HQ. unfold duration_add. destruct (N.leb_spec (a + b) duration_max); [|lia].
  by apply wp_ret.
Qed.

Lemma retry_starts rp k now p r c f :
  waiting rp k (Some p) → pa_next_deadline p ≤ now →
  retry_step (tick rp now, now) (Observed (AttemptStarted (pa_generation p) r c f (pa_next_attempt p)))
    = Some (Running (pa_generation p) (pa_next_attempt p), now).
Proof.
  intros [Hi Hp] Hd. destruct (Hp p eq_refl) as (_ & _ & [H1| ->]).
  - apply (idle_tick _ now) in Hi. destruct (tick rp now); simpl in Hi |- *; try done; rewrite H1; done.
  - simpl. rewrite (bool_decide_true (pa_generation p = _)) by done.
    rewrite N.eqb_refl, (proj2 (N.leb_le _ _) Hd), orb_true_r. done.
Qed.

Lemma retry_finishes g k last r c res :
  retry_step (Running g k, last) (Observed (AttemptFinished g r c k res)) =
    Some (match res with AttemptFailed _ => FailedAt g k | _ => Fresh end, last).
Proof. simpl. by rewrite bool_decide_true, N.eqb_refl. Qed.

Lemma backoff_lookup attempt :
  1 ≤ attempt → (N.of_nat (length RECONNECT_BACKOFF_SECONDS) <=? attempt) = false →
  ∃ delay, RECONNECT_BACKOFF_SECONDS !! N.to_nat attempt = Some delay ∧ delay ≤ 30.
Proof.
  intros H1 H2%N.leb_gt. simpl in H2.
  assert (attempt = 1 ∨ attempt = 2 ∨ attempt = 3 ∨ attempt = 4)
    as [->|[->|[->| ->]]] by lia; eexists; (split; [reflexivity|lia]).
Qed.

Lemma advance_pending_auto_spec p log rp last k ds s :
  state (Some p) log rp last k ds s → waiting rp k (Some p) →
  wp (advance_pending_auto p) (λ o s', good (logged_option o log) s') s.
Proof.
  intros Hs Hwait. pose proof Hwait as [Hi Hp]. destruct (Hp p eq_refl) as (Hk & Hn & _).
  unfold advance_pending_auto. apply wp_bind. eapply wp_read_permit; [exact Hs|].
  intros [|] s1 Hs1.
  { apply wp_bind. eapply wp_set_pending; [exact Hs1|]. intros s2 Hs2.
    apply wp_bind. eapply wp_controller; [exact Hs2|]. intros s3 Hs3 _ _.
    apply wp_ret. eapply state_good; [done|]. by apply waiting_none. }
  apply wp_bind. eapply wp_clock; [exact Hs1|]. intros now s2 _ Hs2 _.
  destruct (N.ltb_spec now (pa_next_deadline p)) as [|Hdue].
  { apply wp_ret. eapply state_good; [done|]. by apply waiting_tick. }
  apply wp_bind. eapply wp_controller; [exact Hs2|]. intros s3 Hs3 _ _.
  apply wp_bind. eapply wp_event; [exact Hs3|done|by eapply retry_starts|]. intros s4 Hs4.
  rewrite app_nil_r in Hs4.
  apply wp_bind. eapply (wp_quietly _ (λ _ _ _, True)); [exact Hs4| |].
  { intros Hst Hep. eapply wp_wand; [apply recover_minimal_cancellable_spec; [done|]|].
    - unfold issued. lia.
    - by intros r w' (? & _ & ? & _). }
  intros [[]|e] s5 Hs5 _.
  - apply wp_bind. eapply wp_event; [exact Hs5|done|apply retry_finishes|]. intros s6 Hs6.
    apply wp_bind. eapply wp_set_pending; [exact Hs6|]. intros s7 Hs7.
    apply wp_bind. eapply wp_controller; [exact Hs7|]. intros s8 Hs8 _ _.
    apply wp_bind. eapply wp_clock; [exact Hs8|]. intros now' s9 _ Hs9 _.
    apply wp_bind. eapply wp_controller; [exact Hs9|]. intros s10 Hs10 _ _.
    apply wp_ret. eapply state_good; [done|]. by apply waiting_none.
  - apply wp_bind. eapply wp_read_permit; [exact Hs5|]. intros b s6 Hs6.
    destruct (b && _ && _).
    { apply wp_bind. eapply wp_event; [exact Hs6|done|apply retry_finishes|]. intros s7 Hs7.
      apply wp_bind. eapply wp_set_pending; [exact Hs7|]. intros s8 Hs8.
      apply wp_ret. eapply state_good; [done|]. by apply waiting_none. }
    apply wp_bind. eapply wp_event; [exact Hs6|done|apply retry_finishes|]. intros s7 Hs7.
    apply wp_bind. eapply wp_wand; [by eapply refresh_outage_spec|]. intros b' s8 [Hs8 _].
    case_bool_decide.
    { apply wp_bind. eapply wp_set_pending; [exact Hs8|]. intros s9 Hs9.
      apply wp_fmap. eapply wp_wand; [by eapply non_recoverable_spec|].
      intros o s10 [Hs10 _]. eapply state_good; [done|]. by apply waiting_none. }
    destruct (N.of_nat _ <=? pa_next_attempt p) eqn:Hlast.
    { apply wp_bind. eapply wp_set_pending; [exact Hs8|]. intros s9 Hs9.
      apply wp_fmap. eapply wp_wand; [by eapply exhausted_spec|].
      intros o s10 [Hs10 _]. eapply state_good; [done|]. by apply waiting_none. }
    destruct (backoff_lookup _ (proj1 Hn) Hlast) as (delay & Hdelay & Hmax).
    apply wp_bind, wp_runtime. eapply wp_expect; [exact Hdelay|].
    apply wp_bind. eapply wp_clock; [by destruct Hs8|]. intros now' s9 Hb Hs9 _.
    apply wp_bind, wp_runtime, wp_duration_add; [done|unfold from_secs; lia|].
    apply wp_bind. eapply wp_set_pending; [by destruct Hs9|]. intros s10 Hs10.
    apply wp_ret. eapply state_good; [done|]. simpl in *. rewrite Hdelay in *.
    split; [done|]. intros ? [= <-]. simpl. apply N.leb_gt in Hlast. simpl in Hlast.
    split_and!; [done|lia|lia|]. by right.
Qed.

Lemma wp_orchestrator_of pending log rp last k ds s
    (Q : RuntimeOrchestrator → AutoRecoveryRuntime → Prop) :
  state pending log rp last k ds s → Q (w_orchestrator (ar_runtime s)) s →
  wp (on_runtime orchestrator) Q s.
Proof. intros _ HQ. apply wp_runtime. unfold wp, orchestrator. by destruct s. Qed.

Lemma observe_stable_ready_spec log rp last k ds s :
  state None log rp last k ds s → idle rp →
  wp observe_stable_ready (λ _ s', good log s') s.
Proof.
  intros Hs Hi. unfold observe_stable_ready. apply wp_bind.
  eapply wp_read_controller; [exact Hs|]. intros c _.
  destruct (rc_generation c) as [g|].
  2:{ apply wp_ret. eapply state_good; [done|]. by apply waiting_none. }
  apply wp_bind. eapply wp_orchestrator_of; [exact Hs|]. case_bool_decide; simpl.
  2:{ apply wp_bind. eapply wp_controller; [exact Hs|]. intros s1 Hs1 _ _.
      apply wp_ret. eapply state_good; [done|]. by apply waiting_none. }
  apply wp_bind. eapply wp_clock; [exact Hs|]. intros now s1 _ Hs1 _.
  pose proof (idle_tick rp now Hi) as Hi'. destruct (rc_stable_since c) as [since|].
  2:{ apply wp_bind. eapply wp_controller; [exact Hs1|]. intros s2 Hs2 _ _.
      apply wp_ret. eapply state_good; [done|]. by apply waiting_none. }
  case_match.
  { apply wp_ret. eapply state_good; [done|]. by apply waiting_none. }
  apply wp_bind. eapply wp_wand; [by eapply clear_outage_spec|]. intros b s2 Hs2.
  apply wp_bind. destruct b.
  - eapply wp_controller; [exact Hs2|]. intros s3 Hs3 _ _.
    apply wp_ret. eapply state_good; [done|]. by apply waiting_none.
  - apply wp_ret, wp_ret. eapply state_good; [done|]. by apply waiting_none.
Qed.

Lemma wview_permit log rp last k ds w :
  wview log rp last k ds w → wview log rp last (epoch (w_trace w)) ds w.
Proof. by intros [? ? ? ? ?]. Qed.

Lemma begin_cooperative_auto_spec outage log rp last k ds s :
  state None log rp last k ds s → idle rp → generations_left s →
  wp (begin_cooperative_auto outage) (λ o s', good (logged_option o log) s') s.
Proof.
  intros Hs Hi Hleft. unfold begin_cooperative_auto. apply wp_bind.
  eapply wp_wand; [by eapply begin_or_refresh_spec|]. intros g s1 [Hs1 [a Ha]].
  apply wp_bind. eapply wp_controller; [exact Hs1|]. intros s2 Hs2 Heq2 _.
  case_bool_decide.
  { apply wp_fmap. eapply wp_wand; [by eapply non_recoverable_spec|].
    intros o s3 [Hs3 _]. eapply state_good; [done|]. by apply waiting_none. }
  apply wp_bind. eapply wp_read_controller; [exact Hs2|]. intros c _.
  case_match.
  { apply wp_ret. eapply state_good; [done|]. by apply waiting_none. }
  apply wp_bind. eapply wp_controller; [exact Hs2|]. intros s3 Hs3 Heq3 _.
  assert (active_if g (outages s3) = Some a) as Ha3.
  { unfold outages in *. by rewrite Heq3, Heq2. }
  apply wp_bind. eapply (wp_wand _ (λ _ s4, state None log rp last k ds s4 ∧
    outages s4 = outages s3)).
  { case_bool_decide; [|by apply wp_ret].
    eapply wp_set_orchestrator_state; [exact Hs3|done|]. auto. }
  intros _ s4 [Hs4 Ho4]. apply wp_bind. eapply wp_orchestrator_of; [exact Hs4|].
  apply wp_bind, wp_runtime. eapply (wp_expect _ a).
  { fold (outages s4). by rewrite Ho4. }
  apply wp_bind. eapply wp_clock; [by destruct s4|]. intros now s5 Hb Hs5 _.
  apply wp_bind, wp_runtime. eapply wp_expect; [reflexivity|].
  apply wp_bind, wp_runtime, wp_duration_add; [by destruct s5|unfold from_secs; lia|].
  apply wp_bind, wp_runtime. unfold wp, permit. apply wp_bind, wp_modify, wp_ret.
  destruct Hs5 as [_ Hw5]. exists (tick rp now), now, (epoch (w_trace (ar_runtime s5))), ds.
  split; [by eapply wview_permit|]. split; [by apply idle_tick|].
  intros ? [= <-]. simpl. split_and!; [lia|lia|lia|by left].
Qed.

Lemma monitor_once_spec log s :
  good log s → generations_left s →
  wp monitor_once_with_observer (λ o s', good (logged_option o log) s') s.
Proof.
  intros (rp & last & k & ds & Hw & Hwait) Hleft. unfold monitor_once_with_observer.
  apply wp_bind. unfold wp at 1. simpl. destruct (ar_pending_auto s) as [p|] eqn:Hp.
  { eapply advance_pending_auto_spec; [|done]. by split. }
  assert (state None log rp last k ds s) as Hs by by split.
  case_bool_decide; simpl; [|by eapply wp_ret, state_good].
  apply wp_bind. eapply (wp_quietly _ (λ w _ w', w_orchestrator w' = w_orchestrator w)); [exact Hs| |].
  { intros Hst _. by apply probe_spec. }
  intros [[]|failure] s1 Hs1 Ho1.
  - apply wp_bind. eapply wp_wand; [eapply observe_stable_ready_spec; [done|apply Hwait]|].
    intros b s2 Hs2. by apply wp_ret.
  - eapply begin_cooperative_auto_spec; [done|apply Hwait|].
    unfold generations_left in *. by rewrite Ho1.
Qed.

(** ** The other operations *)

Lemma retire_recovery_generation_spec pending log rp last k ds s :
  state pending log rp last k ds s →
  wp retire_recovery_generation (λ _ s', state None log rp last k ds s') s.
Proof.
  intros Hs. unfold retire_recovery_generation. apply wp_bind.
  eapply wp_set_pending; [exact Hs|]. intros s1 Hs1. apply wp_bind.
  eapply wp_read_controller; [exact Hs1|]. intros c _. apply wp_bind.
  eapply (wp_wand _ (λ _ s2, state None log rp last k ds s2)).
  { destruct (rc_generation c) as [g|].
    - apply wp_bind. eapply wp_wand; [by eapply clear_outage_spec|]. by intros b s2 ?.
    - apply wp_bind, wp_runtime, wp_fmap. unfold wp, orchestrator.
      destruct (ot_active _); [|by destruct s1].
      change (wp (_ ← on_runtime (clear_outage (og_id o)); mret ())
        (λ _ s2, state None log rp last k ds s2) (s1 <| ar_runtime := ar_runtime s1 |>)).
      apply wp_bind. eapply wp_wand; [eapply clear_outage_spec; by destruct s1|]. by intros b s2 ?. }
  intros [] s2 Hs2. eapply wp_controller; [exact Hs2|]. auto.
Qed.

Lemma switch_workspace_spec' candidate pending log rp last k ds s :
  state pending log rp last k ds s →
  wp (switch_workspace_after_control_cancellation candidate)
    (λ _ s', state None log rp last k ds s') s.
Proof.
  intros Hs. unfold switch_workspace_after_control_cancellation. apply wp_bind.
  eapply (wp_quietly _ (λ _ _ _, True)); [exact Hs| |].
  { intros Hst _. eapply wp_wand; [by apply switch_workspace_spec|]. by intros r w' (? & ? & _). }
  intros [[]|e] s1 Hs1 _; apply wp_bind.
  - eapply wp_wand; [by eapply retire_recovery_generation_spec|]. by intros [] s2 ?.
  - apply wp_bind. eapply wp_event; [exact Hs1|done|by destruct rp|].
    intros s2 Hs2. rewrite app_nil_r in Hs2.
    eapply wp_wand; [by eapply retire_recovery_generation_spec|]. by intros [] s3 ?.
Qed.

Lemma run_recovery_spec op log s :
  good log s → generations_left s →
  wp (run_recovery op) (λ o s', good (logged_option o log) s') s.
Proof.
  intros Hg Hleft. pose proof Hg as (rp & last & k & ds & Hw & Hwait).
  assert (state (ar_pending_auto s) log rp last k ds s) as Hs by by split.
  destruct op; simpl.
  - by apply monitor_once_spec.
  - eapply wp_wand; [eapply manual_retry_current_outage_spec; [done|apply Hwait|done]|].
    intros o s' (rp' & last' & ds' & Hs' & Hi' & _). eapply state_good; [done|].
    by apply waiting_none.
  - apply wp_fmap. eapply wp_wand; [by eapply switch_workspace_spec'|].
    intros r s' Hs'. exact (state_good _ _ _ _ _ _ _ Hs' (waiting_none _ _ (proj1 Hwait))).
  - apply wp_fmap. eapply (wp_quietly _ (λ _ _ _, True)); [exact Hs| |].
    + intros Hst _. eapply wp_wand; [by apply start_spec|].
      intros [[]|e] w' [? Hr]; [auto using serving_steady|].
      destruct Hr as [[-> _]|[? _]]; auto using all_down_steady.
    + intros r s' Hs' _. exact (state_good _ _ _ _ _ _ _ Hs' Hwait).
  - apply wp_fmap. eapply (wp_quietly _ (λ _ _ _, True)); [exact Hs| |].
    + intros Hst _. eapply wp_wand; [by apply stop_spec|].
      intros r w' (? & ? & _). auto using all_down_steady.
    + intros r s' Hs' _. exact (state_good _ _ _ _ _ _ _ Hs' Hwait).
  - apply wp_fmap. eapply (wp_quietly _ (λ _ _ _, True)); [exact Hs| |].
    + intros Hst _. eapply wp_wand; [by apply stop_tunnel_for_exit_spec|]. by intros r w' (? & ? & _).
    + intros r s' Hs' _. exact (state_good _ _ _ _ _ _ _ Hs' Hwait).
  - apply wp_fmap. eapply (wp_quietly _ (λ _ _ _, True)); [exact Hs| |].
    + intros Hst _. eapply wp_wand; [by apply finish_exit_spec|]. by intros r w' (? & ? & _).
    + intros r s' Hs' _. exact (state_good _ _ _ _ _ _ _ Hs' Hwait).
Qed.

(** ** The theorems *)

Definition system_good (sys : RecoverySystem) : Prop :=
  good (omap asks_user (sys_outcomes sys)) (sys_runtime sys).

Lemma omap_log_outcome o l : omap asks_user (log_outcome o l) = logged_option o (omap asks_user l).
Proof. by destruct o. Qed.

#[export] Instance system_good_invariant : Invariant system_good.
Proof.
  split.
  - intros sys ->. exists Fresh, 0, 0, []. split; [|by apply waiting_none].
    split; simpl; [|split; simpl; [constructor|set_solver|done|done]|done|lia|done].
    exists Down. split; [done|constructor].
  - intros sys sys' Hg Hstep. destruct Hstep as [op s l s' o Hleft Hrun|s l]; unfold system_good in *;
      simpl in *.
    + rewrite omap_log_outcome. exact (run_wp _ _ _ _ _ (run_recovery_spec op _ _ Hg Hleft) Hrun).
    + destruct Hg as (rp & last & k & ds & Hw & Hwait). exists rp, last, k, ds.
      split; [|done]. rewrite <-(app_nil_r ds).
      by eapply (wview_event _ _ _ _ _ _ CancelRequested).
Qed.

(** The numbers of the schedule's phases. *)
Definition phase_bounded (rp : RetryPhase) : Prop :=
  match rp with
  | Fresh => True
  | Running _ k | FailedAt _ k | WaitUntil _ k _ => 1 ≤ k ≤ 5
  end.

Lemma backoff_length k delay : RECONNECT_BACKOFF_SECONDS !! k = Some delay → (k < 5)%nat.
Proof. intros H1%lookup_lt_Some. exact H1. Qed.

Lemma retry_bounded trace rp last :
  retry_of trace = Some (rp, last) →
  phase_bounded rp ∧
  ∀ g r c f k, Observed (AttemptStarted g r c f k) ∈ trace → 1 ≤ k ≤ 5.
Proof.
  revert rp last. induction trace as [|e trace IH]; intros rp last.
  { intros [= <- <-]. split; [done|]. set_solver. }
  unfold retry_of, accepts in IH |- *. simpl.
  destruct (foldr _ _ trace) as [[rp0 last0]|]; [|done]. simpl.
  destruct (IH rp0 last0 eq_refl) as [Hb Hin]. intros Hstep.
  assert (phase_bounded rp ∧
    ∀ g r c f k, e = Observed (AttemptStarted g r c f k) → 1 ≤ k ≤ 5) as [Hb' He].
  { destruct e as [| | | |now| |[g r c f k|g r c k res]]; simpl in Hstep; try (by simplify_eq).
    - simplify_eq. split; [|done]. destruct rp0; simpl in *; try done.
      case_match eqn:Hd; simpl; [|done]. apply backoff_length in Hd. lia.
    - destruct rp0; try done; repeat (case_match; [|done]); simplify_eq; simpl in *;
        (split; [|intros ????? [= <- <- <- <- <-]]);
        repeat match goal with
        | Hk : _ || _ = true |- _ => apply orb_true_iff in Hk as [?%bool_decide_eq_true|Hk]
        | Hk : _ && _ = true |- _ => apply andb_true_iff in Hk as [? ?]
        end; lia.
    - destruct rp0; try done. case_match; [|done]. simplify_eq. split; [|done].
      apply andb_true_iff in H1 as [_ ?]. simpl in Hb.
      destruct res; simpl; [done|lia|done]. }
  split; [done|]. intros g r c f k [Heq|?]%elem_of_cons; [by eapply He|by eapply Hin].
Qed.

Lemma recovery_total sys op :
  reachable sys → generations_left (sys_runtime sys) →
  ∃ s' o, run_recovery op (sys_runtime sys) = (s', Some o).
Proof.
  intros Hg%(invariant_reachable system_good) Hleft.
  destruct (wp_run _ _ _ (run_recovery_spec op _ _ Hg Hleft)) as (s' & o & Hrun & _). eauto.
Qed.

(** C26 (bounds): the automatic attempts of every run keep to the schedule: they are
    numbered 1, 2, 3, ... without a gap and never beyond 5; attempt [k + 1] starts only
    after attempt [k] of the same outage failed and the clock, read then and before
    the start, shows that the delay of the back-off table has passed; attempts never
    overlap; and no operation of the runtime panics while generation ids are left. *)
Theorem attempts_follow_schedule sys :
  reachable sys →
  is_Some (accepts retry_step (Fresh, 0) (w_trace (ar_runtime (sys_runtime sys)))) ∧
  (∀ g r c f k, Observed (AttemptStarted g r c f k) ∈ w_trace (ar_runtime (sys_runtime sys)) →
     1 ≤ k ≤ 5) ∧
  ∀ op, generations_left (sys_runtime sys) →
    ∃ s' o, run_recovery op (sys_runtime sys) = (s', Some o).
Proof.
  intros Hr. destruct (invariant_reachable system_good _ Hr) as (rp & last & k & ds & Hw & Hwait).
  destruct (retry_bounded _ _ _ (wview_retry _ _ _ _ _ _ Hw)) as [_ Hstarted].
  split_and!; [|exact Hstarted|intros op; by apply recovery_total].
  eexists. exact (wview_retry _ _ _ _ _ _ Hw).
Qed.

(** However often the runtime fails, recovers, is retried, switches its
    workspace or is cancelled, the user's attention is asked for at most once for
    each outage generation. *)
Theorem user_asked_once sys :
  reachable sys → NoDup (omap asks_user (sys_outcomes sys)).
Proof.
  intros (rp & last & k & ds & Hw & _)%(invariant_reachable system_good).
  exact (attention_nodup _ _ (wview_attention _ _ _ _ _ _ Hw)).
Qed.

(** A retry on the user's demand cancels the automatic recovery, does
    nothing without an outage, and otherwise makes at most five attempts, each after
    exactly the delay of the back-off table: it ends at the first success, with the
    runtime serving, at the first fault that cannot be recovered from, or after all
    five delays. *)
Theorem manual_retry_bounded sys :
  reachable sys → generations_left (sys_runtime sys) →
  ∃ s' o, manual_retry_current_outage (sys_runtime sys) = (s', Some o) ∧
    ar_pending_auto s' = None ∧
    match o with
    | None => ot_active (outages (sys_runtime sys)) = None
    | Some o => attempted 0 RECONNECT_BACKOFF_SECONDS o
        (sleeps (w_trace (ar_runtime (sys_runtime sys)))) (sleeps (w_trace (ar_runtime s'))) s'
    end.
Proof.
  intros (rp & last & k & ds & Hw & Hwait)%(invariant_reachable system_good) Hleft.
  assert (state (ar_pending_auto (sys_runtime sys)) (omap asks_user (sys_outcomes sys)) rp last k ds
    (sys_runtime sys)) as Hs by by split.
  destruct (wp_run _ _ _ (manual_retry_current_outage_spec _ _ _ _ _ _ _ Hs (proj1 Hwait) Hleft))
    as (s' & o & Hrun & rp' & last' & ds' & [Hp' Hw'] & _ & Ho).
  exists s', o. rewrite (wview_sleeps _ _ _ _ _ _ Hw), (wview_sleeps _ _ _ _ _ _ Hw'). auto.
Qed.
End recovery.

(** ** An environment for the witnesses *)

(** Components come up and answer, but the tunnel is never healthy; every event
    takes a second, for the first hour. *)
#[local] Instance demo_driver : RuntimeDriver := {
  answer t c := match c with
                | ProbeTunnel _ | StartTunnel ForRecovery _ => Some TunnelExited
                | _ => None
                end;
  epoch t := N.of_nat (length (List.filter (λ e, match e with CancelRequested => true | _ => false end) t));
  epoch_mono e t := ltac:(destruct e; simpl; lia);
  epoch_cancel t := ltac:(simpl; lia)
}.

#[local] Instance demo_environment : RecoveryEnvironment := {
  now_at t := N.min (N.of_nat (length t) * 1000000000) 3600000000000;
  now_mono e t := ltac:(simpl; lia);
  now_bound t := ltac:(unfold duration_max, from_secs, u64_max; lia);
  request_id_at t := "req-recovery-1"%string
}.

(** Start, then monitor [n] times. *)
Definition demo_monitored (n : nat) : AutoRecoveryRuntime * list RecoveryOutcome :=
  Nat.iter n (λ '(s, l), match run_recovery MonitorOnce s with
                         | (s', Some o) => (s', log_outcome o l)
                         | (s', None) => (s', l)
                         end)
    ((run_recovery (LifecycleStart true) (auto_recovery_new (MkWorld runtime_new []))).1, []).

Lemma demo_sequence :
  let '(s, l) := demo_monitored 40 in
  l = [OutcomeExhausted (MkOutageGenerationId 1) TunnelExited true] ∧
  omap (λ e, match e with Observed (AttemptStarted _ _ _ _ k) => Some k | _ => None end)
    (rev (w_trace (ar_runtime s))) = [1; 2; 3; 4; 5].
Proof. vm_compute. done. Qed.

Definition demo_system (n : nat) : RecoverySystem :=
  MkRecoverySystem (demo_monitored n).1 (demo_monitored n).2.

Definition counter_left (n : nat) : bool :=
  ot_next_generation (ro_outages (w_orchestrator (ar_runtime (demo_monitored n).1))) <? u64_max.

Lemma demo_system_reachable n :
  forallb counter_left (seq 0 n) = true → reachable (demo_system n).
Proof.
  induction n as [|n IH].
  - intros _. eapply reachable_step; [by eexists|].
    by apply (step_recovery (LifecycleStart true) (auto_recovery_new (MkWorld runtime_new [])) [] _ None).
  - rewrite seq_S, forallb_app. simpl. rewrite andb_true_r. intros [Hn Hl]%andb_true_iff.
    specialize (IH Hn). unfold counter_left in Hl. apply N.ltb_lt in Hl.
    destruct (recovery_total _ MonitorOnce IH Hl) as (s' & o & Hstep).
    eapply reachable_step; [exact IH|].
    unfold demo_system, demo_monitored in *. rewrite Nat.iter_succ.
    destruct (Nat.iter n _ _) as [s l]. simpl in *. rewrite Hstep. by apply step_recovery with MonitorOnce.
Qed.

Lemma attempts_follow_schedule_witness :
  sys_outcomes (demo_system 40) = [OutcomeExhausted (MkOutageGenerationId 1) TunnelExited true] ∧
  ∀ g r c f k, Observed (AttemptStarted g r c f k) ∈
    w_trace (ar_runtime (sys_runtime (demo_system 40))) → 1 ≤ k ≤ 5.
Proof.
  split; [by vm_compute|].
  destruct (attempts_follow_schedule (demo_system 40)) as (_ & H & _).
  - apply demo_system_reachable. by vm_compute.
  - exact H.
Defined.

Lemma user_asked_once_witness :
  sys_outcomes (demo_system 40) = [OutcomeExhausted (MkOutageGenerationId 1) TunnelExited true] ∧
  NoDup (omap asks_user (sys_outcomes (demo_system 40))).
Proof.
  split; [by vm_compute|]. apply (user_asked_once (demo_system 40)).
  apply demo_system_reachable. by vm_compute.
Defined.

Lemma manual_retry_bounded_witness :
  ∃ s' g, manual_retry_current_outage (sys_runtime (demo_system 40)) =
    (s', Some (Some (OutcomeRecovered g 1))) ∧ serving (ar_runtime s').
Proof.
  destruct (manual_retry_bounded (demo_system 40)) as (s' & o & Hrun & _ & Ho).
  - apply demo_system_reachable. by vm_compute.
  - by vm_compute.
  - assert (o = Some (OutcomeRecovered (MkOutageGenerationId 2) 1)) as ->.
    { apply (f_equal snd) in Hrun. vm_compute in Hrun. congruence. }
    exists s', (MkOutageGenerationId 2). split; [exact Hrun|].
    destruct Ho as (n & _ & _ & _ & Hserving). exact Hserving.
Defined.
