(* ===== verification/WindowsPath.v ===== *)
(** * WindowsPath: [std::path] for Windows, and the protected names

    The part of [std::path::Path] the sources use on this target: prefixes,
    components and [is_absolute]; and
    [src/src-tauri/src/filesystem/policy.rs], which refuses paths through the
    application's own files. *)

From S2P Require Import Prelude Text.
#[local] Open Scope N_scope.

(** ** Prefixes *)

Definition backslash : N := 0x5C.
Definition is_sep (c : N) : bool := (c =? 0x2F) || (c =? backslash).
Definition is_verbatim_sep (c : N) : bool := c =? backslash.
Definition is_ascii_alphabetic (c : N) : bool := is_ascii_upper c || is_ascii_lower c.

Inductive Prefix :=
  | Verbatim (name : ustr)
  | VerbatimUNC (server share : ustr)
  | VerbatimDisk (drive : N)
  | DeviceNS (name : ustr)
  | UNC (server share : ustr)
  | Disk (drive : N).

Definition prefix_is_verbatim (p : Prefix) : bool :=
  match p with Verbatim _ | VerbatimUNC _ _ | VerbatimDisk _ => true | _ => false end.

(** Every prefix but a bare drive implies a root. *)
Definition has_implicit_root (p : Prefix) : bool :=
  match p with Disk _ => false | _ => true end.

Definition share_len (share : ustr) : nat :=
  match share with [] => 0 | _ => S (length share) end.

Definition prefix_len (p : Prefix) : nat :=
  match p with
  | Verbatim name => 4 + length name
  | VerbatimUNC server share => 8 + length server + share_len share
  | VerbatimDisk _ => 6
  | DeviceNS name => 4 + length name
  | UNC server share => 2 + length server + share_len share
  | Disk _ => 2
  end.

(** Up to the next separator, and what follows it. *)
Fixpoint next_component (sep : N → bool) (s : ustr) : ustr * ustr :=
  match s with
  | [] => ([], [])
  | c :: s => if sep c then ([], s) else let '(a, b) := next_component sep s in (c :: a, b)
  end.

Definition parse_drive (s : ustr) : option N :=
  match s with
  | d :: 0x3A :: _ =>
      if is_ascii_alphabetic d then Some (if is_ascii_lower d then d - 32 else d) else None
  | _ => None
  end.

Definition parse_drive_exact (s : ustr) : option N :=
  match s !! 2%nat with
  | Some c => if is_sep c then parse_drive s else None
  | None => parse_drive s
  end.

(** The prefix is recognized with either slash, verbatim ones only with backslashes. *)
Definition normalize_sep (c : N) : N := if c =? 0x2F then backslash else c.
Definition starts_normalized (p s : ustr) : bool :=
  starts_with p (map normalize_sep (take (length p) s)).

Definition parse_prefix (s : ustr) : option Prefix :=
  if starts_normalized (lit "\\") s then
    if starts_with (lit "\\?\") s then
      if starts_normalized (lit "\\?\UNC\") s then
        let '(server, rest) := next_component is_verbatim_sep (drop 8 s) in
        Some (VerbatimUNC server (next_component is_verbatim_sep rest).1)
      else
        match parse_drive_exact (drop 4 s) with
        | Some drive => Some (VerbatimDisk drive)
        | None => Some (Verbatim (next_component is_verbatim_sep (drop 4 s)).1)
        end
    else if starts_normalized (lit "\\.\") s then
      Some (DeviceNS (next_component is_sep (drop 4 s)).1)
    else
      let '(server, rest) := next_component is_sep (drop 2 s) in
      let share := (next_component is_sep rest).1 in
      if bool_decide (server = []) || bool_decide (share = []) then None
      else Some (UNC server share)
  else Disk <$> parse_drive s.

(** ** Components *)

Inductive Component :=
  | PrefixComponent (p : Prefix)
  | RootDir
  | CurDir
  | ParentDir
  | Normal (name : ustr).

Definition after_prefix (s : ustr) : ustr :=
  match parse_prefix s with Some p => drop (prefix_len p) s | None => s end.

Definition has_root (s : ustr) : bool :=
  match after_prefix s with c :: _ => is_sep c | [] => false end ||
  match parse_prefix s with Some p => has_implicit_root p | None => false end.

Definition is_absolute (s : ustr) : bool :=
  has_root s && bool_decide (is_Some (parse_prefix s)).

Definition parse_single (verbatim : bool) (piece : ustr) : option Component :=
  if bool_decide (piece = []) then None
  else if bool_decide (piece = lit ".") then if verbatim then Some CurDir else None
  else if bool_decide (piece = lit "..") then Some ParentDir
  else Some (Normal piece).

Definition components (s : ustr) : list Component :=
  let prefix := parse_prefix s in
  let verbatim := match prefix with Some p => prefix_is_verbatim p | None => false end in
  let pieces := split_on (if verbatim then is_verbatim_sep else is_sep) (after_prefix s) in
  (match prefix with Some p => [PrefixComponent p] | None => [] end) ++
  (if has_root s then [RootDir]
   else if bool_decide (head pieces = Some (lit ".")) then [CurDir] else []) ++
  omap (parse_single verbatim) pieces.

(** [Path::file_name]: the last component, when it is a normal one. *)
Definition file_name (s : ustr) : option ustr :=
  match last (components s) with Some (Normal name) => Some name | _ => None end.

Definition is_parent_dir (c : Component) : bool :=
  match c with ParentDir => true | _ => false end.

(** The documented behaviour on the usual shapes. *)
Example components_disk :
  components (lit "C:\work\.\a/b") =
    [PrefixComponent (Disk 0x43); RootDir; Normal (lit "work"); Normal (lit "a"); Normal (lit "b")].
Proof. reflexivity. Qed.
Example components_relative :
  components (lit "./a\..\b") = [CurDir; Normal (lit "a"); ParentDir; Normal (lit "b")].
Proof. reflexivity. Qed.
Example components_unc :
  components (lit "\\server\share\x") =
    [PrefixComponent (UNC (lit "server") (lit "share")); RootDir; Normal (lit "x")].
Proof. reflexivity. Qed.
Example components_verbatim :
  components (lit "\\?\C:\a/b\.") =
    [PrefixComponent (VerbatimDisk 0x43); RootDir; Normal (lit "a/b"); CurDir].
Proof. reflexivity. Qed.
Example absolute_paths :
  map is_absolute [lit "C:\a"; lit "C:a"; lit "\a"; lit "//server/share"; lit "\\.\COM1"; lit "a"]
  = [true; false; false; true; true; false].
Proof. reflexivity. Qed.

(** ** The path policy *)

(* @src filesystem/policy.rs:4-7 FilesystemPathDecision *)
Inductive FilesystemPathDecision := PathAllowed | ProtectedControlPlane.
#[export] Instance FilesystemPathDecision_eq_dec : EqDecision FilesystemPathDecision.
Proof. solve_decision. Defined.

Definition PROTECTED_NAMES : list ustr :=
  [lit "localbridge"; lit "com.localbridge.desktop"; lit "runtime-policy.toml";
   lit "runtime-manifest.toml"; lit "startup-profile.json"].

(* @src filesystem/policy.rs:12-31 FilesystemPathPolicy::evaluate *)
Definition evaluate (path : ustr) : FilesystemPathDecision :=
  let protected := existsb (λ component,
    match component with
    | Normal name => existsb (eq_ignore_ascii_case name) PROTECTED_NAMES
    | _ => false
    end) (components path) in
  if protected then ProtectedControlPlane else PathAllowed.

(* @src filesystem/policy.rs:33-35 FilesystemPathPolicy::allows *)
Definition allows (path : ustr) : bool := bool_decide (evaluate path = PathAllowed).

Example policy_examples :
  map allows [lit "C:\ProgramData\LocalBridge\settings.json"; lit "C:\work\echo LocalBridge.txt";
              lit "C:\work\runtime-policy.toml"] = [false; true; false].
Proof. reflexivity. Qed.
