(* ===== verification/BrokerProtocol.v ===== *)
(** * BrokerProtocol: the messages of the privileged broker

    [src/src-tauri/src/privilege/protocol.rs]: requests, responses, what makes a
    request valid, the session that refuses stale and replayed ones, and frames.
    The JSON codec is the interface [Serde]. *)

From S2P Require Import Prelude Text WindowsPath.
#[local] Open Scope N_scope.

(* @src privilege/protocol.rs:7-7 BROKER_PROTOCOL_VERSION *)
Definition BROKER_PROTOCOL_VERSION : N := 3.
(* @src privilege/protocol.rs:8-8 MAX_BROKER_FRAME_BYTES *)
Definition MAX_BROKER_FRAME_BYTES : N := 8 * 1024 * 1024.
(* @src privilege/protocol.rs:10-10 MAX_ELEVATED_ARGS *)
Definition MAX_ELEVATED_ARGS : nat := 128.
(* @src privilege/protocol.rs:11-11 MAX_ELEVATED_STRING_BYTES *)
Definition MAX_ELEVATED_STRING_BYTES : N := 32 * 1024.
(* @src privilege/protocol.rs:12-12 MAX_ELEVATED_TIMEOUT_MS *)
Definition MAX_ELEVATED_TIMEOUT_MS : N := 120000.
(* @src privilege/protocol.rs:13-13 MAX_ELEVATED_OUTPUT_BYTES *)
Definition MAX_ELEVATED_OUTPUT_BYTES : N := 1024 * 1024.
(* @src privilege/protocol.rs:14-14 MAX_ELEVATED_REQUEST_ID_BYTES *)
Definition MAX_ELEVATED_REQUEST_ID_BYTES : N := 128.
(* @src privilege/protocol.rs:15-15 MAX_PRIVILEGED_FILE_BYTES *)
Definition MAX_PRIVILEGED_FILE_BYTES : N := 24 * 1024.
(* @src privilege/protocol.rs:16-16 MAX_ADMINISTRATOR_FILESYSTEM_CONTENT_BYTES *)
Definition MAX_ADMINISTRATOR_FILESYSTEM_CONTENT_BYTES : N := 1024 * 1024.
(* @src privilege/protocol.rs:17-17 MAX_ADMINISTRATOR_FILESYSTEM_EDIT_BYTES *)
Definition MAX_ADMINISTRATOR_FILESYSTEM_EDIT_BYTES : N := 4 * 1024 * 1024.
(* @src privilege/protocol.rs:18-18 BROKER_PIPE_PREFIX *)
Definition BROKER_PIPE_PREFIX : ustr := lit "\\.\pipe\LocalBridge-Privileged-".

(** [value.len()] as a [usize], [usize::div_ceil], [as_bytes().contains(&0)]. *)
Definition len (s : ustr) : N := N.of_nat (byte_len s).
Definition div_ceil (a b : N) : N := (a + b - 1) / b.
Definition has_nul (s : ustr) : bool := existsb (N.eqb 0) (utf8_encode s).
Definition has_line_break (s : ustr) : bool := existsb (λ c, (c =? 0xA) || (c =? 0xD)) s.

(** [Option::is_none_or] and [is_some_and]. *)
Definition is_none_or {A} (f : A → bool) (o : option A) : bool :=
  match o with None => true | Some a => f a end.
Definition is_some_and {A} (f : A → bool) (o : option A) : bool :=
  match o with None => false | Some a => f a end.
Definition is_some {A} (o : option A) : bool := match o with Some _ => true | None => false end.
Definition is_none {A} (o : option A) : bool := negb (is_some o).

(* @src privilege/protocol.rs:20-22 is_windows_verbatim_path *)
Definition is_windows_verbatim_path (value : ustr) : bool := starts_with (lit "\\?\") value.

(* @src privilege/protocol.rs:24-32 is_valid_broker_pipe_name *)
Definition is_valid_broker_pipe_name (value : ustr) : bool :=
  match strip_prefix BROKER_PIPE_PREFIX value with
  | None => false
  | Some suffix =>
      Nat.eqb (byte_len suffix) 32 &&
      forallb (λ b, in_range 0x30 0x39 b || in_range 0x61 0x66 b) (utf8_encode suffix)
  end.

(** ** Messages *)

(* @src privilege/protocol.rs:34-44 SessionNonce *)
Record SessionNonce := MkSessionNonce { nonce_bytes : bytes }.

(* @src privilege/protocol.rs:61-65 ServerHello *)
Record ServerHello := MkServerHello {
  sh_version : N;
  sh_generation : N;
  sh_session_nonce : SessionNonce
}.

(* @src privilege/protocol.rs:68-72 BrokerReady *)
Record BrokerReady := MkBrokerReady {
  br_version : N;
  br_generation : N;
  br_session_nonce : SessionNonce
}.

(* @src privilege/protocol.rs:160-166 ElevatedExecSpec *)
Record ElevatedExecSpec := MkElevatedExecSpec {
  es_program : ustr;
  es_args : list ustr;
  es_workdir : option ustr;
  es_timeout_ms : N;
  es_max_output_bytes : N
}.

(* @src privilege/protocol.rs:213-217 ElevatedExecOutcome *)
Inductive ElevatedExecOutcome := ExecCompletedOutcome | ExecTimedOut | ExecCancelled.

(* @src privilege/protocol.rs:220-228 ElevatedExecResult *)
Record ElevatedExecResult := MkElevatedExecResult {
  eer_outcome : ElevatedExecOutcome;
  eer_exit_code : option N;
  eer_stdout : ustr;
  eer_stderr : ustr;
  eer_stdout_truncated : bool;
  eer_stderr_truncated : bool;
  eer_truncated : bool
}.

(* @src privilege/protocol.rs:232-238 PrivilegedFilesystemAction *)
Inductive PrivilegedFilesystemAction :=
  | ReadFile | WriteFile | CreateDirectory | Rename | Delete.

(* @src privilege/protocol.rs:242-249 PrivilegedFilesystemSpec *)
Record PrivilegedFilesystemSpec := MkPrivilegedFilesystemSpec {
  pf_action : PrivilegedFilesystemAction;
  pf_path : ustr;
  pf_destination : option ustr;
  pf_content_base64 : option ustr;
  pf_recursive : bool
}.

(* @src privilege/protocol.rs:286-292 PrivilegedFilesystemResult *)
Record PrivilegedFilesystemResult := MkPrivilegedFilesystemResult {
  pfr_action : PrivilegedFilesystemAction;
  pfr_path : ustr;
  pfr_destination : option ustr;
  pfr_content_base64 : option ustr;
  pfr_bytes : N
}.

(* @src privilege/protocol.rs:296-309 AdministratorFilesystemAction *)
Inductive AdministratorFilesystemAction :=
  | AdminList | AdminStat | AdminRead | AdminWrite | AdminReplace | AdminPatch
  | AdminSearch | AdminSearchContent | AdminCopy | AdminMove | AdminDelete | AdminHash.

(* @src privilege/protocol.rs:313-316 AdministratorFilesystemKind *)
Inductive AdministratorFilesystemKind := KindFile | KindDirectory.

(* @src privilege/protocol.rs:320-324 AdministratorFilesystemSortBy *)
Inductive AdministratorFilesystemSortBy := SortByPath | SortBySize | SortByModified.

(* @src privilege/protocol.rs:328-331 AdministratorFilesystemSortOrder *)
Inductive AdministratorFilesystemSortOrder := SortAsc | SortDesc.

(* @src privilege/protocol.rs:335-347 AdministratorFilesystemErrorCode *)
Inductive AdministratorFilesystemErrorCode :=
  | AdminInvalidArgument | AdminNotFound | AdminOutsideAuthority | AdminAlreadyExists
  | AdminFileChanged | AdminPatchConflict | AdminAmbiguousMatch | AdminLimitExceeded
  | AdminCancelled | AdminUnsupported | AdminIo.

(* @src privilege/protocol.rs:351-355 AdministratorWorkspacePathField *)
Inductive AdministratorWorkspacePathField := FieldPath | FieldSource | FieldDestination.

(* @src privilege/protocol.rs:359-401 AdministratorFilesystemSpec *)
Record AdministratorFilesystemSpec := MkAdministratorFilesystemSpec {
  af_action : AdministratorFilesystemAction;
  af_path : option ustr;
  af_source : option ustr;
  af_destination : option ustr;
  af_workspace_root : option ustr;
  af_workspace_identity : option ustr;
  af_workspace_fields : list AdministratorWorkspacePathField;
  af_recursive : bool;
  af_max_depth : N;
  af_max_entries : N;
  af_max_results : N;
  af_offset : N;
  af_max_bytes : N;
  af_content_base64 : option ustr;
  af_expected_sha256 : option ustr;
  af_old : option ustr;
  af_new : option ustr;
  af_patch : option ustr;
  af_expected_files : list (ustr * ustr);
  af_pattern : option ustr;
  af_case_sensitive : bool;
  af_max_file_bytes : N;
  af_kind : option AdministratorFilesystemKind;
  af_min_size : option N;
  af_max_size : option N;
  af_modified_after_ms : option N;
  af_modified_before_ms : option N;
  af_sort_by : AdministratorFilesystemSortBy;
  af_sort_order : AdministratorFilesystemSortOrder;
  af_overwrite : bool;
  af_calculate_size : bool
}.

(* @src privilege/protocol.rs:624-629 AdministratorFilesystemEntry *)
Record AdministratorFilesystemEntry := MkAdministratorFilesystemEntry {
  afe_path : ustr;
  afe_kind : ustr;
  afe_size : N;
  afe_modified_ms : option N
}.

(* @src privilege/protocol.rs:632-637 AdministratorFilesystemContentMatch *)
Record AdministratorFilesystemContentMatch := MkAdministratorFilesystemContentMatch {
  afm_path : ustr;
  afm_line : N;
  afm_column : N;
  afm_text : ustr
}.

(* @src privilege/protocol.rs:641-695 AdministratorFilesystemResult *)
Inductive AdministratorFilesystemResult :=
  | AdminEntries (action : AdministratorFilesystemAction)
      (entries : list AdministratorFilesystemEntry) (scanned_entries : N) (truncated : bool)
  | AdminStatResult (path kind : ustr) (size : N) (modified_ms : option N)
      (calculated_size : bool) (scanned_entries : N) (truncated : bool)
  | AdminReadResult (path : ustr) (offset total_bytes returned_bytes : N) (eof : bool)
      (encoding content : ustr)
  | AdminMutation (action : AdministratorFilesystemAction) (path : ustr)
      (destination : option ustr) (mutated_bytes : N) (changed : bool)
  | AdminEdit (action : AdministratorFilesystemAction) (path : option ustr)
      (affected_files : list ustr) (sha256 : option ustr) (changed : bool)
  | AdminContentMatches (action : AdministratorFilesystemAction)
      (matches : list AdministratorFilesystemContentMatch)
      (scanned_entries scanned_files skipped_binary_files skipped_oversized_files : N)
      (truncated : bool)
  | AdminHashResult (path algorithm sha256 : ustr) (hashed_bytes : N).

(* @src privilege/protocol.rs:76-105 BrokerRequest *)
Inductive BrokerRequest :=
  | Ping
  | Shutdown
  | StartExec (request_id : ustr) (spec : ElevatedExecSpec)
  | PollExec (request_id : ustr)
  | CancelExec (request_id : ustr)
  | Filesystem (spec : PrivilegedFilesystemSpec)
  | StructuredFilesystem (spec : AdministratorFilesystemSpec)
  | StartStructuredFilesystem (request_id : ustr) (spec : AdministratorFilesystemSpec)
  | PollStructuredFilesystem (request_id : ustr)
  | CancelStructuredFilesystem (request_id : ustr).

(* @src privilege/protocol.rs:108-114 BrokerRequestEnvelope *)
Record BrokerRequestEnvelope := MkBrokerRequestEnvelope {
  bre_version : N;
  bre_generation : N;
  bre_session_nonce : SessionNonce;
  bre_sequence : N;
  bre_request : BrokerRequest
}.

(* @src privilege/protocol.rs:118-129 BrokerRejectCode *)
Inductive BrokerRejectCode :=
  | RejectProtocolMismatch | RejectStaleGeneration | RejectSessionMismatch | RejectReplay
  | RejectMalformed | RejectOversized | RejectDuplicateRequest | RejectCapacityExceeded
  | RejectRequestNotFound | RejectExecutionFailed.

(* @src privilege/protocol.rs:133-156 BrokerResponse *)
Inductive BrokerResponse :=
  | Pong
  | ShutdownAck
  | ExecAccepted
  | ExecPending
  | ExecCompleted (execution : ElevatedExecResult)
  | FilesystemCompleted (filesystem : PrivilegedFilesystemResult)
  | StructuredFilesystemCompleted (filesystem : AdministratorFilesystemResult)
  | StructuredFilesystemFailed (code : AdministratorFilesystemErrorCode)
  | StructuredFilesystemAccepted
  | StructuredFilesystemPending
  | CancelAck
  | Rejected (code : BrokerRejectCode).

(* @src privilege/protocol.rs:726-731 BrokerResponseEnvelope *)
Record BrokerResponseEnvelope := MkBrokerResponseEnvelope {
  brs_version : N;
  brs_generation : N;
  brs_sequence : N;
  brs_response : BrokerResponse
}.

(* @src privilege/protocol.rs:734-742 BrokerProtocolError *)
Inductive BrokerProtocolError :=
  | EmptyFrame | OversizedFrame | MalformedFrame | ProtocolMismatch | StaleGeneration
  | SessionMismatch | Replay.

#[export] Instance SessionNonce_eq_dec : EqDecision SessionNonce.
Proof. solve_decision. Defined.
#[export] Instance PrivilegedFilesystemAction_eq_dec : EqDecision PrivilegedFilesystemAction.
Proof. solve_decision. Defined.
#[export] Instance AdministratorFilesystemAction_eq_dec : EqDecision AdministratorFilesystemAction.
Proof. solve_decision. Defined.
#[export] Instance AdministratorWorkspacePathField_eq_dec :
  EqDecision AdministratorWorkspacePathField.
Proof. solve_decision. Defined.

#[export] Instance ElevatedExecSpec_eq_dec : EqDecision ElevatedExecSpec.
Proof. solve_decision. Defined.
#[export] Instance ElevatedExecOutcome_eq_dec : EqDecision ElevatedExecOutcome.
Proof. solve_decision. Defined.
#[export] Instance ElevatedExecResult_eq_dec : EqDecision ElevatedExecResult.
Proof. solve_decision. Defined.
#[export] Instance PrivilegedFilesystemSpec_eq_dec : EqDecision PrivilegedFilesystemSpec.
Proof. solve_decision. Defined.
#[export] Instance PrivilegedFilesystemResult_eq_dec : EqDecision PrivilegedFilesystemResult.
Proof. solve_decision. Defined.
#[export] Instance AdministratorFilesystemKind_eq_dec : EqDecision AdministratorFilesystemKind.
Proof. solve_decision. Defined.
#[export] Instance AdministratorFilesystemSortBy_eq_dec : EqDecision AdministratorFilesystemSortBy.
Proof. solve_decision. Defined.
#[export] Instance AdministratorFilesystemSortOrder_eq_dec :
  EqDecision AdministratorFilesystemSortOrder.
Proof. solve_decision. Defined.
#[export] Instance AdministratorFilesystemSpec_eq_dec : EqDecision AdministratorFilesystemSpec.
Proof. solve_decision. Defined.
#[export] Instance AdministratorFilesystemEntry_eq_dec : EqDecision AdministratorFilesystemEntry.
Proof. solve_decision. Defined.
#[export] Instance AdministratorFilesystemContentMatch_eq_dec :
  EqDecision AdministratorFilesystemContentMatch.
Proof. solve_decision. Defined.
#[export] Instance AdministratorFilesystemErrorCode_eq_dec :
  EqDecision AdministratorFilesystemErrorCode.
Proof. solve_decision. Defined.
#[export] Instance AdministratorFilesystemResult_eq_dec : EqDecision AdministratorFilesystemResult.
Proof. solve_decision. Defined.
#[export] Instance BrokerRejectCode_eq_dec : EqDecision BrokerRejectCode.
Proof. solve_decision. Defined.
#[export] Instance BrokerRequest_eq_dec : EqDecision BrokerRequest.
Proof. solve_decision. Defined.
#[export] Instance BrokerResponse_eq_dec : EqDecision BrokerResponse.
Proof. solve_decision. Defined.
#[export] Instance BrokerRequestEnvelope_eq_dec : EqDecision BrokerRequestEnvelope.
Proof. solve_decision. Defined.
#[export] Instance BrokerResponseEnvelope_eq_dec : EqDecision BrokerResponseEnvelope.
Proof. solve_decision. Defined.
#[export] Instance ServerHello_eq_dec : EqDecision ServerHello.
Proof. solve_decision. Defined.
#[export] Instance BrokerReady_eq_dec : EqDecision BrokerReady.
Proof. solve_decision. Defined.

(** ** Validation *)

(** [valid.then_some(()).ok_or(MalformedFrame)]. *)
Definition require (valid : bool) : result BrokerProtocolError unit :=
  if valid then Ok () else Err MalformedFrame.

(* @src privilege/protocol.rs:182-208 ElevatedExecSpec::validate *)
Definition validate_exec (self : ElevatedExecSpec) : result BrokerProtocolError unit :=
  if bool_decide (es_program self = []) ||
     (MAX_ELEVATED_STRING_BYTES <? len (es_program self)) ||
     negb (is_absolute (es_program self)) ||
     is_windows_verbatim_path (es_program self) ||
     (MAX_ELEVATED_ARGS <? length (es_args self))%nat ||
     existsb (λ arg, (MAX_ELEVATED_STRING_BYTES <? len arg) || has_nul arg) (es_args self) ||
     has_nul (es_program self) ||
     is_some_and (λ value, bool_decide (value = []) ||
       (MAX_ELEVATED_STRING_BYTES <? len value) || has_nul value ||
       negb (is_absolute value) || is_windows_verbatim_path value) (es_workdir self) ||
     (es_timeout_ms self =? 0) ||
     (MAX_ELEVATED_TIMEOUT_MS <? es_timeout_ms self) ||
     (es_max_output_bytes self =? 0) ||
     (MAX_ELEVATED_OUTPUT_BYTES <? es_max_output_bytes self)
  then Err MalformedFrame else Ok ().

(* @src privilege/protocol.rs:697-711 valid_privileged_absolute_path *)
Definition valid_privileged_absolute_path (value : ustr) : bool :=
  if bool_decide (value = []) || (MAX_ELEVATED_STRING_BYTES <? len value) || has_nul value ||
     has_line_break value || is_windows_verbatim_path value
  then false
  else is_absolute value && negb (existsb is_parent_dir (components value)).

(* @src privilege/protocol.rs:713-715 valid_sha256 *)
Definition valid_sha256 (value : ustr) : bool :=
  Nat.eqb (byte_len value) 64 && forallb is_ascii_hexdigit (utf8_encode value).

(* @src privilege/protocol.rs:717-723 valid_elevated_request_id *)
Definition valid_elevated_request_id (value : ustr) : bool :=
  negb (bool_decide (value = [])) && (len value <=? MAX_ELEVATED_REQUEST_ID_BYTES) &&
  forallb (λ b, is_ascii_alphanumeric b || (b =? 0x2D) || (b =? 0x5F) || (b =? 0x3A) || (b =? 0x2E))
    (utf8_encode value).

(* @src privilege/protocol.rs:252-282 PrivilegedFilesystemSpec::validate *)
Definition validate_privileged (self : PrivilegedFilesystemSpec) :
    result BrokerProtocolError unit :=
  if negb (valid_privileged_absolute_path (pf_path self)) ||
     is_some_and (λ value, negb (valid_privileged_absolute_path value)) (pf_destination self) ||
     is_some_and (λ value, (div_ceil MAX_PRIVILEGED_FILE_BYTES 3 * 4 <? len value) || has_nul value)
       (pf_content_base64 self)
  then Err MalformedFrame else
  require match pf_action self with
  | ReadFile | CreateDirectory =>
      is_none (pf_destination self) && is_none (pf_content_base64 self) && negb (pf_recursive self)
  | WriteFile =>
      is_none (pf_destination self) && is_some (pf_content_base64 self) && negb (pf_recursive self)
  | Rename =>
      is_some (pf_destination self) && is_none (pf_content_base64 self) && negb (pf_recursive self)
  | Delete => is_none (pf_destination self) && is_none (pf_content_base64 self)
  end.

(** [a.zip(b).is_none_or(|(min, max)| min <= max)]. *)
Definition ordered_bounds (min max : option N) : bool :=
  match min, max with Some min, Some max => min <=? max | _, _ => true end.

Definition bounded_edit_text (value : ustr) : bool :=
  (len value <=? MAX_ADMINISTRATOR_FILESYSTEM_EDIT_BYTES) && negb (has_nul value).

(** Every field of [workspace_fields] occurs once and names a path that is given. *)
Fixpoint workspace_fields_valid (self : AdministratorFilesystemSpec)
    (seen fields : list AdministratorWorkspacePathField) : bool :=
  match fields with
  | [] => true
  | field :: fields =>
      negb (bool_decide (field ∈ seen)) &&
      match field with
      | FieldPath => is_some (af_path self)
      | FieldSource => is_some (af_source self)
      | FieldDestination => is_some (af_destination self)
      end &&
      workspace_fields_valid self (field :: seen) fields
  end.

Definition admin_paths_valid (self : AdministratorFilesystemSpec) : bool :=
  is_none_or valid_privileged_absolute_path (af_path self) &&
  is_none_or valid_privileged_absolute_path (af_source self) &&
  is_none_or valid_privileged_absolute_path (af_destination self).

Definition admin_bounds_valid (self : AdministratorFilesystemSpec) : bool :=
  (0 <? af_max_depth self) && (af_max_depth self <=? 64) &&
  (0 <? af_max_entries self) && (af_max_entries self <=? 100000) &&
  (0 <? af_max_results self) && (af_max_results self <=? 10000) &&
  (0 <? af_max_bytes self) && (af_max_bytes self <=? 1024 * 1024) &&
  (0 <? af_max_file_bytes self) && (af_max_file_bytes self <=? 16 * 1024 * 1024) &&
  ordered_bounds (af_min_size self) (af_max_size self) &&
  ordered_bounds (af_modified_after_ms self) (af_modified_before_ms self).

Definition admin_content_valid (self : AdministratorFilesystemSpec) : bool :=
  is_none_or (λ value,
    (len value <=? div_ceil MAX_ADMINISTRATOR_FILESYSTEM_CONTENT_BYTES 3 * 4 + 4) &&
    negb (has_nul value)) (af_content_base64 self).

Definition admin_pattern_valid (self : AdministratorFilesystemSpec) : bool :=
  is_none_or (λ value, negb (bool_decide (value = [])) &&
    (len value <=? MAX_ELEVATED_STRING_BYTES) && negb (has_nul value) &&
    negb (has_line_break value)) (af_pattern self).

Definition admin_edit_valid (self : AdministratorFilesystemSpec) : bool :=
  is_none_or (λ value, negb (bool_decide (value = [])) && bounded_edit_text value) (af_old self) &&
  is_none_or bounded_edit_text (af_new self) &&
  is_none_or (λ value, negb (bool_decide (value = [])) && bounded_edit_text value) (af_patch self) &&
  is_none_or valid_sha256 (af_expected_sha256 self) &&
  (length (af_expected_files self) <=? 1000)%nat &&
  forallb (λ '(path, hash), negb (bool_decide (path = [])) &&
    (len path <=? MAX_ELEVATED_STRING_BYTES) && negb (has_nul path) && valid_sha256 hash)
    (af_expected_files self).

Definition admin_workspace_valid (self : AdministratorFilesystemSpec) : bool :=
  match af_workspace_root self, af_workspace_identity self with
  | None, None => bool_decide (af_workspace_fields self = [])
  | Some root, Some identity =>
      valid_privileged_absolute_path root && negb (bool_decide (identity = [])) &&
      (len identity <=? 128) && negb (has_nul identity) &&
      (negb (bool_decide (af_workspace_fields self = [])) ||
       bool_decide (af_action self = AdminPatch)) &&
      workspace_fields_valid self [] (af_workspace_fields self)
  | _, _ => false
  end.

Definition edit_fields_empty (self : AdministratorFilesystemSpec) : bool :=
  is_none (af_expected_sha256 self) && is_none (af_old self) && is_none (af_new self) &&
  is_none (af_patch self) && bool_decide (af_expected_files self = []).

(** The search filters that the other actions must not carry. *)
Definition no_filters (self : AdministratorFilesystemSpec) : bool :=
  is_none (af_kind self) && is_none (af_min_size self) && is_none (af_max_size self) &&
  is_none (af_modified_after_ms self) && is_none (af_modified_before_ms self).

Definition admin_shape_valid (self : AdministratorFilesystemSpec) : bool :=
  let one_path := is_some (af_path self) && is_none (af_source self) &&
                  is_none (af_destination self) in
  match af_action self with
  | AdminList | AdminStat | AdminRead | AdminDelete | AdminHash =>
      one_path && is_none (af_content_base64 self) && is_none (af_pattern self) &&
      no_filters self && edit_fields_empty self
  | AdminWrite =>
      one_path && is_some (af_content_base64 self) && is_none (af_pattern self) &&
      no_filters self && edit_fields_empty self
  | AdminReplace =>
      one_path && is_none (af_content_base64 self) && is_some (af_expected_sha256 self) &&
      is_some (af_old self) && is_some (af_new self) && is_none (af_patch self) &&
      bool_decide (af_expected_files self = []) && is_none (af_pattern self) && no_filters self
  | AdminPatch =>
      is_none (af_path self) && is_none (af_source self) && is_none (af_destination self) &&
      is_none (af_content_base64 self) && is_none (af_expected_sha256 self) &&
      is_none (af_old self) && is_none (af_new self) && is_some (af_patch self) &&
      is_none (af_pattern self) && no_filters self
  | AdminSearch =>
      one_path && is_none (af_content_base64 self) && is_some (af_pattern self) &&
      edit_fields_empty self
  | AdminSearchContent =>
      one_path && is_none (af_content_base64 self) && is_some (af_pattern self) &&
      no_filters self && edit_fields_empty self
  | AdminCopy | AdminMove =>
      is_none (af_path self) && is_some (af_source self) && is_some (af_destination self) &&
      is_none (af_content_base64 self) && is_none (af_pattern self) && no_filters self &&
      edit_fields_empty self
  end.

(* @src privilege/protocol.rs:412-620 AdministratorFilesystemSpec::validate *)
Definition validate_administrator (self : AdministratorFilesystemSpec) :
    result BrokerProtocolError unit :=
  if negb (admin_paths_valid self) || negb (admin_bounds_valid self) ||
     negb (admin_content_valid self) || negb (admin_pattern_valid self) ||
     negb (admin_edit_valid self) || negb (admin_workspace_valid self)
  then Err MalformedFrame
  else require (admin_shape_valid self).

(** ** Sessions *)

(* @src privilege/protocol.rs:745-749 BrokerSession *)
Record BrokerSession := MkBrokerSession {
  bs_generation : N;
  bs_session_nonce : SessionNonce;
  bs_last_sequence : N
}.
#[export] Instance eta_BrokerSession : Eta BrokerSession := λ r,
  MkBrokerSession (bs_generation r) (bs_session_nonce r) (bs_last_sequence r).

(* @src privilege/protocol.rs:752-761 BrokerSession::new *)
Definition session_new (generation : N) (session_nonce : SessionNonce) :
    result BrokerProtocolError BrokerSession :=
  if generation =? 0 then Err StaleGeneration
  else Ok (MkBrokerSession generation session_nonce 0).

(* @src privilege/protocol.rs:768-786 BrokerSession::validate_request *)
Definition validate_request (request : BrokerRequestEnvelope) (self : BrokerSession) :
    BrokerSession * result BrokerProtocolError unit :=
  if negb (bre_version request =? BROKER_PROTOCOL_VERSION) then (self, Err ProtocolMismatch)
  else if negb (bre_generation request =? bs_generation self) then (self, Err StaleGeneration)
  else if negb (bool_decide (bre_session_nonce request = bs_session_nonce self))
  then (self, Err SessionMismatch)
  else if (bre_sequence request =? 0) || (bre_sequence request <=? bs_last_sequence self)
  then (self, Err Replay)
  else (self <| bs_last_sequence := bre_sequence request |>, Ok ()).

(** ** Frames *)

(** [serde_json::to_vec] and [from_slice]: what was written reads back. *)
Class Serde (T : Type) := {
  to_vec : T → option bytes;
  from_slice : bytes → option T;
  from_slice_to_vec v payload : to_vec v = Some payload → from_slice payload = Some v
}.

Section frames.
Context {T : Type} `{!Serde T}.

(* @src privilege/protocol.rs:789-798 encode_frame *)
Definition encode_frame (value : T) : result BrokerProtocolError bytes :=
  payload ← ok_or MalformedFrame (to_vec value);
  if bool_decide (payload = []) then Err EmptyFrame
  else if MAX_BROKER_FRAME_BYTES <? N.of_nat (length payload) then Err OversizedFrame
  else Ok payload.

(* @src privilege/protocol.rs:800-811 decode_frame *)
Definition decode_frame (payload : bytes) : result BrokerProtocolError T :=
  if bool_decide (payload = []) then Err EmptyFrame
  else if MAX_BROKER_FRAME_BYTES <? N.of_nat (length payload) then Err OversizedFrame
  else ok_or MalformedFrame (from_slice payload).

Lemma decode_encode_frame value payload :
  encode_frame value = Ok payload → decode_frame payload = Ok value.
Proof.
  unfold encode_frame, decode_frame. destruct (to_vec value) as [p|] eqn:Hv; simpl; [|done].
  case_bool_decide as Hne; [done|]. case_match eqn:Hlen; [done|]. intros [= <-].
  rewrite bool_decide_false by done. rewrite Hlen. by rewrite (from_slice_to_vec _ _ Hv).
Qed.
End frames.
