(* ===== verification/BrokerPipe.v ===== *)
(** * BrokerPipe: frames over the named pipe

    [NamedPipeConnection::write_frame] and [read_frame] of
    [src/src-tauri/src/privilege/windows.rs]: a length and a payload, written
    and read in as many pieces as the kernel likes.  The outcomes of [WriteFile]
    and [ReadFile] are arguments; a list of them that ends early is a call that
    still blocks. *)

From S2P Require Import Prelude Text BrokerProtocol.
#[local] Open Scope N_scope.

(* @src privilege/windows.rs:102-113 PrivilegeIpcError *)
Inductive PrivilegeIpcError :=
  | RandomUnavailable | CurrentUserSidUnavailable | SecurityDescriptorUnavailable
  | PipeCreateFailed (code : N) | PipeConnectFailed (code : N)
  | UnauthorizedPeer (expected_pid actual_pid : N)
  | Disconnected
  | IoFailed (operation : string) (code : N)
  | IpcEmptyFrame
  | IpcOversizedFrame.

(** One call of the kernel: at most so many bytes, or an error code. *)
Inductive IoOutcome := IoDone (count : nat) | IoError (code : N).

Definition ERROR_BROKEN_PIPE : N := 109.

(** What a call leaves: the outcomes not used, and the result unless it blocks. *)
Record IoState := MkIoState {
  io_calls : list IoOutcome;
  io_result : option (result PrivilegeIpcError unit)
}.

(** The bytes that reach the pipe, and how the loop ends. *)
(* @src privilege/windows.rs:866-890 NamedPipeConnection::write_all *)
Fixpoint write_all (calls : list IoOutcome) (b : bytes) : bytes * IoState :=
  match b with
  | [] => ([], MkIoState calls (Some (Ok ())))
  | _ =>
      match calls with
      | [] => ([], MkIoState [] None)
      | IoError code :: calls => ([], MkIoState calls (Some (Err (IoFailed "WriteFile" code))))
      | IoDone 0 :: calls => ([], MkIoState calls (Some (Err Disconnected)))
      | IoDone count :: calls =>
          let '(written, io) := write_all calls (drop count b) in
          (take count b ++ written, io)
      end
  end.

(** Reads [want] bytes off the [stream]: the bytes read, the rest of the stream. *)
(* @src privilege/windows.rs:892-922 NamedPipeConnection::read_exact *)
Fixpoint read_exact (calls : list IoOutcome) (stream : bytes) (want : nat) :
    bytes * bytes * IoState :=
  match want with
  | 0%nat => ([], stream, MkIoState calls (Some (Ok ())))
  | _ =>
      match calls with
      | [] => ([], stream, MkIoState [] None)
      | IoError code :: calls =>
          ([], stream, MkIoState calls (Some (Err
             (if code =? ERROR_BROKEN_PIPE then Disconnected else IoFailed "ReadFile" code))))
      | IoDone count :: calls =>
          let read := Nat.min (Nat.min count want) (length stream) in
          match read with
          | 0%nat => ([], stream, MkIoState calls (Some (Err Disconnected)))
          | _ =>
              let '(got, rest, io) := read_exact calls (drop read stream) (want - read) in
              (take read stream ++ got, rest, io)
          end
      end
  end.

(** [u32::to_le_bytes] and [from_le_bytes]. *)
Definition to_le_bytes (n : N) : bytes :=
  [n mod 256; n / 256 mod 256; n / 65536 mod 256; n / 16777216 mod 256].
Definition from_le_bytes (b : bytes) : N :=
  foldr (λ byte acc, byte + 256 * acc) 0 b.

(** [flush] is the outcome of [FlushFileBuffers]. *)
(* @src privilege/windows.rs:833-849 NamedPipeConnection::write_frame *)
Definition write_frame (calls : list IoOutcome) (flush : option N) (payload : bytes) :
    bytes * IoState :=
  if bool_decide (payload = []) then ([], MkIoState calls (Some (Err IpcEmptyFrame)))
  else if MAX_BROKER_FRAME_BYTES <? N.of_nat (length payload)
  then ([], MkIoState calls (Some (Err IpcOversizedFrame)))
  else
    let '(head, io) := write_all calls (to_le_bytes (N.of_nat (length payload))) in
    match io_result io with
    | Some (Ok _) =>
        let '(body, io) := write_all (io_calls io) payload in
        (head ++ body,
         match io_result io, flush with
         | Some (Ok _), Some code =>
             MkIoState (io_calls io) (Some (Err (IoFailed "FlushFileBuffers" code)))
         | _, _ => io
         end)
    | _ => (head, io)
    end.

(** The payload, when a whole frame was read, and the rest of the stream. *)
(* @src privilege/windows.rs:851-864 NamedPipeConnection::read_frame *)
Definition read_frame (calls : list IoOutcome) (stream : bytes) :
    option (result PrivilegeIpcError bytes) * bytes :=
  let '(head, stream, io) := read_exact calls stream 4 in
  match io_result io with
  | None => (None, stream)
  | Some (Err e) => (Some (Err e), stream)
  | Some (Ok _) =>
      let length := from_le_bytes head in
      if length =? 0 then (Some (Err IpcEmptyFrame), stream)
      else if MAX_BROKER_FRAME_BYTES <? length then (Some (Err IpcOversizedFrame), stream)
      else
        let '(payload, stream, io) := read_exact (io_calls io) stream (N.to_nat length) in
        match io_result io with
        | None => (None, stream)
        | Some (Err e) => (Some (Err e), stream)
        | Some (Ok _) => (Some (Ok payload), stream)
        end
  end.

(** ** Frames survive partial reads and writes *)

(** Calls that all transfer something. *)
Definition progress (calls : list IoOutcome) : Prop :=
  Forall (λ c, match c with IoDone (S _) => True | _ => False end) calls.

Lemma write_all_progress calls b :
  progress calls → (length b ≤ length calls)%nat →
  ∃ used rest, calls = used ++ rest ∧ (length used ≤ length b)%nat ∧
    write_all calls b = (b, MkIoState rest (Some (Ok ()))).
Proof.
  intros Hp. revert b. induction Hp as [|c calls Hc Hp IH]; intros [|x b]; simpl.
  - intros _. by exists [], [].
  - lia.
  - intros _. exists [], (c :: calls). auto with lia.
  - intros Hlen. destruct c as [[|n]|]; [done| |done].
    destruct (IH (drop n b)) as (used & rest & -> & Hused & Hw).
    { rewrite length_drop. lia. }
    exists (IoDone (S n) :: used), rest. split_and!; [done| |].
    + simpl. rewrite length_drop in Hused. lia.
    + rewrite skipn_cons, Hw. by rewrite firstn_cons, <-app_comm_cons, take_drop.
Qed.

Lemma read_exact_progress calls stream want :
  progress calls → (want ≤ length calls)%nat → (want ≤ length stream)%nat →
  ∃ used rest, calls = used ++ rest ∧ (length used ≤ want)%nat ∧
    read_exact calls stream want =
      (take want stream, drop want stream, MkIoState rest (Some (Ok ()))).
Proof.
  intros Hp. revert stream want.
  induction Hp as [|c calls Hc Hp IH]; intros stream [|want].
  - intros _ _. by exists [], [].
  - simpl. lia.
  - intros _ _. exists [], (c :: calls). simpl. auto with lia.
  - intros Hlen Hs. destruct c as [[|n]|]; [done| |done]. cbn [read_exact].
    destruct (Nat.min (Nat.min (S n) (S want)) (length stream)) as [|r] eqn:Hr; [lia|].
    destruct (IH (drop (S r) stream) (S want - S r)%nat) as (used & rest & -> & Hused & Hw).
    { simpl in *. lia. } { rewrite length_drop. lia. }
    exists (IoDone (S n) :: used), rest. split_and!; [done|simpl in *; lia|].
    cbv zeta. rewrite Hw, drop_drop.
    assert (take (S r) stream ++ take (S want - S r) (drop (S r) stream) = take (S want) stream) as ->.
    { rewrite <-(take_drop (S r) (take (S want) stream)).
      rewrite take_take, skipn_firstn_comm. f_equal. f_equal. lia. }
    do 4 f_equal. lia.
Qed.

Lemma from_to_le_bytes n : n < 2 ^ 32 → from_le_bytes (to_le_bytes n) = n.
Proof.
  intros Hn. unfold from_le_bytes, to_le_bytes. simpl.
  pose proof (N.div_mod n 256). pose proof (N.div_mod (n / 256) 256).
  pose proof (N.div_mod (n / 65536) 256).
  assert (n / 65536 = n / 256 / 256) as Hd1 by (rewrite N.Div0.div_div; done).
  assert (n / 16777216 = n / 65536 / 256) as Hd2 by (rewrite N.Div0.div_div; done).
  assert (n / 16777216 < 256) by (apply N.Div0.div_lt_upper_bound; lia).
  rewrite (N.mod_small (n / 16777216)) by done. lia.
Qed.

(** A frame survives the pipe: however the kernel cuts the writes and
    the reads into pieces, writing a payload of an allowed size and reading it back
    returns exactly the payload and leaves exactly what followed it, so frames never
    run into each other. *)
Theorem frame_roundtrip payload wcalls rcalls later :
  payload ≠ [] → N.of_nat (length payload) ≤ MAX_BROKER_FRAME_BYTES →
  progress wcalls → (4 + length payload ≤ length wcalls)%nat →
  progress rcalls → (4 + length payload ≤ length rcalls)%nat →
  ∃ written calls, write_frame wcalls None payload = (written, MkIoState calls (Some (Ok ()))) ∧
    read_frame rcalls (written ++ later) = (Some (Ok payload), later).
Proof.
  intros Hne Hmax Hw Hwl Hr Hrl.
  assert (N.of_nat (length payload) < 2 ^ 32) as Hsmall.
  { unfold MAX_BROKER_FRAME_BYTES in Hmax. lia. }
  apply N.ltb_ge in Hmax.
  set (header := to_le_bytes (N.of_nat (length payload))).
  assert (length header = 4%nat) as Hh by done.
  destruct (write_all_progress wcalls header) as (used & rest & -> & Hused & Hw1); [done|lia|].
  apply Forall_app in Hw as [_ Hw]. rewrite length_app in Hwl.
  destruct (write_all_progress rest payload) as (used2 & rest2 & -> & _ & Hw2); [done|lia|].
  exists (header ++ payload), rest2. split.
  { unfold write_frame. rewrite bool_decide_false by done.
    rewrite Hmax. fold header. rewrite Hw1. cbn [io_result io_calls]. by rewrite Hw2. }
  destruct (read_exact_progress rcalls ((header ++ payload) ++ later) 4)
    as (ur & rr & -> & Hur & Hr1); [done|lia|rewrite !length_app; lia|].
  apply Forall_app in Hr as [_ Hr]. rewrite length_app in Hrl.
  assert (take 4 ((header ++ payload) ++ later) = header) as Ht.
  { rewrite <-(assoc_L (++)). by apply take_app_length'. }
  assert (drop 4 ((header ++ payload) ++ later) = payload ++ later) as Hd.
  { rewrite <-(assoc_L (++)). by apply drop_app_length'. }
  destruct (read_exact_progress rr (payload ++ later) (length payload))
    as (ur2 & rr2 & -> & _ & Hr2); [done|lia|rewrite length_app; lia|].
  unfold read_frame. rewrite Hr1, Ht, Hd. cbn [io_result io_calls].
  unfold header. rewrite from_to_le_bytes, Nat2N.id by done.
  destruct (N.eqb_spec (N.of_nat (length payload)) 0) as [H0|_]; [by destruct payload|].
  rewrite Hmax.
  rewrite Hr2. cbn [io_result]. by rewrite take_app_length, drop_app_length.
Qed.

Lemma frame_roundtrip_witness :
  ∃ written calls,
    write_frame (repeat (IoDone 3) 8) None (lit "ping") = (written, MkIoState calls (Some (Ok ()))) ∧
    read_frame (repeat (IoDone 1) 8) (written ++ [7]) = (Some (Ok (lit "ping")), [7]).
Proof.
  apply (frame_roundtrip (lit "ping") (repeat (IoDone 3) 8) (repeat (IoDone 1) 8) [7]).
  - done.
  - by vm_compute.
  - repeat constructor.
  - simpl. lia.
  - repeat constructor.
  - simpl. lia.
Defined.
