(* ===== verification/Broker.v ===== *)
(** * Broker: the privileged broker and its client

    [src/src-tauri/src/privilege/broker.rs].  The broker runs elevated in a
    process of its own and serves one client over the pipe; the client numbers
    its requests.  Workers, the file system and the clock are answers of the
    environment ([Answers]), taken for every request anew; what the broker asks
    of them is recorded as [BrokerEffect]s. *)

From S2P Require Import Prelude Text BrokerProtocol BrokerPipe.
#[local] Open Scope N_scope.

(* @src privilege/broker.rs:18-18 MAX_ACTIVE_BROKER_REQUESTS *)
Definition MAX_ACTIVE_BROKER_REQUESTS : nat := 32.

(** ** The broker's requests *)

(** [mpsc::Receiver::try_recv]. *)
Inductive TryRecv (A : Type) := Received (a : A) | TryEmpty | TryDisconnected.
Arguments Received {A} a.
Arguments TryEmpty {A}.
Arguments TryDisconnected {A}.

(** The worker's cancellation flag; its receiver is asked through [Answers]. *)
(* @src privilege/broker.rs:20-23 ActiveExecution *)
Record ActiveExecution := MkActiveExecution { ae_cancelled : bool }.
(* @src privilege/broker.rs:25-30 ActiveStructuredFilesystem *)
Record ActiveStructuredFilesystem := MkActiveStructuredFilesystem { af_cancelled : bool }.

(* @src privilege/broker.rs:33-36 BrokerRequestOwner *)
Record BrokerRequestOwner := MkBrokerRequestOwner {
  bo_executions : gmap ustr ActiveExecution;
  bo_structured_filesystems : gmap ustr ActiveStructuredFilesystem
}.
#[export] Instance eta_BrokerRequestOwner : Eta BrokerRequestOwner := λ r,
  MkBrokerRequestOwner (bo_executions r) (bo_structured_filesystems r).

Definition owner_default : BrokerRequestOwner := MkBrokerRequestOwner ∅ ∅.

(* @src privilege/broker.rs:39-42 BrokerRequestOwner::contains *)
Definition owner_contains (request_id : ustr) (self : BrokerRequestOwner) : bool :=
  bool_decide (is_Some (bo_executions self !! request_id)) ||
  bool_decide (is_Some (bo_structured_filesystems self !! request_id)).

(* @src privilege/broker.rs:44-46 BrokerRequestOwner::len *)
Definition owner_len (self : BrokerRequestOwner) : nat :=
  size (bo_executions self) + size (bo_structured_filesystems self).

(* @src privilege/broker.rs:48-55 BrokerRequestOwner::cancel_owned *)
Definition cancel_owned (self : BrokerRequestOwner) : BrokerRequestOwner :=
  MkBrokerRequestOwner ((λ _, MkActiveExecution true) <$> bo_executions self)
    ((λ _, MkActiveStructuredFilesystem true) <$> bo_structured_filesystems self).

(* @src privilege/broker.rs:64-75 broker_request_admission *)
Definition broker_request_admission (duplicate : bool) (active_requests : nat) :
    result BrokerRejectCode unit :=
  if duplicate then Err RejectDuplicateRequest
  else if (MAX_ACTIVE_BROKER_REQUESTS <=? active_requests)%nat then Err RejectCapacityExceeded
  else Ok ().

(* @src privilege/broker.rs:78-81 BrokerProcessArgs *)
Record BrokerProcessArgs := MkBrokerProcessArgs {
  ba_pipe_name : ustr;
  ba_generation : N
}.

(* @src privilege/broker.rs:84-90 BrokerRunError *)
Inductive BrokerRunError :=
  | InvalidArguments
  | Ipc (e : PrivilegeIpcError)
  | Protocol (e : BrokerProtocolError)
  | HandshakeMismatch
  | UnexpectedResponse.

(** [str::parse::<u64>()] is an argument: [None] where it fails. *)
Fixpoint parse_args (parse_u64 : ustr → option N) (fuel : nat) (args : list ustr)
    (pipe_name : option ustr) (generation : option N) :
    result BrokerRunError (option ustr * option N) :=
  match fuel, args with
  | _, [] => Ok (pipe_name, generation)
  | 0%nat, _ => Err InvalidArguments
  | S fuel, flag :: args =>
      if bool_decide (flag = lit "--pipe") && is_none pipe_name
      then parse_args parse_u64 fuel (tail args) (head args) generation
      else if bool_decide (flag = lit "--generation") && is_none generation
      then parse_args parse_u64 fuel (tail args) pipe_name (head args ≫= parse_u64)
      else Err InvalidArguments
  end.

(* @src privilege/broker.rs:119-146 parse_broker_args *)
Definition parse_broker_args (parse_u64 : ustr → option N) (args : list ustr) :
    result BrokerRunError BrokerProcessArgs :=
  '(pipe_name, generation) ← parse_args parse_u64 (length args) args None None;
  pipe_name ← ok_or InvalidArguments
    (name ← pipe_name; if is_valid_broker_pipe_name name then Some name else None);
  generation ← ok_or InvalidArguments
    (g ← generation; if 0 <? g then Some g else None);
  Ok (MkBrokerProcessArgs pipe_name generation).

(** ** Handling a request *)

(** What the environment answers while one request is handled. *)
Record Answers := MkAnswers {
  an_spawned : bool;
  an_exec : TryRecv (result unit ElevatedExecResult);
  an_structured : TryRecv (result AdministratorFilesystemErrorCode AdministratorFilesystemResult);
  an_privileged : result unit PrivilegedFilesystemResult;
  an_administrator : result AdministratorFilesystemErrorCode AdministratorFilesystemResult
}.

Inductive BrokerEffect :=
  | SpawnExec (request_id : ustr) (spec : ElevatedExecSpec)
  | SpawnFilesystem (request_id : ustr) (spec : AdministratorFilesystemSpec)
  | RunPrivilegedFilesystem (spec : PrivilegedFilesystemSpec)
  | RunAdministratorFilesystem (spec : AdministratorFilesystemSpec).

(** A handled request: the owner after it, what it set in motion and the response;
    an error ends the process. *)
Record Handled := MkHandled {
  h_owner : BrokerRequestOwner;
  h_effects : list BrokerEffect;
  h_response : result BrokerRunError BrokerResponse
}.

Definition respond (owned : BrokerRequestOwner) (response : BrokerResponse) : Handled :=
  MkHandled owned [] (Ok response).
Definition reject (owned : BrokerRequestOwner) (code : BrokerRejectCode) : Handled :=
  respond owned (Rejected code).

(* @src privilege/broker.rs:184-208 run_broker_process *)
Definition handle_start_exec (answers : Answers) (request_id : ustr) (spec : ElevatedExecSpec)
    (owned : BrokerRequestOwner) : Handled :=
  if negb (valid_elevated_request_id request_id) || negb (is_ok (validate_exec spec))
  then reject owned RejectMalformed
  else match broker_request_admission (owner_contains request_id owned) (owner_len owned) with
  | Err code => reject owned code
  | Ok _ =>
      if an_spawned answers then
        MkHandled (owned <| bo_executions ::= insert request_id (MkActiveExecution false) |>)
          [SpawnExec request_id spec] (Ok ExecAccepted)
      else MkHandled owned [] (Err UnexpectedResponse)
  end.

(* @src privilege/broker.rs:209-235 run_broker_process *)
Definition handle_poll_exec (answers : Answers) (request_id : ustr) (owned : BrokerRequestOwner) :
    Handled :=
  if negb (valid_elevated_request_id request_id) then reject owned RejectMalformed
  else match bo_executions owned !! request_id with
  | None => reject owned RejectRequestNotFound
  | Some _ =>
      let removed := owned <| bo_executions ::= delete request_id |> in
      match an_exec answers with
      | Received (Ok execution) => respond removed (ExecCompleted execution)
      | Received (Err _) | TryDisconnected => reject removed RejectExecutionFailed
      | TryEmpty => respond owned ExecPending
      end
  end.

(* @src privilege/broker.rs:236-249 run_broker_process *)
Definition handle_cancel_exec (request_id : ustr) (owned : BrokerRequestOwner) : Handled :=
  if negb (valid_elevated_request_id request_id) then reject owned RejectMalformed
  else match bo_executions owned !! request_id with
  | Some _ =>
      respond (owned <| bo_executions ::= insert request_id (MkActiveExecution true) |>) CancelAck
  | None => reject owned RejectRequestNotFound
  end.

(* @src privilege/broker.rs:250-263 run_broker_process *)
Definition handle_filesystem (answers : Answers) (spec : PrivilegedFilesystemSpec)
    (owned : BrokerRequestOwner) : Handled :=
  if negb (is_ok (validate_privileged spec)) then reject owned RejectMalformed
  else MkHandled owned [RunPrivilegedFilesystem spec]
    (Ok match an_privileged answers with
        | Ok filesystem => FilesystemCompleted filesystem
        | Err _ => Rejected RejectExecutionFailed
        end).

(* @src privilege/broker.rs:264-277 run_broker_process *)
Definition handle_structured_filesystem (answers : Answers) (spec : AdministratorFilesystemSpec)
    (owned : BrokerRequestOwner) : Handled :=
  if negb (is_ok (validate_administrator spec)) then reject owned RejectMalformed
  else MkHandled owned [RunAdministratorFilesystem spec]
    (Ok match an_administrator answers with
        | Ok filesystem => StructuredFilesystemCompleted filesystem
        | Err code => StructuredFilesystemFailed code
        end).

(* @src privilege/broker.rs:278-306 run_broker_process *)
Definition handle_start_structured (answers : Answers) (request_id : ustr)
    (spec : AdministratorFilesystemSpec) (owned : BrokerRequestOwner) : Handled :=
  if negb (valid_elevated_request_id request_id) || negb (is_ok (validate_administrator spec))
  then reject owned RejectMalformed
  else match broker_request_admission (owner_contains request_id owned) (owner_len owned) with
  | Err code => reject owned code
  | Ok _ =>
      if an_spawned answers then
        MkHandled
          (owned <| bo_structured_filesystems ::=
             insert request_id (MkActiveStructuredFilesystem false) |>)
          [SpawnFilesystem request_id spec] (Ok StructuredFilesystemAccepted)
      else MkHandled owned [] (Err UnexpectedResponse)
  end.

(* @src privilege/broker.rs:307-337 run_broker_process *)
Definition handle_poll_structured (answers : Answers) (request_id : ustr)
    (owned : BrokerRequestOwner) : Handled :=
  if negb (valid_elevated_request_id request_id) then reject owned RejectMalformed
  else match bo_structured_filesystems owned !! request_id with
  | None => reject owned RejectRequestNotFound
  | Some _ =>
      let removed := owned <| bo_structured_filesystems ::= delete request_id |> in
      match an_structured answers with
      | Received (Ok filesystem) => respond removed (StructuredFilesystemCompleted filesystem)
      | Received (Err code) => respond removed (StructuredFilesystemFailed code)
      | TryDisconnected => reject removed RejectExecutionFailed
      | TryEmpty => respond owned StructuredFilesystemPending
      end
  end.

(* @src privilege/broker.rs:338-351 run_broker_process *)
Definition handle_cancel_structured (request_id : ustr) (owned : BrokerRequestOwner) : Handled :=
  if negb (valid_elevated_request_id request_id) then reject owned RejectMalformed
  else match bo_structured_filesystems owned !! request_id with
  | Some _ =>
      respond (owned <| bo_structured_filesystems ::=
        insert request_id (MkActiveStructuredFilesystem true) |>) CancelAck
  | None => reject owned RejectRequestNotFound
  end.

(** The [match] over the request of [run_broker_process]. *)
(* @src privilege/broker.rs:178-183 run_broker_process *)
Definition handle_request (answers : Answers) (request : BrokerRequest)
    (owned : BrokerRequestOwner) : Handled :=
  match request with
  | Ping => respond owned Pong
  | Shutdown => respond (cancel_owned owned) ShutdownAck
  | StartExec request_id spec => handle_start_exec answers request_id spec owned
  | PollExec request_id => handle_poll_exec answers request_id owned
  | CancelExec request_id => handle_cancel_exec request_id owned
  | Filesystem spec => handle_filesystem answers spec owned
  | StructuredFilesystem spec => handle_structured_filesystem answers spec owned
  | StartStructuredFilesystem request_id spec =>
      handle_start_structured answers request_id spec owned
  | PollStructuredFilesystem request_id => handle_poll_structured answers request_id owned
  | CancelStructuredFilesystem request_id => handle_cancel_structured request_id owned
  end.

(* @src privilege/broker.rs:366-377 reject_code *)
Definition reject_code (error : BrokerProtocolError) : BrokerRejectCode :=
  match error with
  | ProtocolMismatch => RejectProtocolMismatch
  | StaleGeneration => RejectStaleGeneration
  | SessionMismatch => RejectSessionMismatch
  | Replay => RejectReplay
  | EmptyFrame | MalformedFrame => RejectMalformed
  | OversizedFrame => RejectOversized
  end.

(** ** The broker's loop *)

Record BrokerState := MkBrokerState {
  st_session : BrokerSession;
  st_owned : BrokerRequestOwner
}.

(** How one turn of the loop ends. *)
Inductive Turn :=
  | Continue (state : BrokerState) (frame : bytes)
  | ShutDown (frame : bytes)
  | Failed (e : BrokerRunError).

(** [?] on a codec error. *)
Definition protocol {A} (r : result BrokerProtocolError A) : result BrokerRunError A :=
  map_err Protocol r.

Section broker.
Context `{!Serde BrokerRequestEnvelope, !Serde BrokerResponseEnvelope}.
Context `{!Serde ServerHello, !Serde BrokerReady}.

Definition encode_response (generation sequence : N) (response : BrokerResponse) :
    result BrokerRunError bytes :=
  protocol (encode_frame (MkBrokerResponseEnvelope BROKER_PROTOCOL_VERSION generation sequence
    response)).

(** The end of a turn: the response is framed, and a shutdown that was acknowledged
    ends the process. *)
(* @src privilege/broker.rs:352-363 run_broker_process (the response) *)
Definition broker_reply (session : BrokerSession) (sequence : N) (handled : Handled) : Turn :=
  match response ← h_response handled;
        frame ← encode_response (bs_generation session) sequence response;
        Ok (response, frame) with
  | Ok (ShutdownAck, frame) => ShutDown frame
  | Ok (_, frame) => Continue (MkBrokerState session (h_owner handled)) frame
  | Err e => Failed e
  end.

(** The state of the pipe is not part of a turn: the payload was read, and the frame
    is to be written. *)
(* @src privilege/broker.rs:163-177 run_broker_process (the request) *)
Definition broker_turn (answers : Answers) (payload : bytes) (state : BrokerState) :
    list BrokerEffect * Turn :=
  let generation := bs_generation (st_session state) in
  match protocol (decode_frame payload) with
  | Err e => ([], Failed e)
  | Ok envelope =>
      let sequence := bre_sequence envelope in
      match validate_request envelope (st_session state) with
      | (session, Err error) =>
          ([], match encode_response generation sequence (Rejected (reject_code error)) with
               | Ok frame => Continue (MkBrokerState session (st_owned state)) frame
               | Err e => Failed e
               end)
      | (session, Ok _) =>
          let handled := handle_request answers (bre_request envelope) (st_owned state) in
          (h_effects handled, broker_reply session sequence handled)
      end
  end.

(** The handshake of the broker: what it answers to the hello, and its session. *)
(* @src privilege/broker.rs:148-161 run_broker_process *)
Definition broker_handshake (args : BrokerProcessArgs) (payload : bytes) :
    result BrokerRunError (bytes * BrokerState) :=
  hello ← protocol (decode_frame payload);
  if negb (sh_version hello =? BROKER_PROTOCOL_VERSION) ||
     negb (sh_generation hello =? ba_generation args)
  then Err HandshakeMismatch else
  frame ← protocol (encode_frame (MkBrokerReady BROKER_PROTOCOL_VERSION (ba_generation args)
    (sh_session_nonce hello)));
  session ← protocol (session_new (ba_generation args) (sh_session_nonce hello));
  Ok (frame, MkBrokerState session owner_default).

(** A run over the payloads that arrive, until the process ends. *)
Fixpoint broker_run (turns : list (Answers * bytes)) (state : BrokerState) : list BrokerEffect :=
  match turns with
  | [] => []
  | (answers, payload) :: turns =>
      let '(effects, turn) := broker_turn answers payload state in
      effects ++ match turn with Continue state _ => broker_run turns state | _ => [] end
  end.

(** ** The client *)

(* @src privilege/broker.rs:379-384 BrokerClientSession *)
Record BrokerClientSession := MkBrokerClientSession {
  cs_generation : N;
  cs_session_nonce : SessionNonce;
  cs_next_sequence : N
}.

(** The first half of [handshake]: the hello to send, for a random nonce. *)
(* @src privilege/broker.rs:397-409 BrokerClientSession::handshake *)
Definition client_hello (generation : N) (session_nonce : SessionNonce) :
    result BrokerRunError bytes :=
  if generation =? 0 then Err HandshakeMismatch
  else protocol (encode_frame (MkServerHello BROKER_PROTOCOL_VERSION generation session_nonce)).

(** The second half of [handshake], on the frame that was read. *)
(* @src privilege/broker.rs:410-423 BrokerClientSession::handshake *)
Definition client_handshake (generation : N) (session_nonce : SessionNonce) (payload : bytes) :
    result BrokerRunError BrokerClientSession :=
  ready ← protocol (decode_frame payload);
  if negb (br_version ready =? BROKER_PROTOCOL_VERSION) || negb (br_generation ready =? generation) ||
     negb (bool_decide (br_session_nonce ready = session_nonce))
  then Err HandshakeMismatch
  else Ok (MkBrokerClientSession generation session_nonce 1).

(** The first half of [request]: the session after it and the frame to send.  The
    sequence number is used up even where encoding fails. *)
(* @src privilege/broker.rs:536-549 BrokerClientSession::request *)
Definition client_send (request : BrokerRequest) (self : BrokerClientSession) :
    BrokerClientSession * result BrokerRunError bytes :=
  let sequence := cs_next_sequence self in
  if u64_max <? sequence + 1 then (self, Err UnexpectedResponse) else
  (MkBrokerClientSession (cs_generation self) (cs_session_nonce self) (sequence + 1),
   protocol (encode_frame (MkBrokerRequestEnvelope BROKER_PROTOCOL_VERSION (cs_generation self)
     (cs_session_nonce self) sequence request))).

(** The second half of [request], on the frame that was read. *)
(* @src privilege/broker.rs:550-558 BrokerClientSession::request *)
Definition client_receive (sequence : N) (self : BrokerClientSession) (payload : bytes) :
    result BrokerRunError BrokerResponse :=
  response ← protocol (decode_frame payload);
  if negb (brs_version response =? BROKER_PROTOCOL_VERSION) ||
     negb (brs_generation response =? cs_generation self) ||
     negb (brs_sequence response =? sequence)
  then Err UnexpectedResponse
  else Ok (brs_response response).

(** What the client makes of a response, for each of its methods. *)
(* @src privilege/broker.rs:429-434 BrokerClientSession::ping *)
Definition expect_pong (r : BrokerResponse) : result BrokerRunError unit :=
  match r with Pong => Ok () | _ => Err UnexpectedResponse end.
(* @src privilege/broker.rs:436-441 BrokerClientSession::shutdown *)
Definition expect_shutdown (r : BrokerResponse) : result BrokerRunError unit :=
  match r with ShutdownAck => Ok () | _ => Err UnexpectedResponse end.
(* @src privilege/broker.rs:443-452 BrokerClientSession::start_exec *)
Definition expect_exec_accepted (r : BrokerResponse) : result BrokerRunError unit :=
  match r with ExecAccepted => Ok () | _ => Err UnexpectedResponse end.
(* @src privilege/broker.rs:454-463 BrokerClientSession::poll_exec *)
Definition expect_exec (r : BrokerResponse) : result BrokerRunError (option ElevatedExecResult) :=
  match r with
  | ExecPending => Ok None
  | ExecCompleted execution => Ok (Some execution)
  | _ => Err UnexpectedResponse
  end.
(* @src privilege/broker.rs:465-470 BrokerClientSession::cancel_exec *)
Definition expect_cancel (r : BrokerResponse) : result BrokerRunError unit :=
  match r with CancelAck => Ok () | _ => Err UnexpectedResponse end.
(* @src privilege/broker.rs:472-480 BrokerClientSession::filesystem *)
Definition expect_filesystem (r : BrokerResponse) :
    result BrokerRunError PrivilegedFilesystemResult :=
  match r with FilesystemCompleted filesystem => Ok filesystem | _ => Err UnexpectedResponse end.
(* @src privilege/broker.rs:482-494 BrokerClientSession::structured_filesystem *)
Definition expect_structured (r : BrokerResponse) : result BrokerRunError
    (result AdministratorFilesystemErrorCode AdministratorFilesystemResult) :=
  match r with
  | StructuredFilesystemCompleted filesystem => Ok (Ok filesystem)
  | StructuredFilesystemFailed code => Ok (Err code)
  | _ => Err UnexpectedResponse
  end.
(* @src privilege/broker.rs:496-505 BrokerClientSession::start_structured_filesystem *)
Definition expect_structured_accepted (r : BrokerResponse) : result BrokerRunError unit :=
  match r with StructuredFilesystemAccepted => Ok () | _ => Err UnexpectedResponse end.
(* @src privilege/broker.rs:507-524 BrokerClientSession::poll_structured_filesystem *)
Definition expect_structured_poll (r : BrokerResponse) : result BrokerRunError
    (option (result AdministratorFilesystemErrorCode AdministratorFilesystemResult)) :=
  match r with
  | StructuredFilesystemPending => Ok None
  | StructuredFilesystemCompleted filesystem => Ok (Some (Ok filesystem))
  | StructuredFilesystemFailed code => Ok (Some (Err code))
  | _ => Err UnexpectedResponse
  end.
(* @src privilege/broker.rs:526-534 BrokerClientSession::cancel_structured_filesystem *)
Definition expect_structured_cancel (r : BrokerResponse) : result BrokerRunError unit :=
  expect_cancel r.
End broker.

(** ** The owner's invariant *)

Record owner_ok (owned : BrokerRequestOwner) : Prop := MkOwnerOk {
  owner_bounded : (owner_len owned ≤ MAX_ACTIVE_BROKER_REQUESTS)%nat;
  owner_disjoint id : is_Some (bo_executions owned !! id) →
    bo_structured_filesystems owned !! id = None;
  owner_ids_valid id :
    is_Some (bo_executions owned !! id) ∨ is_Some (bo_structured_filesystems owned !! id) →
    valid_elevated_request_id id = true
}.

Lemma owner_default_ok : owner_ok owner_default.
Proof.
  split; unfold owner_default, owner_len; simpl.
  - rewrite !map_size_empty. unfold MAX_ACTIVE_BROKER_REQUESTS. lia.
  - intros id. by rewrite lookup_empty, is_Some_alt.
  - intros id. rewrite !lookup_empty, is_Some_alt. by intros [[]|[]].
Qed.

Lemma admission_Ok duplicate active :
  broker_request_admission duplicate active = Ok () →
  duplicate = false ∧ (active < MAX_ACTIVE_BROKER_REQUESTS)%nat.
Proof.
  unfold broker_request_admission. destruct duplicate; [done|].
  destruct (Nat.leb_spec MAX_ACTIVE_BROKER_REQUESTS active); [done|auto].
Qed.

Lemma owner_contains_false id owned :
  owner_contains id owned = false →
  bo_executions owned !! id = None ∧ bo_structured_filesystems owned !! id = None.
Proof.
  unfold owner_contains. intros [H1 H2]%orb_false_iff.
  rewrite !bool_decide_eq_false, <-!eq_None_not_Some in *. done.
Qed.

(** Adding a fresh, valid id below the bound. *)
Lemma owner_ok_insert_exec id w owned :
  owner_ok owned → owner_contains id owned = false →
  (owner_len owned < MAX_ACTIVE_BROKER_REQUESTS)%nat → valid_elevated_request_id id = true →
  owner_ok (owned <| bo_executions ::= insert id w |>).
Proof.
  intros [Hb Hd Hv] [He Hf]%owner_contains_false Hlt Hid. destruct owned as [ex fs]. simpl in *.
  split; unfold owner_len in *; simpl in *.
  - rewrite map_size_insert_None by done. lia.
  - intros i. destruct (decide (i = id)) as [->|]; [done|].
    rewrite lookup_insert_ne by done. apply Hd.
  - intros i. destruct (decide (i = id)) as [->|]; [done|].
    rewrite lookup_insert_ne by done. apply Hv.
Qed.

Lemma owner_ok_insert_structured id w owned :
  owner_ok owned → owner_contains id owned = false →
  (owner_len owned < MAX_ACTIVE_BROKER_REQUESTS)%nat → valid_elevated_request_id id = true →
  owner_ok (owned <| bo_structured_filesystems ::= insert id w |>).
Proof.
  intros [Hb Hd Hv] [He Hf]%owner_contains_false Hlt Hid. destruct owned as [ex fs]. simpl in *.
  split; unfold owner_len in *; simpl in *.
  - rewrite map_size_insert_None by done. lia.
  - intros i Hi. destruct (decide (i = id)) as [->|]; [by rewrite He, is_Some_alt in Hi|].
    rewrite lookup_insert_ne by done. by apply Hd.
  - intros i. destruct (decide (i = id)) as [->|]; [done|].
    rewrite lookup_insert_ne by done. apply Hv.
Qed.

(** Fewer or other workers under the same ids. *)
Lemma owner_ok_shrink owned owned' :
  owner_ok owned →
  (size (bo_executions owned') ≤ size (bo_executions owned))%nat →
  (size (bo_structured_filesystems owned') ≤ size (bo_structured_filesystems owned))%nat →
  (∀ id, is_Some (bo_executions owned' !! id) → is_Some (bo_executions owned !! id)) →
  (∀ id, is_Some (bo_structured_filesystems owned' !! id) →
     is_Some (bo_structured_filesystems owned !! id)) →
  owner_ok owned'.
Proof.
  intros [Hb Hd Hv] H1 H2 H3 H4. split; unfold owner_len in *.
  - lia.
  - intros id Hid. apply eq_None_not_Some. intros Hs%H4.
    rewrite (Hd id) in Hs by auto. by apply is_Some_None in Hs.
  - intros id [?|?]; apply Hv; auto.
Qed.

(** Deleting, or replacing what is there, does not add ids. *)
Lemma delete_shrinks {A} (k : ustr) (m : gmap ustr A) :
  (size (delete k m) ≤ size m)%nat ∧ ∀ i, is_Some (delete k m !! i) → is_Some (m !! i).
Proof.
  split.
  - rewrite map_size_delete. case_match; unfold id; simpl; lia.
  - intros i. rewrite lookup_delete_is_Some. naive_solver.
Qed.
Lemma replace_shrinks {A} (k : ustr) (a b : A) (m : gmap ustr A) :
  m !! k = Some b →
  (size (insert k a m) ≤ size m)%nat ∧ ∀ i, is_Some (insert k a m !! i) → is_Some (m !! i).
Proof.
  intros Hl. split.
  - rewrite map_size_insert_Some by eauto. lia.
  - intros i. rewrite lookup_insert_is_Some. intros [<-|[_ ?]]; [by eexists|done].
Qed.

Ltac owner_shrinks :=
  eapply owner_ok_shrink; [eassumption|..]; simpl; try done;
  first [apply delete_shrinks | eapply replace_shrinks; eassumption
        | rewrite map_size_fmap; done | intros ?; rewrite lookup_fmap, fmap_is_Some; done].

Lemma handle_request_ok answers request owned :
  owner_ok owned → owner_ok (h_owner (handle_request answers request owned)).
Proof.
  intros Hok. destruct request; cbn [handle_request].
  - done.
  - owner_shrinks.
  - unfold handle_start_exec. case_match eqn:Hv; [done|].
    apply orb_false_iff in Hv as [Hv _]. apply negb_false_iff in Hv.
    destruct (broker_request_admission _ _) as [[]|] eqn:Ha; [|done].
    apply admission_Ok in Ha as [? ?]. case_match; [|done]. by apply owner_ok_insert_exec.
  - unfold handle_poll_exec. repeat case_match; try done; owner_shrinks.
  - unfold handle_cancel_exec. repeat case_match; try done; owner_shrinks.
  - unfold handle_filesystem. by case_match.
  - unfold handle_structured_filesystem. by case_match.
  - unfold handle_start_structured. case_match eqn:Hv; [done|].
    apply orb_false_iff in Hv as [Hv _]. apply negb_false_iff in Hv.
    destruct (broker_request_admission _ _) as [[]|] eqn:Ha; [|done].
    apply admission_Ok in Ha as [? ?]. case_match; [|done]. by apply owner_ok_insert_structured.
  - unfold handle_poll_structured. repeat case_match; try done; owner_shrinks.
  - unfold handle_cancel_structured. repeat case_match; try done; owner_shrinks.
Qed.
