(* ===== verification/BrokerProperties.v ===== *)
(** * BrokerProperties: what the privileged broker guarantees

    Against any peer: only fresh, well-formed requests of the one session have
    effects, and the workers stay bounded.  With its own client: a conversation
    over the pipe is a sequence of direct calls of [handle_request]. *)

From Stdlib Require Import Sorting.Sorted.
From S2P Require Import Prelude Text WindowsPath BrokerProtocol BrokerPipe Broker.
#[local] Open Scope N_scope.

(** ** Effects of one request *)

(** What a request may set in motion. *)
Definition authorizes (request : BrokerRequest) (effect : BrokerEffect) : Prop :=
  match request, effect with
  | StartExec id spec, SpawnExec id' spec' =>
      id' = id ∧ spec' = spec ∧ valid_elevated_request_id id = true ∧ validate_exec spec = Ok ()
  | StartStructuredFilesystem id spec, SpawnFilesystem id' spec' =>
      id' = id ∧ spec' = spec ∧ valid_elevated_request_id id = true ∧
      validate_administrator spec = Ok ()
  | Filesystem spec, RunPrivilegedFilesystem spec' =>
      spec' = spec ∧ validate_privileged spec = Ok ()
  | StructuredFilesystem spec, RunAdministratorFilesystem spec' =>
      spec' = spec ∧ validate_administrator spec = Ok ()
  | _, _ => False
  end.

Ltac valid_request :=
  repeat match goal with
  | H : _ || _ = false |- _ => apply orb_false_iff in H as [??]
  | H : negb _ = false |- _ => apply negb_false_iff in H
  | H : is_ok _ = true |- _ => apply is_ok_unit in H
  end.

Lemma handle_request_effects answers request owned :
  (length (h_effects (handle_request answers request owned)) ≤ 1)%nat ∧
  Forall (authorizes request) (h_effects (handle_request answers request owned)).
Proof.
  destruct request; cbn [handle_request];
    unfold handle_start_exec, handle_poll_exec, handle_cancel_exec, handle_filesystem,
      handle_structured_filesystem, handle_start_structured, handle_poll_structured,
      handle_cancel_structured;
    repeat case_match; simpl; valid_request; repeat constructor; auto.
Qed.

(** ** Sequences of requests from any peer *)

Section peers.
Context `{!Serde BrokerRequestEnvelope, !Serde BrokerResponseEnvelope}.

(** Every payload of a run that was accepted, with its effects. *)
Record Accepted := MkAccepted { ac_envelope : BrokerRequestEnvelope; ac_effects : list BrokerEffect }.

Record legitimate (session : BrokerSession) (payloads : list bytes) (a : Accepted) : Prop := {
  lg_version : bre_version (ac_envelope a) = BROKER_PROTOCOL_VERSION;
  lg_generation : bre_generation (ac_envelope a) = bs_generation session;
  lg_nonce : bre_session_nonce (ac_envelope a) = bs_session_nonce session;
  lg_fresh : bs_last_sequence session < bre_sequence (ac_envelope a);
  lg_received : ∃ payload, payload ∈ payloads ∧ decode_frame payload = Ok (ac_envelope a);
  lg_single : (length (ac_effects a) ≤ 1)%nat;
  lg_authorized : Forall (authorizes (bre_request (ac_envelope a))) (ac_effects a)
}.

Lemma validate_request_Ok envelope session session' :
  validate_request envelope session = (session', Ok ()) →
  bre_version envelope = BROKER_PROTOCOL_VERSION ∧
  bre_generation envelope = bs_generation session ∧
  bre_session_nonce envelope = bs_session_nonce session ∧
  bs_last_sequence session < bre_sequence envelope ∧
  session' = session <| bs_last_sequence := bre_sequence envelope |>.
Proof.
  unfold validate_request. repeat case_match; intros; simplify_eq/=; valid_request.
  rewrite N.eqb_eq, ?N.leb_gt, ?bool_decide_eq_true in *. done.
Qed.
Lemma validate_request_Err envelope session session' e :
  validate_request envelope session = (session', Err e) → session' = session.
Proof. unfold validate_request. by repeat case_match; intros; simplify_eq/=. Qed.

Lemma legitimate_later session session' payload payloads a :
  bs_generation session' = bs_generation session →
  bs_session_nonce session' = bs_session_nonce session →
  bs_last_sequence session ≤ bs_last_sequence session' →
  legitimate session' payloads a → legitimate session (payload :: payloads) a.
Proof.
  intros Hg Hn Hs [Hv Hg' Hn' Hf (p & ? & ?) ? ?].
  split; try done; [congruence|congruence|lia|]. exists p. split; [by right|done].
Qed.

(** One turn: nothing, or the effects of a fresh and valid request. *)
Lemma broker_turn_cases answers payload state effects turn :
  broker_turn answers payload state = (effects, turn) →
  (effects = [] ∧ ∀ state' frame, turn = Continue state' frame → state' = state) ∨
  ∃ envelope, decode_frame payload = Ok envelope ∧
    validate_request envelope (st_session state) =
      (st_session state <| bs_last_sequence := bre_sequence envelope |>, Ok ()) ∧
    let handled := handle_request answers (bre_request envelope) (st_owned state) in
    effects = h_effects handled ∧
    ∀ state' frame, turn = Continue state' frame → state' =
      MkBrokerState (st_session state <| bs_last_sequence := bre_sequence envelope |>)
        (h_owner handled).
Proof.
  destruct state as [session owned]. unfold broker_turn, broker_reply, protocol. cbn [st_session st_owned].
  destruct (decode_frame payload) as [envelope|]; simpl;
    [|intros [= <- <-]; left; split; [done|by intros ??]].
  destruct (validate_request envelope session) as [session' [[]|e]] eqn:Hv; intros [= <- <-].
  - right. exists envelope.
    pose proof (validate_request_Ok _ _ _ Hv) as (_ & _ & _ & _ & ->).
    split; [done|]. split; [done|]. split; [done|]. intros state' frame.
    by repeat case_match; intros; simplify_eq.
  - left. apply validate_request_Err in Hv as ->. split; [done|].
    intros state' frame. by case_match; intros; simplify_eq.
Qed.

(** C34 (safety): against any peer, and whatever bytes it sends, the effects of a
    run of the broker are those of a list of accepted requests.  Each of them came
    in a payload of this session (version, generation and nonce are right), had at
    most one effect, and that effect is the one the request names, with the very
    specification that passed validation.  Their sequence numbers strictly
    increase: no request is ever executed twice, and none out of order. *)
Theorem broker_rejects_replays (turns : list (Answers * bytes)) (state : BrokerState) :
  ∃ accepted : list Accepted,
    broker_run turns state = concat (map ac_effects accepted) ∧
    Forall (legitimate (st_session state) (map snd turns)) accepted ∧
    StronglySorted N.lt (map (λ a, bre_sequence (ac_envelope a)) accepted).
Proof.
  revert state. induction turns as [|[answers payload] turns IH]; intros state.
  { exists []. split; [done|]. split; constructor. }
  cbn [broker_run map snd]. destruct (broker_turn answers payload state) as [effects turn] eqn:Ht.
  apply broker_turn_cases in Ht as [[-> Hc] | (envelope & Hdec & Hv & -> & Hc)].
  - destruct turn as [state' frame|frame|e];
      try (exists []; split; [done|]; split; constructor).
    destruct (IH state) as (accepted & Hrun & Hall & Hsorted).
    exists accepted. rewrite (Hc state' frame) by done. split; [done|]. split; [|done].
    eapply Forall_impl; [exact Hall|]. intros a. by apply legitimate_later.
  - pose proof (handle_request_effects answers (bre_request envelope) (st_owned state)) as [H1 H2].
    set (a0 := MkAccepted envelope
      (h_effects (handle_request answers (bre_request envelope) (st_owned state)))).
    pose proof (validate_request_Ok _ _ _ Hv) as (? & ? & ? & Hfresh & _).
    assert (legitimate (st_session state) (payload :: map snd turns) a0) as Hfirst.
    { split; try done. exists payload. split; [by left|done]. }
    destruct turn as [state' frame|frame|e];
      try (exists [a0]; split; [done|]; split; [by apply Forall_singleton|repeat constructor]).
    specialize (Hc state' frame eq_refl). subst state'.
    edestruct IH as (accepted & Hrun & Hall & Hsorted). rewrite Hrun. cbn [st_session] in Hall.
    exists (a0 :: accepted). split; [done|]. split.
    + constructor; [done|]. eapply Forall_impl; [exact Hall|].
      intros a. apply legitimate_later; simpl; [done|done|lia].
    + constructor; [done|]. apply Forall_map. eapply Forall_impl; [exact Hall|].
      intros a Ha. apply (lg_fresh _ _ _ Ha).
Qed.

Lemma broker_handshake_Ok `{!Serde ServerHello, !Serde BrokerReady} args payload frame s :
  broker_handshake args payload = Ok (frame, s) →
  ∃ session, session_new (ba_generation args) (bs_session_nonce session) = Ok session ∧
    s = MkBrokerState session owner_default.
Proof.
  unfold broker_handshake, protocol. intros (hello & _ & H)%bind_Ok.
  case_match; [done|]. apply bind_Ok in H as (ready & _ & H).
  apply bind_Ok in H as (session & Hs & [= <- <-]). apply map_err_Ok in Hs.
  exists session. split; [|done]. unfold session_new in *. case_match; by simplify_eq/=.
Qed.

(** The broker process as a machine: it starts with a handshake, and every step is
    a turn that lets it go on. *)
Context `{!Serde ServerHello, !Serde BrokerReady}.

#[export] Instance broker_machine : StateMachine BrokerState := {
  sm_init s := ∃ args payload frame, broker_handshake args payload = Ok (frame, s);
  sm_step s s' := ∃ answers payload effects frame,
    broker_turn answers payload s = (effects, Continue s' frame)
}.

#[export] Instance owner_ok_invariant : Invariant (λ s, owner_ok (st_owned s)).
Proof.
  split.
  - intros s (args & payload & frame & Hs). apply broker_handshake_Ok in Hs as (? & ? & ->).
    apply owner_default_ok.
  - intros s s' Hok (answers & payload & effects & frame & Ht).
    apply broker_turn_cases in Ht as [[_ Hc]|(envelope & _ & _ & _ & Hc)];
      rewrite (Hc _ _ eq_refl); [done|]. by apply handle_request_ok.
Qed.

(** Whatever a peer sends after the handshake, the broker never
    holds more than 32 workers, no request id is an execution and a filesystem
    request at once, and every id in use is one that [valid_elevated_request_id]
    accepts. *)
Theorem broker_workers_bounded (state : BrokerState) :
  reachable state →
  (owner_len (st_owned state) ≤ 32)%nat ∧
  ∀ id, is_Some (bo_executions (st_owned state) !! id) →
    bo_structured_filesystems (st_owned state) !! id = None ∧ valid_elevated_request_id id = true.
Proof.
  intros Hr. pose proof (invariant_reachable (λ s, owner_ok (st_owned s)) state Hr) as [Hb Hd Hv].
  split; [done|]. intros id Hid. split; [by apply Hd|apply Hv; by left].
Qed.
End peers.

(** ** The broker and its own client *)

Section conversation.
Context `{!Serde BrokerRequestEnvelope, !Serde BrokerResponseEnvelope}.
Context `{!Serde ServerHello, !Serde BrokerReady}.

(** One request over the pipe: the client sends, the broker takes a turn, the
    client reads the reply.  When the broker process has ended instead, reading
    from the broken pipe fails. *)
Definition exchange (answers : Answers) (request : BrokerRequest) (client : BrokerClientSession)
    (broker : BrokerState) :
    result BrokerRunError BrokerResponse * list BrokerEffect * BrokerClientSession *
    option BrokerState :=
  let '(client', sent) := client_send request client in
  match sent with
  | Err e => (Err e, [], client', Some broker)
  | Ok frame =>
      let '(effects, turn) := broker_turn answers frame broker in
      match turn with
      | Continue broker' reply =>
          (client_receive (cs_next_sequence client) client' reply, effects, client', Some broker')
      | ShutDown reply =>
          (client_receive (cs_next_sequence client) client' reply, effects, client', None)
      | Failed _ => (Err (Ipc Disconnected), effects, client', None)
      end
  end.

Fixpoint converse (requests : list (Answers * BrokerRequest)) (client : BrokerClientSession)
    (broker : BrokerState) : list (result BrokerRunError BrokerResponse) * list BrokerEffect :=
  match requests with
  | [] => ([], [])
  | (answers, request) :: requests =>
      let '(outcome, effects, client', broker') := exchange answers request client broker in
      match broker' with
      | Some broker' =>
          let '(outcomes, rest) := converse requests client' broker' in
          (outcome :: outcomes, effects ++ rest)
      | None => ([outcome], effects)
      end
  end.

(** The contract: direct calls of [handle_request], one after the other, until a
    shutdown or a worker that cannot be spawned ends the process. *)
Fixpoint serve (requests : list (Answers * BrokerRequest)) (owned : BrokerRequestOwner) :
    list (result BrokerRunError BrokerResponse) * list BrokerEffect :=
  match requests with
  | [] => ([], [])
  | (answers, request) :: requests =>
      let handled := handle_request answers request owned in
      match h_response handled with
      | Err _ => ([Err (Ipc Disconnected)], h_effects handled)
      | Ok ShutdownAck => ([Ok ShutdownAck], h_effects handled)
      | Ok response =>
          let '(outcomes, rest) := serve requests (h_owner handled) in
          (Ok response :: outcomes, h_effects handled ++ rest)
      end
  end.

Definition request_envelope (generation : N) (nonce : SessionNonce) (sequence : N)
    (request : BrokerRequest) : BrokerRequestEnvelope :=
  MkBrokerRequestEnvelope BROKER_PROTOCOL_VERSION generation nonce sequence request.
Definition response_envelope (generation sequence : N) (response : BrokerResponse) :
    BrokerResponseEnvelope :=
  MkBrokerResponseEnvelope BROKER_PROTOCOL_VERSION generation sequence response.

(** Both ends are in the same session, and the next request is a fresh one. *)
Record paired (client : BrokerClientSession) (broker : BrokerState) : Prop := MkPaired {
  pr_generation : cs_generation client = bs_generation (st_session broker);
  pr_nonce : cs_session_nonce client = bs_session_nonce (st_session broker);
  pr_next : bs_last_sequence (st_session broker) < cs_next_sequence client
}.

Lemma validate_request_fresh envelope session :
  bre_version envelope = BROKER_PROTOCOL_VERSION →
  bre_generation envelope = bs_generation session →
  bre_session_nonce envelope = bs_session_nonce session →
  bs_last_sequence session < bre_sequence envelope →
  validate_request envelope session =
    (session <| bs_last_sequence := bre_sequence envelope |>, Ok ()).
Proof.
  intros Hv Hg Hn Hs. unfold validate_request. rewrite Hv, Hg, !N.eqb_refl. simpl.
  rewrite bool_decide_true by done. simpl.
  rewrite (proj2 (N.eqb_neq _ 0)), (proj2 (N.leb_gt _ _)) by lia. done.
Qed.

Lemma client_receive_own sequence client response frame :
  encode_frame (response_envelope (cs_generation client) sequence response) = Ok frame →
  client_receive sequence client frame = Ok response.
Proof.
  intros Hf%decode_encode_frame. unfold client_receive, protocol. rewrite Hf. simpl.
  by rewrite !N.eqb_refl.
Qed.

(** What one exchange between paired ends comes to. *)
Lemma exchange_served answers request client broker :
  paired client broker → cs_next_sequence client < u64_max →
  let handled := handle_request answers request (st_owned broker) in
  is_ok (encode_frame (request_envelope (cs_generation client) (cs_session_nonce client)
    (cs_next_sequence client) request)) = true →
  (∀ response, h_response handled = Ok response → is_ok (encode_frame
    (response_envelope (cs_generation client) (cs_next_sequence client) response)) = true) →
  ∃ client' broker', paired client' broker' ∧ st_owned broker' = h_owner handled ∧
    cs_generation client' = cs_generation client ∧
    cs_session_nonce client' = cs_session_nonce client ∧
    cs_next_sequence client' = cs_next_sequence client + 1 ∧
    exchange answers request client broker =
      (match h_response handled with Ok r => Ok r | Err _ => Err (Ipc Disconnected) end,
       h_effects handled, client',
       match h_response handled with
       | Ok ShutdownAck | Err _ => None
       | Ok _ => Some broker'
       end).
Proof.
  intros [Hg Hn Hs] Hmax handled [frame Hframe]%is_ok_Ok Hresp.
  destruct client as [g nonce next], broker as [session owned]. simpl in *.
  exists (MkBrokerClientSession g nonce (next + 1)),
    (MkBrokerState (session <| bs_last_sequence := next |>) (h_owner handled)).
  split; [split; simpl; [done|done|lia]|]. do 4 (split; [done|]).
  unfold exchange, client_send. simpl.
  rewrite (proj2 (N.ltb_ge _ _)) by lia. unfold request_envelope in Hframe. rewrite Hframe. simpl.
  unfold broker_turn, broker_reply. unfold protocol at 1. rewrite (decode_encode_frame _ _ Hframe). simpl.
  rewrite validate_request_fresh by done. simpl. fold handled.
  destruct (h_response handled) as [response|e]; [|done].
  destruct (is_ok_Ok _ (Hresp response eq_refl)) as [reply Hreply].
  unfold encode_response. rewrite <-Hg. unfold response_envelope in Hreply. simpl.
  rewrite Hreply. simpl.
  pose proof (client_receive_own next (MkBrokerClientSession g nonce (next + 1)) response reply)
    as Hr. simpl in Hr. by destruct response; simpl; rewrite Hr.
Qed.

(** Every frame of a conversation that starts at [sequence] can be encoded. *)
Definition frames_fit (generation : N) (nonce : SessionNonce) (first : N)
    (requests : list (Answers * BrokerRequest)) (owned : BrokerRequestOwner) : Prop :=
  ∀ sequence, first ≤ sequence < first + N.of_nat (length requests) →
    (∀ request, request ∈ map snd requests →
      is_ok (encode_frame (request_envelope generation nonce sequence request)) = true) ∧
    (∀ response, Ok response ∈ (serve requests owned).1 →
      is_ok (encode_frame (response_envelope generation sequence response)) = true).

Lemma converse_serve requests client broker :
  paired client broker →
  cs_next_sequence client + N.of_nat (length requests) ≤ u64_max →
  frames_fit (cs_generation client) (cs_session_nonce client) (cs_next_sequence client) requests
    (st_owned broker) →
  converse requests client broker = serve requests (st_owned broker).
Proof.
  revert client broker. induction requests as [|[answers request] requests IH];
    intros client broker Hp Hmax Hfit; [done|].
  cbn [length] in Hmax.
  destruct (Hfit (cs_next_sequence client)) as [Hreq Hresp]; [cbn [length]; lia|].
  destruct (exchange_served answers request client broker) as
    (client' & broker' & Hp' & Ho & Hg & Hn & Hs & He); [done|lia| |..].
  { apply Hreq. by left. }
  { intros response Hr. apply Hresp. cbn [serve]. rewrite Hr.
    repeat case_match; by left. }
  cbn [converse serve]. rewrite He.
  destruct (h_response (handle_request answers request (st_owned broker))) as [response|] eqn:Hr;
    [|done].
  assert (response ≠ ShutdownAck → converse requests client' broker' =
    serve requests (h_owner (handle_request answers request (st_owned broker)))) as Hrest.
  { intros Hne. rewrite (IH client' broker'); [by rewrite Ho|done|lia|].
    intros sequence Hin. rewrite Hg, Hn. destruct (Hfit sequence) as [Hq Hp2]; [cbn [length]; lia|].
    split; [intros r ?; apply Hq; by right|]. intros r Hin'. apply Hp2. cbn [serve].
    rewrite Hr, <-Ho. destruct response; try done; case_match; by right. }
  destruct response; try done; by rewrite Hrest.
Qed.

(** C35 (refinement): the broker and its own client implement direct calls.  After
    the handshake - whose three messages agree on generation and nonce - every
    conversation that fits into the sequence numbers and whose frames can be
    encoded gives, response by response and effect by effect, what calling
    [handle_request] on the requests in order gives: no request is refused as
    stale, replayed or from another session, and no response is attributed to
    another request. *)
Theorem conversation_refines_direct_calls (generation : N) (nonce : SessionNonce)
    (args : BrokerProcessArgs) (hello ready : bytes) (broker : BrokerState)
    (requests : list (Answers * BrokerRequest)) :
  client_hello generation nonce = Ok hello →
  broker_handshake args hello = Ok (ready, broker) →
  N.of_nat (length requests) < u64_max →
  frames_fit generation nonce 1 requests owner_default →
  ∃ client, client_handshake generation nonce ready = Ok client ∧
    converse requests client broker = serve requests owner_default.
Proof.
  unfold client_hello, protocol. case_match eqn:Hz; [done|]. apply N.eqb_neq in Hz.
  intros Hh%map_err_Ok%decode_encode_frame Hb Hmax Hfit.
  unfold broker_handshake, protocol in Hb. rewrite Hh in Hb. simpl in Hb.
  case_match eqn:Hgen; [done|]. apply negb_false_iff, N.eqb_eq in Hgen.
  apply bind_Ok in Hb as (frame & Hf%map_err_Ok & Hb).
  apply bind_Ok in Hb as (session & Hsess%map_err_Ok & [= <- <-]).
  unfold session_new in Hsess. case_match; [done|]. injection Hsess as <-.
  exists (MkBrokerClientSession generation nonce 1). split.
  - unfold client_handshake, protocol. rewrite (decode_encode_frame _ _ Hf). simpl.
    rewrite Hgen, !N.eqb_refl. by rewrite bool_decide_true.
  - apply converse_serve; simpl; [|lia|done]. split; simpl; [congruence|done|lia].
Qed.
End conversation.

(** ** Witnesses

    A codec for the messages of a table: each is written as its index. *)

Section table_codec.
Context {T : Type} `{!EqDecision T}.

Definition table_to_vec (table : list T) (v : T) : option bytes :=
  (λ found, [N.of_nat found.1]) <$> list_find (v =.) table.
Definition table_from_slice (table : list T) (payload : bytes) : option T :=
  match payload with [n] => table !! N.to_nat n | _ => None end.

Lemma table_from_to table v payload :
  table_to_vec table v = Some payload → table_from_slice table payload = Some v.
Proof.
  unfold table_to_vec. intros ([i x] & (Hi & <- & _)%list_find_Some & ->)%fmap_Some.
  simpl. by rewrite Nat2N.id.
Qed.

Definition table_serde (table : list T) : Serde T := {|
  to_vec := table_to_vec table;
  from_slice := table_from_slice table;
  from_slice_to_vec := table_from_to table
|}.
End table_codec.

(** A short session: a ping, an execution, its result, the end. *)
Definition demo_nonce : SessionNonce := MkSessionNonce [1; 2; 3].
Definition demo_exec : ElevatedExecSpec :=
  MkElevatedExecSpec (lit "C:\Windows\System32\where.exe") [lit "cmd"] None 1000 4096.
Definition demo_result : ElevatedExecResult :=
  MkElevatedExecResult ExecCompletedOutcome (Some 0) (lit "cmd.exe") [] false false false.
Definition demo_answers : Answers :=
  MkAnswers true (Received (Ok demo_result)) TryEmpty (Err ()) (Err AdminIo).
Definition demo_requests : list (Answers * BrokerRequest) :=
  map (λ r, (demo_answers, r)) [Ping; StartExec (lit "r1") demo_exec; PollExec (lit "r1"); Shutdown].

#[local] Instance demo_request_serde : Serde BrokerRequestEnvelope := table_serde
  (s ← [1; 2; 3; 4]; r ← map snd demo_requests; [request_envelope 7 demo_nonce s r]).
#[local] Instance demo_response_serde : Serde BrokerResponseEnvelope := table_serde
  (s ← [1; 2; 3; 4];
   r ← [Pong; ExecAccepted; ExecCompleted demo_result; ShutdownAck; Rejected RejectReplay];
   [response_envelope 7 s r]).
#[local] Instance demo_hello_serde : Serde ServerHello :=
  table_serde [MkServerHello BROKER_PROTOCOL_VERSION 7 demo_nonce].
#[local] Instance demo_ready_serde : Serde BrokerReady :=
  table_serde [MkBrokerReady BROKER_PROTOCOL_VERSION 7 demo_nonce].

Definition demo_args : BrokerProcessArgs :=
  MkBrokerProcessArgs (lit "\\.\pipe\LocalBridge-Privileged-00") 7.
Definition demo_broker : BrokerState :=
  MkBrokerState (MkBrokerSession 7 demo_nonce 0) owner_default.

Lemma demo_frames_fit : frames_fit 7 demo_nonce 1 demo_requests owner_default.
Proof.
  intros sequence Hs. simpl in Hs.
  assert (sequence ∈ [1; 2; 3; 4]) as Hin.
  { rewrite !elem_of_cons. lia. }
  split; intros v Hv.
  - cut (forallb (λ s, forallb (λ v, is_ok (encode_frame (request_envelope 7 demo_nonce s v)))
      (map snd demo_requests)) [1; 2; 3; 4] = true); [|by vm_compute].
    rewrite forallb_forall. intros H. specialize (H sequence (proj1 (list_elem_of_In _ _) Hin)).
    rewrite forallb_forall in H. by apply H, list_elem_of_In.
  - cut (forallb (λ s, forallb (λ v, match v with
        | Ok v => is_ok (encode_frame (response_envelope 7 s v)) | Err _ => true end)
      (serve demo_requests owner_default).1) [1; 2; 3; 4] = true); [|by vm_compute].
    rewrite forallb_forall. intros H. specialize (H sequence (proj1 (list_elem_of_In _ _) Hin)).
    rewrite forallb_forall in H. by apply (H (Ok v)), list_elem_of_In.
Qed.

Lemma conversation_refines_direct_calls_witness : ∃ client,
  client_handshake 7 demo_nonce [0] = Ok client ∧
  converse demo_requests client demo_broker =
    ([Ok Pong; Ok ExecAccepted; Ok (ExecCompleted demo_result); Ok ShutdownAck],
     [SpawnExec (lit "r1") demo_exec]).
Proof.
  apply (conversation_refines_direct_calls 7 demo_nonce demo_args [0] [0] demo_broker demo_requests);
    [by vm_compute|by vm_compute|by vm_compute|exact demo_frames_fit].
Defined.

(** A replayed request has no second effect. *)
Lemma broker_rejects_replays_witness :
  broker_run [(demo_answers, [5]); (demo_answers, [5])] demo_broker =
    [SpawnExec (lit "r1") demo_exec] ∧
  ∃ accepted : list Accepted,
    broker_run [(demo_answers, [5]); (demo_answers, [5])] demo_broker =
      concat (map ac_effects accepted) ∧
    Forall (legitimate (st_session demo_broker) [[5]; [5]]) accepted ∧
    StronglySorted N.lt (map (λ a, bre_sequence (ac_envelope a)) accepted).
Proof.
  split; [by vm_compute|].
  exact (broker_rejects_replays [(demo_answers, [5]); (demo_answers, [5])] demo_broker).
Defined.

Definition demo_busy : BrokerState :=
  MkBrokerState (MkBrokerSession 7 demo_nonce 2)
    (owner_default <| bo_executions ::= insert (lit "r1") (MkActiveExecution false) |>).

Lemma demo_busy_reachable : reachable demo_busy.
Proof.
  exists demo_broker. split.
  - exists demo_args, [0], [0]. by vm_compute.
  - apply rtc_once. exists demo_answers, [5], [SpawnExec (lit "r1") demo_exec], [6]. by vm_compute.
Qed.

Lemma broker_workers_bounded_witness :
  (owner_len (st_owned demo_busy) ≤ 32)%nat ∧
  ∀ id, is_Some (bo_executions (st_owned demo_busy) !! id) →
    bo_structured_filesystems (st_owned demo_busy) !! id = None ∧
    valid_elevated_request_id id = true.
Proof. exact (broker_workers_bounded demo_busy demo_busy_reachable). Defined.
