(* ===== verification/PrivilegeControl.v ===== *)
(** * PrivilegeControl: who may talk to the privileged broker

    [src/src-tauri/src/privilege/control.rs].  The controller opens and closes the
    gate, the gateway sends requests through it; both share one lifecycle under a
    lock.  Enabling takes the lock several times, so other threads may act in
    between; [enable_step] is one of its pieces and [enable_broker] all of them.

    A connection is a value of [P]: the other end of the pipe, with what it
    received.  [exchange_frame] writes a frame and reads the reply. *)

From S2P Require Import Prelude Text BrokerProtocol BrokerPipe StateModel Broker.
#[local] Open Scope N_scope.

(* @src privilege/windows.rs:149-154 UacLaunchError *)
Inductive UacLaunchError :=
  | InvalidBrokerExecutable | InvalidLaunchContext | UacLaunchDenied | LaunchFailed (code : N).

Class Wire (P : Type) :=
  exchange_frame : bytes → P → P * result PrivilegeIpcError bytes.

(** The reply's frame is only read after the request's was written. *)
Definition wire_reply {P} `{Wire P} (frame : bytes) (pipe : P) : P * result BrokerRunError bytes :=
  let '(pipe, reply) := exchange_frame frame pipe in (pipe, map_err Ipc reply).

(** ** Faults *)

(* @src privilege/control.rs:397-404 map_uac_fault *)
Definition map_uac_fault (error : UacLaunchError) : PrivilegeFault :=
  match error with
  | UacLaunchDenied => UacDenied
  | InvalidBrokerExecutable | InvalidLaunchContext | LaunchFailed _ => BrokerLaunchFailed
  end.

(* @src privilege/control.rs:406-411 map_ipc_fault *)
Definition map_ipc_fault (error : PrivilegeIpcError) : PrivilegeFault :=
  match error with
  | BrokerPipe.UnauthorizedPeer _ _ => StateModel.UnauthorizedPeer
  | _ => IpcUnavailable
  end.

(* @src privilege/control.rs:413-427 map_broker_fault *)
Definition map_broker_fault (error : BrokerRunError) : PrivilegeFault :=
  match error with
  | HandshakeMismatch => HandshakeFailed
  | Protocol BrokerProtocol.ProtocolMismatch => StateModel.ProtocolMismatch
  | Ipc (BrokerPipe.UnauthorizedPeer _ _) => StateModel.UnauthorizedPeer
  | Ipc _ => IpcUnavailable
  | Protocol _ | InvalidArguments | UnexpectedResponse => StateModel.ProtocolMismatch
  end.

Section control.
Context {P : Type} `{!Wire P}.
Context `{!Serde BrokerRequestEnvelope, !Serde BrokerResponseEnvelope}.
Context `{!Serde ServerHello, !Serde BrokerReady}.

(** ** The client's session and its pipe *)

(** The session keeps its end of the pipe. *)
Definition Session : Type := BrokerClientSession * P.

(* @src privilege/broker.rs:536-558 BrokerClientSession::request *)
Definition client_request (request : BrokerRequest) (self : Session) :
    Session * result BrokerRunError BrokerResponse :=
  let '(session, pipe) := self in
  let '(session', sent) := client_send request session in
  match sent with
  | Err e => ((session', pipe), Err e)
  | Ok frame =>
      let '(pipe, reply) := wire_reply frame pipe in
      ((session', pipe), payload ← reply; client_receive (cs_next_sequence session) session' payload)
  end.

(** A method of the client: a request and what it makes of the response. *)
Definition session_call {T} (request : BrokerRequest)
    (expected : BrokerResponse → result BrokerRunError T) (self : Session) :
    Session * result BrokerRunError T :=
  let '(self, response) := client_request request self in (self, response ≫= expected).

(** [handshake] and the [ping] that follows, over a fresh connection. *)
Definition open_session (generation : N) (nonce : SessionNonce) (pipe : P) :
    P * result BrokerRunError Session :=
  match client_hello generation nonce with
  | Err e => (pipe, Err e)
  | Ok frame =>
      let '(pipe, reply) := wire_reply frame pipe in
      match payload ← reply; client_handshake generation nonce payload with
      | Err e => (pipe, Err e)
      | Ok session =>
          let '((session, pipe), pong) := session_call Ping expect_pong (session, pipe) in
          (pipe, _ ← pong; Ok (session, pipe))
      end
  end.

(** ** The lifecycle *)

(* @src privilege/control.rs:21-24 ActiveBroker *)
Record ActiveBroker := MkActiveBroker {
  ab_session : Session;
  ab_process : N
}.

(* @src privilege/control.rs:26-35 BrokerLifecycle *)
Inductive BrokerLifecycle :=
  | LifecycleDisabled
  | LifecycleRequested
  | LifecycleAwaitingUac
  | LifecycleActive (generation : GenerationId) (broker : ActiveBroker)
  | LifecycleFaulted (fault : PrivilegeFault).

(* @src privilege/control.rs:38-48 BrokerLifecycle::state *)
Definition lifecycle_state (self : BrokerLifecycle) : PrivilegeState :=
  match self with
  | LifecycleDisabled => PrivilegeDisabled
  | LifecycleRequested => PrivilegeRequested
  | LifecycleAwaitingUac => PrivilegeAwaitingUac
  | LifecycleActive generation _ => PrivilegeActive generation
  | LifecycleFaulted fault => PrivilegeFaulted fault
  end.

(* @src privilege/control.rs:51-63 PrivilegeShared *)
Record PrivilegeShared := MkPrivilegeShared {
  ps_lifecycle : BrokerLifecycle;
  ps_next_generation : N
}.
#[export] Instance eta_PrivilegeShared : Eta PrivilegeShared := λ r,
  MkPrivilegeShared (ps_lifecycle r) (ps_next_generation r).

Definition privilege_default : PrivilegeShared := MkPrivilegeShared LifecycleDisabled 1.

(** [running] is [process.is_running().unwrap_or(false)]. *)
(* @src privilege/control.rs:66-79 PrivilegeShared::refresh_broker_liveness *)
Definition refresh_broker_liveness (running : bool) (self : PrivilegeShared) :
    PrivilegeShared * PrivilegeState :=
  let broker_exited := match ps_lifecycle self with
                       | LifecycleActive _ _ => negb running
                       | _ => false
                       end in
  let self := if broker_exited
              then self <| ps_lifecycle := LifecycleFaulted BrokerExited |> else self in
  (self, lifecycle_state (ps_lifecycle self)).

(* @src privilege/control.rs:81-87 PrivilegeShared::replace *)
Definition replace (next : BrokerLifecycle) (self : PrivilegeShared) :
    PrivilegeShared * BrokerLifecycle :=
  (self <| ps_lifecycle := next |>, ps_lifecycle self).

(* @src privilege/control.rs:209-212 PrivilegeController::fail *)
Definition fail (fault : PrivilegeFault) (self : PrivilegeShared) : PrivilegeShared * PrivilegeFault :=
  ((replace (LifecycleFaulted fault) self).1, fault).

(** ** Closing the gate *)

(** What the operating system answers about the process that is to end. *)
Record StopAnswers := MkStopAnswers {
  sa_first_wait : result UacLaunchError bool;
  sa_terminate : result UacLaunchError unit;
  sa_second_wait : result UacLaunchError bool
}.

(* @src privilege/control.rs:180-203 PrivilegeController::disable *)
Definition stop_broker (answers : StopAnswers) (previous : BrokerLifecycle) :
    result PrivilegeFault unit :=
  match previous with
  | LifecycleActive _ active =>
      let '(_, shutdown_result) := session_call Shutdown expect_shutdown (ab_session active) in
      exited ← map_err map_uac_fault (sa_first_wait answers);
      _ ← (if exited : bool then Ok () else
             _ ← map_err map_uac_fault (sa_terminate answers);
             exited ← map_err map_uac_fault (sa_second_wait answers);
             if exited : bool then Ok () else Err BrokerExited);
      map_err map_broker_fault shutdown_result
  | _ => Ok ()
  end.

(* @src privilege/control.rs:178-179 PrivilegeController::disable *)
Definition disable (answers : StopAnswers) (self : PrivilegeShared) :
    PrivilegeShared * result PrivilegeFault unit :=
  let '(self, previous) := replace LifecycleDisabled self in
  (self, stop_broker answers previous).

(** ** Opening the gate *)

(** What the environment answers while one thread enables the broker. *)
Record EnableAnswers := MkEnableAnswers {
  en_stop : StopAnswers;
  en_create : result PrivilegeIpcError unit;
  en_launch : result UacLaunchError N;
  en_accept : result PrivilegeIpcError P;
  en_nonce : result PrivilegeIpcError SessionNonce
}.

(** Launching, accepting, the handshake and the ping; none of it touches the
    lifecycle. *)
(* @src privilege/control.rs:160-170 PrivilegeController::enable_broker *)
Definition connect (answers : EnableAnswers) (generation : N) : result PrivilegeFault ActiveBroker :=
  process ← map_err map_uac_fault (en_launch answers);
  connection ← map_err map_ipc_fault (en_accept answers);
  nonce ← map_err (λ e, map_broker_fault (Ipc e)) (en_nonce answers);
  session ← map_err map_broker_fault (open_session generation nonce connection).2;
  Ok (MkActiveBroker session process).

(** Where an enabling thread is: between two accesses to the shared state. *)
Inductive EnablePc :=
  | AtDisable
  | AtGeneration
  | AtRequest (generation : N)
  | AtCreate (generation : N)
  | AtAwait (generation : N)
  | AtConnect (generation : N)
  | AtInstall (generation : N) (broker : ActiveBroker).

(** One piece; an error has been recorded as the lifecycle's fault, except that of
    [disable]. *)
(* @src privilege/control.rs:149-176 PrivilegeController::enable_broker *)
Definition enable_step (answers : EnableAnswers) (pc : EnablePc) (self : PrivilegeShared) :
    PrivilegeShared * (EnablePc + result PrivilegeFault GenerationId) :=
  match pc with
  | AtDisable =>
      let '(self, disabled) := disable (en_stop answers) self in
      (self, match disabled with Ok _ => inl AtGeneration | Err fault => inr (Err fault) end)
  | AtGeneration =>
      let generation := N.max (ps_next_generation self) 1 in
      (self <| ps_next_generation ::= λ n, wrapping_add u64_max n 1 |>, inl (AtRequest generation))
  | AtRequest generation => ((replace LifecycleRequested self).1, inl (AtCreate generation))
  | AtCreate generation =>
      match en_create answers with
      | Ok _ => (self, inl (AtAwait generation))
      | Err error => let '(self, fault) := fail (map_ipc_fault error) self in (self, inr (Err fault))
      end
  | AtAwait generation => ((replace LifecycleAwaitingUac self).1, inl (AtConnect generation))
  | AtConnect generation =>
      match connect answers generation with
      | Ok broker => (self, inl (AtInstall generation broker))
      | Err fault => let '(self, fault) := fail fault self in (self, inr (Err fault))
      end
  | AtInstall generation broker =>
      ((replace (LifecycleActive (MkGenerationId generation) broker) self).1,
       inr (Ok (MkGenerationId generation)))
  end.

(** All pieces without interference; seven are enough. *)
Fixpoint enable_run (fuel : nat) (answers : EnableAnswers) (pc : EnablePc) (self : PrivilegeShared) :
    PrivilegeShared * option (result PrivilegeFault GenerationId) :=
  match fuel with
  | 0%nat => (self, None)
  | S fuel =>
      let '(self, next) := enable_step answers pc self in
      match next with
      | inl pc => enable_run fuel answers pc self
      | inr outcome => (self, Some outcome)
      end
  end.

(* @src privilege/control.rs:126-131 PrivilegeController::enable_from_explicit_user_action *)
Definition enable_broker (answers : EnableAnswers) (self : PrivilegeShared) :
    PrivilegeShared * option (result PrivilegeFault GenerationId) :=
  enable_run 7 answers AtDisable self.

(** [elevated] is [current_process_is_elevated]. *)
(* @src privilege/control.rs:133-147 PrivilegeController::enable_from_elevated_startup *)
Definition enable_from_elevated_startup (elevated : result UacLaunchError bool)
    (answers : EnableAnswers) (self : PrivilegeShared) :
    PrivilegeShared * option (result PrivilegeFault (option GenerationId)) :=
  match elevated with
  | Err error => let '(self, fault) := fail (map_uac_fault error) self in (self, Some (Err fault))
  | Ok false => (self, Some (Ok None))
  | Ok true =>
      let '(self, outcome) := enable_broker answers self in
      (self, (λ r : result PrivilegeFault GenerationId, Some <$> r) <$> outcome)
  end.

(** ** The gateway *)

(* @src privilege/control.rs:216-220 PrivilegedExecError *)
Inductive PrivilegedExecError :=
  | GateClosed (state : PrivilegeState)
  | BrokerFault (fault : PrivilegeFault)
  | FilesystemFailure (code : AdministratorFilesystemErrorCode).

(* @src privilege/control.rs:301-332 PrivilegedExecutionGateway::with_session *)
Definition with_session {T} (running : bool) (operation : Session → Session * result BrokerRunError T)
    (self : PrivilegeShared) : PrivilegeShared * result PrivilegedExecError T :=
  let state := lifecycle_state (ps_lifecycle self) in
  match ps_lifecycle self with
  | LifecycleActive generation broker =>
      if negb running then
        (self <| ps_lifecycle := LifecycleFaulted BrokerExited |>,
         Err (GateClosed (PrivilegeFaulted BrokerExited)))
      else
        let '(session, r) := operation (ab_session broker) in
        match r with
        | Ok value =>
            (self <| ps_lifecycle :=
               LifecycleActive generation (MkActiveBroker session (ab_process broker)) |>, Ok value)
        | Err error =>
            let fault := map_broker_fault error in
            (self <| ps_lifecycle := LifecycleFaulted fault |>, Err (BrokerFault fault))
        end
  | _ => (self, Err (GateClosed state))
  end.

(** [with_session] of one method of the client. *)
Definition gateway_call {T} (running : bool) (request : BrokerRequest)
    (expected : BrokerResponse → result BrokerRunError T) (self : PrivilegeShared) :
    PrivilegeShared * result PrivilegedExecError T :=
  with_session running (session_call request expected) self.

(* @src privilege/control.rs:340-346 PrivilegedExecutionGateway::start_execute *)
Definition start_execute (running : bool) (request_id : ustr) (spec : ElevatedExecSpec)
    (self : PrivilegeShared) : PrivilegeShared * result PrivilegedExecError unit :=
  gateway_call running (StartExec request_id spec) expect_exec_accepted self.
(* @src privilege/control.rs:348-353 PrivilegedExecutionGateway::poll_execute *)
Definition poll_execute (running : bool) (request_id : ustr) (self : PrivilegeShared) :
    PrivilegeShared * result PrivilegedExecError (option ElevatedExecResult) :=
  gateway_call running (PollExec request_id) expect_exec self.
(* @src privilege/control.rs:355-357 PrivilegedExecutionGateway::cancel_execute *)
Definition cancel_execute (running : bool) (request_id : ustr) (self : PrivilegeShared) :
    PrivilegeShared * result PrivilegedExecError unit :=
  gateway_call running (CancelExec request_id) expect_cancel self.
(* @src privilege/control.rs:359-364 PrivilegedExecutionGateway::filesystem *)
Definition gateway_filesystem (running : bool) (spec : PrivilegedFilesystemSpec)
    (self : PrivilegeShared) : PrivilegeShared * result PrivilegedExecError PrivilegedFilesystemResult :=
  gateway_call running (Filesystem spec) expect_filesystem self.
(* @src privilege/control.rs:366-372 PrivilegedExecutionGateway::structured_filesystem *)
Definition gateway_structured_filesystem (running : bool) (spec : AdministratorFilesystemSpec)
    (self : PrivilegeShared) :
    PrivilegeShared * result PrivilegedExecError AdministratorFilesystemResult :=
  let '(self, r) := gateway_call running (StructuredFilesystem spec) expect_structured self in
  (self, r ≫= map_err FilesystemFailure).
(* @src privilege/control.rs:374-380 PrivilegedExecutionGateway::start_structured_filesystem *)
Definition start_structured_filesystem (running : bool) (request_id : ustr)
    (spec : AdministratorFilesystemSpec) (self : PrivilegeShared) :
    PrivilegeShared * result PrivilegedExecError unit :=
  gateway_call running (StartStructuredFilesystem request_id spec) expect_structured_accepted self.
(* @src privilege/control.rs:382-390 PrivilegedExecutionGateway::poll_structured_filesystem *)
Definition poll_structured_filesystem (running : bool) (request_id : ustr) (self : PrivilegeShared) :
    PrivilegeShared * result PrivilegedExecError
      (option (result AdministratorFilesystemErrorCode AdministratorFilesystemResult)) :=
  gateway_call running (PollStructuredFilesystem request_id) expect_structured_poll self.
(* @src privilege/control.rs:392-394 PrivilegedExecutionGateway::cancel_structured_filesystem *)
Definition cancel_structured_filesystem (running : bool) (request_id : ustr)
    (self : PrivilegeShared) : PrivilegeShared * result PrivilegedExecError unit :=
  gateway_call running (CancelStructuredFilesystem request_id) expect_structured_cancel self.

(** [execute]: starts and polls; one liveness observation per call of the gate.
    [None] while it still polls. *)
Fixpoint poll_until (observations : list bool) (request_id : ustr) (self : PrivilegeShared) :
    PrivilegeShared * option (result PrivilegedExecError ElevatedExecResult) :=
  match observations with
  | [] => (self, None)
  | running :: observations =>
      let '(self, polled) := poll_execute running request_id self in
      match polled with
      | Err e => (self, Some (Err e))
      | Ok (Some execution) => (self, Some (Ok execution))
      | Ok None => poll_until observations request_id self
      end
  end.
(* @src privilege/control.rs:283-295 PrivilegedExecutionGateway::execute *)
Definition execute (running : bool) (observations : list bool) (request_id : ustr)
    (spec : ElevatedExecSpec) (self : PrivilegeShared) :
    PrivilegeShared * option (result PrivilegedExecError ElevatedExecResult) :=
  match start_execute running request_id spec self with
  | (self, Err e) => (self, Some (Err e))
  | (self, Ok _) => poll_until observations request_id self
  end.
End control.
Arguments Session : clear implicits.
Arguments BrokerLifecycle : clear implicits.
Arguments PrivilegeShared : clear implicits.
Arguments ActiveBroker : clear implicits.
Arguments EnablePc : clear implicits.
Arguments EnableAnswers : clear implicits.
