(* ===== verification/PrivilegeProperties.v ===== *)
(** * PrivilegeProperties: the gate, and the way through it to the broker

    First the gate under interleaving: who may open it, and that it opens once per
    generation.  Then the composition with [Broker]: through an open gate every
    call is one direct call of [handle_request]. *)

From S2P Require Import Prelude Text WindowsPath BrokerProtocol BrokerPipe StateModel Broker.
From S2P Require Import BrokerProperties PrivilegeControl.
#[local] Open Scope N_scope.

(** ** The gate under interleaving *)

Section gate.
Context {P : Type} `{!Wire P}.
Context `{!Serde BrokerRequestEnvelope, !Serde BrokerResponseEnvelope}.
Context `{!Serde ServerHello, !Serde BrokerReady}.

(** The shared state, the threads that are enabling, and the history: generations
    that were connected (launched, accepted, shaken hands and pinged) and those that
    opened the gate, the latest first. *)
Record GateState := MkGateState {
  gs_shared : PrivilegeShared P;
  gs_enabling : list (EnablePc P);
  gs_connected : list N;
  gs_opened : list N
}.

(** What one piece of enabling adds to the history.  [connects] records that [connect]
    returned a session in this generation: what [connect] itself checks (the client of
    the pipe, the hello, the ping) is in its definition, not in this history. *)
Definition connects (answers : EnableAnswers P) (pc : EnablePc P) : list N :=
  match pc with
  | AtConnect g => if is_ok (connect answers g) then [g] else []
  | _ => []
  end.
Definition opens (pc : EnablePc P) : list N :=
  match pc with AtInstall g _ => [g] | _ => [] end.

Definition to_list {A B} (s : A + B) : list A := match s with inl a => [a] | inr _ => [] end.

(** The counter is not exhausted: fewer than 2^64 enables are begun. *)
Definition generation_available (pc : EnablePc P) (shared : PrivilegeShared P) : Prop :=
  match pc with AtGeneration => ps_next_generation shared < u64_max | _ => True end.

Inductive gate_step : GateState → GateState → Prop :=
  | gate_begin shared enabling connected opened :
      gate_step (MkGateState shared enabling connected opened)
        (MkGateState shared (AtDisable :: enabling) connected opened)
  | gate_enable shared before pc after connected opened answers shared' next :
      generation_available pc shared →
      enable_step answers pc shared = (shared', next) →
      gate_step (MkGateState shared (before ++ pc :: after) connected opened)
        (MkGateState shared' (before ++ to_list next ++ after)
           (connects answers pc ++ connected) (opens pc ++ opened))
  | gate_disable shared enabling connected opened answers :
      gate_step (MkGateState shared enabling connected opened)
        (MkGateState (disable answers shared).1 enabling connected opened)
  | gate_refresh shared enabling connected opened running :
      gate_step (MkGateState shared enabling connected opened)
        (MkGateState (refresh_broker_liveness running shared).1 enabling connected opened)
  | gate_call T shared enabling connected opened running request
        (expected : BrokerResponse → result BrokerRunError T) :
      gate_step (MkGateState shared enabling connected opened)
        (MkGateState (gateway_call running request expected shared).1 enabling connected opened).

#[export] Instance gate_machine : StateMachine GateState := {
  sm_init s := s = MkGateState privilege_default [] [] [];
  sm_step := gate_step
}.

(** The generations of threads that have not opened the gate yet. *)
Definition pc_generation (pc : EnablePc P) : list N :=
  match pc with
  | AtDisable | AtGeneration => []
  | AtRequest g | AtCreate g | AtAwait g | AtConnect g | AtInstall g _ => [g]
  end.
Definition in_flight (enabling : list (EnablePc P)) : list N := enabling ≫= pc_generation.

Definition active_generation (lifecycle : BrokerLifecycle P) : option N :=
  match lifecycle with LifecycleActive g _ => Some (generation_get g) | _ => None end.

Record gate_ok (s : GateState) : Prop := MkGateOk {
  go_next : 0 < ps_next_generation (gs_shared s);
  go_below g : g ∈ in_flight (gs_enabling s) ++ gs_opened s →
    0 < g < ps_next_generation (gs_shared s);
  go_unique : NoDup (in_flight (gs_enabling s) ++ gs_opened s);
  go_installing g b : AtInstall g b ∈ gs_enabling s → g ∈ gs_connected s;
  go_connected g : g ∈ gs_opened s → g ∈ gs_connected s;
  go_active g : active_generation (ps_lifecycle (gs_shared s)) = Some g →
    head (gs_opened s) = Some g
}.

(** Steps that leave threads and history alone, and do not open the gate. *)
Lemma gate_ok_keep shared shared' enabling connected opened :
  ps_next_generation shared' = ps_next_generation shared →
  (active_generation (ps_lifecycle shared') = None ∨
   active_generation (ps_lifecycle shared') = active_generation (ps_lifecycle shared)) →
  gate_ok (MkGateState shared enabling connected opened) →
  gate_ok (MkGateState shared' enabling connected opened).
Proof.
  intros Hn Hl [? ? ? ? ? Ha]. split; simpl in *; rewrite ?Hn; try done.
  intros g Hg. destruct Hl as [Hl|Hl]; rewrite Hl in Hg; [done|by apply Ha].
Qed.

Lemma gateway_call_lifecycle {T} running request (expected : BrokerResponse → result _ T)
    (shared : PrivilegeShared P) :
  let shared' := (gateway_call running request expected shared).1 in
  ps_next_generation shared' = ps_next_generation shared ∧
  (active_generation (ps_lifecycle shared') = None ∨
   active_generation (ps_lifecycle shared') = active_generation (ps_lifecycle shared)).
Proof.
  unfold gateway_call, with_session. destruct (ps_lifecycle shared) eqn:Hl; simpl; rewrite ?Hl; auto.
  destruct running; simpl; [|auto].
  destruct (session_call _ _ _) as [session [v|e]]; simpl; auto.
Qed.

Lemma in_flight_app l1 l2 : in_flight (l1 ++ l2) = in_flight l1 ++ in_flight l2.
Proof. apply bind_app. Qed.

(** A step of one thread that keeps its generation, or ends without opening. *)
Lemma gate_ok_thread shared shared' before pc after next connected opened more :
  gate_ok (MkGateState shared (before ++ pc :: after) connected opened) →
  ps_next_generation shared' = ps_next_generation shared →
  (active_generation (ps_lifecycle shared') = None ∨
   active_generation (ps_lifecycle shared') = active_generation (ps_lifecycle shared)) →
  sublist (in_flight next) (pc_generation pc) →
  (∀ g b, AtInstall g b ∈ next → g ∈ more) →
  gate_ok (MkGateState shared' (before ++ next ++ after) (more ++ connected) opened).
Proof.
  intros [Hp Hb Hu Hi Hc Ha] Hn Hl Hs Hm. simpl in *.
  assert (sublist (in_flight (before ++ next ++ after) ++ opened)
            (in_flight (before ++ pc :: after) ++ opened)) as Hsub.
  { apply sublist_app; [|done]. rewrite !in_flight_app. apply sublist_app; [done|].
    change (in_flight (pc :: after)) with (pc_generation pc ++ in_flight after).
    by apply sublist_app. }
  split; simpl; rewrite ?Hn; try done.
  - intros g Hg. apply Hb. by eapply sublist_mem.
  - by eapply sublist_nodup.
  - intros g b. rewrite !elem_of_app. intros [Hg|[Hg|Hg]]; [right|by left; eapply Hm|right];
      apply (Hi g b); rewrite elem_of_app, elem_of_cons; auto.
  - intros g Hg. rewrite elem_of_app. auto.
  - intros g Hg. destruct Hl as [Hl|Hl]; rewrite Hl in Hg; [done|by apply Ha].
Qed.

Lemma wrapping_next n : n < u64_max → wrapping_add u64_max n 1 = n + 1.
Proof. intros. apply wrapping_add_exact. lia. Qed.

Lemma gate_ok_generation shared before after connected opened :
  gate_ok (MkGateState shared (before ++ AtGeneration :: after) connected opened) →
  ps_next_generation shared < u64_max →
  gate_ok (MkGateState (shared <| ps_next_generation ::= λ n, wrapping_add u64_max n 1 |>)
    (before ++ [AtRequest (N.max (ps_next_generation shared) 1)] ++ after) connected opened).
Proof.
  intros [Hp Hb Hu Hi Hc Ha] Hmax. simpl in *.
  set (next := ps_next_generation shared) in *. replace (N.max next 1) with next by lia.
  assert (in_flight (before ++ [AtRequest next] ++ after) ++ opened ≡ₚ
          next :: in_flight (before ++ AtGeneration :: after) ++ opened) as Hperm.
  { rewrite !in_flight_app.
    change (in_flight (AtGeneration :: after)) with (in_flight after).
    change (in_flight [AtRequest next]) with [next]. solve_Permutation. }
  split; simpl; fold next; rewrite ?wrapping_next by done.
  - lia.
  - intros g. change (AtRequest next :: after) with ([AtRequest next] ++ after). rewrite Hperm.
    intros [->|Hg]%elem_of_cons; [lia|]. specialize (Hb g Hg). lia.
  - change (AtRequest next :: after) with ([AtRequest next] ++ after). rewrite Hperm.
    constructor; [|done]. intros Hin. specialize (Hb _ Hin). lia.
  - intros g b. rewrite elem_of_app, elem_of_cons. intros [?|[[=]|?]];
      apply (Hi g b); rewrite elem_of_app, elem_of_cons; auto.
  - done.
  - done.
Qed.

Lemma gate_ok_install shared before g b after connected opened :
  gate_ok (MkGateState shared (before ++ AtInstall g b :: after) connected opened) →
  gate_ok (MkGateState
    (replace (LifecycleActive (MkGenerationId g) b) shared).1
    (before ++ after) connected (g :: opened)).
Proof.
  intros [Hp Hb Hu Hi Hc Ha]. simpl in *.
  assert (in_flight (before ++ after) ++ g :: opened ≡ₚ
          in_flight (before ++ AtInstall g b :: after) ++ opened) as Hperm.
  { rewrite !in_flight_app.
    change (in_flight (AtInstall g b :: after)) with (g :: in_flight after). solve_Permutation. }
  split; simpl; try done.
  - intros g'. rewrite Hperm. apply Hb.
  - by rewrite Hperm.
  - intros g' b'. rewrite elem_of_app. intros [?|?];
      apply (Hi g' b'); rewrite elem_of_app, elem_of_cons; auto.
  - intros g' [->|Hg]%elem_of_cons; [|by apply Hc].
    apply (Hi g b). rewrite elem_of_app, elem_of_cons; auto.
Qed.

Lemma disable_shared answers (shared : PrivilegeShared P) :
  (disable answers shared).1 = shared <| ps_lifecycle := LifecycleDisabled |>.
Proof. done. Qed.

(** None of the listed threads is about to open the gate. *)
Ltac none_installing :=
  let H := fresh in
  intros ?? H; simpl in H; rewrite ?elem_of_cons in H; 
  repeat match type of H with _ ∨ _ => destruct H as [H|H] end; simplify_eq;
  try (by apply elem_of_nil in H).

Lemma enable_step_ok shared before pc after connected opened answers shared' next :
  gate_ok (MkGateState shared (before ++ pc :: after) connected opened) →
  generation_available pc shared →
  enable_step answers pc shared = (shared', next) →
  gate_ok (MkGateState shared' (before ++ to_list next ++ after)
    (connects answers pc ++ connected) (opens pc ++ opened)).
Proof.
  intros Hok Hgen Hstep.
  destruct pc as [| |g|g|g|g|g b]; simpl in Hstep; simplify_eq/=.
  - eapply (gate_ok_thread _ _ _ _ _ _ _ _ []); [exact Hok|done|by left|..];
      destruct (stop_broker _ _); try apply sublist_nil_l; none_installing.
  - by apply gate_ok_generation.
  - by eapply (gate_ok_thread _ _ _ _ _ [AtCreate g] _ _ []);
      [exact Hok|done|left|..|none_installing].
  - destruct (en_create answers); simplify_eq/=.
    + by eapply (gate_ok_thread _ _ _ _ _ [AtAwait g] _ _ []);
        [exact Hok|done|right|..|none_installing].
    + by eapply (gate_ok_thread _ _ _ _ _ [] _ _ []);
        [exact Hok|done|left|apply sublist_nil_l|none_installing].
  - by eapply (gate_ok_thread _ _ _ _ _ [AtConnect g] _ _ []);
      [exact Hok|done|left|..|none_installing].
  - destruct (connect answers g) as [b|fault] eqn:Hc; simplify_eq/=.
    + eapply (gate_ok_thread _ _ _ _ _ [AtInstall g b] _ _ [g]);
        [exact Hok|done|by right|done|none_installing; by left].
    + by eapply (gate_ok_thread _ _ _ _ _ [] _ _ []);
        [exact Hok|done|left|apply sublist_nil_l|none_installing].
  - by apply (gate_ok_install _ _ g b).
Qed.

#[export] Instance gate_ok_invariant : Invariant gate_ok.
Proof.
  split.
  - intros s ->. split; simpl; try done; [by intros g ?%elem_of_nil|apply NoDup_nil_2|none_installing].
  - intros s s' Hok Hs. destruct Hs.
    + destruct Hok as [Hp Hb Hu Hi Hc Ha]. split; simpl in *; try done.
      intros g b [[=]|Hin]%elem_of_cons. by apply (Hi g b).
    + by eapply enable_step_ok.
    + eapply gate_ok_keep; [| |exact Hok]; [done|by left].
    + eapply gate_ok_keep; [| |exact Hok]; unfold refresh_broker_liveness;
        [by repeat case_match|]. destruct (ps_lifecycle shared) eqn:Hl, running; simpl; rewrite ?Hl; auto.
    + pose proof (gateway_call_lifecycle running request expected shared) as [Hn Hl].
      by eapply gate_ok_keep.
Qed.

(** C36 (invariant): the gate under interleaving.  Any number of threads may be
    enabling the broker while others disable it, refresh its liveness or call
    through it, in any order.  Whenever the gate is open for generation [g], then
    [g] is the latest to have opened, exactly one thread ever opened it, and that
    thread had launched the broker with the user's consent, accepted its
    connection, shaken hands and received its pong; no thread still on its way
    holds a generation that ever opened, so a closed session never comes back. *)
Theorem gate_opens_once_per_generation (s : GateState) (generation : GenerationId)
    (broker : ActiveBroker P) :
  reachable s →
  ps_lifecycle (gs_shared s) = LifecycleActive generation broker →
  let g := generation_get generation in
  head (gs_opened s) = Some g ∧ NoDup (gs_opened s) ∧ g ∈ gs_connected s ∧
  0 < g < ps_next_generation (gs_shared s) ∧
  (∀ g', g' ∈ gs_opened s → g' ∉ in_flight (gs_enabling s)).
Proof.
  intros Hr Hl g. pose proof (invariant_reachable gate_ok s Hr) as [Hp Hb Hu Hi Hc Ha].
  assert (head (gs_opened s) = Some g) as Hhead by (apply Ha; by rewrite Hl).
  assert (g ∈ gs_opened s) as Hin by (destruct (gs_opened s); simplify_eq/=; by left).
  apply NoDup_app in Hu as (_ & Hdis & Hu).
  split; [done|]. split; [done|]. split; [by apply Hc|]. split.
  - apply Hb. rewrite elem_of_app. by right.
  - intros g' Hg' Hf. by apply (Hdis g').
Qed.
End gate.

(** ** Through the gate to the broker *)

(** The broker process at the other end of the pipe. *)
Inductive PeerState :=
  | PeerStarting (args : BrokerProcessArgs)
  | PeerServing (broker : BrokerState)
  | PeerEnded.

(** What its environment answers, turn by turn, and what it set in motion. *)
Record Peer := MkPeer {
  pe_answers : nat → Answers;
  pe_turns : nat;
  pe_state : PeerState;
  pe_effects : list BrokerEffect
}.

Section composition.
Context `{!Serde BrokerRequestEnvelope, !Serde BrokerResponseEnvelope}.
Context `{!Serde ServerHello, !Serde BrokerReady}.

(** A frame reaches the broker, which replies, or has ended. *)
#[export] Instance peer_wire : Wire Peer := λ frame p,
  match pe_state p with
  | PeerStarting args =>
      match broker_handshake args frame with
      | Ok (ready, broker) =>
          (MkPeer (pe_answers p) (pe_turns p) (PeerServing broker) (pe_effects p), Ok ready)
      | Err _ => (MkPeer (pe_answers p) (pe_turns p) PeerEnded (pe_effects p), Err Disconnected)
      end
  | PeerServing broker =>
      let '(effects, turn) := broker_turn (pe_answers p (pe_turns p)) frame broker in
      let next state := MkPeer (pe_answers p) (S (pe_turns p)) state (pe_effects p ++ effects) in
      match turn with
      | Continue broker reply => (next (PeerServing broker), Ok reply)
      | ShutDown reply => (next PeerEnded, Ok reply)
      | Failed _ => (next PeerEnded, Err Disconnected)
      end
  | PeerEnded => (p, Err Disconnected)
  end.

(** The gate is open, and its session is paired with a broker that serves. *)
Record serving (shared : PrivilegeShared Peer) (session : Session Peer) (broker : BrokerState) :
    Prop := MkServing {
  sv_active : ∃ generation process,
    ps_lifecycle shared = LifecycleActive generation (MkActiveBroker session process);
  sv_state : pe_state session.2 = PeerServing broker;
  sv_paired : paired session.1 broker
}.

(** The frames of one request and its response can be encoded. *)
Definition call_fits (client : BrokerClientSession) (request : BrokerRequest)
    (handled : Handled) : Prop :=
  is_ok (encode_frame (request_envelope (cs_generation client) (cs_session_nonce client)
    (cs_next_sequence client) request)) = true ∧
  ∀ response, h_response handled = Ok response → is_ok (encode_frame
    (response_envelope (cs_generation client) (cs_next_sequence client) response)) = true.

(** What a call returns, by what the broker made of it. *)
Definition call_outcome {T} (expected : BrokerResponse → result BrokerRunError T)
    (handled : Handled) : result BrokerRunError T :=
  match h_response handled with
  | Ok response => expected response
  | Err _ => Err (Ipc Disconnected)
  end.

Ltac rewrite_received :=
  match goal with H : client_receive _ _ _ = _ |- _ => rewrite H end.

Lemma session_call_served {T} (expected : BrokerResponse → result BrokerRunError T)
    request client (p : Peer) broker :
  pe_state p = PeerServing broker → paired client broker → cs_next_sequence client < u64_max →
  let handled := handle_request (pe_answers p (pe_turns p)) request (st_owned broker) in
  call_fits client request handled →
  ∃ client' p' broker',
    session_call request expected (client, p) = ((client', p'), call_outcome expected handled) ∧
    pe_answers p' = pe_answers p ∧ pe_turns p' = S (pe_turns p) ∧
    pe_effects p' = pe_effects p ++ h_effects handled ∧
    (h_response handled ≠ Ok ShutdownAck → (∀ e, h_response handled ≠ Err e) →
     pe_state p' = PeerServing broker') ∧
    paired client' broker' ∧ st_owned broker' = h_owner handled ∧
    cs_generation client' = cs_generation client ∧
    cs_session_nonce client' = cs_session_nonce client ∧
    cs_next_sequence client' = cs_next_sequence client + 1.
Proof.
  intros Hst Hp Hmax handled [Hreq Hresp].
  destruct (exchange_served _ _ _ _ Hp Hmax Hreq Hresp) as
    (client' & broker' & Hp' & Ho & Hg & Hn & Hs & He).
  unfold exchange in He. unfold session_call, client_request, wire_reply, exchange_frame, peer_wire.
  destruct (client_send request client) as [client0 [frame|e]];
    [|fold handled in He; simplify_eq; exfalso; by destruct (h_response handled) as [[]|]].
  rewrite Hst. destruct (broker_turn _ frame broker) as [effects turn] eqn:Ht.
  fold handled in He. unfold call_outcome.
  destruct turn as [b reply|reply|e]; simplify_eq/=.
  - eexists _, _, broker'. destruct (h_response handled) as [[]|]; simplify_eq/=;
      rewrite_received; by split_and!.
  - eexists _, _, broker'. destruct (h_response handled) as [[]|]; simplify_eq/=;
      rewrite_received; split_and!; try done; intros Hs1 Hs2;
      first [by destruct Hs1 | by edestruct Hs2].
  - eexists _, _, broker'. destruct (h_response handled) as [[]|e']; simplify_eq/=; split_and!; try done.
    intros _ Hne. by destruct (Hne e').
Qed.

Lemma only_shutdown_acks answers request owned :
  h_response (handle_request answers request owned) = Ok ShutdownAck → request = Shutdown.
Proof.
  destruct request; cbn [handle_request]; try done;
    unfold handle_start_exec, handle_poll_exec, handle_cancel_exec, handle_filesystem,
      handle_structured_filesystem, handle_start_structured, handle_poll_structured,
      handle_cancel_structured; repeat case_match; simpl; intros; simplify_eq/=.
Qed.

(** What a call through an open gate comes to, and what it leaves. *)
Record called (session session' : Session Peer) (broker broker' : BrokerState) (handled : Handled) :
    Prop := MkCalled {
  cd_answers : pe_answers session'.2 = pe_answers session.2;
  cd_turns : pe_turns session'.2 = S (pe_turns session.2);
  cd_effects : pe_effects session'.2 = pe_effects session.2 ++ h_effects handled;
  cd_owned : st_owned broker' = h_owner handled;
  cd_generation : cs_generation session'.1 = cs_generation session.1;
  cd_nonce : cs_session_nonce session'.1 = cs_session_nonce session.1;
  cd_next : cs_next_sequence session'.1 = cs_next_sequence session.1 + 1
}.

Lemma gateway_call_served {T} (expected : BrokerResponse → result BrokerRunError T) request
    (shared : PrivilegeShared Peer) session broker :
  serving shared session broker → cs_next_sequence session.1 < u64_max → request ≠ Shutdown →
  let handled :=
    handle_request (pe_answers session.2 (pe_turns session.2)) request (st_owned broker) in
  call_fits session.1 request handled →
  match call_outcome expected handled with
  | Ok value => ∃ shared' session' broker',
      gateway_call true request expected shared = (shared', Ok value) ∧
      serving shared' session' broker' ∧ called session session' broker broker' handled
  | Err e =>
      gateway_call true request expected shared =
        (shared <| ps_lifecycle := LifecycleFaulted (map_broker_fault e) |>,
         Err (BrokerFault (map_broker_fault e)))
  end.
Proof.
  intros [(g & pid & Hact) Hst Hp] Hmax Hns handled Hfit. destruct session as [client p].
  destruct (session_call_served expected request client p broker Hst Hp Hmax Hfit) as
    (client' & p' & broker' & Hcall & Ha & Ht & He & Hs & Hp' & Ho & Hg & Hn & Hq).
  unfold gateway_call, with_session. rewrite Hact. cbn [negb ab_session].
  rewrite (Hcall : _ = (_, call_outcome expected handled)). destruct (call_outcome expected handled) as [v|e] eqn:Hout; [|done].
  eexists _, (client', p'), broker'. split; [done|]. split; [|by split].
  split; simpl; [by eexists _, _| |done]. apply Hs; unfold call_outcome in Hout.
  - intros Hack. by apply Hns, (only_shutdown_acks _ _ _ Hack).
  - intros e Herr. by rewrite (Herr : h_response handled = Err e) in Hout.
Qed.

(** A response the client did not ask for closes the gate for everyone.
    When the broker of an open gate answers [Rejected] to a call whose method does not
    expect it, the call fails with [ProtocolMismatch] and the lifecycle is faulted,
    which drops the session; the next call is refused at the gate. *)
Theorem rejection_closes_gate {T} (expected : BrokerResponse → result BrokerRunError T)
    (request : BrokerRequest) (code : BrokerRejectCode) (shared : PrivilegeShared Peer)
    (session : Session Peer) (broker : BrokerState) :
  serving shared session broker → cs_next_sequence session.1 < u64_max → request ≠ Shutdown →
  let handled :=
    handle_request (pe_answers session.2 (pe_turns session.2)) request (st_owned broker) in
  call_fits session.1 request handled →
  h_response handled = Ok (Rejected code) →
  expected (Rejected code) = Err UnexpectedResponse →
  gateway_call true request expected shared =
    (shared <| ps_lifecycle := LifecycleFaulted StateModel.ProtocolMismatch |>,
     Err (BrokerFault StateModel.ProtocolMismatch)) ∧
  ∀ T' running request' (expected' : BrokerResponse → result BrokerRunError T'),
    gateway_call running request' expected' (gateway_call true request expected shared).1 =
      ((gateway_call true request expected shared).1,
       Err (GateClosed (PrivilegeFaulted StateModel.ProtocolMismatch))).
Proof.
  intros Hs Hmax Hns handled Hfit Hr He.
  pose proof (gateway_call_served expected request shared session broker Hs Hmax Hns Hfit) as Hc.
  fold handled in Hc. unfold call_outcome in Hc. rewrite Hr, He in Hc. rewrite Hc.
  split; [done|]. by intros.
Qed.

(** One poll of a worker that is known. *)
Lemma poll_known request_id answers owned :
  valid_elevated_request_id request_id = true → is_Some (bo_executions owned !! request_id) →
  let handled := handle_request answers (PollExec request_id) owned in
  match an_exec answers with
  | TryEmpty => handled = respond owned ExecPending
  | Received (Ok execution) =>
      handled = respond (owned <| bo_executions ::= delete request_id |>) (ExecCompleted execution)
  | _ => True
  end.
Proof.
  intros Hv [w Hw]. simpl. unfold handle_poll_exec. rewrite Hv, Hw. simpl.
  by destruct (an_exec answers) as [[]| |].
Qed.

(** The frames of starting and polling one execution can be encoded. *)
Definition execution_fits (client : BrokerClientSession) (request_id : ustr)
    (spec : ElevatedExecSpec) (execution : ElevatedExecResult) (calls : N) : Prop :=
  ∀ sequence, cs_next_sequence client ≤ sequence < cs_next_sequence client + calls →
    (∀ request, request ∈ [StartExec request_id spec; PollExec request_id] → is_ok (encode_frame
      (request_envelope (cs_generation client) (cs_session_nonce client) sequence request)) = true) ∧
    (∀ response, response ∈ [ExecAccepted; ExecPending; ExecCompleted execution] → is_ok
      (encode_frame (response_envelope (cs_generation client) sequence response)) = true).

Lemma execution_fits_next client client' request_id spec execution calls :
  cs_generation client' = cs_generation client →
  cs_session_nonce client' = cs_session_nonce client →
  cs_next_sequence client' = cs_next_sequence client + 1 →
  execution_fits client request_id spec execution (calls + 1) →
  execution_fits client' request_id spec execution calls.
Proof.
  intros Hg Hn Hs Hfit sequence Hr. rewrite Hg, Hn. rewrite Hs in Hr. apply Hfit. lia.
Qed.

Lemma execution_fits_call client request_id spec execution calls request handled response :
  0 < calls → execution_fits client request_id spec execution calls →
  request ∈ [StartExec request_id spec; PollExec request_id] →
  h_response handled = Ok response →
  response ∈ [ExecAccepted; ExecPending; ExecCompleted execution] →
  call_fits client request handled.
Proof.
  intros Hc Hfit Hq Hr Hin. destruct (Hfit (cs_next_sequence client)) as [H1 H2]; [lia|].
  split; [by apply H1|]. intros response'. rewrite Hr. intros [= <-]. by apply H2.
Qed.

(** Polling a worker that is known, until it reports. *)
Lemma poll_until_reports request_id spec execution pending :
  valid_elevated_request_id request_id = true →
  ∀ (shared : PrivilegeShared Peer) session broker,
  serving shared session broker → is_Some (bo_executions (st_owned broker) !! request_id) →
  (∀ i, (i < pending)%nat → an_exec (pe_answers session.2 (pe_turns session.2 + i)) = TryEmpty) →
  an_exec (pe_answers session.2 (pe_turns session.2 + pending)) = Received (Ok execution) →
  cs_next_sequence session.1 + N.of_nat (S pending) ≤ u64_max →
  execution_fits session.1 request_id spec execution (N.of_nat (S pending)) →
  ∃ shared' session' broker',
    poll_until (replicate (S pending) true) request_id shared = (shared', Some (Ok execution)) ∧
    serving shared' session' broker' ∧ pe_effects session'.2 = pe_effects session.2 ∧
    st_owned broker' = st_owned broker <| bo_executions ::= delete request_id |>.
Proof.
  intros Hvalid. induction pending as [|pending IH];
    intros shared session broker Hs Hk Hpend Hdone Hmax Hfit.
  - pose proof (poll_known request_id (pe_answers session.2 (pe_turns session.2)) (st_owned broker)
      Hvalid Hk) as Hh. cbv zeta in Hh. rewrite Nat.add_0_r in Hdone. rewrite Hdone in Hh.
    pose proof (gateway_call_served expect_exec (PollExec request_id) shared session broker Hs)
      as Hc. rewrite Hh in Hc. cbn [call_outcome respond h_response expect_exec] in Hc.
    destruct Hc as (shared' & session' & broker' & Hc & Hs' & Hd); [lia|done| |].
    { eapply (execution_fits_call _ request_id spec execution 1 _ _ (ExecCompleted execution));
        [lia|exact Hfit|set_solver|done|set_solver]. }
    exists shared', session', broker'. cbn [replicate poll_until]. unfold poll_execute. rewrite Hc.
    destruct Hd as [_ _ He Ho _ _ _]. simpl in He. rewrite app_nil_r in He. done.
  - pose proof (poll_known request_id (pe_answers session.2 (pe_turns session.2)) (st_owned broker)
      Hvalid Hk) as Hh. cbv zeta in Hh.
    pose proof (Hpend 0%nat) as Hp0. rewrite Nat.add_0_r in Hp0. rewrite Hp0 in Hh by lia.
    pose proof (gateway_call_served expect_exec (PollExec request_id) shared session broker Hs)
      as Hc. rewrite Hh in Hc. cbn [call_outcome respond h_response expect_exec] in Hc.
    destruct Hc as (shared' & session' & broker' & Hc & Hs' & Hd); [lia|done| |].
    { eapply (execution_fits_call _ request_id spec execution _ _ _ ExecPending);
        [|exact Hfit|set_solver|done|set_solver]. lia. }
    destruct Hd as [Ha Ht He Ho Hg Hn Hq]. simpl in He, Ho. rewrite app_nil_r in He.
    destruct (IH shared' session' broker' Hs') as (shared2 & session2 & broker2 & Hr & Hs2 & He2 & Ho2).
    + by rewrite Ho.
    + intros i Hi. rewrite Ha, Ht, Nat.add_succ_comm. apply Hpend. lia.
    + rewrite Ha, Ht, Nat.add_succ_comm. done.
    + lia.
    + eapply execution_fits_next; [exact Hg|exact Hn|exact Hq|].
      replace (N.of_nat (S pending) + 1) with (N.of_nat (S (S pending))) by lia. done.
    + exists shared2, session2, broker2. cbn [replicate poll_until] in *. unfold poll_execute.
      rewrite Hc. split; [exact Hr|]. split; [done|]. split; [congruence|by rewrite Ho2, Ho].
Qed.

(** C37 (functional): running a program as administrator works end to end.  Through
    an open gate whose broker serves, [execute] of a valid request with a fresh id,
    while there is capacity and the worker thread can be spawned, starts the program
    exactly once and - however often the worker is still busy when it is polled -
    returns the worker's result; the gate stays open, the session stays paired, and
    the broker is left with the workers it had before. *)
Theorem execute_runs_once (request_id : ustr) (spec : ElevatedExecSpec)
    (execution : ElevatedExecResult) (pending : nat) (shared : PrivilegeShared Peer)
    (session : Session Peer) (broker : BrokerState) :
  serving shared session broker →
  valid_elevated_request_id request_id = true → validate_exec spec = Ok () →
  owner_contains request_id (st_owned broker) = false →
  (owner_len (st_owned broker) < MAX_ACTIVE_BROKER_REQUESTS)%nat →
  let answers i := pe_answers session.2 (pe_turns session.2 + i) in
  an_spawned (answers 0%nat) = true →
  (∀ i, (i < pending)%nat → an_exec (answers (S i)) = TryEmpty) →
  an_exec (answers (S pending)) = Received (Ok execution) →
  cs_next_sequence session.1 + N.of_nat (S (S pending)) ≤ u64_max →
  execution_fits session.1 request_id spec execution (N.of_nat (S (S pending))) →
  ∃ shared' session' broker',
    execute true (replicate (S pending) true) request_id spec shared =
      (shared', Some (Ok execution)) ∧
    serving shared' session' broker' ∧
    pe_effects session'.2 = pe_effects session.2 ++ [SpawnExec request_id spec] ∧
    st_owned broker' = st_owned broker.
Proof.
  intros Hs Hvalid Hspec Hfresh Hroom answers Hspawn Hpend Hdone Hmax Hfit.
  assert (handle_request (pe_answers session.2 (pe_turns session.2)) (StartExec request_id spec)
      (st_owned broker) = MkHandled
        (st_owned broker <| bo_executions ::= insert request_id (MkActiveExecution false) |>)
        [SpawnExec request_id spec] (Ok ExecAccepted)) as Hh.
  { cbn [handle_request]. unfold handle_start_exec, broker_request_admission.
    rewrite Hvalid, Hspec, Hfresh, (proj2 (Nat.leb_gt _ _)) by lia.
    unfold answers in Hspawn. rewrite Nat.add_0_r in Hspawn. by rewrite Hspawn. }
  pose proof (gateway_call_served expect_exec_accepted (StartExec request_id spec) shared session
    broker Hs) as Hc. rewrite Hh in Hc. cbn [call_outcome h_response expect_exec_accepted] in Hc.
  destruct Hc as (shared1 & session1 & broker1 & Hc & Hs1 & Hd); [lia|done| |].
  { eapply (execution_fits_call _ request_id spec execution _ _ _ ExecAccepted);
      [|exact Hfit|set_solver|done|set_solver]. lia. }
  destruct Hd as [Ha Ht He Ho Hg Hn Hq]. simpl in He, Ho.
  destruct (poll_until_reports request_id spec execution pending Hvalid shared1 session1 broker1 Hs1)
    as (shared2 & session2 & broker2 & Hr & Hs2 & He2 & Ho2).
  - rewrite Ho. simpl. rewrite lookup_insert_eq. by eexists.
  - intros i Hi. rewrite Ha, Ht, Nat.add_succ_comm. by apply Hpend.
  - rewrite Ha, Ht, Nat.add_succ_comm. done.
  - lia.
  - eapply execution_fits_next; [exact Hg|exact Hn|exact Hq|].
    replace (N.of_nat (S pending) + 1) with (N.of_nat (S (S pending))) by lia. done.
  - exists shared2, session2, broker2. unfold execute, start_execute. rewrite Hc.
    split; [exact Hr|]. split; [done|]. split; [congruence|]. rewrite Ho2, Ho.
    apply owner_contains_false in Hfresh as [Hne _]. destruct (st_owned broker) as [ex fs].
    simpl in *. unfold set_field. simpl. by rewrite delete_insert_id.
Qed.
End composition.

(** ** Witnesses *)

Definition demo_worker_answers (t : nat) : Answers :=
  MkAnswers true (if (t =? 2)%nat then TryEmpty else Received (Ok demo_result)) TryEmpty (Err ())
    (Err AdminIo).

#[local] Instance demo_requests_serde : Serde BrokerRequestEnvelope := table_serde
  (s ← [1; 2; 3; 4; 5];
   r ← [Ping; StartExec (lit "r1") demo_exec; PollExec (lit "r1"); CancelExec (lit "r1")];
   [request_envelope 1 demo_nonce s r]).
#[local] Instance demo_responses_serde : Serde BrokerResponseEnvelope := table_serde
  (s ← [1; 2; 3; 4; 5];
   r ← [Pong; ExecAccepted; ExecPending; ExecCompleted demo_result;
        Rejected RejectRequestNotFound];
   [response_envelope 1 s r]).
#[local] Instance demo_hellos_serde : Serde ServerHello :=
  table_serde [MkServerHello BROKER_PROTOCOL_VERSION 1 demo_nonce].
#[local] Instance demo_readies_serde : Serde BrokerReady :=
  table_serde [MkBrokerReady BROKER_PROTOCOL_VERSION 1 demo_nonce].

(** The gate after a user has consented, with the real broker at the other end. *)
Definition demo_peer : Peer :=
  MkPeer demo_worker_answers 0
    (PeerStarting (MkBrokerProcessArgs (lit "\\.\pipe\LocalBridge-Privileged-00") 1)) [].
Definition demo_enable : EnableAnswers Peer :=
  MkEnableAnswers (MkStopAnswers (Ok true) (Ok ()) (Ok true)) (Ok ()) (Ok 4711) (Ok demo_peer)
    (Ok demo_nonce).
Definition demo_open : PrivilegeShared Peer := (enable_broker demo_enable privilege_default).1.
Definition demo_session : Session Peer :=
  (MkBrokerClientSession 1 demo_nonce 2,
   MkPeer demo_worker_answers 1
     (PeerServing (MkBrokerState (MkBrokerSession 1 demo_nonce 1) owner_default)) []).
Definition demo_serving_broker : BrokerState :=
  MkBrokerState (MkBrokerSession 1 demo_nonce 1) owner_default.

Lemma demo_open_active :
  demo_open = MkPrivilegeShared (LifecycleActive (MkGenerationId 1)
    (MkActiveBroker demo_session 4711)) 2.
Proof. by vm_compute. Qed.

Lemma demo_open_serving : serving demo_open demo_session demo_serving_broker.
Proof. rewrite demo_open_active. split; [by eexists _, _|done|done]. Qed.

(** One enabling thread from the start to the open gate. *)
Lemma demo_open_reachable :
  reachable (MkGateState demo_open [] [1] [1]).
Proof.
  exists (MkGateState privilege_default [] [] []). split; [done|].
  eapply rtc_l; [apply gate_begin|].
  do 6 (eapply rtc_l;
    [eapply (gate_enable _ [] _ [] _ _ demo_enable); [done|by vm_compute]|];
    cbn [to_list app connects opens]).
  eapply rtc_l; [eapply (gate_enable _ [] _ [] _ _ demo_enable); [done|by vm_compute]|].
  assert (∀ a b : GateState, a = b → rtc sm_step a b) as Heq by (by intros a ? <-).
  apply Heq. by vm_compute.
Qed.

Lemma gate_opens_once_per_generation_witness :
  head (gs_opened (MkGateState demo_open [] [1] [1])) = Some 1 ∧
  NoDup (gs_opened (MkGateState demo_open [] [1] [1])) ∧ 1 ∈ [1] ∧
  0 < 1 < ps_next_generation demo_open ∧ (∀ g', g' ∈ [1] → g' ∉ in_flight (P:=Peer) []).
Proof.
  apply (gate_opens_once_per_generation (MkGateState demo_open [] [1] [1]) (MkGenerationId 1)
    (MkActiveBroker demo_session 4711) demo_open_reachable).
  by vm_compute.
Defined.

(** Busy once, then done. *)
Lemma demo_execution_fits :
  execution_fits demo_session.1 (lit "r1") demo_exec demo_result 3.
Proof.
  intros sequence Hs. simpl in Hs.
  assert (sequence ∈ [2; 3; 4]) as Hin by (rewrite !elem_of_cons; lia).
  split; intros v Hv.
  - cut (forallb (λ s, forallb (λ v, is_ok (encode_frame (request_envelope 1 demo_nonce s v)))
      [StartExec (lit "r1") demo_exec; PollExec (lit "r1")]) [2; 3; 4] = true); [|by vm_compute].
    rewrite forallb_forall. intros H. specialize (H sequence (proj1 (list_elem_of_In _ _) Hin)).
    rewrite forallb_forall in H. by apply H, list_elem_of_In.
  - cut (forallb (λ s, forallb (λ v, is_ok (encode_frame (response_envelope 1 s v)))
      [ExecAccepted; ExecPending; ExecCompleted demo_result]) [2; 3; 4] = true); [|by vm_compute].
    rewrite forallb_forall. intros H. specialize (H sequence (proj1 (list_elem_of_In _ _) Hin)).
    rewrite forallb_forall in H. by apply H, list_elem_of_In.
Qed.

Lemma execute_runs_once_witness : ∃ shared' session' broker',
  execute true [true; true] (lit "r1") demo_exec demo_open = (shared', Some (Ok demo_result)) ∧
  serving shared' session' broker' ∧ pe_effects session'.2 = [SpawnExec (lit "r1") demo_exec] ∧
  st_owned broker' = owner_default.
Proof.
  apply (execute_runs_once (lit "r1") demo_exec demo_result 1 demo_open demo_session
    demo_serving_broker demo_open_serving);
    [reflexivity|by vm_compute|reflexivity|apply Nat.ltb_lt; by vm_compute|reflexivity| |
     reflexivity|by vm_compute|exact demo_execution_fits].
  intros [|i] Hi; [reflexivity|lia].
Defined.

(** Cancelling an execution whose result has just been collected. *)
Lemma rejection_closes_gate_witness :
  gateway_call true (CancelExec (lit "r1")) expect_cancel demo_open =
    (demo_open <| ps_lifecycle := LifecycleFaulted StateModel.ProtocolMismatch |>,
     Err (BrokerFault StateModel.ProtocolMismatch)) ∧
  ∀ T' running request' (expected' : BrokerResponse → result BrokerRunError T'),
    gateway_call running request' expected'
        (gateway_call true (CancelExec (lit "r1")) expect_cancel demo_open).1 =
      ((gateway_call true (CancelExec (lit "r1")) expect_cancel demo_open).1,
       Err (GateClosed (PrivilegeFaulted StateModel.ProtocolMismatch))).
Proof.
  apply (rejection_closes_gate expect_cancel (CancelExec (lit "r1")) RejectRequestNotFound demo_open
    demo_session demo_serving_broker demo_open_serving);
    [by vm_compute|done| |by vm_compute|done].
  split; [by vm_compute|]. intros response [= <-]. by vm_compute.
Defined.

(** A user who turns administrator mode off while the consent dialog is open: the
    gate is closed, and then opens all the same when the user consents. *)
Lemma disable_while_awaiting_is_lost : ∃ s,
  reachable s ∧ ps_lifecycle (gs_shared (P:=Peer) s) = LifecycleAwaitingUac ∧
  let disabled := MkGateState (disable (en_stop demo_enable) (gs_shared s)).1 (gs_enabling s)
    (gs_connected s) (gs_opened s) in
  (disable (en_stop demo_enable) (gs_shared s)).2 = Ok () ∧
  rtc gate_step disabled (MkGateState demo_open [] [1] [1]).
Proof.
  exists (MkGateState (MkPrivilegeShared LifecycleAwaitingUac 2) [AtConnect 1] [] []).
  split; [|split; [done|split; [done|]]].
  - exists (MkGateState privilege_default [] [] []). split; [done|].
    eapply rtc_l; [apply gate_begin|].
    do 5 (eapply rtc_l;
      [eapply (gate_enable _ [] _ [] _ _ demo_enable); [done|by vm_compute]|];
      cbn [to_list app connects opens]).
    assert (∀ a b : GateState, a = b → rtc sm_step a b) as Heq by (by intros a ? <-).
    apply Heq. by vm_compute.
  - do 2 (eapply rtc_l;
      [eapply (gate_enable _ [] _ [] _ _ demo_enable); [done|by vm_compute]|];
      cbn [to_list app connects opens]).
    assert (∀ a b : GateState, a = b → rtc gate_step a b) as Heq by (by intros a ? <-).
    apply Heq. by vm_compute.
Qed.
