(* ===== verification/CodingEdit.v ===== *)
(** * CodingEdit: patches and exact text edits

    The text level of [src/src-tauri/src/filesystem/edit.rs]: parsing a patch
    and applying its hunks to the bytes of a file while keeping the byte order
    mark and the line ending.  The loops over the lines of a patch carry fuel;
    [parse_patch_total] shows that the number of lines is enough. *)

From S2P Require Import Prelude Text.
#[local] Open Scope N_scope.

(* @src filesystem/edit.rs:10-18 CodingEditError *)
Inductive CodingEditError :=
  | EditInvalidPath | EditNotFound | EditFileChanged | PatchConflict | AmbiguousMatch
  | MultiFilePatchUnsupported | EditIo.

(* @src filesystem/edit.rs:26-39 PatchOperation *)
Inductive PatchOperation :=
  | PatchUpdate (path : ustr) (destination : option ustr) (hunks : list (ustr * ustr))
  | PatchAdd (path : ustr) (content : bytes)
  | PatchDelete (path : ustr).

Definition CRLF : ustr := [0x0D; 0x0A].
Definition BOM : ustr := [0xFEFF].

(** ** Applying hunks *)

(* @src filesystem/edit.rs:253-255 normalize_patch_text *)
Definition normalize_patch_text (value : ustr) : ustr := replace CR LF (replace CRLF LF value).

(** What a hunk searches for and puts in its place: where the old text does
    not occur, its final newline may be missing at the end of the file. *)
(* @src filesystem/edit.rs:275-290 apply_text_hunks_preserving_format (needle and replacement) *)
Definition hunk_needle (text old new : ustr) : ustr * ustr :=
  if negb (contains old text) then
    match strip_suffix LF old with
    | Some without_final_newline =>
        if negb (bool_decide (without_final_newline = [])) && ends_with without_final_newline text
        then (without_final_newline, default new (strip_suffix LF new))
        else (old, new)
    | None => (old, new)
    end
  else (old, new).

(* @src filesystem/edit.rs:274-299 apply_text_hunks_preserving_format (one hunk) *)
Definition apply_hunk (text : ustr) (hunk : ustr * ustr) : result CodingEditError ustr :=
  let '(needle, replacement) := hunk_needle text hunk.1 hunk.2 in
  let count := count_matches needle text in
  if (count =? 0)%nat then Err PatchConflict
  else if (1 <? count)%nat then Err AmbiguousMatch
  else Ok (replace_first needle replacement text).

Fixpoint apply_hunks (text : ustr) (hunks : list (ustr * ustr)) : result CodingEditError ustr :=
  match hunks with
  | [] => Ok text
  | hunk :: hunks => text ← apply_hunk text hunk; apply_hunks text hunks
  end.

(** [find] counts bytes; on one string the comparison of two positions is the
    same in characters. *)
(* @src filesystem/edit.rs:265-272 apply_text_hunks_preserving_format (the line ending) *)
Definition uses_crlf (body : ustr) : bool :=
  match find_sub CRLF body with
  | None => false
  | Some crlf => match find_sub LF body with
                 | None => true
                 | Some lf => (crlf <=? lf - 1)%nat
                 end
  end.

(* @src filesystem/edit.rs:257-304 apply_text_hunks_preserving_format *)
Definition apply_text_hunks_preserving_format (content : bytes) (hunks : list (ustr * ustr)) :
    result CodingEditError bytes :=
  decoded ← ok_or PatchConflict (utf8_decode content);
  let '(bom, body) := match strip_prefix BOM decoded with
                      | Some body => (BOM, body)
                      | None => ([], decoded)
                      end in
  text ← apply_hunks (replace CR LF (replace CRLF LF body)) hunks;
  let text := if uses_crlf body then replace LF CRLF text else text in
  Ok (utf8_encode (bom ++ text)%list).

(** ** Parsing patches *)

Definition MARK : ustr := lit "*** ".

(** The [+] lines of an added file. *)
(* @src filesystem/edit.rs:337-344 parse_patch (added lines) *)
Fixpoint parse_added (rest : list ustr) (content : ustr) :
    result CodingEditError (ustr * list ustr) :=
  match rest with
  | [] => Ok (content, [])
  | line :: rest' =>
      if starts_with MARK line then Ok (content, rest) else
      match strip_prefix (lit "+") line with
      | None => Err PatchConflict
      | Some added => parse_added rest' (content ++ added ++ LF)%list
      end
  end.

(** The body of a hunk: its old and its new text. *)
(* @src filesystem/edit.rs:373-395 parse_patch (hunk body) *)
Fixpoint parse_body (rest : list ustr) (old new : ustr) :
    result CodingEditError (ustr * ustr * list ustr) :=
  match rest with
  | [] => Ok (old, new, [])
  | current :: rest' =>
      if starts_with (lit "@@") current || starts_with MARK current then Ok (old, new, rest) else
      match strip_prefix (lit "-") current with
      | Some value => parse_body rest' (old ++ value ++ LF)%list new
      | None =>
      match strip_prefix (lit "+") current with
      | Some value => parse_body rest' old (new ++ value ++ LF)%list
      | None =>
      match strip_prefix (lit " ") current with
      | Some value => parse_body rest' (old ++ value ++ LF)%list (new ++ value ++ LF)%list
      | None => Err PatchConflict
      end end end
  end.

(** [None] is a loop that ran out of fuel. *)
(* @src filesystem/edit.rs:367-400 parse_patch (the hunks of an update) *)
Fixpoint parse_hunks (fuel : nat) (rest : list ustr) (hunks : list (ustr * ustr)) :
    option (result CodingEditError (list (ustr * ustr) * list ustr)) :=
  match fuel with
  | O => None
  | S fuel =>
      match rest with
      | [] => Some (Ok (hunks, []))
      | line :: rest' =>
          if starts_with MARK line then Some (Ok (hunks, rest)) else
          if negb (starts_with (lit "@@") line) then Some (Err PatchConflict) else
          match parse_body rest' [] [] with
          | Err e => Some (Err e)
          | Ok (old, new, rest) =>
              if bool_decide (old = []) then Some (Err PatchConflict)
              else parse_hunks fuel rest (hunks ++ [(old, new)])%list
          end
      end
  end.

(** The optional line after the header of an update. *)
(* @src filesystem/edit.rs:360-366 parse_patch (the destination) *)
Definition parse_destination (rest : list ustr) : option ustr * list ustr :=
  match rest with
  | line :: rest' => match strip_prefix (lit "*** Move to: ") line with
                     | Some value => (Some value, rest')
                     | None => (None, rest)
                     end
  | [] => (None, [])
  end.

(** The loop over the operations; the last line has been checked already. *)
(* @src filesystem/edit.rs:330-410 parse_patch (the operations) *)
Fixpoint parse_operations (fuel : nat) (rest : list ustr) (operations : list PatchOperation) :
    option (result CodingEditError (list PatchOperation)) :=
  match fuel with
  | O => None
  | S fuel =>
      match rest with
      | [] | [_] => Some (Ok operations)
      | line :: rest =>
          match strip_prefix (lit "*** Add File: ") line with
          | Some path =>
              match parse_added rest [] with
              | Err e => Some (Err e)
              | Ok (content, rest) =>
                  parse_operations fuel rest
                    (operations ++ [PatchAdd path (utf8_encode content)])%list
              end
          | None =>
          match strip_prefix (lit "*** Delete File: ") line with
          | Some path => parse_operations fuel rest (operations ++ [PatchDelete path])%list
          | None =>
          match strip_prefix (lit "*** Update File: ") line with
          | Some path =>
              let '(destination, rest) := parse_destination rest in
              match parse_hunks (S (length rest)) rest [] with
              | None => None
              | Some (Err e) => Some (Err e)
              | Some (Ok (hunks, rest)) =>
                  parse_operations fuel rest
                    (operations ++ [PatchUpdate path destination hunks])%list
              end
          | None => Some (Err PatchConflict)
          end end end
      end
  end.

(* @src filesystem/edit.rs:322-411 parse_patch *)
Definition parse_patch (patch : ustr) : option (result CodingEditError (list PatchOperation)) :=
  let ls := lines (replace CRLF LF patch) in
  if negb (bool_decide (head ls = Some (lit "*** Begin Patch"))) ||
     negb (bool_decide (last ls = Some (lit "*** End Patch")))
  then Some (Err PatchConflict)
  else parse_operations (S (length ls)) (tail ls) [].

(** ** Replacement and counting, character by character *)

Lemma find_sub_empty p : p ≠ [] → find_sub p [] = None.
Proof. by destruct p. Qed.

Lemma replace_aux_fuel p r n m s :
  p ≠ [] → (length s ≤ n)%nat → (length s ≤ m)%nat → replace_aux n p r s = replace_aux m p r s.
Proof.
  intros Hp. revert m s. induction n as [|n IH]; intros m s Hn Hm.
  - destruct s; [|simpl in Hn; lia]. destruct m; [done|]. cbn [replace_aux].
    by rewrite find_sub_empty.
  - destruct m as [|m].
    { destruct s; [|simpl in Hm; lia]. cbn [replace_aux]. by rewrite find_sub_empty. }
    cbn [replace_aux]. destruct (find_sub p s) as [i|] eqn:Hf; [|done].
    do 2 f_equal. apply IH; rewrite length_drop;
      apply find_sub_Some in Hf as (u & v & -> & <- & _); destruct p; [done| |done|];
      rewrite !length_app in *; simpl in *; lia.
Qed.

Lemma replace_nil p r : replace p r [] = [].
Proof. done. Qed.

Lemma replace_cons p r c s :
  p ≠ [] →
  replace p r (c :: s) =
  if starts_with p (c :: s) then (r ++ replace p r (drop (length p) (c :: s)))%list
  else c :: replace p r s.
Proof.
  intros Hp. unfold replace. cbn [length replace_aux].
  change (find_sub p (c :: s)) with
    (if starts_with p (c :: s) then Some 0%nat else S <$> find_sub p s).
  destruct (starts_with p (c :: s)) eqn:Hs.
  - cbn [take app Nat.add]. f_equal. apply replace_aux_fuel; [done| |done].
    rewrite length_drop. destruct p; [done|]. cbn [length]. lia.
  - destruct (find_sub p s) as [i|] eqn:Hf; cbn [fmap option_fmap option_map].
    + cbn [take app Nat.add]. f_equal.
      rewrite (replace_aux_fuel p r (length s) (S (length s)) s) by (done || lia).
      cbn [replace_aux]. by rewrite Hf.
    + f_equal. destruct (length s); [done|]. cbn [replace_aux]. by rewrite Hf.
Qed.

Lemma replace_char c r s :
  replace [c] r s = concat (map (λ x, if c =? x then r else [x]) s).
Proof.
  induction s as [|x s IH]; [done|]. rewrite replace_cons by done.
  cbn [map concat starts_with]. rewrite andb_true_r.
  destruct (c =? x); cbn [app length drop]; by rewrite ?drop_0, IH.
Qed.

(** A text without carriage returns, written with the line ending [\r\n],
    reads back. *)
Definition expand (s : ustr) : ustr := replace LF CRLF s.

Lemma expand_cons c s :
  expand (c :: s) = (if c =? 0x0A then [0x0D; 0x0A] else [c]) ++ expand s.
Proof. unfold expand, LF, CRLF. rewrite !replace_char. cbn [map concat]. by rewrite (N.eqb_sym 10 c). Qed.

Definition no_cr (s : ustr) : Prop := Forall (λ c, c ≠ 0x0D) s.

Lemma replace_none p r s : p ≠ [] → find_sub p s = None → replace p r s = s.
Proof. intros Hp Hf. unfold replace. destruct (length s); [done|]. cbn [replace_aux]. by rewrite Hf. Qed.

Lemma no_cr_find p s : no_cr s → find_sub (0x0D :: p) s = None.
Proof.
  intros Hs. apply find_sub_None. intros u v ->. apply Forall_app in Hs as [_ Hs].
  by apply Forall_cons in Hs as [? _].
Qed.

Lemma normalize_lf s : no_cr s → normalize_patch_text s = s.
Proof.
  intros Hs. unfold normalize_patch_text.
  rewrite (replace_none CRLF LF s), (replace_none CR LF s) by (done || by apply no_cr_find). done.
Qed.

Lemma collapse_expand s : no_cr s → replace CRLF LF (expand s) = s.
Proof.
  induction 1 as [|c s Hc Hs IH]; [done|]. rewrite expand_cons.
  destruct (c =? 10) eqn:Hlf.
  - apply N.eqb_eq in Hlf as ->. cbn [app]. rewrite replace_cons by done.
    assert (starts_with CRLF (13 :: 10 :: expand s) = true) as -> by by destruct (expand s).
    change (drop (length CRLF) (13 :: 10 :: expand s)) with (expand s). by rewrite IH.
  - cbn [app]. rewrite replace_cons by done.
    assert (starts_with CRLF (c :: expand s) = false) as ->.
    { change ((13 =? c) && starts_with [10] (expand s) = false).
      by rewrite (proj2 (N.eqb_neq 13 c)). }
    by rewrite IH.
Qed.

Lemma normalize_expand s : no_cr s → normalize_patch_text (expand s) = s.
Proof.
  intros Hs. unfold normalize_patch_text. rewrite collapse_expand by done.
  apply replace_none; [done|by apply no_cr_find].
Qed.

(** ** The line ending of a file *)

Lemma expand_app s t : expand (s ++ t) = (expand s ++ expand t)%list.
Proof.
  unfold expand, LF. by rewrite !replace_char, map_app, concat_app.
Qed.

Lemma expand_no_lf s : Forall (λ c, c ≠ 0x0A) s → expand s = s.
Proof.
  induction 1 as [|c s Hc _ IH]; [done|]. rewrite expand_cons, IH.
  by rewrite (proj2 (N.eqb_neq c 10)).
Qed.

Lemma expand_Forall (P : N → Prop) s : P 0x0D → P 0x0A → Forall P s → Forall P (expand s).
Proof.
  intros Hcr Hlf. induction 1 as [|c s Hc Hs IH]; [constructor|]. rewrite expand_cons.
  apply Forall_app. split; [|done]. destruct (c =? 10); repeat constructor; done.
Qed.

Lemma first_lf s :
  0x0A ∈ s → ∃ u v, s = (u ++ LF ++ v)%list ∧ Forall (λ c, c ≠ 0x0A) u.
Proof.
  induction s as [|c s IH]; [by intros ?%not_elem_of_nil|]. destruct (decide (c = 0x0A)) as [->|Hc].
  { intros _. exists [], s. split; [done|constructor]. }
  intros [?|Hin]%elem_of_cons; [done|]. destruct (IH Hin) as (u & v & -> & Hu).
  exists (c :: u), v. split; [done|by constructor].
Qed.

Lemma uses_crlf_lf s : no_cr s → uses_crlf s = false.
Proof. intros Hs. unfold uses_crlf, CRLF. by rewrite no_cr_find. Qed.

Lemma uses_crlf_expand s : no_cr s → 0x0A ∈ s → uses_crlf (expand s) = true.
Proof.
  intros Hs Hin. apply first_lf in Hin as (u & v & -> & Hu).
  rewrite expand_app, (expand_no_lf u Hu), expand_app.
  apply Forall_app in Hs as [Hcr _].
  change (expand LF) with CRLF. unfold uses_crlf, CRLF.
  rewrite find_sub_first by done.
  change (u ++ [13; 10] ++ expand v)%list with (u ++ [13] ++ [10] ++ expand v)%list.
  rewrite app_assoc. unfold LF. rewrite (find_sub_first 10 [] (u ++ [13])%list (expand v)).
  - rewrite length_app. simpl. apply Nat.leb_le. lia.
  - apply Forall_app. split; [done|by repeat constructor].
Qed.

(** A file: the byte order mark it has, its line ending, and its text. *)
Definition render (bom crlf : bool) (text : ustr) : bytes :=
  utf8_encode ((if bom then BOM else []) ++ (if crlf then expand text else text))%list.

Lemma head_expand c s : head (expand (c :: s)) = Some (if c =? 0x0A then 0x0D else c).
Proof. rewrite expand_cons. by destruct (c =? 10). Qed.

Lemma strip_bom bom crlf text :
  (bom = false → head text ≠ Some 0xFEFF) →
  let body := if crlf : bool then expand text else text in
  match strip_prefix BOM ((if bom : bool then BOM else []) ++ body)%list with
  | Some body => (BOM, body)
  | None => ([], (if bom then BOM else []) ++ body)%list
  end = (if bom then BOM else [], body).
Proof.
  intros Hb body. unfold strip_prefix. destruct bom.
  - rewrite starts_with_app. by rewrite drop_app_length.
  - specialize (Hb eq_refl). cbn [app].
    assert (head body ≠ Some 0xFEFF) as Hhead.
    { subst body. destruct crlf; [|done]. destruct text as [|c text]; [done|].
      rewrite head_expand. simpl in Hb. destruct (c =? 10); [done|congruence]. }
    destruct body as [|c body]; [done|]. unfold BOM. cbn [starts_with].
    rewrite (proj2 (N.eqb_neq 0xFEFF c)); [done|]. simpl in Hhead. congruence.
Qed.

(** Applying hunks to a file keeps its format.  For a text
    file with either line ending, with or without a byte order mark, the result
    is the file in the same format of the text to which the same hunks apply
    (the line ending of a file without lines is the plain one); an error of one
    is the error of the other. *)
Theorem apply_hunks_preserves_format bom crlf text hunks
    (Hscalar : Forall (λ c, is_scalar c = true) text) (Hcr : no_cr text)
    (Hbom : bom = false → head text ≠ Some 0xFEFF) :
  apply_text_hunks_preserving_format (render bom crlf text) hunks =
  (text' ← apply_hunks text hunks;
   Ok (render bom (crlf && bool_decide (0x0A ∈ text)) text')).
Proof.
  unfold apply_text_hunks_preserving_format, render at 1.
  rewrite utf8_roundtrip.
  2:{ apply Forall_app. split; [destruct bom; by repeat constructor|].
      destruct crlf; [by apply expand_Forall|done]. }
  cbn [ok_or mbind result_bind]. rewrite strip_bom by done.
  change (replace CR LF (replace CRLF LF ?x)) with (normalize_patch_text x).
  destruct crlf.
  - rewrite normalize_expand by done. case_bool_decide as Hin.
    + by rewrite uses_crlf_expand.
    + rewrite expand_no_lf; [by rewrite uses_crlf_lf|].
      apply Forall_forall. intros c Hc ->. done.
  - rewrite normalize_lf by done. by rewrite uses_crlf_lf.
Qed.

(** ** What a hunk does *)

Lemma count_aux_zero n p s :
  p ≠ [] → (length s ≤ n)%nat → count_matches_aux n p s = 0%nat ↔ find_sub p s = None.
Proof.
  intros Hp Hn. destruct n as [|n]; cbn [count_matches_aux].
  - destruct s; [|simpl in Hn; lia]. by rewrite find_sub_empty.
  - by destruct (find_sub p s).
Qed.

(** The three cases of a count: none, one place, or two disjoint places. *)
Lemma count_matches_spec p s :
  p ≠ [] →
  match find_sub p s with
  | None => count_matches p s = 0%nat
  | Some i =>
      match find_sub p (drop (i + length p) s) with
      | None => count_matches p s = 1%nat
      | Some _ => (1 < count_matches p s)%nat
      end
  end.
Proof.
  intros Hp. unfold count_matches. destruct p as [|a p]; [done|]. set (q := a :: p) in *.
  destruct (find_sub q s) as [i|] eqn:Hf.
  2:{ by apply count_aux_zero. }
  destruct (length s) as [|n] eqn:Hlen.
  { destruct s; [|done]. by rewrite find_sub_empty in Hf. }
  cbn [count_matches_aux]. rewrite Hf.
  assert (length (drop (i + length q) s) ≤ n)%nat as Hle.
  { rewrite length_drop, Hlen. subst q. simpl. lia. }
  destruct (find_sub q (drop _ s)) eqn:Hrest.
  - assert (count_matches_aux n q (drop (i + length q) s) ≠ 0%nat) as Hne.
    { rewrite count_aux_zero by done. congruence. }
    lia.
  - apply (count_aux_zero n q _ Hp Hle) in Hrest as ->. done.
Qed.

Lemma ends_with_iff p s : ends_with p s = true ↔ ∃ u, s = (u ++ p)%list.
Proof.
  unfold ends_with. rewrite starts_with_iff. split; intros [u Hu].
  - exists (rev u). by rewrite <-(rev_involutive s), Hu, rev_app_distr, rev_involutive.
  - exists (rev u). by rewrite Hu, rev_app_distr.
Qed.

Lemma strip_suffix_Some p s u : strip_suffix p s = Some u → s = (u ++ p)%list.
Proof.
  unfold strip_suffix. destruct (ends_with p s) eqn:Hs; [|done]. intros [= <-].
  apply ends_with_iff in Hs as [v ->]. rewrite length_app, Nat.add_sub. by rewrite take_app_length.
Qed.

Lemma hunk_needle_spec text old new :
  let '(needle, replacement) := hunk_needle text old new in
  (needle = old ∧ replacement = new) ∨
  (contains old text = false ∧ needle ≠ [] ∧ old = (needle ++ LF)%list ∧
   replacement = default new (strip_suffix LF new) ∧ ∃ u, text = (u ++ needle)%list).
Proof.
  unfold hunk_needle. destruct (contains old text) eqn:Hc; [by left|]. cbn [negb].
  destruct (strip_suffix LF old) as [w|] eqn:Hw; [|by left].
  destruct (negb _ && _) eqn:Hg; [|by left].
  apply andb_true_iff in Hg as [Hne%negb_true_iff%bool_decide_eq_false Hend].
  right. apply strip_suffix_Some in Hw. apply ends_with_iff in Hend. done.
Qed.

(** What one hunk does to a text.  It searches for the old
    text, or, where that does not occur and the text ends with it but for its
    final newline, for the old text without it.  If the hunk applies, exactly
    one stretch of the text is replaced, the first occurrence, and every other
    occurrence overlaps it; it conflicts exactly if there is no occurrence; and
    it is ambiguous only if there are two disjoint ones. *)
Theorem hunk_replaces_one_place text old new :
  let '(needle, replacement) := hunk_needle text old new in
  ((needle = old ∧ replacement = new) ∨
   (contains old text = false ∧ needle ≠ [] ∧ old = (needle ++ LF)%list ∧
    replacement = default new (strip_suffix LF new) ∧ ∃ u, text = (u ++ needle)%list)) ∧
  match apply_hunk text (old, new) with
  | Ok text' => ∃ u v, text = (u ++ needle ++ v)%list ∧ text' = (u ++ replacement ++ v)%list ∧
      ∀ u' v', text = (u' ++ needle ++ v')%list →
        u' = u ∨ (length u < length u' < length u + length needle)%nat
  | Err PatchConflict => ∀ u v, text ≠ (u ++ needle ++ v)%list
  | Err AmbiguousMatch =>
      (needle = [] ∧ text ≠ []) ∨ ∃ u v w, text = (u ++ needle ++ v ++ needle ++ w)%list
  | Err _ => False
  end.
Proof.
  pose proof (hunk_needle_spec text old new) as Hneedle. unfold apply_hunk. cbn [fst snd].
  destruct (hunk_needle text old new) as [needle replacement]. split; [done|]. clear Hneedle.
  destruct (decide (needle = [])) as [->|Hne].
  { unfold count_matches. destruct text as [|c text]; simpl.
    - exists [], []. split_and!; [done|done|]. intros u' v' Hu.
      left. by destruct u'.
    - left. done. }
  pose proof (count_matches_spec needle text Hne) as Hcount.
  destruct (find_sub needle text) as [i|] eqn:Hf.
  2:{ rewrite Hcount. cbn. intros u v. by apply find_sub_None. }
  apply find_sub_Some in Hf as Hocc. destruct Hocc as (u & v & Htext & Hi & Hfirst).
  assert (drop (i + length needle) text = v) as Hdrop.
  { subst i text. by rewrite app_assoc, <-length_app, drop_app_length. }
  rewrite Hdrop in Hcount. destruct (find_sub needle v) as [k|] eqn:Hv.
  - rewrite (proj2 (Nat.eqb_neq _ _)) by lia. rewrite (proj2 (Nat.ltb_lt _ _)) by lia.
    right. apply find_sub_Some in Hv as (u2 & v2 & -> & _). by exists u, u2, v2.
  - rewrite Hcount. cbn. exists u, v. split_and!; [done| |].
    + unfold replace_first. rewrite Hf, Hdrop. f_equal. subst i text. by rewrite take_app_length.
    + intros u' v' Hocc. pose proof (Hfirst _ _ Hocc) as Hle. rewrite <-Hi in Hle.
      apply (f_equal (drop (length u'))) in Hocc as Htail. rewrite drop_app_length in Htail.
      destruct (decide (length u' = length u)) as [Heq|Hneq].
      { left. rewrite Htext in Hocc. by apply app_inj_1 in Hocc as [<- _]. }
      right. split; [lia|]. apply Nat.nle_gt. intros Hge.
      eapply find_sub_None in Hv. apply Hv.
      rewrite <-Hdrop, <-(take_drop (length u' - (i + length needle)) (drop (i + length needle) text)).
      rewrite drop_drop. replace (i + length needle + (length u' - (i + length needle)))%nat with (length u') by lia.
      by rewrite Htail.
Qed.

(** Occurrences that overlap are not seen as ambiguous: the first is edited. *)
Example overlapping_match_is_not_ambiguous :
  let brace := (lit "}" ++ LF)%list in
  apply_hunk (brace ++ brace ++ brace)%list ((brace ++ brace)%list, (lit "};" ++ LF)%list) =
    Ok (lit "};" ++ LF ++ brace)%list ∧
  (brace ++ brace ++ brace = brace ++ (brace ++ brace) ++ [])%list.
Proof. by vm_compute. Qed.

Lemma apply_hunks_preserves_format_witness :
  let text := lit "fn main() {}" ++ LF ++ lit "// end" ++ LF in
  apply_text_hunks_preserving_format (render true true text)
    [((lit "// end" ++ LF)%list, (lit "// done" ++ LF)%list)] =
  Ok (render true true (lit "fn main() {}" ++ LF ++ lit "// done" ++ LF)).
Proof.
  intros text. etrans.
  - apply (apply_hunks_preserves_format true true text); [|unfold no_cr|done];
      repeat (apply Forall_cons; split; [by vm_compute|]); apply Forall_nil; exact I.
  - by vm_compute.
Defined.

(** ** Parsing terminates *)

Lemma parse_added_length rest content content' rest' :
  parse_added rest content = Ok (content', rest') → (length rest' ≤ length rest)%nat.
Proof.
  revert content. induction rest as [|line rest IH]; intros content; cbn [parse_added].
  { by intros [= _ <-]. }
  destruct (starts_with MARK line); [by intros [= _ <-]|].
  destruct (strip_prefix _ _); [|done]. intros H%IH. cbn [length]. lia.
Qed.

Lemma parse_body_length rest old new old' new' rest' :
  parse_body rest old new = Ok (old', new', rest') → (length rest' ≤ length rest)%nat.
Proof.
  revert old new. induction rest as [|line rest IH]; intros old new; cbn [parse_body].
  { by intros [= _ _ <-]. }
  destruct (_ || _); [by intros [= _ _ <-]|].
  destruct (strip_prefix (lit "-") line); [intros H%IH; cbn [length]; lia|].
  destruct (strip_prefix (lit "+") line); [intros H%IH; cbn [length]; lia|].
  destruct (strip_prefix (lit " ") line); [intros H%IH; cbn [length]; lia|done].
Qed.

Lemma parse_hunks_total fuel rest hunks :
  (length rest < fuel)%nat →
  match parse_hunks fuel rest hunks with
  | None => False
  | Some (Ok (_, rest')) => (length rest' ≤ length rest)%nat
  | Some (Err _) => True
  end.
Proof.
  revert rest hunks. induction fuel as [|fuel IH]; intros rest hunks Hf; [lia|].
  cbn [parse_hunks]. destruct rest as [|line rest]; [done|].
  destruct (starts_with MARK line); [done|]. destruct (negb _); [done|].
  destruct (parse_body rest [] []) as [[[old new] rest']|] eqn:Hb; [|done].
  apply parse_body_length in Hb. case_bool_decide; [done|].
  cbn [length] in Hf. specialize (IH rest' (hunks ++ [(old, new)])%list ltac:(lia)).
  destruct (parse_hunks fuel _ _) as [[[hs r]|]|]; [|done..]. cbn [length]. lia.
Qed.

Lemma parse_destination_length rest : (length (parse_destination rest).2 ≤ length rest)%nat.
Proof. destruct rest as [|line rest]; [done|]. simpl. case_match; simpl; lia. Qed.

Lemma parse_operations_total fuel rest operations :
  (length rest < fuel)%nat → is_Some (parse_operations fuel rest operations).
Proof.
  revert rest operations. induction fuel as [|fuel IH]; intros rest operations Hf; [lia|].
  cbn [parse_operations]. destruct rest as [|line [|l rest]]; [done..|].
  cbn [length] in Hf. set (tl := l :: rest) in *. assert (length tl < fuel)%nat as Htl by (subst tl; simpl; lia).
  destruct (strip_prefix (lit "*** Add File: ") line).
  { destruct (parse_added tl []) as [[c r]|] eqn:Ha; [|done]. apply parse_added_length in Ha.
    apply IH. lia. }
  destruct (strip_prefix (lit "*** Delete File: ") line); [by apply IH|].
  destruct (strip_prefix (lit "*** Update File: ") line); [|done].
  pose proof (parse_destination_length tl) as Hd.
  destruct (parse_destination tl) as [dest r]. cbn [snd] in Hd.
  pose proof (parse_hunks_total (S (length r)) r [] ltac:(lia)) as Hh.
  destruct (parse_hunks _ r []) as [[[hs r']|]|]; [|done..]. apply IH. lia.
Qed.

(** The number of lines bounds both loops: a patch is always parsed or refused. *)
Lemma parse_patch_total patch : is_Some (parse_patch patch).
Proof.
  unfold parse_patch. destruct (_ || _); [done|]. apply parse_operations_total.
  destruct (lines _); simpl; lia.
Qed.

(** ** Printing patches *)

Inductive line_tag := Context | Removed | Added.

Record text_hunk := MkTextHunk { th_header : ustr; th_body : list (line_tag * ustr) }.

Inductive text_operation :=
  | TextUpdate (path : ustr) (destination : option ustr) (hunks : list text_hunk)
  | TextAdd (path : ustr) (content : list ustr)
  | TextDelete (path : ustr).

Definition unlines (ls : list ustr) : ustr := concat (map (λ l, l ++ LF)%list ls).

Definition print_line (l : line_tag * ustr) : ustr :=
  ((match l.1 with Context => lit " " | Removed => lit "-" | Added => lit "+" end) ++ l.2)%list.
Definition print_hunk (h : text_hunk) : list ustr :=
  (lit "@@" ++ th_header h)%list :: map print_line (th_body h).
Definition print_operation (o : text_operation) : list ustr :=
  match o with
  | TextAdd path content =>
      (lit "*** Add File: " ++ path)%list :: map (λ l, lit "+" ++ l)%list content
  | TextDelete path => [(lit "*** Delete File: " ++ path)%list]
  | TextUpdate path destination hunks =>
      ((lit "*** Update File: " ++ path)%list ::
       (match destination with Some d => [(lit "*** Move to: " ++ d)%list] | None => [] end) ++
       concat (map print_hunk hunks))%list
  end.
Definition patch_lines (os : list text_operation) : list ustr :=
  (lit "*** Begin Patch" :: concat (map print_operation os) ++ [lit "*** End Patch"])%list.
Definition print_patch (crlf : bool) (os : list text_operation) : ustr :=
  let text := unlines (patch_lines os) in if crlf then expand text else text.

(** What the operations mean: the text a hunk removes, and the text it leaves. *)
Definition old_lines (ls : list (line_tag * ustr)) : list ustr :=
  map snd (List.filter (λ l, match l.1 with Added => false | _ => true end) ls).
Definition new_lines (ls : list (line_tag * ustr)) : list ustr :=
  map snd (List.filter (λ l, match l.1 with Removed => false | _ => true end) ls).
Definition hunk_meaning (h : text_hunk) : ustr * ustr :=
  (unlines (old_lines (th_body h)), unlines (new_lines (th_body h))).
Definition operation_meaning (o : text_operation) : PatchOperation :=
  match o with
  | TextAdd path content => PatchAdd path (utf8_encode (unlines content))
  | TextDelete path => PatchDelete path
  | TextUpdate path destination hunks => PatchUpdate path destination (map hunk_meaning hunks)
  end.

(** Every line is one line, and every hunk has old text. *)
Definition one_line (s : ustr) : Prop := Forall (λ c, c ≠ 0x0A ∧ c ≠ 0x0D) s.
Definition operation_ok (o : text_operation) : Prop :=
  Forall one_line (print_operation o) ∧
  match o with
  | TextUpdate _ _ hunks => Forall (λ h, old_lines (th_body h) ≠ []) hunks
  | _ => True
  end.

Lemma unlines_cons l ls : unlines (l :: ls) = (l ++ LF ++ unlines ls)%list.
Proof. unfold unlines. cbn [map concat]. by rewrite <-app_assoc. Qed.

Lemma split_on_piece l s :
  Forall (λ c, c ≠ 0x0A) l → split_on (N.eqb 0x0A) (l ++ LF ++ s)%list = l :: split_on (N.eqb 0x0A) s.
Proof.
  induction 1 as [|c l Hc _ IH]; [done|]. rewrite <-app_comm_cons. cbn [split_on].
  rewrite (proj2 (N.eqb_neq 10 c)) by done. by rewrite IH.
Qed.

Lemma split_on_unlines ls :
  Forall one_line ls → split_on (N.eqb 0x0A) (unlines ls) = (ls ++ [[]])%list.
Proof.
  induction 1 as [|l ls Hl _ IH]; [done|]. rewrite unlines_cons, split_on_piece, IH; [done|].
  eapply Forall_impl; [exact Hl|]. by intros c [? _].
Qed.

Lemma strip_cr_one_line l : one_line l → strip_cr l = l.
Proof.
  intros Hl. unfold strip_cr. destruct (strip_suffix CR l) as [u|] eqn:Hs; [|done].
  apply strip_suffix_Some in Hs as ->. apply Forall_app in Hl as [_ Hl].
  by apply Forall_cons in Hl as [[_ ?] _].
Qed.

Lemma lines_unlines ls : Forall one_line ls → lines (unlines ls) = ls.
Proof.
  intros Hls. unfold lines. rewrite split_on_unlines by done.
  rewrite last_snoc, removelast_last, app_nil_r.
  rewrite <-(map_id ls) at 2. apply map_ext_in. intros l Hl%list_elem_of_In.
  apply strip_cr_one_line. exact (proj1 (Forall_forall one_line ls) Hls l Hl).
Qed.

Lemma no_cr_unlines ls : Forall one_line ls → no_cr (unlines ls).
Proof.
  induction 1 as [|l ls Hl _ IH]; [constructor|]. rewrite unlines_cons.
  repeat (apply Forall_app; split); [|by repeat constructor|done].
  eapply Forall_impl; [exact Hl|]. by intros c [_ ?].
Qed.

Lemma strip_prefix_app p s : strip_prefix p (p ++ s)%list = Some s.
Proof. unfold strip_prefix. by rewrite starts_with_app, drop_app_length. Qed.

(** ** Reading back what was printed *)

Definition starts_marked (rest : list ustr) : Prop :=
  ∃ line tl, rest = line :: tl ∧ starts_with MARK line = true.

Lemma parse_added_print content rest acc :
  starts_marked rest →
  parse_added (map (λ l, lit "+" ++ l) content ++ rest)%list acc =
  Ok ((acc ++ unlines content)%list, rest).
Proof.
  intros (line & tl & -> & Hm). revert acc.
  induction content as [|l content IH]; intros acc.
  - cbn [map app parse_added]. by rewrite Hm, app_nil_r.
  - cbn [map app]. rewrite unlines_cons. cbn [parse_added].
    change (starts_with MARK (lit "+" ++ l)%list) with false.
    rewrite strip_prefix_app, IH. by rewrite !app_assoc.
Qed.

(** A hunk ends where a line starts the next hunk or the next operation. *)
Definition starts_boundary (rest : list ustr) : Prop :=
  ∃ line tl, rest = line :: tl ∧ starts_with (lit "@@") line || starts_with MARK line = true.

Lemma parse_body_print ls rest old new :
  starts_boundary rest →
  parse_body (map print_line ls ++ rest)%list old new =
  Ok ((old ++ unlines (old_lines ls))%list, (new ++ unlines (new_lines ls))%list, rest).
Proof.
  intros (line & tl & -> & Hm). revert old new.
  induction ls as [|[[| |] l] ls IH]; intros old new.
  - cbn [map app parse_body]. unfold old_lines, new_lines. cbn [List.filter map].
    by rewrite Hm, !app_nil_r.
  - cbn [map app]. unfold print_line at 1. cbn [fst snd parse_body].
    change (starts_with (lit "@@") (lit " " ++ l)%list || starts_with MARK (lit " " ++ l)%list) with false.
    change (strip_prefix (lit "-") (lit " " ++ l)%list) with (@None ustr).
    change (strip_prefix (lit "+") (lit " " ++ l)%list) with (@None ustr).
    rewrite strip_prefix_app, IH. unfold old_lines, new_lines. cbn [List.filter map fst snd].
    by rewrite !unlines_cons, !app_assoc.
  - cbn [map app]. unfold print_line at 1. cbn [fst snd parse_body].
    change (starts_with (lit "@@") (lit "-" ++ l)%list || starts_with MARK (lit "-" ++ l)%list) with false.
    rewrite strip_prefix_app, IH. unfold old_lines, new_lines. cbn [List.filter map fst snd].
    by rewrite !unlines_cons, !app_assoc.
  - cbn [map app]. unfold print_line at 1. cbn [fst snd parse_body].
    change (starts_with (lit "@@") (lit "+" ++ l)%list || starts_with MARK (lit "+" ++ l)%list) with false.
    change (strip_prefix (lit "-") (lit "+" ++ l)%list) with (@None ustr).
    rewrite strip_prefix_app, IH. unfold old_lines, new_lines. cbn [List.filter map fst snd].
    by rewrite !unlines_cons, !app_assoc.
Qed.

Lemma print_hunks_boundary hunks rest :
  starts_marked rest → starts_boundary (concat (map print_hunk hunks) ++ rest)%list.
Proof.
  intros (line & tl & -> & Hm). destruct hunks as [|h hunks].
  - exists line, tl. split; [done|]. by rewrite Hm, orb_true_r.
  - exists (lit "@@" ++ th_header h)%list.
    eexists. split; [reflexivity|]. by rewrite starts_with_app.
Qed.

Lemma unlines_nil ls : unlines ls = [] → ls = [].
Proof. destruct ls as [|l ls]; [done|]. rewrite unlines_cons. by destruct l. Qed.

Lemma parse_hunks_print hunks rest fuel acc :
  starts_marked rest → Forall (λ h, old_lines (th_body h) ≠ []) hunks →
  (length hunks < fuel)%nat →
  parse_hunks fuel (concat (map print_hunk hunks) ++ rest)%list acc =
  Some (Ok ((acc ++ map hunk_meaning hunks)%list, rest)).
Proof.
  intros Hrest Hok. revert fuel acc.
  induction Hok as [|h hunks Hh Hok IH]; intros fuel acc Hf; (destruct fuel as [|fuel]; [simpl in Hf; lia|]).
  - destruct Hrest as (line & tl & -> & Hm). cbn [map concat app parse_hunks].
    by rewrite Hm, app_nil_r.
  - cbn [map concat]. unfold print_hunk at 1. rewrite <-app_assoc, <-app_comm_cons. cbn [parse_hunks].
    change (starts_with MARK (lit "@@" ++ th_header h)%list) with false.
    rewrite starts_with_app. cbn [negb].
    rewrite parse_body_print by (by apply print_hunks_boundary). cbn [app].
    rewrite bool_decide_eq_false_2 by (intros ?%unlines_nil; done).
    rewrite IH by (simpl in Hf; lia). by rewrite <-app_assoc.
Qed.

Lemma print_operations_marked os :
  starts_marked (concat (map print_operation os) ++ [lit "*** End Patch"])%list.
Proof.
  destruct os as [|[path d hs|path c|path] os].
  - by exists (lit "*** End Patch"), [].
  - eexists _, _. split; [reflexivity|done].
  - eexists _, _. split; [reflexivity|done].
  - eexists _, _. split; [reflexivity|done].
Qed.

Lemma parse_destination_print destination hunks rest :
  starts_marked rest → (∀ line tl, rest = line :: tl → strip_prefix (lit "*** Move to: ") line = None) →
  parse_destination
    ((match destination with Some d => [(lit "*** Move to: " ++ d)%list] | None => [] end) ++
     concat (map print_hunk hunks) ++ rest)%list =
  (destination, (concat (map print_hunk hunks) ++ rest)%list).
Proof.
  intros (line & tl & -> & Hm) Hno. destruct destination as [d|].
  - cbn [app parse_destination]. by rewrite strip_prefix_app.
  - destruct hunks as [|h hunks].
    + cbn [map concat app parse_destination]. by rewrite (Hno line tl).
    + cbn [map concat app print_hunk parse_destination].
      by change (strip_prefix (lit "*** Move to: ") (lit "@@" ++ th_header h)%list) with (@None ustr).
Qed.

Lemma operations_not_destination os line tl :
  (concat (map print_operation os) ++ [lit "*** End Patch"])%list = line :: tl →
  strip_prefix (lit "*** Move to: ") line = None.
Proof. by destruct os as [|[path d hs|path c|path] os]; intros [= <- _]. Qed.

Lemma parse_operations_print os fuel acc :
  Forall operation_ok os → (length os < fuel)%nat →
  parse_operations fuel (concat (map print_operation os) ++ [lit "*** End Patch"])%list acc =
  Some (Ok (acc ++ map operation_meaning os)%list).
Proof.
  intros Hok. revert fuel acc. induction Hok as [|o os [_ Ho] Hok IH]; intros fuel acc Hf;
    (destruct fuel as [|fuel]; [simpl in Hf; lia|]).
  { cbn [map concat app parse_operations]. by rewrite app_nil_r. }
  cbn [map concat]. rewrite <-app_assoc.
  set (rest := (concat (map print_operation os) ++ [lit "*** End Patch"])%list) in *.
  pose proof (print_operations_marked os) as Hmark. fold rest in Hmark.
  assert (∀ acc', parse_operations fuel rest acc' =
            Some (Ok (acc' ++ map operation_meaning os)%list)) as IH'
    by (intros acc'; apply IH; simpl in Hf; lia).
  assert (∀ line tl, rest = line :: tl → strip_prefix (lit "*** Move to: ") line = None) as Hnodest
    by apply operations_not_destination.
  clearbody rest. clear IH.
  assert (∀ (l : ustr) (ls : list ustr), ∃ x xs, (ls ++ rest)%list = x :: xs) as Hne.
  { intros _ ls. destruct Hmark as (x & xs & -> & _). destruct ls; by eexists _, _. }
  destruct o as [path destination hunks|path content|path]; cbn [print_operation].
  - rewrite <-app_comm_cons, <-app_assoc. cbn [parse_operations].
    match goal with |- context [match ?l with [] => _ | _ => _ end] => set (body := l) end.
    assert (∃ x xs, body = x :: xs) as (x & xs & Hx).
    { subst body. rewrite app_assoc. by apply (Hne []). }
    rewrite Hx. rewrite <-Hx. clear x xs Hx.
    change (strip_prefix (lit "*** Add File: ") (lit "*** Update File: " ++ path)%list) with (@None ustr).
    change (strip_prefix (lit "*** Delete File: ") (lit "*** Update File: " ++ path)%list) with (@None ustr).
    rewrite strip_prefix_app. subst body. rewrite parse_destination_print by done.
    rewrite parse_hunks_print; [|done..|].
    + rewrite IH'. by rewrite <-app_assoc.
    + rewrite length_app. clear. induction hunks as [|h hunks IH]; simpl; [lia|].
      rewrite length_app. lia.
  - rewrite <-app_comm_cons. cbn [parse_operations].
    destruct (Hne [] (map (λ l, lit "+" ++ l) content)%list) as (x & xs & Hx). rewrite Hx, <-Hx.
    rewrite strip_prefix_app, parse_added_print by done. rewrite IH'. by rewrite <-app_assoc.
  - rewrite <-app_comm_cons. cbn [parse_operations app].
    destruct (Hne [] []) as (x & xs & Hx). cbn [app] in Hx. rewrite Hx, <-Hx.
    change (strip_prefix (lit "*** Add File: ") (lit "*** Delete File: " ++ path)%list) with (@None ustr).
    rewrite strip_prefix_app, IH'. by rewrite <-app_assoc.
Qed.

(** C22 (roundtrip): The patch parser reads back every printed patch: for any
    operations whose lines are single lines and whose hunks have old text,
    printed with either line ending, it returns their meaning: the added file's
    bytes, and for every hunk the text it removes and the text it leaves. *)
Theorem parse_patch_roundtrip crlf os (Hos : Forall operation_ok os) :
  parse_patch (print_patch crlf os) = Some (Ok (map operation_meaning os)).
Proof.
  assert (Forall one_line (patch_lines os)) as Hlines.
  { unfold patch_lines. constructor; [by repeat constructor|]. apply Forall_app.
    split; [|by repeat constructor]. induction Hos as [|o os [Ho _] _ IH]; [constructor|].
    cbn [map concat]. by apply Forall_app. }
  assert (replace CRLF LF (print_patch crlf os) = unlines (patch_lines os)) as Htext.
  { unfold print_patch. pose proof (no_cr_unlines _ Hlines) as Hcr. destruct crlf.
    - by apply collapse_expand.
    - apply replace_none; [done|by apply no_cr_find]. }
  unfold parse_patch. rewrite Htext, lines_unlines by done. unfold patch_lines. cbn [head tail].
  rewrite (app_comm_cons _ _ (lit "*** Begin Patch")), last_snoc.
  rewrite !bool_decide_eq_true_2 by done. cbn [negb orb].
  rewrite parse_operations_print; [done|done|].
  rewrite <-app_comm_cons. cbn [length]. rewrite length_app. clear.
  induction os as [|o os IH]; [simpl; lia|]. cbn [map concat length]. rewrite length_app.
  assert (1 ≤ length (print_operation o))%nat by (destruct o; simpl; lia).
  simpl in IH. lia.
Qed.

Definition demo_patch : list text_operation :=
  [TextUpdate (lit "src/lib.rs") None
     [MkTextHunk (lit " fn")
        [(Context, lit "fn f() {"); (Removed, lit "  1"); (Added, lit "  2"); (Context, lit "}")]];
   TextAdd (lit "notes.md") [lit "# Notes"; []];
   TextDelete (lit "old.txt")].

Lemma parse_patch_roundtrip_witness :
  Forall operation_ok demo_patch ∧
  parse_patch (print_patch true demo_patch) = Some (Ok
    [PatchUpdate (lit "src/lib.rs") None
       [((lit "fn f() {" ++ LF ++ lit "  1" ++ LF ++ lit "}" ++ LF)%list,
         (lit "fn f() {" ++ LF ++ lit "  2" ++ LF ++ lit "}" ++ LF)%list)];
     PatchAdd (lit "notes.md") (lit "# Notes" ++ LF ++ LF)%list;
     PatchDelete (lit "old.txt")]).
Proof.
  assert (Forall operation_ok demo_patch) as Hok.
  { unfold demo_patch, operation_ok, one_line. cbn [print_operation].
    repeat first [ apply Forall_nil; exact I | apply Forall_cons; split
                 | apply conj | exact I | vm_compute; discriminate ]. }
  split; [done|]. exact (parse_patch_roundtrip true demo_patch Hok).
Defined.
