(* ===== verification/HostFs.v ===== *)
(** * HostFs: paths, the file system of the host, and calls that can fail

    A [Path] is the list of its components, which is all that [std::path] looks
    at in the operations the sources use.  The state of the host is the objects
    of the file system by the final path of their name; how Windows resolves other
    spellings (case, short names, links in the middle) is an interface with laws.

    [M E A] is a computation of the host: it changes the world, and answers or
    fails.  Every call of the system is numbered, and an oracle says which of
    them fail and when a cancellation has arrived, so that the theorems hold for
    every pattern of failures. *)

From S2P Require Import Prelude Text WindowsPath.
#[local] Open Scope N_scope.

(** ** Paths *)

#[export] Instance Prefix_eq_dec : EqDecision Prefix.
Proof. solve_decision. Defined.
#[export] Instance Component_eq_dec : EqDecision Component.
Proof. solve_decision. Defined.

#[export] Instance Prefix_countable : Countable Prefix.
Proof.
  refine (inj_countable'
    (λ p, match p with
          | Verbatim a => (0, a, [], 0) | VerbatimUNC a b => (1, a, b, 0)
          | VerbatimDisk d => (2, [], [], d) | DeviceNS a => (3, a, [], 0)
          | UNC a b => (4, a, b, 0) | Disk d => (5, [], [], d)
          end)
    (λ '(tag, a, b, d), match tag with
          | 0 => Verbatim a | 1 => VerbatimUNC a b | 2 => VerbatimDisk d
          | 3 => DeviceNS a | 4 => UNC a b | _ => Disk d
          end) _).
  by intros [].
Defined.

#[export] Instance Component_countable : Countable Component.
Proof.
  refine (inj_countable'
    (λ c, match c with
          | PrefixComponent p => inl (inl p) | Normal name => inl (inr name)
          | RootDir => inr 0 | CurDir => inr 1 | ParentDir => inr 2
          end)
    (λ s, match s with
          | inl (inl p) => PrefixComponent p | inl (inr name) => Normal name
          | inr 0 => RootDir | inr 1 => CurDir | inr _ => ParentDir
          end) _).
  by intros [].
Defined.

Abbreviation Path := (list Component).

(** [Path::parent] and [Path::file_name]. *)
Definition path_parent (p : Path) : option Path :=
  match last p with
  | Some (Normal _ | CurDir | ParentDir) => Some (removelast p)
  | _ => None
  end.
Definition path_file_name (p : Path) : option ustr :=
  match last p with Some (Normal name) => Some name | _ => None end.

(** [PathBuf::join] with a name, and with a relative path. *)
Definition join_name (p : Path) (name : ustr) : Path := p ++ [Normal name].
Definition join_relative (p q : Path) : Path :=
  p ++ List.filter (λ c, negb (bool_decide (c = CurDir))) q.

(** [Path::starts_with] and [Path::strip_prefix]. *)
Fixpoint path_strip_prefix (root p : Path) : option Path :=
  match root, p with
  | [], p => Some p
  | r :: root, c :: p => if decide (r = c) then path_strip_prefix root p else None
  | _ :: _, [] => None
  end.
Definition path_starts_with (root p : Path) : bool :=
  bool_decide (is_Some (path_strip_prefix root p)).

(** [Path::is_absolute]. *)
Definition path_is_absolute (p : Path) : bool :=
  match p with PrefixComponent _ :: RootDir :: _ => true | _ => false end.

(** [PathBuf::to_string_lossy], with single backslashes. *)
Definition prefix_text (p : Prefix) : ustr :=
  match p with
  | Verbatim name => lit "\\?\" ++ name
  | VerbatimUNC server share => lit "\\?\UNC\" ++ server ++ lit "\" ++ share
  | VerbatimDisk d => lit "\\?\" ++ [d; 0x3A]
  | DeviceNS name => lit "\\.\" ++ name
  | UNC server share => lit "\\" ++ server ++ lit "\" ++ share
  | Disk d => [d; 0x3A]
  end.
Definition component_text (c : Component) : ustr :=
  match c with
  | PrefixComponent p => prefix_text p
  | RootDir => [backslash]
  | CurDir => lit "."
  | ParentDir => lit ".."
  | Normal name => name
  end.
(** Names joined by a separator, after what precedes them. *)
Fixpoint names_text (sep : ustr) (p : Path) : ustr :=
  match p with
  | [] => []
  | [c] => component_text c
  | c :: p => component_text c ++ sep ++ names_text sep p
  end.

(** Component by component, ignoring ASCII case. *)
Definition component_eq_ignore_case (a b : Component) : bool :=
  eq_ignore_ascii_case (component_text a) (component_text b).
Fixpoint path_starts_with_ignore_case (root p : Path) : bool :=
  match root, p with
  | [], _ => true
  | r :: root, c :: p => component_eq_ignore_case c r && path_starts_with_ignore_case root p
  | _ :: _, [] => false
  end.
Definition path_eq_ignore_case (a b : Path) : bool :=
  Nat.eqb (length a) (length b) && path_starts_with_ignore_case b a.

(** The form in which [GetFinalPathNameByHandleW] reports a path. *)
Definition verbatim (p : Path) : Path :=
  match p with
  | PrefixComponent (Disk d) :: p => PrefixComponent (VerbatimDisk d) :: p
  | PrefixComponent (UNC server share) :: p => PrefixComponent (VerbatimUNC server share) :: p
  | p => p
  end.

(** ** The objects of the file system *)

(** [nd_reparse]: any reparse point; [nd_surrogate]: one that stands for another
    object, which [FileType] reports as a link, never as a file or directory. *)
Record Node := MkNode {
  nd_directory : bool;
  nd_reparse : bool;
  nd_surrogate : bool;
  nd_content : bytes;
  nd_modified : option N;
  nd_links : N
}.
#[export] Instance eta_Node : Eta Node := λ r,
  MkNode (nd_directory r) (nd_reparse r) (nd_surrogate r) (nd_content r) (nd_modified r)
    (nd_links r).

Definition nd_symlink (n : Node) : bool := nd_reparse n && nd_surrogate n.
Definition node_is_dir (n : Node) : bool := nd_directory n && negb (nd_symlink n).
Definition node_is_file (n : Node) : bool := negb (nd_directory n) && negb (nd_symlink n).
(** [Metadata::len]: 0 for a directory. *)
Definition node_len (n : Node) : N :=
  if nd_directory n then 0 else N.of_nat (length (nd_content n)).

Definition new_file (content : bytes) (modified : option N) : Node :=
  MkNode false false false content modified 1.
Definition new_dir (modified : option N) : Node := MkNode true false false [] modified 1.

(** With its instances, so that they are never searched for. *)
Abbreviation Fs :=
  (@gmap (list Component) (@list_eq_dec Component Component_eq_dec)
     (@list_countable Component Component_eq_dec Component_countable) Node).

(** The form of an object's final path. *)
Definition dos_path (p : Path) : bool :=
  match p with PrefixComponent (Disk _ | UNC _ _) :: RootDir :: _ => true | _ => false end.

(** How Windows finds the object a path names: [opens] without following a link
    at its end, [follows] with.  What a name in a directory that is no link opens
    is in that directory, whatever spelling of its name was given.

    The laws idealise two points of Windows.  The text of a path is taken to mean the
    same in every directory, so a name whose trailing dots and spaces Windows strips
    opens what the stripped name opens in the same directory ([opens_in] allows it), and
    no rule depends on where the stripping happens.  Share modes are not part of the
    state: an object another process holds open is a call that [Faults] lets fail. *)
Class Windows := {
  opens : Fs → Path → option Path;
  follows : Fs → Path → option Path;
  file_index : Fs → Path → N * N;
  same_volume : Path → Path → bool;
  opens_object fs p f : opens fs p = Some f → is_Some (fs !! f) ∧ dos_path f = true;
  opens_final fs f : is_Some (fs !! f) → dos_path f = true → opens fs f = Some f;
  opens_child fs p d n name :
    opens fs p = Some d → fs !! d = Some n → node_is_dir n = true → nd_reparse n = false →
    opens fs (join_name p name) = opens fs (join_name d name);
  opens_in fs d n name f :
    opens fs d = Some d → fs !! d = Some n → node_is_dir n = true → nd_reparse n = false →
    opens fs (join_name d name) = Some f → ∃ name', f = join_name d name';
  follows_object fs p f :
    follows fs p = Some f → ∃ n, fs !! f = Some n ∧ nd_symlink n = false ∧ dos_path f = true;
  follows_plain fs p f n :
    opens fs p = Some f → fs !! f = Some n → nd_reparse n = false → follows fs p = Some f;
  opens_verbatim fs p : opens fs (verbatim p) = opens fs p;
  follows_verbatim fs p : follows fs (verbatim p) = follows fs p
}.

(** Below a directory. *)
Definition is_below (d p : Path) : bool := path_starts_with d p && negb (bool_decide (p = d)).

(** The names in a directory, in the order the system lists them. *)
Definition child_name (d p : Path) : option ustr :=
  match path_strip_prefix d p with Some [Normal name] => Some name | _ => None end.
Definition children (fs : Fs) (d : Path) : list ustr := omap (child_name d) (map_to_list fs).*1.

(** The objects at and below [old], under the name [new]. *)
Definition moved_path (old new p : Path) : Path :=
  match path_strip_prefix old p with Some rest => new ++ rest | None => p end.
Definition move_objects (old new : Path) (fs : Fs) : Fs :=
  list_to_map (prod_map (moved_path old new) id <$> map_to_list fs).

(** ** Computations *)

Inductive IoError :=
  | IoNotFound | IoAlreadyExists | IoDirectoryNotEmpty | IoNotSameDevice | IoOther.
#[export] Instance IoError_eq_dec : EqDecision IoError.
Proof. solve_decision. Defined.

(** [w_calls]: how many calls the system has answered. *)
Record World := MkWorld { w_fs : Fs; w_calls : nat; w_temp_generation : N }.
#[export] Instance eta_World : Eta World := λ r,
  MkWorld (w_fs r) (w_calls r) (w_temp_generation r).

(** Which calls fail; how much of a failed write reached the file; when the
    operation has been cancelled; the clock; the process. *)
Class Faults := {
  call_fails : nat → bool;
  partial_write : nat → nat;
  cancelled_at : nat → bool;
  clock_ms : nat → option N;
  clock_nanos : nat → N;
  process_id : N
}.

Definition ST (W E A : Type) : Type := W → W * result E A.
Abbreviation M := (ST World).
#[export] Instance ST_ret {W E} : MRet (ST W E) := λ A a w, (w, Ok a).
#[export] Instance ST_bind {W E} : MBind (ST W E) := λ A B f m w,
  match m w with (w, Ok a) => f a w | (w, Err e) => (w, Err e) end.

Definition throw {W E A} (e : E) : ST W E A := λ w, (w, Err e).
Definition ensure {W E} (condition : bool) (e : E) : ST W E unit :=
  if condition then mret () else throw e.
Definition lift {W E A} (r : result E A) : ST W E A := λ w, (w, r).
Definition unwrap {W E A} (o : option A) (e : E) : ST W E A := lift (ok_or e o).
(** [Result::map_err], and a result that is looked at. *)
Definition map_error {W E F A} (f : E → F) (m : ST W E A) : ST W F A :=
  λ w, let '(w, r) := m w in (w, map_err f r).
Definition try {W E F A} (m : ST W E A) : ST W F (result E A) :=
  λ w, let '(w, r) := m w in (w, Ok r).
(** [for x in l { .. }]. *)
Fixpoint for_each {W E A} (f : A → ST W E unit) (l : list A) : ST W E unit :=
  match l with
  | [] => mret ()
  | x :: l => _ ← f x; for_each f l
  end.
(** A computation on a part of the state, and changes of the other part. *)
Definition on_world {S E A} (m : M E A) : ST (World * S) E A :=
  λ '(w, s), let '(w, r) := m w in ((w, s), r).
Definition get_local {S E} : ST (World * S) E S := λ '(w, s), ((w, s), Ok s).
Definition put_local {S E} (s : S) : ST (World * S) E unit := λ '(w, _), ((w, s), Ok ()).
(** Runs with a local state, and returns it with the result. *)
Definition with_local {S E A} (s : S) (m : ST (World * S) E A) : M E (S * A) :=
  λ w, let '((w, s), r) := m (w, s) in (w, a ← r; Ok (s, a)).

Section calls.
Context `{Windows} `{Faults}.

(** A call of the system. *)
Definition call {A} (f : nat → Fs → result IoError (Fs * A)) : M IoError A := λ w,
  let n := w_calls w in
  let w := w <| w_calls ::= S |> in
  if call_fails n then (w, Err IoOther) else
  match f n (w_fs w) with
  | Ok (fs, a) => (w <| w_fs := fs |>, Ok a)
  | Err e => (w, Err e)
  end.
(** One that changes nothing. *)
Definition query {A} (f : Fs → result IoError A) : M IoError A :=
  call (λ _ fs, a ← f fs; Ok (fs, a)).

(** [FilesystemCancellation::is_cancelled]. *)
Definition is_cancelled {E} : M E bool := λ w,
  (w <| w_calls ::= S |>, Ok (cancelled_at (w_calls w))).

(** [CreateFileW] with [OPEN_EXISTING] and without following: the object. *)
Definition os_open (p : Path) : M IoError Path := query (λ fs, ok_or IoNotFound (opens fs p)).
(** The object of a handle. *)
Definition os_node (h : Path) : M IoError Node := query (λ fs, ok_or IoNotFound (fs !! h)).
(** [fs::symlink_metadata]. *)
Definition os_symlink_metadata (p : Path) : M IoError Node :=
  query (λ fs, ok_or IoNotFound (f ← opens fs p; fs !! f)).
(** [fs::canonicalize]. *)
Definition os_canonicalize (p : Path) : M IoError Path :=
  query (λ fs, ok_or IoNotFound (verbatim <$> follows fs p)).
(** [Path::exists] and [Path::is_dir]. *)
Definition os_exists {E} (p : Path) : M E bool :=
  r ← try (query (λ fs, ok_or IoNotFound (follows fs p))); mret (is_ok r).
Definition os_is_dir {E} (p : Path) : M E bool :=
  r ← try (query (λ fs, ok_or IoNotFound (f ← follows fs p; fs !! f)));
  mret match r with Ok n => node_is_dir n | Err _ => false end.
(** [fs::read_dir]: an error for what is no directory. *)
Definition os_read_dir (p : Path) : M IoError (list ustr) :=
  query (λ fs,
    f ← ok_or IoNotFound (follows fs p);
    match fs !! f with
    | Some n => if node_is_dir n then Ok (children fs f) else Err IoOther
    | None => Err IoNotFound
    end).
Definition os_next_entry : M IoError unit := query (λ _, Ok ()).

(** The name a new entry gets: its parent is followed. *)
Definition entry_path (fs : Fs) (p : Path) : result IoError Path :=
  parent ← ok_or IoNotFound (path_parent p);
  name ← ok_or IoOther (path_file_name p);
  d ← ok_or IoNotFound (follows fs parent);
  match fs !! d with
  | Some n => if node_is_dir n then Ok (join_name d name) else Err IoOther
  | None => Err IoNotFound
  end.

Definition create_node (node : nat → Node) (p : Path) : M IoError Path :=
  call (λ n fs,
    match opens fs p with
    | Some _ => Err IoAlreadyExists
    | None => f ← entry_path fs p; Ok (<[f := node n]> fs, f)
    end).
(** [OpenOptions::create_new] and [fs::create_dir]. *)
Definition os_create_new : Path → M IoError Path := create_node (λ n, new_file [] (clock_ms n)).
Definition os_create_dir : Path → M IoError Path := create_node (λ n, new_dir (clock_ms n)).

(** [write_all] at an offset of an open file; a failure may leave a part. *)
Definition overwrite_at (offset : nat) (data content : bytes) : bytes :=
  take offset content ++ data ++ drop (offset + length data) content.
Definition os_write_at (h : Path) (offset : nat) (data : bytes) : M IoError unit := λ w,
  let n := w_calls w in
  let written := if call_fails n then take (partial_write n) data else data in
  (w <| w_calls ::= S |>
     <| w_fs ::= alter (λ node, node <| nd_content ::= overwrite_at offset written |>
                                     <| nd_modified := clock_ms n |>) h |>,
   if call_fails n then Err IoOther else Ok ()).
(** [File::set_len], which extends a file with zeros, and [File::sync_all]. *)
Definition set_length (len : nat) (content : bytes) : bytes :=
  take len content ++ replicate (len - length content) 0.
Definition os_set_len (h : Path) (len : nat) : M IoError unit :=
  call (λ _ fs, Ok (alter (λ node, node <| nd_content ::= set_length len |>) h fs, ())).
Definition os_sync (h : Path) : M IoError unit := query (λ _, Ok ()).
(** Reads from an open file. *)
Definition os_read (h : Path) (offset count : nat) : M IoError bytes :=
  query (λ fs, n ← ok_or IoNotFound (fs !! h); Ok (take count (drop offset (nd_content n)))).

(** [SetFileInformationByHandle] with [FileDispositionInfo]. *)
Definition os_delete (h : Path) : M IoError unit :=
  call (λ _ fs,
    match fs !! h with
    | None => Err IoNotFound
    | Some _ =>
        if existsb (is_below h) (map_to_list fs).*1 then Err IoDirectoryNotEmpty
        else Ok (delete h fs, ())
    end).
(** [fs::remove_file] and [fs::remove_dir]. *)
Definition remove_node (kind : Node → bool) (p : Path) : M IoError unit :=
  h ← query (λ fs, ok_or IoNotFound (opens fs p));
  n ← os_node h;
  _ ← ensure (kind n) IoOther;
  os_delete h.
Definition os_remove_file : Path → M IoError unit := remove_node (λ n, negb (nd_directory n)).
Definition os_remove_dir : Path → M IoError unit := remove_node nd_directory.

(** [SetFileInformationByHandle] with [FileRenameInfo]; the object under its new
    name. *)
Definition os_rename (h destination : Path) (overwrite : bool) : M IoError Path :=
  call (λ _ fs,
    match fs !! h with
    | None => Err IoNotFound
    | Some _ =>
        target ← entry_path fs destination;
        if negb (same_volume h target) then Err IoNotSameDevice
        else if is_below h target then Err IoOther
        else
          match opens fs destination with
          | None => Ok (move_objects h target fs, target)
          | Some existing =>
              if bool_decide (existing = h) then Ok (move_objects h target fs, target)
              else if negb overwrite then Err IoAlreadyExists
              else match fs !! existing with
                   | Some n =>
                       if nd_directory n then Err IoOther
                       else Ok (move_objects h target (delete existing fs), target)
                   | None => Err IoNotFound
                   end
          end
    end).
End calls.

(** [let _ = ..]. *)
Definition ignore {W E F A} (m : ST W E A) : ST W F unit := _ ← try m; mret ().

(** Collects what every element gives. *)
Fixpoint collect_each {W E A B} (f : A → ST W E (list B)) (l : list A) : ST W E (list B) :=
  match l with
  | [] => mret []
  | x :: l => ys ← f x; zs ← collect_each f l; mret (ys ++ zs)
  end.
