(* ===== verification/HostLogic.v ===== *)
(** * HostLogic: what a computation of the host does, from its first state

    [runs fs m Q R]: from a file system [fs], whatever calls fail, [m] either
    answers some [a] in a file system with [Q a], or fails in one with [R].
    [reads fs m Q] is the case that changes nothing.  Both say nothing of the
    other parts of the state, so one rule serves computations with and without a
    local state. *)

From S2P Require Import Prelude Text WindowsPath HostFs.
#[local] Open Scope N_scope.

(** The states that hold a file system. *)
Class HasFs (W : Type) := fs_of : W → Fs.
#[export] Instance World_fs : HasFs World := w_fs.
#[export] Instance local_fs {S} : HasFs (World * S) := λ w, w_fs w.1.

Section logic.
Context {W : Type} `{HasFs W} {E : Type}.

Definition runs {A : Type} (fs : Fs) (m : ST W E A) (Q : A → Fs → Prop) (R : Fs → Prop) : Prop :=
  ∀ w, fs_of w = fs →
    match m w with
    | (w', Ok a) => Q a (fs_of w')
    | (w', Err _) => R (fs_of w')
    end.
Definition reads {A : Type} (fs : Fs) (m : ST W E A) (Q : A → Prop) : Prop :=
  runs fs m (λ a fs', fs' = fs ∧ Q a) (λ fs', fs' = fs).

(** ** Rules *)

Lemma runs_weaken {A} fs (m : ST W E A) (Q Q' : A → Fs → Prop) (R R' : Fs → Prop) :
  runs fs m Q R → (∀ a fs', Q a fs' → Q' a fs') → (∀ fs', R fs' → R' fs') → runs fs m Q' R'.
Proof. intros Hm HQ HR w Hw. specialize (Hm w Hw). destruct (m w) as [w' []]; auto. Qed.

Lemma reads_weaken {A} fs (m : ST W E A) (Q Q' : A → Prop) :
  reads fs m Q → (∀ a, Q a → Q' a) → reads fs m Q'.
Proof. intros Hm HQ. eapply runs_weaken; [exact Hm| |done]. intros a fs' [-> ?]. auto. Qed.
Lemma reads_any {A} fs (m : ST W E A) (Q : A → Prop) : reads fs m Q → reads fs m (λ _, True).
Proof. intros. by eapply reads_weaken. Qed.

Lemma runs_reads {A} fs (m : ST W E A) P (Q : A → Fs → Prop) (R : Fs → Prop) :
  reads fs m P → (∀ a, P a → Q a fs) → R fs → runs fs m Q R.
Proof. intros Hm HQ HR. eapply runs_weaken; [exact Hm| |naive_solver]. intros a fs' [-> ?]. auto. Qed.

Lemma runs_ret {A} fs (a : A) (Q : A → Fs → Prop) R : Q a fs → runs fs (mret a) Q R.
Proof. by intros Hq w <-. Qed.
Lemma reads_ret {A} fs (a : A) (Q : A → Prop) : Q a → reads fs (mret a) Q.
Proof. intros. by apply runs_ret. Qed.

Lemma runs_throw {A} fs (e : E) (Q : A → Fs → Prop) (R : Fs → Prop) :
  R fs → runs fs (throw e) Q R.
Proof. by intros HR w <-. Qed.
Lemma reads_throw {A} fs (e : E) (Q : A → Prop) : reads fs (throw e) Q.
Proof. by apply runs_throw. Qed.

Lemma runs_bind {A B} fs (m : ST W E A) (f : A → ST W E B) P Q (R : Fs → Prop) :
  runs fs m P R → (∀ a fs', P a fs' → runs fs' (f a) Q R) → runs fs (m ≫= f) Q R.
Proof.
  intros Hm Hf w Hw. specialize (Hm w Hw). cbv [mbind ST_bind].
  destruct (m w) as [w' [a|e]]; [|exact Hm]. exact (Hf a _ Hm w' eq_refl).
Qed.
Lemma runs_read {A B} fs (m : ST W E A) (f : A → ST W E B) (P : A → Prop) Q (R : Fs → Prop) :
  reads fs m P → R fs → (∀ a, P a → runs fs (f a) Q R) → runs fs (m ≫= f) Q R.
Proof.
  intros Hm HR Hf. eapply runs_bind; [exact (runs_weaken _ _ _ _ _ R Hm (λ _ _ H, H) ltac:(naive_solver))|].
  intros a fs' [-> Ha]. auto.
Qed.
Lemma reads_bind {A B} fs (m : ST W E A) (f : A → ST W E B) (P : A → Prop) (Q : B → Prop) :
  reads fs m P → (∀ a, P a → reads fs (f a) Q) → reads fs (m ≫= f) Q.
Proof. intros Hm Hf. eapply runs_read; [exact Hm|done|exact Hf]. Qed.

Lemma reads_ensure fs c (e : E) : reads fs (ensure c e) (λ _, c = true).
Proof. destruct c; [by apply reads_ret | apply reads_throw]. Qed.
Lemma reads_lift {A} fs (r : result E A) : reads fs (lift r) (λ a, r = Ok a).
Proof. by intros w <-; destruct r. Qed.
Lemma reads_unwrap {A} fs (o : option A) (e : E) : reads fs (unwrap o e) (λ a, o = Some a).
Proof. by intros w <-; destruct o. Qed.

Lemma runs_for_each {A} (I : Fs → Prop) (f : A → ST W E unit) (l : list A) (R : Fs → Prop) fs :
  I fs → (∀ x fs, x ∈ l → I fs → runs fs (f x) (λ _, I) R) → runs fs (for_each f l) (λ _, I) R.
Proof.
  intros HI Hf. revert fs HI. induction l as [|x l IH]; intros fs HI; simpl; [by apply runs_ret|].
  eapply runs_bind; [apply Hf; [left|exact HI]|]. simpl. intros _ fs' HI'. apply IH; [|exact HI'].
  intros y ? Hy. apply Hf. by right.
Qed.
Lemma reads_for_each {A} (f : A → ST W E unit) (l : list A) fs :
  (∀ x, x ∈ l → reads fs (f x) (λ _, True)) → reads fs (for_each f l) (λ _, True).
Proof.
  intros Hf. eapply runs_weaken; [apply (runs_for_each (eq fs) _ _ (eq fs)) | |]; [done| |naive_solver..].
  intros x fs' Hx <-. eapply runs_weaken; [by apply Hf|naive_solver..].
Qed.
Lemma reads_for_each_all {A} (f : A → ST W E unit) (l : list A) (P : A → Prop) fs :
  (∀ x, x ∈ l → reads fs (f x) (λ _, P x)) → reads fs (for_each f l) (λ _, ∀ x, x ∈ l → P x).
Proof.
  induction l as [|x l IH]; intros Hf; simpl; [apply reads_ret; by intros ? ?%elem_of_nil|].
  eapply reads_bind; [apply Hf; left|]. simpl. intros _ Hx.
  eapply reads_weaken; [apply IH; intros y Hy; apply Hf; by right|].
  simpl. intros _ Hl y [->|Hy]%elem_of_cons; auto.
Qed.
Lemma reads_collect_each {A B} (f : A → ST W E (list B)) (l : list A) (P : B → Prop) fs :
  (∀ x, x ∈ l → reads fs (f x) (Forall P)) → reads fs (collect_each f l) (Forall P).
Proof.
  induction l as [|x l IH]; intros Hf; simpl; [by apply reads_ret|].
  eapply reads_bind; [apply Hf; left|]. simpl. intros ys Hys.
  eapply reads_bind; [apply IH; intros y Hy; apply Hf; by right|]. simpl. intros zs Hzs.
  apply reads_ret. by apply Forall_app.
Qed.
Lemma reads_collect_any {A B} (f : A → ST W E (list B)) (l : list A) fs :
  (∀ x, x ∈ l → reads fs (f x) (λ _, True)) → reads fs (collect_each f l) (λ _, True).
Proof.
  intros Hf. eapply reads_any, (reads_collect_each _ _ (λ _, True)). intros x Hx.
  eapply reads_weaken; [by apply Hf|]. intros a _. by apply Forall_true.
Qed.
End logic.

Section errors.
Context {W : Type} `{HasFs W}.

Lemma runs_try {E A F} fs (m : ST W E A) Q R (R' : Fs → Prop) :
  runs fs m Q R →
  runs fs (try (F := F) m) (λ r fs', match r with Ok a => Q a fs' | Err _ => R fs' end) R'.
Proof. intros Hm w Hw. specialize (Hm w Hw). cbv [try]. by destruct (m w) as [w' []]. Qed.
Lemma reads_try {E A F} fs (m : ST W E A) Q :
  reads fs m Q →
  reads fs (try (F := F) m) (λ r, match r with Ok a => Q a | Err _ => True end).
Proof.
  intros Hm. eapply runs_weaken; [exact (runs_try _ _ _ _ (λ fs', fs' = fs) Hm)| |done].
  intros [a|e] fs'; naive_solver.
Qed.
Lemma runs_map_error {E A F} fs (f : E → F) (m : ST W E A) Q R :
  runs fs m Q R → runs fs (map_error f m) Q R.
Proof. intros Hm w Hw. specialize (Hm w Hw). cbv [map_error]. by destruct (m w) as [w' []]. Qed.

Lemma reads_map_error {E F A} fs (f : E → F) (m : ST W E A) Q :
  reads fs m Q → reads fs (map_error f m) Q.
Proof. apply runs_map_error. Qed.
Lemma runs_ignore {E F A} fs (m : ST W E A) Q (R : Fs → Prop) R' :
  runs fs m Q R → (∀ a fs', Q a fs' → R fs') → runs (E := F) fs (ignore m) (λ _, R) R'.
Proof.
  intros Hm HQ. eapply runs_bind.
  - eapply runs_weaken; [exact (runs_try _ _ _ _ R' Hm)|intros r fs' Hr; exact Hr|done].
  - simpl. intros [a|e] fs' Hr; apply runs_ret; eauto.
Qed.
End errors.

(** Computations with a local state. *)
Section local.
Context {S E : Type}.

Lemma runs_on_world {A} fs (m : M E A) Q R : runs fs m Q R → runs fs (on_world (S := S) m) Q R.
Proof.
  intros Hm [w s] Hw. specialize (Hm w Hw). cbv [on_world]. by destruct (m w) as [w' []].
Qed.
Lemma reads_on_world {A} fs (m : M E A) Q : reads fs m Q → reads fs (on_world (S := S) m) Q.
Proof. apply runs_on_world. Qed.
Lemma reads_get_local fs : reads fs (get_local (S := S) (E := E)) (λ _, True).
Proof. by intros [w s] Hw. Qed.
Lemma reads_put_local fs s : reads fs (put_local (S := S) (E := E) s) (λ _, True).
Proof. by intros [w s'] Hw. Qed.
Lemma runs_with_local {A} fs s (m : ST (World * S) E A) (Q : A → Fs → Prop) R :
  runs fs m Q R → runs fs (with_local s m) (λ sa, Q sa.2) R.
Proof.
  intros Hm w Hw. specialize (Hm (w, s) Hw). cbv [with_local].
  by destruct (m (w, s)) as [[w' s'] []].
Qed.
Lemma reads_with_local {A} fs s (m : ST (World * S) E A) Q :
  reads fs m Q → reads fs (with_local s m) (λ sa, Q sa.2).
Proof. apply (runs_with_local _ _ _ (λ a fs', fs' = fs ∧ Q a)). Qed.
End local.

(** ** The calls of the system *)

Section calls.
Context `{Windows} `{Faults}.

Lemma reads_query {A} fs (f : Fs → result IoError A) : reads fs (query f) (λ a, f fs = Ok a).
Proof.
  intros w <-. cbv [query call]. destruct (call_fails (w_calls w)); [done|].
  change (w_fs (w <| w_calls ::= S |>)) with (w_fs w).
  by destruct (f (w_fs w)) as [a|e] eqn:Hf; simpl; rewrite ?Hf.
Qed.
Lemma runs_call {A} fs (f : nat → Fs → result IoError (Fs * A)) :
  runs fs (call f) (λ a fs', ∃ n, f n fs = Ok (fs', a)) (λ fs', fs' = fs).
Proof.
  intros w <-. cbv [call]. destruct (call_fails (w_calls w)); [done|].
  change (w_fs (w <| w_calls ::= S |>)) with (fs_of w).
  destruct (f (w_calls w) (fs_of w)) as [[fs' a]|e] eqn:Hf; [by exists (w_calls w)|done].
Qed.
Lemma reads_is_cancelled {E} fs : reads fs (is_cancelled (E := E)) (λ _, True).
Proof. by intros w <-. Qed.

(** A directory that is no link, by its final path. *)
Definition real_dir (fs : Fs) (d : Path) : Prop :=
  dos_path d = true ∧ ∃ n, fs !! d = Some n ∧ node_is_dir n = true ∧ nd_reparse n = false.

Lemma real_dir_opens fs d : real_dir fs d → opens fs d = Some d.
Proof. intros (Hd & n & Hn & _). apply opens_final; eauto. Qed.
Lemma real_dir_follows fs d : real_dir fs d → follows fs d = Some d.
Proof.
  intros Hd. pose proof (real_dir_opens _ _ Hd). destruct Hd as (Hd & n & Hn & _ & Hr).
  by eapply follows_plain.
Qed.
Lemma opens_in_real_dir fs d name f :
  real_dir fs d → opens fs (join_name d name) = Some f → ∃ name', f = join_name d name'.
Proof.
  intros Hd Hf. pose proof (real_dir_opens _ _ Hd) as Ho. destruct Hd as (Hd & n & Hn & Hdir & Hr).
  by eapply opens_in.
Qed.
Lemma opens_twice fs p f : opens fs p = Some f → opens fs f = Some f.
Proof. intros [[n Hn] Hd]%opens_object. apply opens_final; eauto. Qed.

Lemma path_parent_join d name : path_parent (join_name d name) = Some d.
Proof.
  unfold path_parent, join_name. rewrite last_snoc. f_equal. apply removelast_last.
Qed.
Lemma path_file_name_join d name : path_file_name (join_name d name) = Some name.
Proof. unfold path_file_name, join_name. by rewrite last_snoc. Qed.
Lemma entry_path_in fs d name f :
  real_dir fs d → entry_path fs (join_name d name) = Ok f → f = join_name d name.
Proof.
  intros Hd. unfold entry_path. rewrite path_parent_join, path_file_name_join. csimpl.
  rewrite (real_dir_follows _ _ Hd). csimpl. repeat case_match; naive_solver.
Qed.

(** What the calls that change something do. *)
Lemma runs_create_node fs node d name :
  real_dir fs d →
  runs fs (create_node node (join_name d name))
    (λ f fs', f = join_name d name ∧ opens fs f = None ∧ ∃ n, fs' = <[f := node n]> fs)
    (λ fs', fs' = fs).
Proof.
  intros Hd. eapply runs_weaken; [apply runs_call| |done]. simpl. intros f fs' [n Hn].
  destruct (opens fs (join_name d name)) eqn:Ho; [done|].
  destruct (entry_path fs (join_name d name)) as [g|] eqn:He; [|done].
  apply entry_path_in in He as ->; [|done]. simpl in Hn. injection Hn as <- <-. eauto.
Qed.

Lemma runs_delete fs h :
  runs fs (os_delete h)
    (λ _ fs', (∀ p, is_below h p = true → fs !! p = None) ∧ is_Some (fs !! h) ∧ fs' = delete h fs)
    (λ fs', fs' = fs).
Proof.
  eapply runs_weaken; [apply runs_call| |done]. simpl. intros [] fs' [_ Hn].
  destruct (fs !! h) eqn:Hh; [|done]. case_match eqn:Hex; [done|]. injection Hn as <-.
  split; [|eauto]. intros p Hp. destruct (fs !! p) as [n'|] eqn:Hq; [|done].
  exfalso. rewrite (proj2 (existsb_exists _ _)) in Hex; [done|]. exists p. split; [|done].
  apply list_elem_of_In, list_elem_of_fmap. exists (p, n'). split; [done|]. by apply elem_of_map_to_list.
Qed.

(** An object found under the name it was opened with. *)
Lemma runs_remove_node fs kind d name :
  real_dir fs d →
  runs fs (remove_node kind (join_name d name))
    (λ _ fs', ∃ name', (∀ p, is_below (join_name d name') p = true → fs !! p = None) ∧
       opens fs (join_name d name) = Some (join_name d name') ∧
       (∃ n, fs !! join_name d name' = Some n ∧ kind n = true) ∧
       fs' = delete (join_name d name') fs)
    (λ fs', fs' = fs).
Proof.
  intros Hd. eapply runs_read; [apply reads_query|done|]. simpl. intros h Hh.
  destruct (opens fs (join_name d name)) as [f|] eqn:Ho; [|done]. injection Hh as ->.
  destruct (opens_in_real_dir _ _ _ _ Hd Ho) as [name' ->].
  eapply runs_read; [apply reads_query|done|]. simpl. intros n Hn.
  eapply runs_read; [apply reads_ensure|done|]. simpl. intros _ Hk.
  eapply runs_weaken; [apply runs_delete| |done]. simpl. intros _ fs' (Hb & Hs & ->).
  exists name'. repeat split; try done. exists n. split; [|done].
  by destruct (fs !! join_name d name'); simplify_eq/=.
Qed.

Definition overwritten (h : Path) (f : bytes → bytes) (fs fs' : Fs) : Prop :=
  ∃ modified, fs' = alter (λ n, n <| nd_content ::= f |> <| nd_modified ::= modified |>) h fs.

Lemma runs_write_at fs h offset data :
  runs fs (os_write_at h offset data)
    (λ _, overwritten h (overwrite_at offset data) fs)
    (λ fs', ∃ k, overwritten h (overwrite_at offset (take k data)) fs fs').
Proof.
  intros w <-. cbv [os_write_at]. destruct (call_fails (w_calls w)).
  - exists (partial_write (w_calls w)), (λ _, clock_ms (w_calls w)). done.
  - by exists (λ _, clock_ms (w_calls w)).
Qed.
Lemma runs_set_len fs h len :
  runs fs (os_set_len h len) (λ _, overwritten h (set_length len) fs) (λ fs', fs' = fs).
Proof.
  eapply runs_weaken; [apply runs_call| |done]. simpl. intros [] fs' [_ Hn]. injection Hn as <-.
  exists id. apply map_eq. intros p. destruct (decide (p = h)) as [->|Hp].
  - rewrite !lookup_alter. destruct (fs !! h) as [[]|]; done.
  - by rewrite !lookup_alter_ne by done.
Qed.

Lemma runs_rename fs h d name overwrite :
  real_dir fs d →
  runs fs (os_rename h (join_name d name) overwrite)
    (λ target fs', target = join_name d name ∧ is_Some (fs !! h) ∧ is_below h target = false ∧
       ((opens fs target = None ∨ opens fs target = Some h) ∧ fs' = move_objects h target fs ∨
        overwrite = true ∧ ∃ name' n, opens fs target = Some (join_name d name') ∧
          fs !! join_name d name' = Some n ∧ nd_directory n = false ∧ join_name d name' ≠ h ∧
          fs' = move_objects h target (delete (join_name d name') fs)))
    (λ fs', fs' = fs).
Proof.
  intros Hd. eapply runs_weaken; [apply runs_call| |done]. simpl. intros target fs' [_ Hn].
  destruct (fs !! h) eqn:Hh; [|done].
  destruct (entry_path fs (join_name d name)) as [t|] eqn:He; [|done].
  apply entry_path_in in He as ->; [|done]. csimpl in Hn.
  case_match; [done|]. case_match eqn:Hb; [done|].
  destruct (opens fs (join_name d name)) as [existing|] eqn:Ho; [|injection Hn as <- <-; eauto 10].
  case_bool_decide as Hex; [subst; injection Hn as <- <-; eauto 10|].
  destruct overwrite; simpl in Hn; [|done].
  destruct (opens_in_real_dir _ _ _ _ Hd Ho) as [name' ->].
  destruct (fs !! join_name d name') as [n'|] eqn:Hn'; [|done]. case_match eqn:Hdir; [done|].
  injection Hn as <- <-. repeat split; eauto 12.
Qed.
End calls.

(** ** Automation

    [reads] solves that a computation changes nothing: the rules above at every
    operator, and the lemmas of the database [reads] at the calls. *)

Create HintDb reads.
#[export] Hint Extern 1 (reads _ (query _) _) => (eapply reads_any, reads_query) : reads.

Ltac reads_core :=
  lazymatch goal with
  | |- reads _ (mbind _ _) _ =>
      eapply (reads_bind _ _ _ (λ _, True)); [reads_core | intros ? _; reads_core]
  | |- reads _ (mret _) _ => apply reads_ret; exact I
  | |- reads _ (throw _) _ => apply reads_throw
  | |- reads _ (ensure _ _) _ => eapply reads_any, reads_ensure
  | |- reads _ (lift _) _ => eapply reads_any, reads_lift
  | |- reads _ (unwrap _ _) _ => eapply reads_any, reads_unwrap
  | |- reads _ (map_error _ _) _ => apply reads_map_error; reads_core
  | |- reads _ (try _) _ => eapply (reads_any _ (try _)), (reads_try _ _ (λ _, True)); reads_core
  | |- reads _ (on_world _) _ => apply reads_on_world; reads_core
  | |- reads _ (with_local _ _) _ =>
      eapply (reads_any _ (with_local _ _)), (reads_with_local _ _ _ (λ _, True)); reads_core
  | |- reads _ (for_each _ _) _ => apply reads_for_each; intros ? _; reads_core
  | |- reads _ (collect_each _ _) _ => apply reads_collect_any; intros ? _; reads_core
  | |- reads _ get_local _ => apply reads_get_local
  | |- reads _ (put_local _) _ => apply reads_put_local
  | |- reads _ is_cancelled _ => apply reads_is_cancelled
  | |- reads _ (let _ := _ in _) _ => cbv zeta; reads_core
  | |- reads _ (match ?x with _ => _ end) _ => destruct x; reads_core
  | |- reads _ _ _ => solve [eauto with reads nocore]
  end.
Ltac reads := intros; reads_core.
