(* ===== verification/PathAuthority.v ===== *)
(** * PathAuthority: which objects a path of a request may name

    [src/src-tauri/src/workspace/path_authority.rs], Windows variant.  A resolver
    accepts a textual path, opens the object it names without following a link at
    its end, and compares the final path Windows reports with the root of the
    active workspace; the root itself is recognized by its file identity.  Access
    rights and share modes only decide whether a call fails, which the oracle of
    [HostFs] covers. *)

From S2P Require Import Prelude Text WindowsPath HostFs.
From S2P Require Workspace.
#[local] Open Scope N_scope.

(* @src workspace/path_authority.rs:25-28 PathAuthorityScope *)
Inductive PathAuthorityScope := ActiveWorkspaceScope | BrokerAdministrator.
#[export] Instance PathAuthorityScope_eq_dec : EqDecision PathAuthorityScope.
Proof. solve_decision. Defined.

(* @src workspace/path_authority.rs:31-35 PathAuthorityError *)
Inductive PathAuthorityError := PathInvalid | PathNotFound | PathOutsideAuthority.

(** [volume_serial] and [file_index]. *)
(* @src workspace/path_authority.rs:39-42 WindowsFileIdentity *)
Definition WindowsFileIdentity : Type := N * N.

(** The optional fields are set by both constructors as their [expect]s say. *)
(* @src workspace/path_authority.rs:85-91 WorkspaceResolver *)
Record WorkspaceResolver := MkWorkspaceResolver {
  wr_scope : PathAuthorityScope;
  wr_execution_root : option Path;
  wr_canonical_root : option Path;
  wr_root_identity : option WindowsFileIdentity
}.
#[export] Instance eta_WorkspaceResolver : Eta WorkspaceResolver := λ r,
  MkWorkspaceResolver (wr_scope r) (wr_execution_root r) (wr_canonical_root r)
    (wr_root_identity r).

(** The handle's object, and the final path it was validated with. *)
(* @src workspace/path_authority.rs:95-98 ValidatedPathHandle *)
Record ValidatedPathHandle := MkValidatedPathHandle { vh_handle : Path; vh_final_path : Path }.

(** ** Textual paths *)

(** [value.contains(['\0', '\n', '\r'])]. *)
Definition has_forbidden_control (value : ustr) : bool :=
  existsb (λ c, (c =? 0) || (c =? 0xA) || (c =? 0xD)) value.
Definition starts_with_any (prefixes : list string) (value : ustr) : bool :=
  existsb (λ prefix, starts_with (lit prefix) value) prefixes.
Definition COLON : N := 0x3A.

(* @src workspace/path_authority.rs:715-735 workspace_relative_path_valid *)
Definition workspace_relative_path_valid (value : ustr) : bool :=
  if bool_decide (value = []) || has_forbidden_control value || existsb (N.eqb COLON) value ||
     starts_with_any ["/"; "\"; "//"; "\\?\"; "//?/"]%string value ||
     bool_decide (utf8_encode value !! 1%nat = Some COLON) || is_absolute value
  then false
  else negb (existsb (λ component, bool_decide (component = lit "..")) (split_on is_sep value)).

(** [is_verbatim_path] of a path given as text. *)
(* @src workspace/path_authority.rs:811-815 is_verbatim_path *)
Definition is_verbatim_path (value : ustr) : bool := starts_with (lit "\\?\") value.

(* @src workspace/path_authority.rs:741-774 workspace_absolute_path_valid *)
Definition workspace_absolute_path_valid (value : ustr) : bool :=
  if bool_decide (value = []) || has_forbidden_control value ||
     starts_with_any ["\"; "/"; "//"; "\\?\"; "//?/"]%string value
  then false
  else if negb (is_absolute value) || is_verbatim_path value ||
          existsb is_parent_dir (components value)
  then false
  else
    match value with
    | drive :: colon :: separator :: rest =>
        is_ascii_alphabetic drive && (colon =? COLON) && is_sep separator &&
        negb (existsb (N.eqb COLON) rest)
    | _ => false
    end.

(* @src workspace/path_authority.rs:737-739 workspace_input_path_valid *)
Definition workspace_input_path_valid (value : ustr) : bool :=
  workspace_relative_path_valid value || workspace_absolute_path_valid value.

(* @src workspace/path_authority.rs:776-790 administrator_absolute_path_valid *)
Definition administrator_absolute_path_valid (value : ustr) : bool :=
  if bool_decide (value = []) || has_forbidden_control value ||
     starts_with_any ["\\?\"; "//?/"]%string value
  then false
  else is_absolute value && negb (is_verbatim_path value) &&
       negb (existsb is_parent_dir (components value)).

(* @src workspace/path_authority.rs:793-803 lexical_path_starts_with *)
Definition lexical_path_starts_with (path root : Path) : bool :=
  path_starts_with_ignore_case root path.

(** On components: the verbatim prefix is taken off. *)
(* @src workspace/path_authority.rs:823-848 ordinary_path *)
Definition ordinary_path (p : Path) : option Path :=
  match p with
  | PrefixComponent (VerbatimUNC server share) :: p =>
      Some (PrefixComponent (UNC server share) :: p)
  | PrefixComponent (VerbatimDisk d) :: p => Some (PrefixComponent (Disk d) :: p)
  | PrefixComponent (Verbatim name) :: RootDir :: p => Some (Normal name :: p)
  | PrefixComponent (Verbatim name) :: p =>
      if bool_decide (name = []) then None else Some (Normal name :: p)
  | [] => None
  | p => Some p
  end.

Section authority.
Context `{Windows} `{Faults}.

(* @src workspace/path_authority.rs:856-869 final_path_from_handle *)
Definition final_path_from_handle (handle : Path) : M PathAuthorityError Path :=
  final ← map_error (λ _, PathInvalid) (query (λ _, Ok (verbatim handle)));
  unwrap (ordinary_path final) PathInvalid.

(* @src workspace/path_authority.rs:704-713 file_identity *)
Definition file_identity (handle : Path) : M PathAuthorityError WindowsFileIdentity :=
  map_error (λ _, PathInvalid) (query (λ fs, Ok (file_index fs handle))).

Definition execution_root (self : WorkspaceResolver) : Path := default [] (wr_execution_root self).
Definition canonical_root (self : WorkspaceResolver) : Path := default [] (wr_canonical_root self).

(* @src workspace/path_authority.rs:248-309 WorkspaceResolver::validate_root_identity *)
Definition validate_root_identity (self : WorkspaceResolver) : M PathAuthorityError unit :=
  match wr_scope self, wr_root_identity self with
  | ActiveWorkspaceScope, Some expected =>
      handle ← map_error (λ _, PathOutsideAuthority) (os_open (execution_root self));
      node ← map_error (λ _, PathOutsideAuthority) (os_node handle);
      _ ← ensure (negb (nd_reparse node)) PathOutsideAuthority;
      final_path ← final_path_from_handle handle;
      _ ← ensure (bool_decide (wr_canonical_root self = Some final_path)) PathOutsideAuthority;
      identity ← file_identity handle;
      ensure (bool_decide (identity = expected)) PathOutsideAuthority
  | _, _ => mret ()
  end.

(* @src workspace/path_authority.rs:647-659 WorkspaceResolver::allows_canonical *)
Definition allows_canonical (self : WorkspaceResolver) (canonical : Path) : bool :=
  match ordinary_path canonical with
  | None => false
  | Some canonical =>
      match wr_scope self with
      | ActiveWorkspaceScope => path_starts_with (canonical_root self) canonical
      | BrokerAdministrator => path_is_absolute canonical
      end
  end.

(* @src workspace/path_authority.rs:557-636 WorkspaceResolver::open_validated_handle_with_share_mode *)
Definition open_validated_handle_with_share_mode (self : WorkspaceResolver) (path : Path)
    (allow_terminal_reparse : bool) : M PathAuthorityError ValidatedPathHandle :=
  _ ← validate_root_identity self;
  handle ← map_error (λ _, PathNotFound) (os_open path);
  node ← map_error (λ _, PathInvalid) (os_node handle);
  _ ← ensure (allow_terminal_reparse || negb (nd_reparse node)) PathOutsideAuthority;
  _ ← (if bool_decide (wr_scope self = ActiveWorkspaceScope) && negb (nd_directory node) &&
          negb (nd_reparse node)
       then
         information ← map_error (λ _, PathInvalid) (os_node handle);
         ensure (nd_links information <=? 1) PathOutsideAuthority
       else mret ());
  final_path ← final_path_from_handle handle;
  _ ← ensure (allows_canonical self final_path) PathOutsideAuthority;
  _ ← validate_root_identity self;
  mret (MkValidatedPathHandle handle final_path).

(** The openings differ in the access and the sharing they ask for. *)
(* @src workspace/path_authority.rs:480-509 WorkspaceResolver::open_validated_handle *)
Definition open_validated_handle (self : WorkspaceResolver) (path : Path) :=
  open_validated_handle_with_share_mode self path false.
(* @src workspace/path_authority.rs:511-532 WorkspaceResolver::open_entry_validated_handle *)
Definition open_entry_validated_handle (self : WorkspaceResolver) (path : Path) :=
  open_validated_handle_with_share_mode self path true.

(* @src workspace/path_authority.rs:116-126 ValidatedPathHandle::regular_file_link_count *)
Definition regular_file_link_count (handle : ValidatedPathHandle) :
    M PathAuthorityError (option N) :=
  node ← map_error (λ _, PathInvalid) (os_node (vh_handle handle));
  mret (if nd_directory node then None else Some (nd_links node)).

(** [root] as text decides what is accepted, its components are what is kept. *)
(* @src workspace/path_authority.rs:143-172 WorkspaceResolver::active_workspace *)
Definition active_workspace (root : ustr) : M PathAuthorityError WorkspaceResolver :=
  _ ← ensure (is_absolute root && negb (is_verbatim_path root)) PathInvalid;
  directory ← os_is_dir (components root);
  _ ← ensure directory PathInvalid;
  canonical ← map_error (λ _, PathInvalid) (os_canonicalize (components root));
  canonical_root ← unwrap (ordinary_path canonical) PathInvalid;
  let authority := MkWorkspaceResolver ActiveWorkspaceScope (Some (components root))
    (Some canonical_root) None in
  handle ← open_validated_handle_with_share_mode authority canonical_root false;
  identity ← file_identity (vh_handle handle);
  mret (authority <| wr_root_identity := Some identity |>).

(* @src workspace/path_authority.rs:174-182 WorkspaceResolver::broker_administrator *)
Definition broker_administrator : WorkspaceResolver :=
  MkWorkspaceResolver BrokerAdministrator None None None.

(* @src workspace/path_authority.rs:184-198 WorkspaceResolver::workspace_identity_token *)
Definition workspace_identity_token (self : WorkspaceResolver) : option ustr :=
  identity ← wr_root_identity self;
  Some (lit "win32-file-id:" ++ Workspace.hex_padded 8 (identity.1) ++ lit ":" ++
        Workspace.hex_padded 16 (identity.2)).

(* @src workspace/path_authority.rs:200-209 WorkspaceResolver::matches_workspace_identity_token *)
Definition matches_workspace_identity_token (self : WorkspaceResolver) (expected : ustr) :
    M PathAuthorityError unit :=
  _ ← validate_root_identity self;
  ensure (bool_decide (workspace_identity_token self = Some expected)) PathOutsideAuthority.

(** The pin keeps the identity the root had. *)
(* @src workspace/path_authority.rs:46-50 WorkspaceLifetimePin *)
Record WorkspaceLifetimePin := MkWorkspaceLifetimePin {
  wlp_identity : WindowsFileIdentity;
  wlp_execution_root : ustr
}.

(* @src workspace/path_authority.rs:211-242 WorkspaceResolver::pin_active_workspace_lifetime *)
Definition pin_active_workspace_lifetime (root : ustr) :
    M PathAuthorityError WorkspaceLifetimePin :=
  authority ← active_workspace root;
  handle ← open_validated_handle_with_share_mode authority (canonical_root authority) false;
  identity ← file_identity (vh_handle handle);
  mret (MkWorkspaceLifetimePin identity root).

(* @src workspace/path_authority.rs:54-70 WorkspaceLifetimePin::validate_current *)
Definition validate_current (self : WorkspaceLifetimePin) : M PathAuthorityError unit :=
  current ← active_workspace (wlp_execution_root self);
  handle ← open_validated_handle_with_share_mode current (canonical_root current) false;
  identity ← file_identity (vh_handle handle);
  ensure (bool_decide (identity = wlp_identity self)) PathOutsideAuthority.

(** ** Resolution *)

(* @src workspace/path_authority.rs:311-336 WorkspaceResolver::input_path *)
Definition input_path (self : WorkspaceResolver) (raw : ustr) : M PathAuthorityError Path :=
  _ ← validate_root_identity self;
  match wr_scope self with
  | ActiveWorkspaceScope =>
      _ ← ensure (workspace_input_path_valid raw) PathInvalid;
      mret (if is_absolute raw then components raw
            else join_relative (execution_root self) (components raw))
  | BrokerAdministrator =>
      _ ← ensure (administrator_absolute_path_valid raw) PathInvalid;
      mret (components raw)
  end.

(** [scope == ActiveWorkspace && !lexical_path_starts_with(..)]. *)
Definition ensure_lexical (self : WorkspaceResolver) (candidate : Path) :
    M PathAuthorityError unit :=
  ensure (negb (bool_decide (wr_scope self = ActiveWorkspaceScope)) ||
          lexical_path_starts_with candidate (execution_root self)) PathOutsideAuthority.

(* @src workspace/path_authority.rs:338-349 WorkspaceResolver::input_is_within_execution_root *)
Definition input_is_within_execution_root (self : WorkspaceResolver) (raw : ustr) :
    M PathAuthorityError bool :=
  candidate ← input_path self raw;
  mret match wr_scope self with
       | ActiveWorkspaceScope => lexical_path_starts_with candidate (execution_root self)
       | BrokerAdministrator => true
       end.

(* @src workspace/path_authority.rs:462-478 WorkspaceResolver::revalidate_opened_path *)
Definition revalidate_opened_path (self : WorkspaceResolver) (path : Path) :
    M PathAuthorityError Path :=
  handle ← open_validated_handle self path;
  mret (vh_final_path handle).

(* @src workspace/path_authority.rs:351-371 WorkspaceResolver::resolve_existing *)
Definition resolve_existing (self : WorkspaceResolver) (raw : ustr) : M PathAuthorityError Path :=
  candidate ← input_path self raw;
  _ ← ensure_lexical self candidate;
  canonical ← map_error (λ _, PathNotFound) (os_canonicalize candidate);
  canonical ← unwrap (ordinary_path canonical) PathInvalid;
  _ ← validate_root_identity self;
  _ ← ensure (allows_canonical self canonical) PathOutsideAuthority;
  mret canonical.

(** What both resolutions of an entry end with. *)
Definition entry_in (self : WorkspaceResolver) (final_parent candidate : Path) :
    M PathAuthorityError Path :=
  name ← unwrap (path_file_name candidate) PathInvalid;
  let entry := join_name final_parent name in
  _ ← ensure (allows_canonical self entry) PathOutsideAuthority;
  mret entry.

(* @src workspace/path_authority.rs:376-402 WorkspaceResolver::resolve_existing_entry *)
Definition resolve_existing_entry (self : WorkspaceResolver) (raw : ustr) :
    M PathAuthorityError Path :=
  candidate ← input_path self raw;
  _ ← ensure_lexical self candidate;
  _ ← map_error (λ _, PathNotFound) (os_symlink_metadata candidate);
  parent ← unwrap (path_parent candidate) PathInvalid;
  final_parent ← revalidate_opened_path self parent;
  name ← unwrap (path_file_name candidate) PathInvalid;
  _ ← validate_root_identity self;
  entry_in self final_parent candidate.

(* @src workspace/path_authority.rs:404-433 WorkspaceResolver::resolve_missing_leaf *)
Definition resolve_missing_leaf (self : WorkspaceResolver) (raw : ustr) :
    M PathAuthorityError Path :=
  candidate ← input_path self raw;
  _ ← ensure_lexical self candidate;
  metadata ← try (os_symlink_metadata candidate);
  if is_ok metadata then resolve_existing_entry self raw else
  parent ← unwrap (path_parent candidate) PathInvalid;
  final_parent ← revalidate_opened_path self parent;
  _ ← validate_root_identity self;
  directory ← os_is_dir final_parent;
  _ ← ensure directory PathInvalid;
  entry_in self final_parent candidate.

(** [Path::join] on text. *)
Definition join_text (base value : ustr) : ustr :=
  if is_absolute value || bool_decide (is_Some (parse_prefix value)) then value
  else if has_root value then
    take (match parse_prefix base with Some p => prefix_len p | None => 0 end) base ++ value
  else match last base with
       | Some c => if is_sep c then base ++ value else base ++ [backslash] ++ value
       | None => value
       end.

Definition blank (value : ustr) : bool := bool_decide (trim value = []).

(* @src workspace/path_authority.rs:435-460 WorkspaceResolver::resolve_workspace_path *)
Definition resolve_workspace_path (self : WorkspaceResolver) (raw : option ustr)
    (default_cwd : ustr) (allow_missing_leaf : bool) : M PathAuthorityError Path :=
  _ ← ensure (bool_decide (wr_scope self = ActiveWorkspaceScope)) PathInvalid;
  let default_cwd := if blank default_cwd then lit "." else default_cwd in
  let selected :=
    match raw with
    | Some value =>
        if blank value then default_cwd
        else if is_absolute value then value else join_text default_cwd value
    | None => default_cwd
    end in
  if allow_missing_leaf : bool then resolve_missing_leaf self selected
  else resolve_existing self selected.

(* @src workspace/path_authority.rs:638-645 WorkspaceResolver::revalidate_parent *)
Definition revalidate_parent (self : WorkspaceResolver) (path : Path) : M PathAuthorityError Path :=
  parent ← unwrap (path_parent path) PathInvalid;
  final_parent ← revalidate_opened_path self parent;
  directory ← os_is_dir final_parent;
  _ ← ensure directory PathInvalid;
  mret final_parent.

(* @src workspace/path_authority.rs:661-670 WorkspaceResolver::discovery_stops_at *)
Definition discovery_stops_at (self : WorkspaceResolver) (canonical : Path) : bool :=
  match wr_scope self with
  | ActiveWorkspaceScope =>
      match ordinary_path canonical with
      | Some canonical => bool_decide (wr_canonical_root self = Some canonical)
      | None => false
      end
  | BrokerAdministrator => false
  end.

(** With [/] between the components. *)
Definition slash_text (p : Path) : ustr :=
  match p with
  | prefix :: RootDir :: p =>
      map (λ c, if c =? backslash then 0x2F else c) (component_text prefix) ++ [0x2F] ++
      names_text [0x2F] p
  | p => names_text [0x2F] p
  end.

(* @src workspace/path_authority.rs:672-696 WorkspaceResolver::display_path *)
Definition display_path (self : WorkspaceResolver) (canonical : Path) :
    result PathAuthorityError ustr :=
  canonical ← ok_or PathInvalid (ordinary_path canonical);
  display ←
    match wr_scope self with
    | ActiveWorkspaceScope =>
        slash_text <$> ok_or PathOutsideAuthority (path_strip_prefix (canonical_root self) canonical)
    | BrokerAdministrator =>
        if path_is_absolute canonical then Ok (slash_text canonical) else Err PathInvalid
    end;
  Ok (if bool_decide (display = []) then lit "." else display).
End authority.
