(* ===== verification/FilesystemService.v ===== *)
(** * FilesystemService: the file operations of the tools

    [src/src-tauri/src/filesystem/service.rs], Windows variant: listing, reading,
    searching, writing, copying, moving, deleting and the hash-checked edits.
    Every operation resolves its paths through the authority, works on validated
    handles, and replaces files through a temporary sibling.  A handle keeps its
    object in place while it is open, so a computation sees no changes but its
    own. *)

From S2P Require Import Prelude Text WindowsPath HostFs PathAuthority.
From S2P Require Workspace.
#[local] Open Scope N_scope.

(* @src filesystem/service.rs:38-38 MAX_FILESYSTEM_READ_BYTES *)
Definition MAX_FILESYSTEM_READ_BYTES : N := 1024 * 1024.
(* @src filesystem/service.rs:39-39 MAX_INTERNAL_FILE_BYTES *)
Definition MAX_INTERNAL_FILE_BYTES : N := 16 * 1024 * 1024.
(* @src filesystem/service.rs:40-40 MAX_FILESYSTEM_ENTRIES *)
Definition MAX_FILESYSTEM_ENTRIES : N := 100000.
(* @src filesystem/service.rs:41-41 MAX_FILESYSTEM_RESULTS *)
Definition MAX_FILESYSTEM_RESULTS : N := 10000.
(* @src filesystem/service.rs:42-42 MAX_FILESYSTEM_DEPTH *)
Definition MAX_FILESYSTEM_DEPTH : N := 64.

(* @src filesystem/service.rs:60-70 FilesystemError *)
Inductive FilesystemError :=
  | FsInvalidArgument | FsNotFound | FsOutsideAuthority | FsAlreadyExists | FsFileChanged
  | FsLimitExceeded | FsCancelled | FsIo | FsUnsupported.
#[export] Instance FilesystemError_eq_dec : EqDecision FilesystemError.
Proof. solve_decision. Defined.

(* @src filesystem/service.rs:73-78 FilesystemEntry *)
Record FilesystemEntry := MkFilesystemEntry {
  fe_path : ustr;
  fe_kind : ustr;
  fe_size : N;
  fe_modified_ms : option N
}.

(* @src filesystem/service.rs:81-85 FilesystemListResult *)
Record FilesystemListResult := MkFilesystemListResult {
  fl_entries : list FilesystemEntry;
  fl_scanned_entries : N;
  fl_truncated : bool
}.

(* @src filesystem/service.rs:88-96 FilesystemStatResult *)
Record FilesystemStatResult := MkFilesystemStatResult {
  fs_path : ustr;
  fs_kind : ustr;
  fs_size : N;
  fs_modified_ms : option N;
  fs_calculated_size : bool;
  fs_scanned_entries : N;
  fs_truncated : bool
}.

(* @src filesystem/service.rs:99-107 FilesystemReadResult *)
Record FilesystemReadResult := MkFilesystemReadResult {
  fr_path : ustr;
  fr_offset : N;
  fr_total_bytes : N;
  fr_returned_bytes : N;
  fr_eof : bool;
  fr_encoding : ustr;
  fr_content : ustr
}.

(* @src filesystem/service.rs:110-115 FilesystemMutationResult *)
Record FilesystemMutationResult := MkFilesystemMutationResult {
  fm_path : ustr;
  fm_destination : option ustr;
  fm_bytes : N;
  fm_changed : bool
}.
#[export] Instance eta_FilesystemMutationResult : Eta FilesystemMutationResult := λ r,
  MkFilesystemMutationResult (fm_path r) (fm_destination r) (fm_bytes r) (fm_changed r).

(* @src filesystem/service.rs:118-123 FilesystemHashResult *)
Record FilesystemHashResult := MkFilesystemHashResult {
  fh_path : ustr;
  fh_algorithm : ustr;
  fh_sha256 : ustr;
  fh_bytes : N
}.

(* @src filesystem/service.rs:126-139 FilesystemSearchOptions *)
Record FilesystemSearchOptions := MkFilesystemSearchOptions {
  so_recursive : bool;
  so_max_depth : N;
  so_max_entries : N;
  so_max_results : N;
  so_pattern : ustr;
  so_kind : option ustr;
  so_min_size : option N;
  so_max_size : option N;
  so_modified_after_ms : option N;
  so_modified_before_ms : option N;
  so_sort_by : ustr;
  so_sort_order : ustr
}.

(* @src filesystem/service.rs:142-150 FilesystemContentSearchOptions *)
Record FilesystemContentSearchOptions := MkFilesystemContentSearchOptions {
  co_recursive : bool;
  co_max_depth : N;
  co_max_entries : N;
  co_max_results : N;
  co_max_file_bytes : N;
  co_pattern : ustr;
  co_case_sensitive : bool
}.

(* @src filesystem/service.rs:152-164 FilesystemContentSearchOptions::default *)
Definition default_content_search_options : FilesystemContentSearchOptions :=
  MkFilesystemContentSearchOptions false 16 10000 100 MAX_FILESYSTEM_READ_BYTES [] true.

(* @src filesystem/service.rs:184-201 FilesystemSearchOptions::default *)
Definition default_search_options : FilesystemSearchOptions :=
  MkFilesystemSearchOptions false 16 10000 1000 (lit "*") None None None None None
    (lit "path") (lit "asc").

(* @src filesystem/service.rs:167-172 FilesystemContentMatch *)
Record FilesystemContentMatch := MkFilesystemContentMatch {
  fcm_path : ustr;
  fcm_line : N;
  fcm_column : N;
  fcm_text : ustr
}.

(* @src filesystem/service.rs:175-182 FilesystemContentSearchResult *)
Record FilesystemContentSearchResult := MkFilesystemContentSearchResult {
  fcs_matches : list FilesystemContentMatch;
  fcs_scanned_entries : N;
  fcs_scanned_files : N;
  fcs_skipped_binary_files : N;
  fcs_skipped_oversized_files : N;
  fcs_truncated : bool
}.
#[export] Instance eta_FilesystemContentSearchResult : Eta FilesystemContentSearchResult := λ r,
  MkFilesystemContentSearchResult (fcs_matches r) (fcs_scanned_entries r) (fcs_scanned_files r)
    (fcs_skipped_binary_files r) (fcs_skipped_oversized_files r) (fcs_truncated r).

(** SHA-256 in hexadecimal, and base64. *)
Class Encodings := {
  sha256_hex : bytes → ustr;
  base64_encode : bytes → ustr;
  base64_decode : ustr → option bytes;
  base64_decode_encode b : base64_decode (base64_encode b) = Some b
}.

(** LocalBridge's own places: the directory of its executable, and the values of
    [LOCALAPPDATA] and [PROGRAMDATA]. *)
Class Installation := {
  current_exe : option Path;
  data_variables : list Path
}.

(* @src filesystem/service.rs:2420-2426 map_path_error *)
Definition map_path_error (error : PathAuthorityError) : FilesystemError :=
  match error with
  | PathInvalid => FsInvalidArgument
  | PathNotFound => FsNotFound
  | PathOutsideAuthority => FsOutsideAuthority
  end.

(** The failures of the system that carry no more than [Io]. *)
Definition io {W A} (m : ST W IoError A) : ST W FilesystemError A := map_error (λ _, FsIo) m.
Definition checked {W A} (m : ST W PathAuthorityError A) : ST W FilesystemError A :=
  map_error map_path_error m.

(* @src filesystem/service.rs:2428-2438 metadata_kind *)
Definition metadata_kind (n : Node) : ustr :=
  if node_is_file n then lit "file"
  else if node_is_dir n then lit "directory"
  else if nd_symlink n then lit "symlink"
  else lit "other".

(* @src filesystem/service.rs:2321-2330 validate_walk_bounds *)
Definition validate_walk_bounds {W} (max_depth max_entries : N) : ST W FilesystemError unit :=
  ensure (negb ((max_depth =? 0) || (MAX_FILESYSTEM_DEPTH <? max_depth) || (max_entries =? 0) ||
                (MAX_FILESYSTEM_ENTRIES <? max_entries))) FsLimitExceeded.

(* @src filesystem/service.rs:2691-2693 valid_sha256_hex *)
Definition valid_sha256_hex (value : ustr) : bool :=
  Nat.eqb (byte_len value) 64 && forallb is_ascii_hexdigit (utf8_encode value).

(** ** Matching text *)

(** The loop on two positions, the last star and where its match was retried;
    [wildcard_match_correct] bounds its steps. *)
(* @src filesystem/service.rs:2864-2888 wildcard_match *)
Fixpoint wildcard_loop (fuel : nat) (pattern value : bytes) (p v : nat) (star : option nat)
    (checkpoint : nat) : option bool :=
  match fuel with
  | O => None
  | S fuel =>
      match value !! v with
      | None =>
          Some (bool_decide (drop p pattern = replicate (length pattern - p)%nat 0x2A))
      | Some c =>
          let at_p := pattern !! p in
          if bool_decide (at_p = Some 0x3F) || bool_decide (at_p = Some c)
          then wildcard_loop fuel pattern value (S p) (S v) star checkpoint
          else if bool_decide (at_p = Some 0x2A)
          then wildcard_loop fuel pattern value (S p) v (Some p) v
          else match star with
               | Some star_index =>
                   wildcard_loop fuel pattern value (S star_index) (S checkpoint) star
                     (S checkpoint)
               | None => Some false
               end
      end
  end.
Definition wildcard_fuel (pattern value : bytes) : nat :=
  S ((S (length value)) * (S (length pattern) + S (length value))).
(* @src filesystem/service.rs:2864-2867 wildcard_match *)
Definition wildcard_match (pattern value : ustr) : bool :=
  let pattern := utf8_encode (to_ascii_lowercase pattern) in
  let value := utf8_encode (to_ascii_lowercase value) in
  default false (wildcard_loop (wildcard_fuel pattern value) pattern value 0 0 None 0).

(* @src filesystem/service.rs:2890-2899 relative_from_display *)
Definition relative_from_display (root child : ustr) : result FilesystemError ustr :=
  if bool_decide (root = lit ".") then Ok child
  else ok_or FsOutsideAuthority (strip_prefix root child ≫= strip_prefix (lit "/")).

(* @src filesystem/service.rs:2901-2909 join_display *)
Definition join_display (root relative : ustr) : ustr :=
  if bool_decide (root = lit ".") then relative
  else if bool_decide (relative = []) then root
  else trim_end_matches (N.eqb 0x2F) root ++ lit "/" ++ relative.

(** ** The service *)

(* @src filesystem/service.rs:204-207 FilesystemService *)
Record FilesystemService := MkFilesystemService {
  svc_authority : WorkspaceResolver;
  svc_cancellable : bool
}.

(** Whether the service was given a cancellation that can be requested; its
    default one never is. *)
(* @src filesystem/service.rs:228-233 FilesystemService::broker_administrator *)
Definition service_broker_administrator : FilesystemService :=
  MkFilesystemService broker_administrator false.
(* @src filesystem/service.rs:235-238 FilesystemService::with_cancellation *)
Definition with_cancellation (self : FilesystemService) : FilesystemService :=
  MkFilesystemService (svc_authority self) true.

Section service.
Context `{Windows} `{Faults} `{Encodings} `{Installation}.

(** [self.cancellation.is_cancelled()]. *)
Definition cancelled {W} (on : ∀ A, M FilesystemError A → ST W FilesystemError A)
    (self : FilesystemService) : ST W FilesystemError bool :=
  if svc_cancellable self then on _ is_cancelled else mret false.
Definition here {A} (m : M FilesystemError A) : M FilesystemError A := m.

(* @src filesystem/service.rs:240-246 FilesystemService::check_cancelled *)
Definition check_cancelled (self : FilesystemService) : M FilesystemError unit :=
  c ← cancelled (@here) self; ensure (negb c) FsCancelled.

(* @src filesystem/service.rs:217-226 FilesystemService::from_authority *)
Definition from_authority (authority : WorkspaceResolver) : M FilesystemError FilesystemService :=
  _ ← ensure (bool_decide (wr_scope authority = ActiveWorkspaceScope)) FsInvalidArgument;
  _ ← checked (input_path authority (lit "."));
  mret (MkFilesystemService authority false).

(* @src filesystem/service.rs:2316-2318 FilesystemService::display_path *)
Definition display (self : FilesystemService) (path : Path) : M FilesystemError ustr :=
  lift (map_err map_path_error (display_path (svc_authority self) path)).

(** *** LocalBridge's own files *)

(* @src filesystem/service.rs:2494-2509 windows_path_is_within *)
Definition windows_path_is_within (path root : Path) : bool :=
  path_starts_with_ignore_case root path.

(* @src filesystem/service.rs:2454-2491 final_path_targets_localbridge_control_plane *)
Definition final_path_targets_localbridge_control_plane (path : Path) :
    M FilesystemError bool :=
  let protected_leaf :=
    match path_file_name path with
    | Some value => existsb (λ name, bool_decide (to_ascii_lowercase value = name))
        [lit "runtime-policy.toml"; lit "runtime-manifest.toml"; lit "startup-profile.json"]
    | None => false
    end in
  if protected_leaf : bool then mret true else
  executable ←
    match current_exe with
    | Some exe => try (E := IoError) (os_canonicalize exe)
    | None => mret (Err IoOther)
    end;
  let within_executable :=
    match executable with
    | Ok exe =>
        match path_parent exe with Some root => windows_path_is_within path root | None => false end
    | Err _ => false
    end in
  if within_executable : bool then mret true else
  (fix variables roots :=
     match roots with
     | [] =>
         mret (existsb (λ component,
           eq_ignore_ascii_case (component_text component) (lit "com.localbridge.desktop")) path)
     | variable :: roots =>
         let root := join_name variable (lit "LocalBridge") in
         canonical ← try (E := IoError) (os_canonicalize root);
         let root := match canonical with Ok root => root | Err _ => root end in
         if windows_path_is_within path root then mret true else variables roots
     end) data_variables.

(* @src filesystem/service.rs:267-274 FilesystemService::reject_broker_control_plane_final_path *)
Definition reject_broker_control_plane_final_path (self : FilesystemService) (path : Path) :
    M FilesystemError unit :=
  match wr_scope (svc_authority self) with
  | BrokerAdministrator =>
      targets ← final_path_targets_localbridge_control_plane path;
      ensure (negb targets) FsOutsideAuthority
  | ActiveWorkspaceScope => mret ()
  end.

(* @src filesystem/service.rs:249-264 FilesystemService::reject_broker_aliased_mutation_handle *)
Definition reject_broker_aliased_mutation_handle (self : FilesystemService)
    (handle : ValidatedPathHandle) : M FilesystemError unit :=
  match wr_scope (svc_authority self) with
  | BrokerAdministrator =>
      _ ← reject_broker_control_plane_final_path self (vh_final_path handle);
      links ← checked (regular_file_link_count handle);
      ensure (match links with Some links => links <=? 1 | None => true end) FsOutsideAuthority
  | ActiveWorkspaceScope => mret ()
  end.

(* @src filesystem/service.rs:277-292 FilesystemService::reject_broker_aliased_existing_target *)
Definition reject_broker_aliased_existing_target (self : FilesystemService) (target : Path) :
    M FilesystemError unit :=
  match wr_scope (svc_authority self) with
  | ActiveWorkspaceScope => mret ()
  | BrokerAdministrator =>
      metadata ← try (os_symlink_metadata target);
      match metadata with
      | Ok _ =>
          handle ← checked (open_validated_handle (svc_authority self) target);
          reject_broker_aliased_mutation_handle self handle
      | Err IoNotFound => mret ()
      | Err _ => throw FsIo
      end
  end.

(** *** Pinned directories *)

(** [ancestors], from the root down. *)
Definition ancestors (p : Path) : list Path :=
  List.filter path_is_absolute (map (λ n, take n p) (seq 1 (length p))).

(** The loop that opens every directory from [start] down. *)
Fixpoint open_each (self : FilesystemService) (directories : list Path)
    (last : option Path) : M FilesystemError (option Path) :=
  match directories with
  | [] => mret last
  | directory :: directories =>
      handle ← checked (open_validated_handle (svc_authority self) directory);
      is_directory ← os_is_dir (vh_final_path handle);
      _ ← ensure is_directory FsInvalidArgument;
      open_each self directories (Some (vh_final_path handle))
  end.

(** The final path of the pinned chain. *)
(* @src filesystem/service.rs:349-399 FilesystemService::open_directory_chain *)
Definition open_directory_chain (self : FilesystemService) (directory : Path) :
    M FilesystemError Path :=
  final_directory ← checked (revalidate_opened_path (svc_authority self) directory);
  let ancestors := ancestors final_directory in
  start ←
    match wr_scope (svc_authority self) with
    | ActiveWorkspaceScope =>
        root ← unwrap (wr_canonical_root (svc_authority self)) FsOutsideAuthority;
        unwrap (position (λ path, path_eq_ignore_case path root) ancestors) FsOutsideAuthority
    | BrokerAdministrator => mret O
    end;
  final_path ← open_each self (drop start ancestors) None;
  final_path ← unwrap final_path FsOutsideAuthority;
  _ ← ensure (path_eq_ignore_case final_path final_directory) FsOutsideAuthority;
  mret final_path.

(* @src filesystem/service.rs:338-346 FilesystemService::open_mutation_parent *)
Definition open_mutation_parent (self : FilesystemService) (target : Path) :
    M FilesystemError Path :=
  parent ← unwrap (path_parent target) FsInvalidArgument;
  chain ← open_directory_chain self parent;
  _ ← reject_broker_control_plane_final_path self chain;
  mret chain.

(** The parent of an existing object, pinned. *)
Definition open_parent_chain (self : FilesystemService) (target : Path) :
    M FilesystemError Path :=
  parent ← unwrap (path_parent target) FsOutsideAuthority;
  open_directory_chain self parent.

(* @src filesystem/service.rs:295-335 FilesystemService::pin_workspace_path *)
Definition pin_workspace_path (self : FilesystemService) (path : ustr)
    (allow_missing_leaf : bool) : M FilesystemError unit :=
  _ ← ensure (bool_decide (wr_scope (svc_authority self) = ActiveWorkspaceScope)) FsInvalidArgument;
  target ←
    (if allow_missing_leaf then checked (resolve_missing_leaf (svc_authority self) path)
     else checked (resolve_existing (svc_authority self) path));
  directory ← os_is_dir target;
  _ ← (if (directory : bool) && negb allow_missing_leaf then open_directory_chain self target
       else open_mutation_parent self target);
  if allow_missing_leaf then mret ()
  else _ ← checked (open_validated_handle (svc_authority self) target); mret ().

(** *** Enumerating *)

Abbreviation Scan E A := (ST (World * N) E A) (only parsing).

(** [while children.len() < remaining]: the names, and whether the budget ran out. *)
Fixpoint read_entries (self : FilesystemService) (remaining : nat) (names children : list ustr) :
    ST (World * N) FilesystemError (list ustr * bool) :=
  match remaining with
  | O => mret (sort_by ustr_leb children, true)
  | S remaining =>
      c ← cancelled (λ A, on_world) self;
      _ ← ensure (negb c) FsCancelled;
      match names with
      | [] => mret (sort_by ustr_leb children, false)
      | name :: names =>
          _ ← on_world (io os_next_entry);
          scanned ← get_local;
          _ ← put_local (scanned + 1);
          read_entries self remaining names (children ++ [name])
      end
  end.

(* @src filesystem/service.rs:2366-2394 read_dir_bounded *)
Definition read_dir_bounded (self : FilesystemService) (directory : Path) (max_entries : N) :
    ST (World * N) FilesystemError (list ustr * bool) :=
  names ← on_world (io (os_read_dir directory));
  scanned ← get_local;
  let remaining := saturating_sub max_entries scanned in
  if remaining =? 0 then mret ([], true)
  else read_entries self (N.to_nat (N.min remaining (N.of_nat (S (length names))))) names [].

(* @src filesystem/service.rs:2396-2418 directory_has_entry_with_budget *)
Definition directory_has_entry_with_budget (self : FilesystemService) (directory : Path)
    (max_entries : N) : ST (World * N) FilesystemError bool :=
  c ← cancelled (λ A, on_world) self;
  _ ← ensure (negb c) FsCancelled;
  scanned ← get_local;
  if max_entries <=? scanned then mret true else
  names ← on_world (io (os_read_dir directory));
  _ ← on_world (io os_next_entry);
  match names with
  | [] => mret false
  | _ :: _ => _ ← put_local (scanned + 1); mret true
  end.
End service.

(** ** Walking *)

(** What a walk has collected. *)
Record WalkState := MkWalkState {
  wk_entries : list FilesystemEntry;
  wk_scanned : N;
  wk_truncated : bool
}.
#[export] Instance eta_WalkState : Eta WalkState := λ r,
  MkWalkState (wk_entries r) (wk_scanned r) (wk_truncated r).

Section walking.
Context `{Windows} `{Faults} `{Encodings} `{Installation}.

Definition walk_world {A} (m : M FilesystemError A) : ST (World * WalkState) FilesystemError A :=
  on_world m.
(** A computation with the counter of scanned entries. *)
Definition walk_scan {A} (m : ST (World * N) FilesystemError A) :
    ST (World * WalkState) FilesystemError A :=
  λ '(w, s), let '((w, scanned), r) := m (w, wk_scanned s) in ((w, s <| wk_scanned := scanned |>), r).
Definition walk_truncated : ST (World * WalkState) FilesystemError unit :=
  λ '(w, s), ((w, s <| wk_truncated := true |>), Ok ()).
Definition walk_push (entry : FilesystemEntry) : ST (World * WalkState) FilesystemError unit :=
  λ '(w, s), ((w, s <| wk_entries ::= (.++ [entry]) |>), Ok ()).

(** [levels] is what remains of the depth. *)
(* @src filesystem/service.rs:2175-2264 FilesystemService::walk_windows_directory *)
Fixpoint walk_windows_directory (self : FilesystemService) (max_entries : N)
    (report_depth_overflow : bool) (levels : nat) (directory : Path) :
    ST (World * WalkState) FilesystemError unit :=
  _ ← walk_world (check_cancelled self);
  match levels with
  | O =>
      if report_depth_overflow then
        overflow ← walk_scan (directory_has_entry_with_budget self directory max_entries);
        if (overflow : bool) then walk_truncated else mret ()
      else mret ()
  | S levels =>
      '(children, overflow) ← walk_scan (read_dir_bounded self directory max_entries);
      _ ← for_each (λ name,
        _ ← walk_world (check_cancelled self);
        let path := join_name directory name in
        metadata ← try (walk_world (io (os_symlink_metadata path)));
        match metadata with
        | Err _ => walk_truncated
        | Ok metadata =>
            if nd_reparse metadata then walk_truncated else
            child_handle ← try (walk_world (checked (open_validated_handle (svc_authority self) path)));
            match child_handle with
            | Err _ => walk_truncated
            | Ok child_handle =>
                let stable_path := vh_final_path child_handle in
                metadata ← walk_world (io (os_node (vh_handle child_handle)));
                path ← walk_world (display self stable_path);
                _ ← walk_push (MkFilesystemEntry path (metadata_kind metadata) (node_len metadata)
                                 (nd_modified metadata));
                if node_is_dir metadata then
                  below ← try (walk_windows_directory self max_entries report_depth_overflow levels
                                 stable_path);
                  match below with
                  | Ok _ => mret ()
                  | Err FsCancelled => throw FsCancelled
                  | Err _ => walk_truncated
                  end
                else mret ()
            end
        end) children;
      if (overflow : bool) then walk_truncated else mret ()
  end.

Definition entry_leb (a b : FilesystemEntry) : bool := ustr_leb (fe_path a) (fe_path b).

(* @src filesystem/service.rs:2080-2173 FilesystemService::walk_with_root_pin *)
Definition walk_with_root_pin (self : FilesystemService) (root : Path) (max_depth max_entries : N)
    (root_already_pinned report_depth_overflow : bool) : M FilesystemError FilesystemListResult :=
  _ ← check_cancelled self;
  stable_root ← (if root_already_pinned then mret root else open_directory_chain self root);
  '(walked, _) ← with_local (MkWalkState [] 0 false)
    (walk_windows_directory self max_entries report_depth_overflow (N.to_nat max_depth) stable_root);
  mret (MkFilesystemListResult (sort_by entry_leb (wk_entries walked)) (wk_scanned walked)
          (wk_truncated walked)).

(* @src filesystem/service.rs:2071-2078 FilesystemService::walk *)
Definition walk (self : FilesystemService) (root : Path) (max_depth max_entries : N) :
    M FilesystemError FilesystemListResult :=
  walk_with_root_pin self root max_depth max_entries false true.

(** ** Reading *)

(* @src filesystem/service.rs:401-427 FilesystemService::list *)
Definition list_directory (self : FilesystemService) (path : ustr) (recursive : bool)
    (max_depth max_entries : N) : M FilesystemError FilesystemListResult :=
  _ ← check_cancelled self;
  _ ← validate_walk_bounds max_depth max_entries;
  root ← checked (resolve_existing (svc_authority self) path);
  directory ← os_is_dir root;
  _ ← ensure directory FsInvalidArgument;
  metadata ← io (os_symlink_metadata root);
  _ ← ensure (negb (nd_reparse metadata)) FsInvalidArgument;
  if recursive then walk self root max_depth max_entries
  else walk_with_root_pin self root 1 max_entries false false.

Definition sum_sizes (entries : list FilesystemEntry) : N :=
  foldr N.add 0 (fe_size <$> List.filter (λ e, bool_decide (fe_kind e = lit "file")) entries).

(* @src filesystem/service.rs:429-481 FilesystemService::stat *)
Definition stat (self : FilesystemService) (path : ustr) (calculate_size : bool)
    (max_depth max_entries : N) : M FilesystemError FilesystemStatResult :=
  _ ← check_cancelled self;
  target ← checked (resolve_existing (svc_authority self) path);
  target_handle ← checked (open_validated_handle (svc_authority self) target);
  let stable_target := vh_final_path target_handle in
  metadata ← io (os_node (vh_handle target_handle));
  _ ← ensure (negb (nd_reparse metadata)) FsOutsideAuthority;
  let calculated := calculate_size && node_is_dir metadata in
  '(size, scanned_entries, truncated) ←
    (if calculated then
       _ ← validate_walk_bounds max_depth max_entries;
       walked ← walk self stable_target max_depth max_entries;
       mret (sum_sizes (fl_entries walked), fl_scanned_entries walked, fl_truncated walked)
     else mret (node_len metadata, 0, false));
  path ← display self stable_target;
  mret (MkFilesystemStatResult path (metadata_kind metadata) size (nd_modified metadata) calculated
          scanned_entries truncated).

(* @src filesystem/service.rs:483-542 FilesystemService::read *)
Definition read (self : FilesystemService) (path : ustr) (offset max_bytes : N) :
    M FilesystemError FilesystemReadResult :=
  _ ← check_cancelled self;
  _ ← ensure (negb ((max_bytes =? 0) || (MAX_FILESYSTEM_READ_BYTES <? max_bytes))) FsLimitExceeded;
  target ← checked (resolve_existing (svc_authority self) path);
  target_handle ← checked (open_validated_handle (svc_authority self) target);
  let stable_target := vh_final_path target_handle in
  metadata ← io (os_node (vh_handle target_handle));
  _ ← ensure (node_is_file metadata && negb (nd_reparse metadata)) FsInvalidArgument;
  let total_bytes := node_len metadata in
  _ ← ensure (offset <=? total_bytes) FsInvalidArgument;
  let remaining := N.min (saturating_sub total_bytes offset) max_bytes in
  bytes ← io (os_read (vh_handle target_handle) (N.to_nat offset) (N.to_nat remaining));
  _ ← ensure (Nat.eqb (length bytes) (N.to_nat remaining)) FsIo;
  let '(encoding, content) :=
    match utf8_decode bytes with
    | Some text => (lit "utf8", text)
    | None => (lit "base64", base64_encode bytes)
    end in
  let returned_bytes := N.of_nat (length bytes) in
  path ← display self stable_target;
  mret (MkFilesystemReadResult path offset total_bytes returned_bytes
          (total_bytes <=? saturating_add u64_max offset returned_bytes) encoding content).

(* @src filesystem/service.rs:2665-2689 read_open_file_bytes_with_limit *)
Definition read_open_file_bytes_with_limit (file : Path) (max_bytes : option N) :
    M FilesystemError bytes :=
  content ← io (query (λ fs, n ← ok_or IoNotFound (fs !! file); Ok (nd_content n)));
  match max_bytes with
  | Some limit =>
      let bytes := take (N.to_nat (N.min (saturating_add u64_max limit 1)
                                         (N.of_nat (length content)))) content in
      _ ← ensure (N.of_nat (length bytes) <=? limit) FsLimitExceeded;
      mret bytes
  | None => mret content
  end.

(* @src filesystem/service.rs:557-599 FilesystemService::read_bytes_with_limit *)
Definition read_bytes_with_limit (self : FilesystemService) (path : ustr) (max_bytes : option N) :
    M FilesystemError bytes :=
  target ← checked (resolve_existing (svc_authority self) path);
  _ ← open_parent_chain self target;
  target_handle ← checked (open_validated_handle (svc_authority self) target);
  metadata ← io (os_node (vh_handle target_handle));
  _ ← ensure (node_is_file metadata && negb (nd_reparse metadata)) FsInvalidArgument;
  _ ← ensure (match max_bytes with Some limit => node_len metadata <=? limit | None => true end)
        FsLimitExceeded;
  read_open_file_bytes_with_limit (vh_handle target_handle) max_bytes.

(* @src filesystem/service.rs:549-555 FilesystemService::read_bytes_bounded *)
Definition read_bytes_bounded (self : FilesystemService) (path : ustr) (max_bytes : N) :
    M FilesystemError bytes :=
  read_bytes_with_limit self path (Some max_bytes).

(** ** Searching *)

Definition is_none_or {A} (f : A → bool) (o : option A) : bool :=
  match o with Some a => f a | None => true end.
Definition is_some_and {A} (f : A → bool) (o : option A) : bool :=
  match o with Some a => f a | None => false end.
Definition says (value : ustr) (expected : string) : bool := bool_decide (value = lit expected).

(** The file name of a displayed path. *)
Definition display_name (path : ustr) : ustr := default [] (file_name path).

(* @src filesystem/service.rs:979-998 FilesystemService::search *)
Definition search_keeps (options : FilesystemSearchOptions) (entry : FilesystemEntry) : bool :=
  wildcard_match (so_pattern options) (display_name (fe_path entry)) &&
  is_none_or (λ kind, (says kind "file" && says (fe_kind entry) "file") ||
                      (says kind "directory" && says (fe_kind entry) "directory")) (so_kind options) &&
  is_none_or (λ min, min <=? fe_size entry) (so_min_size options) &&
  is_none_or (λ max, fe_size entry <=? max) (so_max_size options) &&
  is_none_or (λ min, is_some_and (λ value, min <=? value) (fe_modified_ms entry))
    (so_modified_after_ms options) &&
  is_none_or (λ max, is_some_and (λ value, value <=? max) (fe_modified_ms entry))
    (so_modified_before_ms options).

(** By a number, then by path. *)
Definition key_leb (key : FilesystemEntry → N) (a b : FilesystemEntry) : bool :=
  if key a <? key b then true else if key b <? key a then false else entry_leb a b.

(* @src filesystem/service.rs:999-1009 FilesystemService::search *)
Definition search_order (options : FilesystemSearchOptions) (entries : list FilesystemEntry) :
    list FilesystemEntry :=
  let sorted :=
    if says (so_sort_by options) "size" then sort_by (key_leb fe_size) entries
    else if says (so_sort_by options) "modified"
    then sort_by (key_leb (λ e, default 0 (fe_modified_ms e))) entries
    else sort_by entry_leb entries in
  if says (so_sort_order options) "desc" then rev sorted else sorted.

(* @src filesystem/service.rs:952-1014 FilesystemService::search *)
Definition search (self : FilesystemService) (path : ustr) (options : FilesystemSearchOptions) :
    M FilesystemError FilesystemListResult :=
  _ ← check_cancelled self;
  _ ← validate_walk_bounds (so_max_depth options) (so_max_entries options);
  _ ← ensure (negb ((so_max_results options =? 0) ||
                    (MAX_FILESYSTEM_RESULTS <? so_max_results options))) FsLimitExceeded;
  _ ← ensure (negb (bool_decide (so_pattern options = [])) &&
              (says (so_sort_by options) "path" || says (so_sort_by options) "size" ||
               says (so_sort_by options) "modified") &&
              (says (so_sort_order options) "asc" || says (so_sort_order options) "desc") &&
              is_none_or (λ kind, says kind "file" || says kind "directory") (so_kind options))
        FsInvalidArgument;
  let depth := if so_recursive options then so_max_depth options else 1 in
  walked ← list_directory self path (so_recursive options) depth (so_max_entries options);
  let entries := search_order options (List.filter (search_keeps options) (fl_entries walked)) in
  let limit := N.to_nat (so_max_results options) in
  mret (MkFilesystemListResult (take limit entries) (fl_scanned_entries walked)
          (fl_truncated walked || (limit <? length entries)%nat)).
End walking.

(** [str::to_lowercase]. *)
Class Unicode := { to_lowercase : ustr → ustr }.

Section content.
Context `{Windows} `{Faults} `{Encodings} `{Installation} `{Unicode}.

(** Pushes matches one by one; whether the limit was reached. *)
Fixpoint push_matches (max_results : nat) (found matches : list FilesystemContentMatch) :
    list FilesystemContentMatch * bool :=
  match found with
  | [] => (matches, false)
  | m :: found =>
      let matches := matches ++ [m] in
      if Nat.eqb (length matches) max_results then (matches, true)
      else push_matches max_results found matches
  end.

(** The matches of one line. *)
Definition line_matches (path needle : ustr) (case_sensitive : bool) (line_index : nat)
    (raw_line : ustr) : list FilesystemContentMatch :=
  let line := strip_cr raw_line in
  let searchable := if case_sensitive then line else to_lowercase line in
  map (λ index, MkFilesystemContentMatch path (N.of_nat (S line_index)) (N.of_nat (S index))
                  (take 512 line)) (match_indices needle searchable).

Fixpoint collect_lines (path needle : ustr) (case_sensitive : bool) (max_results : nat)
    (line_index : nat) (lines : list ustr) (matches : list FilesystemContentMatch) :
    list FilesystemContentMatch :=
  match lines with
  | [] => matches
  | raw_line :: lines =>
      match push_matches max_results (line_matches path needle case_sensitive line_index raw_line)
              matches with
      | (matches, true) => matches
      | (matches, false) =>
          collect_lines path needle case_sensitive max_results (S line_index) lines matches
      end
  end.

(* @src filesystem/service.rs:2332-2364 collect_content_matches *)
Definition collect_content_matches (matches : list FilesystemContentMatch) (path text pattern : ustr)
    (case_sensitive : bool) (max_results : nat) : list FilesystemContentMatch :=
  let needle := if case_sensitive then pattern else to_lowercase pattern in
  collect_lines path needle case_sensitive max_results 0 (lines text) matches.

(** The loop over the candidates. *)
(* @src filesystem/service.rs:1080-1112 FilesystemService::search_content *)
Fixpoint search_candidates (self : FilesystemService) (options : FilesystemContentSearchOptions)
    (candidates : list FilesystemEntry) (result : FilesystemContentSearchResult) :
    M FilesystemError FilesystemContentSearchResult :=
  match candidates with
  | [] => mret result
  | candidate :: candidates =>
      _ ← check_cancelled self;
      let result := result <| fcs_scanned_files ::= N.succ |> in
      if co_max_file_bytes options <? fe_size candidate then
        search_candidates self options candidates
          (result <| fcs_skipped_oversized_files ::= N.succ |> <| fcs_truncated := true |>)
      else
        bytes ← read_bytes_bounded self (fe_path candidate) (co_max_file_bytes options);
        match (if existsb (N.eqb 0) bytes then None else utf8_decode bytes) with
        | None =>
            search_candidates self options candidates
              (result <| fcs_skipped_binary_files ::= N.succ |>)
        | Some text =>
            let limit := N.to_nat (co_max_results options) in
            let result := result <| fcs_matches ::= λ matches,
              collect_content_matches matches (fe_path candidate) text (co_pattern options)
                (co_case_sensitive options) limit |> in
            if Nat.eqb (length (fcs_matches result)) limit
            then mret (result <| fcs_truncated := true |>)
            else search_candidates self options candidates result
        end
  end.

(* @src filesystem/service.rs:1016-1079 FilesystemService::search_content *)
Definition search_content (self : FilesystemService) (path : ustr)
    (options : FilesystemContentSearchOptions) : M FilesystemError FilesystemContentSearchResult :=
  _ ← check_cancelled self;
  _ ← validate_walk_bounds (co_max_depth options) (co_max_entries options);
  _ ← ensure (negb (bool_decide (co_pattern options = []) || (co_max_results options =? 0) ||
                    (MAX_FILESYSTEM_RESULTS <? co_max_results options) ||
                    (co_max_file_bytes options =? 0) ||
                    (MAX_INTERNAL_FILE_BYTES <? co_max_file_bytes options))) FsLimitExceeded;
  target ← checked (resolve_existing (svc_authority self) path);
  metadata ← io (os_symlink_metadata target);
  _ ← ensure (negb (nd_reparse metadata)) FsOutsideAuthority;
  '(candidates, scanned_entries, truncated) ←
    (if node_is_file metadata then
       path ← display self target;
       mret ([MkFilesystemEntry path (lit "file") (node_len metadata) (nd_modified metadata)], 1, false)
     else if node_is_dir metadata then
       let depth := if co_recursive options then co_max_depth options else 1 in
       walked ← list_directory self path (co_recursive options) depth (co_max_entries options);
       mret (List.filter (λ e, says (fe_kind e) "file") (fl_entries walked),
             fl_scanned_entries walked, fl_truncated walked)
     else throw FsInvalidArgument);
  search_candidates self options candidates
    (MkFilesystemContentSearchResult [] scanned_entries 0 0 0 truncated).
End content.

(** ** Files *)

Definition COPY_CHUNK : N := 64 * 1024.

Section files.
Context `{Windows} `{Faults} `{Encodings} `{Installation}.

(** The loop reads to the end; every chunk but the last moves it on, so the
    length of the file bounds it. *)
Fixpoint copy_loop (self : FilesystemService) (fuel : nat) (input output : Path) (offset : nat)
    (total : N) : M FilesystemError N :=
  match fuel with
  | O => throw FsIo
  | S fuel =>
      c ← cancelled (@here) self;
      _ ← ensure (negb c) FsCancelled;
      chunk ← io (os_read input offset (N.to_nat COPY_CHUNK));
      if bool_decide (chunk = []) then mret total else
      _ ← io (os_write_at output offset chunk);
      copy_loop self fuel input output (offset + length chunk)
        (saturating_add u64_max total (N.of_nat (length chunk)))
  end.
(** How many rounds a loop over an open file needs. *)
Definition file_rounds {E} (file : Path) : M E nat := λ w,
  (w, Ok (S (match w_fs w !! file with Some n => length (nd_content n) | None => 0 end))).

(* @src filesystem/service.rs:2639-2659 copy_with_cancellation *)
Definition copy_with_cancellation (self : FilesystemService) (input output : Path) :
    M FilesystemError N :=
  fuel ← file_rounds input; copy_loop self fuel input output 0 0.

Fixpoint hash_loop (self : FilesystemService) (fuel : nat) (file : Path) (hashed : bytes) :
    M FilesystemError ustr :=
  match fuel with
  | O => throw FsIo
  | S fuel =>
      c ← cancelled (@here) self;
      _ ← ensure (negb c) FsCancelled;
      chunk ← io (os_read file (length hashed) (N.to_nat COPY_CHUNK));
      if bool_decide (chunk = []) then mret (sha256_hex hashed)
      else hash_loop self fuel file (hashed ++ chunk)
  end.
(* @src filesystem/service.rs:2618-2637 sha256_open_file *)
Definition sha256_open_file (self : FilesystemService) (file : Path) : M FilesystemError ustr :=
  fuel ← file_rounds file; hash_loop self fuel file [].
(* @src filesystem/service.rs:2780-2798 sha256_file *)
Definition sha256_file (self : FilesystemService) (path : Path) : M FilesystemError ustr :=
  file ← io (query (λ fs, ok_or IoNotFound (follows fs path)));
  sha256_open_file self file.

(* @src filesystem/service.rs:2542-2567 write_new_synced *)
Definition write_new_synced (path : Path) (content : bytes) : M FilesystemError unit :=
  file ← map_error (λ error, if bool_decide (error = IoAlreadyExists) then FsAlreadyExists else FsIo)
           (os_create_new path);
  written ← try (_ ← os_write_at file 0 content; os_sync file);
  if is_ok written then mret () else _ ← ignore (os_remove_file path); throw FsIo.

(** [{:x}]. *)
Definition hex_lower (n : N) : ustr :=
  Workspace.hex_padded (N.to_nat (N.max 1 ((N.size n + 3) / 4))) n.

(* @src filesystem/service.rs:2525-2540 sibling_temp_path *)
Definition sibling_temp_path (parent target : Path) : M FilesystemError Path := λ w,
  match path_file_name target with
  | None | Some [] => (w, Err FsInvalidArgument)
  | Some name =>
      let temp := lit "." ++ name ++ lit ".localbridge-" ++ lit (pretty.pretty process_id) ++
        lit "-" ++ hex_lower (w_temp_generation w) ++ lit "-" ++
        hex_lower (clock_nanos (w_calls w)) ++ lit ".tmp" in
      (w <| w_temp_generation ::= wrapping_add u64_max 1 |>, Ok (join_name parent temp))
  end.

(* @src filesystem/service.rs:2610-2616 map_rename_error *)
Definition map_rename_error (error : IoError) : FilesystemError :=
  if bool_decide (error = IoAlreadyExists) then FsAlreadyExists else FsIo.

(** [result] of a closure that must not leave its temporary file behind. *)
Definition cleaning {A} (temp : Path) (m : M FilesystemError A) : M FilesystemError A :=
  r ← try m;
  _ ← (if is_ok r then mret () else ignore (os_remove_file temp));
  lift r.

(** What stands at the target of a write or a copy. *)
Definition check_existing (target : Path) (overwrite : bool) : M FilesystemError unit :=
  metadata ← try (os_symlink_metadata target);
  match metadata with
  | Err _ => mret ()
  | Ok metadata =>
      _ ← ensure (negb (nd_reparse metadata) && node_is_file metadata) FsOutsideAuthority;
      ensure overwrite FsAlreadyExists
  end.

(** The commit of a temporary file: its object, under the name it was given. *)
Definition commit_temp (self : FilesystemService) (temp parent : Path) (leaf : ustr)
    (overwrite : bool) : M FilesystemError Path :=
  temp_handle ← checked (open_validated_handle (svc_authority self) temp);
  let committed := join_name parent leaf in
  _ ← reject_broker_aliased_existing_target self committed;
  map_error map_rename_error (os_rename (vh_handle temp_handle) committed overwrite).

(* @src filesystem/service.rs:881-950 FilesystemService::write *)
Definition write (self : FilesystemService) (path : ustr) (content : bytes) (overwrite : bool) :
    M FilesystemError FilesystemMutationResult :=
  _ ← ensure (N.of_nat (length content) <=? MAX_INTERNAL_FILE_BYTES) FsLimitExceeded;
  target ← checked (resolve_missing_leaf (svc_authority self) path);
  _ ← check_existing target overwrite;
  parent ← open_mutation_parent self target;
  leaf ← unwrap (path_file_name target) FsInvalidArgument;
  temp ← sibling_temp_path parent target;
  _ ← cleaning temp (_ ← write_new_synced temp content; commit_temp self temp parent leaf overwrite);
  final_target ← checked (revalidate_opened_path (svc_authority self) (join_name parent leaf));
  path ← display self final_target;
  mret (MkFilesystemMutationResult path None (N.of_nat (length content)) true).

(* @src filesystem/service.rs:626-643 FilesystemService::validate_new_file_path *)
Definition validate_new_file_path (self : FilesystemService) (path : ustr) :
    M FilesystemError unit :=
  target ← checked (resolve_missing_leaf (svc_authority self) path);
  exists_ ← os_exists target;
  _ ← ensure (negb exists_) FsFileChanged;
  _ ← open_mutation_parent self target;
  mret ().

(* @src filesystem/service.rs:645-678 FilesystemService::create_file_for_edit *)
Definition create_file_for_edit (self : FilesystemService) (path : ustr) (content : bytes) :
    M FilesystemError unit :=
  target ← checked (resolve_missing_leaf (svc_authority self) path);
  parent ← open_mutation_parent self target;
  leaf ← unwrap (path_file_name target) FsInvalidArgument;
  let stable_target := join_name parent leaf in
  _ ← map_error (λ error, if bool_decide (error = FsAlreadyExists) then FsFileChanged else error)
        (write_new_synced stable_target content);
  opened ← try (revalidate_opened_path (svc_authority self) stable_target);
  match opened with
  | Ok _ => mret ()
  | Err error => _ ← ignore (os_remove_file stable_target); throw (map_path_error error)
  end.

(** [seek], [write_all], [set_len], [sync_all]. *)
Definition put_contents (file : Path) (content : bytes) : M IoError unit :=
  _ ← os_write_at file 0 content;
  _ ← os_set_len file (length content);
  os_sync file.

(* @src filesystem/service.rs:2701-2721 replace_open_file_contents *)
Definition replace_open_file_contents (file : Path) (original updated : bytes) :
    M FilesystemError unit :=
  result ← try (put_contents file updated);
  if is_ok result then mret () else
  _ ← ignore (os_write_at file 0 original);
  _ ← ignore (os_set_len file (length original));
  _ ← ignore (os_sync file);
  throw FsIo.

(** A handle on a regular file, and its whole content. *)
Definition read_regular (handle : ValidatedPathHandle) : M FilesystemError bytes :=
  metadata ← io (os_node (vh_handle handle));
  _ ← ensure (node_is_file metadata && negb (nd_reparse metadata)) FsInvalidArgument;
  read_open_file_bytes_with_limit (vh_handle handle) None.

(** [sha256_bytes(&bytes).eq_ignore_ascii_case(expected)]. *)
Definition ensure_sha256 (expected : ustr) (content : bytes) : M FilesystemError unit :=
  ensure (eq_ignore_ascii_case (sha256_hex content) expected) FsFileChanged.

(* @src filesystem/service.rs:689-749 FilesystemService::replace_file_if_sha256_with *)
Definition replace_file_if_sha256 (self : FilesystemService) (path expected_sha256 : ustr)
    (content : bytes) : M FilesystemError unit :=
  _ ← ensure (valid_sha256_hex expected_sha256) FsInvalidArgument;
  target ← checked (resolve_existing (svc_authority self) path);
  _ ← open_parent_chain self target;
  handle ← map_error (λ error,
      match error with PathNotFound | PathInvalid => FsFileChanged | error => map_path_error error end)
    (open_validated_handle (svc_authority self) target);
  original ← read_regular handle;
  _ ← ensure_sha256 expected_sha256 original;
  replace_open_file_contents (vh_handle handle) original content.

(* @src filesystem/service.rs:765-808 FilesystemService::delete_file_if_sha256 *)
Definition delete_file_if_sha256 (self : FilesystemService) (path expected_sha256 : ustr) :
    M FilesystemError unit :=
  _ ← ensure (valid_sha256_hex expected_sha256) FsInvalidArgument;
  target ← checked (resolve_existing (svc_authority self) path);
  _ ← open_parent_chain self target;
  handle ← checked (open_validated_handle (svc_authority self) target);
  content ← read_regular handle;
  _ ← ensure_sha256 expected_sha256 content;
  io (os_delete (vh_handle handle)).

(* @src filesystem/service.rs:810-879 FilesystemService::move_file_if_sha256 *)
Definition move_file_if_sha256 (self : FilesystemService) (source destination expected_sha256 : ustr) :
    M FilesystemError unit :=
  _ ← ensure (valid_sha256_hex expected_sha256) FsInvalidArgument;
  source_path ← checked (resolve_existing (svc_authority self) source);
  destination_path ← checked (resolve_missing_leaf (svc_authority self) destination);
  exists_ ← os_exists destination_path;
  _ ← ensure (negb exists_) FsFileChanged;
  _ ← open_parent_chain self source_path;
  destination_parent ← open_mutation_parent self destination_path;
  handle ← checked (open_validated_handle (svc_authority self) source_path);
  content ← read_regular handle;
  _ ← ensure_sha256 expected_sha256 content;
  leaf ← unwrap (path_file_name destination_path) FsInvalidArgument;
  _ ← map_error (λ error, if bool_decide (error = IoAlreadyExists) then FsFileChanged else FsIo)
        (os_rename (vh_handle handle) (join_name destination_parent leaf) false);
  mret ().

(* @src filesystem/service.rs:1979-2014 FilesystemService::hash *)
Definition hash (self : FilesystemService) (path : ustr) : M FilesystemError FilesystemHashResult :=
  _ ← check_cancelled self;
  target ← checked (resolve_existing (svc_authority self) path);
  handle ← checked (open_validated_handle (svc_authority self) target);
  metadata ← io (os_node (vh_handle handle));
  _ ← ensure (node_is_file metadata && negb (nd_reparse metadata)) FsInvalidArgument;
  path ← display self (vh_final_path handle);
  sha256 ← sha256_open_file self (vh_handle handle);
  mret (MkFilesystemHashResult path (lit "sha256") sha256 (node_len metadata)).

(* @src filesystem/service.rs:2016-2060 FilesystemService::create_directory *)
Definition create_directory (self : FilesystemService) (path : ustr) :
    M FilesystemError FilesystemMutationResult :=
  target ← checked (resolve_missing_leaf (svc_authority self) path);
  exists_ ← os_exists target;
  _ ← ensure (negb exists_) FsAlreadyExists;
  parent ← open_mutation_parent self target;
  leaf ← unwrap (path_file_name target) FsInvalidArgument;
  let stable_target := join_name parent leaf in
  _ ← map_error (λ error, if bool_decide (error = IoAlreadyExists) then FsAlreadyExists else FsIo)
        (os_create_dir stable_target);
  opened ← try (revalidate_opened_path (svc_authority self) stable_target);
  match opened with
  | Err error => _ ← ignore (os_remove_dir stable_target); throw (map_path_error error)
  | Ok final_target =>
      path ← display self final_target;
      mret (MkFilesystemMutationResult path None 0 true)
  end.
End files.

(** ** Trees *)

(** A path below a root, its kind, size and hash. *)
(* @src filesystem/service.rs:2800-2800 TreeManifestEntry *)
Record TreeManifestEntry := MkTreeManifestEntry {
  tm_path : ustr;
  tm_kind : ustr;
  tm_size : N;
  tm_sha256 : option ustr
}.
#[export] Instance TreeManifestEntry_eq_dec : EqDecision TreeManifestEntry.
Proof. solve_decision. Defined.

Section trees.
Context `{Windows} `{Faults} `{Encodings} `{Installation}.

Definition manifest_leb (a b : TreeManifestEntry) : bool := ustr_leb (tm_path a) (tm_path b).

(** The loop over the stack of directories; every directory on it was scanned
    once, so the bound on the entries bounds the rounds. *)
Fixpoint manifest_loop (self : FilesystemService) (root : Path) (max_depth max_entries : N)
    (fuel : nat) (stack : list (Path * N)) (manifest : list TreeManifestEntry) :
    ST (World * N) FilesystemError (list TreeManifestEntry) :=
  match stack with
  | [] => mret manifest
  | (directory, depth) :: stack =>
      match fuel with
      | O => throw FsIo
      | S fuel =>
          c ← cancelled (λ A, on_world) self;
          _ ← ensure (negb c) FsCancelled;
          if max_depth <=? depth then
            more ← directory_has_entry_with_budget self directory max_entries;
            _ ← ensure (negb more) FsLimitExceeded;
            manifest_loop self root max_depth max_entries fuel stack manifest
          else
            '(children, overflow) ← read_dir_bounded self directory max_entries;
            _ ← ensure (negb overflow) FsLimitExceeded;
            found ← collect_each (λ name,
              c ← cancelled (λ A, on_world) self;
              _ ← ensure (negb c) FsCancelled;
              let path := join_name directory name in
              metadata ← on_world (io (os_symlink_metadata path));
              _ ← ensure (negb (nd_reparse metadata)) FsOutsideAuthority;
              relative ← unwrap (names_text [0x2F] <$> path_strip_prefix root path)
                           FsOutsideAuthority;
              if node_is_file metadata then
                sha256 ← on_world (sha256_file self path);
                mret [(MkTreeManifestEntry relative (lit "file") (node_len metadata) (Some sha256),
                       None)]
              else if node_is_dir metadata then
                mret [(MkTreeManifestEntry relative (lit "directory") 0 None,
                       if depth + 1 <? max_depth then Some (path, depth + 1) else None)]
              else throw FsUnsupported) children;
            manifest_loop self root max_depth max_entries fuel (rev (omap snd found) ++ stack)
              (manifest ++ map fst found)
      end
  end.

(* @src filesystem/service.rs:2802-2862 tree_manifest *)
Definition tree_manifest (self : FilesystemService) (root : Path) (max_depth max_entries : N) :
    M FilesystemError (list TreeManifestEntry) :=
  _ ← validate_walk_bounds max_depth max_entries;
  root ← map_error (λ _, FsNotFound) (os_canonicalize root);
  '(_, manifest) ← with_local 0
    (manifest_loop self root max_depth max_entries (S (N.to_nat max_entries)) [(root, 0)] []);
  mret (sort_by manifest_leb manifest).

(** *** Deleting *)

(** The handles below a directory, every directory after what it holds. *)
(* @src filesystem/service.rs:1809-1880 FilesystemService::preflight_directory_delete *)
Fixpoint preflight_directory_delete (self : FilesystemService) (max_entries : N) (levels : nat)
    (directory : Path) : ST (World * N) FilesystemError (list ValidatedPathHandle) :=
  _ ← on_world (check_cancelled self);
  match levels with
  | O =>
      more ← directory_has_entry_with_budget self directory max_entries;
      if (more : bool) then throw FsLimitExceeded else mret []
  | S levels =>
      '(children, overflow) ← read_dir_bounded self directory max_entries;
      _ ← ensure (negb overflow) FsLimitExceeded;
      collect_each (λ name,
        _ ← on_world (check_cancelled self);
        let path := join_name directory name in
        metadata ← on_world (io (os_symlink_metadata path));
        _ ← ensure (nd_reparse metadata || node_is_dir metadata || node_is_file metadata)
              FsUnsupported;
        handle ← on_world (checked (open_entry_validated_handle (svc_authority self) path));
        _ ← on_world (reject_broker_aliased_mutation_handle self handle);
        let stable := vh_final_path handle in
        stable_metadata ← on_world (io (os_symlink_metadata stable));
        pending ←
          (if node_is_dir stable_metadata && negb (nd_reparse stable_metadata)
           then preflight_directory_delete self max_entries levels stable
           else
             _ ← ensure (nd_reparse stable_metadata || node_is_file stable_metadata) FsUnsupported;
             mret []);
        mret (pending ++ [handle])) children
  end.

(** [for handle in pending { delete_raw_handle(..)?; }]. *)
Definition delete_handles (pending : list ValidatedPathHandle) : M FilesystemError unit :=
  for_each (λ handle, io (os_delete (vh_handle handle))) pending.

(* @src filesystem/service.rs:1785-1806 FilesystemService::delete_directory_contents_secure *)
Definition delete_directory_contents_secure (self : FilesystemService) (directory : Path)
    (max_depth max_entries : N) : M FilesystemError unit :=
  '(_, pending) ← with_local 0
    (preflight_directory_delete self max_entries (N.to_nat max_depth) directory);
  delete_handles pending.

(* @src filesystem/service.rs:1607-1716 FilesystemService::delete *)
Definition delete_path (self : FilesystemService) (path : ustr) (recursive : bool)
    (max_depth max_entries : N) : M FilesystemError FilesystemMutationResult :=
  _ ← check_cancelled self;
  _ ← validate_walk_bounds max_depth max_entries;
  target ← checked (resolve_existing_entry (svc_authority self) path);
  display_path ← display self target;
  _ ← ensure (negb (bool_decide (wr_scope (svc_authority self) = ActiveWorkspaceScope) &&
                    bool_decide (wr_canonical_root (svc_authority self) = Some target)))
        FsOutsideAuthority;
  metadata ← io (os_symlink_metadata target);
  _ ← open_parent_chain self target;
  _ ← ensure (nd_reparse metadata || node_is_dir metadata || node_is_file metadata) FsUnsupported;
  target_handle ← checked (open_entry_validated_handle (svc_authority self) target);
  _ ← reject_broker_aliased_mutation_handle self target_handle;
  let stable_target := vh_final_path target_handle in
  stable_metadata ← io (os_symlink_metadata stable_target);
  _ ← (if node_is_dir stable_metadata && negb (nd_reparse stable_metadata) then
         if recursive then delete_directory_contents_secure self stable_target max_depth max_entries
         else
           names ← io (os_read_dir stable_target);
           next ← try os_next_entry;
           ensure (is_ok next && bool_decide (names = [])) FsInvalidArgument
       else ensure (nd_reparse stable_metadata || node_is_file stable_metadata) FsUnsupported);
  _ ← map_error (λ error, if bool_decide (error = IoDirectoryNotEmpty) then FsInvalidArgument else FsIo)
        (os_delete (vh_handle target_handle));
  mret (MkFilesystemMutationResult display_path None (node_len metadata) true).

(* @src filesystem/service.rs:2062-2069 FilesystemService::remove_empty_directory *)
Definition remove_empty_directory (self : FilesystemService) (path : ustr) :
    M FilesystemError FilesystemMutationResult :=
  result ← delete_path self path false 1 1;
  mret (result <| fm_bytes := 0 |>).

(** *** Copying *)

(** From an open source to a target through a temporary sibling, compared by
    their hashes afterwards. *)
(* @src filesystem/service.rs:1323-1378 FilesystemService::copy_open_file_atomic *)
Definition copy_open_file_atomic (self : FilesystemService) (input target : Path)
    (overwrite : bool) : M FilesystemError N :=
  _ ← check_existing target overwrite;
  parent ← open_mutation_parent self target;
  leaf ← unwrap (path_file_name target) FsInvalidArgument;
  temp ← sibling_temp_path parent target;
  cleaning temp
    (output ← io (os_create_new temp);
     bytes ← copy_with_cancellation self input output;
     _ ← io (os_sync output);
     committed ← commit_temp self temp parent leaf overwrite;
     source_hash ← sha256_open_file self input;
     destination_hash ← sha256_open_file self committed;
     if bool_decide (source_hash = destination_hash) then mret bytes
     else _ ← ignore (os_delete committed); throw FsIo).

(* @src filesystem/service.rs:1228-1320 FilesystemService::copy_file_atomic *)
Definition copy_file_atomic (self : FilesystemService) (source target : Path) (overwrite : bool) :
    M FilesystemError N :=
  source_handle ← checked (open_validated_handle (svc_authority self) source);
  let source := vh_final_path source_handle in
  source_metadata ← io (os_symlink_metadata source);
  _ ← ensure (node_is_file source_metadata && negb (nd_reparse source_metadata)) FsInvalidArgument;
  copy_open_file_atomic self (vh_handle source_handle) target overwrite.

(* @src filesystem/service.rs:2266-2314 FilesystemService::copy_directory_tree *)
Definition copy_directory_tree (self : FilesystemService) (source destination : Path)
    (max_depth max_entries : N) : M FilesystemError N :=
  walked ← walk_with_root_pin self source max_depth max_entries true true;
  _ ← ensure (negb (fl_truncated walked)) FsLimitExceeded;
  source_display ← display self source;
  destination_display ← display self destination;
  _ ← for_each (λ entry,
        _ ← check_cancelled self;
        relative ← lift (relative_from_display source_display (fe_path entry));
        _ ← create_directory self (join_display destination_display relative);
        mret ()) (List.filter (λ e, says (fe_kind e) "directory") (fl_entries walked));
  '(bytes, _) ← with_local 0 (for_each (λ entry, λ '(w, total),
        match
          (_ ← check_cancelled self;
           relative ← lift (relative_from_display source_display (fe_path entry));
           source_path ← checked (resolve_existing (svc_authority self)
                                    (join_display source_display relative));
           destination_path ← checked (resolve_missing_leaf (svc_authority self)
                                         (join_display destination_display relative));
           copy_file_atomic self source_path destination_path false) w
        with
        | (w, Ok bytes) => ((w, saturating_add u64_max total bytes), Ok ())
        | (w, Err error) => ((w, total), Err error)
        end) (List.filter (λ e, says (fe_kind e) "file") (fl_entries walked)));
  _ ← ensure (negb (existsb (λ e, says (fe_kind e) "reparse") (fl_entries walked)))
        FsOutsideAuthority;
  mret bytes.

(* @src filesystem/service.rs:1173-1226 FilesystemService::copy_directory_from_stable_root *)
Definition copy_directory_from_stable_root (self : FilesystemService) (source_path : Path)
    (destination : ustr) (max_depth max_entries : N) : M FilesystemError FilesystemMutationResult :=
  _ ← create_directory self destination;
  destination_path ← checked (resolve_existing (svc_authority self) destination);
  destination_final ← open_directory_chain self destination_path;
  verified ← try
    (bytes ← copy_directory_tree self source_path destination_final max_depth max_entries;
     source_manifest ← tree_manifest self source_path max_depth max_entries;
     destination_manifest ← tree_manifest self destination_final max_depth max_entries;
     _ ← ensure (bool_decide (source_manifest = destination_manifest)) FsIo;
     mret bytes);
  match verified with
  | Err error =>
      _ ← ignore (delete_path (MkFilesystemService (svc_authority self) false) destination true
                    max_depth max_entries);
      throw error
  | Ok bytes =>
      path ← display self source_path;
      destination ← display self destination_final;
      mret (MkFilesystemMutationResult path (Some destination) bytes true)
  end.

(* @src filesystem/service.rs:1115-1171 FilesystemService::copy *)
Definition copy (self : FilesystemService) (source destination : ustr) (recursive overwrite : bool)
    (max_depth max_entries : N) : M FilesystemError FilesystemMutationResult :=
  _ ← check_cancelled self;
  _ ← validate_walk_bounds max_depth max_entries;
  source_path ← checked (resolve_existing (svc_authority self) source);
  metadata ← io (os_symlink_metadata source_path);
  _ ← ensure (negb (nd_reparse metadata)) FsOutsideAuthority;
  destination_path ← checked (resolve_missing_leaf (svc_authority self) destination);
  if node_is_file metadata then
    bytes ← copy_file_atomic self source_path destination_path overwrite;
    destination_final ← checked (resolve_existing (svc_authority self) destination);
    path ← display self source_path;
    destination ← display self destination_final;
    mret (MkFilesystemMutationResult path (Some destination) bytes true)
  else
    refused ← (if negb (node_is_dir metadata) || negb recursive then mret true
               else os_exists destination_path);
    if (refused : bool) then
      exists_ ← os_exists destination_path;
      throw (if (exists_ : bool) then FsAlreadyExists else FsInvalidArgument)
    else
      stable_source ← open_directory_chain self source_path;
      copy_directory_from_stable_root self stable_source destination max_depth max_entries.
End trees.

(** ** Moving *)

Section moving.
Context `{Windows} `{Faults} `{Encodings} `{Installation}.

(** Locks every object below a directory against writers. *)
(* @src filesystem/service.rs:1719-1782 FilesystemService::lock_cross_volume_move_tree *)
Fixpoint lock_cross_volume_move_tree (self : FilesystemService) (max_entries : N) (levels : nat)
    (directory : Path) : ST (World * N) FilesystemError unit :=
  _ ← on_world (check_cancelled self);
  match levels with
  | O =>
      more ← directory_has_entry_with_budget self directory max_entries;
      if (more : bool) then throw FsLimitExceeded else mret ()
  | S levels =>
      '(children, overflow) ← read_dir_bounded self directory max_entries;
      _ ← ensure (negb overflow) FsLimitExceeded;
      for_each (λ name,
        _ ← on_world (check_cancelled self);
        let path := join_name directory name in
        metadata ← on_world (io (os_symlink_metadata path));
        _ ← ensure (negb (nd_reparse metadata)) FsOutsideAuthority;
        _ ← ensure (node_is_dir metadata || node_is_file metadata) FsUnsupported;
        handle ← on_world (checked (open_validated_handle (svc_authority self) path));
        _ ← on_world (reject_broker_aliased_mutation_handle self handle);
        if node_is_dir metadata
        then lock_cross_volume_move_tree self max_entries levels (vh_final_path handle)
        else mret ()) children
  end.

(** With the counter of a state that holds more. *)
Definition exact_scan {S A} (m : ST (World * N) FilesystemError A) :
    ST (World * (N * S)) FilesystemError A :=
  λ '(w, (n, s)), let '((w, n), r) := m (w, n) in ((w, (n, s)), r).

(** Removes an expected entry: one that is missing has changed. *)
Definition take_expected (relative : ustr) :
    ST (World * (N * gmap ustr TreeManifestEntry)) FilesystemError TreeManifestEntry :=
  λ '(w, (n, expected)),
    match expected !! relative with
    | Some entry => ((w, (n, delete relative expected)), Ok entry)
    | None => ((w, (n, expected)), Err FsFileChanged)
    end.

(* @src filesystem/service.rs:1883-1977 FilesystemService::preflight_directory_delete_exact *)
Fixpoint preflight_directory_delete_exact (self : FilesystemService) (max_entries : N)
    (levels : nat) (directory relative_directory : Path) :
    ST (World * (N * gmap ustr TreeManifestEntry)) FilesystemError (list ValidatedPathHandle) :=
  _ ← on_world (check_cancelled self);
  match levels with
  | O =>
      more ← exact_scan (directory_has_entry_with_budget self directory max_entries);
      if (more : bool) then throw FsLimitExceeded else mret []
  | S levels =>
      '(children, overflow) ← exact_scan (read_dir_bounded self directory max_entries);
      _ ← ensure (negb overflow) FsLimitExceeded;
      collect_each (λ name,
        _ ← on_world (check_cancelled self);
        let path := join_name directory name in
        metadata ← on_world (io (os_symlink_metadata path));
        _ ← ensure (negb (nd_reparse metadata)) FsOutsideAuthority;
        _ ← ensure (node_is_dir metadata || node_is_file metadata) FsUnsupported;
        handle ← on_world (checked (open_validated_handle (svc_authority self) path));
        _ ← on_world (reject_broker_aliased_mutation_handle self handle);
        let stable := vh_final_path handle in
        stable_metadata ← on_world (io (os_node (vh_handle handle)));
        _ ← ensure (negb (nd_reparse stable_metadata)) FsOutsideAuthority;
        let relative_path := join_name relative_directory name in
        expected ← take_expected (names_text [0x2F] relative_path);
        pending ←
          (if node_is_dir stable_metadata then
             _ ← ensure (says (tm_kind expected) "directory" && (tm_size expected =? 0) &&
                         bool_decide (tm_sha256 expected = None)) FsFileChanged;
             preflight_directory_delete_exact self max_entries levels stable relative_path
           else if node_is_file stable_metadata then
             hash ← on_world (sha256_file self stable);
             _ ← ensure (says (tm_kind expected) "file" &&
                         (tm_size expected =? node_len stable_metadata) &&
                         bool_decide (tm_sha256 expected = Some hash)) FsFileChanged;
             mret []
           else throw FsUnsupported);
        mret (pending ++ [handle])) children
  end.

(** What a move does when the destination is on another volume: a file is copied
    from its handle; a directory is locked, copied, compared, bound object by
    object to the manifest, and only then deleted. *)
(* @src filesystem/service.rs:1474-1554 FilesystemService::move_path *)
Definition move_across_volumes (self : FilesystemService) (source_display destination : ustr)
    (destination_path : Path) (source_handle : ValidatedPathHandle) (source_metadata : Node)
    (overwrite : bool) (max_depth max_entries : N) : M FilesystemError FilesystemMutationResult :=
  if nd_reparse source_metadata then throw FsUnsupported
  else if node_is_file source_metadata then
    bytes ← copy_open_file_atomic self (vh_handle source_handle) destination_path overwrite;
    _ ← io (os_delete (vh_handle source_handle));
    destination_final ← checked (resolve_existing (svc_authority self) destination);
    destination ← display self destination_final;
    mret (MkFilesystemMutationResult source_display (Some destination) bytes true)
  else
    let stable_source := vh_final_path source_handle in
    let levels := N.to_nat max_depth in
    _ ← with_local 0 (lock_cross_volume_move_tree self max_entries levels stable_source);
    copied ← copy_directory_from_stable_root self stable_source destination max_depth max_entries;
    source_manifest ← tree_manifest self stable_source max_depth max_entries;
    destination_final ← checked (resolve_existing (svc_authority self) destination);
    destination_manifest ← tree_manifest self destination_final max_depth max_entries;
    _ ← ensure (bool_decide (source_manifest = destination_manifest)) FsFileChanged;
    let expected : gmap ustr TreeManifestEntry :=
      list_to_map ((λ entry, (tm_path entry, entry)) <$> rev source_manifest) in
    '((_, remaining), pending) ← with_local (0, expected)
      (preflight_directory_delete_exact self max_entries levels stable_source []);
    _ ← ensure (bool_decide (remaining = ∅)) FsFileChanged;
    _ ← delete_handles pending;
    _ ← io (os_delete (vh_handle source_handle));
    mret copied.

(* @src filesystem/service.rs:1381-1473 FilesystemService::move_path *)
Definition move_path (self : FilesystemService) (source destination : ustr)
    (recursive overwrite : bool) (max_depth max_entries : N) :
    M FilesystemError FilesystemMutationResult :=
  _ ← check_cancelled self;
  _ ← validate_walk_bounds max_depth max_entries;
  source_path ← checked (resolve_existing_entry (svc_authority self) source);
  source_display ← display self source_path;
  initial_metadata ← io (os_symlink_metadata source_path);
  destination_path ← checked (resolve_missing_leaf (svc_authority self) destination);
  _ ← open_parent_chain self source_path;
  _ ← ensure (nd_reparse initial_metadata || node_is_file initial_metadata ||
              node_is_dir initial_metadata) FsUnsupported;
  source_handle ← checked (open_entry_validated_handle (svc_authority self) source_path);
  _ ← reject_broker_aliased_mutation_handle self source_handle;
  source_metadata ← io (os_symlink_metadata (vh_final_path source_handle));
  let source_is_directory := node_is_dir source_metadata && negb (nd_reparse source_metadata) in
  _ ← ensure (negb source_is_directory || recursive) FsInvalidArgument;
  exists_ ← os_exists destination_path;
  _ ← ensure (negb exists_ || overwrite) FsAlreadyExists;
  exists_ ← (if source_is_directory then os_exists destination_path else mret false);
  _ ← ensure (negb exists_) FsAlreadyExists;
  parent ← open_mutation_parent self destination_path;
  leaf ← unwrap (path_file_name destination_path) FsInvalidArgument;
  renamed ← try (os_rename (vh_handle source_handle) (join_name parent leaf) overwrite);
  match renamed with
  | Ok _ =>
      let bytes := if node_is_file source_metadata then node_len source_metadata else 0 in
      final_destination ← checked (resolve_existing_entry (svc_authority self) destination);
      destination ← display self final_destination;
      mret (MkFilesystemMutationResult source_display (Some destination) bytes true)
  | Err IoNotSameDevice =>
      move_across_volumes self source_display destination destination_path source_handle
        source_metadata overwrite max_depth max_entries
  | Err error => throw (map_rename_error error)
  end.
End moving.
