(* ===== verification/HostExamples.v ===== *)
(** * HostExamples: a concrete host

    A file system whose names are exact and whose links lead nowhere, a system in
    which no call fails or chosen ones do, and concrete encodings: the instances
    on which the witnesses of the file service run. *)

From S2P Require Import Prelude Text WindowsPath HostFs PathAuthority FilesystemService.
#[local] Open Scope N_scope.

Definition plain (p : Path) : Path :=
  match p with
  | PrefixComponent (VerbatimDisk d) :: p => PrefixComponent (Disk d) :: p
  | PrefixComponent (VerbatimUNC server share) :: p => PrefixComponent (UNC server share) :: p
  | p => p
  end.
Definition plain_opens (fs : Fs) (p : Path) : option Path :=
  _ ← fs !! plain p; if dos_path (plain p) then Some (plain p) else None.
Definition plain_follows (fs : Fs) (p : Path) : option Path :=
  f ← plain_opens fs p; n ← fs !! f; if nd_symlink n then None else Some f.

Lemma plain_opens_Some fs p f :
  plain_opens fs p = Some f ↔ f = plain p ∧ dos_path f = true ∧ is_Some (fs !! f).
Proof.
  unfold plain_opens. split.
  - intros (n & Hn & Hf)%bind_Some. case_match; [|done]. simplify_eq. eauto.
  - intros (-> & Hd & [n Hn]). by rewrite Hn, Hd.
Qed.
Lemma plain_dos p : dos_path p = true → plain p = p.
Proof. by destruct p as [|[[]| | | |] [|[] ?]]. Qed.
Lemma plain_join p name : dos_path (plain p) = true → plain (join_name p name) = join_name (plain p) name.
Proof. by destruct p as [|[[]| | | |] [|[] ?]]. Qed.
Lemma plain_join_opens fs p d name :
  plain_opens fs p = Some d → plain_opens fs (join_name p name) = plain_opens fs (join_name d name).
Proof.
  intros (-> & Hd & _)%plain_opens_Some. unfold plain_opens. rewrite plain_join by done.
  assert (Hp : plain (plain p) = plain p) by by apply plain_dos.
  by rewrite (plain_join (plain p)), Hp by by rewrite Hp.
Qed.
Lemma plain_verbatim p : plain (verbatim p) = plain p.
Proof. by destruct p as [|[[]| | | |] ?]. Qed.

(** Every object on one volume, unless its path starts with another drive. *)
Definition drive_of (p : Path) : Path := take 1 p.

Definition plain_windows : Windows.
Proof.
  refine {| opens := plain_opens; follows := plain_follows;
            file_index := λ _ p, (0, N.of_nat (length p));
            same_volume := λ a b, bool_decide (drive_of a = drive_of b) |}.
  - by intros fs p f (_ & Hd & Hs)%plain_opens_Some.
  - intros fs f Hs Hd. apply plain_opens_Some. by rewrite plain_dos.
  - intros fs p d n name Hd _ _ _. by apply plain_join_opens.
  - intros fs d n name f Hd _ _ _ (-> & _)%plain_opens_Some.
    apply plain_opens_Some in Hd as (Hp & Hd & _). exists name.
    rewrite plain_join by by rewrite <- Hp. by rewrite <- Hp.
  - intros fs p f (g & (-> & Hd & _)%plain_opens_Some & (n & Hn & Hf)%bind_Some)%bind_Some.
    case_match; [done|]. simplify_eq. eauto.
  - intros fs p f n Ho Hn Hr. unfold plain_follows. rewrite Ho. csimpl. rewrite Hn. csimpl.
    unfold nd_symlink. by rewrite Hr.
  - intros fs p. unfold plain_opens. by rewrite plain_verbatim.
  - intros fs p. unfold plain_follows, plain_opens. by rewrite plain_verbatim.
Defined.

(** The calls of the list fail; nothing is cancelled. *)
Definition failing (calls : list nat) : Faults := {|
  call_fails := λ n, bool_decide (n ∈ calls);
  partial_write := λ _, 1%nat;
  cancelled_at := λ _, false;
  clock_ms := λ n, Some (N.of_nat n);
  clock_nanos := N.of_nat;
  process_id := 7
|}.

(** Two digits for every byte; and a digest of 64 digits. *)
Definition digit (n : N) : N := if n <? 10 then 0x30 + n else 0x57 + n.
Definition undigit (c : N) : N := if c <? 0x3A then c - 0x30 else c - 0x57.
Fixpoint plain_decode (s : ustr) : option bytes :=
  match s with
  | [] => Some []
  | a :: b :: s => (λ rest, (undigit a * 16 + undigit b) :: rest) <$> plain_decode s
  | _ => None
  end.
Definition plain_encode (b : bytes) : ustr :=
  flat_map (λ x, [digit (x `div` 16); digit (x `mod` 16)]) b.
Lemma undigit_digit n : undigit (digit n) = n.
Proof. unfold undigit, digit. repeat case_match; lia. Qed.
Lemma plain_decode_encode b : plain_decode (plain_encode b) = Some b.
Proof.
  induction b as [|x b IH]; [done|]. simpl. rewrite IH. simpl. rewrite !undigit_digit.
  do 2 f_equal. rewrite N.mul_comm. symmetry. apply N.div_mod. done.
Qed.
Definition plain_encodings : Encodings := {|
  sha256_hex := λ b, take 64 (plain_encode b ++ replicate 64 0x30);
  base64_encode := plain_encode;
  base64_decode := plain_decode;
  base64_decode_encode := plain_decode_encode
|}.
Definition ascii_unicode : Unicode := {| to_lowercase := to_ascii_lowercase |}.

(** ** Example paths and files *)

Definition path_of (text : string) : Path := components (lit text).
Definition plain_installation : Installation := {|
  current_exe := Some (path_of "C:\Program Files\LocalBridge\localbridge.exe");
  data_variables := [path_of "C:\Users\me\AppData\Local"; path_of "C:\ProgramData"]
|}.

(** A project with a source directory, a file of two names, and a file beside it. *)
Definition example_fs : Fs := list_to_map [
  (path_of "C:\", new_dir None);
  (path_of "C:\work", new_dir None);
  (path_of "C:\work\src", new_dir None);
  (path_of "C:\work\src\a.txt", new_file (lit "alpha") None);
  (path_of "C:\work\src\b.txt", new_file (lit "beta") None);
  (path_of "C:\work\linked.txt", MkNode false false false (lit "shared") None 2);
  (path_of "C:\secret.txt", new_file (lit "secret") None)
].
Definition example_world : World := MkWorld example_fs 0 0.
Definition example_root : Path := path_of "C:\work".
Definition example_service : FilesystemService := MkFilesystemService
  (MkWorkspaceResolver ActiveWorkspaceScope (Some example_root) (Some example_root)
     (Some (0, N.of_nat (length example_root)))) true.
