(* ===== verification/FilesystemFacts.v ===== *)
(** * FilesystemFacts: what the parts of the file service guarantee

    The authority only answers objects of its root; a pinned chain ends in a real
    directory of it; and every change the service makes starts from such a
    directory.  [confined] says what a workspace's service can do to the objects
    of the host, whatever calls fail on the way. *)

From S2P Require Import Prelude Text WindowsPath HostFs HostLogic PathAuthority FilesystemService.
#[local] Open Scope N_scope.

(** ** Prefixes *)

Lemma path_strip_prefix_Some root p rest :
  path_strip_prefix root p = Some rest ↔ p = root ++ rest.
Proof.
  revert p. induction root as [|c root IH]; intros p; simpl; [naive_solver|].
  destruct p as [|c' p]; [naive_solver|]. case_decide; subst; rewrite ?IH; naive_solver.
Qed.
Lemma path_starts_with_spec root p : path_starts_with root p = true ↔ ∃ rest, p = root ++ rest.
Proof.
  unfold path_starts_with. rewrite bool_decide_eq_true. split.
  - intros [rest ?%path_strip_prefix_Some]. eauto.
  - intros [rest ?]. exists rest. by apply path_strip_prefix_Some.
Qed.
Lemma path_starts_with_refl p : path_starts_with p p = true.
Proof. apply path_starts_with_spec. exists []. by rewrite app_nil_r. Qed.
Lemma path_starts_with_join root d name :
  path_starts_with root d = true → path_starts_with root (join_name d name) = true.
Proof.
  rewrite !path_starts_with_spec. intros [rest ->]. exists (rest ++ [Normal name]).
  unfold join_name. by rewrite app_assoc.
Qed.
Lemma path_starts_with_trans a b c :
  path_starts_with a b = true → path_starts_with b c = true → path_starts_with a c = true.
Proof. rewrite !path_starts_with_spec. intros [x ->] [y ->]. exists (x ++ y). by rewrite app_assoc. Qed.
Lemma join_name_not_prefix d name : path_starts_with (join_name d name) d = false.
Proof.
  apply not_true_is_false. rewrite path_starts_with_spec. intros [rest Hd].
  apply (f_equal length) in Hd. revert Hd. unfold join_name. rewrite !length_app. simpl. lia.
Qed.
Lemma join_name_ne d name : join_name d name ≠ d.
Proof. intros He. pose proof (join_name_not_prefix d name) as Hp. by rewrite He, path_starts_with_refl in Hp. Qed.
Lemma is_below_join h d name :
  is_below h (join_name d name) = false → path_starts_with h d = false.
Proof.
  destruct (decide (join_name d name = h)) as [<-|Hne]; [intros; apply join_name_not_prefix|].
  unfold is_below. intros Hb. apply not_true_is_false. intros Hd.
  rewrite (path_starts_with_join _ _ _ Hd) in Hb. simpl in Hb.
  by rewrite bool_decide_eq_false_2 in Hb.
Qed.

(** ** Moving objects *)

Lemma lookup_move_Some old new fs p q n :
  fs !! q = Some n → moved_path old new q = p →
  (∀ q' m, fs !! q' = Some m → moved_path old new q' = p → m = n) →
  move_objects old new fs !! p = Some n.
Proof.
  intros Hq Hp Hunique. apply elem_of_list_to_map_1'.
  - intros m ([q' m'] & [= Hq' ->] & Hin%elem_of_map_to_list)%list_elem_of_fmap. symmetry. eauto.
  - apply list_elem_of_fmap. exists (q, n). split; [simpl; by rewrite Hp|by apply elem_of_map_to_list].
Qed.
Lemma lookup_move_None old new fs p :
  (∀ q n, fs !! q = Some n → moved_path old new q ≠ p) → move_objects old new fs !! p = None.
Proof.
  intros Hp. apply not_elem_of_list_to_map_1.
  intros (q & -> & ([q' m] & -> & Hin%elem_of_map_to_list)%list_elem_of_fmap)%list_elem_of_fmap.
  by eapply Hp.
Qed.
Lemma moved_path_self old new : moved_path old new old = new.
Proof.
  unfold moved_path. rewrite (proj2 (path_strip_prefix_Some old old [])) by by rewrite app_nil_r.
  by rewrite app_nil_r.
Qed.
Lemma moved_path_other old new p : path_starts_with old p = false → moved_path old new p = p.
Proof.
  intros Hp. unfold moved_path. case_match eqn:Hs; [|done]. apply path_strip_prefix_Some in Hs.
  exfalso. apply not_true_iff_false in Hp. apply Hp, path_starts_with_spec. eauto.
Qed.
Lemma moved_path_new old new q p : path_starts_with new p = false → moved_path old new q = p → q = p.
Proof.
  intros Hnew. unfold moved_path. case_match; [|done]. intros <-. exfalso.
  apply not_true_iff_false in Hnew. apply Hnew, path_starts_with_spec. eauto.
Qed.

Lemma lookup_move_other old new fs p :
  path_starts_with old p = false → path_starts_with new p = false →
  move_objects old new fs !! p = fs !! p.
Proof.
  intros Hold Hnew. destruct (fs !! p) as [n|] eqn:Hp.
  - eapply lookup_move_Some; [exact Hp|by apply moved_path_other|].
    intros q m Hq ?%moved_path_new; [|done]. congruence.
  - apply lookup_move_None. intros q n Hq ?%moved_path_new; [|done]. congruence.
Qed.
Lemma lookup_move_elem old new fs p n :
  move_objects old new fs !! p = Some n → ∃ q, fs !! q = Some n.
Proof.
  unfold move_objects. intros Hp%elem_of_list_to_map_2.
  apply list_elem_of_fmap in Hp as ([q m] & [= -> ->] & Hin%elem_of_map_to_list). eauto.
Qed.

(** ** What a workspace's service may do *)

(** Nothing outside the root is touched; and a file with several names keeps the
    content it had, because its other names may be outside. *)
Record confined (root : Path) (fs fs' : Fs) : Prop := {
  confined_outside p : path_starts_with root p = false → fs' !! p = fs !! p;
  confined_aliases p n : fs' !! p = Some n → 1 < nd_links n → ∃ q, fs !! q = Some n
}.

#[export] Instance confined_preorder root : PreOrder (confined root).
Proof.
  split; [by split; eauto|]. intros a b c Hab Hbc. split.
  - intros p Hp. by rewrite (confined_outside _ _ _ Hbc), (confined_outside _ _ _ Hab).
  - intros p n Hp Hl. destruct (confined_aliases _ _ _ Hbc _ _ Hp Hl) as [q Hq].
    exact (confined_aliases _ _ _ Hab _ _ Hq Hl).
Qed.

Definition unaliased (fs : Fs) (h : Path) : Prop := ∃ n, fs !! h = Some n ∧ nd_links n ≤ 1.

Lemma confined_insert root fs f n :
  path_starts_with root f = true → nd_links n ≤ 1 → confined root fs (<[f := n]> fs).
Proof.
  intros Hf Hn. split; intros p.
  - intros Hp. rewrite lookup_insert_ne; [done|]. intros ->. congruence.
  - intros m. rewrite lookup_insert_Some. intros [[? ?]|[? ?]] ?; [|eauto]. subst. lia.
Qed.
Lemma confined_delete root fs f :
  path_starts_with root f = true → confined root fs (delete f fs).
Proof.
  intros Hf. split; intros p.
  - intros Hp. rewrite lookup_delete_ne; [done|]. intros ->. congruence.
  - intros m. rewrite lookup_delete_Some. naive_solver.
Qed.
Lemma confined_overwritten root fs fs' h f :
  path_starts_with root h = true → unaliased fs h → overwritten h f fs fs' →
  confined root fs fs' ∧ unaliased fs' h.
Proof.
  intros Hh (n & Hn & Hl) [modified ->]. split; [split; intros p|].
  - intros Hp. rewrite lookup_alter_ne; [done|]. intros ->. congruence.
  - intros m Hm Hlm. destruct (decide (p = h)) as [->|Hne].
    + rewrite lookup_alter_eq, Hn in Hm. simplify_eq/=. lia.
    + rewrite lookup_alter_ne in Hm by done. eauto.
  - eexists. rewrite lookup_alter_eq, Hn. simpl. eauto.
Qed.
Lemma confined_move root fs old new :
  path_starts_with root old = true → path_starts_with root new = true →
  confined root fs (move_objects old new fs).
Proof.
  intros Ho Hn. assert (Hout : ∀ q p, path_starts_with root q = true →
    path_starts_with root p = false → path_starts_with q p = false).
  { intros q p Hq Hp. apply not_true_is_false. intros ?.
    by rewrite (path_starts_with_trans root q p) in Hp. }
  split; intros p.
  - intros Hp. apply lookup_move_other; eauto.
  - intros m Hm _. by eapply lookup_move_elem.
Qed.

Lemma real_dir_overwritten fs fs' h f d :
  overwritten h f fs fs' → real_dir fs d → real_dir fs' d.
Proof.
  intros [modified ->] (Hd & n & Hn & Hdir). split; [done|].
  destruct (decide (d = h)) as [->|Hne].
  - rewrite lookup_alter_eq, Hn. simpl. eexists. split; [done|]. by destruct n.
  - rewrite lookup_alter_ne by done. eauto.
Qed.

(** ** Changes below a pinned directory *)

Section within.
Context `{Windows} `{Faults}.
Variables (root d : Path) (fs0 : Fs).

(** What has happened so far stayed in the root, and [d] is still a directory. *)
Definition within (fs : Fs) : Prop :=
  confined root fs0 fs ∧ path_starts_with root d = true ∧ real_dir fs d.

Lemma within_insert fs name n :
  within fs → opens fs (join_name d name) = None → nd_links n ≤ 1 →
  within (<[join_name d name := n]> fs).
Proof.
  intros (Hc & Hd & Hr) Ho Hn. split; [|split; [done|]].
  - etrans; [exact Hc|]. apply confined_insert; [by apply path_starts_with_join|done].
  - destruct Hr as (Hdos & m & Hm & ?). split; [done|]. exists m. rewrite lookup_insert_ne; [done|].
    apply join_name_ne.
Qed.
Lemma within_delete fs h :
  within fs → path_starts_with root h = true → h ≠ d → within (delete h fs).
Proof.
  intros (Hc & Hd & Hr) Hh Hne. split; [|split; [done|]].
  - etrans; [exact Hc|]. by apply confined_delete.
  - destruct Hr as (Hdos & m & Hm & ?). split; [done|]. exists m. by rewrite lookup_delete_ne.
Qed.
Lemma within_overwritten fs fs' h f :
  within fs → path_starts_with root h = true → unaliased fs h → overwritten h f fs fs' →
  within fs' ∧ unaliased fs' h.
Proof.
  intros (Hc & Hd & Hr) Hh Hu Ho. destruct (confined_overwritten _ _ _ _ _ Hh Hu Ho) as [Hc' Hu'].
  split; [|done]. split; [by etrans|]. split; [done|]. by eapply real_dir_overwritten.
Qed.
Lemma within_move fs h name :
  within fs → path_starts_with root h = true → path_starts_with h d = false →
  within (move_objects h (join_name d name) fs).
Proof.
  intros (Hc & Hd & Hr) Hh Hne. split; [|split; [done|]].
  - etrans; [exact Hc|]. apply confined_move; [done|by apply path_starts_with_join].
  - destruct Hr as (Hdos & m & Hm & ?). split; [done|]. exists m.
    by rewrite lookup_move_other by (done || apply join_name_not_prefix).
Qed.

Lemma within_create_node fs (node : nat → Node) name :
  within fs → (∀ n, nd_links (node n) ≤ 1) →
  runs fs (create_node node (join_name d name))
    (λ f fs', f = join_name d name ∧ within fs' ∧ opens fs f = None ∧
              ∃ n, fs' = <[f := node n]> fs) within.
Proof.
  intros Hw Hn. eapply runs_weaken; [apply runs_create_node, Hw| |by intros ? ->].
  intros f fs' (-> & Ho & n & ->). split; [done|]. split; [by apply within_insert|]. eauto.
Qed.
Lemma within_remove_node fs kind name :
  within fs → runs fs (remove_node kind (join_name d name)) (λ _, within) within.
Proof.
  intros Hw. eapply runs_weaken; [apply runs_remove_node, Hw| |by intros ? ->].
  simpl. intros _ fs' (name' & _ & _ & _ & ->). apply within_delete; [done|..].
  - apply path_starts_with_join, Hw.
  - apply join_name_ne.
Qed.
Lemma within_write_at fs h offset data :
  within fs → path_starts_with root h = true → unaliased fs h →
  runs fs (os_write_at h offset data) (λ _ fs', within fs' ∧ unaliased fs' h)
    (λ fs', within fs' ∧ unaliased fs' h).
Proof.
  intros Hw Hh Hu. eapply runs_weaken; [apply runs_write_at|..]; simpl.
  - intros _ fs' Ho. by eapply within_overwritten.
  - intros fs' [k Ho]. by eapply within_overwritten.
Qed.
Lemma within_set_len fs h len :
  within fs → path_starts_with root h = true → unaliased fs h →
  runs fs (os_set_len h len) (λ _ fs', within fs' ∧ unaliased fs' h)
    (λ fs', within fs' ∧ unaliased fs' h).
Proof.
  intros Hw Hh Hu. eapply runs_weaken; [apply runs_set_len|..]; simpl.
  - intros _ fs' Ho. by eapply within_overwritten.
  - by intros fs' ->.
Qed.
Lemma within_os_delete fs h :
  within fs → path_starts_with root h = true → h ≠ d →
  runs fs (os_delete h) (λ _, within) within.
Proof.
  intros Hw Hh Hne. eapply runs_weaken; [apply runs_delete| |by intros ? ->].
  simpl. intros _ fs' (_ & _ & ->). by apply within_delete.
Qed.
Lemma within_rename fs h name overwrite :
  within fs → path_starts_with root h = true →
  runs fs (os_rename h (join_name d name) overwrite)
    (λ target fs', target = join_name d name ∧ within fs') (λ fs', fs' = fs).
Proof.
  intros Hw Hh. eapply runs_weaken; [apply runs_rename, Hw| |done].
  simpl. intros target fs' (-> & _ & Hb & Hcase). split; [done|].
  apply is_below_join in Hb.
  destruct Hcase as [[_ ->]|(_ & name' & n & _ & Hn & Hdir & _ & ->)]; [by apply within_move|].
  apply within_move; [|done..]. apply within_delete; [done|apply path_starts_with_join, Hw|].
  apply join_name_ne.
Qed.
End within.

(** ** The authority *)

Section authority.
Context `{Windows} `{Faults}.
Variable fs : Fs.

Lemma reads_final_path h :
  dos_path h = true → reads fs (final_path_from_handle h) (λ p, p = h).
Proof.
  intros Hh. eapply reads_bind; [apply reads_map_error, reads_query|]. simpl. intros p [= <-].
  eapply reads_weaken; [apply reads_unwrap|]. simpl. intros a.
  destruct h as [|[[]| | | |] [|[] ?]]; naive_solver.
Qed.
Lemma reads_final_path_any h : reads fs (final_path_from_handle h) (λ _, True).
Proof. unfold final_path_from_handle. reads. Qed.
Lemma reads_file_identity h : reads fs (file_identity h) (λ _, True).
Proof. unfold file_identity. reads. Qed.
Lemma reads_os_open p : reads fs (os_open p) (λ h, opens fs p = Some h).
Proof. eapply reads_weaken; [apply reads_query|]. intros a. apply ok_or_Ok. Qed.
Lemma reads_os_node h : reads fs (os_node h) (λ n, fs !! h = Some n).
Proof. eapply reads_weaken; [apply reads_query|]. intros a. apply ok_or_Ok. Qed.
Lemma reads_os_is_dir {E} p :
  reads fs (os_is_dir (E := E) p) (λ b, b = true → ∃ f n, follows fs p = Some f ∧ fs !! f = Some n ∧
    node_is_dir n = true).
Proof.
  eapply reads_bind; [eapply reads_try, reads_query|]. simpl. intros [n|] Hr; apply reads_ret; [|done].
  apply ok_or_Ok, bind_Some in Hr as (f & Hf & Hn). eauto.
Qed.
End authority.

#[export] Hint Extern 1 (reads _ (final_path_from_handle _) _) => apply reads_final_path_any : reads.
#[export] Hint Extern 1 (reads _ (file_identity _) _) => apply reads_file_identity : reads.
#[export] Hint Extern 1 (reads _ (os_open _) _) => (eapply reads_any, reads_os_open) : reads.
#[export] Hint Extern 1 (reads _ (os_node _) _) => (eapply reads_any, reads_os_node) : reads.
#[export] Hint Extern 1 (reads _ (os_is_dir _) _) => (eapply reads_any, reads_os_is_dir) : reads.
#[export] Hint Extern 1 (reads _ (os_symlink_metadata _) _) => (unfold os_symlink_metadata; reads) : reads.
#[export] Hint Extern 1 (reads _ (os_canonicalize _) _) => (unfold os_canonicalize; reads) : reads.
#[export] Hint Extern 1 (reads _ (os_exists _) _) => (unfold os_exists; reads) : reads.
#[export] Hint Extern 1 (reads _ (os_read_dir _) _) => (unfold os_read_dir; reads) : reads.
#[export] Hint Extern 1 (reads _ os_next_entry _) => (unfold os_next_entry; reads) : reads.
#[export] Hint Extern 1 (reads _ (os_read _ _ _) _) => (unfold os_read; reads) : reads.
#[export] Hint Extern 1 (reads _ (os_sync _) _) => (unfold os_sync; reads) : reads.

(** What the validation of a handle has established. *)
Record validated `{Windows} (self : WorkspaceResolver) (fs : Fs) (allow : bool) (path : Path)
    (vh : ValidatedPathHandle) : Prop := {
  vd_opens : opens fs path = Some (vh_handle vh);
  vd_final : vh_final_path vh = vh_handle vh;
  vd_dos : dos_path (vh_handle vh) = true;
  vd_allowed : allows_canonical self (vh_handle vh) = true;
  vd_node : ∃ n, fs !! vh_handle vh = Some n ∧ (allow || negb (nd_reparse n)) = true ∧
    (wr_scope self = ActiveWorkspaceScope → nd_directory n = false → nd_reparse n = false →
     nd_links n ≤ 1)
}.

Section validation.
Context `{Windows} `{Faults}.

Lemma reads_validate_root_identity fs self : reads fs (validate_root_identity self) (λ _, True).
Proof. unfold validate_root_identity. reads. Qed.
#[local] Hint Resolve reads_validate_root_identity : reads.

Lemma reads_open_validated fs self path allow :
  reads fs (open_validated_handle_with_share_mode self path allow)
    (validated self fs allow path).
Proof.
  unfold open_validated_handle_with_share_mode.
  eapply reads_bind; [apply reads_validate_root_identity|]. intros _ _.
  eapply reads_bind; [apply reads_map_error, reads_os_open|]. simpl. intros h Ho.
  destruct (opens_object _ _ _ Ho) as [_ Hd].
  eapply reads_bind; [apply reads_map_error, reads_os_node|]. simpl. intros n Hn.
  eapply reads_bind; [apply reads_ensure|]. simpl. intros _ Hallow.
  eapply (reads_bind _ _ _ (λ _, wr_scope self = ActiveWorkspaceScope → nd_directory n = false →
    nd_reparse n = false → nd_links n ≤ 1)).
  { case_match eqn:Hc.
    - eapply reads_bind; [apply reads_map_error, reads_os_node|]. simpl. intros n' Hn'.
      eapply reads_weaken; [apply reads_ensure|]. simpl. intros _ Hl. simplify_eq. lia.
    - apply reads_ret. intros Hs Hdir Hr. rewrite Hs, Hdir, Hr in Hc. done. }
  simpl. intros _ Hl.
  eapply reads_bind; [by apply reads_final_path|]. simpl. intros p ->.
  eapply reads_bind; [apply reads_ensure|]. simpl. intros _ Ha.
  eapply reads_bind; [apply reads_validate_root_identity|]. intros _ _.
  apply reads_ret. split; eauto.
Qed.
Lemma reads_open_any fs self path allow :
  reads fs (open_validated_handle_with_share_mode self path allow) (λ _, True).
Proof. eapply reads_any, reads_open_validated. Qed.
#[local] Hint Resolve reads_open_any : reads.
Lemma reads_open_handle fs self path :
  reads fs (open_validated_handle self path) (validated self fs false path).
Proof. apply reads_open_validated. Qed.
Lemma reads_open_entry fs self path :
  reads fs (open_entry_validated_handle self path) (validated self fs true path).
Proof. apply reads_open_validated. Qed.
Lemma reads_open_handle_any fs self path : reads fs (open_validated_handle self path) (λ _, True).
Proof. apply reads_open_any. Qed.
Lemma reads_open_entry_any fs self path :
  reads fs (open_entry_validated_handle self path) (λ _, True).
Proof. apply reads_open_any. Qed.
#[local] Hint Resolve reads_open_handle_any reads_open_entry_any : reads.

Lemma reads_regular_file_link_count fs h : reads fs (regular_file_link_count h) (λ _, True).
Proof. unfold regular_file_link_count. reads. Qed.
#[local] Hint Resolve reads_regular_file_link_count : reads.
Lemma reads_input_path fs self raw : reads fs (input_path self raw) (λ _, True).
Proof. unfold input_path. reads. Qed.
#[local] Hint Resolve reads_input_path : reads.
Lemma reads_ensure_lexical fs self c : reads fs (ensure_lexical self c) (λ _, True).
Proof. unfold ensure_lexical. reads. Qed.
#[local] Hint Resolve reads_ensure_lexical : reads.
Lemma reads_revalidate_any fs self p : reads fs (revalidate_opened_path self p) (λ _, True).
Proof. unfold revalidate_opened_path. reads. Qed.
#[local] Hint Resolve reads_revalidate_any : reads.
Lemma reads_resolve_existing fs self raw : reads fs (resolve_existing self raw) (λ _, True).
Proof. unfold resolve_existing. reads. Qed.
#[local] Hint Resolve reads_resolve_existing : reads.
Lemma reads_entry_in fs self f c : reads fs (entry_in self f c) (λ _, True).
Proof. unfold entry_in. reads. Qed.
#[local] Hint Resolve reads_entry_in : reads.
Lemma reads_resolve_existing_entry fs self raw : reads fs (resolve_existing_entry self raw) (λ _, True).
Proof. unfold resolve_existing_entry. reads. Qed.
#[local] Hint Resolve reads_resolve_existing_entry : reads.
Lemma reads_resolve_missing_leaf fs self raw : reads fs (resolve_missing_leaf self raw) (λ _, True).
Proof. unfold resolve_missing_leaf. reads. Qed.
#[local] Hint Resolve reads_resolve_missing_leaf : reads.
End validation.
#[export] Hint Resolve reads_validate_root_identity reads_open_any reads_open_handle_any
  reads_open_entry_any reads_regular_file_link_count reads_input_path reads_ensure_lexical reads_revalidate_any reads_resolve_existing reads_entry_in reads_resolve_existing_entry reads_resolve_missing_leaf : reads.

(** ** The service: what only reads *)

#[export] Hint Extern 1 (reads _ (io _) _) => (unfold io; reads) : reads.
#[export] Hint Extern 1 (reads _ (checked _) _) => (unfold checked; reads) : reads.

Lemma reads_io {W} `{HasFs W} {A} fs (m : ST W IoError A) Q : reads fs m Q → reads fs (io m) Q.
Proof. apply reads_map_error. Qed.
Lemma reads_checked {W} `{HasFs W} {A} fs (m : ST W PathAuthorityError A) Q :
  reads fs m Q → reads fs (checked m) Q.
Proof. apply reads_map_error. Qed.
Lemma reads_validate_walk_bounds {W} `{HasFs W} fs max_depth max_entries :
  reads fs (validate_walk_bounds (W := W) max_depth max_entries) (λ _, True).
Proof. unfold validate_walk_bounds. reads. Qed.
#[export] Hint Resolve reads_validate_walk_bounds : reads.

Section service.
Context `{Windows} `{Faults} `{Encodings} `{Installation}.

Lemma reads_cancelled fs self : reads fs (cancelled (@here) self) (λ _, True).
Proof. unfold cancelled, here. reads. Qed.
Lemma reads_cancelled_local {S} fs self :
  reads fs (cancelled (W := World * S) (λ A, on_world) self) (λ _, True).
Proof. unfold cancelled. reads. Qed.
#[local] Hint Resolve reads_cancelled reads_cancelled_local : reads.
Lemma reads_check_cancelled fs self : reads fs (check_cancelled self) (λ _, True).
Proof. unfold check_cancelled. reads. Qed.
#[local] Hint Resolve reads_check_cancelled : reads.
Lemma reads_display fs self path : reads fs (display self path) (λ _, True).
Proof. unfold display. reads. Qed.
#[local] Hint Resolve reads_display : reads.
Lemma reads_control_plane fs path :
  reads fs (final_path_targets_localbridge_control_plane path) (λ _, True).
Proof.
  unfold final_path_targets_localbridge_control_plane. case_match; [reads|].
  eapply (reads_bind _ _ _ (λ _, True)); [reads|]. intros ? _.
  match goal with |- reads _ (if ?b then _ else _) _ => destruct b end; [reads|].
  generalize data_variables as roots. intros roots. induction roots; reads.
Qed.
#[local] Hint Resolve reads_control_plane : reads.
Lemma reads_reject_final fs self path : reads fs (reject_broker_control_plane_final_path self path) (λ _, True).
Proof. unfold reject_broker_control_plane_final_path. reads. Qed.
#[local] Hint Resolve reads_reject_final : reads.
Lemma reads_reject_handle fs self h : reads fs (reject_broker_aliased_mutation_handle self h) (λ _, True).
Proof. unfold reject_broker_aliased_mutation_handle. reads. Qed.
#[local] Hint Resolve reads_reject_handle : reads.
Lemma reads_reject_target fs self t : reads fs (reject_broker_aliased_existing_target self t) (λ _, True).
Proof. unfold reject_broker_aliased_existing_target. reads. Qed.
#[local] Hint Resolve reads_reject_target : reads.

(** A directory the service may change. *)
Definition pinned (self : FilesystemService) (fs : Fs) (d : Path) : Prop :=
  real_dir fs d ∧ allows_canonical (svc_authority self) d = true.

(** A pinned chain ends in such a directory. *)
Lemma reads_open_each fs self directories last :
  reads fs (open_each self directories last)
    (λ found, match directories with
              | [] => found = last
              | _ => ∃ d p, found = Some d ∧ pinned self fs d ∧ list.last directories = Some p ∧
                       opens fs p = Some d
              end).
Proof.
  revert last. induction directories as [|p directories IH]; intros last; simpl; [by apply reads_ret|].
  eapply reads_bind; [apply reads_checked, reads_open_handle|]. simpl. intros h Hv.
  eapply reads_bind; [apply reads_os_is_dir|]. simpl. intros dir Hdir.
  eapply reads_bind; [apply reads_ensure|]. simpl. intros _ ->.
  eapply reads_weaken; [apply IH|]. simpl. intros found.
  destruct directories as [|q directories]; [|intros (d & p' & ? & ? & Hlast & ?); exists d, p'; auto].
  intros ->. rewrite (vd_final _ _ _ _ _ Hv) in *.
  exists (vh_handle h), p. split; [done|]. split; [|split; [done|exact (vd_opens _ _ _ _ _ Hv)]].
  split; [|exact (vd_allowed _ _ _ _ _ Hv)].
  destruct (vd_node _ _ _ _ _ Hv) as (n & Hn & Hr & _). simpl in Hr. apply negb_true_iff in Hr.
  destruct (Hdir eq_refl) as (f & n' & Hf & Hn' & Hd).
  pose proof (opens_final _ _ (mk_is_Some _ _ Hn) (vd_dos _ _ _ _ _ Hv)) as Ho.
  rewrite (follows_plain _ _ _ _ Ho Hn Hr) in Hf. simplify_eq.
  split; [exact (vd_dos _ _ _ _ _ Hv)|]. eauto.
Qed.
Lemma reads_open_each_any fs self directories last :
  reads fs (open_each self directories last) (λ _, True).
Proof. eapply reads_any, reads_open_each. Qed.
#[local] Hint Resolve reads_open_each_any : reads.

Lemma ancestors_snoc f : dos_path f = true → ∃ init, ancestors f = init ++ [f].
Proof.
  intros Hf. unfold ancestors.
  assert (Hl : length f = S (length f - 1)) by (destruct f; simpl; [done|lia]).
  rewrite Hl, seq_S, map_app, List.filter_app. eexists. f_equal. simpl.
  rewrite <- Hl, firstn_all. unfold path_is_absolute.
  destruct f as [|[] [|[] ?]]; try done; simpl in *; by repeat case_match.
Qed.
Lemma ancestors_last f start :
  dos_path f = true → (start < length (ancestors f))%nat → list.last (drop start (ancestors f)) = Some f.
Proof.
  intros [init ->]%ancestors_snoc. rewrite length_app. simpl. intros Hlen.
  rewrite drop_app_le by lia. apply last_snoc.
Qed.
Lemma reads_open_directory_chain fs self directory :
  reads fs (open_directory_chain self directory)
    (λ d, pinned self fs d ∧ opens fs directory = Some d).
Proof.
  unfold open_directory_chain.
  eapply (reads_bind _ _ _ (λ f, opens fs directory = Some f ∧ opens fs f = Some f ∧ dos_path f = true)).
  { apply reads_checked. eapply reads_bind; [apply reads_open_handle|]. simpl. intros vh Hv.
    apply reads_ret. rewrite (vd_final _ _ _ _ _ Hv). pose proof (vd_opens _ _ _ _ _ Hv) as Ho.
    split; [exact Ho|]. split; [by eapply opens_twice|apply Hv]. }
  intros f (Hdir & Hf & Hdos).
  eapply (reads_bind _ _ _ (λ _, True)); [reads|]. intros start _.
  eapply reads_bind; [apply reads_open_each|]. intros found Hfound.
  eapply reads_bind; [apply reads_unwrap|]. simpl. intros d ->.
  eapply reads_bind; [apply reads_ensure|]. intros _ _. apply reads_ret.
  destruct (decide (start < length (ancestors f))%nat) as [Hlt|Hge].
  - pose proof (ancestors_last f start Hdos Hlt) as Hlast.
    destruct (drop start (ancestors f)) as [|x l]; [done|].
    destruct Hfound as (d' & p & [= <-] & Hpin & Hp & Ho). split; [done|]. rewrite Hlast in Hp.
    injection Hp as <-. congruence.
  - rewrite drop_ge in Hfound by lia. done.
Qed.
Lemma reads_chain_any fs self directory : reads fs (open_directory_chain self directory) (λ _, True).
Proof. eapply reads_any, reads_open_directory_chain. Qed.
#[local] Hint Resolve reads_chain_any : reads.
Lemma reads_open_mutation_parent fs self target :
  reads fs (open_mutation_parent self target)
    (λ d, pinned self fs d ∧ ∃ parent, path_parent target = Some parent ∧ opens fs parent = Some d).
Proof.
  unfold open_mutation_parent. eapply reads_bind; [apply reads_unwrap|]. simpl. intros parent Hparent.
  eapply reads_bind; [apply reads_open_directory_chain|]. intros d [Hd Ho].
  eapply reads_bind; [apply reads_reject_final|]. intros _ _. apply reads_ret. eauto.
Qed.
Lemma reads_open_mutation_parent_any fs self t : reads fs (open_mutation_parent self t) (λ _, True).
Proof. eapply reads_any, reads_open_mutation_parent. Qed.
#[local] Hint Resolve reads_open_mutation_parent_any : reads.
Lemma reads_open_parent_chain fs self t : reads fs (open_parent_chain self t) (λ _, True).
Proof. unfold open_parent_chain. reads. Qed.
#[local] Hint Resolve reads_open_parent_chain : reads.
Lemma reads_pin_workspace_path fs self p b : reads fs (pin_workspace_path self p b) (λ _, True).
Proof. unfold pin_workspace_path. destruct b; reads. Qed.
#[local] Hint Resolve reads_pin_workspace_path : reads.
End service.
#[export] Hint Resolve reads_cancelled reads_cancelled_local reads_control_plane reads_open_each_any
  reads_chain_any reads_check_cancelled reads_display reads_reject_final reads_reject_handle reads_reject_target reads_open_mutation_parent_any reads_open_parent_chain reads_pin_workspace_path : reads.

(** ** Listing, reading, searching and hashing change nothing *)

Section reading.
Context `{Windows} `{Faults} `{Encodings} `{Installation} `{Unicode}.

Lemma reads_read_entries fs self remaining names children : reads fs (read_entries self remaining names children) (λ _, True).
Proof. revert names children. induction remaining; simpl; reads. Qed.
#[local] Hint Resolve reads_read_entries : reads.
Lemma reads_read_dir_bounded fs self p max : reads fs (read_dir_bounded self p max) (λ _, True).
Proof. unfold read_dir_bounded. reads. Qed.
#[local] Hint Resolve reads_read_dir_bounded : reads.
Lemma reads_has_entry fs self p max : reads fs (directory_has_entry_with_budget self p max) (λ _, True).
Proof. unfold directory_has_entry_with_budget. reads. Qed.
#[local] Hint Resolve reads_has_entry : reads.
Lemma reads_walk_world {A} fs (m : M FilesystemError A) Q : reads fs m Q → reads fs (walk_world m) Q.
Proof. apply reads_on_world. Qed.
Lemma reads_walk_scan {A} fs (m : ST (World * N) FilesystemError A) Q :
  reads fs m Q → reads fs (walk_scan m) Q.
Proof.
  intros Hm [w s] Hw. specialize (Hm (w, wk_scanned s) Hw). cbv [walk_scan].
  by destruct (m _) as [[w' s'] []].
Qed.
Lemma reads_walk_truncated fs : reads fs walk_truncated (λ _, True).
Proof. by intros [w s] Hw. Qed.
Lemma reads_walk_push fs e : reads fs (walk_push e) (λ _, True).
Proof. by intros [w s] Hw. Qed.
#[local] Hint Resolve reads_walk_truncated reads_walk_push : reads.
#[local] Hint Extern 1 (reads _ (walk_world _) _) => (apply reads_walk_world; reads) : reads.
#[local] Hint Extern 1 (reads _ (walk_scan _) _) => (apply reads_walk_scan; reads) : reads.
Lemma reads_walk_directory fs self max r levels p : reads fs (walk_windows_directory self max r levels p) (λ _, True).
Proof. revert p. induction levels; simpl; reads. Qed.
#[local] Hint Resolve reads_walk_directory : reads.
Lemma reads_walk_with_root_pin fs self p d e a b : reads fs (walk_with_root_pin self p d e a b) (λ _, True).
Proof. unfold walk_with_root_pin. reads. Qed.
#[local] Hint Resolve reads_walk_with_root_pin : reads.
Lemma reads_walk fs self p d e : reads fs (walk self p d e) (λ _, True).
Proof. unfold walk. reads. Qed.
#[local] Hint Resolve reads_walk : reads.
Lemma reads_list_directory fs self p r d e : reads fs (list_directory self p r d e) (λ _, True).
Proof. unfold list_directory. reads. Qed.
#[local] Hint Resolve reads_list_directory : reads.
Lemma reads_stat fs self p c d e : reads fs (stat self p c d e) (λ _, True).
Proof. unfold stat. reads. Qed.
#[local] Hint Resolve reads_stat : reads.
Lemma reads_read fs self p o m : reads fs (read self p o m) (λ _, True).
Proof. unfold read. reads. Qed.
#[local] Hint Resolve reads_read : reads.
Lemma reads_read_open_file fs f m : reads fs (read_open_file_bytes_with_limit f m) (λ _, True).
Proof. unfold read_open_file_bytes_with_limit. reads. Qed.
#[local] Hint Resolve reads_read_open_file : reads.
Lemma reads_read_bytes_with_limit fs self p m : reads fs (read_bytes_with_limit self p m) (λ _, True).
Proof. unfold read_bytes_with_limit. reads. Qed.
#[local] Hint Resolve reads_read_bytes_with_limit : reads.
Lemma reads_read_bytes_bounded fs self p m : reads fs (read_bytes_bounded self p m) (λ _, True).
Proof. unfold read_bytes_bounded. reads. Qed.
#[local] Hint Resolve reads_read_bytes_bounded : reads.
Lemma reads_search fs self p o : reads fs (search self p o) (λ _, True).
Proof. unfold search. reads. Qed.
#[local] Hint Resolve reads_search : reads.
Lemma reads_search_candidates fs self o c r : reads fs (search_candidates self o c r) (λ _, True).
Proof. revert r. induction c; simpl; reads. Qed.
#[local] Hint Resolve reads_search_candidates : reads.
Lemma reads_search_content fs self p o : reads fs (search_content self p o) (λ _, True).
Proof. unfold search_content. reads. Qed.
#[local] Hint Resolve reads_search_content : reads.
Lemma reads_file_rounds {E} fs file : reads fs (file_rounds (E := E) file) (λ _, True).
Proof. by intros w Hw. Qed.
#[local] Hint Resolve reads_file_rounds : reads.
Lemma reads_hash_loop fs self fuel f h : reads fs (hash_loop self fuel f h) (λ _, True).
Proof. revert h. induction fuel; simpl; reads. Qed.
#[local] Hint Resolve reads_hash_loop : reads.
Lemma reads_sha256_open_file fs self f : reads fs (sha256_open_file self f) (λ _, True).
Proof. unfold sha256_open_file. reads. Qed.
#[local] Hint Resolve reads_sha256_open_file : reads.
Lemma reads_sha256_file fs self p : reads fs (sha256_file self p) (λ _, True).
Proof. unfold sha256_file. reads. Qed.
#[local] Hint Resolve reads_sha256_file : reads.
Lemma reads_check_existing fs t o : reads fs (check_existing t o) (λ _, True).
Proof. unfold check_existing. reads. Qed.
#[local] Hint Resolve reads_check_existing : reads.
Lemma reads_validate_new_file_path fs self p : reads fs (validate_new_file_path self p) (λ _, True).
Proof. unfold validate_new_file_path. reads. Qed.
#[local] Hint Resolve reads_validate_new_file_path : reads.
Lemma reads_read_regular fs h : reads fs (read_regular h) (λ _, True).
Proof. unfold read_regular. reads. Qed.
#[local] Hint Resolve reads_read_regular : reads.
Lemma reads_ensure_sha256 fs x c : reads fs (ensure_sha256 x c) (λ _, True).
Proof. unfold ensure_sha256. reads. Qed.
#[local] Hint Resolve reads_ensure_sha256 : reads.
Lemma reads_hash fs self p : reads fs (hash self p) (λ _, True).
Proof. unfold hash. reads. Qed.
#[local] Hint Resolve reads_hash : reads.
Lemma reads_manifest_loop fs self root d e fuel stack m : reads fs (manifest_loop self root d e fuel stack m) (λ _, True).
Proof. revert stack m. induction fuel; intros [|[? ?] ?] ?; simpl; reads. Qed.
#[local] Hint Resolve reads_manifest_loop : reads.
Lemma reads_tree_manifest fs self p d e : reads fs (tree_manifest self p d e) (λ _, True).
Proof. unfold tree_manifest. reads. Qed.
#[local] Hint Resolve reads_tree_manifest : reads.
End reading.
#[export] Hint Resolve reads_walk_truncated reads_walk_push reads_file_rounds reads_read_entries reads_read_dir_bounded reads_has_entry reads_walk_directory reads_walk_with_root_pin reads_walk reads_list_directory reads_stat reads_read reads_read_open_file reads_read_bytes_with_limit reads_read_bytes_bounded reads_search reads_search_candidates reads_search_content reads_hash_loop reads_sha256_open_file reads_sha256_file reads_check_existing reads_validate_new_file_path reads_read_regular reads_ensure_sha256 reads_hash reads_manifest_loop reads_tree_manifest : reads.

(** The names of temporary files. *)
Definition temporary_name (leaf name : ustr) : Prop :=
  ∃ suffix, name = lit "." ++ leaf ++ lit ".localbridge-" ++ suffix.
Lemma reads_sibling_temp `{Windows} `{Faults} fs d target :
  reads fs (sibling_temp_path d target)
    (λ temp, ∃ name, (∀ leaf, path_file_name target = Some leaf → temporary_name leaf name) ∧
                     temp = join_name d name).
Proof.
  intros w Hw. unfold sibling_temp_path.
  destruct (path_file_name target) as [[|c name]|]; [done| |done]. split; [done|].
  eexists. split; [|done]. intros leaf [= <-]. eexists. unfold lit at 1. simpl. done.
Qed.

(** What is read from a handle on a regular file. *)
Lemma reads_read_regular_content `{Windows} `{Faults} fs handle :
  reads fs (read_regular handle) (λ content, ∃ n, fs !! vh_handle handle = Some n ∧
    node_is_file n = true ∧ nd_reparse n = false ∧ content = nd_content n).
Proof.
  unfold read_regular. eapply reads_bind; [apply reads_io, reads_os_node|]. simpl. intros n Hn.
  eapply reads_bind; [apply reads_ensure|]. simpl. intros _ Hf.
  apply andb_true_iff in Hf as [Hf Hr]. apply negb_true_iff in Hr.
  eapply reads_bind; [apply reads_io, reads_query|]. simpl. intros content Hc.
  rewrite Hn in Hc. injection Hc as <-. apply reads_ret. eauto.
Qed.
Lemma reads_matches `{Windows} `{Faults} `{Encodings} fs expected content :
  reads fs (ensure_sha256 expected content)
    (λ _, eq_ignore_ascii_case (sha256_hex content) expected = true).
Proof. apply reads_ensure. Qed.

(** ** What a path of a request names *)

Section naming.
Context `{Windows} `{Faults} `{Encodings} `{Installation}.

(** The path the authority looks up, and the object it finds. *)
Definition candidate_path (self : WorkspaceResolver) (raw : ustr) : Path :=
  match wr_scope self with
  | ActiveWorkspaceScope =>
      if is_absolute raw then components raw
      else join_relative (execution_root self) (components raw)
  | BrokerAdministrator => components raw
  end.
Definition names_object (self : FilesystemService) (fs : Fs) (raw : ustr) (h : Path) : Prop :=
  follows fs (candidate_path (svc_authority self) raw) = Some h.

Lemma names_object_unique self fs raw h h' :
  names_object self fs raw h → names_object self fs raw h' → h = h'.
Proof. unfold names_object. congruence. Qed.

Lemma reads_input_candidate fs self raw :
  reads fs (input_path self raw) (λ p, p = candidate_path self raw).
Proof.
  unfold input_path, candidate_path. eapply reads_bind; [apply reads_validate_root_identity|]. intros _ _.
  destruct (wr_scope self); (eapply reads_bind; [apply reads_ensure|]); intros _ _; by apply reads_ret.
Qed.
Lemma reads_resolve_names fs self raw :
  reads fs (resolve_existing (svc_authority self) raw)
    (λ p, names_object self fs raw p ∧ dos_path p = true ∧ is_Some (fs !! p)).
Proof.
  unfold resolve_existing, names_object.
  eapply reads_bind; [apply reads_input_candidate|]. intros candidate ->.
  eapply reads_bind; [apply reads_ensure_lexical|]. intros _ _.
  eapply reads_bind; [apply reads_map_error, reads_query|]. simpl. intros canonical Hc.
  destruct (follows fs (candidate_path (svc_authority self) raw)) as [f|] eqn:Hf; [|done]. injection Hc as <-.
  destruct (follows_object _ _ _ Hf) as (n & Hn & _ & Hd).
  eapply reads_bind; [apply reads_unwrap|]. simpl. intros p Hp.
  assert (p = f) as -> by (by destruct f as [|[[]| | | |] [|[] ?]]; simplify_eq/=).
  eapply reads_bind; [apply reads_validate_root_identity|]. intros _ _.
  eapply reads_bind; [apply reads_ensure|]. intros _ _. apply reads_ret. eauto.
Qed.
(** The handle of a resolved path is the object the path names. *)
Lemma validated_resolved self fs raw p allow vh :
  names_object self fs raw p → dos_path p = true → is_Some (fs !! p) →
  validated (svc_authority self) fs allow p vh → names_object self fs raw (vh_handle vh).
Proof.
  intros Hn Hd Hs Hv. pose proof (vd_opens _ _ _ _ _ Hv) as Ho.
  rewrite (opens_final fs p Hs Hd) in Ho. by injection Ho as <-.
Qed.

(** The entry a text names: a name in the directory that holds it. *)
Definition names_entry (self : FilesystemService) (fs : Fs) (raw : ustr) (d : Path) (leaf : ustr) : Prop :=
  let candidate := candidate_path (svc_authority self) raw in
  path_file_name candidate = Some leaf ∧
  ∃ parent, path_parent candidate = Some parent ∧ opens fs parent = Some d.

Lemma reads_revalidate fs self p :
  reads fs (revalidate_opened_path self p) (λ f, opens fs p = Some f).
Proof.
  unfold revalidate_opened_path. eapply reads_bind; [apply reads_open_handle|]. intros h Hv.
  apply reads_ret. rewrite (vd_final _ _ _ _ _ Hv). apply Hv.
Qed.
Lemma reads_entry_in_names fs self raw d parent :
  path_parent (candidate_path (svc_authority self) raw) = Some parent → opens fs parent = Some d →
  reads fs (entry_in (svc_authority self) d (candidate_path (svc_authority self) raw))
    (λ t, ∃ leaf, names_entry self fs raw d leaf ∧ t = join_name d leaf).
Proof.
  intros Hp Ho. unfold entry_in. eapply reads_bind; [apply reads_unwrap|]. intros name Hname.
  eapply reads_bind; [apply reads_ensure|]. intros _ _. apply reads_ret.
  exists name. split; [|done]. split; [done|]. eauto.
Qed.
Lemma reads_resolve_entry_names fs self raw :
  reads fs (resolve_existing_entry (svc_authority self) raw)
    (λ t, ∃ d leaf, names_entry self fs raw d leaf ∧ t = join_name d leaf).
Proof.
  unfold resolve_existing_entry. eapply reads_bind; [apply reads_input_candidate|]. intros candidate ->.
  do 2 (eapply (reads_bind _ _ _ (λ _, True)); [reads|intros ? _]).
  eapply reads_bind; [apply reads_unwrap|]. intros parent Hparent.
  eapply reads_bind; [apply reads_revalidate|]. intros d Ho.
  do 2 (eapply (reads_bind _ _ _ (λ _, True)); [reads|intros ? _]).
  eapply reads_weaken; [exact (reads_entry_in_names _ _ _ _ _ Hparent Ho)|]. simpl. eauto.
Qed.
Lemma reads_resolve_leaf_names fs self raw :
  reads fs (resolve_missing_leaf (svc_authority self) raw)
    (λ t, ∃ d leaf, names_entry self fs raw d leaf ∧ t = join_name d leaf).
Proof.
  unfold resolve_missing_leaf. eapply reads_bind; [apply reads_input_candidate|]. intros candidate ->.
  do 2 (eapply (reads_bind _ _ _ (λ _, True)); [reads|intros ? _]).
  case_match; [apply reads_resolve_entry_names|].
  eapply reads_bind; [apply reads_unwrap|]. intros parent Hparent.
  eapply reads_bind; [apply reads_revalidate|]. intros d Ho.
  do 3 (eapply (reads_bind _ _ _ (λ _, True)); [reads|intros ? _]).
  eapply reads_weaken; [exact (reads_entry_in_names _ _ _ _ _ Hparent Ho)|]. simpl. eauto.
Qed.
(** The directory of a mutation is the one that holds the named entry. *)
Lemma reads_parent_of_entry fs self raw d leaf :
  names_entry self fs raw d leaf →
  reads fs (open_mutation_parent self (join_name d leaf)) (λ d', d' = d ∧ pinned self fs d).
Proof.
  intros (_ & parent & _ & Ho).
  eapply reads_weaken; [apply reads_open_mutation_parent|]. simpl.
  intros d' (Hpin & q & Hq & Ho'). rewrite path_parent_join in Hq. injection Hq as <-.
  rewrite (opens_twice _ _ _ Ho) in Ho'. by injection Ho' as <-.
Qed.

(** A named regular file. *)
Definition named_file (self : FilesystemService) (fs : Fs) (raw : ustr) (h : Path) (n : Node) : Prop :=
  names_object self fs raw h ∧ fs !! h = Some n ∧ node_is_file n = true.
Lemma named_file_unique self fs raw h n h' n' :
  named_file self fs raw h n → named_file self fs raw h' n' → h = h' ∧ n = n'.
Proof.
  intros (Hh & Hn & _) (Hh' & Hn' & _). pose proof (names_object_unique _ _ _ _ _ Hh Hh'). subst.
  split; [done|]. congruence.
Qed.

Lemma reads_open_limited fs file limit n :
  limit < u64_max → fs !! file = Some n →
  reads fs (read_open_file_bytes_with_limit file (Some limit)) (λ content, content = nd_content n).
Proof.
  intros Hlimit Hn. unfold read_open_file_bytes_with_limit.
  eapply reads_bind; [apply reads_io, reads_query|]. simpl. intros content Hc.
  rewrite Hn in Hc. injection Hc as <-.
  eapply reads_bind; [apply reads_ensure|]. simpl. intros _ Hl. apply reads_ret.
  apply take_ge. rewrite length_take in Hl. rewrite saturating_add_exact in * by lia. lia.
Qed.
Lemma reads_named_bytes fs self raw limit :
  limit < u64_max →
  reads fs (read_bytes_bounded self raw limit)
    (λ content, ∃ h n, named_file self fs raw h n ∧ content = nd_content n).
Proof.
  intros Hlimit. unfold read_bytes_bounded, read_bytes_with_limit.
  eapply reads_bind; [apply reads_checked, reads_resolve_names|]. simpl. intros p (Hp & Hd & Hs).
  eapply reads_bind; [apply reads_open_parent_chain|]. intros _ _.
  eapply reads_bind; [apply reads_checked, reads_open_handle|]. simpl. intros vh Hv.
  eapply reads_bind; [apply reads_io, reads_os_node|]. simpl. intros n Hn.
  eapply reads_bind; [apply reads_ensure|]. simpl. intros _ Hf.
  eapply reads_bind; [apply reads_ensure|]. simpl. intros _ _.
  eapply reads_weaken; [by apply reads_open_limited|]. simpl. intros content ->.
  exists (vh_handle vh), n. split; [|done]. split; [by eapply validated_resolved|].
  apply andb_true_iff in Hf as [Hf _]. done.
Qed.
End naming.
