(* ===== verification/FilesystemConfinement.v ===== *)
(** * FilesystemConfinement: the file service stays in the workspace

    A service with the authority of a workspace changes nothing outside the
    canonical root, for every file system (links included), every path of a
    request, and every pattern of failures and cancellations. *)

From S2P Require Import Prelude Text WindowsPath HostFs HostLogic PathAuthority FilesystemService FilesystemFacts.
#[local] Open Scope N_scope.

(** ** Writing files in a pinned directory *)

Section writing.
Context `{Windows} `{Faults} `{Encodings} `{Installation}.
Variables (root d : Path) (fs0 : Fs).
Abbreviation within := (within root d fs0).

Lemma within_ignore {A F} fs (m : M IoError A) (I : Fs → Prop) :
  runs fs m (λ _, I) I → runs (E := F) fs (ignore m) (λ _, I) I.
Proof. intros Hm. by eapply runs_ignore. Qed.

Lemma within_write_new_synced fs name content :
  within fs →
  runs fs (write_new_synced (join_name d name) content) (λ _, within) within.
Proof.
  intros Hw. unfold write_new_synced.
  eapply runs_bind; [apply runs_map_error, within_create_node; [done|simpl; lia]|].
  simpl. intros f fs1 (-> & Hw1 & Ho & n & Hfs).
  assert (Hroot : path_starts_with root (join_name d name) = true)
    by apply path_starts_with_join, Hw.
  assert (Hu : unaliased fs1 (join_name d name)).
  { rewrite Hfs. exists (new_file [] (clock_ms n)). by rewrite lookup_insert_eq. }
  eapply (runs_bind _ _ _ (λ _, within)).
  - eapply runs_weaken; [eapply runs_try, runs_bind; [by apply within_write_at|]|..].
    + simpl. intros _ fs2 Hw2.
      eapply (runs_reads _ _ (λ _, True)); [unfold os_sync; reads|intros ? _; exact Hw2|exact Hw2].
    + simpl. by intros [] fs2 [].
    + done.
  - simpl. intros written fs2 Hw2. destruct (is_ok written); [by apply runs_ret|].
    eapply runs_bind; [apply within_ignore, within_remove_node, Hw2|]. simpl. intros _ fs3 Hw3.
    by apply runs_throw.
Qed.

(** A validated handle is in the root. *)
Definition rooted (authority : WorkspaceResolver) : Prop :=
  wr_scope authority = ActiveWorkspaceScope ∧ wr_canonical_root authority = Some root.
Lemma rooted_allows authority p :
  rooted authority → dos_path p = true → allows_canonical authority p = true →
  path_starts_with root p = true.
Proof.
  intros [Hs Hr] Hd. unfold allows_canonical, canonical_root. rewrite Hs, Hr.
  by destruct p as [|[[]| | | |] [|[] ?]]; simplify_eq/=.
Qed.
Lemma rooted_validated authority fs allow p vh :
  rooted authority → validated authority fs allow p vh → path_starts_with root (vh_handle vh) = true.
Proof. intros Hr Hv. eapply rooted_allows; [done|apply Hv..]. Qed.
Lemma rooted_pinned self fs p :
  rooted (svc_authority self) → pinned self fs p → path_starts_with root p = true.
Proof. intros Hr [[] ?]. by eapply rooted_allows. Qed.

Lemma within_commit self fs temp leaf overwrite :
  rooted (svc_authority self) → within fs →
  runs fs (commit_temp self temp d leaf overwrite)
    (λ target fs', target = join_name d leaf ∧ within fs') within.
Proof.
  intros Hr Hw. unfold commit_temp.
  eapply runs_read; [apply reads_checked, reads_open_handle|done|]. simpl. intros h Hv.
  eapply runs_read; [apply reads_reject_target|done|]. intros _ _.
  apply runs_map_error. eapply runs_weaken; [apply within_rename; [exact Hw|]|done|by intros ? ->].
  by eapply rooted_validated.
Qed.

Lemma within_cleaning {A} fs name (m : M FilesystemError A) Q :
  runs fs m (λ a fs', Q a ∧ within fs') within →
  runs fs (cleaning (join_name d name) m) (λ a fs', Q a ∧ within fs') within.
Proof.
  intros Hm. unfold cleaning. eapply runs_bind; [exact (runs_try _ _ _ _ _ Hm)|].
  intros [a|e] fs' Ha; simpl.
  - eapply runs_bind; [by apply (runs_ret _ _ (λ _ fs, Q a ∧ within fs))|]. simpl. intros _ fs2 Hi.
    eapply runs_reads; [apply reads_lift|intros ? [= <-]; exact Hi|apply Hi].
  - eapply runs_bind; [apply within_ignore, within_remove_node, Ha|]. simpl. intros _ fs2 Hi.
    by eapply runs_reads; [apply reads_lift|..].
Qed.

Lemma within_copy_loop self fuel fs input output offset total :
  within fs → path_starts_with root output = true → unaliased fs output →
  runs fs (copy_loop self fuel input output offset total) (λ _, within) within.
Proof.
  intros Hw Hroot Hu. revert fs offset total Hw Hu.
  induction fuel as [|fuel IH]; intros fs offset total Hw Hu; simpl; [by apply runs_throw|].
  eapply runs_read; [apply reads_cancelled|done|]. intros c _.
  eapply runs_read; [apply reads_ensure|done|]. intros _ _.
  eapply (runs_read _ _ _ (λ _, True)); [unfold os_read; reads|done|]. intros chunk _.
  case_bool_decide; [by apply runs_ret|].
  eapply runs_bind.
  - apply runs_map_error. eapply runs_weaken; [by apply within_write_at|simpl; intros ? ? H'; exact H'|].
    by intros ? [].
  - simpl. intros _ fs' [Hw' Hu']. by apply IH.
Qed.
End writing.

Section confinement.
Context `{Windows} `{Faults} `{Encodings} `{Installation} `{Unicode}.
Variables (self : FilesystemService) (root : Path).
Hypothesis Hroot : rooted root (svc_authority self).

(** Stays in the root. *)
Definition stays {W} `{HasFs W} {E A : Type} (fs : Fs) (m : ST W E A) : Prop :=
  runs fs m (λ _ fs', confined root fs fs') (confined root fs).

Lemma stays_reads {W} `{HasFs W} {E A} fs (m : ST W E A) : reads fs m (λ _, True) → stays fs m.
Proof. intros Hm. by eapply runs_reads. Qed.
Lemma stays_bind {W} `{HasFs W} {E A B} fs (m : ST W E A) (f : A → ST W E B) :
  stays fs m → (∀ a fs', stays fs' (f a)) → stays fs (m ≫= f).
Proof.
  intros Hm Hf. eapply runs_bind; [exact Hm|]. simpl. intros a fs' Hc.
  eapply runs_weaken; [apply Hf|..]; simpl; intros; by etrans.
Qed.
Lemma stays_read {W} `{HasFs W} {E A B} fs (m : ST W E A) (f : A → ST W E B) (P : A → Prop) :
  reads fs m P → (∀ a, P a → stays fs (f a)) → stays fs (m ≫= f).
Proof. intros Hm Hf. by eapply runs_read. Qed.
Lemma stays_for_each {W} `{HasFs W} {E A} fs (f : A → ST W E unit) (l : list A) :
  (∀ x fs, x ∈ l → stays fs (f x)) → stays fs (for_each f l).
Proof.
  intros Hf. apply runs_for_each; [done|]. intros x fs' Hx Hc.
  eapply runs_weaken; [by apply Hf|..]; simpl; intros; by etrans.
Qed.
Lemma stays_within {E A} fs d (m : M E A) Q :
  runs fs m (λ a fs', Q a ∧ within root d fs fs') (within root d fs) → stays fs m.
Proof. intros Hm. eapply runs_weaken; [exact Hm|..]; simpl; [by intros ? ? (_ & ? & _)|by intros ? []]. Qed.
Lemma stays_within' {E A} fs d (m : M E A) :
  runs fs m (λ _, within root d fs) (within root d fs) → stays fs m.
Proof. intros Hm. eapply runs_weaken; [exact Hm|..]; simpl; [by intros ? ? []|by intros ? []]. Qed.
Lemma stays_try {E F A} fs (m : M E A) : stays fs m → stays fs (try (F := F) m).
Proof.
  intros Hm. eapply runs_weaken; [exact (runs_try _ _ _ _ _ Hm)| |done]. by intros [].
Qed.
Lemma stays_ignore {E F A} fs (m : M E A) : stays fs m → stays fs (ignore (F := F) m).
Proof. intros Hm. apply stays_bind; [by apply stays_try|]. intros. apply stays_reads. reads. Qed.
Lemma stays_map_error {W} `{HasFs W} {E F A} fs (f : E → F) (m : ST W E A) :
  stays fs m → stays fs (map_error f m).
Proof. apply runs_map_error. Qed.

Lemma pinned_within fs d : pinned self fs d → within root d fs fs.
Proof. intros Hp. split; [done|]. split; [by eapply rooted_pinned|]. apply Hp. Qed.

Lemma stays_os_delete fs h : path_starts_with root h = true → stays fs (os_delete h).
Proof.
  intros Hh. eapply runs_weaken; [apply runs_delete| |by intros ? ->].
  simpl. intros _ fs' (_ & _ & ->). by apply confined_delete.
Qed.

(** A tactic for the steps that only read. *)
Ltac read_step := eapply (stays_read _ _ _ (λ _, True)); [solve [reads] | intros ? _].
Ltac read_rest := intros; apply stays_reads; reads.

Lemma stays_write fs path content overwrite : stays fs (write self path content overwrite).
Proof.
  unfold write. do 3 read_step.
  eapply stays_read; [apply reads_open_mutation_parent|]. intros d [Hd _].
  eapply stays_read; [apply reads_unwrap|]. intros leaf _.
  eapply stays_read; [apply reads_sibling_temp|]. intros temp (name & _ & ->).
  apply stays_bind; [|read_rest].
  eapply stays_within, within_cleaning with (Q := λ target, target = join_name d leaf).
  eapply runs_bind; [apply within_write_new_synced, pinned_within, Hd|]. simpl. intros _ fs' Hw.
  by apply within_commit.
Qed.

Lemma stays_create_file_for_edit fs path content : stays fs (create_file_for_edit self path content).
Proof.
  unfold create_file_for_edit. read_step.
  eapply stays_read; [apply reads_open_mutation_parent|]. intros d [Hd _]. read_step.
  eapply stays_within' with (d := d).
  eapply runs_bind; [apply runs_map_error, within_write_new_synced, pinned_within, Hd|].
  simpl. intros _ fs' Hw.
  eapply runs_read; [eapply reads_try, reads_revalidate_any|done|]. intros [|e] _; [by apply runs_ret|].
  eapply runs_bind; [apply within_ignore, within_remove_node, Hw|]. simpl. intros. by apply runs_throw.
Qed.

Lemma stays_create_directory fs path : stays fs (create_directory self path).
Proof.
  unfold create_directory. do 3 read_step.
  eapply stays_read; [apply reads_open_mutation_parent|]. intros d [Hd _]. read_step.
  eapply stays_within' with (d := d).
  eapply runs_bind; [apply runs_map_error, within_create_node; [by apply pinned_within|simpl; lia]|].
  simpl. intros f fs' (-> & Hw & _ & _).
  eapply runs_read; [eapply reads_try, reads_revalidate_any|done|]. intros [p|e] _; simpl.
  - by eapply (runs_reads _ _ (λ _, True)); [reads|..].
  - eapply runs_bind; [apply within_ignore, within_remove_node, Hw|]. simpl. intros. by apply runs_throw.
Qed.

Lemma validated_unaliased fs allow p vh n :
  validated (svc_authority self) fs allow p vh → fs !! vh_handle vh = Some n →
  node_is_file n = true → nd_reparse n = false → unaliased fs (vh_handle vh).
Proof.
  intros Hv Hn Hf Hr. exists n. split; [done|].
  destruct (vd_node _ _ _ _ _ Hv) as (n' & Hn' & _ & Hl). simplify_eq. apply Hl; [apply Hroot| |done].
  by apply andb_true_iff in Hf as [Hf%negb_true_iff _].
Qed.

(** Writing in place needs no directory: [within] at one that exists anyway. *)
Definition touching (h : Path) (fs0 fs : Fs) : Prop := confined root fs0 fs ∧ unaliased fs h.
Lemma touching_write_at fs0 fs h offset data :
  path_starts_with root h = true → touching h fs0 fs →
  runs fs (os_write_at h offset data) (λ _, touching h fs0) (touching h fs0).
Proof.
  intros Hh [Hc Hu]. eapply runs_weaken; [apply runs_write_at|..]; simpl.
  - intros _ fs' Ho. destruct (confined_overwritten _ _ _ _ _ Hh Hu Ho). split; [by etrans|done].
  - intros fs' [k Ho]. destruct (confined_overwritten _ _ _ _ _ Hh Hu Ho). split; [by etrans|done].
Qed.
Lemma touching_set_len fs0 fs h len :
  path_starts_with root h = true → touching h fs0 fs →
  runs fs (os_set_len h len) (λ _, touching h fs0) (touching h fs0).
Proof.
  intros Hh [Hc Hu]. eapply runs_weaken; [apply runs_set_len|..]; simpl.
  - intros _ fs' Ho. destruct (confined_overwritten _ _ _ _ _ Hh Hu Ho). split; [by etrans|done].
  - by intros fs' ->.
Qed.
Lemma stays_replace_contents fs h original updated :
  path_starts_with root h = true → unaliased fs h →
  stays fs (replace_open_file_contents h original updated).
Proof.
  intros Hh Hu. assert (Hsync : ∀ fs', touching h fs fs' →
    runs fs' (os_sync h) (λ _, touching h fs) (touching h fs)).
  { intros fs' Ht. by eapply (runs_reads _ _ (λ _, True)); [unfold os_sync; reads|..]. }
  eapply (runs_weaken _ _ (λ _, touching h fs) _ (touching h fs)); [|by intros ? ? []|by intros ? []].
  unfold replace_open_file_contents.
  eapply (runs_bind _ _ _ (λ _, touching h fs)).
  - eapply runs_weaken; [eapply runs_try with (Q := λ _, touching h fs) (R := touching h fs)|..].
    + unfold put_contents. eapply runs_bind; [by apply touching_write_at|]. simpl. intros _ fs1 H1'.
      eapply runs_bind; [by apply touching_set_len|]. simpl. auto.
    + by intros [].
    + intros ? HF. exact HF.
  - intros r fs1 Ht1. destruct (is_ok r); [by apply runs_ret|].
    eapply runs_bind; [by apply within_ignore, touching_write_at|]. simpl. intros _ fs2 Ht2.
    eapply runs_bind; [by apply within_ignore, touching_set_len|]. simpl. intros _ fs3 Ht3.
    eapply runs_bind; [by apply within_ignore, Hsync|]. simpl. intros. by apply runs_throw.
Qed.

Lemma stays_replace_file fs path expected content :
  stays fs (replace_file_if_sha256 self path expected content).
Proof.
  unfold replace_file_if_sha256. do 3 read_step.
  eapply stays_read; [apply reads_map_error, reads_open_handle|]. simpl. intros h Hv.
  eapply stays_read; [apply reads_read_regular_content|]. intros original (n & Hn & Hf & Hr & _). read_step.
  apply stays_replace_contents; [by eapply rooted_validated|by eapply validated_unaliased].
Qed.
Lemma stays_delete_file fs path expected : stays fs (delete_file_if_sha256 self path expected).
Proof.
  unfold delete_file_if_sha256. do 3 read_step.
  eapply stays_read; [apply reads_checked, reads_open_handle|]. simpl. intros h Hv. do 2 read_step.
  apply stays_map_error, stays_os_delete. by eapply rooted_validated.
Qed.
Lemma stays_rename fs d h name overwrite :
  pinned self fs d → path_starts_with root h = true →
  runs fs (os_rename h (join_name d name) overwrite) (λ _ fs', confined root fs fs') (λ fs', fs' = fs).
Proof.
  intros Hd Hh. eapply runs_weaken; [apply within_rename; [by apply pinned_within|exact Hh]| |done].
  by intros target fs' (_ & ? & _).
Qed.
Lemma stays_move_file fs source destination expected :
  stays fs (move_file_if_sha256 self source destination expected).
Proof.
  unfold move_file_if_sha256. do 6 read_step.
  eapply stays_read; [apply reads_open_mutation_parent|]. intros d [Hd _].
  eapply stays_read; [apply reads_checked, reads_open_handle|]. simpl. intros h Hv. do 3 read_step.
  apply stays_bind; [|read_rest].
  apply stays_map_error. eapply runs_weaken; [apply stays_rename; [exact Hd|]|done|by intros ? ->].
  by eapply rooted_validated.
Qed.

Lemma stays_copy_open_file fs input target overwrite :
  stays fs (copy_open_file_atomic self input target overwrite).
Proof.
  unfold copy_open_file_atomic. read_step.
  eapply stays_read; [apply reads_open_mutation_parent|]. intros d [Hd _]. read_step.
  eapply stays_read; [apply reads_sibling_temp|]. intros temp (name & _ & ->).
  eapply stays_within, within_cleaning with (Q := λ _, True). eapply runs_bind.
  { apply runs_map_error, within_create_node; [by apply pinned_within|simpl; lia]. }
  simpl. intros output fs1 (-> & Hw & _ & n & Hfs1).
  eapply runs_bind with (P := λ _, within root d fs).
  { unfold copy_with_cancellation.
    eapply runs_read; [apply reads_file_rounds|done|]. simpl. intros fuel _.
    apply within_copy_loop; [done|apply path_starts_with_join, Hw|].
    exists (new_file [] (clock_ms n)). by rewrite Hfs1, lookup_insert_eq. }
  simpl. intros bytes fs2 Hw2.
  eapply (runs_read _ _ _ (λ _, True)); [reads|done|]. intros _ _.
  eapply runs_bind; [apply within_commit; [done|exact Hw2]|]. simpl. intros committed fs3 [-> Hw3].
  eapply (runs_read _ _ _ (λ _, True)); [reads|done|]. intros h1 _.
  eapply (runs_read _ _ _ (λ _, True)); [reads|done|]. intros h2 _.
  case_bool_decide; [by apply runs_ret|].
  eapply runs_bind; [|intros ? fs4 Hw4; apply runs_throw; exact Hw4].
  apply within_ignore, within_os_delete; [done|apply path_starts_with_join, Hw3|apply join_name_ne].
Qed.
Lemma stays_copy_file fs source target overwrite : stays fs (copy_file_atomic self source target overwrite).
Proof. unfold copy_file_atomic. do 3 read_step. apply stays_copy_open_file. Qed.

(** Deleting: every handle of the preflight is in the root. *)
Definition handle_in_root (vh : ValidatedPathHandle) : Prop :=
  path_starts_with root (vh_handle vh) = true.

Lemma reads_preflight fs max_entries levels directory :
  reads fs (preflight_directory_delete self max_entries levels directory) (Forall handle_in_root).
Proof.
  revert directory. induction levels as [|levels IH]; intros directory; simpl.
  - eapply reads_bind; [apply reads_on_world, reads_check_cancelled|]. intros _ _.
    eapply reads_bind; [apply reads_has_entry|]. intros [] _; [apply reads_throw|by apply reads_ret].
  - eapply reads_bind; [apply reads_on_world, reads_check_cancelled|]. intros _ _.
    eapply reads_bind; [apply reads_read_dir_bounded|]. intros [children overflow] _.
    eapply reads_bind; [apply reads_ensure|]. intros _ _.
    apply reads_collect_each. intros name _.
    eapply reads_bind; [apply reads_on_world, reads_check_cancelled|]. intros _ _.
    eapply (reads_bind _ _ _ (λ _, True)); [reads|]. intros metadata _.
    eapply reads_bind; [apply reads_ensure|]. intros _ _.
    eapply reads_bind; [apply reads_on_world, reads_checked, reads_open_entry|]. simpl. intros h Hv.
    eapply (reads_bind _ _ _ (λ _, True)); [reads|]. intros _ _.
    eapply (reads_bind _ _ _ (λ _, True)); [reads|]. intros stable _.
    eapply (reads_bind _ _ _ (Forall handle_in_root)).
    { case_match; [apply IH|]. eapply reads_bind; [apply reads_ensure|]. intros _ _. by apply reads_ret. }
    intros pending Hp. apply reads_ret, Forall_app. split; [done|]. apply Forall_singleton.
    by eapply rooted_validated.
Qed.
Lemma reads_preflight_any fs max_entries levels directory :
  reads fs (preflight_directory_delete self max_entries levels directory) (λ _, True).
Proof. eapply reads_any, reads_preflight. Qed.

Lemma stays_delete_handles fs pending : Forall handle_in_root pending → stays fs (delete_handles pending).
Proof.
  intros Hp. apply stays_for_each. intros h fs' Hh. apply stays_map_error, stays_os_delete.
  by eapply Forall_forall in Hp.
Qed.
Lemma stays_delete_contents fs directory max_depth max_entries :
  stays fs (delete_directory_contents_secure self directory max_depth max_entries).
Proof.
  unfold delete_directory_contents_secure.
  eapply stays_read; [apply reads_with_local, reads_preflight|]. intros [n pending]. simpl.
  apply stays_delete_handles.
Qed.
End confinement.

Section trees.
Context `{Windows} `{Faults} `{Encodings} `{Installation} `{Unicode}.
Variable root : Path.
Abbreviation rooted_service self := (rooted root (svc_authority self)) (only parsing).
Ltac read_step := eapply (stays_read _ _ _ _ (λ _, True)); [solve [reads] | intros ? _].
Ltac read_rest := intros; apply stays_reads; reads.

(** With another service of the same authority, because a failed copy is cleaned
    up by one that cannot be cancelled. *)
Lemma stays_delete self fs path recursive max_depth max_entries :
  rooted_service self → stays root fs (delete_path self path recursive max_depth max_entries).
Proof.
  intros Hroot. unfold delete_path. do 8 read_step.
  eapply stays_read; [apply reads_checked, reads_open_entry|]. simpl. intros h Hv. do 2 read_step.
  apply stays_bind.
  - case_match; [case_match|]; [by apply stays_delete_contents|read_rest..].
  - intros _ fs'. apply stays_bind; [|read_rest].
    apply stays_map_error, stays_os_delete. by eapply rooted_validated.
Qed.

Lemma stays_counting {A} fs (m : M FilesystemError A) (f : N → A → N) :
  stays root fs m →
  stays root fs (λ '(w, total),
    match m w with
    | (w, Ok a) => ((w, f total a), Ok ())
    | (w, Err error) => ((w, total), Err error)
    end : (World * N) * result FilesystemError unit).
Proof. intros Hm [w total] Hw. specialize (Hm w Hw). by destruct (m w) as [w' []]. Qed.
Lemma stays_with_local {S E A} fs s (m : ST (World * S) E A) :
  stays root fs m → stays root fs (with_local s m).
Proof. apply (runs_with_local _ _ _ (λ _ fs', confined root fs fs')). Qed.

Lemma stays_copy_tree self fs source destination max_depth max_entries :
  rooted_service self → stays root fs (copy_directory_tree self source destination max_depth max_entries).
Proof.
  intros Hroot. unfold copy_directory_tree. do 4 read_step. apply stays_bind; [|intros _ fs1].
  - apply stays_for_each. intros entry fs' _. do 2 read_step.
    apply stays_bind; [by apply stays_create_directory|read_rest].
  - apply stays_bind; [|intros [] fs2; read_rest].
    apply stays_with_local, stays_for_each. intros entry fs' _.
    apply (stays_counting _ _ (saturating_add u64_max)). do 4 read_step. by apply stays_copy_file.
Qed.
Lemma stays_copy_from self fs source destination max_depth max_entries :
  rooted_service self →
  stays root fs (copy_directory_from_stable_root self source destination max_depth max_entries).
Proof.
  intros Hroot. unfold copy_directory_from_stable_root.
  apply stays_bind; [by apply stays_create_directory|]. intros created fs1. do 2 read_step.
  apply stays_bind.
  - apply stays_try, stays_bind; [by apply stays_copy_tree|read_rest].
  - intros [bytes|error] fs2; [read_rest|].
    apply stays_bind; [apply stays_ignore, stays_delete; exact Hroot|read_rest].
Qed.
Lemma stays_copy self fs source destination recursive overwrite max_depth max_entries :
  rooted_service self →
  stays root fs (copy self source destination recursive overwrite max_depth max_entries).
Proof.
  intros Hroot. unfold copy. do 6 read_step. case_match.
  - apply stays_bind; [by apply stays_copy_file|read_rest].
  - eapply (stays_read _ _ _ _ (λ _, True)); [case_match; reads|]. intros [] _; [read_rest|].
    read_step. by apply stays_copy_from.
Qed.

(** *** Moving *)

Lemma reads_lock_tree self fs max_entries levels directory :
  reads fs (lock_cross_volume_move_tree self max_entries levels directory) (λ _, True).
Proof. revert directory. induction levels; simpl; reads. Qed.
#[local] Hint Resolve reads_lock_tree : reads.

Lemma reads_exact_scan {S A} fs (m : ST (World * N) FilesystemError A) Q :
  reads fs m Q → reads fs (exact_scan (S := S) m) Q.
Proof.
  intros Hm [w [n s]] Hw. specialize (Hm (w, n) Hw). cbv [exact_scan].
  by destruct (m _) as [[w' n'] []].
Qed.
Lemma reads_take_expected fs relative : reads fs (take_expected relative) (λ _, True).
Proof. intros [w [n expected]] Hw. unfold take_expected. by destruct (expected !! relative). Qed.

Lemma reads_preflight_exact self fs max_entries levels directory relative :
  rooted_service self →
  reads fs (preflight_directory_delete_exact self max_entries levels directory relative)
    (Forall (handle_in_root root)).
Proof.
  intros Hroot. revert directory relative.
  induction levels as [|levels IH]; intros directory relative; simpl.
  - eapply reads_bind; [apply reads_on_world, reads_check_cancelled|]. intros _ _.
    eapply reads_bind; [apply reads_exact_scan, reads_has_entry|]. intros [] _; [apply reads_throw|by apply reads_ret].
  - eapply reads_bind; [apply reads_on_world, reads_check_cancelled|]. intros _ _.
    eapply reads_bind; [apply reads_exact_scan, reads_read_dir_bounded|]. intros [children overflow] _.
    eapply reads_bind; [apply reads_ensure|]. intros _ _.
    apply reads_collect_each. intros name _.
    eapply reads_bind; [apply reads_on_world, reads_check_cancelled|]. intros _ _.
    eapply (reads_bind _ _ _ (λ _, True)); [reads|]. intros metadata _.
    do 2 (eapply reads_bind; [apply reads_ensure|]; intros _ _).
    eapply reads_bind; [apply reads_on_world, reads_checked, reads_open_handle|]. simpl. intros h Hv.
    do 2 (eapply (reads_bind _ _ _ (λ _, True)); [reads|]; intros ? _).
    eapply reads_bind; [apply reads_ensure|]. intros _ _.
    eapply reads_bind; [apply reads_take_expected|]. intros expected _.
    eapply (reads_bind _ _ _ (Forall (handle_in_root root))).
    { case_match; [|case_match; [|apply reads_throw]].
      - eapply reads_bind; [apply reads_ensure|]. intros _ _. apply IH.
      - eapply (reads_bind _ _ _ (λ _, True)); [reads|]. intros hash _.
        eapply reads_bind; [apply reads_ensure|]. intros _ _. by apply reads_ret. }
    intros pending Hp. apply reads_ret, Forall_app. split; [done|]. apply Forall_singleton.
    by eapply rooted_validated.
Qed.

Lemma stays_move_across self fs display destination path allow source h metadata overwrite
    max_depth max_entries :
  rooted_service self → validated (svc_authority self) fs allow source h →
  stays root fs (move_across_volumes self display destination path h metadata overwrite
                   max_depth max_entries).
Proof.
  intros Hroot Hv. assert (Hh : path_starts_with root (vh_handle h) = true) by by eapply rooted_validated.
  unfold move_across_volumes. case_match; [read_rest|]. case_match.
  - apply stays_bind; [by apply stays_copy_open_file|]. intros bytes fs1.
    apply stays_bind; [apply stays_map_error, stays_os_delete; exact Hh|read_rest].
  - read_step. apply stays_bind; [by apply stays_copy_from|]. intros copied fs1. do 4 read_step.
    eapply stays_read; [apply reads_with_local; by apply reads_preflight_exact|].
    intros [[n remaining] pending]. simpl. intros Hp. read_step.
    apply stays_bind; [by apply stays_delete_handles|]. intros _ fs2.
    apply stays_bind; [apply stays_map_error, stays_os_delete; exact Hh|read_rest].
Qed.
Lemma stays_move self fs source destination recursive overwrite max_depth max_entries :
  rooted_service self →
  stays root fs (move_path self source destination recursive overwrite max_depth max_entries).
Proof.
  intros Hroot. unfold move_path. do 8 read_step.
  eapply stays_read; [apply reads_checked, reads_open_entry|]. simpl. intros h Hv. do 7 read_step.
  eapply stays_read; [apply reads_open_mutation_parent|]. intros d [Hd _].
  eapply stays_read; [apply reads_unwrap|]. intros leaf _.
  assert (Hh : path_starts_with root (vh_handle h) = true) by by eapply rooted_validated.
  eapply runs_bind; [eapply runs_try, stays_rename; [exact Hroot|exact Hd|exact Hh]|].
  simpl. intros [target|error] fs' Hc.
  - eapply runs_weaken; [apply (stays_reads root fs'); reads|..]; simpl; intros; by etrans.
  - rewrite Hc. destruct error; [by apply runs_throw..| |by apply runs_throw].
    by eapply stays_move_across.
Qed.
End trees.

(** ** The operations of the service *)

Inductive Operation :=
  | OpList (path : ustr) (recursive : bool) (max_depth max_entries : N)
  | OpStat (path : ustr) (calculate_size : bool) (max_depth max_entries : N)
  | OpRead (path : ustr) (offset max_bytes : N)
  | OpSearch (path : ustr) (options : FilesystemSearchOptions)
  | OpSearchContent (path : ustr) (options : FilesystemContentSearchOptions)
  | OpHash (path : ustr)
  | OpWrite (path : ustr) (content : bytes) (overwrite : bool)
  | OpCreateDirectory (path : ustr)
  | OpRemoveEmptyDirectory (path : ustr)
  | OpCopy (source destination : ustr) (recursive overwrite : bool) (max_depth max_entries : N)
  | OpMove (source destination : ustr) (recursive overwrite : bool) (max_depth max_entries : N)
  | OpDelete (path : ustr) (recursive : bool) (max_depth max_entries : N)
  | OpCreateForEdit (path : ustr) (content : bytes)
  | OpReplaceIf (path expected : ustr) (content : bytes)
  | OpDeleteIf (path expected : ustr)
  | OpMoveIf (source destination expected : ustr).

Definition void {E A} (m : M E A) : M E unit := _ ← m; mret ().

Section operations.
Context `{Windows} `{Faults} `{Encodings} `{Installation} `{Unicode}.

Definition perform (self : FilesystemService) (op : Operation) : M FilesystemError unit :=
  match op with
  | OpList path recursive d e => void (list_directory self path recursive d e)
  | OpStat path size d e => void (stat self path size d e)
  | OpRead path offset count => void (read self path offset count)
  | OpSearch path options => void (search self path options)
  | OpSearchContent path options => void (search_content self path options)
  | OpHash path => void (hash self path)
  | OpWrite path content overwrite => void (write self path content overwrite)
  | OpCreateDirectory path => void (create_directory self path)
  | OpRemoveEmptyDirectory path => void (remove_empty_directory self path)
  | OpCopy s t recursive overwrite d e => void (copy self s t recursive overwrite d e)
  | OpMove s t recursive overwrite d e => void (move_path self s t recursive overwrite d e)
  | OpDelete path recursive d e => void (delete_path self path recursive d e)
  | OpCreateForEdit path content => create_file_for_edit self path content
  | OpReplaceIf path expected content => replace_file_if_sha256 self path expected content
  | OpDeleteIf path expected => delete_file_if_sha256 self path expected
  | OpMoveIf s t expected => move_file_if_sha256 self s t expected
  end.

Lemma stays_void {A} root fs (m : M FilesystemError A) : stays root fs m → stays root fs (void m).
Proof. intros Hm. apply stays_bind; [exact Hm|]. intros. apply stays_reads. reads. Qed.
Lemma stays_perform root self fs op :
  rooted root (svc_authority self) → stays root fs (perform self op).
Proof.
  intros Hroot. destruct op; simpl; try apply stays_void; try (apply stays_reads; reads).
  - by apply stays_write.
  - by apply stays_create_directory.
  - apply stays_bind; [by apply stays_delete|]. intros. apply stays_reads. reads.
  - by apply stays_copy.
  - by apply stays_move.
  - by apply stays_delete.
  - by apply stays_create_file_for_edit.
  - by apply stays_replace_file.
  - by apply stays_delete_file.
  - by apply stays_move_file.
Qed.

(** C3 (safety): whatever operations a client asks for, with whatever paths, links
    in the file system, failing calls and cancellations: the service of a
    workspace changes no object outside the canonical root, and a file with a
    second name (which may be outside) never gets other content. *)
Theorem workspace_confined self root ops w :
  wr_scope (svc_authority self) = ActiveWorkspaceScope →
  wr_canonical_root (svc_authority self) = Some root →
  let w' := foldl (λ w op, (perform self op w).1) w ops in
  (∀ p, path_starts_with root p = false → w_fs w' !! p = w_fs w !! p) ∧
  (∀ p n, w_fs w' !! p = Some n → 1 < nd_links n → ∃ q, w_fs w !! q = Some n).
Proof.
  intros Hs Hr w'. assert (Hc : confined root (w_fs w) (w_fs w')); [|split; apply Hc].
  unfold w'. clear w'. revert w. induction ops as [|op ops IH]; intros w; simpl; [done|].
  etrans; [|apply IH]. pose proof (stays_perform root self (w_fs w) op (conj Hs Hr) w eq_refl) as Hop.
  by destruct (perform self op w) as [w' []].
Qed.
End operations.

From S2P Require Import HostExamples.
Lemma workspace_confined_witness :
  let _ := plain_windows in let _ := failing [200%nat] in let _ := plain_encodings in
  let _ := plain_installation in let _ := ascii_unicode in
  let ops := [OpWrite (lit "src\a.txt") (lit "changed") true;
              OpWrite (lit "linked.txt") (lit "changed") true;
              OpDelete (lit "src") true 4 100; OpWrite (lit "..\secret.txt") [] true] in
  let w' := foldl (λ w op, (perform example_service op w).1) example_world ops in
  w_fs w' !! path_of "C:\secret.txt" = w_fs example_world !! path_of "C:\secret.txt".
Proof.
  intros ? ? ? ? ? ops w'.
  apply (workspace_confined example_service example_root ops example_world); by_decision.
Defined.
