(* ===== verification/FilesystemChanges.v ===== *)
(** * FilesystemChanges: what a write, a deletion and a checked edit do exactly

    Whatever calls fail: the target of a write is the old file or the whole new
    one, a deletion removes a subtree and nothing else, and an edit that names a
    hash touches only a file whose content has it. *)

From S2P Require Import Prelude Text WindowsPath HostFs HostLogic PathAuthority FilesystemService HostExamples FilesystemFacts.
#[local] Open Scope N_scope.

(** A file system is a tree: what has something below it is a directory. *)
Definition tree (fs : Fs) : Prop := ∀ p q,
  dos_path p = true → is_below p q = true → is_Some (fs !! q) →
  ∃ n, fs !! p = Some n ∧ nd_directory n = true.

Lemma tree_below fs p q n :
  tree fs → dos_path p = true → fs !! p = Some n → nd_directory n = false →
  is_below p q = true → fs !! q = None.
Proof.
  intros Ht Hd Hn Hf Hb. destruct (fs !! q) as [m|] eqn:Hq; [|done].
  destruct (Ht p q Hd Hb (mk_is_Some _ _ Hq)) as (n' & Hn' & Hdir). congruence.
Qed.
Lemma tree_absent fs p q : tree fs → dos_path p = true → fs !! p = None → is_below p q = true → fs !! q = None.
Proof.
  intros Ht Hd Hn Hb. destruct (fs !! q) as [m|] eqn:Hq; [|done].
  destruct (Ht p q Hd Hb (mk_is_Some _ _ Hq)) as (n' & Hn' & Hdir). congruence.
Qed.

Definition check_tree (fs : Fs) : bool :=
  forallb (λ q, forallb (λ n, let p := take n q in
    negb (dos_path p) || match fs !! p with Some m => nd_directory m | None => false end)
    (seq 0 (length q))) (map_to_list fs).*1.
Lemma check_tree_tree fs : check_tree fs = true → tree fs.
Proof.
  intros Hc p q Hd Hb [m Hm]. unfold is_below in Hb. apply andb_true_iff in Hb as [Hp Hne].
  apply path_starts_with_spec in Hp as [rest ->]. apply negb_true_iff, bool_decide_eq_false in Hne.
  unfold check_tree in Hc. rewrite forallb_forall in Hc.
  assert (Hin : In (p ++ rest) (map_to_list fs).*1).
  { apply list_elem_of_In, list_elem_of_fmap. exists (p ++ rest, m). split; [done|]. by apply elem_of_map_to_list. }
  specialize (Hc _ Hin). rewrite forallb_forall in Hc. specialize (Hc (length p)).
  rewrite take_app_length, Hd in Hc. simpl in Hc.
  assert (Hlen : In (length p) (seq 0 (length (p ++ rest)))).
  { apply in_seq. rewrite length_app. destruct rest; [by rewrite app_nil_r in Hne|simpl; lia]. }
  specialize (Hc Hlen). destruct (fs !! p) as [n|]; [eauto|done].
Qed.

(** Moving an object that has nothing below it. *)
Lemma move_leaf fs old new n :
  fs !! old = Some n → (∀ p, is_below old p = true → fs !! p = None) →
  (fs !! new = None ∨ new = old) →
  move_objects old new fs = <[new := n]> (delete old fs).
Proof.
  intros Hn Hbelow Hnew.
  assert (Hmoved : ∀ p m, fs !! p = Some m → moved_path old new p = if decide (p = old) then new else p).
  { intros p m Hm. case_decide as Hp; [subst; apply moved_path_self|]. apply moved_path_other.
    apply not_true_is_false. intros Hs. rewrite Hbelow in Hm; [done|].
    unfold is_below. rewrite Hs. by rewrite bool_decide_eq_false_2. }
  apply map_eq. intros p. destruct (decide (p = new)) as [->|Hp].
  - rewrite lookup_insert_eq. eapply lookup_move_Some; [exact Hn|apply moved_path_self|].
    intros q m Hq. rewrite (Hmoved q m Hq). case_decide; naive_solver.
  - rewrite lookup_insert_ne by done. destruct (decide (p = old)) as [->|Ho].
    + rewrite lookup_delete_eq. apply lookup_move_None. intros q m Hq. rewrite (Hmoved q m Hq).
      case_decide; naive_solver.
    + rewrite lookup_delete_ne by done. destruct (fs !! p) as [m|] eqn:Hm.
      * eapply lookup_move_Some; [exact Hm|rewrite (Hmoved p m Hm); by rewrite decide_False|].
        intros q m' Hq. rewrite (Hmoved q m' Hq). case_decide; naive_solver.
      * apply lookup_move_None. intros q m Hq. rewrite (Hmoved q m Hq). case_decide; naive_solver.
Qed.

(** ** Writing *)

Lemma overwrite_all data content : (length content ≤ length data)%nat → overwrite_at 0 data content = data.
Proof.
  intros Hl. unfold overwrite_at. rewrite take_0, drop_ge by (simpl; lia). by rewrite app_nil_r.
Qed.
Lemma set_length_overwrite data content :
  set_length (length data) (overwrite_at 0 data content) = data.
Proof.
  unfold set_length, overwrite_at. rewrite take_0. simpl. rewrite take_app_length.
  rewrite length_app. replace (length data - (length data + _))%nat with 0%nat by lia. by rewrite app_nil_r.
Qed.

(** Nothing but [p] differs. *)
Definition agree_off (p : Path) (fs fs' : Fs) : Prop := ∀ q, q ≠ p → fs' !! q = fs !! q.
#[export] Instance agree_off_preorder p : PreOrder (agree_off p).
Proof. split; [by intros fs q Hq|]. intros a b c Hab Hbc q Hq. by rewrite Hbc, Hab. Qed.
Lemma agree_off_insert p fs n : agree_off p fs (<[p := n]> fs).
Proof. intros q Hq. by rewrite lookup_insert_ne. Qed.
Lemma agree_off_delete p fs : agree_off p fs (delete p fs).
Proof. intros q Hq. by rewrite lookup_delete_ne. Qed.
Lemma agree_off_overwritten p fs fs' f : overwritten p f fs fs' → agree_off p fs fs'.
Proof. intros [modified ->] q Hq. by rewrite lookup_alter_ne. Qed.

Section writing.
Context `{Windows} `{Faults} `{Encodings} `{Installation}.

Lemma real_dir_child fs d name : real_dir fs d → dos_path (join_name d name) = true.
Proof.
  intros [Hd _]. by destruct d as [|[[]| | | |] [|[] ?]].
Qed.
(** What stands under a name of a real directory is found under it. *)
Lemma opens_child_absent fs d name :
  real_dir fs d → opens fs (join_name d name) = None → fs !! join_name d name = None.
Proof.
  intros Hd Ho. destruct (fs !! join_name d name) eqn:Hn; [|done].
  rewrite (opens_final fs) in Ho; [done|by eauto|by eapply real_dir_child].
Qed.
Lemma real_dir_agree fs fs' d name :
  real_dir fs d → agree_off (join_name d name) fs fs' → real_dir fs' d.
Proof.
  intros (Hd & n & Hn & ?) Ha. split; [done|]. exists n. rewrite Ha; [done|].
  intros He. symmetry in He. by apply join_name_ne in He.
Qed.

Definition written_file (content : bytes) (n : Node) : Prop :=
  node_is_file n = true ∧ nd_reparse n = false ∧ nd_links n = 1 ∧ nd_content n = content.

Lemma runs_remove_agree {F} fs kind d name R :
  real_dir fs d → is_Some (fs !! join_name d name) →
  runs (E := F) fs (ignore (remove_node kind (join_name d name)))
    (λ _ fs', agree_off (join_name d name) fs fs') R.
Proof.
  intros Hd Hs. eapply runs_ignore.
  - eapply runs_weaken; [by apply runs_remove_node|intros a fs' Ha; exact Ha|by intros ? ->].
  - simpl. intros _ fs' (name' & _ & Ho & _ & ->).
    rewrite (opens_final fs) in Ho; [|done|by eapply real_dir_child]. injection Ho as <-.
    apply agree_off_delete.
Qed.

Lemma runs_first_write fs p content n :
  fs !! p = Some n → written_file [] n →
  runs fs (_ ← os_write_at p 0 content; os_sync p)
    (λ _ fs', ∃ n', written_file content n' ∧ fs' = <[p := n']> fs)
    (λ fs', agree_off p fs fs' ∧ is_Some (fs' !! p)).
Proof.
  intros Hn (Hf & Hr & Hl & Hc). eapply runs_bind.
  - eapply runs_weaken; [apply runs_write_at|intros ? ? Ho; exact Ho|].
    simpl. intros fs' [k Ho]. split; [by eapply agree_off_overwritten|].
    destruct Ho as [modified ->]. rewrite lookup_alter_eq, Hn. simpl. eauto.
  - simpl. intros _ fs2 Ho. pose proof (agree_off_overwritten _ _ _ _ Ho) as Ha. destruct Ho as [modified Hfs2].
    set (n2 := n <| nd_content ::= overwrite_at 0 content |> <| nd_modified ::= modified |>).
    assert (Hn2 : fs2 !! p = Some n2) by by rewrite Hfs2, lookup_alter_eq, Hn.
    assert (Hwritten : written_file content n2).
    { repeat split; [done..|]. change (overwrite_at 0 content (nd_content n) = content).
      rewrite Hc. apply overwrite_all. simpl. lia. }
    eapply (runs_reads _ _ (λ _, True)); [unfold os_sync; reads| |split; [done|by eauto]].
    intros _ _. exists n2. split; [done|]. apply map_eq. intros q.
    destruct (decide (q = p)) as [->|Hq]; [by rewrite lookup_insert_eq|].
    rewrite lookup_insert_ne by done. by apply Ha.
Qed.

Lemma runs_write_new_synced fs d name content :
  real_dir fs d →
  runs fs (write_new_synced (join_name d name) content)
    (λ _ fs', opens fs (join_name d name) = None ∧
       ∃ n, written_file content n ∧ fs' = <[join_name d name := n]> fs)
    (λ fs', fs' = fs ∨ opens fs (join_name d name) = None ∧ agree_off (join_name d name) fs fs').
Proof.
  intros Hd. set (p := join_name d name). unfold write_new_synced.
  eapply runs_bind; [apply runs_map_error; eapply runs_weaken;
    [by apply runs_create_node|intros f fs' Hf; exact Hf|auto]|].
  simpl. intros f fs1 (-> & Ho & k & Hfs1). fold p in Ho, Hfs1 |- *.
  assert (Ha : agree_off p fs fs1) by (rewrite Hfs1; apply agree_off_insert).
  eapply runs_bind; [eapply runs_try, (runs_first_write _ _ _ (new_file [] (clock_ms k)))|].
  { rewrite Hfs1. apply lookup_insert_eq. } { done. }
  intros [[]|e] fs2 Hput; simpl.
  - apply runs_ret. split; [done|]. destruct Hput as (n & Hn & ->). exists n. split; [done|].
    by rewrite Hfs1, insert_insert_eq.
  - destruct Hput as [Ha2 Hs]. assert (Ha3 : agree_off p fs fs2) by by etrans.
    eapply runs_bind; [apply runs_remove_agree; [by eapply real_dir_agree|done]|].
    simpl. intros _ fs3 Ha4. apply runs_throw. right. split; [done|by etrans].
Qed.

(** The new file stands under its name, and what it replaced is gone. *)
Definition committed (d : Path) (leaf : ustr) (overwrite : bool) (content : bytes) (fs fs' : Fs) : Prop :=
  ∃ temp n, let target := join_name d leaf in
    let replaced := opens (<[temp := n]> fs) target in
    real_dir fs d ∧ fs !! temp = None ∧ written_file content n ∧
    (∀ f, replaced = Some f → f = temp ∨
       overwrite = true ∧ path_parent f = Some d ∧ ∃ m, fs !! f = Some m ∧ nd_directory m = false) ∧
    fs' = <[target := n]> (match replaced with Some f => delete f fs | None => fs end).

Lemma runs_commit self fs d name leaf overwrite content n :
  tree fs → real_dir fs d → fs !! join_name d name = None → written_file content n →
  runs (<[join_name d name := n]> fs) (commit_temp self (join_name d name) d leaf overwrite)
    (λ _, committed d leaf overwrite content fs) (λ fs', fs' = <[join_name d name := n]> fs).
Proof.
  intros Ht Hd Habs Hn. set (temp := join_name d name). set (fs1 := <[temp := n]> fs).
  assert (Hd1 : real_dir fs1 d) by (eapply real_dir_agree; [exact Hd|apply agree_off_insert]).
  assert (Htemp : fs1 !! temp = Some n) by apply lookup_insert_eq.
  assert (Hdos : dos_path temp = true) by by eapply real_dir_child.
  assert (Hbelow : ∀ p, is_below temp p = true → fs1 !! p = None).
  { intros p Hp. unfold fs1. rewrite lookup_insert_ne; [by eapply tree_absent|].
    intros <-. unfold is_below in Hp. rewrite bool_decide_eq_true_2, andb_false_r in Hp by done. done. }
  unfold commit_temp. eapply runs_read; [apply reads_checked, reads_open_handle|done|]. simpl. intros h Hv.
  assert (Hh : vh_handle h = temp).
  { pose proof (vd_opens _ _ _ _ _ Hv) as Ho. rewrite (opens_final fs1 temp) in Ho by eauto. congruence. }
  rewrite Hh. eapply runs_read; [apply reads_reject_target|done|]. intros _ _.
  apply runs_map_error. eapply runs_weaken; [by apply runs_rename| |done].
  simpl. intros target fs' (-> & _ & _ & Hcase).
  exists temp, n. simpl. fold fs1. split; [done|]. split; [done|]. split; [done|].
  assert (Hleaf : ∀ fs2, fs2 !! temp = Some n → (∀ p, is_below temp p = true → fs2 !! p = None) →
    (fs2 !! join_name d leaf = None ∨ join_name d leaf = temp) →
    move_objects temp (join_name d leaf) fs2 = <[join_name d leaf := n]> (delete temp fs2)).
  { intros. by apply move_leaf. }
  assert (Hdel : delete temp fs1 = fs) by by unfold fs1; apply delete_insert_id.
  assert (Hself : ∀ f, opens fs1 (join_name d leaf) = Some f → f ≠ join_name d leaf →
    fs1 !! join_name d leaf = None).
  { intros f Ho Hf. destruct (fs1 !! join_name d leaf) eqn:Hl; [|done].
    rewrite (opens_final fs1) in Ho; [congruence|by eauto|by eapply real_dir_child]. }
  destruct Hcase as [[[Ho|Ho] ->]|(-> & name' & m & Ho & Hm & Hdir & Hne & ->)]; rewrite Ho.
  - split; [done|]. rewrite Hleaf by (done || left; by eapply opens_child_absent). by rewrite Hdel.
  - split; [intros f [= <-]; by left|]. rewrite Hleaf; [by rewrite Hdel, delete_id|done..|].
    destruct (decide (join_name d leaf = temp)); [by right|left; by eapply Hself].
  - assert (Hm' : fs !! join_name d name' = Some m) by (unfold fs1 in Hm; by rewrite lookup_insert_ne in Hm).
    split; [intros f [= <-]; right; split; [done|]; rewrite path_parent_join; by eauto|].
    rewrite Hleaf.
    + rewrite delete_delete. by rewrite Hdel.
    + by rewrite lookup_delete_ne.
    + intros p Hp. apply lookup_delete_None. right. by apply Hbelow.
    + destruct (decide (join_name d leaf = join_name d name')) as [->|]; [left; apply lookup_delete_eq|].
      left. apply lookup_delete_None. right. by eapply Hself.
Qed.

(** At most an object with the name of a temporary file differs. *)
Definition untouched (d : Path) (leaf : ustr) (fs fs' : Fs) : Prop :=
  fs' = fs ∨ ∃ name p, temporary_name leaf name ∧
    (p = join_name d name ∨ opens fs (join_name d name) = Some p) ∧ agree_off p fs fs'.

Lemma runs_cleanup fs fs1 d name leaf R :
  real_dir fs d → temporary_name leaf name →
  (fs1 = fs ∨ opens fs (join_name d name) = None ∧ agree_off (join_name d name) fs fs1) →
  runs fs1 (ignore (F := FilesystemError) (os_remove_file (join_name d name)))
    (λ _ fs', untouched d leaf fs fs') R.
Proof.
  intros Hd Hname Hfs1. set (temp := join_name d name) in *.
  assert (Hd1 : real_dir fs1 d) by (destruct Hfs1 as [->|[_ ?]]; [done|by eapply real_dir_agree]).
  assert (Hun : untouched d leaf fs fs1) by (destruct Hfs1 as [->|[_ ?]]; [by left|right; exists name, temp; auto]).
  eapply runs_weaken; [eapply (runs_ignore _ _ _ (untouched d leaf fs))| |].
  - eapply runs_weaken; [by apply runs_remove_node|intros a fs' Ha; exact Ha|by intros ? ->].
  - simpl. fold temp. intros _ fs' (name' & _ & Ho & _ & ->). right.
    exists name, (join_name d name'). split; [done|]. fold temp.
    destruct Hfs1 as [->|[Hn Ha]]; [split; [by right|apply agree_off_delete]|].
    destruct (fs1 !! temp) as [n|] eqn:Hn1.
    + rewrite (opens_final fs1) in Ho; [|by eauto|by eapply real_dir_child]. injection Ho as <-.
      split; [by left|]. etrans; [exact Ha|apply agree_off_delete].
    + assert (fs1 = fs) as ->; [|congruence]. apply map_eq. intros q.
      destruct (decide (q = temp)) as [->|Hq]; [|by apply Ha].
      rewrite Hn1. symmetry. by apply opens_child_absent.
  - done.
  - intros fs' HR. exact HR.
Qed.

Lemma runs_write_entry fs d leaf self content overwrite name :
  tree fs → real_dir fs d → temporary_name leaf name →
  runs fs (cleaning (join_name d name)
             (_ ← write_new_synced (join_name d name) content;
              commit_temp self (join_name d name) d leaf overwrite))
    (λ _, committed d leaf overwrite content fs) (untouched d leaf fs).
Proof.
  intros Ht Hd Hname. unfold cleaning. eapply runs_bind.
  - eapply runs_try, runs_bind; [by apply runs_write_new_synced|].
    simpl. intros _ fs1 (Habs & n & Hn & ->).
    eapply runs_weaken; [apply runs_commit; [done..|by apply opens_child_absent|exact Hn]
      |intros x fs' Hx; exact Hx|].
    simpl. intros fs' ->. right. split; [done|apply agree_off_insert].
  - intros [target|e] fs1 Hr; simpl in *.
    + eapply runs_bind; [by apply (runs_ret _ _ (λ _ fs', committed d leaf overwrite content fs fs'))|].
      simpl. intros _ fs2 Hc. by apply (runs_ret _ _ (λ _ fs', committed d leaf overwrite content fs fs')).
    + eapply runs_bind; [by eapply runs_cleanup|]. simpl. intros _ fs2 Hu. by apply runs_throw.
Qed.
Lemma runs_write self fs path content overwrite :
  tree fs →
  runs fs (write self path content overwrite)
    (λ _ fs', ∃ d leaf, names_entry self fs path d leaf ∧ pinned self fs d ∧
       committed d leaf overwrite content fs fs')
    (λ fs', fs' = fs ∨ ∃ d leaf, names_entry self fs path d leaf ∧ pinned self fs d ∧
       (untouched d leaf fs fs' ∨ committed d leaf overwrite content fs fs')).
Proof.
  intros Ht. unfold write.
  eapply (runs_read _ _ _ (λ _, True)); [reads|by left|]. intros _ _.
  eapply runs_read; [apply reads_checked, reads_resolve_leaf_names|by left|]. intros target (d & leaf & Hentry & ->).
  eapply (runs_read _ _ _ (λ _, True)); [reads|by left|]. intros _ _.
  eapply runs_read; [by eapply reads_parent_of_entry|by left|]. intros ? [-> Hd].
  eapply runs_read; [apply reads_unwrap|by left|]. simpl. intros leaf' Hleaf.
  rewrite path_file_name_join in Hleaf. injection Hleaf as <-.
  eapply runs_read; [apply reads_sibling_temp|by left|]. intros temp (name & Hname & ->).
  specialize (Hname _ (path_file_name_join d leaf)).
  eapply runs_bind.
  - eapply runs_weaken; [by apply runs_write_entry, Hname; [|apply Hd]|intros x fs' Hx; exact Hx|].
    simpl. intros fs' Hu. right. exists d, leaf. auto.
  - simpl. intros target fs1 Hc. eapply (runs_reads _ _ (λ _, True)); [reads|intros; exists d, leaf; auto|].
    right. exists d, leaf. auto.
Qed.

(** C7 (functional): a write is atomic.  Whatever calls fail, the file system
    afterwards is the one before, but for at most one object with the name of a
    temporary file, or the one with the whole new file in place of the entry the
    path names; an answer means the latter; and without [overwrite] no file is
    replaced. *)
Theorem write_is_atomic self path content overwrite w :
  tree (w_fs w) →
  let '(w', r) := write self path content overwrite w in
  is_ok r = false ∧ w_fs w' = w_fs w ∨
  ∃ d leaf, names_entry self (w_fs w) path d leaf ∧
    (committed d leaf overwrite content (w_fs w) (w_fs w') ∨
     is_ok r = false ∧ untouched d leaf (w_fs w) (w_fs w')).
Proof.
  intros Ht. pose proof (runs_write self (w_fs w) path content overwrite Ht w eq_refl) as Hw.
  destruct (write self path content overwrite w) as [w' [r|e]].
  - destruct Hw as (d & leaf & ? & _ & ?). right. exists d, leaf. auto.
  - destruct Hw as [Hw|(d & leaf & ? & _ & [?|?])]; [by left|right; exists d, leaf; auto..].
Qed.
End writing.

Lemma write_is_atomic_witness :
  let _ := plain_windows in let _ := failing [60%nat] in let _ := plain_encodings in
  let _ := plain_installation in
  let w := example_world in
  let '(w', r) := write example_service (lit "src\a.txt") (lit "changed") true w in
  is_ok r = false ∧ w_fs w' = w_fs w ∨
  ∃ d leaf, names_entry example_service (w_fs w) (lit "src\a.txt") d leaf ∧
    (committed d leaf true (lit "changed") (w_fs w) (w_fs w') ∨
     is_ok r = false ∧ untouched d leaf (w_fs w) (w_fs w')).
Proof. intros ? ? ? ? ?. apply write_is_atomic, check_tree_tree. vm_compute. reflexivity. Defined.

(** ** Deleting *)

Section deleting.
Context `{Windows} `{Faults} `{Encodings} `{Installation}.

(** Objects below [d] are gone, nothing else changed. *)
Definition removed_below (d : Path) (fs fs' : Fs) : Prop :=
  ∀ p, fs' !! p = fs !! p ∨ path_starts_with d p = true ∧ fs' !! p = None.
#[export] Instance removed_below_preorder d : PreOrder (removed_below d).
Proof.
  split; [by left|]. intros a b c Hab Hbc p.
  destruct (Hbc p) as [->|?]; [apply Hab|by right].
Qed.
Lemma removed_below_delete d h fs : path_starts_with d h = true → removed_below d fs (delete h fs).
Proof.
  intros Hh p. destruct (decide (p = h)) as [->|Hp]; [right; by rewrite lookup_delete_eq|].
  left. by rewrite lookup_delete_ne.
Qed.

Definition handle_below (d : Path) (vh : ValidatedPathHandle) : Prop :=
  is_below d (vh_handle vh) = true.
Lemma is_below_child d d' name :
  path_starts_with d d' = true → is_below d (join_name d' name) = true.
Proof.
  intros Hd. unfold is_below. rewrite (path_starts_with_join _ _ _ Hd). simpl.
  apply negb_true_iff, bool_decide_eq_false. intros He.
  pose proof (join_name_not_prefix d' name) as Hp. by rewrite He, Hd in Hp.
Qed.

Lemma reads_preflight_below self fs root max_entries levels d :
  real_dir fs d → path_starts_with root d = true →
  reads fs (preflight_directory_delete self max_entries levels d) (Forall (handle_below root)).
Proof.
  revert d. induction levels as [|levels IH]; intros d Hd Hroot; simpl.
  - eapply reads_bind; [apply reads_on_world, reads_check_cancelled|]. intros _ _.
    eapply reads_bind; [apply reads_has_entry|]. intros [] _; [apply reads_throw|by apply reads_ret].
  - eapply reads_bind; [apply reads_on_world, reads_check_cancelled|]. intros _ _.
    eapply reads_bind; [apply reads_read_dir_bounded|]. intros [children overflow] _.
    eapply reads_bind; [apply reads_ensure|]. intros _ _.
    apply reads_collect_each. intros name _.
    eapply reads_bind; [apply reads_on_world, reads_check_cancelled|]. intros _ _.
    eapply (reads_bind _ _ _ (λ _, True)); [reads|]. intros metadata _.
    eapply reads_bind; [apply reads_ensure|]. intros _ _.
    eapply reads_bind; [apply reads_on_world, reads_checked, reads_open_entry|]. simpl. intros h Hv.
    eapply (reads_bind _ _ _ (λ _, True)); [reads|]. intros _ _.
    destruct (opens_in_real_dir _ _ _ _ Hd (vd_opens _ _ _ _ _ Hv)) as [name' Hh].
    assert (Hfinal : opens fs (vh_final_path h) = Some (vh_handle h)).
    { rewrite (vd_final _ _ _ _ _ Hv). eapply opens_twice, Hv. }
    eapply reads_bind; [apply reads_on_world, reads_io, reads_query|]. simpl. intros stable Hstable.
    rewrite Hfinal in Hstable. csimpl in Hstable. apply ok_or_Ok in Hstable.
    eapply (reads_bind _ _ _ (Forall (handle_below root))).
    { case_match eqn:Hdir.
      - apply andb_true_iff in Hdir as [Hdir Hr]. apply negb_true_iff in Hr. apply IH.
        + rewrite (vd_final _ _ _ _ _ Hv). split; [apply Hv|]. eauto.
        + rewrite (vd_final _ _ _ _ _ Hv), Hh. by apply path_starts_with_join.
      - eapply reads_bind; [apply reads_ensure|]. intros _ _. by apply reads_ret. }
    intros pending Hp. apply reads_ret, Forall_app. split; [done|]. apply Forall_singleton.
    unfold handle_below. rewrite Hh. by apply is_below_child.
Qed.

Lemma runs_delete_handles d fs pending :
  Forall (handle_below d) pending →
  runs fs (delete_handles pending) (λ _, removed_below d fs) (removed_below d fs).
Proof.
  intros Hp. apply runs_for_each; [done|]. intros h fs1 Hh Hr. apply runs_map_error.
  eapply Forall_forall in Hp; [|exact Hh]. apply andb_true_iff in Hp as [Hs _].
  eapply runs_weaken; [apply runs_delete|simpl|by intros ? ->].
  intros _ fs2 (_ & _ & ->). etrans; [exact Hr|]. by apply removed_below_delete.
Qed.

(** The objects at and below [target] are gone, and nothing else. *)
Definition subtree_removed (target : Path) (fs fs' : Fs) : Prop :=
  ∀ p, fs' !! p = if path_starts_with target p then None else fs !! p.

(** The object of the entry a text names: itself, not what a link leads to. *)
Definition names_target (self : FilesystemService) (fs : Fs) (raw : ustr) (target : Path) : Prop :=
  ∃ d leaf, names_entry self fs raw d leaf ∧ opens fs (join_name d leaf) = Some target.

Lemma runs_delete_path self fs path recursive max_depth max_entries :
  runs fs (delete_path self path recursive max_depth max_entries)
    (λ _ fs', ∃ target, names_target self fs path target ∧ subtree_removed target fs fs' ∧
       (recursive = false → ∀ p, is_below target p = true → fs !! p = None))
    (λ fs', fs' = fs ∨ recursive = true ∧ ∃ target n, names_target self fs path target ∧
       fs !! target = Some n ∧ node_is_dir n = true ∧ removed_below target fs fs').
Proof.
  unfold delete_path.
  do 2 (eapply (runs_read _ _ _ (λ _, True)); [reads|by left|]; intros ? _).
  eapply runs_read; [apply reads_checked, reads_resolve_entry_names|by left|]. intros entry (d & leaf & Hentry & ->).
  do 5 (eapply (runs_read _ _ _ (λ _, True)); [reads|by left|]; intros ? _).
  eapply runs_read; [apply reads_checked, reads_open_entry|by left|]. simpl. intros h Hv.
  assert (Htarget : names_target self fs path (vh_handle h)) by (exists d, leaf; split; [done|apply Hv]).
  eapply (runs_read _ _ _ (λ _, True)); [reads|by left|]. intros _ _.
  destruct (vd_node _ _ _ _ _ Hv) as (n & Hn & _).
  eapply runs_read; [apply reads_io, reads_query|by left|]. simpl. intros stable Hstable.
  rewrite (vd_final _ _ _ _ _ Hv) in *.
  rewrite (opens_twice _ _ _ (vd_opens _ _ _ _ _ Hv)) in Hstable. csimpl in Hstable.
  apply ok_or_Ok in Hstable. simplify_eq.
  eapply (runs_bind _ _ _ (λ _ fs', (fs' = fs ∨ recursive = true ∧ node_is_dir n = true ∧
    removed_below (vh_handle h) fs fs'))).
  - case_match eqn:Hdir; [|by eapply (runs_reads _ _ (λ _, True)); [reads|by left|by left]].
    apply andb_true_iff in Hdir as [Hdir Hr]. apply negb_true_iff in Hr.
    destruct recursive; [|by eapply (runs_reads _ _ (λ _, True)); [reads|by left|by left]].
    unfold delete_directory_contents_secure.
    eapply runs_read; [eapply reads_with_local, (reads_preflight_below _ _ (vh_handle h))|by left|].
    { split; [apply Hv|by eauto]. } { apply path_starts_with_refl. }
    intros [k pending]. simpl. intros Hp.
    eapply runs_weaken; [by apply runs_delete_handles|simpl; by auto|]. simpl. right. by eauto 10.
  - intros _ fs1 Hfs1. eapply runs_bind.
    + apply runs_map_error. eapply runs_weaken; [apply runs_delete|intros ? ? Hq; exact Hq|].
      simpl. intros fs' ->. destruct Hfs1 as [->|(-> & Hdir & Hr)]; [by left|right; by eauto 10].
    + simpl. intros _ fs2 (Hbelow & _ & ->).
      apply runs_ret. exists (vh_handle h). split; [done|].
      assert (Hsub : ∀ p, is_below (vh_handle h) p = true → recursive = false → fs !! p = None).
      { intros p Hp ->. destruct Hfs1 as [->|[? _]]; [by apply Hbelow|done]. }
      split; [|by auto]. intros p. destruct (decide (p = vh_handle h)) as [->|Hp].
      * by rewrite lookup_delete_eq, path_starts_with_refl.
      * rewrite lookup_delete_ne by done. destruct (path_starts_with (vh_handle h) p) eqn:Hs.
        -- apply Hbelow. unfold is_below. rewrite Hs. by rewrite bool_decide_eq_false_2.
        -- destruct Hfs1 as [->|(_ & _ & Hr)]; [done|]. destruct (Hr p) as [->|[? _]]; [done|congruence].
Qed.

(** C8 (error): a deletion removes a subtree exactly, or fails.  An answer means
    that the object of the entry the path names - a link itself, not what it leads
    to - and everything below it are gone and that no other object changed,
    whatever links the subtree held; without [recursive], nothing was below it.  A
    failure leaves everything in place, or, after a recursive one got past its
    checks, has removed objects of that named directory only. *)
Theorem delete_removes_subtree self path recursive max_depth max_entries w :
  let '(w', r) := delete_path self path recursive max_depth max_entries w in
  let fs := w_fs w in let fs' := w_fs w' in
  if is_ok r then
    ∃ target, names_target self fs path target ∧ subtree_removed target fs fs' ∧
      (recursive = false → ∀ p, is_below target p = true → fs !! p = None)
  else
    fs' = fs ∨ recursive = true ∧ ∃ target n, names_target self fs path target ∧
      fs !! target = Some n ∧ node_is_dir n = true ∧ removed_below target fs fs'.
Proof.
  pose proof (runs_delete_path self (w_fs w) path recursive max_depth max_entries w eq_refl) as Hw.
  by destruct (delete_path self path recursive max_depth max_entries w) as [w' []].
Qed.
End deleting.

(** ** Edits that name a hash *)

Section editing.
Context `{Windows} `{Faults} `{Encodings} `{Installation}.

(** The file a path names, with the expected content. *)
Definition has_hash (self : FilesystemService) (path expected : ustr) (fs : Fs) (h : Path) (n : Node) :
    Prop :=
  named_file self fs path h n ∧ eq_ignore_ascii_case (sha256_hex (nd_content n)) expected = true.

Lemma runs_put_contents fs h content n :
  fs !! h = Some n →
  runs fs (put_contents h content)
    (λ _ fs', ∃ n', nd_content n' = content ∧ fs' = <[h := n']> fs)
    (agree_off h fs).
Proof.
  intros Hn. unfold put_contents.
  eapply runs_bind; [eapply runs_weaken; [apply runs_write_at|intros ? ? Ho; exact Ho|]|].
  { simpl. intros fs' [k Ho]. by eapply agree_off_overwritten. }
  simpl. intros _ fs1 Ho1. pose proof (agree_off_overwritten _ _ _ _ Ho1) as Ha1. destruct Ho1 as [m1 Hfs1].
  eapply runs_bind; [eapply runs_weaken; [apply runs_set_len|intros ? ? Ho; exact Ho|by intros ? ->]|].
  simpl. intros _ fs2 Ho2.
  assert (Ha2 : agree_off h fs fs2) by (etrans; [exact Ha1|by eapply agree_off_overwritten]).
  destruct Ho2 as [m2 Hfs2].
  eapply (runs_reads _ _ (λ _, True)); [unfold os_sync; reads| |exact Ha2]. intros _ _.
  eexists (_ <| nd_content ::= _ |> <| nd_modified ::= m2 |>). split; cycle 1.
  - apply map_eq. intros q. destruct (decide (q = h)) as [->|Hq].
    + rewrite Hfs2, Hfs1, lookup_insert_eq, !lookup_alter_eq, Hn. simpl. done.
    + rewrite lookup_insert_ne by done. by apply Ha2.
  - apply (set_length_overwrite content (nd_content n)).
Qed.
Lemma runs_replace_contents fs h original content n :
  fs !! h = Some n →
  runs fs (replace_open_file_contents h original content)
    (λ _ fs', ∃ n', nd_content n' = content ∧ fs' = <[h := n']> fs)
    (agree_off h fs).
Proof.
  intros Hn. unfold replace_open_file_contents.
  eapply runs_bind; [by eapply runs_try, runs_put_contents|].
  intros [[]|e] fs1 Hr; simpl in *; [by apply runs_ret|].
  assert (Hkeep : ∀ (m : M IoError unit) fs', agree_off h fs fs' →
    runs fs' m (λ _, agree_off h fs') (agree_off h fs') →
    runs (E := FilesystemError) fs' (ignore m) (λ _, agree_off h fs) (agree_off h fs)).
  { intros m fs' Ha Hm. eapply runs_ignore; [|intros ? ? Hq; exact Hq].
    eapply runs_weaken; [exact Hm|..]; simpl; intros; by etrans. }
  eapply runs_bind; [apply Hkeep; [exact Hr|]|].
  { eapply runs_weaken; [apply runs_write_at|..]; simpl.
    - intros. by eapply agree_off_overwritten.
    - intros ? [k ?]. by eapply agree_off_overwritten. }
  simpl. intros _ fs2 Ha2. eapply runs_bind; [apply Hkeep; [exact Ha2|]|].
  { eapply runs_weaken; [apply runs_set_len|..]; simpl; [|by intros ? ->].
    intros. by eapply agree_off_overwritten. }
  simpl. intros _ fs3 Ha3. eapply runs_bind; [apply Hkeep; [exact Ha3|]|].
  { eapply (runs_reads _ _ (λ _, True)); [unfold os_sync; reads|done|done]. }
  simpl. intros _ fs4 Ha4. by apply runs_throw.
Qed.

(** The file an edit with a hash is about; what it may leave. *)
Definition replaced_file (self : FilesystemService) (path expected : ustr) (content : bytes) (fs fs' : Fs) : Prop :=
  ∃ h n n', has_hash self path expected fs h n ∧ nd_content n' = content ∧ fs' = <[h := n']> fs.

Lemma runs_replace_file self fs path expected content :
  runs fs (replace_file_if_sha256 self path expected content)
    (λ _, replaced_file self path expected content fs)
    (λ fs', fs' = fs ∨ ∃ h n, has_hash self path expected fs h n ∧ agree_off h fs fs').
Proof.
  unfold replace_file_if_sha256.
  eapply (runs_read _ _ _ (λ _, True)); [reads|by left|]. intros _ _.
  eapply runs_read; [apply reads_checked, reads_resolve_names|by left|]. simpl. intros p (Hp & Hpd & Hps).
  eapply (runs_read _ _ _ (λ _, True)); [reads|by left|]. intros _ _.
  eapply runs_read; [apply reads_map_error, reads_open_handle|by left|]. simpl. intros h Hv.
  pose proof (validated_resolved _ _ _ _ _ _ Hp Hpd Hps Hv) as Hnames.
  eapply runs_read; [apply reads_read_regular_content|by left|]. simpl. intros original (n & Hn & Hf & _ & ->).
  eapply runs_read; [apply reads_matches|by left|]. simpl. intros _ He.
  eapply runs_weaken; [by eapply runs_replace_contents|simpl..].
  - intros _ fs' (n' & Hc & ->). exists (vh_handle h), n, n'. done.
  - intros fs' Ha. right. by exists (vh_handle h), n.
Qed.
Lemma runs_delete_file self fs path expected :
  runs fs (delete_file_if_sha256 self path expected)
    (λ _ fs', ∃ h n, has_hash self path expected fs h n ∧ fs' = delete h fs) (λ fs', fs' = fs).
Proof.
  unfold delete_file_if_sha256.
  eapply (runs_read _ _ _ (λ _, True)); [reads|done|]. intros _ _.
  eapply runs_read; [apply reads_checked, reads_resolve_names|done|]. simpl. intros p (Hp & Hpd & Hps).
  eapply (runs_read _ _ _ (λ _, True)); [reads|done|]. intros _ _.
  eapply runs_read; [apply reads_checked, reads_open_handle|done|]. simpl. intros h Hv.
  pose proof (validated_resolved _ _ _ _ _ _ Hp Hpd Hps Hv) as Hnames.
  eapply runs_read; [apply reads_read_regular_content|done|]. simpl. intros original (n & Hn & Hf & _ & ->).
  eapply runs_read; [apply reads_matches|done|]. simpl. intros _ He.
  apply runs_map_error. eapply runs_weaken; [apply runs_delete|simpl|done].
  intros _ fs' (_ & _ & ->). by exists (vh_handle h), n.
Qed.
Lemma runs_move_file self fs source destination expected :
  tree fs →
  runs fs (move_file_if_sha256 self source destination expected)
    (λ _ fs', ∃ h n target, has_hash self source expected fs h n ∧ (fs !! target = None ∨ target = h) ∧
                fs' = <[target := n]> (delete h fs)) (λ fs', fs' = fs).
Proof.
  intros Ht. unfold move_file_if_sha256.
  eapply (runs_read _ _ _ (λ _, True)); [reads|done|]. intros _ _.
  eapply runs_read; [apply reads_checked, reads_resolve_names|done|]. simpl. intros p (Hp & Hpd & Hps).
  do 4 (eapply (runs_read _ _ _ (λ _, True)); [reads|done|]; intros ? _).
  eapply runs_read; [apply reads_open_mutation_parent|done|]. intros d [[Hd _] _].
  eapply runs_read; [apply reads_checked, reads_open_handle|done|]. simpl. intros h Hv.
  pose proof (validated_resolved _ _ _ _ _ _ Hp Hpd Hps Hv) as Hnames.
  eapply runs_read; [apply reads_read_regular_content|done|]. simpl. intros original (n & Hn & Hf & _ & ->).
  eapply runs_read; [apply reads_matches|done|]. simpl. intros _ He.
  eapply runs_read; [apply reads_unwrap|done|]. simpl. intros leaf _.
  eapply runs_bind.
  - apply runs_map_error. eapply runs_weaken; [by apply runs_rename|intros ? ? Hr; exact Hr|done].
  - simpl. intros target fs' (-> & _ & _ & Hcase). apply runs_ret.
    exists (vh_handle h), n, (join_name d leaf). split; [done|].
    destruct Hcase as [[Ho ->]|[? _]]; [|done].
    assert (Hfree : fs !! join_name d leaf = None ∨ join_name d leaf = vh_handle h).
    { destruct Ho as [Ho|Ho]; [left; by eapply opens_child_absent|].
      destruct (fs !! join_name d leaf) eqn:Hl; [right|by left].
      rewrite (opens_final fs) in Ho; [congruence|by eauto|by eapply real_dir_child]. }
    split; [exact Hfree|]. apply move_leaf; [exact Hn| |exact Hfree].
    intros q Hq. eapply tree_below; [exact Ht|apply Hv|exact Hn| |exact Hq].
    by apply andb_true_iff in Hf as [?%negb_true_iff _].
Qed.

(** C9 (safety): an edit that names a hash does its work on the file its path
    names, only if its content has that hash, and on no other object.  Replacing writes exactly the new
    content, deleting removes exactly that file, moving puts it, unchanged, under
    a name that was free; and whatever call fails, a file without the hash keeps
    its content, and the failure of a deletion or a move changes nothing. *)
Theorem edits_respect_hash self w path destination expected content :
  tree (w_fs w) →
  (let '(w', r) := replace_file_if_sha256 self path expected content w in
   if is_ok r then replaced_file self path expected content (w_fs w) (w_fs w')
   else w_fs w' = w_fs w ∨ ∃ h n, has_hash self path expected (w_fs w) h n ∧ agree_off h (w_fs w) (w_fs w')) ∧
  (let '(w', r) := delete_file_if_sha256 self path expected w in
   if is_ok r then ∃ h n, has_hash self path expected (w_fs w) h n ∧ w_fs w' = delete h (w_fs w)
   else w_fs w' = w_fs w) ∧
  (let '(w', r) := move_file_if_sha256 self path destination expected w in
   if is_ok r then
     ∃ h n target, has_hash self path expected (w_fs w) h n ∧ (w_fs w !! target = None ∨ target = h) ∧
       w_fs w' = <[target := n]> (delete h (w_fs w))
   else w_fs w' = w_fs w).
Proof.
  intros Ht. split; [|split].
  - pose proof (runs_replace_file self (w_fs w) path expected content w eq_refl) as Hw.
    by destruct (replace_file_if_sha256 self path expected content w) as [w' []].
  - pose proof (runs_delete_file self (w_fs w) path expected w eq_refl) as Hw.
    by destruct (delete_file_if_sha256 self path expected w) as [w' []].
  - pose proof (runs_move_file self (w_fs w) path destination expected Ht w eq_refl) as Hw.
    by destruct (move_file_if_sha256 self path destination expected w) as [w' []].
Qed.
End editing.

Lemma edits_respect_hash_witness :
  let _ := plain_windows in let _ := failing [40%nat] in let _ := plain_encodings in
  let _ := plain_installation in
  let w := example_world in let expected := sha256_hex (lit "alpha") in
  let '(w', r) := delete_file_if_sha256 example_service (lit "src\a.txt") expected w in
  if is_ok r then ∃ h n, has_hash example_service (lit "src\a.txt") expected (w_fs w) h n ∧
    w_fs w' = delete h (w_fs w)
  else w_fs w' = w_fs w.
Proof.
  intros ? ? ? ? w expected.
  assert (Ht : tree (w_fs w)) by (apply check_tree_tree; vm_compute; reflexivity).
  clearbody w expected.
  destruct (edits_respect_hash example_service w (lit "src\a.txt") (lit "src\c.txt") expected [] Ht)
    as (_ & Hw & _).
  exact Hw.
Defined.

(** ** Rolling back *)

Section rollback.
Context `{Windows} `{Faults} `{Encodings} `{Installation}.

(** No call fails any more. *)
Definition calm (w : World) : Prop := ∀ i, (w_calls w ≤ i)%nat → call_fails i = false.

Lemma write_at_calm h offset data w :
  calm w → ∃ w', os_write_at h offset data w = (w', Ok ()) ∧ calm w' ∧
    overwritten h (overwrite_at offset data) (w_fs w) (w_fs w').
Proof.
  intros Hc. unfold os_write_at. rewrite (Hc (w_calls w)) by lia. eexists. split; [done|].
  split; [|by eexists (λ _, _)]. intros i Hi. apply Hc. simpl in Hi. lia.
Qed.
Lemma set_len_calm h len w :
  calm w → ∃ w', os_set_len h len w = (w', Ok ()) ∧ calm w' ∧
    overwritten h (set_length len) (w_fs w) (w_fs w').
Proof.
  intros Hc. pose proof (runs_set_len (w_fs w) h len w eq_refl) as Hr. revert Hr.
  unfold os_set_len, call. rewrite (Hc (w_calls w)) by lia. simpl. intros Hr. eexists. split; [done|].
  split; [|exact Hr]. intros i Hi. apply Hc. simpl in Hi. lia.
Qed.
Lemma sync_calm h w : calm w → ∃ w', os_sync h w = (w', Ok ()) ∧ calm w' ∧ w_fs w' = w_fs w.
Proof.
  intros Hc. unfold os_sync, query, call. rewrite (Hc (w_calls w)) by lia. eexists. split; [done|].
  split; [|done]. intros i Hi. apply Hc. simpl in Hi. lia.
Qed.

Lemma put_contents_calm h content n w :
  calm w → w_fs w !! h = Some n →
  ∃ w' n', put_contents h content w = (w', Ok ()) ∧ calm w' ∧
    nd_content n' = content ∧ w_fs w' = <[h := n']> (w_fs w).
Proof.
  intros Hc Hn. pose proof (runs_put_contents (w_fs w) h content n Hn w eq_refl) as Hr. revert Hr.
  unfold put_contents. cbv [mbind ST_bind].
  destruct (write_at_calm h 0 content w Hc) as (w1 & -> & Hc1 & _).
  destruct (set_len_calm h (length content) w1 Hc1) as (w2 & -> & Hc2 & _).
  destruct (sync_calm h w2 Hc2) as (w3 & -> & Hc3 & _). intros (n' & Hn' & Hfs). by exists w3, n'.
Qed.

(** At most one call fails. *)
Definition fails_once : Prop := ∀ i j, call_fails i = true → call_fails j = true → i = j.
Lemma fails_once_calm w k :
  fails_once → call_fails k = true → (w_calls w = S k)%nat → calm w.
Proof.
  intros Ho Hk Hw i Hi. apply not_true_is_false. intros Hfail. specialize (Ho _ _ Hk Hfail). lia.
Qed.
Lemma put_contents_fails h content n w w' e :
  fails_once → w_fs w !! h = Some n → put_contents h content w = (w', Err e) →
  calm w' ∧ agree_off h (w_fs w) (w_fs w') ∧ is_Some (w_fs w' !! h).
Proof.
  intros Ho Hn Hput. pose proof (runs_put_contents (w_fs w) h content n Hn w eq_refl) as Hr.
  rewrite Hput in Hr. revert Hput. unfold put_contents. cbv [mbind ST_bind].
  unfold os_write_at. destruct (call_fails (w_calls w)) eqn:H1f.
  { intros [= <- <-]. split; [by eapply fails_once_calm|]. split; [exact Hr|].
    simpl. rewrite lookup_alter_eq, Hn. simpl. eauto. }
  set (w1 := _ <| w_fs ::= _ |>). unfold os_set_len, call.
  assert (Hn1 : is_Some (w_fs w1 !! h)) by (simpl; rewrite lookup_alter_eq, Hn; simpl; eauto).
  destruct (call_fails (w_calls w1)) eqn:H2f.
  { intros [= <- <-]. split; [by eapply fails_once_calm|]. by split; [exact Hr|]. }
  cbv beta iota zeta. set (w2 := _ <| w_fs := _ |>). unfold os_sync, query, call.
  assert (Hn2 : is_Some (w_fs w2 !! h)).
  { destruct Hn1 as [n1 Hn1]. simpl in *. rewrite lookup_alter_eq, Hn1. simpl. eauto. }
  destruct (call_fails (w_calls w2)) eqn:H3f; [|done].
  intros [= <- <-]. split; [by eapply fails_once_calm|]. by split; [exact Hr|].
Qed.

Lemma rollback_restores h original content n w :
  fails_once → w_fs w !! h = Some n → nd_content n = original →
  let '(w', r) := replace_open_file_contents h original content w in
  is_ok r = false → ∀ p, nd_content <$> w_fs w' !! p = nd_content <$> w_fs w !! p.
Proof.
  intros Ho Hn Hc. unfold replace_open_file_contents. cbv [mbind ST_bind try].
  destruct (put_contents h content w) as [w1 [[]|e]] eqn:Hput; [done|].
  destruct (put_contents_fails _ _ _ _ _ _ Ho Hn Hput) as (Hcalm & Ha & [n1 Hn1]).
  destruct (put_contents_calm h original n1 w1 Hcalm Hn1) as (w2 & n2 & Hback & _ & Hn2 & Hfs2).
  revert Hback. unfold put_contents, ignore, try. cbv [mbind ST_bind is_ok mret ST_ret]. cbv beta.
  destruct (write_at_calm h 0 original w1 Hcalm) as (w3 & -> & Hc3 & _). cbv beta iota.
  destruct (set_len_calm h (length original) w3 Hc3) as (w4 & -> & Hc4 & _). cbv beta iota.
  destruct (sync_calm h w4 Hc4) as (w5 & -> & _ & _). intros [= ->]. simpl. intros _ p.
  rewrite Hfs2. destruct (decide (p = h)) as [->|Hp].
  - rewrite lookup_insert_eq, Hn. simpl. congruence.
  - rewrite lookup_insert_ne by done. by rewrite Ha.
Qed.

(** C11 (error): a replacement that fails because one call of the system failed,
    at whatever point, leaves every file with the content it had. *)
Theorem failed_replace_restores self path expected content w :
  fails_once →
  let '(w', r) := replace_file_if_sha256 self path expected content w in
  is_ok r = false → ∀ p, nd_content <$> w_fs w' !! p = nd_content <$> w_fs w !! p.
Proof.
  intros Ho. set (fs := w_fs w).
  assert (Hrun : runs fs (replace_file_if_sha256 self path expected content) (λ _ _, True)
    (λ fs', ∀ p, nd_content <$> fs' !! p = nd_content <$> fs !! p)).
  - unfold replace_file_if_sha256.
    do 3 (eapply (runs_read _ _ _ (λ _, True)); [reads|done|]; intros ? _).
    eapply runs_read; [apply reads_map_error, reads_open_handle|done|]. simpl. intros h Hv.
    eapply runs_read; [apply reads_read_regular_content|done|]. simpl. intros original (n & Hn & _ & _ & ->).
    eapply (runs_read _ _ _ (λ _, True)); [reads|done|]. intros _ _ w1 Hw1. rewrite <- Hw1 in Hn.
    pose proof (rollback_restores (vh_handle h) (nd_content n) content n w1 Ho Hn eq_refl) as Hr.
    destruct (replace_open_file_contents _ _ _ w1) as [w2 []]; [done|].
    rewrite <- Hw1. by apply Hr.
  - specialize (Hrun w eq_refl). by destruct (replace_file_if_sha256 self path expected content w) as [w' []].
Qed.
End rollback.

Lemma failed_replace_restores_witness :
  let _ := plain_windows in let _ := failing [30%nat] in let _ := plain_encodings in
  let _ := plain_installation in
  let '(w', r) := replace_file_if_sha256 example_service (lit "src\a.txt")
    (sha256_hex (lit "alpha")) (lit "changed") example_world in
  is_ok r = false → ∀ p, nd_content <$> w_fs w' !! p = nd_content <$> w_fs example_world !! p.
Proof.
  intros ? ? ? ?. apply failed_replace_restores.
  by intros i j ?%bool_decide_eq_true%list_elem_of_singleton ?%bool_decide_eq_true%list_elem_of_singleton; subst.
Defined.
