(* ===== verification/FilesystemWalk.v ===== *)
(** * FilesystemWalk: what a listing reports

    Every entry of a listing is an object of the directory, with its kind and
    size; and a listing that is not marked as truncated has them all. *)

From S2P Require Import Prelude Text WindowsPath HostFs HostLogic PathAuthority FilesystemService FilesystemFacts FilesystemChanges HostExamples.
#[local] Open Scope N_scope.

Lemma children_spec fs d name : name ∈ children fs d ↔ is_Some (fs !! join_name d name).
Proof.
  unfold children. rewrite list_elem_of_omap. split.
  - intros (p & Hp & Hc). apply list_elem_of_fmap in Hp as ([p' n] & -> & Hp%elem_of_map_to_list).
    simpl in Hc.
    unfold child_name in Hc. case_match eqn:Hs; [|done]. apply path_strip_prefix_Some in Hs as ->.
    repeat case_match; simplify_eq. unfold join_name. eauto.
  - intros [n Hn]. exists (join_name d name). split.
    + apply list_elem_of_fmap. exists (join_name d name, n). split; [done|]. by apply elem_of_map_to_list.
    + unfold child_name, join_name. by rewrite (proj2 (path_strip_prefix_Some d _ [Normal name])).
Qed.

Section walk.
Context `{Windows} `{Faults} `{Encodings} `{Installation}.
Variables (self : FilesystemService) (fs : Fs).

(** What a computation of the walk does, from what has been collected; the file
    system stays as it is. *)
Definition walks {A} (s : WalkState) (m : ST (World * WalkState) FilesystemError A)
    (Q : A → WalkState → Prop) (R : WalkState → Prop) : Prop :=
  ∀ w, w_fs w = fs →
    match m (w, s) with
    | ((w', s'), Ok a) => w_fs w' = fs ∧ Q a s'
    | ((w', s'), Err _) => w_fs w' = fs ∧ R s'
    end.

Lemma walks_ret {A} s (a : A) (Q : A → WalkState → Prop) R : Q a s → walks s (mret a) Q R.
Proof. by intros Hq w Hw. Qed.
Lemma walks_throw {A} s e (Q : A → WalkState → Prop) (R : WalkState → Prop) : R s → walks s (throw e) Q R.
Proof. by intros HR w Hw. Qed.
Lemma walks_weaken {A} s (m : ST _ _ A) (Q Q' : A → WalkState → Prop) (R R' : WalkState → Prop) :
  walks s m Q R → (∀ a s', Q a s' → Q' a s') → (∀ s', R s' → R' s') → walks s m Q' R'.
Proof. intros Hm HQ HR w Hw. specialize (Hm w Hw). destruct (m (w, s)) as [[w' s'] []]; naive_solver. Qed.
Lemma walks_bind {A B} s (m : ST _ _ A) (f : A → ST _ _ B) P Q (R : WalkState → Prop) :
  walks s m P R → (∀ a s', P a s' → walks s' (f a) Q R) → walks s (m ≫= f) Q R.
Proof.
  intros Hm Hf w Hw. specialize (Hm w Hw). cbv [mbind ST_bind].
  destruct (m (w, s)) as [[w' s'] [a|e]]; [|done]. destruct Hm as [Hw' HP]. by apply (Hf a s' HP w').
Qed.
Lemma walks_try {A} s (m : ST _ _ A) Q R R' :
  walks s m Q R →
  walks s (try m) (λ r s', match r with Ok a => Q a s' | Err _ => R s' end) R'.
Proof. intros Hm w Hw. specialize (Hm w Hw). cbv [try]. by destruct (m (w, s)) as [[w' s'] []]. Qed.
Lemma walks_world {A} s (m : M FilesystemError A) Q (R : WalkState → Prop) :
  reads fs m Q → R s → walks s (walk_world m) (λ a s', s' = s ∧ Q a) R.
Proof.
  intros Hm HR w Hw. specialize (Hm w Hw). cbv [walk_world on_world].
  destruct (m w) as [w' []]; naive_solver.
Qed.
(** The state with another count. *)
Definition counted (s s' : WalkState) : Prop :=
  wk_entries s' = wk_entries s ∧ wk_truncated s' = wk_truncated s.
Lemma walks_scan {A} s (m : ST (World * N) FilesystemError A) Q (R : WalkState → Prop) :
  reads fs m Q → (∀ s', counted s s' → R s') →
  walks s (walk_scan m) (λ a s', counted s s' ∧ Q a) R.
Proof.
  intros Hm HR w Hw. specialize (Hm (w, wk_scanned s) Hw). cbv [walk_scan].
  destruct (m _) as [[w' k] [a|e]]; [destruct Hm; repeat split; done|].
  split; [exact Hm|]. apply HR. by split.
Qed.
Lemma walks_truncated s R :
  walks s walk_truncated (λ _ s', wk_entries s' = wk_entries s ∧ wk_truncated s' = true) R.
Proof. by intros w Hw. Qed.

(** The entry of an object. *)
Definition reported (e : FilesystemEntry) (p : Path) (n : Node) : Prop :=
  fs !! p = Some n ∧ nd_reparse n = false ∧
  display_path (svc_authority self) p = Ok (fe_path e) ∧
  fe_kind e = metadata_kind n ∧ fe_size e = node_len n ∧ fe_modified_ms e = nd_modified n.

(** Collecting only adds entries of objects at most that many levels below [d], and
    never takes a truncation back. *)
Definition extends (levels : nat) (d : Path) (s s' : WalkState) : Prop :=
  (wk_truncated s = true → wk_truncated s' = true) ∧
  ∃ found, wk_entries s' = wk_entries s ++ found ∧
    Forall (λ e, ∃ p n, is_below d p = true ∧ (length p ≤ length d + levels)%nat ∧ reported e p n) found.
#[export] Instance extends_preorder levels d : PreOrder (extends levels d).
Proof.
  split; [intros s; split; [done|]; exists []; by rewrite app_nil_r|].
  intros a b c [Hab (f & Hf & HF)] [Hbc (g & Hg & HG)]. split; [auto|].
  exists (f ++ g). rewrite Hg, Hf, app_assoc. split; [done|]. by apply Forall_app.
Qed.
Lemma extends_below levels d d' s s' :
  path_starts_with d d' = true → length d' = S (length d) → extends levels d' s s' → extends (S levels) d s s'.
Proof.
  intros Hd Hlen [Ht (f & Hf & HF)]. split; [done|]. exists f. split; [done|].
  eapply Forall_impl; [exact HF|]. simpl. intros e (p & n & Hb & Hl & Hr). exists p, n. split; [|split; [lia|done]].
  unfold is_below in *. apply andb_true_iff in Hb as [Hp Hne].
  rewrite (path_starts_with_trans _ _ _ Hd Hp). simpl.
  apply negb_true_iff, bool_decide_eq_false. intros ->.
  assert (d = d') as <-; [|by rewrite bool_decide_eq_true_2 in Hne].
  apply path_starts_with_spec in Hd as [x ->]. apply path_starts_with_spec in Hp as [y Hy].
  rewrite <- app_assoc in Hy. apply (f_equal length) in Hy. rewrite !length_app in Hy.
  destruct x; simpl in *; [by rewrite app_nil_r|lia].
Qed.

Lemma extends_counted levels d s s' : counted s s' → extends levels d s s'.
Proof. intros [He Ht]. split; [by rewrite Ht|]. exists []. by rewrite He, app_nil_r. Qed.
Lemma extends_truncated levels d s s' :
  wk_entries s' = wk_entries s → wk_truncated s' = true → extends levels d s s'.
Proof. intros He Ht. split; [done|]. exists []. by rewrite He, app_nil_r. Qed.
Lemma extends_elem levels d s s' e : extends levels d s s' → e ∈ wk_entries s → e ∈ wk_entries s'.
Proof. intros [_ (f & -> & _)] He. apply elem_of_app. by left. Qed.

(** ** The names of a directory *)

Lemma reads_os_read_dir d :
  real_dir fs d → reads fs (os_read_dir d) (λ names, names = children fs d).
Proof.
  intros Hd. eapply reads_weaken; [apply reads_query|]. simpl. intros names.
  rewrite (real_dir_follows _ _ Hd). csimpl. destruct Hd as (_ & n & -> & -> & _). naive_solver.
Qed.
Lemma reads_read_entries_names remaining names found :
  reads fs (read_entries self remaining names found)
    (λ r, (∀ name, name ∈ r.1 → name ∈ found ++ names) ∧
          (r.2 = false → ∀ name, name ∈ found ++ names → name ∈ r.1)).
Proof.
  revert names found. induction remaining as [|remaining IH]; intros names found; simpl.
  - apply reads_ret. simpl. split; [|done]. intros name. rewrite sort_by_perm. set_solver.
  - eapply reads_bind; [apply reads_cancelled_local|]. intros c _.
    eapply reads_bind; [apply reads_ensure|]. intros _ _. destruct names as [|name names].
    + apply reads_ret. simpl. rewrite app_nil_r. split; intros; [|intros]; by rewrite ?sort_by_perm in *.
    + eapply (reads_bind _ _ _ (λ _, True)); [reads|]. intros _ _.
      eapply (reads_bind _ _ _ (λ _, True)); [reads|]. intros scanned _.
      eapply (reads_bind _ _ _ (λ _, True)); [reads|]. intros _ _.
      eapply reads_weaken; [apply IH|]. simpl. intros r. by rewrite <- app_assoc.
Qed.
Lemma reads_read_dir_names d max_entries :
  real_dir fs d →
  reads fs (read_dir_bounded self d max_entries)
    (λ r, (∀ name, name ∈ r.1 → name ∈ children fs d) ∧
          (r.2 = false → ∀ name, name ∈ children fs d → name ∈ r.1)).
Proof.
  intros Hd. unfold read_dir_bounded.
  eapply reads_bind; [by apply reads_on_world, reads_io, reads_os_read_dir|]. intros names ->.
  eapply (reads_bind _ _ _ (λ _, True)); [reads|]. intros scanned _.
  case_match; [apply reads_ret; simpl; split; [set_solver|done]|].
  apply reads_read_entries_names.
Qed.
Lemma reads_has_entry_names d max_entries :
  real_dir fs d →
  reads fs (directory_has_entry_with_budget self d max_entries) (λ b, b = false → children fs d = []).
Proof.
  intros Hd. unfold directory_has_entry_with_budget.
  eapply reads_bind; [apply reads_cancelled_local|]. intros c _.
  eapply reads_bind; [apply reads_ensure|]. intros _ _.
  eapply (reads_bind _ _ _ (λ _, True)); [reads|]. intros scanned _.
  case_match; [by apply reads_ret|].
  eapply reads_bind; [by apply reads_on_world, reads_io, reads_os_read_dir|]. intros names ->.
  eapply (reads_bind _ _ _ (λ _, True)); [reads|]. intros _ _.
  destruct (children fs d); [by apply reads_ret|].
  eapply (reads_bind _ _ _ (λ _, True)); [reads|]. intros _ _. by apply reads_ret.
Qed.
End walk.

(** ** The walk *)

(** Below every object are only names. *)
Definition proper (fs : Fs) : Prop :=
  tree fs ∧ ∀ p q c, dos_path p = true → is_Some (fs !! (p ++ q)) → c ∈ q → ∃ name, c = Normal name.

Section tree_walk.
Context `{Windows} `{Faults} `{Encodings} `{Installation}.
Variables (self : FilesystemService) (fs : Fs) (max_entries : N) (report : bool).
Hypothesis Hproper : proper fs.

(** Within the levels of a walk; one that reports an overflow covers every depth. *)
Definition in_reach (levels : nat) (d p : Path) : Prop :=
  report = true ∨ (length p ≤ length d + levels)%nat.
Definition covers (levels : nat) (d : Path) (s : WalkState) : Prop :=
  ∀ p n, is_below d p = true → in_reach levels d p → fs !! p = Some n →
    ∃ e, e ∈ wk_entries s ∧ reported self fs e p n.
(** The child of that name, and what is below it. *)
Definition covers_child (levels : nat) (d : Path) (name : ustr) (s : WalkState) : Prop :=
  ∀ p n, path_starts_with (join_name d name) p = true → in_reach (S levels) d p → fs !! p = Some n →
    ∃ e, e ∈ wk_entries s ∧ reported self fs e p n.

Lemma covers_child_extends levels levels' d d' name s s' :
  covers_child levels d name s → extends self fs levels' d' s s' → covers_child levels d name s'.
Proof.
  intros Hc He p n Hp Hr Hn. destruct (Hc p n Hp Hr Hn) as (e & Hin & Hrep).
  exists e. split; [by eapply extends_elem|done].
Qed.

Lemma below_child d p n :
  real_dir fs d → is_below d p = true → fs !! p = Some n →
  ∃ name, path_starts_with (join_name d name) p = true ∧ name ∈ children fs d.
Proof.
  intros [Hd _] Hb Hn. destruct Hproper as [Ht Hnames]. unfold is_below in Hb.
  apply andb_true_iff in Hb as [Hs Hne]. apply path_starts_with_spec in Hs as [q ->].
  destruct q as [|c q]; [by rewrite app_nil_r, bool_decide_eq_true_2 in Hne|].
  destruct (Hnames d (c :: q) c Hd ltac:(eauto) ltac:(left)) as [name ->]. exists name. split.
  - apply path_starts_with_spec. exists q. unfold join_name. by rewrite <- app_assoc.
  - apply children_spec. unfold join_name. destruct q as [|c' q]; [eauto|].
    destruct (Ht (d ++ [Normal name]) (d ++ Normal name :: c' :: q)) as (m & Hm & _); [..|by eauto|by eauto].
    + by destruct d as [|[[]| | | |] [|[] ?]].
    + replace (d ++ Normal name :: c' :: q) with ((d ++ [Normal name]) ++ c' :: q) by by rewrite <- app_assoc.
      unfold is_below. rewrite (proj2 (path_starts_with_spec _ _)) by eauto. simpl.
      apply negb_true_iff, bool_decide_eq_false. intros He. apply (f_equal length) in He.
      rewrite !length_app in He. simpl in He. lia.
Qed.
Lemma covers_all levels d s :
  real_dir fs d → (∀ name, name ∈ children fs d → covers_child levels d name s) →
  covers (S levels) d s.
Proof.
  intros Hd Hc p n Hb Hr Hn. destruct (below_child d p n Hd Hb Hn) as (name & Hp & Hname).
  by eapply Hc.
Qed.

Abbreviation walks := (walks fs).
Abbreviation extends := (extends self fs).

Lemma walks_names levels d f names s :
  (∀ name s, name ∈ names →
     walks s (f name) (λ _ s', extends (S levels) d s s' ∧ (wk_truncated s' = false → covers_child levels d name s'))
       (extends (S levels) d s)) →
  walks s (for_each f names)
    (λ _ s', extends (S levels) d s s' ∧ (wk_truncated s' = false → ∀ name, name ∈ names → covers_child levels d name s'))
    (extends (S levels) d s).
Proof.
  revert s. induction names as [|name names IH]; intros s Hf; simpl.
  { apply walks_ret. split; [done|]. set_solver. }
  eapply walks_bind; [apply Hf; left|]. simpl. intros _ s1 [He1 Hc1].
  eapply walks_weaken; [apply IH; intros; apply Hf; by right|..]; simpl.
  - intros _ s2 [He2 Hc2]. split; [by etrans|]. intros Ht name' [->|Hin]%elem_of_cons; [|by apply Hc2].
    eapply covers_child_extends; [apply Hc1|exact He2].
    apply not_true_is_false. intros Ht1. apply He2 in Ht1. congruence.
  - intros s2 He2. by etrans.
Qed.

(** The object a child's handle names, and its entry. *)
Lemma child_handle d name vh :
  real_dir fs d → name ∈ children fs d →
  validated (svc_authority self) fs false (join_name d name) vh →
  vh_handle vh = join_name d name ∧ vh_final_path vh = join_name d name.
Proof.
  intros Hd Hname%children_spec Hv. rewrite (vd_final _ _ _ _ _ Hv).
  pose proof (vd_opens _ _ _ _ _ Hv) as Ho.
  rewrite (opens_final fs) in Ho; [by simplify_eq|done|by eapply real_dir_child].
Qed.
Lemma extends_push levels d s e p n :
  is_below d p = true → (length p ≤ length d + levels)%nat → reported self fs e p n →
  extends levels d s (s <| wk_entries ::= (.++ [e]) |>).
Proof. intros Hb Hl Hr. split; [done|]. exists [e]. split; [done|]. constructor; [by eauto 6|constructor]. Qed.
Lemma file_covers_child levels d name n s e :
  real_dir fs d → fs !! join_name d name = Some n → node_is_dir n = false → nd_reparse n = false →
  e ∈ wk_entries s → reported self fs e (join_name d name) n → covers_child levels d name s.
Proof.
  intros Hd Hn Hdir Hr He Hrep p m Hp _ Hm.
  destruct (decide (p = join_name d name)) as [->|Hne]; [simplify_eq; eauto|].
  assert (fs !! p = None); [|congruence]. eapply tree_below; [apply Hproper|by eapply real_dir_child|exact Hn|..].
  - unfold node_is_dir, nd_symlink in Hdir. rewrite Hr in Hdir. simpl in Hdir. by rewrite andb_true_r in Hdir.
  - unfold is_below. rewrite Hp. by rewrite bool_decide_eq_false_2.
Qed.
Lemma dir_covers_child levels d name n s e :
  fs !! join_name d name = Some n → covers levels (join_name d name) s →
  e ∈ wk_entries s → reported self fs e (join_name d name) n → covers_child levels d name s.
Proof.
  intros Hn Hc He Hrep p m Hp Hr Hm.
  destruct (decide (p = join_name d name)) as [->|Hne]; [simplify_eq; eauto|].
  apply (Hc p m); [unfold is_below; rewrite Hp; by rewrite bool_decide_eq_false_2| |done].
  destruct Hr as [?|Hl]; [by left|right]. unfold join_name. rewrite length_app. simpl. lia.
Qed.

Definition walk_post (levels : nat) (d : Path) (s s' : WalkState) : Prop :=
  extends levels d s s' ∧ (wk_truncated s' = false → covers levels d s').

Lemma walk_child levels d name s :
  real_dir fs d → name ∈ children fs d →
  (∀ d s, real_dir fs d →
    walks s (walk_windows_directory self max_entries report levels d)
      (λ _, walk_post levels d s) (extends levels d s)) →
  walks s
    (_ ← walk_world (check_cancelled self);
     let path := join_name d name in
     metadata ← try (walk_world (io (os_symlink_metadata path)));
     match metadata with
     | Err _ => walk_truncated
     | Ok metadata =>
         if nd_reparse metadata then walk_truncated else
         child_handle ← try (walk_world (checked (open_validated_handle (svc_authority self) path)));
         match child_handle with
         | Err _ => walk_truncated
         | Ok child_handle =>
             let stable_path := vh_final_path child_handle in
             metadata ← walk_world (io (os_node (vh_handle child_handle)));
             path ← walk_world (display self stable_path);
             _ ← walk_push (MkFilesystemEntry path (metadata_kind metadata) (node_len metadata)
                              (nd_modified metadata));
             if node_is_dir metadata then
               below ← try (walk_windows_directory self max_entries report levels stable_path);
               match below with
               | Ok _ => mret ()
               | Err FsCancelled => throw FsCancelled
               | Err _ => walk_truncated
               end
             else mret ()
         end
     end)
    (λ _ s', extends (S levels) d s s' ∧ (wk_truncated s' = false → covers_child levels d name s'))
    (extends (S levels) d s).
Proof.
  intros Hd Hname IH.
  assert (Htrunc : ∀ s', extends (S levels) d s s' → walks s' walk_truncated
    (λ _ s', extends (S levels) d s s' ∧ (wk_truncated s' = false → covers_child levels d name s')) (extends (S levels) d s)).
  { intros s' He. eapply walks_weaken; [apply (walks_truncated _ _ (extends (S levels) d s))| |done].
    intros _ s2 [H1' Ht]. split; [etrans; [exact He|by apply extends_truncated]|congruence]. }
  eapply walks_bind; [by apply walks_world; [apply reads_check_cancelled|]|]. intros _ s0 [-> _].
  eapply walks_bind; [eapply (walks_try _ _ _ _ (λ s', s' = s)), (walks_world _ _ _ (λ _, True)); [reads|done]|].
  intros [metadata|e0] s0 Hs0; [destruct Hs0 as [-> _]|subst; by apply Htrunc].
  destruct (nd_reparse metadata); [by apply Htrunc|].
  eapply walks_bind; [eapply (walks_try _ _ _ _ (λ s', s' = s)), walks_world; [apply reads_checked, reads_open_handle|done]|].
  intros [vh|e0] s0 Hs0; [destruct Hs0 as [-> Hv]|subst; by apply Htrunc].
  destruct (child_handle _ _ _ Hd Hname Hv) as [Hh Hfinal]. simpl. rewrite Hh, Hfinal.
  eapply walks_bind; [by apply walks_world; [apply reads_io, reads_os_node|]|]. simpl. intros n s0 [-> Hn].
  assert (Hr : nd_reparse n = false).
  { destruct (vd_node _ _ _ _ _ Hv) as (n' & Hn' & Hr & _). rewrite Hh in Hn'. simplify_eq.
    simpl in Hr. by apply negb_true_iff. }
  eapply walks_bind; [by apply walks_world; [apply reads_lift|]|]. simpl. intros path s0 [-> Hpath].
  apply map_err_Ok in Hpath.
  set (e := MkFilesystemEntry path (metadata_kind n) (node_len n) (nd_modified n)).
  assert (Hrep : reported self fs e (join_name d name) n) by by repeat split.
  assert (Hbelow : is_below d (join_name d name) = true) by apply is_below_child, path_starts_with_refl.
  assert (Hlen : length (join_name d name) = S (length d)) by (unfold join_name; rewrite length_app; simpl; lia).
  pose proof (extends_push (S levels) d s e _ n Hbelow ltac:(lia) Hrep) as Hpush.
  eapply (walks_bind _ _ _ _ (λ _ s', s' = s <| wk_entries ::= (.++ [e]) |>)); [by intros w Hw|].
  intros _ s1 ->. assert (Hin : e ∈ wk_entries (s <| wk_entries ::= (.++ [e]) |>)) by (simpl; set_solver).
  destruct (node_is_dir n) eqn:Hdir.
  - assert (Hreal : real_dir fs (join_name d name)) by (split; [by eapply real_dir_child|by eauto]).
    eapply walks_bind; [by eapply walks_try, IH|].
    assert (Hpre : path_starts_with d (join_name d name) = true) by (apply path_starts_with_join, path_starts_with_refl).
    intros [[]|e0] s2 Hs2.
    + destruct Hs2 as [He2 Hc2]. apply walks_ret. split; [etrans; [exact Hpush|by eapply extends_below]|].
      intros Ht. eapply dir_covers_child; [exact Hn|by apply Hc2|by eapply extends_elem|exact Hrep].
    + assert (He : extends (S levels) d s s2) by (etrans; [exact Hpush|by eapply extends_below]).
      destruct e0; by (apply walks_throw || apply Htrunc).
  - apply walks_ret. split; [exact Hpush|]. intros _. by eapply file_covers_child.
Qed.
Lemma walk_directory levels d s :
  real_dir fs d →
  walks s (walk_windows_directory self max_entries report levels d)
    (λ _, walk_post levels d s) (extends levels d s).
Proof.
  revert d s. induction levels as [|levels IH]; intros d s Hd; simpl.
  - eapply walks_bind; [by apply walks_world; [apply reads_check_cancelled|]|]. intros _ s0 [-> _].
    destruct report eqn:Hreport.
    + eapply walks_bind; [apply walks_scan; [by apply reads_has_entry_names|apply extends_counted]|].
      intros [] s1 [Hc Hno].
      * eapply walks_weaken; [eapply (walks_truncated _ _ (extends _ d s))| |done].
        intros _ s2 [He Ht]. split; [|congruence].
        etrans; [by apply extends_counted|by apply extends_truncated].
      * apply walks_ret. split; [by apply extends_counted|]. intros _ p n Hb _ Hn. exfalso.
        destruct (below_child d p n Hd Hb Hn) as (name & _ & Hin). rewrite Hno in Hin by done.
        by apply elem_of_nil in Hin.
    + apply walks_ret. split; [done|]. intros _ p n Hb [?|Hl] _; [congruence|]. exfalso.
      unfold is_below in Hb. apply andb_true_iff in Hb as [Hs Hne].
      apply path_starts_with_spec in Hs as [q ->]. rewrite length_app in Hl.
      destruct q; simpl in Hl; [|lia]. by rewrite app_nil_r, bool_decide_eq_true_2 in Hne.
  - eapply walks_bind; [by apply walks_world; [apply reads_check_cancelled|]|]. intros _ s0 [-> _].
    eapply walks_bind; [apply walks_scan; [by apply reads_read_dir_names|apply extends_counted]|].
    intros [names overflow] s1 [Hcount [Hsub Hall]]. simpl in Hsub, Hall.
    pose proof (extends_counted self fs (S levels) d _ _ Hcount) as He1.
    eapply walks_bind.
    + eapply walks_weaken; [apply (walks_names levels d)|intros a s' Ha; exact Ha|].
      * intros name s' Hin. apply walk_child; [done|by apply Hsub|exact IH].
      * intros s2 He2. by etrans.
    + simpl. intros _ s2 [He2 Hc2]. assert (He : extends (S levels) d s s2) by by etrans.
      destruct overflow.
      * eapply walks_weaken; [eapply (walks_truncated _ _ (extends _ d s))| |done].
        intros _ s3 [Hs Ht]. split; [etrans; [exact He|by apply extends_truncated]|congruence].
      * apply walks_ret. split; [exact He|]. intros Ht. apply covers_all; [done|].
        intros name Hname. apply Hc2; [done|]. by apply Hall.
Qed.

Lemma walk_from_root root max_depth :
  reads fs (walk_with_root_pin self root max_depth max_entries false report)
    (λ r, ∃ d, pinned self fs d ∧ opens fs root = Some d ∧
       (∀ e, e ∈ fl_entries r → ∃ p n, is_below d p = true ∧
          (length p ≤ length d + N.to_nat max_depth)%nat ∧ reported self fs e p n) ∧
       (fl_truncated r = false → ∀ p n, is_below d p = true → in_reach (N.to_nat max_depth) d p →
          fs !! p = Some n → ∃ e, e ∈ fl_entries r ∧ reported self fs e p n)).
Proof.
  unfold walk_with_root_pin.
  eapply reads_bind; [apply reads_check_cancelled|]. intros _ _.
  eapply reads_bind; [apply reads_open_directory_chain|]. intros d [Hd Hopens].
  eapply (reads_bind _ _ _ (λ r, walk_post (N.to_nat max_depth) d (MkWalkState [] 0 false) r.1)).
  - intros w Hw. pose proof (walk_directory (N.to_nat max_depth) d (MkWalkState [] 0 false) (proj1 Hd) w Hw) as Hr.
    unfold with_local. destruct (walk_windows_directory _ _ _ _ _ _) as [[w' s'] [[]|e]]; [exact Hr|apply Hr].
  - intros [s []] [He Hc]. apply reads_ret. exists d. split; [exact Hd|]. split; [exact Hopens|]. simpl.
    destruct He as [_ (found & Hfound & Hall)]. simpl in Hfound. split.
    + intros e. rewrite sort_by_perm, Hfound. intros He. by apply (proj1 (Forall_forall _ _) Hall).
    + intros Ht p n Hb Hr Hn. destruct (Hc Ht p n Hb Hr Hn) as (e & He & Hrep).
      exists e. by rewrite sort_by_perm.
Qed.
End tree_walk.

Section listing.
Context `{Windows} `{Faults} `{Encodings} `{Installation}.

(** C10 (functional): a listing is of the directory the path names, through links.
    Every entry is an object below it that is no link - one of its children, when the
    listing is not recursive - with its own path, kind, size and time; and a
    listing that is not marked as truncated has all of them: everything below the
    directory when it is recursive, its children otherwise. *)
Theorem listing_is_exact self path recursive max_depth max_entries w :
  proper (w_fs w) →
  let fs := w_fs w in
  match list_directory self path recursive max_depth max_entries w with
  | (w', Ok r) => w_fs w' = fs ∧ ∃ d, names_object self fs path d ∧ pinned self fs d ∧
      (∀ e, e ∈ fl_entries r → ∃ p n, is_below d p = true ∧
         (recursive = true ∨ (length p ≤ length d + 1)%nat) ∧ reported self fs e p n) ∧
      (fl_truncated r = false → ∀ p n, is_below d p = true →
         recursive = true ∨ (length p ≤ length d + 1)%nat → fs !! p = Some n →
         ∃ e, e ∈ fl_entries r ∧ reported self fs e p n)
  | (w', Err _) => w_fs w' = fs
  end.
Proof.
  intros Hp fs. assert (Hr : reads fs (list_directory self path recursive max_depth max_entries)
    (λ r, ∃ d, names_object self fs path d ∧ pinned self fs d ∧
      (∀ e, e ∈ fl_entries r → ∃ p n, is_below d p = true ∧
         (recursive = true ∨ (length p ≤ length d + 1)%nat) ∧ reported self fs e p n) ∧
      (fl_truncated r = false → ∀ p n, is_below d p = true →
         recursive = true ∨ (length p ≤ length d + 1)%nat → fs !! p = Some n →
         ∃ e, e ∈ fl_entries r ∧ reported self fs e p n))).
  - unfold list_directory, walk. do 2 (eapply (reads_bind _ _ _ (λ _, True)); [reads|]; intros ? _).
    eapply reads_bind; [apply reads_checked, reads_resolve_names|]. intros root (Hnames & Hdos & Hroot).
    do 4 (eapply (reads_bind _ _ _ (λ _, True)); [reads|]; intros ? _).
    destruct recursive; (eapply reads_weaken; [by eapply walk_from_root|]);
      intros r (d & Hd & Ho & Hs & Hc); rewrite (opens_final _ _ Hroot Hdos) in Ho; injection Ho as <-;
      exists root; (split; [exact Hnames|]); (split; [exact Hd|]); split.
    + intros e (p & n & ? & _ & ?)%Hs. eauto 6.
    + intros Ht q n Hb _ Hn. apply (Hc Ht q n Hb); [by left|exact Hn].
    + intros e (p & n & ? & ? & ?)%Hs. eauto 6.
    + intros Ht q n Hb [|Hreach] Hn; [done|]. apply (Hc Ht q n Hb); [by right|exact Hn].
  - specialize (Hr w eq_refl). destruct (list_directory _ _ _ _ _ w) as [w' []]; exact Hr.
Qed.
End listing.

(** A decision for [proper]. *)
Definition is_name (c : Component) : bool := match c with Normal _ => true | _ => false end.
Definition check_proper (fs : Fs) : bool :=
  check_tree fs && forallb (λ p, forallb is_name (drop 2 p)) (map_to_list fs).*1.
Lemma check_proper_proper fs : check_proper fs = true → proper fs.
Proof.
  intros [Ht Hn]%andb_true_iff. split; [by apply check_tree_tree|].
  intros p q c Hd [n Hq] Hc. rewrite forallb_forall in Hn.
  assert (Hin : In (p ++ q) (map_to_list fs).*1).
  { apply list_elem_of_In, list_elem_of_fmap. exists (p ++ q, n). split; [done|]. by apply elem_of_map_to_list. }
  specialize (Hn _ Hin). rewrite forallb_forall in Hn. specialize (Hn c).
  assert (is_name c = true) as Hname; [|destruct c; try done; by eauto].
  apply Hn, list_elem_of_In. destruct p as [|a [|b p]]; [by destruct q|by destruct a as [[]| | | |]|].
  simpl. apply elem_of_app. by right.
Qed.

Lemma listing_is_exact_witness :
  let _ := plain_windows in let _ := failing [] in let _ := plain_encodings in
  let _ := plain_installation in
  let w := example_world in
  match list_directory example_service (lit "src") true 4 100 w with
  | (w', Ok r) => w_fs w' = w_fs w ∧ ∃ d, names_object example_service (w_fs w) (lit "src") d ∧
      pinned example_service (w_fs w) d ∧
      (∀ e, e ∈ fl_entries r → ∃ p n, is_below d p = true ∧
         (true = true ∨ (length p ≤ length d + 1)%nat) ∧ reported example_service (w_fs w) e p n) ∧
      (fl_truncated r = false → ∀ p n, is_below d p = true →
         true = true ∨ (length p ≤ length d + 1)%nat → w_fs w !! p = Some n →
         ∃ e, e ∈ fl_entries r ∧ reported example_service (w_fs w) e p n)
  | (w', Err _) => w_fs w' = w_fs w
  end.
Proof.
  intros ? ? ? ? w. assert (Hp : proper (w_fs w)) by (apply check_proper_proper; vm_compute; reflexivity).
  clearbody w. exact (listing_is_exact example_service (lit "src") true 4 100 w Hp).
Defined.
