(* ===== verification/FilesystemSearch.v ===== *)
(** * FilesystemSearch: what a search selects and how it matches text

    The wildcard loop ends and decides the usual meaning of [*] and [?]; a search
    answers the selected entries in the requested order; and the matches of a
    content search are the occurrences in the lines, cut at the limit. *)

From Stdlib Require Import Sorted.
From S2P Require Import Prelude Text WindowsPath HostFs HostLogic PathAuthority FilesystemService FilesystemFacts FilesystemWalk HostExamples.
#[local] Open Scope N_scope.

(** ** Wildcards *)

Definition STAR : N := 0x2A.
Definition QUESTION : N := 0x3F.

(** The meaning of a pattern. *)
Inductive glob : bytes → bytes → Prop :=
  | glob_nil : glob [] []
  | glob_star p v k : glob p (drop k v) → glob (STAR :: p) v
  | glob_question p c v : glob p v → glob (QUESTION :: p) (c :: v)
  | glob_same p c v : c ≠ STAR → c ≠ QUESTION → glob p v → glob (c :: p) (c :: v).

(** Characters of a pattern that match one character. *)
Definition one (a c : N) : Prop := a ≠ STAR ∧ (a = QUESTION ∨ a = c).

Lemma glob_one p v a c : one a c → glob p v → glob (a :: p) (c :: v).
Proof.
  intros [Ha [->| ->]] Hg; [by constructor|]. destruct (decide (c = QUESTION)) as [->|]; by constructor.
Qed.
Lemma glob_one_inv p v a : a ≠ STAR → glob (a :: p) v → ∃ c v', v = c :: v' ∧ one a c ∧ glob p v'.
Proof.
  intros Ha Hg. inversion Hg; subst; [done|..]; eexists _, _; split_and!; try done; split; auto.
Qed.
Lemma glob_seg seg part p v : Forall2 one seg part → glob p v → glob (seg ++ p) (part ++ v).
Proof. induction 1; simpl; auto using glob_one. Qed.
Lemma glob_seg_inv seg part p v :
  Forall2 one seg part → glob (seg ++ p) v → ∃ v1 v2, v = v1 ++ v2 ∧ length v1 = length seg ∧ glob p v2.
Proof.
  intros Hs. revert v. induction Hs as [|a c seg part Ha Hs IH]; intros v Hg; simpl in *.
  - by exists [], v.
  - apply glob_one_inv in Hg as (c' & v' & -> & _ & Hg); [|apply Ha].
    destruct (IH _ Hg) as (v1 & v2 & -> & Hl & Hg'). exists (c' :: v1), v2. simpl. auto.
Qed.
Lemma glob_star_inv p v : glob (STAR :: p) v ↔ ∃ k, glob p (drop k v).
Proof. split; [|intros [k ?]; by econstructor]. inversion 1; subst; [eauto|done..]. Qed.
Lemma glob_empty p : glob p [] ↔ p = replicate (length p) STAR.
Proof.
  split.
  - remember [] as v. induction 1; simplify_eq/=; [done|]. f_equal. apply IHglob. by destruct k.
  - intros ->. induction (length p) as [|n IH]; simpl; [apply glob_nil|]. by apply (glob_star _ _ 0).
Qed.
Lemma glob_nil_inv v : glob [] v → v = [].
Proof. by inversion 1. Qed.

Section loop.
Variables (pattern value : bytes).
Hypothesis Hvalue : STAR ∉ value.

(** What remains to be decided in a state of the loop: without a star, the rest
    of both; with one, whether what follows it matches from the checkpoint on,
    where the part tried so far does match. *)
Definition pending (p v : nat) (star : option nat) (k : nat) : Prop :=
  match star with
  | None => glob pattern value ↔ glob (drop p pattern) (drop v value)
  | Some s =>
      (k ≤ v)%nat ∧
      (∃ seg part, drop (S s) pattern = seg ++ drop p pattern ∧ drop k value = part ++ drop v value ∧
         Forall2 one seg part ∧ length part = (v - k)%nat) ∧
      (glob pattern value ↔ ∃ j, (k ≤ j)%nat ∧ glob (drop (S s) pattern) (drop j value))
  end.

Lemma drop_tail {A} (l : list A) n x : l !! n = Some x → drop n l = x :: drop (S n) l.
Proof. apply drop_S. Qed.

Lemma pending_one p v star k a c :
  pattern !! p = Some a → value !! v = Some c → one a c →
  pending p v star k → pending (S p) (S v) star k.
Proof.
  intros Ha Hc Hone. destruct star as [s|]; simpl.
  - intros (Hk & (seg & part & Hseg & Hpart & Hm & Hlen) & Hg). split; [lia|]. split; [|exact Hg].
    exists (seg ++ [a]), (part ++ [c]).
    rewrite (drop_tail _ _ _ Ha) in Hseg. rewrite (drop_tail _ _ _ Hc) in Hpart.
    rewrite <- !app_assoc. simpl. repeat split; [done..|by apply Forall2_app; [|constructor]|].
    rewrite length_app. simpl. lia.
  - intros ->. rewrite (drop_tail _ _ _ Ha), (drop_tail _ _ _ Hc). split; [|by apply glob_one].
    intros (c' & v' & [= <- <-] & _ & Hg)%glob_one_inv; [done|apply Hone].
Qed.
Lemma pending_star p v star k :
  (v ≤ length value)%nat → pattern !! p = Some STAR →
  pending p v star k → pending (S p) v (Some p) v.
Proof.
  intros Hv Ha Hp. simpl. split; [done|]. split.
  { exists [], []. simpl. rewrite Nat.sub_diag. repeat split; constructor. }
  destruct star as [s|]; simpl in Hp.
  - destruct Hp as (Hk & (seg & part & Hseg & Hpart & Hm & Hlen) & ->).
    rewrite Hseg, (drop_tail _ _ _ Ha). split.
    + intros (j & Hj & Hg). apply (glob_seg_inv _ part) in Hg as (v1 & v2 & Hv12 & Hl & Hg); [|done].
      apply glob_star_inv in Hg as [i Hg].
      assert (Hv2 : v2 = drop (j + length v1) value).
      { rewrite <- drop_drop, Hv12. by rewrite drop_app_length. }
      exists (j + length v1 + i)%nat. split.
      * rewrite Hl, (Forall2_length _ _ _ Hm). lia.
      * by rewrite <- drop_drop, <- Hv2.
    + intros (j & Hj & Hg). exists k. split; [done|]. rewrite Hpart. apply glob_seg; [done|].
      apply glob_star_inv. exists (j - v)%nat. rewrite drop_drop. by replace (v + (j - v))%nat with j by lia.
  - rewrite Hp, (drop_tail _ _ _ Ha), glob_star_inv. split.
    + intros [i Hg]. exists (v + i)%nat. split; [lia|]. by rewrite <- drop_drop.
    + intros (j & Hj & Hg). exists (j - v)%nat. rewrite drop_drop. by replace (v + (j - v))%nat with j by lia.
Qed.
Lemma pending_retry p v s k c :
  value !! v = Some c → (∀ a, pattern !! p = Some a → a ≠ STAR ∧ ¬ one a c) →
  pending p v (Some s) k → pending (S s) (S k) (Some s) (S k).
Proof.
  intros Hc Ha (Hk & (seg & part & Hseg & Hpart & Hm & Hlen) & Hg). simpl. split; [done|]. split.
  { exists [], []. simpl. rewrite Nat.sub_diag. repeat split; constructor. }
  rewrite Hg. split; intros (j & Hj & Hj'); exists j; (split; [|done]); [|lia].
  destruct (decide (j = k)) as [->|]; [|lia]. exfalso.
  rewrite Hseg in Hj'. pose proof (glob_seg_inv seg part _ _ Hm Hj') as (v1 & v2 & Hv12 & Hl & Hg').
  rewrite Hpart in Hv12. apply app_inj_1 in Hv12 as [_ <-];
    [|by rewrite Hl; symmetry; eapply Forall2_length].
  rewrite (drop_tail _ _ _ Hc) in Hg'. destruct (pattern !! p) as [a|] eqn:Hp.
  - rewrite (drop_tail _ _ _ Hp) in Hg'. destruct (Ha a eq_refl) as [Hs Hn].
    apply glob_one_inv in Hg' as (c' & v' & [= <- <-] & Hone & _); [|done]. by apply Hn.
  - rewrite drop_ge in Hg' by by apply lookup_ge_None. by apply glob_nil_inv in Hg'.
Qed.
Lemma pending_end p v star k :
  (length value ≤ v)%nat → pending p v star k →
  glob pattern value ↔ drop p pattern = replicate (length pattern - p) STAR.
Proof.
  intros Hv Hp. rewrite <- length_drop, <- glob_empty. destruct star as [s|]; simpl in Hp.
  - destruct Hp as (Hk & (seg & part & Hseg & Hpart & Hm & Hlen) & ->).
    rewrite (drop_ge value v), app_nil_r in Hpart by done. split.
    + intros (j & Hj & Hg). rewrite Hseg in Hg.
      apply (glob_seg_inv _ part) in Hg as (v1 & v2 & Hv12 & Hl & Hg); [|done].
      assert (v2 = []) as ->; [|done]. apply (f_equal length) in Hv12, Hpart.
      rewrite length_drop, length_app, Hl, (Forall2_length _ _ _ Hm) in Hv12. rewrite length_drop in Hpart.
      apply nil_length_inv. lia.
    + intros Hg. exists k. split; [done|]. rewrite Hseg, Hpart, <- (app_nil_r part). by apply glob_seg.
  - by rewrite Hp, (drop_ge value v) by done.
Qed.
Lemma pending_stuck p v k c :
  value !! v = Some c → (∀ a, pattern !! p = Some a → a ≠ STAR ∧ ¬ one a c) →
  pending p v None k → ¬ glob pattern value.
Proof.
  simpl. intros Hc Ha ->. rewrite (drop_tail _ _ _ Hc). destruct (pattern !! p) as [a|] eqn:Hp.
  - rewrite (drop_tail _ _ _ Hp). destruct (Ha a eq_refl) as [Hs Hn].
    intros (c' & v' & [= <- <-] & Hone & _)%glob_one_inv; [|done]. by apply Hn.
  - rewrite drop_ge by by apply lookup_ge_None. by intros ?%glob_nil_inv.
Qed.

Lemma wildcard_loop_correct fuel p v star k b :
  (v ≤ length value)%nat → pending p v star k →
  wildcard_loop fuel pattern value p v star k = Some b → b = true ↔ glob pattern value.
Proof.
  revert p v star k. induction fuel as [|fuel IH]; intros p v star k Hv Hp Hb; simpl in Hb; [done|].
  destruct (value !! v) as [c|] eqn:Hc.
  - assert (Hlt : (v < length value)%nat) by by eapply lookup_lt_Some.
    assert (Hcs : c ≠ STAR) by (intros ->; apply Hvalue; by eapply list_elem_of_lookup_2).
    case_match eqn:Hmatch.
    + assert (∃ a, pattern !! p = Some a ∧ one a c) as (a & Ha & Hone).
      { apply orb_true_iff in Hmatch as [?%bool_decide_eq_true|?%bool_decide_eq_true];
          eexists; split; try done; split; auto; done. }
      eapply IH; [|by eapply pending_one|exact Hb]. lia.
    + apply orb_false_iff in Hmatch as [Hq%bool_decide_eq_false Hsame%bool_decide_eq_false].
      case_bool_decide as Hstar; [by eapply IH; [..|exact Hb]; [|by eapply pending_star]|].
      assert (Hno : ∀ a, pattern !! p = Some a → a ≠ STAR ∧ ¬ one a c).
      { intros a Ha. split; [intros ->; by apply Hstar|]. intros [_ [->| ->]]; [by apply Hq|by apply Hsame]. }
      destruct star as [s|].
      * eapply IH; [|by eapply pending_retry|exact Hb].
        destruct Hp as (Hk & _). lia.
      * injection Hb as <-. split; [done|]. intros Hg. by eapply pending_stuck in Hg.
  - apply lookup_ge_None in Hc. injection Hb as <-. rewrite bool_decide_eq_true.
    symmetry. by eapply pending_end.
Qed.
End loop.

(** The fuel is enough: every step advances the pattern, or the checkpoint. *)
Lemma wildcard_loop_total pattern value fuel p v star k :
  (p ≤ length pattern)%nat → (v ≤ length value)%nat → (k ≤ v)%nat →
  (∀ s, star = Some s → s < p)%nat →
  ((length value - k) * S (length pattern) + (length pattern - p) < fuel)%nat →
  is_Some (wildcard_loop fuel pattern value p v star k).
Proof.
  revert p v star k. induction fuel as [|fuel IH]; intros p v star k Hp Hv Hk Hs Hf;
    simpl; [by apply Nat.nlt_0_r in Hf|].
  destruct (value !! v) as [c|] eqn:Hc; [|eauto].
  assert (Hlt : (v < length value)%nat) by by eapply lookup_lt_Some.
  case_match eqn:Hmatch.
  - assert (p < length pattern)%nat.
    { apply orb_true_iff in Hmatch as [?%bool_decide_eq_true|?%bool_decide_eq_true]; by eapply lookup_lt_Some. }
    apply IH; [lia..| |lia]. intros s Hs'. specialize (Hs s Hs'). lia.
  - clear Hmatch. case_bool_decide as Hstar.
    + apply lookup_lt_Some in Hstar. apply IH; [lia..| |]; [intros s [= <-]; lia|].
      assert ((length value - v) * S (length pattern) ≤ (length value - k) * S (length pattern))%nat
        by (apply Nat.mul_le_mono_r; lia). lia.
    + destruct star as [s|]; [|eauto]. specialize (Hs s eq_refl).
      apply IH; [lia..| |]; [intros s' [= <-]; lia|].
      replace (length value - k)%nat with (S (length value - S k)) in Hf by lia. simpl in Hf. lia.
Qed.

(** C13 (equivalence): for names without a star, the wildcard loop decides the
    usual meaning of a pattern ([*]: any bytes, [?]: one byte, without case), and
    its fuel is always enough: it answers for every pattern and name. *)
Theorem wildcard_match_correct pattern value :
  let p := utf8_encode (to_ascii_lowercase pattern) in
  let v := utf8_encode (to_ascii_lowercase value) in
  is_Some (wildcard_loop (wildcard_fuel p v) p v 0 0 None 0) ∧
  (STAR ∉ v → wildcard_match pattern value = true ↔ glob p v).
Proof.
  intros p v.
  assert (Htotal : is_Some (wildcard_loop (wildcard_fuel p v) p v 0 0 None 0)).
  { apply wildcard_loop_total; [lia..|done|]. unfold wildcard_fuel. nia. }
  split; [exact Htotal|]. intros Hv. destruct Htotal as [b Hb].
  unfold wildcard_match. fold p v. rewrite Hb. simpl.
  eapply (wildcard_loop_correct p v Hv _ 0 0 None 0); [lia|simpl|exact Hb]. by rewrite !drop_0.
Qed.
Lemma wildcard_match_correct_witness :
  (wildcard_match (lit "*.R?") (lit "Main.rs") = true ↔
   glob (utf8_encode (to_ascii_lowercase (lit "*.R?"))) (utf8_encode (to_ascii_lowercase (lit "Main.rs")))) ∧
  wildcard_match (lit "*.R?") (lit "Main.rs") = true.
Proof. split; [|vm_compute; reflexivity]. apply wildcard_match_correct. by_decision. Defined.

(** A star in the name itself breaks the loop, and [?] is one byte. *)
Lemma wildcard_star_in_value :
  wildcard_match (lit "a*c") (lit "a*bc") = false ∧ wildcard_match [0x3F] [0xE9] = false.
Proof. by vm_compute. Qed.

(** ** Searching by name and size *)

Lemma StronglySorted_snoc {A} (R : A → A → Prop) l x :
  StronglySorted R l → Forall (λ y, R y x) l → StronglySorted R (l ++ [x]).
Proof.
  induction 1 as [|y l Hs IH Hy]; simpl; intros Hx; [by repeat constructor|].
  apply Forall_cons in Hx as [Hyx Hx]. constructor; [by apply IH|]. apply Forall_app. auto.
Qed.
Lemma StronglySorted_rev {A} (R : A → A → Prop) l :
  StronglySorted R l → StronglySorted (λ a b, R b a) (rev l).
Proof.
  induction 1 as [|y l Hs IH Hy]; simpl; [constructor|]. apply StronglySorted_snoc; [done|].
  apply Forall_rev. done.
Qed.
Lemma StronglySorted_app_inv {A} (R : A → A → Prop) l k :
  StronglySorted R (l ++ k) → StronglySorted R l ∧ ∀ a b, a ∈ l → b ∈ k → R a b.
Proof.
  induction l as [|x l IH]; simpl; intros Hs; [split; [constructor|set_solver]|].
  apply StronglySorted_inv in Hs as [Hs Hx]. destruct (IH Hs) as [Hl Hlk].
  apply Forall_app in Hx as [Hxl Hxk]. split; [by constructor|].
  intros a b [->|Ha]%elem_of_cons Hb; [by eapply Forall_forall in Hxk|auto].
Qed.

(** The order a search asks for. *)
Definition key_order (options : FilesystemSearchOptions) (a b : FilesystemEntry) : Prop :=
  if says (so_sort_by options) "size" then fe_size a ≤ fe_size b
  else if says (so_sort_by options) "modified"
  then default 0 (fe_modified_ms a) ≤ default 0 (fe_modified_ms b)
  else ustr_leb (fe_path a) (fe_path b) = true.
Definition in_order (options : FilesystemSearchOptions) (a b : FilesystemEntry) : Prop :=
  if says (so_sort_order options) "desc" then key_order options b a else key_order options a b.

Lemma key_leb_le key a b : key_leb key a b = true → key a ≤ key b.
Proof. unfold key_leb. destruct (N.ltb_spec (key a) (key b)), (N.ltb_spec (key b) (key a)); done || lia. Qed.
Lemma key_leb_ge key a b : key_leb key a b = false → key b ≤ key a.
Proof. unfold key_leb. destruct (N.ltb_spec (key a) (key b)), (N.ltb_spec (key b) (key a)); done || lia. Qed.

Lemma search_order_perm options l : search_order options l ≡ₚ l.
Proof.
  unfold search_order. repeat case_match; rewrite ?reverse_Permutation, <- ?Permutation_rev; apply sort_by_perm.
Qed.
Lemma search_order_sorted options l : StronglySorted (in_order options) (search_order options l).
Proof.
  assert (Hs : StronglySorted (key_order options)
    (if says (so_sort_by options) "size" then sort_by (key_leb fe_size) l
     else if says (so_sort_by options) "modified"
     then sort_by (key_leb (λ e, default 0 (fe_modified_ms e))) l
     else sort_by entry_leb l)).
  { unfold key_order. destruct (says (so_sort_by options) "size"); [|destruct (says (so_sort_by options) "modified")].
    - apply sort_by_sorted; [apply key_leb_le|apply key_leb_ge|intros; lia].
    - apply sort_by_sorted; [apply (key_leb_le (λ e, default 0 (fe_modified_ms e)))
        |apply (key_leb_ge (λ e, default 0 (fe_modified_ms e)))|intros; lia].
    - apply sort_by_sorted; [done|intros a b; apply ustr_leb_total|intros a b c; apply ustr_leb_trans]. }
  unfold search_order, in_order. destruct (says (so_sort_order options) "desc"); [|done].
  by apply StronglySorted_rev.
Qed.

Section searching.
Context `{Windows} `{Faults} `{Encodings} `{Installation}.

(** The entries a search keeps of a listing, and how many it answers. *)
Definition kept (options : FilesystemSearchOptions) (walked : FilesystemListResult) :
    list FilesystemEntry := List.filter (search_keeps options) (fl_entries walked).
Definition search_depth (options : FilesystemSearchOptions) : N :=
  if so_recursive options then so_max_depth options else 1.

(** An answer after a step that only reads. *)
Lemma read_answer {A B} (m : M FilesystemError A) (f : A → M FilesystemError B) P w w' b :
  reads (w_fs w) m P → (m ≫= f) w = (w', Ok b) →
  ∃ w1 a, w_fs w1 = w_fs w ∧ P a ∧ f a w1 = (w', Ok b).
Proof.
  intros Hm Hb. specialize (Hm w eq_refl). cbv [mbind ST_bind] in Hb.
  destruct (m w) as [w1 [a|e]]; [|done]. destruct Hm. by exists w1, a.
Qed.

Lemma search_result self path options w w' r :
  search self path options w = (w', Ok r) →
  ∃ w0 walked, w_fs w0 = w_fs w ∧
    list_directory self path (so_recursive options) (search_depth options) (so_max_entries options) w0
      = (w', Ok walked) ∧
    let limit := N.to_nat (so_max_results options) in
    let entries := search_order options (kept options walked) in
    r = MkFilesystemListResult (take limit entries) (fl_scanned_entries walked)
          (fl_truncated walked || (limit <? length entries)%nat).
Proof.
  unfold search. intros Hr.
  apply (read_answer _ _ (λ _, True)) in Hr as (w1 & _ & F1 & _ & Hr); [|reads].
  apply (read_answer _ _ (λ _, True)) in Hr as (w2 & _ & F2 & _ & Hr); [|reads].
  apply (read_answer _ _ (λ _, True)) in Hr as (w3 & _ & F3 & _ & Hr); [|reads].
  apply (read_answer _ _ (λ _, True)) in Hr as (w4 & _ & F4 & _ & Hr); [|reads].
  cbv [mbind ST_bind] in Hr. exists w4. fold (search_depth options) in Hr.
  destruct (list_directory _ _ _ _ _ w4) as [w5 [walked|]]; [|done].
  exists walked. cbv [mret ST_ret] in Hr. injection Hr as <- <-.
  split; [congruence|]. split; done.
Qed.

(** C17 (functional): a search answers the entries of the listing that match its
    pattern and its filters, in the requested order, and at most as many as asked
    for: what it leaves out comes after everything it answers and is reported as a
    truncation; without one, nothing that matches is missing. *)
Theorem search_answers_best self path options w w' r :
  search self path options w = (w', Ok r) →
  ∃ w0 walked, w_fs w0 = w_fs w ∧
    list_directory self path (so_recursive options) (search_depth options) (so_max_entries options) w0
      = (w', Ok walked) ∧
    N.of_nat (length (fl_entries r)) ≤ so_max_results options ∧
    StronglySorted (in_order options) (fl_entries r) ∧
    ∃ rest, fl_entries r ++ rest ≡ₚ kept options walked ∧
      (∀ a b, a ∈ fl_entries r → b ∈ rest → in_order options a b) ∧
      (fl_truncated r = false → fl_truncated walked = false ∧ rest = []).
Proof.
  intros (w0 & walked & Hfs & Hl & ->)%search_result. exists w0, walked. split; [done|]. split; [done|]. simpl.
  set (limit := N.to_nat (so_max_results options)). set (entries := search_order options (kept options walked)).
  pose proof (search_order_sorted options (kept options walked)) as Hs. fold entries in Hs.
  rewrite <- (take_drop limit entries) in Hs. apply StronglySorted_app_inv in Hs as [Hs Hrest].
  split; [rewrite length_take; unfold limit; lia|]. split; [exact Hs|].
  exists (drop limit entries). rewrite take_drop. split; [apply search_order_perm|]. split; [exact Hrest|].
  intros [Ht Hlen]%orb_false_iff. split; [done|]. apply drop_ge. apply Nat.ltb_ge in Hlen. done.
Qed.
End searching.

Lemma search_answers_best_witness :
  let _ := plain_windows in let _ := failing [] in let _ := plain_encodings in
  let _ := plain_installation in
  let options := MkFilesystemSearchOptions true 4 100 1 (lit "*.txt") None None None None None
    (lit "size") (lit "desc") in
  ∃ w' r, search example_service (lit "src") options example_world = (w', Ok r) ∧
    fe_path <$> fl_entries r = [lit "src/a.txt"] ∧ StronglySorted (in_order options) (fl_entries r).
Proof.
  intros ? ? ? ? options.
  destruct (search example_service (lit "src") options example_world) as [w' r'] eqn:Hs.
  assert (Hok : match search example_service (lit "src") options example_world with
    | (_, Ok r) => bool_decide (fe_path <$> fl_entries r = [lit "src/a.txt"]) | _ => false end = true)
    by (vm_compute; reflexivity).
  rewrite Hs in Hok. destruct r' as [r|]; [|done]. apply bool_decide_eq_true in Hok.
  exists w', r. split; [done|]. split; [done|].
  destruct (search_answers_best example_service (lit "src") options example_world w' r Hs)
    as (? & ? & _ & _ & _ & Hsorted & _). exact Hsorted.
Defined.

(** ** Searching in contents *)

(** [p] occurs in [s] after [k] characters. *)
Definition occurs_at (p s : ustr) (k : nat) : Prop := ∃ u v, s = u ++ p ++ v ∧ length u = k.

Lemma match_indices_sound fuel at_ p s j :
  j ∈ match_indices_from fuel at_ p s → ∃ k, j = (at_ + k)%nat ∧ occurs_at p s k.
Proof.
  revert at_ s. induction fuel as [|fuel IH]; intros at_ s; simpl; [by intros ?%elem_of_nil|].
  destruct (find_sub p s) as [i|] eqn:Hi; [|by intros ?%elem_of_nil].
  apply find_sub_Some in Hi as (u & v & -> & <- & _).
  intros [->|Hj]%elem_of_cons; [exists (length u); split; [done|]; by exists u, v|].
  apply IH in Hj as (k & -> & u' & v' & Hv & <-).
  exists (length u + length p + length u')%nat. split; [lia|]. exists (u ++ p ++ u'), v'.
  rewrite <- drop_drop, drop_app_length, drop_app_length in Hv. subst.
  rewrite <- !app_assoc. split; [done|]. rewrite !length_app. lia.
Qed.
Lemma match_indices_complete fuel at_ p s k :
  p ≠ [] → (length s ≤ fuel)%nat → occurs_at p s k →
  ∃ i, i ∈ match_indices_from fuel at_ p s ∧ (i ≤ at_ + k < i + length p)%nat.
Proof.
  intros Hp. assert (0 < length p)%nat by by destruct p; simpl; [|lia].
  revert at_ s k. induction fuel as [|fuel IH]; intros at_ s k Hf (u & v & -> & <-).
  { rewrite !length_app in Hf. lia. }
  simpl. destruct (find_sub p (u ++ p ++ v)) as [i|] eqn:Hi; [|by eapply find_sub_None in Hi].
  apply find_sub_Some in Hi as (u1 & v1 & Hs & <- & Hmin).
  pose proof (Hmin u v eq_refl) as Hle.
  destruct (decide (length u < length u1 + length p)%nat) as [Hlt|Hge].
  - exists (at_ + length u1)%nat. split; [left|lia].
  - rewrite Hs, <- drop_drop, drop_app_length, drop_app_length.
    assert (Hocc : occurs_at p v1 (length u - (length u1 + length p))).
    { exists (drop (length u1 + length p) u), v. rewrite length_drop. split; [|done].
      apply (f_equal (drop (length u1 + length p))) in Hs.
      rewrite drop_app_le in Hs by lia. rewrite Hs, <- drop_drop, drop_app_length. by rewrite drop_app_length. }
    destruct (IH (at_ + length u1 + length p)%nat v1 _ ltac:(apply (f_equal length) in Hs; rewrite !length_app in *; lia) Hocc)
      as (i & Hin & Hbounds).
    exists i. split; [by right|lia].
Qed.

(** All the matches of a text, and the first of them. *)
Definition all_matches (path text pattern : ustr) (case_sensitive : bool)
    `{Unicode} : list FilesystemContentMatch :=
  let needle := if case_sensitive then pattern else to_lowercase pattern in
  concat (imap (line_matches path needle case_sensitive) (lines text)).

Lemma push_matches_take max found matches :
  (length matches < max)%nat →
  push_matches max found matches =
    (take max (matches ++ found), bool_decide (max ≤ length (matches ++ found))%nat).
Proof.
  revert matches. induction found as [|m found IH]; intros matches Hl; simpl.
  - rewrite app_nil_r, take_ge by lia. by rewrite bool_decide_eq_false_2 by lia.
  - rewrite length_app. simpl. destruct (Nat.eqb_spec (length matches + 1) max) as [<-|Hne].
    + rewrite bool_decide_eq_true_2 by (rewrite length_app; simpl; lia). f_equal.
      rewrite (cons_middle m matches found), app_assoc, take_app_length'; [done|]. by rewrite length_app.
    + rewrite IH by (rewrite length_app; simpl; lia). by rewrite <- app_assoc.
Qed.
Lemma collect_lines_take `{Unicode} path needle cs max index ls matches :
  (length matches < max)%nat →
  collect_lines path needle cs max index ls matches =
    take max (matches ++ concat (imap (λ i, line_matches path needle cs (index + i)) ls)).
Proof.
  revert index matches. induction ls as [|l ls IH]; intros index matches Hl; simpl.
  - by rewrite app_nil_r, take_ge by lia.
  - rewrite push_matches_take by done. rewrite Nat.add_0_r.
    replace (imap ((λ i, line_matches path needle cs (index + i)) ∘ S) ls)
      with (imap (λ i, line_matches path needle cs (S index + i)) ls).
    2:{ apply imap_ext. intros i x _. simpl. by rewrite Nat.add_succ_r. }
    case_bool_decide as Hmax; rewrite app_assoc.
    + by rewrite (take_app_le (matches ++ _)) by lia.
    + rewrite (take_ge (matches ++ _)) by lia. apply IH. lia.
Qed.

(** The matches of a file in a content search are the first of
    all its matches, up to the limit.  A match is an occurrence of the pattern in
    the line it names, at the column it names, with the beginning of that line; and
    every occurrence is a match, or overlaps the one reported before it. *)
Theorem content_matches_exact `{Unicode} path text pattern (case_sensitive : bool) max matches :
  let needle := if case_sensitive then pattern else to_lowercase pattern in
  let searchable line := if case_sensitive then line else to_lowercase line in
  let found := all_matches path text pattern case_sensitive in
  (length matches < max)%nat → needle ≠ [] →
  collect_content_matches matches path text pattern case_sensitive max = take max (matches ++ found) ∧
  (∀ m, m ∈ found → ∃ i raw k, lines text !! i = Some raw ∧
     m = MkFilesystemContentMatch path (N.of_nat (S i)) (N.of_nat (S k)) (take 512 (strip_cr raw)) ∧
     occurs_at needle (searchable (strip_cr raw)) k) ∧
  (∀ i raw k, lines text !! i = Some raw → occurs_at needle (searchable (strip_cr raw)) k →
     ∃ k', MkFilesystemContentMatch path (N.of_nat (S i)) (N.of_nat (S k')) (take 512 (strip_cr raw)) ∈ found ∧
       (k' ≤ k < k' + length needle)%nat).
Proof.
  intros needle searchable found Hlen Hneedle.
  assert (Hfound : ∀ m, m ∈ found ↔ ∃ i raw, lines text !! i = Some raw ∧
    m ∈ line_matches path needle case_sensitive i raw).
  { intros m. unfold found, all_matches. rewrite list_elem_of_In, in_concat. split.
    - intros (l & Hl%list_elem_of_In & Hm%list_elem_of_In). apply elem_of_lookup_imap in Hl as (i & raw & -> & Hi). eauto.
    - intros (i & raw & Hi & Hm). exists (line_matches path needle case_sensitive i raw).
      rewrite <- !list_elem_of_In. split; [|done]. apply elem_of_lookup_imap. eauto. }
  split; [|split].
  - unfold collect_content_matches. fold needle. by rewrite collect_lines_take.
  - intros m (i & raw & Hi & Hm)%Hfound. unfold line_matches in Hm.
    apply list_elem_of_fmap in Hm as (k & -> & Hk). exists i, raw, k. split; [done|]. split; [done|].
    apply match_indices_sound in Hk as (k' & -> & Hocc). exact Hocc.
  - intros i raw k Hi Hocc.
    destruct (match_indices_complete (length (searchable (strip_cr raw))) 0 needle _ k Hneedle (le_n _) Hocc)
      as (k' & Hin & Hle).
    exists k'. split; [|exact Hle]. apply Hfound. exists i, raw. split; [done|].
    apply list_elem_of_fmap. by exists k'.
Qed.
Lemma content_matches_exact_witness :
  let _ := ascii_unicode in
  collect_content_matches [] (lit "a.txt") (lit "one ONE") (lit "One") false 1 =
    take 1 ([] ++ all_matches (lit "a.txt") (lit "one ONE") (lit "One") false) ∧
  length (all_matches (lit "a.txt") (lit "one ONE") (lit "One") false) = 2%nat.
Proof.
  intros ?. split; [|by vm_compute].
  destruct (content_matches_exact (lit "a.txt") (lit "one ONE") (lit "One") false 1 []) as [He _];
    [simpl; lia|done|exact He].
Defined.
