(* ===== verification/FilesystemExamples.v ===== *)
(** * FilesystemExamples: runs that show where the file service falls short

    Executions of the model on a concrete host.  Each shows a behaviour of the code
    that its own checks, or a failure message, promise to exclude. *)

From S2P Require Import Prelude Text WindowsPath HostFs PathAuthority FilesystemService HostExamples.
#[local] Open Scope N_scope.

#[local] Existing Instances plain_windows plain_encodings plain_installation.

(** An installation, with an audit log that has a second name. *)
Definition installed_fs : Fs := list_to_map [
  (path_of "C:\", new_dir None);
  (path_of "C:\Program Files", new_dir None);
  (path_of "C:\Program Files\LocalBridge", new_dir None);
  (path_of "C:\Program Files\LocalBridge\localbridge.exe", new_file (lit "program") None);
  (path_of "C:\Program Files\LocalBridge\helper.dll", new_file (lit "library") None);
  (path_of "C:\ProgramData", new_dir None);
  (path_of "C:\ProgramData\LocalBridge", new_dir None);
  (path_of "C:\ProgramData\LocalBridge\audit.log", MkNode false false false (lit "entries") None 2)
].
Definition installed : World := MkWorld installed_fs 0 0.
Definition content_at (w : World) (path : string) : option bytes :=
  nd_content <$> w_fs w !! path_of path.

(** [canonicalize] answers a verbatim path and the path of a handle is an ordinary
    one, so no component-wise comparison finds the first in the second: the
    directory of the executable is not recognized, and an administrator's write
    replaces a library beside it. *)
Lemma installation_is_not_protected :
  let _ := failing [] in
  let file := "C:\Program Files\LocalBridge\helper.dll"%string in
  (final_path_targets_localbridge_control_plane (path_of file) installed).2 = Ok false ∧
  let '(w, r) := write service_broker_administrator (lit file) (lit "other") true installed in
  is_ok r = true ∧ content_at w file = Some (lit "other").
Proof. by vm_compute. Qed.

(** The edits with a hash never ask whether the administrator may change the file:
    one with a second name is overwritten, which every other mutation refuses. *)
Lemma administrator_edit_skips_checks :
  let _ := failing [] in
  let file := "C:\ProgramData\LocalBridge\audit.log"%string in
  (let '(w, r) := replace_file_if_sha256 service_broker_administrator (lit file)
                    (sha256_hex (lit "entries")) (lit "other") installed in
   is_ok r = true ∧ content_at w file = Some (lit "other")) ∧
  (write service_broker_administrator (lit file) (lit "other") true installed).2 = Err FsOutsideAuthority.
Proof. by vm_compute. Qed.

(** A copy compares hashes after the new file is in place: a failure there is
    reported as the failure of the copy, and the file it replaced is lost. *)
Lemma failed_copy_has_replaced :
  let _ := failing [106%nat] in
  let '(w, r) := copy example_service (lit "src\a.txt") (lit "src\b.txt") false true 1 1 example_world in
  is_ok r = false ∧ content_at w "C:\work\src\b.txt" = Some (lit "alpha") ∧
  bool_decide (lit "beta" ∈ (nd_content ∘ snd) <$> map_to_list (w_fs w)) = false.
Proof. by vm_compute. Qed.

(** When the name of the temporary file is taken, the write fails and its cleanup
    removes the file that had the name. *)
Definition foreign : Path := path_of "C:\work\src\.a.txt.localbridge-7-0-3d.tmp".
Definition foreign_world : World :=
  MkWorld (<[foreign := new_file (lit "mine") None]> example_fs) 0 0.
Lemma failed_write_removes_foreign_file :
  let _ := failing [] in
  let '(w, r) := write example_service (lit "src\a.txt") (lit "new") true foreign_world in
  is_ok r = false ∧ w_fs w !! foreign = None ∧ is_Some (w_fs foreign_world !! foreign).
Proof. vm_compute. split; [done|]. split; [done|]. by eexists. Qed.
