(* ===== verification/CodingEditService.v ===== *)
(** * CodingEditService: edits and patches on the files of a workspace

    [src/src-tauri/src/filesystem/edit.rs], the service: every edit reads a file,
    checks it against the hash the client expects, computes the new content and
    hands both to a hash-checked operation of the file service. *)

From S2P Require Import Prelude Text WindowsPath CodingEdit HostFs HostLogic PathAuthority FilesystemService HostExamples FilesystemFacts FilesystemChanges.
#[local] Open Scope N_scope.

(* @src filesystem/edit.rs:306-320 map_filesystem_error *)
Definition map_filesystem_error (error : FilesystemError) : CodingEditError :=
  match error with
  | FsNotFound => EditNotFound
  | FsInvalidArgument | FsOutsideAuthority => EditInvalidPath
  | FsAlreadyExists | FsFileChanged => EditFileChanged
  | FsLimitExceeded | FsCancelled | FsIo | FsUnsupported => EditIo
  end.

Section service.
Context `{Windows} `{Faults} `{Encodings} `{Installation}.

Definition edited {A} (m : M FilesystemError A) : M CodingEditError A :=
  map_error map_filesystem_error m.

(** A [CodingEditService] is its file service. *)
(* @src filesystem/edit.rs:49-54 CodingEditService::with_authority *)
Definition with_authority (authority : WorkspaceResolver) : M CodingEditError FilesystemService :=
  edited (from_authority authority).

(* @src filesystem/edit.rs:234-238 CodingEditService::read_file *)
Definition read_file (self : FilesystemService) (path : ustr) : M CodingEditError bytes :=
  edited (read_bytes_bounded self path MAX_INTERNAL_FILE_BYTES).

(** The hash in a comparison with what was read. *)
(* @src filesystem/edit.rs:240-250 CodingEditService::require_identity *)
Definition require_identity (content : bytes) (expected_sha256 : ustr) : M CodingEditError unit :=
  _ ← ensure (valid_sha256_hex expected_sha256) EditInvalidPath;
  ensure (eq_ignore_ascii_case (sha256_hex content) expected_sha256) EditFileChanged.

(* @src filesystem/edit.rs:56-71 CodingEditService::verify_expected_files *)
Definition verify_expected_files (self : FilesystemService) (expected : list (ustr * ustr)) :
    M CodingEditError unit :=
  for_each (λ '(path, identity),
    _ ← ensure (valid_sha256_hex identity) EditInvalidPath;
    content ← read_file self path;
    ensure (eq_ignore_ascii_case (sha256_hex content) identity) EditFileChanged) expected.

(* @src filesystem/edit.rs:73-90 CodingEditService::replace_exact *)
Definition replace_exact (self : FilesystemService) (path expected_sha256 old new : ustr) :
    M CodingEditError ustr :=
  content ← read_file self path;
  _ ← require_identity content expected_sha256;
  updated ← lift (apply_text_hunks_preserving_format content
                    [(normalize_patch_text old, normalize_patch_text new)]);
  _ ← edited (replace_file_if_sha256 self path expected_sha256 updated);
  mret (sha256_hex updated).

(* @src filesystem/edit.rs:93-101 CodingEditService::search_replace *)
Definition search_replace (self : FilesystemService) (path expected_sha256 needle replacement : ustr) :
    M CodingEditError ustr := replace_exact self path expected_sha256 needle replacement.

(* @src filesystem/edit.rs:104-113 CodingEditService::create_file *)
Definition create_file (self : FilesystemService) (path : ustr) (content : bytes) :
    M CodingEditError ustr :=
  _ ← edited (create_file_for_edit self path content); mret (sha256_hex content).

(* @src filesystem/edit.rs:116-124 CodingEditService::delete_file *)
Definition delete_file (self : FilesystemService) (path expected_sha256 : ustr) :
    M CodingEditError unit := edited (delete_file_if_sha256 self path expected_sha256).

(* @src filesystem/edit.rs:127-136 CodingEditService::rename_file *)
Definition rename_file (self : FilesystemService) (path destination expected_sha256 : ustr) :
    M CodingEditError unit := edited (move_file_if_sha256 self path destination expected_sha256).

(* @src filesystem/edit.rs:139-144 CodingEditService::mkdir *)
Definition mkdir (self : FilesystemService) (path : ustr) : M CodingEditError unit :=
  _ ← edited (create_directory self path); mret ().

(** [BTreeMap::get]. *)
Definition expected_get (path : ustr) (expected : list (ustr * ustr)) : option ustr :=
  snd <$> find (λ '(p, _), bool_decide (p = path)) expected.

(** The identity an existing file must have. *)
Definition patch_identity (expected : option (list (ustr * ustr))) (path : ustr) (content : bytes) :
    M CodingEditError ustr :=
  match expected with
  | Some expected => unwrap (expected_get path expected) EditFileChanged
  | None => mret (sha256_hex content)
  end.

(** [parse_patch] always answers ([CodingEdit.parse_patch_total]). *)
(* @src filesystem/edit.rs:168-232 CodingEditService::apply_patch_with_expected *)
Definition apply_patch_with_expected (self : FilesystemService) (patch : ustr)
    (expected : option (list (ustr * ustr))) : M CodingEditError (list ustr) :=
  _ ← (match expected with Some expected => verify_expected_files self expected | None => mret () end);
  operations ← lift (default (Err PatchConflict) (parse_patch patch));
  match operations with
  | [] => throw PatchConflict
  | [PatchUpdate path destination hunks] =>
      _ ← ensure (bool_decide (destination = None)) MultiFilePatchUnsupported;
      content ← read_file self path;
      identity ← patch_identity expected path content;
      _ ← require_identity content identity;
      updated ← lift (apply_text_hunks_preserving_format content hunks);
      _ ← edited (replace_file_if_sha256 self path identity updated);
      mret [path]
  | [PatchAdd path content] =>
      _ ← edited (validate_new_file_path self path);
      _ ← edited (create_file_for_edit self path content);
      mret [path]
  | [PatchDelete path] =>
      content ← read_file self path;
      identity ← patch_identity expected path content;
      _ ← require_identity content identity;
      _ ← edited (delete_file_if_sha256 self path identity);
      mret [path]
  | _ => throw MultiFilePatchUnsupported
  end.

(* @src filesystem/edit.rs:153-159 CodingEditService::apply_patch *)
Definition apply_patch (self : FilesystemService) (patch : ustr) (expected : list (ustr * ustr)) :
    M CodingEditError (list ustr) := apply_patch_with_expected self patch (Some expected).

(* @src filesystem/edit.rs:161-166 CodingEditService::apply_patch_to_current *)
Definition apply_patch_to_current (self : FilesystemService) (patch : ustr) :
    M CodingEditError (list ustr) := apply_patch_with_expected self patch None.
End service.

(** ** Patches *)

Section patches.
Context `{Windows} `{Faults} `{Encodings} `{Installation}.
Variable self : FilesystemService.

Lemma reads_read_file fs path :
  reads fs (read_file self path) (λ content, ∃ h n, named_file self fs path h n ∧ content = nd_content n).
Proof. apply reads_map_error, reads_named_bytes. done. Qed.
Lemma reads_require_identity fs content expected :
  reads fs (require_identity content expected)
    (λ _, eq_ignore_ascii_case (sha256_hex content) expected = true).
Proof.
  unfold require_identity. eapply reads_bind; [apply reads_ensure|]. intros _ _.
  eapply reads_weaken; [apply reads_ensure|]. done.
Qed.

(** The files a client expects are all there, with the content it expects. *)
Definition as_expected (fs : Fs) (expected : list (ustr * ustr)) : Prop :=
  ∀ path identity, (path, identity) ∈ expected → ∃ h n, has_hash self path identity fs h n.
Lemma reads_verify fs expected :
  reads fs (verify_expected_files self expected) (λ _, as_expected fs expected).
Proof.
  unfold verify_expected_files. induction expected as [|[path identity] expected IH]; simpl.
  { apply reads_ret. intros ? ? ?%elem_of_nil. done. }
  eapply reads_bind.
  - eapply reads_bind; [apply reads_ensure|]. intros _ _.
    eapply reads_bind; [apply reads_read_file|]. simpl. intros content (h & n & Hf & ->).
    eapply (reads_weaken _ _ _ (λ _, ∃ h n, has_hash self path identity fs h n)); [apply reads_ensure|].
    simpl. intros _ Hhash. exists h, n. by split.
  - simpl. intros _ Hfile. eapply reads_weaken; [exact IH|]. simpl. intros _ Hrest p i [[= -> ->]|?]%elem_of_cons; [done|].
    by apply Hrest.
Qed.

(** What a patch with one operation does to the file it names. *)
Definition operation_applied (operation : PatchOperation) (fs fs' : Fs) : Prop :=
  match operation with
  | PatchUpdate path destination hunks => destination = None ∧ ∃ h n n',
      named_file self fs path h n ∧
      apply_text_hunks_preserving_format (nd_content n) hunks = Ok (nd_content n') ∧
      fs' = <[h := n']> fs
  | PatchAdd path content => ∃ d leaf n, names_entry self fs path d leaf ∧
      opens fs (join_name d leaf) = None ∧ fs !! join_name d leaf = None ∧
      written_file content n ∧ fs' = <[join_name d leaf := n]> fs
  | PatchDelete path => ∃ h n, named_file self fs path h n ∧ fs' = delete h fs
  end.
Definition operation_path (operation : PatchOperation) : ustr :=
  match operation with PatchUpdate path _ _ | PatchAdd path _ | PatchDelete path => path end.
(** The file had the content the client expects, if it says what it expects. *)
Definition operation_expected (expected : option (list (ustr * ustr))) (operation : PatchOperation)
    (fs : Fs) : Prop :=
  match expected, operation with
  | Some expected, (PatchUpdate path _ _ | PatchDelete path) =>
      ∃ identity h n, expected_get path expected = Some identity ∧ has_hash self path identity fs h n
  | _, _ => True
  end.
(** The object an operation is about. *)
Definition operation_object (fs : Fs) (operation : PatchOperation) (p : Path) : Prop :=
  match operation with
  | PatchUpdate path _ _ | PatchDelete path => ∃ n, named_file self fs path p n
  | PatchAdd path _ => ∃ d leaf, names_entry self fs path d leaf ∧ p = join_name d leaf ∧ fs !! p = None
  end.
(** A failure leaves everything as it was, or all but the object of the only
    operation. *)
Definition nearly_untouched (patch : ustr) (fs fs' : Fs) : Prop :=
  fs' = fs ∨ ∃ operation p, parse_patch patch = Some (Ok [operation]) ∧ operation_object fs operation p ∧
    agree_off p fs fs'.

Lemma runs_create_for_edit fs path content :
  runs fs (create_file_for_edit self path content)
    (λ _ fs', operation_applied (PatchAdd path content) fs fs')
    (λ fs', fs' = fs ∨ ∃ p, operation_object fs (PatchAdd path content) p ∧ agree_off p fs fs').
Proof.
  unfold create_file_for_edit.
  eapply runs_read; [apply reads_checked, reads_resolve_leaf_names|by left|]. intros target (d & leaf & Hentry & ->).
  eapply runs_read; [by eapply reads_parent_of_entry|by left|]. intros ? [-> [Hd _]].
  eapply runs_read; [apply reads_unwrap|by left|]. simpl. intros leaf' Hleaf.
  rewrite path_file_name_join in Hleaf. injection Hleaf as <-.
  assert (Habsent : opens fs (join_name d leaf) = None → fs !! join_name d leaf = None) by apply opens_child_absent, Hd.
  eapply runs_bind; [apply runs_map_error; eapply runs_weaken; [by apply runs_write_new_synced|intros a fs' Ha; exact Ha|]|].
  { simpl. intros fs' [->|[Ho ?]]; [by left|]. right. exists (join_name d leaf). split; [|done]. exists d, leaf. auto. }
  simpl. intros _ fs1 (Ho & n & Hn & ->). specialize (Habsent Ho).
  assert (Hfailed : ∀ fs', agree_off (join_name d leaf) fs fs' →
    fs' = fs ∨ ∃ p, operation_object fs (PatchAdd path content) p ∧ agree_off p fs fs').
  { intros fs' ?. right. exists (join_name d leaf). split; [|done]. exists d, leaf. auto. }
  assert (Ha : agree_off (join_name d leaf) fs (<[join_name d leaf := n]> fs)) by apply agree_off_insert.
  eapply runs_read; [eapply reads_try, reads_revalidate_any|by apply Hfailed|]. intros [final|error] _.
  - apply runs_ret. by exists d, leaf, n.
  - eapply runs_bind; [apply runs_remove_agree; [by eapply real_dir_agree|rewrite lookup_insert_eq; by eauto]|].
    simpl. intros _ fs2 Ha2. apply runs_throw, Hfailed. by etrans.
Qed.

Lemma reads_patch_identity fs expected path content h n :
  named_file self fs path h n → content = nd_content n →
  reads fs (patch_identity expected path content)
    (λ identity, ∀ e, expected = Some e → expected_get path e = Some identity).
Proof.
  intros _ _. unfold patch_identity. destruct expected as [e|].
  - eapply reads_weaken; [apply reads_unwrap|]. intros identity He e' [= ->]. exact He.
  - by apply reads_ret.
Qed.

Lemma runs_apply_patch fs patch expected :
  runs fs (apply_patch_with_expected self patch expected)
    (λ files fs', ∃ operation, parse_patch patch = Some (Ok [operation]) ∧
       files = [operation_path operation] ∧
       (∀ e, expected = Some e → as_expected fs e) ∧
       operation_expected expected operation fs ∧ operation_applied operation fs fs')
    (nearly_untouched patch fs).
Proof.
  assert (Hsame : nearly_untouched patch fs fs) by by left.
  unfold apply_patch_with_expected.
  eapply (runs_read _ _ _ (λ _, ∀ e, expected = Some e → as_expected fs e)); [|done|intros _ Hexpected].
  { destruct expected as [e|]; [|by apply reads_ret].
    eapply reads_weaken; [apply reads_verify|]. intros _ He e' [= ->]. exact He. }
  eapply runs_read; [apply reads_lift|done|]. simpl. intros operations Hparse.
  assert (Hops : parse_patch patch = Some (Ok operations)) by by destruct (parse_patch patch); simplify_eq/=.
  destruct operations as [|operation [|]]; [by apply runs_throw| |by destruct operation; apply runs_throw].
  destruct operation as [path destination hunks|path content|path].
  - eapply runs_read; [apply reads_ensure|done|]. simpl. intros _ ->%bool_decide_eq_true.
    eapply runs_read; [apply reads_read_file|done|]. simpl. intros content (h & n & Hf & ->).
    eapply runs_read; [by eapply reads_patch_identity|done|]. simpl. intros identity Hid.
    eapply runs_read; [apply reads_require_identity|done|]. simpl. intros _ Hhash.
    eapply runs_read; [apply reads_lift|done|]. simpl. intros updated Hupdated.
    eapply runs_bind; [apply runs_map_error; eapply runs_weaken; [apply runs_replace_file|intros a fs' Ha; exact Ha|]|].
    { simpl. intros fs' [->|(p & m & [Hfile _] & ?)]; [done|]. right. eexists _, p. split; [exact Hops|]. split; [by exists m|done]. }
    simpl. intros _ fs' (h' & n1 & n2 & [Hf' _] & Hc & ->). apply runs_ret.
    destruct (named_file_unique _ _ _ _ _ _ _ Hf Hf') as [<- <-].
    exists (PatchUpdate path None hunks). repeat split; auto.
    + simpl. destruct expected as [e|]; [|done]. exists identity, h, n. split; [by apply Hid|]. by split.
    + exists h, n, n2. by rewrite Hc.
  - eapply runs_read; [apply reads_map_error, reads_validate_new_file_path|done|]. intros _ _.
    eapply runs_bind; [apply runs_map_error; eapply runs_weaken; [apply runs_create_for_edit|intros a fs' Ha; exact Ha|]|].
    { simpl. intros fs' [->|(p & Hobject & ?)]; [done|]. right. by eexists _, p. }
    simpl. intros _ fs' Happlied. apply runs_ret. exists (PatchAdd path content). repeat split; auto.
    by destruct expected.
  - eapply runs_read; [apply reads_read_file|done|]. simpl. intros content (h & n & Hf & ->).
    eapply runs_read; [by eapply reads_patch_identity|done|]. simpl. intros identity Hid.
    eapply runs_read; [apply reads_require_identity|done|]. simpl. intros _ Hhash.
    eapply runs_bind; [apply runs_map_error; eapply runs_weaken; [apply runs_delete_file|intros a fs' Ha; exact Ha|by intros ? ->]|].
    simpl. intros _ fs' (h' & n1 & [Hf' _] & ->). apply runs_ret.
    exists (PatchDelete path). repeat split; auto; simpl; [|by exists h', n1].
    destruct expected as [e|]; [|done]. exists identity, h, n. split; [by apply Hid|]. by split.
Qed.

(** C12 (functional): a patch is applied exactly or, but for the file of its
    operation, not at all.  An answer means that the patch had one operation, that
    every file the client expects was there with the content it expects, a file to
    be updated or deleted among them, and that the file the path names was updated
    to what the hunks make of its content, or deleted, or that a new file with the
    content was added as the entry the path names, where nothing stood; nothing
    else changed.  After a failure at most that object differs. *)
Theorem patch_is_applied patch expected w :
  let '(w', r) := apply_patch_with_expected self patch expected w in
  match r with
  | Ok files => ∃ operation, parse_patch patch = Some (Ok [operation]) ∧
      files = [operation_path operation] ∧
      (∀ e, expected = Some e → as_expected (w_fs w) e) ∧
      operation_expected expected operation (w_fs w) ∧
      operation_applied operation (w_fs w) (w_fs w')
  | Err _ => nearly_untouched patch (w_fs w) (w_fs w')
  end.
Proof.
  pose proof (runs_apply_patch (w_fs w) patch expected w eq_refl) as Hr.
  by destruct (apply_patch_with_expected self patch expected w) as [w' []].
Qed.
End patches.
