(* ===== verification/WorkflowCheckpoint.v ===== *)
(** * WorkflowCheckpoint: the durable record of a workflow

    [src/src-tauri/src/control_plane/workflow_checkpoint.rs]: the checkpoint of the
    one workflow of a workspace, and the file that keeps it, encrypted for the user
    and replaced as a whole.  JSON, Windows' data protection, the clock and the
    outcome of every call of the file system are interfaces. *)

From S2P Require Import Prelude Text Domain WindowsPath BrokerProtocol HostFs FilesystemService.
#[local] Open Scope N_scope.

(* @src control_plane/workflow_checkpoint.rs:12-12 CHECKPOINT_VERSION *)
Definition CHECKPOINT_VERSION : N := 3.
(* @src control_plane/workflow_checkpoint.rs:13-13 LEGACY_CHECKPOINT_VERSION *)
Definition LEGACY_CHECKPOINT_VERSION : N := 1.
(* @src control_plane/workflow_checkpoint.rs:14-14 MAX_CHECKPOINT_PLAINTEXT_BYTES *)
Definition MAX_CHECKPOINT_PLAINTEXT_BYTES : N := 262144.
(* @src control_plane/workflow_checkpoint.rs:15-15 MAX_CHECKPOINT_CIPHERTEXT_BYTES *)
Definition MAX_CHECKPOINT_CIPHERTEXT_BYTES : N := 524288.
(* @src control_plane/workflow_checkpoint.rs:16-16 WORKFLOW_STALE_AFTER_MS *)
Definition WORKFLOW_STALE_AFTER_MS : N := 24 * 60 * 60 * 1000.

(* @src control_plane/workflow_checkpoint.rs:19-35 WorkflowCheckpointError *)
Inductive WorkflowCheckpointError :=
  | LocationUnavailable | CheckpointEncodeFailed | SizeExceeded | ProtectionFailed
  | ParentUnavailable | CreateDirectoryFailed | CheckpointWriteFailed | CommitFailed
  | CheckpointReadFailed | CiphertextInvalid | DecodeFailed | InvalidIdentity | DeleteFailed.
#[export] Instance WorkflowCheckpointError_eq_dec : EqDecision WorkflowCheckpointError.
Proof. solve_decision. Defined.

(* @src control_plane/workflow_checkpoint.rs:38-57 WorkflowCheckpointError::fmt *)
Definition checkpoint_error_text (error : WorkflowCheckpointError) : string :=
  match error with
  | LocationUnavailable => "workflow_checkpoint_location_unavailable"
  | CheckpointEncodeFailed => "workflow_checkpoint_encode_failed"
  | SizeExceeded => "workflow_checkpoint_size_exceeded"
  | ProtectionFailed => "workflow_checkpoint_protection_failed"
  | ParentUnavailable => "workflow_checkpoint_parent_unavailable"
  | CreateDirectoryFailed => "workflow_checkpoint_directory_create_failed"
  | CheckpointWriteFailed => "workflow_checkpoint_write_failed"
  | CommitFailed => "workflow_checkpoint_commit_failed"
  | CheckpointReadFailed => "workflow_checkpoint_read_failed"
  | CiphertextInvalid => "workflow_checkpoint_ciphertext_invalid"
  | DecodeFailed => "workflow_checkpoint_decode_failed"
  | InvalidIdentity => "workflow_checkpoint_identity_invalid"
  | DeleteFailed => "workflow_checkpoint_delete_failed"
  end.

(* @src control_plane/workflow_checkpoint.rs:63-69 WorkflowFailure *)
Record WorkflowFailure := MkWorkflowFailure {
  wf_code : ustr;
  wf_status : option ustr;
  wf_step : option nat
}.
(* @src control_plane/workflow_checkpoint.rs:72-78 WorkflowFailure::new *)
Definition failure_new (code : ustr) (status : option ustr) : WorkflowFailure :=
  MkWorkflowFailure code status None.
(* @src control_plane/workflow_checkpoint.rs:80-86 WorkflowFailure::at_step *)
Definition failure_at_step (code : ustr) (step : nat) : WorkflowFailure :=
  MkWorkflowFailure code None (Some step).

(** ** The checkpoint *)

(* @src control_plane/workflow_checkpoint.rs:94-150 WorkflowCheckpoint *)
Record WorkflowCheckpoint {Payload : Type} := MkWorkflowCheckpoint {
  wc_version : N;
  wc_workflow_id : ustr;
  wc_owner_session_id : option ustr;
  wc_adoption_token_hash : option ustr;
  wc_created_at_ms : N;
  wc_updated_at_ms : N;
  wc_stale_after_ms : N;
  wc_arguments : Payload;
  wc_redacted_stdin_command_indices : list nat;
  wc_coding_profile : option ustr;
  wc_objective : option ustr;
  wc_current_step : option ustr;
  wc_next_step : option ustr;
  wc_files_read : list Payload;
  wc_modified_files : list ustr;
  wc_commands : list Payload;
  wc_test_results : list Payload;
  wc_build_results : list Payload;
  wc_failure : option WorkflowFailure;
  wc_output_refs : list ustr;
  wc_git_before : option Payload;
  wc_git_after : option Payload;
  wc_verification_plan : list Payload;
  wc_completed : bool;
  wc_directory_index : nat;
  wc_directory_results : list Payload;
  wc_directory_inflight : bool;
  wc_patch_applied : bool;
  wc_patch_inflight : bool;
  wc_command_index : nat;
  wc_command_inflight : bool;
  wc_current_session_id : option ustr;
  wc_command_results : list Payload
}.
Arguments WorkflowCheckpoint : clear implicits.
Arguments MkWorkflowCheckpoint {_}.
#[export] Instance eta_WorkflowCheckpoint Payload : Eta (WorkflowCheckpoint Payload) := λ r,
  MkWorkflowCheckpoint (wc_version r) (wc_workflow_id r) (wc_owner_session_id r) (wc_adoption_token_hash r)
    (wc_created_at_ms r) (wc_updated_at_ms r) (wc_stale_after_ms r) (wc_arguments r)
    (wc_redacted_stdin_command_indices r) (wc_coding_profile r) (wc_objective r) (wc_current_step r)
    (wc_next_step r) (wc_files_read r) (wc_modified_files r) (wc_commands r) (wc_test_results r)
    (wc_build_results r) (wc_failure r) (wc_output_refs r) (wc_git_before r) (wc_git_after r)
    (wc_verification_plan r) (wc_completed r) (wc_directory_index r) (wc_directory_results r)
    (wc_directory_inflight r) (wc_patch_applied r) (wc_patch_inflight r) (wc_command_index r)
    (wc_command_inflight r) (wc_current_session_id r) (wc_command_results r).

Section checkpoint.
Context {Payload : Type}.

(* @src control_plane/workflow_checkpoint.rs:153-190 WorkflowCheckpoint::new *)
Definition checkpoint_new (now : N) (workflow_id : ustr) (arguments : Payload) :
    WorkflowCheckpoint Payload :=
  MkWorkflowCheckpoint CHECKPOINT_VERSION workflow_id None None now now WORKFLOW_STALE_AFTER_MS
    arguments [] None None None None [] [] [] [] [] None [] None None [] false 0%nat [] false false
    false 0%nat false None [].

(* @src control_plane/workflow_checkpoint.rs:192-199 WorkflowCheckpoint::new_coding *)
Definition checkpoint_new_coding (now : N) (workflow_id : ustr) (arguments : Payload)
    (objective : ustr) : WorkflowCheckpoint Payload :=
  checkpoint_new now workflow_id arguments
    <| wc_coding_profile := Some (lit "coding-agent-v1") |>
    <| wc_objective := Some objective |>
    <| wc_current_step := Some (lit "prepare") |>
    <| wc_next_step := Some (lit "edit") |>.

(* @src control_plane/workflow_checkpoint.rs:201-203 WorkflowCheckpoint::is_coding_task *)
Definition is_coding_task (self : WorkflowCheckpoint Payload) : bool :=
  bool_decide (wc_coding_profile self = Some (lit "coding-agent-v1")).

(** [None]: nothing changed, [false]. *)
(* @src control_plane/workflow_checkpoint.rs:205-222 WorkflowCheckpoint::settle_command_kill *)
Definition settle_kill (public_session_id : ustr) (self : WorkflowCheckpoint Payload) :
    option (WorkflowCheckpoint Payload) :=
  if wc_completed self || negb (bool_decide (wc_current_session_id self = Some public_session_id))
  then None
  else Some (self <| wc_current_session_id := None |> <| wc_command_inflight := false |>
    <| wc_next_step ::= λ next, match next with
         | Some _ => next
         | None => Some (if is_coding_task self then lit "verify" else lit "resume")
         end |>).

(** How a checkpoint ends without its steps. *)
Definition ended (step code status : ustr) (self : WorkflowCheckpoint Payload) :
    WorkflowCheckpoint Payload :=
  self <| wc_completed := true |> <| wc_current_step := Some step |> <| wc_next_step := None |>
       <| wc_directory_inflight := false |> <| wc_patch_inflight := false |>
       <| wc_command_inflight := false |> <| wc_current_session_id := None |>
       <| wc_failure := Some (failure_new code (Some status)) |>.
End checkpoint.

(** ** The file *)

(** The checkpoint's file with the time it was written, and the temporary file. *)
Record CheckpointFiles := MkCheckpointFiles {
  cf_main : option (bytes * option N);
  cf_temporary : option (bytes * option N);
  cf_calls : nat
}.
#[export] Instance eta_CheckpointFiles : Eta CheckpointFiles := λ r,
  MkCheckpointFiles (cf_main r) (cf_temporary r) (cf_calls r).

(** What the system answers: which calls fail, and how much of a failed write is in
    the file; the clock in milliseconds; and the protection of the user's data. *)
Class CheckpointHost := {
  host_fails : nat → bool;
  failed_write : nat → option nat;
  unix_ms : nat → N;
  file_time : nat → option N;
  protect_user_data : nat → bytes → option bytes;
  unprotect_user_data : nat → bytes → option bytes;
  unix_ms_positive n : 0 < unix_ms n;
  protect_nonempty n plain protected : protect_user_data n plain = Some protected → protected ≠ [];
  unprotect_protect n plain protected m plain' :
    protect_user_data n plain = Some protected → unprotect_user_data m protected = Some plain' →
    plain' = plain
}.

Abbreviation CK := (ST CheckpointFiles WorkflowCheckpointError).
Definition counted {A} (f : nat → CheckpointFiles → CheckpointFiles * result WorkflowCheckpointError A) :
    CK A := λ w, f (cf_calls w) (w <| cf_calls ::= S |>).

(** [LOCALAPPDATA], if it is set and not empty, and the SHA-256 of the workspace. *)
(* @src control_plane/workflow_checkpoint.rs:231-250 WorkflowCheckpointStore::for_workspace *)
Definition for_workspace `{Encodings} (local_app_data : option Path) (workspace : ustr) :
    result WorkflowCheckpointError Path :=
  root ← ok_or LocationUnavailable local_app_data;
  let identity := sha256_hex (utf8_encode (to_ascii_lowercase
    (map (λ c, if c =? 0x2F then backslash else c) workspace))) in
  Ok (join_name (join_name (join_name root (lit "LocalBridge")) (lit "task-state"))
        (lit "workflow-" ++ take 24 identity ++ lit ".bin")).

Section store.
Context `{CheckpointHost} {Payload : Type} `{!Serde (WorkflowCheckpoint Payload)}.

(* @src control_plane/workflow_checkpoint.rs:444-450 now_unix_ms *)
Definition now_unix_ms : CK N := counted (λ n w, (w, Ok (N.min (unix_ms n) u64_max))).

Definition os_create_dir_all : CK unit := counted (λ n w,
  (w, if host_fails n then Err CreateDirectoryFailed else Ok ())).
(** [fs::write] to the temporary file. *)
Definition write_temporary (content : bytes) : CK unit := counted (λ n w,
  if host_fails n then
    (match failed_write n with
     | Some written => w <| cf_temporary := Some (take written content, file_time n) |>
     | None => w
     end, Err CheckpointWriteFailed)
  else (w <| cf_temporary := Some (content, file_time n) |>, Ok ())).
(* @src control_plane/workflow_checkpoint.rs:453-480 atomic_replace *)
Definition atomic_replace : CK unit := counted (λ n w,
  if host_fails n then (w, Err CommitFailed)
  else (w <| cf_main := cf_temporary w |> <| cf_temporary := None |>, Ok ())).
(* @src control_plane/workflow_checkpoint.rs:488-519 protect_user_data *)
Definition os_protect (plain : bytes) : CK bytes := counted (λ n w,
  (w, ok_or ProtectionFailed (protect_user_data n plain))).
(* @src control_plane/workflow_checkpoint.rs:522-553 unprotect_user_data *)
Definition os_unprotect (protected : bytes) : CK bytes := counted (λ n w,
  (w, ok_or ProtectionFailed (unprotect_user_data n protected))).

(** What [save] fills in. *)
Definition stamped (now : N) (checkpoint : WorkflowCheckpoint Payload) : WorkflowCheckpoint Payload :=
  checkpoint <| wc_created_at_ms ::= λ t, if t =? 0 then now else t |>
             <| wc_updated_at_ms := now |>
             <| wc_stale_after_ms ::= λ t, if t =? 0 then WORKFLOW_STALE_AFTER_MS else t |>.

(* @src control_plane/workflow_checkpoint.rs:252-282 WorkflowCheckpointStore::save *)
Definition save (checkpoint : WorkflowCheckpoint Payload) : CK unit :=
  now ← now_unix_ms;
  let checkpoint := stamped now checkpoint in
  plain ← unwrap (to_vec checkpoint) CheckpointEncodeFailed;
  _ ← ensure (N.of_nat (length plain) <=? MAX_CHECKPOINT_PLAINTEXT_BYTES) SizeExceeded;
  protected ← os_protect plain;
  _ ← os_create_dir_all;
  _ ← write_temporary protected;
  atomic_replace.

(** [fs::read] and [fs::metadata]. *)
Definition read_main : CK (option bytes) := counted (λ n w,
  match cf_main w with
  | None => (w, if host_fails n then Err CheckpointReadFailed else Ok None)
  | Some (content, _) => (w, if host_fails n then Err CheckpointReadFailed else Ok (Some content))
  end).
Definition main_time : CK (option N) := counted (λ n w,
  (w, Ok (if host_fails n then None else
          (λ t, N.min t u64_max) <$> (cf_main w ≫= snd)))).

Definition checkpoint_is_stale (now : N) (checkpoint : WorkflowCheckpoint Payload) : bool :=
  negb (wc_completed checkpoint) &&
  (wc_stale_after_ms checkpoint <=? saturating_sub now (wc_updated_at_ms checkpoint)).

(** The lifecycle metadata of an older version is filled in. *)
Definition migrate (now : N) (file_updated_at_ms : option N) (checkpoint : WorkflowCheckpoint Payload) :
    WorkflowCheckpoint Payload * bool :=
  let migrated := negb (wc_version checkpoint =? CHECKPOINT_VERSION) in
  let checkpoint := checkpoint <| wc_version := CHECKPOINT_VERSION |> in
  let '(checkpoint, migrated) :=
    if wc_created_at_ms checkpoint =? 0
    then (checkpoint <| wc_created_at_ms := default now file_updated_at_ms |>, true)
    else (checkpoint, migrated) in
  let '(checkpoint, migrated) :=
    if wc_updated_at_ms checkpoint =? 0
    then (checkpoint <| wc_updated_at_ms := default (wc_created_at_ms checkpoint) file_updated_at_ms |>, true)
    else (checkpoint, migrated) in
  if wc_stale_after_ms checkpoint =? 0
  then (checkpoint <| wc_stale_after_ms := WORKFLOW_STALE_AFTER_MS |>, true)
  else (checkpoint, migrated).

(** The checkpoint a reader gets, and whether the file is brought up to it. *)
Definition lifecycle (now : N) (file_updated_at_ms : option N) (checkpoint : WorkflowCheckpoint Payload) :
    WorkflowCheckpoint Payload * bool :=
  let '(checkpoint, migrated) := migrate now file_updated_at_ms checkpoint in
  if checkpoint_is_stale now checkpoint
  then (ended (lit "stale") (lit "workflow_stale") (lit "lost") checkpoint, true)
  else (checkpoint, migrated).

(* @src control_plane/workflow_checkpoint.rs:284-350 WorkflowCheckpointStore::load *)
Definition load : CK (option (WorkflowCheckpoint Payload)) :=
  found ← read_main;
  match found with
  | None => mret None
  | Some content =>
      _ ← ensure (negb (bool_decide (content = [])) &&
                  (N.of_nat (length content) <=? MAX_CHECKPOINT_CIPHERTEXT_BYTES)) CiphertextInvalid;
      plain ← os_unprotect content;
      _ ← ensure (N.of_nat (length plain) <=? MAX_CHECKPOINT_PLAINTEXT_BYTES) SizeExceeded;
      file_updated_at_ms ← main_time;
      checkpoint ← unwrap (from_slice plain) DecodeFailed;
      _ ← ensure (negb (bool_decide (wc_workflow_id checkpoint = [])) &&
                  ((wc_version checkpoint =? LEGACY_CHECKPOINT_VERSION) || (wc_version checkpoint =? 2) ||
                   (wc_version checkpoint =? CHECKPOINT_VERSION))) InvalidIdentity;
      now ← now_unix_ms;
      let '(checkpoint, changed) := lifecycle now file_updated_at_ms checkpoint in
      _ ← (if changed then save checkpoint else mret ());
      mret (Some checkpoint)
  end.

(* @src control_plane/workflow_checkpoint.rs:352-358 WorkflowCheckpointStore::clear *)
Definition clear : CK unit := counted (λ n w,
  if host_fails n then (w, Err DeleteFailed) else (w <| cf_main := None |>, Ok ())).

(** The checkpoint is changed and saved, if the change applies. *)
Definition change (f : WorkflowCheckpoint Payload → option (WorkflowCheckpoint Payload)) : CK bool :=
  found ← load;
  match found ≫= f with
  | None => mret false
  | Some checkpoint => _ ← save checkpoint; mret true
  end.

(* @src control_plane/workflow_checkpoint.rs:360-375 WorkflowCheckpointStore::settle_command_kill *)
Definition settle_command_kill (public_session_id : ustr) : CK bool :=
  change (settle_kill public_session_id).

(* @src control_plane/workflow_checkpoint.rs:377-389 WorkflowCheckpointStore::active_owned_workflow *)
Definition active_owned_workflow (owner_session_id : ustr) : CK (option ustr) :=
  found ← load;
  mret (checkpoint ← found;
        if negb (wc_completed checkpoint) &&
           bool_decide (wc_owner_session_id checkpoint = Some owner_session_id)
        then Some (wc_workflow_id checkpoint) else None).

(* @src control_plane/workflow_checkpoint.rs:391-398 WorkflowCheckpointStore::active_workflow *)
Definition active_workflow : CK (option ustr) :=
  found ← load;
  mret (checkpoint ← found;
        if negb (wc_completed checkpoint) then Some (wc_workflow_id checkpoint) else None).

(* @src control_plane/workflow_checkpoint.rs:400-427 WorkflowCheckpointStore::cancel_owned *)
Definition cancel_owned (workflow_id owner_session_id : ustr) : CK bool :=
  change (λ checkpoint,
    if wc_completed checkpoint || negb (bool_decide (wc_workflow_id checkpoint = workflow_id)) ||
       negb (bool_decide (wc_owner_session_id checkpoint = Some owner_session_id))
    then None
    else Some (ended (lit "cancelled") (lit "cancelled") (lit "cancelled") checkpoint)).
End store.

(** ** What the store promises *)

Section properties.
Context `{CheckpointHost} {Payload : Type} `{!Serde (WorkflowCheckpoint Payload)}.
Implicit Types c : WorkflowCheckpoint Payload.

(** The file holds exactly this checkpoint. *)
Definition file_holds (w : CheckpointFiles) c : Prop :=
  ∃ plain protected n, to_vec c = Some plain ∧
    N.of_nat (length plain) ≤ MAX_CHECKPOINT_PLAINTEXT_BYTES ∧
    protect_user_data n plain = Some protected ∧ fst <$> cf_main w = Some protected.

Lemma save_outcomes c w :
  let '(w', r) := save c w in
  match r with
  | Ok _ => ∃ now, 0 < now ∧ file_holds w' (stamped now c)
  | Err _ => cf_main w' = cf_main w
  end.
Proof.
  unfold save, now_unix_ms, os_protect, os_create_dir_all, write_temporary, atomic_replace.
  cbv [mbind ST_bind counted]. simpl.
  set (now := N.min _ _). assert (0 < now) by (pose proof (unix_ms_positive (cf_calls w)); unfold now, u64_max; lia).
  unfold unwrap, lift, ensure. destruct (to_vec (stamped now c)) as [plain|] eqn:Hplain; simpl; [|done].
  destruct (N.of_nat (length plain) <=? MAX_CHECKPOINT_PLAINTEXT_BYTES) eqn:Hlen; simpl; [|done].
  destruct (protect_user_data _ plain) as [protected|] eqn:Hprot; simpl; [|done].
  destruct (host_fails (S (S (cf_calls w)))); simpl; [done|].
  destruct (host_fails (S (S (S (cf_calls w))))); simpl; [by destruct (failed_write _)|].
  destruct (host_fails (S (S (S (S (cf_calls w)))))); simpl; [done|].
  exists now. split; [done|]. exists plain, protected, (S (cf_calls w)). split_and!; try done. lia.
Qed.

(** The file can be read as this checkpoint, of a version that is known. *)
Definition file_reads (w : CheckpointFiles) c : Prop :=
  ∃ protected n plain, fst <$> cf_main w = Some protected ∧
    unprotect_user_data n protected = Some plain ∧ from_slice plain = Some c ∧
    wc_workflow_id c ≠ [] ∧ wc_version c ∈ [LEGACY_CHECKPOINT_VERSION; 2; CHECKPOINT_VERSION].

Lemma file_holds_reads w c c' : file_holds w c → file_reads w c' → c' = c.
Proof.
  intros (plain & protected & n & Hv & _ & Hp & Hw) (protected' & m & plain' & Hw' & Hu & Hs & _).
  rewrite Hw in Hw'. injection Hw' as <-. rewrite (unprotect_protect _ _ _ _ _ Hp Hu) in Hs.
  rewrite (from_slice_to_vec _ _ Hv) in Hs. by injection Hs.
Qed.

Lemma lifecycle_unchanged now time c c' : lifecycle now time c = (c', false) → c' = c.
Proof.
  unfold lifecycle, migrate. destruct c as [version ? ? ? created updated stale]; cbn -[N.eqb].
  destruct (version =? CHECKPOINT_VERSION) eqn:Hv; cbn -[N.eqb].
  - apply N.eqb_eq in Hv as ->.
    repeat (match goal with |- context [?x =? 0] => destruct (x =? 0) eqn:? end; cbn -[N.eqb]);
      repeat (case_match; try done); by intros [= <-].
  - repeat (match goal with |- context [?x =? 0] => destruct (x =? 0) eqn:? end; cbn -[N.eqb]);
      repeat (case_match; try done).
Qed.

(** A reader gets what the file holds, brought to the present; the file is left
    alone or holds what the reader got. *)
Definition load_outcome (w w' : CheckpointFiles) (found : option (WorkflowCheckpoint Payload)) : Prop :=
  match found with
  | None => cf_main w = None ∧ cf_main w' = None
  | Some c' => ∃ c now time changed, 0 < now ∧ file_reads w c ∧ lifecycle now time c = (c', changed) ∧
      if (changed : bool) then ∃ now', 0 < now' ∧ file_holds w' (stamped now' c')
      else cf_main w' = cf_main w
  end.

Lemma load_outcomes w :
  let '(w', r) := load w in
  match r with
  | Ok found => load_outcome w w' found
  | Err _ => cf_main w' = cf_main w
  end.
Proof.
  unfold load, read_main. cbv [mbind ST_bind counted]. simpl.
  destruct (cf_main w) as [[content t]|] eqn:Hw, (host_fails (cf_calls w)); simpl; try done.
  unfold ensure. destruct (_ && _); simpl; [|done].
  cbv [os_unprotect counted]. simpl.
  destruct (unprotect_user_data _ content) as [plain|] eqn:Hu; simpl; [|done].
  destruct (N.of_nat (length plain) <=? MAX_CHECKPOINT_PLAINTEXT_BYTES); simpl; [|done].
  cbv [main_time counted unwrap lift]. cbn [fst snd].
  set (time := if host_fails _ then None else _). clearbody time.
  destruct (from_slice plain) as [c|] eqn:Hc; simpl; [|done].
  destruct (negb (bool_decide (wc_workflow_id c = [])) && _) eqn:Hid; simpl; [|done].
  cbv [now_unix_ms counted]. cbn [fst snd].
  set (now := N.min _ _). assert (Hnow : 0 < now).
  { unfold now, u64_max. pose proof (unix_ms_positive (S (S (S (cf_calls w))))). simpl. lia. }
  clearbody now. destruct (lifecycle now time c) as [c' changed] eqn:Hl.
  assert (Hreads : file_reads w c).
  { apply andb_true_iff in Hid as [Hid Hv]. apply negb_true_iff, bool_decide_eq_false in Hid.
    exists content, (S (cf_calls w)), plain. rewrite Hw. split_and!; try done.
    rewrite !orb_true_iff, !N.eqb_eq in Hv. rewrite !elem_of_cons. tauto. }
  assert (Hex : ∀ w', (if changed then ∃ now', 0 < now' ∧ file_holds w' (stamped now' c')
                       else cf_main w' = cf_main w) → load_outcome w w' (Some c')).
  { intros w' Hw'. exists c, now, time, changed. auto. }
  destruct changed; simpl.
  - pose proof (save_outcomes c' (w <| cf_calls ::= S |> <| cf_calls ::= S |> <| cf_calls ::= S |>
      <| cf_calls ::= S |>)) as Hs. simpl in Hs.
    destruct (save c' _) as [w' [[]|e]]; simpl; [by refine (Hex _ _)|]. by rewrite Hs.
  - by refine (Hex _ _).
Qed.

(** From here on every call succeeds and the user's data can be decrypted. *)
Definition working (w : CheckpointFiles) : Prop :=
  ∀ n, (cf_calls w ≤ n)%nat → host_fails n = false ∧
    ∀ m plain protected, N.of_nat (length plain) ≤ MAX_CHECKPOINT_PLAINTEXT_BYTES →
      protect_user_data m plain = Some protected →
      N.of_nat (length protected) ≤ MAX_CHECKPOINT_CIPHERTEXT_BYTES ∧
      unprotect_user_data n protected = Some plain.

(** A known version of a workflow that has a name. *)
Definition identified c : bool :=
  negb (bool_decide (wc_workflow_id c = [])) &&
  ((wc_version c =? LEGACY_CHECKPOINT_VERSION) || (wc_version c =? 2) ||
   (wc_version c =? CHECKPOINT_VERSION)).

Lemma load_works w c :
  working w → file_holds w c → identified c = true →
  let '(w', r) := load w in
  is_ok r = true ∨ ∃ now time, 0 < now ∧ (lifecycle now time c).2 = true.
Proof.
  intros Hwork (plain & protected & n & Hv & Hlen & Hp & Hw) Hid.
  assert (Hcalls : ∀ k, host_fails (k + cf_calls w)%nat = false) by (intros k; apply Hwork; lia).
  assert (Hunprotect : N.of_nat (length protected) ≤ MAX_CHECKPOINT_CIPHERTEXT_BYTES ∧
    unprotect_user_data (S (cf_calls w)) protected = Some plain).
  { destruct (Hwork (S (cf_calls w))) as [_ Hu]; [lia|]. by eapply Hu. }
  destruct (cf_main w) as [[content t]|] eqn:Hmain; [|done]. injection Hw as ->.
  unfold load, read_main. cbv [mbind ST_bind counted]. simpl. rewrite Hmain.
  pose proof (Hcalls 0%nat) as H0'. simpl in H0'. rewrite H0'. simpl.
  unfold ensure. rewrite bool_decide_eq_false_2 by by eapply protect_nonempty.
  assert ((N.of_nat (length protected) <=? MAX_CHECKPOINT_CIPHERTEXT_BYTES) = true) as -> by lia. simpl.
  cbv [os_unprotect counted]. simpl. rewrite (proj2 Hunprotect). simpl.
  assert ((N.of_nat (length plain) <=? MAX_CHECKPOINT_PLAINTEXT_BYTES) = true) as -> by lia. simpl.
  cbv [main_time counted unwrap lift]. cbn [fst snd]. set (time := if host_fails _ then None else _). clearbody time.
  rewrite (from_slice_to_vec _ _ Hv). unfold identified in Hid. simpl. rewrite Hid. simpl.
  cbv [now_unix_ms counted]. cbn [fst snd]. set (now := N.min _ _).
  assert (Hnow : 0 < now).
  { unfold now, u64_max. pose proof (unix_ms_positive (S (S (S (cf_calls w))))). simpl. lia. }
  clearbody now. destruct (lifecycle now time c) as [c' []] eqn:Hl; [|by left].
  destruct (save c' _) as [w' [[]|]]; simpl; [by left|]. right. exists now, time. by rewrite Hl.
Qed.

(** What a current checkpoint is brought to. *)
Definition at_time (now : N) c : WorkflowCheckpoint Payload :=
  if checkpoint_is_stale now c then ended (lit "stale") (lit "workflow_stale") (lit "lost") c else c.

Lemma migrate_current now time c :
  wc_version c = CHECKPOINT_VERSION → wc_created_at_ms c ≠ 0 → wc_updated_at_ms c ≠ 0 →
  wc_stale_after_ms c ≠ 0 → migrate now time c = (c, false).
Proof.
  intros Hv Hc Hu Hs. unfold migrate. destruct c. cbn -[N.eqb] in *. subst. rewrite N.eqb_refl. cbn -[N.eqb].
  repeat (rewrite (proj2 (N.eqb_neq _ _)) by done; cbn -[N.eqb]). done.
Qed.
Lemma stamped_times now c :
  wc_created_at_ms (stamped now c) = (if wc_created_at_ms c =? 0 then now else wc_created_at_ms c) ∧
  wc_updated_at_ms (stamped now c) = now ∧
  wc_stale_after_ms (stamped now c) =
    (if wc_stale_after_ms c =? 0 then WORKFLOW_STALE_AFTER_MS else wc_stale_after_ms c).
Proof. by destruct c. Qed.

Lemma lifecycle_stamped now time saved_at c :
  0 < saved_at → wc_version c = CHECKPOINT_VERSION →
  lifecycle now time (stamped saved_at c) =
    (at_time now (stamped saved_at c), checkpoint_is_stale now (stamped saved_at c)).
Proof.
  intros Hpos Hv. unfold lifecycle, at_time. rewrite migrate_current; [by case_match|..].
  - destruct c. exact Hv.
  - rewrite (proj1 (stamped_times _ _)). case_match; lia.
  - rewrite (proj1 (proj2 (stamped_times _ _))). lia.
  - rewrite (proj2 (proj2 (stamped_times _ _))). case_match; [done|lia].
Qed.

(** A checkpoint survives.  After a successful save, whatever calls
    fail, a reader gets exactly the saved checkpoint with the times [save] put in, or
    its terminal form when it has become stale, or an error that leaves the file as
    it is; and no error unless a call of the system fails or the checkpoint is
    stale. *)
Theorem checkpoint_survives c w w1 :
  save c w = (w1, Ok ()) → wc_version c = CHECKPOINT_VERSION → wc_workflow_id c ≠ [] →
  ∃ saved_at, 0 < saved_at ∧ let saved := stamped saved_at c in
  let '(w2, r) := load w1 in
  match r with
  | Ok None => False
  | Ok (Some c') => ∃ now, c' = at_time now saved
  | Err _ => cf_main w2 = cf_main w1 ∧
      (working w1 → ∃ now, checkpoint_is_stale now saved = true)
  end.
Proof.
  intros Hsave Hversion Hname. pose proof (save_outcomes c w) as Hs. rewrite Hsave in Hs.
  destruct Hs as (saved_at & Hpos & Hholds). exists saved_at. split; [done|]. simpl.
  assert (Hid : identified (stamped saved_at c) = true).
  { unfold identified. destruct c. simpl in *. subst. by rewrite bool_decide_eq_false_2. }
  pose proof (load_outcomes w1) as Hload. pose proof (load_works w1 (stamped saved_at c)) as Hworks.
  destruct (load w1) as [w2 [[c'|]|e]].
  - destruct Hload as (c0 & now & time & changed & _ & Hreads & Hl & _).
    rewrite (file_holds_reads _ _ _ Hholds Hreads), lifecycle_stamped in Hl by done.
    exists now. by injection Hl.
  - destruct Hload as [Hnone _]. destruct Hholds as (? & ? & ? & _ & _ & _ & Hsome). by rewrite Hnone in Hsome.
  - split; [exact Hload|]. intros Hwork.
    destruct (Hworks Hwork Hholds Hid) as [|(now & time & _ & Hl)]; [done|].
    rewrite lifecycle_stamped in Hl by done. by exists now.
Qed.

Lemma migrated_fields now time c :
  wc_version (migrate now time c).1 = CHECKPOINT_VERSION ∧
  wc_workflow_id (migrate now time c).1 = wc_workflow_id c ∧
  wc_owner_session_id (migrate now time c).1 = wc_owner_session_id c ∧
  wc_completed (migrate now time c).1 = wc_completed c ∧
  wc_stale_after_ms (migrate now time c).1 ≠ 0.
Proof.
  destruct c as [version ? ? ? created updated stale]. unfold migrate.
  destruct (version =? CHECKPOINT_VERSION), (created =? 0) eqn:?, (updated =? 0) eqn:?, (stale =? 0) eqn:?;
    cbn -[N.eqb]; repeat (match goal with H : (?x =? 0) = _ |- _ => rewrite H end; cbn -[N.eqb]);
    split_and!; done || lia.
Qed.

(** What a reader gets is current: of the present version, with its
    name and a limit to its age; what is not completed was not stale; what became
    stale has no step that could still run; and the file then holds what the reader
    got, or is untouched. *)
Theorem loaded_checkpoint_current w :
  let '(w', r) := load w in
  match r with
  | Ok (Some c) => wc_version c = CHECKPOINT_VERSION ∧ wc_workflow_id c ≠ [] ∧ wc_stale_after_ms c ≠ 0 ∧
      (∃ now, 0 < now ∧ checkpoint_is_stale now c = false) ∧
      (cf_main w' = cf_main w ∨ ∃ now, 0 < now ∧ file_holds w' (stamped now c)) ∧
      ∃ c0, file_reads w c0 ∧ wc_workflow_id c = wc_workflow_id c0 ∧
        (wc_completed c = wc_completed c0 ∨
         wc_completed c = true ∧ wc_next_step c = None ∧ wc_directory_inflight c = false ∧
         wc_patch_inflight c = false ∧ wc_command_inflight c = false ∧ wc_current_session_id c = None)
  | _ => cf_main w' = cf_main w
  end.
Proof.
  pose proof (load_outcomes w) as Hload. destruct (load w) as [w' [[c|]|e]].
  - destruct Hload as (c0 & now & time & changed & Hnow & Hreads & Hl & Hfile).
    assert (Hid : wc_workflow_id c0 ≠ []) by by destruct Hreads as (? & ? & ? & _ & _ & _ & ? & _).
    destruct (migrated_fields now time c0) as (Hv & Hn & _ & Hdone & Hs).
    unfold lifecycle in Hl. destruct (migrate now time c0) as [m changed0]. simpl in *.
    destruct (checkpoint_is_stale now m) eqn:Hstale; injection Hl as <- <-.
    + assert (Hkeep : wc_version (ended (lit "stale") (lit "workflow_stale") (lit "lost") m) = wc_version m ∧
        wc_workflow_id (ended (lit "stale") (lit "workflow_stale") (lit "lost") m) = wc_workflow_id m ∧
        wc_stale_after_ms (ended (lit "stale") (lit "workflow_stale") (lit "lost") m) = wc_stale_after_ms m)
        by by destruct m.
      destruct Hkeep as (-> & -> & ->). rewrite Hn. split_and!; [done..| |by right|].
      * exists now. split; [done|]. by destruct m.
      * exists c0. split_and!; [done..|]. right. by destruct m.
    + rewrite Hn. split_and!; [done..|by exists now| |exists c0; auto].
      destruct changed0; [by right|by left].
  - destruct Hload as [Hnone Hnone']. by rewrite Hnone.
  - exact Hload.
Qed.

(** Only the session that owns a workflow cancels it, and only one that
    is still open; and an answer of success means the file holds its end, with no
    step left to run. *)
Theorem cancel_owned_exact workflow_id owner w :
  let '(w', r) := cancel_owned workflow_id owner w in
  match r with
  | Ok true => ∃ c now, load_outcome w (load w).1 (Some c) ∧
      wc_completed c = false ∧ wc_workflow_id c = workflow_id ∧ wc_owner_session_id c = Some owner ∧
      file_holds w' (stamped now (ended (lit "cancelled") (lit "cancelled") (lit "cancelled") c))
  | _ => w' = (load w).1 ∨ cf_main w' = cf_main (load w).1
  end.
Proof.
  unfold cancel_owned, change. cbv [mbind ST_bind].
  pose proof (load_outcomes w) as Hload. destruct (load w) as [w1 [[c|]|e]]; simpl; [|by left..].
  destruct (wc_completed c) eqn:Hdone; simpl; [by left|].
  case_bool_decide as Hid; simpl; [|by left]. case_bool_decide as Howner; simpl; [|by left].
  pose proof (save_outcomes (ended (lit "cancelled") (lit "cancelled") (lit "cancelled") c) w1) as Hsave.
  destruct (save _ w1) as [w2 [[]|]]; [|by right].
  destruct Hsave as (now & _ & Hholds). exists c, now. auto.
Qed.
End properties.

(** ** A concrete store *)

#[export] Instance WorkflowFailure_eq_dec : EqDecision WorkflowFailure.
Proof. solve_decision. Defined.
#[export] Instance WorkflowCheckpoint_eq_dec `{EqDecision Payload} : EqDecision (WorkflowCheckpoint Payload).
Proof. solve_decision. Defined.

(** The data is protected by one more byte, and the clock ticks with the calls. *)
Definition demo_checkpoint_host : CheckpointHost.
Proof.
  refine {| host_fails n := bool_decide (n = 20%nat); failed_write n := Some 1%nat;
    unix_ms n := 1000 + N.of_nat n; file_time n := Some 1000;
    protect_user_data n plain := Some (7 :: plain);
    unprotect_user_data n protected := match protected with _ :: plain => Some plain | [] => None end |}.
  - lia.
  - by intros n plain protected [= <-].
  - by intros n plain protected m plain' [= <-] [= ->].
Defined.

(** One workflow, whose encoding is the time of its last save. *)
Definition demo_checkpoint : WorkflowCheckpoint unit := checkpoint_new 5 (lit "workflow") ().
Definition demo_serde : Serde (WorkflowCheckpoint unit).
Proof.
  refine {| to_vec c := if decide (c = stamped (wc_updated_at_ms c) demo_checkpoint)
                        then Some [wc_updated_at_ms c] else None;
            from_slice b := match b with [t] => Some (stamped t demo_checkpoint) | _ => None end |}.
  intros c payload. case_decide as Hc; [|done]. intros [= <-]. by rewrite <- Hc.
Defined.

Lemma checkpoint_survives_witness :
  let _ := demo_checkpoint_host in let _ := demo_serde in
  let w1 := (save demo_checkpoint (MkCheckpointFiles None None 0)).1 in
  is_ok (load (Payload := unit) w1).2 = true ∧
  ∃ saved_at, 0 < saved_at ∧ let saved := stamped saved_at demo_checkpoint in
  let '(w2, r) := load w1 in
  match r with
  | Ok None => False
  | Ok (Some c') => ∃ now, c' = at_time now saved
  | Err _ => cf_main w2 = cf_main w1 ∧
      (working w1 → ∃ now, checkpoint_is_stale now saved = true)
  end.
Proof.
  intros ? ? w1. split; [vm_compute; reflexivity|].
  apply (checkpoint_survives demo_checkpoint (MkCheckpointFiles None None 0)); [|done|done].
  vm_compute. reflexivity.
Defined.
