(* ===== verification/BrokerFilesystem.v ===== *)
(** * BrokerFilesystem: the file requests the privileged broker executes

    [src/src-tauri/src/privilege/filesystem.rs]: a validated specification becomes
    calls of the file service with the authority of the administrator, after the
    paths that belong to a workspace have been pinned in it. *)

From S2P Require Import Prelude Text WindowsPath BrokerProtocol CodingEdit HostFs HostLogic PathAuthority FilesystemService HostExamples FilesystemFacts CodingEditService.
#[local] Open Scope N_scope.

(** [u32::try_from]. *)
Definition u32_of (n : N) : result AdministratorFilesystemErrorCode N :=
  if n <=? u32_max then Ok n else Err AdminLimitExceeded.

(* @src privilege/filesystem.rs:499-511 administrator_filesystem_error *)
Definition administrator_filesystem_error (error : FilesystemError) :
    AdministratorFilesystemErrorCode :=
  match error with
  | FsInvalidArgument => AdminInvalidArgument
  | FsNotFound => AdminNotFound
  | FsOutsideAuthority => AdminOutsideAuthority
  | FsAlreadyExists => AdminAlreadyExists
  | FsFileChanged => AdminFileChanged
  | FsLimitExceeded => AdminLimitExceeded
  | FsCancelled => AdminCancelled
  | FsUnsupported => AdminUnsupported
  | FsIo => AdminIo
  end.

(* @src privilege/filesystem.rs:513-525 administrator_coding_edit_error *)
Definition administrator_coding_edit_error (error : CodingEditError) :
    AdministratorFilesystemErrorCode :=
  match error with
  | EditInvalidPath => AdminOutsideAuthority
  | EditNotFound => AdminNotFound
  | EditFileChanged => AdminFileChanged
  | PatchConflict => AdminPatchConflict
  | AmbiguousMatch => AdminAmbiguousMatch
  | MultiFilePatchUnsupported => AdminInvalidArgument
  | EditIo => AdminIo
  end.

(* @src privilege/filesystem.rs:527-536 administrator_entry *)
Definition administrator_entry (entry : FilesystemEntry) : AdministratorFilesystemEntry :=
  MkAdministratorFilesystemEntry (fe_path entry) (fe_kind entry) (fe_size entry) (fe_modified_ms entry).

(* @src privilege/filesystem.rs:538-549 administrator_mutation *)
Definition administrator_mutation (action : AdministratorFilesystemAction)
    (result : FilesystemMutationResult) : AdministratorFilesystemResult :=
  AdminMutation action (fm_path result) (fm_destination result) (fm_bytes result) (fm_changed result).

(* @src privilege/filesystem.rs:491-497 administrator_path *)
Definition administrator_path (spec : AdministratorFilesystemSpec) :
    result AdministratorFilesystemErrorCode ustr := ok_or AdminInvalidArgument (af_path spec).

(** The text of a path, with single backslashes: the name [PathBuf::to_str] gives
    it, up to the separators a client wrote. *)
Definition path_text (p : Path) : ustr :=
  match p with
  | prefix :: RootDir :: p => component_text prefix ++ [backslash] ++ names_text [backslash] p
  | p => names_text [backslash] p
  end.

Section dispatch.
Context `{Windows} `{Faults} `{Encodings} `{Installation} `{Unicode}.

Definition admin {A} (m : M FilesystemError A) : M AdministratorFilesystemErrorCode A :=
  map_error administrator_filesystem_error m.
Definition required {A} (o : option A) : M AdministratorFilesystemErrorCode A :=
  unwrap o AdminInvalidArgument.

(** *** The requests of the first protocol *)

(** Every failure is the same. *)
Definition legacy {A} (m : M FilesystemError A) : M () A := map_error (λ _, ()) m.

(** The loop that looks for an ancestor that exists; [fuel] is the length of the
    path, which every round shortens. *)
Fixpoint missing_directories (service : FilesystemService) (fuel : nat) (cursor : Path) (text : ustr)
    (missing : list ustr) : M () (Path * list ustr) :=
  match fuel with
  | O => throw ()
  | S fuel =>
      found ← try (stat service text false 1 1);
      match found with
      | Ok result => if says (fs_kind result) "directory" then mret (cursor, missing) else throw ()
      | Err FsNotFound =>
          name ← unwrap (path_file_name cursor) ();
          parent ← unwrap (path_parent cursor) ();
          missing_directories service fuel parent (path_text parent) (name :: missing)
      | Err _ => throw ()
      end
  end.
(** [for component in missing]. *)
Fixpoint create_missing (service : FilesystemService) (cursor : Path) (missing : list ustr) : M () () :=
  match missing with
  | [] => mret ()
  | component :: missing =>
      let cursor := join_name cursor component in
      created ← try (create_directory service (path_text cursor));
      match created with
      | Ok _ | Err FsAlreadyExists => create_missing service cursor missing
      | Err _ => throw ()
      end
  end.
(* @src privilege/filesystem.rs:109-135 create_legacy_directory_all *)
Definition create_legacy_directory_all (service : FilesystemService) (path : ustr) : M () () :=
  '(cursor, missing) ← missing_directories service (S (length (components path))) (components path) path [];
  create_missing service cursor missing.

(* @src privilege/filesystem.rs:20-107 run_privileged_filesystem *)
Definition run_privileged_filesystem (spec : PrivilegedFilesystemSpec) :
    M () PrivilegedFilesystemResult :=
  _ ← ensure (is_ok (validate_privileged spec)) ();
  let action := pf_action spec in
  let path := pf_path spec in
  let service := service_broker_administrator in
  match action with
  | ReadFile =>
      result ← legacy (read service path 0 MAX_PRIVILEGED_FILE_BYTES);
      _ ← ensure (fr_eof result && (fr_returned_bytes result <=? MAX_PRIVILEGED_FILE_BYTES)) ();
      content ←
        (if says (fr_encoding result) "base64" then unwrap (base64_decode (fr_content result)) ()
         else if says (fr_encoding result) "utf8" then mret (utf8_encode (fr_content result))
         else throw ());
      mret (MkPrivilegedFilesystemResult action path None (Some (base64_encode content))
              (N.of_nat (length content)))
  | WriteFile =>
      encoded ← unwrap (pf_content_base64 spec) ();
      content ← unwrap (base64_decode encoded) ();
      _ ← ensure (N.of_nat (length content) <=? MAX_PRIVILEGED_FILE_BYTES) ();
      _ ← legacy (write service path content true);
      mret (MkPrivilegedFilesystemResult action path None None (N.of_nat (length content)))
  | CreateDirectory =>
      _ ← create_legacy_directory_all service path;
      mret (MkPrivilegedFilesystemResult action path None None 0)
  | Rename =>
      destination ← unwrap (pf_destination spec) ();
      metadata ← legacy (stat service path false 1 1);
      _ ← legacy (move_path service path destination (says (fs_kind metadata) "directory") false 64 100000);
      mret (MkPrivilegedFilesystemResult action path (Some destination) None 0)
  | Delete =>
      _ ← legacy (delete_path service path (pf_recursive spec) 64 100000);
      mret (MkPrivilegedFilesystemResult action path None None 0)
  end.

(** *** Administrator requests *)

(** The path a field names, and whether its leaf may be missing. *)
Definition workspace_field (spec : AdministratorFilesystemSpec)
    (field : AdministratorWorkspacePathField) : option (ustr * bool) :=
  match field with
  | FieldPath => (λ path, (path, bool_decide (af_action spec = AdminWrite))) <$> af_path spec
  | FieldSource => (λ path, (path, false)) <$> af_source spec
  | FieldDestination => (λ path, (path, true)) <$> af_destination spec
  end.

(** The guards keep their objects in place, which every computation here is
    granted; what is left is that they could be taken. *)
(* @src privilege/filesystem.rs:439-489 administrator_workspace_guards *)
Definition administrator_workspace_guards (spec : AdministratorFilesystemSpec) :
    M AdministratorFilesystemErrorCode () :=
  match af_workspace_root spec with
  | None => mret ()
  | Some root =>
      identity ← required (af_workspace_identity spec);
      authority ← map_error (λ _, AdminOutsideAuthority) (active_workspace root);
      _ ← map_error (λ _, AdminOutsideAuthority) (matches_workspace_identity_token authority identity);
      workspace ← admin (from_authority authority);
      for_each (λ field,
        '(path, allow_missing_leaf) ← required (workspace_field spec field);
        admin (pin_workspace_path workspace path allow_missing_leaf)) (af_workspace_fields spec)
  end.

Definition search_options (spec : AdministratorFilesystemSpec) (pattern : ustr) :
    FilesystemSearchOptions :=
  MkFilesystemSearchOptions (af_recursive spec) (af_max_depth spec) (af_max_entries spec)
    (af_max_results spec) pattern
    ((λ kind, match kind with KindFile => lit "file" | KindDirectory => lit "directory" end) <$> af_kind spec)
    (af_min_size spec) (af_max_size spec) (af_modified_after_ms spec) (af_modified_before_ms spec)
    (match af_sort_by spec with
     | SortByPath => lit "path" | SortBySize => lit "size" | SortByModified => lit "modified" end)
    (match af_sort_order spec with SortAsc => lit "asc" | SortDesc => lit "desc" end).

(** What [List] and [Search] answer. *)
Definition entries_result (spec : AdministratorFilesystemSpec) (result : FilesystemListResult) :
    M AdministratorFilesystemErrorCode AdministratorFilesystemResult :=
  scanned ← lift (u32_of (fl_scanned_entries result));
  mret (AdminEntries (af_action spec) (administrator_entry <$> fl_entries result) scanned
          (fl_truncated result)).

Definition content_match (item : FilesystemContentMatch) :
    result AdministratorFilesystemErrorCode (list AdministratorFilesystemContentMatch) :=
  line ← u32_of (fcm_line item);
  column ← u32_of (fcm_column item);
  Ok [MkAdministratorFilesystemContentMatch (fcm_path item) line column (fcm_text item)].

(* @src privilege/filesystem.rs:143-437 run_administrator_filesystem_with_cancellation *)
Definition run_administrator_filesystem_with_cancellation (cancellable : bool)
    (spec : AdministratorFilesystemSpec) :
    M AdministratorFilesystemErrorCode AdministratorFilesystemResult :=
  _ ← ensure (is_ok (validate_administrator spec)) AdminInvalidArgument;
  _ ← administrator_workspace_guards spec;
  let service := MkFilesystemService broker_administrator cancellable in
  match af_action spec with
  | AdminList =>
      path ← lift (administrator_path spec);
      result ← admin (list_directory service path (af_recursive spec) (af_max_depth spec) (af_max_entries spec));
      entries_result spec result
  | AdminStat =>
      path ← lift (administrator_path spec);
      result ← admin (stat service path (af_calculate_size spec) (af_max_depth spec) (af_max_entries spec));
      scanned ← lift (u32_of (fs_scanned_entries result));
      mret (AdminStatResult (fs_path result) (fs_kind result) (fs_size result) (fs_modified_ms result)
              (fs_calculated_size result) scanned (fs_truncated result))
  | AdminRead =>
      path ← lift (administrator_path spec);
      result ← admin (read service path (af_offset spec) (af_max_bytes spec));
      returned ← lift (u32_of (fr_returned_bytes result));
      mret (AdminReadResult (fr_path result) (fr_offset result) (fr_total_bytes result) returned
              (fr_eof result) (fr_encoding result) (fr_content result))
  | AdminWrite =>
      encoded ← required (af_content_base64 spec);
      content ← required (base64_decode encoded);
      path ← lift (administrator_path spec);
      result ← admin (write service path content (af_overwrite spec));
      mret (administrator_mutation (af_action spec) result)
  | AdminReplace =>
      path ← lift (administrator_path spec);
      original ← admin (read_bytes_bounded service path MAX_INTERNAL_FILE_BYTES);
      old ← required (af_old spec);
      new ← required (af_new spec);
      updated ← map_error administrator_coding_edit_error
        (lift (apply_text_hunks_preserving_format original
                 [(normalize_patch_text old, normalize_patch_text new)]));
      expected ← required (af_expected_sha256 spec);
      _ ← admin (replace_file_if_sha256 service path expected updated);
      hash ← admin (hash service path);
      mret (AdminEdit (af_action spec) (Some (fh_path hash)) [] (Some (fh_sha256 hash)) true)
  | AdminPatch =>
      root ← required (af_workspace_root spec);
      authority ← map_error (λ _, AdminOutsideAuthority) (active_workspace root);
      edit ← map_error administrator_coding_edit_error (with_authority authority);
      patch ← required (af_patch spec);
      affected_files ← map_error administrator_coding_edit_error
        (if bool_decide (af_expected_files spec = []) then apply_patch_to_current edit patch
         else apply_patch edit patch (af_expected_files spec));
      mret (AdminEdit (af_action spec) None affected_files None true)
  | AdminSearch =>
      pattern ← required (af_pattern spec);
      path ← lift (administrator_path spec);
      result ← admin (search service path (search_options spec pattern));
      entries_result spec result
  | AdminSearchContent =>
      path ← lift (administrator_path spec);
      pattern ← required (af_pattern spec);
      result ← admin (search_content service path
        (MkFilesystemContentSearchOptions (af_recursive spec) (af_max_depth spec) (af_max_entries spec)
           (af_max_results spec) (af_max_file_bytes spec) pattern (af_case_sensitive spec)));
      matches ← collect_each (λ item, lift (content_match item)) (fcs_matches result);
      scanned ← lift (u32_of (fcs_scanned_entries result));
      files ← lift (u32_of (fcs_scanned_files result));
      binary ← lift (u32_of (fcs_skipped_binary_files result));
      oversized ← lift (u32_of (fcs_skipped_oversized_files result));
      mret (AdminContentMatches (af_action spec) matches scanned files binary oversized
              (fcs_truncated result))
  | AdminCopy | AdminMove =>
      source ← required (af_source spec);
      destination ← required (af_destination spec);
      result ← admin
        (if bool_decide (af_action spec = AdminCopy)
         then copy service source destination (af_recursive spec) (af_overwrite spec)
                (af_max_depth spec) (af_max_entries spec)
         else move_path service source destination (af_recursive spec) (af_overwrite spec)
                (af_max_depth spec) (af_max_entries spec));
      mret (administrator_mutation (af_action spec) result)
  | AdminDelete =>
      path ← lift (administrator_path spec);
      result ← admin (delete_path service path (af_recursive spec) (af_max_depth spec) (af_max_entries spec));
      mret (administrator_mutation (af_action spec) result)
  | AdminHash =>
      path ← lift (administrator_path spec);
      result ← admin (hash service path);
      mret (AdminHashResult (fh_path result) (fh_algorithm result) (fh_sha256 result) (fh_bytes result))
  end.
(* @src privilege/filesystem.rs:137-141 run_administrator_filesystem *)
Definition run_administrator_filesystem (spec : AdministratorFilesystemSpec) :
    M AdministratorFilesystemErrorCode AdministratorFilesystemResult :=
  run_administrator_filesystem_with_cancellation false spec.
End dispatch.
