(* ===== verification/BrokerFilesystemProperties.v ===== *)
(** * BrokerFilesystemProperties: what the broker's file requests promise

    Every answer has the form its action asks for; what a file reads as is what it
    holds; and a write that was bound to a workspace changes nothing beside it. *)

From S2P Require Import Prelude Text WindowsPath BrokerProtocol CodingEdit HostFs HostLogic PathAuthority FilesystemService HostExamples FilesystemFacts FilesystemChanges CodingEditService BrokerFilesystem.
#[local] Open Scope N_scope.

(** ** The type of the answers *)

(** What an action may answer; counts fit 32 bits. *)
Definition answers (action : AdministratorFilesystemAction)
    (result : AdministratorFilesystemResult) : Prop :=
  match result with
  | AdminEntries action' _ scanned _ =>
      action' = action ∧ (action = AdminList ∨ action = AdminSearch) ∧ scanned ≤ u32_max
  | AdminStatResult _ _ _ _ _ scanned _ => action = AdminStat ∧ scanned ≤ u32_max
  | AdminReadResult _ _ _ returned _ _ _ => action = AdminRead ∧ returned ≤ u32_max
  | AdminMutation action' _ _ _ _ =>
      action' = action ∧ (action = AdminWrite ∨ action = AdminCopy ∨ action = AdminMove ∨ action = AdminDelete)
  | AdminEdit action' _ _ _ _ => action' = action ∧ (action = AdminReplace ∨ action = AdminPatch)
  | AdminContentMatches action' matches scanned files binary oversized _ =>
      action' = action ∧ action = AdminSearchContent ∧
      Forall (λ m, afm_line m ≤ u32_max ∧ afm_column m ≤ u32_max) matches ∧
      Forall (λ n, n ≤ u32_max) [scanned; files; binary; oversized]
  | AdminHashResult _ _ _ _ => action = AdminHash
  end.

(** [yields m Q]: whatever [m] answers has [Q]. *)
Definition yields {E A} (m : M E A) (Q : A → Prop) : Prop :=
  ∀ w, match (m w).2 with Ok a => Q a | Err _ => True end.

Lemma yields_any {E A} (m : M E A) : yields m (λ _, True).
Proof. intros w. by destruct (m w).2. Qed.
Lemma yields_weaken {E A} (m : M E A) (Q Q' : A → Prop) :
  yields m Q → (∀ a, Q a → Q' a) → yields m Q'.
Proof. intros Hm HQ w. specialize (Hm w). destruct (m w) as [w' []]; simpl in *; auto. Qed.
Lemma yields_ret {E A} (a : A) (Q : A → Prop) : Q a → yields (E := E) (mret a) Q.
Proof. by intros Ha w. Qed.
Lemma yields_bind {E A B} (m : M E A) (f : A → M E B) P Q :
  yields m P → (∀ a, P a → yields (f a) Q) → yields (m ≫= f) Q.
Proof.
  intros Hm Hf w. specialize (Hm w). cbv [mbind ST_bind].
  destruct (m w) as [w' [a|e]]; simpl in *; [by apply Hf|done].
Qed.
Lemma yields_step {E A B} (m : M E A) (f : A → M E B) Q :
  (∀ a, yields (f a) Q) → yields (m ≫= f) Q.
Proof. intros Hf. eapply yields_bind; [apply yields_any|]. auto. Qed.
Lemma yields_u32 {B} n (f : N → M AdministratorFilesystemErrorCode B) Q :
  (n ≤ u32_max → yields (f n) Q) → yields (m ← lift (u32_of n); f m) Q.
Proof.
  intros Hf. apply (yields_bind _ _ (λ m, m = n ∧ n ≤ u32_max)).
  - intros w. unfold u32_of. destruct (n <=? u32_max) eqn:Hn; simpl; [split; [done|lia]|done].
  - intros m [-> Hn]. auto.
Qed.
Lemma yields_collect {E A B} (f : A → M E (list B)) (l : list A) (P : B → Prop) :
  (∀ x, yields (f x) (Forall P)) → yields (collect_each f l) (Forall P).
Proof.
  intros Hf. induction l as [|x l IH]; simpl; [by apply yields_ret|].
  eapply yields_bind; [apply Hf|]. intros ys Hys. eapply yields_bind; [apply IH|]. intros zs Hzs.
  apply yields_ret. by apply Forall_app.
Qed.
Section typing.
Context `{Windows} `{Faults} `{Encodings} `{Installation} `{Unicode}.

Lemma yields_content_match item :
  yields (lift (content_match item)) (Forall (λ m, afm_line m ≤ u32_max ∧ afm_column m ≤ u32_max)).
Proof.
  intros w. unfold content_match, u32_of. simpl.
  repeat case_match; simplify_eq/=; try done. repeat constructor; simpl; lia.
Qed.

Ltac yields :=
  repeat first
    [ apply yields_u32; intros ?
    | apply yields_ret
    | eapply yields_bind; [apply yields_collect, yields_content_match|]; intros ? ?
    | apply yields_step; intros ? ].

(** A request to write a file of the example's workspace. *)
Definition bound_write (path : ustr) : AdministratorFilesystemSpec :=
  MkAdministratorFilesystemSpec AdminWrite (Some path) None None (Some (lit "C:\work"))
    (Some (lit "win32-file-id:00000000:0000000000000003")) [FieldPath] false 1 1 1 0 1
    (Some (lit "6869")) None None None None [] None false 1 None None None None None
    SortByPath SortAsc true false.

(** C15 (type): every answer to an administrator's file request has the form its
    action asks for, with counts of 32 bits, and only a request that passed
    validation is answered. *)
Theorem administrator_results_typed cancellable spec w :
  let '(_, r) := run_administrator_filesystem_with_cancellation cancellable spec w in
  match r with
  | Ok result => validate_administrator spec = Ok () ∧ answers (af_action spec) result
  | Err _ => True
  end.
Proof.
  cut (yields (run_administrator_filesystem_with_cancellation cancellable spec)
    (λ result, validate_administrator spec = Ok () ∧ answers (af_action spec) result)).
  { intros Hy. specialize (Hy w). by destruct (run_administrator_filesystem_with_cancellation _ _ w). }
  clear w. unfold run_administrator_filesystem_with_cancellation.
  eapply (yields_bind _ _ (λ _, validate_administrator spec = Ok ())).
  { intros w. destruct (validate_administrator spec) as [[]|]; done. }
  intros _ Hv. apply yields_step. intros _.
  eapply (yields_weaken _ (answers (af_action spec))); [|done].
  destruct (af_action spec) eqn:Ha; unfold entries_result, administrator_mutation; rewrite ?Ha; yields;
    simpl; auto 6. by repeat constructor.
Qed.
End typing.

(** ** Reading *)

(** The bytes an answer stands for. *)
Definition read_bytes_of `{Encodings} (result : FilesystemReadResult) : option bytes :=
  if says (fr_encoding result) "base64" then base64_decode (fr_content result)
  else if says (fr_encoding result) "utf8" then Some (utf8_encode (fr_content result))
  else None.

Section reading.
Context `{Windows} `{Faults} `{Encodings} `{Installation} `{Unicode}.

Lemma reads_read_slice fs self path offset max_bytes :
  reads fs (read self path offset max_bytes) (λ r, ∃ h n, named_file self fs path h n ∧
    let slice := take (N.to_nat max_bytes) (drop (N.to_nat offset) (nd_content n)) in
    read_bytes_of r = Some slice ∧ fr_returned_bytes r = N.of_nat (length slice) ∧
    (fr_eof r = true → slice = drop (N.to_nat offset) (nd_content n))).
Proof.
  unfold read.
  do 2 (eapply (reads_bind _ _ _ (λ _, True)); [reads|intros ? _]).
  eapply reads_bind; [apply reads_checked, reads_resolve_names|]. simpl. intros p (Hp & Hd & Hs).
  eapply reads_bind; [apply reads_checked, reads_open_handle|]. simpl. intros vh Hv.
  eapply reads_bind; [apply reads_io, reads_os_node|]. simpl. intros n Hn.
  eapply reads_bind; [apply reads_ensure|]. simpl. intros _ Hf.
  eapply reads_bind; [apply reads_ensure|]. simpl. intros _ Hoff.
  eapply reads_bind; [apply reads_io, reads_query|]. simpl. intros data Hdata.
  rewrite Hn in Hdata. simpl in Hdata. injection Hdata as <-.
  eapply reads_bind; [apply reads_ensure|]. simpl. intros _ _.
  apply andb_true_iff in Hf as [Hf _].
  assert (Hlen : node_len n = N.of_nat (length (nd_content n))).
  { unfold node_is_file in Hf. unfold node_len. by destruct (nd_directory n). }
  unfold saturating_sub. rewrite Hlen in *.
  set (slice := take (N.to_nat max_bytes) (drop (N.to_nat offset) (nd_content n))).
  assert (Hslice : take (N.to_nat (N.min (N.of_nat (length (nd_content n)) - offset) max_bytes))
            (drop (N.to_nat offset) (nd_content n)) = slice).
  { unfold slice. destruct (N.le_ge_cases max_bytes (N.of_nat (length (nd_content n)) - offset)) as [Hl|Hl].
    - by rewrite N.min_r.
    - rewrite N.min_l by done. rewrite !take_ge; rewrite ?length_drop; (done || lia). }
  rewrite Hslice. destruct (utf8_decode slice) as [text|] eqn:Hdec;
    (eapply (reads_bind _ _ _ (λ _, True)); [reads|intros ? _]); apply reads_ret;
    exists (vh_handle vh), n; (split; [split; [by eapply validated_resolved|done]|]);
    unfold read_bytes_of; simpl; (split; [|split; [done|]]).
  1: { f_equal. by apply utf8_encode_decode. }
  2: { apply base64_decode_encode. }
  all: unfold saturating_add; intros Heof; apply take_ge;
    assert (length slice = (length (drop (N.to_nat offset) (nd_content n)) `min` N.to_nat max_bytes)%nat)
      by (unfold slice; rewrite length_take; lia);
    rewrite length_drop in *; lia.
Qed.

(** C16 (roundtrip): a file the broker reads for an administrator arrives as it is:
    the answer's base64 stands for the whole content of the regular file the path
    names, whichever encoding the file service chose, and reading changes nothing. *)
Theorem privileged_read_exact spec w :
  pf_action spec = ReadFile →
  let '(w', r) := run_privileged_filesystem spec w in
  w_fs w' = w_fs w ∧
  match r with
  | Ok result => ∃ h n encoded,
      named_file service_broker_administrator (w_fs w) (pf_path spec) h n ∧
      pfr_content_base64 result = Some encoded ∧ base64_decode encoded = Some (nd_content n) ∧
      pfr_bytes result = N.of_nat (length (nd_content n)) ∧ pfr_bytes result ≤ MAX_PRIVILEGED_FILE_BYTES
  | Err _ => True
  end.
Proof.
  intros Ha.
  cut (reads (w_fs w) (run_privileged_filesystem spec) (λ result, ∃ h n encoded,
    named_file service_broker_administrator (w_fs w) (pf_path spec) h n ∧
    pfr_content_base64 result = Some encoded ∧ base64_decode encoded = Some (nd_content n) ∧
    pfr_bytes result = N.of_nat (length (nd_content n)) ∧ pfr_bytes result ≤ MAX_PRIVILEGED_FILE_BYTES)).
  { intros Hr. specialize (Hr w eq_refl).
    destruct (run_privileged_filesystem spec w) as [w' [result|]]; [exact Hr|by split]. }
  unfold run_privileged_filesystem. rewrite Ha.
  eapply reads_bind; [apply reads_ensure|]. intros _ _.
  eapply reads_bind; [apply reads_map_error, reads_read_slice|]. simpl.
  intros r (h & n & Hn & Hbytes & Hret & Heof).
  eapply reads_bind; [apply reads_ensure|]. simpl. intros _ [He Hmax]%andb_true_iff.
  specialize (Heof He). rewrite drop_0 in *. rewrite Heof in *.
  eapply (reads_bind _ _ _ (λ content, content = nd_content n)).
  - unfold read_bytes_of in Hbytes. repeat case_match; simplify_eq.
    + rewrite Hbytes. eapply reads_weaken; [apply reads_unwrap|]. naive_solver.
    + by apply reads_ret.
  - intros content ->. apply reads_ret. exists h, n, (base64_encode (nd_content n)). simpl.
    split; [done|]. split; [done|]. split; [apply base64_decode_encode|]. split; [done|]. lia.
Qed.
End reading.

Lemma privileged_read_exact_witness :
  let _ := plain_windows in let _ := failing [] in let _ := plain_encodings in
  let _ := plain_installation in let _ := ascii_unicode in
  let spec := MkPrivilegedFilesystemSpec ReadFile (lit "C:\secret.txt") None None false in
  pf_action spec = ReadFile ∧ is_ok (run_privileged_filesystem spec example_world).2 = true ∧
  let '(w', r) := run_privileged_filesystem spec example_world in
  w_fs w' = w_fs example_world ∧
  match r with
  | Ok result => ∃ h n encoded,
      named_file service_broker_administrator (w_fs example_world) (pf_path spec) h n ∧
      pfr_content_base64 result = Some encoded ∧ base64_decode encoded = Some (nd_content n) ∧
      pfr_bytes result = N.of_nat (length (nd_content n)) ∧ pfr_bytes result ≤ MAX_PRIVILEGED_FILE_BYTES
  | Err _ => True
  end.
Proof.
  intros ? ? ? ? ? spec. split; [done|]. split; [vm_compute; reflexivity|].
  apply privileged_read_exact. reflexivity.
Defined.

(** ** Writing into a workspace *)

Section binding.
Context `{Windows} `{Faults} `{Encodings} `{Installation} `{Unicode}.

Lemma ordinary_verbatim f : dos_path f = true → ordinary_path (verbatim f) = Some f.
Proof. by destruct f as [|[[]| | | |] [|[] ?]]. Qed.
Lemma reads_active_workspace fs root :
  reads fs (active_workspace root)
    (λ a, wr_scope a = ActiveWorkspaceScope ∧ follows fs (components root) = Some (canonical_root a)).
Proof.
  unfold active_workspace.
  do 3 (eapply (reads_bind _ _ _ (λ _, True)); [reads|intros ? _]).
  eapply reads_bind; [apply reads_map_error, reads_query|]. simpl. intros c Hc.
  destruct (follows fs (components root)) as [f|] eqn:Hf; [|done]. injection Hc as <-.
  destruct (follows_object _ _ _ Hf) as (n & _ & _ & Hd).
  eapply reads_bind; [apply reads_unwrap|]. intros f'. rewrite ordinary_verbatim by done. intros [= <-].
  do 2 (eapply (reads_bind _ _ _ (λ _, True)); [reads|intros ? _]).
  by apply reads_ret.
Qed.
Lemma reads_pin_leaf fs self path :
  reads fs (pin_workspace_path self path true)
    (λ _, ∃ d leaf, names_entry self fs path d leaf ∧ pinned self fs d).
Proof.
  unfold pin_workspace_path. eapply (reads_bind _ _ _ (λ _, True)); [reads|intros _ _].
  eapply reads_bind; [apply reads_checked, reads_resolve_leaf_names|]. intros t (d & leaf & Hentry & ->).
  eapply (reads_bind _ _ _ (λ _, True)); [reads|intros directory _]. rewrite andb_false_r.
  eapply reads_bind; [by eapply reads_parent_of_entry|]. intros d' [-> Hpin]. apply reads_ret. eauto.
Qed.

(** What the guards of a write establish. *)
Definition bound_to (fs : Fs) (root path : ustr) : Prop :=
  ∃ a d leaf, let workspace := MkFilesystemService a false in
    wr_scope a = ActiveWorkspaceScope ∧ follows fs (components root) = Some (canonical_root a) ∧
    names_entry workspace fs path d leaf ∧ pinned workspace fs d.

Lemma reads_guards fs spec root path :
  af_action spec = AdminWrite → af_workspace_root spec = Some root →
  FieldPath ∈ af_workspace_fields spec → af_path spec = Some path →
  reads fs (administrator_workspace_guards spec) (λ _, bound_to fs root path).
Proof.
  intros Ha Hroot Hin Hpath. unfold administrator_workspace_guards, required, admin. rewrite Hroot.
  eapply (reads_bind _ _ _ (λ _, True)); [reads|intros identity _].
  eapply reads_bind; [apply reads_map_error, reads_active_workspace|]. intros a [Hscope Hf].
  eapply (reads_bind _ _ _ (λ _, True)); [unfold matches_workspace_identity_token; reads|intros ? _].
  eapply (reads_bind _ _ _ (λ s, s = MkFilesystemService a false)).
  { apply reads_map_error. unfold from_authority.
    do 2 (eapply (reads_bind _ _ _ (λ _, True)); [reads|intros ? _]). by apply reads_ret. }
  intros workspace ->.
  eapply reads_weaken; [apply (reads_for_each_all _ _ (λ field, field = FieldPath → bound_to fs root path))|].
  - intros field _. destruct (decide (field = FieldPath)) as [->|Hne].
    + eapply reads_bind; [apply reads_unwrap|]. simpl. rewrite Hpath, Ha. intros ? [= <-].
      eapply reads_weaken; [apply reads_map_error, reads_pin_leaf|]. simpl.
      intros _ (d & leaf & ? & ?) _. exists a, d, leaf. auto.
    + eapply (reads_bind _ _ _ (λ _, True)); [reads|intros [] _].
      eapply reads_weaken; [apply reads_map_error, reads_pin_workspace_path|]. done.
  - intros ? Hall. by apply (Hall FieldPath).
Qed.

Lemma path_starts_with_child root d p :
  path_starts_with root d = true → path_parent p = Some d → path_starts_with root p = true.
Proof.
  rewrite !path_starts_with_spec. intros [rest ->]. unfold path_parent.
  destruct (last p) as [c|] eqn:Hl; [|done].
  destruct (last_Some p c) as [[p' ->] _]; [done|]. rewrite removelast_last.
  intros Hp. exists (rest ++ [c]). rewrite app_assoc. by destruct c; simplify_eq.
Qed.

(** What a write of an entry of [d] leaves different is in [d]. *)
Lemma committed_in d leaf overwrite content fs fs' p :
  committed d leaf overwrite content fs fs' → fs' !! p ≠ fs !! p → path_parent p = Some d.
Proof.
  intros (temp & n & _ & Habs & _ & Hf & ->) Hp.
  destruct (decide (p = join_name d leaf)) as [->|Hne]; [apply path_parent_join|].
  rewrite lookup_insert_ne in Hp by done.
  destruct (opens _ _) as [f|] eqn:Ho; [|done].
  destruct (decide (p = f)) as [->|Hpf]; [|by rewrite lookup_delete_ne in Hp].
  destruct (Hf f eq_refl) as [->|(_ & ? & _)]; [|done]. by rewrite lookup_delete_eq, Habs in Hp.
Qed.
Lemma untouched_in d leaf fs fs' p :
  real_dir fs d → untouched d leaf fs fs' → fs' !! p ≠ fs !! p → path_parent p = Some d.
Proof.
  intros Hd [->|(name & q & _ & Hq & Ha)] Hp; [done|].
  assert (p = q) as -> by (destruct (decide (p = q)); [done|]; by rewrite Ha in Hp).
  destruct Hq as [->|Ho]; [apply path_parent_join|].
  destruct (opens_in_real_dir _ _ _ _ Hd Ho) as [name' ->]. apply path_parent_join.
Qed.

Lemma write_names_absolute_path spec :
  validate_administrator spec = Ok () → af_action spec = AdminWrite →
  ∃ path, af_path spec = Some path ∧ is_absolute path = true.
Proof.
  intros Hv Ha. unfold validate_administrator in Hv. case_match eqn:Hc; [done|].
  unfold admin_shape_valid in Hv. rewrite Ha in Hv.
  destruct (af_path spec) as [path|] eqn:Hp; [|done]. exists path. split; [done|].
  unfold admin_paths_valid in Hc. rewrite Hp in Hc. simpl in Hc.
  destruct (valid_privileged_absolute_path path) eqn:Hvp; [|done].
  unfold valid_privileged_absolute_path in Hvp. case_match; [done|]. by apply andb_true_iff in Hvp as [? _].
Qed.

(** The administrator's service finds the directory the workspace has pinned. *)
Lemma bound_directory fs root path cancellable d leaf :
  bound_to fs root path → is_absolute path = true →
  names_entry (MkFilesystemService broker_administrator cancellable) fs path d leaf →
  ∃ canonical, follows fs (components root) = Some canonical ∧
    ∀ p, path_parent p = Some d → path_starts_with canonical p = true.
Proof.
  intros (a & d' & leaf' & Hscope & Hf & (_ & parent' & Hp' & Ho') & [[Hdos _] Hall]) Habs (_ & parent & Hp & Ho).
  unfold candidate_path in Hp, Hp'. simpl in *. rewrite Hscope, Habs in Hp'.
  assert (d' = d) as -> by congruence. exists (canonical_root a). split; [done|].
  intros p. apply path_starts_with_child. unfold allows_canonical in Hall. rewrite Hscope in Hall.
  by destruct d as [|[[]| | | |] [|[] ?]].
Qed.

(** C14 (safety): a write for which a workspace was asked stays in it, although the
    administrator's authority carries it out: whatever calls fail, every object
    that differs afterwards is in the directory the workspace's root leads to. *)
Theorem workspace_bound_write cancellable spec root w :
  tree (w_fs w) → af_action spec = AdminWrite → af_workspace_root spec = Some root →
  FieldPath ∈ af_workspace_fields spec →
  let '(w', _) := run_administrator_filesystem_with_cancellation cancellable spec w in
  ∀ p, w_fs w' !! p ≠ w_fs w !! p →
    ∃ canonical, follows (w_fs w) (components root) = Some canonical ∧
      path_starts_with canonical p = true.
Proof.
  intros Ht Ha Hroot Hin. set (inside := λ fs' : Fs, ∀ p, fs' !! p ≠ w_fs w !! p →
    ∃ canonical, follows (w_fs w) (components root) = Some canonical ∧ path_starts_with canonical p = true).
  assert (Hsame : inside (w_fs w)) by by intros p.
  cut (runs (w_fs w) (run_administrator_filesystem_with_cancellation cancellable spec)
    (λ _, inside) inside).
  { intros Hr. specialize (Hr w eq_refl).
    by destruct (run_administrator_filesystem_with_cancellation _ _ w) as [w' []]. }
  unfold run_administrator_filesystem_with_cancellation, required, admin.
  eapply runs_read; [apply reads_ensure|done|]. intros [] Hv.
  assert (Hv' : validate_administrator spec = Ok ()) by by destruct (validate_administrator spec) as [[]|].
  destruct (write_names_absolute_path spec Hv' Ha) as (path & Hpath & Habs).
  eapply runs_read; [by apply (reads_guards _ _ root path)|done|].
  intros [] Hbound.
  rewrite Ha.
  do 2 (eapply (runs_read _ _ _ (λ _, True)); [reads|done|intros ? _]).
  eapply runs_read; [apply reads_lift|done|]. unfold administrator_path. rewrite Hpath. intros ? [= <-].
  assert (Hafter : ∀ d leaf content fs',
    names_entry (MkFilesystemService broker_administrator cancellable) (w_fs w) path d leaf →
    real_dir (w_fs w) d →
    untouched d leaf (w_fs w) fs' ∨ committed d leaf (af_overwrite spec) content (w_fs w) fs' →
    inside fs').
  { intros d leaf content fs' Hn Hreal Hcase p Hp.
    destruct (bound_directory _ _ _ _ _ _ Hbound Habs Hn) as (canonical & Hf & Hd).
    exists canonical. split; [done|]. apply Hd.
    destruct Hcase; [by eapply untouched_in|by eapply committed_in]. }
  eapply runs_bind.
  - apply runs_map_error. eapply runs_weaken; [by apply runs_write|intros x fs' Hx; exact Hx|].
    intros fs' [->|(d' & leaf' & ? & [? _] & ?)]; eauto.
  - intros result fs' (d' & leaf' & ? & [? _] & ?). apply runs_ret. eauto.
Qed.
End binding.

Lemma workspace_bound_write_witness :
  let _ := plain_windows in let _ := failing [] in let _ := plain_encodings in
  let _ := plain_installation in let _ := ascii_unicode in
  let w := example_world in
  let spec := bound_write (lit "C:\work\src\a.txt") in
  is_ok (run_administrator_filesystem_with_cancellation false spec w).2 = true ∧
  let '(w', _) := run_administrator_filesystem_with_cancellation false spec w in
  ∀ p, w_fs w' !! p ≠ w_fs w !! p →
    ∃ canonical, follows (w_fs w) (components (lit "C:\work")) = Some canonical ∧
      path_starts_with canonical p = true.
Proof.
  intros ? ? ? ? ? w spec. split; [vm_compute; reflexivity|].
  apply (workspace_bound_write false spec); [|reflexivity..|left].
  apply check_tree_tree. vm_compute. reflexivity.
Defined.

(** Beside the workspace nothing is written. *)
Example write_beside_the_workspace :
  let _ := plain_windows in let _ := failing [] in let _ := plain_encodings in
  let _ := plain_installation in let _ := ascii_unicode in
  (run_administrator_filesystem_with_cancellation false (bound_write (lit "C:\secret.txt")) example_world).2
  = Err AdminOutsideAuthority.
Proof. vm_compute. reflexivity. Qed.
