(* ===== verification/Json.v ===== *)
(** * Json: the views of [serde_json::Value] the program uses

    A value is only looked at through [as_str], [as_bool], [as_array],
    [as_object] and [get], as the sources do.  A value has at most one of these
    forms. *)

From S2P Require Import Prelude Text.
#[local] Open Scope N_scope.

Class Json := {
  json : Type;
  is_null : json → bool;
  as_str : json → option ustr;
  as_bool : json → option bool;
  as_u64 : json → option N;
  as_array : json → option (list json);
  as_object : json → option (gmap ustr json);
  json_eqb : json → json → bool;
  as_i64 : json → option Z;
  json_null : json;
  json_bool : bool → json;
  json_int : Z → json;
  json_string : ustr → json;
  json_array : list json → json;
  json_object : gmap ustr json → json;
  is_null_null : is_null json_null = true;
  as_bool_bool b : as_bool (json_bool b) = Some b;
  as_i64_int z : (-0x8000000000000000 ≤ z ≤ 0x7FFFFFFFFFFFFFFF)%Z → as_i64 (json_int z) = Some z;
  as_u64_int n : n ≤ u64_max → as_u64 (json_int (Z.of_N n)) = Some n;
  as_u64_null : as_u64 json_null = None;
  as_str_string s : as_str (json_string s) = Some s;
  as_str_null : as_str json_null = None;
  as_str_array l : as_str (json_array l) = None;
  as_str_object m : as_str (json_object m) = None;
  as_array_string s : as_array (json_string s) = None;
  as_array_object m : as_array (json_object m) = None;
  as_object_null : as_object json_null = None;
  as_object_string s : as_object (json_string s) = None;
  as_object_array l : as_object (json_array l) = None;
  as_array_array l : as_array (json_array l) = Some l;
  as_object_object m : as_object (json_object m) = Some m
}.

(** [Value::get] with a string: a member of an object. *)
Definition get `{Json} (key : ustr) (v : json) : option json :=
  m ← as_object v; m !! key.
Definition get_str `{Json} (key : ustr) (v : json) : option ustr := get key v ≫= as_str.
(** [==] on optional values. *)
Definition json_same `{Json} (a b : option json) : bool :=
  match a, b with
  | Some a, Some b => json_eqb a b
  | None, None => true
  | _, _ => false
  end.
(** Building a value. *)
Definition obj `{Json} (members : list (string * json)) : json :=
  json_object (list_to_map (prod_map lit id <$> members)).
Definition js `{Json} (s : string) : json := json_string (lit s).
Definition jn `{Json} (n : N) : json := json_int (Z.of_N n).
Definition jopt `{Json} {A} (f : A → json) (o : option A) : json :=
  match o with Some a => f a | None => json_null end.
Definition jstrs `{Json} (l : list ustr) : json := json_array (json_string <$> l).
(** [Value::pointer] along member names. *)
Fixpoint pointer `{Json} (keys : list string) (v : json) : option json :=
  match keys with
  | [] => Some v
  | key :: keys => get (lit key) v ≫= pointer keys
  end.
Definition get_bool `{Json} (key : ustr) (v : json) : option bool := get key v ≫= as_bool.

(** The first member of a name. *)
Fixpoint first_member `{Json} (key : string) (members : list (string * json)) : option json :=
  match members with
  | [] => None
  | (k, v) :: members => if bool_decide (lit k = lit key) then Some v else first_member key members
  end.
Lemma get_obj `{Json} key members :
  get key (obj members) = list_to_map (M := gmap ustr json) (prod_map lit id <$> members) !! key.
Proof. unfold get, obj. by rewrite as_object_object. Qed.
Lemma get_member `{Json} key members : get (lit key) (obj members) = first_member key members.
Proof.
  rewrite get_obj. induction members as [|[k v] members IH]; [done|]. simpl.
  case_bool_decide as Hk; [by rewrite Hk, lookup_insert_eq|by rewrite lookup_insert_ne].
Qed.

(** ** What [serde]'s derived decoders do with a value

    A struct is read from an object, or from an array that lists its fields in
    order; an enumeration of unit variants from the variant's name, or from an
    object that maps the name to [null]; an [Option] field may be absent or
    [null]. *)
Section decode.
Context `{Json}.

Definition decode_u32 (v : json) : option N :=
  n ← as_u64 v; if n <=? 0xFFFFFFFF then Some n else None.

Definition decode_list {A} (dec : json → option A) (v : json) : option (list A) :=
  l ← as_array v; mapM dec l.

Definition decode_option {A} (dec : json → option A) (v : json) : option (option A) :=
  if is_null v then Some None else Some <$> dec v.

Definition decode_variant {A} (variants : list (ustr * A)) (v : json) : option A :=
  name ← match as_str v with
         | Some name => Some name
         | None =>
             m ← as_object v;
             match map_to_list m with
             | [(name, content)] => if is_null content then Some name else None
             | _ => None
             end
         end;
  snd <$> find (λ variant, bool_decide (variant.1 = name)) variants.

(** The fields of a struct that denies unknown ones. *)
Definition struct_fields (keys : list ustr) (v : json) : option (gmap ustr json) :=
  match as_object v with
  | Some m => if bool_decide (map_Forall (λ key _, key ∈ keys) m) then Some m else None
  | None =>
      l ← as_array v;
      if Nat.eqb (length l) (length keys) then Some (list_to_map (zip keys l)) else None
  end.

Definition field {A} (dec : json → option A) (key : ustr) (m : gmap ustr json) : option A :=
  m !! key ≫= dec.
Definition field_option {A} (dec : json → option A) (key : ustr) (m : gmap ustr json) :
    option (option A) :=
  match m !! key with Some v => decode_option dec v | None => Some None end.
Definition field_default {A} (dec : json → option A) (absent : A) (key : ustr)
    (m : gmap ustr json) : option A :=
  match m !! key with Some v => dec v | None => Some absent end.
End decode.

(** A concrete implementation, for the witnesses. *)
#[warnings="-register-all"]
Inductive DemoJson :=
  | JNull
  | JBool (b : bool)
  | JNumber (n : Z)
  | JString (s : ustr)
  | JArray (l : list DemoJson)
  | JObject (m : list (ustr * DemoJson)).

Fixpoint demo_eqb (a b : DemoJson) : bool :=
  match a, b with
  | JNull, JNull => true
  | JBool a, JBool b => Bool.eqb a b
  | JNumber a, JNumber b => Z.eqb a b
  | JString a, JString b => bool_decide (a = b)
  | JArray l, JArray m =>
      (fix go l m := match l, m with
         | [], [] => true
         | a :: l, b :: m => demo_eqb a b && go l m
         | _, _ => false
         end) l m
  | JObject l, JObject m =>
      (fix go l m := match l, m with
         | [], [] => true
         | (k, a) :: l, (k', b) :: m => bool_decide (k = k') && demo_eqb a b && go l m
         | _, _ => false
         end) l m
  | _, _ => false
  end.
Definition demo_json : Json.
Proof.
  refine {| json := DemoJson;
    is_null v := match v with JNull => true | _ => false end;
    as_str v := match v with JString s => Some s | _ => None end;
    as_bool v := match v with JBool b => Some b | _ => None end;
    as_u64 v := match v with JNumber n => if (0 <=? n)%Z then Some (Z.to_N n) else None | _ => None end;
    as_i64 v := match v with JNumber n => Some n | _ => None end;
    json_eqb := demo_eqb; json_null := JNull; json_bool := JBool; json_int := JNumber;
    as_array v := match v with JArray l => Some l | _ => None end;
    as_object v := match v with JObject m => Some (list_to_map m) | _ => None end;
    json_string := JString;
    json_array := JArray;
    json_object m := JObject (map_to_list m) |}.
  all: try done.
  - intros n _. rewrite (proj2 (Z.leb_le 0 (Z.of_N n))) by lia. by rewrite N2Z.id.
  - intros m. by rewrite list_to_map_to_list.
Defined.
