(* ===== verification/Policy.v ===== *)
(** * Policy: the data of the capability policy and the classification of calls

    [src/src-tauri/src/execution/policy.rs]: tool descriptors, the loaded policy,
    the reasons of a denial, and how a call of a public tool is classified by its
    name and arguments.  [PolicyDocument] checks and loads the policy file,
    [PolicyReview] reviews elevated calls, [PolicyDecision] decides. *)

From S2P Require Import Prelude Text TaskSummary StateModel WindowsPath BrokerProtocol Json.
#[local] Open Scope N_scope.

(** ** Descriptors *)

(* @src execution/policy.rs:33-38 ToolDescriptor *)
Record ToolDescriptor := MkToolDescriptor {
  td_name : ustr;
  td_capability : Capability;
  td_task_kind : TaskKind
}.

(* @src execution/policy.rs:40-49 PublicCapabilityDeclaration *)
Record PublicCapabilityDeclaration := MkPublicCapabilityDeclaration {
  pcd_read : bool;
  pcd_write : bool;
  pcd_process_exec : bool;
  pcd_git : bool;
  pcd_network : bool;
  pcd_privilege : bool;
  pcd_control_plane : bool
}.

(* @src execution/policy.rs:52-60 PublicCapabilityDeclaration::READ *)
Definition DECLARE_READ := MkPublicCapabilityDeclaration true false false false false false false.
(* @src execution/policy.rs:61-69 PublicCapabilityDeclaration::PROCESS *)
Definition DECLARE_PROCESS := MkPublicCapabilityDeclaration false false true false false false false.
(* @src execution/policy.rs:70-78 PublicCapabilityDeclaration::GIT *)
Definition DECLARE_GIT := MkPublicCapabilityDeclaration false false false true false false false.
(* @src execution/policy.rs:79-95 PublicCapabilityDeclaration::workflow *)
Definition workflow (write process_exec git network privilege : bool) :
    PublicCapabilityDeclaration :=
  MkPublicCapabilityDeclaration true write process_exec git network privilege false.

(* @src execution/policy.rs:98-104 PublicActionDescriptor *)
Record PublicActionDescriptor := MkPublicActionDescriptor {
  pad_tool : ustr;
  pad_action : ustr;
  pad_descriptor : ToolDescriptor;
  pad_transitive : PublicCapabilityDeclaration
}.

(* @src execution/policy.rs:22-31 CONTROL_PLANE_NAMES *)
Definition CONTROL_PLANE_NAMES : list ustr :=
  [lit "request_permissions"; lit "workspace_select"; lit "workspace_add"; lit "workspace_remove";
   lit "permission_mode_change"; lit "credential_reset"; lit "tunnel_config_write";
   lit "mcp_config_write"].

(* @src execution/policy.rs:106-116 PUBLIC_CORE_TOOLS *)
Definition PUBLIC_CORE_TOOLS : list ustr :=
  [lit "workspace_context"; lit "agent_workflow"; lit "filesystem"; lit "exec_command";
   lit "command_control"; lit "task_control"; lit "git_workflow"; lit "document_workflow";
   lit "view_image"].
(* @src execution/policy.rs:117-125 PUBLIC_EDIT_MAX *)
Definition PUBLIC_EDIT_MAX : list ustr :=
  [lit "workspace_context"; lit "agent_workflow"; lit "filesystem"; lit "task_control";
   lit "git_workflow"; lit "document_workflow"; lit "view_image"].

(* @src execution/policy.rs:127-228 PINNED_TOOLS *)
Definition PINNED_TOOLS : list ToolDescriptor :=
  [MkToolDescriptor (lit "server_info") CapRead OtherTask;
   MkToolDescriptor (lit "check_exec_environment") CapRead OtherTask;
   MkToolDescriptor (lit "get_default_cwd") CapRead OtherTask;
   MkToolDescriptor (lit "set_default_cwd") CapWrite OtherTask;
   MkToolDescriptor (lit "read_file") CapRead TaskSummary.ReadFile;
   MkToolDescriptor (lit "list_dir") CapRead TaskSummary.ReadFile;
   MkToolDescriptor (lit "list_files") CapRead TaskSummary.ReadFile;
   MkToolDescriptor (lit "search_text") CapRead SearchCode;
   MkToolDescriptor (lit "apply_patch") CapWrite ModifyFile;
   MkToolDescriptor (lit "exec_command") CapProcessExec ExecuteCommand;
   MkToolDescriptor (lit "write_stdin") CapProcessExec ExecuteCommand;
   MkToolDescriptor (lit "kill_session") CapProcessExec ExecuteCommand;
   MkToolDescriptor (lit "read_output") CapProcessExec ExecuteCommand;
   MkToolDescriptor (lit "git_status") CapGit GitOperation;
   MkToolDescriptor (lit "git_diff") CapGit GitOperation;
   MkToolDescriptor (lit "git_log") CapGit GitOperation;
   MkToolDescriptor (lit "git_show") CapGit GitOperation;
   MkToolDescriptor (lit "git_blame") CapGit GitOperation;
   MkToolDescriptor (lit "request_permissions") CapControlPlane OtherTask;
   MkToolDescriptor (lit "view_image") CapRead TaskSummary.ReadFile].

(* @src execution/policy.rs:230-235 PolicyError *)
Inductive PolicyError := ReadFailed | InvalidToml | ContractMismatch (field : string).

(* @src execution/policy.rs:249-261 DenyReason *)
Inductive DenyReason :=
  | UnknownTool | DenyControlPlane | ToolNotAllowedInMode | IndirectProcessExecInEdit
  | IndirectControlPlane | IndirectUnknownCapability | NetworkRouteNotAvailable
  | PrivilegedRouteNotAvailable | ElevatedExecNotReviewed | VerbatimExecutionPath.

(* @src execution/policy.rs:263-268 PolicyDecision *)
Record PolicyDecision := MkPolicyDecision {
  pd_descriptor : ToolDescriptor;
  pd_allowed : bool;
  pd_deny_reason : option DenyReason
}.

(* @src execution/policy.rs:270-279 CapabilityPolicy *)
Record CapabilityPolicy := MkCapabilityPolicy {
  cp_edit_allowed : gset ustr;
  cp_full_allowed : gset ustr;
  cp_elevated_allowed : gset ustr;
  cp_blocked : gset ustr;
  cp_public_edit_allowed : gset ustr;
  cp_public_full_allowed : gset ustr;
  cp_public_elevated_allowed : gset ustr
}.

(* @src execution/policy.rs:607-613 denied *)
Definition denied (descriptor : ToolDescriptor) (reason : DenyReason) : PolicyDecision :=
  MkPolicyDecision descriptor false (Some reason).
Definition permitted (descriptor : ToolDescriptor) : PolicyDecision :=
  MkPolicyDecision descriptor true None.

(* @src execution/policy.rs:615-633 public_descriptor *)
Definition public_descriptor (tool action : ustr) (capability : Capability) (task_kind : TaskKind)
    (transitive : PublicCapabilityDeclaration) : PublicActionDescriptor :=
  MkPublicActionDescriptor tool action (MkToolDescriptor tool capability task_kind) transitive.

(* @src execution/policy.rs:1028-1032 is_control_plane_name *)
Definition is_control_plane_name (name : ustr) : bool :=
  bool_decide (name ∈ CONTROL_PLANE_NAMES) || starts_with (lit "localbridge.") name ||
  starts_with (lit "localbridge_") name.

(** [[&str]::contains]. *)
Definition one_of (names : list ustr) (name : ustr) : bool := bool_decide (name ∈ names).

(** ** Classifying a public call *)

Section classify.
Context `{Json}.

(** The [filesystem] tool. *)
(* @src execution/policy.rs:648-688 classify_public_action *)
Definition classify_filesystem (action : ustr) : option PublicActionDescriptor :=
  if negb (one_of [lit "list"; lit "stat"; lit "read"; lit "write"; lit "replace"; lit "patch";
                   lit "search"; lit "search_content"; lit "copy"; lit "move"; lit "delete";
                   lit "hash"] action) then None else
  let '(capability, task_kind, declaration) :=
    if one_of [lit "search"; lit "search_content"] action then (CapRead, SearchCode, DECLARE_READ)
    else if one_of [lit "list"; lit "stat"; lit "read"; lit "hash"] action
    then (CapRead, TaskSummary.ReadFile, DECLARE_READ)
    else (CapWrite, ModifyFile, workflow true false false false false) in
  Some (public_descriptor (lit "filesystem") action capability task_kind declaration).

(* @src execution/policy.rs:689-703 classify_public_action *)
Definition classify_exec_command (dry_run : bool) : PublicActionDescriptor :=
  public_descriptor (lit "exec_command") (if dry_run then lit "explain" else lit "execute")
    CapProcessExec (if dry_run then OtherTask else ExecuteCommand)
    (if dry_run then DECLARE_READ else DECLARE_PROCESS).

(* @src execution/policy.rs:704-741 classify_public_action *)
Definition classify_command_control (action : ustr) : option PublicActionDescriptor :=
  if one_of [lit "adopt"; lit "poll"; lit "read"; lit "write"; lit "kill"] action
  then Some (public_descriptor (lit "command_control") action CapProcessExec ExecuteCommand
    DECLARE_PROCESS)
  else None.

(* @src execution/policy.rs:742-765 classify_public_action *)
Definition classify_task_control (action : ustr) : option PublicActionDescriptor :=
  if one_of [lit "list"; lit "get"] action
  then Some (public_descriptor (lit "task_control") action CapWorkflow OtherTask DECLARE_READ)
  else if bool_decide (action = lit "cancel")
  then Some (public_descriptor (lit "task_control") action CapWorkflow ExecuteCommand
    (workflow true false false false false))
  else None.

(* @src execution/policy.rs:766-803 classify_public_action *)
Definition classify_git_workflow (action : ustr) : option PublicActionDescriptor :=
  if one_of [lit "status"; lit "diff"; lit "log"; lit "show"; lit "blame"] action
  then Some (public_descriptor (lit "git_workflow") action CapGit GitOperation DECLARE_GIT)
  else None.

(* @src execution/policy.rs:804-848 classify_public_action *)
Definition classify_document_workflow (action : ustr) : option PublicActionDescriptor :=
  let tool := lit "document_workflow" in
  if one_of [lit "inspect"; lit "search"] action
  then Some (public_descriptor tool action CapRead TaskSummary.ReadFile DECLARE_READ)
  else if one_of [lit "create"; lit "edit"; lit "rebuild"] action
  then Some (public_descriptor tool action CapWrite ModifyFile (workflow true false false false false))
  else if bool_decide (action = lit "convert")
  then Some (public_descriptor tool action CapWorkflow ModifyFile
    (workflow true true false false false))
  else None.

(** One entry of [directory_changes]. *)
(* @src execution/policy.rs:884-901 classify_public_action *)
Definition directory_change_valid (change : json) : bool :=
  match as_object change with
  | None => false
  | Some change =>
      Nat.eqb (size change) 2 && bool_decide (is_Some (change !! lit "action")) &&
      bool_decide (is_Some (change !! lit "path")) &&
      match change !! lit "action" ≫= as_str with
      | Some action => one_of [lit "create_directory"; lit "remove_empty_directory"] action
      | None => false
      end &&
      match change !! lit "path" ≫= as_str with
      | Some path => negb (bool_decide (path = []))
      | None => false
      end
  end.

(* @src execution/policy.rs:856-934 classify_public_action *)
Definition classify_agent_workflow (action : ustr) (dry_run : bool) (arguments : json) :
    option PublicActionDescriptor :=
  object ← as_object arguments;
  let phase := object !! lit "phase" ≫= as_str in
  if bool_decide (is_Some (object !! lit "phase")) &&
     negb match phase with
          | Some phase => one_of [lit "prepare"; lit "edit"; lit "verify"; lit "persist"] phase
          | None => false
          end
  then None else
  commands_present ←
    (if bool_decide (phase = Some (lit "verify")) then Some true else
     match object !! lit "commands" with
     | None => Some false
     | Some commands => commands ← as_array commands; Some (negb (Nat.eqb (length commands) 0))
     end);
  patch_present ←
    match object !! lit "patch" with
    | None => Some false
    | Some value => _ ← as_str value; Some true
    end;
  directory_changes_present ←
    match object !! lit "directory_changes" with
    | None => Some false
    | Some value =>
        changes ← as_array value;
        if Nat.eqb (length changes) 0 || (32 <? length changes)%nat ||
           negb (forallb directory_change_valid changes)
        then None else Some true
    end;
  if negb (one_of [lit "diagnose"; lit "document"; lit "bugfix"; lit "feature"; lit "refactor";
                   lit "test_failure"; lit "build_release"; lit "resume"; lit "custom"] action)
  then None else
  let declaration :=
    if dry_run : bool then workflow false false false false false
    else workflow (patch_present || directory_changes_present) commands_present true false false in
  Some (public_descriptor (lit "agent_workflow") action CapWorkflow OtherTask declaration).

(* @src execution/policy.rs:634-647 classify_public_action *)
Definition classify_public_action (tool_name : ustr) (arguments : json) :
    option PublicActionDescriptor :=
  let action := get_str (lit "action") arguments in
  let dry_run := default false (get_bool (lit "dry_run") arguments) in
  let no_action := bool_decide (action = None) in
  if bool_decide (tool_name = lit "workspace_context") && no_action then
    Some (public_descriptor tool_name (lit "context") CapRead TaskSummary.ReadFile DECLARE_READ)
  else if bool_decide (tool_name = lit "filesystem") then action ≫= classify_filesystem
  else if bool_decide (tool_name = lit "exec_command") && no_action then
    Some (classify_exec_command dry_run)
  else if bool_decide (tool_name = lit "command_control") then action ≫= classify_command_control
  else if bool_decide (tool_name = lit "task_control") then action ≫= classify_task_control
  else if bool_decide (tool_name = lit "git_workflow") then action ≫= classify_git_workflow
  else if bool_decide (tool_name = lit "document_workflow") then
    action ≫= classify_document_workflow
  else if bool_decide (tool_name = lit "view_image") && no_action then
    Some (public_descriptor tool_name (lit "inspect") CapRead TaskSummary.ReadFile DECLARE_READ)
  else if bool_decide (tool_name = lit "agent_workflow") then
    action ← action; classify_agent_workflow action dry_run arguments
  else None.
End classify.
