(* ===== verification/PolicyReview.v ===== *)
(** * PolicyReview: the review of an elevated call

    [src/src-tauri/src/execution/policy.rs], lines 939-1026 and 1232-1506: the
    three typed routes of the administrator gateway and the older untyped one,
    the static review of shell commands, and the markers of LocalBridge's own
    files.  The file system is an interface; the decoders are the ones [serde]
    derives. *)

From S2P Require Import Prelude Text TaskSummary WindowsPath BrokerProtocol Json.
#[local] Open Scope N_scope.

(** ** Text searches *)

Definition trim_start (s : ustr) : ustr := drop_while is_whitespace s.

(** [str::find] with a predicate. *)
Fixpoint find_char (f : N → bool) (s : ustr) : option nat :=
  match s with
  | [] => None
  | c :: s => if f c then Some O else S <$> find_char f s
  end.

(** ** The kind of a command *)

(* @src execution/policy.rs:978-992 command_invokes_any *)
Definition command_invokes_any (command : ustr) (invocations : list ustr) : bool :=
  let segments := split_on (λ c, (c =? 0x3B) || (c =? 0xA)) command in
  let segments := segments ≫= split_str (lit "&&") in
  let segments := segments ≫= split_str (lit "||") in
  existsb (λ segment,
    existsb (λ invocation,
      bool_decide (segment = invocation) ||
      match strip_prefix invocation segment with
      | Some (c :: _) => is_whitespace c
      | _ => false
      end) invocations) (map trim_start segments).

(* @src execution/policy.rs:939-976 command_task_kind *)
Definition command_task_kind (command : ustr) : TaskKind :=
  let command := to_ascii_lowercase command in
  if command_invokes_any command
      [lit "cargo test"; lit "npm test"; lit "npm run test"; lit "pnpm test"; lit "pnpm run test";
       lit "yarn test"; lit "bun test"; lit "dotnet test"; lit "go test"; lit "pytest";
       lit "vitest"]
  then TestTask
  else if command_invokes_any command
      [lit "cargo build"; lit "npm run build"; lit "pnpm build"; lit "pnpm run build";
       lit "yarn build"; lit "bun run build"; lit "dotnet build"; lit "go build"; lit "tauri build"]
  then BuildTask
  else ExecuteCommand.

(** ** Shell commands *)

(* @src execution/shell.rs:16-22 ShellSelector *)
Inductive ShellSelector := ShellAuto | Powershell | Pwsh | WindowsPowershell | Cmd.

Definition dquote : N := 0x22.

(* @src execution/policy.rs:994-1017 static_nested_cmd_inner *)
Definition static_nested_cmd_inner (command : ustr) : option ustr :=
  let trimmed := trim command in
  '(program, rest) ←
    match strip_prefix [dquote] trimmed with
    | Some quoted =>
        e ← find_char (N.eqb dquote) quoted; Some (take e quoted, drop (S e) quoted)
    | None =>
        e ← find_char is_whitespace trimmed; Some (take e trimmed, drop e trimmed)
    end;
  let program := default program (last (split_on is_sep program)) in
  if negb (existsb (λ name, bool_decide (to_ascii_lowercase program = name))
             [lit "cmd"; lit "cmd.exe"]) then None else
  let rest := trim_start rest in
  let switch_end := default (length rest) (find_char is_whitespace rest) in
  if negb (existsb (λ name, bool_decide (to_ascii_lowercase (take switch_end rest) = name))
             [lit "/c"; lit "/k"]) then None else
  let inner := trim_start (drop switch_end rest) in
  if bool_decide (inner = []) then None else Some inner.

(* @src execution/policy.rs:1019-1026 nested_cmd_body *)
Definition nested_cmd_body (inner : ustr) : ustr :=
  let inner := trim inner in
  match strip_prefix [dquote] inner ≫= strip_suffix [dquote] with
  | Some (c :: value) => c :: value
  | _ => inner
  end.

(** [matches!(ch, '$' | '`' | '+' | '@' | '(' | ')' | '{' | '}' | '[' | ']')]. *)
Definition powershell_dynamic_char (ch : N) : bool :=
  bool_decide (ch ∈ lit "$`+@(){}[]").

(* @src execution/policy.rs:1377-1409 administrator_powershell_dynamic_target_construction *)
Definition administrator_powershell_dynamic_target_construction (command : ustr) : bool :=
  if existsb powershell_dynamic_char command then true else
  let lower := to_ascii_lowercase command in
  existsb (λ marker, contains marker lower)
    [lit "invoke-expression"; lit " iex "; lit "set-variable"; lit "new-variable";
     lit "set-alias"; lit "new-alias"; lit "invoke-command"; lit "foreach-object";
     lit "start-process"; lit " -join "; lit " -f "; lit "function "; lit "filter ";
     lit "workflow "].

(* @src execution/policy.rs:1411-1424 administrator_cmd_dynamic_target_construction *)
Definition administrator_cmd_dynamic_target_construction (command : ustr) : bool :=
  if existsb (λ ch, bool_decide (ch ∈ lit "%!^")) command then true else
  existsb (λ word, negb (bool_decide (word = [])) &&
    existsb (λ name, bool_decide (to_ascii_lowercase word = name))
      [lit "call"; lit "for"; lit "setlocal"])
    (split_on (λ ch, is_whitespace ch || bool_decide (ch ∈ lit "&|();")) command).

(* @src execution/policy.rs:1362-1375 administrator_shell_dynamic_target_construction *)
Definition administrator_shell_dynamic_target_construction (shell : ShellSelector)
    (command : ustr) : bool :=
  match shell with
  | Cmd => administrator_cmd_dynamic_target_construction command
  | ShellAuto | Powershell | Pwsh | WindowsPowershell =>
      administrator_powershell_dynamic_target_construction command ||
      is_some_and (λ inner, administrator_cmd_dynamic_target_construction (nested_cmd_body inner))
        (static_nested_cmd_inner command)
  end.

(** ** The markers of LocalBridge's own files *)

Definition CONTROL_PLANE_MARKERS : list ustr :=
  [lit "localbridge"; lit "com.localbridge.desktop"; lit "runtime-policy.toml";
   lit "runtime-manifest.toml"; lit "startup-profile.json"].

(* @src execution/policy.rs:1444-1455 explicit_control_plane_reference *)
Definition explicit_control_plane_reference (value : ustr) : bool :=
  let lower := to_ascii_lowercase value in
  existsb (λ marker, contains marker lower) CONTROL_PLANE_MARKERS.

(** [filter(is_ascii_alphanumeric).flat_map(to_lowercase)]. *)
Definition compact (value : ustr) : ustr :=
  to_ascii_lowercase (List.filter is_ascii_alphanumeric value).

(* @src execution/policy.rs:1457-1475 explicit_control_plane_reference_obfuscated *)
Definition explicit_control_plane_reference_obfuscated (value : ustr) : bool :=
  if explicit_control_plane_reference value then true else
  let compact := compact value in
  existsb (λ marker, contains marker compact)
    [lit "localbridge"; lit "comlocalbridgedesktop"; lit "runtimepolicytoml";
     lit "runtimemanifesttoml"; lit "startupprofilejson"].

(** ** The files a review looks at *)

(** What the review asks of Windows: whether a path itself, not what a link there
    points to, is a regular file; the canonical form of a path; whether a
    directory is there; and the directory [GetSystemDirectoryW] reports, [None]
    when it fails or does not fit the buffer. *)
Class ReviewHost := {
  is_regular_file : ustr → bool;
  canonicalize : ustr → option ustr;
  is_dir : ustr → bool;
  system_directory : option ustr
}.

(** [PathBuf::join] with a plain file name. *)
Definition join (root name : ustr) : ustr :=
  let need_sep :=
    match last root with Some c => negb (is_sep c) | None => false end &&
    negb match parse_prefix root with
         | Some (Disk _) => Nat.eqb (length root) 2
         | _ => false
         end in
  root ++ (if need_sep then [backslash] else []) ++ name.

(* @src execution/policy.rs:1502-1505 same_windows_path *)
Definition same_windows_path (left right : ustr) : bool := eq_ignore_ascii_case left right.

Section host.
Context `{ReviewHost}.

(* @src execution/policy.rs:1477-1483 canonical_regular_file *)
Definition canonical_regular_file (path : ustr) : option ustr :=
  if is_regular_file path then canonicalize path else None.

(* @src execution/policy.rs:1485-1494 trusted_system_program *)
Definition trusted_system_program (name : ustr) : option ustr :=
  root ← system_directory;
  let program := join root name in
  _ ← canonical_regular_file program;
  Some program.

(* @src execution/policy.rs:1496-1500 reviewed_elevated_program *)
Definition reviewed_elevated_program : option ustr := trusted_system_program (lit "whoami.exe").

(** The argument lists the diagnostic may have. *)
Definition reviewed_arguments (args : list ustr) : bool :=
  match args with
  | [] => true
  | [arg] => existsb (λ known, bool_decide (arg = known))
               [lit "/all"; lit "/groups"; lit "/priv"; lit "/user"]
  | _ => false
  end.
End host.

(** ** The reviews *)

(* @src execution/policy.rs:354-361 AdministratorShellRequest *)
Record AdministratorShellRequest := MkAdministratorShellRequest {
  as_operation : ustr;
  as_shell : ShellSelector;
  as_command : ustr;
  as_workdir : ustr;
  as_timeout_ms : N;
  as_max_output_bytes : N
}.

Section review.
Context `{Json} `{ReviewHost}.

Definition decode_exec_spec (v : json) : option ElevatedExecSpec :=
  m ← struct_fields [lit "program"; lit "args"; lit "workdir"; lit "timeout_ms";
                     lit "max_output_bytes"] v;
  program ← field as_str (lit "program") m;
  args ← field (decode_list as_str) (lit "args") m;
  workdir ← field_option as_str (lit "workdir") m;
  timeout_ms ← field decode_u32 (lit "timeout_ms") m;
  max_output_bytes ← field decode_u32 (lit "max_output_bytes") m;
  Some (MkElevatedExecSpec program args workdir timeout_ms max_output_bytes).

Definition decode_shell_request (v : json) : option AdministratorShellRequest :=
  m ← struct_fields [lit "operation"; lit "shell"; lit "command"; lit "workdir";
                     lit "timeout_ms"; lit "max_output_bytes"] v;
  operation ← field as_str (lit "operation") m;
  shell ← field (decode_variant [(lit "auto", ShellAuto); (lit "powershell", Powershell);
                   (lit "pwsh", Pwsh); (lit "windows_powershell", WindowsPowershell);
                   (lit "cmd", Cmd)]) (lit "shell") m;
  command ← field as_str (lit "command") m;
  workdir ← field as_str (lit "workdir") m;
  timeout_ms ← field decode_u32 (lit "timeout_ms") m;
  max_output_bytes ← field decode_u32 (lit "max_output_bytes") m;
  Some (MkAdministratorShellRequest operation shell command workdir timeout_ms max_output_bytes).

Definition decode_privileged_spec (v : json) : option PrivilegedFilesystemSpec :=
  m ← struct_fields [lit "action"; lit "path"; lit "destination"; lit "content_base64";
                     lit "recursive"] v;
  action ← field (decode_variant [(lit "read_file", BrokerProtocol.ReadFile);
                    (lit "write_file", WriteFile); (lit "create_directory", CreateDirectory);
                    (lit "rename", Rename); (lit "delete", Delete)]) (lit "action") m;
  path ← field as_str (lit "path") m;
  destination ← field_option as_str (lit "destination") m;
  content_base64 ← field_option as_str (lit "content_base64") m;
  recursive ← field_default as_bool false (lit "recursive") m;
  Some (MkPrivilegedFilesystemSpec action path destination content_base64 recursive).

(* @src execution/policy.rs:1244-1275 reviewed_legacy_elevated_exec *)
Definition reviewed_legacy_elevated_exec (arguments : json) : bool :=
  match decode_exec_spec arguments with
  | None => false
  | Some spec =>
      if negb (is_ok (validate_exec spec)) || is_some (es_workdir spec) then false else
      match reviewed_elevated_program ≫= canonicalize with
      | None => false
      | Some trusted_program =>
          match canonical_regular_file (es_program spec) with
          | None => false
          | Some requested =>
              same_windows_path requested trusted_program && reviewed_arguments (es_args spec)
          end
      end
  end.

(** [object.remove("operation")], and the rest of the object when it was this
    operation. *)
Definition without_operation (operation : ustr) (arguments : json) : option json :=
  object ← as_object arguments;
  if bool_decide (object !! lit "operation" ≫= as_str = Some operation)
  then Some (json_object (delete (lit "operation") object)) else None.

(* @src execution/policy.rs:1277-1330 reviewed_administrator_process *)
Definition reviewed_administrator_process (arguments : json) : bool :=
  match without_operation (lit "process") arguments ≫= decode_exec_spec with
  | None => false
  | Some spec =>
      if negb (is_ok (validate_exec spec)) ||
         explicit_control_plane_reference (es_program spec) ||
         existsb explicit_control_plane_reference (es_args spec) ||
         is_some_and explicit_control_plane_reference (es_workdir spec)
      then false else
      match canonical_regular_file (es_program spec),
            reviewed_elevated_program ≫= canonical_regular_file with
      | Some requested, Some trusted_program =>
          if negb (same_windows_path requested trusted_program) then false else
          if is_some_and (λ workdir, negb (is_absolute workdir) || negb (is_dir workdir) ||
               explicit_control_plane_reference workdir) (es_workdir spec)
          then false
          else reviewed_arguments (es_args spec)
      | _, _ => false
      end
  end.

(* @src execution/policy.rs:1332-1360 reviewed_administrator_shell *)
Definition reviewed_administrator_shell (arguments : json) : bool :=
  match decode_shell_request arguments with
  | None => false
  | Some request =>
      if negb (bool_decide (as_operation request = lit "shell")) ||
         bool_decide (as_command request = []) ||
         (MAX_ELEVATED_STRING_BYTES <? len (as_command request)) ||
         has_nul (as_command request) ||
         (as_timeout_ms request =? 0) ||
         (MAX_ELEVATED_TIMEOUT_MS <? as_timeout_ms request) ||
         (as_max_output_bytes request =? 0) ||
         (MAX_ELEVATED_OUTPUT_BYTES <? as_max_output_bytes request) ||
         explicit_control_plane_reference_obfuscated (as_command request) ||
         explicit_control_plane_reference (as_workdir request) ||
         administrator_shell_dynamic_target_construction (as_shell request) (as_command request)
      then false else
      negb (negb (is_absolute (as_workdir request)) || negb (is_dir (as_workdir request)) ||
            is_windows_verbatim_path (as_workdir request) || has_line_break (as_workdir request) ||
            has_nul (as_workdir request))
  end.

(* @src execution/policy.rs:1426-1442 reviewed_administrator_filesystem *)
Definition reviewed_administrator_filesystem (arguments : json) : bool :=
  match without_operation (lit "filesystem") arguments ≫= decode_privileged_spec with
  | None => false
  | Some spec =>
      is_ok (validate_privileged spec) && allows (pf_path spec) &&
      is_none_or allows (pf_destination spec)
  end.

(* @src execution/policy.rs:1232-1242 reviewed_elevated_exec *)
Definition reviewed_elevated_exec (arguments : json) : bool :=
  match get_str (lit "operation") arguments with
  | None => reviewed_legacy_elevated_exec arguments
  | Some operation =>
      if bool_decide (operation = lit "process") then reviewed_administrator_process arguments
      else if bool_decide (operation = lit "shell") then reviewed_administrator_shell arguments
      else if bool_decide (operation = lit "filesystem")
      then reviewed_administrator_filesystem arguments
      else false
  end.
End review.
