(* ===== verification/PolicyDocument.v ===== *)
(** * PolicyDocument: the policy file and its frozen contract

    [src/src-tauri/src/execution/policy.rs], lines 281-438 and 1034-1230.  The
    file [runtime-policy.toml] is decoded, compared with the contract the program
    is built for, and turned into a [CapabilityPolicy].  The TOML decoder is an
    interface. *)

From S2P Require Import Prelude Text TaskSummary StateModel Policy.
#[local] Open Scope N_scope.

(** ** The document *)

(* @src execution/policy.rs:299-307 LocalBridgePublicSection *)
Record LocalBridgePublicSection := MkLocalBridgePublicSection {
  lp_edit_tools : list ustr;
  lp_full_tools : list ustr;
  lp_elevated_tools : list ustr;
  lp_unknown_action : ustr;
  lp_network : ustr;
  lp_privilege : ustr;
  lp_control_plane : ustr
}.

(* @src execution/policy.rs:310-319 CapabilitySection *)
Record CapabilitySection := MkCapabilitySection {
  cs_unknown : ustr;
  cs_process_exec_in_edit : ustr;
  cs_process_exec_in_full : ustr;
  cs_elevated_exec_in_edit : ustr;
  cs_elevated_exec_in_full : ustr;
  cs_elevated_exec_in_elevated : ustr;
  cs_workflow_with_process_exec_in_edit : ustr;
  cs_control_plane : ustr
}.

(* @src execution/policy.rs:322-338 ElevatedExecSection *)
Record ElevatedExecSection := MkElevatedExecSection {
  ees_enabled : bool;
  ees_canonical_request : ustr;
  ees_shell_true_default : bool;
  ees_requires_broker : bool;
  ees_requires_explicit_elevated_mode : bool;
  ees_timeout_required : bool;
  ees_output_limit_required : bool;
  ees_cancellation_required : bool;
  ees_redaction_required : bool;
  ees_review_model : ustr;
  ees_arbitrary_programs : ustr;
  ees_shells_and_interpreters : ustr;
  ees_control_plane_mutation : ustr;
  ees_workdir_policy : ustr;
  ees_reviewed_actions : list ustr
}.

(* @src execution/policy.rs:341-350 AdministratorGatewaySection *)
Record AdministratorGatewaySection := MkAdministratorGatewaySection {
  ag_route : ustr;
  ag_token_scope : ustr;
  ag_direct_process : ustr;
  ag_shell : ustr;
  ag_filesystem : ustr;
  ag_system_management_identity : ustr;
  ag_arbitrary_shell_executable_path : ustr;
  ag_control_plane_mutation : ustr
}.

(* @src execution/policy.rs:364-373 EnforcementSection *)
Record EnforcementSection := MkEnforcementSection {
  en_tools_list_filter : ustr;
  en_tools_call_check : ustr;
  en_implementation : ustr;
  en_privileged_route : ustr;
  en_upstream_direct_tunnel_target : ustr;
  en_unknown_tool : ustr;
  en_request_permissions : ustr;
  en_transitive_tool_capability_declaration : ustr
}.

(* @src execution/policy.rs:376-384 UpstreamSection *)
Record UpstreamSection := MkUpstreamSection {
  up_permission_mode : ustr;
  up_dangerously_skip_all_permissions : bool;
  up_telemetry : ustr;
  up_listener : ustr;
  up_internal_auth : ustr;
  up_direct_external_exposure : bool;
  up_authority_owner : ustr
}.

(* @src execution/policy.rs:387-393 WorkspaceSection *)
Record WorkspaceSection := MkWorkspaceSection {
  wsec_remembered_projects_are_authorized_roots : bool;
  wsec_max_active_authorized_roots : N;
  wsec_mcp_mutation : ustr;
  wsec_filesystem_delete_on_remove : ustr;
  wsec_auto_select_other_after_active_remove : bool
}.

(* @src execution/policy.rs:281-296 PolicyDocument *)
Record PolicyDocument := MkPolicyDocument {
  doc_schema_version : N;
  doc_runtime_version : ustr;
  doc_status : ustr;
  doc_edit_allowed_tools : list ustr;
  doc_full_allowed_tools : list ustr;
  doc_elevated_allowed_tools : list ustr;
  doc_blocked_tools : list ustr;
  doc_capabilities : CapabilitySection;
  doc_enforcement : EnforcementSection;
  doc_upstream_coding_tools : UpstreamSection;
  doc_workspace_registry : WorkspaceSection;
  doc_elevated_exec : ElevatedExecSection;
  doc_administrator_gateway : AdministratorGatewaySection;
  doc_localbridge_public : LocalBridgePublicSection
}.

(** ** The contract *)

(* @src execution/policy.rs:21-21 PINNED_RUNTIME_VERSION *)
Definition PINNED_RUNTIME_VERSION : ustr := lit "0.2.2".

Definition as_set (names : list ustr) : gset ustr := list_to_set names.

(* @src execution/policy.rs:1034-1038 exact_set *)
Definition exact_set (actual expected : list ustr) : bool :=
  Nat.eqb (size (as_set actual)) (size (as_set expected)) &&
  bool_decide (as_set actual = as_set expected).

(** [a == "..."]. *)
Definition says (value : ustr) (expected : string) : bool := bool_decide (value = lit expected).

(* @src execution/policy.rs:1047-1063 validate_document *)
Definition EDIT_TOOLS : list ustr :=
  [lit "server_info"; lit "check_exec_environment"; lit "get_default_cwd"; lit "set_default_cwd";
   lit "read_file"; lit "list_dir"; lit "list_files"; lit "search_text"; lit "apply_patch";
   lit "git_status"; lit "git_diff"; lit "git_log"; lit "git_show"; lit "git_blame";
   lit "view_image"].
(* @src execution/policy.rs:1064-1084 validate_document *)
Definition FULL_TOOLS : list ustr :=
  [lit "server_info"; lit "check_exec_environment"; lit "get_default_cwd"; lit "set_default_cwd";
   lit "read_file"; lit "list_dir"; lit "list_files"; lit "search_text"; lit "apply_patch";
   lit "exec_command"; lit "write_stdin"; lit "kill_session"; lit "read_output";
   lit "git_status"; lit "git_diff"; lit "git_log"; lit "git_show"; lit "git_blame";
   lit "view_image"].
(* @src execution/policy.rs:1085-1106 validate_document *)
Definition ELEVATED_TOOLS : list ustr :=
  [lit "server_info"; lit "check_exec_environment"; lit "get_default_cwd"; lit "set_default_cwd";
   lit "read_file"; lit "list_dir"; lit "list_files"; lit "search_text"; lit "apply_patch";
   lit "exec_command"; lit "write_stdin"; lit "kill_session"; lit "read_output";
   lit "git_status"; lit "git_diff"; lit "git_log"; lit "git_show"; lit "git_blame";
   lit "view_image"; lit "elevated_exec"].

(** [if !valid { return Err(ContractMismatch(field)) }]. *)
Definition contract (field : string) (valid : bool) : result PolicyError unit :=
  if valid then Ok () else Err (ContractMismatch field).

(* @src execution/policy.rs:1119-1150 validate_document *)
Definition public_section_valid (s : LocalBridgePublicSection) : bool :=
  let public_edit := as_set (lp_edit_tools s) in
  let public_full := as_set (lp_full_tools s) in
  let public_elevated := as_set (lp_elevated_tools s) in
  let public_core := as_set PUBLIC_CORE_TOOLS in
  let public_edit_max := as_set PUBLIC_EDIT_MAX in
  bool_decide (public_edit ⊆ public_edit_max) && bool_decide (public_full ⊆ public_core) &&
  bool_decide (public_elevated ⊆ public_core) && bool_decide (public_edit ⊆ public_full) &&
  bool_decide (public_full ⊆ public_elevated) && says (lp_unknown_action s) "deny" &&
  says (lp_network s) "deny_unreviewed" && says (lp_privilege s) "broker_only" &&
  says (lp_control_plane s) "deny_always".

(* @src execution/policy.rs:1151-1161 validate_document *)
Definition capability_section_valid (s : CapabilitySection) : bool :=
  says (cs_unknown s) "deny" && says (cs_process_exec_in_edit s) "deny" &&
  says (cs_process_exec_in_full s) "current_user_token" &&
  says (cs_elevated_exec_in_edit s) "deny" && says (cs_elevated_exec_in_full s) "deny" &&
  says (cs_elevated_exec_in_elevated s) "allow_if_reviewed_and_broker_active" &&
  says (cs_workflow_with_process_exec_in_edit s) "deny" &&
  says (cs_control_plane s) "deny_always".

(* @src execution/policy.rs:1162-1179 validate_document *)
Definition elevated_exec_section_valid (s : ElevatedExecSection) : bool :=
  ees_enabled s && says (ees_canonical_request s) "structured_program_args" &&
  negb (ees_shell_true_default s) && ees_requires_broker s &&
  ees_requires_explicit_elevated_mode s && ees_timeout_required s && ees_output_limit_required s &&
  ees_cancellation_required s && ees_redaction_required s &&
  says (ees_review_model s) "exact_trusted_program_and_args" &&
  says (ees_arbitrary_programs s) "deny" && says (ees_shells_and_interpreters s) "deny" &&
  says (ees_control_plane_mutation s) "deny_always" &&
  says (ees_workdir_policy s) "deny_unless_reviewed" &&
  bool_decide (ees_reviewed_actions s = [lit "windows_whoami_identity"]).

(* @src execution/policy.rs:1180-1193 validate_document *)
Definition gateway_section_valid (s : AdministratorGatewaySection) : bool :=
  says (ag_route s) "broker_only" && says (ag_token_scope s) "administrator_token" &&
  says (ag_direct_process s) "structured_absolute_program_argv" &&
  says (ag_shell s) "trusted_logical_selector_only" &&
  says (ag_filesystem s) "structured_absolute_path_broker" &&
  says (ag_system_management_identity s) "exact_system32" &&
  says (ag_arbitrary_shell_executable_path s) "deny" &&
  says (ag_control_plane_mutation s) "deny_always".

(* @src execution/policy.rs:1194-1204 validate_document *)
Definition enforcement_section_valid (s : EnforcementSection) : bool :=
  says (en_tools_list_filter s) "ux_only" && says (en_tools_call_check s) "mandatory" &&
  says (en_implementation s) "first_party_rust_mcp_guard" &&
  says (en_privileged_route s) "broker_only" &&
  says (en_upstream_direct_tunnel_target s) "forbidden" && says (en_unknown_tool s) "deny" &&
  says (en_request_permissions s) "deny_always" &&
  says (en_transitive_tool_capability_declaration s) "required".

(* @src execution/policy.rs:1205-1217 validate_document *)
Definition upstream_section_valid (s : UpstreamSection) : bool :=
  says (up_permission_mode s) "policy_neutral_behind_authenticated_guard" &&
  up_dangerously_skip_all_permissions s && says (up_telemetry s) "disabled" &&
  says (up_listener s) "loopback_ephemeral" &&
  says (up_internal_auth s) "runtime_generated_bearer_required" &&
  negb (up_direct_external_exposure s) && says (up_authority_owner s) "localbridge_guard_only".

(* @src execution/policy.rs:1217-1228 validate_document *)
Definition workspace_section_valid (s : WorkspaceSection) : bool :=
  negb (wsec_remembered_projects_are_authorized_roots s) &&
  (wsec_max_active_authorized_roots s =? 1) && says (wsec_mcp_mutation s) "deny_always" &&
  says (wsec_filesystem_delete_on_remove s) "deny_always" &&
  negb (wsec_auto_select_other_after_active_remove s).

(* @src execution/policy.rs:1040-1230 validate_document *)
Definition validate_document (d : PolicyDocument) : result PolicyError unit :=
  _ ← contract "identity" ((doc_schema_version d =? 7) &&
        bool_decide (doc_runtime_version d = PINNED_RUNTIME_VERSION) &&
        says (doc_status d) "SCHEMA46_CURRENT_USER_EXECUTION_POLICY");
  _ ← contract "edit_allowed_tools" (exact_set (doc_edit_allowed_tools d) EDIT_TOOLS);
  _ ← contract "full_allowed_tools" (exact_set (doc_full_allowed_tools d) FULL_TOOLS);
  _ ← contract "elevated_allowed_tools" (exact_set (doc_elevated_allowed_tools d) ELEVATED_TOOLS);
  _ ← contract "blocked_tools" (exact_set (doc_blocked_tools d) [lit "request_permissions"]);
  _ ← contract "localbridge_public" (public_section_valid (doc_localbridge_public d));
  _ ← contract "capabilities" (capability_section_valid (doc_capabilities d));
  _ ← contract "elevated_exec" (elevated_exec_section_valid (doc_elevated_exec d));
  _ ← contract "administrator_gateway" (gateway_section_valid (doc_administrator_gateway d));
  _ ← contract "enforcement" (enforcement_section_valid (doc_enforcement d));
  _ ← contract "upstream_coding_tools" (upstream_section_valid (doc_upstream_coding_tools d));
  contract "workspace_registry" (workspace_section_valid (doc_workspace_registry d)).

(** ** Loading *)

(** [toml::from_str]. *)
Class PolicyToml := { decode_policy : ustr → option PolicyDocument }.

(* @src execution/policy.rs:420-428 CapabilityPolicy::from_toml *)
Definition with_task_control (allowed : gset ustr) : gset ustr :=
  if decide (lit "filesystem" ∈ allowed) then {[ lit "task_control" ]} ∪ allowed else allowed.

(* @src execution/policy.rs:401-438 CapabilityPolicy::from_toml *)
Definition from_toml `{PolicyToml} (text : ustr) : result PolicyError CapabilityPolicy :=
  document ← ok_or InvalidToml (decode_policy text);
  _ ← validate_document document;
  let public := doc_localbridge_public document in
  Ok {| cp_edit_allowed := as_set (doc_edit_allowed_tools document);
        cp_full_allowed := as_set (doc_full_allowed_tools document);
        cp_elevated_allowed := as_set (doc_elevated_allowed_tools document);
        cp_blocked := as_set (doc_blocked_tools document);
        cp_public_edit_allowed := with_task_control (as_set (lp_edit_tools public));
        cp_public_full_allowed := with_task_control (as_set (lp_full_tools public));
        cp_public_elevated_allowed := with_task_control (as_set (lp_elevated_tools public)) |}.

(** [file] is what reading the file gave. *)
(* @src execution/policy.rs:396-399 CapabilityPolicy::load *)
Definition load `{PolicyToml} (file : option ustr) : result PolicyError CapabilityPolicy :=
  text ← ok_or ReadFailed file;
  from_toml text.

(** ** What a loaded policy is *)

Lemma exact_set_iff actual expected : exact_set actual expected = true ↔ as_set actual = as_set expected.
Proof.
  unfold exact_set. rewrite andb_true_iff, Nat.eqb_eq, bool_decide_eq_true.
  split; [tauto|]. intros ->. done.
Qed.

Lemma contract_bind {B} field valid (k : result PolicyError B) r :
  (_ ← contract field valid; k) = Ok r → valid = true ∧ k = Ok r.
Proof. by destruct valid. Qed.

(** The tool sets a loaded policy can have: those of the exact contract for the
    inner tools, and growing sets of public tools. *)
Record frozen (p : CapabilityPolicy) : Prop := MkFrozen {
  frozen_edit : cp_edit_allowed p = as_set EDIT_TOOLS;
  frozen_full : cp_full_allowed p = as_set FULL_TOOLS;
  frozen_elevated : cp_elevated_allowed p = as_set ELEVATED_TOOLS;
  frozen_blocked : cp_blocked p = {[ lit "request_permissions" ]};
  frozen_public_edit : cp_public_edit_allowed p ⊆ as_set PUBLIC_EDIT_MAX;
  frozen_public_core : cp_public_elevated_allowed p ⊆ as_set PUBLIC_CORE_TOOLS;
  frozen_edit_full : cp_public_edit_allowed p ⊆ cp_public_full_allowed p;
  frozen_full_elevated : cp_public_full_allowed p ⊆ cp_public_elevated_allowed p
}.

Lemma with_task_control_mono a b : a ⊆ b → with_task_control a ⊆ with_task_control b.
Proof. intros Hab. unfold with_task_control. repeat case_decide; set_solver. Qed.

Lemma with_task_control_below a b :
  lit "task_control" ∈ b → a ⊆ b → with_task_control a ⊆ b.
Proof. intros Hin Hab. unfold with_task_control. case_decide; set_solver. Qed.

Lemma from_toml_frozen `{PolicyToml} text p : from_toml text = Ok p → frozen p.
Proof.
  unfold from_toml. destruct (decode_policy text) as [d|]; [|done]. simpl.
  destruct (validate_document d) as [[]|] eqn:Hvalid; [|done]. simpl. intros [= <-].
  unfold validate_document in Hvalid.
  do 11 apply contract_bind in Hvalid as [? Hvalid].
  rewrite exact_set_iff in *.
  unfold public_section_valid in *.
  rewrite !andb_true_iff, !bool_decide_eq_true in *. destruct_and?.
  split; simpl; try done.
  - apply with_task_control_below; [by_decision|done].
  - apply with_task_control_below; [by_decision|done].
  - by apply with_task_control_mono.
  - by apply with_task_control_mono.
Qed.
