(* ===== verification/PolicyDecision.v ===== *)
(** * PolicyDecision: deciding a call

    [src/src-tauri/src/execution/policy.rs], lines 448-604: the decision for a
    call of a public tool, for a call of an inner tool, and which tools are
    listed. *)

From S2P Require Import Prelude Text TaskSummary StateModel Json Policy PolicyReview.
#[local] Open Scope N_scope.

(* @src execution/policy.rs:477-481 CapabilityPolicy::decide_public *)
Definition public_allowed (self : CapabilityPolicy) (mode : PermissionMode) : gset ustr :=
  match mode with
  | PermissionEdit => cp_public_edit_allowed self
  | PermissionFull => cp_public_full_allowed self
  | PermissionElevated => cp_public_elevated_allowed self
  end.

(* @src execution/policy.rs:559-563 CapabilityPolicy::decide *)
Definition inner_allowed (self : CapabilityPolicy) (mode : PermissionMode) : gset ustr :=
  match mode with
  | PermissionEdit => cp_edit_allowed self
  | PermissionFull => cp_full_allowed self
  | PermissionElevated => cp_elevated_allowed self
  end.

Definition localbridge_public_unknown : ToolDescriptor :=
  MkToolDescriptor (lit "localbridge-public-unknown") CapUnknown OtherTask.

(* @src execution/policy.rs:448-490 CapabilityPolicy::decide_public *)
Definition decide_public `{Json} (self : CapabilityPolicy) (mode : PermissionMode)
    (tool_name : ustr) (arguments : json) : PolicyDecision :=
  match classify_public_action tool_name arguments with
  | None => denied localbridge_public_unknown UnknownTool
  | Some action =>
      let declaration := pad_transitive action in
      let descriptor := pad_descriptor action in
      if pcd_control_plane declaration then denied descriptor DenyControlPlane
      else if pcd_privilege declaration then denied descriptor PrivilegedRouteNotAvailable
      else if pcd_network declaration then denied descriptor NetworkRouteNotAvailable
      else if bool_decide (mode = PermissionEdit) && pcd_process_exec declaration
      then denied descriptor IndirectProcessExecInEdit
      else if bool_decide (tool_name ∉ public_allowed self mode)
      then denied descriptor ToolNotAllowedInMode
      else permitted descriptor
  end.

(* @src execution/policy.rs:492-499 CapabilityPolicy::public_tool_allowed_in_mode *)
Definition public_tool_allowed_in_mode (self : CapabilityPolicy) (mode : PermissionMode)
    (tool_name : ustr) : bool :=
  one_of PUBLIC_CORE_TOOLS tool_name && bool_decide (tool_name ∈ public_allowed self mode).

(* @src execution/policy.rs:501-525 CapabilityPolicy::classify *)
Definition classify (name : ustr) : ToolDescriptor :=
  if bool_decide (name = lit "elevated_exec")
  then MkToolDescriptor (lit "elevated_exec") CapElevatedExec ElevatedOperation
  else if is_control_plane_name name
  then MkToolDescriptor (lit "control-plane") CapControlPlane OtherTask
  else default (MkToolDescriptor (lit "unknown") CapUnknown OtherTask)
         (find (λ descriptor, bool_decide (td_name descriptor = name)) PINNED_TOOLS).

(** [indirect.contains(&capability)]. *)
Definition has_capability (capability : Capability) (indirect : list Capability) : bool :=
  bool_decide (capability ∈ indirect).

(* @src execution/policy.rs:527-571 CapabilityPolicy::decide *)
Definition decide_inner (self : CapabilityPolicy) (mode : PermissionMode) (tool_name : ustr)
    (indirect : list Capability) : PolicyDecision :=
  let descriptor := classify tool_name in
  if bool_decide (td_capability descriptor = CapUnknown) then denied descriptor UnknownTool
  else if bool_decide (td_capability descriptor = CapControlPlane) ||
          bool_decide (tool_name ∈ cp_blocked self)
  then denied descriptor DenyControlPlane
  else if has_capability CapControlPlane indirect then denied descriptor IndirectControlPlane
  else if has_capability CapUnknown indirect then denied descriptor IndirectUnknownCapability
  else if has_capability CapElevatedExec indirect ||
          has_capability CapPrivilegedExternalRuntime indirect
  then denied descriptor PrivilegedRouteNotAvailable
  else if bool_decide (mode = PermissionEdit) && has_capability CapProcessExec indirect
  then denied descriptor IndirectProcessExecInEdit
  else if bool_decide (tool_name ∉ inner_allowed self mode)
  then denied descriptor ToolNotAllowedInMode
  else permitted descriptor.

(* @src execution/policy.rs:573-594 CapabilityPolicy::decide_request *)
Definition decide_request `{Json} `{ReviewHost} (self : CapabilityPolicy) (mode : PermissionMode)
    (tool_name : ustr) (indirect : list Capability) (arguments : json) : PolicyDecision :=
  if bool_decide (tool_name = lit "elevated_exec") && negb (bool_decide (mode = PermissionElevated))
  then denied (classify tool_name) PrivilegedRouteNotAvailable else
  let decision := decide_inner self mode tool_name indirect in
  if negb (pd_allowed decision) ||
     negb (bool_decide (td_capability (pd_descriptor decision) = CapElevatedExec))
  then decision
  else if negb (reviewed_elevated_exec arguments)
  then denied (pd_descriptor decision) ElevatedExecNotReviewed
  else decision.

(* @src execution/policy.rs:596-598 CapabilityPolicy::tool_allowed_for_list *)
Definition tool_allowed_for_list (self : CapabilityPolicy) (mode : PermissionMode)
    (tool_name : ustr) : bool :=
  pd_allowed (decide_inner self mode tool_name []).

(* @src execution/policy.rs:600-604 CapabilityPolicy::privileged_tool_visible *)
Definition privileged_tool_visible (self : CapabilityPolicy) (tool_name : ustr) : bool :=
  bool_decide (tool_name = lit "elevated_exec") &&
  bool_decide (tool_name ∈ cp_elevated_allowed self) &&
  bool_decide (td_capability (classify tool_name) = CapElevatedExec).
