(* ===== verification/PolicyProperties.v ===== *)
(** * PolicyProperties: what a loaded policy lets through

    Edit mode reaches nothing that runs a program; a mode allows all a lower mode
    allows; elevation adds the reviewed elevated calls and nothing else; and what
    the review lets through. *)

From S2P Require Import Prelude Text TaskSummary StateModel WindowsPath BrokerProtocol Json.
From S2P Require Import Policy PolicyReview PolicyDocument PolicyDecision.
#[local] Open Scope N_scope.

(** ** Helpers *)

Lemma elem_of_as_set (x : ustr) l : x ∈ as_set l ↔ x ∈ l.
Proof. apply elem_of_list_to_set. Qed.

(** The capabilities a call carries along, none of which only elevation or the
    control plane has. *)
Definition indirect_clean (indirect : list Capability) : Prop :=
  (CapControlPlane ∉ indirect) ∧ (CapUnknown ∉ indirect) ∧
  (CapElevatedExec ∉ indirect) ∧ (CapPrivilegedExternalRuntime ∉ indirect).

Lemma decide_public_allowed `{Json} p mode tool arguments :
  pd_allowed (decide_public p mode tool arguments) = true ↔
  ∃ action, classify_public_action tool arguments = Some action ∧
    decide_public p mode tool arguments = permitted (pad_descriptor action) ∧
    pcd_control_plane (pad_transitive action) = false ∧
    pcd_privilege (pad_transitive action) = false ∧
    pcd_network (pad_transitive action) = false ∧
    (mode = PermissionEdit → pcd_process_exec (pad_transitive action) = false) ∧
    tool ∈ public_allowed p mode.
Proof.
  unfold decide_public. destruct (classify_public_action tool arguments) as [a|].
  2: { split; [done|]. by intros (? & ? & _). }
  split.
  - intros Hallowed. exists a.
    destruct (pcd_control_plane _), (pcd_privilege _), (pcd_network _); simpl in *; try done.
    destruct (bool_decide_reflect (mode = PermissionEdit)), (pcd_process_exec _); simpl in *;
      try done; case_bool_decide as Hin; try done; repeat split; try done;
      destruct (decide (tool ∈ public_allowed p mode)); tauto.
  - intros (? & [= <-] & -> & _). done.
Qed.

Lemma decide_inner_allowed p mode tool indirect :
  pd_allowed (decide_inner p mode tool indirect) = true ↔
  decide_inner p mode tool indirect = permitted (classify tool) ∧
  td_capability (classify tool) ≠ CapUnknown ∧ td_capability (classify tool) ≠ CapControlPlane ∧
  (tool ∉ cp_blocked p) ∧ indirect_clean indirect ∧
  (mode = PermissionEdit → CapProcessExec ∉ indirect) ∧ tool ∈ inner_allowed p mode.
Proof.
  split; [|by intros [-> _]].
  unfold decide_inner, indirect_clean, has_capability. intros Hallowed.
  repeat case_bool_decide; simplify_eq/=; try done; repeat split; try done;
    by destruct (decide (tool ∈ inner_allowed p mode)).
Qed.

(** ** Edit mode *)

(** Nothing an edit-mode call is classified as runs a program. *)
Definition edit_capability (capability : Capability) : bool :=
  bool_decide (capability ∈ [CapRead; CapWrite; CapGit; CapWorkflow]).

Lemma edit_tools_confined tool :
  tool ∈ EDIT_TOOLS → edit_capability (td_capability (classify tool)) = true.
Proof.
  intros Hin.
  assert (Forall (λ t, edit_capability (td_capability (classify t)) = true) EDIT_TOOLS) as Hall
    by (repeat constructor).
  by rewrite Forall_forall in Hall; apply Hall.
Qed.


(** The public tools of edit mode are never classified as running a program. *)
Definition edit_action (o : option PublicActionDescriptor) : Prop :=
  ∀ action, o = Some action → edit_capability (td_capability (pad_descriptor action)) = true.

Lemma edit_action_bind {A} (o : option A) f : (∀ x, edit_action (f x)) → edit_action (o ≫= f).
Proof. intros Hf action. destruct o; [apply Hf|done]. Qed.

Ltac edit_action_cases :=
  intros ?; unfold edit_action; intros ?; repeat case_match; intros; by simplify_eq.

Lemma edit_action_filesystem action : edit_action (classify_filesystem action).
Proof. revert action. unfold classify_filesystem. edit_action_cases. Qed.
Lemma edit_action_task_control action : edit_action (classify_task_control action).
Proof. revert action. unfold classify_task_control. edit_action_cases. Qed.
Lemma edit_action_git_workflow action : edit_action (classify_git_workflow action).
Proof. revert action. unfold classify_git_workflow. edit_action_cases. Qed.
Lemma edit_action_document_workflow action : edit_action (classify_document_workflow action).
Proof. revert action. unfold classify_document_workflow. edit_action_cases. Qed.
Lemma edit_action_agent_workflow `{Json} action dry_run arguments :
  edit_action (classify_agent_workflow action dry_run arguments).
Proof.
  unfold classify_agent_workflow. apply edit_action_bind. intros object.
  case_match; [done|]. repeat (apply edit_action_bind; intros ?).
  destruct (negb (one_of _ _)); [by intros ?|]. by intros ? [= <-].
Qed.

Lemma classify_public_edit `{Json} tool arguments :
  tool ∈ PUBLIC_EDIT_MAX → edit_action (classify_public_action tool arguments).
Proof.
  intros Hin. unfold classify_public_action.
  case_match; [by intros ? [= <-]|].
  case_match; [apply edit_action_bind, edit_action_filesystem|].
  case_match.
  { exfalso. match goal with H : _ && _ = true |- _ => apply andb_true_iff in H as [Ht _] end.
    apply bool_decide_eq_true in Ht. subst. revert Hin. by_decision. }
  case_match.
  { exfalso. match goal with H : bool_decide (tool = _) = true |- _ =>
      apply bool_decide_eq_true in H; subst end.
    revert Hin. by_decision. }
  case_match; [apply edit_action_bind, edit_action_task_control|].
  case_match; [apply edit_action_bind, edit_action_git_workflow|].
  case_match; [apply edit_action_bind, edit_action_document_workflow|].
  case_match; [by intros ? [= <-]|].
  case_match; [|done].
  apply edit_action_bind. intros ?. apply edit_action_agent_workflow.
Qed.

(** An agent workflow that would run commands. *)
Definition runs_commands `{Json} (arguments : json) : Prop :=
  get_bool (lit "dry_run") arguments ≠ Some true ∧
  (get_str (lit "phase") arguments = Some (lit "verify") ∨
   ∃ command commands, get (lit "commands") arguments ≫= as_array = Some (command :: commands)).

Lemma runs_commands_needs_process `{Json} arguments action :
  classify_public_action (lit "agent_workflow") arguments = Some action →
  runs_commands arguments → pcd_process_exec (pad_transitive action) = true.
Proof.
  intros Hclass [Hdry Hruns].
  change (classify_public_action (lit "agent_workflow") arguments) with
    (a ← get_str (lit "action") arguments;
     classify_agent_workflow a (default false (get_bool (lit "dry_run") arguments)) arguments)
    in Hclass.
  apply bind_Some in Hclass as (a & _ & Hclass).
  assert (default false (get_bool (lit "dry_run") arguments) = false) as Hnodry
    by (destruct (get_bool (lit "dry_run") _) as [[]|] eqn:?; done).
  rewrite Hnodry in Hclass. unfold classify_agent_workflow in Hclass.
  apply bind_Some in Hclass as (object & Hobject & Hclass).
  unfold get_str, get in Hruns. rewrite Hobject in Hruns. simpl in Hruns.
  case_match; [done|]. apply bind_Some in Hclass as (present & Hpresent & Hclass).
  assert (present = true) as ->.
  { destruct Hruns as [Hphase|(c & cs & Hcommands)].
    - rewrite Hphase in Hpresent. by simplify_eq/=.
    - case_bool_decide; [by simplify_eq|].
      destruct (object !! lit "commands"); [|done]. simpl in *.
      rewrite Hcommands in Hpresent. by simplify_eq/=. }
  apply bind_Some in Hclass as (? & _ & Hclass). apply bind_Some in Hclass as (? & _ & Hclass).
  destruct (negb (one_of _ _)); [done|]. by injection Hclass as <-.
Qed.

(** ** The theorems *)

(** C32 (safety): under a policy that loads, edit mode reaches nothing that runs a
    program, uses the network, needs elevation or touches the control plane: an
    allowed public call is of one of the seven edit tools, is classified with a
    reading, writing, Git or workflow capability and declares none of the rest;
    an agent workflow that would run commands is denied whatever else it says;
    and an allowed inner call is of one of the fifteen contract tools and carries
    no indirect capability of that sort. *)
Theorem edit_mode_confined `{PolicyToml} `{Json} `{ReviewHost} text p :
  from_toml text = Ok p →
  (∀ tool arguments,
    pd_allowed (decide_public p PermissionEdit tool arguments) = true →
    tool ∈ PUBLIC_EDIT_MAX ∧
    ∃ action, classify_public_action tool arguments = Some action ∧
      edit_capability (td_capability (pad_descriptor action)) = true ∧
      pcd_process_exec (pad_transitive action) = false ∧
      pcd_network (pad_transitive action) = false ∧
      pcd_privilege (pad_transitive action) = false ∧
      pcd_control_plane (pad_transitive action) = false) ∧
  (∀ arguments, runs_commands arguments →
    pd_allowed (decide_public p PermissionEdit (lit "agent_workflow") arguments) = false) ∧
  (∀ tool indirect arguments,
    pd_allowed (decide_request p PermissionEdit tool indirect arguments) = true →
    tool ∈ EDIT_TOOLS ∧ edit_capability (td_capability (classify tool)) = true ∧
    (CapProcessExec ∉ indirect) ∧ indirect_clean indirect).
Proof.
  intros Hp%from_toml_frozen. split_and!.
  - intros tool arguments (a & Hclass & _ & ? & ? & ? & Hexec & Hin)%decide_public_allowed.
    assert (tool ∈ PUBLIC_EDIT_MAX) as Hmax by (apply elem_of_as_set, (frozen_public_edit p Hp), Hin).
    split; [done|]. exists a. split; [done|].
    split; [by apply (classify_public_edit tool arguments)|auto].
  - intros arguments Hruns. apply not_true_is_false.
    intros (a & Hclass & _ & _ & _ & _ & Hexec & _)%decide_public_allowed.
    rewrite (runs_commands_needs_process _ _ Hclass Hruns) in Hexec. by specialize (Hexec eq_refl).
  - intros tool indirect arguments Hallowed. unfold decide_request in Hallowed.
    destruct (bool_decide _ && negb _); [done|].
    assert (pd_allowed (decide_inner p PermissionEdit tool indirect) = true) as Hinner.
    { revert Hallowed. destruct (pd_allowed (decide_inner _ _ _ _)) eqn:Hi; [done|]. simpl.
      by rewrite Hi. }
    apply decide_inner_allowed in Hinner as (_ & _ & _ & _ & Hclean & Hexec & Hin).
    assert (tool ∈ EDIT_TOOLS) as Htool by (apply elem_of_as_set; by rewrite <- (frozen_edit p Hp)).
    auto using edit_tools_confined.
Qed.


(** *** Elevation *)

Lemma decide_inner_permits p mode tool indirect :
  td_capability (classify tool) ≠ CapUnknown → td_capability (classify tool) ≠ CapControlPlane →
  tool ∉ cp_blocked p → indirect_clean indirect →
  (mode = PermissionEdit → CapProcessExec ∉ indirect) → tool ∈ inner_allowed p mode →
  decide_inner p mode tool indirect = permitted (classify tool).
Proof.
  intros Hknown Hcontrol Hblocked (? & ? & ? & ?) Hexec Hin. unfold decide_inner, has_capability.
  rewrite (bool_decide_eq_false_2 (_ = CapUnknown)), (bool_decide_eq_false_2 (_ = CapControlPlane)),
    (bool_decide_eq_false_2 (_ ∈ cp_blocked p)), (bool_decide_eq_false_2 (CapControlPlane ∈ _)),
    (bool_decide_eq_false_2 (CapUnknown ∈ _)), (bool_decide_eq_false_2 (CapElevatedExec ∈ _)),
    (bool_decide_eq_false_2 (CapPrivilegedExternalRuntime ∈ _)),
    (bool_decide_eq_false_2 (tool ∉ _)) by tauto.
  destruct (decide (mode = PermissionEdit)) as [->|Hmode].
  - rewrite (bool_decide_eq_false_2 (CapProcessExec ∈ _)) by auto. by rewrite andb_false_r.
  - by rewrite (bool_decide_eq_false_2 (mode = _)).
Qed.

Lemma decide_inner_mono p low high tool indirect :
  (low = PermissionEdit ∨ high ≠ PermissionEdit) →
  (tool ∈ inner_allowed p low → tool ∈ inner_allowed p high) →
  pd_allowed (decide_inner p low tool indirect) = true →
  decide_inner p high tool indirect = decide_inner p low tool indirect.
Proof.
  intros Hmodes Hsub (-> & ? & ? & ? & ? & Hexec & Hin)%decide_inner_allowed.
  apply decide_inner_permits; auto. intros ->. by destruct Hmodes as [->|]; auto.
Qed.

Lemma decide_public_mono `{Json} p low high tool arguments :
  (low = PermissionEdit ∨ high ≠ PermissionEdit) → public_allowed p low ⊆ public_allowed p high →
  pd_allowed (decide_public p low tool arguments) = true →
  decide_public p high tool arguments = decide_public p low tool arguments.
Proof.
  intros Hmodes Hsub (a & Ha & Hlow & Hc & Hp & Hn & Hexec & Hin)%decide_public_allowed.
  rewrite Hlow. apply Hsub in Hin. unfold decide_public. rewrite Ha, Hc, Hp, Hn.
  rewrite (bool_decide_eq_false_2 (tool ∉ _)) by tauto.
  destruct (decide (high = PermissionEdit)) as [->|Hhigh].
  - destruct Hmodes as [->|]; [|done]. by rewrite Hexec, andb_false_r.
  - by rewrite (bool_decide_eq_false_2 (high = _)).
Qed.

Lemma tool_sets_grow p :
  frozen p →
  inner_allowed p PermissionEdit ⊆ inner_allowed p PermissionFull ∧
  inner_allowed p PermissionElevated = {[ lit "elevated_exec" ]} ∪ inner_allowed p PermissionFull ∧
  (lit "elevated_exec" ∉ inner_allowed p PermissionFull) ∧ (lit "elevated_exec" ∉ cp_blocked p).
Proof.
  intros Hp. unfold inner_allowed.
  rewrite (frozen_edit p Hp), (frozen_full p Hp), (frozen_elevated p Hp), (frozen_blocked p Hp).
  split; [by_decision|]. split; [by_decision|]. split; by_decision.
Qed.

Lemma decide_request_ordinary `{Json} `{ReviewHost} p mode tool indirect arguments :
  tool ≠ lit "elevated_exec" → frozen p →
  decide_request p mode tool indirect arguments = decide_inner p mode tool indirect.
Proof.
  intros Htool Hp. unfold decide_request. rewrite bool_decide_eq_false_2 by done. simpl.
  destruct (pd_allowed _) eqn:Hallowed; [|done]. simpl.
  apply decide_inner_allowed in Hallowed as (-> & _). simpl.
  rewrite (bool_decide_eq_false_2 (td_capability _ = _)); [done|].
  unfold classify. rewrite bool_decide_eq_false_2 by done.
  destruct (is_control_plane_name tool); [done|].
  assert (Forall (λ d, td_capability d ≠ CapElevatedExec) PINNED_TOOLS) as Hall
    by (repeat constructor; done).
  destruct (find _ PINNED_TOOLS) eqn:Hfind; [|done]. simpl.
  apply find_some in Hfind as [Hin%list_elem_of_In _].
  rewrite Forall_forall in Hall. by apply Hall.
Qed.

Lemma elevated_exec_decision `{Json} `{ReviewHost} p indirect arguments :
  frozen p →
  pd_allowed (decide_request p PermissionElevated (lit "elevated_exec") indirect arguments) = true ↔
  indirect_clean indirect ∧ reviewed_elevated_exec arguments = true.
Proof.
  intros Hp. destruct (tool_sets_grow p Hp) as (_ & Helevated & _ & Hunblocked).
  unfold decide_request. change (bool_decide _ && negb _) with false. cbv iota zeta.
  split.
  - pose proof (decide_inner_allowed p PermissionElevated (lit "elevated_exec") indirect) as Hiff.
    destruct (decide_inner _ _ _ _) as [descriptor [] reason]; [|done]. simpl in *.
    apply proj1 in Hiff. destruct (Hiff eq_refl) as ([= -> _] & _ & _ & _ & Hclean & _).
    rewrite bool_decide_eq_true_2 by done. simpl. by destruct (reviewed_elevated_exec arguments).
  - intros [Hclean Hreviewed].
    rewrite decide_inner_permits, Hreviewed; try done. rewrite Helevated. set_solver.
Qed.

(** Under a policy that loads, a mode allows everything a lower
    mode allows, with the same descriptor; and for the inner tools elevated mode
    allows exactly what full mode allows and, besides, the calls of
    [elevated_exec] that carry no capability of their own and pass the review. *)
Theorem elevation_adds_reviewed_calls `{PolicyToml} `{Json} `{ReviewHost} text p :
  from_toml text = Ok p →
  (∀ tool arguments,
    (pd_allowed (decide_public p PermissionEdit tool arguments) = true →
     decide_public p PermissionFull tool arguments =
       decide_public p PermissionEdit tool arguments) ∧
    (pd_allowed (decide_public p PermissionFull tool arguments) = true →
     decide_public p PermissionElevated tool arguments =
       decide_public p PermissionFull tool arguments)) ∧
  (∀ tool indirect arguments,
    (pd_allowed (decide_request p PermissionEdit tool indirect arguments) = true →
     decide_request p PermissionFull tool indirect arguments =
       decide_request p PermissionEdit tool indirect arguments) ∧
    (pd_allowed (decide_request p PermissionElevated tool indirect arguments) = true ↔
     pd_allowed (decide_request p PermissionFull tool indirect arguments) = true ∨
     tool = lit "elevated_exec" ∧ indirect_clean indirect ∧
     reviewed_elevated_exec arguments = true)).
Proof.
  intros Hp%from_toml_frozen.
  destruct (tool_sets_grow p Hp) as (Hgrow & Helevated & Hnot & Hunblocked).
  split.
  - intros tool arguments.
    split; (apply decide_public_mono; [by auto|]); [by apply frozen_edit_full|].
    by apply frozen_full_elevated.
  - intros tool indirect arguments. destruct (decide (tool = lit "elevated_exec")) as [->|Htool].
    + split; [done|]. rewrite elevated_exec_decision by done.
      split; [by auto|]. by intros [|(_ & ? & ?)].
    + rewrite !decide_request_ordinary by done.
      split; [apply decide_inner_mono; [by auto|by apply Hgrow]|].
      split.
      * intros Hallowed. left. rewrite <- Hallowed. f_equal.
        apply decide_inner_mono; [by auto| |done]. rewrite Helevated. set_solver.
      * intros [Hallowed|]; [|naive_solver]. rewrite <- Hallowed. f_equal.
        apply decide_inner_mono; [by auto| |done]. rewrite Helevated. set_solver.
Qed.

(** *** The review *)

Lemma compact_app u v : compact (u ++ v) = compact u ++ compact v.
Proof. unfold compact. by rewrite List.filter_app, to_ascii_lowercase_app. Qed.

Lemma existsb_false {A} (f : A → bool) l : existsb f l = false → ∀ x, x ∈ l → f x = false.
Proof.
  intros Hnone x Hin. apply not_true_is_false. intros Hx.
  apply not_true_iff_false in Hnone. apply Hnone, existsb_exists. exists x.
  by rewrite <- list_elem_of_In.
Qed.

Lemma contains_none p s u v : contains p s = false → s ≠ u ++ p ++ v.
Proof. intros Hs. by apply contains_false_iff. Qed.

(** What the elevated diagnostic may be run with. *)
Definition REVIEWED_ARGUMENTS : list (list ustr) :=
  [[]; [lit "/all"]; [lit "/groups"]; [lit "/priv"]; [lit "/user"]].

Lemma reviewed_arguments_iff args :
  reviewed_arguments args = true ↔ args ∈ REVIEWED_ARGUMENTS.
Proof.
  unfold reviewed_arguments, REVIEWED_ARGUMENTS. rewrite !elem_of_cons, elem_of_nil.
  destruct args as [|a [|b args]].
  - naive_solver.
  - simpl. rewrite !orb_true_iff, !bool_decide_eq_true. naive_solver.
  - naive_solver.
Qed.

(** Names LocalBridge's own files, in any case and with any punctuation between
    the letters. *)
Definition SPELLED_MARKERS : list ustr :=
  [lit "localbridge"; lit "comlocalbridgedesktop"; lit "runtimepolicytoml";
   lit "runtimemanifesttoml"; lit "startupprofilejson"].

Lemma not_obfuscated command u w v :
  explicit_control_plane_reference_obfuscated command = false →
  command = u ++ w ++ v → compact w ∉ SPELLED_MARKERS.
Proof.
  unfold explicit_control_plane_reference_obfuscated. case_match; [done|].
  intros Hnone -> Hw. eapply existsb_false in Hnone; [|exact Hw]. simpl in Hnone.
  eapply (contains_none _ _ (compact u) (compact v)) in Hnone.
  by rewrite !compact_app in Hnone.
Qed.

(** A request of the identity diagnostic. *)
Definition diagnostic_request `{ReviewHost} (spec : ElevatedExecSpec) : Prop :=
  ∃ system requested trusted,
    system_directory = Some system ∧ is_regular_file (join system (lit "whoami.exe")) = true ∧
    canonicalize (join system (lit "whoami.exe")) = Some trusted ∧
    is_regular_file (es_program spec) = true ∧ canonicalize (es_program spec) = Some requested ∧
    to_ascii_lowercase requested = to_ascii_lowercase trusted ∧
    es_args spec ∈ REVIEWED_ARGUMENTS ∧ validate_exec spec = Ok ().

(** A shell command the static review lets through. *)
Definition shell_request `{ReviewHost} (request : AdministratorShellRequest) : Prop :=
  0 < len (as_command request) ≤ MAX_ELEVATED_STRING_BYTES ∧
  0 < as_timeout_ms request ≤ MAX_ELEVATED_TIMEOUT_MS ∧
  0 < as_max_output_bytes request ≤ MAX_ELEVATED_OUTPUT_BYTES ∧
  (∀ u w v, as_command request = u ++ w ++ v → compact w ∉ SPELLED_MARKERS) ∧
  (as_shell request = Cmd → ∀ c, c ∈ as_command request → c ∉ lit "%!^") ∧
  (as_shell request ≠ Cmd → ∀ c, c ∈ as_command request → c ∉ lit "$`+@(){}[]") ∧
  is_absolute (as_workdir request) = true ∧ is_dir (as_workdir request) = true.

Lemma trusted_diagnostic `{ReviewHost} :
  ∀ program, reviewed_elevated_program = Some program →
  ∃ system, system_directory = Some system ∧ program = join system (lit "whoami.exe") ∧
    is_regular_file program = true.
Proof.
  unfold reviewed_elevated_program, trusted_system_program, canonical_regular_file.
  intros program (system & Hsystem & (x & Hfile & [= <-])%bind_Some)%bind_Some.
  exists system. split; [done|]. split; [done|]. by destruct (is_regular_file _).
Qed.

Lemma canonical_regular_file_Some `{ReviewHost} path canonical :
  canonical_regular_file path = Some canonical →
  is_regular_file path = true ∧ canonicalize path = Some canonical.
Proof. unfold canonical_regular_file. by destruct (is_regular_file path). Qed.

Lemma reviewed_legacy_sound `{Json} `{ReviewHost} arguments :
  reviewed_legacy_elevated_exec arguments = true →
  ∃ spec, decode_exec_spec arguments = Some spec ∧ es_workdir spec = None ∧
    diagnostic_request spec.
Proof.
  unfold reviewed_legacy_elevated_exec. intros Hreviewed.
  destruct (decode_exec_spec arguments) as [spec|]; [|done].
  destruct (is_ok (validate_exec spec)) eqn:Hvalid; [|done].
  destruct (es_workdir spec) eqn:Hworkdir; [done|]. simpl in Hreviewed.
  destruct (reviewed_elevated_program ≫= canonicalize) as [trusted|] eqn:Htrusted; [|done].
  destruct (canonical_regular_file (es_program spec)) as [requested|] eqn:Hrequested; [|done].
  apply andb_true_iff in Hreviewed as [Hsame Hargs%reviewed_arguments_iff].
  apply bind_Some in Htrusted as (program & (system & ? & -> & ?)%trusted_diagnostic & ?).
  apply canonical_regular_file_Some in Hrequested as [??]. apply is_ok_unit in Hvalid.
  exists spec. split; [done|]. split; [done|]. exists system, requested, trusted.
  apply bool_decide_eq_true in Hsame. done.
Qed.

Lemma reviewed_process_sound `{Json} `{ReviewHost} arguments :
  reviewed_administrator_process arguments = true →
  ∃ spec, without_operation (lit "process") arguments ≫= decode_exec_spec = Some spec ∧
    diagnostic_request spec.
Proof.
  unfold reviewed_administrator_process. intros Hreviewed.
  destruct (without_operation _ _ ≫= _) as [spec|]; [|done].
  destruct (is_ok (validate_exec spec)) eqn:Hvalid; [|done]. simpl in Hreviewed.
  destruct (_ || is_some_and _ _) eqn:Hmarkers in Hreviewed; [done|].
  destruct (canonical_regular_file (es_program spec)) as [requested|] eqn:Hrequested; [|done].
  destruct (reviewed_elevated_program ≫= _) as [trusted|] eqn:Htrusted; [|done].
  destruct (same_windows_path requested trusted) eqn:Hsame; [|done]. simpl in Hreviewed.
  destruct (is_some_and _ (es_workdir spec)) in Hreviewed; [done|].
  apply reviewed_arguments_iff in Hreviewed.
  apply bind_Some in Htrusted as (program & (system & ? & -> & ?)%trusted_diagnostic & Hcanon).
  apply canonical_regular_file_Some in Hrequested as [??], Hcanon as [??].
  apply is_ok_unit in Hvalid. apply bool_decide_eq_true in Hsame.
  exists spec. split; [done|]. by exists system, requested, trusted.
Qed.

Lemma len_pos s : s ≠ [] → 0 < len s.
Proof.
  destruct s as [|c s]; [done|]. intros _. unfold len, byte_len, utf8_encode. simpl.
  rewrite length_app. unfold utf8_encode_char. repeat case_match; simpl; lia.
Qed.

Lemma reviewed_shell_sound `{Json} `{ReviewHost} arguments :
  reviewed_administrator_shell arguments = true →
  ∃ request, decode_shell_request arguments = Some request ∧ shell_request request.
Proof.
  unfold reviewed_administrator_shell. intros Hreviewed.
  destruct (decode_shell_request arguments) as [request|]; [|done].
  destruct (_ || _) eqn:Hguards in Hreviewed; [done|].
  rewrite !orb_false_iff, !N.ltb_ge, !N.eqb_neq in Hguards.
  destruct Hguards as ((((((((((_ & Hcommand) & ?) & _) & ?) & ?) & ?) & ?) & Hmarkers) & _) & Hdynamic).
  apply negb_true_iff in Hreviewed. rewrite !orb_false_iff, !negb_false_iff in Hreviewed.
  destruct Hreviewed as ((((? & ?) & _) & _) & _).
  apply bool_decide_eq_false in Hcommand.
  exists request. split; [done|]. unfold shell_request. split_and!; try done; try lia.
  - by apply len_pos.
  - intros u w v. by apply not_obfuscated.
  - intros Hshell c Hc Hbad. rewrite Hshell in Hdynamic. simpl in Hdynamic.
    unfold administrator_cmd_dynamic_target_construction in Hdynamic.
    destruct (existsb _ (as_command request)) eqn:Hchars; [done|].
    eapply existsb_false in Hchars; [|exact Hc]. by rewrite bool_decide_eq_true_2 in Hchars.
  - intros Hshell c Hc Hbad.
    assert (administrator_powershell_dynamic_target_construction (as_command request) = false)
      as Hstatic by (destruct (as_shell request); try done; by apply orb_false_iff in Hdynamic as [? _]).
    unfold administrator_powershell_dynamic_target_construction in Hstatic.
    destruct (existsb powershell_dynamic_char _) eqn:Hchars; [done|].
    eapply existsb_false in Hchars; [|exact Hc].
    unfold powershell_dynamic_char in Hchars. by rewrite bool_decide_eq_true_2 in Hchars.
Qed.

(** A file operation outside LocalBridge's own files. *)
Definition filesystem_request (spec : PrivilegedFilesystemSpec) : Prop :=
  validate_privileged spec = Ok () ∧
  ∀ path, path = pf_path spec ∨ pf_destination spec = Some path → evaluate path = PathAllowed.

Lemma reviewed_filesystem_sound `{Json} arguments :
  reviewed_administrator_filesystem arguments = true →
  ∃ spec, without_operation (lit "filesystem") arguments ≫= decode_privileged_spec = Some spec ∧
    filesystem_request spec.
Proof.
  unfold reviewed_administrator_filesystem. intros Hreviewed.
  destruct (_ ≫= decode_privileged_spec) as [spec|]; [|done].
  rewrite !andb_true_iff in Hreviewed. destruct Hreviewed as [[Hvalid%is_ok_unit Hpath] Hdest].
  exists spec. split; [done|]. split; [done|].
  intros path [->|Hd]; [by apply bool_decide_eq_true in Hpath|].
  rewrite Hd in Hdest. by apply bool_decide_eq_true in Hdest.
Qed.

(** C33 (safety): a call of [elevated_exec] that passes the review is one of
    three: the Windows identity diagnostic, found in the directory the system
    reports, regular file by regular file and with one of its five argument
    lists; a shell command within the bounds, without the characters that build
    text, and in which no part spells one of LocalBridge's files, whatever the
    case and the punctuation between its letters; or a well-formed file
    operation on absolute paths that the path policy allows. *)
Theorem elevated_review_sound `{Json} `{ReviewHost} arguments :
  reviewed_elevated_exec arguments = true →
  (get_str (lit "operation") arguments ∈ [None; Some (lit "process")] ∧
   ∃ spec, diagnostic_request spec ∧
     (decode_exec_spec arguments = Some spec ∨
      without_operation (lit "process") arguments ≫= decode_exec_spec = Some spec)) ∨
  (get_str (lit "operation") arguments = Some (lit "shell") ∧
   ∃ request, decode_shell_request arguments = Some request ∧ shell_request request) ∨
  (get_str (lit "operation") arguments = Some (lit "filesystem") ∧
   ∃ spec, without_operation (lit "filesystem") arguments ≫= decode_privileged_spec = Some spec ∧
     filesystem_request spec).
Proof.
  unfold reviewed_elevated_exec. destruct (get_str _ arguments) as [operation|].
  - case_bool_decide as Hprocess; subst.
    { intros (spec & ? & ?)%reviewed_process_sound. left. split; [|by eauto].
      by apply list_elem_of_further, list_elem_of_here. }
    case_bool_decide as Hshell; subst; [intros; right; left; auto using reviewed_shell_sound|].
    case_bool_decide; subst; [intros; right; right; auto using reviewed_filesystem_sound|done].
  - intros (spec & ? & _ & ?)%reviewed_legacy_sound. left. split; [|by eauto].
    by apply list_elem_of_here.
Qed.

(** ** Concrete inputs *)

#[local] Existing Instance demo_json.

(** The repository's [runtime-policy.toml]. *)
Definition runtime_policy : PolicyDocument := {|
  doc_schema_version := 7;
  doc_runtime_version := lit "0.2.2";
  doc_status := lit "SCHEMA46_CURRENT_USER_EXECUTION_POLICY";
  doc_edit_allowed_tools := EDIT_TOOLS;
  doc_full_allowed_tools := FULL_TOOLS;
  doc_elevated_allowed_tools := ELEVATED_TOOLS;
  doc_blocked_tools := [lit "request_permissions"];
  doc_capabilities := {|
    cs_unknown := lit "deny";
    cs_process_exec_in_edit := lit "deny";
    cs_process_exec_in_full := lit "current_user_token";
    cs_elevated_exec_in_edit := lit "deny";
    cs_elevated_exec_in_full := lit "deny";
    cs_elevated_exec_in_elevated := lit "allow_if_reviewed_and_broker_active";
    cs_workflow_with_process_exec_in_edit := lit "deny";
    cs_control_plane := lit "deny_always" |};
  doc_enforcement := {|
    en_tools_list_filter := lit "ux_only";
    en_tools_call_check := lit "mandatory";
    en_implementation := lit "first_party_rust_mcp_guard";
    en_privileged_route := lit "broker_only";
    en_upstream_direct_tunnel_target := lit "forbidden";
    en_unknown_tool := lit "deny";
    en_request_permissions := lit "deny_always";
    en_transitive_tool_capability_declaration := lit "required" |};
  doc_upstream_coding_tools := {|
    up_permission_mode := lit "policy_neutral_behind_authenticated_guard";
    up_dangerously_skip_all_permissions := true;
    up_telemetry := lit "disabled";
    up_listener := lit "loopback_ephemeral";
    up_internal_auth := lit "runtime_generated_bearer_required";
    up_direct_external_exposure := false;
    up_authority_owner := lit "localbridge_guard_only" |};
  doc_workspace_registry := {|
    wsec_remembered_projects_are_authorized_roots := false;
    wsec_max_active_authorized_roots := 1;
    wsec_mcp_mutation := lit "deny_always";
    wsec_filesystem_delete_on_remove := lit "deny_always";
    wsec_auto_select_other_after_active_remove := false |};
  doc_elevated_exec := {|
    ees_enabled := true;
    ees_canonical_request := lit "structured_program_args";
    ees_shell_true_default := false;
    ees_requires_broker := true;
    ees_requires_explicit_elevated_mode := true;
    ees_timeout_required := true;
    ees_output_limit_required := true;
    ees_cancellation_required := true;
    ees_redaction_required := true;
    ees_review_model := lit "exact_trusted_program_and_args";
    ees_arbitrary_programs := lit "deny";
    ees_shells_and_interpreters := lit "deny";
    ees_control_plane_mutation := lit "deny_always";
    ees_workdir_policy := lit "deny_unless_reviewed";
    ees_reviewed_actions := [lit "windows_whoami_identity"] |};
  doc_administrator_gateway := {|
    ag_route := lit "broker_only";
    ag_token_scope := lit "administrator_token";
    ag_direct_process := lit "structured_absolute_program_argv";
    ag_shell := lit "trusted_logical_selector_only";
    ag_filesystem := lit "structured_absolute_path_broker";
    ag_system_management_identity := lit "exact_system32";
    ag_arbitrary_shell_executable_path := lit "deny";
    ag_control_plane_mutation := lit "deny_always" |};
  doc_localbridge_public := {|
    lp_edit_tools := [lit "workspace_context"; lit "agent_workflow"; lit "filesystem";
                      lit "git_workflow"; lit "document_workflow"; lit "view_image"];
    lp_full_tools := PUBLIC_CORE_TOOLS;
    lp_elevated_tools := PUBLIC_CORE_TOOLS;
    lp_unknown_action := lit "deny";
    lp_network := lit "deny_unreviewed";
    lp_privilege := lit "broker_only";
    lp_control_plane := lit "deny_always" |}
|}.

#[local] Instance demo_toml : PolicyToml := {| decode_policy _ := Some runtime_policy |}.

Definition WHOAMI : ustr := lit "C:\Windows\System32\whoami.exe".

#[local] Instance demo_review_host : ReviewHost := {|
  is_regular_file path := bool_decide (path = WHOAMI);
  canonicalize path := Some (lit "\\?\" ++ path);
  is_dir _ := true;
  system_directory := Some (lit "C:\Windows\System32") |}.

Definition runtime_capability_policy : CapabilityPolicy :=
  match from_toml [] with
  | Ok p => p
  | Err _ => MkCapabilityPolicy ∅ ∅ ∅ ∅ ∅ ∅ ∅
  end.

Lemma runtime_policy_loads : from_toml [] = Ok runtime_capability_policy.
Proof.
  assert (is_ok (from_toml []) = true) as Hok by (vm_compute; reflexivity).
  unfold runtime_capability_policy. by destruct (from_toml []).
Qed.

Definition write_call : DemoJson := JObject [(lit "action", JString (lit "write"))].
Definition verify_call : DemoJson :=
  JObject [(lit "action", JString (lit "feature")); (lit "phase", JString (lit "verify"))].
Definition shell_call (shell command : string) : DemoJson := JObject
  [(lit "operation", JString (lit "shell")); (lit "shell", JString (lit shell));
   (lit "command", JString (lit command)); (lit "workdir", JString (lit "C:\Windows\Temp"));
   (lit "timeout_ms", JNumber 1000); (lit "max_output_bytes", JNumber 4096)].
Definition process_call : DemoJson := JObject
  [(lit "operation", JString (lit "process")); (lit "program", JString WHOAMI);
   (lit "args", JArray [JString (lit "/user")]); (lit "workdir", JNull);
   (lit "timeout_ms", JNumber 1000); (lit "max_output_bytes", JNumber 4096)].

Lemma edit_mode_confined_witness :
  pd_allowed (decide_public runtime_capability_policy PermissionEdit (lit "filesystem") write_call)
    = true ∧ lit "filesystem" ∈ PUBLIC_EDIT_MAX ∧
  pd_allowed (decide_public runtime_capability_policy PermissionEdit (lit "agent_workflow")
    verify_call) = false.
Proof.
  destruct (edit_mode_confined [] _ runtime_policy_loads) as (Hpublic & Hworkflow & _).
  split; [vm_compute; reflexivity|]. split.
  - apply (Hpublic _ write_call). vm_compute. reflexivity.
  - apply (Hworkflow verify_call). split; [by vm_compute|]. left. vm_compute. reflexivity.
Defined.

Lemma elevation_adds_reviewed_calls_witness :
  pd_allowed (decide_request runtime_capability_policy PermissionElevated (lit "elevated_exec") []
    process_call) = true ∧
  pd_allowed (decide_request runtime_capability_policy PermissionFull (lit "elevated_exec") []
    process_call) = false.
Proof.
  destruct (elevation_adds_reviewed_calls [] _ runtime_policy_loads) as [_ Hinner].
  split; [|vm_compute; reflexivity].
  apply (Hinner (lit "elevated_exec") [] process_call). right.
  split; [done|]. split; [by repeat split; apply not_elem_of_nil|]. vm_compute. reflexivity.
Defined.

Lemma elevated_review_sound_witness :
  reviewed_elevated_exec (shell_call "cmd" "whoami /user") = true ∧
  ∃ request, decode_shell_request (shell_call "cmd" "whoami /user") = Some request ∧
    shell_request request.
Proof.
  assert (reviewed_elevated_exec (shell_call "cmd" "whoami /user") = true) as Hreviewed
    by (vm_compute; reflexivity).
  split; [done|].
  destruct (elevated_review_sound _ Hreviewed) as [[Hop _]|[[_ Hshell]|[Hop _]]]; [|done|].
  - exfalso. revert Hop. apply (bool_decide_eq_false_1 _). vm_compute. reflexivity.
  - exfalso. revert Hop. apply (bool_decide_eq_false_1 _). vm_compute. reflexivity.
Defined.

(** The review compares the text of a command.  A wildcard, or a command given to
    PowerShell in base64, names the same files in a text without any marker. *)
Lemma patterns_escape_the_review :
  reviewed_elevated_exec (shell_call "powershell"
    "Remove-Item C:\ProgramData\LocalBr*\settings.json") = true ∧
  reviewed_elevated_exec (shell_call "cmd"
    "del C:\ProgramData\LocalBr?dge\settings.json") = true ∧
  reviewed_elevated_exec (shell_call "powershell"
    "powershell -EncodedCommand UgBlAG0AbwB2AGUALQBJAHQAZQBtAA==") = true ∧
  reviewed_elevated_exec (shell_call "powershell"
    "Remove-Item C:\ProgramData\LocalBridge\settings.json") = false.
Proof. split; [|split; [|split]]; vm_compute; reflexivity. Qed.
