(* ===== verification/Guard.v ===== *)
(** * Guard: the policy check in front of a tool runtime

    [src/src-tauri/src/mcp/guard.rs].  A call is decided, blocked or forwarded,
    and every phase of it is projected as the current task.  The runtime behind
    the guard is an interface.  A result [None] is a panic of an [expect]. *)

From S2P Require Import Prelude Text TaskSummary StateModel Json.
From S2P Require Import Policy PolicyReview PolicyDecision.
#[local] Open Scope N_scope.

(** The runtime behind the guard; [E] is its error type. *)
(* @src mcp/guard.rs:14-26 GuardRuntime *)
Class GuardRuntime `{Json} (R E : Type) := {
  raw_list_tools : R → R * result E json;
  raw_call_tool : R → ustr → json → option json → R * result E json;
  root_is_running : R → result E (option bool)
}.

(* @src mcp/guard.rs:47-52 ToolCallRequest *)
Record ToolCallRequest `{Json} := MkToolCallRequest {
  tcr_name : ustr;
  tcr_arguments : json;
  tcr_indirect_capabilities : list Capability;
  tcr_request_id : option json
}.

(* @src mcp/guard.rs:75-78 PolicyDenied *)
Record PolicyDenied := MkPolicyDenied {
  denied_reason : DenyReason;
  denied_capability : Capability
}.

(* @src mcp/guard.rs:81-85 GuardError *)
Inductive GuardError (E : Type) :=
  | GuardDenied (denied : PolicyDenied)
  | GuardRuntimeError (error : E)
  | MalformedToolsList.
Arguments GuardDenied {E}.
Arguments GuardRuntimeError {E}.
Arguments MalformedToolsList {E}.

(* @src mcp/guard.rs:103-106 McpGuard *)
Record McpGuard (R : Type) := MkMcpGuard { mg_runtime : R; mg_policy : CapabilityPolicy }.
Arguments MkMcpGuard {R}.
Arguments mg_runtime {R}.
Arguments mg_policy {R}.

Section guard.
Context `{Json} `{ReviewHost} {R E : Type} `{!GuardRuntime R E}.

(* @src mcp/guard.rs:55-62 ToolCallRequest::new *)
Definition tool_call_new (name : ustr) (arguments : json) : ToolCallRequest :=
  MkToolCallRequest _ name arguments [] None.

(* @src mcp/guard.rs:64-70 ToolCallRequest::with_indirect_capabilities *)
Definition with_indirect_capabilities (capabilities : list Capability) (self : ToolCallRequest) :
    ToolCallRequest :=
  MkToolCallRequest _ (tcr_name self) (tcr_arguments self) capabilities (tcr_request_id self).

(** ** What a request is reported as *)

(* @src mcp/guard.rs:269-273 string_argument *)
Fixpoint string_argument (arguments : json) (keys : list ustr) : option ustr :=
  match keys with
  | [] => None
  | key :: keys =>
      match get_str key arguments with
      | Some value => Some value
      | None => string_argument arguments keys
      end
  end.

(** The summaries in Chinese: edit project files, run environment, check the run
    environment, current directory. *)
Definition summary_apply_patch : ustr := [0x4FEE; 0x6539; 0x9879; 0x76EE; 0x6587; 0x4EF6].
Definition summary_server_info : ustr := [0x8FD0; 0x884C; 0x73AF; 0x5883; 0x4FE1; 0x606F].
Definition summary_check_environment : ustr :=
  [0x68C0; 0x67E5; 0x6267; 0x884C; 0x73AF; 0x5883].
Definition summary_default_cwd : ustr := [0x5F53; 0x524D; 0x5DE5; 0x4F5C; 0x76EE; 0x5F55].

(* @src mcp/guard.rs:242-267 safe_summary *)
Definition safe_summary (name : ustr) (arguments : json) : SafeTaskSummary :=
  let tool_is tool := bool_decide (name = lit tool) in
  let candidate :=
    if tool_is "read_file" || tool_is "list_dir" || tool_is "list_files" || tool_is "view_image" ||
       tool_is "set_default_cwd"
    then string_argument arguments [lit "path"; lit "cwd"]
    else if tool_is "search_text" then string_argument arguments [lit "query"; lit "pattern"]
    else if tool_is "exec_command" then string_argument arguments [lit "cmd"; lit "command"]
    else if tool_is "git_status" then Some (lit "git status")
    else if tool_is "git_diff" then Some (lit "git diff")
    else if tool_is "git_log" then Some (lit "git log")
    else if tool_is "git_show" then Some (lit "git show")
    else if tool_is "git_blame" then Some (lit "git blame")
    else if tool_is "apply_patch" then Some summary_apply_patch
    else if tool_is "write_stdin" || tool_is "kill_session" || tool_is "read_output"
    then string_argument arguments [lit "session_id"; lit "session"]
    else if tool_is "server_info" then Some summary_server_info
    else if tool_is "check_exec_environment" then Some summary_check_environment
    else if tool_is "get_default_cwd" then Some summary_default_cwd
    else None in
  match candidate with Some raw => from_untrusted raw | None => SummaryOmitted end.

(* @src mcp/guard.rs:335-343 refined_task_kind *)
Definition refined_task_kind (descriptor : ToolDescriptor) (arguments : json) : TaskKind :=
  if negb (bool_decide (td_name descriptor = lit "exec_command")) then td_task_kind descriptor else
  match string_argument arguments [lit "cmd"; lit "command"] with
  | None => ExecuteCommand
  | Some command => command_task_kind command
  end.

(** ** Verbatim paths *)

(* @src mcp/guard.rs:327-329 starts_with_verbatim_path *)
Definition starts_with_verbatim_path (value : ustr) : bool :=
  starts_with (lit "\\?\") value || starts_with (lit "//?/") value.

(* @src mcp/guard.rs:331-333 contains_verbatim_path_text *)
Definition contains_verbatim_path_text (value : ustr) : bool :=
  contains (lit "\\?\") value || contains (lit "//?/") value.

(* @src mcp/guard.rs:316-325 value_has_verbatim_path *)
Definition value_has_verbatim_path (value : json) : bool :=
  match as_str value with
  | Some value => starts_with_verbatim_path value
  | None =>
      match as_array value with
      | Some values => existsb starts_with_verbatim_path (omap as_str values)
      | None => false
      end
  end.

(** The members of an object that hold a path, by tool. *)
(* @src mcp/guard.rs:279-285 has_verbatim_execution_path *)
Definition path_keys (name : ustr) : list ustr :=
  if one_of [lit "set_default_cwd"; lit "read_file"; lit "list_dir"; lit "list_files";
             lit "search_text"; lit "view_image"; lit "git_status"; lit "git_log";
             lit "git_blame"] name
  then [lit "path"]
  else if one_of [lit "git_diff"; lit "git_show"] name then [lit "path"; lit "paths"]
  else if bool_decide (name = lit "exec_command") then [lit "cwd"; lit "workdir"]
  else [].

(* @src mcp/guard.rs:275-314 has_verbatim_execution_path *)
Definition has_verbatim_execution_path (request : ToolCallRequest) : bool :=
  match as_object (tcr_arguments request) with
  | None => false
  | Some arguments =>
      if existsb value_has_verbatim_path
           (omap (λ key, arguments !! key) (path_keys (tcr_name request)))
      then true
      else if bool_decide (tcr_name request = lit "exec_command") then
        existsb contains_verbatim_path_text
          (omap (λ key, arguments !! key ≫= as_str) [lit "cmd"; lit "stdin"]) ||
        match arguments !! lit "env" ≫= as_object with
        | Some env =>
            existsb contains_verbatim_path_text (omap as_str (snd <$> map_to_list env))
        | None => false
        end
      else if bool_decide (tcr_name request = lit "write_stdin") then
        match arguments !! lit "chars" ≫= as_str with
        | Some chars => contains_verbatim_path_text chars
        | None => false
        end
      else false
  end.

(** ** The guard *)

(** [CurrentTaskStatus::project(..).expect(..)]. *)
Definition expect_status (kind : TaskKind) (summary : SafeTaskSummary)
    (state : TaskExecutionState) : option CurrentTaskStatus :=
  match project_status kind summary state with Ok status => Some status | Err _ => None end.

(** The three places that block a call. *)
Definition block (kind : TaskKind) (summary : SafeTaskSummary) (self : McpGuard R)
    (reason : DenyReason) (capability : Capability) :
    option (McpGuard R * list CurrentTaskStatus * result (GuardError E) json) :=
  blocked ← expect_status kind summary TaskBlocked;
  Some (self, [blocked; StatusIdle], Err (GuardDenied (MkPolicyDenied reason capability))).

(** The guard after a call, what it projected, in order, and the result. *)
(* @src mcp/guard.rs:129-203 McpGuard::call_tool *)
Definition guard_call_tool (mode : PermissionMode) (request : ToolCallRequest)
    (self : McpGuard R) :
    option (McpGuard R * list CurrentTaskStatus * result (GuardError E) json) :=
  let decision := decide_request (mg_policy self) mode (tcr_name request)
    (tcr_indirect_capabilities request) (tcr_arguments request) in
  let kind := refined_task_kind (pd_descriptor decision) (tcr_arguments request) in
  let summary := safe_summary (tcr_name request) (tcr_arguments request) in
  let capability := td_capability (pd_descriptor decision) in
  if has_verbatim_execution_path request
  then block kind summary self VerbatimExecutionPath capability
  else if bool_decide (capability = CapElevatedExec)
  then block kind summary self PrivilegedRouteNotAvailable CapElevatedExec
  else if negb (pd_allowed decision) then
    reason ← pd_deny_reason decision;
    block kind summary self reason capability
  else
    running ← expect_status kind summary TaskRunning;
    let '(runtime, outcome) := raw_call_tool (mg_runtime self) (tcr_name request)
      (tcr_arguments request) (tcr_request_id request) in
    let self := MkMcpGuard runtime (mg_policy self) in
    match outcome with
    | Ok result => Some (self, [running; StatusIdle], Ok result)
    | Err error =>
        failed ← expect_status kind SummaryOmitted TaskFailed;
        Some (self, [running; failed; StatusIdle], Err (GuardRuntimeError error))
    end.

(* @src mcp/guard.rs:205-216 McpGuard::decision *)
Definition guard_decision (mode : PermissionMode) (request : ToolCallRequest)
    (self : McpGuard R) : PolicyDecision :=
  let decision := decide_request (mg_policy self) mode (tcr_name request)
    (tcr_indirect_capabilities request) (tcr_arguments request) in
  if has_verbatim_execution_path request
  then denied (pd_descriptor decision) VerbatimExecutionPath
  else decision.

(** A tool of [tools/list] the guard lists. *)
Definition listed (policy : CapabilityPolicy) (mode : PermissionMode) (tool : json) : bool :=
  match get_str (lit "name") tool with
  | Some name =>
      negb (bool_decide (name = lit "elevated_exec")) && tool_allowed_for_list policy mode name
  | None => false
  end.

(* @src mcp/guard.rs:113-127 McpGuard::filtered_tools *)
Definition filtered_tools (mode : PermissionMode) (self : McpGuard R) :
    McpGuard R * result (GuardError E) json :=
  let '(runtime, response) := raw_list_tools (mg_runtime self) in
  let policy := mg_policy self in
  (MkMcpGuard runtime policy,
   response ← map_err GuardRuntimeError response;
   '(members, tools) ← ok_or MalformedToolsList
     (members ← as_object response;
      tools ← members !! lit "tools" ≫= as_array;
      Some (members, tools));
   Ok (json_object (<[lit "tools" := json_array (List.filter (listed policy mode) tools)]> members))).

(* @src mcp/guard.rs:218-220 McpGuard::privileged_tool_visible *)
Definition guard_privileged_tool_visible (mode : PermissionMode) (name : ustr)
    (self : McpGuard R) : bool :=
  privileged_tool_visible (mg_policy self) name.

(* @src mcp/guard.rs:222-224 McpGuard::runtime_root_is_running *)
Definition runtime_root_is_running (self : McpGuard R) : result E (option bool) :=
  root_is_running (mg_runtime self).
End guard.

(** ** Theorems *)

Lemma decide_inner_reason p mode tool indirect :
  pd_allowed (decide_inner p mode tool indirect) = false →
  is_Some (pd_deny_reason (decide_inner p mode tool indirect)).
Proof. unfold decide_inner. repeat (case_match; [by eauto|]). done. Qed.

Lemma decide_request_reason `{Json} `{ReviewHost} p mode tool indirect arguments :
  pd_allowed (decide_request p mode tool indirect arguments) = false →
  is_Some (pd_deny_reason (decide_request p mode tool indirect arguments)).
Proof.
  unfold decide_request. case_match; [by eauto|].
  destruct (pd_allowed (decide_inner _ _ _ _)) eqn:Hallowed; simpl;
    [|by auto using decide_inner_reason].
  repeat case_match; [|by eauto|]; congruence.
Qed.

(** What a projection shows of a call. *)
Definition phase `{Json} (decision : PolicyDecision) (request : ToolCallRequest)
    (state : TaskExecutionState) : CurrentTaskStatus :=
  StatusActive (MkCurrentTask (refined_task_kind (pd_descriptor decision) (tcr_arguments request))
    (if decide (state = TaskFailed) then SummaryOmitted
     else safe_summary (tcr_name request) (tcr_arguments request)) state).

(** C40 (functional): the guard never panics, and it forwards a call to the
    runtime, with the name, arguments and request id it was given, exactly when
    its decision allows the call and the call is not [elevated_exec]; the result
    is the runtime's.  Any other call leaves the runtime untouched and is denied:
    one with a verbatim path for that, otherwise [elevated_exec] because its route
    is not available here, otherwise for the decision's reason.  The projected task
    always ends idle, after one blocked phase, or a running one that a failure
    follows with its summary removed. *)
Theorem guard_forwards_allowed_calls `{Json} `{ReviewHost} `{!GuardRuntime R E} mode request
    (guard : McpGuard R) :
  let decision := guard_decision mode request guard in
  let capability := td_capability (pd_descriptor decision) in
  if pd_allowed decision && negb (bool_decide (capability = CapElevatedExec)) then
    let '(runtime, outcome) := raw_call_tool (mg_runtime guard) (tcr_name request)
      (tcr_arguments request) (tcr_request_id request) in
    guard_call_tool mode request guard = Some
      (MkMcpGuard runtime (mg_policy guard),
       match outcome with
       | Ok _ => [phase decision request TaskRunning; StatusIdle]
       | Err _ => [phase decision request TaskRunning; phase decision request TaskFailed; StatusIdle]
       end,
       map_err GuardRuntimeError outcome)
  else
    ∃ reason, guard_call_tool mode request guard = Some
      (guard, [phase decision request TaskBlocked; StatusIdle],
       Err (GuardDenied (MkPolicyDenied reason capability))) ∧
      if has_verbatim_execution_path request then reason = VerbatimExecutionPath
      else if decide (capability = CapElevatedExec) then reason = PrivilegedRouteNotAvailable
      else pd_deny_reason decision = Some reason.
Proof.
  unfold guard_decision, guard_call_tool.
  set (decision := decide_request _ _ _ _ _).
  destruct (has_verbatim_execution_path request); simpl.
  { exists VerbatimExecutionPath. done. }
  case_bool_decide as Hcap; simpl.
  { rewrite andb_false_r. exists PrivilegedRouteNotAvailable. rewrite Hcap. by rewrite decide_True. }
  destruct (pd_allowed decision) eqn:Hallowed; simpl.
  - by destruct (raw_call_tool _ _ _ _) as [runtime [value|error]].
  - destruct (decide_request_reason _ _ _ _ _ Hallowed) as [reason Hreason].
    exists reason. fold decision in Hreason. rewrite Hreason. by rewrite decide_False.
Qed.
