(* ===== verification/OutputHandles.v ===== *)
(** * OutputHandles: public names of retained command output

    [src/src-tauri/src/execution/output_handles.rs].  Two bounded FIFO stores
    behind one table of handles: output the engine keeps under a private
    reference, and output kept here because the client could not receive it
    whole.  The random handle an operation draws is its argument [fresh]. *)

From S2P Require Import Prelude Domain.

(* @src execution/output_handles.rs:4-4 MAX_LOCAL_RETAINED_OUTPUT_HANDLES *)
Definition MAX_LOCAL_RETAINED_OUTPUT_HANDLES : nat := 8.
(* @src execution/output_handles.rs:5-5 MAX_PRIVATE_RETAINED_OUTPUT_HANDLES *)
Definition MAX_PRIVATE_RETAINED_OUTPUT_HANDLES : nat := 256.

(* @src execution/output_handles.rs:8-19 OutputHandle *)
Inductive OutputHandle :=
  | Private (private_output_ref owner_public_session_id stream : string)
  | Local (owner_session : McpSessionId) (stream content : string).

(* @src execution/output_handles.rs:22-25 OutputOwner *)
Inductive OutputOwner :=
  | PublicSession (id : string)
  | McpSession (id : McpSessionId).

(* @src execution/output_handles.rs:28-33 OutputHandleRegistry *)
Record OutputHandleRegistry := MkOutputHandleRegistry {
  handles : gmap string OutputHandle;
  private_to_public : gmap string string;
  private_order : list string;
  local_order : list string
}.
#[export] Instance eta_OutputHandleRegistry : Eta OutputHandleRegistry := λ r,
  MkOutputHandleRegistry (handles r) (private_to_public r) (private_order r) (local_order r).

Definition empty_handles : OutputHandleRegistry := MkOutputHandleRegistry ∅ ∅ [] [].

(** ** Operations *)

(* @src execution/output_handles.rs:147-154 OutputHandleRegistry::remove *)
Definition remove_handle (r : OutputHandleRegistry) (public : string) : OutputHandleRegistry :=
  match handles r !! public with
  | Some (Private private_ref _ _) =>
      r <| handles ::= delete public |> <| private_to_public ::= delete private_ref |>
  | _ => r <| handles ::= delete public |>
  end.

(** The eviction loops; [order] is the queue of the registry. *)
(* @src execution/output_handles.rs:45-49 OutputHandleRegistry::public_for_private (eviction) *)
Fixpoint expire_private (order : list string) (r : OutputHandleRegistry) : OutputHandleRegistry :=
  match order with
  | expired :: rest =>
      if MAX_PRIVATE_RETAINED_OUTPUT_HANDLES <=? length order
      then expire_private rest (remove_handle (r <| private_order := rest |>) expired) else r
  | [] => r
  end.

(* @src execution/output_handles.rs:71-75 OutputHandleRegistry::retain_local (eviction) *)
Fixpoint expire_local (order : list string) (r : OutputHandleRegistry) : OutputHandleRegistry :=
  match order with
  | expired :: rest =>
      if MAX_LOCAL_RETAINED_OUTPUT_HANDLES <=? length order
      then expire_local rest (remove_handle (r <| local_order := rest |>) expired) else r
  | [] => r
  end.

(* @src execution/output_handles.rs:36-63 OutputHandleRegistry::public_for_private *)
Definition public_for_private (r : OutputHandleRegistry)
    (private_output_ref owner_public_session_id stream fresh : string) :
    OutputHandleRegistry * string :=
  match private_to_public r !! private_output_ref with
  | Some public => (r, public)
  | None =>
      let r := expire_private (private_order r) r in
      (r <| private_to_public ::= <[private_output_ref := fresh]> |>
         <| handles ::= <[fresh := Private private_output_ref owner_public_session_id stream]> |>
         <| private_order ::= λ order, (order ++ [fresh])%list |>, fresh)
  end.

(* @src execution/output_handles.rs:65-87 OutputHandleRegistry::retain_local *)
Definition retain_local (r : OutputHandleRegistry) (owner_session : McpSessionId)
    (stream content fresh : string) : OutputHandleRegistry * string :=
  let r := expire_local (local_order r) r in
  (r <| handles ::= <[fresh := Local owner_session stream content]> |>
     <| local_order ::= λ order, (order ++ [fresh])%list |>, fresh).

(* @src execution/output_handles.rs:89-96 OutputHandleRegistry::private *)
Definition private_ref_of (r : OutputHandleRegistry) (public : string) : option string :=
  handle ← handles r !! public;
  match handle with Private private_ref _ _ => Some private_ref | Local _ _ _ => None end.

(* @src execution/output_handles.rs:98-105 OutputHandleRegistry::local *)
Definition local_of (r : OutputHandleRegistry) (public : string) : option (string * string) :=
  handle ← handles r !! public;
  match handle with Private _ _ _ => None | Local _ stream content => Some (stream, content) end.

(* @src execution/output_handles.rs:107-113 OutputHandleRegistry::stream *)
Definition stream_of (r : OutputHandleRegistry) (public : string) : option string :=
  handle ← handles r !! public;
  match handle with Private _ _ stream | Local _ stream _ => Some stream end.

(* @src execution/output_handles.rs:115-125 OutputHandleRegistry::owner *)
Definition owner_of (r : OutputHandleRegistry) (public : string) : option OutputOwner :=
  handle ← handles r !! public;
  match handle with
  | Private _ owner _ => Some (PublicSession owner)
  | Local owner _ _ => Some (McpSession owner)
  end.

Definition owned_by (public_sessions : list string) (handle : OutputHandle) : bool :=
  match handle with
  | Private _ owner _ => bool_decide (owner ∈ public_sessions)
  | Local _ _ _ => false
  end.

(** The handles are collected in the iteration order of the hash map. *)
(* @src execution/output_handles.rs:127-145 OutputHandleRegistry::reap_owned_by *)
Definition reap_owned_by (r : OutputHandleRegistry) (public_sessions : list string) :
    OutputHandleRegistry :=
  let expired := map fst (List.filter (λ kv, owned_by public_sessions kv.2)
                            (map_to_list (handles r))) in
  let r := foldl remove_handle r expired in
  r <| private_order ::= List.filter (λ public, negb (bool_decide (public ∈ expired))) |>.

(** ** Well-formedness *)

(** The index of private references is the inverse of the private handles. *)
Definition index_ok (r : OutputHandleRegistry) : Prop := ∀ private_ref public,
  private_to_public r !! private_ref = Some public ↔
  ∃ owner stream, handles r !! public = Some (Private private_ref owner stream).

Definition is_private (h : OutputHandle) : Prop :=
  match h with Private _ _ _ => True | Local _ _ _ => False end.
#[export] Instance is_private_dec h : Decision (is_private h).
Proof. destruct h; simpl; apply _. Defined.

(** The two queues list the handles of the two kinds, each once. *)
Record handles_wf (r : OutputHandleRegistry) : Prop := {
  hw_index : index_ok r;
  hw_private : ∀ public, public ∈ private_order r ↔
    ∃ h, handles r !! public = Some h ∧ is_private h;
  hw_local : ∀ public, public ∈ local_order r ↔
    ∃ h, handles r !! public = Some h ∧ ¬ is_private h;
  hw_nodup_private : NoDup (private_order r);
  hw_nodup_local : NoDup (local_order r)
}.

Lemma remove_handle_handles r p : handles (remove_handle r p) = delete p (handles r).
Proof. unfold remove_handle. by repeat case_match. Qed.
Lemma remove_handle_orders r p :
  private_order (remove_handle r p) = private_order r ∧
  local_order (remove_handle r p) = local_order r.
Proof. unfold remove_handle. by repeat case_match. Qed.

Lemma remove_handle_index r p : index_ok r → index_ok (remove_handle r p).
Proof.
  intros Hi q k. rewrite remove_handle_handles. unfold remove_handle.
  destruct (handles r !! p) as [[q' o s|o s c]|] eqn:Hp; simpl.
  - destruct (decide (q = q')) as [->|Hq].
    + rewrite lookup_delete_eq. split; [done|]. intros (o' & s' & Hk).
      rewrite lookup_delete_Some in Hk. destruct Hk as [Hne Hk].
      assert (private_to_public r !! q' = Some k) by (apply Hi; eauto).
      assert (private_to_public r !! q' = Some p) by (apply Hi; eauto). congruence.
    + rewrite lookup_delete_ne by done. rewrite (Hi q k). split.
      * intros (o' & s' & Hk). exists o', s'. apply lookup_delete_Some. split; [|done].
        intros ->. congruence.
      * intros (o' & s' & [_ Hk]%lookup_delete_Some). eauto.
  - rewrite (Hi q k). split.
    + intros (o' & s' & Hk). exists o', s'. apply lookup_delete_Some. split; [|done]. congruence.
    + intros (o' & s' & [_ Hk]%lookup_delete_Some). eauto.
  - rewrite (Hi q k). split.
    + intros (o' & s' & Hk). exists o', s'. apply lookup_delete_Some. split; [|done]. congruence.
    + intros (o' & s' & [_ Hk]%lookup_delete_Some). eauto.
Qed.

(** Popping the oldest handle of either queue and removing it. *)
Lemma pop_private_wf r e rest :
  handles_wf r → private_order r = e :: rest →
  handles_wf (remove_handle (r <| private_order := rest |>) e).
Proof.
  intros [Hi Hp Hl Hnp Hnl] Ho. rewrite Ho in Hnp. apply NoDup_cons in Hnp as [He Hnp].
  destruct (remove_handle_orders (r <| private_order := rest |>) e) as [Hpo Hlo].
  split; rewrite ?Hpo, ?Hlo, ?remove_handle_handles; simpl; try done.
  - by apply remove_handle_index.
  - intros k. setoid_rewrite lookup_delete_Some. specialize (Hp k).
    rewrite Ho, elem_of_cons in Hp. split.
    + intros Hk. destruct (proj1 Hp) as (h & ? & ?); [by right|]. exists h.
      split_and!; [congruence|done..].
    + intros (h & [Hne ?] & ?). destruct (proj2 Hp) as [->|?]; [by exists h|done..].
  - intros k. setoid_rewrite lookup_delete_Some. rewrite (Hl k). split; [|naive_solver].
    intros (h & Hk & Hn). exists h. split_and!; [|done..]. intros <-.
    destruct (proj1 (Hp e)) as (h' & ? & ?); [rewrite Ho; by left|]. congruence.
Qed.

Lemma pop_local_wf r e rest :
  handles_wf r → local_order r = e :: rest →
  handles_wf (remove_handle (r <| local_order := rest |>) e).
Proof.
  intros [Hi Hp Hl Hnp Hnl] Ho. rewrite Ho in Hnl. apply NoDup_cons in Hnl as [He Hnl].
  destruct (remove_handle_orders (r <| local_order := rest |>) e) as [Hpo Hlo].
  split; rewrite ?Hpo, ?Hlo, ?remove_handle_handles; simpl; try done.
  - by apply remove_handle_index.
  - intros k. setoid_rewrite lookup_delete_Some. rewrite (Hp k). split; [|naive_solver].
    intros (h & Hk & Hn). exists h. split_and!; [|done..]. intros <-.
    destruct (proj1 (Hl e)) as (h' & ? & ?); [rewrite Ho; by left|]. congruence.
  - intros k. setoid_rewrite lookup_delete_Some. specialize (Hl k).
    rewrite Ho, elem_of_cons in Hl. split.
    + intros Hk. destruct (proj1 Hl) as (h & ? & ?); [by right|]. exists h.
      split_and!; [congruence|done..].
    + intros (h & [Hne ?] & ?). destruct (proj2 Hl) as [->|?]; [by exists h|done..].
Qed.

(** What the eviction loops leave: the newest handles of the queue, every one
    of them unchanged, and the other queue. *)
Lemma expire_private_spec order r :
  handles_wf r → private_order r = order →
  let r' := expire_private order r in
  handles_wf r' ∧ local_order r' = local_order r ∧
  private_order r' = drop (length order - (MAX_PRIVATE_RETAINED_OUTPUT_HANDLES - 1)) order ∧
  handles r' ⊆ handles r ∧ private_to_public r' ⊆ private_to_public r.
Proof.
  revert r. induction order as [|e rest IH]; intros r Hwf Ho; [done|]. cbn [expire_private].
  destruct (_ <=? _) eqn:Hle.
  - apply Nat.leb_le in Hle.
    destruct (IH _ (pop_private_wf r e rest Hwf Ho)) as (Hwf' & Hl & Hp & Hh & Hq).
    { by destruct (remove_handle_orders (r <| private_order := rest |>) e) as [-> _]. }
    destruct (remove_handle_orders (r <| private_order := rest |>) e) as [_ Hlo].
    rewrite Hlo in Hl. rewrite remove_handle_handles in Hh. cbn -[Nat.sub] in Hl, Hh, Hq. split_and!; [done..| | |].
    + rewrite Hp. by replace (length (e :: rest) - (MAX_PRIVATE_RETAINED_OUTPUT_HANDLES - 1)) with
        (S (length rest - (MAX_PRIVATE_RETAINED_OUTPUT_HANDLES - 1)))
        by (unfold MAX_PRIVATE_RETAINED_OUTPUT_HANDLES in *; cbn [length] in *; lia).
    + etrans; [done|]. apply delete_subseteq.
    + etrans; [done|]. unfold remove_handle. repeat case_match; simpl; try done.
      apply delete_subseteq.
  - apply Nat.leb_gt in Hle. split_and!; [done..| |done|done]. rewrite Ho.
    by replace (length (e :: rest) - (MAX_PRIVATE_RETAINED_OUTPUT_HANDLES - 1)) with 0 by lia.
Qed.

Lemma expire_local_spec order r :
  handles_wf r → local_order r = order →
  let r' := expire_local order r in
  handles_wf r' ∧ private_order r' = private_order r ∧
  local_order r' = drop (length order - (MAX_LOCAL_RETAINED_OUTPUT_HANDLES - 1)) order ∧
  handles r' ⊆ handles r.
Proof.
  revert r. induction order as [|e rest IH]; intros r Hwf Ho; [done|]. cbn [expire_local].
  destruct (_ <=? _) eqn:Hle.
  - apply Nat.leb_le in Hle.
    destruct (IH _ (pop_local_wf r e rest Hwf Ho)) as (Hwf' & Hl & Hp & Hh).
    { by destruct (remove_handle_orders (r <| local_order := rest |>) e) as [_ ->]. }
    destruct (remove_handle_orders (r <| local_order := rest |>) e) as [Hpo _].
    rewrite Hpo in Hl. rewrite remove_handle_handles in Hh. cbn -[Nat.sub] in Hl, Hh. split_and!; [done..| |].
    + rewrite Hp. by replace (length (e :: rest) - (MAX_LOCAL_RETAINED_OUTPUT_HANDLES - 1)) with
        (S (length rest - (MAX_LOCAL_RETAINED_OUTPUT_HANDLES - 1)))
        by (unfold MAX_LOCAL_RETAINED_OUTPUT_HANDLES in *; cbn [length] in *; lia).
    + etrans; [done|]. apply delete_subseteq.
  - apply Nat.leb_gt in Hle. split_and!; [done..| |done]. rewrite Ho.
    by replace (length (e :: rest) - (MAX_LOCAL_RETAINED_OUTPUT_HANDLES - 1)) with 0 by lia.
Qed.

Lemma elem_of_snoc_iff {A} (l : list A) x y : y ∈ (l ++ [x])%list ↔ y ∈ l ∨ y = x.
Proof. by rewrite elem_of_app, list_elem_of_singleton. Qed.

Lemma nodup_snoc {A} (l : list A) x : NoDup l → x ∉ l → NoDup (l ++ [x]).
Proof.
  intros Hl Hx. apply NoDup_app. split_and!; [done| |apply NoDup_singleton].
  by intros y Hy ->%list_elem_of_singleton.
Qed.

(** Adding a handle under a fresh name. *)
Lemma add_private_wf r private_ref owner stream fresh :
  handles_wf r → handles r !! fresh = None → private_to_public r !! private_ref = None →
  handles_wf (r <| private_to_public ::= <[private_ref := fresh]> |>
                <| handles ::= <[fresh := Private private_ref owner stream]> |>
                <| private_order ::= λ order, (order ++ [fresh])%list |>).
Proof.
  intros [Hi Hp Hl Hnp Hnl] Hf Hq. split; simpl; try done.
  - intros q k. simpl. destruct (decide (q = private_ref)) as [->|Hne].
    + rewrite lookup_insert_eq. split.
      * intros [= <-]. exists owner, stream. by rewrite lookup_insert_eq.
      * intros (o & s & [[-> _]|[_ Hk]]%lookup_insert_Some); [done|].
        assert (private_to_public r !! private_ref = Some k) by (apply Hi; eauto). congruence.
    + rewrite lookup_insert_ne by done. rewrite (Hi q k). split.
      * intros (o & s & Hk). exists o, s. rewrite lookup_insert_ne; congruence.
      * intros (o & s & [[_ [=]]|[_ Hk]]%lookup_insert_Some); [done|eauto].
  - intros k. rewrite elem_of_snoc_iff, (Hp k). setoid_rewrite lookup_insert_Some. split.
    + intros [(h & ? & ?)| ->]; [exists h; split; [right; split; [congruence|done]|done]|].
      eexists. split; [by left|done].
    + intros (h & [[-> _]|[_ ?]] & ?); [by right|left; eauto].
  - intros k. rewrite (Hl k). setoid_rewrite lookup_insert_Some. split.
    + intros (h & ? & ?). exists h. split; [right; split; [congruence|done]|done].
    + intros (h & [[_ <-]|[_ ?]] & Hn); [by destruct Hn|eauto].
  - apply nodup_snoc; [done|]. intros (h & ? & ?)%Hp. congruence.
Qed.

Lemma add_local_wf r owner stream content fresh :
  handles_wf r → handles r !! fresh = None →
  handles_wf (r <| handles ::= <[fresh := Local owner stream content]> |>
                <| local_order ::= λ order, (order ++ [fresh])%list |>).
Proof.
  intros [Hi Hp Hl Hnp Hnl] Hf. split; simpl; try done.
  - intros q k. simpl. rewrite (Hi q k). split.
    + intros (o & s & Hk). exists o, s. rewrite lookup_insert_ne; congruence.
    + intros (o & s & [[_ [=]]|[_ Hk]]%lookup_insert_Some); eauto.
  - intros k. rewrite (Hp k). setoid_rewrite lookup_insert_Some. split.
    + intros (h & ? & ?). exists h. split; [right; split; [congruence|done]|done].
    + intros (h & [[_ <-]|[_ ?]] & Hn); [done|eauto].
  - intros k. rewrite elem_of_snoc_iff, (Hl k). setoid_rewrite lookup_insert_Some. split.
    + intros [(h & ? & ?)| ->]; [exists h; split; [right; split; [congruence|done]|done]|].
      exists (Local owner stream content). split; [by left|by intros []].
    + intros (h & [[-> _]|[_ ?]] & ?); [by right|left; eauto].
  - apply nodup_snoc; [done|]. intros (h & ? & ?)%Hl. congruence.
Qed.

(** Reaping removes the handles of the given sessions, and nothing else. *)
Lemma foldl_remove_lookup expired r k :
  handles (foldl remove_handle r expired) !! k =
  if decide (k ∈ expired) then None else handles r !! k.
Proof.
  revert r. induction expired as [|e expired IH]; intros r; cbn [foldl].
  { case_decide as Hk; [by apply not_elem_of_nil in Hk|done]. }
  rewrite IH, remove_handle_handles. rewrite lookup_delete.
  repeat (case_decide || done); set_solver.
Qed.

Lemma foldl_remove_frame expired r :
  let r' := foldl remove_handle r expired in
  private_order r' = private_order r ∧ local_order r' = local_order r ∧
  (index_ok r → index_ok r').
Proof.
  revert r. induction expired as [|e expired IH]; intros r; [done|]. simpl.
  destruct (IH (remove_handle r e)) as (-> & -> & Hi).
  destruct (remove_handle_orders r e) as [-> ->]. split_and!; [done..|].
  intros H. by apply Hi, remove_handle_index.
Qed.

Definition reaped (r : OutputHandleRegistry) (public_sessions : list string) (k : string) : bool :=
  match handles r !! k with Some h => owned_by public_sessions h | None => false end.

Lemma expired_elem r public_sessions k :
  k ∈ map fst (List.filter (λ kv, owned_by public_sessions kv.2) (map_to_list (handles r))) ↔
  reaped r public_sessions k = true.
Proof.
  unfold reaped. etrans; [apply (list_elem_of_fmap fst)|]. setoid_rewrite filterb_elem. split.
  - intros ([k' h] & -> & Hin%elem_of_map_to_list & Ho). simpl in *. by rewrite Hin.
  - destruct (handles r !! k) as [h|] eqn:Hk; [|done]. intros Ho. exists (k, h).
    split_and!; [done|by apply elem_of_map_to_list|done].
Qed.

Lemma reap_lookup r public_sessions k :
  handles (reap_owned_by r public_sessions) !! k =
  if reaped r public_sessions k then None else handles r !! k.
Proof.
  unfold reap_owned_by. simpl. rewrite foldl_remove_lookup.
  destruct (reaped r public_sessions k) eqn:Hr.
  - apply decide_True. by apply expired_elem.
  - apply decide_False. rewrite expired_elem. by rewrite Hr.
Qed.

Lemma reap_wf r public_sessions : handles_wf r → handles_wf (reap_owned_by r public_sessions).
Proof.
  intros [Hi Hp Hl Hnp Hnl].
  set (expired := map fst (List.filter (λ kv, owned_by public_sessions kv.2)
                             (map_to_list (handles r)))).
  destruct (foldl_remove_frame expired r) as (Hpo & Hlo & Hidx).
  assert (local_order (reap_owned_by r public_sessions) = local_order r) as Hlo' by exact Hlo.
  assert (private_order (reap_owned_by r public_sessions) =
          List.filter (λ public, negb (bool_decide (public ∈ expired))) (private_order r)) as Hpo'.
  { unfold reap_owned_by. cbn -[foldl]. fold expired. by rewrite Hpo. }
  split; rewrite ?Hlo', ?Hpo'; try done.
  - exact (Hidx Hi).
  - intros k. rewrite filterb_elem, reap_lookup, (Hp k), negb_true_iff, bool_decide_eq_false.
    subst expired. rewrite expired_elem. destruct (reaped r public_sessions k); naive_solver.
  - intros k. rewrite reap_lookup, (Hl k). split.
    + intros (h & Hk & Hh). exists h. unfold reaped. rewrite Hk.
      by destruct h; [destruct Hh|].
    + intros (h & Hk & Hh). exists h. by destruct (reaped r public_sessions k).
  - by eapply sublist_nodup; [apply filter_sublist|].
Qed.

(** ** The registry as a state machine *)

(** Every random handle drawn is new. *)
Inductive handle_step : OutputHandleRegistry → OutputHandleRegistry → Prop :=
  | StepPublic r private_ref owner stream fresh :
      handles r !! fresh = None →
      handle_step r (public_for_private r private_ref owner stream fresh).1
  | StepRetain r owner stream content fresh :
      handles r !! fresh = None →
      handle_step r (retain_local r owner stream content fresh).1
  | StepReap r public_sessions : handle_step r (reap_owned_by r public_sessions).

#[export] Instance handle_machine : StateMachine OutputHandleRegistry := {
  sm_init := λ r, r = empty_handles;
  sm_step := handle_step
}.

Definition handles_bounded (r : OutputHandleRegistry) : Prop :=
  length (private_order r) ≤ MAX_PRIVATE_RETAINED_OUTPUT_HANDLES ∧
  length (local_order r) ≤ MAX_LOCAL_RETAINED_OUTPUT_HANDLES.

Lemma lookup_subseteq_None {V} (m1 m2 : gmap string V) k :
  m1 ⊆ m2 → m2 !! k = None → m1 !! k = None.
Proof. intros Hs Hk. by eapply lookup_weaken_None. Qed.

Lemma public_for_private_wf r private_ref owner stream fresh :
  handles_wf r → handles_bounded r → handles r !! fresh = None →
  let r' := (public_for_private r private_ref owner stream fresh).1 in
  handles_wf r' ∧ handles_bounded r'.
Proof.
  intros Hwf [Hbp Hbl] Hf. unfold public_for_private.
  destruct (private_to_public r !! private_ref) as [p|] eqn:Hq; [done|].
  destruct (expire_private_spec _ r Hwf eq_refl) as (Hwf' & Hl & Hp & Hh & Hi).
  cbn [fst]. split.
  - apply add_private_wf; [done|by eapply lookup_subseteq_None..].
  - split; simpl; [|by rewrite Hl].
    rewrite length_app, Hp, length_drop. cbn [length].
    unfold MAX_PRIVATE_RETAINED_OUTPUT_HANDLES in *. lia.
Qed.

Lemma retain_local_wf r owner stream content fresh :
  handles_wf r → handles_bounded r → handles r !! fresh = None →
  let r' := (retain_local r owner stream content fresh).1 in
  handles_wf r' ∧ handles_bounded r'.
Proof.
  intros Hwf [Hbp Hbl] Hf. unfold retain_local.
  destruct (expire_local_spec _ r Hwf eq_refl) as (Hwf' & Hp & Hl & Hh).
  cbn [fst]. split.
  - apply add_local_wf; [done|by eapply lookup_subseteq_None].
  - split; simpl; [by rewrite Hp|].
    rewrite length_app, Hl, length_drop. cbn [length].
    unfold MAX_LOCAL_RETAINED_OUTPUT_HANDLES in *. lia.
Qed.

#[export] Instance handles_invariant : Invariant (λ r, handles_wf r ∧ handles_bounded r).
Proof.
  split.
  - intros r ->. unfold empty_handles. split; [|split; simpl; unfold MAX_PRIVATE_RETAINED_OUTPUT_HANDLES,
      MAX_LOCAL_RETAINED_OUTPUT_HANDLES; lia].
    split; simpl; try (by constructor).
    + intros q p. simpl. rewrite lookup_empty. setoid_rewrite lookup_empty. naive_solver.
    + intros p. setoid_rewrite lookup_empty. split; [by intros ?%not_elem_of_nil|naive_solver].
    + intros p. setoid_rewrite lookup_empty. split; [by intros ?%not_elem_of_nil|naive_solver].
  - intros r r' [Hwf Hb] Hst. destruct Hst.
    + by apply public_for_private_wf.
    + by apply retain_local_wf.
    + split; [by apply reap_wf|]. destruct Hb as [Hbp Hbl]. unfold reap_owned_by.
      destruct (foldl_remove_frame (map fst (List.filter (λ kv, owned_by public_sessions kv.2)
        (map_to_list (handles r)))) r) as (Hpo & Hlo & _).
      split; cbn -[foldl]; [|by rewrite Hlo].
      rewrite Hpo. etrans; [|exact Hbp]. apply sublist_length, filter_sublist.
Qed.

(** The registry of retained output, in every reachable state:
    it holds at most 256 private and 8 local handles, each listed once in the
    queue of its kind, and the private index is exactly the inverse of the
    private handles; asking again for a private reference answers the same
    handle; a new local output keeps the 7 newest before it, unchanged, and is
    readable under its handle by its owner; and reaping sessions removes
    exactly the private handles they own. *)
Theorem output_handles_correct r (Hr : reachable r) :
  (handles_bounded r ∧ handles_wf r) ∧
  (∀ private_ref owner stream fresh, handles r !! fresh = None →
     let '(r', p) := public_for_private r private_ref owner stream fresh in
     private_ref_of r' p = Some private_ref ∧ local_order r' = local_order r ∧
     ∀ owner' stream' fresh', public_for_private r' private_ref owner' stream' fresh' = (r', p)) ∧
  (∀ owner stream content fresh, handles r !! fresh = None →
     let '(r', p) := retain_local r owner stream content fresh in
     local_of r' p = Some (stream, content) ∧ owner_of r' p = Some (McpSession owner) ∧
     local_order r' = (drop (length (local_order r) - 7) (local_order r) ++ [p])%list ∧
     private_order r' = private_order r ∧
     ∀ q, q ∈ local_order r' → q ≠ p → handles r' !! q = handles r !! q) ∧
  (∀ public_sessions p, handles (reap_owned_by r public_sessions) !! p =
     match owner_of r p with
     | Some (PublicSession s) => if decide (s ∈ public_sessions) then None else handles r !! p
     | _ => handles r !! p
     end).
Proof.
  apply (invariant_reachable (λ r, handles_wf r ∧ handles_bounded r)) in Hr as [Hwf Hb].
  split_and!; [done..| | |].
  - intros q owner stream fresh Hf.
    destruct (public_for_private_wf r q owner stream fresh Hwf Hb Hf) as [Hwf' _]. revert Hwf'.
    unfold public_for_private at 1 2. destruct (private_to_public r !! q) as [p|] eqn:Hq; simpl.
    + intros _. apply (hw_index _ Hwf) in Hq as Hp. destruct Hp as (o & s & Hp).
      split_and!; [unfold private_ref_of; by rewrite Hp|done|].
      intros. unfold public_for_private. by rewrite Hq.
    + intros _. destruct (expire_private_spec (private_order r) r Hwf eq_refl) as (_ & Hl & _).
      split_and!; [unfold private_ref_of; simpl; by rewrite lookup_insert_eq|done|].
      intros. unfold public_for_private. simpl. by rewrite lookup_insert_eq.
  - intros owner stream content fresh Hf.
    destruct (retain_local_wf r owner stream content fresh Hwf Hb Hf) as [Hwf' _]. revert Hwf'.
    unfold retain_local. destruct (expire_local_spec _ r Hwf eq_refl) as (Hwf1 & Hp & Hl & Hh).
    simpl. intros Hwf'. unfold local_of, owner_of. simpl. rewrite lookup_insert_eq.
    split_and!; [done|done|by rewrite Hl|done|]. intros q Hq Hne.
    rewrite lookup_insert_ne by done.
    apply elem_of_snoc_iff in Hq as [(h & Hq & _)%(hw_local _ Hwf1)|]; [|done].
    by rewrite Hq, (lookup_weaken _ _ _ _ Hq Hh).
  - intros ss p. rewrite reap_lookup. unfold reaped, owner_of.
    destruct (handles r !! p) as [[q o s|o s c]|]; simpl; [|done..].
    case_bool_decide; by case_decide.
Qed.

Definition demo_handles : OutputHandleRegistry :=
  (retain_local (public_for_private empty_handles "ref" "session-a" "stdout" "lb-output-1").1
     (MkMcpSessionId "mcp") "stderr" "text" "lb-output-2").1.

Lemma output_handles_correct_witness :
  reachable demo_handles ∧ handles_bounded demo_handles ∧
  handles (reap_owned_by demo_handles ["session-a"]) !! "lb-output-1" = None.
Proof.
  assert (reachable demo_handles) as Hr.
  { assert (reachable empty_handles) as H0 by (exists empty_handles; split; [done|constructor]).
    eapply reachable_step in H0;
      [|by apply (StepPublic _ "ref" "session-a" "stdout" "lb-output-1")].
    eapply reachable_step in H0;
      [|by apply (StepRetain _ (MkMcpSessionId "mcp") "stderr" "text" "lb-output-2")].
    exact H0. }
  destruct (output_handles_correct _ Hr) as ([Hb _] & _ & _ & Hreap).
  split_and!; [done|done|]. rewrite Hreap. by vm_compute.
Defined.

(** A private reference keeps the owner of its first request. *)
Example private_owner_is_the_first :
  let r := (public_for_private demo_handles "ref" "session-b" "stdout" "lb-output-3").1 in
  owner_of r "lb-output-1" = Some (PublicSession "session-a") ∧
  handles r !! "lb-output-3" = None.
Proof. by vm_compute. Qed.
