(* ===== verification/Facade.v ===== *)
(** * Facade: the errors of the public tools and the envelope of their results

    [src/src-tauri/src/mcp/facade.rs] and [diagnostics/error.rs]: the stable error
    codes with their remediation, what every internal error becomes, the diagnostic
    that goes with a code, and the common form of every answer. *)

From stdpp Require Import pretty.
From S2P Require Import Prelude Text StateModel CodingEdit WindowsPath HostFs PathAuthority FilesystemService Json Policy PolicyReview.
#[local] Open Scope N_scope.

(** ** Codes *)

(* @src mcp/facade.rs:70-98 FacadeErrorCode *)
Inductive FacadeErrorCode :=
  | FcInvalidArgument | FcNotFound | FcWorkspaceDenied | FcCapabilityDenied | FcPolicyDenied 
  | FcInvalidShellSyntax | FcElevatedOperationNotReviewed | FcPrivilegedRouteNotAvailable 
  | FcElevationRequired | FcProcessFailed | FcProcessTimedOut | FcProcessCancelled 
  | FcOperationTimedOut | FcQueueCapacityExceeded | FcTaskIdRequired | FcTaskNotOwned 
  | FcSessionUnavailable | FcOutputNotFound | FcOutputTruncated | FcRuntimeUnavailable 
  | FcCapabilityUnavailable | FcRuntimeProtocolMismatch | FcRuntimeCapabilityMismatch 
  | FcFileChanged | FcPatchConflict | FcAmbiguousMatch | FcInternal.
#[export] Instance FacadeErrorCode_eq_dec : EqDecision FacadeErrorCode.
Proof. solve_decision. Defined.
Definition facade_error_codes : list FacadeErrorCode :=
  [FcInvalidArgument; FcNotFound; FcWorkspaceDenied; FcCapabilityDenied; FcPolicyDenied;
   FcInvalidShellSyntax; FcElevatedOperationNotReviewed; FcPrivilegedRouteNotAvailable;
   FcElevationRequired; FcProcessFailed; FcProcessTimedOut; FcProcessCancelled;
   FcOperationTimedOut; FcQueueCapacityExceeded; FcTaskIdRequired; FcTaskNotOwned;
   FcSessionUnavailable; FcOutputNotFound; FcOutputTruncated; FcRuntimeUnavailable;
   FcCapabilityUnavailable; FcRuntimeProtocolMismatch; FcRuntimeCapabilityMismatch;
   FcFileChanged; FcPatchConflict; FcAmbiguousMatch; FcInternal].
Lemma facade_error_codes_all code : code ∈ facade_error_codes.
Proof. destruct code; by apply (bool_decide_unpack _). Qed.

(* @src mcp/facade.rs:101-131 FacadeErrorCode::as_str *)
Definition code_str (code : FacadeErrorCode) : string :=
  match code with
  | FcInvalidArgument => "InvalidArgument"
  | FcNotFound => "NotFound"
  | FcWorkspaceDenied => "WorkspaceDenied"
  | FcCapabilityDenied => "CapabilityDenied"
  | FcPolicyDenied => "PolicyDenied"
  | FcInvalidShellSyntax => "InvalidShellSyntax"
  | FcElevatedOperationNotReviewed => "ElevatedOperationNotReviewed"
  | FcPrivilegedRouteNotAvailable => "PrivilegedRouteUnavailable"
  | FcElevationRequired => "ElevationRequired"
  | FcProcessFailed => "ProcessFailed"
  | FcProcessTimedOut => "ProcessTimedOut"
  | FcProcessCancelled => "ProcessCancelled"
  | FcOperationTimedOut => "OperationTimedOut"
  | FcQueueCapacityExceeded => "QueueCapacityExceeded"
  | FcTaskIdRequired => "TaskIdRequired"
  | FcTaskNotOwned => "TaskNotOwned"
  | FcSessionUnavailable => "SessionUnavailable"
  | FcOutputNotFound => "OutputNotFound"
  | FcOutputTruncated => "OutputTruncated"
  | FcRuntimeUnavailable => "RuntimeUnavailable"
  | FcCapabilityUnavailable => "CapabilityUnavailable"
  | FcRuntimeProtocolMismatch => "RuntimeProtocolMismatch"
  | FcRuntimeCapabilityMismatch => "RuntimeCapabilityMismatch"
  | FcFileChanged => "FileChanged"
  | FcPatchConflict => "PatchConflict"
  | FcAmbiguousMatch => "AmbiguousMatch"
  | FcInternal => "Internal"
  end.

(* @src mcp/facade.rs:135-160 FacadeErrorCode::safe_rule_category *)
Definition safe_rule_category (code : FacadeErrorCode) : string :=
  match code with
  | FcWorkspaceDenied =>
      "workspace_boundary"
  | FcPolicyDenied | FcCapabilityDenied | FcTaskNotOwned =>
      "policy"
  | FcInvalidShellSyntax =>
      "shell_syntax"
  | FcElevatedOperationNotReviewed | FcPrivilegedRouteNotAvailable | FcElevationRequired =>
      "privileged_route"
  | FcRuntimeUnavailable | FcCapabilityUnavailable | FcRuntimeProtocolMismatch |
    FcRuntimeCapabilityMismatch =>
      "runtime"
  | FcProcessTimedOut =>
      "process_timeout"
  | FcOperationTimedOut =>
      "command_runtime"
  | FcProcessFailed | FcProcessCancelled | FcQueueCapacityExceeded | FcSessionUnavailable |
    FcOutputTruncated =>
      "command_runtime"
  | FcOutputNotFound =>
      "request"
  | FcFileChanged | FcPatchConflict | FcAmbiguousMatch =>
      "edit_conflict"
  | FcInvalidArgument | FcNotFound | FcTaskIdRequired | FcInternal =>
      "request"
  end.

(* @src mcp/facade.rs:162-202 FacadeErrorCode::safe_remediation *)
Definition safe_remediation (code : FacadeErrorCode) : string :=
  match code with
  | FcWorkspaceDenied =>
      "使用当前 active workspace 内的相对路径"
  | FcPolicyDenied | FcCapabilityDenied =>
      "查看 workspace_context.capabilities 或使用 dry_run 获取允许路线"
  | FcInvalidShellSyntax =>
      "按所选 Windows Shell 的原生语法修正命令"
  | FcElevatedOperationNotReviewed =>
      "使用允许列表中的程序、参数与工作目录提交管理员操作"
  | FcPrivilegedRouteNotAvailable | FcElevationRequired =>
      "检查 workspace_context 中的权限模式与管理员路由状态"
  | FcRuntimeUnavailable | FcCapabilityUnavailable | FcRuntimeProtocolMismatch |
    FcRuntimeCapabilityMismatch =>
      "查看 workspace_context.shell_discovery 与运行时诊断"
  | FcProcessTimedOut =>
      "提高 timeout_ms 或缩小单次任务"
  | FcOperationTimedOut =>
      "命令控制请求已达到 wait_ms 预算；稍后 poll 以观察同一 Execution"
  | FcProcessCancelled =>
      "重新发起命令"
  | FcQueueCapacityExceeded =>
      "等待其他任务完成后重试"
  | FcTaskIdRequired =>
      "指定当前 MCP Session 拥有的 task_id"
  | FcTaskNotOwned =>
      "使用当前 MCP Session 拥有且尚未终止的 task_id"
  | FcSessionUnavailable =>
      "重新执行命令以创建新会话"
  | FcOutputNotFound =>
      "使用命令返回的有效 output_ref，或重新执行命令生成新输出"
  | FcOutputTruncated =>
      "若返回 output_ref 则分页读取；否则提高 max_bytes 或 resize 后重试"
  | FcFileChanged | FcPatchConflict | FcAmbiguousMatch | FcProcessFailed | FcInvalidArgument |
    FcNotFound | FcInternal =>
      "检查参数与返回的稳定错误信息"
  end.

(** ** Diagnostics *)

(* @src diagnostics/error.rs:5-13 DiagnosticErrorCode *)
Inductive DiagnosticErrorCode :=
  | DiagInvalidRequest | DiagUnavailable | DiagDenied | DiagTimeout | DiagCancelled
  | DiagExecutionFailed | DiagUnknown.
#[export] Instance DiagnosticErrorCode_eq_dec : EqDecision DiagnosticErrorCode.
Proof. solve_decision. Defined.
(* @src diagnostics/error.rs:16-26 DiagnosticErrorCode::as_str *)
Definition diagnostic_code_str (code : DiagnosticErrorCode) : string :=
  match code with
  | DiagInvalidRequest => "InvalidRequest"
  | DiagUnavailable => "Unavailable"
  | DiagDenied => "Denied"
  | DiagTimeout => "Timeout"
  | DiagCancelled => "Cancelled"
  | DiagExecutionFailed => "ExecutionFailed"
  | DiagUnknown => "Unknown"
  end.

(* @src diagnostics/error.rs:31-39 DiagnosticPhase *)
Inductive DiagnosticPhase :=
  | PhaseTransport | PhaseMcp | PhaseRuntime | PhasePolicy | PhaseTool | PhaseProcess | PhaseUnknown.
(* @src diagnostics/error.rs:42-52 DiagnosticPhase::as_str *)
Definition phase_str (phase : DiagnosticPhase) : string :=
  match phase with
  | PhaseTransport => "transport"
  | PhaseMcp => "mcp"
  | PhaseRuntime => "runtime"
  | PhasePolicy => "policy"
  | PhaseTool => "tool"
  | PhaseProcess => "process"
  | PhaseUnknown => "unknown"
  end.

(* @src diagnostics/error.rs:56-61 ErrorDiagnostic *)
Record ErrorDiagnostic := MkErrorDiagnostic {
  ed_error_code : DiagnosticErrorCode;
  ed_phase : DiagnosticPhase;
  ed_cause : ustr;
  ed_http_status : option N
}.
(* @src diagnostics/error.rs:64-75 ErrorDiagnostic::new *)
Definition diagnostic_new (error_code : DiagnosticErrorCode) (phase : DiagnosticPhase)
    (cause : ustr) : ErrorDiagnostic := MkErrorDiagnostic error_code phase cause None.

(* @src diagnostics/error.rs:201-210 canonical_cause *)
Definition canonical_cause (code : ustr) : ustr :=
  concat (imap (λ index ch,
    (if is_ascii_upper ch && (0 <? N.of_nat index) then [0x5F] else []) ++
    [ascii_lower ch]) code).

Definition says_one_of (code : ustr) (names : list string) : bool :=
  existsb (λ name, bool_decide (code = lit name)) names.
(* @src diagnostics/error.rs:92-166 from_canonical_code *)
Definition from_canonical_code (code : ustr) : ErrorDiagnostic :=
  if says_one_of code ["InvalidArgument"; "NotFound"; "OutputNotFound"; "TaskIdRequired";
       "InvalidShellSyntax"; "FileChanged"; "PatchConflict"; "AmbiguousMatch"]%string
  then diagnostic_new DiagInvalidRequest PhaseTool (canonical_cause code)
  else if says_one_of code ["WorkspaceDenied"; "CapabilityDenied"; "PolicyDenied"; "TaskNotOwned";
       "ElevatedOperationNotReviewed"; "PrivilegedRouteUnavailable"; "ElevationRequired"]%string
  then diagnostic_new DiagDenied PhasePolicy (canonical_cause code)
  else if says_one_of code ["ProcessTimedOut"]%string
  then diagnostic_new DiagTimeout PhaseProcess (lit "process_timed_out")
  else if says_one_of code ["OperationTimedOut"]%string
  then diagnostic_new DiagTimeout PhaseTransport (lit "operation_timed_out")
  else if says_one_of code ["ProcessCancelled"]%string
  then diagnostic_new DiagCancelled PhaseProcess (lit "process_cancelled")
  else if says_one_of code ["ProcessFailed"]%string
  then diagnostic_new DiagExecutionFailed PhaseProcess (lit "process_failed")
  else if says_one_of code ["SessionUnavailable"]%string
  then diagnostic_new DiagUnavailable PhaseProcess (lit "session_unavailable")
  else if says_one_of code ["RuntimeProtocolMismatch"]%string
  then diagnostic_new DiagUnavailable PhaseMcp (lit "protocol_mismatch")
  else if says_one_of code ["RuntimeUnavailable"; "CapabilityUnavailable";
       "RuntimeCapabilityMismatch"]%string
  then diagnostic_new DiagUnavailable PhaseRuntime (canonical_cause code)
  else if says_one_of code ["OutputTruncated"]%string
  then diagnostic_new DiagExecutionFailed PhaseTool (lit "output_truncated")
  else if says_one_of code ["Internal"]%string
  then diagnostic_new DiagUnknown PhaseUnknown (lit "internal")
  else diagnostic_new DiagUnknown PhaseUnknown (lit "unmapped_" ++ to_ascii_lowercase code).

(* @src diagnostics/error.rs:168-179 transport_unavailable *)
Definition transport_unavailable (cause : ustr) (http_status : option N) : ErrorDiagnostic :=
  MkErrorDiagnostic DiagUnavailable PhaseTransport cause http_status.

(** ** Errors *)

(* @src mcp/facade.rs:206-212 FacadeError *)
Record FacadeError `{Json} := MkFacadeError {
  fe_code : FacadeErrorCode;
  fe_message : ustr;
  fe_retryable : bool;
  fe_diagnostic : option ErrorDiagnostic;
  fe_details : json
}.

Section errors.
Context `{Json}.

(* @src mcp/facade.rs:215-223 FacadeError::new *)
Definition facade_error (code : FacadeErrorCode) (message : string) (retryable : bool) : FacadeError :=
  MkFacadeError _ code (text message) retryable None json_null.
(* @src mcp/facade.rs:225-228 FacadeError::with_diagnostic *)
Definition with_diagnostic (diagnostic : ErrorDiagnostic) (self : FacadeError) : FacadeError :=
  MkFacadeError _ (fe_code self) (fe_message self) (fe_retryable self) (Some diagnostic) (fe_details self).
(* @src mcp/facade.rs:230-233 FacadeError::with_details *)
Definition with_details (details : json) (self : FacadeError) : FacadeError :=
  MkFacadeError _ (fe_code self) (fe_message self) (fe_retryable self) (fe_diagnostic self) details.

Definition text_content (message : ustr) : json :=
  json_array [obj [("type", js "text"); ("text", json_string message)]].
(** The members of an [error] that come from its code and its diagnostic. *)
Definition error_members (code : FacadeErrorCode) (diagnostic : ErrorDiagnostic) (message : ustr)
    (retryable : bool) : list (string * json) :=
  [("code", js (code_str code));
   ("error_code", js (diagnostic_code_str (ed_error_code diagnostic)));
   ("phase", js (phase_str (ed_phase diagnostic)));
   ("cause", json_string (ed_cause diagnostic));
   ("http_status", jopt jn (ed_http_status diagnostic));
   ("message", json_string message);
   ("retryable", json_bool retryable);
   ("rule_category", js (safe_rule_category code));
   ("remediation", json_string (text (safe_remediation code)))].
(** The envelope of a failure. *)
Definition failure (message : ustr) (data error : json) : json :=
  obj [("content", text_content message);
       ("structuredContent", obj [
          ("ok", json_bool false); ("state", js "failed"); ("summary", json_string message);
          ("task_id", json_null); ("warnings", json_array []); ("next_step", json_null);
          ("output_refs", json_array []); ("data", data); ("error", error)]);
       ("isError", json_bool true)].

(* @src mcp/facade.rs:235-266 FacadeError::to_mcp_result *)
Definition to_mcp_result (self : FacadeError) : json :=
  let diagnostic := default (from_canonical_code (lit (code_str (fe_code self)))) (fe_diagnostic self) in
  failure (fe_message self) json_null
    (obj (error_members (fe_code self) diagnostic (fe_message self) (fe_retryable self) ++
          [("details", fe_details self)])).

(* @src mcp/facade.rs:278-281 FacadeDenied *)
Record FacadeDenied := MkFacadeDenied { fd_reason : DenyReason; fd_capability : Capability }.
(* @src mcp/facade.rs:284-317 FacadeDenied::to_mcp_result *)
Definition denied_to_mcp_result (self : FacadeDenied) : json :=
  let '(code, message) :=
    match fd_reason self with
    | VerbatimExecutionPath => (FcWorkspaceDenied, "工作区路径参数无效"%string)
    | ElevatedExecNotReviewed => (FcElevatedOperationNotReviewed, "管理员操作未通过允许列表审核"%string)
    | PrivilegedRouteNotAvailable => (FcPrivilegedRouteNotAvailable, "该操作需要受控管理员路由"%string)
    | UnknownTool | NetworkRouteNotAvailable => (FcCapabilityDenied, "请求的能力当前不可用"%string)
    | DenyControlPlane | ToolNotAllowedInMode | IndirectProcessExecInEdit | IndirectControlPlane
    | IndirectUnknownCapability => (FcPolicyDenied, "请求被 LocalBridge 权限策略拒绝"%string)
    end in
  to_mcp_result (facade_error code message false).

(* @src mcp/facade.rs:6997-7003 invalid_argument *)
Definition invalid_argument : FacadeError :=
  facade_error FcInvalidArgument "LocalBridge 工具参数无效" false.
(* @src mcp/facade.rs:7308-7310 session_unavailable *)
Definition session_unavailable : FacadeError :=
  facade_error FcSessionUnavailable "命令会话不可用" false.

(* @src mcp/facade.rs:7005-7035 normalize_filesystem_error *)
Definition normalize_filesystem_error (error : FilesystemError) : FacadeError :=
  match error with
  | FsInvalidArgument | FsLimitExceeded | FsUnsupported => invalid_argument
  | FsNotFound => facade_error FcNotFound "文件系统目标不存在" false
  | FsOutsideAuthority => facade_error FcWorkspaceDenied "文件系统路径越出当前授权范围" false
  | FsAlreadyExists => facade_error FcFileChanged "文件系统目标已存在" false
  | FsFileChanged => facade_error FcFileChanged "文件系统目标自读取后已发生变化" false
  | FsCancelled => facade_error FcProcessCancelled "文件系统操作已取消" true
  | FsIo => facade_error FcInternal "文件系统操作失败" false
  end.

(* @src document/mod.rs:188-198 DocumentError *)
Inductive DocumentError :=
  | DocInvalidArgument | DocNotFound | DocOutsideAuthority | DocFileChanged | DocLimitExceeded
  | UnsupportedFormat | UnsupportedContent | CorruptDocument | DocIo.
(* @src mcp/facade.rs:7037-7080 normalize_document_error *)
Definition normalize_document_error (error : DocumentError) : FacadeError :=
  match error with
  | DocInvalidArgument => invalid_argument
  | DocNotFound => facade_error FcNotFound "文档不存在" false
  | DocOutsideAuthority => facade_error FcWorkspaceDenied "文档路径越出当前工作区" false
  | DocFileChanged => facade_error FcFileChanged "文档自读取后已变化或目标已存在" false
  | DocLimitExceeded => facade_error FcOutputTruncated "文档超过本地处理上限" false
  | UnsupportedFormat =>
      with_details (obj [("field", js "path");
          ("supported_formats", json_array [js "txt"; js "md"; js "docx"; js "pdf"]);
          ("pdf_mutation", json_bool false)])
        (facade_error FcInvalidArgument "文档格式或目标转换不受支持" false)
  | UnsupportedContent => facade_error FcCapabilityUnavailable "文档包含当前版本无法无损处理的结构" false
  | CorruptDocument => facade_error FcInvalidArgument "文档格式损坏或无法解析" false
  | DocIo => facade_error FcInternal "文档操作失败" false
  end.

(* @src mcp/facade.rs:7082-7096 normalize_shell_error *)
Definition normalize_shell_error (selector : ShellSelector) : FacadeError :=
  facade_error FcRuntimeUnavailable
    match selector with
    | Pwsh =>
        "未发现可信 PowerShell Core；可查看 workspace_context.shell_discovery 并使用 windows_powershell 或 auto"
    | WindowsPowershell => "未发现可信 Windows PowerShell；请查看 workspace_context.shell_discovery"
    | Cmd => "未发现可信 cmd.exe；请查看 workspace_context.shell_discovery"
    | Powershell | ShellAuto => "没有可用的可信命令 Shell；请查看 workspace_context.shell_discovery"
    end false.

(** The details of the integrity and supervisor errors are not looked at. *)
(* @src mcp/runtime.rs:119-135 CodingToolsRuntimeError *)
Inductive CodingToolsRuntimeError :=
  | RtInvalidConfiguration | RtWorkspaceMissing | RtWorkspaceInvalid | RtRuntimeMissing
  | RtRuntimeChecksumMismatch | RtPortUnavailable | RtSupervisor | RtConnectionUnavailable
  | RtRequestTimeout | RtHttpStatus (status : N) | RtProtocolMismatch | RtUpstreamRpcError
  | RtMcpExited | RtHealthTimeout | RtCancelled.
Definition number_text (n : N) : ustr := lit (pretty n).
(* @src mcp/facade.rs:7098-7158 normalize_runtime_error *)
Definition normalize_runtime_error (error : CodingToolsRuntimeError) : FacadeError :=
  match error with
  | RtProtocolMismatch =>
      with_diagnostic (diagnostic_new DiagUnavailable PhaseMcp (lit "protocol_mismatch"))
        (facade_error FcRuntimeProtocolMismatch "编码运行时协议不兼容" false)
  | RtConnectionUnavailable =>
      with_diagnostic (transport_unavailable (lit "connection_unavailable") None)
        (facade_error FcSessionUnavailable "编码运行时连接不可用" true)
  | RtRequestTimeout =>
      with_diagnostic (diagnostic_new DiagTimeout PhaseTransport (lit "request_deadline_expired"))
        (facade_error FcOperationTimedOut "命令控制请求已达到 wait_ms 时间预算" true)
  | RtHttpStatus status =>
      with_diagnostic (transport_unavailable (lit "http_" ++ number_text status) (Some status))
        (facade_error FcSessionUnavailable "编码运行时传输返回异常 HTTP 状态" true)
  | RtCancelled => facade_error FcProcessCancelled "命令已取消" false
  | RtHealthTimeout =>
      with_diagnostic (transport_unavailable (lit "health_timeout") None)
        (facade_error FcSessionUnavailable "编码运行时 MCP 健康检查超时" true)
  | RtUpstreamRpcError =>
      with_diagnostic (diagnostic_new DiagExecutionFailed PhaseMcp (lit "upstream_rpc_error"))
        (facade_error FcInternal "编码运行时 MCP 调用失败" false)
  | _ => facade_error FcRuntimeUnavailable "编码运行时不可用" true
  end.

(* @src mcp/facade.rs:7188-7218 normalize_coding_edit_error *)
Definition normalize_coding_edit_error (error : CodingEditError) : FacadeError :=
  match error with
  | EditFileChanged => facade_error FcFileChanged "目标文件自读取后已发生变化" false
  | PatchConflict => facade_error FcPatchConflict "编辑上下文与当前文件不匹配" false
  | AmbiguousMatch => facade_error FcAmbiguousMatch "编辑匹配不唯一" false
  | MultiFilePatchUnsupported =>
      facade_error FcInvalidArgument "patch 每次只能修改一个文件；请将多文件修改拆成独立请求" false
  | EditNotFound => facade_error FcNotFound "目标文件不存在" false
  | EditInvalidPath => facade_error FcWorkspaceDenied "目标路径不在当前工作区权限范围内" false
  | EditIo => facade_error FcInternal "编辑操作未完成" true
  end.

(* @src mcp/facade.rs:7220-7231 normalize_path_authority_error *)
Definition normalize_path_authority_error (error : PathAuthorityError) : FacadeError :=
  match error with
  | PathInvalid | PathOutsideAuthority => facade_error FcWorkspaceDenied "工作区路径参数无效" false
  | PathNotFound => facade_error FcNotFound "工作区文件不存在" false
  end.

(* @src mcp/facade.rs:7233-7281 normalize_private_error *)
Definition normalize_private_error (raw : json) : FacadeError :=
  let code := to_ascii_uppercase
    (default [] (pointer ["structuredContent"; "error"; "code"]%string raw ≫= as_str)) in
  let permission :=
    default [] (pointer ["structuredContent"; "error"; "details"; "permission"]%string raw ≫= as_str) in
  let has name := contains (lit name) code in
  let public :=
    if has "PATCH_CONTEXT_AMBIGUOUS"%string then FcAmbiguousMatch
    else if has "PATCH_CONTEXT_NOT_FOUND"%string || has "PATCH_HUNKS_OVERLAP"%string then FcPatchConflict
    else if bool_decide (code = lit "PATCH_CONFLICT") then FcFileChanged
    else if has "SESSION_NOT_FOUND"%string || has "SESSION_CLOSED"%string then FcSessionUnavailable
    else if has "SHELL_SYNTAX"%string || has "INVALID_SHELL"%string || has "PARSE_ERROR"%string
    then FcInvalidShellSyntax
    else if has "INVALID"%string then FcInvalidArgument
    else if has "NOT_FOUND"%string || has "MISSING"%string then FcNotFound
    else if has "OUTSIDE_WORKSPACE"%string || has "WORKSPACE_DENIED"%string ||
            has "ABSOLUTE_PATH_DENIED"%string || has "SYMLINK_ESCAPE"%string ||
            bool_decide (permission = lit "filesystem_escape")
    then FcWorkspaceDenied
    else if has "PERMISSION"%string || has "CAPABILITY"%string then FcCapabilityDenied
    else if has "TIMEOUT"%string then FcProcessTimedOut
    else if has "CANCEL"%string then FcProcessCancelled
    else if has "TRUNCAT"%string then FcOutputTruncated
    else FcProcessFailed in
  facade_error public "LocalBridge 工具执行失败" false.

(* @src mcp/facade.rs:7283-7306 normalize_git_error *)
Definition normalize_git_error (raw : json) : FacadeError :=
  let error := pointer ["structuredContent"; "error"]%string raw in
  let private_code := default (lit "GIT_ERROR") (error ≫= get_str (lit "code")) in
  let private_message := default (lit "Git operation failed") (error ≫= get_str (lit "message")) in
  let reads name := bool_decide (private_code = lit name) in
  let code :=
    if reads "INVALID_ARGUMENT"%string then FcInvalidArgument
    else if reads "NOT_FOUND"%string then FcNotFound
    else if reads "OUTSIDE_WORKSPACE"%string then FcWorkspaceDenied
    else if reads "GIT_TIMEOUT"%string then FcProcessTimedOut
    else FcProcessFailed in
  with_details (obj [("git_error_code", json_string private_code);
                     ("git_message", json_string private_message)])
    (facade_error code "Git 操作失败" false).

(** ** The envelope of a result *)

(** [Map::values]: in the order of the keys. *)
Definition object_values (m : gmap ustr json) : list json :=
  (sort_by (λ a b, ustr_leb a.1 b.1) (map_to_list m)).*2.
(* @src mcp/facade.rs:7358-7393 stable_success *)
Definition stable_success (data : json) (message : ustr) : json :=
  let output_refs :=
    match get (lit "output_refs") data with
    | Some refs =>
        match as_array refs, as_object refs with
        | Some refs, _ => refs
        | None, Some streams => object_values streams
        | None, None => []
        end
    | None => []
    end in
  obj [("content", text_content message);
       ("structuredContent", obj [
          ("ok", json_bool true);
          ("state", default json_null (get (lit "state") data));
          ("summary", default (json_string message) (get (lit "summary") data));
          ("task_id", default json_null
             (match get (lit "task_id") data with Some id => Some id | None => get (lit "workflow_id") data end));
          ("warnings", default (json_array []) (get (lit "warnings") data));
          ("next_step", default json_null (get (lit "next_step") data));
          ("output_refs", json_array output_refs);
          ("data", data);
          ("error", json_null)]);
       ("isError", json_bool false)].

(* @src mcp/facade.rs:7395-7401 stable_data *)
Definition stable_data (value : json) : json :=
  default json_null (pointer ["structuredContent"; "data"]%string value).
(* @src mcp/facade.rs:7403-7432 stable_command_error *)
Definition stable_command_error (code : FacadeErrorCode) (message : ustr) (data : gmap ustr json) : json :=
  failure message (json_object data)
    (obj (error_members code (from_canonical_code (lit (code_str code))) message false)).
Definition is_error (value : json) : bool :=
  bool_decide (get_bool (lit "isError") value = Some true).
End errors.

(** ** Facts *)

Section facts.
Context `{Json}.

Lemma stable_success_structured data message :
  ∃ content, get (lit "structuredContent") (stable_success data message) = Some content ∧
    get (lit "data") content = Some data.
Proof. eexists. unfold stable_success. rewrite get_obj. split; [reflexivity|].
  unfold get. cbv [prod_map snd id]. unfold obj. rewrite as_object_object. reflexivity.
Qed.
Lemma stable_data_success data message : stable_data (stable_success data message) = data.
Proof.
  destruct (stable_success_structured data message) as (content & Hc & Hd).
  unfold stable_data, pointer. rewrite Hc. simpl. by rewrite Hd.
Qed.
Lemma is_error_success data message : is_error (stable_success data message) = false.
Proof.
  unfold is_error, get_bool, stable_success. rewrite get_obj.
  change (list_to_map _ !! _) with (Some (json_bool false)). simpl. by rewrite as_bool_bool.
Qed.
Lemma is_error_failure message data error : is_error (failure message data error) = true.
Proof.
  unfold is_error, get_bool, failure. rewrite get_obj.
  change (list_to_map _ !! _) with (Some (json_bool true)). simpl. by rewrite as_bool_bool.
Qed.
Lemma is_error_result error : is_error (to_mcp_result error) = true.
Proof. apply is_error_failure. Qed.
End facts.

(** Every code has its diagnostic, but one. *)
Lemma queue_capacity_is_unmapped code :
  starts_with (lit "unmapped_") (ed_cause (from_canonical_code (lit (code_str code)))) =
  bool_decide (code = FcQueueCapacityExceeded).
Proof. destruct code; vm_compute; reflexivity. Qed.
Example remediation_of_timeouts : length (text (safe_remediation FcProcessTimedOut)) = 21%nat.
Proof. vm_compute. reflexivity. Qed.
