(* ===== verification/FacadeOutput.v ===== *)
(** * FacadeOutput: what a client sees of a command's output

    [src/src-tauri/src/mcp/facade.rs]: the filter that keeps PowerShell's CLIXML
    protocol out of the error stream, also when it arrives in pieces, the pages of
    retained output, and what a command's result is reported as. *)

From S2P Require Import Prelude Text Domain StateModel Json Facade.
#[local] Open Scope N_scope.

(** ** The CLIXML protocol *)

Definition has_lower (value : ustr) (needle : string) : bool :=
  contains (lit needle) (to_ascii_lowercase value).

(* @src mcp/facade.rs:7614-7625 looks_like_clixml_protocol *)
Definition looks_like_clixml_protocol (stderr : ustr) : bool :=
  existsb (has_lower stderr)
    ["#< clixml"; "<objs"; "</objs>"; "<obj"; "</obj>"; "<ms"; "</ms>"]%string ||
  contains (lit "s=" ++ [0x22] ++ lit "progress" ++ [0x22]) (to_ascii_lowercase stderr) ||
  contains (lit "s=" ++ [0x22] ++ lit "error" ++ [0x22]) (to_ascii_lowercase stderr).
Definition error_attribute : ustr := lit "s=" ++ [0x22] ++ lit "error" ++ [0x22].

(** Four digits for [u16::from_str_radix], which accepts a plus sign. *)
Definition hex_digit (c : N) : option N :=
  if in_range 0x30 0x39 c then Some (c - 0x30)
  else if in_range 0x41 0x46 c then Some (c - 0x37)
  else if in_range 0x61 0x66 c then Some (c - 0x57)
  else None.
Definition from_str_radix_16 (digits : ustr) : option N :=
  let digits := match digits with 0x2B :: rest => if bool_decide (rest = []) then digits else rest | _ => digits end in
  if bool_decide (digits = []) then None
  else foldl (λ n c, n ← n; d ← hex_digit c; Some (n * 16 + d)) (Some 0) digits.

(** [_xHHHH_] at the front. *)
Definition escaped_unit (value : ustr) : option N :=
  match value with
  | 0x5F :: 0x78 :: a :: b :: c :: d :: 0x5F :: _ => from_str_radix_16 [a; b; c; d]
  | _ => None
  end.

(** [index] is the length of what was taken off; [fuel] is the length of the text. *)
(* @src mcp/facade.rs:7666-7703 decode_clixml_utf16_escapes *)
Fixpoint decode_escapes (fuel : nat) (value : ustr) : ustr :=
  match fuel with
  | O => []
  | S fuel =>
      match value with
      | [] => []
      | ch :: rest =>
          let plain := ch :: decode_escapes fuel rest in
          match escaped_unit value with
          | Some unit =>
              if in_range 0xD800 0xDBFF unit then
                match escaped_unit (drop 7 value) with
                | Some low =>
                    if in_range 0xDC00 0xDFFF low then
                      (0x10000 + ((unit - 0xD800) * 1024 + (low - 0xDC00))) :: decode_escapes fuel (drop 14 value)
                    else plain
                | None => plain
                end
              else if in_range 0xDC00 0xDFFF unit then plain
              else unit :: decode_escapes fuel (drop 7 value)
          | None => plain
          end
      end
  end.
Definition decode_clixml_utf16_escapes (value : ustr) : ustr := decode_escapes (length value) value.

(* @src mcp/facade.rs:7656-7664 decode_clixml_text *)
Definition decode_clixml_text (value : ustr) : ustr :=
  decode_clixml_utf16_escapes
    (replace (lit "&amp;") (lit "&")
      (replace (lit "&apos;") (lit "'")
        (replace (lit "&quot;") [0x22]
          (replace (lit "&gt;") (lit ">")
            (replace (lit "&lt;") (lit "<") value))))).

(** The loop over the elements; [lower] is [stderr] in lower case, and both are
    what is left of them. *)
Fixpoint extract_loop (fuel : nat) (stderr lower : ustr) : list ustr :=
  match fuel with
  | O => []
  | S fuel =>
      match find_sub (lit "<s") lower with
      | None => []
      | Some start =>
          match find_sub (lit ">") (drop start lower) with
          | None => []
          | Some relative_open_end =>
              let open_end := (start + relative_open_end)%nat in
              let open := take (S relative_open_end) (drop start lower) in
              match find_sub (lit "</s>") (drop (S open_end) lower) with
              | None => []
              | Some relative_close =>
                  let decoded := decode_clixml_text (take relative_close (drop (S open_end) stderr)) in
                  let next := (S open_end + relative_close + 4)%nat in
                  (if (bool_decide (open = lit "<s>") || contains error_attribute open) &&
                      negb (bool_decide (trim decoded = []))
                   then [decoded] else []) ++
                  extract_loop fuel (drop next stderr) (drop next lower)
              end
          end
      end
  end.
(* @src mcp/facade.rs:7627-7654 extract_clixml_error_strings *)
Definition extract_clixml_error_strings (stderr : ustr) : ustr :=
  concat (extract_loop (length stderr) stderr (to_ascii_lowercase stderr)).

(** The rest of the value after the match. *)
(* @src mcp/facade.rs:7516-7533 find_ignoring_line_breaks *)
Fixpoint find_ignoring_line_breaks (needle : ustr) (matched : nat) (value : ustr) : option ustr :=
  match value with
  | [] => None
  | ch :: value =>
      if (ch =? 0x0D) || (ch =? 0x0A) then find_ignoring_line_breaks needle matched value
      else if (ch <? 0x80) && bool_decide (needle !! matched = Some ch) then
        if Nat.eqb (S matched) (length needle) then Some value
        else find_ignoring_line_breaks needle (S matched) value
      else find_ignoring_line_breaks needle
             (if (ch <? 0x80) && bool_decide (head needle = Some ch) then 1%nat else 0%nat) value
  end.

Definition trim_start_line_breaks (value : ustr) : ustr :=
  rev (trim_end_matches (λ c, (c =? 0x0D) || (c =? 0x0A)) (rev value)).
(* @src mcp/facade.rs:7501-7514 strip_private_powershell_prologue *)
Definition strip_private_powershell_prologue (value : ustr) : ustr :=
  if existsb (λ needle, contains (lit needle) value)
       ["PSModuleAutoLoadingPreference"; "Microsoft.PowerShell.Management.psd1";
        "System.Text.UTF8Encoding"; "[Console]::OutputEncoding"]%string
  then
    match find_ignoring_line_breaks (lit "$OutputEncoding=[Console]::OutputEncoding;") 0 value with
    | Some rest => trim_start_line_breaks rest
    | None => []
    end
  else value.

(* @src mcp/facade.rs:7490-7499 public_command_stderr *)
Definition public_command_stderr (stderr : ustr) : ustr :=
  if negb (looks_like_clixml_protocol stderr) then stderr
  else if negb (contains error_attribute (to_ascii_lowercase stderr)) then []
  else strip_private_powershell_prologue (extract_clixml_error_strings stderr).

(** ** The error stream in pieces *)

(* @src mcp/facade.rs:7592-7598 clixml_envelope_start *)
Definition clixml_envelope_start (value : ustr) : option nat :=
  let lower := to_ascii_lowercase value in
  match find_sub (lit "#< clixml") lower, find_sub (lit "<objs") lower with
  | Some a, Some b => Some (Nat.min a b)
  | Some a, None | None, Some a => Some a
  | None, None => None
  end.

(** The longest proper prefix of the marker that the text ends with. *)
Definition held_prefix (lower marker : ustr) : nat :=
  default 0%nat (find (λ length, ends_with (take length marker) lower) (rev (seq 1 (length marker - 1)))).
(* @src mcp/facade.rs:7600-7612 clixml_marker_prefix_suffix_len *)
Definition clixml_marker_prefix_suffix_len (value : ustr) : nat :=
  let lower := to_ascii_lowercase value in
  Nat.max (held_prefix lower (lit "#< clixml")) (held_prefix lower (lit "<objs")).

(** What becomes visible, and what stays in the buffer. *)
(* @src mcp/facade.rs:7535-7578 drain_public_stderr_protocol_buffer *)
Fixpoint drain_loop (fuel : nat) (buffer : ustr) : ustr * ustr :=
  match fuel with
  | O => ([], buffer)
  | S fuel =>
      if bool_decide (buffer = []) then ([], []) else
      match clixml_envelope_start buffer with
      | Some (S start) =>
          let '(visible, rest) := drain_loop fuel (drop (S start) buffer) in
          (take (S start) buffer ++ visible, rest)
      | Some O =>
          match find_sub (lit "</objs>") (to_ascii_lowercase buffer) with
          | None => ([], buffer)
          | Some end_start =>
              let finish := (end_start + 7)%nat in
              let '(visible, rest) := drain_loop fuel (drop finish buffer) in
              (public_command_stderr (take finish buffer) ++ visible, rest)
          end
      | None =>
          if looks_like_clixml_protocol buffer then (public_command_stderr buffer, [])
          else
            let hold := clixml_marker_prefix_suffix_len buffer in
            (take (length buffer - hold) buffer, drop (length buffer - hold) buffer)
      end
  end.
Definition drain_public_stderr_protocol_buffer (buffer : ustr) : ustr * ustr :=
  drain_loop (S (S (length buffer))) buffer.

(* @src mcp/facade.rs:948-948 MAX_STDERR_PROTOCOL_BYTES *)
Definition MAX_STDERR_PROTOCOL_BYTES : nat := 256 * 1024.
(* @src mcp/facade.rs:947-947 MAX_PENDING_OUTPUT_BYTES *)
Definition MAX_PENDING_OUTPUT_BYTES : nat := 1024 * 1024.

(** Whole characters are taken off the front until the rest fits. *)
(* @src mcp/facade.rs:7580-7590 trim_utf8_front *)
Fixpoint trim_utf8_front (max_bytes : nat) (value : ustr) : ustr * bool :=
  if (byte_len value <=? max_bytes)%nat then (value, false)
  else match value with
       | [] => ([], false)
       | _ :: value => ((trim_utf8_front max_bytes value).1, true)
       end.

(** With the buffer of a session; without one, the text is filtered alone. *)
(* @src mcp/facade.rs:1203-1222 PublicCommandSessions::filter_private_stderr *)
Definition filter_private_stderr (buffer : option ustr) (stderr : ustr) : option ustr * ustr :=
  if bool_decide (stderr = []) then (buffer, []) else
  match buffer with
  | None => (None, public_command_stderr stderr)
  | Some buffer =>
      let '(retained, truncated) := trim_utf8_front MAX_STDERR_PROTOCOL_BYTES (buffer ++ stderr) in
      if truncated
      then (Some [], lit "[stderr protocol fragment truncated]" ++ [0x0A] ++ public_command_stderr retained)
      else let '(visible, rest) := drain_public_stderr_protocol_buffer retained in (Some rest, visible)
  end.

(** ** Pages *)

(** [str::is_char_boundary] on the bytes of a string. *)
Definition is_char_boundary (content : bytes) (index : nat) : bool :=
  match content !! index with
  | Some b => negb (is_cont b)
  | None => Nat.eqb index (length content)
  end.
(** [while end > start && !is_char_boundary(end) { end -= 1 }]. *)
Fixpoint back_to_boundary (content : bytes) (start finish : nat) : nat :=
  match finish with
  | O => O
  | S previous =>
      if (start <? finish)%nat && negb (is_char_boundary content finish)
      then back_to_boundary content start previous else finish
  end.
(** Where the next character starts. *)
Fixpoint count_while (f : N → bool) (l : bytes) : nat :=
  match l with b :: l => if f b then S (count_while f l) else 0 | [] => 0 end.
Definition next_boundary (content : bytes) (start : nat) : nat :=
  (S start + count_while is_cont (drop (S start) content))%nat.

(** The page's ends, unless it starts within a character. *)
Definition page_bounds (content : bytes) (requested_offset limit : N) : option (nat * nat) :=
  let total := length content in
  let start := N.to_nat (N.min requested_offset (N.of_nat total)) in
  if negb (is_char_boundary content start) then None else
  let finish := Nat.min (start + N.to_nat (N.min limit 1048576)) total in
  let finish := back_to_boundary content start finish in
  Some (start, if Nat.eqb finish start && (start <? total)%nat then next_boundary content start else finish).
Definition next_offset (content : bytes) (finish : nat) : option N :=
  if (finish <? length content)%nat then Some (N.of_nat finish) else None.

Section pages.
Context `{Json}.

Definition output_page (output_ref stream : ustr) (public : ustr) (requested_offset limit : N) :
    result FacadeError json :=
  let content := utf8_encode public in
  match page_bounds content requested_offset limit with
  | None => Err invalid_argument
  | Some (start, finish) =>
      let next := next_offset content finish in
      Ok (stable_success (obj [
          ("output_ref", json_string output_ref);
          ("stream", json_string stream);
          ("offset", jn (N.of_nat start));
          ("requested_offset", jn requested_offset);
          ("limit", jn limit);
          ("next_offset", jopt jn next);
          ("returned_bytes", jn (N.of_nat (finish - start)));
          ("total_bytes", jn (N.of_nat (length content)));
          ("truncated", json_bool (bool_decide (is_Some next)));
          ("content", json_string (default [] (utf8_decode (take (finish - start) (drop start content)))))])
        (lit "Command output read"))
  end.
(* @src mcp/facade.rs:2716-2757 public_local_output_page *)
Definition public_local_output_page (output_ref stream content : ustr) (requested_offset limit : N) :
    result FacadeError json := output_page output_ref stream content requested_offset limit.
(* @src mcp/facade.rs:2759-2805 public_stderr_page *)
Definition public_stderr_page (raw : json) (public_output_ref : ustr) (requested_offset limit : N) :
    result FacadeError json :=
  let raw_content := default [] (pointer ["structuredContent"; "content"]%string raw ≫= as_str) in
  output_page public_output_ref (lit "stderr") (public_command_stderr raw_content) requested_offset limit.

(** ** What a result is reported as *)

(* @src mcp/facade.rs:2807-2816 command_summary *)
Definition command_summary (status : ustr) : ustr :=
  if says_one_of status ["running"]%string then lit "Command running"
  else if says_one_of status ["completed"]%string then lit "Command completed"
  else if says_one_of status ["failed"]%string then lit "Command failed"
  else if says_one_of status ["cancelled"]%string then lit "Command cancelled"
  else if says_one_of status ["timed_out"]%string then lit "Command timed out"
  else lit "Command lost".

(* @src mcp/facade.rs:2818-2834 command_public_status *)
Definition command_public_status (private_status : ustr) (exit_code : option Z) (timed_out : bool) : ustr :=
  if timed_out || says_one_of private_status ["timeout"]%string then lit "timed_out"
  else if says_one_of private_status ["terminated"; "killed"; "cancelled"]%string then lit "cancelled"
  else if says_one_of private_status ["terminating"; "running"]%string then lit "running"
  else if match exit_code with Some code => negb (code =? 0)%Z | None => false end then lit "failed"
  else lit "completed".

(* @src mcp/facade.rs:2701-2714 primary_output_stream *)
Definition primary_output_stream (structured : gmap ustr json) (output_ref : ustr) : ustr :=
  let named :=
    refs ← structured !! lit "output_refs";
    _ ← as_object refs;
    find (λ stream, bool_decide (get_str stream refs = Some output_ref)) [lit "stdout"; lit "stderr"] in
  match named with
  | Some stream => stream
  | None => default (lit "stdout") (structured !! lit "output_stream" ≫= as_str)
  end.

(* @src mcp/facade.rs:2599-2658 normalize_read_output *)
Definition normalize_read_output (raw : json) (public_output_ref : ustr) : json :=
  let structured := get (lit "structuredContent") raw in
  let member key := structured ≫= get (lit key) in
  let copied : gmap ustr json := list_to_map (omap (λ key, pair (lit key) <$> member key)
    ["stream"; "offset"; "requested_offset"; "limit"; "next_offset"; "truncated"]%string) in
  let data := <[lit "output_ref" := json_string public_output_ref]> copied in
  let content :=
    content ← member "content"%string ≫= as_str;
    let stream := default (lit "stdout") (member "stream"%string ≫= as_str) in
    Some (if bool_decide (stream = lit "stderr") then public_command_stderr content else content) in
  let data := <[lit "returned_bytes" := jn (N.of_nat (byte_len (default [] content)))]> data in
  let data := match content with
              | Some content => <[lit "content" := json_string content]> data
              | None => data
              end in
  let total := match member "total_stream_bytes"%string with
               | Some total => Some total
               | None => member "total_bytes"%string
               end in
  let data := match total ≫= as_u64 with
              | Some total => <[lit "total_bytes" := jn total]> data
              | None => data
              end in
  stable_success (json_object data) (lit "Command output read").
End pages.

(** ** Reading all of an output *)

(** A client that follows [next_offset], with any limits. *)
Fixpoint read_pages (fuel : nat) (content : bytes) (offset : N) (limit : N → N) : option (list bytes) :=
  match fuel with
  | O => None
  | S fuel =>
      '(start, finish) ← page_bounds content offset (limit offset);
      rest ← match next_offset content finish with
             | None => Some []
             | Some offset => read_pages fuel content offset limit
             end;
      Some (take (finish - start) (drop start content) :: rest)
  end.

Abbreviation scalars := (Forall (λ c, is_scalar c = true)).

Lemma utf8_encode_char_bytes c :
  is_scalar c = true → ∃ b l, utf8_encode_char c = b :: l ∧ is_cont b = false ∧ Forall (λ b, is_cont b = true) l.
Proof.
  intros Hc. unfold utf8_encode_char. repeat case_match; eexists _, _; (split; [done|]);
    (split; [bool_lia|]); repeat constructor; bool_lia.
Qed.

(** A boundary is where a prefix of the string ends. *)
Lemma boundary_splits s i :
  scalars s → is_char_boundary (utf8_encode s) i = true →
  ∃ s1 s2, s = s1 ++ s2 ∧ i = length (utf8_encode s1).
Proof.
  intros Hs. revert i. induction Hs as [|c s Hc Hs IH]; intros i Hi.
  - destruct i; [by exists [], []|done].
  - destruct (decide (i = 0%nat)) as [->|Hi0]; [by exists [], (c :: s)|].
    change (utf8_encode (c :: s)) with (utf8_encode_char c ++ utf8_encode s) in Hi.
    destruct (utf8_encode_char_bytes c Hc) as (b & l & Hb & _ & Hl).
    destruct (decide (i < length (utf8_encode_char c))%nat) as [Hlt|Hge].
    + unfold is_char_boundary in Hi. rewrite lookup_app_l in Hi by done. rewrite Hb in Hi, Hlt.
      destruct i as [|i]; [done|]. simpl in *. destruct (lookup_lt_is_Some_2 l i) as [x Hx]; [lia|].
      rewrite Hx in Hi. rewrite (Forall_lookup_1 _ _ _ _ Hl Hx) in Hi. done.
    + destruct (IH (i - length (utf8_encode_char c))%nat) as (s1 & s2 & -> & Hlen).
      { unfold is_char_boundary in *. rewrite lookup_app_r in Hi by lia. rewrite length_app in Hi.
        case_match; [done|]. apply Nat.eqb_eq in Hi. apply Nat.eqb_eq. lia. }
      exists (c :: s1), s2. split; [done|].
      change (utf8_encode (c :: s1)) with (utf8_encode_char c ++ utf8_encode s1). rewrite length_app. lia.
Qed.
Lemma boundary_zero s : scalars s → is_char_boundary (utf8_encode s) 0 = true.
Proof.
  intros [|c s' Hc _]; [done|]. destruct (utf8_encode_char_bytes c Hc) as (b & l & Hb & Hn & _).
  change (utf8_encode (c :: s')) with (utf8_encode_char c ++ utf8_encode s'). rewrite Hb.
  unfold is_char_boundary. simpl. by rewrite Hn.
Qed.

Lemma back_to_boundary_spec content start finish :
  is_char_boundary content start = true → (start ≤ finish)%nat →
  (start ≤ back_to_boundary content start finish ≤ finish)%nat ∧
  is_char_boundary content (back_to_boundary content start finish) = true.
Proof.
  intros Hs. induction finish as [|finish IH]; intros Hle.
  - assert (start = 0%nat) as -> by lia. by split.
  - cbn [back_to_boundary]. destruct (_ && _) eqn:Hc.
    + apply andb_true_iff in Hc as [Hlt _]. apply Nat.ltb_lt in Hlt. destruct IH as [IH1 IH2]; [lia|].
      split; [lia|done].
    + split; [lia|]. destruct (decide (start = S finish)) as [->|Hne]; [done|].
      apply andb_false_iff in Hc as [Hc|Hc]; [apply Nat.ltb_ge in Hc; lia|by apply negb_false_iff].
Qed.

Lemma count_while_boundary content start :
  (start < length content)%nat →
  (next_boundary content start ≤ length content)%nat ∧
  is_char_boundary content (next_boundary content start) = true.
Proof.
  intros Hlt. unfold next_boundary.
  assert (Hgen : ∀ l : bytes, (count_while is_cont l ≤ length l)%nat ∧
    match l !! count_while is_cont l with Some b => is_cont b = false
    | None => count_while is_cont l = length l end).
  { induction l as [|b l [IH1 IH2]]; [done|]. simpl. destruct (is_cont b) eqn:Hb; simpl; [|by rewrite Hb; lia].
    split; [lia|]. case_match; [done|]. by f_equal. }
  destruct (Hgen (drop (S start) content)) as [H1 H2]. rewrite length_drop in H1.
  split; [lia|]. unfold is_char_boundary. rewrite lookup_drop in H2. case_match; [by rewrite H2|].
  rewrite length_drop in H2. apply Nat.eqb_eq. lia.
Qed.

Lemma page_bounds_spec content offset limit start :
  is_char_boundary content start = true → (start ≤ length content)%nat → offset = N.of_nat start →
  ∃ finish, page_bounds content offset limit = Some (start, finish) ∧
    (start ≤ finish ≤ length content)%nat ∧ is_char_boundary content finish = true ∧
    ((start < length content)%nat → (start < finish)%nat).
Proof.
  intros Hb Hle ->. unfold page_bounds. rewrite N.min_l by lia. rewrite Nat2N.id, Hb. simpl.
  eexists. split; [reflexivity|].
  destruct (back_to_boundary_spec content start
    (Nat.min (start + N.to_nat (N.min limit 1048576)) (length content)) Hb) as [H1 H2]; [lia|].
  destruct (Nat.eqb_spec (back_to_boundary content start
    (Nat.min (start + N.to_nat (N.min limit 1048576)) (length content))) start) as [Heq|Hne]; simpl.
  - destruct (Nat.ltb_spec start (length content)) as [Hlt|Hge].
    + destruct (count_while_boundary content start Hlt). unfold next_boundary in *. split_and!; [lia..|done|lia].
    + split_and!; [lia..|done|lia].
  - split_and!; [lia..|done|lia].
Qed.

Lemma utf8_encode_nil_inv s : scalars s → utf8_encode s = [] → s = [].
Proof.
  intros [|c l Hc _]; [done|]. destruct (utf8_encode_char_bytes c Hc) as (b & l' & Hb & _).
  change (utf8_encode (c :: l)) with (utf8_encode_char c ++ utf8_encode l). by rewrite Hb.
Qed.
Lemma read_pages_from fuel limit : ∀ s1 s2,
  scalars (s1 ++ s2) → (length (utf8_encode s2) < fuel)%nat →
  ∃ pages, read_pages fuel (utf8_encode (s1 ++ s2)) (N.of_nat (length (utf8_encode s1))) limit =
    Some (utf8_encode <$> pages) ∧ concat pages = s2.
Proof.
  induction fuel as [|fuel IH]; intros s1 s2 Hs Hfuel; [lia|].
  set (content := utf8_encode (s1 ++ s2)). set (start := length (utf8_encode s1)).
  assert (Hcontent : content = utf8_encode s1 ++ utf8_encode s2) by apply utf8_encode_app.
  assert (Hlen : length content = (start + length (utf8_encode s2))%nat) by (rewrite Hcontent, length_app; done).
  assert (Hstart : is_char_boundary content start = true).
  { assert (Hz : is_char_boundary (utf8_encode s2) 0 = true).
    { apply boundary_zero. by apply Forall_app in Hs as [_ ?]. }
    unfold is_char_boundary in *. rewrite Hcontent at 1. rewrite lookup_app_r, Nat.sub_diag by done.
    case_match; [done|]. apply Nat.eqb_eq in Hz. apply Nat.eqb_eq. lia. }
  destruct (page_bounds_spec content (N.of_nat start) (limit (N.of_nat start)) start Hstart) as (finish & Hpage & Hb & Hf & Hprogress);
    [lia|done|].
  destruct (boundary_splits _ _ Hs Hf) as (t1 & t2 & Ht & ->).
  assert (∃ s3, t1 = s1 ++ s3 ∧ s2 = s3 ++ t2) as (s3 & -> & ->).
  { destruct (app_eq_app _ _ _ _ Ht) as (l & [[-> ->]|[-> ->]]); [|by eexists].
    assert (Hl : utf8_encode l = []).
    { apply length_zero_iff_nil. unfold start in Hb. rewrite utf8_encode_app, length_app in Hb. lia. }
    apply Forall_app in Hs as [Hs _]. apply Forall_app in Hs as [_ Hs].
    apply utf8_encode_nil_inv in Hl as ->; [|done]. exists []. by rewrite !app_nil_r. }
  cbn [read_pages]. rewrite Hpage. cbn [mbind option_bind].
  assert (Hslice : take (length (utf8_encode (s1 ++ s3)) - start) (drop start content) = utf8_encode s3).
  { rewrite Hcontent. unfold start. rewrite drop_app_length, !utf8_encode_app, length_app.
    rewrite Nat.add_comm, Nat.add_sub. apply take_app_length. }
  rewrite Hslice. unfold next_offset.
  destruct (Nat.ltb_spec (length (utf8_encode (s1 ++ s3))) (length content)) as [Hlt|Hge].
  - destruct (IH (s1 ++ s3) t2) as (pages & Hpages & Hconcat).
    + by rewrite <- Ht.
    + rewrite utf8_encode_app, length_app in Hfuel. rewrite utf8_encode_app, length_app in Hprogress.
      unfold start in Hprogress. rewrite utf8_encode_app, length_app in Hlen. lia.
    + fold content in Hpages. replace (utf8_encode ((s1 ++ s3) ++ t2)) with content in Hpages by (by rewrite <- Ht).
      rewrite Hpages. exists (s3 :: pages). split; [done|]. simpl. by rewrite Hconcat.
  - exists [s3]. split; [done|]. simpl. rewrite app_nil_r.
    assert (Ht2 : t2 = []); [|by rewrite Ht2, app_nil_r].
    rewrite !utf8_encode_app, !length_app in Hge. rewrite Hcontent, !utf8_encode_app, !length_app in Hge.
    rewrite app_assoc in Hs. apply Forall_app in Hs as [_ Hs].
    apply utf8_encode_nil_inv; [done|]. apply length_zero_iff_nil. lia.
Qed.

Section paging.
Context `{Json}.

(** What a client of [read_output] does: it asks for the page at [next_offset] until
    there is none. *)
Fixpoint read_output_pages (fuel : nat) (output_ref stream content : ustr) (offset : N) (limit : N → N) :
    option (list ustr) :=
  match fuel with
  | O => None
  | S fuel =>
      match public_local_output_page output_ref stream content offset (limit offset) with
      | Err _ => None
      | Ok v =>
          page ← get_str (lit "content") (stable_data v);
          rest ← match get (lit "next_offset") (stable_data v) ≫= as_u64 with
                 | None => Some []
                 | Some offset => read_output_pages fuel output_ref stream content offset limit
                 end;
          Some (page :: rest)
      end
  end.

(** The members of a page's answer. *)
Lemma page_says output_ref stream content offset limit :
  N.of_nat (byte_len content) ≤ u64_max →
  match public_local_output_page output_ref stream content offset limit,
        page_bounds (utf8_encode content) offset limit with
  | Ok v, Some (start, finish) =>
      get_str (lit "content") (stable_data v) =
        Some (default [] (utf8_decode (take (finish - start) (drop start (utf8_encode content))))) ∧
      get (lit "next_offset") (stable_data v) ≫= as_u64 = next_offset (utf8_encode content) finish
  | Err _, None => True
  | _, _ => False
  end.
Proof.
  intros Hlen. unfold public_local_output_page, output_page.
  destruct (page_bounds _ _ _) as [[start finish]|]; [|done].
  unfold get_str. rewrite stable_data_success, !get_member. simpl. rewrite as_str_string. split; [done|].
  unfold next_offset, byte_len in *. destruct (Nat.ltb_spec finish (length (utf8_encode content))); simpl.
  - apply as_u64_int. lia.
  - apply as_u64_null.
Qed.

Lemma output_pages_are_pages output_ref stream content limit : N.of_nat (byte_len content) ≤ u64_max →
  ∀ fuel offset pages, read_pages fuel (utf8_encode content) offset limit = Some pages →
  read_output_pages fuel output_ref stream content offset limit =
    Some ((λ page, default [] (utf8_decode page)) <$> pages).
Proof.
  intros Hlen. induction fuel as [|fuel IH]; intros offset pages Hpages; [done|].
  simpl in *. pose proof (page_says output_ref stream content offset (limit offset) Hlen) as Hsays.
  destruct (page_bounds _ _ _) as [[start finish]|]; [|done]. simpl in Hpages.
  destruct (public_local_output_page _ _ _ _ _) as [v|]; [|done]. destruct Hsays as [-> ->]. simpl.
  destruct (next_offset _ finish) as [offset'|]; simpl in *.
  - destruct (read_pages fuel _ offset' limit) as [rest|] eqn:Hrest; [|done]. simpl in Hpages.
    injection Hpages as <-. by rewrite (IH _ _ Hrest).
  - by injection Hpages as <-.
Qed.

(** The pages of a retained output are the output.  A client that
    follows [next_offset] from the start, with whatever limits it asks for on the
    way, gets an answer with every page, comes to an end, and all the pages
    together are the output: no character is lost, repeated or cut in two. *)
Theorem pages_cover_output output_ref stream content limit :
  scalars content → N.of_nat (byte_len content) ≤ u64_max →
  ∃ pages, read_output_pages (S (byte_len content)) output_ref stream content 0 limit = Some pages ∧
    concat pages = content.
Proof.
  intros Hs Hlen. destruct (read_pages_from (S (byte_len content)) limit [] content) as (pages & Hp & Hc);
    [done|unfold byte_len; lia|].
  exists pages. split; [|done]. erewrite output_pages_are_pages; [|done|exact Hp]. f_equal.
  rewrite <- list_fmap_compose. etransitivity; [|apply list_fmap_id]. apply list_fmap_ext. intros i page Hi. simpl.
  rewrite utf8_roundtrip; [done|]. rewrite <- Hc in Hs. simpl in Hs.
  apply list_elem_of_lookup_2, list_elem_of_split in Hi as (a & b & ->).
  rewrite concat_app in Hs. apply Forall_app in Hs as [_ Hs]. simpl in Hs. by apply Forall_app in Hs as [? _].
Qed.
End paging.
Lemma pages_cover_output_witness :
  let s := [0x61; 0x4E2D; 0x1F600; 0x62] in
  scalars s ∧ ∃ pages, read_output_pages (H := demo_json) (S (byte_len s)) [] [] s 0 (λ _, 3) = Some pages ∧
    concat pages = s.
Proof.
  intros s. assert (Hs : scalars s) by (repeat constructor). split; [exact Hs|].
  apply (pages_cover_output (H := demo_json)); [exact Hs|]. by apply (bool_decide_unpack _); vm_compute.
Defined.

(** ** The filter of the error stream *)

(** More steps than characters change nothing: the loop has ended. *)
Lemma drain_loop_fuel n m buffer :
  (length buffer < n)%nat → (length buffer < m)%nat → drain_loop n buffer = drain_loop m buffer.
Proof.
  revert m buffer. induction n as [|n IH]; intros [|m] buffer Hn Hm; [lia..|].
  simpl. case_bool_decide as Hne; [done|].
  assert (length buffer ≠ 0)%nat by (by destruct buffer).
  destruct (clixml_envelope_start buffer) as [[|start]|]; [|by rewrite (IH m) by (rewrite length_drop; lia)|done].
  destruct (find_sub _ _); [|done]. by rewrite (IH m) by (rewrite length_drop; lia).
Qed.

Lemma contains_needs c needle value :
  c ∈ needle → c ∉ value → contains needle value = false.
Proof.
  intros Hc Hv. apply contains_false_iff. intros u v ->. apply Hv. rewrite !elem_of_app. auto.
Qed.
Lemma not_elem_lower c value : is_ascii_lower c = false → is_ascii_upper c = false → c ∉ value → c ∉ to_ascii_lowercase value.
Proof.
  intros Hl Hu Hv Hin. unfold to_ascii_lowercase in Hin. apply list_elem_of_In, in_map_iff in Hin as (x & Hx & Hin).
  apply list_elem_of_In in Hin. unfold ascii_lower in Hx. destruct (is_ascii_upper x) eqn:Hxu; [|by subst].
  exfalso. subst. unfold is_ascii_lower, is_ascii_upper, in_range in *. lia.
Qed.
Lemma find_sub_needs c needle value : c ∈ needle → c ∉ value → find_sub needle value = None.
Proof.
  intros Hc Hv. apply find_sub_None. intros u v ->. apply Hv. rewrite !elem_of_app. auto.
Qed.
Lemma ends_with_needs c needle value : c ∈ needle → c ∉ value → ends_with needle value = false.
Proof.
  intros Hc Hv. unfold ends_with. apply not_true_is_false. intros [t Ht]%starts_with_iff.
  apply Hv. rewrite <- (rev_involutive value), Ht, rev_app_distr, rev_involutive, elem_of_app. auto.
Qed.
Lemma held_prefix_none lower marker c rest :
  marker = c :: rest → c ∉ lower → held_prefix lower marker = 0%nat.
Proof.
  intros -> Hc. unfold held_prefix.
  assert (Hf : ∀ l, (∀ n, n ∈ l → n ≠ 0%nat) →
    find (λ n, ends_with (take n (c :: rest)) lower) l = None).
  { induction l as [|n l IH]; intros Hl; [done|]. simpl.
    destruct n as [|n]; [by destruct (Hl 0%nat); [left|]|].
    rewrite (ends_with_needs c); [|left|done]. apply IH. intros m Hm. apply Hl. by right. }
  rewrite Hf; [done|]. intros n Hn. apply list_elem_of_In, in_rev, in_seq in Hn. lia.
Qed.

(** Error output that uses none of the protocol's characters is
    passed on whole and at once. *)
Theorem plain_stderr_passes buffer :
  0x3C ∉ buffer → 0x23 ∉ buffer → 0x22 ∉ buffer →
  drain_public_stderr_protocol_buffer buffer = (buffer, []).
Proof.
  intros Hlt Hhash Hquote. unfold drain_public_stderr_protocol_buffer. simpl.
  case_bool_decide as Hne; [by subst|].
  pose proof (not_elem_lower 0x3C buffer eq_refl eq_refl Hlt) as Hlt'.
  pose proof (not_elem_lower 0x23 buffer eq_refl eq_refl Hhash) as Hhash'.
  pose proof (not_elem_lower 0x22 buffer eq_refl eq_refl Hquote) as Hquote'.
  unfold clixml_envelope_start. rewrite !(find_sub_needs 0x3C) by (done || by apply (bool_decide_unpack _)).
  assert (looks_like_clixml_protocol buffer = false) as ->.
  { unfold looks_like_clixml_protocol, has_lower. simpl.
    rewrite !(contains_needs 0x3C) by (done || by apply (bool_decide_unpack _)). simpl.
    by rewrite !(contains_needs 0x22) by (done || by apply (bool_decide_unpack _)). }
  unfold clixml_marker_prefix_suffix_len.
  assert (held_prefix (to_ascii_lowercase buffer) (lit "#< clixml") = 0%nat) as ->
    by by eapply (held_prefix_none _ _ 0x23).
  assert (held_prefix (to_ascii_lowercase buffer) (lit "<objs") = 0%nat) as ->
    by by eapply (held_prefix_none _ _ 0x3C).
  simpl. by rewrite Nat.sub_0_r, firstn_all, drop_all.
Qed.
Lemma plain_stderr_passes_witness :
  drain_public_stderr_protocol_buffer (lit "plain") = (lit "plain", []).
Proof. apply plain_stderr_passes; by apply (bool_decide_unpack _). Defined.

(** A compiler's message about [Vec<Object>] looks like the protocol, and is lost. *)
Example compiler_errors_are_swallowed :
  filter_private_stderr (Some []) (lit "error: expected Vec<Object>, found i32") = (Some [], []).
Proof. vm_compute. reflexivity. Qed.
(** What ends like the start of a marker is held back, with nothing to release it
    when the command has ended. *)
Example last_characters_are_withheld :
  filter_private_stderr (Some []) (lit "done <") = (Some (lit "<"), lit "done ").
Proof. vm_compute. reflexivity. Qed.
