(* ===== verification/FacadeArguments.v ===== *)
(** * FacadeArguments: the arguments of the public tools

    [src/src-tauri/src/mcp/facade.rs], [src/src-tauri/src/mcp/public_contract.rs]:
    reading the arguments of a call.  Every reader denies members it does not know
    and answers one error for all that is wrong with a value. *)

From S2P Require Import Prelude Text StateModel TaskSummary WindowsPath PathAuthority FilesystemService Json Policy PolicyReview Facade.
#[local] Open Scope N_scope.

Section arguments.
Context `{Json}.

Definition invalid {X} : result FacadeError X := Err invalid_argument.
(* @src mcp/facade.rs:5899-5901 object_args *)
Definition object_args (value : json) : result FacadeError (gmap ustr json) :=
  ok_or invalid_argument (as_object value).
(* @src mcp/facade.rs:5907-5909 workflow_object_args *)
Definition workflow_object_args (value : json) : result FacadeError (gmap ustr json) :=
  ok_or invalid_argument (as_object value).
(* @src mcp/facade.rs:6049-6054 ensure_only_keys *)
Definition ensure_only_keys (object : gmap ustr json) (allowed : list string) : result FacadeError unit :=
  if bool_decide (map_Forall (λ key _, key ∈ lit <$> allowed) object) then Ok () else invalid.
(** What a member says, and what it stands for when it is absent or of another kind. *)
Definition member_str (key : string) (object : gmap ustr json) : option ustr :=
  object !! lit key ≫= as_str.
(* @src mcp/facade.rs:6056-6062 required_string *)
Definition required_string (object : gmap ustr json) (key : string) : result FacadeError ustr :=
  match member_str key object with
  | Some ((_ :: _) as value) => Ok value
  | _ => invalid
  end.
(* @src mcp/facade.rs:6064-6073 required_workflow_string *)
Definition required_workflow_string (object : gmap ustr json) (key : string) : result FacadeError ustr :=
  required_string object key.
Definition member_bool (key : string) (object : gmap ustr json) : bool :=
  default false (object !! lit key ≫= as_bool).
Definition member_u64 (key : string) (absent : N) (object : gmap ustr json) : N :=
  default absent (object !! lit key ≫= as_u64).
Definition member_array (key : string) (object : gmap ustr json) : list json :=
  default [] (object !! lit key ≫= as_array).

(* @src mcp/facade.rs:5840-5845 agent_action_allows_write *)
Definition agent_action_allows_write (action : ustr) : bool :=
  says_one_of action ["bugfix"; "feature"; "refactor"; "test_failure"; "document"; "resume"; "custom"]%string.
(* @src mcp/facade.rs:5847-5859 agent_action_allows_process *)
Definition agent_action_allows_process (action : ustr) : bool :=
  says_one_of action ["diagnose"; "bugfix"; "feature"; "refactor"; "test_failure"; "build_release";
                      "resume"; "custom"]%string.

Definition workspace_denied (message : string) : FacadeError := facade_error FcWorkspaceDenied message false.

Fixpoint each {X Y} (f : X → result FacadeError Y) (l : list X) : result FacadeError (list Y) :=
  match l with
  | [] => Ok []
  | x :: l => y ← f x; ys ← each f l; Ok (y :: ys)
  end.
Definition parse_directory_change (change : json) : result FacadeError (ustr * ustr) :=
  change ← object_args change;
  if negb (Nat.eqb (size change) 2) || negb (bool_decide (is_Some (change !! lit "action"))) ||
     negb (bool_decide (is_Some (change !! lit "path")))
  then invalid else
  action ← required_string change "action";
  if negb (says_one_of action ["create_directory"; "remove_empty_directory"]%string) then invalid else
  path ← required_string change "path";
  if negb (workspace_relative_path_valid path) || bool_decide (path = lit ".")
  then Err (workspace_denied "目录路径必须位于当前工作区内")
  else Ok (action, path).
(* @src mcp/facade.rs:5781-5813 parse_directory_changes *)
Definition parse_directory_changes (object : gmap ustr json) : result FacadeError (list (ustr * ustr)) :=
  match object !! lit "directory_changes" with
  | None => Ok []
  | Some value =>
      changes ← ok_or invalid_argument (as_array value);
      if (32 <? N.of_nat (length changes)) then invalid else each parse_directory_change changes
  end.

(** The operations of a patch up to its end. *)
Fixpoint patch_lines_valid (saw_operation : bool) (lines : list ustr) : bool :=
  match lines with
  | [] => false
  | line :: lines =>
      if bool_decide (line = lit "*** End Patch")
      then saw_operation && forallb (λ line, bool_decide (line = [])) lines
      else
        let target := head (omap (λ prefix, strip_prefix (lit prefix) line)
          ["*** Add File: "; "*** Update File: "; "*** Delete File: "; "*** Move to: "]%string) in
        match target with
        | Some target => workspace_relative_path_valid target && patch_lines_valid true lines
        | None =>
            if starts_with (lit "*** ") line && negb (bool_decide (line = lit "*** End of File"))
            then false else patch_lines_valid saw_operation lines
        end
  end.
(* @src mcp/facade.rs:5861-5897 public_patch_targets_valid *)
Definition public_patch_targets_valid (patch : ustr) : bool :=
  match lines patch with
  | line :: lines => bool_decide (line = lit "*** Begin Patch") && patch_lines_valid false lines
  | [] => false
  end.

(** *** Members that may be absent but not wrong *)

Definition optional {X} (get_as : json → option X) (object : gmap ustr json) (key : string) (absent : X) :
    result FacadeError X :=
  match object !! lit key with
  | None => Ok absent
  | Some value => ok_or invalid_argument (get_as value)
  end.
(* @src mcp/facade.rs:6075-6084 optional_bool *)
Definition optional_bool : gmap ustr json → string → bool → result FacadeError bool := optional as_bool.
(* @src mcp/facade.rs:6086-6091 optional_u64 *)
Definition optional_u64 : gmap ustr json → string → N → result FacadeError N := optional as_u64.
(* @src mcp/facade.rs:6093-6098 optional_u64_value *)
Definition optional_u64_value (object : gmap ustr json) (key : string) : result FacadeError (option N) :=
  optional (λ value, Some <$> as_u64 value) object key None.
(** Sizes have the width of [u64] on this target. *)
(* @src mcp/facade.rs:6100-6106 optional_usize *)
Definition optional_usize : gmap ustr json → string → N → result FacadeError N := optional_u64.
(* @src mcp/facade.rs:6108-6110 optional_u32 *)
Definition optional_u32 (object : gmap ustr json) (key : string) (absent : N) : result FacadeError N :=
  value ← optional_u64 object key absent; if value <=? u32_max then Ok value else invalid.
(* @src mcp/facade.rs:6112-6126 optional_choice *)
Definition optional_choice (object : gmap ustr json) (key : string) (allowed : list string) :
    result FacadeError (option ustr) :=
  match object !! lit key with
  | None => Ok None
  | Some value =>
      value ← ok_or invalid_argument (as_str value);
      if says_one_of value allowed then Ok (Some value) else invalid
  end.
(* @src mcp/facade.rs:6128-6130 valid_sha256 *)
Definition valid_sha256 (value : ustr) : bool := (byte_len value =? 64)%nat && forallb is_ascii_hexdigit value.
(** The members in the order of their keys. *)
Definition ordered_members (object : gmap ustr json) : list (ustr * json) :=
  sort_by (λ a b, ustr_leb a.1 b.1) (map_to_list object).
(** The request keeps the members themselves; they are read again when the patch is applied. *)
(* @src mcp/facade.rs:6132-6143 typed_expected_files *)
Definition typed_expected_files (values : gmap ustr json) : result FacadeError (list (ustr * ustr)) :=
  ok_or invalid_argument (mapM (λ member,
    hash ← as_str member.2; if valid_sha256 hash then Some (member.1, hash) else None) (ordered_members values)).
End arguments.

(** ** [filesystem] *)

(* @src mcp/facade.rs:6146-6159 FilesystemAction *)
Inductive FilesystemAction :=
  | FqList | FqStat | FqRead | FqWrite | FqReplace | FqPatch | FqSearch | FqSearchContent | FqCopy
  | FqMove | FqDelete | FqHash.
#[export] Instance FilesystemAction_eq_dec : EqDecision FilesystemAction.
Proof. solve_decision. Defined.

Section filesystem.
Context `{Json}.

(* @src mcp/facade.rs:6162-6192 FilesystemRequest *)
Record FilesystemRequest := MkFilesystemRequest {
  fq_action : FilesystemAction;
  fq_path : option ustr;
  fq_source : option ustr;
  fq_destination : option ustr;
  fq_recursive : bool;
  fq_max_depth : N;
  fq_max_entries : N;
  fq_max_results : N;
  fq_offset : N;
  fq_max_bytes : N;
  fq_read_encoding : option ustr;
  fq_content : option bytes;
  fq_expected_sha256 : option ustr;
  fq_old : option ustr;
  fq_new : option ustr;
  fq_patch : option ustr;
  fq_expected_files : option (gmap ustr json);
  fq_pattern : option ustr;
  fq_case_sensitive : bool;
  fq_max_file_bytes : N;
  fq_kind : option ustr;
  fq_min_size : option N;
  fq_max_size : option N;
  fq_modified_after_ms : option N;
  fq_modified_before_ms : option N;
  fq_sort_by : ustr;
  fq_sort_order : ustr;
  fq_overwrite : bool;
  fq_calculate_size : bool
}.
#[export] Instance eta_FilesystemRequest : Eta FilesystemRequest := λ r,
  MkFilesystemRequest (fq_action r) (fq_path r) (fq_source r) (fq_destination r) (fq_recursive r) (fq_max_depth r)
    (fq_max_entries r) (fq_max_results r) (fq_offset r) (fq_max_bytes r) (fq_read_encoding r)
    (fq_content r) (fq_expected_sha256 r) (fq_old r) (fq_new r) (fq_patch r) (fq_expected_files r)
    (fq_pattern r) (fq_case_sensitive r) (fq_max_file_bytes r) (fq_kind r) (fq_min_size r)
    (fq_max_size r) (fq_modified_after_ms r) (fq_modified_before_ms r) (fq_sort_by r)
    (fq_sort_order r) (fq_overwrite r) (fq_calculate_size r).

(* @src mcp/facade.rs:6199-6229 parse_filesystem_request, the start *)
Definition request_new : FilesystemRequest :=
  MkFilesystemRequest FqList None None None false 16 10000 1000 0 65536 None None None None None None None
    None true 1048576 None None None None None (lit "path") (lit "asc") false false.

Section members.
Context (object : gmap ustr json).
Definition a_string (key : string) : result FacadeError (option ustr) := Some <$> required_string object key.
Definition in_order (key : string) (allowed : list string) (absent : string) : result FacadeError ustr :=
  default (lit absent) <$> optional_choice object key allowed.
End members.

(** The bounds of a walk. *)
Definition with_bounds (object : gmap ustr json) (entries : N) (request : FilesystemRequest) :
    result FacadeError FilesystemRequest :=
  max_depth ← optional_u32 object "max_depth" 16;
  max_entries ← optional_usize object "max_entries" entries;
  Ok (request <| fq_max_depth := max_depth |> <| fq_max_entries := max_entries |>).
Definition with_order (object : gmap ustr json) (request : FilesystemRequest) :
    result FacadeError FilesystemRequest :=
  sort_by ← in_order object "sort_by" ["path"; "size"; "modified"] "path";
  sort_order ← in_order object "sort_order" ["asc"; "desc"] "asc";
  Ok (request <| fq_sort_by := sort_by |> <| fq_sort_order := sort_order |>).

(** The request of each action. *)
(* @src mcp/facade.rs:6231-6253 parse_filesystem_request, list *)
Definition parse_list (object : gmap ustr json) : result FacadeError FilesystemRequest :=
  _ ← ensure_only_keys object
    ["action"; "path"; "recursive"; "max_depth"; "max_entries"; "sort_by"; "sort_order"]%string;
  path ← a_string object "path";
  recursive ← optional_bool object "recursive" false;
  request ← with_bounds object 1000 (request_new <| fq_path := path |> <| fq_recursive := recursive |>);
  with_order object request.
(* @src mcp/facade.rs:6254-6270 parse_filesystem_request, stat *)
Definition parse_stat (object : gmap ustr json) : result FacadeError FilesystemRequest :=
  _ ← ensure_only_keys object ["action"; "path"; "calculate_size"; "max_depth"; "max_entries"]%string;
  path ← a_string object "path";
  calculate_size ← optional_bool object "calculate_size" false;
  with_bounds object 10000 (request_new <| fq_action := FqStat |> <| fq_path := path |>
    <| fq_calculate_size := calculate_size |>).
(* @src mcp/facade.rs:6271-6281 parse_filesystem_request, read *)
Definition parse_read (object : gmap ustr json) : result FacadeError FilesystemRequest :=
  _ ← ensure_only_keys object ["action"; "path"; "offset"; "max_bytes"; "encoding"]%string;
  path ← a_string object "path";
  offset ← optional_u64 object "offset" 0;
  max_bytes ← optional_usize object "max_bytes" 65536;
  read_encoding ← optional_choice object "encoding" ["utf8"; "base64"]%string;
  Ok (request_new <| fq_action := FqRead |> <| fq_path := path |> <| fq_offset := offset |>
        <| fq_max_bytes := max_bytes |> <| fq_read_encoding := read_encoding |>).
(* @src mcp/facade.rs:6282-6298 parse_filesystem_request, write *)
Definition parse_write `{Encodings} (object : gmap ustr json) : result FacadeError FilesystemRequest :=
  _ ← ensure_only_keys object ["action"; "path"; "content"; "encoding"; "overwrite"]%string;
  path ← a_string object "path";
  content ← required_string object "content";
  encoding ← in_order object "encoding" ["utf8"; "base64"] "utf8";
  content ← (if says encoding "base64" then ok_or invalid_argument (base64_decode content)
             else Ok (utf8_encode content));
  overwrite ← optional_bool object "overwrite" false;
  Ok (request_new <| fq_action := FqWrite |> <| fq_path := path |> <| fq_content := Some content |>
        <| fq_overwrite := overwrite |>).
(* @src mcp/facade.rs:6299-6314 parse_filesystem_request, replace *)
Definition parse_replace (object : gmap ustr json) : result FacadeError FilesystemRequest :=
  _ ← ensure_only_keys object ["action"; "path"; "expected_sha256"; "old"; "new"]%string;
  path ← a_string object "path";
  expected_sha256 ← required_string object "expected_sha256";
  if negb (valid_sha256 expected_sha256) then invalid else
  old ← a_string object "old";
  new ← a_string object "new";
  Ok (request_new <| fq_action := FqReplace |> <| fq_path := path |>
        <| fq_expected_sha256 := Some expected_sha256 |> <| fq_old := old |> <| fq_new := new |>).
(* @src mcp/facade.rs:6315-6336 parse_filesystem_request, patch *)
Definition parse_patch_request (object : gmap ustr json) : result FacadeError FilesystemRequest :=
  _ ← ensure_only_keys object ["action"; "patch"; "expected_files"]%string;
  patch ← required_string object "patch";
  if negb (public_patch_targets_valid patch) then invalid else
  expected_files ← match object !! lit "expected_files" with
    | None => Ok None
    | Some value =>
        values ← ok_or invalid_argument (as_object value);
        if bool_decide (map_Forall (λ path hash, workspace_relative_path_valid path = true ∧
             match as_str hash with Some hash => valid_sha256 hash | None => false end = true) values)
        then Ok (Some values) else invalid
    end;
  Ok (request_new <| fq_action := FqPatch |> <| fq_patch := Some patch |> <| fq_expected_files := expected_files |>).
(* @src mcp/facade.rs:6337-6373 parse_filesystem_request, search *)
Definition parse_search (object : gmap ustr json) : result FacadeError FilesystemRequest :=
  _ ← ensure_only_keys object
    ["action"; "path"; "pattern"; "recursive"; "max_depth"; "max_entries"; "max_results"; "type"; "min_size";
     "max_size"; "modified_after"; "modified_before"; "sort_by"; "sort_order"]%string;
  path ← a_string object "path";
  pattern ← a_string object "pattern";
  recursive ← optional_bool object "recursive" false;
  request ← with_bounds object 10000 (request_new <| fq_action := FqSearch |> <| fq_path := path |>
    <| fq_pattern := pattern |> <| fq_recursive := recursive |>);
  max_results ← optional_usize object "max_results" 1000;
  kind ← optional_choice object "type" ["file"; "directory"]%string;
  min_size ← optional_u64_value object "min_size";
  max_size ← optional_u64_value object "max_size";
  modified_after ← optional_u64_value object "modified_after";
  modified_before ← optional_u64_value object "modified_before";
  with_order object (request <| fq_max_results := max_results |> <| fq_kind := kind |>
    <| fq_min_size := min_size |> <| fq_max_size := max_size |> <| fq_modified_after_ms := modified_after |>
    <| fq_modified_before_ms := modified_before |>).
(* @src mcp/facade.rs:6374-6398 parse_filesystem_request, search_content *)
Definition parse_search_content (object : gmap ustr json) : result FacadeError FilesystemRequest :=
  _ ← ensure_only_keys object
    ["action"; "path"; "pattern"; "recursive"; "max_depth"; "max_entries"; "max_results"; "case_sensitive";
     "max_file_bytes"]%string;
  path ← a_string object "path";
  pattern ← a_string object "pattern";
  recursive ← optional_bool object "recursive" false;
  request ← with_bounds object 10000 (request_new <| fq_action := FqSearchContent |> <| fq_path := path |>
    <| fq_pattern := pattern |> <| fq_recursive := recursive |>);
  max_results ← optional_usize object "max_results" 100;
  case_sensitive ← optional_bool object "case_sensitive" true;
  max_file_bytes ← optional_usize object "max_file_bytes" 1048576;
  Ok (request <| fq_max_results := max_results |> <| fq_case_sensitive := case_sensitive |>
        <| fq_max_file_bytes := max_file_bytes |>).
(* @src mcp/facade.rs:6399-6423 parse_filesystem_request, copy | move *)
Definition parse_transfer (action : FilesystemAction) (object : gmap ustr json) :
    result FacadeError FilesystemRequest :=
  _ ← ensure_only_keys object
    ["action"; "source"; "destination"; "recursive"; "overwrite"; "max_depth"; "max_entries"]%string;
  source ← a_string object "source";
  destination ← a_string object "destination";
  recursive ← optional_bool object "recursive" false;
  overwrite ← optional_bool object "overwrite" false;
  with_bounds object 10000 (request_new <| fq_action := action |> <| fq_source := source |>
    <| fq_destination := destination |> <| fq_recursive := recursive |> <| fq_overwrite := overwrite |>).
(* @src mcp/facade.rs:6424-6434 parse_filesystem_request, delete *)
Definition parse_delete (object : gmap ustr json) : result FacadeError FilesystemRequest :=
  _ ← ensure_only_keys object ["action"; "path"; "recursive"; "max_depth"; "max_entries"]%string;
  path ← a_string object "path";
  recursive ← optional_bool object "recursive" false;
  with_bounds object 10000 (request_new <| fq_action := FqDelete |> <| fq_path := path |>
    <| fq_recursive := recursive |>).
(* @src mcp/facade.rs:6435-6439 parse_filesystem_request, hash *)
Definition parse_hash (object : gmap ustr json) : result FacadeError FilesystemRequest :=
  _ ← ensure_only_keys object ["action"; "path"]%string;
  path ← a_string object "path";
  Ok (request_new <| fq_action := FqHash |> <| fq_path := path |>).

(* @src mcp/facade.rs:6194-6198 parse_filesystem_request, the action *)
Definition parse_action `{Encodings} (action : ustr) (object : gmap ustr json) :
    result FacadeError FilesystemRequest :=
  let is_action name := bool_decide (action = lit name) in
  if is_action "list"%string then parse_list object
  else if is_action "stat"%string then parse_stat object
  else if is_action "read"%string then parse_read object
  else if is_action "write"%string then parse_write object
  else if is_action "replace"%string then parse_replace object
  else if is_action "patch"%string then parse_patch_request object
  else if is_action "search"%string then parse_search object
  else if is_action "search_content"%string then parse_search_content object
  else if is_action "copy"%string then parse_transfer FqCopy object
  else if is_action "move"%string then parse_transfer FqMove object
  else if is_action "delete"%string then parse_delete object
  else if is_action "hash"%string then parse_hash object
  else invalid.
Definition crossed (low high : option N) : bool :=
  match low, high with Some low, Some high => high <? low | _, _ => false end.

(* @src mcp/facade.rs:6440-6454 parse_filesystem_request, the checks *)
Definition parse_filesystem_request `{Encodings} (arguments : json) : result FacadeError FilesystemRequest :=
  object ← object_args arguments;
  action ← required_string object "action";
  request ← parse_action action object;
  if crossed (fq_min_size request) (fq_max_size request) ||
     crossed (fq_modified_after_ms request) (fq_modified_before_ms request)
  then invalid else Ok request.
End filesystem.
