(* ===== verification/FacadeRequests.v ===== *)
(** * FacadeRequests: the requests of the other public tools

    [src/src-tauri/src/mcp/facade.rs], [src/src-tauri/src/mcp/public_contract.rs]:
    the paths of a call, what the interface shows of it, and the requests for
    commands, for Git and for documents. *)

From S2P Require Import Prelude Text StateModel TaskSummary WindowsPath PathAuthority FilesystemService Json Policy PolicyReview Facade FacadeArguments.
#[local] Open Scope N_scope.

(** ** Commands *)

(* @src mcp/facade.rs:732-737 CommandControlAction *)
Inductive CommandControlAction := ControlPoll | ControlRead | ControlWrite | ControlKill.
(* @src mcp/facade.rs:740-746 GitWorkflowAction *)
Inductive GitWorkflowAction := GitStatus | GitDiff | GitLog | GitShow | GitBlame.
#[export] Instance GitWorkflowAction_eq_dec : EqDecision GitWorkflowAction.
Proof. solve_decision. Defined.

(* @src execution/shell.rs:484-490 ShellExecutionSpec *)
Record ShellExecutionSpec := MkShellExecutionSpec {
  se_shell : ShellSelector;
  se_command : ustr;
  se_cwd : ustr;
  se_timeout_ms : N;
  se_max_output_bytes : N
}.
(* @src mcp/facade.rs:749-755 ShellCommandRequest *)
Record ShellCommandRequest := MkShellCommandRequest {
  sc_execution : ShellExecutionSpec;
  sc_yield_time_ms : N;
  sc_stdin : option ustr;
  sc_owner_task_id : option ustr;
  sc_owner_session : option ustr
}.

(* @src mcp/public_contract.rs:573-576 ExecVerbosity *)
Inductive ExecVerbosity := VerbositySummary | VerbosityFull.
(* @src mcp/public_contract.rs:601-610 ExecCommandArguments *)
Record ExecCommandArguments := MkExecCommandArguments {
  ea_command : ustr;
  ea_shell : ShellSelector;
  ea_workdir : ustr;
  ea_timeout_ms : N;
  ea_yield_time_ms : N;
  ea_max_output_bytes : N;
  ea_stdin : option ustr;
  ea_dry_run : bool
}.

Section commands.
Context `{Json}.

Definition decode_shell_selector : json → option ShellSelector :=
  decode_variant [(lit "auto", ShellAuto); (lit "powershell", Powershell); (lit "pwsh", Pwsh);
    (lit "windows_powershell", WindowsPowershell); (lit "cmd", Cmd)].
Definition decode_verbosity : json → option ExecVerbosity :=
  decode_variant [(lit "summary", VerbositySummary); (lit "full", VerbosityFull)].
Definition within (low high n : N) : bool := (low <=? n) && (n <=? high).

(** The wire form and its defaults, then the bounds. *)
(* @src mcp/public_contract.rs:580-637 ExecCommandArguments::parse *)
Definition parse_exec_command (value : json) : option ExecCommandArguments :=
  fields ← struct_fields (lit <$> ["command"; "shell"; "workdir"; "timeout_ms"; "yield_time_ms";
    "max_output_bytes"; "stdin"; "dry_run"; "verbosity"]%string) value;
  command ← field as_str (lit "command") fields;
  shell ← field_default decode_shell_selector ShellAuto (lit "shell") fields;
  workdir ← field_default as_str (lit ".") (lit "workdir") fields;
  timeout_ms ← field_default as_u64 30000 (lit "timeout_ms") fields;
  yield_time_ms ← field_default as_u64 10000 (lit "yield_time_ms") fields;
  max_output_bytes ← field_default as_u64 65536 (lit "max_output_bytes") fields;
  stdin ← field_default (λ value, Some <$> as_str value) None (lit "stdin") fields;
  dry_run ← field_default as_bool false (lit "dry_run") fields;
  _ ← field_default decode_verbosity VerbositySummary (lit "verbosity") fields;
  if bool_decide (command = []) || negb (within 1 600000 timeout_ms) || (30000 <? yield_time_ms) ||
     negb (within 1 1048576 max_output_bytes)
  then None
  else Some (MkExecCommandArguments command shell workdir timeout_ms yield_time_ms max_output_bytes stdin dry_run).

(** The action of [command_control], with the members it takes. *)
(* @src mcp/facade.rs:5403-5420 AgentFacade::command_control, the action *)
Definition parse_control_action (action : ustr) : option (CommandControlAction * list string) :=
  if bool_decide (action = lit "poll") then Some (ControlPoll, ["action"; "session_id"; "wait_ms"]%string)
  else if bool_decide (action = lit "read")
  then Some (ControlRead, ["action"; "output_ref"; "stream"; "offset"; "limit"]%string)
  else if bool_decide (action = lit "write")
  then Some (ControlWrite, ["action"; "session_id"; "chars"; "wait_ms"]%string)
  else if bool_decide (action = lit "kill")
  then Some (ControlKill, ["action"; "session_id"; "signal"; "wait_ms"]%string)
  else None.
(* @src mcp/facade.rs:5426-5437 AgentFacade::command_control, the members *)
Definition control_members (action : CommandControlAction) (object : gmap ustr json) : result FacadeError unit :=
  match action with
  | ControlRead => _ ← required_string object "output_ref"; Ok ()
  | ControlWrite => _ ← required_string object "session_id"; _ ← required_string object "chars"; Ok ()
  | ControlPoll | ControlKill => _ ← required_string object "session_id"; Ok ()
  end.

(* @src mcp/facade.rs:5450-5490 AgentFacade::git_workflow, the action *)
Definition parse_git_action (action : ustr) : option (GitWorkflowAction * list string) :=
  if bool_decide (action = lit "status")
  then Some (GitStatus, ["action"; "path"; "include_untracked"; "max_entries"]%string)
  else if bool_decide (action = lit "diff")
  then Some (GitDiff, ["action"; "path"; "paths"; "staged"; "unstaged"; "context_lines"; "max_bytes"]%string)
  else if bool_decide (action = lit "log")
  then Some (GitLog, ["action"; "path"; "ref"; "max_count"; "skip"]%string)
  else if bool_decide (action = lit "show")
  then Some (GitShow, ["action"; "path"; "paths"; "rev"; "context_lines"; "max_bytes"; "include_patch"]%string)
  else if bool_decide (action = lit "blame")
  then Some (GitBlame, ["action"; "path"; "rev"; "start_line"; "end_line"; "max_lines"]%string)
  else None.
End commands.

(** ** Documents *)

(* @src document/mod.rs:22-27 DocumentFormat *)
Inductive DocumentFormat := FormatText | FormatMarkdown | FormatDocx | FormatPdf.
#[export] Instance DocumentFormat_eq_dec : EqDecision DocumentFormat.
Proof. solve_decision. Defined.
(* @src document/mod.rs:85-90 DocumentEditOperation *)
Inductive DocumentEditOperation :=
  | ReplaceBlock (block_id content : ustr)
  | InsertBefore (block_id content : ustr)
  | InsertAfter (block_id content : ustr)
  | DeleteBlock (block_id : ustr).
(* @src document/mod.rs:93-126 DocumentRequest *)
Inductive DocumentRequest :=
  | DocInspect (path : ustr) (start_block max_blocks max_bytes : N)
  | DocSearch (path query : ustr) (case_sensitive : bool) (max_results : N)
  | DocCreate (path content : ustr) (source_format : DocumentFormat)
  | DocEdit (path expected_sha256 : ustr) (edits : list DocumentEditOperation)
  | DocConvert (source path : ustr)
  | DocRebuild (path content : ustr) (source_format : DocumentFormat) (expected_sha256 : ustr).

(** [Path::extension]: after the last dot of the last name, unless the name starts
    with it. *)
Definition extension (path : ustr) : option ustr :=
  name ← file_name path;
  if bool_decide (name = lit "..") then None else
  match reverse (split_on (N.eqb 0x2E) name) with
  | [_] | [_; []] | [] => None
  | after :: _ => Some after
  end.

(* @src document/mod.rs:30-47 DocumentFormat::from_path *)
Definition format_from_path (path : ustr) : result DocumentError DocumentFormat :=
  let extension := default [] (extension path) in
  let reads name := eq_ignore_ascii_case extension (lit name) in
  if reads "txt"%string then Ok FormatText
  else if reads "md"%string || reads "markdown"%string then Ok FormatMarkdown
  else if reads "docx"%string then Ok FormatDocx
  else if reads "pdf"%string then Ok FormatPdf
  else Err UnsupportedFormat.

Section documents.
Context `{Json}.

(* @src mcp/facade.rs:5646-5651 required_document_content *)
Definition required_document_content (object : gmap ustr json) : result FacadeError ustr :=
  ok_or invalid_argument (member_str "content" object).
(* @src mcp/facade.rs:5653-5666 document_source_format *)
Definition document_source_format (object : gmap ustr json) (target_path : ustr) :
    result FacadeError DocumentFormat :=
  match object !! lit "source_format" with
  | Some value =>
      if bool_decide (as_str value = Some (lit "text")) then Ok FormatText
      else if bool_decide (as_str value = Some (lit "markdown")) then Ok FormatMarkdown
      else invalid
  | None =>
      format ← map_err normalize_document_error (format_from_path target_path);
      Ok match format with
         | FormatMarkdown | FormatDocx => FormatMarkdown
         | FormatText | FormatPdf => FormatText
         end
  end.
Definition document_edit (value : json) : result FacadeError DocumentEditOperation :=
  edit ← object_args value;
  operation ← required_string edit "operation";
  block_id ← required_string edit "block_id";
  let is_operation name := bool_decide (operation = lit name) in
  let with_content (f : ustr → ustr → DocumentEditOperation) :=
    _ ← ensure_only_keys edit ["operation"; "block_id"; "content"]%string;
    content ← ok_or invalid_argument (member_str "content" edit);
    Ok (f block_id content) in
  if is_operation "replace"%string then with_content ReplaceBlock
  else if is_operation "insert_before"%string then with_content InsertBefore
  else if is_operation "insert_after"%string then with_content InsertAfter
  else if is_operation "delete"%string
  then _ ← ensure_only_keys edit ["operation"; "block_id"]%string; Ok (DeleteBlock block_id)
  else invalid.
(* @src mcp/facade.rs:5668-5705 document_edits *)
Definition document_edits (object : gmap ustr json) : result FacadeError (list DocumentEditOperation) :=
  match object !! lit "edits" ≫= as_array with
  | Some ((_ :: _) as values) => each document_edit values
  | _ => invalid
  end.

(* @src mcp/facade.rs:5504-5577 AgentFacade::document_workflow, the request *)
Definition parse_document_request (object : gmap ustr json) : result FacadeError DocumentRequest :=
  action ← required_string object "action";
  let is_action name := bool_decide (action = lit name) in
  if is_action "inspect"%string then
    _ ← ensure_only_keys object ["action"; "path"; "start_block"; "max_blocks"; "max_bytes"]%string;
    path ← required_string object "path";
    start_block ← optional_usize object "start_block" 1;
    max_blocks ← optional_usize object "max_blocks" 200;
    max_bytes ← optional_usize object "max_bytes" 1048576;
    Ok (DocInspect path start_block max_blocks max_bytes)
  else if is_action "search"%string then
    _ ← ensure_only_keys object ["action"; "path"; "query"; "case_sensitive"; "max_results"]%string;
    path ← required_string object "path";
    query ← required_string object "query";
    case_sensitive ← optional_bool object "case_sensitive" false;
    max_results ← optional_usize object "max_results" 100;
    Ok (DocSearch path query case_sensitive max_results)
  else if is_action "create"%string then
    _ ← ensure_only_keys object ["action"; "path"; "content"; "source_format"]%string;
    path ← required_string object "path";
    content ← required_document_content object;
    source_format ← document_source_format object path;
    Ok (DocCreate path content source_format)
  else if is_action "edit"%string then
    _ ← ensure_only_keys object ["action"; "path"; "expected_sha256"; "edits"]%string;
    path ← required_string object "path";
    expected_sha256 ← required_string object "expected_sha256";
    edits ← document_edits object;
    Ok (DocEdit path expected_sha256 edits)
  else if is_action "convert"%string then
    _ ← ensure_only_keys object ["action"; "source"; "path"]%string;
    source ← required_string object "source";
    path ← required_string object "path";
    Ok (DocConvert source path)
  else if is_action "rebuild"%string then
    _ ← ensure_only_keys object ["action"; "path"; "content"; "source_format"; "expected_sha256"]%string;
    path ← required_string object "path";
    content ← required_document_content object;
    source_format ← document_source_format object path;
    expected_sha256 ← required_string object "expected_sha256";
    Ok (DocRebuild path content source_format expected_sha256)
  else invalid.

(* @src mcp/facade.rs:5707-5717 document_success_summary *)
Definition document_success_summary (request : DocumentRequest) : string :=
  match request with
  | DocInspect _ _ _ _ => "Document inspected"
  | DocSearch _ _ _ _ => "Document searched"
  | DocCreate _ _ _ => "Document created"
  | DocEdit _ _ _ => "Document edited"
  | DocConvert _ _ => "Document converted"
  | DocRebuild _ _ _ _ => "Document rebuilt"
  end.
End documents.

(** ** What every call shows, and its paths *)

Section calls.
Context `{Json}.

Definition action_one_of (arguments : json) (actions : list string) : bool :=
  match get_str (lit "action") arguments with Some action => says_one_of action actions | None => false end.
(* @src mcp/facade.rs:5599-5626 public_task_kind *)
Definition public_task_kind (name : ustr) (arguments : json) : TaskKind :=
  let is_tool tool := bool_decide (name = lit tool) in
  if is_tool "elevated_exec"%string then ElevatedOperation
  else if is_tool "exec_command"%string then command_task_kind (default [] (get_str (lit "command") arguments))
  else if is_tool "filesystem"%string then
    if action_one_of arguments ["search"; "search_content"]%string then SearchCode
    else if action_one_of arguments ["write"; "replace"; "patch"; "copy"; "move"; "delete"]%string
    then ModifyFile
    else if action_one_of arguments ["list"; "stat"; "read"; "hash"]%string then ReadFile else OtherTask
  else if is_tool "git_workflow"%string then GitOperation
  else if is_tool "document_workflow"%string then
    if action_one_of arguments ["inspect"; "search"]%string then ReadFile
    else if action_one_of arguments ["create"; "edit"; "convert"; "rebuild"]%string then ModifyFile
    else OtherTask
  else if is_tool "workspace_context"%string || is_tool "view_image"%string then ReadFile
  else OtherTask.

(* @src mcp/facade.rs:5628-5644 public_safe_summary *)
Definition public_safe_summary (name : ustr) (arguments : json) : SafeTaskSummary :=
  let value :=
    if bool_decide (name = lit "exec_command") then get_str (lit "command") arguments
    else if bool_decide (name = lit "filesystem") then
      match get (lit "path") arguments with
      | Some path => as_str path
      | None => get_str (lit "source") arguments
      end
    else if says_one_of name ["git_workflow"; "document_workflow"; "view_image"]%string
    then get_str (lit "path") arguments
    else if bool_decide (name = lit "agent_workflow") then get_str (lit "objective") arguments
    else None in
  match value with Some value => from_untrusted value | None => SummaryOmitted end.

(* @src mcp/facade.rs:5723-5730 public_workspace_paths_valid, the keys *)
Definition path_keys (name : ustr) : list string :=
  if bool_decide (name = lit "exec_command") then ["workdir"]
  else if bool_decide (name = lit "filesystem") then ["path"; "source"; "destination"]
  else if says_one_of name ["git_workflow"; "view_image"]%string then ["path"]
  else if bool_decide (name = lit "document_workflow") then ["path"; "source"]
  else if bool_decide (name = lit "agent_workflow") then ["path"]
  else [].
Definition relative_path_of (path : option ustr) : bool :=
  match path with Some path => workspace_relative_path_valid path | None => false end.
(* @src mcp/facade.rs:5719-5779 public_workspace_paths_valid *)
Definition public_workspace_paths_valid (name : ustr) (arguments : json) : bool :=
  match as_object arguments with
  | None => true
  | Some object =>
      let is_tool tool := bool_decide (name = lit tool) in
      forallb (λ key, match member_str key object with
                      | Some value => workspace_input_path_valid value | None => true end) (path_keys name) &&
      (negb (is_tool "git_workflow"%string) ||
       forallb (λ value, relative_path_of (as_str value)) (member_array "paths" object)) &&
      (negb (is_tool "agent_workflow"%string) ||
       forallb (λ change, relative_path_of (get_str (lit "path") change))
         (member_array "directory_changes" object)) &&
      (negb (is_tool "filesystem"%string && bool_decide (member_str "action" object = Some (lit "patch"))) ||
       match member_str "patch" object with Some patch => public_patch_targets_valid patch | None => true end)
  end.
End calls.

(** ** Examples *)

Example markdown_file :
  format_from_path (lit "docs/README.MD") = Ok FormatMarkdown ∧
  format_from_path (lit "docs/.md") = Err UnsupportedFormat ∧
  format_from_path (lit "report.v2.docx") = Ok FormatDocx ∧
  format_from_path (lit "plain") = Err UnsupportedFormat.
Proof. split_and!; vm_compute; reflexivity. Qed.
