(* ===== verification/FacadeFilesystem.v ===== *)
(** * FacadeFilesystem: the [filesystem] tool and the files of a workflow

    [src/src-tauri/src/mcp/facade.rs], lines 1675-1777 and 6463-6669: a parsed
    request becomes a call of the file service or of the editing service, with the
    authority of the workspace, and its result becomes the data of the answer. *)

From S2P Require Import Prelude Text WindowsPath BrokerProtocol CodingEdit HostFs HostLogic PathAuthority FilesystemService HostExamples FilesystemFacts FilesystemConfinement FilesystemChanges FilesystemWalk FilesystemSearch CodingEditService Json Facade FacadeArguments.
#[local] Open Scope N_scope.

(** *** Results as JSON *)

Section results.
Context `{Json}.

Definition entry_json (entry : FilesystemEntry) : json :=
  obj [("path", json_string (fe_path entry)); ("kind", json_string (fe_kind entry));
       ("size", jn (fe_size entry)); ("modified_ms", jopt jn (fe_modified_ms entry))].
Definition list_json (result : FilesystemListResult) : json :=
  obj [("entries", json_array (entry_json <$> fl_entries result));
       ("scanned_entries", jn (fl_scanned_entries result)); ("truncated", json_bool (fl_truncated result))].
Definition stat_json (result : FilesystemStatResult) : json :=
  obj [("path", json_string (fs_path result)); ("kind", json_string (fs_kind result));
       ("size", jn (fs_size result)); ("modified_ms", jopt jn (fs_modified_ms result));
       ("calculated_size", json_bool (fs_calculated_size result));
       ("scanned_entries", jn (fs_scanned_entries result)); ("truncated", json_bool (fs_truncated result))].
Definition read_json (result : FilesystemReadResult) : json :=
  obj [("path", json_string (fr_path result)); ("offset", jn (fr_offset result));
       ("total_bytes", jn (fr_total_bytes result)); ("returned_bytes", jn (fr_returned_bytes result));
       ("eof", json_bool (fr_eof result)); ("encoding", json_string (fr_encoding result));
       ("content", json_string (fr_content result))].
Definition mutation_json (result : FilesystemMutationResult) : json :=
  obj [("path", json_string (fm_path result)); ("destination", jopt json_string (fm_destination result));
       ("bytes", jn (fm_bytes result)); ("changed", json_bool (fm_changed result))].
Definition hash_json (result : FilesystemHashResult) : json :=
  obj [("path", json_string (fh_path result)); ("algorithm", json_string (fh_algorithm result));
       ("sha256", json_string (fh_sha256 result)); ("bytes", jn (fh_bytes result))].
Definition match_json (found : FilesystemContentMatch) : json :=
  obj [("path", json_string (fcm_path found)); ("line", jn (fcm_line found));
       ("column", jn (fcm_column found)); ("text", json_string (fcm_text found))].
Definition content_search_json (result : FilesystemContentSearchResult) : json :=
  obj [("matches", json_array (match_json <$> fcs_matches result));
       ("scanned_entries", jn (fcs_scanned_entries result)); ("scanned_files", jn (fcs_scanned_files result));
       ("skipped_binary_files", jn (fcs_skipped_binary_files result));
       ("skipped_oversized_files", jn (fcs_skipped_oversized_files result));
       ("truncated", json_bool (fcs_truncated result))].
End results.

(** Sorting a listing again is the order of a search. *)
(* @src mcp/facade.rs:6654-6669 sort_filesystem_entries *)
Definition sort_filesystem_entries (sort_by_key sort_order : ustr) (entries : list FilesystemEntry) :
    list FilesystemEntry :=
  let sorted :=
    if says sort_by_key "size" then sort_by (key_leb fe_size) entries
    else if says sort_by_key "modified" then sort_by (key_leb (λ e, default 0 (fe_modified_ms e))) entries
    else sort_by entry_leb entries in
  if says sort_order "desc" then reverse sorted else sorted.

Section dispatch.
Context `{Windows} `{Faults} `{Encodings} `{Installation} `{Unicode} `{Json}.

Definition public {X} (m : M FilesystemError X) : M FacadeError X := map_error normalize_filesystem_error m.
Definition editing {X} (m : M CodingEditError X) : M FacadeError X := map_error normalize_coding_edit_error m.
(** [expect]: a member the parser has set. *)
Definition parsed {X} (o : option X) : M FacadeError X := unwrap o invalid_argument.

(** The content in the encoding the request names. *)
Definition recoded (encoding : option ustr) (read : FilesystemReadResult) : result FacadeError FilesystemReadResult :=
  match encoding with
  | None => Ok read
  | Some encoding =>
      if says encoding "base64" && says (fr_encoding read) "utf8"
      then Ok (MkFilesystemReadResult (fr_path read) (fr_offset read) (fr_total_bytes read)
                 (fr_returned_bytes read) (fr_eof read) (lit "base64")
                 (base64_encode (utf8_encode (fr_content read))))
      else if says encoding "utf8" && says (fr_encoding read) "base64"
      then Err (facade_error FcInvalidArgument "requested utf8 encoding for non-UTF-8 file content" false)
      else Ok read
  end.

Definition public_search_options (request : FilesystemRequest) (pattern : ustr) : FilesystemSearchOptions :=
  MkFilesystemSearchOptions (fq_recursive request) (fq_max_depth request) (fq_max_entries request)
    (fq_max_results request) pattern (fq_kind request) (fq_min_size request) (fq_max_size request)
    (fq_modified_after_ms request) (fq_modified_before_ms request) (fq_sort_by request) (fq_sort_order request).

(** The data of the answer. *)
(* @src mcp/facade.rs:6473-6650 run_workspace_filesystem_with_authority, the action *)
Definition run_request (authority : WorkspaceResolver) (service : FilesystemService)
    (request : FilesystemRequest) : M FacadeError json :=
  match fq_action request with
  | FqList =>
      path ← parsed (fq_path request);
      result ← public (list_directory service path (fq_recursive request) (fq_max_depth request)
                         (fq_max_entries request));
      mret (list_json (MkFilesystemListResult
              (sort_filesystem_entries (fq_sort_by request) (fq_sort_order request) (fl_entries result))
              (fl_scanned_entries result) (fl_truncated result)))
  | FqStat =>
      path ← parsed (fq_path request);
      result ← public (stat service path (fq_calculate_size request) (fq_max_depth request)
                         (fq_max_entries request));
      mret (stat_json result)
  | FqRead =>
      path ← parsed (fq_path request);
      result ← public (read service path (fq_offset request) (fq_max_bytes request));
      result ← lift (recoded (fq_read_encoding request) result);
      mret (read_json result)
  | FqWrite =>
      path ← parsed (fq_path request);
      content ← parsed (fq_content request);
      result ← public (write service path content (fq_overwrite request));
      mret (mutation_json result)
  | FqReplace =>
      path ← parsed (fq_path request);
      edit ← editing (with_authority authority);
      expected ← parsed (fq_expected_sha256 request);
      old ← parsed (fq_old request);
      new ← parsed (fq_new request);
      sha256 ← editing (replace_exact edit path expected old new);
      mret (obj [("path", json_string path); ("changed", json_bool true); ("sha256", json_string sha256)])
  | FqPatch =>
      edit ← editing (with_authority authority);
      patch ← parsed (fq_patch request);
      affected_files ←
        match fq_expected_files request with
        | Some expected => expected ← lift (typed_expected_files expected); editing (apply_patch edit patch expected)
        | None => editing (apply_patch_to_current edit patch)
        end;
      mret (obj [("affected_files", jstrs affected_files); ("changed", json_bool true)])
  | FqSearch =>
      pattern ← parsed (fq_pattern request);
      path ← parsed (fq_path request);
      result ← public (search service path (public_search_options request pattern));
      mret (list_json result)
  | FqSearchContent =>
      pattern ← parsed (fq_pattern request);
      path ← parsed (fq_path request);
      result ← public (search_content service path
        (MkFilesystemContentSearchOptions (fq_recursive request) (fq_max_depth request)
           (fq_max_entries request) (fq_max_results request) (fq_max_file_bytes request) pattern
           (fq_case_sensitive request)));
      mret (content_search_json result)
  | FqCopy | FqMove =>
      source ← parsed (fq_source request);
      destination ← parsed (fq_destination request);
      result ← public
        (if bool_decide (fq_action request = FqCopy)
         then copy service source destination (fq_recursive request) (fq_overwrite request)
                (fq_max_depth request) (fq_max_entries request)
         else move_path service source destination (fq_recursive request) (fq_overwrite request)
                (fq_max_depth request) (fq_max_entries request));
      mret (mutation_json result)
  | FqDelete =>
      path ← parsed (fq_path request);
      result ← public (delete_path service path (fq_recursive request) (fq_max_depth request)
                         (fq_max_entries request));
      mret (mutation_json result)
  | FqHash =>
      path ← parsed (fq_path request);
      result ← public (hash service path);
      mret (hash_json result)
  end.

(** The tool never cancels its service. *)
(* @src mcp/facade.rs:6463-6472 run_workspace_filesystem_with_authority *)
Definition run_workspace_filesystem_with_authority (authority : WorkspaceResolver) (arguments : json) :
    M FacadeError json :=
  request ← lift (parse_filesystem_request arguments);
  service ← public (from_authority authority);
  data ← run_request authority service request;
  mret (stable_success data (lit "Filesystem operation completed")).

(* @src mcp/facade.rs:1746-1771 CodingToolsRuntimeAdapter::apply_directory_change *)
Definition adapter_directory_change (authority : WorkspaceResolver) (action path : ustr) : M FacadeError json :=
  if negb (workspace_relative_path_valid path) || bool_decide (path = lit ".")
  then throw (workspace_denied "目录路径必须位于当前工作区内") else
  service ← public (from_authority authority);
  let answer (result : FilesystemMutationResult) :=
    obj [("action", json_string action); ("path", json_string (fm_path result));
         ("changed", json_bool (fm_changed result))] in
  if says action "create_directory"
  then result ← public (create_directory service path); mret (answer result)
  else if says action "remove_empty_directory"
  then result ← public (remove_empty_directory service path); mret (answer result)
  else throw invalid_argument.

(* @src mcp/facade.rs:1679-1689 CodingToolsRuntimeAdapter::apply_coding_patch *)
Definition adapter_coding_patch (authority : WorkspaceResolver) (patch : ustr) (expected : gmap ustr json) :
    M FacadeError (list ustr) :=
  expected ← lift (typed_expected_files expected);
  edit ← editing (with_authority authority);
  editing (apply_patch edit patch expected).

(** Without identities: the patch meets the files as they are. *)
(* @src mcp/facade.rs:2228-2251 CodingToolsRuntimeAdapter::apply_workflow_patch *)
Definition adapter_workflow_patch (authority : WorkspaceResolver) (arguments : json) : M FacadeError json :=
  object ← lift (object_args arguments);
  _ ← lift (ensure_only_keys object ["patch"; "dry_run"]%string);
  patch ← lift (required_string object "patch");
  dry_run ← lift (optional_bool object "dry_run" false);
  if (dry_run : bool)
  then throw (facade_error FcInvalidArgument "dry_run is not supported on the committed document path" false)
  else
    edit ← editing (with_authority authority);
    affected ← editing (apply_patch_to_current edit patch);
    mret (stable_success (obj [("applied", json_bool true); ("affected_files", jstrs affected)])
            (lit "Document workflow applied")).
End dispatch.
