(* ===== verification/FacadeWorkflow.v ===== *)
(** * FacadeWorkflow: the agent's workflows, which survive interruptions

    [src/src-tauri/src/mcp/facade.rs]: [agent_workflow] with its directories, patch
    and commands, its phases for coding tasks, and [resume]; every step is recorded
    in the checkpoint before it starts and after it ended.  The adapter to the
    runtime is an interface; a computation without an answer is a process that
    stopped. *)

From S2P Require Import Prelude Text WindowsPath StateModel HostFs PathAuthority FilesystemService Effects Json Policy PolicyReview PolicyDecision WorkflowCheckpoint Facade FacadeArguments FacadeRequests.
#[local] Open Scope N_scope.

(** ** The adapter *)

Section interface.
Context `{Json}.
Abbreviation call A X := (eff A (result FacadeError X)).

(** The operations a workflow uses.  A checkpoint crosses the interface as JSON and
    is decoded again at once; here it crosses as it is. *)
(* @src mcp/facade.rs:782-945 WorkspaceRuntimeAdapter *)
Class WorkspaceRuntimeAdapter (A : Type) := {
  workspace_context : option json → call A json;
  validate_workspace_identity : call A unit;
  runtime_discovery : A → json;
  coding_context : ustr → ustr → call A json;
  coding_verification_plan : ustr → call A (list json);
  apply_coding_patch : ustr → gmap ustr json → call A (list ustr);
  normalize_workspace_path : ustr → bool → call A ustr;
  project_context : ustr → call A json;
  filesystem : json → call A json;
  apply_directory_change : ustr → ustr → call A json;
  execute_shell : ShellCommandRequest → option json → call A json;
  control_command : CommandControlAction → json → option json → call A json;
  transfer_workflow_executions : ustr → ustr → call A unit;
  authorize_command_resource : CommandControlAction → gmap ustr json → ustr → call A unit;
  git_workflow : GitWorkflowAction → json → option json → call A json;
  execute_document : DocumentRequest → call A json;
  inspect_image : json → option json → call A json;
  apply_workflow_patch : json → option json → call A json;
  load_workflow_checkpoint : call A (option (WorkflowCheckpoint json));
  save_workflow_checkpoint : WorkflowCheckpoint json → call A unit;
  clear_workflow_checkpoint : call A unit;
  durable_command_terminal : A → ustr → option json
}.
End interface.
Abbreviation call A X := (eff A (result FacadeError X)).

(** ** What a checkpoint keeps of the arguments *)

Section arguments.
Context `{Json}.

(** The commands without their standard input, and which had one. *)
(* @src mcp/facade.rs:5985-6001 sanitize_workflow_arguments *)
Definition sanitize_workflow_arguments (arguments : json) : json * list nat :=
  match as_object arguments with
  | None => (arguments, [])
  | Some object =>
      match object !! lit "commands" ≫= as_array with
      | None => (arguments, [])
      | Some commands =>
          let sanitized := (λ command, match as_object command with
            | Some command => json_object (delete (lit "stdin") command)
            | None => command
            end) <$> commands in
          let redacted := concat (imap (λ index command,
            if bool_decide (is_Some (get (lit "stdin") command)) then [index] else []) commands) in
          (json_object (<[lit "commands" := json_array sanitized]> object), redacted)
      end
  end.

(** [sort_unstable] and [dedup]. *)
Definition sorted_indices (l : list nat) : list nat := remove_dups (sort_by Nat.leb l).

(* @src mcp/facade.rs:6022-6047 expected_files_from_checkpoint *)
Definition expected_files_from_checkpoint (checkpoint : WorkflowCheckpoint json) : gmap ustr json :=
  foldl (λ expected entry,
    match get_str (lit "path") entry, get_str (lit "content_sha256") entry with
    | Some ((_ :: _) as path), Some identity =>
        if valid_sha256_hex identity then <[path := json_string identity]> expected else expected
    | _, _ => expected
    end) ∅ (wc_files_read checkpoint).

(* @src mcp/facade.rs:2933-2935 workflow_checkpoint_error *)
Definition workflow_checkpoint_error : FacadeError :=
  facade_error FcInternal "工作流恢复状态不可用" false.
(* @src mcp/facade.rs:2937-2943 command_state_internal_error *)
Definition command_state_internal_error : FacadeError :=
  facade_error FcRuntimeUnavailable "命令任务状态持久化失败" false.
Definition unavailable (message : string) : FacadeError :=
  facade_error FcSessionUnavailable message false.

(* @src mcp/facade.rs:7340-7343 hash_workflow_adoption_token *)
Definition hash_workflow_adoption_token `{Encodings} (token : ustr) : ustr :=
  sha256_hex (utf8_encode token).
(* @src mcp/facade.rs:7345-7356 workflow_adoption_token_matches *)
Definition workflow_adoption_token_matches `{Encodings} (checkpoint : WorkflowCheckpoint json)
    (candidate : option ustr) : bool :=
  match candidate with
  | None | Some [] => false
  | Some candidate =>
      bool_decide (wc_adoption_token_hash checkpoint = Some (hash_workflow_adoption_token candidate))
  end.

Definition failure_json (failure : WorkflowFailure) : json :=
  json_object (list_to_map (
    [(lit "code", json_string (wf_code failure))] ++
    match wf_status failure with Some status => [(lit "status", json_string status)] | None => [] end ++
    match wf_step failure with Some step => [(lit "step", jn (N.of_nat step))] | None => [] end)).
(* @src mcp/facade.rs:7312-7334 coding_checkpoint_result *)
Definition coding_checkpoint_result (checkpoint : WorkflowCheckpoint json) (state message : string) : json :=
  stable_success (obj [
    ("action", jopt json_string (get_str (lit "action") (wc_arguments checkpoint)));
    ("phase", jopt json_string (wc_current_step checkpoint));
    ("workflow_id", json_string (wc_workflow_id checkpoint));
    ("task_id", json_string (wc_workflow_id checkpoint));
    ("state", js state);
    ("summary", js message);
    ("next_step", jopt json_string (wc_next_step checkpoint));
    ("warnings", json_array []);
    ("output_refs", jstrs (wc_output_refs checkpoint));
    ("modified_files", jstrs (wc_modified_files checkpoint));
    ("test_results", json_array (wc_test_results checkpoint));
    ("build_results", json_array (wc_build_results checkpoint));
    ("failure", jopt failure_json (wc_failure checkpoint));
    ("git_before", jopt id (wc_git_before checkpoint));
    ("git_after", jopt id (wc_git_after checkpoint));
    ("completed", json_bool (wc_completed checkpoint))]) (lit message).
End arguments.

(** ** The checkpoint between the steps *)

Section workflow.
Context `{Json} `{Encodings} {A : Type} `{!WorkspaceRuntimeAdapter A}.

Definition answer {X} (r : result FacadeError X) : call A X := mret r.
Definition fail {X} (error : FacadeError) : call A X := mret (Err error).
Definition succeed (data : list (string * json)) (message : string) : call A json :=
  mret (Ok (stable_success (obj data) (lit message))).

(** Who calls: the request, the task and the session; with the clock's time and a
    fresh token. *)
(* @src mcp/facade.rs:3287-3291 WorkflowCallContext *)
Record WorkflowCallContext := MkWorkflowCallContext {
  cx_request_id : option json;
  cx_task_id : ustr;
  cx_owner_session : option ustr;
  cx_now : N;
  cx_new_token : ustr
}.

(* @src mcp/facade.rs:5970-5983 persist_agent_checkpoint *)
Definition persist_agent_checkpoint (checkpoint : WorkflowCheckpoint json) : call A unit :=
  let '(arguments, newly_redacted) := sanitize_workflow_arguments (wc_arguments checkpoint) in
  save_workflow_checkpoint (checkpoint
    <| wc_arguments := arguments |>
    <| wc_redacted_stdin_command_indices ::= λ l, sorted_indices (l ++ newly_redacted) |>).

(* @src mcp/facade.rs:5911-5927 ensure_checkpoint_slot_available *)
Definition ensure_checkpoint_slot_available : call A unit :=
  stored ←? load_workflow_checkpoint;
  match stored with
  | None => mret (Ok ())
  | Some checkpoint =>
      if wc_completed checkpoint then mret (Ok ())
      else fail (unavailable "an incomplete durable workflow already exists; resume or cancel it before starting another side-effecting workflow")
  end.

(** [None]: there is nothing to record. *)
Definition update (f : WorkflowCheckpoint json → WorkflowCheckpoint json)
    (checkpoint : option (WorkflowCheckpoint json)) : call A (option (WorkflowCheckpoint json)) :=
  match checkpoint with
  | None => mret (Ok None)
  | Some checkpoint =>
      let checkpoint := f checkpoint in
      _ ←? persist_agent_checkpoint checkpoint;
      mret (Ok (Some checkpoint))
  end.

(* @src mcp/facade.rs:6003-6020 terminalize_legacy_checkpoint_failure *)
Definition terminalize_legacy_checkpoint_failure (checkpoint : option (WorkflowCheckpoint json))
    (code : ustr) : call A unit :=
  _ ←? update (ended (lit "failed") code (lit "failed")) checkpoint; mret (Ok ()).

(** [legacy_checkpoint_try!]: a failure ends the checkpoint before it is returned. *)
Definition legacy_try {X Y} (checkpoint : option (WorkflowCheckpoint json)) (m : call A X)
    (k : X → call A Y) : call A Y :=
  r ← m;
  match r with
  | Ok x => k x
  | Err error =>
      _ ←? terminalize_legacy_checkpoint_failure checkpoint (lit (code_str (fe_code error)));
      fail error
  end.

(** The path that [project_context] has selected. *)
Definition selected_path_of (absent : FacadeError) (project : json) : result FacadeError ustr :=
  ok_or absent (get_str (lit "selected_path") project).
Definition invalid_project : FacadeError := facade_error FcInternal "项目上下文无效" false.
Definition git_status (selected_path : ustr) (request_id : option json) : call A json :=
  git_workflow GitStatus (obj [("path", json_string selected_path)]) request_id.
(** The project with what Git says of it. *)
Definition with_git_facts (git : json) (project : json) : json :=
  match as_object project with
  | None => project
  | Some members =>
      let data := stable_data git in
      json_object (<[lit "repository_root" := default json_null (get (lit "repository_root") data)]>
        (<[lit "is_repo" := default (json_bool false) (get (lit "is_repo") data)]> members))
  end.

(* @src mcp/facade.rs:5929-5968 ensure_coding_git_baseline *)
Definition ensure_coding_git_baseline (checkpoint : WorkflowCheckpoint json) (request_id : option json) :
    call A unit :=
  match wc_git_before checkpoint ≫= as_object with
  | None => mret (Ok ())
  | Some saved =>
      if negb (bool_decide (saved !! lit "is_repo" ≫= as_bool = Some true)) then mret (Ok ()) else
      original ←? answer (workflow_object_args (wc_arguments checkpoint));
      project ←? project_context (default (lit ".") (member_str "path" original));
      selected_path ←? answer (selected_path_of command_state_internal_error project);
      current ←? git_status selected_path request_id;
      let current := stable_data current in
      let same_root := json_same (saved !! lit "repository_root") (get (lit "repository_root") current) in
      let same_head := bool_decide (saved !! lit "head" ≫= as_str = get_str (lit "head") current) in
      if same_root && same_head then mret (Ok ())
      else fail (facade_error FcFileChanged
             "coding task Git baseline changed; run prepare again before continuing" false)
  end.

(* @src mcp/facade.rs:5815-5838 resolve_project_workdir *)
Definition resolve_project_workdir (project workdir : ustr) : call A ustr :=
  if negb (workspace_relative_path_valid project) || negb (workspace_relative_path_valid workdir)
  then fail (workspace_denied "工作区路径参数无效")
  else normalize_workspace_path (join_text project workdir) false.

(** [serde_json::from_value]. *)
Definition decode_shell (absent : string) (value : option json) : result FacadeError ShellSelector :=
  ok_or invalid_argument (decode_shell_selector (default (js absent) value)).

(** ** The steps of a workflow *)

(** A run and a resumption make the same steps; they differ in what a failure leaves
    of the checkpoint, and in the commands whose input was not kept. *)
Record Run := MkRun {
  attempt : ∀ X Y : Type, option (WorkflowCheckpoint json) → call A X → (X → call A Y) → call A Y;
  on_command_error : option (WorkflowCheckpoint json) → json → call A unit;
  is_redacted : nat → bool
}.
Arguments attempt _ {X Y} _ _ _.

Definition progress (step : string) (index count : nat) : ustr :=
  lit step ++ [0x20] ++ number_text (N.of_nat index) ++ lit "/" ++ number_text (N.of_nat count).
(** The next step once the directories are done. *)
Definition after_directories (pending_patch : option ustr) (commands_left : bool) : string :=
  if bool_decide (is_Some pending_patch) then "patch" else if commands_left then "command" else "complete".

(* @src mcp/facade.rs:4125-4156 AgentFacade::agent_workflow, the directories *)
Fixpoint run_directories (run : Run) (count : nat) (pending_patch : option ustr) (commands_left : bool)
    (index : nat) (changes : list (ustr * ustr)) (checkpoint : option (WorkflowCheckpoint json))
    (results : list json) : call A (option (WorkflowCheckpoint json) * list json) :=
  match changes with
  | [] => mret (Ok (checkpoint, results))
  | (action, path) :: changes =>
      checkpoint ←? update (λ c, c
        <| wc_current_step := Some (progress "directory" (S index) count) |>
        <| wc_next_step := Some (lit (if (S index <? count)%nat then "directory"
                                      else after_directories pending_patch commands_left)) |>
        <| wc_directory_inflight := true |>) checkpoint;
      attempt run checkpoint (apply_directory_change action path) (λ result,
        checkpoint ←? update (λ c, c
          <| wc_directory_inflight := false |>
          <| wc_directory_index := S index |>
          <| wc_directory_results ::= λ l, l ++ [result] |>) checkpoint;
        run_directories run count pending_patch commands_left (S index) changes checkpoint
          (results ++ [result]))
  end.

(* @src mcp/facade.rs:4158-4196 AgentFacade::agent_workflow, the patch *)
Definition run_patch (run : Run) (pending_patch : option ustr) (commands_left : bool)
    (request_id : option json) (checkpoint : option (WorkflowCheckpoint json)) :
    call A (option (WorkflowCheckpoint json)) :=
  match pending_patch with
  | None => mret (Ok checkpoint)
  | Some patch =>
      attempt run checkpoint
        (if public_patch_targets_valid patch then mret (Ok ())
         else fail (workspace_denied "补丁目标不在当前工作区内")) (λ _,
      checkpoint ←? update (λ c, c
        <| wc_current_step := Some (lit "patch") |>
        <| wc_next_step := Some (lit (if commands_left then "command" else "complete")) |>
        <| wc_patch_inflight := true |>) checkpoint;
      attempt run checkpoint
        (apply_workflow_patch (obj [("patch", json_string patch); ("dry_run", json_bool false)]) request_id)
        (λ _, update (λ c, c <| wc_patch_inflight := false |> <| wc_patch_applied := true |>) checkpoint))
  end.

(** How the commands end: one failed, one keeps running, all are done. *)
Inductive CommandsEnd :=
  | CommandFailed (result : json)
  | CommandRunning (checkpoint : option (WorkflowCheckpoint json)) (results : list json)
  | CommandsDone (checkpoint : option (WorkflowCheckpoint json)) (results : list json).

(** What a command asks the shell to do. *)
Definition command_request (command : gmap ustr json) (text : ustr) (shell : ShellSelector) (cwd : ustr)
    (checkpoint : option (WorkflowCheckpoint json)) (owner_session : option ustr) : ShellCommandRequest :=
  MkShellCommandRequest
    (MkShellExecutionSpec shell text cwd (member_u64 "timeout_ms" 30000 command)
       (member_u64 "max_output_bytes" 65536 command))
    (member_u64 "yield_time_ms" 10000 command) (member_str "stdin" command)
    (wc_workflow_id <$> checkpoint) owner_session.

(* @src mcp/facade.rs:4198-4324 AgentFacade::agent_workflow, the commands *)
Fixpoint run_commands (run : Run) (context : WorkflowCallContext) (selected_path : ustr) (count : nat)
    (index : nat) (commands : list json) (checkpoint : option (WorkflowCheckpoint json))
    (results : list json) : call A CommandsEnd :=
  match commands with
  | [] => mret (Ok (CommandsDone checkpoint results))
  | command :: commands =>
      if is_redacted run index
      then fail (unavailable "durable workflow omitted sensitive stdin; start a new workflow to execute this pending command")
      else
      attempt run checkpoint (answer (object_args command)) (λ command,
      attempt run checkpoint (answer (required_string command "command")) (λ text,
      attempt run checkpoint (answer (decode_shell "auto" (command !! lit "shell"))) (λ shell,
      let workdir := default (lit ".") (member_str "workdir" command) in
      attempt run checkpoint
        (if workspace_relative_path_valid workdir then mret (Ok ())
         else fail (workspace_denied "工作区路径参数无效")) (λ _,
      attempt run checkpoint (resolve_project_workdir selected_path workdir) (λ effective_workdir,
      checkpoint ←? update (λ c, c
        <| wc_current_step := Some (progress "command" (S index) count) |>
        <| wc_next_step := Some (lit (if (S index <? count)%nat then "command" else "complete")) |>
        <| wc_command_inflight := true |>
        <| wc_current_session_id := None |>) checkpoint;
      attempt run checkpoint
        (execute_shell (command_request command text shell effective_workdir checkpoint
           (cx_owner_session context)) (cx_request_id context)) (λ result,
      if is_error result then
        _ ←? on_command_error run checkpoint result; mret (Ok (CommandFailed result))
      else
        let data := stable_data result in
        let results := results ++ [data] in
        if bool_decide (get_str (lit "status") data = Some (lit "running")) then
          attempt run checkpoint
            (answer (ok_or command_state_internal_error (get_str (lit "session_id") data))) (λ session_id,
          checkpoint ←? update (λ c, c <| wc_current_session_id := Some session_id |>) checkpoint;
          mret (Ok (CommandRunning checkpoint results)))
        else
          checkpoint ←? update (λ c, c
            <| wc_command_inflight := false |>
            <| wc_current_session_id := None |>
            <| wc_command_index := S index |>
            <| wc_command_results ::= λ l, l ++ [data] |>) checkpoint;
          run_commands run context selected_path count (S index) commands checkpoint results))))))
  end.

Definition first_run : Run := MkRun
  (λ X Y, legacy_try)
  (λ checkpoint result, terminalize_legacy_checkpoint_failure checkpoint
     (default (lit "ProcessFailed")
        (pointer ["structuredContent"; "error"; "code"]%string result ≫= as_str)))
  (λ _, false).
Definition resumption (checkpoint : WorkflowCheckpoint json) : Run := MkRun
  (λ X Y _ m k, bind_ok m k)
  (λ _ _, clear_workflow_checkpoint)
  (λ index, bool_decide (index ∈ wc_redacted_stdin_command_indices checkpoint)).

(** ** Starting *)

(** The last argument is what differs between the answers of a workflow. *)
Definition workflow_members (action : ustr) (workflow_id objective : option ustr) (state : string)
    (workspace project git_before : json) (patch_applied : bool)
    (directories commands : list json) : list (string * json) :=
  [("action", json_string action);
   ("workflow_id", jopt json_string workflow_id);
   ("objective", jopt json_string objective);
   ("state", js state);
   ("workspace", stable_data workspace);
   ("project", project);
   ("git_before", stable_data git_before);
   ("patch_applied", json_bool patch_applied);
   ("directory_changes", json_array directories);
   ("commands", json_array commands)].

Definition parse_commands (object : gmap ustr json) : result FacadeError (list json) :=
  match object !! lit "commands" with
  | None => Ok []
  | Some value => ok_or invalid_argument (as_array value)
  end.

(** Steps that change something, once the request has been checked. *)
(* @src mcp/facade.rs:4059-4363 AgentFacade::agent_workflow, the run *)
Definition run_workflow (context : WorkflowCallContext) (arguments : json) (object : gmap ustr json)
    (action : ustr) (patch : option ustr) (project : json) (selected_path : ustr) : call A json :=
  directory_changes ←? answer (parse_directory_changes object);
  commands ←? answer (parse_commands object);
  if bool_decide (is_Some patch) && negb (agent_action_allows_write action) then answer invalid else
  if negb (bool_decide (commands = [])) && negb (agent_action_allows_process action) then answer invalid else
  let has_work := negb (bool_decide (directory_changes = [])) || bool_decide (is_Some patch) ||
                  negb (bool_decide (commands = [])) in
  let commands_left := negb (bool_decide (commands = [])) in
  let request_id := cx_request_id context in
  _ ←? (if has_work then ensure_checkpoint_slot_available else mret (Ok ()));
  checkpoint ←?
    (if has_work then
       update (λ c, c) (Some (checkpoint_new (cx_now context) (cx_task_id context) arguments
                                <| wc_owner_session_id := cx_owner_session context |>))
     else mret (Ok None));
  legacy_try checkpoint (workspace_context request_id) (λ workspace,
  legacy_try checkpoint (git_status selected_path request_id) (λ git_before,
  let project := with_git_facts git_before project in
  directories ←?
    run_directories first_run (length directory_changes) patch commands_left 0 directory_changes checkpoint [];
  let '(checkpoint, directory_results) := directories in
  checkpoint ←? run_patch first_run patch commands_left request_id checkpoint;
  let applied_patch := bool_decide (is_Some patch) in
  let objective := member_str "objective" object in
  ended_with ←? run_commands first_run context selected_path (length commands) 0 commands checkpoint [];
  match ended_with with
  | CommandFailed result => mret (Ok result)
  | CommandRunning checkpoint command_results =>
      succeed (workflow_members action (wc_workflow_id <$> checkpoint) objective "running" workspace project
                 git_before applied_patch directory_results command_results)
        "Agent workflow command is running"
  | CommandsDone checkpoint command_results =>
      legacy_try checkpoint (git_status selected_path request_id) (λ git_after,
      let completed := applied_patch || negb (bool_decide (directory_results = [])) ||
                       negb (bool_decide (command_results = [])) in
      _ ←? (if bool_decide (is_Some checkpoint) then clear_workflow_checkpoint else mret (Ok ()));
      let summary := if completed then "Agent workflow completed"%string else "Agent workflow context ready"%string in
      succeed (workflow_members action (wc_workflow_id <$> checkpoint) objective
                 (if completed then "completed" else "context_ready") workspace project git_before
                 applied_patch directory_results command_results ++
               [("task_id", jopt json_string (wc_workflow_id <$> checkpoint)); ("summary", js summary);
                ("git_after", stable_data git_after)]) summary)
  end)).
End workflow.
Arguments attempt {_ _} _ {_ _} _ _ _.
