(* ===== verification/FacadeCoding.v ===== *)
(** * FacadeCoding: coding tasks, resuming, and the entry

    [src/src-tauri/src/mcp/facade.rs]: the phases of a coding task ([prepare],
    [edit], [verify], [persist]), the resumption of a workflow or a coding task, the
    reconciliation with a command that ended, and [agent_workflow] itself. *)

From S2P Require Import Prelude Text WindowsPath StateModel HostFs PathAuthority FilesystemService Effects Json Policy PolicyReview PolicyDecision WorkflowCheckpoint Facade FacadeArguments FacadeRequests FacadeWorkflow.
#[local] Open Scope N_scope.

Section coding.
Context `{Json} `{Encodings} {A : Type} `{!WorkspaceRuntimeAdapter A}.

(** ** Coding tasks *)

(** A workflow of another session moves, with its commands, to a caller that
    presents its token; [adopter] is the caller if it may ask for that. *)
Definition task_not_owned (message : string) : FacadeError := facade_error FcTaskNotOwned message false.
Definition adopt_checkpoint (checkpoint : WorkflowCheckpoint json) (owner_session adopter : option ustr)
    (not_owned no_token : string) (adoption_token : option ustr) : call A (WorkflowCheckpoint json) :=
  if bool_decide (wc_owner_session_id checkpoint = owner_session) then mret (Ok checkpoint)
  else match adopter with
  | None => fail (task_not_owned not_owned)
  | Some owner_session =>
      if negb (workflow_adoption_token_matches checkpoint adoption_token)
      then fail (task_not_owned no_token)
      else
        _ ←? transfer_workflow_executions (wc_workflow_id checkpoint) owner_session;
        let checkpoint := checkpoint <| wc_owner_session_id := Some owner_session |> in
        _ ←? persist_agent_checkpoint checkpoint;
        mret (Ok checkpoint)
  end.

(* @src mcp/facade.rs:4757-4805 AgentFacade::load_coding_checkpoint *)
Definition load_coding_checkpoint (task_id action : ustr) (context : WorkflowCallContext)
    (adoption_token : option ustr) : call A (WorkflowCheckpoint json) :=
  let missing := facade_error FcNotFound "coding task 不存在" false in
  stored ←? load_workflow_checkpoint;
  match stored with
  | None => fail missing
  | Some checkpoint =>
      if negb (is_coding_task checkpoint) || negb (bool_decide (wc_workflow_id checkpoint = task_id))
      then fail missing else
      checkpoint ←? adopt_checkpoint checkpoint (cx_owner_session context) (cx_owner_session context)
        "coding task 不属于当前 MCP Session" "coding task transfer requires its adoption_token" adoption_token;
      original ←? answer (workflow_object_args (wc_arguments checkpoint));
      if negb (bool_decide (member_str "action" original = Some action)) then answer invalid else
      _ ←? ensure_coding_git_baseline checkpoint (cx_request_id context);
      mret (Ok checkpoint)
  end.

(* @src mcp/facade.rs:4379-4441 AgentFacade::coding_agent_workflow_phase, the preparation *)
Definition coding_prepare (action : ustr) (object : gmap ustr json) (context : WorkflowCallContext) :
    call A json :=
  _ ←? answer (ensure_only_keys object ["action"; "phase"; "objective"; "path"]%string);
  _ ←? ensure_checkpoint_slot_available;
  objective ←? answer (required_string object "objective");
  if bool_decide (trim objective = []) then answer invalid else
  project ←? project_context (default (lit ".") (member_str "path" object));
  selected_path ←? answer (selected_path_of command_state_internal_error project);
  coding ←? coding_context selected_path objective;
  verification_plan ←? coding_verification_plan selected_path;
  git_before ←? git_status selected_path (cx_request_id context);
  let checkpoint := checkpoint_new_coding (cx_now context) (cx_task_id context) (json_object object) objective
    <| wc_adoption_token_hash := Some (hash_workflow_adoption_token (cx_new_token context)) |>
    <| wc_owner_session_id := cx_owner_session context |>
    <| wc_files_read := default [] (get (lit "files_read") coding ≫= as_array) |>
    <| wc_git_before := Some (stable_data git_before) |>
    <| wc_verification_plan := verification_plan |>
    <| wc_current_step := Some (lit "prepare") |>
    <| wc_next_step := Some (lit "edit") |> in
  _ ←? persist_agent_checkpoint checkpoint;
  succeed
    [("action", json_string action); ("phase", js "prepare");
     ("workflow_id", json_string (wc_workflow_id checkpoint));
     ("task_id", json_string (wc_workflow_id checkpoint));
     ("adoption_token", json_string (cx_new_token context));
     ("objective", json_string objective); ("state", js "prepared");
     ("summary", js "Coding task prepared"); ("next_step", js "edit");
     ("warnings", json_array []); ("output_refs", json_array []);
     ("project", project); ("context", coding);
     ("verification_plan", json_array verification_plan);
     ("git_before", jopt id (wc_git_before checkpoint))] "Coding task prepared".

(** Those that are not listed yet, at the end. *)
Definition add_missing (l new : list ustr) : list ustr :=
  foldl (λ l x, if bool_decide (x ∈ l) then l else l ++ [x]) l new.

(* @src mcp/facade.rs:4442-4528 AgentFacade::coding_agent_workflow_phase, the edit *)
Definition coding_edit (action : ustr) (object : gmap ustr json) (context : WorkflowCallContext) :
    call A json :=
  _ ←? answer (ensure_only_keys object
    ["action"; "phase"; "task_id"; "adoption_token"; "patch"; "expected_files"]%string);
  task_id ←? answer (required_string object "task_id");
  patch ←? answer (required_string object "patch");
  if negb (agent_action_allows_write action) || negb (public_patch_targets_valid patch)
  then fail (workspace_denied "补丁目标不在当前工作区内") else
  let expected := default ∅ (object !! lit "expected_files" ≫= as_object) in
  checkpoint ←? load_coding_checkpoint task_id action context (member_str "adoption_token" object);
  if wc_completed checkpoint || negb (bool_decide (wc_current_step checkpoint = Some (lit "prepare"))) ||
     negb (bool_decide (wc_next_step checkpoint = Some (lit "edit"))) || wc_patch_applied checkpoint ||
     negb (Nat.eqb (wc_command_index checkpoint) 0) || wc_command_inflight checkpoint ||
     bool_decide (is_Some (wc_current_session_id checkpoint))
  then fail (unavailable "coding task phase order requires prepare -> edit") else
  let checkpoint := checkpoint <| wc_current_step := Some (lit "edit") |>
    <| wc_next_step := Some (lit "verify") |> <| wc_patch_inflight := true |> in
  _ ←? persist_agent_checkpoint checkpoint;
  patched ← apply_coding_patch patch expected;
  match patched with
  | Err error =>
      _ ←? persist_agent_checkpoint (checkpoint <| wc_patch_inflight := false |>
             <| wc_failure := Some (failure_new (lit (code_str (fe_code error))) None) |>);
      fail error
  | Ok modified_files =>
      let checkpoint := checkpoint <| wc_patch_inflight := false |> <| wc_patch_applied := true |>
        <| wc_failure := None |> <| wc_modified_files ::= λ l, add_missing l modified_files |> in
      _ ←? persist_agent_checkpoint checkpoint;
      succeed
        [("action", json_string action); ("phase", js "edit");
         ("workflow_id", json_string (wc_workflow_id checkpoint));
         ("task_id", json_string task_id); ("state", js "editing");
         ("summary", js "Coding edit applied"); ("next_step", js "verify");
         ("warnings", json_array []); ("output_refs", jstrs (wc_output_refs checkpoint));
         ("patch_applied", json_bool true);
         ("modified_files", jstrs (wc_modified_files checkpoint))] "Coding edit applied"
  end.

(** How the commands of a verification end. *)
Inductive VerificationEnd :=
  | VerifyAnswer (result : json)
  | VerifyDone (checkpoint : WorkflowCheckpoint json).
Definition verify_request (command : ustr) (shell : ShellSelector) (selected_path workflow_id : ustr)
    (owner_session : option ustr) : ShellCommandRequest :=
  MkShellCommandRequest (MkShellExecutionSpec shell command selected_path 600000 65536) 30000 None
    (Some workflow_id) owner_session.
Definition command_ended (checkpoint : WorkflowCheckpoint json) : WorkflowCheckpoint json :=
  checkpoint <| wc_command_inflight := false |> <| wc_current_session_id := None |>.
(** A command that could not be run. *)
Definition verify_failed (error : FacadeError) (checkpoint : WorkflowCheckpoint json) : WorkflowCheckpoint json :=
  if bool_decide (fe_code error = FcProcessCancelled)
  then command_ended checkpoint <| wc_current_step := Some (lit "cancelled") |> <| wc_next_step := None |>
         <| wc_completed := true |> <| wc_failure := Some (failure_new (lit "cancelled") None) |>
  else command_ended checkpoint <| wc_current_step := Some (lit "verify") |>
         <| wc_next_step := Some (lit "verify") |>
         <| wc_failure := Some (failure_new (lit (code_str (fe_code error))) None) |>.
Definition evidence_of (step : gmap ustr json) (command : ustr) (data : json) : json :=
  obj [("kind", json_string (default (lit "project_gate") (member_str "kind" step)));
       ("command", json_string command);
       ("status", default (js "completed") (get (lit "status") data));
       ("exit_code", default json_null (get (lit "exit_code") data));
       ("output_ref", default json_null (get (lit "output_ref") data))].
Definition add_output_ref (data : json) (checkpoint : WorkflowCheckpoint json) : WorkflowCheckpoint json :=
  match get_str (lit "output_ref") data with
  | Some output_ref => checkpoint <| wc_output_refs ::= λ l, add_missing l [output_ref] |>
  | None => checkpoint
  end.
(** A command of the plan that ended well. *)
Definition verify_advance (index : nat) (command : ustr) (step : gmap ustr json) (data : json)
    (checkpoint : WorkflowCheckpoint json) : WorkflowCheckpoint json :=
  let checkpoint := command_ended checkpoint <| wc_command_index := S index |>
    <| wc_command_results ::= λ l, l ++ [data] |> in
  let evidence := evidence_of step command data in
  if contains (lit "build") command then checkpoint <| wc_build_results ::= λ l, l ++ [evidence] |>
  else checkpoint <| wc_test_results ::= λ l, l ++ [evidence] |>.

(* @src mcp/facade.rs:4595-4689 AgentFacade::coding_agent_workflow_phase, the verification *)
Fixpoint verify_steps (context : WorkflowCallContext) (selected_path : ustr) (index : nat)
    (steps : list json) (checkpoint : WorkflowCheckpoint json) : call A VerificationEnd :=
  match steps with
  | [] => mret (Ok (VerifyDone checkpoint))
  | step :: steps =>
      step ←? answer (ok_or command_state_internal_error (as_object step));
      command ←? answer (required_workflow_string step "command");
      shell ←? answer (decode_shell "cmd" (step !! lit "shell"));
      let checkpoint := checkpoint <| wc_command_inflight := true |> <| wc_current_session_id := None |> in
      _ ←? persist_agent_checkpoint checkpoint;
      executed ← execute_shell (verify_request command shell selected_path (wc_workflow_id checkpoint)
                                  (cx_owner_session context)) (cx_request_id context);
      match executed with
      | Err error => _ ←? persist_agent_checkpoint (verify_failed error checkpoint); fail error
      | Ok result =>
          if is_error result then
            _ ←? persist_agent_checkpoint (checkpoint <| wc_command_inflight := false |>
                   <| wc_failure := Some (failure_at_step (lit "verification_failed") index) |>
                   <| wc_next_step := Some (lit "verify") |>);
            mret (Ok (VerifyAnswer result))
          else
            let data := stable_data result in
            let checkpoint := add_output_ref data checkpoint in
            if bool_decide (get_str (lit "status") data = Some (lit "running")) then
              session_id ←? answer (ok_or command_state_internal_error (get_str (lit "session_id") data));
              let checkpoint := checkpoint <| wc_current_session_id := Some session_id |> in
              _ ←? persist_agent_checkpoint checkpoint;
              mret (Ok (VerifyAnswer
                (coding_checkpoint_result checkpoint "verifying" "Verification command is running")))
            else
              let checkpoint := verify_advance index command step data checkpoint in
              _ ←? persist_agent_checkpoint checkpoint;
              verify_steps context selected_path (S index) steps checkpoint
      end
  end.

(** The project of a stored task. *)
Definition task_project (checkpoint : WorkflowCheckpoint json) : call A ustr :=
  original ←? answer (workflow_object_args (wc_arguments checkpoint));
  project ←? project_context (default (lit ".") (member_str "path" original));
  answer (selected_path_of command_state_internal_error project).

(** Whether verification may begin, and whether it may go on. *)
Definition entering_verify (checkpoint : WorkflowCheckpoint json) : bool :=
  bool_decide (wc_current_step checkpoint = Some (lit "edit")) &&
  bool_decide (wc_next_step checkpoint = Some (lit "verify")) && wc_patch_applied checkpoint &&
  Nat.eqb (wc_command_index checkpoint) 0 && Nat.eqb (length (wc_command_results checkpoint)) 0 &&
  bool_decide (wc_failure checkpoint = None).
Definition retrying_verify (checkpoint : WorkflowCheckpoint json) : bool :=
  bool_decide (wc_current_step checkpoint = Some (lit "verify")) &&
  bool_decide (wc_next_step checkpoint = Some (lit "verify")) &&
  (wc_command_index checkpoint <=? length (wc_verification_plan checkpoint))%nat.

(* @src mcp/facade.rs:4529-4699 AgentFacade::coding_agent_workflow_phase, verify *)
Definition coding_verify (action : ustr) (object : gmap ustr json) (context : WorkflowCallContext) :
    call A json :=
  _ ←? answer (ensure_only_keys object ["action"; "phase"; "task_id"; "adoption_token"]%string);
  task_id ←? answer (required_string object "task_id");
  checkpoint ←? load_coding_checkpoint task_id action context (member_str "adoption_token" object);
  if wc_completed checkpoint
  then mret (Ok (coding_checkpoint_result checkpoint "persisted" "Coding task already persisted"))
  else if bool_decide (is_Some (wc_current_session_id checkpoint))
  then mret (Ok (coding_checkpoint_result checkpoint "verifying"
                   "Verification session is already running; use resume"))
  else if negb (entering_verify checkpoint) && negb (retrying_verify checkpoint)
  then fail (unavailable "coding task phase order requires a completed edit before verify") else
  selected_path ←? task_project checkpoint;
  checkpoint ←?
    (if entering_verify checkpoint then
       plan ←? coding_verification_plan selected_path;
       mret (Ok (checkpoint <| wc_verification_plan := plan |> <| wc_commands := plan |>))
     else mret (Ok checkpoint));
  let checkpoint := checkpoint <| wc_current_step := Some (lit "verify") |>
    <| wc_next_step := Some (lit "persist") |> <| wc_failure := None |> in
  _ ←? persist_agent_checkpoint checkpoint;
  verified ←? verify_steps context selected_path (wc_command_index checkpoint)
    (drop (wc_command_index checkpoint) (wc_verification_plan checkpoint)) checkpoint;
  match verified with
  | VerifyAnswer result => mret (Ok result)
  | VerifyDone checkpoint =>
      let checkpoint := command_ended checkpoint <| wc_current_step := Some (lit "verify") |>
        <| wc_next_step := Some (lit "persist") |> in
      _ ←? persist_agent_checkpoint checkpoint;
      mret (Ok (coding_checkpoint_result checkpoint "verifying" "Verification plan completed"))
  end.

(** What must hold before a task is persisted. *)
Definition may_persist (checkpoint : WorkflowCheckpoint json) : bool :=
  negb (bool_decide (is_Some (wc_current_session_id checkpoint))) &&
  negb (wc_command_inflight checkpoint) &&
  bool_decide (wc_current_step checkpoint = Some (lit "verify")) &&
  bool_decide (wc_next_step checkpoint = Some (lit "persist")) &&
  bool_decide (wc_failure checkpoint = None) &&
  Nat.eqb (wc_command_index checkpoint) (length (wc_verification_plan checkpoint)) &&
  Nat.eqb (length (wc_command_results checkpoint)) (length (wc_verification_plan checkpoint)) &&
  forallb (λ result, bool_decide (get_str (lit "status") result = Some (lit "completed")))
    (wc_command_results checkpoint).

(* @src mcp/facade.rs:4700-4753 AgentFacade::coding_agent_workflow_phase, persist *)
Definition coding_persist (action : ustr) (object : gmap ustr json) (context : WorkflowCallContext) :
    call A json :=
  _ ←? answer (ensure_only_keys object ["action"; "phase"; "task_id"; "adoption_token"]%string);
  task_id ←? answer (required_string object "task_id");
  checkpoint ←? load_coding_checkpoint task_id action context (member_str "adoption_token" object);
  if negb (may_persist checkpoint)
  then fail (facade_error FcSessionUnavailable
         "coding task cannot persist until the full verification plan completes successfully" true) else
  checkpoint ←?
    (if wc_completed checkpoint then mret (Ok checkpoint) else
     selected_path ←? task_project checkpoint;
     git_after ←? git_status selected_path (cx_request_id context);
     let checkpoint := checkpoint <| wc_git_after := Some (stable_data git_after) |>
       <| wc_current_step := Some (lit "persist") |> <| wc_next_step := None |>
       <| wc_completed := true |> <| wc_failure := None |> in
     _ ←? persist_agent_checkpoint checkpoint;
     mret (Ok checkpoint));
  mret (Ok (coding_checkpoint_result checkpoint "persisted" "Coding task persisted")).

(* @src mcp/facade.rs:4365-4378 AgentFacade::coding_agent_workflow_phase, the dispatch *)
Definition coding_agent_workflow_phase (action phase : ustr) (object : gmap ustr json)
    (context : WorkflowCallContext) : call A json :=
  if bool_decide (phase = lit "prepare") then coding_prepare action object context
  else if bool_decide (phase = lit "edit") then coding_edit action object context
  else if bool_decide (phase = lit "verify") then coding_verify action object context
  else if bool_decide (phase = lit "persist") then coding_persist action object context
  else answer invalid.

(** ** Resuming *)

(** A poll of the command's session; a session that is gone left its end. *)
Definition poll_command (session_id : ustr) (request_id : option json) : call A json :=
  polled ← control_command ControlPoll
    (obj [("session_id", json_string session_id); ("wait_ms", jn 0)]) request_id;
  match polled with
  | Ok result => mret (Ok result)
  | Err error =>
      if bool_decide (fe_code error = FcSessionUnavailable)
      then a ← get_state; mret (Ok (default (to_mcp_result error) (durable_command_terminal a session_id)))
      else fail error
  end.
Definition says_status (data : json) (statuses : list string) : bool :=
  match get_str (lit "status") data with Some status => says_one_of status statuses | None => false end.
(** The command of the session ended well. *)
Definition session_completed (data : json) (checkpoint : WorkflowCheckpoint json) : WorkflowCheckpoint json :=
  command_ended checkpoint <| wc_command_index ::= S |> <| wc_command_results ::= λ l, l ++ [data] |>.
Definition next_coding_step (checkpoint : WorkflowCheckpoint json) : ustr :=
  lit (if (wc_command_index checkpoint <? length (wc_verification_plan checkpoint))%nat
       then "verify" else "persist").

(* @src mcp/facade.rs:4807-4926 AgentFacade::resume_coding_task *)
Definition resume_coding_task (checkpoint : WorkflowCheckpoint json) (request_id : option json) :
    call A json :=
  let step_is step := bool_decide (wc_current_step checkpoint = Some (lit step)) in
  if wc_patch_inflight checkpoint
  then fail (unavailable "coding task 的编辑步骤完成状态不可验证，已停止以避免重复编辑")
  else if wc_completed checkpoint
  then
    let state := if step_is "cancelled"%string then "cancelled"%string
                 else if step_is "failed"%string then "failed"%string else "persisted"%string in
    mret (Ok (coding_checkpoint_result checkpoint state
      "Coding task is already terminal; no side effects were replayed"))
  else if wc_command_inflight checkpoint && negb (bool_decide (is_Some (wc_current_session_id checkpoint)))
  then fail (unavailable "coding task 的验证命令完成状态不可验证，已停止以避免重复执行")
  else match wc_current_session_id checkpoint with
  | None =>
      let state := if step_is "edit"%string then "editing"%string
                   else if step_is "verify"%string then "verifying"%string
                   else if step_is "persist"%string then "persisted"%string
                   else if step_is "cancelled"%string then "cancelled"%string else "prepared"%string in
      mret (Ok (coding_checkpoint_result checkpoint state
        "Coding task resumed without replaying side effects"))
  | Some session_id =>
      polled ←? poll_command session_id request_id;
      let data := stable_data polled in
      if says_status data ["running"%string]
      then mret (Ok (coding_checkpoint_result checkpoint "verifying"
                       "Verification session is still running"))
      else if says_status data ["completed"%string]
      then
        let checkpoint := add_output_ref data (session_completed data checkpoint)
          <| wc_current_step := Some (lit "verify") |> in
        let checkpoint := checkpoint <| wc_next_step := Some (next_coding_step checkpoint) |> in
        _ ←? persist_agent_checkpoint checkpoint;
        mret (Ok (coding_checkpoint_result checkpoint "verifying"
          "Verification session completed; no next command was auto-started"))
      else if says_status data ["failed"; "cancelled"; "timed_out"; "lost"]%string
      then
        let checkpoint := command_ended checkpoint
          <| wc_failure := Some (failure_new (lit "verification_terminal") (get_str (lit "status") data)) |>
          <| wc_current_step := Some (lit "verify") |> <| wc_next_step := Some (lit "verify") |> in
        _ ←? persist_agent_checkpoint checkpoint;
        mret (Ok (coding_checkpoint_result checkpoint "failed"
          "Verification session ended unsuccessfully; no command was replayed"))
      else fail (unavailable "coding task 验证会话状态不可恢复")
  end.

(** What the end of its command makes of a checkpoint. *)
Definition settle_terminal (data : json) (checkpoint : WorkflowCheckpoint json) :
    option (WorkflowCheckpoint json) :=
  if says_status data ["completed"%string] then
    let checkpoint := session_completed data checkpoint <| wc_failure := None |> in
    Some (if is_coding_task checkpoint
          then checkpoint <| wc_current_step := Some (lit "verify") |>
                 <| wc_next_step := Some (next_coding_step checkpoint) |>
          else checkpoint)
  else if says_status data ["cancelled"%string] then
    Some (command_ended checkpoint <| wc_current_step := Some (lit "cancelled") |> <| wc_next_step := None |>
      <| wc_completed := true |>
      <| wc_failure := Some (failure_new (lit "cancelled") (get_str (lit "status") data)) |>)
  else if says_status data ["failed"; "timed_out"; "lost"]%string then
    Some (command_ended checkpoint <| wc_current_step := Some (lit "failed") |> <| wc_next_step := None |>
      <| wc_completed := true |>
      <| wc_failure := Some (failure_new
           (lit (if says_status data ["lost"%string] then "SessionUnavailable" else "command_terminal"))
           (get_str (lit "status") data)) |>)
  else None.

(* @src mcp/facade.rs:3465-3526 AgentFacade::reconcile_terminal_workflow_command *)
Definition reconcile_terminal_workflow_command : call A unit :=
  stored ←? load_workflow_checkpoint;
  match stored with
  | None => mret (Ok ())
  | Some checkpoint =>
      if wc_completed checkpoint then mret (Ok ()) else
      match wc_current_session_id checkpoint with
      | None => mret (Ok ())
      | Some session_id =>
          a ← get_state;
          match durable_command_terminal a session_id with
          | None => mret (Ok ())
          | Some terminal =>
              match settle_terminal (stable_data terminal) checkpoint with
              | None => mret (Ok ())
              | Some checkpoint => persist_agent_checkpoint checkpoint
              end
          end
      end
  end.
(** The members of a resumed workflow's answer. *)
Definition resumed_members (checkpoint : WorkflowCheckpoint json) (original : gmap ustr json) (state : string)
    (workspace project git_before : json) (commands : list json) : list (string * json) :=
  workflow_members (lit "resume") (Some (wc_workflow_id checkpoint)) (member_str "objective" original) state
    workspace project git_before (wc_patch_applied checkpoint) (wc_directory_results checkpoint) commands.

(** How the command of a stored workflow stands: the answer, or the checkpoint to go on with. *)
Definition settle_running (checkpoint : WorkflowCheckpoint json) (original : gmap ustr json)
    (workspace project git_before : json) (request_id : option json) :
    call A (json + WorkflowCheckpoint json) :=
  match wc_current_session_id checkpoint with
  | None => mret (Ok (inr checkpoint))
  | Some session_id =>
      polled ←? poll_command session_id request_id;
      if is_error polled then mret (Ok (inl polled)) else
      let data := stable_data polled in
      if says_status data ["running"%string]
      then mret (Ok (inl (stable_success (obj
             (resumed_members checkpoint original "running" workspace project git_before
                (wc_command_results checkpoint) ++ [("current_execution", data)]))
             (lit "Agent workflow command is still running"))))
      else if says_status data ["completed"%string]
      then
        let checkpoint := session_completed data checkpoint in
        _ ←? persist_agent_checkpoint checkpoint;
        mret (Ok (inr checkpoint))
      else fail (unavailable "工作流命令状态不可恢复")
  end.

(** The steps of a stored workflow that are left. *)
(* @src mcp/facade.rs:5064-5352 AgentFacade::resume_agent_workflow, the steps left *)
Definition resume_workflow (context : WorkflowCallContext) (checkpoint : WorkflowCheckpoint json)
    (original : gmap ustr json) : call A json :=
  let request_id := cx_request_id context in
  let patch := member_str "patch" original in
  project ←? project_context (default (lit ".") (member_str "path" original));
  selected_path ←? answer (selected_path_of invalid_project project);
  directory_changes ←? answer (parse_directory_changes original);
  commands ←? answer (parse_commands original);
  if (length directory_changes <? wc_directory_index checkpoint)%nat ||
     (length commands <? wc_command_index checkpoint)%nat
  then fail workflow_checkpoint_error else
  workspace ←? workspace_context request_id;
  git_before ←? git_status selected_path request_id;
  let project := with_git_facts git_before project in
  settled ←? settle_running checkpoint original workspace project git_before request_id;
  match settled with
  | inl result => mret (Ok result)
  | inr checkpoint =>
      let run := resumption checkpoint in
      let pending_patch := if wc_patch_applied checkpoint then None else patch in
      let commands_left := (wc_command_index checkpoint <? length commands)%nat in
      directories ←? run_directories run (length directory_changes) pending_patch commands_left
        (wc_directory_index checkpoint) (drop (wc_directory_index checkpoint) directory_changes)
        (Some checkpoint) (wc_directory_results checkpoint);
      checkpoint' ←? run_patch run pending_patch commands_left request_id directories.1;
      ended_with ←? run_commands run context selected_path (length commands) (wc_command_index checkpoint)
        (drop (wc_command_index checkpoint) commands) checkpoint' (wc_command_results checkpoint);
      match ended_with with
      | CommandFailed result => mret (Ok result)
      | CommandRunning checkpoint' results =>
          succeed (resumed_members (default checkpoint checkpoint') original "running" workspace project
                     git_before results) "Agent workflow resumed and command is running"
      | CommandsDone checkpoint' results =>
          git_after ←? git_status selected_path request_id;
          _ ←? clear_workflow_checkpoint;
          succeed (resumed_members (default checkpoint checkpoint') original "completed" workspace project
                     git_before results ++ [("git_after", stable_data git_after)])
            "Agent workflow resumed and completed"
      end
  end.

(* @src mcp/facade.rs:4928-5063 AgentFacade::resume_agent_workflow *)
Definition resume_agent_workflow (policy : CapabilityPolicy) (mode : PermissionMode)
    (context : WorkflowCallContext) (durable_task_id adoption_token : option ustr) : call A json :=
  let request_id := cx_request_id context in
  let allowed arguments := pd_allowed (decide_public policy mode (lit "agent_workflow") arguments) in
  stored ←? load_workflow_checkpoint;
  match stored with
  | None => fail (facade_error FcNotFound "没有可恢复的工作流" false)
  | Some checkpoint =>
      if match durable_task_id with
         | Some id => negb (bool_decide (wc_workflow_id checkpoint = id))
         | None => false
         end
      then fail (facade_error FcNotFound "指定的 durable workflow 不存在或已回收" false) else
      checkpoint ←? adopt_checkpoint checkpoint (cx_owner_session context)
        (if bool_decide (is_Some durable_task_id) then cx_owner_session context else None)
        "工作流不属于当前 MCP Session；重连后必须使用 prepare 返回的 task_id"
        "workflow transfer requires its adoption_token" adoption_token;
      original ←? answer (workflow_object_args (wc_arguments checkpoint));
      action ←? answer (required_string original "action");
      if bool_decide (action = lit "resume") then answer invalid else
      if negb (allowed (wc_arguments checkpoint))
      then fail (facade_error FcCapabilityDenied "当前权限模式不能恢复该工作流" false) else
      if is_coding_task checkpoint then
        _ ←? ensure_coding_git_baseline checkpoint request_id;
        let idle := negb (bool_decide (is_Some (wc_current_session_id checkpoint))) &&
                    negb (wc_command_inflight checkpoint) && negb (wc_patch_inflight checkpoint) &&
                    negb (wc_completed checkpoint) in
        match wc_next_step checkpoint with
        | Some next_phase =>
            if idle && says_one_of next_phase ["verify"; "persist"]%string then
              let synthesized : gmap ustr json := list_to_map
                [(lit "action", json_string action); (lit "phase", json_string next_phase);
                 (lit "task_id", json_string (wc_workflow_id checkpoint))] in
              if negb (allowed (json_object synthesized))
              then fail (facade_error FcCapabilityDenied "当前权限模式不能继续 coding task 的下一阶段" false)
              else coding_agent_workflow_phase action next_phase synthesized context
            else resume_coding_task checkpoint request_id
        | None => resume_coding_task checkpoint request_id
        end
      else if wc_completed checkpoint then
        let step_is step := bool_decide (wc_current_step checkpoint = Some (lit step)) in
        succeed
          [("action", js "resume"); ("workflow_id", json_string (wc_workflow_id checkpoint));
           ("objective", jopt json_string (member_str "objective" original));
           ("state", js (if step_is "cancelled"%string then "cancelled"
                         else if step_is "failed"%string then "failed" else "completed"));
           ("failure", jopt failure_json (wc_failure checkpoint))]
          "Agent workflow is already terminal; no side effects were replayed"
      else if wc_directory_inflight checkpoint || wc_patch_inflight checkpoint
      then fail (unavailable "工作流包含完成状态不可验证的文件步骤，已停止以避免重复执行")
      else if wc_command_inflight checkpoint && negb (bool_decide (is_Some (wc_current_session_id checkpoint)))
      then fail (unavailable "工作流包含完成状态不可验证的命令步骤，已停止以避免重复执行")
      else resume_workflow context checkpoint original
  end.
End coding.
