(* ===== verification/FacadeEntry.v ===== *)
(** * FacadeEntry: the public tools

    [src/src-tauri/src/mcp/facade.rs]: [agent_workflow] and the other tools, and
    the way of a call through policy, workspace and paths to its tool.  A caller
    sees the phases of the task a call projects. *)

From S2P Require Import Prelude Text StateModel TaskSummary WindowsPath PathAuthority FilesystemService Effects Json Policy PolicyReview PolicyDecision WorkflowCheckpoint Guard Facade FacadeArguments FacadeRequests FacadeWorkflow FacadeCoding.
#[local] Open Scope N_scope.

Section explanation.
Context `{Json}.

Definition explanation_class (decision : PolicyDecision) : string * string * string :=
  let privileged := ("elevated_required", "privileged_route",
    "需要用户显式管理员授权与可用 Broker route")%string in
  let mode := ("workspace_restricted", "permission_mode", "切换到允许该 ordinary capability 的用户权限模式")%string in
  let unknown := ("permanently_denied", "unknown_capability",
    "使用当前 workspace_context.capabilities 中声明的稳定能力")%string in
  if pd_allowed decision then ("ordinary", "ordinary_allowed", "当前 ordinary route 可执行")%string
  else match pd_deny_reason decision with
  | Some (PrivilegedRouteNotAvailable | ElevatedExecNotReviewed) => privileged
  | Some (ToolNotAllowedInMode | IndirectProcessExecInEdit) => mode
  | Some VerbatimExecutionPath =>
      ("workspace_restricted", "workspace_boundary", "使用普通 Win32 workspace 路径而不是 verbatim 路径")%string
  | Some (DenyControlPlane | IndirectControlPlane) =>
      ("permanently_denied", "control_plane", "LocalBridge control-plane 不允许由 MCP/AI 修改")%string
  | Some NetworkRouteNotAvailable =>
      ("permanently_denied", "network_policy", "该网络路线未获当前 public capability 授权")%string
  | Some (UnknownTool | IndirectUnknownCapability) | None => unknown
  end.
(** What a dry run says of a call. *)
Definition explanation_members (decision : PolicyDecision) : list (string * json) :=
  let '(route, rule_category, remediation) := explanation_class decision in
  [("allowed", json_bool (pd_allowed decision)); ("route", js route); ("rule_category", js rule_category);
   ("remediation", json_string (text remediation)); ("would_execute", json_bool false)].
(* @src mcp/facade.rs:3801-3853 AgentFacade::policy_explanation *)
Definition policy_explanation (policy : CapabilityPolicy) (mode : PermissionMode) (tool_name : ustr)
    (arguments : json) : json := obj (explanation_members (decide_public policy mode tool_name arguments)).
(** The arguments of the call that a dry run stands for. *)
Definition without_dry_run (arguments : json) : json :=
  match as_object arguments with
  | Some object => json_object (delete (lit "dry_run") object)
  | None => arguments
  end.

(* @src mcp/facade.rs:3535-3557 AgentFacade::authorize_public_request *)
Definition authorize_public_request (policy : CapabilityPolicy) (mode : PermissionMode) (name : ustr)
    (arguments : json) : option (result FacadeDenied unit) :=
  if negb (one_of PUBLIC_CORE_TOOLS name) then Some (Err (MkFacadeDenied UnknownTool CapUnknown)) else
  let decision := decide_public policy mode name arguments in
  if pd_allowed decision then Some (Ok ()) else
  reason ← pd_deny_reason decision;
  Some (Err (MkFacadeDenied reason (td_capability (pd_descriptor decision)))).
End explanation.

Section tools.
Context `{Json} `{Encodings} {A : Type} `{!WorkspaceRuntimeAdapter A}.
Context (policy : CapabilityPolicy) (mode : PermissionMode).

(** ** What is shown of the stored workflow *)

(** A checkpoint that cannot be loaded is none. *)
Definition stored_checkpoint : eff A (option (WorkflowCheckpoint json)) :=
  loaded ← load_workflow_checkpoint;
  mret match loaded with Ok stored => stored | Err _ => None end.
(* @src mcp/facade.rs:3416-3437 AgentFacade::durable_workflow_current_snapshot *)
Definition workflow_snapshot (checkpoint : WorkflowCheckpoint json) : option (list (string * json)) :=
  if wc_completed checkpoint then None else
  let running := bool_decide (is_Some (wc_current_session_id checkpoint)) || wc_command_inflight checkpoint ||
                 wc_patch_inflight checkpoint || wc_directory_inflight checkpoint in
  let verifying n := if bool_decide (wc_current_step checkpoint = Some (lit "verify"))
                     then jn (N.of_nat n) else json_null in
  Some [("state", js (if running then "running" else "waiting"));
        ("task_id", json_string (wc_workflow_id checkpoint));
        ("kind", js (if is_coding_task checkpoint then "coding_workflow" else "workflow"));
        ("current_step", jopt json_string (wc_current_step checkpoint));
        ("next_step", jopt json_string (wc_next_step checkpoint));
        ("progress_current", verifying (wc_command_index checkpoint));
        ("progress_total", verifying (length (wc_verification_plan checkpoint)))].
(* @src mcp/facade.rs:3439-3458 AgentFacade::task_aggregate_snapshot *)
Definition task_aggregate_snapshot : eff A json :=
  stored ← stored_checkpoint;
  mret match stored ≫= workflow_snapshot with
       | None => obj [("state", js "idle"); ("current_workflow", json_null)]
       | Some members =>
           obj ([("state", js "waiting"); ("current_workflow", obj members)] ++
                filter (λ member, member.1 ∈ ["task_id"; "kind"; "current_step"; "next_step"]%string) members)
       end.

Definition coding_capabilities : list string :=
  ["workspace_discovery"; "project_instructions"; "context_search"; "command_execution"; "persistent_task";
   "resume"; "patch_edit"; "test_build"; "git_status_diff"; "cancellation"; "output_continuation"; "typed_errors"].
(** The answer of the adapter with more members in its data. *)
Definition with_data (result : json) (members : list (string * json)) : option json :=
  object ← as_object result;
  structured ← object !! lit "structuredContent" ≫= as_object;
  data ← structured !! lit "data" ≫= as_object;
  let data := list_to_map (prod_map lit id <$> members) ∪ data in
  Some (json_object (<[lit "structuredContent" :=
    json_object (<[lit "data" := json_object data]> structured)]> object)).

(* @src mcp/facade.rs:3721-3799 AgentFacade::workspace_context *)
Definition tool_workspace_context (arguments : json) (request_id : option json) : call A json :=
  detail ←? answer match get (lit "detail") arguments with
    | None => Ok "compact"%string
    | Some value =>
        if bool_decide (as_str value = Some (lit "compact")) then Ok "compact"%string
        else if bool_decide (as_str value = Some (lit "full")) then Ok "full"%string else invalid
    end;
  result ←? workspace_context request_id;
  a ← get_state;
  let discovery := runtime_discovery a in
  let found key absent := default absent (get (lit key) discovery) in
  let missing := obj [("available", json_bool false)] in
  let allowed := filter (λ name, public_tool_allowed_in_mode policy mode name) PUBLIC_CORE_TOOLS in
  let invalid_projection := facade_error FcInternal "工作区上下文投影无效" false in
  _ ←? answer (ok_or invalid_projection (with_data result []));
  current_task ← task_aggregate_snapshot;
  answer (ok_or invalid_projection (with_data result (
    [("shell_discovery", found "shells"%string (json_object ∅));
     ("capabilities", obj [
        ("public_tools", jstrs (PUBLIC_CORE_TOOLS ++ [lit "elevated_exec"]));
        ("policy_allowed_tools", jstrs allowed);
        ("tool_schema_projection", js "stable");
        ("shells", found "shells"%string (json_object ∅)); ("git", found "git"%string missing);
        ("bundled_python", found "bundled_python"%string missing);
        ("bundled_node", found "bundled_node"%string missing);
        ("elevated_route", obj [("available", json_bool false); ("reason", js "broker_state_required")])]);
     ("current_task", current_task); ("detail", js detail); ("coding_profile", js "coding-agent-v1")] ++
    if bool_decide (detail = "full"%string)
    then [("coding_capabilities", json_array (js <$> coding_capabilities))] else []))).

(** ** [agent_workflow] *)

Definition AGENT_ACTIONS : list string :=
  ["diagnose"; "bugfix"; "feature"; "refactor"; "test_failure"; "build_release"; "document"; "resume"; "custom"].
Definition nonempty_array (key : string) (object : gmap ustr json) : bool :=
  negb (Nat.eqb (length (member_array key object)) 0).

(** A client that does not know the phases prepares a task by its objective and
    edits it by its patch: the edit of the stored task, if there is one to edit. *)
(* @src mcp/facade.rs:3951-4002 AgentFacade::agent_workflow, the edit of an older client *)
Definition stale_client_edit (action : ustr) (object : gmap ustr json) (patch : ustr) :
    call A (option (gmap ustr json)) :=
  stored ←? load_workflow_checkpoint;
  match stored with
  | None => mret (Ok None)
  | Some checkpoint =>
      if negb (is_coding_task checkpoint) || wc_completed checkpoint ||
         negb (bool_decide (wc_next_step checkpoint = Some (lit "edit")))
      then mret (Ok None) else
      original ←? answer (workflow_object_args (wc_arguments checkpoint));
      original_action ←? answer (required_string original "action");
      let same_objective := match member_str "objective" object with
        | Some objective => bool_decide (wc_objective checkpoint = Some objective)
        | None => true
        end in
      let path_of members := default (lit ".") (member_str "path" members) in
      if negb (bool_decide (original_action = action)) || negb same_objective ||
         negb (bool_decide (path_of object = path_of original))
      then fail (unavailable "存在未完成的 coding task；旧客户端请求与该 task 不匹配")
      else mret (Ok (Some (list_to_map
        [(lit "action", json_string action); (lit "phase", js "edit");
         (lit "task_id", json_string (wc_workflow_id checkpoint)); (lit "patch", json_string patch);
         (lit "expected_files", json_object (expected_files_from_checkpoint checkpoint))])))
  end.

(** Nothing is run; the policy is explained for the workflow and its commands. *)
(* @src mcp/facade.rs:4018-4058 AgentFacade::agent_workflow, the dry run *)
Definition dry_run_workflow (arguments : json) (object : gmap ustr json) (action : ustr) (project : json)
    (request_id : option json) : call A json :=
  let explained command :=
    policy_explanation policy mode (lit "exec_command")
      (obj [("command", json_string (default [] (member_str "command" command)));
            ("shell", json_string (default (lit "auto") (member_str "shell" command)));
            ("workdir", json_string (default (lit ".") (member_str "workdir" command)))]) in
  let commands := omap (λ command, explained <$> as_object command) (member_array "commands" object) in
  workspace ←? tool_workspace_context (obj []) request_id;
  succeed
    [("action", json_string action); ("objective", jopt json_string (member_str "objective" object));
     ("state", js "completed"); ("workspace", stable_data workspace); ("project", project);
     ("git_before", obj []); ("patch_applied", json_bool false); ("directory_changes", json_array []);
     ("commands", json_array commands);
     ("explain", policy_explanation policy mode (lit "agent_workflow") (without_dry_run arguments))]
    "Agent workflow policy explained without execution".

(* @src mcp/facade.rs:3855-4017 AgentFacade::agent_workflow *)
Definition agent_workflow (arguments : json) (context : WorkflowCallContext) : call A json :=
  object ←? answer (object_args arguments);
  action ←? answer (required_string object "action");
  if negb (says_one_of action AGENT_ACTIONS) then answer invalid
  else if bool_decide (action = lit "resume") then
    _ ←? answer (ensure_only_keys object ["action"; "task_id"; "adoption_token"]%string);
    durable_task_id ←? answer match object !! lit "task_id" with
      | None => Ok None
      | Some value =>
          match as_str value with
          | Some id => if blank id then invalid else Ok (Some id)
          | None => invalid
          end
      end;
    resume_agent_workflow policy mode context durable_task_id (member_str "adoption_token" object)
  else match member_str "phase" object with
  | Some phase => coding_agent_workflow_phase action phase object context
  | None =>
      let dry_run := member_bool "dry_run" object in
      let has_steps := nonempty_array "directory_changes" object || nonempty_array "commands" object in
      let patch := member_str "patch" object in
      let has_objective := match member_str "objective" object with
                           | Some objective => negb (blank objective) | None => false end in
      if agent_action_allows_write action && negb dry_run && bool_decide (patch = None) &&
         negb has_steps && has_objective
      then coding_agent_workflow_phase action (lit "prepare") (<[lit "phase" := js "prepare"]> object) context
      else
        edited ←? (if negb dry_run && negb has_steps
                   then match patch with Some patch => stale_client_edit action object patch | None => mret (Ok None) end
                   else mret (Ok None));
        match edited with
        | Some edited => coding_agent_workflow_phase action (lit "edit") edited context
        | None =>
            project_path ←? answer match object !! lit "path" with
              | Some value => ok_or invalid_argument (as_str value)
              | None => Ok (lit ".")
              end;
            project ←? project_context project_path;
            selected_path ←? answer (selected_path_of invalid_project project);
            if dry_run then dry_run_workflow arguments object action project (cx_request_id context)
            else run_workflow context arguments object action patch project selected_path
        end
  end.

(** ** The other tools *)

(* @src mcp/facade.rs:5354-5395 AgentFacade::exec_command *)
Definition exec_command (arguments : json) (context : WorkflowCallContext) : call A json :=
  parsed ←? answer (ok_or invalid_argument (parse_exec_command arguments));
  if ea_dry_run parsed then
    succeed (explanation_members (decide_public policy mode (lit "exec_command") (without_dry_run arguments)) ++
             [("status", js "completed")]) "Command policy explained without execution"
  else
    execute_shell (MkShellCommandRequest
      (MkShellExecutionSpec (ea_shell parsed) (ea_command parsed) (ea_workdir parsed) (ea_timeout_ms parsed)
         (ea_max_output_bytes parsed))
      (ea_yield_time_ms parsed) (ea_stdin parsed) (Some (cx_task_id context)) (cx_owner_session context))
      (cx_request_id context).

(* @src mcp/facade.rs:5397-5441 AgentFacade::command_control *)
Definition command_control (arguments : json) (context : WorkflowCallContext) : call A json :=
  object ←? answer (object_args arguments);
  action ←? answer (required_string object "action");
  control ←? answer (ok_or invalid_argument (parse_control_action action));
  _ ←? answer (ensure_only_keys object control.2);
  _ ←? match cx_owner_session context with
       | Some owner_session => authorize_command_resource control.1 object owner_session
       | None => mret (Ok ())
       end;
  _ ←? answer (control_members control.1 object);
  control_command control.1 (json_object (delete (lit "action") object)) (cx_request_id context).

(* @src mcp/facade.rs:5443-5497 AgentFacade::git_workflow *)
Definition tool_git_workflow (arguments : json) (request_id : option json) : call A json :=
  object ←? answer (object_args arguments);
  action ←? answer (required_string object "action");
  git ←? answer (ok_or invalid_argument (parse_git_action action));
  _ ←? answer (ensure_only_keys object git.2);
  _ ←? (if bool_decide (git.1 = GitBlame) then answer (required_string object "path") else answer (Ok []));
  git_workflow git.1 (json_object (delete (lit "action") object)) request_id.

(* @src mcp/facade.rs:5499-5588 AgentFacade::document_workflow *)
Definition document_workflow (arguments : json) : call A json :=
  object ←? answer (object_args arguments);
  request ←? answer (parse_document_request object);
  data ←? execute_document request;
  mret (Ok (stable_success data (lit (document_success_summary request)))).

(* @src mcp/facade.rs:3687-3719 AgentFacade::dispatch_for_task *)
Definition dispatch_for_task (name : ustr) (arguments : json) (context : WorkflowCallContext) : call A json :=
  let is_tool tool := bool_decide (name = lit tool) in
  let request_id := cx_request_id context in
  if is_tool "workspace_context"%string then tool_workspace_context arguments request_id
  else if is_tool "agent_workflow"%string then agent_workflow arguments context
  else if is_tool "filesystem"%string then filesystem arguments
  else if is_tool "exec_command"%string then exec_command arguments context
  else if is_tool "command_control"%string then command_control arguments context
  else if is_tool "git_workflow"%string then tool_git_workflow arguments request_id
  else if is_tool "document_workflow"%string then document_workflow arguments
  else if is_tool "view_image"%string then inspect_image arguments request_id
  else if is_tool "task_control"%string
  then succeed [("delegated_to", js "localbridge_server_task_controller")] "Task control delegated"
  else fail (facade_error FcCapabilityDenied "未知 LocalBridge public tool" false).

(** ** A call *)

(** What a call shows while it runs. *)
Definition shown {X} (m : eff A X) : eff (A * list CurrentTaskStatus) X := lift_part fst (λ a w, (a, w.2)) m.
Definition show (status : option CurrentTaskStatus) : eff (A * list CurrentTaskStatus) unit :=
  match status with Some status => modify (λ w, (w.1, w.2 ++ [status])) | None => panic end.
Definition project_phase (kind : TaskKind) (summary : SafeTaskSummary) (state : TaskExecutionState) :
    eff (A * list CurrentTaskStatus) unit := show (expect_status kind summary state).

(* @src mcp/facade.rs:3583-3667 AgentFacade::call_tool_for_task *)
Definition call_tool_for_task (name : ustr) (arguments : json) (context : WorkflowCallContext) :
    eff (A * list CurrentTaskStatus) (result FacadeDenied json) :=
  let kind := public_task_kind name arguments in
  let summary := public_safe_summary name arguments in
  let blocked (answer : result FacadeDenied json) :=
    _ ← project_phase kind summary TaskBlocked; _ ← show (Some StatusIdle); mret answer in
  authorized ← expect (authorize_public_request policy mode name arguments);
  match authorized with
  | Err denied => blocked (Err denied)
  | Ok _ =>
      identity ← (if bool_decide (name = lit "task_control") then mret (Ok ())
                  else shown validate_workspace_identity);
      match identity with
      | Err error => blocked (Ok (to_mcp_result error))
      | Ok _ =>
          if negb (public_workspace_paths_valid name arguments)
          then blocked (Ok (to_mcp_result (facade_error FcWorkspaceDenied "工作区路径参数无效" false)))
          else
            _ ← project_phase kind summary TaskRunning;
            result ← shown (dispatch_for_task name arguments context);
            _ ← match result with
                | Ok value => if is_error value then project_phase kind SummaryOmitted TaskFailed else mret ()
                | Err _ => project_phase kind SummaryOmitted TaskFailed
                end;
            _ ← show (Some StatusIdle);
            mret (Ok match result with Ok value => value | Err error => to_mcp_result error end)
      end
  end.
End tools.
