(* ===== verification/FacadeDurable.v ===== *)
(** * FacadeDurable: workflows over interruptions

    What the checkpoints of [FacadeWorkflow] and [FacadeCoding] are for: whatever
    call fails, and wherever the process stops, no step of a workflow is started
    twice.  The adapter's store keeps what was saved last; everything else it does
    is unknown. *)

From S2P Require Import Prelude Text StateModel BrokerProtocol HostFs HostLogic FilesystemService Effects Json Policy PolicyDecision WorkflowCheckpoint Facade FacadeArguments FacadeRequests FacadeWorkflow FacadeCoding FacadeEntry.
#[local] Open Scope N_scope.

(** ** The log *)

(** What a workflow starts. *)
Inductive Effect :=
  | EffDirectory (action path : ustr)
  | EffPatch (patch : ustr)
  | EffCommand (command : ustr).

Section log.
Context `{Json} {A : Type}.

Definition unlogged {X} (m : eff A X) : eff (A * list Effect) X := lift_part fst (λ a w, (a, w.2)) m.
Definition logged {X} (effect : Effect) (m : eff A X) : eff (A * list Effect) X :=
  _ ← modify (λ w, (w.1, w.2 ++ [effect])); unlogged m.

(** An adapter that writes down what it is asked to start, before it starts. *)
#[export] Instance logging_adapter `{!WorkspaceRuntimeAdapter A} : WorkspaceRuntimeAdapter (A * list Effect) := {|
  workspace_context request_id := unlogged (workspace_context request_id);
  validate_workspace_identity := unlogged validate_workspace_identity;
  runtime_discovery w := runtime_discovery w.1;
  coding_context path objective := unlogged (coding_context path objective);
  coding_verification_plan path := unlogged (coding_verification_plan path);
  apply_coding_patch patch expected := logged (EffPatch patch) (apply_coding_patch patch expected);
  normalize_workspace_path path leaf := unlogged (normalize_workspace_path path leaf);
  project_context path := unlogged (project_context path);
  filesystem arguments := unlogged (filesystem arguments);
  apply_directory_change action path := logged (EffDirectory action path) (apply_directory_change action path);
  execute_shell request request_id :=
    logged (EffCommand (se_command (sc_execution request))) (execute_shell request request_id);
  control_command action arguments request_id := unlogged (control_command action arguments request_id);
  transfer_workflow_executions id owner := unlogged (transfer_workflow_executions id owner);
  authorize_command_resource action object owner := unlogged (authorize_command_resource action object owner);
  git_workflow action arguments request_id := unlogged (git_workflow action arguments request_id);
  execute_document request := unlogged (execute_document request);
  inspect_image arguments request_id := unlogged (inspect_image arguments request_id);
  apply_workflow_patch arguments request_id :=
    logged (EffPatch (default [] (get_str (lit "patch") arguments))) (apply_workflow_patch arguments request_id);
  load_workflow_checkpoint := unlogged load_workflow_checkpoint;
  save_workflow_checkpoint checkpoint := unlogged (save_workflow_checkpoint checkpoint);
  clear_workflow_checkpoint := unlogged clear_workflow_checkpoint;
  durable_command_terminal w session_id := durable_command_terminal w.1 session_id
|}.
End log.

(** ** The store *)

Section store.
Context {Payload : Type}.
Implicit Types c : WorkflowCheckpoint Payload.

(** The same checkpoint, saved at another time or by another version. *)
Definition timeless c : WorkflowCheckpoint Payload :=
  c <| wc_version := 0 |> <| wc_created_at_ms := 0 |> <| wc_updated_at_ms := 0 |> <| wc_stale_after_ms := 0 |>.
Definition retimed c c' : Prop := timeless c' = timeless c.
(** What a reader may get: the checkpoint, or its end once it is stale. *)
Definition aged c c' : Prop :=
  retimed c c' ∨ retimed (ended (lit "stale") (lit "workflow_stale") (lit "lost") c) c'.

Context {E S : Type} (stores : S → option (WorkflowCheckpoint Payload) → Prop).

(** What may be read later is what could be read before, brought up to date. *)
Definition unchanged (s s' : S) : Prop :=
  ∀ o', stores s' o' → ∃ o, stores s o ∧ (o' = o ∨ ∃ c c', o = Some c ∧ o' = Some c' ∧ aged c c').
Definition loads (m : eff S (result E (option (WorkflowCheckpoint Payload)))) : Prop :=
  ∀ s, unchanged s (m s).1 ∧
    match (m s).2 with
    | Some (Ok (Some c)) => ∃ c0, stores s (Some c0) ∧ aged c0 c
    | Some (Ok None) => stores s None
    | _ => True
    end.
(** After a failure the file holds the old or the new checkpoint. *)
Definition saves (f : WorkflowCheckpoint Payload → eff S (result E unit)) : Prop :=
  ∀ c s, let '(s', r) := f c s in
    ∀ o', stores s' o' → (∃ c', o' = Some c' ∧ retimed c c') ∨
      match r with Some (Ok _) => False | _ => stores s o' end.
Definition clears (m : eff S (result E unit)) : Prop :=
  ∀ s, let '(s', r) := m s in
    ∀ o', stores s' o' → o' = None ∨ match r with Some (Ok _) => False | _ => stores s o' end.
(** A computation that leaves the store alone. *)
Definition quiet {X} (m : eff S X) : Prop := ∀ s o, stores (m s).1 o → stores s o.
End store.

(** An adapter whose checkpoint store is durable. *)
Class DurableAdapter `{Json} (A : Type) `{!WorkspaceRuntimeAdapter A} := {
  stores : A → option (WorkflowCheckpoint json) → Prop;
  load_durable : loads stores load_workflow_checkpoint;
  save_durable : saves stores save_workflow_checkpoint;
  clear_durable : clears stores clear_workflow_checkpoint;
  workspace_context_quiet r : quiet stores (workspace_context r);
  project_context_quiet p : quiet stores (project_context p);
  coding_context_quiet p o : quiet stores (coding_context p o);
  coding_verification_plan_quiet p : quiet stores (coding_verification_plan p);
  apply_coding_patch_quiet p e : quiet stores (apply_coding_patch p e);
  normalize_workspace_path_quiet p l : quiet stores (normalize_workspace_path p l);
  apply_directory_change_quiet a p : quiet stores (apply_directory_change a p);
  execute_shell_quiet q r : quiet stores (execute_shell q r);
  poll_quiet j r : quiet stores (control_command ControlPoll j r);
  transfer_workflow_executions_quiet i o : quiet stores (transfer_workflow_executions i o);
  git_workflow_quiet a j r : quiet stores (git_workflow a j r);
  apply_workflow_patch_quiet j r : quiet stores (apply_workflow_patch j r)
}.

(** *** The store of [WorkflowCheckpoint] is one *)

Section file.
Context `{CheckpointHost} {Payload : Type} `{!Serde (WorkflowCheckpoint Payload)}.
Implicit Types c : WorkflowCheckpoint Payload.

(** What the file may be read as. *)
Definition file_stores (w : CheckpointFiles) (o : option (WorkflowCheckpoint Payload)) : Prop :=
  match o with Some c => file_reads w c | None => cf_main w = None end.
Definition stopping {W E X} (m : ST W E X) : eff W (result E X) := λ w, let '(w', r) := m w in (w', Some r).

Lemma same_main_stores w w' : cf_main w' = cf_main w → ∀ o, file_stores w' o → file_stores w o.
Proof. unfold file_stores, file_reads. intros ->. done. Qed.
Lemma stamped_retimed now c : retimed c (stamped now c).
Proof. by destruct c. Qed.

Lemma save_stores : saves file_stores (λ c, stopping (save c)).
Proof.
  intros c w. unfold stopping. pose proof (save_outcomes c w) as Hs.
  destruct (save c w) as [w' [[]|e]]; intros o Ho.
  - destruct Hs as (now & _ & Hholds). left. destruct o as [c'|]; simpl in Ho.
    + exists c'. split; [done|]. rewrite (file_holds_reads _ _ _ Hholds Ho). apply stamped_retimed.
    + destruct Hholds as (? & ? & ? & _ & _ & _ & Hsome). by rewrite Ho in Hsome.
  - right. by eapply same_main_stores.
Qed.

Lemma migrate_retimed now time c : retimed c (migrate now time c).1.
Proof.
  unfold migrate. destruct c as [version ? ? ? created updated stale]. cbn -[N.eqb].
  by repeat (match goal with |- context [?x =? 0] => destruct (x =? 0) end; cbn -[N.eqb]).
Qed.
Lemma ended_retimed step code status c c' :
  retimed c c' → retimed (ended step code status c) (ended step code status c').
Proof.
  unfold retimed. intros Hc.
  assert (Hcomm : ∀ c, timeless (ended step code status c) = ended step code status (timeless c)) by by intros [].
  by rewrite !Hcomm, Hc.
Qed.
Lemma lifecycle_aged now time c : aged c (lifecycle now time c).1.
Proof.
  unfold lifecycle. pose proof (migrate_retimed now time c) as Hm.
  destruct (migrate now time c) as [c1 changed]. simpl in Hm.
  case_match; simpl; [right; by apply ended_retimed|by left].
Qed.
Lemma aged_retimed c1 c2 c3 : aged c1 c2 → retimed c2 c3 → aged c1 c3.
Proof. unfold aged, retimed. intros [<-|<-]; auto. Qed.

Lemma load_stores : loads file_stores (stopping load).
Proof.
  intros w. unfold stopping. pose proof (load_outcomes w) as Hl. destruct (load w) as [w' r]. simpl.
  assert (Hkeep : cf_main w' = cf_main w → unchanged file_stores w w').
  { intros Hmain o Ho. exists o. split; [by eapply same_main_stores|by left]. }
  destruct r as [[c'|]|e].
  - destruct Hl as (c & now & time & changed & _ & Hreads & Hlife & Hfile).
    pose proof (lifecycle_aged now time c) as Haged. rewrite Hlife in Haged. simpl in Haged.
    split; [|by exists c]. destruct changed; [|by apply Hkeep].
    destruct Hfile as (now' & _ & Hholds). intros o Ho. exists (Some c). split; [done|]. right.
    destruct o as [c''|]; simpl in Ho.
    + exists c, c''. split_and!; [done..|]. rewrite (file_holds_reads _ _ _ Hholds Ho).
      eapply aged_retimed; [done|apply stamped_retimed].
    + destruct Hholds as (? & ? & ? & _ & _ & _ & Hsome). by rewrite Ho in Hsome.
  - destruct Hl as [Hnone Hnone']. split; [|done]. apply Hkeep. by rewrite Hnone.
  - split; [by apply Hkeep|done].
Qed.

Lemma clear_stores : clears file_stores (stopping clear).
Proof.
  intros w. unfold stopping, clear. cbv [counted]. destruct (host_fails (cf_calls w)); intros o Ho.
  - right. by eapply same_main_stores.
  - left. destruct o as [c|]; [|done]. destruct Ho as (? & ? & ? & Hsome & _). done.
Qed.

(** The encrypted file of a workspace is a durable store, whatever
    calls of the system fail: a successful save is all that can be read afterwards,
    a failed one leaves the old or the new checkpoint, reading brings it at most up
    to date or to its end, and a successful clear leaves nothing. *)
Theorem checkpoint_file_is_durable :
  loads file_stores (stopping load) ∧ saves file_stores (λ c, stopping (save c)) ∧
  clears file_stores (stopping clear).
Proof. split_and!; [apply load_stores|apply save_stores|apply clear_stores]. Qed.
End file.
