(* ===== verification/FacadeSpec.v ===== *)
(** * FacadeSpec: what a call leaves in the store

    Specifications of the facade's calls over the durable adapter of
    [FacadeDurable].  A [Protocol] says which logs may come about and which
    checkpoints may be stored beside them; the calls that save, load, clear and
    adopt a checkpoint keep any protocol, and [FacadeOnce] and [FacadeTasks] each
    bring their own. *)

From S2P Require Import Prelude Text StateModel HostFs HostLogic FilesystemService Effects Json Policy PolicyDecision WorkflowCheckpoint Facade FacadeArguments FacadeRequests FacadeWorkflow FacadeCoding FacadeEntry FacadeDurable.
#[local] Open Scope N_scope.

(** ** Specifications of calls

    A call that ends with an error, or not at all, leaves a safe state. *)
Section spec.
Context {E S : Type} (safe : S → Prop).

Definition spec {X} (P : S → Prop) (m : eff S (result E X)) (Q : X → S → Prop) : Prop :=
  ∀ s, P s → match m s with (s', Some (Ok x)) => Q x s' | (s', _) => safe s' end.

Lemma spec_ret {X} (x : X) (P : S → Prop) (Q : X → S → Prop) :
  (∀ s, P s → Q x s) → spec P (mret (Ok x)) Q.
Proof. intros H s Hs. by apply H. Qed.
Lemma spec_fail {X} (e : E) (P : S → Prop) (Q : X → S → Prop) :
  (∀ s, P s → safe s) → spec P (mret (Err e)) Q.
Proof. intros H s Hs. by apply H. Qed.
Lemma spec_bind_ok {X Y} (m : eff S (result E X)) (k : X → eff S (result E Y)) P Q R :
  spec P m Q → (∀ x, spec (Q x) (k x) R) → spec P (bind_ok m k) R.
Proof.
  intros Hm Hk s Hs. specialize (Hm s Hs). unfold bind_ok, mbind, eff_bind.
  destruct (m s) as [s' [[x|e]|]]; [by apply Hk|done..].
Qed.
Lemma spec_weaken {X} (m : eff S (result E X)) (P P' : S → Prop) (Q Q' : X → S → Prop) :
  spec P m Q → (∀ s, P' s → P s) → (∀ x s, Q x s → Q' x s) → spec P' m Q'.
Proof.
  intros Hm HP HQ s Hs. specialize (Hm s (HP s Hs)). destruct (m s) as [s' [[x|e]|]]; auto.
Qed.
Lemma spec_answer {X} (r : result E X) (P : S → Prop) (Q : X → S → Prop) :
  (∀ x s, r = Ok x → P s → Q x s) → (∀ s, P s → safe s) → spec P (mret r) Q.
Proof. intros HQ HP s Hs. destruct r as [x|e]; simpl; auto. Qed.

(** A call that is followed whether it succeeds or fails. *)
Definition spec_any {X} (P : S → Prop) (m : eff S X) (Q : S → Prop) : Prop :=
  ∀ s, P s → match m s with (s', Some _) => Q s' | (s', None) => safe s' end.
Lemma spec_bind_any {X Y} (m : eff S X) (k : X → eff S (result E Y)) P Q R :
  spec_any P m Q → (∀ x, spec Q (k x) R) → spec P (m ≫= k) R.
Proof.
  intros Hm Hk s Hs. specialize (Hm s Hs). unfold mbind, eff_bind.
  destruct (m s) as [s' [x|]]; [by apply Hk|done].
Qed.
End spec.

Lemma lit_ne (s t : string) : bool_decide (lit s = lit t) = false → lit s ≠ lit t.
Proof. by intros Hne%bool_decide_eq_false. Qed.

(** ** Saving *)

Section kept.
Context `{Json}.
(** What [persist_agent_checkpoint] saves. *)
Definition kept c : WorkflowCheckpoint json :=
  let '(arguments, newly_redacted) := sanitize_workflow_arguments (wc_arguments c) in
  c <| wc_arguments := arguments |>
    <| wc_redacted_stdin_command_indices ::= λ l, sorted_indices (l ++ newly_redacted) |>.

(** Which logs may come about, and what may be stored beside one. *)
Record Protocol := MkProtocol {
  allowed : list Effect → Prop;
  view : option (WorkflowCheckpoint json) → list Effect → Prop;
  view_none log : view None log;
  view_aged c c' log : aged c c' → view (Some c) log → view (Some c') log;
  view_kept c log : view (Some c) log → view (Some (kept c)) log;
  view_owner c owner log :
    view (Some c) log → view (Some (c <| wc_owner_session_id := owner |>)) log
}.
End kept.

Section protocol.
Context `{Json} `{Encodings} {A : Type} `{!WorkspaceRuntimeAdapter A} `{!DurableAdapter A}.
Context (p : Protocol).
Implicit Types (c : WorkflowCheckpoint json) (w : A * list Effect).

Definition stored_as (V : option (WorkflowCheckpoint json) → Prop) w : Prop := ∀ o, stores w.1 o → V o.
(** Whatever can be read, now or after an interruption, fits the log. *)
Definition holding w : Prop := allowed p w.2 ∧ stored_as (λ o, view p o w.2) w.
#[local] Abbreviation safe := holding.

(** All that can be read is this checkpoint. *)
Definition saved c w : Prop := stored_as (λ o, ∃ c', o = Some c' ∧ retimed (kept c) c') w.
Lemma persist_spec c (Pre : A * list Effect → Prop) :
  (∀ w, Pre w → safe w ∧ view p (Some c) w.2) →
  spec safe Pre (persist_agent_checkpoint c) (λ _ w', (∃ w, Pre w ∧ w'.2 = w.2) ∧ saved c w').
Proof.
  intros HPre [a log] Hw. destruct (HPre _ Hw) as [[Hprefix Hstored] Hview]. simpl in *.
  unfold persist_agent_checkpoint. pose proof (save_durable (kept c) a) as Hsave.
  assert (Hkept : ∀ c', retimed (kept c) c' → view p (Some c') log).
  { intros c' Hc'. eapply view_aged; [by left|]. by apply view_kept. }
  unfold kept in *. destruct (sanitize_workflow_arguments (wc_arguments c)) as [arguments redacted] eqn:Hsanitized.
  unfold save_workflow_checkpoint at 1, logging_adapter, unlogged, lift_part. simpl.
  destruct (save_workflow_checkpoint _ a) as [a' r]. simpl in *.
  assert (Hsafe : safe (a', log)).
  { split; [done|]. intros o Ho. destruct (Hsave o Ho) as [(c' & -> & Hc')|Hold]; [by apply Hkept|].
    destruct r as [[]|]; [done| |]; by apply Hstored. }
  destruct r as [[[]|e]|]; [|exact Hsafe..].
  split; [by exists (a, log)|]. intros o Ho. destruct (Hsave o Ho) as [(c' & -> & Hc')|[]].
  exists c'. split; [done|]. unfold kept. by rewrite Hsanitized.
Qed.
Lemma saved_safe c w : allowed p w.2 → view p (Some c) w.2 → saved c w → safe w.
Proof.
  intros Hprefix Hview Hsaved. split; [done|]. intros o Ho. destruct (Hsaved o Ho) as (c' & -> & Hc').
  eapply view_aged; [by left|]. by apply view_kept.
Qed.

Definition stable (Pre : A * list Effect → Prop) : Prop :=
  ∀ a a' log, (∀ o, stores a' o → stores a o) → Pre (a, log) → Pre (a', log).
Lemma stable_safe : stable safe.
Proof. intros a a' log Hstores [Hprefix Hview]. split; [done|]. intros o Ho. by apply Hview, Hstores. Qed.
Hint Resolve stable_safe : core.

Lemma spec_unlogged {X} (m : call A X) (Pre : A * list Effect → Prop) :
  quiet stores m → stable Pre → (∀ w, Pre w → safe w) → spec safe Pre (unlogged m) (λ _, Pre).
Proof.
  intros Hquiet Hstable HPre [a log] Hw. specialize (Hquiet a).
  unfold unlogged, lift_part. simpl. destruct (m a) as [a' r]. simpl in Hquiet.
  assert (Pre (a', log)) by by eapply Hstable. destruct r as [[x|e]|]; auto.
Qed.

(** What holds of every state of a precondition. *)
Lemma spec_given {X} (φ : Prop) (Pre : A * list Effect → Prop) (m : call (A * list Effect) X) Q :
  (∀ w, Pre w → φ) → (φ → spec safe Pre m Q) → spec safe Pre m Q.
Proof. intros Hφ Hm w Hw. apply Hm; eauto. Qed.

Lemma clear_spec : spec safe safe clear_workflow_checkpoint (λ _ w, safe w).
Proof.
  intros [a log] [Hprefix Hstored]. pose proof (clear_durable a) as Hclear.
  unfold clear_workflow_checkpoint at 1, logging_adapter, unlogged, lift_part. simpl.
  destruct (clear_workflow_checkpoint a) as [a' r].
  assert (safe (a', log)).
  { split; [done|]. intros o Ho. destruct (Hclear o Ho) as [->|Hold]; [apply view_none|].
    destruct r as [[]|]; [done| |]; by apply Hstored. }
  by destruct r as [[]|].
Qed.
Lemma clear_log w : (clear_workflow_checkpoint w).1.2 = w.2.
Proof.
  destruct w as [a log]. unfold clear_workflow_checkpoint at 1, logging_adapter, unlogged, lift_part. simpl.
  by destruct (clear_workflow_checkpoint a) as [a' r].
Qed.

(** ** Loading, adopting, asking *)

(** A safe state with what is known of the log. *)
Definition with_log (φ : list Effect → Prop) w : Prop := safe w ∧ φ w.2.
Lemma stable_with_log φ : stable (with_log φ).
Proof. intros a a' log Hstores [Hsafe Hφ]. split; [by eapply stable_safe|done]. Qed.
Lemma with_log_safe φ w : with_log φ w → safe w.
Proof. by intros []. Qed.
(** A checkpoint that was read, and what it says. *)
Definition known c : A * list Effect → Prop := with_log (view p (Some c)).
Lemma stable_known c : stable (known c).
Proof. apply stable_with_log. Qed.
Lemma known_safe c w : known c w → safe w.
Proof. apply with_log_safe. Qed.
Hint Resolve stable_with_log with_log_safe stable_known known_safe : core.

Lemma load_with_log φ :
  spec safe (with_log φ) load_workflow_checkpoint
    (λ o w, with_log φ w ∧ match o with Some c => view p (Some c) w.2 | None => True end).
Proof.
  intros [a log] [[Hprefix Hstored] Hφ]. pose proof (load_durable a) as [Hunchanged Hloaded].
  unfold load_workflow_checkpoint at 1, logging_adapter, unlogged, lift_part. simpl.
  destruct (load_workflow_checkpoint a) as [a' r]. simpl in *.
  assert (Hsafe : safe (a', log)).
  { split; [done|]. intros o' Ho'. destruct (Hunchanged o' Ho') as (o & Ho & [->|(c & c' & -> & -> & Haged)]).
    - by apply Hstored.
    - eapply view_aged; [done|]. by apply (Hstored (Some c)). }
  destruct r as [[[c|]|e]|]; [|done..]. split; [done|].
  destruct Hloaded as (c0 & Hc0 & Haged). eapply view_aged; [done|]. by apply (Hstored (Some c0)).
Qed.
Lemma load_spec :
  spec safe safe load_workflow_checkpoint
    (λ o w, match o with Some c => known c w | None => safe w end).
Proof.
  eapply spec_weaken; [apply (load_with_log (λ _, True))|by intros w Hw|].
  intros [c|] w [[Hsafe _] Hview]; [by split|done].
Qed.

(** What is known of the log outlives a save. *)
Lemma persist_with_log φ c :
  (∀ log, allowed p log → φ log → view p (Some c) log) →
  spec safe (with_log φ) (persist_agent_checkpoint c) (λ _ w, with_log φ w ∧ saved c w).
Proof.
  intros Hφ. eapply spec_weaken; [apply (persist_spec c (with_log φ))|done|].
  - intros w [Hsafe Hw]. split; [done|]. apply Hφ; [apply Hsafe|done].
  - intros [] w [(w0 & [[Hallowed _] Hw] & Hlog) Hsaved]. rewrite <- Hlog in Hallowed, Hw.
    split; [|done]. split; [|done]. apply saved_safe with c; auto.
Qed.
(** What is started is written down first, and the store must allow it. *)
Lemma start_with_log {X} effect (m : call A X) (Pre : A * list Effect → Prop) φ :
  quiet stores m → (∀ w, Pre w → φ w.2 ∧ holding (w.1, w.2 ++ [effect])) →
  spec_any safe Pre (logged effect m) (with_log (λ log, ∃ log', φ log' ∧ log = log' ++ [effect])).
Proof.
  intros Hquiet HPre [a log] Hw. specialize (Hquiet a). destruct (HPre _ Hw) as [Hφ Hnext]. simpl in *.
  unfold logged, unlogged, lift_part, modify, mbind, eff_bind. simpl.
  destruct (m a) as [a' r]. simpl in Hquiet.
  assert (Hsafe : safe (a', log ++ [effect])) by by eapply stable_safe.
  destruct r as [r|]; [|done]. split; [done|]. by exists log.
Qed.

(** A change that leaves the steps alone. *)
Definition keeps_steps c c' : Prop := ∀ log, view p (Some c) log → view p (Some c') log.
Lemma persist_known c c' :
  keeps_steps c c' → spec safe (known c) (persist_agent_checkpoint c') (λ _, known c').
Proof.
  intros Hkeeps. eapply spec_weaken; [apply (persist_spec c' (known c))|done|].
  - intros w [Hsafe Hview]. auto.
  - intros [] w [(w0 & [[Hprefix _] Hview%Hkeeps] & Hlog) Hsaved]. rewrite <- Hlog in Hprefix, Hview.
    split; [by apply saved_safe with c'|done].
Qed.
Lemma keeps_owner c owner : keeps_steps c (c <| wc_owner_session_id := owner |>).
Proof. intros log. apply view_owner. Qed.
Lemma adopt_spec c owner adopter not_owned no_token token :
  spec safe (known c) (adopt_checkpoint c owner adopter not_owned no_token token) known.
Proof.
  unfold adopt_checkpoint. case_bool_decide; [by apply spec_ret|].
  destruct adopter as [session|]; [|apply spec_fail; by eauto].
  case_match; [apply spec_fail; by eauto|].
  eapply spec_bind_ok; [apply (spec_unlogged _ (known c)); [apply transfer_workflow_executions_quiet|by eauto..]|].
  intros []. eapply spec_bind_ok; [by apply persist_known, keeps_owner|]. intros []. by apply spec_ret.
Qed.
Lemma unlogged_keeps {X} (m : call A X) (Pre : A * list Effect → Prop) w :
  quiet stores m → stable Pre → Pre w → Pre (unlogged m w).1.
Proof.
  intros Hquiet Hstable Hw. specialize (Hquiet w.1). unfold unlogged, lift_part.
  destruct w as [a log]. simpl in *. destruct (m a) as [a' r]. by eapply Hstable.
Qed.
Lemma poll_spec session_id request_id (Pre : A * list Effect → Prop) :
  stable Pre → (∀ w, Pre w → safe w) → spec safe Pre (poll_command session_id request_id) (λ _, Pre).
Proof.
  intros Hstable HPre w Hw. unfold poll_command, mbind, eff_bind, get_state.
  pose proof (unlogged_keeps (control_command (A := A) ControlPoll
    (obj [("session_id", json_string session_id); ("wait_ms", jn 0)]) request_id) Pre w
    (poll_quiet _ _) Hstable Hw) as Hkeeps.
  unfold control_command at 1, logging_adapter.
  destruct (unlogged _ w) as [w' [[x|e]|]]; simpl in *; [done| |by eauto].
  case_bool_decide; simpl; eauto.
Qed.

Lemma git_status_spec path request_id (Pre : A * list Effect → Prop) :
  stable Pre → (∀ w, Pre w → safe w) → spec safe Pre (git_status path request_id) (λ _, Pre).
Proof. intros. apply spec_unlogged; [apply git_workflow_quiet|done..]. Qed.

Lemma baseline_spec c request_id (Pre : A * list Effect → Prop) :
  stable Pre → (∀ w, Pre w → safe w) →
  spec safe Pre (ensure_coding_git_baseline c request_id) (λ _, Pre).
Proof.
  intros Hstable HPre. unfold ensure_coding_git_baseline.
  case_match; [|by apply spec_ret]. case_match; [by apply spec_ret|].
  apply spec_bind_ok with (Q := λ _, Pre); [by apply spec_answer|]. intros original.
  eapply spec_bind_ok; [apply (spec_unlogged _ Pre); [apply project_context_quiet|done..]|]. intros project.
  apply spec_bind_ok with (Q := λ _, Pre); [by apply spec_answer|]. intros selected_path.
  eapply spec_bind_ok; [by apply (git_status_spec _ _ Pre)|]. intros current. cbv beta.
  case_match; [by apply spec_ret|by apply spec_fail].
Qed.

Lemma spec_keeps {X} (m : call (A * list Effect) X) w : spec safe safe m (λ _, safe) → safe w → safe (m w).1.
Proof. intros Hm Hw. specialize (Hm w Hw). by destruct (m w) as [w' [[x|e]|]]. Qed.
End protocol.
#[export] Hint Resolve stable_safe stable_known known_safe stable_with_log with_log_safe : core.
