(* ===== verification/FacadeOnce.v ===== *)
(** * FacadeOnce: no step of a workflow is started twice

    The steps of [agent_workflow] — directories, a patch, commands — and their
    resumptions, over the durable adapter of [FacadeDurable]: the invariant that
    ties the stored checkpoint to the log of what was started, and that every call
    keeps it, however it ends. *)

From S2P Require Import Prelude Text StateModel HostFs HostLogic FilesystemService HostExamples Effects Json Policy PolicyDecision WorkflowCheckpoint Facade FacadeArguments FacadeRequests FacadeWorkflow FacadeCoding FacadeEntry FacadeDurable FacadeSpec.
#[local] Open Scope N_scope.

(** ** The plan of a workflow *)

Section plan.
Context `{Json}.

Definition command_text (command : json) : ustr :=
  default [] (as_object command ≫= member_str "command").
(** What the arguments ask for. *)
Definition planned (directories : list (ustr * ustr)) (patch : option ustr) (texts : list ustr)
    (arguments : json) : Prop :=
  ∃ object commands, as_object arguments = Some object ∧
    parse_directory_changes object = Ok directories ∧ member_str "patch" object = patch ∧
    parse_commands object = Ok commands ∧ command_text <$> commands = texts.

Lemma sanitized_command command :
  command_text match as_object command with
               | Some command => json_object (delete (lit "stdin") command)
               | None => command
               end = command_text command.
Proof.
  unfold command_text. destruct (as_object command) as [m|] eqn:Hm; [|by rewrite Hm].
  rewrite as_object_object. simpl. unfold member_str.
  by rewrite lookup_delete_ne by by apply lit_ne.
Qed.

(** What is kept of the arguments asks for the same. *)
Lemma sanitize_planned D P T arguments :
  planned D P T arguments → planned D P T (sanitize_workflow_arguments arguments).1.
Proof.
  intros (object & commands & Hobject & HD & HP & Hcommands & HT).
  unfold sanitize_workflow_arguments. rewrite Hobject.
  destruct (object !! lit "commands" ≫= as_array) as [array|] eqn:Harray; [|by exists object, commands].
  simpl. set (sanitized := _ <$> array).
  exists (<[lit "commands" := json_array sanitized]> object), sanitized. split_and!.
  - by rewrite as_object_object.
  - unfold parse_directory_changes in *. by rewrite lookup_insert_ne by by apply lit_ne.
  - unfold member_str in *. by rewrite lookup_insert_ne by by apply lit_ne.
  - unfold parse_commands. by rewrite lookup_insert_eq, as_array_array.
  - unfold parse_commands in Hcommands. destruct (object !! lit "commands") as [v|]; [|done].
    simpl in Harray. rewrite Harray in Hcommands. simpl in Hcommands. injection Hcommands as <-.
    rewrite <- HT. unfold sanitized. rewrite <- list_fmap_compose. apply list_fmap_ext.
    intros i command _. apply sanitized_command.
Qed.
End plan.

Section once.
Context `{Json} `{Encodings} {A : Type} `{!WorkspaceRuntimeAdapter A} `{!DurableAdapter A}.
Context (D : list (ustr * ustr)) (P : option ustr) (T : list ustr).
Implicit Types (c : WorkflowCheckpoint json) (w : A * list Effect).

Definition directory_effect (change : ustr * ustr) : Effect := EffDirectory change.1 change.2.
Definition patch_effects : list Effect := EffPatch <$> option_list P.
Definition plan : list Effect := (directory_effect <$> D) ++ patch_effects ++ (EffCommand <$> T).
(** The log after [i] directories, the patch or not, and [j] commands. *)
Definition done_log (i : nat) (p : bool) (j : nat) : list Effect :=
  (directory_effect <$> take i D) ++ (if p then patch_effects else []) ++ (EffCommand <$> take j T).
Definition in_order (i : nat) (p : bool) (j : nat) : Prop :=
  (i ≤ length D)%nat ∧ (j ≤ length T)%nat ∧ (p = true → i = length D) ∧
  ((0 < j)%nat → i = length D ∧ (P = None ∨ p = true)).

Lemma take_prefix {X} n (l : list X) : take n l `prefix_of` l.
Proof. exists (drop n l). by rewrite take_drop. Qed.
Lemma prefix_fmap {X Y} (f : X → Y) l k : l `prefix_of` k → f <$> l `prefix_of` f <$> k.
Proof. intros [r ->]. exists (f <$> r). apply fmap_app. Qed.
Lemma done_log_prefix i p j : in_order i p j → done_log i p j `prefix_of` plan.
Proof.
  intros (Hi & Hj & Hp & Hpos). unfold done_log, plan.
  assert (Hcut : (i < length D)%nat → p = false ∧ j = 0%nat).
  { intros Hlt. split; [destruct p; [specialize (Hp eq_refl); lia|done]|].
    destruct j; [done|]. destruct Hpos; [lia|lia]. }
  destruct (decide (i = length D)) as [->|Hne].
  - rewrite firstn_all. apply prefix_app. destruct p; simpl.
    + apply prefix_app, prefix_fmap, take_prefix.
    + destruct j as [|j]; [apply prefix_nil|].
      destruct Hpos as [_ [HP|]]; [lia| |done]. unfold patch_effects. rewrite HP. simpl.
      apply prefix_fmap, take_prefix.
  - destruct Hcut as [-> ->]; [lia|]. simpl. rewrite app_nil_r.
    apply prefix_app_r, prefix_fmap, take_prefix.
Qed.

(** A step that may or may not have happened. *)
Definition uncertain c : bool :=
  wc_directory_inflight c || wc_patch_inflight c ||
  (wc_command_inflight c && negb (bool_decide (is_Some (wc_current_session_id c)))).
(** The commands that were started. *)
Definition started c : nat :=
  if bool_decide (is_Some (wc_current_session_id c)) then S (wc_command_index c) else wc_command_index c.
(** The checkpoint says exactly what was started. *)
Definition exact c (log : list Effect) : Prop :=
  uncertain c = false ∧ wc_command_inflight c = bool_decide (is_Some (wc_current_session_id c)) ∧
  in_order (wc_directory_index c) (wc_patch_applied c) (started c) ∧
  log = done_log (wc_directory_index c) (wc_patch_applied c) (started c).
Definition ours c : Prop := is_coding_task c = false ∧ planned D P T (wc_arguments c).
(** What may be stored. *)
Definition workflow_view (o : option (WorkflowCheckpoint json)) (log : list Effect) : Prop :=
  match o with
  | None => True
  | Some c => wc_completed c = true ∨ ours c ∧ (uncertain c = true ∨ exact c log)
  end.

Lemma workflow_aged c c' log : aged c c' → workflow_view (Some c) log → workflow_view (Some c') log.
Proof.
  unfold aged, retimed. intros [Ht|Ht] Hv.
  - destruct c, c'. cbn in Ht. injection Ht as -> -> -> -> -> -> -> -> -> -> -> -> -> -> -> -> -> -> -> -> -> -> -> -> -> -> -> -> ->.
    exact Hv.
  - left. apply (f_equal wc_completed) in Ht. by destruct c, c'.
Qed.
Lemma workflow_kept c log : workflow_view (Some c) log → workflow_view (Some (kept c)) log.
Proof.
  pose proof (sanitize_planned D P T (wc_arguments c)) as Hplanned.
  unfold workflow_view, ours, kept. destruct (sanitize_workflow_arguments (wc_arguments c)) as [arguments redacted].
  destruct c. cbn in *. intros [?|[[? ?] ?]]; [by left|right]. split; [|done]. split; [done|]. by apply Hplanned.
Qed.
Lemma workflow_owner c owner log :
  workflow_view (Some c) log → workflow_view (Some (c <| wc_owner_session_id := owner |>)) log.
Proof. by destruct c. Qed.
Definition workflow_protocol : Protocol := {|
  allowed log := log `prefix_of` plan;
  view := workflow_view;
  view_none _ := I;
  view_aged := workflow_aged;
  view_kept := workflow_kept;
  view_owner := workflow_owner
|}.
#[local] Abbreviation safe := (holding (A := A) workflow_protocol).

(** ** The states of a run *)

(** Between two steps: the checkpoint in memory is what was done. *)
Definition resting c : Prop :=
  wc_completed c = false ∧ ours c ∧ wc_directory_inflight c = false ∧ wc_patch_inflight c = false ∧
  wc_command_inflight c = false ∧ wc_current_session_id c = None ∧
  in_order (wc_directory_index c) (wc_patch_applied c) (wc_command_index c).
Definition log_of c : list Effect :=
  done_log (wc_directory_index c) (wc_patch_applied c) (wc_command_index c).
Definition at_rest c w : Prop := resting c ∧ w.2 = log_of c ∧ safe w.
Lemma resting_exact c : resting c → exact c (log_of c).
Proof.
  unfold exact, started, log_of, uncertain. intros (_ & _ & Hd & Hp & Hi & Hs & Ho). by rewrite Hd, Hp, Hi, Hs.
Qed.
(** During a step: the store says that something may have happened. *)
Definition pending (log : list Effect) w : Prop :=
  w.2 = log ∧ log `prefix_of` plan ∧
  stored_as (λ o, ∃ c, o = Some c ∧ ours c ∧ uncertain c = true) w.

Lemma stable_at_rest c : stable (at_rest c).
Proof.
  intros a a' log Hstores (? & ? & Hsafe). split_and!; try done. by eapply stable_safe.
Qed.
Lemma pending_safe log w : pending log w → safe w.
Proof.
  intros (<- & Hprefix & Hstored). split; [done|]. intros o Ho.
  destruct (Hstored o Ho) as (c & -> & Hours & Huncertain). right. auto.
Qed.
Lemma at_rest_safe c w : at_rest c w → safe w.
Proof. by intros (_ & _ & Hsafe). Qed.
Lemma at_rest_view c w : at_rest c w → workflow_view (Some c) w.2.
Proof.
  intros (Hc & -> & _). pose proof (resting_exact c Hc). destruct Hc as (_ & ? & _). right. auto.
Qed.
Hint Resolve stable_at_rest at_rest_safe pending_safe at_rest_view : core.

Lemma spec_logged {X} (effect : Effect) (m : call A X) log :
  quiet stores m → log ++ [effect] `prefix_of` plan →
  spec safe (pending log) (logged effect m) (λ _, pending (log ++ [effect])).
Proof.
  intros Hquiet Hprefix [a log'] (<- & _ & Hstored). specialize (Hquiet a).
  unfold logged, unlogged, lift_part, modify, mbind, eff_bind. simpl.
  destruct (m a) as [a' r]. simpl in Hquiet.
  assert (Hpending : pending (log' ++ [effect]) (a', log' ++ [effect])).
  { split_and!; try done. intros o Ho. by apply Hstored, Hquiet. }
  destruct r as [[x|e]|]; [done|by eapply pending_safe..].
Qed.

Lemma retimed_kept c c' : retimed (kept c) c' → ours c → ours c' ∧ uncertain c' = uncertain c.
Proof.
  unfold retimed, kept, ours. intros Hc [Hcoding Hplanned%sanitize_planned].
  destruct (sanitize_workflow_arguments (wc_arguments c)) as [arguments redacted].
  destruct c, c'. cbn in Hc, Hcoding, Hplanned. injection Hc. intros. subst. split; [split|]; done.
Qed.

(** A step begins: the store becomes uncertain. *)
Lemma begin_step f c :
  uncertain (f c) = true → (ours c → ours (f c)) →
  spec safe (at_rest c) (update f (Some c)) (λ r w, r = Some (f c) ∧ pending (log_of c) w).
Proof.
  intros Huncertain Hours. unfold update. eapply spec_bind_ok.
  - apply persist_spec. intros w Hw. split; [by eauto|]. right. destruct Hw as ((_ & ? & _) & _). auto.
  - intros []. apply spec_ret. intros w [(w0 & Hw0 & Hlog) Hsaved]. split; [done|].
    destruct Hw0 as ((_ & Hc & _) & Hw0 & [Hprefix _]). rewrite <- Hlog in Hw0, Hprefix. rewrite <- Hw0.
    split_and!; [done..|]. intros o Ho. destruct (Hsaved o Ho) as (c' & -> & Hc').
    exists c'. split; [done|]. rewrite <- Huncertain. apply retimed_kept; auto.
Qed.
(** A step ends: what it came to is recorded. *)
Lemma record_step g c log :
  workflow_view (Some (g c)) log →
  spec safe (pending log) (update g (Some c)) (λ r w, r = Some (g c) ∧ w.2 = log ∧ safe w).
Proof.
  intros Hview. unfold update. eapply spec_bind_ok.
  - apply persist_spec. intros w Hw. split; [by eauto|]. by destruct Hw as (-> & _).
  - intros []. apply spec_ret. intros w [(w0 & (Hw0 & Hprefix & _) & Hlog) Hsaved].
    rewrite <- Hlog in Hw0. subst log. split_and!; [done..|]. by apply (saved_safe _ (g c)).
Qed.
Lemma end_step g c log :
  resting (g c) → log_of (g c) = log →
  spec safe (pending log) (update g (Some c)) (λ r w, r = Some (g c) ∧ at_rest (g c) w).
Proof.
  intros Hresting Hlog.
  eapply spec_weaken; [apply (record_step g c log)|done|].
  - rewrite <- Hlog. pose proof (resting_exact _ Hresting). destruct Hresting as (_ & ? & _). right. auto.
  - cbv beta. intros r w (-> & <- & Hsafe). done.
Qed.
(** The two ways of running make sure that a failure is final. *)
Implicit Types run : Run (A := A * list Effect).
Definition running run : Prop := run = first_run ∨ ∃ c0, run = resumption c0.
Lemma terminalize_spec c code : spec safe safe (terminalize_legacy_checkpoint_failure (Some c) code) (λ _, safe).
Proof.
  unfold terminalize_legacy_checkpoint_failure, update. eapply (spec_bind_ok _ _ _ _ (λ _, safe)).
  - eapply spec_bind_ok.
    + apply persist_spec. intros w Hw. split; [done|]. left. by destruct c.
    + intros []. apply spec_ret. intros w [(w0 & [Hprefix _] & Hlog) Hsaved]. rewrite <- Hlog in Hprefix.
      apply (saved_safe workflow_protocol _ w Hprefix) with (2 := Hsaved). left. by destruct c.
  - intros r. by apply spec_ret.
Qed.
Lemma attempt_spec run {X Y} c (m : eff (A * list Effect) (result FacadeError X))
    (k : X → eff (A * list Effect) (result FacadeError Y)) Pre Q R :
  running run → spec safe Pre m Q → (∀ x, spec safe (Q x) (k x) R) →
  spec safe Pre (attempt run (Some c) m k) R.
Proof.
  intros [->|[c0 ->]] Hm Hk; [|by eapply spec_bind_ok].
  intros w Hw. specialize (Hm w Hw). simpl. unfold legacy_try, mbind, eff_bind.
  destruct (m w) as [w' [[x|e]|]]; [by apply Hk| |done].
  pose proof (terminalize_spec c (lit (code_str (fe_code e))) w' Hm) as Hend.
  unfold bind_ok, mbind, eff_bind.
  destruct (terminalize_legacy_checkpoint_failure _ _ w') as [w'' [[]|]]; exact Hend.
Qed.
Lemma command_error_spec run c failed : running run → spec safe safe (on_command_error run (Some c) failed) (λ _, safe).
Proof. intros [->|[c0 ->]]; [apply terminalize_spec|apply clear_spec]. Qed.
(** ** The steps *)

Lemma done_directory i change p j :
  D !! i = Some change → in_order i p j → p = false ∧ j = 0%nat ∧ in_order (S i) p j ∧
  done_log (S i) p j = done_log i p j ++ [directory_effect change].
Proof.
  intros Hi (_ & Hj & Hp & Hpos). apply lookup_lt_Some in Hi as Hlt.
  assert (p = false) as ->. { destruct p; [specialize (Hp eq_refl); lia|done]. }
  assert (j = 0%nat) as ->. { destruct j; [done|]. destruct Hpos; lia. }
  split_and!; [done..| |].
  - split_and!; [lia..|done|lia].
  - unfold done_log. rewrite (take_S_r _ _ _ Hi), fmap_app. simpl. by rewrite !app_nil_r.
Qed.

Lemma run_directories_spec run count pending_patch left i changes c results :
  running run → changes = drop i D → wc_directory_index c = i →
  spec safe (at_rest c) (run_directories run count pending_patch left i changes (Some c) results)
    (λ r w, ∃ c', r.1 = Some c' ∧ at_rest c' w ∧ wc_directory_index c' = length D ∧
       wc_patch_applied c' = wc_patch_applied c ∧ wc_command_index c' = wc_command_index c).
Proof.
  intros Hrun. revert i c results. induction changes as [|change changes IH]; intros i c results Hchanges Hindex.
  - apply spec_ret. intros w Hw. exists c. split_and!; try done.
    destruct Hw as ((_ & _ & _ & _ & _ & _ & Horder & _) & _).
    assert (length (drop i D) = 0%nat) as Hlen by by rewrite <- Hchanges. rewrite length_drop in Hlen. lia.
  - eapply (spec_given _ (resting c)); [by intros w []|]. intros Hresting.
    assert (Hi : D !! i = Some change) by by rewrite <- (Nat.add_0_r i), <- lookup_drop, <- Hchanges.
    assert (Hnext : changes = drop (S i) D) by (rewrite <- Nat.add_1_r, <- drop_drop, <- Hchanges; done).
    pose proof Hresting as (Hdone & Hours & Hdir & Hpatch & Hinflight & Hsession & Horder).
    rewrite Hindex in Horder. destruct (done_directory _ _ _ _ Hi Horder) as (Hp & Hj & Horder' & Hlog).
    destruct change as [action path].
    assert (Hnow : done_log (S i) (wc_patch_applied c) (wc_command_index c) = log_of c ++ [EffDirectory action path])
      by (unfold log_of; by rewrite Hindex).
    cbn [run_directories]. eapply spec_bind_ok.
    + apply begin_step; by destruct c.
    + intros c1. cbv beta. eapply (spec_given _ (c1 = Some _)); [by intros w [-> _]|]. intros ->.
      eapply attempt_spec; [done| |].
      * eapply spec_weaken; [apply spec_logged; [apply apply_directory_change_quiet|]|by intros w []|done].
        rewrite <- Hnow. by apply done_log_prefix.
      * intros result. eapply spec_bind_ok.
        -- apply end_step; [|rewrite <- Hnow; by destruct c].
           unfold resting, ours in *. destruct c. cbn in *. tauto.
        -- intros c2. cbv beta. eapply (spec_given _ (c2 = Some _)); [by intros w [-> _]|]. intros ->.
           eapply spec_weaken; [apply IH; [done|]|by intros w [_ Hw]|]; [by destruct c|].
           intros r w (c' & ? & ? & ? & Hp' & Hj'). by exists c'.
Qed.
Lemma done_patch patch p j :
  P = Some patch → p = false → in_order (length D) p j →
  j = 0%nat ∧ in_order (length D) true j ∧
  done_log (length D) true j = done_log (length D) p j ++ [EffPatch patch].
Proof.
  intros HP -> (_ & Hj & _ & Hpos).
  assert (j = 0%nat) as ->. { destruct j; [done|]. destruct Hpos as [_ [|]]; [lia|congruence|done]. }
  split_and!; [done| |].
  - split_and!; [lia..|done|lia].
  - unfold done_log, patch_effects. rewrite HP. simpl. by rewrite app_nil_r.
Qed.
Lemma patch_argument patch :
  default [] (get_str (lit "patch") (obj [("patch", json_string patch); ("dry_run", json_bool false)])) = patch.
Proof. unfold get_str. rewrite get_obj. simpl. rewrite lookup_insert_eq. simpl. by rewrite as_str_string. Qed.

(** The steps before the commands are done. *)
Definition ready c : Prop := wc_directory_index c = length D ∧ (P = None ∨ wc_patch_applied c = true).

Lemma run_patch_spec run left request_id c :
  running run → wc_directory_index c = length D →
  spec safe (at_rest c)
    (run_patch run (if wc_patch_applied c then None else P) left request_id (Some c))
    (λ r w, ∃ c', r = Some c' ∧ at_rest c' w ∧ ready c' ∧ wc_command_index c' = wc_command_index c).
Proof.
  intros Hrun Hindex.
  assert (Hready : ready c → spec safe (at_rest c) (run_patch run None left request_id (Some c))
    (λ r w, ∃ c', r = Some c' ∧ at_rest c' w ∧ ready c' ∧ wc_command_index c' = wc_command_index c)).
  { intros Hready. apply spec_ret. intros w Hw. by exists c. }
  destruct (wc_patch_applied c) eqn:Happlied; [apply Hready; unfold ready; auto|].
  assert ((∃ patch, P = Some patch) ∨ P = None) as [[patch HP]|HP] by (destruct P; eauto); rewrite HP;
    [|apply Hready; unfold ready; auto]. clear Hready.
  eapply (spec_given _ (resting c)); [by intros w []|]. intros Hresting.
  pose proof Hresting as (Hdone & Hours & Hdir & Hpatch & Hinflight & Hsession & Horder).
  rewrite Hindex in Horder. destruct (done_patch _ _ _ HP Happlied Horder) as (Hj & Horder' & Hlog).
  assert (Hnow : done_log (length D) true (wc_command_index c) = log_of c ++ [EffPatch patch])
    by (unfold log_of; by rewrite Hindex).
  cbn [run_patch]. apply attempt_spec with (Q := λ _, at_rest c); [done| |intros []].
  { case_match; [by apply spec_ret|apply spec_fail; by eauto]. }
  eapply spec_bind_ok; [apply begin_step; [unfold uncertain|]; destruct c; cbn; rewrite ?orb_true_r; done|]. intros c1. cbv beta.
  eapply (spec_given _ (c1 = Some _)); [by intros w [-> _]|]. intros ->.
  eapply attempt_spec; [done| |intros result].
  - eapply spec_weaken; [apply spec_logged; [apply apply_workflow_patch_quiet|]|by intros w []|done].
    rewrite patch_argument, <- Hnow. by apply done_log_prefix.
  - eapply spec_weaken; [apply (end_step _ _ (done_log (length D) true (wc_command_index c)))| |].
    + unfold resting, ours in *. destruct c. cbn in *. subst. tauto.
    + rewrite <- Hindex. by destruct c.
    + intros w. by rewrite patch_argument, <- Hnow.
    + cbv beta. intros r w [-> Hw]. eexists. split_and!; [done|exact Hw| |done].
      split; [by destruct c|]. by right.
Qed.

Lemma done_command i p j text :
  T !! j = Some text → i = length D → (P = None ∨ p = true) → in_order i p j →
  in_order i p (S j) ∧ done_log i p (S j) = done_log i p j ++ [EffCommand text].
Proof.
  intros Hj -> Hp (Hi & _ & Hp' & _). apply lookup_lt_Some in Hj as Hlt. split.
  - split_and!; [lia..|done|done].
  - unfold done_log. rewrite (take_S_r _ _ _ Hj), fmap_app. simpl. by rewrite <- !app_assoc.
Qed.
Lemma done_all p : P = None ∨ p = true → done_log (length D) p (length T) = plan.
Proof.
  intros Hp. unfold done_log, plan. rewrite !firstn_all.
  destruct p; [done|]. destruct Hp as [HP|]; [|done]. unfold patch_effects. by rewrite HP.
Qed.

(** How the commands may end. *)
Definition commands_end (e : CommandsEnd) w : Prop :=
  match e with
  | CommandFailed failed => is_error failed = true ∧ safe w
  | CommandRunning checkpoint _ => is_Some checkpoint ∧ safe w
  | CommandsDone checkpoint _ => ∃ c, checkpoint = Some c ∧ at_rest c w ∧ w.2 = plan
  end.

Lemma run_commands_spec run context selected_path count j commands c results :
  running run → command_text <$> commands = drop j T → wc_command_index c = j → ready c →
  spec safe (at_rest c) (run_commands run context selected_path count j commands (Some c) results) commands_end.
Proof.
  intros Hrun. revert j c results.
  induction commands as [|command commands IH]; intros j c results Htexts Hindex Hready.
  { apply spec_ret. intros w Hw. exists c. split_and!; [done..|]. destruct Hw as (Hresting & Hlog & _).
    destruct Hresting as (_ & _ & _ & _ & _ & _ & _ & Hj & _). destruct Hready as [Hi Hp].
    assert (length (drop j T) = 0%nat) as Hlen by by rewrite <- Htexts. rewrite length_drop in Hlen.
    assert (wc_command_index c = length T) as Hall by lia.
    rewrite Hlog. unfold log_of. rewrite Hi, Hall. by apply done_all. }
  cbn [run_commands]. case_match eqn:Hredacted; [apply spec_fail; by eauto|].
  assert (Hj : T !! j = Some (command_text command)) by by rewrite <- (Nat.add_0_r j), <- lookup_drop, <- Htexts.
  assert (Hnext : command_text <$> commands = drop (S j) T)
    by (rewrite <- Nat.add_1_r, <- drop_drop, <- Htexts; done).
  eapply (spec_given _ (resting c)); [by intros w []|]. intros Hresting.
  pose proof Hresting as (Hdone & Hours & Hdir & Hpatch & Hinflight & Hsession & Horder).
  destruct Hready as [Hi Hp].
  destruct (done_command _ _ _ _ Hj Hi Hp) as [Horder' Hlog]; [by rewrite <- Hindex|].
  assert (Hnow : done_log (wc_directory_index c) (wc_patch_applied c) (S j) = log_of c ++ [EffCommand (command_text command)])
    by (unfold log_of; by rewrite Hindex).
  apply attempt_spec with (Q := λ m w, at_rest c w ∧ as_object command = Some m); [done| |].
  { unfold object_args. apply spec_answer; [|by eauto]. intros m w. by destruct (as_object command) as [m'|]; [intros [= ->]|]. }
  intros members. eapply (spec_given _ (as_object command = Some members)); [by intros w []|]. intros Hmembers.
  apply attempt_spec with (Q := λ text w, at_rest c w ∧ text = command_text command); [done| |].
  { apply spec_answer; [|intros w []; by eauto]. intros text w Htext [Hw _]. split; [done|].
    unfold command_text. rewrite Hmembers. unfold required_string in Htext. simpl.
    by destruct (member_str "command" members) as [[]|]; [|injection Htext as <-|]. }
  intros text. eapply (spec_given _ (text = _)); [by intros w []|]. intros ->.
  apply attempt_spec with (Q := λ _, at_rest c); [done|by apply spec_answer; [|intros w []; by eauto]; intros ? w _ []|].
  intros shell.
  apply attempt_spec with (Q := λ _, at_rest c); [done|case_match; [by apply spec_ret|apply spec_fail; by eauto]|].
  intros _.
  apply attempt_spec with (Q := λ _, at_rest c); [done| |].
  { unfold resolve_project_workdir. case_match; [apply spec_fail; by eauto|].
    apply spec_unlogged; [apply normalize_workspace_path_quiet|by eauto..]. }
  intros cwd. eapply spec_bind_ok.
  { apply begin_step; [unfold uncertain|]; destruct c; cbn; rewrite ?orb_true_r; done. }
  intros c1. cbv beta. eapply (spec_given _ (c1 = Some _)); [by intros w [-> _]|]. intros ->.
  set (log := done_log (wc_directory_index c) (wc_patch_applied c) (S j)) in *.
  assert (Hprefix : log `prefix_of` plan) by by apply done_log_prefix.
  apply attempt_spec with (Q := λ _, pending log); [done| |].
  { rewrite Hnow. eapply spec_weaken; [apply spec_logged; [apply execute_shell_quiet|]|by intros w []|done].
    cbn. by rewrite <- Hnow. }
  intros result. destruct (is_error result) eqn:Herror.
  { eapply spec_bind_ok; [eapply spec_weaken; [by apply command_error_spec|by eauto|done]|].
    intros []. by apply spec_ret. }
  case_bool_decide.
  - eapply attempt_spec; [done| |].
    + apply spec_answer with (Q := λ _, pending log); [done|by eauto].
    + intros session_id. eapply spec_bind_ok; [apply (record_step _ _ log)|].
      * right. split; [by unfold ours in *; destruct c|]. right.
        unfold exact, uncertain, started. destruct c. cbn in *. subst. done.
      * intros c2. apply spec_ret. intros w (-> & _ & Hw). done.
  - eapply spec_bind_ok; [apply (end_step _ _ log)|].
    + unfold resting, ours in *. destruct c. cbn in *. tauto.
    + unfold log, log_of. by destruct c.
    + intros c2. cbv beta. eapply (spec_given _ (c2 = Some _)); [by intros w [-> _]|]. intros ->.
      eapply spec_weaken; [apply IH; [done|..]|by intros w []|done]; [by destruct c|]. unfold ready. by destruct c.
Qed.
(** ** Resuming *)

(** A checkpoint that says exactly what was done, perhaps with a command that runs. *)
Definition waiting c w : Prop := wc_completed c = false ∧ ours c ∧ exact c w.2 ∧ safe w.
Lemma stable_waiting c : stable (waiting c).
Proof. intros a a' log Hstores (? & ? & ? & Hsafe). split_and!; try done. by eapply stable_safe. Qed.
Lemma waiting_safe c w : waiting c w → safe w.
Proof. by intros (_ & _ & _ & Hsafe). Qed.
Hint Resolve stable_waiting waiting_safe : core.

Lemma certain_flags c : uncertain c = false → wc_directory_inflight c = false ∧ wc_patch_inflight c = false.
Proof. unfold uncertain. intros [[]%orb_false_iff _]%orb_false_iff. done. Qed.
Lemma waiting_rest c w : waiting c w → wc_current_session_id c = None → at_rest c w.
Proof.
  intros (Hdone & Hours & (Hcertain & Hinflight & Horder & Hlog) & Hsafe) Hsession.
  unfold started in *. rewrite Hsession in *. destruct (certain_flags c Hcertain). split_and!; done.
Qed.
Lemma waiting_completed c session_id data w :
  waiting c w → wc_current_session_id c = Some session_id →
  resting (session_completed data c) ∧ w.2 = log_of (session_completed data c).
Proof.
  intros (Hdone & Hours & (Hcertain & Hinflight & Horder & Hlog) & Hsafe) Hsession.
  unfold started in *. rewrite Hsession in *. destruct (certain_flags c Hcertain).
  unfold resting, ours, log_of in *. destruct c. cbn in *. split; [tauto|done].
Qed.

Lemma settle_running_spec c original workspace project git_before request_id :
  spec safe (waiting c) (settle_running c original workspace project git_before request_id)
    (λ r w, match r with inl _ => safe w | inr c' => at_rest c' w end).
Proof.
  unfold settle_running. destruct (wc_current_session_id c) as [session_id|] eqn:Hsession.
  2: { apply spec_ret. intros w Hw. by apply waiting_rest. }
  eapply spec_bind_ok; [apply (poll_spec _ _ _ (waiting c)); by eauto|]. intros polled. cbv beta.
  case_match; [apply spec_ret; by eauto|]. case_match; [apply spec_ret; by eauto|].
  case_match; [|apply spec_fail; by eauto].
  eapply spec_bind_ok; [apply (persist_spec _ _ (waiting c))|].
  - intros w Hw. destruct (waiting_completed c session_id (stable_data polled) w Hw Hsession) as [Hresting ->].
    split; [by eauto|]. right. split; [apply Hresting|]. right. by apply resting_exact.
  - intros []. apply spec_ret. intros w [(w0 & Hw0 & Hlog) Hsaved].
    destruct (waiting_completed c session_id (stable_data polled) w0 Hw0 Hsession) as [Hresting Hlog'].
    rewrite <- Hlog in Hlog'. assert (Hprefix : w.2 `prefix_of` plan).
    { rewrite Hlog. by destruct (waiting_safe _ _ Hw0). }
    split_and!; [done..|]. apply (saved_safe _ _ _) with (3 := Hsaved); [done|].
    rewrite Hlog'. right. split; [apply Hresting|]. right. by apply resting_exact.
Qed.

Lemma resume_workflow_spec context c original :
  as_object (wc_arguments c) = Some original →
  spec safe (waiting c) (resume_workflow context c original) (λ _, safe).
Proof.
  intros Horiginal. eapply (spec_given _ (ours c)); [by intros w (_ & Hc & _)|]. intros [_ Hplanned].
  destruct Hplanned as (object & commands & Hobject & HD & HP & Hcommands & HT).
  rewrite Horiginal in Hobject. injection Hobject as <-.
  unfold resume_workflow. rewrite HP.
  eapply spec_bind_ok; [apply (spec_unlogged _ _ (waiting c)); [apply project_context_quiet|by eauto..]|].
  intros project. cbv beta.
  apply spec_bind_ok with (Q := λ _, waiting c); [by apply spec_answer; [|eauto]|]. intros selected_path.
  apply spec_bind_ok with (Q := λ d w, waiting c w ∧ d = D).
  { rewrite HD. by apply spec_ret. }
  intros directories. eapply (spec_given _ (directories = D)); [by intros w []|]. intros ->.
  apply spec_bind_ok with (Q := λ l w, waiting c w ∧ l = commands).
  { rewrite Hcommands. apply spec_ret. by intros w []. }
  intros l. eapply (spec_given _ (l = commands)); [by intros w []|]. intros ->.
  case_match; [apply spec_fail; intros w []; by eauto|].
  eapply spec_weaken with (P := waiting c); [|by intros w []|by intros ? ? Hw; exact Hw].
  eapply spec_bind_ok; [apply (spec_unlogged _ _ (waiting c)); [apply workspace_context_quiet|by eauto..]|].
  intros workspace. cbv beta.
  eapply spec_bind_ok; [apply (git_status_spec _ _ _ (waiting c)); by eauto|]. intros git_before. cbv beta.
  eapply spec_bind_ok; [apply settle_running_spec|]. intros [answer|c']; [by apply spec_ret|].
  assert (Hrun : running (resumption c')) by (right; eauto).
  eapply spec_bind_ok; [by apply run_directories_spec|]. intros [o results]. cbn [fst].
  intros w (c1 & -> & Hc1 & Hindex & Hpatch & Hcommand). revert w Hc1.
  eapply spec_bind_ok; [rewrite <- Hpatch; by apply run_patch_spec|].
  intros o w (c2 & -> & Hc2 & Hready & Hcommand2). revert w Hc2.
  eapply spec_bind_ok; [apply run_commands_spec|].
  - done.
  - by rewrite fmap_drop, HT.
  - congruence.
  - done.
  - intros [failed|checkpoint command_results|checkpoint command_results]; [by apply spec_ret; intros w []| |].
    + apply spec_ret. by intros w [_ Hw].
    + eapply spec_weaken with (P := safe); [|intros w (c3 & _ & Hc3 & _); by eauto|by intros ? ? Hw; exact Hw].
      eapply spec_bind_ok; [apply (git_status_spec _ _ _ safe); by eauto|]. intros git_after. cbv beta.
      eapply spec_bind_ok; [apply clear_spec|]. intros []. by apply spec_ret.
Qed.
(** A completed coding task answers and changes nothing. *)
Lemma resume_completed_spec c request_id :
  wc_completed c = true → spec safe safe (resume_coding_task c request_id) (λ _, safe).
Proof.
  intros Hdone. unfold resume_coding_task. rewrite Hdone. case_match; [by apply spec_fail|by apply spec_ret].
Qed.
(** A checkpoint that is read either is at its end, or is ours and certain or not. *)
Lemma known_cases c w :
  known workflow_protocol c w → wc_completed c = true ∨ wc_completed c = false ∧ ours c ∧ (uncertain c = true ∨ waiting c w).
Proof.
  intros [Hsafe [Hdone|[Hours [Hu|Hexact]]]]; destruct (wc_completed c) eqn:Hdone'; auto; right; auto.
  split_and!; try done. right. by split_and!.
Qed.

Lemma resume_agent_workflow_spec policy mode context durable_task_id token :
  spec safe safe (resume_agent_workflow policy mode context durable_task_id token) (λ _, safe).
Proof.
  unfold resume_agent_workflow. eapply spec_bind_ok; [apply load_spec|]. intros [c0|]; [|by apply spec_fail].
  case_match; [apply spec_fail; by eauto|].
  eapply spec_bind_ok; [apply adopt_spec|]. intros c. cbv beta.
  apply spec_bind_ok with (Q := λ original w, known workflow_protocol c w ∧ as_object (wc_arguments c) = Some original).
  { apply spec_answer; [|by eauto]. unfold workflow_object_args. intros original w.
    by destruct (as_object (wc_arguments c)); [intros [= ->]|]. }
  intros original. eapply (spec_given _ (as_object (wc_arguments c) = Some original)); [by intros w []|]. intros Horiginal.
  eapply spec_weaken with (P := known workflow_protocol c); [|by intros w []|by intros ? ? Hw; exact Hw].
  apply spec_bind_ok with (Q := λ _, known workflow_protocol c); [by apply spec_answer; [|eauto]|]. intros action.
  destruct (bool_decide (action = _)); [apply spec_fail; by eauto|].
  destruct (negb (pd_allowed _)); [apply spec_fail; by eauto|].
  intros w Hw. pose proof (known_safe _ _ _ Hw) as Hsafe.
  destruct (known_cases c w Hw) as [Hdone|(Hdone & [Hcoding Hplanned] & Hcase)].
  - assert (Hcompleted : spec safe safe (resume_coding_task c (cx_request_id context)) (λ _, safe))
      by by apply resume_completed_spec.
    destruct (is_coding_task c); [|rewrite Hdone; exact Hsafe].
    revert w Hw Hsafe. intros w _. revert w. eapply spec_bind_ok; [apply (baseline_spec _ _ _ safe); by eauto|]. intros [].
    rewrite Hdone, !andb_false_r. by destruct (wc_next_step c).
  - rewrite Hcoding, Hdone. unfold uncertain in Hcase.
    destruct (wc_directory_inflight c || wc_patch_inflight c) eqn:Hfiles; [exact Hsafe|].
    destruct (wc_command_inflight c && _) eqn:Hcommand; [exact Hsafe|].
    destruct Hcase as [|Hwaiting]; [done|]. by apply (resume_workflow_spec context c original Horiginal).
Qed.

(** The end of a command that is reported later. *)
Lemma settle_known c session_id data c' w :
  known workflow_protocol c w → wc_completed c = false → wc_current_session_id c = Some session_id →
  settle_terminal data c = Some c' → workflow_view (Some c') w.2.
Proof.
  intros Hw Hdone Hsession. unfold settle_terminal.
  case_match; [|case_match; [|case_match; [|done]]].
  2, 3: intros [= <-]; left; by destruct c.
  destruct (known_cases c w Hw) as [|(_ & [Hcoding Hplanned] & Hcase)]; [congruence|].
  assert (is_coding_task (session_completed data c <| wc_failure := None |>) = false) as -> by by destruct c.
  intros [= <-]. right. destruct Hcase as [Huncertain|Hwaiting].
  - split; [by destruct c|left]. unfold uncertain in *. rewrite Hsession in Huncertain. simpl in Huncertain.
    rewrite andb_false_r, orb_false_r in Huncertain. destruct c. cbn in *. by rewrite Huncertain.
  - destruct (waiting_completed c session_id data w Hwaiting Hsession) as [Hresting Hlog].
    assert (Hresting' : resting (session_completed data c <| wc_failure := None |>)) by by destruct c.
    split; [apply Hresting'|right]. rewrite Hlog. apply resting_exact in Hresting'. by destruct c.
Qed.

Lemma reap_spec : spec safe safe reconcile_terminal_workflow_command (λ _, safe).
Proof.
  unfold reconcile_terminal_workflow_command. eapply spec_bind_ok; [apply load_spec|].
  intros [c|]; [|by apply spec_ret]. destruct (wc_completed c) eqn:Hdone; [apply spec_ret; by eauto|].
  destruct (wc_current_session_id c) as [session_id|] eqn:Hsession; [|apply spec_ret; by eauto].
  intros w Hw. unfold mbind, eff_bind, get_state.
  destruct (durable_command_terminal w session_id) as [terminal|]; [|by apply (known_safe _ c)].
  destruct (settle_terminal (stable_data terminal) c) as [c'|] eqn:Hsettled; [|by apply (known_safe _ c)].
  revert w Hw. eapply spec_weaken; [apply (persist_spec _ c' (known workflow_protocol c))|done|].
  - intros w Hw. split; [by eauto|]. by eapply settle_known.
  - intros [] w [(w0 & Hw0 & Hlog) Hsaved]. apply (saved_safe _ _ _) with (3 := Hsaved); rewrite Hlog.
    + by destruct Hw0 as [[] _].
    + by eapply settle_known.
Qed.

(** ** Starting *)

(** Nothing was started, and no workflow is open. *)
Definition free w : Prop :=
  w.2 = [] ∧ stored_as (λ o, match o with Some c => wc_completed c = true | None => True end) w.
Lemma stable_free : stable free.
Proof. intros a a' log Hstores [Hlog Hstored]. split; [done|]. intros o Ho. by apply Hstored, Hstores. Qed.
Lemma free_safe w : free w → safe w.
Proof.
  intros [Hlog Hstored]. split; [rewrite Hlog; apply prefix_nil|]. intros [c|] Ho; [|done].
  left. by apply (Hstored (Some c)).
Qed.
Hint Resolve stable_free free_safe : core.

Lemma free_load_spec : spec safe free load_workflow_checkpoint (λ _, free).
Proof.
  intros [a log] Hfree. pose proof (load_durable a) as [Hunchanged _].
  unfold load_workflow_checkpoint at 1, logging_adapter, unlogged, lift_part. simpl.
  destruct (load_workflow_checkpoint a) as [a' r]. simpl in *.
  assert (free (a', log)) as Hfree'.
  { destruct Hfree as [Hlog Hstored]. split; [done|].
    intros o' Ho'. destruct (Hunchanged o' Ho') as (o & Ho & [->|(c & c' & -> & -> & Haged)]); [by apply Hstored|].
    specialize (Hstored _ Ho). simpl in Hstored.
    destruct Haged as [Ht|Ht]; apply (f_equal wc_completed) in Ht; destruct c, c'; cbn in *; congruence. }
  destruct r as [[o|e]|]; auto.
Qed.

Lemma state_member action id objective state workspace project git_before patched directories commands :
  get_str (lit "state") (obj (workflow_members action id objective state workspace project git_before patched
    directories commands)) = Some (lit state).
Proof.
  unfold get_str. rewrite get_member. change (first_member _ _) with (Some (js state)).
  exact (as_str_string _).
Qed.

(** How the first call may answer. *)
Definition answered (v : json) w : Prop :=
  safe w ∧ (is_error v = false → get_str (lit "state") (stable_data v) = Some (lit "running") ∨ w.2 = plan).

(** The checkpoint of a workflow that starts. *)
Definition ready_to_start c : Prop :=
  wc_directory_index c = 0%nat ∧ wc_patch_applied c = false ∧ wc_command_index c = 0%nat.
Lemma free_slot_spec : spec safe free ensure_checkpoint_slot_available (λ _, free).
Proof.
  unfold ensure_checkpoint_slot_available. eapply spec_bind_ok; [apply free_load_spec|].
  intros [c|]; [|by apply spec_ret]. cbv beta. case_match; [by apply spec_ret|by apply spec_fail; eauto].
Qed.
Lemma first_checkpoint_spec now task_id arguments owner :
  planned D P T arguments →
  spec safe free
    (update (λ c, c) (Some (checkpoint_new now task_id arguments <| wc_owner_session_id := owner |>)))
    (λ r w, ∃ c, r = Some c ∧ ready_to_start c ∧ at_rest c w).
Proof.
  intros Hplanned. set (c := checkpoint_new _ _ _ <| wc_owner_session_id := owner |>).
  assert (Hresting : resting c).
  { split_and!; try done. unfold in_order. cbn. split_and!; [lia|lia|done|intros; lia]. }
  assert (Hview : workflow_view (Some c) []). { right. split; [done|]. right. by apply resting_exact in Hresting. }
  unfold update. eapply spec_bind_ok; [apply (persist_spec _ c free)|].
  - intros w Hw. split; [by eauto|]. by destruct Hw as [-> _].
  - intros []. apply spec_ret. intros w [(w0 & [Hw0 _] & Hlog) Hsaved]. rewrite Hw0 in Hlog.
    exists c. split; [done|]. split; [by split_and!|]. split_and!; [done..|]. apply (saved_safe _ c); [rewrite Hlog; apply prefix_nil|by rewrite Hlog|done].
Qed.

Lemma run_workflow_spec context arguments object action project selected_path commands :
  as_object arguments = Some object → parse_directory_changes object = Ok D → member_str "patch" object = P →
  parse_commands object = Ok commands → command_text <$> commands = T →
  D ≠ [] ∨ commands ≠ [] →
  spec safe free (run_workflow context arguments object action P project selected_path) answered.
Proof.
  intros Hobject HD HP Hcommands HT Hsome. unfold run_workflow.
  apply spec_bind_ok with (Q := λ d w, free w ∧ d = D); [rewrite HD; by apply spec_ret|].
  intros d. eapply (spec_given _ (d = D)); [by intros w []|]. intros ->.
  apply spec_bind_ok with (Q := λ l w, free w ∧ l = commands).
  { rewrite Hcommands. apply spec_ret. by intros w []. }
  intros l. eapply (spec_given _ (l = commands)); [by intros w []|]. intros ->.
  eapply spec_weaken with (P := free); [|by intros w []|by intros ? ? Hw; exact Hw].
  destruct (bool_decide (is_Some P) && _); [apply spec_fail; by eauto|].
  destruct (negb (bool_decide (commands = [])) && negb (agent_action_allows_process action)); [apply spec_fail; by eauto|].
  assert (negb (bool_decide (D = [])) || bool_decide (is_Some P) || negb (bool_decide (commands = [])) = true) as ->.
  { destruct Hsome as [Hsome|Hsome]; rewrite (bool_decide_eq_false_2 _ Hsome); [done|]. by rewrite orb_true_r. }
  eapply spec_bind_ok; [apply free_slot_spec|]. intros [].
  eapply spec_bind_ok; [apply first_checkpoint_spec; by exists object, commands|]. intros o. cbv beta.
  eapply (spec_given _ (∃ c, o = Some c ∧ ready_to_start c)); [by intros w (c & -> & ? & ?); eauto|].
  intros (c & -> & Hindex & Hpatch & Hcommand).
  eapply spec_weaken with (P := at_rest c); [|by intros w (c' & [= <-] & _ & ?)|by intros ? ? Hw; exact Hw].
  assert (Hrun : running first_run) by by left.
  apply attempt_spec with (run := first_run) (Q := λ _, at_rest c);
    [done|by apply spec_unlogged; [apply workspace_context_quiet|eauto..]|]. intros workspace.
  apply attempt_spec with (run := first_run) (Q := λ _, at_rest c);
    [done|by apply git_status_spec; eauto|]. intros git_before.
  eapply spec_bind_ok; [apply (run_directories_spec _ _ _ _ 0); [done|by rewrite drop_0|done]|].
  intros [o results]. cbn [fst]. intros w (c1 & -> & Hc1 & Hindex1 & Hpatch1 & Hcommand1). revert w Hc1.
  assert (Hpending : P = (if wc_patch_applied c1 then None else P)) by by rewrite Hpatch1, Hpatch.
  eapply spec_bind_ok; [rewrite Hpending; by apply run_patch_spec|].
  intros o w (c2 & -> & Hc2 & Hready & Hcommand2). revert w Hc2.
  eapply spec_bind_ok; [apply run_commands_spec; [done|by rewrite HT|congruence|done]|].
  intros [failed|checkpoint command_results|checkpoint command_results].
  - apply spec_ret. intros w [Herror Hw]. split; [done|congruence].
  - apply spec_ret. intros w [_ Hw]. split; [done|]. intros _. left. by rewrite stable_data_success, state_member.
  - eapply (spec_given _ (∃ c3, checkpoint = Some c3)); [by intros w (c3 & ? & _); eauto|]. intros [c3 ->].
    eapply spec_weaken with (P := λ w, at_rest c3 w ∧ w.2 = plan); [|by intros w (c4 & [= <-] & ?)|by intros ? ? Hw; exact Hw].
    eapply attempt_spec with (run := first_run) (Q := λ _ w, safe w ∧ w.2 = plan); [done| |].
    { eapply spec_weaken; [apply (git_status_spec _ _ _ (λ w, safe w ∧ w.2 = plan))| |done].
      - intros a a' log Hstores [Hsafe Hlog]. split; [by eapply stable_safe|done].
      - by intros w [].
      - intros w []. split; [by eauto|done]. }
    intros git_after. apply spec_bind_ok with (Q := λ _ w, safe w ∧ w.2 = plan).
    { rewrite bool_decide_eq_true_2 by eauto. intros w [Hw Hlog]. pose proof (clear_spec _ w Hw) as Hclear.
      pose proof (clear_log w) as Hkept. destruct (clear_workflow_checkpoint w) as [w' [[]|]]; [|done..].
      split; [done|]. by rewrite <- Hlog. }
    intros []. apply spec_ret. intros w [Hw Hlog]. split; [done|]. by right.
Qed.
End once.

(** ** Histories of calls *)

Section history.
Context `{Json} `{Encodings} {A : Type} `{!WorkspaceRuntimeAdapter A} `{!DurableAdapter A}.
#[local] Abbreviation safe D P T := (holding (A := A) (workflow_protocol D P T)).

(** The directories, the patch and the commands of a request; none of a malformed one. *)
Definition steps_of (arguments : json) : list (ustr * ustr) * option ustr * list ustr :=
  match as_object arguments with
  | None => ([], None, [])
  | Some object =>
      match parse_directory_changes object, parse_commands object with
      | Ok directories, Ok commands => (directories, member_str "patch" object, command_text <$> commands)
      | _, _ => ([], None, [])
      end
  end.
Definition plan_of (arguments : json) : list Effect :=
  let '(directories, patch, texts) := steps_of arguments in plan directories patch texts.

(** A call that starts a workflow: not a phase of a coding task, not a dry run, with
    directories or commands. *)
Definition starts (arguments : json) : Prop :=
  ∃ object, as_object arguments = Some object ∧ member_str "action" object ≠ Some (lit "resume") ∧
    member_str "phase" object = None ∧ member_bool "dry_run" object = false ∧
    nonempty_array "directory_changes" object || nonempty_array "commands" object = true.

Lemma malformed_spec context arguments object action project selected_path :
  as_object arguments = Some object →
  match parse_directory_changes object, parse_commands object with Ok _, Ok _ => False | _, _ => True end →
  spec (safe [] None []) (free (A := A))
    (run_workflow context arguments object action (member_str "patch" object) project selected_path)
    (answered [] None []).
Proof.
  intros Hobject Hmalformed w Hw%(free_safe [] None []). unfold run_workflow.
  destruct (parse_directory_changes object), (parse_commands object); done.
Qed.

Lemma parsed_steps object directories commands :
  parse_directory_changes object = Ok directories → parse_commands object = Ok commands →
  nonempty_array "directory_changes" object || nonempty_array "commands" object = true →
  directories ≠ [] ∨ commands ≠ [].
Proof.
  unfold parse_directory_changes, parse_commands, nonempty_array, member_array.
  intros HD HC [Hd|Hc]%orb_true_iff.
  - left. destruct (object !! lit "directory_changes") as [v|]; [|done]. simpl in *.
    destruct (as_array v) as [l|]; [|done]. simpl in *. destruct (32 <? _); [done|].
    destruct l as [|x l]; [done|]. simpl in HD. intros ->.
    destruct (parse_directory_change x); [|done]. simpl in HD. by destruct (each _ l).
  - right. destruct (object !! lit "commands") as [v|]; [|done]. simpl in *.
    destruct (as_array v) as [l|]; [|done]. simpl in *. injection HC as <-. by intros ->.
Qed.

Lemma agent_workflow_starts policy mode arguments context :
  starts arguments →
  let '(directories, patch, texts) := steps_of arguments in
  spec (safe directories patch texts) (free (A := A)) (agent_workflow policy mode arguments context)
    (answered directories patch texts).
Proof.
  intros (object & Hobject & Haction & Hphase & Hdry & Hsteps).
  destruct (steps_of arguments) as [[D P] T] eqn:Hof. unfold steps_of in Hof. rewrite Hobject in Hof.
  unfold agent_workflow, object_args. rewrite Hobject.
  apply spec_bind_ok with (Q := λ o w, free w ∧ o = object); [by apply spec_ret|].
  intros o. eapply (spec_given _ (o = object)); [by intros w []|]. intros ->.
  apply spec_bind_ok with (Q := λ action w, free w ∧ action ≠ lit "resume").
  { apply spec_answer; [|intros w []; by apply free_safe]. intros action w Haction' [Hw _]. split; [done|].
    intros ->. apply Haction. unfold required_string in Haction'.
    destruct (member_str "action" object) as [[|x s]|]; unfold invalid in *; congruence. }
  intros action. eapply (spec_given _ (action ≠ lit "resume")); [by intros w []|]. intros Hresume.
  eapply spec_weaken with (P := free); [|by intros w []|by intros ? ? Hw; exact Hw].
  destruct (negb (says_one_of action AGENT_ACTIONS)); [apply spec_fail; by apply free_safe|].
  rewrite (bool_decide_eq_false_2 _ Hresume), Hphase, Hdry, Hsteps. simpl. rewrite !andb_false_r. simpl.
  eapply spec_bind_ok with (Q := λ e w, free w ∧ e = None); [by apply spec_ret|].
  intros e. eapply (spec_given _ (e = None)); [by intros w []|]. intros ->.
  apply spec_bind_ok with (Q := λ _, free).
  { apply spec_answer; [by intros ? w _ []|]. intros w []. by apply free_safe. }
  intros path. eapply spec_bind_ok.
  { apply (spec_unlogged _ _ free); [apply project_context_quiet|apply stable_free|apply free_safe]. }
  intros project. cbv beta. apply spec_bind_ok with (Q := λ _, free).
  { apply spec_answer; [done|]. apply free_safe. }
  intros selected_path.
  destruct (parse_directory_changes object) as [directories|] eqn:HD, (parse_commands object) as [commands|] eqn:HC.
  - injection Hof as <- <- <-. eapply run_workflow_spec; [done..|]. by eapply parsed_steps.
  - injection Hof as <- <- <-. eapply malformed_spec; [done|]. by rewrite HD, HC.
  - injection Hof as <- <- <-. eapply malformed_spec; [done|]. by rewrite HD.
  - injection Hof as <- <- <-. eapply malformed_spec; [done|]. by rewrite HD.
Qed.

Lemma agent_workflow_resumes D P T policy mode arguments context object :
  as_object arguments = Some object → member_str "action" object = Some (lit "resume") →
  spec (safe D P T) (safe D P T) (agent_workflow policy mode arguments context) (λ _, safe D P T).
Proof.
  intros Hobject Haction. unfold agent_workflow, object_args. rewrite Hobject.
  apply spec_bind_ok with (Q := λ o w, safe D P T w ∧ o = object); [by apply spec_ret|].
  intros o. eapply (spec_given _ (o = object)); [by intros w []|]. intros ->.
  unfold required_string at 1. rewrite Haction.
  apply spec_bind_ok with (Q := λ action w, safe D P T w ∧ action = lit "resume"); [apply spec_ret; by intros w []|].
  intros action. eapply (spec_given _ (action = lit "resume")); [by intros w []|]. intros ->.
  eapply spec_weaken with (P := safe D P T); [|by intros w []|by intros ? ? Hw; exact Hw]. simpl.
  apply spec_bind_ok with (Q := λ _, safe D P T); [by apply spec_answer|]. intros ?.
  apply spec_bind_ok with (Q := λ _, safe D P T); [by apply spec_answer|]. intros durable_task_id.
  apply resume_agent_workflow_spec.
Qed.

(** What may follow, in any number, with any policy, by any session: resumptions, and
    looking for commands that have ended. *)
Inductive later : (A * list Effect → A * list Effect) → Prop :=
  | later_resume policy mode arguments context object :
      as_object arguments = Some object → member_str "action" object = Some (lit "resume") →
      later (λ w, (agent_workflow policy mode arguments context w).1)
  | later_reap : later (λ w, (reconcile_terminal_workflow_command w).1).
Lemma later_safe D P T f w : later f → safe D P T w → safe D P T (f w).
Proof.
  intros [policy mode arguments context object Hobject Haction|].
  - by apply spec_keeps, (agent_workflow_resumes _ _ _ _ _ _ _ object).
  - by apply spec_keeps, reap_spec.
Qed.

(** C4 (safety): no step of a workflow is started twice, and none out of order.  A
    workflow is started, and then resumed and reconciled any number of times, by
    any session and under any policy; wherever calls of the adapter fail, and
    wherever the process stops in the middle of a call, what was started is a
    prefix of the directories, the patch and the commands that the request asked
    for. *)
Theorem steps_start_at_most_once policy mode arguments context later_calls (a : A) :
  starts arguments → free (a, []) → Forall later later_calls →
  let w := (agent_workflow policy mode arguments context (a, [])).1 in
  (foldl (λ w f, f w) w later_calls).2 `prefix_of` plan_of arguments.
Proof.
  intros Hstarts Hfree Hlater. simpl. pose proof (agent_workflow_starts policy mode arguments context Hstarts) as Hfirst.
  unfold plan_of. destruct (steps_of arguments) as [[D P] T].
  assert (Hsafe : safe D P T (agent_workflow policy mode arguments context (a, [])).1).
  { specialize (Hfirst _ Hfree). destruct (agent_workflow _ _ _ _ _) as [w [[v|e]|]]; [apply Hfirst|done..]. }
  revert Hsafe. generalize (agent_workflow policy mode arguments context (a, [])).1.
  induction Hlater as [|f fs Hf _ IH]; intros w Hw; [apply Hw|]. by apply IH, later_safe.
Qed.

(** What the first call answers is true: unless it reports an error,
    it says that a command is running, or every step the request asked for has
    been started. *)
Theorem workflow_answers_truly policy mode arguments context (a : A) w v :
  starts arguments → free (a, []) →
  agent_workflow policy mode arguments context (a, []) = (w, Some (Ok v)) → is_error v = false →
  get_str (lit "state") (stable_data v) = Some (lit "running") ∨ w.2 = plan_of arguments.
Proof.
  intros Hstarts Hfree Hcall Herror.
  pose proof (agent_workflow_starts policy mode arguments context Hstarts) as Hfirst.
  unfold plan_of. destruct (steps_of arguments) as [[D P] T]. specialize (Hfirst _ Hfree).
  rewrite Hcall in Hfirst. destruct Hfirst as [_ Hanswered]. by apply Hanswered.
Qed.
End history.

(** ** A concrete adapter *)

(** The checkpoint, and how many commands run until the process stops. *)
Record DemoAdapter := MkDemoAdapter {
  da_stored : option (WorkflowCheckpoint (json (Json := demo_json)));
  da_commands : nat
}.

Section demo.
#[local] Existing Instance demo_json.
#[local] Existing Instance plain_encodings.

Definition reply (v : json) : call DemoAdapter json := mret (Ok v).
Definition demo_shell : call DemoAdapter json := λ a,
  match da_commands a with
  | O => (MkDemoAdapter (da_stored a) 9, None)
  | S n => (MkDemoAdapter (da_stored a) n,
            Some (Ok (stable_success (obj [("status", js "completed")]) (lit "done"))))
  end.

(** [plan]: what a coding task is verified with. *)
Definition demo_adapter_with (plan : list json) : WorkspaceRuntimeAdapter DemoAdapter := {|
  workspace_context _ := reply (stable_success (obj []) []);
  validate_workspace_identity := mret (Ok ());
  runtime_discovery _ := obj [];
  coding_context _ _ := reply (obj []);
  coding_verification_plan _ := mret (Ok plan);
  apply_coding_patch _ _ := mret (Ok []);
  normalize_workspace_path path _ := mret (Ok path);
  project_context path := reply (obj [("selected_path", json_string path)]);
  filesystem _ := reply (obj []);
  apply_directory_change _ _ := reply (obj []);
  execute_shell _ _ := demo_shell;
  control_command _ _ _ := reply (obj []);
  transfer_workflow_executions _ _ := mret (Ok ());
  authorize_command_resource _ _ _ := mret (Ok ());
  git_workflow _ _ _ := reply (stable_success (obj []) []);
  execute_document _ := reply (obj []);
  inspect_image _ _ := reply (obj []);
  apply_workflow_patch _ _ := reply (obj []);
  load_workflow_checkpoint := λ a, (a, Some (Ok (da_stored a)));
  save_workflow_checkpoint checkpoint := λ a, (MkDemoAdapter (Some checkpoint) (da_commands a), Some (Ok ()));
  clear_workflow_checkpoint := λ a, (MkDemoAdapter None (da_commands a), Some (Ok ()));
  durable_command_terminal _ _ := None
|}.
Definition demo_durable_with (plan : list json) : DurableAdapter (H := demo_json) DemoAdapter (WorkspaceRuntimeAdapter0 := demo_adapter_with plan).
Proof.
  refine {| stores a o := o = da_stored a |}; try (by repeat intros ?).
  - intros a. split; [intros o ->; eexists; split; [reflexivity|by left]|]. simpl. destruct (da_stored a) as [c|]; [|done].
    exists c. split; [done|by left].
  - intros c a o ->. left. by exists c.
  - intros a o ->. by left.
  - intros q r a o. simpl. unfold demo_shell. by destruct (da_commands a).
Defined.
#[local] Instance demo_adapter : WorkspaceRuntimeAdapter DemoAdapter := demo_adapter_with [].
#[local] Instance demo_durable : DurableAdapter DemoAdapter := demo_durable_with [].

Definition demo_policy : CapabilityPolicy := MkCapabilityPolicy ∅ ∅ ∅ ∅ ∅ {[lit "agent_workflow"]} ∅.
Definition demo_context : WorkflowCallContext := MkWorkflowCallContext None (lit "task") None 1 (lit "token").
Definition demo_command (command : string) : json := obj [("command", js command)].
(** A directory, a patch and two commands. *)
Definition demo_request : json := obj [
  ("action", js "custom");
  ("directory_changes", json_array [obj [("action", js "create_directory"); ("path", js "out")]]);
  ("patch", json_string (lit "*** Begin Patch" ++ LF ++ lit "*** Add File: out/a" ++ LF ++ lit "+x" ++ LF ++
                         lit "*** End Patch"));
  ("commands", json_array [demo_command "build"; demo_command "test"])].
Definition demo_call (request : json) : DemoAdapter * list Effect → DemoAdapter * list Effect := λ w,
  (agent_workflow demo_policy PermissionFull request demo_context w).1.
Definition demo_resume : json := obj [("action", js "resume")].

Lemma demo_starts : starts demo_request.
Proof. eexists. split_and!; [reflexivity|by apply (bool_decide_unpack _); vm_compute..]. Defined.
Lemma demo_free n : free (MkDemoAdapter None n, []).
Proof. split; [done|]. by intros o ->. Defined.
Lemma demo_resumes : later (demo_call demo_resume).
Proof. eapply later_resume; [reflexivity|by apply (bool_decide_unpack _); vm_compute]. Defined.

(** The process stops in the second command; what follows starts nothing again. *)
Example demo_interrupted :
  (foldl (λ w f, f w) (demo_call demo_request (MkDemoAdapter None 1, [])) [demo_call demo_resume; demo_call demo_resume]).2
  = plan_of demo_request.
Proof. vm_compute. reflexivity. Qed.

Lemma steps_start_at_most_once_witness :
  (foldl (λ w f, f w) (demo_call demo_request (MkDemoAdapter None 1, [])) [demo_call demo_resume]).2
  `prefix_of` plan_of demo_request.
Proof.
  apply (steps_start_at_most_once demo_policy PermissionFull demo_request demo_context [demo_call demo_resume]).
  - apply demo_starts.
  - apply demo_free.
  - apply List.Forall_cons; [apply demo_resumes|apply List.Forall_nil].
Defined.

Lemma workflow_answers_truly_witness :
  let a := MkDemoAdapter None 9 in
  ∃ w v, agent_workflow demo_policy PermissionFull demo_request demo_context (a, []) = (w, Some (Ok v)) ∧
    (get_str (lit "state") (stable_data v) = Some (lit "running") ∨ w.2 = plan_of demo_request).
Proof.
  intros a. destruct (agent_workflow demo_policy PermissionFull demo_request demo_context (a, []))
    as [w [[v|e]|]] eqn:Hcall.
  - exists w, v. split; [reflexivity|].
    apply (workflow_answers_truly demo_policy PermissionFull demo_request demo_context a); [apply demo_starts|apply demo_free|done|].
    assert (match agent_workflow demo_policy PermissionFull demo_request demo_context (a, []) with
            | (_, Some (Ok v)) => is_error v | _ => true end = false) as Hok by (vm_compute; reflexivity).
    by rewrite Hcall in Hok.
  - exfalso. assert (match agent_workflow demo_policy PermissionFull demo_request demo_context (a, []) with
            | (_, Some (Ok v)) => is_error v | _ => true end = false) as Hok by (vm_compute; reflexivity).
    by rewrite Hcall in Hok.
  - exfalso. assert (match agent_workflow demo_policy PermissionFull demo_request demo_context (a, []) with
            | (_, Some (Ok v)) => is_error v | _ => true end = false) as Hok by (vm_compute; reflexivity).
    by rewrite Hcall in Hok.
Defined.

(** A workflow that was abandoned, and ended as stale, is reported as completed. *)
Definition demo_stale : WorkflowCheckpoint json :=
  ended (lit "stale") (lit "workflow_stale") (lit "lost") (checkpoint_new 1 (lit "task") demo_request).
Example stale_is_reported_completed :
  match agent_workflow demo_policy PermissionFull demo_resume demo_context (MkDemoAdapter (Some demo_stale) 9, []) with
  | (_, Some (Ok v)) => get_str (lit "state") (stable_data v) = Some (lit "completed")
  | _ => False
  end.
Proof. vm_compute. reflexivity. Qed.
End demo.
