(* ===== verification/FacadeTasks.v ===== *)
(** * FacadeTasks: a coding task edits once, and is persisted only when verified

    The phases of a coding task, its resumption and the reconciliation with a command
    that ended, over the durable adapter of [FacadeDurable]: a second protocol for
    [FacadeSpec].  Kills and cancellations change the store from outside. *)

From S2P Require Import Prelude Text StateModel HostFs HostLogic FilesystemService HostExamples Effects Json Policy PolicyDecision WorkflowCheckpoint Facade FacadeArguments FacadeRequests FacadeWorkflow FacadeCoding FacadeEntry FacadeDurable FacadeSpec FacadeOnce.
#[local] Open Scope N_scope.

Section protocol.
Context `{Json}.
Implicit Types (c : WorkflowCheckpoint json) (log : list Effect).

(** The command of a step of the plan. *)
Definition step_text (step : json) : ustr := default [] (as_object step ≫= member_str "command").
Definition plan_texts c : list ustr := step_text <$> wc_verification_plan c.
Definition commands_of log : list ustr :=
  omap (λ e, match e with EffCommand text => Some text | _ => None end) log.
(** One edit, and then commands only. *)
Definition edited_once log : Prop := ∃ patch commands, log = EffPatch patch :: (EffCommand <$> commands).
(** The first [n] commands of the plan have been started, in order. *)
Definition verified c (n : nat) log : Prop := take n (plan_texts c) `sublist_of` commands_of log.
(** Every command of the plan has a result, and every result is a success. *)
Definition passed c : Prop :=
  length (wc_command_results c) = length (wc_verification_plan c) ∧
  Forall (λ v, get_str (lit "status") v = Some (lit "completed")) (wc_command_results c).

Lemma edited_once_more log text : edited_once log → edited_once (log ++ [EffCommand text]).
Proof.
  intros (patch & commands & ->). exists patch, (commands ++ [text]). by rewrite fmap_app.
Qed.
Lemma edited_once_nonempty log : edited_once log → log ≠ [].
Proof. by intros (? & ? & ->). Qed.
Lemma commands_of_app log log' : commands_of (log ++ log') = commands_of log ++ commands_of log'.
Proof. apply omap_app. Qed.
Lemma commands_of_edited patch commands :
  commands_of (EffPatch patch :: (EffCommand <$> commands)) = commands.
Proof. induction commands as [|t l IH]; [done|]. change (t :: commands_of (EffCommand <$> l) = t :: l). by f_equal. Qed.
Lemma verified_more c n log e : verified c n log → verified c n (log ++ [e]).
Proof.
  unfold verified. intros Hv. rewrite commands_of_app. etransitivity; [exact Hv|]. apply sublist_inserts_r. done.
Qed.
Lemma verified_none c log : verified c 0 log.
Proof. apply sublist_nil_l. Qed.
Lemma verified_next c n step log :
  wc_verification_plan c !! n = Some step → verified c n log →
  verified c (S n) (log ++ [EffCommand (step_text step)]).
Proof.
  unfold verified, plan_texts. intros Hstep Hv. rewrite commands_of_app.
  rewrite (take_S_r _ _ (step_text step)) by by rewrite list_lookup_fmap, Hstep.
  apply sublist_app; [done|]. simpl. done.
Qed.

(** What is stored of an open task. *)
Definition open_task c log : Prop :=
  (wc_current_step c = Some (lit "prepare") → log = []) ∧
  (wc_current_step c = Some (lit "verify") ∨ is_Some (wc_current_session_id c) ∨ wc_patch_applied c = true →
    edited_once log) ∧
  verified c (started c) log.
Definition closed_task c log : Prop :=
  wc_current_step c = Some (lit "persist") →
  edited_once log ∧ verified c (length (wc_verification_plan c)) log ∧ passed c.
Definition of_task (task : ustr) c log : Prop :=
  wc_workflow_id c = task ∧ is_coding_task c = true ∧
  if wc_completed c then closed_task c log else open_task c log.
Definition task_view (task : ustr) (o : option (WorkflowCheckpoint json)) log : Prop :=
  match o with
  | None => True
  | Some c => wc_workflow_id c ≠ task ∧ wc_completed c = true ∨ of_task task c log
  end.

Lemma task_view_same task c c' log :
  wc_workflow_id c' = wc_workflow_id c → wc_coding_profile c' = wc_coding_profile c →
  wc_completed c' = wc_completed c → wc_current_step c' = wc_current_step c →
  wc_current_session_id c' = wc_current_session_id c → wc_patch_applied c' = wc_patch_applied c →
  wc_command_index c' = wc_command_index c → wc_verification_plan c' = wc_verification_plan c →
  wc_command_results c' = wc_command_results c →
  task_view task (Some c) log → task_view task (Some c') log.
Proof.
  unfold task_view, of_task, is_coding_task, closed_task, open_task, verified, passed, plan_texts, started.
  by intros -> -> -> -> -> -> -> -> ->.
Qed.
(** A task that ends otherwise than by being persisted. *)
Lemma task_view_closed task c c' log :
  wc_workflow_id c' = wc_workflow_id c → wc_coding_profile c' = wc_coding_profile c →
  wc_completed c' = true → wc_current_step c' ≠ Some (lit "persist") →
  task_view task (Some c) log → task_view task (Some c') log.
Proof.
  unfold task_view, of_task, is_coding_task, closed_task. intros -> -> -> Hstep [[Hid _]|(Hid & Hcoding & _)].
  - by left.
  - right. by split_and!.
Qed.

Lemma retimed_field {X} (f : WorkflowCheckpoint json → X) c c' :
  (∀ c, f (timeless c) = f c) → retimed c c' → f c' = f c.
Proof. unfold retimed. intros Hf Hc. by rewrite <- (Hf c'), Hc, Hf. Qed.
Lemma task_retimed task c c' log : retimed c c' → task_view task (Some c) log → task_view task (Some c') log.
Proof. intros Hc. apply task_view_same; (eapply retimed_field; [by intros []|done]). Qed.
Lemma task_ended task step code status c log :
  step ≠ lit "persist" → task_view task (Some c) log → task_view task (Some (ended step code status c)) log.
Proof. intros Hstep. apply task_view_closed; [by destruct c..|]. change (Some step ≠ Some (lit "persist")). congruence. Qed.
Lemma task_aged task c c' log : aged c c' → task_view task (Some c) log → task_view task (Some c') log.
Proof.
  intros [Hc|Hc] Hview; eapply task_retimed; [done..| ]. by apply task_ended; [by apply lit_ne|].
Qed.
Lemma task_kept task c log : task_view task (Some c) log → task_view task (Some (kept c)) log.
Proof.
  unfold kept. destruct (sanitize_workflow_arguments _). destruct c. by apply task_view_same.
Qed.
Lemma task_owner task c owner log :
  task_view task (Some c) log → task_view task (Some (c <| wc_owner_session_id := owner |>)) log.
Proof. destruct c. by apply task_view_same. Qed.
Definition task_protocol (task : ustr) : Protocol := {|
  allowed log := log = [] ∨ edited_once log;
  view := task_view task;
  view_none _ := I;
  view_aged := task_aged task;
  view_kept := task_kept task;
  view_owner := task_owner task
|}.

(** The commands of a verification leave every stored checkpoint as true as it was. *)
Lemma task_view_more task o log text :
  edited_once log → task_view task o log → task_view task o (log ++ [EffCommand text]).
Proof.
  intros Hedited. destruct o as [c|]; [|done]. intros [?|(Hid & Hcoding & Hc)]; [by left|right].
  split_and!; [done..|]. destruct (wc_completed c).
  - intros Hstep. destruct (Hc Hstep) as (_ & Hv & Hp). split_and!; [by apply edited_once_more|by apply verified_more|done].
  - destruct Hc as (Hprepare & _ & Hv). split_and!.
    + intros Hstep. by destruct (edited_once_nonempty _ Hedited); apply Hprepare.
    + intros _. by apply edited_once_more.
    + by apply verified_more.
Qed.
(** An open task is the one of the protocol. *)
Lemma task_open task c log :
  task_view task (Some c) log → wc_completed c = false →
  wc_workflow_id c = task ∧ is_coding_task c = true ∧ open_task c log.
Proof. intros [[_ Hc]|(Hid & Hcoding & Hc)] Hdone; [congruence|]. by rewrite Hdone in Hc. Qed.
End protocol.

Section task.
Context `{Json} `{Encodings} {A : Type} `{!WorkspaceRuntimeAdapter A} `{!DurableAdapter A}.
Context (task : ustr).
Implicit Types (c : WorkflowCheckpoint json) (w : A * list Effect).
#[local] Abbreviation protocol := (task_protocol task).
#[local] Abbreviation safe := (holding (A := A) protocol).
#[local] Abbreviation with_log := (with_log (A := A) protocol).
#[local] Abbreviation known := (known (A := A) protocol).

(** What the adapter is asked without changing the store. *)
Lemma ask_spec {X} (m : call A X) φ :
  quiet stores m → spec safe (with_log φ) (unlogged m) (λ _, with_log φ).
Proof. intros Hm. apply spec_unlogged; eauto. Qed.
Lemma answer_spec {X} (r : result FacadeError X) φ :
  spec safe (with_log φ) (answer r) (λ x w, with_log φ w ∧ r = Ok x).
Proof. apply spec_answer; eauto. Qed.
Lemma fail_spec {X} e φ (Q : X → A * list Effect → Prop) : spec safe (with_log φ) (fail e) Q.
Proof. apply spec_fail; eauto. Qed.
Lemma done_spec {X} (x : X) φ : spec safe (with_log φ) (mret (Ok x) : call (A * list Effect) X) (λ _, safe).
Proof. apply spec_ret; eauto. Qed.
Lemma persist_log c φ :
  (∀ log, φ log → task_view task (Some c) log) →
  spec safe (with_log φ) (persist_agent_checkpoint c) (λ _, with_log φ).
Proof.
  intros Hφ. eapply spec_weaken; [apply (persist_with_log protocol φ c)|done|by intros [] w []].
  intros log _. apply Hφ.
Qed.
(** An answer, and what it was computed from. *)
Lemma answer_bind {X Y} (r : result FacadeError X) (k : X → call (A * list Effect) Y) φ Q :
  (∀ x, r = Ok x → spec safe (with_log φ) (k x) Q) → spec safe (with_log φ) (x ←? answer r; k x) Q.
Proof.
  intros Hk. destruct r as [x|e]; [by apply Hk|]. intros w Hw. exact (with_log_safe _ _ _ Hw).
Qed.
Lemma ask_bind {X Y} (m : call A X) (k : X → call (A * list Effect) Y) φ Q :
  quiet stores m → (∀ x, spec safe (with_log φ) (k x) Q) → spec safe (with_log φ) (x ←? unlogged m; k x) Q.
Proof. intros Hm Hk. eapply spec_bind_ok; [by apply ask_spec|exact Hk]. Qed.
Lemma persist_bind {Y} c (k : unit → call (A * list Effect) Y) φ Q :
  (∀ log, φ log → task_view task (Some c) log) → (∀ x, spec safe (with_log φ) (k x) Q) →
  spec safe (with_log φ) (x ←? persist_agent_checkpoint c; k x) Q.
Proof. intros Hc Hk. eapply spec_bind_ok; [by apply persist_log|exact Hk]. Qed.

Lemma task_project_bind {Y} c (k : ustr → call (A * list Effect) Y) φ Q :
  (∀ x, spec safe (with_log φ) (k x) Q) → spec safe (with_log φ) (x ←? task_project c; k x) Q.
Proof.
  intros Hk. eapply spec_bind_ok with (Q := λ _, with_log φ); [|exact Hk]. unfold task_project.
  apply answer_bind. intros original _. apply ask_bind; [apply project_context_quiet|]. intros project.
  eapply spec_weaken; [apply answer_spec|done|by intros x w []].
Qed.

(** ** Loading the task *)

Lemma load_coding_bind {Y} id action context token (k : WorkflowCheckpoint json → call (A * list Effect) Y) φ Q :
  (∀ c, spec safe (known c) (k c) Q) →
  spec safe (with_log φ) (c ←? load_coding_checkpoint id action context token; k c) Q.
Proof.
  intros Hk. eapply spec_weaken with (P := safe); [|by eauto|done].
  eapply spec_bind_ok; [|exact Hk]. unfold load_coding_checkpoint.
  eapply spec_bind_ok; [apply load_spec|]. intros [c0|]; [|by apply spec_fail].
  case_match; [apply fail_spec|]. eapply spec_bind_ok; [apply adopt_spec|]. intros c. cbv beta.
  apply answer_bind. intros original _.
  case_match; [apply (fail_spec invalid_argument)|].
  eapply spec_bind_ok; [apply (baseline_spec _ _ _ (known c)); eauto|]. intros []. by apply spec_ret.
Qed.

(** A checkpoint of the open task that is past its preparation. *)
Lemma open_view c log :
  wc_workflow_id c = task → is_coding_task c = true → wc_completed c = false →
  wc_current_step c ≠ Some (lit "prepare") →
  (wc_current_step c = Some (lit "verify") ∨ is_Some (wc_current_session_id c) ∨ wc_patch_applied c = true →
    edited_once log) →
  verified c (started c) log → task_view task (Some c) log.
Proof.
  intros Hid Hcoding Hdone Hstep Hedited Hv. right. split_and!; [done..|]. rewrite Hdone. split_and!; [done..|exact Hv].
Qed.
(** One that was closed, but not by persisting it. *)
Lemma closed_view c log :
  wc_workflow_id c = task → is_coding_task c = true → wc_completed c = true →
  wc_current_step c ≠ Some (lit "persist") → task_view task (Some c) log.
Proof. intros Hid Hcoding Hdone Hstep. right. split_and!; [done..|]. by rewrite Hdone. Qed.
Lemma started_idle c : wc_current_session_id c = None → started c = wc_command_index c.
Proof. unfold started. by intros ->. Qed.

(** ** Editing *)

(** During and after the edit, until it is known to have been applied. *)
Definition editing c : Prop :=
  wc_workflow_id c = task ∧ is_coding_task c = true ∧ wc_completed c = false ∧
  wc_current_step c = Some (lit "edit") ∧ wc_current_session_id c = None ∧ wc_command_index c = 0%nat.
Lemma editing_view c log :
  editing c → (wc_patch_applied c = true → edited_once log) → task_view task (Some c) log.
Proof.
  intros (Hid & Hcoding & Hdone & Hstep & Hsession & Hindex) Hpatch. apply open_view; [done..| | |].
  - by rewrite Hstep.
  - rewrite Hstep, Hsession. intros [Hs|[[? ?]|?]]; [done|done|auto].
  - rewrite started_idle, Hindex by done. apply verified_none.
Qed.

(** The edit is started once the store says so. *)
Lemma apply_spec c patch expected :
  editing c → wc_patch_applied c = false →
  spec_any safe (λ w, with_log (λ log, log = []) w ∧ saved c w) (apply_coding_patch patch expected)
    (with_log edited_once).
Proof.
  intros Hc Hpatch w Hw.
  pose proof (start_with_log protocol (EffPatch patch) (apply_coding_patch (A := A) patch expected)
    (λ w, with_log (λ log, log = []) w ∧ saved c w) (λ log, log = []) (apply_coding_patch_quiet _ _)) as Hstart.
  eassert (Hstart' : spec_any _ _ _ _); [apply Hstart; clear w Hw Hstart|].
  - intros [a log] [[_ Hlog] Hsaved]. simpl in *. subst log. split; [done|]. split; [right; by exists patch, []|].
    intros o Ho. destruct (Hsaved o Ho) as (c' & -> & Hc'). eapply (task_retimed _ _ _ _ Hc'), task_kept, editing_view;
      [done|congruence].
  - specialize (Hstart' w Hw). unfold apply_coding_patch, logging_adapter.
    destruct (logged _ _ w) as [w' [r|]]; [|done]. destruct Hstart' as [Hsafe (log & -> & Hlog)].
    split; [done|]. rewrite Hlog. by exists patch, [].
Qed.

Lemma coding_edit_spec action object context φ :
  spec safe (with_log φ) (coding_edit action object context) (λ _, safe).
Proof.
  unfold coding_edit. apply answer_bind. intros _ _. apply answer_bind. intros id _. apply answer_bind. intros patch _.
  destruct (negb (agent_action_allows_write action) || _); [apply fail_spec|]. apply load_coding_bind. intros c.
  destruct (wc_completed c || _ || _ || _ || _ || _ || _) eqn:Hguards; [apply fail_spec|].
  apply orb_false_iff in Hguards as [[[[[[Hdone Hstep]%orb_false_iff _]%orb_false_iff Hpatch]%orb_false_iff
    Hindex]%orb_false_iff _]%orb_false_iff Hsession].
  apply negb_false_iff, bool_decide_eq_true in Hstep. apply negb_false_iff, Nat.eqb_eq in Hindex.
  apply bool_decide_eq_false, eq_None_not_Some in Hsession.
  eapply (spec_given _ (wc_workflow_id c = task ∧ is_coding_task c = true)).
  { intros w [_ Hview]. by destruct (task_open task c w.2 Hview Hdone) as (? & ? & _). }
  intros [Hid Hcoding].
  eapply spec_weaken with (P := with_log (λ log, log = [])); [| |by intros ? ? Hw; exact Hw].
  2: { intros w [Hsafe Hview]. split; [done|]. destruct (task_open task c w.2 Hview Hdone) as (_ & _ & Hprepare & _). auto. }
  eapply spec_bind_ok.
  { apply (persist_with_log protocol). intros log _ _. apply editing_view; [by split_and!|]. simpl. congruence. }
  intros []. eapply spec_bind_any; [apply apply_spec; [by split_and!|done]|].
  intros [modified_files|error].
  - apply persist_bind; [|intros []; apply done_spec]. intros log Hlog. by apply editing_view; [by split_and!|].
  - apply persist_bind; [|intros []; apply fail_spec]. intros log Hlog. by apply editing_view; [by split_and!|].
Qed.

(** ** Verifying *)

(** Between two commands of the plan. *)
Definition verifying c : Prop :=
  wc_workflow_id c = task ∧ is_coding_task c = true ∧ wc_completed c = false ∧
  wc_current_step c = Some (lit "verify") ∧ wc_current_session_id c = None.
Definition verified_log c (n : nat) log : Prop := edited_once log ∧ verified c n log.
Lemma verifying_view c log : verifying c → verified_log c (wc_command_index c) log → task_view task (Some c) log.
Proof.
  intros (Hid & Hcoding & Hdone & Hstep & Hsession) [Hedited Hv]. apply open_view; [done..|by rewrite Hstep|done|].
  by rewrite started_idle.
Qed.
(** While a command runs in a session. *)
Lemma running_view c log session :
  verifying c → verified_log c (S (wc_command_index c)) log →
  task_view task (Some (c <| wc_current_session_id := Some session |>)) log.
Proof.
  intros (Hid & Hcoding & Hdone & Hstep & Hsession) [Hedited Hv]. apply open_view; [done..| |done|done].
  change (wc_current_step c ≠ Some (lit "prepare")). by rewrite Hstep.
Qed.
Lemma verify_failed_view error c log :
  verifying c → verified_log c (wc_command_index c) log → task_view task (Some (verify_failed error c)) log.
Proof.
  intros (Hid & Hcoding & Hdone & Hstep & Hsession) Hv. unfold verify_failed.
  case_bool_decide; [by apply closed_view|]. apply verifying_view; [by split_and!|done].
Qed.
Lemma add_output_ref_spec data c : ∃ f, add_output_ref data c = c <| wc_output_refs ::= f |>.
Proof.
  unfold add_output_ref. destruct (get_str _ _) as [r|]; [by eexists|]. exists id. by destruct c.
Qed.
Lemma verify_advance_spec index command step data c :
  ∃ f g, verify_advance index command step data c =
    command_ended c <| wc_command_index := S index |> <| wc_command_results ::= λ l, l ++ [data] |>
      <| wc_build_results ::= f |> <| wc_test_results ::= g |>.
Proof.
  unfold verify_advance. case_match; [eexists _, id|exists id; eexists]; by destruct c.
Qed.

(** A command of the plan is started. *)
Lemma execute_spec request request_id c index step :
  wc_verification_plan c !! index = Some step → step_text step = se_command (sc_execution request) →
  spec_any safe (with_log (verified_log c index)) (execute_shell request request_id)
    (with_log (λ log, verified_log c index log ∧ verified_log c (S index) log)).
Proof.
  intros Hstep Htext w Hw. set (command := se_command (sc_execution request)) in *.
  assert (Hstart : spec_any safe (with_log (verified_log c index))
    (logged (EffCommand command) (execute_shell (A := A) request request_id))
    (with_log (λ log, ∃ log', verified_log c index log' ∧ log = log' ++ [EffCommand command]))).
  { apply start_with_log; [apply execute_shell_quiet|]. intros [a log] [[_ Hstored] [Hedited Hv]]. simpl in *.
    split; [by split|]. split; [right; by apply edited_once_more|]. intros o Ho. apply task_view_more; [done|by apply Hstored]. }
  specialize (Hstart w Hw). unfold execute_shell, logging_adapter. fold command.
  destruct (logged _ _ w) as [w' [r|]]; [|done]. destruct Hstart as [Hsafe (log & [Hedited Hv] & Hlog)].
  split; [done|]. rewrite Hlog. rewrite <- Htext. split; (split; [by apply edited_once_more|]).
  - by apply verified_more.
  - by apply verified_next.
Qed.
Lemma verified_log_plan c c' n log :
  wc_verification_plan c' = wc_verification_plan c → verified_log c n log → verified_log c' n log.
Proof. unfold verified_log, verified, plan_texts. by intros ->. Qed.
Lemma required_text step m command :
  as_object step = Some m → required_workflow_string m "command" = Ok command → step_text step = command.
Proof.
  unfold step_text, required_workflow_string, required_string. intros ->. simpl.
  by destruct (member_str "command" m) as [[|x s]|]; intros [= <-].
Qed.

Lemma verify_steps_spec context path steps : ∀ index c,
  verifying c → wc_command_index c = index → drop index (wc_verification_plan c) = steps →
  spec safe (with_log (verified_log c index)) (verify_steps context path index steps c)
    (λ r w, match r with
            | VerifyAnswer _ => safe w
            | VerifyDone c' => verifying c' ∧ with_log (verified_log c' (wc_command_index c')) w
            end).
Proof.
  induction steps as [|step steps IH]; intros index c Hc Hindex Hsteps; cbn [verify_steps].
  { apply spec_ret. intros w Hw. by subst index. }
  assert (Hlookup : wc_verification_plan c !! index = Some step).
  { by rewrite <- (Nat.add_0_r index), <- lookup_drop, Hsteps. }
  assert (Hrest : drop (S index) (wc_verification_plan c) = steps).
  { rewrite <- Nat.add_1_r, <- drop_drop, Hsteps. done. }
  apply answer_bind. intros m Hm. apply answer_bind. intros command Hcommand. apply answer_bind. intros shell _.
  set (c1 := c <| wc_command_inflight := _ |> <| wc_current_session_id := _ |>).
  assert (Hc1 : verifying c1) by (destruct Hc as (?&?&?&?&?); by split_and!).
  assert (Hm' : as_object step = Some m) by by destruct (as_object step); simplify_eq/=.
  apply persist_bind; [intros log Hlog; by apply verifying_view; [|subst index]|]. intros _.
  eapply spec_bind_any; [apply (execute_spec _ _ c index step); [done|by eapply required_text]|].
  intros [result|error].
  2: { apply persist_bind; [|intros []; apply fail_spec]. intros log [Hlog _]. by apply verify_failed_view; [|subst index]. }
  destruct (is_error result).
  { apply persist_bind; [|intros []; apply spec_ret; by intros w []]. intros log [Hlog _].
    apply verifying_view; [destruct Hc as (?&?&?&?&?); by split_and!|by subst index]. }
  destruct (add_output_ref_spec (stable_data result) c1) as [f ->].
  case_bool_decide.
  - apply answer_bind. intros session _. apply persist_bind; [|intros []; apply spec_ret; by intros w []]. intros log [_ Hlog].
    apply (running_view (c1 <| wc_output_refs ::= f |>)); [destruct Hc as (?&?&?&?&?); by split_and!|by subst index].
  - destruct (verify_advance_spec index command m (stable_data result) (c1 <| wc_output_refs ::= f |>)) as (g & h & ->).
    set (c2 := _ <| wc_test_results ::= h |>).
    assert (Hc2 : verifying c2) by (destruct Hc as (?&?&?&?&?); by split_and!).
    apply persist_bind; [intros log [_ Hlog]; by apply verifying_view|]. intros _.
    eapply spec_weaken; [apply (IH (S index) c2 Hc2 eq_refl Hrest)|by intros w [Hsafe [_ Hlog]]|done].
Qed.


(** What is known of an open task whose command is not running. *)
Lemma idle_log c w :
  known c w → wc_completed c = false → wc_current_session_id c = None →
  wc_current_step c = Some (lit "verify") ∨ wc_patch_applied c = true →
  wc_workflow_id c = task ∧ is_coding_task c = true ∧ with_log (verified_log c (wc_command_index c)) w.
Proof.
  intros [Hsafe Hview] Hdone Hsession Hstep.
  destruct (task_open task c w.2 Hview Hdone) as (Hid & Hcoding & _ & Hedited & Hv).
  rewrite started_idle in Hv by done. split_and!; [done..|]. split; [done|]. split; [|done]. apply Hedited. tauto.
Qed.

Lemma coding_verify_spec action object context φ :
  spec safe (with_log φ) (coding_verify action object context) (λ _, safe).
Proof.
  unfold coding_verify. apply answer_bind. intros _ _. apply answer_bind. intros id _. apply load_coding_bind. intros c.
  destruct (wc_completed c) eqn:Hdone; [apply done_spec|]. case_bool_decide as Hsession; [apply done_spec|].
  apply eq_None_not_Some in Hsession.
  destruct (negb (entering_verify c) && _) eqn:Hguard; [apply fail_spec|].
  assert (Hstep : wc_current_step c = Some (lit "verify") ∨ wc_patch_applied c = true).
  { unfold entering_verify, retrying_verify in Hguard. rewrite andb_false_iff, !negb_false_iff, !andb_true_iff in Hguard.
    rewrite !bool_decide_eq_true in Hguard. tauto. }
  eapply (spec_given _ (wc_workflow_id c = task ∧ is_coding_task c = true)).
  { intros w Hw. by destruct (idle_log c w Hw Hdone Hsession Hstep) as (? & ? & _). }
  intros [Hid Hcoding].
  eapply spec_weaken with (P := with_log (verified_log c (wc_command_index c))); [| |by intros ? ? Hw; exact Hw].
  2: { intros w Hw. by destruct (idle_log c w Hw Hdone Hsession Hstep) as (_ & _ & ?). }
  apply task_project_bind. intros selected_path.
  eapply (spec_bind_ok _ _ _ _ (λ c1 w,
    (wc_workflow_id c1 = task ∧ is_coding_task c1 = true ∧ wc_completed c1 = false ∧ wc_current_session_id c1 = None) ∧
    with_log (verified_log c1 (wc_command_index c1)) w)).
  { destruct (entering_verify c) eqn:Hentering; [|by apply spec_ret; intros w Hw; split_and!].
    apply ask_bind; [apply coding_verification_plan_quiet|]. intros plan. apply spec_ret.
    intros w [Hsafe [Hedited _]]. split; [done|]. split; [done|]. split; [done|].
    unfold entering_verify in Hentering. repeat (apply andb_true_iff in Hentering as [Hentering ?]).
    match goal with Hi : Nat.eqb (wc_command_index c) 0 = true |- _ => apply Nat.eqb_eq in Hi;
      change (verified (c <| wc_verification_plan := plan |> <| wc_commands := plan |>) (wc_command_index c) w.2);
      rewrite Hi end. apply verified_none. }
  intros c1. eapply (spec_given _ _); [by intros w [Hc1 _]; exact Hc1|]. intros (Hid1 & Hcoding1 & Hdone1 & Hsession1).
  eapply spec_weaken with (P := with_log (verified_log c1 (wc_command_index c1))); [|by intros w []|by intros ? ? Hw; exact Hw].
  cbv zeta. set (c2 := c1 <| wc_current_step := _ |> <| wc_next_step := _ |> <| wc_failure := _ |>).
  assert (Hc2 : verifying c2) by by split_and!.
  apply persist_bind; [intros log Hlog; by apply verifying_view|]. intros _.
  eapply spec_bind_ok; [by apply (verify_steps_spec _ _ _ _ c2)|].
  intros [result|c3]; [by apply spec_ret|].
  eapply (spec_given _ (verifying c3)); [by intros w []|]. intros (Hid3 & Hcoding3 & Hdone3 & _ & _).
  eapply spec_weaken with (P := with_log (verified_log c3 (wc_command_index c3))); [|by intros w []|by intros ? ? Hw; exact Hw].
  apply persist_bind; [|intros []; apply done_spec]. intros log Hlog. by apply verifying_view; [by split_and!|].
Qed.

(** ** Persisting *)

Lemma coding_persist_spec action object context φ :
  spec safe (with_log φ) (coding_persist action object context) (λ _, safe).
Proof.
  unfold coding_persist. apply answer_bind. intros _ _. apply answer_bind. intros id _. apply load_coding_bind. intros c.
  destruct (negb (may_persist c)) eqn:Hguard; [apply fail_spec|]. apply negb_false_iff in Hguard.
  eapply (spec_bind_ok _ _ _ _ (λ _, safe)); [|by intros c'; apply spec_ret].
  destruct (wc_completed c) eqn:Hdone; [apply done_spec|].
  unfold may_persist in Hguard. rewrite !andb_true_iff, !Nat.eqb_eq, !bool_decide_eq_true in Hguard.
  destruct Hguard as [[[[[[[Hsession _] Hstep] _] _] Hindex] Hlength] Hresults].
  apply negb_true_iff, bool_decide_eq_false, eq_None_not_Some in Hsession.
  eapply (spec_given _ (wc_workflow_id c = task ∧ is_coding_task c = true)).
  { intros w Hw. destruct (idle_log c w Hw Hdone Hsession) as (? & ? & _); auto. }
  intros [Hid Hcoding].
  eapply spec_weaken with (P := with_log (verified_log c (length (wc_verification_plan c)))); [| |by intros ? ? Hw; exact Hw].
  2: { intros w Hw. rewrite <- Hindex. apply idle_log; auto. }
  apply task_project_bind. intros selected_path. apply ask_bind; [apply git_workflow_quiet|]. intros git_after.
  apply persist_bind; [|intros []; apply done_spec]. intros log [Hedited Hv]. right. split_and!; [done..|].
  intros _. split_and!; [done|exact Hv|]. split; [exact Hlength|]. apply Forall_forall. intros v Hv'.
  eapply forallb_forall in Hresults; [by apply bool_decide_eq_true in Hresults|by apply list_elem_of_In].
Qed.

(** ** Resuming *)

Lemma verified_less c n log : verified c (S n) log → verified c n log.
Proof.
  unfold verified. intros Hv. etransitivity; [|exact Hv].
  rewrite <- (Nat.min_l n (S n)) at 1 by lia. rewrite <- take_take. apply sublist_take.
Qed.
(** The command of the session has ended. *)
Lemma session_log c log session :
  task_view task (Some c) log → wc_completed c = false → wc_current_session_id c = Some session →
  wc_workflow_id c = task ∧ is_coding_task c = true ∧ verified_log c (S (wc_command_index c)) log.
Proof.
  intros Hview Hdone Hsession. destruct (task_open task c log Hview Hdone) as (Hid & Hcoding & _ & Hedited & Hv).
  unfold started in Hv. rewrite Hsession, bool_decide_eq_true_2 in Hv by done.
  split_and!; [done..|]. split; [|done]. apply Hedited. rewrite Hsession. eauto.
Qed.
Lemma session_completed_spec c data log session :
  task_view task (Some c) log → wc_completed c = false → wc_current_session_id c = Some session →
  let c' := session_completed data c in
  wc_workflow_id c' = task ∧ is_coding_task c' = true ∧ wc_completed c' = false ∧
  wc_current_session_id c' = None ∧ verified_log c' (wc_command_index c') log.
Proof.
  intros Hview Hdone Hsession. destruct (session_log c log session Hview Hdone Hsession) as (Hid & Hcoding & Hv).
  by split_and!.
Qed.
Lemma verifying_again c next failure f log :
  wc_workflow_id c = task ∧ is_coding_task c = true ∧ wc_completed c = false ∧
  wc_current_session_id c = None ∧ verified_log c (wc_command_index c) log →
  task_view task (Some (c <| wc_output_refs ::= f |> <| wc_failure := failure |>
    <| wc_current_step := Some (lit "verify") |> <| wc_next_step := next |>)) log.
Proof. intros (Hid & Hcoding & Hdone & Hsession & Hv). apply verifying_view; [by split_and!|exact Hv]. Qed.
Lemma closed_again c step failure log :
  wc_workflow_id c = task → is_coding_task c = true → step ≠ lit "persist" →
  task_view task (Some (c <| wc_current_step := Some step |> <| wc_next_step := None |>
    <| wc_completed := true |> <| wc_failure := failure |>)) log.
Proof.
  intros Hid Hcoding Hstep. apply closed_view; [done..|]. change (Some step ≠ Some (lit "persist")). congruence.
Qed.

Lemma resume_coding_task_spec c request_id :
  spec safe (known c) (resume_coding_task c request_id) (λ _, safe).
Proof.
  unfold resume_coding_task. destruct (wc_patch_inflight c); [apply fail_spec|].
  destruct (wc_completed c) eqn:Hdone; [apply done_spec|].
  destruct (wc_command_inflight c && _); [apply fail_spec|].
  destruct (wc_current_session_id c) as [session|] eqn:Hsession; [|apply done_spec].
  eapply spec_bind_ok; [apply (poll_spec _ _ _ (known c)); by eauto|]. intros polled. cbv beta zeta.
  destruct (says_status _ ["running"%string]); [apply done_spec|].
  destruct (says_status _ ["completed"%string]).
  - destruct (add_output_ref_spec (stable_data polled) (session_completed (stable_data polled) c)) as [f ->].
    apply persist_bind; [|intros []; apply done_spec]. intros log Hview.
    pose proof (session_completed_spec c (stable_data polled) log session Hview Hdone Hsession) as Hspec. revert Hspec.
    generalize (session_completed (stable_data polled) c). cbv beta zeta. intros d Hd.
    pose proof (verifying_again d (Some (next_coding_step (d <| wc_output_refs ::= f |> <| wc_current_step := Some (lit "verify") |>)))
      (wc_failure d) f log Hd) as Hview'. revert Hview'. destruct d. by apply task_view_same.
  - destruct (says_status _ _); [|apply fail_spec]. apply persist_bind; [|intros []; apply done_spec]. intros log Hview.
    destruct (session_log c log session Hview Hdone Hsession) as (Hid & Hcoding & Hedited & Hv).
    apply verifying_view; [by split_and!|split; [done|by apply verified_less]].
Qed.

(** A command that completed, found later. *)
Definition settled_coding c : WorkflowCheckpoint json :=
  let c := c <| wc_failure := None |> in
  c <| wc_current_step := Some (lit "verify") |> <| wc_next_step := Some (next_coding_step c) |>.
Definition settled_end (step : ustr) (failure : option WorkflowFailure) c : WorkflowCheckpoint json :=
  c <| wc_current_step := Some step |> <| wc_next_step := None |> <| wc_completed := true |>
    <| wc_failure := failure |>.
Lemma settle_cases c session data c' log :
  task_view task (Some c) log → wc_completed c = false → wc_current_session_id c = Some session →
  settle_terminal data c = Some c' →
  c' = settled_coding (session_completed data c) ∨
  ∃ step failure, step ≠ lit "persist" ∧ c' = settled_end step failure (command_ended c).
Proof.
  intros Hview Hdone Hsession. destruct (session_completed_spec c data log session Hview Hdone Hsession) as (_ & Hcoding & _).
  unfold settle_terminal.
  destruct (says_status data ["completed"%string]).
  { assert (Hc : is_coding_task (session_completed data c <| wc_failure := None |>) = true) by exact Hcoding.
    cbv zeta. rewrite Hc. intros [= <-]. by left. }
  destruct (says_status data ["cancelled"%string]); [|destruct (says_status data _); [|done]];
    intros [= <-]; right; eexists _, _; (split; [|reflexivity]); by apply lit_ne.
Qed.
Lemma settle_view c log session data c' :
  task_view task (Some c) log → wc_completed c = false → wc_current_session_id c = Some session →
  settle_terminal data c = Some c' → task_view task (Some c') log.
Proof.
  intros Hview Hdone Hsession Hsettled.
  destruct (settle_cases c session data c' log Hview Hdone Hsession Hsettled) as [->|(step & failure & Hstep & ->)].
  - pose proof (session_completed_spec c data log session Hview Hdone Hsession) as Hspec. revert Hspec. cbv zeta.
    generalize (session_completed data c). intros d Hd.
    pose proof (verifying_again d (Some (next_coding_step (d <| wc_failure := None |>))) None id log Hd) as Hview'.
    revert Hview'. destruct d. by apply task_view_same.
  - destruct (task_open task c log Hview Hdone) as (Hid & Hcoding & _). by apply closed_again.
Qed.
Lemma reap_task_spec : spec safe safe reconcile_terminal_workflow_command (λ _, safe).
Proof.
  unfold reconcile_terminal_workflow_command. eapply spec_bind_ok; [apply load_spec|].
  intros [c|]; [|by apply spec_ret]. destruct (wc_completed c) eqn:Hdone; [apply done_spec|].
  destruct (wc_current_session_id c) as [session|] eqn:Hsession; [|apply done_spec].
  intros w Hw. unfold mbind, eff_bind, get_state.
  destruct (durable_command_terminal w session) as [terminal|]; [|exact (with_log_safe _ _ _ Hw)].
  destruct (settle_terminal (stable_data terminal) c) as [c'|] eqn:Hsettled; [|exact (with_log_safe _ _ _ Hw)].
  revert w Hw. eapply spec_weaken; [apply (persist_log c' (task_view task (Some c)))|done|by intros ? w []].
  intros log Hview. by eapply settle_view.
Qed.

Lemma phase_spec action phase object context φ :
  phase ≠ lit "prepare" →
  spec safe (with_log φ) (coding_agent_workflow_phase action phase object context) (λ _, safe).
Proof.
  intros Hphase. unfold coding_agent_workflow_phase. rewrite (bool_decide_eq_false_2 _ Hphase).
  destruct (bool_decide _); [apply coding_edit_spec|]. destruct (bool_decide _); [apply coding_verify_spec|].
  destruct (bool_decide _); [apply coding_persist_spec|]. apply (fail_spec invalid_argument).
Qed.

Lemma resume_task_spec policy mode context durable_task_id token :
  spec safe safe (resume_agent_workflow policy mode context durable_task_id token) (λ _, safe).
Proof.
  unfold resume_agent_workflow. eapply spec_bind_ok; [apply load_spec|]. intros [c0|]; [|by apply spec_fail].
  case_match; [apply fail_spec|]. eapply spec_bind_ok; [apply adopt_spec|]. intros c. cbv beta.
  apply answer_bind. intros original _. apply answer_bind. intros action _.
  destruct (bool_decide (action = _)); [apply (fail_spec invalid_argument)|].
  destruct (negb (pd_allowed _)); [apply fail_spec|].
  destruct (is_coding_task c) eqn:Hcoding.
  - eapply spec_bind_ok; [apply (baseline_spec _ _ _ (known c)); by eauto|]. intros []. cbv beta zeta.
    destruct (wc_next_step c) as [next|]; [|apply resume_coding_task_spec].
    destruct (_ && _ && _ && _ && says_one_of next _) eqn:Hnext; [|apply resume_coding_task_spec].
    destruct (negb (pd_allowed _)); [apply fail_spec|]. apply phase_spec. intros ->.
    apply andb_true_iff in Hnext as [_ Hnext]. done.
  - destruct (wc_completed c) eqn:Hdone; [apply done_spec|].
    intros w [Hsafe Hview]. destruct (task_open task c w.2 Hview Hdone) as (_ & ? & _). congruence.
Qed.

(** ** Preparing *)

(** Nothing was started, and no workflow is open. *)
Definition fresh w : Prop :=
  w.2 = [] ∧
  stored_as (λ o, match o with Some c => wc_workflow_id c ≠ task ∧ wc_completed c = true | None => True end) w.
Lemma fresh_with_log w : fresh w → with_log (λ log, log = []) w.
Proof.
  intros [Hlog Hstored]. split; [|done]. split; [by left|]. intros [c|] Ho; [|done]. left. by apply (Hstored (Some c)).
Qed.
Lemma slot_spec φ : spec safe (with_log φ) ensure_checkpoint_slot_available (λ _, with_log φ).
Proof.
  unfold ensure_checkpoint_slot_available. eapply spec_bind_ok; [apply (load_with_log protocol)|].
  intros [c|]; [destruct (wc_completed c)|]; [|apply spec_fail|]; try apply spec_ret; by intros w [[] _].
Qed.
Lemma coding_prepare_spec action object context :
  cx_task_id context = task →
  spec safe (with_log (λ log, log = [])) (coding_prepare action object context) (λ _, safe).
Proof.
  intros Htask. unfold coding_prepare. apply answer_bind. intros _ _.
  eapply spec_bind_ok; [apply slot_spec|]. intros []. apply answer_bind. intros objective _.
  destruct (bool_decide (trim objective = [])); [apply (fail_spec invalid_argument)|].
  apply ask_bind; [apply project_context_quiet|]. intros project. apply answer_bind. intros selected_path _.
  apply ask_bind; [apply coding_context_quiet|]. intros coding.
  apply ask_bind; [apply coding_verification_plan_quiet|]. intros plan.
  apply ask_bind; [apply git_workflow_quiet|]. intros git_before.
  apply persist_bind; [|intros []; apply done_spec]. intros log ->. right. split_and!; [exact Htask|done|].
  split_and!; [done| |apply verified_none]. intros [Hs|[[? Hs]|Hs]]; done.
Qed.

(** ** The calls of a task's life *)

(** Calls that go on with a task: its later phases, and resuming. *)
Definition continues (arguments : json) : Prop :=
  ∃ object, as_object arguments = Some object ∧
    (member_str "action" object = Some (lit "resume") ∨
     ∃ phase, member_str "phase" object = Some phase ∧ phase ≠ lit "prepare").
Definition prepares (arguments : json) : Prop :=
  ∃ object, as_object arguments = Some object ∧ member_str "action" object ≠ Some (lit "resume") ∧
    member_str "phase" object = Some (lit "prepare").

Lemma agent_workflow_continues policy mode arguments context :
  continues arguments → spec safe safe (agent_workflow policy mode arguments context) (λ _, safe).
Proof.
  intros (object & Hobject & Hcase). eapply spec_weaken with (P := with_log (λ _, True)); [|by intros w Hw; split|by intros ? ? Hw; exact Hw].
  unfold agent_workflow, object_args. rewrite Hobject. apply answer_bind. intros o Ho. simpl in Ho. injection Ho as <-.
  apply answer_bind. intros action Haction. destruct (negb _); [apply (fail_spec invalid_argument)|].
  case_bool_decide as Hresume.
  - apply answer_bind. intros _ _. apply answer_bind. intros durable_task_id _.
    eapply spec_weaken; [apply resume_task_spec|by intros w []|done].
  - destruct Hcase as [Haction'|(phase & -> & Hphase)]; [|by apply phase_spec].
    unfold required_string in Haction. rewrite Haction' in Haction. simpl in Haction. congruence.
Qed.
Lemma agent_workflow_prepares policy mode arguments context :
  prepares arguments → cx_task_id context = task →
  spec safe fresh (agent_workflow policy mode arguments context) (λ _, safe).
Proof.
  intros (object & Hobject & Hresume & Hphase) Htask.
  eapply spec_weaken with (P := with_log (λ log, log = [])); [|apply fresh_with_log|by intros ? ? Hw; exact Hw].
  unfold agent_workflow, object_args. rewrite Hobject. apply answer_bind. intros o Ho. simpl in Ho. injection Ho as <-.
  apply answer_bind. intros action Haction. destruct (negb _); [apply (fail_spec invalid_argument)|].
  case_bool_decide as Haction'.
  { destruct Hresume. unfold required_string in Haction. destruct (member_str "action" object) as [[|x s]|]; unfold invalid in *; congruence. }
  rewrite Hphase. by apply coding_prepare_spec.
Qed.
End task.

(** What other calls do to the store: a kill of the workflow's command, the
    cancellation of the workflow, and reading it. *)
Inductive outside_change `{Json} : WorkflowCheckpoint json → WorkflowCheckpoint json → Prop :=
  | outside_aged c c' : aged c c' → outside_change c c'
  | outside_kill c session c1 c' : settle_kill session c = Some c1 → retimed c1 c' → outside_change c c'
  | outside_cancel c c' :
      retimed (ended (lit "cancelled") (lit "cancelled") (lit "cancelled") c) c' → outside_change c c'.

Section history.
Context `{Json} `{Encodings} {A : Type} `{!WorkspaceRuntimeAdapter A} `{!DurableAdapter A}.
Implicit Types (c : WorkflowCheckpoint json) (w : A * list Effect).

(** One step in the life of a task; every call may fail or stop anywhere. *)
Inductive task_step : A * list Effect → A * list Effect → Prop :=
  | step_call policy mode arguments context w :
      continues arguments → task_step w (agent_workflow policy mode arguments context w).1
  | step_reap w : task_step w (reconcile_terminal_workflow_command w).1
  | step_outside a a' log :
      (∀ o', stores a' o' → ∃ o, stores a o ∧
        (o' = o ∨ ∃ c c', o = Some c ∧ o' = Some c' ∧ outside_change c c')) →
      task_step (a, log) (a', log).

Lemma outside_view task c c' log :
  outside_change c c' → task_view task (Some c) log → task_view task (Some c') log.
Proof.
  intros [c0 c1 Haged|c0 session c1 c2 Hkill Hc|c0 c1 Hc] Hview.
  - by eapply task_aged.
  - eapply task_retimed; [exact Hc|]. unfold settle_kill in Hkill.
    destruct (wc_completed c0) eqn:Hdone; [done|]. simpl in Hkill. case_bool_decide as Hsession; [|done].
    destruct (session_log task c0 log session Hview Hdone Hsession) as (Hid & Hcoding & Hedited & Hv).
    injection Hkill as <-. destruct (task_open task c0 log Hview Hdone) as (_ & _ & Hprepare & _).
    right. split; [exact Hid|]. split; [exact Hcoding|]. change (if wc_completed c0 then closed_task c0 log else
      open_task (c0 <| wc_current_session_id := None |>) log). rewrite Hdone.
    split; [exact Hprepare|]. split; [by intros _|]. by apply verified_less.
  - eapply task_retimed; [exact Hc|]. by apply task_ended; [by apply lit_ne|].
Qed.
Lemma task_step_safe task w w' :
  task_step w w' → holding (task_protocol task) w → holding (task_protocol task) w'.
Proof.
  intros [policy mode arguments context w0 Hcontinues|w0|a a' log Houtside] Hw.
  - by apply spec_keeps; [apply agent_workflow_continues|].
  - by apply spec_keeps; [apply reap_task_spec|].
  - destruct Hw as [Hallowed Hstored]. split; [done|]. intros o' Ho'.
    destruct (Houtside o' Ho') as (o & Ho & [->|(c & c' & -> & -> & Hc)]); [by apply Hstored|].
    by eapply outside_view, (Hstored (Some c)).
Qed.
Lemma task_history policy mode arguments context (a : A) w :
  prepares arguments → fresh (cx_task_id context) (a, []) →
  rtc task_step (agent_workflow policy mode arguments context (a, [])).1 w →
  holding (task_protocol (cx_task_id context)) w.
Proof.
  intros Hprepares Hfresh Hsteps.
  assert (Hfirst : holding (task_protocol (cx_task_id context)) (agent_workflow policy mode arguments context (a, [])).1).
  { pose proof (agent_workflow_prepares _ policy mode arguments context Hprepares eq_refl _ Hfresh) as Hcall.
    by destruct (agent_workflow _ _ _ _ _) as [w' [[v|e]|]]. }
  induction Hsteps as [|w1 w2 w3 Hstep _ IH]; [done|]. by eapply IH, task_step_safe.
Qed.

(** A coding task edits at most once.  After its preparation, whatever
    phases are asked for in whatever order, by any session and under any policy,
    with resumptions, reconciliations, kills and cancellations in between, failing
    calls and the process stopping anywhere: at most one patch has been attempted,
    and commands were started only after it. *)
Theorem task_edits_at_most_once policy mode arguments context (a : A) w :
  prepares arguments → fresh (cx_task_id context) (a, []) →
  rtc task_step (agent_workflow policy mode arguments context (a, [])).1 w →
  w.2 = [] ∨ ∃ patch commands, w.2 = EffPatch patch :: (EffCommand <$> commands).
Proof. intros Hprepares Hfresh Hsteps. by destruct (task_history _ _ _ _ _ _ Hprepares Hfresh Hsteps) as [? _]. Qed.

(** What is persisted has been verified.  However a coding task came to
    be stored as persisted, its edit was attempted, every command of its plan was
    started after that, in the plan's order, and every one has a recorded result
    that says it completed. *)
Theorem persisted_task_was_verified policy mode arguments context (a : A) w c :
  prepares arguments → fresh (cx_task_id context) (a, []) →
  rtc task_step (agent_workflow policy mode arguments context (a, [])).1 w →
  stores w.1 (Some c) → wc_workflow_id c = cx_task_id context → wc_completed c = true →
  wc_current_step c = Some (lit "persist") →
  (∃ patch commands, w.2 = EffPatch patch :: (EffCommand <$> commands) ∧
    (step_text <$> wc_verification_plan c) `sublist_of` commands) ∧
  length (wc_command_results c) = length (wc_verification_plan c) ∧
  Forall (λ v, get_str (lit "status") v = Some (lit "completed")) (wc_command_results c).
Proof.
  intros Hprepares Hfresh Hsteps Hstored Hid Hdone Hstep.
  destruct (task_history _ _ _ _ _ _ Hprepares Hfresh Hsteps) as [_ Hview].
  destruct (Hview (Some c) Hstored) as [[? _]|(_ & _ & Hc)]; [done|]. rewrite Hdone in Hc.
  destruct (Hc Hstep) as ((patch & commands & Hlog) & Hv & Hpassed). split; [|exact Hpassed].
  exists patch, commands. split; [done|]. unfold verified, plan_texts in Hv.
  by rewrite Hlog, commands_of_edited, <- length_fmap with (f := step_text), firstn_all in Hv.
Qed.
End history.

(** ** Tasks that nothing goes on with *)

Section stuck.
Context `{Json}.
Implicit Types c : WorkflowCheckpoint json.

(** What every phase but the preparation asks of the checkpoint. *)
Definition accepted c : bool :=
  bool_decide (wc_current_step c = Some (lit "prepare")) || entering_verify c || retrying_verify c || may_persist c.
(** A patch that could not be applied leaves a task that no phase accepts, and that
    is not completed. *)
Lemma failed_edit_is_stuck task c :
  editing task c → wc_patch_applied c = false → accepted c = false ∧ wc_completed c = false.
Proof.
  intros (_ & _ & Hdone & Hstep & _) Hpatch. split; [|done].
  unfold accepted, entering_verify, retrying_verify, may_persist. rewrite Hstep, Hpatch.
  rewrite (bool_decide_eq_false_2 (Some (lit "edit") = Some (lit "prepare"))), (bool_decide_eq_false_2 (Some (lit "edit") = Some (lit "verify"))) by done.
  by rewrite !andb_false_r.
Qed.
(** So does a verification that is interrupted between two of its commands. *)
Lemma interrupted_verification_is_stuck c :
  wc_current_step c = Some (lit "verify") → wc_next_step c = Some (lit "persist") →
  (wc_command_index c < length (wc_verification_plan c))%nat → accepted c = false.
Proof.
  intros Hstep Hnext Hindex. unfold accepted, entering_verify, retrying_verify, may_persist. rewrite Hstep, Hnext.
  rewrite (proj2 (Nat.eqb_neq (wc_command_index c) (length _))) by lia.
  rewrite (bool_decide_eq_false_2 (Some (lit "verify") = Some (lit "prepare"))), (bool_decide_eq_false_2 (Some (lit "verify") = Some (lit "edit"))),
    (bool_decide_eq_false_2 (Some (lit "persist") = Some (lit "verify"))) by done.
  by rewrite !andb_false_r.
Qed.
End stuck.

(** ** A concrete task *)

Section demo.
#[local] Existing Instance demo_json.
#[local] Existing Instance plain_encodings.
Definition demo_plan : list json := [demo_command "build"; demo_command "test"].
#[local] Instance task_adapter : WorkspaceRuntimeAdapter DemoAdapter := demo_adapter_with demo_plan.
#[local] Instance task_durable : DurableAdapter DemoAdapter := demo_durable_with demo_plan.

Definition demo_phase (phase : string) (members : list (string * json)) : json :=
  obj ([("action", js "feature"); ("phase", js phase)] ++ members).
Definition demo_prepare : json := demo_phase "prepare" [("objective", js "goal")].
Definition demo_edit : json := demo_phase "edit" [("task_id", js "task");
  ("patch", json_string (lit "*** Begin Patch" ++ LF ++ lit "*** Add File: out/a" ++ LF ++ lit "+x" ++ LF ++
                         lit "*** End Patch"))].
Definition demo_verify : json := demo_phase "verify" [("task_id", js "task")].
Definition demo_persist : json := demo_phase "persist" [("task_id", js "task")].
Definition task_call (request : json) : DemoAdapter * list Effect → DemoAdapter * list Effect := λ w,
  (agent_workflow demo_policy PermissionFull request demo_context w).1.
Definition demo_start : DemoAdapter * list Effect := task_call demo_prepare (MkDemoAdapter None 9, []).
(** The edit is asked for twice. *)
Definition demo_end : DemoAdapter * list Effect :=
  task_call demo_persist (task_call demo_verify (task_call demo_edit (task_call demo_edit demo_start))).

Example demo_task :
  commands_of demo_end.2 = [lit "build"; lit "test"] ∧ length demo_end.2 = 3%nat ∧
  (wc_current_step <$> da_stored demo_end.1) = Some (Some (lit "persist")).
Proof. vm_compute. split_and!; reflexivity. Qed.

Lemma demo_prepares : prepares demo_prepare.
Proof. eexists. split_and!; [reflexivity|by apply (bool_decide_unpack _); vm_compute..]. Defined.
Lemma demo_fresh : fresh (cx_task_id demo_context) (MkDemoAdapter None 9, []).
Proof. split; [done|]. by intros o ->. Defined.
Lemma demo_continues (request : json) phase :
  as_object request ≫= member_str "phase" = Some phase → phase ≠ lit "prepare" → continues request.
Proof.
  destruct (as_object request) as [object|] eqn:Ho; [|done]. intros Hp Hne. exists object. split; [done|]. right. by exists phase.
Defined.
Lemma demo_steps : rtc task_step demo_start demo_end.
Proof.
  unfold demo_end.
  do 4 (eapply rtc_r; [|apply step_call; eapply demo_continues;
    [vm_compute; reflexivity|by apply (bool_decide_unpack _); vm_compute]]).
  apply rtc_refl.
Defined.

Lemma task_edits_at_most_once_witness :
  demo_end.2 = [] ∨ ∃ patch commands, demo_end.2 = EffPatch patch :: (EffCommand <$> commands).
Proof.
  apply (task_edits_at_most_once demo_policy PermissionFull demo_prepare demo_context (MkDemoAdapter None 9)).
  - apply demo_prepares.
  - apply demo_fresh.
  - apply demo_steps.
Defined.

Lemma demo_stored :
  ∃ c, da_stored demo_end.1 = Some c ∧ wc_workflow_id c = lit "task" ∧ wc_completed c = true ∧
    wc_current_step c = Some (lit "persist").
Proof.
  assert (Hstored : match da_stored demo_end.1 with
    | Some c => (wc_workflow_id c, wc_completed c, wc_current_step c) = (lit "task", true, Some (lit "persist"))
    | None => False end) by (vm_compute; reflexivity).
  destruct (da_stored demo_end.1) as [c|]; [|done]. exists c. by injection Hstored.
Defined.
Lemma persisted_task_was_verified_witness :
  ∃ c, da_stored demo_end.1 = Some c ∧
    (∃ patch commands, demo_end.2 = EffPatch patch :: (EffCommand <$> commands) ∧
      (step_text <$> wc_verification_plan c) `sublist_of` commands) ∧
    length (wc_command_results c) = length (wc_verification_plan c) ∧
    Forall (λ v, get_str (lit "status") v = Some (lit "completed")) (wc_command_results c).
Proof.
  destruct demo_stored as (c & Hc & Hid & Hdone & Hstep). exists c. split; [exact Hc|].
  apply (persisted_task_was_verified demo_policy PermissionFull demo_prepare demo_context (MkDemoAdapter None 9)
    demo_end c demo_prepares demo_fresh demo_steps (eq_sym Hc) Hid Hdone Hstep).
Defined.
End demo.
