(* ===== verification/FacadeCommands.v ===== *)
(** * FacadeCommands: the command sessions of the facade

    [src/src-tauri/src/mcp/facade.rs], [PublicCommandSessions] and the commands of
    [CodingToolsRuntimeAdapter]: a command gets a public session, its execution is
    recorded in the execution registry, and what the private runtime answers is
    turned into a public result, a terminal of the registry and output handles.
    Other threads use the registry between any two of its critical sections. *)

From S2P Require Import Prelude Text StateModel BrokerProtocol WindowsPath HostFs PathAuthority FilesystemService Effects Json WorkflowCheckpoint Domain ExecutionRegistry ExecutionFacts ExecutionProperties OutputHandles Facade FacadeOutput FacadeArguments FacadeRequests FacadeWorkflow.
#[local] Open Scope N_scope.

(** The registry has Rust's strings as bytes, the protocol as characters. *)
Definition name_of (s : ustr) : string :=
  String.string_of_list_ascii (map Ascii.ascii_of_N (utf8_encode s)).

(* @src mcp/facade.rs:955-961 PublicCommandSession *)
Record PublicCommandSession := MkPublicCommandSession {
  ps_execution_id : ExecutionId;
  ps_started_at : millis;
  ps_pending_output : ustr;
  ps_pending_output_truncated : bool;
  ps_stderr_protocol_buffer : ustr
}.
#[export] Instance eta_PublicCommandSession : Eta PublicCommandSession := λ r,
  MkPublicCommandSession (ps_execution_id r) (ps_started_at r) (ps_pending_output r)
    (ps_pending_output_truncated r) (ps_stderr_protocol_buffer r).
(* @src mcp/facade.rs:964-967 PublicCommandSessions *)
Record PublicCommandSessions := MkPublicCommandSessions {
  pc_sessions : gmap string PublicCommandSession;
  pc_outputs : OutputHandleRegistry
}.
#[export] Instance eta_PublicCommandSessions : Eta PublicCommandSessions := λ r,
  MkPublicCommandSessions (pc_sessions r) (pc_outputs r).
(* @src mcp/facade.rs:970-973 StartedPublicCommand *)
Record StartedPublicCommand := MkStartedPublicCommand {
  sp_public_session_id : string;
  sp_adoption_token : AdoptionToken
}.

(** ** Pending output *)

(* @src mcp/facade.rs:1162-1171 PublicCommandSessions::append_pending *)
Definition append_pending (public_session_id : string) (output : ustr) (self : PublicCommandSessions) :
    PublicCommandSessions :=
  if bool_decide (output = []) then self else
  self <| pc_sessions ::= alter (λ session,
    let '(pending, trimmed) := trim_utf8_front MAX_PENDING_OUTPUT_BYTES (ps_pending_output session ++ output) in
    session <| ps_pending_output := pending |> <| ps_pending_output_truncated ::= orb trimmed |>)
    public_session_id |>.
Definition TRUNCATED_NOTICE : ustr := lit "[earlier command output truncated]" ++ LF.
(* @src mcp/facade.rs:1173-1182 PublicCommandSessions::take_pending *)
Definition take_pending (public_session_id : string) (self : PublicCommandSessions) :
    PublicCommandSessions * ustr :=
  match pc_sessions self !! public_session_id with
  | None => (self, [])
  | Some session =>
      (self <| pc_sessions ::= <[public_session_id := session <| ps_pending_output := [] |>
                                                         <| ps_pending_output_truncated := false |>]> |>,
       (if ps_pending_output_truncated session then TRUNCATED_NOTICE else []) ++ ps_pending_output session)
  end.

Section results.
Context `{Json}.

(* @src mcp/facade.rs:7434-7443 command_result_with_output *)
Definition command_result_with_output (result : json) (output : ustr) : json :=
  match as_object result, get (lit "structuredContent") result ≫= as_object,
        pointer ["structuredContent"; "data"]%string result ≫= as_object with
  | Some members, Some structured, Some data =>
      json_object (<[lit "structuredContent" := json_object (<[lit "data" :=
        json_object (<[lit "output" := json_string output]> data)]> structured)]> members)
  | _, _, _ => result
  end.
(* @src mcp/facade.rs:7445-7455 command_result_prepend_output *)
Definition command_result_prepend_output (result : json) (prefix : ustr) : json :=
  if bool_decide (prefix = []) then result else
  command_result_with_output result
    (prefix ++ default [] (pointer ["structuredContent"; "data"; "output"]%string result ≫= as_str)).

Definition outcome_of_error_code (error_code : option ustr) : TerminalOutcome :=
  match error_code with
  | Some code =>
      if bool_decide (code = lit "ProcessTimedOut") then TimedOut
      else if bool_decide (code = lit "ProcessCancelled") then Cancelled
      else if says_one_of code ["SessionUnavailable"; "RuntimeUnavailable"; "RuntimeProtocolMismatch";
                                "RuntimeCapabilityMismatch"]%string then Lost
      else Failed
  | None => Failed
  end.
Definition error_code_of_outcome (outcome : TerminalOutcome) : option ustr :=
  match outcome with
  | Completed => None
  | Cancelled => Some (lit "ProcessCancelled")
  | TimedOut => Some (lit "ProcessTimedOut")
  | Lost => Some (lit "SessionUnavailable")
  | Failed | Blocked => Some (lit "ProcessFailed")
  end.
(** The outcome that a result's data names. *)
Definition outcome_of_status (data : option json) : option TerminalOutcome :=
  status ← data ≫= get_str (lit "status");
  if bool_decide (status = lit "completed") then Some Completed
  else if bool_decide (status = lit "timed_out") then Some TimedOut
  else if bool_decide (status = lit "cancelled") then Some Cancelled
  else if bool_decide (status = lit "failed") then Some Failed
  else None.
(* @src mcp/facade.rs:2836-2905 execution_terminal_from_result *)
Definition execution_terminal_from_result (now : millis) (result : json) : ExecutionTerminal :=
  let data : option json := pointer ["structuredContent"; "data"]%string result in
  let error_code : option ustr := pointer ["structuredContent"; "error"; "code"]%string result ≫= as_str in
  let status := match outcome_of_status data with
                | Some outcome => outcome
                | None => outcome_of_error_code error_code
                end in
  let error_code := match error_code with Some code => Some code | None => error_code_of_outcome status end in
  let primary : list ustr := option_list (data ≫= get_str (lit "output_ref")) in
  let refs : option json := data ≫= get (lit "output_refs") in
  let output_refs : list ustr := foldl (λ l stream,
    match refs ≫= get_str (lit stream) with
    | Some value => if bool_decide (value ∈ l) then l else l ++ [value]
    | None => l
    end) primary ["stdout"; "stderr"]%string in
  MkExecutionTerminal status ((data ≫= get (lit "exit_code")) ≫= as_i64)
    (name_of <$> (data ≫= get_str (lit "signal"))) (name_of <$> output_refs) (name_of <$> error_code) now.

(* @src mcp/facade.rs:2907-2923 normalize_execution_registry_error *)
Definition normalize_execution_registry_error (error : ExecutionRegistryError) : FacadeError :=
  match error with
  | CapacityExceeded => facade_error FcQueueCapacityExceeded "执行容量已满，请等待已有命令结束后重试" true
  | OwnerConflict _ _ _ | NotOrphaned _ | AdoptionDenied =>
      facade_error FcTaskNotOwned
        "execution ownership transfer requires an orphaned resource and a valid credential" false
  | _ => command_state_internal_error
  end.
End results.

(** ** The adapter *)

(** The clock, the random names, the outcome of the system calls of each write, and
    the other threads; [random] never repeats a name of a recorded execution. *)
Class CommandHost := {
  host_io : nat → PersistIo;
  host_now : nat → millis;
  random : nat → string;
  random_execution : nat → ExecutionProperties.World → ExecutionId;
  others : nat → ExecutionProperties.World → ExecutionProperties.World;
  random_execution_fresh n w e : e ∈ executions w → er_id e ≠ random_execution n w
}.
(** The private runtime, reached through [CodingToolsRuntime]. *)
Class PrivateRuntime `{Json} (R : Type) := {
  call_tool (name : ustr) (arguments : json) (request_id : option json) (timeout_ms : option N) :
    R → R * result CodingToolsRuntimeError json;
  root_is_running : R → R * result CodingToolsRuntimeError bool
}.

(** The workspace, the shell and the caches of the adapter are not part of it. *)
(* @src mcp/facade.rs:1263-1276 CodingToolsRuntimeAdapter *)
Record Adapter {R : Type} := MkAdapter {
  ad_public : PublicCommandSessions;
  ad_registry : ExecutionProperties.World;
  ad_runtime : R;
  ad_pending_runtime_fault : option CodingToolsRuntimeError;
  ad_checkpoint : CheckpointFiles;
  ad_calls : nat
}.
Arguments Adapter : clear implicits.
Arguments MkAdapter {_}.
#[export] Instance eta_Adapter R : Eta (Adapter R) := λ r,
  MkAdapter (ad_public r) (ad_registry r) (ad_runtime r) (ad_pending_runtime_fault r) (ad_checkpoint r) (ad_calls r).

Section adapter.
Context `{Json} `{ExecutionCodec} `{CommandHost} {R : Type} `{!PrivateRuntime R}.
Context `{CheckpointHost} `{!Serde (WorkflowCheckpoint json)}.
#[local] Abbreviation A := (Adapter R).

Definition tick : eff A nat := λ s, (s <| ad_calls ::= S |>, Some (ad_calls s)).
(** A critical section of the registry, after whatever other threads did. *)
Definition critical {X} (f : ExecutionProperties.World → ExecutionProperties.World * option X) : eff A X := λ s,
  let '(w, r) := f (others (ad_calls s) (ad_registry s)) in
  (s <| ad_registry := w |> <| ad_calls ::= S |>, r).
Definition look {X} (f : ExecutionProperties.World → X) : eff A X := critical (λ w, (w, Some (f w))).
Definition returned {X} (r : ExecutionRegistry.call X) : option (result ExecutionRegistryError X) :=
  match r with Returned r => Some r | Panicked => None end.
Definition commit (io : PersistIo) (op : operation) (w : ExecutionProperties.World) :
    ExecutionProperties.World * option (result ExecutionRegistryError (list ExecutionId)) :=
  let '(inner, fs, r) := transact io (operation_name op) (operation_mutation op) (w_inner w) (w_fs w) in
  (MkWorld inner fs (match r with
                     | Returned (Ok ended) => list_to_set ended ∪ w_pending w
                     | _ => w_pending w
                     end), returned r).
Definition transaction (op : operation) : eff A (result ExecutionRegistryError (list ExecutionId)) :=
  n ← tick; critical (commit (host_io n) op).
Definition registry {X} (m : eff A (result ExecutionRegistryError X)) : call A X :=
  r ← m; mret (map_err normalize_execution_registry_error r).

(** [ExecutionRegistry::finish]: the transaction, and then the signals are forgotten. *)
Definition registry_finish (id : ExecutionId) (terminal : ExecutionTerminal) :
    eff A (result ExecutionRegistryError unit) :=
  ended ←? transaction (OpFinish id terminal);
  _ ← critical (λ w, (w <| w_inner ::= forget_signals ended |> <| w_pending ::= (.∖ list_to_set ended) |>, Some tt));
  mret (Ok ()).
Definition execution_of (public_session_id : string) : eff A (option ExecutionRecord) :=
  look (λ w, execution_for_public_session (eri_state (w_inner w)) (MkPublicSessionId public_session_id)).
Definition signal_of (public_session_id : string) : eff A (option string) :=
  look (λ w, cancellation_signal (MkPublicSessionId public_session_id) (w_inner w)).

(** ** Public sessions *)

Definition public_change {X} (f : PublicCommandSessions → PublicCommandSessions * X) : eff A X := λ s,
  let '(public, x) := f (ad_public s) in (s <| ad_public := public |>, Some x).
Definition public_look {X} (f : PublicCommandSessions → X) : eff A X := λ s, (s, Some (f (ad_public s))).
(* @src mcp/facade.rs:950-952 next_public_handle *)
Definition next_public_handle (prefix : string) : eff A string :=
  n ← tick; mret (prefix +:+ "-" +:+ random n)%string.

(* @src mcp/facade.rs:976-1001 PublicCommandSessions::start_session *)
Definition start_session (owner_task_id : option string) (owner_session : option McpSessionId) :
    call A StartedPublicCommand :=
  public ← next_public_handle "lb-session";
  task ← match owner_task_id with Some task => mret task | None => next_public_handle "lb-task" end;
  n ← tick;
  let token := MkAdoptionToken (random (S n)) in
  started ←? registry (critical (λ w,
    let id := random_execution n w in
    let '(w, r) := commit (host_io n) (OpStart (host_now n) id token (MkTaskId task) (MkPublicSessionId public)
                                         owner_session) w in
    (w, (λ r, match r with Ok _ => Ok id | Err e => Err e end) <$> r)));
  now ← tick;
  _ ← public_change (λ self, (self <| pc_sessions ::= <[public :=
        MkPublicCommandSession started (host_now now) [] false []]> |>, ()));
  mret (Ok (MkStartedPublicCommand public token)).

Definition session_of (public_session_id : string) : eff A (option PublicCommandSession) :=
  public_look (λ self, pc_sessions self !! public_session_id).

(* @src mcp/facade.rs:1003-1020 PublicCommandSessions::bind_private_session *)
Definition bind_private_session (public_session_id : string) (private_session_id : ustr) : call A unit :=
  session ← session_of public_session_id;
  match session with
  | None => fail session_unavailable
  | Some session =>
      _ ←? registry (transaction (OpBindHandle (ps_execution_id session)
                                   (MkRuntimeCommandHandle (name_of private_session_id))));
      mret (Ok ())
  end.
(* @src mcp/facade.rs:1022-1030 PublicCommandSessions::public_output_for_private *)
Definition public_output_for_private (private_output_ref : ustr) (owner_public_session_id : string) (stream : ustr) :
    eff A ustr :=
  n ← tick;
  public ← public_change (λ self,
    let '(outputs, public) := public_for_private (pc_outputs self) (name_of private_output_ref)
                                owner_public_session_id (name_of stream) (random n) in
    (self <| pc_outputs := outputs |>, public));
  mret (text public).

(** The names are collected in the order of the map. *)
(* @src mcp/facade.rs:1042-1052 PublicCommandSessions::reap_expired_mappings, the search *)
Fixpoint expired_sessions (names : list string) : eff A (list string) :=
  match names with
  | [] => mret []
  | public :: names =>
      execution ← execution_of public;
      rest ← expired_sessions names;
      mret (match execution with None => public :: rest | Some _ => rest end)
  end.
(* @src mcp/facade.rs:1041-1056 PublicCommandSessions::reap_expired_mappings *)
Definition reap_expired_mappings : eff A unit :=
  names ← public_look (λ self, (map_to_list (pc_sessions self)).*1);
  expired ← expired_sessions names;
  public_change (λ self, (MkPublicCommandSessions (foldl (λ m k, delete k m) (pc_sessions self) expired)
                            (reap_owned_by (pc_outputs self) expired), ())).

(* @src mcp/facade.rs:1058-1075 PublicCommandSessions::stable_metadata *)
Definition stable_metadata (public_session_id : string) : eff A (option (string * string * N)) :=
  session ← session_of public_session_id;
  match session with
  | None => mret None
  | Some session =>
      execution ← execution_of public_session_id;
      match execution with
      | None => mret None
      | Some execution =>
          now ← tick;
          mret (Some (task_id_str (er_task_id execution), execution_id_str (er_id execution),
                      saturating_sub (host_now now) (ps_started_at session)))
      end
  end.
(* @src mcp/facade.rs:1077-1087 PublicCommandSessions::private_session *)
Definition private_session (public_session_id : string) : eff A (option string) :=
  session ← session_of public_session_id;
  match session with
  | None => mret None
  | Some _ =>
      execution ← execution_of public_session_id;
      mret (handle ← execution ≫= er_runtime_handle; Some (runtime_handle_str handle))
  end.
(* @src mcp/facade.rs:1101-1114 PublicCommandSessions::output_owned_by *)
Definition output_owned_by (public_output_ref : string) (owner : McpSessionId) : eff A bool :=
  found ← public_look (λ self, owner_of (pc_outputs self) public_output_ref);
  match found with
  | Some (McpSession output_owner) => mret (bool_decide (output_owner = owner))
  | Some (PublicSession public_session) =>
      execution ← execution_of public_session;
      mret match execution with
           | Some execution => bool_decide (er_owner_session execution = Some owner)
           | None => false
           end
  | None => mret false
  end.
(* @src mcp/facade.rs:1116-1124 PublicCommandSessions::output_refs_by_stream *)
Definition output_refs_by_stream (self : PublicCommandSessions) (output_refs : list string) : gmap ustr json :=
  list_to_map (rev (omap (λ output_ref,
    stream ← stream_of (pc_outputs self) output_ref; Some (text stream, json_string (text output_ref))) output_refs)).

(* @src mcp/facade.rs:1126-1151 PublicCommandSessions::mark_terminal *)
Definition mark_terminal (public_session_id : string) (result : json) : call A unit :=
  session ← session_of public_session_id;
  match session with
  | None => fail session_unavailable
  | Some session =>
      now ← tick;
      let terminal := execution_terminal_from_result (host_now now) result in
      signal ← signal_of public_session_id;
      let terminal := match signal with
        | Some signal => terminal <| et_outcome := Cancelled |>
            <| et_signal ::= λ existing, match existing with Some s => Some s | None => Some signal end |>
            <| et_error_code := Some "ProcessCancelled"%string |>
        | None => terminal
        end in
      finished ← registry_finish (ps_execution_id session) terminal;
      match finished with
      | Ok _ | Err (AlreadyTerminal _ _) => mret (Ok ())
      | Err error => fail (normalize_execution_registry_error error)
      end
  end.
(* @src mcp/facade.rs:1153-1160 PublicCommandSessions::mark_error_terminal *)
Definition mark_error_terminal (public_session_id : string) (error : FacadeError) : call A unit :=
  mark_terminal public_session_id (to_mcp_result error).

(** ** Results *)

Definition success_or_error (status : ustr) (data : gmap ustr json) : json :=
  if says_one_of status ["running"; "completed"; "cancelled"]%string
  then stable_success (json_object data) (command_summary status)
  else if bool_decide (status = lit "failed")
  then stable_command_error FcProcessFailed (command_summary status) data
  else if bool_decide (status = lit "timed_out")
  then stable_command_error FcProcessTimedOut (command_summary status) data
  else stable_command_error FcSessionUnavailable (command_summary (lit "lost")) data.
Definition insert_opt (key : string) (value : option json) (data : gmap ustr json) : gmap ustr json :=
  match value with Some value => <[lit key := value]> data | None => data end.

(* @src mcp/facade.rs:2573-2597 CodingToolsRuntimeAdapter::safe_command_output_for_session *)
Definition safe_command_output_for_session (structured : option (gmap ustr json)) (public_session_id : string) :
    eff A ustr :=
  match structured with
  | None => mret []
  | Some structured =>
      let stdout := default [] (structured !! lit "stdout" ≫= as_str) in
      let stderr := default [] (structured !! lit "stderr" ≫= as_str) in
      stderr ← public_change (λ self,
        let '(buffer, visible) := filter_private_stderr
          (ps_stderr_protocol_buffer <$> pc_sessions self !! public_session_id) stderr in
        (match buffer with
         | Some buffer => self <| pc_sessions ::=
             alter (λ session, session <| ps_stderr_protocol_buffer := buffer |>) public_session_id |>
         | None => self
         end, visible));
      mret (join (if bool_decide (stdout = []) || bool_decide (stderr = []) then [] else LF)
              (List.filter (λ value, negb (bool_decide (value = []))) [stdout; stderr]))
  end.

Definition stream_refs (private_refs : gmap ustr json) (public_session_id : string) :
    eff A (gmap ustr json) :=
  let one (stream : string) (refs : gmap ustr json) : eff A (gmap ustr json) :=
    match private_refs !! lit stream ≫= as_str with
    | None => mret refs
    | Some private =>
        public ← public_output_for_private private public_session_id (lit stream);
        mret (<[lit stream := json_string public]> refs)
    end in
  refs ← one "stdout"%string ∅; one "stderr"%string refs.
(* @src mcp/facade.rs:2660-2698 CodingToolsRuntimeAdapter::map_private_output_refs *)
Definition map_private_output_refs (structured : option (gmap ustr json)) (data : gmap ustr json)
    (public_session_id : string) : eff A (gmap ustr json) :=
  match structured with
  | None => mret data
  | Some structured =>
      data ← match structured !! lit "output_ref" ≫= as_str with
             | None => mret data
             | Some private =>
                 public ← public_output_for_private private public_session_id (primary_output_stream structured private);
                 mret (<[lit "output_ref" := json_string public]> data)
             end;
      match structured !! lit "output_refs" ≫= as_object with
      | None => mret data
      | Some private_refs =>
          refs ← stream_refs private_refs public_session_id;
          mret (if bool_decide (refs = ∅) then data else <[lit "output_refs" := json_object refs]> data)
      end
  end.

(* @src mcp/facade.rs:2566-2571 CodingToolsRuntimeAdapter::mark_owner_workflow_waiting_after_kill *)
Definition mark_owner_workflow_waiting_after_kill (public_session_id : string) : call A unit := λ s,
  let '(files, r) := settle_command_kill (text public_session_id) (ad_checkpoint s) in
  (s <| ad_checkpoint := files |>,
   Some match r with Ok _ => Ok () | Err _ => Err workflow_checkpoint_error end).

(** What is said of a command whose cancellation was asked for. *)
Definition settled_status (cancelling : bool) (observed : ustr) : ustr :=
  if cancelling && says_one_of observed ["completed"; "failed"; "cancelled"]%string
  then lit "cancelled" else observed.

(* @src mcp/facade.rs:2469-2564 CodingToolsRuntimeAdapter::normalize_command_result *)
Definition normalize_command_result (raw : json) (public_session_id : string)
    (action : option CommandControlAction) : call A json :=
  let structured := get (lit "structuredContent") raw ≫= as_object in
  let member key := structured ≫= lookup (lit key) in
  let private_status := default (lit "exited") (member "status"%string ≫= as_str) in
  let exit_code := member "exit_code"%string ≫= as_i64 in
  let timed_out := default false (member "timed_out"%string ≫= as_bool) in
  signal ← signal_of public_session_id;
  let public_status := settled_status (bool_decide (is_Some signal))
                         (command_public_status private_status exit_code timed_out) in
  let data : gmap ustr json := {[lit "status" := json_string public_status]} in
  let data := insert_opt "exit_code" (json_int <$> exit_code) data in
  let data := insert_opt "signal" (json_string <$>
    match member "signal"%string ≫= as_str with Some signal => Some signal | None => text <$> signal end) data in
  let data := <[lit "session_id" := json_string (text public_session_id)]> data in
  metadata ← stable_metadata public_session_id;
  let data := match metadata with
    | Some (task, execution, elapsed) =>
        <[lit "elapsed_ms" := jn elapsed]> (<[lit "execution_id" := json_string (text execution)]>
          (<[lit "task_id" := json_string (text task)]> data))
    | None => data
    end in
  let data := insert_opt "truncated" (json_bool <$> (member "truncated"%string ≫= as_bool)) data in
  output ← safe_command_output_for_session structured public_session_id;
  data ← map_private_output_refs structured (<[lit "output" := json_string output]> data) public_session_id;
  let result := success_or_error public_status data in
  _ ←? (if bool_decide (public_status = lit "running") then mret (Ok ())
        else mark_terminal public_session_id result);
  _ ←? match action with
       | Some ControlKill =>
           if bool_decide (public_status = lit "cancelled")
           then mark_owner_workflow_waiting_after_kill public_session_id else mret (Ok ())
       | _ => mret (Ok ())
       end;
  mret (Ok result).

Definition terminal_result (outcome : TerminalOutcome) (data : gmap ustr json) : json :=
  match outcome with
  | Completed => stable_success (json_object data) (command_summary (lit "completed"))
  | Failed | Blocked => stable_command_error FcProcessFailed (command_summary (lit "failed")) data
  | TimedOut => stable_command_error FcProcessTimedOut (command_summary (lit "timed_out")) data
  | Cancelled => stable_success (json_object data) (command_summary (lit "cancelled"))
  | Lost => stable_command_error FcSessionUnavailable (text "命令会话不可用") data
  end.
(* @src mcp/facade.rs:2408-2465 CodingToolsRuntimeAdapter::durable_command_terminal *)
Definition durable_terminal (public_session_id : string) : eff A (option json) :=
  execution ← execution_of public_session_id;
  match execution with
  | None => mret None
  | Some execution =>
      match er_state execution with
      | ExecutionTerminated terminal =>
          self ← public_look id;
          let refs := output_refs_by_stream self (et_output_refs terminal) in
          let data : gmap ustr json :=
            <[lit "status" := js (outcome_as_str (et_outcome terminal))]>
            (<[lit "execution_id" := json_string (text (execution_id_str (er_id execution)))]>
             {[lit "session_id" := json_string (text public_session_id)]}) in
          let data := insert_opt "exit_code" (json_int <$> et_exit_code terminal) data in
          let data := insert_opt "signal" (json_string ∘ text <$> et_signal terminal) data in
          let data := if bool_decide (refs = ∅) then data
                      else <[lit "output_refs" := json_object refs]>
                             (insert_opt "output_ref" (refs !! lit "stdout") data) in
          mret (Some (terminal_result (et_outcome terminal) data))
      | _ => mret None
      end
  end.

(** ** The private runtime *)

Definition reports_error (raw : json) : bool :=
  bool_decide (get_bool (lit "isError") raw = Some true) ||
  bool_decide ((get (lit "structuredContent") raw ≫= get_bool (lit "ok")) = Some false).
(* @src mcp/facade.rs:1352-1383 CodingToolsRuntimeAdapter::private_call_with_timeout *)
Definition private_call_with_timeout (name : string) (arguments : json) (request_id : option json)
    (timeout_ms : option N) : call A json := λ s,
  let '(runtime, r) := call_tool (lit name) arguments request_id timeout_ms (ad_runtime s) in
  let s := s <| ad_runtime := runtime |> in
  match r with
  | Err error =>
      (match error with
       | RtRequestTimeout => s
       | _ => s <| ad_pending_runtime_fault := Some error |>
       end, Some (Err (normalize_runtime_error error)))
  | Ok raw => (s, Some (if reports_error raw then Err (normalize_private_error raw) else Ok raw))
  end.
(* @src mcp/facade.rs:1322-1350 CodingToolsRuntimeAdapter::private_call *)
Definition private_call (name : string) (arguments : json) (request_id : option json) : call A json :=
  private_call_with_timeout name arguments request_id None.
Definition COMMAND_CONTROL_UPSTREAM_HEADROOM_MS : N := 500.
(* @src mcp/facade.rs:2945-2947 command_transport_timeout *)
Definition command_transport_timeout (wait_ms : N) : N := saturating_add u64_max (N.min wait_ms 30000) 3000.
(* @src mcp/facade.rs:2949-2955 command_control_transport_timeout *)
Definition command_control_transport_timeout (wait_ms : N) : N :=
  saturating_add u64_max (N.min wait_ms 30000) COMMAND_CONTROL_UPSTREAM_HEADROOM_MS.

(** ** Running a command *)

(** From the start of the public session on; [private]: the arguments for the runtime,
    or why the shell or the directory would not do. *)
(* @src mcp/facade.rs:1797-1847 CodingToolsRuntimeAdapter::execute_shell, the private call *)
Definition run_private (public_session_id : string) (token : AdoptionToken) (private : result FacadeError json)
    (yield_time_ms : N) (request_id : option json) : call A json :=
  private ←? answer private;
  raw ←? private_call_with_timeout "exec_command" private request_id (Some (command_transport_timeout yield_time_ms));
  _ ←? match get (lit "structuredContent") raw ≫= get_str (lit "session_id") with
       | Some private_session_id => bind_private_session public_session_id private_session_id
       | None => mret (Ok ())
       end;
  result ←? normalize_command_result raw public_session_id None;
  mret (Ok (match as_object result, get (lit "structuredContent") result ≫= as_object,
                  as_object (stable_data result) with
            | Some members, Some structured, Some data =>
                json_object (<[lit "structuredContent" := json_object (<[lit "data" := json_object
                  (<[lit "adoption_token" := json_string (text (adoption_token_str token))]> data)]> structured)]> members)
            | _, _, _ => result
            end)).
(* @src mcp/facade.rs:1790-1860 CodingToolsRuntimeAdapter::execute_shell *)
Definition execute_shell_prepared (request : ShellCommandRequest) (private : result FacadeError json)
    (request_id : option json) : call A json :=
  started ←? start_session (name_of <$> sc_owner_task_id request)
               (MkMcpSessionId ∘ name_of <$> sc_owner_session request);
  outcome ← run_private (sp_public_session_id started) (sp_adoption_token started) private
              (sc_yield_time_ms request) request_id;
  match outcome with
  | Ok result => mret (Ok result)
  | Err error => _ ←? mark_error_terminal (sp_public_session_id started) error; fail error
  end.

(** ** Controlling a command *)

Definition output_not_found (public_output_ref : ustr) : FacadeError :=
  with_details (obj [("output_ref", json_string public_output_ref)])
    (facade_error FcOutputNotFound "输出句柄不存在或已超过保留期" false).
(* @src mcp/facade.rs:1914-1995 CodingToolsRuntimeAdapter::control_command, reading *)
Definition read_output (object : gmap ustr json) (request_id : option json) : call A json :=
  public_output_ref ←? answer (required_string object "output_ref");
  let stream := default (lit "stdout") (member_str "stream" object) in
  let offset := member_u64 "offset" 0 object in
  let limit := member_u64 "limit" 65536 object in
  self ← public_look id;
  match stream_of (pc_outputs self) (name_of public_output_ref) with
  | None => fail (output_not_found public_output_ref)
  | Some retained_stream =>
      if negb (bool_decide (stream = text retained_stream))
      then fail (with_details (obj [("field", js "stream"); ("output_ref", json_string public_output_ref);
                                    ("expected", json_string (text retained_stream)); ("actual", json_string stream)])
             (facade_error FcInvalidArgument "stream 与 output_ref 所属输出流不一致" false))
      else match local_of (pc_outputs self) (name_of public_output_ref) with
      | Some (_, content) => answer (public_local_output_page public_output_ref stream (text content) offset limit)
      | None =>
          match private_ref_of (pc_outputs self) (name_of public_output_ref) with
          | None => fail (output_not_found public_output_ref)
          | Some private_output_ref =>
              if bool_decide (stream = lit "stderr") then
                raw ←? private_call "read_output"
                  (obj [("output_ref", json_string (text private_output_ref)); ("stream", js "stderr");
                        ("offset", jn 0); ("limit", jn 1048576)]) request_id;
                answer (public_stderr_page raw public_output_ref offset limit)
              else
                let copied : gmap ustr json := list_to_map (omap (λ key, pair (lit key) <$> object !! lit key)
                  ["stream"; "offset"; "limit"]%string) in
                raw ←? private_call "read_output"
                  (json_object (<[lit "output_ref" := json_string (text private_output_ref)]> copied)) request_id;
                mret (Ok (normalize_read_output raw public_output_ref))
          end
      end
  end.

(** The call of the runtime that an action stands for. *)
Definition control_request (action : CommandControlAction) (private_session_id : string)
    (object : gmap ustr json) : result FacadeError (string * json) :=
  let session : string * json := ("session_id"%string, json_string (text private_session_id)) in
  let wait : string * json := ("yield_time_ms"%string, jn (member_u64 "wait_ms" 0 object)) in
  match action with
  | ControlWrite =>
      chars ← ok_or invalid_argument match member_str "chars" object with
              | Some ((_ :: _) as chars) => Some chars | _ => None end;
      Ok ("write_stdin"%string, obj [session; ("chars"%string, json_string chars); wait; ("verbosity"%string, js "full")])
  | ControlKill =>
      Ok ("kill_session"%string, json_object (insert_opt "signal" (object !! lit "signal")
        (insert_opt "wait_ms" (object !! lit "wait_ms")
          (list_to_map [(lit "session_id", json_string (text private_session_id)); (lit "verbosity", js "full")]))))
  | _ => Ok ("write_stdin"%string, obj [session; ("chars"%string, js ""); wait; ("verbosity"%string, js "full")])
  end.

(* @src mcp/facade.rs:1184-1187 PublicCommandSessions::terminal_with_pending *)
Definition terminal_with_pending (public_session_id : string) (terminal : json) : eff A json :=
  pending ← public_change (take_pending public_session_id);
  mret (command_result_with_output terminal pending).
(* @src mcp/facade.rs:1189-1201 PublicCommandSessions::running_with_pending *)
Definition running_with_pending (public_session_id : string) : eff A (option json) :=
  pending ← public_change (take_pending public_session_id);
  mret (if bool_decide (pending = []) then None
        else Some (stable_success (obj [("status", js "running"); ("session_id", json_string (text public_session_id));
                                        ("output", json_string pending)]) (lit "Command running"))).

(** A failure that settles nothing: the execution ends with it, unless it was the wait. *)
Definition control_gave_up (action : CommandControlAction) (public_session_id : string) (error : FacadeError) :
    call A json :=
  if bool_decide (fe_code error = FcOperationTimedOut) then fail error else
  _ ← match action with
      | ControlKill => critical (λ w,
          (w <| w_inner ::= clear_cancellation (MkPublicSessionId public_session_id) |>, Some ()))
      | _ => mret ()
      end;
  _ ←? mark_error_terminal public_session_id error; fail error.
(** A call that failed: the output that was to come first is put back. *)
(* @src mcp/facade.rs:2106-2146 CodingToolsRuntimeAdapter::control_command, a failed call *)
Definition control_failed (action : CommandControlAction) (public_session_id : string) (pending : ustr)
    (error : FacadeError) : call A json :=
  _ ← public_change (λ self, (append_pending public_session_id pending self, ()));
  signal ← signal_of public_session_id;
  match signal with
  | Some signal =>
      if bool_decide (fe_code error = FcSessionUnavailable) || bool_decide (fe_code error = FcRuntimeUnavailable) then
        _ ←? mark_terminal public_session_id
          (stable_success (obj [("status", js "cancelled"); ("session_id", json_string (text public_session_id));
                                ("signal", json_string (text signal)); ("output", js "")]) (lit "Command cancelled"));
        terminal ← durable_terminal public_session_id;
        match terminal with
        | None => fail command_state_internal_error
        | Some terminal => result ← terminal_with_pending public_session_id terminal; mret (Ok result)
        end
      else control_gave_up action public_session_id error
  | None => control_gave_up action public_session_id error
  end.

(** A command that still runs, as far as the registry knows. *)
(* @src mcp/facade.rs:2013-2105 CodingToolsRuntimeAdapter::control_command, a running command *)
Definition control_running (action : CommandControlAction) (object : gmap ustr json) (public_session_id : string)
    (request_id : option json) : call A json :=
  private ← private_session public_session_id;
  match private with
  | None => fail session_unavailable
  | Some private_session_id =>
      _ ←? match action with
           | ControlKill => registry (critical (λ w,
               let '(inner, r) := request_cancellation (MkPublicSessionId public_session_id)
                 (name_of (default (lit "TERM") (member_str "signal" object))) (w_inner w) in
               (w <| w_inner := inner |>, returned r)))
           | _ => mret (Ok ())
           end;
      request ←? answer (control_request action private_session_id object);
      let wait := N.min (member_u64 "wait_ms" (match action with ControlKill => 5000 | _ => 0 end) object) 30000 in
      pending ← match action with
                | ControlWrite | ControlKill => public_change (take_pending public_session_id)
                | _ => mret []
                end;
      called ← private_call_with_timeout request.1 request.2 request_id (Some (command_control_transport_timeout wait));
      match called with
      | Ok raw =>
          result ←? normalize_command_result raw public_session_id (Some action);
          mret (Ok (command_result_prepend_output result pending))
      | Err error => control_failed action public_session_id pending error
      end
  end.
(* @src mcp/facade.rs:1908-2148 CodingToolsRuntimeAdapter::control_command *)
Definition adapter_control_command (action : CommandControlAction) (arguments : json) (request_id : option json) :
    call A json :=
  object ←? answer (ok_or invalid_argument (as_object arguments));
  match action with
  | ControlRead => read_output object request_id
  | _ =>
      name ←? answer (required_string object "session_id");
      let public_session_id := name_of name in
      terminal ← durable_terminal public_session_id;
      match action, terminal with
      | ControlPoll, Some terminal => result ← terminal_with_pending public_session_id terminal; mret (Ok result)
      | ControlPoll, None =>
          running ← running_with_pending public_session_id;
          match running with
          | Some running => mret (Ok running)
          | None => control_running action object public_session_id request_id
          end
      | _, Some _ => fail session_unavailable
      | _, None => control_running action object public_session_id request_id
      end
  end.

(* @src mcp/facade.rs:1862-1896 CodingToolsRuntimeAdapter::authorize_command_resource *)
Definition adapter_authorize_command_resource (action : CommandControlAction) (arguments : gmap ustr json)
    (owner : McpSessionId) : call A unit :=
  match action with
  | ControlRead =>
      output_ref ←? answer (required_string arguments "output_ref");
      owned ← output_owned_by (name_of output_ref) owner;
      if owned : bool then mret (Ok ())
      else fail (facade_error FcOutputNotFound "output handle is unavailable to the current MCP session" false)
  | _ =>
      public_session ←? answer (required_string arguments "session_id");
      execution ← execution_of (name_of public_session);
      match execution with
      | None => fail session_unavailable
      | Some execution =>
          if bool_decide (er_owner_session execution = Some owner) then mret (Ok ())
          else fail (facade_error FcTaskNotOwned "command session is not owned by the current MCP session" false)
      end
  end.
(* @src mcp/facade.rs:1898-1906 CodingToolsRuntimeAdapter::transfer_workflow_executions *)
Definition adapter_transfer_workflow_executions (task_id : string) (owner : McpSessionId) : call A unit :=
  _ ←? registry (transaction (OpTransfer (MkTaskId task_id) owner)); mret (Ok ()).

(** ** Looking after the commands *)

(** The sessions whose execution is not terminal. *)
Definition is_live (execution : option ExecutionRecord) : bool :=
  match execution with Some execution => negb (record_terminal execution) | None => false end.
Fixpoint live_sessions (names : list string) : eff A (list string) :=
  match names with
  | [] => mret []
  | public :: names =>
      execution ← execution_of public;
      rest ← live_sessions names;
      mret (if is_live execution then public :: rest else rest)
  end.
(** With their handles, which are looked up in another critical section. *)
Fixpoint live_handles (names : list string) : eff A (list (string * string)) :=
  match names with
  | [] => mret []
  | public :: names =>
      execution ← execution_of public;
      found ← (if is_live execution then
                 execution ← execution_of public;
                 mret (handle ← execution ≫= er_runtime_handle; Some (public, runtime_handle_str handle))
               else mret None);
      rest ← live_handles names;
      mret (option_list found ++ rest)
  end.
Definition session_names : eff A (list string) := public_look (λ self, (map_to_list (pc_sessions self)).*1).
Fixpoint for_all_ok {X} (f : X → call A unit) (l : list X) : call A unit :=
  match l with [] => mret (Ok ()) | x :: l => _ ←? f x; for_all_ok f l end.
(* @src mcp/facade.rs:1224-1239 PublicCommandSessions::mark_all_running_lost *)
Definition mark_all_running_lost : call A unit :=
  names ← session_names;
  running ← live_sessions names;
  for_all_ok (λ public, mark_terminal public (to_mcp_result session_unavailable)) running.
(* @src mcp/facade.rs:1241-1256 PublicCommandSessions::running_sessions *)
Definition running_sessions : eff A (list (string * string)) :=
  names ← session_names; live_handles names.

(** What a command has written since it was looked at last is kept for its caller. *)
(* @src mcp/facade.rs:2343-2374 CodingToolsRuntimeAdapter::reap_command_sessions, one session *)
Definition reap_session (running : string * string) : call A unit :=
  let '(public_session_id, private_session_id) := running in
  called ← private_call "write_stdin"
    (obj [("session_id", json_string (text private_session_id)); ("chars", js ""); ("yield_time_ms", jn 0);
          ("max_output_bytes", jn 65536); ("verbosity", js "full")]) None;
  match called with
  | Ok raw =>
      normalized ←? normalize_command_result raw public_session_id (Some ControlPoll);
      let delta := default [] (pointer ["structuredContent"; "data"; "output"]%string normalized ≫= as_str) in
      _ ← public_change (λ self, (append_pending public_session_id delta self, ()));
      mret (Ok ())
  | Err error => mark_error_terminal public_session_id error
  end.
(* @src mcp/facade.rs:2333-2380 CodingToolsRuntimeAdapter::reap_command_sessions *)
Definition reap_command_sessions : call A unit :=
  _ ← reap_expired_mappings;
  running ← (λ s, let '(runtime, r) := root_is_running (ad_runtime s) in (s <| ad_runtime := runtime |>, Some r));
  match running with
  | Ok true =>
      running ← running_sessions;
      _ ←? for_all_ok reap_session running;
      now ← tick;
      _ ←? registry (transaction (OpObserve (host_now now)));
      mret (Ok ())
  | _ => mark_all_running_lost
  end.
(* @src mcp/facade.rs:2382-2384 CodingToolsRuntimeAdapter::has_running_execution *)
Definition has_running_execution : eff A bool :=
  look (λ w, negb (bool_decide (running (eri_state (w_inner w)) = []))).
End adapter.
