(* ===== verification/FacadeCommandsProperties.v ===== *)
(** * FacadeCommandsProperties: what holds of the command sessions

    Every operation of the adapter's commands is, for the execution registry, a run
    of the registry's own steps, so that what [ExecutionProperties] shows of the
    registry holds of it under this client; what a command wrote is given to its
    caller once and in order; handles and sessions are given to their owners only;
    and a runtime that died leaves no command open. *)

From S2P Require Import Prelude Text StateModel BrokerProtocol WindowsPath HostFs PathAuthority FilesystemService Effects Json Policy PolicyReview WorkflowCheckpoint Domain ExecutionRegistry ExecutionFacts ExecutionProperties OutputHandles Facade FacadeOutput FacadeArguments FacadeRequests FacadeWorkflow FacadeCommands.
From stdpp Require Import pretty infinite.
#[local] Open Scope N_scope.

Create HintDb moves.

(** ** The registry under the adapter *)

Section refinement.
Context `{Json} `{ExecutionCodec} `{CommandHost} {R : Type} `{!PrivateRuntime R}.
Context `{CheckpointHost} `{!Serde (WorkflowCheckpoint json)}.
(** Other threads use the registry as it is meant to be used. *)
Context (Hothers : ∀ n w, rtc world_step w (others n w)).
#[local] Abbreviation A := (Adapter R).

(** The registry takes steps of its own. *)
Definition moves {X} (m : eff A X) : Prop :=
  ∀ s, rtc world_step (ad_registry s) (ad_registry (m s).1).

Lemma moves_ret {X} (x : X) : moves (mret x).
Proof. intros s. apply rtc_refl. Qed.
Lemma moves_bind {X Y} (m : eff A X) (k : X → eff A Y) : moves m → (∀ x, moves (k x)) → moves (m ≫= k).
Proof.
  intros Hm Hk s. specialize (Hm s). unfold mbind, eff_bind. destruct (m s) as [s' [x|]]; [|done].
  etransitivity; [exact Hm|apply Hk].
Qed.
Lemma moves_bind_ok {E X Y} (m : eff A (result E X)) (k : X → eff A (result E Y)) : moves m → (∀ x, moves (k x)) → moves (bind_ok m k).
Proof. intros Hm Hk. apply moves_bind; [done|]. intros [x|e]; [apply Hk|apply moves_ret]. Qed.
(** What does not touch the registry. *)
Lemma moves_elsewhere {X} (m : eff A X) : (∀ s, ad_registry (m s).1 = ad_registry s) → moves m.
Proof. intros Hm s. by rewrite Hm. Qed.
Lemma moves_critical {X} (f : ExecutionProperties.World → ExecutionProperties.World * option X) :
  (∀ w, rtc world_step w (f w).1) → moves (critical f).
Proof.
  intros Hf s. unfold critical. specialize (Hf (others (ad_calls s) (ad_registry s))).
  destruct (f _) as [w r]. simpl in *. etransitivity; [apply Hothers|exact Hf].
Qed.
Lemma commit_moves io op w : fresh_operation op w → rtc world_step w (commit io op w).1.
Proof.
  intros Hfresh. unfold commit. destruct (transact _ _ _ _ _) as [[inner fs] r] eqn:Ht. simpl.
  destruct r as [[ended|e]|].
  - by eapply rtc_once, (StepCommit io op).
  - by eapply rtc_once, (StepReject io op).
  - destruct w as [inner0 fs0 pending]. unfold transact in Ht. simpl in *.
    destruct (operation_mutation op _) as [[[next a]|e]|]; [|done|by injection Ht as <- <-].
    destruct (persist_state _ _ _ _) as [fs' [[]|e]]; done.
Qed.

Lemma moves_look {X} (f : ExecutionProperties.World → X) : moves (look f).
Proof. apply moves_critical. intros w. apply rtc_refl. Qed.
Lemma moves_tick : moves tick.
Proof. by apply moves_elsewhere. Qed.
Lemma moves_public_change {X} (f : PublicCommandSessions → PublicCommandSessions * X) : moves (public_change f).
Proof. apply moves_elsewhere. intros s. unfold public_change. by destruct (f _). Qed.
Lemma moves_public_look {X} (f : PublicCommandSessions → X) : moves (public_look f).
Proof. by apply moves_elsewhere. Qed.
Lemma moves_private_call name arguments request_id timeout :
  moves (private_call_with_timeout name arguments request_id timeout).
Proof.
  apply moves_elsewhere. intros s. unfold private_call_with_timeout.
  destruct (call_tool _ _ _ _ _) as [runtime [raw|[]]]; done.
Qed.
Lemma moves_settle_kill public_session_id : moves (mark_owner_workflow_waiting_after_kill public_session_id).
Proof.
  apply moves_elsewhere. intros s. unfold mark_owner_workflow_waiting_after_kill.
  by destruct (settle_command_kill _ _).
Qed.
Hint Resolve moves_ret moves_look moves_tick moves_public_change moves_public_look moves_private_call
  moves_settle_kill : moves.

(** A computation moves the registry if its parts do. *)
Ltac moves_part :=
  first
    [ solve [auto with moves nocore]
    | apply moves_bind; [|intros ?]
    | apply moves_bind_ok; [|intros ?]
    | progress unfold answer, fail, succeed
    | progress cbv zeta
    | match goal with
      | |- moves (if ?b then _ else _) => destruct b
      | |- moves (match ?x with _ => _ end) => destruct x
      | |- moves (let '(_, _) := ?x in _) => destruct x
      end ].
Ltac moves_all := repeat moves_part.

Lemma moves_registry {X} (m : eff A (result ExecutionRegistryError X)) : moves m → moves (registry m).
Proof. intros Hm. unfold registry. moves_all. Qed.
Lemma moves_transaction op : (∀ w, fresh_operation op w) → moves (transaction op).
Proof.
  intros Hfresh. unfold transaction. apply moves_bind; [auto with moves|]. intros n.
  apply moves_critical. intros w. by apply commit_moves.
Qed.
Hint Extern 1 (moves (transaction _)) => apply moves_transaction; intros w; exact I : moves.
Lemma moves_finish id terminal : moves (registry_finish id terminal).
Proof.
  unfold registry_finish. apply moves_bind_ok; [by apply moves_transaction|]. intros ended.
  apply moves_bind; [|intros []; auto with moves]. apply moves_critical. intros w. by eapply rtc_once, StepForget.
Qed.
Lemma moves_execution_of public : moves (execution_of public).
Proof. apply moves_look. Qed.
Lemma moves_signal_of public : moves (signal_of public).
Proof. apply moves_look. Qed.
Lemma moves_next_public_handle prefix : moves (next_public_handle prefix).
Proof. unfold next_public_handle. moves_all. Qed.
Hint Resolve moves_registry moves_finish moves_execution_of moves_signal_of moves_next_public_handle : moves.

Lemma moves_start_session owner_task_id owner_session : moves (start_session owner_task_id owner_session).
Proof.
  unfold start_session. moves_all. apply moves_critical. intros w.
  pose proof (commit_moves (host_io x1) (OpStart (host_now x1) (random_execution x1 w) (MkAdoptionToken (random (S x1)))
    (MkTaskId x0) (MkPublicSessionId x) owner_session) w) as Hcommit.
  destruct (commit _ _ _) as [w' r]. apply Hcommit. intros e He. by apply random_execution_fresh.
Qed.
Lemma moves_session_of public : moves (session_of public).
Proof. apply moves_public_look. Qed.
Hint Resolve moves_start_session moves_session_of : moves.
Lemma moves_bind_private_session public private : moves (bind_private_session public private).
Proof. unfold bind_private_session. moves_all. Qed.
Lemma moves_public_output private owner stream : moves (public_output_for_private private owner stream).
Proof. unfold public_output_for_private. moves_all. Qed.
Lemma moves_expired_sessions names : moves (expired_sessions names).
Proof. induction names as [|name names IH]; cbn [expired_sessions]; moves_all. Qed.
Hint Resolve moves_bind_private_session moves_public_output moves_expired_sessions : moves.
Lemma moves_reap_expired : moves reap_expired_mappings.
Proof. unfold reap_expired_mappings. moves_all. Qed.
Lemma moves_stable_metadata public : moves (stable_metadata public).
Proof. unfold stable_metadata. moves_all. Qed.
Lemma moves_private_session public : moves (private_session public).
Proof. unfold private_session. moves_all. Qed.
Lemma moves_output_owned_by output owner : moves (output_owned_by output owner).
Proof. unfold output_owned_by. moves_all. Qed.
Lemma moves_mark_terminal public result : moves (mark_terminal public result).
Proof. unfold mark_terminal. moves_all. Qed.
Lemma moves_mark_error public error : moves (mark_error_terminal public error).
Proof. apply moves_mark_terminal. Qed.
Lemma moves_safe_output structured public : moves (safe_command_output_for_session structured public).
Proof. unfold safe_command_output_for_session. moves_all. Qed.
Hint Resolve moves_reap_expired moves_stable_metadata moves_private_session moves_output_owned_by
  moves_mark_terminal moves_mark_error moves_safe_output : moves.
Lemma moves_stream_refs refs public : moves (stream_refs refs public).
Proof. unfold stream_refs. moves_all. Qed.
Hint Resolve moves_stream_refs : moves.
Lemma moves_map_refs structured data public : moves (map_private_output_refs structured data public).
Proof. unfold map_private_output_refs. moves_all. Qed.
Hint Resolve moves_map_refs : moves.
Lemma moves_normalize raw public action : moves (normalize_command_result raw public action).
Proof. unfold normalize_command_result. moves_all. Qed.
Lemma moves_durable_terminal public : moves (durable_terminal public).
Proof. unfold durable_terminal. moves_all. Qed.
Hint Resolve moves_normalize moves_durable_terminal : moves.
Lemma moves_run_private public token private wait request_id :
  moves (run_private public token private wait request_id).
Proof. unfold run_private. moves_all. Qed.
Hint Resolve moves_run_private : moves.
Lemma moves_execute_shell request private request_id : moves (execute_shell_prepared request private request_id).
Proof. unfold execute_shell_prepared. moves_all. Qed.

Lemma moves_read_output object request_id : moves (read_output object request_id).
Proof. unfold read_output, private_call. moves_all. Qed.
Lemma moves_terminal_with_pending public terminal : moves (terminal_with_pending public terminal).
Proof. unfold terminal_with_pending. moves_all. Qed.
Lemma moves_running_with_pending public : moves (running_with_pending public).
Proof. unfold running_with_pending. moves_all. Qed.
Hint Resolve moves_execute_shell moves_read_output moves_terminal_with_pending moves_running_with_pending : moves.
Lemma moves_gave_up action public error : moves (control_gave_up action public error).
Proof.
  unfold control_gave_up. moves_all. apply moves_critical. intros w. by eapply rtc_once, StepClearCancellation.
Qed.
Hint Resolve moves_gave_up : moves.
Lemma moves_control_failed action public pending error : moves (control_failed action public pending error).
Proof. unfold control_failed. moves_all. Qed.
Hint Resolve moves_control_failed : moves.
Lemma moves_request_cancellation public signal :
  moves (critical (λ w, let '(inner, r) := request_cancellation public signal (w_inner w) in
                        (w <| w_inner := inner |>, returned r))).
Proof.
  apply moves_critical. intros w. destruct (request_cancellation _ _ _) as [inner [r|]] eqn:Hr.
  - by eapply rtc_once, StepRequestCancellation.
  - unfold request_cancellation in Hr. repeat case_match; simplify_eq/=; destruct w; apply rtc_refl.
Qed.
Lemma moves_control_running action object public request_id : moves (control_running action object public request_id).
Proof. unfold control_running. moves_all. apply moves_request_cancellation. Qed.
Hint Resolve moves_control_running : moves.
Lemma moves_control_command action arguments request_id : moves (adapter_control_command action arguments request_id).
Proof. unfold adapter_control_command. moves_all. Qed.
Lemma moves_authorize action arguments owner : moves (adapter_authorize_command_resource action arguments owner).
Proof. unfold adapter_authorize_command_resource. moves_all. Qed.
Lemma moves_transfer task owner : moves (adapter_transfer_workflow_executions task owner).
Proof. unfold adapter_transfer_workflow_executions. moves_all. Qed.
Lemma moves_for_all_ok {X} (f : X → call A unit) l : (∀ x, moves (f x)) → moves (for_all_ok f l).
Proof. intros Hf. induction l as [|x l IH]; cbn [for_all_ok]; moves_all. Qed.
Lemma moves_live_sessions names : moves (live_sessions names).
Proof. induction names as [|name names IH]; cbn [live_sessions]; moves_all. Qed.
Lemma moves_live_handles names : moves (live_handles names).
Proof. induction names as [|name names IH]; cbn [live_handles]; moves_all. Qed.
Hint Resolve moves_for_all_ok moves_live_sessions moves_live_handles : moves.
Lemma moves_reap_session running : moves (reap_session running).
Proof. unfold reap_session, private_call. moves_all. Qed.
Lemma moves_reap : moves reap_command_sessions.
Proof.
  unfold reap_command_sessions, mark_all_running_lost, running_sessions, session_names. moves_all.
  - apply moves_elsewhere. intros s. by destruct (root_is_running _).
  - apply moves_for_all_ok, moves_reap_session.
Qed.

(** One call of the adapter's commands, however it ends. *)
Inductive command_step : A → A → Prop :=
  | run_step request private request_id s :
      command_step s (execute_shell_prepared request private request_id s).1
  | control_step action arguments request_id s :
      command_step s (adapter_control_command action arguments request_id s).1
  | authorize_step action arguments owner s :
      command_step s (adapter_authorize_command_resource action arguments owner s).1
  | transfer_step task owner s : command_step s (adapter_transfer_workflow_executions task owner s).1
  | reap_step s : command_step s (reap_command_sessions s).1.

(** For the execution registry, the commands are the registry's own
    steps.  Whatever commands are started, read, written to, killed, transferred
    and reaped, whatever the runtime answers and wherever a call fails or panics,
    and whatever other threads do meanwhile: the registry goes through critical
    sections of its own, so from a reachable state it comes to a reachable one, and
    everything shown of its reachable states and their histories holds. *)
Theorem commands_refine_registry s s' :
  rtc command_step s s' →
  rtc world_step (ad_registry s) (ad_registry s') ∧
  (reachable (ad_registry s) → reachable (ad_registry s')).
Proof.
  intros Hsteps.
  assert (Hmoves : rtc world_step (ad_registry s) (ad_registry s')).
  { induction Hsteps as [s|s1 s2 s3 Hstep _ IH]; [apply rtc_refl|]. etransitivity; [|exact IH].
    destruct Hstep; [apply moves_execute_shell|apply moves_control_command|apply moves_authorize|apply moves_transfer|
      apply moves_reap]. }
  split; [exact Hmoves|]. intros (w0 & Hinit & Hrtc). exists w0. split; [done|]. by etransitivity.
Qed.
End refinement.

(** ** Pending output *)

(** The longest end of a text that fits. *)
Lemma trim_fits n value : (byte_len (trim_utf8_front n value).1 ≤ n)%nat.
Proof.
  induction value as [|c value IH]; cbn [trim_utf8_front].
  - destruct (byte_len [] <=? n)%nat; apply Nat.le_0_l.
  - destruct (Nat.leb_spec (byte_len (c :: value)) n); [done|exact IH].
Qed.
Lemma trim_fixed n value : (byte_len value ≤ n)%nat → trim_utf8_front n value = (value, false).
Proof. intros Hlen. destruct value; cbn [trim_utf8_front]; by rewrite (proj2 (Nat.leb_le _ _) Hlen). Qed.
Lemma trim_flag n value : (trim_utf8_front n value).2 = negb (byte_len value <=? n)%nat.
Proof. destruct value; cbn [trim_utf8_front]; by case_match. Qed.
(** Trimming in pieces is trimming once. *)
Lemma trim_app n s t : (trim_utf8_front n ((trim_utf8_front n s).1 ++ t)).1 = (trim_utf8_front n (s ++ t)).1.
Proof.
  induction s as [|c s IH].
  - by rewrite (trim_fixed n []) by apply Nat.le_0_l.
  - change ((c :: s) ++ t) with (c :: (s ++ t)). cbn [trim_utf8_front].
    destruct (byte_len (c :: s) <=? n)%nat eqn:Hs; [done|]. simpl.
    assert ((byte_len (c :: s ++ t) <=? n)%nat = false) as ->; [|exact IH].
    apply Nat.leb_gt in Hs. apply Nat.leb_gt. change (c :: s ++ t) with ((c :: s) ++ t). rewrite byte_len_app. lia.
Qed.

(** What is kept of all the output since the last look. *)
Definition kept_output (written : ustr) : ustr := (trim_utf8_front MAX_PENDING_OUTPUT_BYTES written).1.
Definition has_pending (public : string) (written : ustr) (self : PublicCommandSessions) : Prop :=
  ∃ session, pc_sessions self !! public = Some session ∧
    ps_pending_output session = kept_output written ∧
    ps_pending_output_truncated session = negb (byte_len written <=? MAX_PENDING_OUTPUT_BYTES)%nat.

Lemma append_pending_has public written output self :
  has_pending public written self → has_pending public (written ++ output) (append_pending public output self).
Proof.
  intros (session & Hsession & Hpending & Htruncated). unfold append_pending.
  case_bool_decide as Hempty; [subst; rewrite app_nil_r; by exists session|].
  pose proof (trim_app MAX_PENDING_OUTPUT_BYTES written output) as Htrim.
  pose proof (trim_flag MAX_PENDING_OUTPUT_BYTES (kept_output written ++ output)) as Hflag.
  unfold has_pending. simpl. rewrite lookup_alter_eq, Hsession. simpl. eexists. split; [reflexivity|].
  rewrite Hpending. unfold kept_output in *. destruct (trim_utf8_front _ ((trim_utf8_front _ written).1 ++ output)) as [pending trimmed].
  simpl in *. split; [exact Htrim|]. rewrite Htruncated, Hflag, byte_len_app.
  destruct (Nat.leb_spec (byte_len written) MAX_PENDING_OUTPUT_BYTES) as [Hle|Hgt].
  - by rewrite trim_fixed, orb_false_r, byte_len_app by done.
  - simpl. rewrite orb_true_r. symmetry. apply negb_true_iff, Nat.leb_gt. rewrite byte_len_app. lia.
Qed.
Lemma taken_is_empty public self :
  is_Some (pc_sessions self !! public) → has_pending public [] (take_pending public self).1.
Proof.
  intros [session Hsession]. unfold take_pending. rewrite Hsession. simpl.
  exists (session <| ps_pending_output := [] |> <| ps_pending_output_truncated := false |>).
  simpl. by rewrite lookup_insert_eq.
Qed.
Lemma append_all_has public outputs : ∀ written self,
  has_pending public written self →
  has_pending public (written ++ concat outputs) (foldl (λ self output, append_pending public output self) self outputs).
Proof.
  induction outputs as [|output outputs IH]; intros written self Hself; simpl; [by rewrite app_nil_r|].
  rewrite app_assoc. by apply IH, append_pending_has.
Qed.

(** A caller gets what its command wrote, once and in order.  After
    the caller last took a session's output, whatever was appended piece by piece is
    what it takes next, all of it if it fits into the limit; else the longest end of
    it that fits, after a notice; and nothing of it again. *)
Theorem pending_output_is_delivered public outputs self :
  is_Some (pc_sessions self !! public) →
  let before := (take_pending public self).1 in
  let after := foldl (λ self output, append_pending public output self) before outputs in
  let written := concat outputs in
  (take_pending public after).2 =
    (if (byte_len written <=? MAX_PENDING_OUTPUT_BYTES)%nat then written
     else TRUNCATED_NOTICE ++ kept_output written) ∧
  (take_pending public (take_pending public after).1).2 = [].
Proof.
  intros Hsession. simpl. pose proof (append_all_has public outputs [] _ (taken_is_empty public self Hsession)) as Hafter.
  revert Hafter. simpl. generalize (foldl (λ self output, append_pending public output self) (take_pending public self).1 outputs).
  intros after (session & Hlookup & Hpending & Htruncated). split.
  - unfold take_pending. rewrite Hlookup. simpl. rewrite Hpending, Htruncated. unfold kept_output.
    destruct (Nat.leb_spec (byte_len (concat outputs)) MAX_PENDING_OUTPUT_BYTES); simpl; [by rewrite trim_fixed|done].
  - destruct (taken_is_empty public after) as (session' & Hlookup' & Hpending' & Htruncated'); [by rewrite Hlookup|].
    unfold take_pending at 1. rewrite Hlookup'. simpl. rewrite Hpending', Htruncated'. done.
Qed.

(** ** Who may use a handle *)

Section authorization.
Context `{Json} `{ExecutionCodec} `{CommandHost} {R : Type} `{!PrivateRuntime R}.

(** The session that a handle's output belongs to is owned by the caller, or the
    handle itself is. *)
Definition owns_session (w : ExecutionProperties.World) (public : string) (owner : McpSessionId) : Prop :=
  ∃ execution, execution_for_public_session (eri_state (w_inner w)) (MkPublicSessionId public) = Some execution ∧
    er_owner_session execution = Some owner.
Definition owns_output (w : ExecutionProperties.World) (outputs : OutputHandleRegistry) (output : string)
    (owner : McpSessionId) : Prop :=
  owner_of outputs output = Some (McpSession owner) ∨
  ∃ public, owner_of outputs output = Some (PublicSession public) ∧ owns_session w public owner.

(** Command resources are for their owners.  A call that names an output
    handle or a command session is let through exactly if, in the registry as it is
    at that moment, the execution behind it belongs to the calling session, or the
    output was retained for it. *)
Theorem authorization_exact action arguments owner (s : Adapter R) :
  (adapter_authorize_command_resource action arguments owner s).2 = Some (Ok ()) ↔
  let w := others (ad_calls s) (ad_registry s) in
  match action with
  | ControlRead => ∃ output, required_string arguments "output_ref" = Ok output ∧
      owns_output w (pc_outputs (ad_public s)) (name_of output) owner
  | _ => ∃ public, required_string arguments "session_id" = Ok public ∧ owns_session w (name_of public) owner
  end.
Proof.
  simpl. unfold owns_output, owns_session.
  assert (Hsession : ∀ public,
    ((execution ← execution_of (name_of public);
      match execution with
      | None => fail session_unavailable
      | Some execution =>
          if bool_decide (er_owner_session execution = Some owner) then mret (Ok ())
          else fail (facade_error FcTaskNotOwned "command session is not owned by the current MCP session" false)
      end : call (Adapter R) unit) s).2 = Some (Ok ()) ↔
    ∃ execution, execution_for_public_session (eri_state (w_inner (others (ad_calls s) (ad_registry s))))
      (MkPublicSessionId (name_of public)) = Some execution ∧ er_owner_session execution = Some owner).
  { intros public. unfold mbind, eff_bind, execution_of, look, critical. simpl.
    destruct (execution_for_public_session _ _) as [execution|]; [|by split; [|intros (? & ? & _)]].
    case_bool_decide as Howner; simpl; split; try done.
    - intros _. by exists execution.
    - by intros (? & [= <-] & ?). }
  destruct action; cbn [adapter_authorize_command_resource].
  2: { unfold answer, bind_ok at 1, mbind, eff_bind, mret, eff_ret.
    destruct (required_string arguments "output_ref") as [output|e]; [|split; [done|by intros (? & ? & _)]].
    unfold bind_ok, output_owned_by, public_look, mbind, eff_bind. simpl.
    destruct (owner_of _ _) as [[public|owner']|] eqn:Howner; simpl.
    - destruct (execution_for_public_session _ _) as [execution|] eqn:Hexecution; simpl.
      + case_bool_decide as Hsame; simpl; split; try done.
        * intros _. exists output. split; [done|right]. exists public. eauto.
        * intros (? & [= <-] & [?|(? & ? & ? & ? & ?)]); congruence.
      + split; [done|]. intros (? & [= <-] & [?|(? & ? & ? & ? & ?)]); congruence.
    - case_bool_decide as Hsame; simpl; split; try done.
      + intros _. exists output. split; [done|left]. congruence.
      + intros (? & [= <-] & [?|(? & ? & _)]); congruence.
    - split; [done|]. intros (? & [= <-] & [?|(? & ? & _)]); congruence. }
  all: unfold answer, bind_ok at 1, mbind, eff_bind, mret, eff_ret;
    destruct (required_string arguments "session_id") as [public|e]; [|split; [done|by intros (? & ? & _)]];
    etransitivity; [apply (Hsession public)|]; split; [intros Hs; by exists public|by intros (? & [= <-] & ?)].
Qed.
End authorization.

(** ** A concrete adapter *)

Section demo.
#[local] Existing Instance demo_json.
#[local] Existing Instance demo_checkpoint_host.
#[local] Instance plain_codec : ExecutionCodec := {|
  to_vec_pretty _ := Some []; from_slice_state _ := None; from_slice_legacy _ := None; sha256_hex s := s
|}.
#[local] Instance no_serde : Serde (WorkflowCheckpoint (json (Json := demo_json))).
Proof. by refine {| to_vec _ := None; from_slice _ := None |}. Defined.
#[local] Instance demo_host : CommandHost.
Proof.
  refine {| host_io n := demo_io; host_now n := N.of_nat n; random n := pretty n;
    random_execution n w := MkExecutionId (fresh (execution_id_str ∘ er_id <$> executions w));
    others n w := w |}.
  intros n w e He Hid. eapply (infinite_is_fresh (execution_id_str ∘ er_id <$> executions w)).
  apply list_elem_of_fmap. exists e. split; [|done]. simpl. by rewrite Hid.
Defined.
(** The first call starts a command, the second finds that its time is over. *)
#[local] Instance demo_private_runtime : PrivateRuntime nat := {|
  call_tool _ _ _ _ n := (S n, Ok (obj [("structuredContent",
    if Nat.eqb n 0 then obj [("status", js "running"); ("session_id", js "private")]
    else obj [("status", js "exited"); ("timed_out", json_bool true)])]));
  root_is_running n := (n, Ok true)
|}.
Definition demo_adapter_state : Adapter nat :=
  MkAdapter (MkPublicCommandSessions ∅ empty_handles) demo_w0 0%nat None (MkCheckpointFiles None None 0) 0.
Definition demo_shell_request : ShellCommandRequest :=
  MkShellCommandRequest (MkShellExecutionSpec ShellAuto (lit "build") (lit ".") 1000 1000) 0 None None (Some (lit "a")).
Definition demo_started : Adapter nat := (execute_shell_prepared demo_shell_request (Ok (obj [])) None demo_adapter_state).1.
Definition demo_killed : Adapter nat * option (result FacadeError json) :=
  adapter_control_command ControlKill (obj [("session_id", js "lb-session-0")]) None demo_started.

(** A command that is killed as its time runs out: the caller hears that it timed
    out, and the registry that it was cancelled. *)
Example timed_out_is_recorded_cancelled :
  match demo_killed with
  | (s, Some (Ok v)) =>
      get_str (lit "status") (stable_data v) = Some (lit "timed_out") ∧
      (er_state <$> executions (ad_registry s)) = [ExecutionTerminated (MkExecutionTerminal Cancelled None
         (Some "TERM"%string) [] (Some "ProcessCancelled"%string) 16)]
  | _ => False
  end.
Proof. vm_compute. split; reflexivity. Qed.

Lemma demo_others n w : rtc world_step w (others n w).
Proof. apply rtc_refl. Defined.
Lemma commands_refine_registry_witness :
  rtc world_step (ad_registry demo_adapter_state) (ad_registry demo_killed.1) ∧
  (reachable (ad_registry demo_adapter_state) → reachable (ad_registry demo_killed.1)).
Proof.
  apply (commands_refine_registry demo_others). eapply rtc_l; [apply run_step|].
  eapply rtc_l; [apply control_step|apply rtc_refl].
Defined.
Lemma pending_output_is_delivered_witness :
  let self := ad_public demo_started in
  let after := append_pending "lb-session-0" (lit "b") (append_pending "lb-session-0" (lit "a") (take_pending "lb-session-0" self).1) in
  is_Some (pc_sessions self !! "lb-session-0"%string) ∧ (take_pending "lb-session-0" after).2 = lit "ab".
Proof.
  assert (Hsession : is_Some (pc_sessions (ad_public demo_started) !! "lb-session-0"%string))
    by (apply (bool_decide_unpack _); vm_compute; exact I).
  split; [exact Hsession|].
  destruct (pending_output_is_delivered "lb-session-0" [lit "a"; lit "b"] (ad_public demo_started) Hsession) as [Htaken _].
  exact Htaken.
Defined.
End demo.
