(* ===== verification/Supervisor.v ===== *)
(** * Supervisor: processes that cannot outlive their owner

    [src/src-tauri/src/runtime/windows_supervisor.rs].  A process is created
    suspended, put into a job that Windows ends when its handle is closed, and
    resumed.  [Kernel] is what Windows keeps: the open handles of this program and
    the processes that live, which run, start further ones and end by themselves
    between any two calls; any call may fail.  The pure parts are the command line
    and the environment a process gets. *)

From S2P Require Import Prelude Text WindowsPath HostFs.
#[local] Open Scope N_scope.

(* @src runtime/windows_supervisor.rs:248-256 SupervisorError *)
Inductive SupervisorError :=
  | InvalidSpec (message : string) | SupervisorWindowsApi (operation : string) (code : N)
  | ResumeFailed | UnexpectedWaitStatus (status : N)
  | ForcedTerminationDidNotDrain (remaining_processes : N) | RootProcessDidNotSignalAfterStop.

(** ** Text for Windows *)

(** [OsStr::encode_wide]: a character above [0xFFFF] is a surrogate pair. *)
Definition wide_char (c : N) : list N :=
  if c <? 0x10000 then [c]
  else [0xD800 + (c - 0x10000) / 0x400; 0xDC00 + (c - 0x10000) mod 0x400].
Definition encode_wide (s : ustr) : list N := concat (map wide_char s).

(* @src runtime/windows_supervisor.rs:876-878 wide_null *)
Definition wide_null (value : ustr) : list N := encode_wide value ++ [0].

Definition quote : N := 0x22.

(** The loop over the characters: [slashes] have been seen and not written. *)
(* @src runtime/windows_supervisor.rs:956-975 quote_windows_arg, the loop *)
Fixpoint quote_loop (slashes : nat) (text : ustr) : ustr :=
  match text with
  | [] => replicate (slashes * 2) backslash ++ [quote]
  | ch :: text =>
      if ch =? backslash then quote_loop (S slashes) text
      else if ch =? quote then
        replicate (slashes * 2 + 1) backslash ++ quote :: quote_loop 0 text
      else replicate slashes backslash ++ ch :: quote_loop 0 text
  end.

(* @src runtime/windows_supervisor.rs:951-976 quote_windows_arg *)
Definition quote_windows_arg (text : ustr) : ustr :=
  if negb (bool_decide (text = [])) && negb (existsb (λ c, is_whitespace c || (c =? quote)) text)
  then text else quote :: quote_loop 0 text.

(* @src runtime/windows_supervisor.rs:942-949 build_command_line *)
Definition build_command_line (executable : ustr) (args : list ustr) : list N :=
  wide_null (foldl (λ command arg, command ++ 0x20 :: quote_windows_arg arg)
               (quote_windows_arg executable) args).

(** ** What a process is started with *)

(* @src runtime/windows_supervisor.rs:119-131 SecretEnvironmentValue *)
Record SecretEnvironmentValue := MkSecret { secret_wide : list N }.

(* @src runtime/windows_supervisor.rs:122-130 SecretEnvironmentValue::from_str *)
Definition secret_from_str (value : ustr) : result SupervisorError SecretEnvironmentValue :=
  let wide := encode_wide value in
  if existsb (N.eqb 0) wide then Err (InvalidSpec "environment value contains NUL") else Ok (MkSecret wide).

(* @src runtime/windows_supervisor.rs:87-94 ManagedProcessSpec *)
Record ManagedProcessSpec := MkManagedProcessSpec {
  ps_role : ustr;
  ps_executable : ustr;
  ps_args : list ustr;
  ps_current_dir : option ustr;
  ps_environment : list (ustr * SecretEnvironmentValue);
  ps_environment_removals : list ustr
}.
#[export] Instance eta_ManagedProcessSpec : Eta ManagedProcessSpec := λ r,
  MkManagedProcessSpec (ps_role r) (ps_executable r) (ps_args r) (ps_current_dir r)
    (ps_environment r) (ps_environment_removals r).

(* @src runtime/windows_supervisor.rs:158-178 ManagedProcessSpec::new *)
Definition managed_process_spec (role executable : ustr) : result SupervisorError ManagedProcessSpec :=
  if bool_decide (trim role = []) then Err (InvalidSpec "empty process role")
  else if bool_decide (executable = []) then Err (InvalidSpec "empty executable path")
  else Ok (MkManagedProcessSpec role executable [] None [] []).

(* @src runtime/windows_supervisor.rs:180-183 ManagedProcessSpec::arg *)
Definition spec_arg (value : ustr) (self : ManagedProcessSpec) : ManagedProcessSpec :=
  self <| ps_args ::= λ l, l ++ [value] |>.
(* @src runtime/windows_supervisor.rs:185-192 ManagedProcessSpec::args *)
Definition spec_args (values : list ustr) (self : ManagedProcessSpec) : ManagedProcessSpec :=
  self <| ps_args ::= λ l, l ++ values |>.
(* @src runtime/windows_supervisor.rs:194-197 ManagedProcessSpec::current_dir *)
Definition spec_current_dir (path : ustr) (self : ManagedProcessSpec) : ManagedProcessSpec :=
  self <| ps_current_dir := Some path |>.

(* @src runtime/windows_supervisor.rs:880-883 env_names_equal *)
Definition env_names_equal (a b : ustr) : bool := eq_ignore_ascii_case a b.

(* @src runtime/windows_supervisor.rs:885-891 validate_environment_name *)
Definition validate_environment_name (key : ustr) : result SupervisorError unit :=
  if bool_decide (key = []) || existsb (N.eqb 0x3D) key || existsb (N.eqb 0) key
  then Err (InvalidSpec "invalid environment name") else Ok ().

(* @src runtime/windows_supervisor.rs:199-215 ManagedProcessSpec::env *)
Definition spec_env (key value : ustr) (self : ManagedProcessSpec) :
    result SupervisorError ManagedProcessSpec :=
  _ ← validate_environment_name key;
  value ← secret_from_str value;
  let same (entry : ustr * SecretEnvironmentValue) := env_names_equal entry.1 key in
  Ok (self
    <| ps_environment_removals ::= List.filter (λ candidate, negb (env_names_equal candidate key)) |>
    <| ps_environment ::= λ l,
         if existsb same l then update_first same (λ _, (key, value)) l else l ++ [(key, value)] |>).

(* @src runtime/windows_supervisor.rs:217-230 ManagedProcessSpec::env_remove *)
Definition spec_env_remove (key : ustr) (self : ManagedProcessSpec) :
    result SupervisorError ManagedProcessSpec :=
  _ ← validate_environment_name key;
  Ok (self
    <| ps_environment ::= List.filter (λ entry, negb (env_names_equal entry.1 key)) |>
    <| ps_environment_removals ::= λ l,
         if existsb (λ candidate, env_names_equal candidate key) l then l else l ++ [key] |>).

(** What is inherited, then what is set, by name. *)
(* @src runtime/windows_supervisor.rs:906-930 build_environment_block, the entries *)
Definition environment_entries (inherited : list (ustr * ustr))
    (overrides : list (ustr * SecretEnvironmentValue)) (removals : list ustr) :
    list (ustr * list N) :=
  let kept := List.filter (λ entry : ustr * ustr,
    negb (existsb (λ o : ustr * SecretEnvironmentValue, env_names_equal entry.1 o.1) overrides) &&
    negb (existsb (env_names_equal entry.1) removals)) inherited in
  sort_by (λ a b : ustr * list N, ustr_leb (to_ascii_lowercase a.1) (to_ascii_lowercase b.1))
    ((prod_map id encode_wide <$> kept) ++ (prod_map id secret_wide <$> overrides)).

(* @src runtime/windows_supervisor.rs:893-940 build_environment_block *)
Definition build_environment_block (inherited : list (ustr * ustr))
    (overrides : list (ustr * SecretEnvironmentValue)) (removals : list ustr) : option (list N) :=
  match overrides, removals with
  | [], [] => None
  | _, _ =>
      Some (concat ((λ entry : ustr * list N, encode_wide entry.1 ++ 0x3D :: entry.2 ++ [0]) <$>
              environment_entries inherited overrides removals) ++ [0])
  end.

(* @src runtime/windows_supervisor.rs:55-62 ProcessSnapshot *)
Record ProcessSnapshot := MkProcessSnapshot {
  sn_role : ustr;
  sn_pid : N;
  sn_generation : N;
  sn_creation_time_100ns : N;
  sn_started_at : N
}.
(* @src runtime/windows_supervisor.rs:65-69 SnapshotDisposition *)
Inductive SnapshotDisposition := CurrentGeneration | StaleGeneration | ProcessIdentityMismatch.

(* @src runtime/windows_supervisor.rs:71-85 classify_persisted_snapshot *)
Definition classify_persisted_snapshot (current persisted : ProcessSnapshot) : SnapshotDisposition :=
  if negb (sn_generation current =? sn_generation persisted) then StaleGeneration
  else if negb (sn_pid current =? sn_pid persisted) ||
          negb (sn_creation_time_100ns current =? sn_creation_time_100ns persisted) ||
          negb (bool_decide (sn_role current = sn_role persisted))
  then ProcessIdentityMismatch else CurrentGeneration.

(** ** Windows *)

(** A process that runs may start further ones, in its job, and ends when it
    wants; one that is suspended does nothing. *)
Record Proc := MkProc { pr_job : option nat; pr_running : bool }.
#[export] Instance eta_Proc : Eta Proc := λ r, MkProc (pr_job r) (pr_running r).
Inductive Object := JobObject (kill_on_close : bool) | ProcessObject (pid : nat) | ThreadObject (pid : nat)
  | ReadEnd | WriteEnd.
#[export] Instance Object_eq_dec : EqDecision Object.
Proof. solve_decision. Defined.

(** [k_calls]: how many calls have been answered; [k_now]: milliseconds;
    handles and process numbers are not used again; [k_reader]: the thread that
    reads an output pipe. *)
Record Kernel := MkKernel {
  k_calls : nat;
  k_now : N;
  k_next : nat;
  k_handles : gmap nat Object;
  k_live : gmap nat Proc;
  k_pids : nat;
  k_generation : N
}.
#[export] Instance eta_Kernel : Eta Kernel := λ r,
  MkKernel (k_calls r) (k_now r) (k_next r) (k_handles r) (k_live r) (k_pids r) (k_generation r).

(** Which calls fail and with which code; which processes end and how many each
    starts before a call is answered; how long it takes; what a wait may report
    beside the documented results; and what the processes write and report. *)
Class Win32 := {
  api_fails : nat → bool;
  last_error_code : nat → N;
  exits : nat → nat → bool;
  forks : nat → nat → nat;
  call_time : nat → N;
  odd_status : nat → option N;
  path_is_file : nat → ustr → bool;
  path_is_dir : nat → ustr → bool;
  vars_os : list (ustr * ustr);
  exit_code_of : nat → N;
  creation_time_of : nat → N;
  pipe_reads : nat → list (list N)
}.

Section windows.
Context `{Win32}.

Definition start_child (job : option nat) (k : Kernel) : Kernel :=
  k <| k_live ::= <[k_pids k := MkProc job true]> |> <| k_pids ::= S |>.
(** What the processes do before call [n] is answered. *)
Definition evolve (n : nat) (k : Kernel) : Kernel :=
  let survivors := filter (λ p : nat * Proc, ¬(pr_running p.2 = true ∧ exits n p.1 = true)) (k_live k) in
  foldr (λ p : nat * Proc, if pr_running p.2 then Nat.iter (forks n p.1) (start_child (pr_job p.2)) else id)
    (k <| k_live := survivors |>) (map_to_list survivors).

Abbreviation W := (ST Kernel SupervisorError).

Definition tick (k : Kernel) : Kernel :=
  evolve (k_calls k) k <| k_calls := S (k_calls k) |> <| k_now := k_now k + call_time (k_calls k) |>.
(** A call that may fail. *)
Definition api {A} (operation : string) (f : Kernel → Kernel * A) : W A := λ k,
  let n := k_calls k in
  if api_fails n then (tick k, Err (SupervisorWindowsApi operation (last_error_code n)))
  else let '(k, a) := f (tick k) in (k, Ok a).
(** [let _ = ..] and calls whose answer is not looked at. *)
Definition unchecked (m : W unit) : W unit := ignore m.
(** [let error = ..; cleanup; return Err(error)]. *)
Definition on_error {A} (m : W A) (cleanup : W unit) : W A :=
  r ← try (F := SupervisorError) m;
  match r with Ok a => mret a | Err e => _ ← cleanup; throw e end.

Definition new_handle (object : Object) (k : Kernel) : Kernel * nat :=
  (k <| k_handles ::= <[k_next k := object]> |> <| k_next ::= S |>, k_next k).
(** The processes of a job end. *)
Definition end_job (job : nat) (k : Kernel) : Kernel :=
  k <| k_live ::= filter (λ p : nat * Proc, pr_job p.2 ≠ Some job) |>.

(** [CloseHandle]; closing the only handle of a job that kills on close ends its
    processes. *)
Definition close_object (handle : nat) (k : Kernel) : Kernel :=
  let k' := k <| k_handles ::= delete handle |> in
  if bool_decide (k_handles k !! handle = Some (JobObject true)) then end_job handle k' else k'.
(* @src runtime/windows_supervisor.rs:800-804 close_handle *)
Definition close_handle (handle : nat) : W unit := λ k, (close_object handle k, Ok ()).

Definition pid_of (handle : nat) (k : Kernel) : option nat :=
  match k_handles k !! handle with Some (ProcessObject pid | ThreadObject pid) => Some pid | _ => None end.
Definition change_process (handle : nat) (f : Proc → option Proc) (k : Kernel) : Kernel :=
  match pid_of handle k with Some pid => k <| k_live ::= partial_alter (λ p, p ≫= f) pid |> | None => k end.

(* @src runtime/windows_supervisor.rs:738-759 create_kill_on_close_job *)
Definition create_kill_on_close_job : W nat :=
  job ← api "CreateJobObjectW" (new_handle (JobObject false));
  _ ← on_error (api "SetInformationJobObject" (λ k,
        (k <| k_handles ::= <[job := JobObject true]> |>, ()))) (close_handle job);
  mret job.

(* @src runtime/windows_supervisor.rs:761-779 create_bounded_output_pipe *)
Definition create_bounded_output_pipe : W (nat * nat) :=
  pipe ← api "CreatePipe" (λ k,
    let '(k, read_handle) := new_handle ReadEnd k in
    let '(k, write_handle) := new_handle WriteEnd k in (k, (read_handle, write_handle)));
  _ ← on_error (api "SetHandleInformation" (λ k, (k, ())))
        (_ ← close_handle pipe.1; close_handle pipe.2);
  mret pipe.

(** The list of attributes is memory of this program; its handles are borrowed. *)
(* @src runtime/windows_supervisor.rs:667-709 InheritedHandleList::new *)
Definition inherited_handle_list : W unit :=
  _ ← api "InitializeProcThreadAttributeList(size)" (λ k, (k, ()));
  _ ← api "InitializeProcThreadAttributeList" (λ k, (k, ()));
  api "UpdateProcThreadAttribute(HANDLE_LIST)" (λ k, (k, ())).

(** [CreateProcessW] with [CREATE_SUSPENDED]: handles of the process and its
    thread. *)
Definition create_process : W (nat * nat) :=
  api "CreateProcessW" (λ k,
    let pid := k_pids k in
    let k := k <| k_live ::= <[pid := MkProc None false]> |> <| k_pids ::= S |> in
    let '(k, process) := new_handle (ProcessObject pid) k in
    let '(k, thread) := new_handle (ThreadObject pid) k in (k, (process, thread))).
Definition assign_process (job process : nat) : W unit :=
  api "AssignProcessToJobObject" (λ k, (change_process process (λ p, Some (p <| pr_job := Some job |>)) k, ())).
Definition terminate_process (process : nat) : W unit :=
  unchecked (api "TerminateProcess" (λ k, (change_process process (λ _, None) k, ()))).
Definition terminate_job (job : nat) : W unit := api "TerminateJobObject" (λ k, (end_job job k, ())).
Definition resume_thread (thread : nat) : W unit :=
  map_error (λ _, ResumeFailed)
    (api "ResumeThread" (λ k, (change_process thread (λ p, Some (p <| pr_running := true |>)) k, ()))).

Definition job_processes (job : nat) (k : Kernel) : nat :=
  length (List.filter (λ p : nat * Proc, bool_decide (pr_job p.2 = Some job)) (map_to_list (k_live k))).
(* @src runtime/windows_supervisor.rs:811-826 query_active_processes *)
Definition query_active_processes (job : nat) : W nat :=
  api "QueryInformationJobObject" (λ k, (k, job_processes job k)).

(** [WaitForSingleObject] without waiting, on a process. *)
Inductive WaitStatus := WaitObject0 | WaitTimeout | WaitFailed (error : SupervisorError) | WaitOther (status : N).
Definition wait_for_single_object {E} (process : nat) : ST Kernel E WaitStatus := λ k,
  match api "WaitForSingleObject" (λ k,
    (k, match pid_of process k with Some pid => bool_decide (k_live k !! pid = None) | None => true end)) k with
  | (k', Err e) => (k', Ok (WaitFailed e))
  | (k', Ok ended) =>
      (k', Ok (match odd_status (k_calls k) with
               | Some status => WaitOther status
               | None => if ended then WaitObject0 else WaitTimeout
               end))
  end.

(** [thread::sleep(Duration::from_millis(10))] and [Instant::now]. *)
Definition sleep_10 : W unit := λ k, (k <| k_now ::= N.add 10 |>, Ok ()).
Definition now : W N := λ k, (k, Ok (k_now k)).

(** Steps of 10 ms until the deadline, which bounds them. *)
Definition poll_fuel (timeout : N) : nat := N.to_nat (timeout / 10 + 2).

(* @src runtime/windows_supervisor.rs:828-839 wait_for_job_empty, the loop *)
Fixpoint job_empty_loop (fuel : nat) (job : nat) (deadline : N) : W bool :=
  match fuel with
  | O => mret false
  | S fuel =>
      active ← query_active_processes job;
      if (active =? 0)%nat then mret true else
      t ← now;
      if deadline <=? t then mret false else
      _ ← sleep_10; job_empty_loop fuel job deadline
  end.
(* @src runtime/windows_supervisor.rs:828-839 wait_for_job_empty *)
Definition wait_for_job_empty (job : nat) (timeout : N) : W bool :=
  t ← now; job_empty_loop (poll_fuel timeout) job (t + timeout).

(* @src runtime/windows_supervisor.rs:841-855 wait_for_process_exit, the loop *)
Fixpoint process_exit_loop (fuel : nat) (process : nat) (deadline : N) : W bool :=
  match fuel with
  | O => mret false
  | S fuel =>
      wait ← wait_for_single_object process;
      match wait with
      | WaitObject0 => mret true
      | WaitFailed e => throw e
      | WaitOther status => throw (UnexpectedWaitStatus status)
      | WaitTimeout =>
          t ← now;
          if deadline <=? t then mret false else
          _ ← sleep_10; process_exit_loop fuel process deadline
      end
  end.
(* @src runtime/windows_supervisor.rs:841-855 wait_for_process_exit *)
Definition wait_for_process_exit (process : nat) (timeout : N) : W bool :=
  t ← now; process_exit_loop (poll_fuel timeout) process (t + timeout).

(* @src runtime/windows_supervisor.rs:857-867 process_creation_time *)
Definition process_creation_time (process : nat) : W N :=
  api "GetProcessTimes" (λ k, (k, match pid_of process k with Some pid => creation_time_of pid | None => 0 end)).

(** ** A supervised process *)

Definition FORCED_EXIT_CODE : N := 0x4C420004.
Definition BOUNDED_TIMEOUT_EXIT_CODE : N := 0x4C420005.
Definition FORCED_DRAIN_TIMEOUT : N := 5000.
Definition MAX_BOUNDED_COMMAND_TIMEOUT : N := 10000.
Definition MAX_BOUNDED_COMMAND_OUTPUT : N := 1048576.

(* @src runtime/windows_supervisor.rs:287-292 WindowsProcessSupervisor *)
Record WindowsProcessSupervisor := MkSupervisor {
  su_job : nat;
  su_process : nat;
  su_snapshot : ProcessSnapshot;
  su_stopped : bool
}.
#[export] Instance eta_WindowsProcessSupervisor : Eta WindowsProcessSupervisor := λ r,
  MkSupervisor (su_job r) (su_process r) (su_snapshot r) (su_stopped r).

Fixpoint close_all (handles : list nat) : W unit :=
  match handles with [] => mret () | h :: handles => _ ← close_handle h; close_all handles end.

(* @src runtime/windows_supervisor.rs:380-392 WindowsProcessSupervisor::spawn, the result *)
Definition new_supervisor (spec : ManagedProcessSpec) (job process : nat) (creation_time_100ns : N) :
    W WindowsProcessSupervisor := λ k,
  (k <| k_generation := wrapping_add u64_max (k_generation k) 1 |>,
   Ok (MkSupervisor job process
     (MkProcessSnapshot (ps_role spec) (N.of_nat (default 0%nat (pid_of process k))) (k_generation k)
        creation_time_100ns (k_now k)) false)).

(** The program, its arguments and its environment do not influence which calls
    are made. *)
(* @src runtime/windows_supervisor.rs:297-393 WindowsProcessSupervisor::spawn *)
Definition spawn (spec : ManagedProcessSpec) : W WindowsProcessSupervisor :=
  job ← create_kill_on_close_job;
  process_info ← on_error create_process (close_handle job);
  let '(process, thread) := process_info in
  _ ← on_error (assign_process job process)
        (_ ← terminate_process process; close_all [thread; process; job]);
  creation_time_100ns ← on_error (process_creation_time process)
        (_ ← unchecked (terminate_job job); close_all [thread; process; job]);
  _ ← on_error (resume_thread thread)
        (_ ← unchecked (terminate_job job); close_all [thread; process; job]);
  _ ← close_handle thread;
  new_supervisor spec job process creation_time_100ns.

(* @src runtime/windows_supervisor.rs:403-408 WindowsProcessSupervisor::active_processes *)
Definition active_processes (self : WindowsProcessSupervisor) : W nat :=
  if su_stopped self then mret 0%nat else query_active_processes (su_job self).

(* @src runtime/windows_supervisor.rs:410-421 WindowsProcessSupervisor::root_is_running *)
Definition root_is_running (self : WindowsProcessSupervisor) : W bool :=
  if su_stopped self then mret false else
  wait ← wait_for_single_object (su_process self);
  match wait with
  | WaitTimeout => mret true
  | WaitObject0 => mret false
  | WaitFailed e => throw e
  | WaitOther status => throw (UnexpectedWaitStatus status)
  end.

(* @src runtime/windows_supervisor.rs:234-238 StopDisposition *)
Inductive StopDisposition := AlreadyStopped | Graceful | Forced.

(** [self.stopped = true; Ok(..)] once the root has ended. *)
Definition stopped_after_exit (self : WindowsProcessSupervisor) (disposition : StopDisposition) :
    W (WindowsProcessSupervisor * StopDisposition) :=
  exited ← wait_for_process_exit (su_process self) FORCED_DRAIN_TIMEOUT;
  if (exited : bool) then mret (self <| su_stopped := true |>, disposition)
  else throw RootProcessDidNotSignalAfterStop.

(** [request_graceful] is what the caller does to ask for the end. *)
(* @src runtime/windows_supervisor.rs:423-464 WindowsProcessSupervisor::stop_with *)
Definition stop_with (graceful_timeout : N) (request_graceful : Kernel → Kernel)
    (self : WindowsProcessSupervisor) : W (WindowsProcessSupervisor * StopDisposition) :=
  if su_stopped self then mret (self, AlreadyStopped) else
  active ← active_processes self;
  if (active =? 0)%nat then stopped_after_exit self AlreadyStopped else
  _ ← (λ k, (request_graceful k, Ok ())) : W unit;
  gracefully ← wait_for_job_empty (su_job self) graceful_timeout;
  if (gracefully : bool) then stopped_after_exit self Graceful else
  _ ← terminate_job (su_job self);
  drained ← wait_for_job_empty (su_job self) FORCED_DRAIN_TIMEOUT;
  if (drained : bool) then stopped_after_exit self Forced else
  remaining ← query_active_processes (su_job self);
  throw (ForcedTerminationDidNotDrain (N.of_nat remaining)).

(* @src runtime/windows_supervisor.rs:466-468 WindowsProcessSupervisor::force_stop *)
Definition force_stop (self : WindowsProcessSupervisor) := stop_with 0 id self.

(* @src runtime/windows_supervisor.rs:723-736 WindowsProcessSupervisor::drop *)
Definition drop_supervisor (self : WindowsProcessSupervisor) : W unit := close_all [su_job self; su_process self].

(** ** One command, with a bound on its time and its output *)

(* @src runtime/windows_supervisor.rs:241-246 BoundedCommandOutput *)
Record BoundedCommandOutput := MkBoundedCommandOutput {
  bo_exit_code : N;
  bo_output : list N;
  bo_truncated : bool;
  bo_timed_out : bool
}.

(** One chunk; [chunks] ends where the pipe is closed or a read fails. *)
(* @src runtime/windows_supervisor.rs:781-798 drain_bounded_output *)
Definition drain_bounded_output (limit : N) (chunks : list (list N)) : list N * bool :=
  foldl (λ '(retained, truncated) chunk,
    let available := limit - N.of_nat (length retained) in
    let keep := N.min (N.of_nat (length chunk)) available in
    (retained ++ take (N.to_nat keep) chunk, truncated || (keep <? N.of_nat (length chunk)))) ([], false) chunks.

(* @src runtime/windows_supervisor.rs:806-809 is_verbatim_path *)
Definition is_verbatim_path (path : ustr) : bool := starts_with (lit "\\?\") (encode_wide path).

(* @src runtime/windows_supervisor.rs:478-496 run_bounded_command, the arguments *)
Definition bounded_spec_valid (calls : nat) (executable : ustr) (args : list ustr) (current_dir : ustr)
    (timeout max_output_bytes : N) : bool :=
  negb (negb (is_absolute executable) || negb (path_is_file calls executable) ||
        is_verbatim_path executable || negb (is_absolute current_dir) ||
        negb (path_is_dir calls current_dir) || is_verbatim_path current_dir || (timeout =? 0) ||
        (MAX_BOUNDED_COMMAND_TIMEOUT <? timeout) || (max_output_bytes =? 0) ||
        (MAX_BOUNDED_COMMAND_OUTPUT <? max_output_bytes) ||
        existsb (N.eqb 0) (encode_wide executable) || existsb (N.eqb 0) (encode_wide current_dir) ||
        existsb (λ arg, existsb (N.eqb 0) (encode_wide arg)) args).

(** The thread that reads ends when nothing can write any more, and closes its
    end. *)
Definition join_reader (read_handle : nat) : W unit := close_handle read_handle.

(* @src runtime/windows_supervisor.rs:572-598 run_bounded_command, until the end *)
Fixpoint bounded_loop (fuel : nat) (job process read_handle : nat) (started timeout : N) : W bool :=
  match fuel with
  | O => mret true
  | S fuel =>
      active ← on_error (query_active_processes job)
        (_ ← unchecked (terminate_job job);
         _ ← ignore (wait_for_job_empty job FORCED_DRAIN_TIMEOUT);
         _ ← close_all [process; job]; join_reader read_handle);
      if (active =? 0)%nat then mret false else
      t ← now;
      if timeout <=? t - started then
        _ ← on_error (terminate_job job) (_ ← close_all [process; job]; join_reader read_handle);
        mret true
      else
        _ ← sleep_10; bounded_loop fuel job process read_handle started timeout
  end.

(* @src runtime/windows_supervisor.rs:599-639 run_bounded_command, after the end *)
Definition bounded_drain (job process read_handle : nat) : W unit :=
  job_empty ← on_error (wait_for_job_empty job FORCED_DRAIN_TIMEOUT)
    (_ ← unchecked (terminate_job job);
     _ ← ignore (wait_for_job_empty job FORCED_DRAIN_TIMEOUT);
     _ ← close_all [process; job]; join_reader read_handle);
  if negb job_empty then
    _ ← unchecked (terminate_job job);
    _ ← ignore (wait_for_job_empty job FORCED_DRAIN_TIMEOUT);
    remaining ← try (F := SupervisorError) (query_active_processes job);
    _ ← close_all [process; job]; _ ← join_reader read_handle;
    throw (ForcedTerminationDidNotDrain
      (match remaining with Ok remaining => N.of_nat remaining | Err _ => 1 end))
  else
  process_exited ← on_error (wait_for_process_exit process FORCED_DRAIN_TIMEOUT)
    (_ ← unchecked (terminate_job job);
     _ ← ignore (wait_for_job_empty job FORCED_DRAIN_TIMEOUT);
     _ ← close_all [process; job]; join_reader read_handle);
  if negb process_exited then
    _ ← unchecked (terminate_job job);
    _ ← ignore (wait_for_job_empty job FORCED_DRAIN_TIMEOUT);
    _ ← close_all [process; job]; _ ← join_reader read_handle;
    throw RootProcessDidNotSignalAfterStop
  else mret ().

(* @src runtime/windows_supervisor.rs:498-569 run_bounded_command, the start *)
Definition bounded_start : W (nat * nat * nat) :=
  pipe ← create_bounded_output_pipe;
  let '(read_handle, write_handle) := pipe in
  job ← on_error create_kill_on_close_job (close_all [read_handle; write_handle]);
  _ ← on_error inherited_handle_list (close_all [read_handle; write_handle; job]);
  process_info ← on_error create_process (close_all [read_handle; write_handle; job]);
  let '(process, thread) := process_info in
  _ ← close_handle write_handle;
  _ ← on_error (assign_process job process)
        (_ ← terminate_process process; close_all [thread; process; job; read_handle]);
  _ ← on_error (resume_thread thread)
        (_ ← unchecked (terminate_job job); close_all [thread; process; job; read_handle]);
  _ ← close_handle thread;
  mret (job, process, read_handle).

(* @src runtime/windows_supervisor.rs:471-658 run_bounded_command *)
Definition run_bounded_command (executable : ustr) (args : list ustr) (current_dir : ustr) (timeout max_output_bytes : N)
    : W BoundedCommandOutput := λ k,
  (if negb (bounded_spec_valid (k_calls k) executable args current_dir timeout max_output_bytes)
   then throw (InvalidSpec "invalid bounded command spec") else
   handles ← bounded_start;
   let '(job, process, read_handle) := handles in
   started ← now;
   timed_out ← bounded_loop (poll_fuel timeout) job process read_handle started timeout;
   _ ← bounded_drain job process read_handle;
   exit_code ← on_error (api "GetExitCodeProcess" (λ k,
       (k, match pid_of process k with Some pid => exit_code_of pid | None => 0 end)))
     (_ ← close_all [process; job]; join_reader read_handle);
   _ ← close_all [process; job];
   _ ← join_reader read_handle;
   let '(output, truncated) := drain_bounded_output max_output_bytes (pipe_reads read_handle) in
   mret (MkBoundedCommandOutput exit_code output truncated timed_out)) k.
End windows.
