(* ===== verification/SupervisorArguments.v ===== *)
(** * SupervisorArguments: what a process is started with

    Windows splits a command line back into the arguments it was built from, and
    the environment of a process is what the changes of its specification say. *)

From S2P Require Import Prelude Text WindowsPath HostFs Supervisor.
#[local] Open Scope N_scope.

(** ** How Windows splits a command line

    The documented rules: the program is what comes before the first space, or
    between quotes; then an argument ends at a space or tab outside quotes, [2n]
    backslashes before a quote stand for [n], one more makes the quote part of the
    argument, and two quotes inside quotes stand for one. *)

Definition is_blank (u : N) : bool := (u =? 0x20) || (u =? 0x9).
Fixpoint split_arguments (slashes : nat) (quoted : bool) (argument : option (list N)) (units : list N) :
    list (list N) :=
  match units with
  | [] => match argument with Some a => [a ++ replicate slashes backslash] | None => [] end
  | u :: units =>
      let so_far := default [] argument in
      if u =? backslash then split_arguments (S slashes) quoted (Some so_far) units
      else if u =? quote then
        let so_far := so_far ++ replicate (slashes / 2) backslash in
        if Nat.odd slashes then split_arguments 0 quoted (Some (so_far ++ [quote])) units
        else match quoted, units with
             | true, u' :: units' =>
                 if u' =? quote then split_arguments 0 true (Some (so_far ++ [quote])) units'
                 else split_arguments 0 false (Some so_far) units
             | _, _ => split_arguments 0 (negb quoted) (Some so_far) units
             end
      else if is_blank u && negb quoted then
        match argument with
        | Some a => (a ++ replicate slashes backslash) :: split_arguments 0 false None units
        | None => split_arguments 0 false None units
        end
      else split_arguments 0 quoted (Some (so_far ++ replicate slashes backslash ++ [u])) units
  end.
Fixpoint span_until (stop : N → bool) (units : list N) : list N * list N :=
  match units with
  | [] => ([], [])
  | u :: units' => if stop u then ([], units) else prod_map (cons u) id (span_until stop units')
  end.
(** The program, and what follows it. *)
Definition split_off_program (units : list N) : list N * list N :=
  match units with
  | u :: units' =>
      if u =? quote then prod_map id tail (span_until (N.eqb quote) units') else span_until is_blank units
  | [] => ([], [])
  end.
Definition program_and_arguments (units : list N) : list (list N) :=
  let '(program, rest) := split_off_program (span_until (N.eqb 0) units).1 in
  program :: split_arguments 0 false None rest.

Lemma encode_wide_app s t : encode_wide (s ++ t) = encode_wide s ++ encode_wide t.
Proof. unfold encode_wide. by rewrite map_app, concat_app. Qed.
Lemma encode_wide_cons c s : encode_wide (c :: s) = wide_char c ++ encode_wide s.
Proof. done. Qed.
Lemma encode_backslashes n : encode_wide (replicate n backslash) = replicate n backslash.
Proof. induction n as [|n IH]; [done|]. change (replicate (S n) backslash) with (backslash :: replicate n backslash). by rewrite encode_wide_cons, IH. Qed.

(** A character is one unit, or two that stand for nothing else. *)
Lemma wide_char_units c : wide_char c = [c] ∨ ∃ a b, wide_char c = [a; b] ∧ 0xD800 ≤ a ∧ 0xD800 ≤ b.
Proof. unfold wide_char. case_match; [by left|right]. do 2 eexists. split; [done|]. split; apply N.le_add_r || lia. Qed.
Lemma wide_char_ne c u : u < 0xD800 → c ≠ u → u ∉ wide_char c.
Proof.
  intros Hu Hc. destruct (wide_char_units c) as [->|(a & b & -> & Ha & Hb)]; rewrite ?list_elem_of_singleton; [done|].
  rewrite !elem_of_cons. intros [->|[->|?%elem_of_nil]]; [lia..|done].
Qed.
Lemma encode_wide_ne s u : u < 0xD800 → u ∉ s → u ∉ encode_wide s.
Proof.
  intros Hu. induction s as [|c s IH]; [done|]. rewrite encode_wide_cons, elem_of_app, not_elem_of_cons.
  intros [Hc Hs] [Hin|Hin]; [|by apply IH]. by apply (wide_char_ne c u Hu).
Qed.

Section arguments.
Implicit Types (argument units rest : list N) (text : ustr).

Lemma split_unit slashes quoted cur u rest :
  u ≠ backslash → u ≠ quote → (is_blank u && negb quoted) = false →
  split_arguments slashes quoted cur (u :: rest) =
  split_arguments 0 quoted (Some (default [] cur ++ replicate slashes backslash ++ [u])) rest.
Proof. intros Hb Hq Hs. cbn [split_arguments]. by rewrite (proj2 (N.eqb_neq _ _) Hb), (proj2 (N.eqb_neq _ _) Hq), Hs. Qed.
Lemma split_char slashes quoted cur c rest :
  c ≠ backslash → c ≠ quote → (is_blank c && negb quoted) = false →
  split_arguments slashes quoted cur (wide_char c ++ rest) =
  split_arguments 0 quoted (Some (default [] cur ++ replicate slashes backslash ++ wide_char c)) rest.
Proof.
  intros Hb Hq Hs. destruct (wide_char_units c) as [->|(a & b & -> & Ha & Hb')]; [by apply split_unit|].
  assert (Hplain : ∀ u, 0xD800 ≤ u → u ≠ backslash ∧ u ≠ quote ∧ (is_blank u && negb quoted) = false).
  { intros u Hu. unfold backslash, quote, is_blank. split_and!; [lia..|].
    by rewrite (proj2 (N.eqb_neq u 0x20)), (proj2 (N.eqb_neq u 0x9)) by lia. }
  destruct (Hplain a Ha) as (? & ? & ?), (Hplain b Hb') as (? & ? & ?).
  cbn [app]. rewrite !split_unit by done. cbn [default id replicate app]. by rewrite <-!(assoc_L (++)).
Qed.
Lemma split_backslashes n slashes quoted argument rest :
  split_arguments slashes quoted (Some argument) (replicate n backslash ++ rest) =
  split_arguments (slashes + n) quoted (Some argument) rest.
Proof.
  revert slashes. induction n as [|n IH]; intros slashes; [by rewrite Nat.add_0_r|].
  cbn [replicate app split_arguments]. rewrite N.eqb_refl. simpl. rewrite IH. f_equal. lia.
Qed.

(** What may follow an argument. *)
Definition ends_here (rest : list N) : Prop := match rest with [] => True | u :: _ => u = 0x20 end.
Lemma split_end slashes argument rest :
  ends_here rest →
  split_arguments slashes false (Some argument) rest =
  (argument ++ replicate slashes backslash) :: split_arguments 0 false None (tail rest).
Proof. by destruct rest as [|u rest]; [|intros ->]. Qed.

Lemma split_quoted text slashes argument rest :
  ends_here rest →
  split_arguments 0 true (Some argument) (encode_wide (quote_loop slashes text) ++ rest) =
  (argument ++ replicate slashes backslash ++ encode_wide text) :: split_arguments 0 false None (tail rest).
Proof.
  intros Hrest. revert slashes argument. induction text as [|c text IH]; intros slashes argument; cbn [quote_loop].
  - rewrite encode_wide_app, encode_backslashes, <-(assoc_L (++)), split_backslashes. cbn [plus].
    change (encode_wide [quote] ++ rest) with (quote :: rest). cbn [split_arguments].
    assert (Hodd : Nat.odd (slashes * 2) = false) by (rewrite Nat.odd_mul; apply andb_false_r).
    change (quote =? backslash) with false. change (quote =? quote) with true. cbn match. rewrite Hodd, Nat.div_mul by done.
    destruct rest as [|u rest]; [|simpl in Hrest; subst u; change (0x20 =? quote) with false];
      cbn [negb default id]; rewrite split_end by done; by rewrite !app_nil_r.
  - case_match eqn:Hb.
    { apply N.eqb_eq in Hb as ->. rewrite IH. do 2 f_equal. rewrite encode_wide_cons. change (wide_char backslash) with [backslash].
      by rewrite (replicate_S_end slashes), <-(assoc_L (++)). }
    case_match eqn:Hq.
    { apply N.eqb_eq in Hq as ->. rewrite encode_wide_app, encode_backslashes, <-(assoc_L (++)), split_backslashes.
      rewrite encode_wide_cons. change (wide_char quote) with [quote]. cbn [plus app split_arguments].
      change (quote =? backslash) with false. change (quote =? quote) with true. cbn match.
      assert (Nat.odd (slashes * 2 + 1) = true) as -> by (rewrite Nat.odd_add, Nat.odd_mul, andb_false_r; done).
      assert ((slashes * 2 + 1) / 2 = slashes)%nat as ->
        by (rewrite Nat.add_comm; rewrite Nat.div_add by done; reflexivity).
      simpl. rewrite IH. by rewrite <-!(assoc_L (++)). }
    rewrite encode_wide_app, encode_backslashes, <-(assoc_L (++)), split_backslashes, encode_wide_cons, <-(assoc_L (++)). cbn [plus].
    rewrite split_char by (first [by apply N.eqb_neq|by rewrite andb_false_r]). rewrite IH. simpl. by rewrite <-!(assoc_L (++)).
Qed.

Lemma split_plain text slashes argument rest :
  ends_here rest → Forall (λ c, c ≠ quote ∧ is_blank c = false) text →
  split_arguments slashes false (Some argument) (encode_wide text ++ rest) =
  (argument ++ replicate slashes backslash ++ encode_wide text) :: split_arguments 0 false None (tail rest).
Proof.
  intros Hrest Htext. revert slashes argument. induction Htext as [|c text [Hq Hb] _ IH]; intros slashes argument.
  { by rewrite app_nil_r, split_end. }
  rewrite encode_wide_cons, <-(assoc_L (++)). destruct (decide (c = backslash)) as [->|Hc].
  - change (wide_char backslash) with [backslash]. cbn [app split_arguments]. rewrite N.eqb_refl. cbn [default id].
    rewrite IH. do 2 f_equal. by rewrite (replicate_S_end slashes), <-(assoc_L (++)).
  - rewrite split_char by (done || by rewrite Hb). rewrite IH. simpl. by rewrite <-!(assoc_L (++)).
Qed.

(** The first unit of an argument does not depend on whether one has begun. *)
Lemma split_begin u rest :
  is_blank u = false → split_arguments 0 false None (u :: rest) = split_arguments 0 false (Some []) (u :: rest).
Proof. intros Hu. cbn [split_arguments default]. by rewrite Hu. Qed.

Lemma split_argument text rest :
  ends_here rest →
  split_arguments 0 false None (0x20 :: encode_wide (quote_windows_arg text) ++ rest) =
  encode_wide text :: split_arguments 0 false None (tail rest).
Proof.
  intros Hrest. change (split_arguments 0 false None (0x20 :: ?l)) with (split_arguments 0 false None l).
  unfold quote_windows_arg. destruct (_ && _) eqn:Hplain.
  - apply andb_true_iff in Hplain as [Hne%negb_true_iff%bool_decide_eq_false Hall%negb_true_iff].
    assert (Hchars : Forall (λ c, c ≠ quote ∧ is_blank c = false) text).
    { apply List.Forall_forall. intros c Hin. apply not_true_iff_false in Hall. rewrite existsb_exists in Hall.
      destruct (decide (c = quote)) as [->|Hq]; [exfalso; apply Hall; exists quote; split; [done|apply orb_true_r]|].
      split; [done|]. apply not_true_iff_false. intros Hb. apply Hall. exists c. split; [done|]. apply orb_true_iff. left.
      unfold is_blank in Hb. unfold is_whitespace, in_range. lia. }
    destruct text as [|c text]; [done|]. etrans; [|by apply (split_plain (c :: text) 0 [] rest)].
    rewrite encode_wide_cons, <-(assoc_L (++)). apply Forall_cons in Hchars as [[_ Hb] _].
    destruct (wide_char_units c) as [->|(a & b & -> & Ha & _)]; cbn [app]; apply split_begin; [done|].
    unfold is_blank. lia.
  - rewrite encode_wide_cons. change (wide_char quote) with [quote]. etrans; [|by apply (split_quoted text 0 [] rest)].
    cbn [app split_arguments]. change (quote =? backslash) with false. change (quote =? quote) with true. simpl. done.
Qed.
End arguments.

Lemma span_until_app stop u v :
  (∀ x, x ∈ u → stop x = false) → match v with [] => True | x :: _ => stop x = true end →
  span_until stop (u ++ v) = (u, v).
Proof.
  induction u as [|x u IH]; intros Hu Hv; simpl.
  - destruct v as [|x v]; [done|]. simpl. by rewrite Hv.
  - rewrite (Hu x) by left. rewrite IH; [done| |done]. intros y Hy. apply Hu. by right.
Qed.

(** A file's name is written between quotes as it is. *)
Lemma quote_loop_file text slashes :
  quote ∉ text → text ≠ [] → last text ≠ Some backslash →
  quote_loop slashes text = replicate slashes backslash ++ text ++ [quote].
Proof.
  revert slashes. induction text as [|c text IH]; intros slashes Hq Hne Hlast; [done|]. cbn [quote_loop].
  apply not_elem_of_cons in Hq as [Hc Hq]. rewrite (proj2 (N.eqb_neq c quote)) by congruence.
  destruct (decide (text = [])) as [->|Hne'].
  { case_match eqn:Hb; [apply N.eqb_eq in Hb as ->; done|]. done. }
  assert (Hlast' : last text ≠ Some backslash) by (destruct text; [done|exact Hlast]).
  case_match eqn:Hb; [apply N.eqb_eq in Hb as ->|]; rewrite IH by done; [|done].
  by rewrite (replicate_S_end slashes), <-(assoc_L (++)).
Qed.
Lemma quote_loop_no_nul text slashes : 0 ∉ text → 0 ∉ quote_loop slashes text.
Proof.
  assert (Hrep : ∀ n, 0 ∉ replicate n backslash) by (intros n Hin; by apply elem_of_replicate in Hin as [? _]).
  revert slashes. induction text as [|c text IH]; intros slashes; cbn [quote_loop].
  - intros _ [?%Hrep|Hin%list_elem_of_singleton]%elem_of_app; done.
  - intros [Hc Ht]%not_elem_of_cons. repeat case_match; [by apply IH|..];
      intros [?%Hrep|[Hin|Hin]%elem_of_cons]%elem_of_app; try done; by apply IH in Hin.
Qed.
Lemma quote_no_nul text : 0 ∉ text → 0 ∉ quote_windows_arg text.
Proof.
  intros Ht. unfold quote_windows_arg. case_match; [done|].
  intros [?|Hin]%elem_of_cons; [done|]. by apply quote_loop_no_nul in Hin.
Qed.

Lemma command_arguments args command :
  encode_wide (foldl (λ command arg, command ++ 0x20 :: quote_windows_arg arg) command args) =
  encode_wide command ++ concat (map (λ arg, 0x20 :: encode_wide (quote_windows_arg arg)) args).
Proof.
  revert command. induction args as [|arg args IH]; intros command; cbn [foldl map concat]; [by rewrite app_nil_r|].
  rewrite IH, encode_wide_app, encode_wide_cons. by rewrite <-(assoc_L (++)).
Qed.
Lemma split_all args :
  split_arguments 0 false None (concat (map (λ arg, 0x20 :: encode_wide (quote_windows_arg arg)) args)) =
  map encode_wide args.
Proof.
  induction args as [|arg args IH]; [done|]. cbn [map concat]. rewrite <-app_comm_cons, split_argument.
  - f_equal. rewrite <-IH. by destruct args.
  - by destruct args.
Qed.

(** The program's name in front of what follows it. *)
Lemma split_program executable rest :
  executable ≠ [] → quote ∉ executable → last executable ≠ Some backslash → ends_here rest →
  split_off_program (encode_wide (quote_windows_arg executable) ++ rest) = (encode_wide executable, rest).
Proof.
  intros Hne Hq Hlast Hrest. unfold quote_windows_arg. destruct (_ && _) eqn:Hplain.
  - apply andb_true_iff in Hplain as [_ Hall%negb_true_iff].
    assert (Hunits : ∀ x, x ∈ encode_wide executable → x ≠ quote ∧ is_blank x = false).
    { intros x Hx. split; [intros ->; revert Hx; by apply encode_wide_ne|].
      apply not_true_iff_false. intros Hb. apply not_true_iff_false in Hall. apply Hall, existsb_exists. exists x.
      assert (Hlt : x < 0xD800) by (unfold is_blank in Hb; lia). split.
      - apply list_elem_of_In. destruct (decide (x ∈ executable)) as [|Hn]; [done|]. by destruct (encode_wide_ne _ _ Hlt Hn).
      - unfold is_blank in Hb. unfold is_whitespace, in_range. lia. }
    assert (Hspan : span_until is_blank (encode_wide executable ++ rest) = (encode_wide executable, rest)).
    { apply span_until_app; [apply Hunits|]. destruct rest; [done|]. by rewrite Hrest. }
    destruct (encode_wide executable) as [|u units] eqn:He.
    { destruct executable as [|c executable]; [done|]. rewrite encode_wide_cons in He.
      by destruct (wide_char_units c) as [Hc|(a & b & Hc & _)]; rewrite Hc in He. }
    destruct (Hunits u) as [Hu%N.eqb_neq _]; [left|]. cbn [app split_off_program]. by rewrite Hu.
  - rewrite quote_loop_file by done. cbn [replicate app]. rewrite encode_wide_cons, encode_wide_app.
    change (wide_char quote) with [quote]. change (encode_wide [quote]) with [quote]. cbn [app split_off_program].
    rewrite N.eqb_refl, <-(assoc_L (++)), span_until_app; [done| |done].
    intros x Hx. apply N.eqb_neq. intros <-. revert Hx. by apply encode_wide_ne.
Qed.

(** Arguments arrive as they were given.  Windows splits the
    command line of a process, by its documented rules, into the program and
    exactly the arguments it was built from, whatever they contain - spaces,
    quotes, backslashes before quotes or at the end, nothing at all - except the
    null character, which ends the line. *)
Theorem windows_reads_command_line executable args :
  executable ≠ [] → quote ∉ executable → last executable ≠ Some backslash →
  Forall (λ text, 0 ∉ text) (executable :: args) →
  program_and_arguments (build_command_line executable args) = map encode_wide (executable :: args).
Proof.
  intros Hne Hq Hlast [Hnul Hnuls]%Forall_cons. unfold build_command_line, wide_null, program_and_arguments.
  rewrite command_arguments, span_until_app; [| |done].
  - cbn [fst]. rewrite split_program; [|done..|by destruct args].
    by rewrite split_all.
  - intros x Hx. apply N.eqb_neq. intros <-. revert Hx. rewrite elem_of_app. intros [Hx|Hx].
    + revert Hx. apply encode_wide_ne; [done|]. by apply quote_no_nul.
    + apply list_elem_of_In, in_concat in Hx as (l & Hl & Hx%list_elem_of_In).
      apply list_elem_of_In, list_elem_of_fmap in Hl as (arg & -> & Harg). apply elem_of_cons in Hx as [?|Hx]; [done|]. revert Hx. apply encode_wide_ne; [done|].
      apply quote_no_nul. by apply (proj1 (Forall_forall _ _) Hnuls).
Qed.
Definition demo_arguments : list ustr :=
  [lit "log"; []; lit "say " ++ quote :: lit "hi" ++ [quote]; lit "C:\a b\"; lit "x\"; lit "\" ++ [quote]; [0x1F600]].
Lemma windows_reads_command_line_witness :
  program_and_arguments (build_command_line (lit "C:\Program Files\git.exe") demo_arguments) =
  map encode_wide (lit "C:\Program Files\git.exe" :: demo_arguments).
Proof. apply windows_reads_command_line; by apply (bool_decide_unpack _); vm_compute. Defined.

(** ** The environment *)

(** A change of a specification's environment. *)
Inductive EnvironmentChange := SetVariable (key value : ustr) | RemoveVariable (key : ustr).
Definition changed_key (change : EnvironmentChange) : ustr :=
  match change with SetVariable key _ | RemoveVariable key => key end.
Definition apply_change (change : EnvironmentChange) (spec : ManagedProcessSpec) : result SupervisorError ManagedProcessSpec :=
  match change with
  | SetVariable key value => spec_env key value spec
  | RemoveVariable key => spec_env_remove key spec
  end.
Fixpoint apply_changes (changes : list EnvironmentChange) (spec : ManagedProcessSpec) :
    result SupervisorError ManagedProcessSpec :=
  match changes with [] => Ok spec | change :: changes => spec ← apply_change change spec; apply_changes changes spec end.

Definition named (name : ustr) {A} (entry : ustr * A) : bool := env_names_equal entry.1 name.
(** What the last change of a variable makes of it. *)
Definition variable_after (inherited : list (ustr * list N)) (changes : list EnvironmentChange) (name : ustr) :
    list (ustr * list N) :=
  match find_last (λ change, env_names_equal (changed_key change) name) changes with
  | Some (SetVariable key value) => [(key, encode_wide value)]
  | Some (RemoveVariable _) => []
  | None => List.filter (named name) inherited
  end.

Lemma names_equal_iff a b : env_names_equal a b = true ↔ to_ascii_lowercase a = to_ascii_lowercase b.
Proof. unfold env_names_equal, eq_ignore_ascii_case. by rewrite bool_decide_eq_true. Qed.
Lemma names_equal_swap a b : env_names_equal a b = env_names_equal b a.
Proof. apply eq_true_iff_eq. rewrite !names_equal_iff. split; congruence. Qed.
Lemma names_equal_left a b c : env_names_equal a b = true → env_names_equal a c = env_names_equal b c.
Proof. rewrite names_equal_iff. intros Hab. apply eq_true_iff_eq. rewrite !names_equal_iff. split; congruence. Qed.

(** What has been recorded of the changes so far. *)
Definition recorded (changes : list EnvironmentChange) (spec : ManagedProcessSpec) : Prop :=
  ∀ name,
    prod_map id secret_wide <$> List.filter (named name) (ps_environment spec) =
      match find_last (λ change, env_names_equal (changed_key change) name) changes with
      | Some (SetVariable key value) => [(key, encode_wide value)]
      | _ => []
      end ∧
    existsb (λ candidate, env_names_equal candidate name) (ps_environment_removals spec) =
      match find_last (λ change, env_names_equal (changed_key change) name) changes with
      | Some (RemoveVariable _) => true
      | _ => false
      end.

(** *** Filtering *)

Section filtering.
Context {A : Type} (p : A → bool).
Implicit Types (l : list A) (q : A → bool).

Lemma filter_ext_bool q l : (∀ x, p x = q x) → List.filter p l = List.filter q l.
Proof. intros Hpq. by apply List.filter_ext. Qed.
Lemma existsb_filter_nil l : existsb p l = false ↔ List.filter p l = [].
Proof.
  induction l as [|x l IH]; [done|]. simpl. destruct (p x); simpl; [done|exact IH].
Qed.
Lemma filter_update_same new l :
  (length (List.filter p l) ≤ 1)%nat → existsb p l = true → p new = true →
  List.filter p (update_first p (λ _, new) l) = [new].
Proof.
  intros Hlen Hex Hnew. induction l as [|x l IH]; [done|]. simpl in *. destruct (p x) eqn:Hx; simpl in *.
  - rewrite Hnew. f_equal. apply nil_length_inv. lia.
  - rewrite Hx. by apply IH.
Qed.
Lemma filter_update_other q new l :
  (∀ x, p x = true → q x = false) → q new = false →
  List.filter q (update_first p (λ _, new) l) = List.filter q l.
Proof.
  intros Hpq Hnew. induction l as [|x l IH]; [done|]. simpl. destruct (p x) eqn:Hx; simpl.
  - by rewrite Hnew, (Hpq x Hx).
  - by rewrite IH.
Qed.
Lemma filter_filter_none q l : (∀ x, p x = q x) → List.filter p (List.filter (λ x, negb (q x)) l) = [].
Proof.
  intros Hpq. induction l as [|x l IH]; [done|]. simpl. destruct (q x) eqn:Hx; simpl; [done|]. by rewrite Hpq, Hx.
Qed.
Lemma filter_filter_all q l : (∀ x, p x = true → q x = false) → List.filter p (List.filter (λ x, negb (q x)) l) = List.filter p l.
Proof.
  intros Hpq. induction l as [|x l IH]; [done|]. simpl. destruct (q x) eqn:Hx; simpl.
  - destruct (p x) eqn:Hp; [by rewrite Hpq in Hx|done].
  - by rewrite IH.
Qed.
Lemma existsb_filter_other q l : (∀ x, p x = true → q x = false) → existsb p (List.filter (λ x, negb (q x)) l) = existsb p l.
Proof.
  intros Hpq. apply eq_true_iff_eq. rewrite <-!not_false_iff_true, !existsb_filter_nil. by rewrite filter_filter_all.
Qed.
End filtering.

Lemma find_last_snoc {A} (p : A → bool) l x : find_last p (l ++ [x]) = if p x then Some x else find_last p l.
Proof. unfold find_last. by rewrite rev_app_distr. Qed.
Lemma apply_changes_snoc changes change spec spec' :
  apply_changes (changes ++ [change]) spec = Ok spec' →
  ∃ middle, apply_changes changes spec = Ok middle ∧ apply_change change middle = Ok spec'.
Proof.
  revert spec. induction changes as [|c changes IH]; intros spec; cbn [app apply_changes].
  - intros (s & Hs & [= <-])%bind_Ok. eauto.
  - intros (s & Hs & (middle & Hm & Hc)%IH)%bind_Ok. exists middle. split; [|done]. apply bind_Ok. eauto.
Qed.

Section recording.
Context (changes : list EnvironmentChange) (spec spec' : ManagedProcessSpec) (Hrec : recorded changes spec).

Lemma recorded_once key : (length (List.filter (named key) (ps_environment spec)) ≤ 1)%nat.
Proof.
  destruct (Hrec key) as [Henv _]. apply (f_equal length) in Henv. rewrite length_fmap in Henv. rewrite Henv.
  repeat case_match; simpl; lia.
Qed.
(** Names that are equal, and names that are not. *)
Lemma named_same {A} key name (e : ustr * A) : env_names_equal key name = true → named name e = named key e.
Proof. intros Hk. unfold named. rewrite !(names_equal_swap e.1). symmetry. by apply names_equal_left. Qed.
Lemma named_other {A} key name (e : ustr * A) : env_names_equal key name = false → named key e = true → named name e = false.
Proof. unfold named. intros Hk Hin. rewrite (names_equal_left _ _ name Hin). exact Hk. Qed.
Lemma named_other' {A} key name (e : ustr * A) : env_names_equal key name = false → named name e = true → named key e = false.
Proof. unfold named. intros Hk Hin. rewrite (names_equal_left _ _ key Hin), names_equal_swap. exact Hk. Qed.

Lemma recorded_set key value :
  spec_env key value spec = Ok spec' → recorded (changes ++ [SetVariable key value]) spec'.
Proof.
  unfold spec_env. intros (? & _ & Hsecret)%bind_Ok. apply bind_Ok in Hsecret as (secret & Hvalue & [= <-]).
  unfold secret_from_str in Hvalue. case_match; [done|]. injection Hvalue as <-.
  intros name. rewrite find_last_snoc. cbn [changed_key]. simpl.
  change (λ entry : ustr * SecretEnvironmentValue, env_names_equal entry.1 key) with (named (A := SecretEnvironmentValue) key). destruct (Hrec name) as [Henv Hrem]. destruct (env_names_equal key name) eqn:Hkey.
  - split.
    + rewrite (filter_ext_bool _ (named key)) by (intros; by apply named_same).
      destruct (existsb (named key) (ps_environment spec)) eqn:Hex.
      * rewrite filter_update_same; [done|apply recorded_once|done|by apply names_equal_iff].
      * apply existsb_filter_nil in Hex. rewrite List.filter_app, Hex. simpl.
        assert (named key (key, MkSecret (encode_wide value)) = true) as -> by by apply names_equal_iff. done.
    + apply existsb_filter_nil, filter_filter_none. intros c. rewrite !(names_equal_swap c). symmetry. by apply names_equal_left.
  - split.
    + rewrite <-Henv. f_equal. assert (Hnew : named name (key, MkSecret (encode_wide value)) = false) by exact Hkey.
      destruct (existsb (named key) (ps_environment spec)).
      * apply filter_update_other; [|done]. intros e. by apply named_other.
      * rewrite List.filter_app. simpl. by rewrite Hnew, app_nil_r.
    + rewrite <-Hrem. apply existsb_filter_other. intros c Hc. rewrite (names_equal_left _ _ key Hc), names_equal_swap. exact Hkey.
Qed.
Lemma recorded_remove key :
  spec_env_remove key spec = Ok spec' → recorded (changes ++ [RemoveVariable key]) spec'.
Proof.
  unfold spec_env_remove. intros (? & _ & [= <-])%bind_Ok. intros name. rewrite find_last_snoc. cbn [changed_key].
  simpl. destruct (Hrec name) as [Henv Hrem]. destruct (env_names_equal key name) eqn:Hkey.
  - split.
    + rewrite filter_filter_none; [done|]. intros e. by apply named_same.
    + assert (Hsame : ∀ l, existsb (λ c, env_names_equal c name) l = existsb (λ c, env_names_equal c key) l).
      { intros l. induction l as [|c l IHl]; [done|]. simpl. rewrite IHl, !(names_equal_swap c). f_equal. symmetry. by apply names_equal_left. }
      destruct (existsb (λ candidate, env_names_equal candidate key) (ps_environment_removals spec)) eqn:Hex;
        rewrite Hsame; [done|]. rewrite existsb_app, Hex. simpl.
      assert (env_names_equal key key = true) as -> by by apply names_equal_iff. done.
  - split.
    + rewrite <-Henv. f_equal. apply filter_filter_all. intros e. by apply named_other'.
    + rewrite <-Hrem. destruct (existsb (λ candidate, env_names_equal candidate key) (ps_environment_removals spec)); [done|].
      rewrite existsb_app. simpl. by rewrite Hkey, !orb_false_r.
Qed.
End recording.

Lemma recorded_changes changes spec spec' :
  ps_environment spec = [] → ps_environment_removals spec = [] →
  apply_changes changes spec = Ok spec' → recorded changes spec'.
Proof.
  intros Henv Hrem. revert spec'. induction changes as [|change changes IH] using rev_ind; intros spec'.
  - intros [= <-] name. by rewrite Henv, Hrem.
  - intros (middle & Hmiddle%IH & Hchange)%apply_changes_snoc. destruct change as [key value|key]; simpl in Hchange.
    + by apply recorded_set with middle.
    + by apply recorded_remove with middle.
Qed.

Lemma filter_perm {A} (p : A → bool) l k : l ≡ₚ k → List.filter p l ≡ₚ List.filter p k.
Proof.
  induction 1 as [|x l k _ IH|x y l|l k m _ IH1 _ IH2]; simpl; [done| | |by etrans].
  - destruct (p x); by rewrite ?IH.
  - destruct (p x), (p y); try done. apply Permutation_swap.
Qed.
Lemma filter_named {A B} (f : A → B) name (l : list (ustr * A)) :
  List.filter (named name) (prod_map id f <$> l) = prod_map id f <$> List.filter (named name) l.
Proof.
  induction l as [|[k a] l IH]; [done|]. rewrite fmap_cons. cbn [List.filter].
  change (named name (prod_map id f (k, a))) with (named name (k, a)). rewrite IH. by destruct (named name (k, a)).
Qed.

(** Of one name, all that is inherited is kept or none of it. *)
Lemma filter_kept {A} (p keep : A → bool) (kept : bool) l :
  (∀ e, p e = true → keep e = kept) → List.filter p (List.filter keep l) = if kept then List.filter p l else [].
Proof.
  intros Hall. induction l as [|e l IH]; [by destruct kept|]. simpl. destruct (p e) eqn:He.
  - rewrite Hall by done. destruct kept; simpl; [by rewrite He, IH|exact IH].
  - destruct (keep e); simpl; [by rewrite He|]; exact IH.
Qed.
Lemma existsb_named {A} name (e : ustr) (l : list (ustr * A)) :
  env_names_equal e name = true → existsb (λ o, env_names_equal e o.1) l = existsb (named name) l.
Proof.
  intros He. induction l as [|o l IH]; [done|]. simpl. by rewrite IH, (names_equal_left _ _ _ He), names_equal_swap.
Qed.
Lemma existsb_names name e l :
  env_names_equal e name = true → existsb (env_names_equal e) l = existsb (λ candidate, env_names_equal candidate name) l.
Proof.
  intros He. induction l as [|o l IH]; [done|]. simpl. by rewrite IH, (names_equal_left _ _ _ He), names_equal_swap.
Qed.

(** A process gets the environment that was asked for.  After any
    changes of a fresh specification, the block holds for every name - names are
    the same when they differ in case only - exactly what the last change of that
    variable says: its value once, or nothing if it was removed; a variable that
    was never changed is inherited as it is. *)
Theorem environment_is_what_was_asked changes spec spec' inherited name :
  ps_environment spec = [] → ps_environment_removals spec = [] →
  apply_changes changes spec = Ok spec' →
  List.filter (named name) (environment_entries inherited (ps_environment spec') (ps_environment_removals spec')) ≡ₚ
  variable_after (prod_map id encode_wide <$> inherited) changes name.
Proof.
  intros Henv Hrem Hchanges. destruct (recorded_changes _ _ _ Henv Hrem Hchanges name) as [Hset Hremoved].
  unfold environment_entries, variable_after. rewrite (filter_perm _ _ _ (sort_by_perm _ _)), List.filter_app, !filter_named, Hset.
  apply (f_equal length) in Hset as Hlen. rewrite length_fmap in Hlen. destruct (find_last _ changes) as [[key value|key]|].
  - rewrite (filter_kept _ _ false); [done|]. intros e He. rewrite (existsb_named name) by done.
    destruct (existsb (named name) _) eqn:Hex; [done|]. apply existsb_filter_nil in Hex. by rewrite Hex in Hlen.
  - rewrite (filter_kept _ _ false); [done|]. intros e He. rewrite (existsb_names name) by done. by rewrite Hremoved, andb_false_r.
  - rewrite (filter_kept _ _ true); [by rewrite app_nil_r|]. intros e He.
    rewrite (existsb_named name), (existsb_names name), Hremoved by done.
    apply nil_length_inv, existsb_filter_nil in Hlen. by rewrite Hlen.
Qed.
Definition demo_changes : list EnvironmentChange :=
  [SetVariable (lit "Path") (lit "a"); RemoveVariable (lit "PATH"); SetVariable (lit "TEMP") (lit "t"); SetVariable (lit "path") (lit "b")].
Definition fresh_spec : ManagedProcessSpec := MkManagedProcessSpec (lit "mcp") (lit "x.exe") [] None [] [].
Lemma environment_is_what_was_asked_witness :
  ∃ spec', apply_changes demo_changes fresh_spec = Ok spec' ∧
  List.filter (named (lit "PATH")) (environment_entries [(lit "Path", lit "old"); (lit "X", lit "y")]
    (ps_environment spec') (ps_environment_removals spec')) ≡ₚ [(lit "path", lit "b")].
Proof.
  eexists. split; [vm_compute; reflexivity|].
  apply (environment_is_what_was_asked demo_changes fresh_spec); [done|done|vm_compute; reflexivity].
Defined.
