(* ===== verification/SupervisorProperties.v ===== *)
(** * SupervisorProperties: no process and no handle is left behind

    What a computation of the supervisor owns - handles, jobs, a process that waits
    for its job - is followed through every call, whichever fails; the waits end;
    stopping means that nothing of the job is alive. *)

From S2P Require Import Prelude Text WindowsPath HostFs Supervisor.
#[local] Open Scope N_scope.

(** ** Triples *)

Section ownership.
Context `{Win32}.

(** What a computation does to states that satisfy [P]: an answer leads to [Q],
    an error to [R]. *)
Definition triple {E A} (P : Kernel → Prop) (m : ST Kernel E A) (Q : A → Kernel → Prop) (R : E → Kernel → Prop) : Prop :=
  ∀ k, P k → match m k with (k', Ok a) => Q a k' | (k', Err e) => R e k' end.
Definition never {E} : E → Kernel → Prop := λ _ _, False.

Lemma triple_ret {E A} (P : Kernel → Prop) (a : A) (R : E → Kernel → Prop) : triple P (mret a) (λ b k, b = a ∧ P k) R.
Proof. by intros k HP. Qed.
Lemma triple_weaken {E A} (P P' : Kernel → Prop) (m : ST Kernel E A) (Q Q' : A → Kernel → Prop) (R R' : E → Kernel → Prop) :
  triple P m Q R → (∀ k, P' k → P k) → (∀ a k, Q a k → Q' a k) → (∀ e k, R e k → R' e k) → triple P' m Q' R'.
Proof. intros Hm HP HQ HR k Hk. specialize (Hm k (HP k Hk)). destruct (m k) as [k' []]; auto. Qed.
Lemma triple_bind {E A B} (P : Kernel → Prop) (m : ST Kernel E A) (f : A → ST Kernel E B) Q Q' (R : E → Kernel → Prop) :
  triple P m Q R → (∀ a, triple (Q a) (f a) Q' R) → triple P (m ≫= f) Q' R.
Proof.
  intros Hm Hf k HP. specialize (Hm k HP). cbv [mbind ST_bind].
  destruct (m k) as [k' [a|e]]; [|exact Hm]. exact (Hf a k' Hm).
Qed.
Lemma triple_throw {E A} (P : Kernel → Prop) (e : E) (Q : A → Kernel → Prop) (R : E → Kernel → Prop) :
  (∀ k, P k → R e k) → triple P (throw e) Q R.
Proof. intros HR k HP. by apply HR. Qed.
Lemma triple_pure {E A} (X : Prop) (P : Kernel → Prop) (m : ST Kernel E A) Q R :
  (X → triple P m Q R) → triple (λ k, X ∧ P k) m Q R.
Proof. intros Hm k [HX HP]. by apply Hm. Qed.
Lemma triple_exists {E A X} (P : X → Kernel → Prop) (m : ST Kernel E A) Q R :
  (∀ x, triple (P x) m Q R) → triple (λ k, ∃ x, P x k) m Q R.
Proof. intros Hm k [x HP]. by eapply Hm. Qed.
(** A call whose answer is not looked at. *)
Lemma triple_ignore {E F A} P (m : ST Kernel E A) (Q : Kernel → Prop) (R : F → Kernel → Prop) :
  triple P m (λ _, Q) (λ _, Q) → triple P (ignore m) (λ _, Q) R.
Proof.
  intros Hm k HP. specialize (Hm k HP). unfold ignore, try. cbv [mbind ST_bind mret ST_ret].
  by destruct (m k) as [k' []].
Qed.
Lemma triple_on_error {A} P (m : ST Kernel SupervisorError A) cleanup Q R R' :
  triple P m Q R' → (∀ e, triple (R' e) cleanup (λ _, R e) never) → triple P (on_error m cleanup) Q R.
Proof.
  intros Hm Hc k HP. specialize (Hm k HP). unfold on_error, try. cbv [mbind ST_bind mret ST_ret].
  destruct (m k) as [k' [a|e]]; [exact Hm|]. specialize (Hc e k' Hm).
  by destruct (cleanup k') as [k'' []].
Qed.

(** [root] is a process that waits, suspended, to be put into its job.  The
    others are in a job that is owned, or where a process was before. *)
Record accounted (k0 : Kernel) (own : gmap nat Object) (root : option nat) (k : Kernel) : Prop := {
  ac_handles : k_handles k = own ∪ k_handles k0;
  ac_fresh : ∀ h, is_Some (own !! h) → (k_next k0 ≤ h < k_next k)%nat;
  ac_next : (k_next k0 ≤ k_next k)%nat;
  ac_live : ∀ pid p, k_live k !! pid = Some p →
    (∃ pid0 p0, k_live k0 !! pid0 = Some p0 ∧ pr_job p0 = pr_job p) ∨
    (∃ j, pr_job p = Some j ∧ own !! j = Some (JobObject true)) ∨
    (root = Some pid ∧ pr_job p = None ∧ pr_running p = false)
}.
Definition fresh_handles (k : Kernel) : Prop := ∀ h, is_Some (k_handles k !! h) → (h < k_next k)%nat.

Context (k0 : Kernel) (Hk0 : fresh_handles k0).

(** The same of a list of handles. *)
Definition Own (root : option nat) (l : list (nat * Object)) (k : Kernel) : Prop :=
  NoDup l.*1 ∧ accounted k0 (list_to_map l) root k.

Lemma accounted_live own root k live :
  accounted k0 own root k → (∀ pid p, live !! pid = Some p → ∃ pid' p', k_live k !! pid' = Some p' ∧ pr_job p' = pr_job p ∧
    (pr_running p' = false → pid' = pid ∧ p' = p)) →
  accounted k0 own root (k <| k_live := live |>).
Proof.
  intros [Hh Hf Hn Hl] Hlive. split; try done. intros pid p Hp. simpl in Hp.
  destruct (Hlive pid p Hp) as (pid' & p' & Hp' & Hjob & Hsusp).
  destruct (Hl pid' p' Hp') as [(pid0 & p0 & ? & ?)|[(j & ? & ?)|(Hr & ? & Hrun)]].
  - left. exists pid0, p0. by rewrite <-Hjob.
  - right; left. exists j. by rewrite <-Hjob.
  - right; right. by destruct (Hsusp Hrun) as [<- <-].
Qed.
Lemma accounted_same own root k k' :
  accounted k0 own root k → k_handles k' = k_handles k → k_live k' = k_live k → k_next k' = k_next k →
  accounted k0 own root k'.
Proof. intros [Hh Hf Hn Hl] Eh El En. split; rewrite ?Eh, ?El, ?En; done. Qed.

Lemma accounted_child own root job k :
  accounted k0 own root k →
  (∃ pid0 p0, k_live k0 !! pid0 = Some p0 ∧ pr_job p0 = job) ∨
  (∃ j, job = Some j ∧ own !! j = Some (JobObject true)) →
  accounted k0 own root (start_child job k).
Proof.
  intros [Hh Hf Hn Hl] Hjob. split; try done. intros pid p. simpl.
  rewrite lookup_insert_Some. intros [[<- <-]|[_ Hp]]; [|by apply Hl]. simpl. tauto.
Qed.
Lemma evolve_same n k :
  k_handles (evolve n k) = k_handles k ∧ k_next (evolve n k) = k_next k.
Proof.
  unfold evolve. generalize (filter (λ p : nat * Proc, ¬(pr_running p.2 = true ∧ exits n p.1 = true)) (k_live k)) as s. intros s.
  generalize (map_to_list s) as l. intros l. induction l as [|[pid p] l IH]; [done|]. cbn [foldr fst snd].
  destruct (pr_running p); [|exact IH]. generalize (forks n pid) as m. intros m.
  induction m as [|m IHm]; [exact IH|]. exact IHm.
Qed.

Lemma accounted_evolve n own root k : accounted k0 own root k → accounted k0 own root (evolve n k).
Proof.
  intros Hacc. unfold evolve.
  generalize (eq_refl (filter (λ p : nat * Proc, ¬(pr_running p.2 = true ∧ exits n p.1 = true)) (k_live k))).
  generalize (filter (λ p : nat * Proc, ¬(pr_running p.2 = true ∧ exits n p.1 = true)) (k_live k)) at 1 3 4 as s. intros s Hs.
  assert (Hsub : ∀ pid p, s !! pid = Some p → k_live k !! pid = Some p).
  { intros pid p. rewrite Hs. by intros [? _]%map_lookup_filter_Some. }
  assert (Hbase : accounted k0 own root (k <| k_live := s |>)).
  { apply accounted_live; [done|]. intros pid p Hp. exists pid, p. auto. }
  assert (Hparents : ∀ pid p, (pid, p) ∈ map_to_list s → k_live k !! pid = Some p).
  { intros pid p Hp%elem_of_map_to_list. by apply Hsub. }
  revert Hparents. generalize (map_to_list s) as l. intros l. induction l as [|[pid p] l IH]; intros Hparents; [done|].
  cbn [foldr fst snd]. specialize (IH ltac:(intros; apply Hparents; by right)).
  destruct (pr_running p) eqn:Hrun; [|exact IH].
  assert (Hjob : (∃ pid0 p0, k_live k0 !! pid0 = Some p0 ∧ pr_job p0 = pr_job p) ∨
    (∃ j, pr_job p = Some j ∧ own !! j = Some (JobObject true))).
  { destruct (ac_live _ _ _ _ Hacc pid p) as [|[|(_ & _ & ?)]]; [apply Hparents; left|tauto|tauto|congruence]. }
  generalize (forks n pid) as m. intros m. induction m as [|m IHm]; [exact IH|]. by apply accounted_child.
Qed.

Lemma Own_tick root l k : Own root l k → Own root l (tick k).
Proof.
  intros [Hnd Hacc]. split; [done|]. unfold tick. eapply accounted_same; [by apply (accounted_evolve (k_calls k))|done..].
Qed.
Lemma tick_calls k : k_calls (tick k) = S (k_calls k).
Proof. done. Qed.

(** A call that may fail, before which the processes go on. *)
Lemma triple_api {A} root l operation (f : Kernel → Kernel * A) (Q : A → Kernel → Prop) :
  (∀ k, Own root l k → Q (f k).2 (f k).1) → triple (Own root l) (api operation f) Q (λ _, Own root l).
Proof.
  intros Hf k Hk%Own_tick. unfold api. destruct (api_fails (k_calls k)); [done|].
  specialize (Hf _ Hk). by destruct (f (tick k)) as [k' a].
Qed.

Lemma Own_perm root l l' k : l ≡ₚ l' → Own root l k → Own root l' k.
Proof. intros Hl [Hnd Hacc]. split; [by rewrite <-Hl|]. by rewrite <-(list_to_map_proper l l'). Qed.
Lemma Own_lookup root l k h o : Own root l k → (h, o) ∈ l → k_handles k !! h = Some o.
Proof.
  intros [Hnd [Hh _ _ _]] Hin. rewrite Hh. apply lookup_union_Some_l. by apply elem_of_list_to_map.
Qed.

Lemma Own_new root l o k : Own root l k → Own root ((k_next k, o) :: l) (new_handle o k).1.
Proof.
  intros [Hnd [Hh Hf Hn Hl]].
  assert (Hfresh : list_to_map (M := gmap nat Object) l !! k_next k = None).
  { destruct (list_to_map (M := gmap nat Object) l !! k_next k) eqn:E; [|done]. destruct (Hf (k_next k)); [by rewrite E|lia]. }
  split; [apply NoDup_cons; split; [by apply not_elem_of_list_to_map|done]|]. simpl. split; simpl.
  - by rewrite Hh, insert_union_l.
  - intros h [o' [[<- _]|[_ Hh']]%lookup_insert_Some]; [lia|]. destruct (Hf h); [by rewrite Hh'|lia].
  - lia.
  - intros pid p Hp. destruct (Hl pid p Hp) as [?|[(j & Hj & Hown)|?]]; [tauto| |tauto]. right; left. exists j.
    split; [done|]. rewrite lookup_insert_ne; [done|]. congruence.
Qed.

(** Closing the [i]-th handle. *)
Lemma Own_close root l i h o k :
  l !! i = Some (h, o) → Own root l k → Own root (delete i l) (close_object h k).
Proof.
  intros Hi Hown. apply (Own_perm _ _ ((h, o) :: delete i l)) in Hown; [|by apply delete_Permutation].
  destruct Hown as [[Hh_nd Hnd]%NoDup_cons [Hh Hf Hn Hl]]. set (m := list_to_map (M := gmap nat Object) (delete i l)) in *.
  assert (Hm : m !! h = None) by (by apply not_elem_of_list_to_map).
  assert (Hk0h : k_handles k0 !! h = None).
  { destruct (k_handles k0 !! h) eqn:E; [|done]. specialize (Hk0 h ltac:(by rewrite E)).
    destruct (Hf h); [by simpl; rewrite lookup_insert_eq|lia]. }
  assert (Hhandles : delete h (k_handles k) = m ∪ k_handles k0).
  { rewrite Hh. simpl. rewrite delete_union, delete_insert_id by done. f_equal. by apply delete_id. }
  assert (Hlookup : k_handles k !! h = Some o).
  { rewrite Hh. apply lookup_union_Some_l. simpl. by rewrite lookup_insert_eq. }
  assert (Hrest : ∀ live, (∀ pid p, live !! pid = Some p → k_live k !! pid = Some p ∧ (o = JobObject true → pr_job p ≠ Some h)) →
    Own root (delete i l) (k <| k_handles ::= delete h |> <| k_live := live |>)).
  { intros live Hlive. split; [done|]. split; simpl; try done.
    - intros h' [o' Ho']. apply (Hf h'). simpl. rewrite lookup_insert_ne; [by rewrite Ho'|]. intros ->. subst m. congruence.
    - intros pid p Hp. destruct (Hlive pid p Hp) as [Hp' Hjob].
      destruct (Hl pid p Hp') as [?|[(j & Hj & Hown)|?]]; [tauto| |tauto]. right; left. exists j. split; [done|].
      simpl in Hown. apply lookup_insert_Some in Hown as [[<- ->]|[_ ?]]; [|done]. by destruct Hjob. }
  unfold close_object. case_bool_decide as Hjob.
  - apply (Hrest (filter (λ p : nat * Proc, pr_job p.2 ≠ Some h) (k_live k))).
    intros pid p [Hp Hne]%map_lookup_filter_Some. done.
  - change (Own root (delete i l) (k <| k_handles ::= delete h |> <| k_live := k_live k |>)).
    apply Hrest. intros pid p Hp. split; [done|]. intros ->. by destruct Hjob.
Qed.
Lemma triple_close i root l h o R :
  l !! i = Some (h, o) → triple (Own root l) (close_handle h) (λ _, Own root (delete i l)) R.
Proof. intros Hi k Hk. simpl. by apply Own_close with o. Qed.

Lemma Own_fewer root l k live :
  Own root l k → (∀ pid p, live !! pid = Some p → k_live k !! pid = Some p) → Own root l (k <| k_live := live |>).
Proof.
  intros [Hnd Hacc] Hsub. split; [done|]. apply accounted_live; [done|]. intros pid p Hp. exists pid, p. auto.
Qed.

(** *** What the calls do to what is owned *)

Abbreviation keeps root l m := (triple (Own root l) m (λ _, Own root l) (λ _, Own root l)).
Lemma triple_done {E A} P (a : A) (R : E → Kernel → Prop) : triple P (mret a) (λ _, P) R.
Proof. by intros k HP. Qed.
Lemma keeps_bind {E A B} root l (m : ST Kernel E A) (f : A → ST Kernel E B) :
  keeps root l m → (∀ a, keeps root l (f a)) → keeps root l (m ≫= f).
Proof. intros Hm Hf. eapply triple_bind; [exact Hm|exact Hf]. Qed.
Lemma keeps_now root l : keeps root l now.
Proof. by intros k Hk. Qed.
Lemma keeps_sleep root l : keeps root l sleep_10.
Proof. intros k [Hnd Hacc]. split; [done|]. by eapply accounted_same. Qed.
Lemma keeps_terminate_job root l job : keeps root l (terminate_job job).
Proof.
  apply triple_api. intros k Hk. simpl. apply Own_fewer; [done|]. by intros pid p [? _]%map_lookup_filter_Some.
Qed.
Lemma keeps_query root l job : keeps root l (query_active_processes job).
Proof. by apply triple_api. Qed.
(** Waiting for a process: whatever the processes themselves do not change. *)
Section waiting.
Context (P : Kernel → Prop) (HP_tick : ∀ k, P k → P (tick k)) (HP_now : ∀ k, P k → P (k <| k_now ::= N.add 10 |>)).
Lemma wait_for_keeps {E} process : triple P (wait_for_single_object (E := E) process) (λ _, P) (λ _, P).
Proof. intros k Hk%HP_tick. unfold wait_for_single_object, api. destruct (api_fails (k_calls k)); exact Hk. Qed.
Lemma exit_loop_keeps fuel process deadline : triple P (process_exit_loop fuel process deadline) (λ _, P) (λ _, P).
Proof.
  induction fuel as [|fuel IH]; cbn [process_exit_loop]; [by intros k Hk|].
  eapply triple_bind; [apply wait_for_keeps|]. intros [].
  - by intros k Hk.
  - apply (triple_bind _ _ _ (λ _, P)); [by intros k Hk|]. intros t. case_match; [by intros k Hk|].
    apply (triple_bind _ _ _ (λ _, P)); [intros k Hk; by apply HP_now|]. intros []. exact IH.
  - by apply triple_throw.
  - by apply triple_throw.
Qed.
Lemma exit_keeps process timeout : triple P (wait_for_process_exit process timeout) (λ _, P) (λ _, P).
Proof. apply (triple_bind _ _ _ (λ _, P)); [by intros k Hk|]. intros t. apply exit_loop_keeps. Qed.
End waiting.
Lemma Own_now root l k : Own root l k → Own root l (k <| k_now ::= N.add 10 |>).
Proof. intros [Hnd Hacc]. split; [done|]. by eapply accounted_same. Qed.
Lemma keeps_wait {E} root l process : keeps root l (wait_for_single_object (E := E) process).
Proof. apply wait_for_keeps, Own_tick. Qed.
Lemma unchecked_keeps root l m R : keeps root l m → triple (Own root l) (unchecked m) (λ _, Own root l) R.
Proof. intros Hm. by apply (triple_ignore (F := SupervisorError) _ _ (Own root l) R). Qed.
Lemma keeps_empty_loop root l fuel job deadline : keeps root l (job_empty_loop fuel job deadline).
Proof.
  induction fuel as [|fuel IH]; simpl; [apply triple_done|]. apply keeps_bind; [apply keeps_query|]. intros active.
  case_match; [apply triple_done|]. apply keeps_bind; [apply keeps_now|]. intros t.
  case_match; [apply triple_done|]. apply keeps_bind; [apply keeps_sleep|]. intros []. exact IH.
Qed.
Lemma keeps_job_empty root l job timeout : keeps root l (wait_for_job_empty job timeout).
Proof. apply keeps_bind; [apply keeps_now|]. intros t. apply keeps_empty_loop. Qed.
Lemma keeps_exit root l process timeout : keeps root l (wait_for_process_exit process timeout).
Proof. apply exit_keeps; [apply Own_tick|apply Own_now]. Qed.

Lemma triple_create_job root l :
  triple (Own root l) create_kill_on_close_job (λ job, Own root ((job, JobObject true) :: l)) (λ _, Own root l).
Proof.
  eapply (triple_bind _ _ _ (λ job, Own root ((job, JobObject false) :: l))).
  { apply triple_api. intros k Hk. by apply (Own_new root l (JobObject false)). }
  intros job. eapply (triple_bind _ _ _ (λ _, Own root ((job, JobObject true) :: l))).
  - eapply triple_on_error.
    + apply triple_api. intros k [Hnd [Hh Hf Hn Hl]]. split; [done|]. simpl. split; simpl; try done.
      * rewrite Hh. simpl. by rewrite insert_union_l, insert_insert_eq.
      * intros h Hin. apply Hf. simpl. destruct (decide (job = h)) as [->|]; [by rewrite lookup_insert_eq|].
        by rewrite lookup_insert_ne in * by done.
      * intros pid p Hp. destruct (Hl pid p Hp) as [?|[(j & ? & Hj)|?]]; [tauto| |tauto]. right; left. exists j. split; [done|].
        simpl in Hj. destruct (decide (job = j)) as [->|]; [by rewrite lookup_insert_eq|]. by rewrite lookup_insert_ne in * by done.
    + intros e. exact (triple_close 0 root ((job, JobObject false) :: l) job (JobObject false) _ eq_refl).
  - intros []. by intros k Hk.
Qed.



Lemma triple_create_process l :
  triple (Own None l) create_process
    (λ handles k, ∃ pid, Own (Some pid) ((handles.2, ThreadObject pid) :: (handles.1, ProcessObject pid) :: l) k)
    (λ _, Own None l).
Proof.
  apply triple_api. intros k [Hnd Hacc]. exists (k_pids k).
  assert (Hroot : Own (Some (k_pids k)) l (k <| k_live ::= <[k_pids k := MkProc None false]> |> <| k_pids ::= S |>)).
  { split; [done|]. destruct Hacc as [Hh Hf Hn Hl]. split; try done. simpl. intros pid p [[<- <-]|[_ Hp]]%lookup_insert_Some; [by auto|].
    destruct (Hl pid p Hp) as [?|[?|(? & _)]]; [tauto|tauto|done]. }
  exact (Own_new _ _ (ThreadObject (k_pids k)) _ (Own_new _ _ (ProcessObject (k_pids k)) _ Hroot)).
Qed.

(** The process is put into its job, so that it goes with it; or it is ended. *)
Lemma Own_assign pid l job process k :
  (process, ProcessObject pid) ∈ l → (job, JobObject true) ∈ l → Own (Some pid) l k →
  Own None l (change_process process (λ p, Some (p <| pr_job := Some job |>)) k).
Proof.
  intros Hp Hj Hown. unfold change_process, pid_of. rewrite (Own_lookup _ _ _ _ _ Hown Hp).
  destruct Hown as [Hnd [Hh Hf Hn Hl]]. split; [done|]. split; simpl; try done.
  intros pid' p. destruct (decide (pid' = pid)) as [->|Hne].
  - rewrite lookup_partial_alter_eq. destruct (k_live k !! pid) as [p0|]; [|done]. intros [= <-]. right; left. exists job.
    split; [done|]. by apply elem_of_list_to_map.
  - rewrite lookup_partial_alter_ne by done. intros Hlook. destruct (Hl pid' p Hlook) as [?|[?|([= ->] & _)]]; [tauto|tauto|done].
Qed.
Lemma Own_ended root pid l process k :
  (process, ProcessObject pid) ∈ l → Own root l k →
  Own root l (change_process process (λ _, None) k) ∧ (root = Some pid → Own None l (change_process process (λ _, None) k)).
Proof.
  intros Hp Hown. unfold change_process, pid_of. rewrite (Own_lookup _ _ _ _ _ Hown Hp). split.
  - apply Own_fewer; [done|]. intros pid' p. destruct (decide (pid' = pid)) as [->|Hne].
    + rewrite lookup_partial_alter_eq. by destruct (k_live k !! pid).
    + by rewrite lookup_partial_alter_ne.
  - intros ->. destruct Hown as [Hnd [Hh Hf Hn Hl]]. split; [done|]. split; simpl; try done.
    intros pid' p. destruct (decide (pid' = pid)) as [->|Hne].
    + rewrite lookup_partial_alter_eq. by destruct (k_live k !! pid).
    + rewrite lookup_partial_alter_ne by done. intros Hlook. destruct (Hl pid' p Hlook) as [?|[?|([= ->] & _)]]; [tauto|tauto|done].
Qed.
Lemma Own_running root l thread k :
  root = None → Own root l k → Own root l (change_process thread (λ p, Some (p <| pr_running := true |>)) k).
Proof.
  intros -> [Hnd Hacc]. unfold change_process. destruct (pid_of thread k) as [pid|]; [|done]. split; [done|].
  destruct Hacc as [Hh Hf Hn Hl]. split; simpl; try done. intros pid' p. destruct (decide (pid' = pid)) as [->|Hne].
  - rewrite lookup_partial_alter_eq. destruct (k_live k !! pid) as [p0|] eqn:E; [|done]. intros [= <-]. simpl.
    destruct (Hl pid p0 E) as [?|[?|(? & _)]]; [tauto|tauto|done].
  - rewrite lookup_partial_alter_ne by done. apply Hl.
Qed.

(** Everything is closed, unless a process could neither be put into its job nor
    be ended. *)
Definition twice_failed : Prop := ∃ n, api_fails n = true ∧ api_fails (S n) = true.
Definition nothing_left (k : Kernel) : Prop := Own None [] k ∨ ∃ pid, Own (Some pid) [] k ∧ twice_failed.
Definition closes l (cleanup : ST Kernel SupervisorError unit) : Prop :=
  ∀ root, triple (Own root l) cleanup (λ _, Own root []) never.

Lemma triple_assign pid l job process cleanup :
  (process, ProcessObject pid) ∈ l → (job, JobObject true) ∈ l → closes l cleanup →
  triple (Own (Some pid) l) (on_error (assign_process job process) (_ ← terminate_process process; cleanup))
    (λ _, Own None l) (λ _, nothing_left).
Proof.
  intros Hp Hj Hclose k Hk. pose proof (Own_tick _ _ _ Hk) as Hk1.
  unfold on_error, assign_process, try, api. cbv [mbind ST_bind mret ST_ret].
  destruct (api_fails (k_calls k)) eqn:Hn; [|by apply Own_assign with pid]. unfold terminate_process, unchecked, ignore, try, api.
  cbv [mbind ST_bind mret ST_ret]. rewrite tick_calls. pose proof (Own_tick _ _ _ Hk1) as Hk2.
  destruct (api_fails (S (k_calls k))) eqn:Hn'.
  - specialize (Hclose _ _ Hk2). destruct (cleanup _) as [k' []]; [|done]. right. exists pid. split; [done|]. by exists (k_calls k).
  - destruct (Own_ended _ _ _ _ _ Hp Hk2) as [_ Hended]. specialize (Hclose _ _ (Hended eq_refl)).
    by destruct (cleanup _) as [k' []]; [left|].
Qed.

Lemma keeps_resume l thread : keeps None l (resume_thread thread).
Proof.
  intros k Hk. unfold resume_thread, map_error.
  match goal with |- context [api ?o ?f k] => pose proof (triple_api None l o f (λ _, Own None l)
    (λ k Hk, Own_running None l thread k eq_refl Hk) k Hk) as Hapi; destruct (api o f k) as [k' []] end; done.
Qed.
Lemma left_nothing k : Own None [] k → nothing_left k.
Proof. by left. Qed.
Lemma triple_left {A} P (m : ST Kernel SupervisorError A) Q :
  triple P m Q (λ _, Own None []) → triple P m Q (λ _, nothing_left).
Proof. intros Hm. eapply triple_weaken; [exact Hm|done|done|]. intros e k. apply left_nothing. Qed.

(** Cleaning up: the rest of the handles, first one first. *)
Lemma closes_all l : closes l (close_all l.*1).
Proof.
  intros root. induction l as [|[h o] l IH]; [by intros k Hk|]. simpl.
  eapply triple_bind; [exact (triple_close 0 root ((h, o) :: l) h o _ eq_refl)|]. intros []. exact IH.
Qed.
Lemma triple_cleanup {A} root l (m : ST Kernel SupervisorError A) cleanup Q :
  triple (Own root l) m Q (λ _, Own root l) → triple (Own root l) cleanup (λ _, Own root []) never →
  triple (Own root l) (on_error m cleanup) Q (λ _, Own root []).
Proof. intros Hm Hc. eapply triple_on_error; [exact Hm|]. by intros e. Qed.





(** *** A supervised process *)

Inductive SupervisorCall := CallActive | CallRoot | CallStop (graceful_timeout : N).
Definition supervisor_call (call : SupervisorCall) (self : WindowsProcessSupervisor) :
    ST Kernel SupervisorError WindowsProcessSupervisor :=
  match call with
  | CallActive => _ ← active_processes self; mret self
  | CallRoot => _ ← root_is_running self; mret self
  | CallStop graceful_timeout => answer ← stop_with graceful_timeout id self; mret answer.1
  end.
(** The owner's calls; one that fails leaves the supervisor as it is. *)
Fixpoint supervisor_calls (calls : list SupervisorCall) (self : WindowsProcessSupervisor) :
    ST Kernel SupervisorError WindowsProcessSupervisor :=
  match calls with
  | [] => mret self
  | call :: calls =>
      answer ← try (F := SupervisorError) (supervisor_call call self);
      supervisor_calls calls (match answer with Ok self => self | Err _ => self end)
  end.
Definition supervised (spec : ManagedProcessSpec) (calls : list SupervisorCall) : ST Kernel SupervisorError unit :=
  self ← spawn spec; self ← supervisor_calls calls self; drop_supervisor self.

Definition supervises (self : WindowsProcessSupervisor) (k : Kernel) : Prop :=
  ∃ pid, Own None [(su_process self, ProcessObject pid); (su_job self, JobObject true)] k.

Lemma triple_spawn spec : triple (Own None []) (spawn spec) supervises (λ _, nothing_left).
Proof.
  eapply triple_bind; [apply triple_left, triple_create_job|]. intros job.
  eapply triple_bind.
  { apply triple_left, triple_cleanup; [apply triple_create_process|].
    exact (triple_close 0 None [(job, JobObject true)] _ _ _ eq_refl). }
  intros [process thread]. apply triple_exists. intros pid. cbn [fst snd].
  set (l := [(thread, ThreadObject pid); (process, ProcessObject pid); (job, JobObject true)]).
  eapply triple_bind; [apply (triple_assign pid l); [right; left|right; right; left|exact (closes_all l)]|].
  intros []. eapply triple_bind.
  { apply triple_left, (triple_cleanup None l _ _ (λ _, Own None l)); [by apply triple_api|].
    eapply triple_bind; [apply unchecked_keeps, keeps_terminate_job|]. intros []. exact (closes_all l None). }
  intros creation. eapply triple_bind.
  { apply triple_left, (triple_cleanup None l); [apply keeps_resume|].
    eapply triple_bind; [apply unchecked_keeps, keeps_terminate_job|]. intros []. exact (closes_all l None). }
  intros []. eapply triple_bind; [exact (triple_close 0 None l _ _ _ eq_refl)|]. intros [] k [Hnd Hacc].
  exists pid. split; [done|]. by eapply accounted_same.
Qed.

Lemma keeps_stopped l self disposition :
  triple (Own None l) (stopped_after_exit self disposition)
    (λ answer k, su_job answer.1 = su_job self ∧ su_process answer.1 = su_process self ∧ Own None l k) (λ _, Own None l).
Proof.
  eapply triple_bind; [apply keeps_exit|]. intros []; [|by apply triple_throw]. by intros k Hk.
Qed.
Lemma keeps_stop l self timeout :
  triple (Own None l) (stop_with timeout id self)
    (λ answer k, su_job answer.1 = su_job self ∧ su_process answer.1 = su_process self ∧ Own None l k) (λ _, Own None l).
Proof.
  unfold stop_with. destruct (su_stopped self) eqn:Hs; [by intros k Hk|]. unfold active_processes. rewrite Hs.
  eapply triple_bind; [apply keeps_query|]. intros active. case_match; [apply keeps_stopped|].
  apply (triple_bind _ _ _ (λ _, Own None l)); [by intros k Hk|]. intros [].
  eapply triple_bind; [apply keeps_job_empty|]. intros []; [apply keeps_stopped|].
  eapply triple_bind; [apply keeps_terminate_job|]. intros [].
  eapply triple_bind; [apply keeps_job_empty|]. intros []; [apply keeps_stopped|].
  eapply triple_bind; [apply keeps_query|]. intros remaining. by apply triple_throw.
Qed.
Lemma keeps_root l self : triple (Own None l) (root_is_running self) (λ _, Own None l) (λ _, Own None l).
Proof.
  unfold root_is_running. destruct (su_stopped self); [apply triple_done|].
  eapply triple_bind; [apply keeps_wait|]. intros []; try apply triple_done; by apply triple_throw.
Qed.
Lemma triple_call call self R :
  triple (supervises self) (try (F := SupervisorError) (supervisor_call call self))
    (λ answer k, supervises (match answer with Ok self => self | Err _ => self end) k) R.
Proof.
  intros k (pid & Hk). unfold try.
  assert (Hcall : triple (Own None [(su_process self, ProcessObject pid); (su_job self, JobObject true)]) (supervisor_call call self)
    (λ self' k, su_job self' = su_job self ∧ su_process self' = su_process self ∧
       Own None [(su_process self, ProcessObject pid); (su_job self, JobObject true)] k)
    (λ _, Own None [(su_process self, ProcessObject pid); (su_job self, JobObject true)])).
  { destruct call; simpl.
    - unfold active_processes. destruct (su_stopped self); [by intros ? ?|].
      eapply triple_bind; [apply keeps_query|]. by intros active ? ?.
    - eapply triple_bind; [apply keeps_root|]. by intros ? ? ?.
    - eapply triple_bind; [apply keeps_stop|]. by intros answer ? ?. }
  specialize (Hcall k Hk). destruct (supervisor_call call self k) as [k' [self'|e]].
  - destruct Hcall as (Hj & Hp & Hk'). exists pid. by rewrite Hj, Hp.
  - by exists pid.
Qed.
Lemma triple_calls calls self R : triple (supervises self) (supervisor_calls calls self) supervises R.
Proof.
  revert self. induction calls as [|call calls IH]; intros self; [by intros k Hk|]. cbn [supervisor_calls].
  eapply triple_bind; [apply triple_call|]. intros answer. apply IH.
Qed.
Lemma triple_supervised spec calls :
  triple (Own None []) (supervised spec calls) (λ _, Own None []) (λ _, nothing_left).
Proof.
  eapply triple_bind; [apply triple_spawn|]. intros self.
  eapply triple_bind; [apply triple_calls|]. intros self'. apply triple_exists. intros pid.
  unfold drop_supervisor. cbn [close_all].
  eapply triple_bind; [exact (triple_close 1 None [(su_process self', ProcessObject pid); (su_job self', JobObject true)] _ _ _ eq_refl)|].
  intros []. cbn [delete list_delete].
  eapply triple_bind; [exact (triple_close 0 None [(su_process self', ProcessObject pid)] _ _ _ eq_refl)|].
  intros []. apply triple_done.
Qed.
End ownership.

(** ** The theorems *)

Section theorems.
Context `{Win32}.

Lemma accounted_start k : Own k None [] k.
Proof.
  split; [constructor|]. split; simpl; [by rewrite (left_id_L ∅ (∪))|by intros h [? ?]|done|].
  intros pid p Hp. left. by exists pid, p.
Qed.

(** Where a process is that lives in [k']: where one was in [k] already, unless it
    is one that could neither be put into its job nor be ended. *)
Definition nothing_started (k k' : Kernel) : Prop :=
  k_handles k' = k_handles k ∧
  ∀ pid p, k_live k' !! pid = Some p →
    (∃ pid0 p0, k_live k !! pid0 = Some p0 ∧ pr_job p0 = pr_job p) ∨
    (pr_running p = false ∧ pr_job p = None ∧ twice_failed).
Lemma nothing_left_started k k' : nothing_left k k' → nothing_started k k'.
Proof.
  intros [[_ [Hh _ _ Hl]]|(pid & [_ [Hh _ _ Hl]] & Htwice)]; simpl in Hh; rewrite (left_id_L ∅ (∪)) in Hh;
    (split; [done|]); intros pid' p Hp; (destruct (Hl pid' p Hp) as [?|[(j & _ & ?)|(? & ? & ?)]]; [by left|done|]).
  - done.
  - by right.
Qed.



(** A process does not outlive its supervisor.  After a process was
    spawned with whatever specification, was looked at and stopped as often and in
    whatever order its owner wants, and the supervisor was dropped - whichever of
    the calls fail - all its handles are closed, and neither it nor a process it
    started is alive, with the same exception. *)
Theorem supervised_process_ends spec calls k :
  fresh_handles k → nothing_started k (supervised spec calls k).1.
Proof.
  intros Hk. pose proof (triple_supervised k Hk spec calls k (accounted_start k)) as Hrun.
  destruct (supervised spec calls k) as [k' []]; apply nothing_left_started; [by left|done].
Qed.

(** No process of the job is alive. *)
Definition empty_job (job : nat) (k : Kernel) : Prop := ∀ pid p, k_live k !! pid = Some p → pr_job p ≠ Some job.
Lemma empty_job_evolve job n k : empty_job job k → empty_job job (evolve n k).
Proof.
  intros Hk. unfold evolve.
  set (s := filter (λ p : nat * Proc, ¬(pr_running p.2 = true ∧ exits n p.1 = true)) (k_live k)).
  assert (Hs : ∀ pid p, s !! pid = Some p → pr_job p ≠ Some job) by (intros pid p [? _]%map_lookup_filter_Some; by eapply Hk).
  assert (Hl : ∀ q, q ∈ map_to_list s → pr_job q.2 ≠ Some job) by (intros [pid p] Hq%elem_of_map_to_list; by eapply Hs).
  revert Hl. generalize (map_to_list s) as l. induction l as [|[pid p] l IH]; intros Hl; [exact Hs|].
  cbn [foldr fst snd]. specialize (IH ltac:(intros; apply Hl; by right)). destruct (pr_running p); [|exact IH].
  specialize (Hl (pid, p) ltac:(left)). generalize (forks n pid) as m. intros m. induction m as [|m IHm]; [exact IH|].
  intros pid' p'. simpl. rewrite lookup_insert_Some. intros [[_ <-]|[_ Hp']]; [done|by eapply IHm].
Qed.
Lemma query_empty job :
  triple (λ _, True) (query_active_processes job) (λ active k, active = 0%nat → empty_job job k) (λ _ _, True).
Proof.
  intros k _. unfold query_active_processes, api. destruct (api_fails (k_calls k)); [done|].
  unfold job_processes. intros Hlen%nil_length_inv pid p Hp Hjob.
  assert (Hin : (pid, p) ∈ List.filter (λ p : nat * Proc, bool_decide (pr_job p.2 = Some job)) (map_to_list (k_live (tick k)))).
  { apply filterb_elem. split; [by apply elem_of_map_to_list|]. by apply bool_decide_true. }
  rewrite Hlen in Hin. by apply elem_of_nil in Hin.
Qed.
Lemma job_empty_empty job timeout :
  triple (λ _, True) (wait_for_job_empty job timeout) (λ answer k, answer = true → empty_job job k) (λ _ _, True).
Proof.
  apply (triple_bind _ _ _ (λ _ _, True)); [done|]. intros t. generalize (poll_fuel timeout) as fuel. intros fuel.
  induction fuel as [|fuel IH]; cbn [job_empty_loop]; [by intros k _|].
  eapply triple_bind; [apply query_empty|]. intros active. case_match eqn:Hactive.
  { intros k Hk _. apply Hk. by apply Nat.eqb_eq. }
  apply (triple_bind _ _ _ (λ _ _, True)); [done|]. intros t'. case_match; [by intros k _|].
  apply (triple_bind _ _ _ (λ _ _, True)); [done|]. intros []. exact IH.
Qed.
Lemma stopped_empty self disposition :
  triple (empty_job (su_job self)) (stopped_after_exit self disposition)
    (λ answer k, su_stopped answer.1 = true ∧ empty_job (su_job self) k) (λ _ _, True).
Proof.
  eapply triple_bind.
  { eapply triple_weaken; [apply (exit_keeps (empty_job (su_job self)))|done|done|done].
    - intros k Hk. by apply (empty_job_evolve _ (k_calls k)) in Hk.
    - by intros k Hk. }
  intros []; [|by apply triple_throw]. by intros k Hk.
Qed.

(** Stopping means stopped.  When a supervisor reports that it
    has stopped its process - which had ended already, ended when it was asked to,
    or was ended by force - then no process of its job, the one it started or any
    of their descendants, is alive any more; when it reports an error, it does not
    count as stopped, and stopping can be tried again. *)
Theorem stop_ends_everything graceful_timeout request_graceful self k :
  match stop_with graceful_timeout request_graceful self k with
  | (k', Ok (self', _)) => su_stopped self' = true ∧ (su_stopped self = true ∨ empty_job (su_job self) k')
  | (_, Err _) => su_stopped self = false
  end.
Proof.
  destruct (su_stopped self) eqn:Hs; [unfold stop_with; rewrite Hs; split; [done|by left]|].
  assert (Hstop : triple (λ _, True) (stop_with graceful_timeout request_graceful self)
    (λ answer k, su_stopped answer.1 = true ∧ empty_job (su_job self) k) (λ _ _, True)).
  { unfold stop_with, active_processes. rewrite Hs. eapply triple_bind; [apply query_empty|]. intros active.
    case_match eqn:Hactive.
    { eapply triple_weaken; [apply stopped_empty| |done|done]. intros k' Hk'. by apply Hk', Nat.eqb_eq. }
    apply (triple_bind _ _ _ (λ _ _, True)); [done|]. intros [].
    eapply triple_bind; [apply job_empty_empty|]. intros [].
    { eapply triple_weaken; [apply stopped_empty| |done|done]. intros k' Hk'. by apply Hk'. }
    apply (triple_bind _ _ _ (λ _ _, True)); [intros k' _; by destruct (terminate_job _ k') as [? []]|]. intros [].
    eapply triple_bind; [eapply triple_weaken; [apply job_empty_empty|done|done|done]|]. intros [].
    { eapply triple_weaken; [apply stopped_empty| |done|done]. intros k' Hk'. by apply Hk'. }
    apply (triple_bind _ _ _ (λ _ _, True)); [intros k' _; by destruct (query_active_processes _ k') as [? []]|].
    intros remaining. by apply triple_throw. }
  specialize (Hstop k I). destruct (stop_with _ _ _ k) as [k' [[self' d]|e]]; [|done]. split; [apply Hstop|right; apply Hstop].
Qed.

(** A poll that has passed its deadline stops, so no more steps are needed than
    there are. *)
Lemma job_empty_enough fuel more job deadline k :
  (0 < fuel)%nat → deadline + 10 ≤ k_now k + 10 * N.of_nat fuel →
  job_empty_loop (fuel + more) job deadline k = job_empty_loop fuel job deadline k.
Proof.
  revert k. induction fuel as [|fuel IH]; intros k Hpos Hfuel; [lia|]. cbn [plus job_empty_loop].
  unfold query_active_processes, api, now, sleep_10. cbv [mbind ST_bind]. destruct (api_fails (k_calls k)); [done|].
  case_match; [done|]. destruct (deadline <=? k_now (tick k)) eqn:Hd; [done|].
  apply N.leb_gt in Hd. unfold tick in Hd |- *. simpl in Hd. apply IH; simpl; lia.
Qed.
Lemma exit_enough fuel more process deadline k :
  (0 < fuel)%nat → deadline + 10 ≤ k_now k + 10 * N.of_nat fuel →
  process_exit_loop (fuel + more) process deadline k = process_exit_loop fuel process deadline k.
Proof.
  revert k. induction fuel as [|fuel IH]; intros k Hpos Hfuel; [lia|]. cbn [plus process_exit_loop].
  unfold wait_for_single_object, api, now, sleep_10. cbv [mbind ST_bind].
  destruct (api_fails (k_calls k)); [done|]. repeat case_match; try done; simplify_eq.
  all: match goal with Hd : (_ <=? _) = false |- _ => apply N.leb_gt in Hd; unfold tick in Hd |- *; simpl in Hd end.
  all: apply IH; simpl; lia.
Qed.
Lemma bounded_enough fuel more job process read_handle started timeout k :
  (0 < fuel)%nat → started ≤ k_now k → started + timeout + 10 ≤ k_now k + 10 * N.of_nat fuel →
  bounded_loop (fuel + more) job process read_handle started timeout k =
  bounded_loop fuel job process read_handle started timeout k.
Proof.
  revert k. induction fuel as [|fuel IH]; intros k Hpos Hstart Hfuel; [lia|]. cbn [plus bounded_loop].
  unfold on_error, try, query_active_processes, api, now, sleep_10. cbv [mbind ST_bind mret ST_ret].
  destruct (api_fails (k_calls k)).
  { unfold throw. repeat case_match; by simplify_eq. }
  case_match; [done|].
  destruct (timeout <=? k_now (tick k) - started) eqn:Hd; [done|].
  apply N.leb_gt in Hd. unfold tick in Hd |- *. simpl in Hd. apply IH; simpl; lia.
Qed.

(** Every wait ends.  The polling loops - for a job to become
    empty, for a process to end, for a command to end - ask at most once in ten
    milliseconds until their time is over: with the steps that are provided they
    give the answer that any larger number of steps would give. *)
Theorem waits_end timeout more job process read_handle k :
  let n := poll_fuel timeout in
  job_empty_loop (n + more) job (k_now k + timeout) k = job_empty_loop n job (k_now k + timeout) k ∧
  process_exit_loop (n + more) process (k_now k + timeout) k = process_exit_loop n process (k_now k + timeout) k ∧
  bounded_loop (n + more) job process read_handle (k_now k) timeout k =
    bounded_loop n job process read_handle (k_now k) timeout k.
Proof.
  intros n. assert (Hfuel : timeout + 10 ≤ 10 * N.of_nat n) by (unfold n, poll_fuel; lia).
  assert (0 < n)%nat by lia.
  split_and!; [apply job_empty_enough|apply exit_enough|apply bounded_enough]; lia.
Qed.
End theorems.

(** ** Concrete processes

    The first call that is a query finds the command and a child of it alive. *)

Definition demo_windows (fails : nat → bool) : Win32 := {|
  api_fails := fails;
  last_error_code := λ _, 5;
  exits := λ n pid, (12 <=? n)%nat;
  forks := λ n pid, if (n =? 10)%nat then 1%nat else 0%nat;
  call_time := λ _, 1;
  odd_status := λ _, None;
  path_is_file := λ _ path, bool_decide (path = lit "C:\git.exe");
  path_is_dir := λ _ _, true;
  vars_os := [(lit "Path", lit "C:\")];
  exit_code_of := λ _, 0;
  creation_time_of := λ _, 7;
  pipe_reads := λ _, [[1; 2]; [3]]
|}.
(** One process of another program's job, and one handle, were there before. *)
Definition demo_kernel : Kernel :=
  MkKernel 0 0 5 {[4%nat := ReadEnd]} {[0%nat := MkProc (Some 1%nat) true]} 1 0.
Lemma demo_kernel_fresh : fresh_handles demo_kernel.
Proof. intros h [o Ho]. change (({[4%nat := ReadEnd]} : gmap nat Object) !! h = Some o) in Ho.
  apply lookup_singleton_Some in Ho as [<- _]. simpl. lia. Qed.

Definition demo_command (fails : nat → bool) :=
  run_bounded_command (H := demo_windows fails) (lit "C:\git.exe") [lit "log"] (lit "C:\") 1000 2 demo_kernel.
Example command_answers :
  (demo_command (λ _, false)).2 = Ok (MkBoundedCommandOutput 0 [1; 2] true false).
Proof. vm_compute. reflexivity. Qed.
(** The handles at the end, whichever call fails; the query at call 10 finds both
    processes alive. *)
Example command_cleans_up :
  forallb (λ n, bool_decide (map_to_list (k_handles (demo_command (Nat.eqb n)).1) = [(4%nat, ReadEnd)])) (seq 0 20) = true ∧
  (demo_command (Nat.eqb 10)).2 = Err (SupervisorWindowsApi "QueryInformationJobObject" 5).
Proof. split; vm_compute; reflexivity. Qed.
(** The exception. *)
Example suspended_process_is_left :
  let '(k, outcome) := demo_command (λ n, (8 <=? n)%nat && (n <=? 9)%nat) in
  outcome = Err (SupervisorWindowsApi "AssignProcessToJobObject" 5) ∧
  List.filter (λ p : nat * Proc, negb (pr_running p.2)) (map_to_list (k_live k)) = [(1%nat, MkProc None false)].
Proof. vm_compute. split; reflexivity. Qed.

Definition demo_spec : ManagedProcessSpec := MkManagedProcessSpec (lit "mcp") (lit "C:\git.exe") [] None [] [].
Lemma supervised_process_ends_witness :
  fresh_handles demo_kernel ∧
  nothing_started (H := demo_windows (Nat.eqb 10)) demo_kernel
    (supervised (H := demo_windows (Nat.eqb 10)) demo_spec [CallActive; CallStop 0; CallRoot; CallStop 20] demo_kernel).1.
Proof. split; [apply demo_kernel_fresh|]. apply supervised_process_ends, demo_kernel_fresh. Defined.
