(* ===== verification/GitRecords.v ===== *)
(** * GitRecords: what git prints, read back

    The parsers of [src/src-tauri/src/workspace/git_adapter.rs]: the branch line
    and the entries of [git status], the changed files of [git diff] and
    [git show], the rows of [git blame], and the bound on the text that is
    returned.  Bytes are what git wrote. *)

From S2P Require Import Prelude Text Json.
#[local] Open Scope N_scope.

(** ** Text *)

(** [String::from_utf8_lossy]: what cannot be a character is replaced, as much of
    it at once as could have begun one. *)
Definition replacement : N := 0xFFFD.
Fixpoint utf8_lossy (bs : bytes) : ustr :=
  match bs with
  | [] => []
  | b0 :: rest =>
      if b0 <? 0x80 then b0 :: utf8_lossy rest
      else if in_range 0xC2 0xDF b0 then
        match rest with
        | b1 :: rest' =>
            if is_cont b1 then ((b0 - 0xC0) * 64 + (b1 - 0x80)) :: utf8_lossy rest'
            else replacement :: utf8_lossy rest
        | [] => [replacement]
        end
      else if in_range 0xE0 0xEF b0 then
        match rest with
        | b1 :: rest' =>
            let c := (b0 - 0xE0) * 64 + (b1 - 0x80) in
            if is_cont b1 && (0x20 <=? c) && negb (in_range 0x360 0x37F c) then
              match rest' with
              | b2 :: rest'' =>
                  if is_cont b2 then (c * 64 + (b2 - 0x80)) :: utf8_lossy rest''
                  else replacement :: utf8_lossy rest'
              | [] => [replacement]
              end
            else replacement :: utf8_lossy rest
        | [] => [replacement]
        end
      else if in_range 0xF0 0xF4 b0 then
        match rest with
        | b1 :: rest' =>
            let c := (b0 - 0xF0) * 64 + (b1 - 0x80) in
            if is_cont b1 && (0x10 <=? c) && (c <=? 0x10F) then
              match rest' with
              | b2 :: rest'' =>
                  if is_cont b2 then
                    match rest'' with
                    | b3 :: rest''' =>
                        if is_cont b3 then ((c * 64 + (b2 - 0x80)) * 64 + (b3 - 0x80)) :: utf8_lossy rest'''
                        else replacement :: utf8_lossy rest''
                    | [] => [replacement]
                    end
                  else replacement :: utf8_lossy rest'
              | [] => [replacement]
              end
            else replacement :: utf8_lossy rest
        | [] => [replacement]
        end
      else replacement :: utf8_lossy rest
  end.

(** [str::split_once] with a string, [trim_matches] and [split_inclusive]. *)
Definition split_once_str (p s : ustr) : option (ustr * ustr) :=
  i ← find_sub p s; Some (take i s, drop (i + length p) s).
Definition trim_matches (f : N → bool) (s : ustr) : ustr := trim_end_matches f (drop_while f s).
Fixpoint split_inclusive (s : ustr) : list ustr :=
  match s with
  | [] => []
  | c :: s =>
      if c =? 0x0A then [c] :: split_inclusive s
      else match split_inclusive s with
           | line :: lines => (c :: line) :: lines
           | [] => [[c]]
           end
  end.

(** [u64::from_str]. *)
Fixpoint parse_digits (value : N) (s : ustr) : option N :=
  match s with
  | [] => Some value
  | c :: s =>
      let value := value * 10 + (c - 0x30) in
      if is_ascii_digit c && (value <=? u64_max) then parse_digits value s else None
  end.
Definition parse_u64 (s : ustr) : option N :=
  match (match s with c :: s' => if c =? 0x2B then s' else s | [] => s end) with
  | [] => None
  | digits => parse_digits 0 digits
  end.
Definition parse_or_zero (s : ustr) : N := default 0 (parse_u64 s).

Section records.
Context `{Json}.

(** ** [git status] *)

(* @src workspace/git_adapter.rs:373-373 BranchStatus *)
Definition BranchStatus : Type := option ustr * option ustr * N * N.

(* @src workspace/git_adapter.rs:980-1009 parse_branch_line *)
Definition parse_branch_line (line : ustr) : BranchStatus :=
  let raw := trim (default line (strip_prefix (lit "## ") line)) in
  let raw := default raw (strip_prefix (lit "No commits yet on ") raw) in
  let '(main, bracket) :=
    match split_once_str (lit " [") raw with
    | Some (main, tail) => (main, Some (trim_end_matches (N.eqb 0x5D) tail))
    | None => (raw, None)
    end in
  let '(branch, upstream) :=
    match split_once_str (lit "...") main with
    | Some (branch, upstream) => (branch, Some upstream)
    | None => (main, None)
    end in
  let '(ahead, behind) :=
    match bracket with
    | Some bracket =>
        foldl (λ '(ahead, behind) item,
          (match strip_prefix (lit "ahead ") item with Some value => parse_or_zero value | None => ahead end,
           match strip_prefix (lit "behind ") item with Some value => parse_or_zero value | None => behind end))
          (0, 0) (map trim (split_on (N.eqb 0x2C) bracket))
    | None => (0, 0)
    end in
  (if bool_decide (branch = []) then None else Some branch, upstream, ahead, behind).

(* @src workspace/git_adapter.rs:423-428 parse_status_porcelain_v1_z, an entry *)
Definition status_entry (index_status worktree_status : N) (path : ustr) (original_path : option ustr) : json :=
  obj [("path", json_string path); ("original_path", jopt json_string original_path);
       ("index_status", json_string [index_status]); ("worktree_status", json_string [worktree_status])]%string.
Definition rename_or_copy (status : N) : bool := (status =? 0x52) || (status =? 0x43).

(* @src workspace/git_adapter.rs:391-429 parse_status_porcelain_v1_z, the entries *)
Fixpoint status_entries (truncated : bool) (records : list bytes) : result string (list json) :=
  match records with
  | [] => Ok []
  | record :: records =>
      match record with
      | [] => status_entries truncated records
      | index_status :: worktree_status :: 0x20 :: path =>
          match utf8_decode path with
          | None => Err "Git status path is not valid UTF-8"%string
          | Some path =>
              if rename_or_copy index_status || rename_or_copy worktree_status then
                match records with
                | ((_ :: _) as original) :: records =>
                    match utf8_decode original with
                    | None => Err "Git status original path is not valid UTF-8"%string
                    | Some original =>
                        entries ← status_entries truncated records;
                        Ok (status_entry index_status worktree_status path (Some original) :: entries)
                    end
                | _ => Err "Git status omitted the original rename path"%string
                end
              else
                entries ← status_entries truncated records;
                Ok (status_entry index_status worktree_status path None :: entries)
          end
      | _ =>
          if truncated && bool_decide (records = []) then Ok []
          else Err "Git status returned an invalid machine record"%string
      end
  end.

(* @src workspace/git_adapter.rs:375-431 parse_status_porcelain_v1_z *)
Definition parse_status_porcelain_v1_z (output : bytes) (truncated : bool) :
    result string (BranchStatus * list json) :=
  if bool_decide (output = []) then Ok ((None, None, 0, 0), [])
  else if negb truncated && negb (bool_decide (last output = Some 0)) then
    Err "Git status returned an incomplete machine record"%string
  else
    match split_on (N.eqb 0) output with
    | [] => Err "Git status omitted its branch record"%string
    | branch_record :: records =>
        branch_line ← ok_or "Git status branch is not valid UTF-8"%string (utf8_decode branch_record);
        entries ← status_entries truncated records;
        Ok (parse_branch_line branch_line, entries)
    end.

(** ** Changed files *)

Definition status_word (kind : N) : string :=
  if kind =? 0x41 then "added" else if kind =? 0x44 then "deleted" else if kind =? 0x52 then "renamed"
  else if kind =? 0x43 then "copied" else if kind =? 0x54 then "type_changed" else if kind =? 0x55 then "unmerged"
  else "modified".

(** Path and status of each file. *)
(* @src workspace/git_adapter.rs:1054-1083 parse_name_status_z, the loop *)
Fixpoint name_status (fields : list bytes) : list (ustr * string) :=
  match fields with
  | [] => []
  | status :: fields =>
      let kind := default 0x4D (head (utf8_lossy status)) in
      if rename_or_copy kind then
        match fields with
        | _ :: destination :: fields => (utf8_lossy destination, status_word kind) :: name_status fields
        | _ => []
        end
      else
        match fields with
        | path :: fields => (utf8_lossy path, status_word kind) :: name_status fields
        | [] => []
        end
  end.
Definition is_nonempty {A} (l : list A) : bool := negb (bool_decide (length l = 0%nat)).
(* @src workspace/git_adapter.rs:1047-1085 parse_name_status_z *)
Definition parse_name_status_z (output : bytes) : list (ustr * string) :=
  name_status (List.filter is_nonempty (split_on (N.eqb 0) output)).

(** [bytes.iter().position(|byte| *byte == 0)], with what follows. *)
Definition until_nul (bs : bytes) : option (bytes * bytes) := split_once 0 bs.
(** [record.splitn(3, tab)]. *)
Definition splitn3 (record : bytes) : bytes * bytes * bytes :=
  match split_once 0x9 record with
  | Some (added, rest) =>
      match split_once 0x9 rest with
      | Some (deleted, path) => (added, deleted, path)
      | None => (added, rest, [])
      end
  | None => (record, [], [])
  end.
(* @src workspace/git_adapter.rs:1090-1121 parse_numstat_binary_paths_z, the loop *)
Fixpoint numstat_loop (fuel : nat) (bs : bytes) : list ustr :=
  match fuel with
  | O => []
  | S fuel =>
      match until_nul bs with
      | None => []
      | Some ([], rest) => numstat_loop fuel rest
      | Some (record, rest) =>
          let '(added, deleted, inline_path) := splitn3 record in
          let binary := bool_decide (added = [0x2D]) && bool_decide (deleted = [0x2D]) in
          let insert path paths := if binary then utf8_lossy path :: paths else paths in
          match inline_path with
          | [] =>
              match until_nul rest with
              | None => []
              | Some (_, rest) =>
                  match until_nul rest with
                  | None => []
                  | Some (new_path, rest) => insert new_path (numstat_loop fuel rest)
                  end
              end
          | _ => insert inline_path (numstat_loop fuel rest)
          end
      end
  end.
(* @src workspace/git_adapter.rs:1087-1123 parse_numstat_binary_paths_z *)
Definition parse_numstat_binary_paths_z (output : bytes) : gset ustr :=
  list_to_set (numstat_loop (length output) output).

(** What [machine_file_metadata] makes of both outputs. *)
(* @src workspace/git_adapter.rs:1038-1044 machine_file_metadata, the result *)
Definition file_metadata (names numstat : bytes) : list json :=
  let binaries := parse_numstat_binary_paths_z numstat in
  map (λ '(path, status),
    obj [("path", json_string path); ("status", js status); ("binary", json_bool (bool_decide (path ∈ binaries)))]%string)
    (parse_name_status_z names).

(** ** [git blame] *)

Definition blame_keys : list (string * string) :=
  [("author ", "author"); ("author-mail ", "author_mail"); ("author-time ", "author_time"); ("summary ", "summary")]%string.
Definition blame_row (current : gmap string json) (content : ustr) : json :=
  let value key := default json_null (current !! key) in
  obj [("commit", value "commit"); ("original_line", value "original_line"); ("line", value "line");
       ("author", value "author"); ("author_mail", value "author_mail"); ("author_time", value "author_time");
       ("summary", value "summary"); ("content", json_string content)]%string.

(* @src workspace/git_adapter.rs:1161-1171 parse_blame_porcelain, a field of the commit *)
Definition blame_field (current : gmap string json) (line : ustr) : gmap string json :=
  match find_map (λ '(prefix, key), value ← strip_prefix (lit prefix) line; Some (key, value)) blame_keys with
  | Some (key, value) => <[key := json_string value]> current
  | None => current
  end.

(* @src workspace/git_adapter.rs:1128-1173 parse_blame_porcelain, one line *)
Definition blame_line (state : list json * gmap string json) (line : ustr) : list json * gmap string json :=
  let '(rows, current) := state in
  match strip_prefix [0x9] line with
  | Some content =>
      if bool_decide (current = ∅) then state else (rows ++ [blame_row current content], ∅)
  | None =>
      let fields := split_whitespace line in
      let hash := drop_while (N.eqb 0x5E) (default [] (head fields)) in
      match fields with
      | _ :: original_line :: final_line :: _ =>
          if (byte_len hash =? 40)%nat && forallb is_ascii_hexdigit hash then
            (rows, {["commit"%string := json_string hash; "original_line"%string := jn (parse_or_zero original_line);
                     "line"%string := jn (parse_or_zero final_line)]})
          else (rows, blame_field current line)
      | _ => (rows, blame_field current line)
      end
  end.
(* @src workspace/git_adapter.rs:1125-1176 parse_blame_porcelain *)
Definition parse_blame_porcelain (text : ustr) : list json := (foldl blame_line ([], ∅) (lines text)).1.
End records.

(** ** The bound on returned text *)

(* @src workspace/git_adapter.rs:1191-1195 truncate_text, back to a character boundary *)
Fixpoint take_bytes (limit : nat) (line : ustr) : ustr :=
  match line with
  | [] => []
  | c :: line =>
      let width := length (utf8_encode_char c) in
      if (width <=? limit)%nat then c :: take_bytes (limit - width) line else []
  end.
(** The lines that are kept, and whether the loop stopped early. *)
(* @src workspace/git_adapter.rs:1181-1201 truncate_text, the loop *)
Fixpoint truncate_lines (max_bytes max_lines : nat) (lines : list ustr) : ustr * bool :=
  match lines with
  | [] => ([], false)
  | line :: lines =>
      match max_lines with
      | O => ([], true)
      | S max_lines =>
          if (byte_len line <=? max_bytes)%nat then
            let '(kept, truncated) := truncate_lines (max_bytes - byte_len line) max_lines lines in
            (line ++ kept, truncated)
          else (take_bytes max_bytes line, true)
      end
  end.
(* @src workspace/git_adapter.rs:1178-1206 truncate_text *)
Definition truncate_text (text : ustr) (max_bytes max_lines : nat) : ustr * bool * nat * nat :=
  let '(kept, truncated) := truncate_lines max_bytes max_lines (split_inclusive text) in
  (kept, truncated || (byte_len kept <? byte_len text)%nat, byte_len text, length (lines text)).

(* @src workspace/git_adapter.rs:1237-1239 valid_git_ref *)
Definition valid_git_ref (value : ustr) : bool :=
  negb (bool_decide (value = [])) && negb (starts_with (lit "-") value) &&
  negb (existsb (λ c, (c =? 0) || (c =? 0x0A) || (c =? 0x0D)) value).

(** ** Reading back *)

Lemma lossy_char c bs : is_scalar c = true → utf8_lossy (utf8_encode_char c ++ bs) = c :: utf8_lossy bs.
Proof.
  intros Hc. unfold utf8_encode_char.
  destruct (c <? 0x80) eqn:H1; [simpl; by rewrite H1|].
  destruct (c <? 0x800) eqn:H2; [|destruct (c <? 0x10000) eqn:H3].
  - set (b0 := 0xC0 + c / 64). set (b1 := 0x80 + c mod 64).
    assert ((b0 <? 0x80) = false ∧ in_range 0xC2 0xDF b0 = true ∧ is_cont b1 = true ∧
      (b0 - 0xC0) * 64 + (b1 - 0x80) = c) as (E1 & E2 & E3 & E4) by (subst b0 b1; repeat split; bool_lia).
    cbn [app utf8_lossy]. by rewrite E1, E2, E3, E4.
  - set (b0 := 0xE0 + c / 4096). set (b1 := 0x80 + (c / 64) mod 64). set (b2 := 0x80 + c mod 64).
    assert ((b0 <? 0x80) = false ∧ in_range 0xC2 0xDF b0 = false ∧ in_range 0xE0 0xEF b0 = true ∧
      is_cont b1 = true ∧ is_cont b2 = true ∧ (b0 - 0xE0) * 64 + (b1 - 0x80) = c / 64 ∧
      c / 64 * 64 + (b2 - 0x80) = c ∧ (0x20 <=? c / 64) = true ∧ in_range 0x360 0x37F (c / 64) = false)
      as (E1 & E2 & E3 & E4 & E5 & E6 & E7 & E8 & E9) by (subst b0 b1 b2; repeat split; bool_lia).
    cbn [app utf8_lossy]. rewrite E1, E2, E3. cbv zeta. by rewrite E6, E4, E8, E9, E5, E7.
  - set (b0 := 0xF0 + c / 262144). set (b1 := 0x80 + (c / 4096) mod 64).
    set (b2 := 0x80 + (c / 64) mod 64). set (b3 := 0x80 + c mod 64).
    assert ((b0 <? 0x80) = false ∧ in_range 0xC2 0xDF b0 = false ∧ in_range 0xE0 0xEF b0 = false ∧
      in_range 0xF0 0xF4 b0 = true ∧ is_cont b1 = true ∧ is_cont b2 = true ∧ is_cont b3 = true ∧
      (b0 - 0xF0) * 64 + (b1 - 0x80) = c / 4096 ∧ (c / 4096 * 64 + (b2 - 0x80)) * 64 + (b3 - 0x80) = c ∧
      (0x10 <=? c / 4096) = true ∧ (c / 4096 <=? 0x10F) = true)
      as (E1 & E2 & E3 & E4 & E5 & E6 & E7 & E8 & E9 & E10 & E11) by (subst b0 b1 b2 b3; repeat split; bool_lia).
    cbn [app utf8_lossy]. rewrite E1, E2, E3, E4. cbv zeta. by rewrite E8, E5, E10, E11, E6, E7, E9.
Qed.
Abbreviation scalar_text := (Forall (λ c, is_scalar c = true)).
Lemma lossy_encode s : scalar_text s → utf8_lossy (utf8_encode s) = s.
Proof.
  induction 1 as [|c s Hc _ IH]; [done|].
  change (utf8_encode (c :: s)) with (utf8_encode_char c ++ utf8_encode s). by rewrite lossy_char, IH.
Qed.

(** A byte below [0x80] stands for itself only. *)
Lemma encode_ascii b s : b < 0x80 → b ∈ utf8_encode s → b ∈ s.
Proof.
  intros Hb. induction s as [|c s IH]; [done|].
  change (utf8_encode (c :: s)) with (utf8_encode_char c ++ utf8_encode s). intros [Hin|Hin]%elem_of_app; [|right; auto].
  apply elem_of_cons. left. unfold utf8_encode_char in Hin. repeat case_match; rewrite ?elem_of_cons, ?elem_of_nil in Hin; bool_lia.
Qed.
Lemma encode_no_nul s : 0 ∉ s → 0 ∉ utf8_encode s.
Proof. intros Hs Hin. apply Hs. by apply encode_ascii. Qed.
Lemma encode_nonempty s : s ≠ [] → utf8_encode s ≠ [].
Proof. destruct s as [|c s]; [done|]. intros _. unfold utf8_encode. simpl. unfold utf8_encode_char. by repeat case_match. Qed.

(** Records that end with a null byte. *)
Lemma split_on_app f u x v : (∀ y, y ∈ u → f y = false) → f x = true → split_on f (u ++ x :: v) = u :: split_on f v.
Proof.
  intros Hu Hx. induction u as [|c u IH]; simpl; [by rewrite Hx|]. rewrite (Hu c) by left.
  rewrite IH; [done|]. intros y Hy. apply Hu. by right.
Qed.
Lemma split_nul u v : 0 ∉ u → split_on (N.eqb 0) (u ++ 0 :: v) = u :: split_on (N.eqb 0) v.
Proof. intros Hu. apply split_on_app; [|done]. intros y Hy. apply N.eqb_neq. by intros <-. Qed.
Lemma split_records records :
  Forall (λ r, 0 ∉ r) records → split_on (N.eqb 0) (concat (map (λ r, r ++ [0]) records)) = records ++ [[]].
Proof.
  induction 1 as [|r records Hr _ IH]; [done|]. cbn [map concat]. rewrite <-(assoc_L (++)). cbn [app].
  rewrite split_nul by done. by rewrite IH.
Qed.

Section reading.
Context `{Json}.

(** *** The entries of a status *)

(** What git knows of a path. *)
Record StatusLine := MkStatusLine { sl_index : N; sl_worktree : N; sl_path : ustr; sl_original : option ustr }.
(** As git prints it: two letters, a space, the path, and after a rename or copy
    the path it had. *)
Definition status_records (line : StatusLine) : list bytes :=
  (sl_index line :: sl_worktree line :: 0x20 :: utf8_encode (sl_path line)) ::
  match sl_original line with Some original => [utf8_encode original] | None => [] end.
Definition printable_path (path : ustr) : Prop := scalar_text path ∧ (0 ∉ path) ∧ path ≠ [].
Definition status_line_ok (line : StatusLine) : Prop :=
  sl_index line ≠ 0 ∧ sl_worktree line ≠ 0 ∧ printable_path (sl_path line) ∧
  (rename_or_copy (sl_index line) || rename_or_copy (sl_worktree line) = bool_decide (is_Some (sl_original line))) ∧
  from_option printable_path True (sl_original line).
Definition print_status (branch_line : ustr) (status : list StatusLine) : bytes :=
  concat (map (λ r, r ++ [0]) (utf8_encode branch_line :: concat (map status_records status))).

Lemma status_entries_print truncated status :
  Forall status_line_ok status →
  status_entries truncated (concat (map status_records status) ++ [[]]) =
  Ok (map (λ l, status_entry (sl_index l) (sl_worktree l) (sl_path l) (sl_original l)) status).
Proof.
  induction 1 as [|[x y path original] status (Hx & Hy & (Hpath & _ & _) & Hrename & Horiginal) _ IH]; [done|].
  cbn [map concat]. unfold status_records at 1. cbn [sl_index sl_worktree sl_path sl_original] in *.
  cbn [app status_entries]. rewrite utf8_roundtrip by done. rewrite Hrename.
  destruct original as [original|]; cbn [app].
  - rewrite bool_decide_true by eauto. destruct Horiginal as (Hscalar & _ & Hne). apply encode_nonempty in Hne.
    destruct (utf8_encode original) as [|b bs] eqn:E; [done|]. rewrite <-E, utf8_roundtrip by done. by rewrite IH.
  - rewrite bool_decide_false by (by intros [? ?]). by rewrite IH.
Qed.
Lemma status_records_no_nul line : status_line_ok line → Forall (λ r, 0 ∉ r) (status_records line).
Proof.
  intros (Hx & Hy & (_ & Hpath & _) & _ & Horiginal). unfold status_records. constructor.
  - rewrite !not_elem_of_cons. split_and!; [done..|]. by apply encode_no_nul.
  - destruct (sl_original line) as [original|]; [|constructor]. constructor; [|constructor]. apply encode_no_nul, Horiginal.
Qed.

(** Git's status is read as it is.  For any branch line and any
    changes, renames and copies, with any paths in any script - blanks, arrows,
    line feeds included - reading what git prints for them gives that branch line
    and exactly these changes in their order, the new and the old path of a rename
    not exchanged. *)
Theorem status_roundtrip branch_line status :
  scalar_text branch_line → 0 ∉ branch_line → Forall status_line_ok status →
  parse_status_porcelain_v1_z (print_status branch_line status) false =
  Ok (parse_branch_line branch_line,
      map (λ l, status_entry (sl_index l) (sl_worktree l) (sl_path l) (sl_original l)) status).
Proof.
  intros Hbranch Hnul Hstatus. unfold parse_status_porcelain_v1_z.
  assert (Hrecords : Forall (λ r, 0 ∉ r) (utf8_encode branch_line :: concat (map status_records status))).
  { constructor; [by apply encode_no_nul|]. induction Hstatus; [constructor|]. cbn [map concat].
    apply Forall_app. split; [by apply status_records_no_nul|done]. }
  unfold print_status. set (records := utf8_encode branch_line :: concat (map status_records status)) in *.
  assert (Hne : records ≠ []) by done. destruct (exists_last Hne) as (front & r & Hsplit).
  assert (Hlast : last (concat (map (λ r, r ++ [0]) records)) = Some 0).
  { rewrite Hsplit, map_app, concat_app. cbn [map concat]. by rewrite app_nil_r, (assoc_L (++)), last_snoc. }
  rewrite bool_decide_false by (intros Hnil; by rewrite Hnil in Hlast).
  rewrite Hlast, bool_decide_true by done. cbn [negb andb]. rewrite split_records by done.
  unfold records. cbn [app]. rewrite utf8_roundtrip by done. cbn [ok_or]. csimpl. by rewrite status_entries_print.
Qed.

(** *** Changed files *)

Record FileChange := MkFileChange {
  fc_kind : N; fc_score : bytes; fc_source : option ustr; fc_path : ustr;
  fc_counts : option (bytes * bytes)  (* lines added and deleted; nothing for a binary file *)
}.
Definition name_records (c : FileChange) : list bytes :=
  (fc_kind c :: fc_score c) ::
  (match fc_source c with Some source => [utf8_encode source] | None => [] end) ++ [utf8_encode (fc_path c)].
Definition print_names (changes : list FileChange) : bytes :=
  concat (map (λ r, r ++ [0]) (concat (map name_records changes))).
Definition print_counts (change : FileChange) : bytes :=
  (match fc_counts change with Some (added, deleted) => added ++ 0x9 :: deleted | None => [0x2D; 0x9; 0x2D] end) ++ [0x9].
Definition print_numstat (changes : list FileChange) : bytes :=
  concat (map (λ c, print_counts c ++
    match fc_source c with
    | Some source => 0 :: utf8_encode source ++ 0 :: utf8_encode (fc_path c) ++ [0]
    | None => utf8_encode (fc_path c) ++ [0]
    end) changes).
Definition digits (text : bytes) : Prop := text ≠ [] ∧ Forall (λ c, is_ascii_digit c = true) text.
Definition change_ok (c : FileChange) : Prop :=
  0x40 < fc_kind c < 0x80 ∧ Forall (λ b, is_ascii_digit b = true) (fc_score c) ∧
  rename_or_copy (fc_kind c) = bool_decide (is_Some (fc_source c)) ∧
  from_option printable_path True (fc_source c) ∧ printable_path (fc_path c) ∧
  from_option (λ counts, digits counts.1 ∧ digits counts.2) True (fc_counts c).

Lemma lossy_ascii_head b bs : b < 0x80 → head (utf8_lossy (b :: bs)) = Some b.
Proof. intros Hb. simpl. by rewrite (proj2 (N.ltb_lt _ _) Hb). Qed.
Lemma filter_nonempty_all (l : list bytes) : Forall (λ r, r ≠ []) l → List.filter is_nonempty l = l.
Proof.
  induction 1 as [|r l Hr _ IH]; [done|]. simpl. unfold is_nonempty at 1. destruct r; [done|]. simpl. by rewrite IH.
Qed.

Lemma name_records_ok c : change_ok c → Forall (λ r, (0 ∉ r) ∧ r ≠ []) (name_records c).
Proof.
  intros (Hkind & Hscore & _ & Hsource & (_ & Hnul & Hne) & _). unfold name_records. constructor.
  - split; [|done]. apply not_elem_of_cons. split; [lia|]. intros Hin. by apply (proj1 (Forall_forall _ _) Hscore) in Hin.
  - apply Forall_app. split.
    + destruct (fc_source c); [|constructor]. destruct Hsource as (_ & ? & ?). constructor; [|constructor].
      split; [by apply encode_no_nul|by apply encode_nonempty].
    + constructor; [|constructor]. split; [by apply encode_no_nul|by apply encode_nonempty].
Qed.
Lemma parse_names_print changes :
  Forall change_ok changes →
  parse_name_status_z (print_names changes) = map (λ c, (fc_path c, status_word (fc_kind c))) changes.
Proof.
  intros Hchanges. unfold parse_name_status_z, print_names.
  assert (Hall : Forall (λ r, (0 ∉ r) ∧ r ≠ []) (concat (map name_records changes))).
  { induction Hchanges; [constructor|]. cbn [map concat]. apply Forall_app. split; [by apply name_records_ok|done]. }
  rewrite split_records by (eapply Forall_impl; [exact Hall|by intros ? [? _]]).
  rewrite List.filter_app, filter_nonempty_all by (eapply Forall_impl; [exact Hall|by intros ? [_ ?]]).
  change (List.filter is_nonempty [[]]) with (@nil bytes). rewrite app_nil_r. clear Hall.
  induction Hchanges as [|c changes (Hkind & _ & Hrename & Hsource & (Hpath & _) & _) _ IH]; [done|].
  cbn [map concat]. unfold name_records at 1. cbn [app name_status].
  rewrite lossy_ascii_head by lia. cbn [default from_option id]. rewrite Hrename. destruct (fc_source c) as [source|]; cbn [app].
  - rewrite bool_decide_true by eauto. by rewrite lossy_encode, IH.
  - rewrite bool_decide_false by (by intros [? ?]). by rewrite lossy_encode, IH.
Qed.

Lemma split_once_app c u v : c ∉ u → split_once c (u ++ c :: v) = Some (u, v).
Proof.
  induction u as [|x u IH]; intros Hu; cbn [app split_once]; [by rewrite N.eqb_refl|].
  apply not_elem_of_cons in Hu as [Hx Hu]. rewrite (proj2 (N.eqb_neq x c)) by congruence. by rewrite IH.
Qed.
Definition counts_text (c : FileChange) : bytes * bytes := default ([0x2D], [0x2D]) (fc_counts c).
Lemma print_counts_text c : print_counts c = (counts_text c).1 ++ 0x9 :: (counts_text c).2 ++ [0x9].
Proof. unfold print_counts, counts_text. destruct (fc_counts c) as [[added deleted]|]; simpl; by rewrite <-?(assoc_L (++)). Qed.
Lemma digits_lack (b : N) text : is_ascii_digit b = false → digits text → b ∉ text.
Proof. intros Hb [_ Htext] Hin. apply (proj1 (Forall_forall _ _) Htext) in Hin. congruence. Qed.
Lemma counts_ok c :
  change_ok c → (0x9 ∉ (counts_text c).1) ∧ (0x9 ∉ (counts_text c).2) ∧ (0 ∉ (counts_text c).1) ∧ (0 ∉ (counts_text c).2) ∧
  bool_decide ((counts_text c).1 = [0x2D]) && bool_decide ((counts_text c).2 = [0x2D]) = bool_decide (fc_counts c = None).
Proof.
  intros (_ & _ & _ & _ & _ & Hcounts). unfold counts_text. destruct (fc_counts c) as [[added deleted]|]; simpl in *.
  - destruct Hcounts as [Ha Hd]. split_and!; try (by apply digits_lack). rewrite (bool_decide_false (added = [0x2D])); [done|].
    intros ->. by apply (digits_lack 0x2D) in Ha; [destruct Ha; left|].
  - split_and!; [..|done]; by apply (bool_decide_unpack _).
Qed.

Lemma numstat_step c fuel rest :
  change_ok c →
  numstat_loop (S fuel) (print_counts c ++
    match fc_source c with
    | Some source => 0 :: utf8_encode source ++ 0 :: utf8_encode (fc_path c) ++ [0]
    | None => utf8_encode (fc_path c) ++ [0]
    end ++ rest) =
  (if bool_decide (fc_counts c = None) then [fc_path c] else []) ++ numstat_loop fuel rest.
Proof.
  intros Hok. destruct (counts_ok c Hok) as (Ha & Hd & Ha0 & Hd0 & Hbinary). rewrite print_counts_text.
  destruct Hok as (_ & _ & _ & Hsource & (Hpath & Hnul & Hne) & _). destruct (counts_text c) as [added deleted]. cbn [fst snd] in *.
  pose proof (encode_no_nul _ Hnul) as Hpath0. pose proof (encode_nonempty _ Hne) as Hpath1. pose proof (lossy_encode _ Hpath) as Hlossy.
  assert (Hcounts0 : 0 ∉ added ++ 0x9 :: deleted ++ [0x9]).
  { rewrite not_elem_of_app, not_elem_of_cons, not_elem_of_app, list_elem_of_singleton. done. }
  cbn [numstat_loop]. unfold until_nul. destruct (fc_source c) as [source|].
  - rewrite <-app_comm_cons, split_once_app by done.
    destruct (added ++ 0x9 :: deleted ++ [0x9]) as [|b record] eqn:Hrecord; [by destruct added|]. rewrite <-Hrecord. unfold splitn3.
    rewrite split_once_app by done. change (deleted ++ [0x9]) with (deleted ++ 0x9 :: []). rewrite split_once_app by done.
    destruct Hsource as (_ & Hsource & _). rewrite <-app_assoc. cbn [app]. rewrite split_once_app by (by apply encode_no_nul).
    rewrite <-app_assoc. cbn [app]. rewrite split_once_app by done. rewrite Hbinary, Hlossy. by destruct (bool_decide (fc_counts c = None)).
  - rewrite <-(app_assoc (utf8_encode _)), app_assoc. cbn [app].
    rewrite split_once_app by (rewrite not_elem_of_app; done).
    destruct ((added ++ 0x9 :: deleted ++ [0x9]) ++ utf8_encode (fc_path c)) as [|b record] eqn:Hrecord; [by destruct added|].
    rewrite <-Hrecord. unfold splitn3. rewrite <-app_assoc. cbn [app]. rewrite split_once_app by done.
    rewrite <-app_assoc. cbn [app]. rewrite split_once_app by done.
    destruct (utf8_encode (fc_path c)) as [|b' path] eqn:Hp; [done|]. rewrite Hbinary, Hlossy. by destruct (bool_decide (fc_counts c = None)).
Qed.
Lemma numstat_print changes fuel :
  Forall change_ok changes → (length changes ≤ fuel)%nat →
  numstat_loop fuel (print_numstat changes) =
  concat (map (λ c, if bool_decide (fc_counts c = None) then [fc_path c] else []) changes).
Proof.
  intros Hchanges. revert fuel. induction Hchanges as [|c changes Hc _ IH]; intros fuel Hfuel; [by destruct fuel|].
  simpl in Hfuel. destruct fuel as [|fuel]; [lia|]. unfold print_numstat. cbn [map concat].
  rewrite <-(assoc_L (++)), numstat_step by done. f_equal. apply IH. lia.
Qed.
Lemma print_numstat_length changes : (length changes ≤ length (print_numstat changes))%nat.
Proof.
  induction changes as [|c changes IH]; [done|]. unfold print_numstat in *. cbn [map concat]. rewrite !length_app.
  assert (1 ≤ length (print_counts c))%nat by (unfold print_counts; rewrite length_app; cbn [length]; lia). cbn [length]. lia.
Qed.

(** The changed files are the changed files.  For any files git
    reports - added, deleted, changed, renamed or copied, with any paths - reading
    both machine formats gives each file once, in order, under its new path and
    with its status, and marks as binary exactly the files git counts no lines
    of. *)
Theorem changed_files_roundtrip changes :
  Forall change_ok changes → NoDup (map fc_path changes) →
  file_metadata (print_names changes) (print_numstat changes) =
  map (λ c, obj [("path", json_string (fc_path c)); ("status", js (status_word (fc_kind c)));
                 ("binary", json_bool (bool_decide (fc_counts c = None)))]%string) changes.
Proof.
  intros Hok Hnodup. unfold file_metadata, parse_numstat_binary_paths_z.
  rewrite parse_names_print, numstat_print, map_map by (done || apply print_numstat_length).
  apply map_ext_in. intros c Hc%list_elem_of_In. do 5 f_equal. f_equal. apply bool_decide_ext.
  rewrite elem_of_list_to_set, list_elem_of_In, in_concat. split.
  - intros (l & Hl & Hin). apply in_map_iff in Hl as (c' & <- & Hc'%list_elem_of_In). case_bool_decide as Hnone; [|done].
    destruct Hin as [Hpath|[]]. assert (c' = c) as <-; [|done].
    by apply (NoDup_fmap_elem fc_path changes).
  - intros Hnone. exists [fc_path c]. split; [|by left]. apply in_map_iff. exists c. split; [by rewrite bool_decide_true|by apply list_elem_of_In].
Qed.
End reading.

(** *** The bound *)

Definition line_feeds (s : ustr) : nat := countb (N.eqb 0x0A) s.
Lemma split_inclusive_concat s : concat (split_inclusive s) = s.
Proof.
  induction s as [|c s IH]; [done|]. cbn [split_inclusive]. case_match; [simpl; by rewrite IH|].
  destruct (split_inclusive s) as [|line lines]; simpl in *; by rewrite <-IH.
Qed.
Lemma split_inclusive_lines s : Forall (λ line, line ≠ [] ∧ (line_feeds line ≤ 1)%nat) (split_inclusive s).
Proof.
  induction s as [|c s IH]; [constructor|]. cbn [split_inclusive]. destruct (c =? 0x0A) eqn:Hc.
  - constructor; [|exact IH]. split; [done|]. unfold line_feeds. rewrite countb_cons, countb_nil. case_match; lia.
  - assert (Hfeeds : ∀ l, line_feeds (c :: l) = line_feeds l).
    { intros l. unfold line_feeds. rewrite countb_cons, N.eqb_sym, Hc. done. }
    destruct (split_inclusive s) as [|line lines].
    + constructor; [|constructor]. split; [done|]. rewrite Hfeeds. unfold line_feeds. rewrite countb_nil. lia.
    + inversion_clear IH as [|?? [_ Hline] Hlines]. constructor; [|exact Hlines]. split; [done|]. by rewrite Hfeeds.
Qed.
Lemma byte_len_cons c s : byte_len (c :: s) = (length (utf8_encode_char c) + byte_len s)%nat.
Proof. unfold byte_len, utf8_encode. simpl. by rewrite length_app. Qed.
Lemma byte_len_positive s : s ≠ [] → (0 < byte_len s)%nat.
Proof. intros Hs%encode_nonempty. unfold byte_len. destruct (utf8_encode s); [done|simpl; lia]. Qed.

Lemma take_bytes_spec limit line :
  ∃ rest, line = take_bytes limit line ++ rest ∧ (byte_len (take_bytes limit line) ≤ limit)%nat.
Proof.
  revert limit. induction line as [|c line IH]; intros limit; cbn [take_bytes]; [exists []; split; [done|unfold byte_len; simpl; lia]|].
  destruct (Nat.leb_spec (length (utf8_encode_char c)) limit).
  - destruct (IH (limit - length (utf8_encode_char c))%nat) as (rest & Hline & Hlen). exists rest. split.
    + by rewrite Hline at 1.
    + rewrite byte_len_cons. lia.
  - exists (c :: line). split; [done|]. unfold byte_len. simpl. lia.
Qed.
Lemma line_feeds_app s t : line_feeds (s ++ t) = (line_feeds s + line_feeds t)%nat.
Proof. apply countb_app. Qed.
Lemma truncate_lines_spec max_bytes max_lines lines :
  Forall (λ line, line ≠ [] ∧ (line_feeds line ≤ 1)%nat) lines →
  ∃ rest, concat lines = (truncate_lines max_bytes max_lines lines).1 ++ rest ∧
    ((truncate_lines max_bytes max_lines lines).2 = false ↔ rest = []) ∧
    (byte_len (truncate_lines max_bytes max_lines lines).1 ≤ max_bytes)%nat ∧
    (line_feeds (truncate_lines max_bytes max_lines lines).1 ≤ max_lines)%nat.
Proof.
  intros Hlines. revert max_bytes max_lines. induction Hlines as [|line lines [Hne Hfeeds] _ IH]; intros max_bytes max_lines.
  { exists []. destruct max_lines; (split_and!; [done|by split|unfold byte_len; simpl; lia|unfold line_feeds; simpl; rewrite countb_nil; lia]). }
  destruct max_lines as [|max_lines]; cbn [truncate_lines].
  { exists (concat (line :: lines)). split_and!; [done| |unfold byte_len; simpl; lia|unfold line_feeds; simpl; rewrite countb_nil; lia].
    split; [done|]. simpl. by intros [? _]%app_eq_nil. }
  destruct (Nat.leb_spec (byte_len line) max_bytes) as [Hfits|Hlong].
  - destruct (IH (max_bytes - byte_len line)%nat max_lines) as (rest & Hconcat & Hflag & Hbytes & Hcount).
    destruct (truncate_lines _ max_lines lines) as [kept truncated]. simpl in *. exists rest.
    rewrite Hconcat, byte_len_app, line_feeds_app. split_and!; [by rewrite app_assoc|done|lia|lia].
  - destruct (take_bytes_spec max_bytes line) as (rest & Hline & Hbytes). exists (rest ++ concat lines). cbn [fst snd].
    split_and!; [simpl; by rewrite app_assoc, <-Hline| |done|].
    + split; [done|]. intros [-> _]%app_eq_nil. rewrite app_nil_r in Hline. rewrite Hline in Hlong. lia.
    + rewrite Hline in Hfeeds. rewrite line_feeds_app in Hfeeds. lia.
Qed.

(** Returned text is bounded and honest.  What is returned of a
    command's output is a beginning of it, cut between characters, of at most the
    bytes and at most the lines that were asked for; it is not marked as truncated
    exactly when it is all of the output; and the size that is reported is that of
    the whole. *)
Theorem truncated_text_is_honest text max_bytes max_lines :
  let '(kept, truncated, output_bytes, _) := truncate_text text max_bytes max_lines in
  (∃ rest, text = kept ++ rest) ∧ (byte_len kept ≤ max_bytes)%nat ∧ (line_feeds kept ≤ max_lines)%nat ∧
  (truncated = false ↔ kept = text) ∧ output_bytes = byte_len text.
Proof.
  unfold truncate_text.
  destruct (truncate_lines_spec max_bytes max_lines _ (split_inclusive_lines text)) as (rest & Hconcat & Hflag & Hbytes & Hcount).
  rewrite split_inclusive_concat in Hconcat. destruct (truncate_lines _ _ _) as [kept truncated]. cbn [fst snd] in *.
  split_and!; [by exists rest|done|done| |done]. rewrite orb_false_iff, Hflag. split.
  - intros [-> _]. by rewrite app_nil_r in Hconcat.
  - intros <-. split; [|apply Nat.ltb_irrefl]. destruct rest; [done|]. apply (f_equal length) in Hconcat.
    rewrite length_app in Hconcat. simpl in Hconcat. lia.
Qed.

(** ** Concrete output *)

#[local] Existing Instance demo_json.
Definition demo_status : list StatusLine :=
  [MkStatusLine 0x20 0x4D (lit "a b -> c.rs") None; MkStatusLine 0x52 0x20 (text "新.rs") (Some (lit "old.rs"));
   MkStatusLine 0x3F 0x3F (lit "x" ++ LF) None].
Lemma status_roundtrip_witness :
  parse_status_porcelain_v1_z (print_status (lit "## main...origin/main [ahead 2, behind 13]") demo_status) false =
  Ok (parse_branch_line (lit "## main...origin/main [ahead 2, behind 13]"),
      map (λ l, status_entry (sl_index l) (sl_worktree l) (sl_path l) (sl_original l)) demo_status).
Proof.
  apply status_roundtrip; [by apply (bool_decide_unpack _); vm_compute..|].
  repeat constructor; by apply (bool_decide_unpack _); vm_compute.
Defined.
Example branch_line_is_read :
  parse_branch_line (lit "## main...origin/main [ahead 2, behind 13]") = (Some (lit "main"), Some (lit "origin/main"), 2, 13).
Proof. reflexivity. Qed.
Definition demo_changed : list FileChange :=
  [MkFileChange 0x4D [] None (lit "a.rs") (Some (lit "1", lit "20")); MkFileChange 0x52 (lit "087") (Some (lit "b.png")) (text "图.png") None].
Lemma changed_files_roundtrip_witness :
  file_metadata (print_names demo_changed) (print_numstat demo_changed) =
  map (λ c, obj [("path", json_string (fc_path c)); ("status", js (status_word (fc_kind c)));
                 ("binary", json_bool (bool_decide (fc_counts c = None)))]%string) demo_changed.
Proof.
  apply changed_files_roundtrip; [|by apply (bool_decide_unpack _); vm_compute].
  repeat constructor; by apply (bool_decide_unpack _); vm_compute.
Defined.

(** Output that was cut in the middle of a record: its path is reported as far as
    it goes, as if it were the path of a changed file. *)
Example cut_path_is_reported :
  parse_status_porcelain_v1_z (lit "## main" ++ 0 :: lit " M src/parser.rs" ++ 0 :: lit " M src/pri") true =
  Ok ((Some (lit "main"), None, 0, 0),
      [status_entry 0x20 0x4D (lit "src/parser.rs") None; status_entry 0x20 0x4D (lit "src/pri") None]).
Proof. vm_compute. reflexivity. Qed.
(** In a repository that names its commits by SHA-256, a row of the blame has
    neither its commit nor its line. *)
Example long_hashes_are_not_named :
  parse_blame_porcelain (replicate 64 0x61 ++ lit " 1 1 1" ++ LF ++ lit "author A" ++ LF ++ [0x9] ++ lit "x" ++ LF) =
  [blame_row {["author"%string := json_string (lit "A")]} (lit "x")].
Proof. vm_compute. reflexivity. Qed.
