(* ===== verification/GitAdapter.v ===== *)
(** * GitAdapter: the git tools

    [src/src-tauri/src/workspace/git_adapter.rs].  A path of a request is resolved
    inside the authority, the repository around it is found and checked, and git is
    run there with a bound on its time and output; what it prints is read by
    [GitRecords].  Running git is an interface; the runs that were made are
    recorded, with their directory and arguments. *)

From stdpp Require Import pretty.
From S2P Require Import Prelude Text WindowsPath HostFs PathAuthority Json GitRecords.
From S2P Require Supervisor.
#[local] Open Scope N_scope.

Definition number_text (n : N) : ustr := lit (pretty n).

(* @src workspace/git_adapter.rs:15-15 MAX_CAPTURE_BYTES *)
Definition MAX_CAPTURE_BYTES : N := 1048576.
(* @src workspace/git_adapter.rs:16-16 DEFAULT_TEXT_BYTES *)
Definition DEFAULT_TEXT_BYTES : N := 262144.
(* @src workspace/git_adapter.rs:17-17 DEFAULT_MAX_LINES *)
Definition DEFAULT_MAX_LINES : nat := 2000.

(* @src workspace/git_adapter.rs:80-87 ResolveError *)
Inductive ResolveError :=
  | ReInvalidPath | ReNotFound | ReOutsideWorkspace | ReReparseEscape | ReRepositoryMismatch | ReInvalidRepository.

(* @src workspace/git_adapter.rs:90-95 ResolvedLocation *)
Record ResolvedLocation := MkResolvedLocation {
  rl_canonical : Path;
  rl_discovery_dir : Path;
  rl_is_dir : bool;
  rl_display : ustr
}.
(* @src workspace/git_adapter.rs:98-101 GitRepository *)
Record GitRepository := MkGitRepository { rp_canonical_root : Path; rp_execution_root : Path }.
(* @src workspace/git_adapter.rs:104-108 ResolvedRepositoryLocation *)
Record ResolvedRepositoryLocation := MkResolvedRepositoryLocation {
  rr_repository : GitRepository;
  rr_location : ResolvedLocation;
  rr_pathspec : option ustr
}.

(** One run of git. *)
Record GitRun := MkGitRun { gr_directory : Path; gr_args : list ustr }.
(* @src workspace/git_adapter.rs:814-819 GitOutput *)
Definition GitOutput : Type := Supervisor.BoundedCommandOutput.

(** What running git gives (an error is a message), and the directories of
    [PATH]. *)
Class Git := {
  git_answers : nat → Path → GitRun → N → result ustr GitOutput;
  path_directories : list Path
}.

(** [is_verbatim_path] of a [PathBuf]. *)
(* @src workspace/git_adapter.rs:1265-1269 is_verbatim_path *)
Definition path_is_verbatim (p : Path) : bool :=
  match p with PrefixComponent (Verbatim _ | VerbatimUNC _ _ | VerbatimDisk _) :: _ => true | _ => false end.

(** [PathBuf::join]; on a verbatim path the components are resolved at once. *)
Definition push_verbatim (base : Path) (c : Component) : Path :=
  match c with
  | RootDir => take 1 base ++ [RootDir]
  | CurDir => base
  | ParentDir => match last base with Some (Normal _) => removelast base | _ => base end
  | c => base ++ [c]
  end.
Definition join_path (base : Path) (value : ustr) : Path :=
  if is_absolute value || bool_decide (is_Some (parse_prefix value)) then components value
  else if path_is_verbatim base then foldl push_verbatim base (components value)
  else match components value with
       | RootDir :: rest => take 1 base ++ RootDir :: rest
       | rest => join_relative base rest
       end.

(* @src workspace/git_adapter.rs:805-811 authority_error *)
Definition authority_error (error : PathAuthorityError) : ResolveError :=
  match error with
  | PathInvalid => ReInvalidPath
  | PathNotFound => ReNotFound
  | PathOutsideAuthority => ReOutsideWorkspace
  end.

Section resolution.
Context `{Windows} `{Faults}.

Definition os_metadata (p : Path) : M IoError Node :=
  query (λ fs, ok_or IoNotFound (f ← follows fs p; fs !! f)).
Definition os_is_file {E} (p : Path) : M E bool :=
  r ← try (os_metadata p); mret match r with Ok n => node_is_file n | Err _ => false end.
Definition os_read_to_string (p : Path) : M IoError ustr :=
  query (λ fs,
    n ← ok_or IoNotFound (f ← follows fs p; fs !! f);
    if nd_directory n then Err IoOther else ok_or IoOther (utf8_decode (nd_content n))).
Definition os_symlink_exists {E} (p : Path) : M E bool :=
  r ← try (os_symlink_metadata p); mret (is_ok r).

(** The handle of [CreateFileW] follows links. *)
(* @src workspace/validator.rs:87-128 inspect_workspace_path *)
Definition inspect_directory (path : Path) : M ResolveError (WindowsFileIdentity * Path) :=
  map_error (λ _, ReInvalidRepository) (
    handle ← query (λ fs, ok_or IoNotFound (follows fs path));
    node ← os_node handle;
    _ ← ensure (nd_directory node) IoOther;
    resolved ← query (λ _, Ok (verbatim handle));
    identity ← query (λ fs, Ok (file_index fs handle));
    mret (identity, resolved)).
(* @src workspace/validator.rs:64-79 WorkspaceValidator::validate *)
Definition validate_directory (path : Path) : M ResolveError Path :=
  inspected ← inspect_directory path;
  execution_path ← unwrap (ordinary_path inspected.2) ReInvalidRepository;
  execution ← inspect_directory execution_path;
  _ ← ensure (bool_decide (execution.1 = inspected.1)) ReInvalidRepository;
  mret execution_path.

(* @src workspace/git_adapter.rs:276-289 nearest_existing_ancestor, the loop *)
Fixpoint ancestor_loop (fuel : nat) (current : Path) (suffix : list ustr) :
    M ResolveError (Path * list ustr * bool) :=
  match fuel with
  | O => throw ReNotFound
  | S fuel =>
      name ← unwrap (path_file_name current) ReNotFound;
      parent ← unwrap (path_parent current) ReNotFound;
      exists_ ← os_symlink_exists parent;
      if (exists_ : bool) then mret (parent, name :: suffix, false)
      else ancestor_loop fuel parent (name :: suffix)
  end.
(* @src workspace/git_adapter.rs:268-290 nearest_existing_ancestor *)
Definition nearest_existing_ancestor (candidate : Path) : M ResolveError (Path * list ustr * bool) :=
  exists_ ← os_symlink_exists candidate;
  if (exists_ : bool) then mret (candidate, [], true) else ancestor_loop (S (length candidate)) candidate [].

(* @src workspace/git_adapter.rs:134-189 GitRepositoryResolver::resolve *)
Definition resolve (self : WorkspaceResolver) (raw : ustr) (allow_missing : bool) :
    M ResolveError ResolvedLocation :=
  candidate ← map_error authority_error (input_path self raw);
  nearest ← nearest_existing_ancestor candidate;
  let '(existing, suffix, full_exists) := nearest in
  _ ← ensure (allow_missing || full_exists) ReNotFound;
  canonical_existing ← map_error (λ _, ReNotFound) (os_canonicalize existing);
  _ ← ensure (allows_canonical self canonical_existing) ReOutsideWorkspace;
  metadata ← map_error (λ _, ReNotFound) (os_metadata existing);
  _ ← ensure (node_is_dir metadata || bool_decide (suffix = [])) ReNotFound;
  let canonical := foldl join_name canonical_existing suffix in
  _ ← ensure (allows_canonical self canonical) ReOutsideWorkspace;
  full_metadata ← (if (full_exists : bool) then try (os_metadata candidate) else mret (Err IoNotFound));
  let is_dir := match full_metadata with Ok node => node_is_dir node | Err _ => false end in
  discovery_dir ←
    (if full_exists && negb is_dir then unwrap (path_parent canonical) ReInvalidPath
     else if (full_exists : bool) then mret canonical
     else if node_is_dir metadata then mret canonical_existing
     else throw ReNotFound);
  display ← map_error authority_error (lift (display_path self canonical));
  mret (MkResolvedLocation canonical discovery_dir is_dir (if bool_decide (display = []) then lit "." else display)).

(** [.lines().find_map(..).filter(..)]. *)
Definition gitdir_target (content : ustr) : option ustr :=
  target ← find_map (λ line, trim <$> strip_prefix (lit "gitdir:") (trim line)) (lines content);
  if bool_decide (target = []) then None else Some target.
(* @src workspace/git_adapter.rs:292-306 validate_git_marker, the file *)
Definition validate_marker_target (repository : Path) (authority : WorkspaceResolver) (content : ustr) : M ResolveError unit :=
  target ← unwrap (gitdir_target content) ReInvalidRepository;
  let target := if is_absolute target then components target else join_path repository target in
  canonical ← map_error (λ _, ReInvalidRepository) (os_canonicalize target);
  ensure (allows_canonical authority canonical) ReReparseEscape.
(* @src workspace/git_adapter.rs:270-306 validate_git_marker *)
Definition validate_git_marker (marker repository : Path) (authority : WorkspaceResolver) : M ResolveError unit :=
  metadata ← map_error (λ _, ReInvalidRepository) (os_symlink_metadata marker);
  _ ← ensure (negb (nd_symlink metadata)) ReReparseEscape;
  if node_is_dir metadata then
    canonical ← map_error (λ _, ReInvalidRepository) (os_canonicalize marker);
    ensure (allows_canonical authority canonical) ReReparseEscape
  else
    _ ← ensure (node_is_file metadata) ReInvalidRepository;
    content ← map_error (λ _, ReInvalidRepository) (os_read_to_string marker);
    validate_marker_target repository authority content.

(* @src workspace/git_adapter.rs:218-237 GitRepositoryResolver::discover_repository, one that is found *)
Definition accept_repository (self : WorkspaceResolver) (current : Path) : M ResolveError GitRepository :=
  _ ← validate_git_marker (join_name current (lit ".git")) current self;
  execution_root ← validate_directory current;
  _ ← ensure (negb (path_is_verbatim execution_root)) ReInvalidRepository;
  canonical_execution ← map_error (λ _, ReInvalidRepository) (os_canonicalize execution_root);
  _ ← ensure (bool_decide (canonical_execution = current) && allows_canonical self canonical_execution) ReReparseEscape;
  mret (MkGitRepository current execution_root).
(* @src workspace/git_adapter.rs:210-245 GitRepositoryResolver::discover_repository *)
Fixpoint discover_loop (fuel : nat) (self : WorkspaceResolver) (current : Path) : M ResolveError (option GitRepository) :=
  match fuel with
  | O => mret None
  | S fuel =>
      _ ← ensure (allows_canonical self current) ReOutsideWorkspace;
      marked ← os_symlink_exists (join_name current (lit ".git"));
      if (marked : bool) then repository ← accept_repository self current; mret (Some repository)
      else if discovery_stops_at self current then mret None
      else match path_parent current with
           | Some parent => discover_loop fuel self parent
           | None => mret None
           end
  end.
Definition discover_repository (self : WorkspaceResolver) (start : Path) : M ResolveError (option GitRepository) :=
  discover_loop (S (length start)) self start.

(* @src workspace/git_adapter.rs:1260-1262 path_to_slashes *)
Definition path_to_slashes (p : Path) : ustr := slash_text p.

(* @src workspace/git_adapter.rs:191-208 GitRepositoryResolver::repository_for *)
Definition repository_for (self : WorkspaceResolver) (location : ResolvedLocation) :
    M ResolveError (option ResolvedRepositoryLocation) :=
  found ← discover_repository self (rl_discovery_dir location);
  match found with
  | None => mret None
  | Some repository =>
      pathspec ← unwrap (path_to_slashes <$> path_strip_prefix (rp_canonical_root repository) (rl_canonical location))
        ReRepositoryMismatch;
      mret (Some (MkResolvedRepositoryLocation repository location (if bool_decide (pathspec = []) then None else Some pathspec)))
  end.

(* @src workspace/git_adapter.rs:1216-1235 resolve_pathspecs_in_repository *)
Fixpoint resolve_pathspecs_in_repository (self : WorkspaceResolver) (repository : GitRepository) (filters : list ustr) :
    M ResolveError (list ustr) :=
  match filters with
  | [] => mret []
  | raw :: filters =>
      location ← resolve self raw true;
      found ← repository_for self location;
      match found with
      | None => throw ReRepositoryMismatch
      | Some resolved =>
          _ ← ensure (bool_decide (rp_canonical_root (rr_repository resolved) = rp_canonical_root repository)) ReRepositoryMismatch;
          pathspecs ← resolve_pathspecs_in_repository self repository filters;
          mret (match rr_pathspec resolved with Some pathspec => pathspec :: pathspecs | None => pathspecs end)
      end
  end.
End resolution.

(** ** Answers *)

Section answers.
Context `{Json}.

(* @src workspace/git_adapter.rs:880-890 tool_error *)
Definition tool_error (code message : ustr) : json :=
  obj [("content", json_array [obj [("type", js "text"); ("text", json_string (code ++ lit ": " ++ message))]%string]);
       ("structuredContent", obj [("ok", json_bool false);
          ("error", obj [("code", json_string code); ("message", json_string message); ("category", js "runtime");
                         ("retryable", json_bool false); ("details", obj [])]%string)]%string);
       ("isError", json_bool true)]%string.

(* @src workspace/git_adapter.rs:791-803 resolve_error *)
Definition resolve_error (error : ResolveError) : json :=
  match error with
  | ReNotFound => tool_error (lit "NOT_FOUND") (text "Git 路径不存在")
  | ReOutsideWorkspace | ReReparseEscape => tool_error (lit "OUTSIDE_WORKSPACE") (text "Git 路径超出已授权工作区")
  | ReRepositoryMismatch => tool_error (lit "INVALID_ARGUMENT") (text "Git 路径不属于同一仓库")
  | ReInvalidRepository => tool_error (lit "GIT_ERROR") (text "Git 仓库元数据无效")
  | ReInvalidPath => tool_error (lit "INVALID_ARGUMENT") (text "Git 路径无效")
  end.

(* @src workspace/git_adapter.rs:852-866 git_failure *)
Definition git_failure (output : GitOutput) : json :=
  if Supervisor.bo_timed_out output then tool_error (lit "GIT_TIMEOUT") (text "Git 命令执行超时")
  else
    let message := trim (utf8_lossy (Supervisor.bo_output output)) in
    tool_error (lit "GIT_ERROR") (if bool_decide (message = []) then text "Git 命令执行失败" else message).

Definition text_of (key : string) (otherwise : ustr) (v : json) : ustr := default otherwise (get_str (lit key) v).
Definition nonempty_or (otherwise : ustr) (value : option ustr) : ustr :=
  match value with Some ((_ :: _) as value) => value | _ => otherwise end.
(* @src workspace/git_adapter.rs:892-978 render_text *)
Definition render_text (name : string) (payload : json) : ustr :=
  let rows key := get (lit key) payload ≫= as_array in
  if bool_decide (name = "git_status"%string) then
    let entries := default [] (rows "entries"%string) in
    join LF ((lit "## " ++ text_of "branch" (lit "detached") payload) ::
      match entries with
      | [] => [lit "Working tree clean."]
      | _ => map (λ entry, text_of "index_status" (lit " ") entry ++ text_of "worktree_status" (lit " ") entry ++
                           lit " " ++ text_of "path" [] entry) entries
      end)
  else if bool_decide (name = "git_diff"%string) then nonempty_or (lit "No diff.") (get_str (lit "diff") payload)
  else if bool_decide (name = "git_show"%string) then nonempty_or (lit "No output.") (get_str (lit "content") payload)
  else if bool_decide (name = "git_log"%string) then
    nonempty_or (lit "No commits found.") ((λ commits, join LF (map (λ commit,
      text_of "short_hash" [] commit ++ lit " " ++ text_of "subject" [] commit) commits)) <$> rows "commits"%string)
  else if bool_decide (name = "git_blame"%string) then
    nonempty_or (lit "No blame lines found.") ((λ lines, join LF (map (λ line,
      number_text (default 0 (get (lit "line") line ≫= as_u64)) ++ lit " " ++ text_of "commit" [] line ++ lit " " ++
      text_of "content" [] line) lines)) <$> rows "lines"%string)
  else [].

(* @src workspace/git_adapter.rs:868-878 tool_success *)
Definition tool_success (name : string) (members : list (string * json)) : json :=
  let payload := obj (("ok"%string, json_bool true) :: members) in
  obj [("content", json_array [obj [("type", js "text"); ("text", json_string (render_text name payload))]%string]);
       ("structuredContent", payload); ("isError", json_bool false)]%string.

(* @src workspace/git_adapter.rs:1241-1243 string_arg *)
Definition string_arg (arguments : gmap ustr json) (key : string) : option ustr := arguments !! lit key ≫= as_str.
(* @src workspace/git_adapter.rs:1244-1249 bool_arg *)
Definition bool_arg (arguments : gmap ustr json) (key : string) (absent : bool) : bool :=
  default absent (arguments !! lit key ≫= as_bool).
(* @src workspace/git_adapter.rs:1250-1256 usize_arg *)
Definition usize_arg (arguments : gmap ustr json) (key : string) (absent : N) : N :=
  default absent (arguments !! lit key ≫= as_u64).
(* @src workspace/git_adapter.rs:1208-1214 path_filters *)
Definition path_filters (arguments : gmap ustr json) : list ustr :=
  match arguments !! lit "paths" ≫= as_array with Some paths => omap as_str paths | None => [] end.
Definition clamp (low high n : N) : N := N.min (N.max n low) high.
End answers.

(** ** Running git *)

Section tools.
Context `{Windows} `{Faults} `{Json} `{Git}.

(** The runs so far; [Err] is an answer that ends the tool early, [None] that
    there is no repository. *)
Abbreviation G := (ST (World * list GitRun)).

(* @src workspace/git_adapter.rs:843-850 find_git_executable *)
Fixpoint find_git_executable (directories : list Path) : M ustr (option Path) :=
  match directories with
  | [] => mret None
  | directory :: directories =>
      if negb (path_is_absolute directory && negb (path_is_verbatim directory)) then find_git_executable directories else
      let candidate := join_name directory (lit "git.exe") in
      file ← (if path_is_verbatim candidate then mret false else os_is_file candidate);
      if (file : bool) then mret (Some candidate) else find_git_executable directories
  end.

(* @src workspace/git_adapter.rs:827-840 run_git, the process *)
Definition git_process (executable : Path) (repository : GitRepository) (args : list ustr) (max_bytes : N) :
    G ustr GitOutput := λ '(w, runs),
  let run := MkGitRun (rp_execution_root repository) args in
  ((w <| w_calls ::= S |>, runs ++ [run]),
   map_err (app (text "Git 进程执行失败: "))
     (git_answers (w_calls w) executable run (clamp 1 MAX_CAPTURE_BYTES max_bytes))).
(* @src workspace/git_adapter.rs:821-841 run_git *)
Definition run_git (repository : GitRepository) (args : list ustr) (max_bytes : N) : G ustr GitOutput :=
  found ← on_world (find_git_executable path_directories);
  executable ← unwrap found (text "找不到可执行的 git.exe");
  git_process executable repository args max_bytes.
Definition succeeded (output : GitOutput) : bool :=
  (Supervisor.bo_exit_code output =? 0) && negb (Supervisor.bo_timed_out output).
(** [match run_git(..) { Ok(output) if .. => output, .. => return .. }]. *)
Definition git (repository : GitRepository) (args : list ustr) (max_bytes : N) : G (option json) GitOutput :=
  output ← map_error (λ message, Some (tool_error (lit "GIT_ERROR") message)) (run_git repository args max_bytes);
  if succeeded output then mret output else throw (Some (git_failure output)).

Definition resolving {A} (m : M ResolveError A) : G (option json) A :=
  map_error (λ e, Some (resolve_error e)) (on_world m).
(** The repository around a path, or the end of the tool. *)
Definition resolve_repository (self : WorkspaceResolver) (raw : ustr) : G (option json) ResolvedRepositoryLocation :=
  location ← resolving (resolve self raw false);
  found ← resolving (repository_for self location);
  unwrap found None.

(* @src workspace/git_adapter.rs:308-371 git_status *)
Definition git_status (self : WorkspaceResolver) (arguments : gmap ustr json) : G (option json) json :=
  resolved ← resolve_repository self (default (lit ".") (string_arg arguments "path"));
  let max_entries := clamp 1 10000 (usize_arg arguments "max_entries" 1000) in
  let args := [lit "--no-pager"; lit "status"; lit "--porcelain=v1"; lit "-b"; lit "-z"] ++
    (if bool_arg arguments "include_untracked" true then [] else [lit "--untracked-files=no"]) in
  status ← git (rr_repository resolved) args MAX_CAPTURE_BYTES;
  parsed ← lift (map_err (λ message, Some (tool_error (lit "GIT_ERROR") (lit message)))
    (parse_status_porcelain_v1_z (Supervisor.bo_output status) (Supervisor.bo_truncated status)));
  let '((branch, upstream, ahead, behind), entries) := parsed in
  let truncated := Supervisor.bo_truncated status || (max_entries <? N.of_nat (length entries)) in
  let entries := take (N.to_nat max_entries) entries in
  head ← try (F := option json) (run_git (rr_repository resolved) [lit "--no-pager"; lit "rev-parse"; lit "HEAD"] 256);
  let head :=
    match head with
    | Ok output =>
        if Supervisor.bo_exit_code output =? 0 then
          match trim (utf8_lossy (Supervisor.bo_output output)) with [] => None | value => Some value end
        else None
    | Err _ => None
    end in
  let root := match display_path self (rp_canonical_root (rr_repository resolved)) with Ok display => display | Err _ => lit "." end in
  mret (tool_success "git_status"
    [("is_repo", json_bool true); ("path", json_string (rl_display (rr_location resolved)));
     ("repository_root", json_string (match root with [] => lit "." | _ => root end));
     ("branch", jopt json_string branch); ("head", jopt json_string head); ("upstream", jopt json_string upstream);
     ("ahead", jn ahead); ("behind", jn behind); ("clean", json_bool (bool_decide (length entries = 0%nat)));
     ("entries", json_array entries); ("truncated", json_bool truncated)]%string).

(* @src workspace/git_adapter.rs:1011-1045 machine_file_metadata *)
Definition machine_file_metadata (repository : GitRepository) (name_status_args numstat_args : list ustr) :
    G (option json) (list json) :=
  names ← git repository name_status_args MAX_CAPTURE_BYTES;
  _ ← ensure (negb (Supervisor.bo_truncated names))
        (Some (tool_error (lit "GIT_ERROR") (lit "Git file metadata exceeded the bounded capture limit")));
  numstat ← git repository numstat_args MAX_CAPTURE_BYTES;
  _ ← ensure (negb (Supervisor.bo_truncated numstat))
        (Some (tool_error (lit "GIT_ERROR") (lit "Git binary metadata exceeded the bounded capture limit")));
  mret (file_metadata (Supervisor.bo_output names) (Supervisor.bo_output numstat)).

(** [--] and the paths, if there are any. *)
Definition path_args (pathspecs : list ustr) : list ustr :=
  match pathspecs with [] => [] | _ => lit "--" :: pathspecs end.
Definition DIFF : list ustr := [lit "--no-pager"; lit "diff"; lit "--no-ext-diff"; lit "--no-textconv"].
Definition SHOW : list ustr := [lit "--no-pager"; lit "show"; lit "--no-ext-diff"; lit "--no-textconv"].

(** What has been collected of the diffs. *)
Record Diff := MkDiff { df_combined : ustr; df_files : list json; df_truncated : bool }.
(* @src workspace/git_adapter.rs:456-514 git_diff, the loop *)
Definition diff_pass (repository : GitRepository) (pathspecs : list ustr) (context_lines max_bytes : N)
    (cached : bool) (diff : Diff) : G (option json) Diff :=
  let cached_arg := if cached then [lit "--cached"] else [] in
  output ← git repository (DIFF ++ [lit "--unified=" ++ number_text context_lines] ++ cached_arg ++ path_args pathspecs) max_bytes;
  let separator := if negb (bool_decide (df_combined diff = [])) && is_nonempty (Supervisor.bo_output output) then LF else [] in
  batch ← machine_file_metadata repository (DIFF ++ [lit "--name-status"; lit "-z"] ++ cached_arg ++ path_args pathspecs)
            (DIFF ++ [lit "--numstat"; lit "-z"] ++ cached_arg ++ path_args pathspecs);
  mret (MkDiff (df_combined diff ++ separator ++ utf8_lossy (Supervisor.bo_output output)) (df_files diff ++ batch)
          (df_truncated diff || Supervisor.bo_truncated output)).
Definition truncated_by (truncated : bool) : json := if truncated then js "bytes_or_lines" else json_null.
Definition warnings (warning : string) (truncated : bool) : json := json_array (if truncated then [js warning] else []).

(* @src workspace/git_adapter.rs:433-538 git_diff *)
Definition git_diff (self : WorkspaceResolver) (arguments : gmap ustr json) : G (option json) json :=
  context ← resolve_repository self (default (lit ".") (string_arg arguments "path"));
  let repository := rr_repository context in
  pathspecs ← resolving (resolve_pathspecs_in_repository self repository (path_filters arguments));
  let context_lines := N.min (usize_arg arguments "context_lines" 3) 20 in
  let max_bytes := clamp 1 MAX_CAPTURE_BYTES (usize_arg arguments "max_bytes" DEFAULT_TEXT_BYTES) in
  let pass cached := diff_pass repository pathspecs context_lines max_bytes cached in
  diff ← (if bool_arg arguments "unstaged" true then pass false (MkDiff [] [] false) else mret (MkDiff [] [] false));
  diff ← (if bool_arg arguments "staged" false then pass true diff else mret diff);
  let '(content, text_truncated, output_bytes, output_lines) :=
    truncate_text (df_combined diff) (N.to_nat max_bytes) DEFAULT_MAX_LINES in
  let truncated := df_truncated diff || text_truncated in
  mret (tool_success "git_diff"
    [("diff", json_string content); ("files", json_array (df_files diff)); ("truncated", json_bool truncated);
     ("truncated_by", truncated_by truncated); ("output_bytes", jn (N.of_nat output_bytes));
     ("output_lines", jn (N.of_nat output_lines)); ("warnings", warnings "diff truncated" truncated)]%string).

(** One commit, of fields separated by [\x1f]. *)
(* @src workspace/git_adapter.rs:577-589 git_log, a commit *)
Definition log_commit (record : ustr) : option json :=
  match split_on (N.eqb 0x1F) (trim_matches (λ c, (c =? 0x0D) || (c =? 0x0A)) record) with
  | hash :: short_hash :: author_name :: author_email :: author_date :: subject :: _ =>
      Some (obj [("hash", json_string hash); ("short_hash", json_string short_hash); ("author_name", json_string author_name);
                 ("author_email", json_string author_email); ("author_date", json_string author_date);
                 ("subject", json_string subject)]%string)
  | _ => None
  end.
Definition LOG_FORMAT : ustr := lit "--pretty=format:%H%x1f%h%x1f%an%x1f%ae%x1f%ad%x1f%s%x1e".
Definition invalid_argument (message : string) : option json := Some (tool_error (lit "INVALID_ARGUMENT") (text message)).

(* @src workspace/git_adapter.rs:540-607 git_log *)
Definition git_log (self : WorkspaceResolver) (arguments : gmap ustr json) : G (option json) json :=
  let raw := default (lit ".") (string_arg arguments "path") in
  resolved ← resolve_repository self raw;
  let reference := default (lit "HEAD") (string_arg arguments "ref") in
  _ ← ensure (valid_git_ref reference) (invalid_argument "无效 Git ref");
  let max_count := clamp 1 100 (usize_arg arguments "max_count" 20) in
  let skip := usize_arg arguments "skip" 0 in
  output ← git (rr_repository resolved)
    [lit "--no-pager"; lit "log"; lit "--max-count=" ++ number_text (max_count + 1); lit "--skip=" ++ number_text skip;
     lit "--date=iso-strict"; LOG_FORMAT; reference] MAX_CAPTURE_BYTES;
  let commits := omap log_commit (split_on (N.eqb 0x1E) (utf8_lossy (Supervisor.bo_output output))) in
  let truncated := Supervisor.bo_truncated output || (max_count <? N.of_nat (length commits)) in
  let next_action :=
    if truncated then
      obj [("tool", js "git_log");
           ("arguments", obj [("path", json_string raw); ("ref", json_string reference); ("max_count", jn max_count);
                              ("skip", jn (wrapping_add usize_max skip max_count))]%string)]%string
    else json_null in
  mret (tool_success "git_log"
    [("is_repo", json_bool true); ("ref", json_string reference); ("path", json_string (rl_display (rr_location resolved)));
     ("max_count", jn max_count); ("skip", jn skip); ("commits", json_array (take (N.to_nat max_count) commits));
     ("truncated", json_bool truncated); ("warnings", warnings "git log output truncated" (Supervisor.bo_truncated output));
     ("next_action", next_action)]%string).

(* @src workspace/git_adapter.rs:609-702 git_show *)
Definition git_show (self : WorkspaceResolver) (arguments : gmap ustr json) : G (option json) json :=
  context ← resolve_repository self (default (lit ".") (string_arg arguments "path"));
  let repository := rr_repository context in
  pathspecs ← resolving (resolve_pathspecs_in_repository self repository (path_filters arguments));
  let reference := default (lit "HEAD") (string_arg arguments "rev") in
  _ ← ensure (valid_git_ref reference) (invalid_argument "无效 Git rev");
  let context_lines := N.min (usize_arg arguments "context_lines" 3) 20 in
  let max_bytes := clamp 1 MAX_CAPTURE_BYTES (usize_arg arguments "max_bytes" DEFAULT_TEXT_BYTES) in
  output ← git repository (SHOW ++ [lit "--format=fuller"; lit "--unified=" ++ number_text context_lines] ++
    (if bool_arg arguments "include_patch" true then [] else [lit "--no-patch"]) ++ [reference] ++ path_args pathspecs) max_bytes;
  files ← machine_file_metadata repository
    (SHOW ++ [lit "--format="; lit "--name-status"; lit "-z"; reference] ++ path_args pathspecs)
    (SHOW ++ [lit "--format="; lit "--numstat"; lit "-z"; reference] ++ path_args pathspecs);
  let '(content, text_truncated, output_bytes, output_lines) :=
    truncate_text (utf8_lossy (Supervisor.bo_output output)) (N.to_nat max_bytes) DEFAULT_MAX_LINES in
  let truncated := Supervisor.bo_truncated output || text_truncated in
  mret (tool_success "git_show"
    [("is_repo", json_bool true); ("rev", json_string reference); ("content", json_string content); ("files", json_array files);
     ("truncated", json_bool truncated); ("truncated_by", truncated_by truncated);
     ("output_bytes", jn (N.of_nat output_bytes)); ("output_lines", jn (N.of_nat output_lines));
     ("warnings", warnings "git show output truncated" truncated)]%string).

(* @src workspace/git_adapter.rs:704-789 git_blame *)
Definition git_blame (self : WorkspaceResolver) (arguments : gmap ustr json) : G (option json) json :=
  raw ← unwrap (string_arg arguments "path") (invalid_argument "git_blame 需要 path");
  location ← resolving (resolve self raw false);
  _ ← ensure (negb (rl_is_dir location)) (Some (tool_error (lit "IS_DIRECTORY") (text "git_blame path 必须是文件")));
  found ← resolving (repository_for self location);
  resolved ← unwrap found None;
  pathspec ← unwrap (rr_pathspec resolved) (invalid_argument "git_blame path 必须是仓库文件");
  let reference := string_arg arguments "rev" in
  _ ← ensure (match reference with Some value => valid_git_ref value | None => true end) (invalid_argument "无效 Git rev");
  let start_line := N.max (usize_arg arguments "start_line" 1) 1 in
  let max_lines := clamp 1 2000 (usize_arg arguments "max_lines" 200) in
  let max_end := saturating_sub (saturating_add usize_max start_line max_lines) 1 in
  let requested_end := default max_end (arguments !! lit "end_line" ≫= as_u64) in
  _ ← ensure (start_line <=? requested_end) (invalid_argument "end_line 不能小于 start_line");
  let end_line := N.min requested_end max_end in
  output ← git (rr_repository resolved)
    ([lit "--no-pager"; lit "blame"; lit "--line-porcelain"; lit "--no-textconv"; lit "-L";
      number_text start_line ++ lit "," ++ number_text end_line] ++
     match reference with Some reference => [reference] | None => [] end ++ [lit "--"; pathspec]) MAX_CAPTURE_BYTES;
  let rows := parse_blame_porcelain (utf8_lossy (Supervisor.bo_output output)) in
  let truncated := Supervisor.bo_truncated output || (end_line <? requested_end) || (max_lines <? N.of_nat (length rows)) in
  let rows := take (N.to_nat max_lines) rows in
  let actual_end := (last rows ≫= get (lit "line")) ≫= as_u64 in
  let next_action :=
    if truncated then
      obj [("tool", js "git_blame");
           ("arguments", obj [("path", json_string raw); ("rev", jopt json_string reference);
                              ("start_line", jn (wrapping_add u64_max (default end_line actual_end) 1));
                              ("max_lines", jn max_lines)]%string)]%string
    else json_null in
  mret (tool_success "git_blame"
    [("is_repo", json_bool true); ("path", json_string (rl_display (rr_location resolved))); ("rev", jopt json_string reference);
     ("start_line", jn start_line); ("end_line", jopt jn actual_end); ("max_lines", jn max_lines); ("lines", json_array rows);
     ("truncated", json_bool truncated); ("warnings", warnings "git blame output truncated" (Supervisor.bo_truncated output));
     ("next_action", next_action)]%string).

(** What a tool answers: [None] outside a repository. *)
Definition answer (m : G (option json) json) : G Empty_set (option json) := λ w,
  match m w with (w', Ok v) => (w', Ok (Some v)) | (w', Err v) => (w', Ok v) end.

(* @src workspace/git_adapter.rs:28-51 handle_git_tool_with_authority *)
Definition handle_git_tool_with_authority (authority : WorkspaceResolver) (name : string) (arguments : json) :
    G Empty_set (option json) :=
  let tool (run : WorkspaceResolver → gmap ustr json → G (option json) json) :=
    match as_object arguments with
    | None => mret (Some (tool_error (lit "INVALID_ARGUMENT") (text "Git 工具参数必须是对象")))
    | Some arguments => answer (run authority arguments)
    end in
  if bool_decide (name = "git_status"%string) then tool git_status
  else if bool_decide (name = "git_diff"%string) then tool git_diff
  else if bool_decide (name = "git_log"%string) then tool git_log
  else if bool_decide (name = "git_show"%string) then tool git_show
  else if bool_decide (name = "git_blame"%string) then tool git_blame
  else mret None.

(** [sort] and [dedup]. *)
Fixpoint dedup (l : list ustr) : list ustr :=
  match l with
  | a :: ((b :: _) as rest) => if decide (a = b) then dedup rest else a :: dedup rest
  | l => l
  end.
(* @src workspace/git_adapter.rs:53-77 changed_paths_with_authority *)
Definition changed_paths_with_authority (authority : WorkspaceResolver) (path : ustr) :
    G Empty_set (result string (list ustr)) :=
  answered ← handle_git_tool_with_authority authority "git_status"
    (obj [("path", json_string path); ("include_untracked", json_bool true); ("max_entries", jn 10000)]%string);
  mret match answered with
       | None => Err "git status unavailable"%string
       | Some v =>
           if bool_decide (get_bool (lit "isError") v = Some true) then Err "git status failed"%string
           else
             let entries := default [] (pointer ["structuredContent"; "entries"]%string v ≫= as_array) in
             Ok (dedup (sort_by ustr_leb (omap (get_str (lit "path")) entries)))
       end.
End tools.
