(* ===== verification/GitAdapterProperties.v ===== *)
(** * GitAdapterProperties: git runs in the authority and is only asked to read

    A request chooses a path, a revision, numbers and filters.  Whatever they
    are, git is run in a repository of the authority, with a command that reads
    and with options of the adapter's own choice. *)

From S2P Require Import Prelude Text WindowsPath HostFs PathAuthority Json GitRecords GitAdapter HostLogic.
From S2P Require Import FilesystemFacts HostExamples.
From S2P Require Supervisor FilesystemService.
#[local] Open Scope N_scope.

(** ** The runs that are allowed *)

(** The commands of git that are used, which do not write, and the options they
    are given. *)
Definition READING_COMMANDS : list ustr :=
  map lit ["status"; "diff"; "log"; "show"; "blame"; "rev-parse"]%string.
Definition FIXED_OPTIONS : list ustr :=
  map lit ["--porcelain=v1"; "-b"; "-z"; "--untracked-files=no"; "--no-ext-diff"; "--no-textconv"; "--cached";
           "--name-status"; "--numstat"; "--date=iso-strict"; "--format=fuller"; "--format="; "--no-patch";
           "--line-porcelain"; "-L"]%string ++ [LOG_FORMAT].
Definition NUMBERED_OPTIONS : list ustr := map lit ["--unified="; "--max-count="; "--skip="]%string.

(** An argument before the paths: one of the adapter's, or a revision. *)
Inductive reading_argument : ustr → Prop :=
  | fixed_option o : o ∈ FIXED_OPTIONS → reading_argument o
  | numbered_option o n : o ∈ NUMBERED_OPTIONS → reading_argument (o ++ number_text n)
  | line_range a b : reading_argument (number_text a ++ lit "," ++ number_text b)
  | revision r : valid_git_ref r = true → reading_argument r.

(** A path after [--]: an object of the authority, by its path in the repository. *)
Definition authorized_pathspec (authority : WorkspaceResolver) (root : Path) (pathspec : ustr) : Prop :=
  ∃ canonical inside, allows_canonical authority canonical = true ∧
    path_strip_prefix root canonical = Some inside ∧ pathspec = path_to_slashes inside.

Section confinement.
Context `{Windows} `{Faults} `{Json} `{Git}.
Implicit Types (fs : Fs) (authority : WorkspaceResolver).

(** Where git runs is the repository, which is in the authority. *)
Definition authorized_repository (fs : Fs) (authority : WorkspaceResolver) (repository : GitRepository) : Prop :=
  verbatim <$> follows fs (rp_execution_root repository) = Some (rp_canonical_root repository) ∧
  allows_canonical authority (rp_canonical_root repository) = true.

(** A run in such a repository, of a command that reads. *)
Definition confined_run (fs : Fs) (authority : WorkspaceResolver) (run : GitRun) : Prop :=
  ∃ repository command arguments pathspecs,
    authorized_repository fs authority repository ∧ gr_directory run = rp_execution_root repository ∧
    command ∈ READING_COMMANDS ∧ gr_args run = lit "--no-pager" :: command :: arguments ++ path_args pathspecs ∧
    Forall reading_argument arguments ∧
    Forall (authorized_pathspec authority (rp_canonical_root repository)) pathspecs.

(** ** What a computation runs

    [invokes fs P m Q]: in a file system it leaves as it is, [m] only makes runs
    with [P], and what it answers has [Q]. *)

Definition invokes (fs : Fs) (P : GitRun → Prop) {E A} (m : ST (World * list GitRun) E A) (Q : A → Prop) : Prop :=
  ∀ w recorded, w_fs w = fs →
    let '((w', recorded'), answered) := m (w, recorded) in
    w_fs w' = fs ∧ (∃ new, recorded' = recorded ++ new ∧ Forall P new) ∧
    match answered with Ok a => Q a | Err _ => True end.

Section rules.
Context (fs : Fs) (P : GitRun → Prop) {E : Type}.

Lemma invokes_nothing {A} (m : ST (World * list GitRun) E A) (Q : A → Prop) :
  (∀ s, ∃ answered, m s = (s, answered) ∧ match answered with Ok a => Q a | Err _ => True end) →
  invokes fs P m Q.
Proof.
  intros Hm w recorded Hw. destruct (Hm (w, recorded)) as (answered & -> & Hanswered).
  split_and!; [done|exists []; by rewrite app_nil_r|done].
Qed.
Lemma invokes_ret {A} (a : A) (Q : A → Prop) : Q a → invokes fs P (mret a : ST _ E A) Q.
Proof. intros Ha. apply invokes_nothing. intros s. by exists (Ok a). Qed.
Lemma invokes_throw {A} (e : E) (Q : A → Prop) : invokes fs P (throw e : ST _ E A) Q.
Proof. apply invokes_nothing. intros s. by exists (Err e). Qed.
Lemma invokes_lift {A} (r : result E A) (Q : A → Prop) :
  (∀ a, r = Ok a → Q a) → invokes fs P (lift r : ST _ E A) Q.
Proof. intros Hr. apply invokes_nothing. intros s. exists r. destruct r; naive_solver. Qed.
Lemma invokes_unwrap {A} (o : option A) (e : E) : invokes fs P (unwrap o e : ST _ E A) (λ a, o = Some a).
Proof. apply invokes_lift. by destruct o; intros ? [= ->]. Qed.
Lemma invokes_ensure c (e : E) : invokes fs P (ensure c e : ST _ E unit) (λ _, c = true).
Proof. destruct c; [by apply invokes_ret|apply invokes_throw]. Qed.
Lemma invokes_bind {A B} (m : ST _ E A) (f : A → ST _ E B) (R : A → Prop) (Q : B → Prop) :
  invokes fs P m R → (∀ a, R a → invokes fs P (f a) Q) → invokes fs P (m ≫= f) Q.
Proof.
  intros Hm Hf w recorded Hw. specialize (Hm w recorded Hw). cbv [mbind ST_bind].
  destruct (m (w, recorded)) as [[w' recorded'] [a|e]]; [|exact Hm].
  destruct Hm as (Hw' & (new & -> & Hnew) & Ha). specialize (Hf a Ha w' (recorded ++ new) Hw').
  destruct (f a (w', recorded ++ new)) as [[w'' recorded''] answered].
  destruct Hf as (Hw'' & (new' & -> & Hnew') & Hanswered). split_and!; [done| |done].
  exists (new ++ new'). rewrite (assoc_L (++)). split; [done|]. by apply Forall_app.
Qed.
Lemma invokes_weaken {A} (m : ST _ E A) (Q Q' : A → Prop) :
  invokes fs P m Q → (∀ a, Q a → Q' a) → invokes fs P m Q'.
Proof.
  intros Hm HQ w recorded Hw. specialize (Hm w recorded Hw).
  destruct (m (w, recorded)) as [[w' recorded'] [a|e]]; naive_solver.
Qed.
Lemma invokes_try {F A} (m : ST _ E A) (Q : A → Prop) :
  invokes fs P m Q → invokes fs P (try (F := F) m) (λ _, True).
Proof.
  intros Hm w recorded Hw. specialize (Hm w recorded Hw). cbv [try].
  destruct (m (w, recorded)) as [[w' recorded'] answered]. naive_solver.
Qed.
Lemma invokes_map_error {F A} (f : E → F) (m : ST _ E A) (Q : A → Prop) :
  invokes fs P m Q → invokes fs P (map_error f m) Q.
Proof.
  intros Hm w recorded Hw. specialize (Hm w recorded Hw). cbv [map_error].
  by destruct (m (w, recorded)) as [[w' recorded'] []].
Qed.
Lemma invokes_on_world {A} (m : M E A) (Q : A → Prop) :
  reads fs m Q → invokes fs P (on_world m) Q.
Proof.
  intros Hm w recorded Hw. specialize (Hm w Hw). cbv [on_world].
  destruct (m w) as [w' answered]. split_and!; [|exists []; by rewrite app_nil_r|]; destruct answered; naive_solver.
Qed.
End rules.

(** ** Where the repository is *)

#[local] Hint Extern 1 (reads _ (os_symlink_exists _) _) => (unfold os_symlink_exists; reads) : reads.
#[local] Hint Extern 1 (reads _ (os_metadata _) _) => (unfold os_metadata; reads) : reads.
#[local] Hint Extern 1 (reads _ (os_is_file _) _) => (unfold os_is_file; reads) : reads.
#[local] Hint Extern 1 (reads _ (os_read_to_string _) _) => (unfold os_read_to_string; reads) : reads.

Lemma reads_ancestor_loop fs fuel current suffix : reads fs (ancestor_loop fuel current suffix) (λ _, True).
Proof. revert current suffix. induction fuel; simpl; reads. Qed.
Lemma reads_nearest fs candidate : reads fs (nearest_existing_ancestor candidate) (λ _, True).
Proof. pose proof reads_ancestor_loop. unfold nearest_existing_ancestor. reads. Qed.
#[local] Hint Resolve reads_nearest : reads.
Lemma reads_inspect fs path : reads fs (inspect_directory path) (λ _, True).
Proof. unfold inspect_directory. reads. Qed.
#[local] Hint Resolve reads_inspect : reads.
Lemma reads_validate_directory fs path : reads fs (validate_directory path) (λ _, True).
Proof. unfold validate_directory. reads. Qed.
Lemma reads_marker fs marker repository authority :
  reads fs (validate_git_marker marker repository authority) (λ _, True).
Proof. unfold validate_git_marker, validate_marker_target. reads. Qed.
Lemma reads_find_git fs directories : reads fs (find_git_executable directories) (λ _, True).
Proof. induction directories; simpl; reads. Qed.
Lemma reads_os_canonicalize fs p : reads fs (os_canonicalize p) (λ f, verbatim <$> follows fs p = Some f).
Proof.
  eapply reads_weaken; [apply reads_query|]. simpl. intros f. by destruct (follows fs p); intros [= <-].
Qed.

Lemma accepted_is_authorized fs authority current :
  reads fs (accept_repository authority current) (authorized_repository fs authority).
Proof.
  unfold accept_repository. eapply reads_bind; [apply reads_marker|]. intros _ _.
  eapply reads_bind; [apply reads_validate_directory|]. intros execution_root _.
  eapply reads_bind; [apply reads_ensure|]. intros _ _.
  eapply reads_bind; [apply reads_map_error, reads_os_canonicalize|]. intros canonical Hcanonical.
  eapply reads_bind; [apply reads_ensure|]. cbv beta. intros _ [Hsame%bool_decide_eq_true Hallowed]%andb_true_iff.
  subst current. by apply reads_ret.
Qed.
Lemma discovered_is_authorized fs authority fuel current :
  reads fs (discover_loop fuel authority current)
    (λ found, ∀ repository, found = Some repository → authorized_repository fs authority repository).
Proof.
  revert current. induction fuel as [|fuel IH]; intros current; simpl; [by apply reads_ret|].
  eapply reads_bind; [apply reads_ensure|]. intros _ _.
  eapply (reads_bind _ _ _ (λ _, True)); [reads|]. intros marked _. destruct marked.
  - eapply reads_bind; [apply accepted_is_authorized|]. intros repository Hrepository. apply reads_ret. by intros ? [= <-].
  - case_match; [by apply reads_ret|]. destruct (path_parent current); [apply IH|by apply reads_ret].
Qed.

Lemma resolved_is_allowed fs authority raw allow_missing :
  reads fs (resolve authority raw allow_missing) (λ location, allows_canonical authority (rl_canonical location) = true).
Proof.
  unfold resolve. eapply reads_bind; [apply reads_map_error, reads_input_path|]. intros candidate _.
  eapply reads_bind; [apply reads_nearest|]. intros [[existing suffix] full_exists] _.
  eapply reads_bind; [apply reads_ensure|]. intros _ _.
  eapply reads_bind; [apply reads_map_error, reads_os_canonicalize|]. intros canonical _.
  eapply reads_bind; [apply reads_ensure|]. intros _ _.
  eapply (reads_bind _ _ _ (λ _, True)); [reads|]. intros metadata _.
  eapply reads_bind; [apply reads_ensure|]. intros _ _. cbv zeta.
  eapply reads_bind; [apply reads_ensure|]. cbv beta. intros _ Hallowed.
  eapply (reads_bind _ _ _ (λ _, True)); [reads|]. intros full_metadata _.
  eapply (reads_bind _ _ _ (λ _, True)); [reads|]. intros discovery_dir _.
  eapply (reads_bind _ _ _ (λ _, True)); [reads|]. intros display _.
  by apply reads_ret.
Qed.

(** A location and the repository around it. *)
Definition authorized_location (fs : Fs) (authority : WorkspaceResolver) (resolved : ResolvedRepositoryLocation) : Prop :=
  authorized_repository fs authority (rr_repository resolved) ∧
  ∀ pathspec, rr_pathspec resolved = Some pathspec →
    authorized_pathspec authority (rp_canonical_root (rr_repository resolved)) pathspec.

Lemma repository_is_authorized fs authority location :
  allows_canonical authority (rl_canonical location) = true →
  reads fs (repository_for authority location)
    (λ found, ∀ resolved, found = Some resolved → authorized_location fs authority resolved).
Proof.
  intros Hallowed. unfold repository_for, discover_repository.
  eapply reads_bind; [apply discovered_is_authorized|]. intros [repository|] Hfound; [|by apply reads_ret].
  eapply reads_bind; [apply reads_unwrap|]. intros pathspec Hpathspec.
  apply fmap_Some in Hpathspec as (inside & Hinside & ->).
  apply reads_ret. intros resolved [= <-]. split; [by apply Hfound|]. cbn [rr_pathspec].
  case_bool_decide; [done|]. intros pathspec [= <-]. by exists (rl_canonical location), inside.
Qed.

Lemma pathspecs_are_authorized fs authority repository filters :
  reads fs (resolve_pathspecs_in_repository authority repository filters)
    (Forall (authorized_pathspec authority (rp_canonical_root repository))).
Proof.
  induction filters as [|raw filters IH]; simpl; [by apply reads_ret|].
  eapply reads_bind; [apply resolved_is_allowed|]. intros location Hlocation.
  eapply reads_bind; [by apply repository_is_authorized|]. intros [resolved|] Hfound; [|apply reads_throw].
  specialize (Hfound resolved eq_refl) as [_ Hpathspec].
  eapply reads_bind; [apply reads_ensure|]. cbv beta. intros _ Hroot%bool_decide_eq_true. rewrite Hroot in Hpathspec.
  eapply reads_bind; [apply IH|]. intros pathspecs Hpathspecs. apply reads_ret.
  destruct (rr_pathspec resolved); [|done]. constructor; [by apply Hpathspec|done].
Qed.

(** ** Running git *)

Section tools.
Context (fs : Fs) (authority : WorkspaceResolver).
Abbreviation invokes := (invokes fs (confined_run fs authority)).

Lemma invokes_resolving {A} (m : M ResolveError A) (Q : A → Prop) : reads fs m Q → invokes (resolving m) Q.
Proof. intros Hm. unfold resolving. by apply invokes_map_error, invokes_on_world. Qed.
Lemma invokes_resolve raw allow_missing :
  invokes (resolving (resolve authority raw allow_missing))
    (λ location, allows_canonical authority (rl_canonical location) = true).
Proof. apply invokes_resolving, resolved_is_allowed. Qed.
Lemma invokes_repository_for location :
  allows_canonical authority (rl_canonical location) = true →
  invokes (resolving (repository_for authority location))
    (λ found, ∀ resolved, found = Some resolved → authorized_location fs authority resolved).
Proof. intros. by apply invokes_resolving, repository_is_authorized. Qed.
Lemma invokes_resolve_repository raw :
  invokes (resolve_repository authority raw) (authorized_location fs authority).
Proof.
  unfold resolve_repository. eapply invokes_bind; [apply invokes_resolve|]. intros location Hlocation.
  eapply invokes_bind; [by apply invokes_repository_for|]. intros found Hfound.
  eapply invokes_weaken; [apply invokes_unwrap|]. exact Hfound.
Qed.

Lemma invokes_run_git repository args max_bytes :
  confined_run fs authority (MkGitRun (rp_execution_root repository) args) →
  invokes (run_git repository args max_bytes) (λ _, True).
Proof.
  intros Hrun. unfold run_git. eapply invokes_bind; [apply invokes_on_world, reads_find_git|]. intros found _.
  eapply invokes_bind; [apply invokes_unwrap|]. intros executable _ w recorded Hw. cbv [git_process].
  split_and!; [done| |by case_match]. eexists. split; [done|]. by apply Forall_singleton.
Qed.
Lemma invokes_git repository args max_bytes :
  confined_run fs authority (MkGitRun (rp_execution_root repository) args) →
  invokes (git repository args max_bytes) (λ _, True).
Proof.
  intros Hrun. unfold git. eapply invokes_bind; [by apply invokes_map_error, invokes_run_git|]. intros output _.
  case_match; [by apply invokes_ret|apply invokes_throw].
Qed.

Lemma confined_arguments repository command arguments pathspecs args :
  authorized_repository fs authority repository → args = lit "--no-pager" :: command :: arguments ++ path_args pathspecs →
  command ∈ READING_COMMANDS → Forall reading_argument arguments →
  Forall (authorized_pathspec authority (rp_canonical_root repository)) pathspecs →
  confined_run fs authority (MkGitRun (rp_execution_root repository) args).
Proof. intros ? -> ???. by exists repository, command, arguments, pathspecs. Qed.
End tools.

(** Every argument is one of the adapter's, or a revision that was checked. *)
Ltac arguments :=
  lazymatch goal with
  | |- Forall _ [] => constructor
  | |- Forall _ (_ :: _) => apply Forall_cons; split; [arguments | arguments]
  | |- Forall _ (_ ++ _) => apply Forall_app; split; arguments
  | |- Forall _ (match ?x with _ => _ end) => destruct x; arguments
  | |- reading_argument (_ ++ lit "," ++ _) => apply line_range
  | |- reading_argument (_ ++ number_text _) =>
      apply numbered_option; by apply (bool_decide_unpack _); vm_compute
  | |- reading_argument _ =>
      first [ by apply revision | apply fixed_option; by apply (bool_decide_unpack _); vm_compute ]
  end.
(** A run with the arguments and paths that are given. *)
Ltac confined args paths :=
  eapply (confined_arguments _ _ _ _ args paths);
  [ eassumption | rewrite <-?(assoc_L (++)); rewrite ?app_nil_r; reflexivity
  | by apply (bool_decide_unpack _); vm_compute | arguments | try eassumption ].

Section handlers.
Context (fs : Fs) (authority : WorkspaceResolver).
Abbreviation invokes := (invokes fs (confined_run fs authority)).

Lemma status_is_confined arguments : invokes (git_status authority arguments) (λ _, True).
Proof.
  unfold git_status. eapply invokes_bind; [apply invokes_resolve_repository|]. intros resolved [Hrepository _]. cbv zeta.
  eapply invokes_bind.
  { apply invokes_git. confined ([lit "--porcelain=v1"; lit "-b"; lit "-z"] ++
      (if bool_arg arguments "include_untracked" true then [] else [lit "--untracked-files=no"])) (@nil ustr). constructor. }
  intros status _. eapply invokes_bind; [by apply (invokes_lift _ _ _ (λ _, True))|].
  intros [[[[branch upstream] ahead] behind] entries] _.
  eapply invokes_bind; [|by intros; apply invokes_ret].
  eapply invokes_try, invokes_run_git. confined [lit "HEAD"] (@nil ustr). constructor.
Qed.

Lemma metadata_is_confined repository names numstat :
  confined_run fs authority (MkGitRun (rp_execution_root repository) names) →
  confined_run fs authority (MkGitRun (rp_execution_root repository) numstat) →
  invokes (machine_file_metadata repository names numstat) (λ _, True).
Proof.
  intros. unfold machine_file_metadata. eapply invokes_bind; [by apply invokes_git|]. intros output _.
  eapply invokes_bind; [apply invokes_ensure|]. intros _ _.
  eapply invokes_bind; [by apply invokes_git|]. intros output' _.
  eapply invokes_bind; [apply invokes_ensure|]. intros _ _. by apply invokes_ret.
Qed.
Lemma invokes_pathspecs repository filters :
  invokes (resolving (resolve_pathspecs_in_repository authority repository filters))
    (Forall (authorized_pathspec authority (rp_canonical_root repository))).
Proof. apply invokes_resolving, pathspecs_are_authorized. Qed.

Lemma pass_is_confined repository pathspecs context_lines max_bytes cached diff :
  authorized_repository fs authority repository →
  Forall (authorized_pathspec authority (rp_canonical_root repository)) pathspecs →
  invokes (diff_pass repository pathspecs context_lines max_bytes cached diff) (λ _, True).
Proof.
  intros. unfold diff_pass. cbv zeta. eapply invokes_bind.
  { apply invokes_git. confined ([lit "--no-ext-diff"; lit "--no-textconv"; lit "--unified=" ++ number_text context_lines] ++
      (if cached then [lit "--cached"] else [])) pathspecs. }
  intros output _. eapply invokes_bind; [apply metadata_is_confined|by intros; apply invokes_ret].
  - confined ([lit "--no-ext-diff"; lit "--no-textconv"; lit "--name-status"; lit "-z"] ++ (if cached then [lit "--cached"] else [])) pathspecs.
  - confined ([lit "--no-ext-diff"; lit "--no-textconv"; lit "--numstat"; lit "-z"] ++ (if cached then [lit "--cached"] else [])) pathspecs.
Qed.
Lemma diff_is_confined arguments : invokes (git_diff authority arguments) (λ _, True).
Proof.
  unfold git_diff. eapply invokes_bind; [apply invokes_resolve_repository|]. intros resolved [Hrepository _]. cbv zeta.
  eapply invokes_bind; [apply invokes_pathspecs|]. intros pathspecs Hpathspecs.
  eapply (invokes_bind _ _ _ _ (λ _, True)); [case_match; [by apply pass_is_confined|by apply invokes_ret]|]. intros unstaged _.
  eapply (invokes_bind _ _ _ _ (λ _, True)); [case_match; [by apply pass_is_confined|by apply invokes_ret]|]. intros staged _.
  destruct (truncate_text _ _ _) as [[[]]]. by apply invokes_ret.
Qed.

Lemma log_is_confined arguments : invokes (git_log authority arguments) (λ _, True).
Proof.
  unfold git_log. cbv zeta. eapply invokes_bind; [apply invokes_resolve_repository|]. intros resolved [Hrepository _].
  set (reference := default _ _). eapply invokes_bind; [apply invokes_ensure|]. cbv beta. intros _ Hreference.
  eapply invokes_bind; [|by intros; apply invokes_ret]. apply invokes_git.
  set (count := clamp _ _ _ + 1). set (skip := usize_arg _ _ _).
  confined [lit "--max-count=" ++ number_text count; lit "--skip=" ++ number_text skip; lit "--date=iso-strict"; LOG_FORMAT; reference]
    (@nil ustr). constructor.
Qed.

Lemma show_is_confined arguments : invokes (git_show authority arguments) (λ _, True).
Proof.
  unfold git_show. cbv zeta. eapply invokes_bind; [apply invokes_resolve_repository|]. intros resolved [Hrepository _].
  eapply invokes_bind; [apply invokes_pathspecs|]. intros pathspecs Hpathspecs.
  set (reference := default _ _). eapply invokes_bind; [apply invokes_ensure|]. cbv beta. intros _ Hreference.
  set (context := N.min _ _). eapply invokes_bind.
  { apply invokes_git. confined ([lit "--no-ext-diff"; lit "--no-textconv"; lit "--format=fuller"; lit "--unified=" ++ number_text context] ++
      (if bool_arg arguments "include_patch" true then [] else [lit "--no-patch"]) ++ [reference]) pathspecs. }
  intros output _. eapply invokes_bind; [apply metadata_is_confined|].
  - confined [lit "--no-ext-diff"; lit "--no-textconv"; lit "--format="; lit "--name-status"; lit "-z"; reference] pathspecs.
  - confined [lit "--no-ext-diff"; lit "--no-textconv"; lit "--format="; lit "--numstat"; lit "-z"; reference] pathspecs.
  - intros files _. destruct (truncate_text _ _ _) as [[[]]]. by apply invokes_ret.
Qed.

Lemma blame_is_confined arguments : invokes (git_blame authority arguments) (λ _, True).
Proof.
  unfold git_blame. eapply invokes_bind; [apply invokes_unwrap|]. intros raw _.
  eapply invokes_bind; [apply invokes_resolve|]. intros location Hlocation.
  eapply invokes_bind; [apply invokes_ensure|]. intros _ _.
  eapply invokes_bind; [by apply invokes_repository_for|]. intros found Hfound.
  eapply invokes_bind; [apply invokes_unwrap|]. intros resolved [Hrepository Hpathspec]%Hfound.
  eapply invokes_bind; [apply invokes_unwrap|]. intros pathspec Hsome%Hpathspec. cbv zeta.
  eapply invokes_bind; [apply invokes_ensure|]. cbv beta. intros _ Hreference.
  set (first := N.max _ _). set (end_line := N.min _ _).
  eapply invokes_bind; [apply invokes_ensure|]. intros _ _.
  eapply invokes_bind; [|by intros; apply invokes_ret]. apply invokes_git.
  destruct (string_arg arguments "rev") as [reference|].
  - confined [lit "--line-porcelain"; lit "--no-textconv"; lit "-L"; number_text first ++ lit "," ++ number_text end_line; reference]
      [pathspec]. by constructor.
  - confined [lit "--line-porcelain"; lit "--no-textconv"; lit "-L"; number_text first ++ lit "," ++ number_text end_line]
      [pathspec]. by constructor.
Qed.

Lemma answer_is_confined (m : ST (World * list GitRun) (option json) json) :
  invokes m (λ _, True) → invokes (answer m) (λ _, True).
Proof.
  intros Hm w recorded Hw. specialize (Hm w recorded Hw). unfold answer.
  destruct (m (w, recorded)) as [[w' recorded'] []]; naive_solver.
Qed.
Lemma tool_is_confined name arguments : invokes (handle_git_tool_with_authority authority name arguments) (λ _, True).
Proof.
  unfold handle_git_tool_with_authority. cbv zeta. destruct (as_object arguments) as [members|].
  2: { repeat case_match; by apply invokes_ret. }
  repeat (case_match; [apply answer_is_confined;
    first [apply status_is_confined|apply diff_is_confined|apply log_is_confined|apply show_is_confined|apply blame_is_confined]|]).
  by apply invokes_ret.
Qed.
Lemma changed_paths_is_confined path : invokes (changed_paths_with_authority authority path) (λ _, True).
Proof.
  unfold changed_paths_with_authority. eapply invokes_bind; [apply tool_is_confined|]. intros answered _. by apply invokes_ret.
Qed.
End handlers.

End confinement.

(** ** A concrete repository *)

#[local] Existing Instance demo_json.
#[local] Existing Instance plain_windows.

(** A repository in the workspace, and one whose marker leads out of it. *)
Definition repository_fs : Fs :=
  <[path_of "C:\bin" := new_dir None]> (<[path_of "C:\bin\git.exe" := new_file [] None]>
  (<[path_of "C:\work\.git" := new_dir None]> (<[path_of "C:\work\out" := new_dir None]>
  (<[path_of "C:\work\out\.git" := new_file (lit "gitdir: C:/elsewhere/.git") None]>
  (<[path_of "C:\elsewhere\.git" := new_dir None]> example_fs))))).
(** What a git that finds one change answers. *)
#[local] Instance demo_git : Git := {|
  git_answers _ _ run _ :=
    Ok (Supervisor.MkBoundedCommandOutput 0
      (if decide (lit "status" ∈ gr_args run) then print_status (lit "## main") [MkStatusLine 0x20 0x4D (lit "src/a.txt") None]
       else lit "0123abc") false false);
  path_directories := [path_of "C:\bin"]
|}.
#[local] Instance demo_faults : Faults := failing [].
Definition demo_call (name : string) (members : list (string * json)) :=
  let '((_, recorded), answered) := handle_git_tool_with_authority (FilesystemService.svc_authority example_service) name (obj members)
    (MkWorld repository_fs 0 0, []) in
  (recorded, match answered with Ok (Some v) => Some v | _ => None end).

(** The repository above the directory is found and run in. *)
Example git_runs_in_the_repository :
  fst (demo_call "git_log" [("path", js "src"); ("ref", js "v1"); ("skip", jn 5)]%string) =
  [MkGitRun example_root [lit "--no-pager"; lit "log"; lit "--max-count=21"; lit "--skip=5"; lit "--date=iso-strict"; LOG_FORMAT; lit "v1"]].
Proof. vm_compute. reflexivity. Qed.
Example options_are_no_revisions : demo_call "git_show" [("rev", js "--output=C:/work/src/a.txt")]%string =
  ([], Some (tool_error (lit "INVALID_ARGUMENT") (text "无效 Git rev"))).
Proof. vm_compute. reflexivity. Qed.
(** A marker that leads out of the workspace is refused before git runs. *)
Example foreign_repository_is_refused : demo_call "git_status" [("path", js "out")]%string =
  ([], Some (resolve_error ReReparseEscape)).
Proof. vm_compute. reflexivity. Qed.
Example changes_are_listed :
  snd (changed_paths_with_authority (FilesystemService.svc_authority example_service) (lit "src") (MkWorld repository_fs 0 0, [])) =
  Ok (Ok [lit "src/a.txt"]).
Proof. vm_compute. reflexivity. Qed.
(** A filter that is the repository itself is left out, and the others then
    restrict what was to be all of it. *)
Example root_filter_is_lost :
  gr_args <$> head (fst (demo_call "git_diff" [("paths", json_array [js "."; js "src"])]%string)) =
  Some (DIFF ++ [lit "--unified=3"; lit "--"; lit "src"]).
Proof. vm_compute. reflexivity. Qed.
