(* ===== verification/VerificationPlan.v ===== *)
(** * VerificationPlan: the commands that check a project

    [src/src-tauri/src/execution/verification.rs].  The planner looks at the
    instructions, the manifests and the changes of a project and proposes commands,
    each once, in the order of their priority.  The paths it keeps are lists of
    components; files are read through [HostFs]. *)

From stdpp Require Import pretty.
From S2P Require Import Prelude Text WindowsPath HostFs PathAuthority Json GitRecords GitAdapter.
From S2P Require FilesystemService Facade.
#[local] Open Scope N_scope.

(* @src execution/verification.rs:11-11 MAX_MANIFESTS *)
Definition MAX_MANIFESTS : nat := 24.
(* @src execution/verification.rs:12-12 MAX_MANIFEST_DEPTH *)
Definition MAX_MANIFEST_DEPTH : nat := 4.

(* @src execution/verification.rs:15-22 VerificationStep *)
Record VerificationStep := MkVerificationStep {
  vs_priority : N;
  vs_kind : ustr;
  vs_command : ustr;
  vs_shell : ustr;
  vs_source : ustr;
  vs_evidence : ustr
}.
(* @src execution/verification.rs:25-30 VerificationPlanner *)
Record VerificationPlanner := MkVerificationPlanner {
  vp_authority : WorkspaceResolver;
  vp_project_root : Path;
  vp_instruction_paths : list Path;
  vp_changed_files : list ustr
}.

(* @src execution/verification.rs:337-346 step *)
Definition step (priority : N) (kind : string) (command : ustr) (source : string) (evidence : ustr) : VerificationStep :=
  MkVerificationStep priority (lit kind) command (lit "cmd") (lit source) evidence.

(** ** Text *)

(* @src execution/verification.rs:329-335 quote_cmd_arg *)
Definition quote_cmd_arg (value : ustr) : ustr :=
  if existsb (λ c, (c =? 0x20) || (c =? 0x9)) value then [0x22] ++ replace [0x22] [backslash; 0x22] value ++ [0x22] else value.

(* @src execution/verification.rs:323-327 excluded_directory *)
Definition excluded_directory (name : ustr) : bool :=
  bool_decide (name ∈ map lit [".git"; "node_modules"; "dist"; "build"; "runtime"]%string) ||
  bool_decide (name = lit "target") || starts_with (lit "target-") name.

Definition trim_end : ustr → ustr := trim_end_matches is_whitespace.

Definition SUPPORTED_COMMANDS : list ustr :=
  map lit ["npm test"; "npm run "; "pnpm test"; "pnpm run "; "yarn test"; "yarn run "; "cargo test"; "cargo clippy";
           "cargo fmt"; "python -m pytest"; "pytest "; "go test"; "dotnet test"; "mvn test"; "mvn verify"; "gradle test";
           "gradlew test"; "git diff --check"]%string.
(* @src execution/verification.rs:399-422 is_supported_project_command *)
Definition is_supported_project_command (command : ustr) : bool :=
  existsb (λ prefix, bool_decide (command = trim_end prefix) || starts_with prefix command) SUPPORTED_COMMANDS.

Definition NEGATIONS : list ustr :=
  map lit ["do not run"; "do not execute"; "don't run"; "don't execute"; "must not run"; "must not execute"; "never run";
           "never execute"]%string ++ map text ["禁止运行"; "不要运行"; "不得运行"]%string.

Section instructions.
Context `{FilesystemService.Unicode}.

(* @src execution/verification.rs:372-397 is_negated_instruction *)
Definition is_negated_instruction (prose : ustr) : bool :=
  let tail := FilesystemService.to_lowercase (rev (take 160 (rev prose))) in
  existsb (λ marker, ends_with marker (trim_end tail)) NEGATIONS.

(** The pieces between backticks, after the piece before each. *)
(* @src execution/verification.rs:349-366 instruction_commands, the loop *)
Fixpoint instruction_spans (segments : list ustr) : list ustr :=
  match segments with
  | prose :: segment :: segments =>
      let candidate := trim segment in
      (if existsb (λ c, (c =? 0x0A) || (c =? 0x0D)) candidate || (512 <? byte_len candidate)%nat then []
       else if is_negated_instruction prose then []
       else if is_supported_project_command candidate then [candidate] else []) ++
      instruction_spans segments
  | _ => []
  end.
(* @src execution/verification.rs:348-370 instruction_commands *)
Definition instruction_commands (content : ustr) : list ustr :=
  dedup (sort_by ustr_leb (instruction_spans (split_on (N.eqb 0x60) content))).
End instructions.

(** ** Paths *)

(** [PathBuf::cmp], by components; the paths compared here have one prefix. *)
Definition component_rank (c : Component) : N :=
  match c with PrefixComponent _ => 0 | RootDir => 1 | CurDir => 2 | ParentDir => 3 | Normal _ => 4 end.
Definition component_ltb (a b : Component) : bool :=
  if component_rank a =? component_rank b then negb (ustr_leb (component_text b) (component_text a))
  else component_rank a <? component_rank b.
Fixpoint path_leb (p q : Path) : bool :=
  match p, q with
  | [], _ => true
  | _ :: _, [] => false
  | a :: p, b :: q => if component_ltb a b then true else if component_ltb b a then false else path_leb p q
  end.
Fixpoint dedup_paths (l : list Path) : list Path :=
  match l with
  | a :: ((b :: _) as rest) => if decide (a = b) then dedup_paths rest else a :: dedup_paths rest
  | l => l
  end.
(** [Path::display]. *)
Definition path_display (p : Path) : ustr :=
  match p with
  | prefix :: RootDir :: p => component_text prefix ++ [backslash] ++ names_text [backslash] p
  | p => names_text [backslash] p
  end.

(* @src execution/verification.rs:291-296 VerificationPlanner::relative_display *)
Definition relative_display (self : VerificationPlanner) (path : Path) : ustr :=
  path_to_slashes (default path (path_strip_prefix (vp_project_root self) path)).
(* @src execution/verification.rs:277-289 VerificationPlanner::npm_prefix *)
Definition npm_prefix (self : VerificationPlanner) (manifest : Path) : ustr :=
  let parent := default (vp_project_root self) (path_parent manifest) in
  if bool_decide (parent = vp_project_root self) then lit "npm"
  else lit "npm --prefix " ++ quote_cmd_arg (path_to_slashes (default parent (path_strip_prefix (vp_project_root self) parent))).
(* @src execution/verification.rs:298-309 VerificationPlanner::changed_evidence *)
Definition changed_evidence (self : VerificationPlanner) : ustr :=
  let paths := take 8 (vp_changed_files self) in
  let more := (length (vp_changed_files self) - length paths)%nat in
  join (lit ", ") (paths ++ (if (length paths <? length (vp_changed_files self))%nat
                            then [lit "+" ++ number_text (N.of_nat more) ++ lit " more"] else [])).

(** ** What the planner reads *)

(** [serde_json::from_str]. *)
Class JsonText `{Json} := { json_of_text : ustr → option json }.

Section reading.
Context `{Windows} `{Faults}.

(** [path.is_file() && canonicalize(path).ok().is_some_and(allowed)]. *)
Definition is_allowed_file {E : Type} (authority : WorkspaceResolver) (candidate : Path) : M E bool :=
  file ← os_is_file candidate;
  if negb file then mret false else
  canonical ← try (os_canonicalize candidate);
  mret match canonical with Ok path => allows_canonical authority path | Err _ => false end.

(** *** Instructions *)

Definition INSTRUCTION_FILES : list (list ustr) :=
  [[lit "AGENTS.md"]; [lit ".github"; lit "copilot-instructions.md"]; [lit "START_HERE.md"]].
(* @src execution/verification.rs:50-63 VerificationPlanner::with_authority, one directory *)
Definition instruction_files_in {E : Type} (authority : WorkspaceResolver) (directory : Path) : M E (list Path) :=
  collect_each (λ relative,
    let candidate := foldl join_name directory relative in
    allowed ← is_allowed_file authority candidate;
    mret (if (allowed : bool) then [candidate] else [])) INSTRUCTION_FILES.
(* @src execution/verification.rs:47-68 VerificationPlanner::with_authority, the loop *)
Fixpoint instruction_loop {E : Type} (fuel : nat) (authority : WorkspaceResolver) (directory : Path) : M E (list Path) :=
  match fuel with
  | O => mret []
  | S fuel =>
      here ← instruction_files_in authority directory;
      if discovery_stops_at authority directory then mret here
      else match path_parent directory with
           | Some parent => above ← instruction_loop fuel authority parent; mret (here ++ above)
           | None => mret here
           end
  end.

(** *** Manifests *)

(** A directory entry that is searched as well. *)
(* @src execution/verification.rs:253-265 VerificationPlanner::manifest_files, an entry *)
Definition manifest_child {E : Type} (authority : WorkspaceResolver) (directory : Path) (name : ustr) : M E (list Path) :=
  let path := join_name directory name in
  entry ← try os_next_entry;
  file_type ← try (os_symlink_metadata path);
  match entry, file_type with
  | Ok _, Ok node =>
      if negb (node_is_dir node) || nd_symlink node || excluded_directory name then mret []
      else
        canonical ← try (os_canonicalize path);
        mret match canonical with
             | Ok canonical => if allows_canonical authority canonical then [path] else []
             | Err _ => []
             end
  | _, _ => mret []
  end.
(** The directories below, the first to be searched first. *)
(* @src execution/verification.rs:245-270 VerificationPlanner::manifest_files, the entries *)
Definition manifest_children {E : Type} (authority : WorkspaceResolver) (directory : Path) (depth : nat) :
    M E (list (Path * nat)) :=
  if (MAX_MANIFEST_DEPTH <=? depth)%nat then mret [] else
  entries ← try (os_read_dir directory);
  match entries with
  | Err _ => mret []
  | Ok names =>
      children ← collect_each (manifest_child authority directory) names;
      mret (map (λ child, (child, S depth)) (sort_by path_leb children))
  end.
(** The top of the stack is its head. *)
(* @src execution/verification.rs:227-271 VerificationPlanner::manifest_files, the loop *)
Fixpoint manifest_loop {E : Type} (fuel : nat) (authority : WorkspaceResolver) (file_name : ustr) (stack : list (Path * nat))
    (seen : gset Path) (found : list Path) : M E (list Path) :=
  match fuel, stack with
  | O, _ | _, [] => mret found
  | S fuel, (directory, depth) :: stack =>
      if (MAX_MANIFESTS <=? length found)%nat then mret found else
      canonical ← try (os_canonicalize directory);
      match canonical with
      | Err _ => manifest_loop fuel authority file_name stack seen found
      | Ok canonical =>
          if negb (allows_canonical authority canonical) || bool_decide (canonical ∈ seen)
          then manifest_loop fuel authority file_name stack seen found
          else
            let candidate := join_name directory file_name in
            allowed ← is_allowed_file authority candidate;
            let found := if (allowed : bool) then found ++ [candidate] else found in
            children ← manifest_children authority directory depth;
            manifest_loop fuel authority file_name (children ++ stack) ({[canonical]} ∪ seen) found
      end
  end.
(** Every object is searched once, and has at most as many entries as there are
    objects. *)
Definition manifest_fuel (fs : Fs) : nat := S (S (size fs * size fs)).
(* @src execution/verification.rs:223-275 VerificationPlanner::manifest_files *)
Definition manifest_files {E : Type} (self : VerificationPlanner) (file_name : ustr) : M E (list Path) := λ w,
  (found ← manifest_loop (manifest_fuel (w_fs w)) (vp_authority self) file_name [(vp_project_root self, 0%nat)] ∅ [];
   mret (dedup_paths (sort_by path_leb found))) w.

(* @src execution/verification.rs:311-320 VerificationPlanner::git_root_present *)
Fixpoint git_root_above {E : Type} (fuel : nat) (directory : Path) : M E bool :=
  match fuel with
  | O => mret false
  | S fuel =>
      marked ← os_exists (join_name directory (lit ".git"));
      if (marked : bool) then mret true
      else match path_parent directory with
           | Some parent => git_root_above fuel parent
           | None => mret false
           end
  end.
Definition git_root_present {E : Type} (self : VerificationPlanner) : M E bool :=
  git_root_above (S (length (vp_project_root self))) (vp_project_root self).

(** ** Steps *)

Section steps.
Context `{JsonText} `{FilesystemService.Unicode}.

(* @src execution/verification.rs:113-128 VerificationPlanner::instruction_steps *)
Definition instruction_steps {E : Type} (self : VerificationPlanner) : M E (list VerificationStep) :=
  collect_each (λ path,
    content ← try (os_read_to_string path);
    mret match content with
         | Err _ => []
         | Ok content =>
             map (λ command, step 10 "project_instruction" command "project_instruction"
                    (lit "explicit positive command in " ++ path_display path)) (instruction_commands content)
         end) (vp_instruction_paths self).

Definition has_script (scripts : gmap ustr json) (name : string) : bool :=
  bool_decide (is_Some (scripts !! lit name ≫= as_str)).
(* @src execution/verification.rs:141-186 VerificationPlanner::package_json_steps, one manifest *)
Definition script_steps (self : VerificationPlanner) (path : Path) (scripts : gmap ustr json) : list VerificationStep :=
  let prefix := npm_prefix self path in
  let having name (steps : list VerificationStep) :=
    if has_script scripts name then steps else [] in
  let scripts_of name := relative_display self path ++ lit " scripts." ++ lit name in
  (if bool_decide (vp_changed_files self = []) then [] else
     flat_map (λ name, having name
       [step 20 "changed_file_targeted" (prefix ++ lit " run " ++ lit name) "package_script"
          (lit "package.json scripts." ++ lit name ++ lit "; changed files: " ++ changed_evidence self)])
       ["test:changed"; "test:targeted"]%string) ++
  flat_map (λ name, having name
    [step 30 "lint_typecheck" (prefix ++ lit " run " ++ lit name) "package_script" (scripts_of name)]) ["lint"; "typecheck"]%string ++
  having "test"%string [step 40 "project_gate" (prefix ++ lit " test") "package_script" (scripts_of "test"%string)] ++
  having "build"%string [step 40 "project_gate" (prefix ++ lit " run build") "package_script" (scripts_of "build"%string)].
(* @src execution/verification.rs:130-188 VerificationPlanner::package_json_steps *)
Definition package_json_steps {E : Type} (self : VerificationPlanner) : M E (list VerificationStep) :=
  manifests ← manifest_files self (lit "package.json");
  collect_each (λ path,
    content ← try (os_read_to_string path);
    mret (let document := match content with Ok content => json_of_text content | Err _ => None end in
          match (document ≫= get (lit "scripts")) ≫= as_object with
          | Some scripts => script_steps self path scripts
          | None => []
          end)) manifests.

(* @src execution/verification.rs:192-219 VerificationPlanner::cargo_steps, one manifest *)
Definition cargo_manifest_steps (self : VerificationPlanner) (manifest : Path) (locked : bool) : list VerificationStep :=
  let suffix := if locked then lit " --locked" else [] in
  let manifest_arg :=
    if bool_decide (manifest = join_name (vp_project_root self) (lit "Cargo.toml")) then []
    else lit " --manifest-path " ++ quote_cmd_arg (relative_display self manifest) in
  let evidence := relative_display self manifest ++ lit " manifest" in
  [step 30 "lint_typecheck" (lit "cargo clippy" ++ manifest_arg ++ lit " --all-targets --all-features" ++ suffix ++ lit " -- -D warnings")
     "cargo_manifest" evidence;
   step 40 "project_gate" (lit "cargo test" ++ manifest_arg ++ suffix) "cargo_manifest" evidence].
(* @src execution/verification.rs:190-221 VerificationPlanner::cargo_steps *)
Definition cargo_steps {E : Type} (self : VerificationPlanner) : M E (list VerificationStep) :=
  manifests ← manifest_files self (lit "Cargo.toml");
  collect_each (λ manifest,
    locked ← match path_parent manifest with
             | Some parent => os_is_file (join_name parent (lit "Cargo.lock"))
             | None => mret false
             end;
    mret (cargo_manifest_steps self manifest locked)) manifests.

(** The map keeps, for each command, the first step of the smallest priority. *)
(* @src execution/verification.rs:96-103 VerificationPlanner::plan, the map *)
Definition keep_first (kept : gmap ustr VerificationStep) (candidate : VerificationStep) : gmap ustr VerificationStep :=
  match kept !! vs_command candidate with
  | Some existing =>
      if vs_priority existing <=? vs_priority candidate then kept else <[vs_command candidate := candidate]> kept
  | None => <[vs_command candidate := candidate]> kept
  end.
(* @src execution/verification.rs:105-109 VerificationPlanner::plan, the order *)
Definition step_leb (left right : VerificationStep) : bool :=
  if vs_priority left =? vs_priority right then ustr_leb (vs_command left) (vs_command right)
  else vs_priority left <? vs_priority right.
(* @src execution/verification.rs:95-110 VerificationPlanner::plan, choosing *)
Definition choose_steps (steps : list VerificationStep) : list VerificationStep :=
  let kept := foldl keep_first ∅ steps in
  sort_by step_leb (map snd (sort_by (λ a b, ustr_leb a.1 b.1) (map_to_list kept))).
(* @src execution/verification.rs:81-111 VerificationPlanner::plan *)
Definition plan {E : Type} (self : VerificationPlanner) : M E (list VerificationStep) :=
  instructions ← instruction_steps self;
  packages ← package_json_steps self;
  crates ← cargo_steps self;
  repository ← git_root_present self;
  let git := if (repository : bool)
             then [step 50 "git_diff_checks" (lit "git diff --check") "git" (lit "project Git repository")] else [] in
  mret (choose_steps (instructions ++ packages ++ crates ++ git)).
End steps.
End reading.

(* @src execution/verification.rs:39-79 VerificationPlanner::with_authority *)
Definition with_authority `{Windows} `{Faults} `{Json} `{Git} (authority : WorkspaceResolver) (project_path : ustr) :
    ST (World * list GitRun) PathAuthorityError VerificationPlanner :=
  project_root ← on_world (resolve_existing authority project_path);
  directory ← on_world (os_is_dir project_root);
  _ ← ensure directory PathInvalid;
  instruction_paths ← on_world (instruction_loop (S (length project_root)) authority project_root);
  changed ← map_error (λ e : Empty_set, match e with end) (changed_paths_with_authority authority project_path);
  mret (MkVerificationPlanner authority project_root (dedup_paths (sort_by path_leb instruction_paths))
          match changed with Ok changed_files => changed_files | Err _ => [] end).

(** [serde]'s derived encoding. *)
Definition step_json `{Json} (step : VerificationStep) : json :=
  obj [("priority", jn (vs_priority step)); ("kind", json_string (vs_kind step)); ("command", json_string (vs_command step));
       ("shell", json_string (vs_shell step)); ("source", json_string (vs_source step));
       ("evidence", json_string (vs_evidence step))]%string.
(** What the coding tasks of the facade are given. *)
(* @src mcp/facade.rs:1657-1669 coding_verification_plan *)
Definition coding_verification_plan `{Windows} `{Faults} `{Json} `{!JsonText} `{FilesystemService.Unicode} `{Git}
    (authority : WorkspaceResolver) (project_path : ustr) : ST (World * list GitRun) Facade.FacadeError (list json) :=
  planner ← map_error Facade.normalize_path_authority_error (with_authority authority project_path);
  steps ← on_world (plan planner);
  mret (map step_json steps).
