(* ===== verification/VerificationPlanProperties.v ===== *)
(** * VerificationPlanProperties: a plan checks the project and nothing else

    The order of a plan, the end of the search for manifests, and where the
    commands that are proposed come from. *)

From Stdlib Require Import Sorted.
From S2P Require Import Prelude Text WindowsPath HostFs PathAuthority Json GitRecords GitAdapter HostLogic.
From S2P Require Import FilesystemFacts HostExamples GitAdapterProperties VerificationPlan.
From S2P Require FilesystemService.
#[local] Open Scope N_scope.

(** ** Choosing *)

(** Before: by priority, then by command; no two steps have the same command. *)
Definition step_before (a b : VerificationStep) : Prop :=
  vs_priority a < vs_priority b ∨
  vs_priority a = vs_priority b ∧ ustr_leb (vs_command a) (vs_command b) = true.
Lemma step_leb_before a b : step_leb a b = true → step_before a b.
Proof. unfold step_leb, step_before. destruct (N.eqb_spec (vs_priority a) (vs_priority b)); [auto|]. lia. Qed.
Lemma step_leb_after a b : step_leb a b = false → step_before b a.
Proof.
  unfold step_leb, step_before. destruct (N.eqb_spec (vs_priority a) (vs_priority b)); [|lia].
  intros ?%ustr_leb_total. auto.
Qed.
Lemma step_before_trans a b c : step_before a b → step_before b c → step_before a c.
Proof. unfold step_before. intros [?|[? Hab]] [?|[? Hbc]]; [left; lia..|]. right. split; [lia|]. by eapply ustr_leb_trans. Qed.

(** The first of the steps with the smallest priority for their command. *)
Definition preferred (steps : list VerificationStep) (s : VerificationStep) : Prop :=
  ∃ before after, steps = before ++ s :: after ∧
    Forall (λ s', vs_command s' = vs_command s → vs_priority s < vs_priority s') before ∧
    Forall (λ s', vs_command s' = vs_command s → vs_priority s ≤ vs_priority s') after.

Lemma preferred_snoc steps candidate s :
  preferred (steps ++ [candidate]) s ↔
  preferred steps s ∧ (vs_command candidate = vs_command s → vs_priority s ≤ vs_priority candidate) ∨
  s = candidate ∧ Forall (λ s', vs_command s' = vs_command s → vs_priority s < vs_priority s') steps.
Proof.
  split.
  - intros (before & after & Heq & Hbefore & Hafter). destruct after as [|x after _] using rev_ind.
    + apply app_inj_tail in Heq as [-> ->]. by right.
    + rewrite app_comm_cons, (assoc_L (++)) in Heq. apply app_inj_tail in Heq as [-> ->].
      apply Forall_app in Hafter as [Hafter [Hx _]%Forall_cons]. left. split; [|done]. by exists before, after.
  - intros [[(before & after & -> & Hbefore & Hafter) Hx]|[-> Hall]].
    + exists before, (after ++ [candidate]). rewrite <-(assoc_L (++)). split_and!; [done|done|].
      apply Forall_app. by repeat constructor.
    + exists steps, []. by split_and!.
Qed.
Lemma preferred_unique steps a b :
  preferred steps a → preferred steps b → vs_command a = vs_command b → a = b.
Proof.
  revert a b. induction steps as [|x steps IH] using rev_ind; intros a b.
  { intros (before & after & Heq & _). by destruct before. }
  intros Ha%preferred_snoc Hb%preferred_snoc Hab.
  destruct Ha as [[Ha Hxa]|[-> Ha]], Hb as [[Hb Hxb]|[-> Hb]]; [by apply IH|..|done]; exfalso.
  - destruct Ha as (before & after & -> & _). apply Forall_app in Hb as [_ [Hb _]%Forall_cons].
    specialize (Hxa (eq_sym Hab)). specialize (Hb Hab). lia.
  - destruct Hb as (before & after & -> & _). apply Forall_app in Ha as [_ [Ha _]%Forall_cons].
    specialize (Hxb Hab). specialize (Ha (eq_sym Hab)). lia.
Qed.

Lemma kept_none steps command :
  foldl keep_first ∅ steps !! command = None ↔ Forall (λ s, vs_command s ≠ command) steps.
Proof.
  induction steps as [|x steps IH] using rev_ind; [done|]. rewrite foldl_app, Forall_app, Forall_singleton, <- IH. simpl.
  set (kept := foldl keep_first ∅ steps). unfold keep_first.
  destruct (decide (vs_command x = command)) as [<-|Hne].
  - destruct (kept !! vs_command x) eqn:Hx; [case_match|]; rewrite ?lookup_insert_eq; naive_solver.
  - destruct (kept !! vs_command x); [case_match|]; rewrite ?lookup_insert_ne by done; tauto.
Qed.
(** The map holds the preferred step of every command. *)
Lemma kept_is_preferred steps command s :
  foldl keep_first ∅ steps !! command = Some s → vs_command s = command ∧ preferred steps s.
Proof.
  revert s. induction steps as [|x steps IH] using rev_ind; intros s; [done|].
  rewrite foldl_app, preferred_snoc. simpl. pose proof (kept_none steps command) as Hnone.
  set (kept := foldl keep_first ∅ steps) in *. unfold keep_first.
  destruct (decide (vs_command x = command)) as [<-|Hne].
  2: { intros Hs. assert (kept !! command = Some s) as Hkept.
       { destruct (kept !! vs_command x); [case_match|]; by rewrite ?lookup_insert_ne in Hs. }
       apply IH in Hkept as [<- Hpref]. split; [done|]. left. split; [done|by intros]. }
  destruct (kept !! vs_command x) as [y|] eqn:Hy.
  - destruct (IH _ eq_refl) as [Hcommand Hpref]. destruct (N.leb_spec (vs_priority y) (vs_priority x)) as [Hle|Hlt].
    + rewrite Hy. intros [= <-]. split; [done|]. left. by split.
    + rewrite lookup_insert_eq. intros [= <-]. split; [done|]. right. split; [done|].
      destruct Hpref as (before & after & -> & Hbefore & Hafter). rewrite Hcommand in Hbefore, Hafter.
      apply Forall_app. split; [|constructor; [done|]]; (eapply Forall_impl; [eassumption|]);
        intros z Hz Hzx; specialize (Hz Hzx); lia.
  - rewrite lookup_insert_eq. intros [= <-]. split; [done|]. right. split; [done|].
    eapply Forall_impl; [by apply Hnone|]. by intros z Hz ?.
Qed.
Lemma preferred_is_kept steps s : preferred steps s → foldl keep_first ∅ steps !! vs_command s = Some s.
Proof.
  intros Hs. destruct (foldl keep_first ∅ steps !! vs_command s) as [k|] eqn:Hk.
  - apply kept_is_preferred in Hk as [Hcommand Hk]. by rewrite (preferred_unique _ _ _ Hk Hs Hcommand).
  - exfalso. apply kept_none in Hk. destruct Hs as (before & after & -> & _).
    by apply Forall_app in Hk as [_ [? _]%Forall_cons].
Qed.

Lemma choose_perm steps : choose_steps steps ≡ₚ (map_to_list (foldl keep_first ∅ steps)).*2.
Proof. unfold choose_steps. rewrite sort_by_perm. apply fmap_Permutation, sort_by_perm. Qed.
Lemma elem_of_choose steps s : s ∈ choose_steps steps ↔ preferred steps s.
Proof.
  rewrite choose_perm, list_elem_of_fmap. split.
  - intros ([command k] & -> & Hk%elem_of_map_to_list). by apply kept_is_preferred in Hk as [_ ?].
  - intros Hs. exists (vs_command s, s). split; [done|]. by apply elem_of_map_to_list, preferred_is_kept.
Qed.
Lemma chosen_were_proposed (P : VerificationStep → Prop) steps : Forall P steps → Forall P (choose_steps steps).
Proof.
  rewrite !Forall_forall. intros Hsteps s (before & after & -> & _)%elem_of_choose. apply Hsteps. set_solver.
Qed.

(** A plan consists of exactly the preferred steps among those that
    were proposed - for every command that was proposed, the step of the smallest
    priority, and the first of these - each command once, in the order of their
    priorities and, for one priority, of their commands. *)
Theorem plan_is_ordered_choice steps :
  StronglySorted step_before (choose_steps steps) ∧ NoDup (vs_command <$> choose_steps steps) ∧
  ∀ s, s ∈ choose_steps steps ↔ preferred steps s.
Proof.
  split_and!; [apply sort_by_sorted; [exact step_leb_before|exact step_leb_after|exact step_before_trans]| |apply elem_of_choose].
  rewrite choose_perm. set (kept := foldl keep_first ∅ steps).
  assert (vs_command <$> (map_to_list kept).*2 = (map_to_list kept).*1) as ->; [|apply NoDup_fst_map_to_list].
  rewrite <- list_fmap_compose. apply list_fmap_ext. intros i [command k] Hk%list_elem_of_lookup_2%elem_of_map_to_list.
  by apply kept_is_preferred in Hk as [? _].
Qed.

(** ** The search for manifests *)

Section search.
Context `{Windows} `{Faults}.
Implicit Types (fs : Fs) (authority : WorkspaceResolver).

(** A file whose final path the authority allows. *)
Definition allowed_file (fs : Fs) (authority : WorkspaceResolver) (p : Path) : Prop :=
  ∃ f n, follows fs p = Some f ∧ fs !! f = Some n ∧ node_is_file n = true ∧
    allows_canonical authority (verbatim f) = true.
(** The project's directories that are searched: below its root through at most
    four directories that are not excluded, are no links and are in the authority. *)
Inductive searched (fs : Fs) (authority : WorkspaceResolver) (root : Path) : Path → nat → Prop :=
  | searched_root : searched fs authority root root 0
  | searched_below d depth name f n canonical :
      searched fs authority root d depth → (depth < 4)%nat → excluded_directory name = false →
      opens fs (join_name d name) = Some f → fs !! f = Some n → node_is_dir n = true →
      verbatim <$> follows fs (join_name d name) = Some canonical → allows_canonical authority canonical = true →
      searched fs authority root (join_name d name) (S depth).
Definition project_manifest (fs : Fs) (authority : WorkspaceResolver) (root : Path) (file_name : ustr) (p : Path) : Prop :=
  ∃ d depth, searched fs authority root d depth ∧ p = join_name d file_name ∧ allowed_file fs authority p.

Lemma reads_is_allowed_file fs {E : Type} authority candidate :
  reads fs (is_allowed_file (E := E) authority candidate) (λ allowed, allowed = true → allowed_file fs authority candidate).
Proof.
  unfold is_allowed_file, os_is_file, os_metadata. eapply reads_bind.
  { eapply reads_bind; [eapply reads_try, reads_query|]. intros r Hr. cbv beta. apply (reads_ret _ _ (λ b, b = true →
      ∃ f n, follows fs candidate = Some f ∧ fs !! f = Some n ∧ node_is_file n = true)).
    destruct r as [n|]; [|done]. intros Hn. destruct (follows fs candidate) as [f|] eqn:Hf; [|done]. csimpl in Hr.
    exists f, n. by destruct (fs !! f) eqn:Hnode; simplify_eq/=. }
  intros [] Hfile; [|by apply reads_ret]. destruct (Hfile eq_refl) as (f & n & Hf & Hn & Hkind).
  eapply reads_bind; [eapply reads_try, reads_os_canonicalize|]. intros [canonical|] Hcanonical; apply reads_ret; [|done].
  rewrite Hf in Hcanonical. injection Hcanonical as <-. intros. by exists f, n.
Qed.

Lemma reads_manifest_child fs {E : Type} authority directory name :
  reads fs (manifest_child (E := E) authority directory name)
    (λ children, (length children ≤ 1)%nat ∧
       Forall (λ child, ∀ root depth, searched fs authority root directory depth → (depth < 4)%nat →
                 searched fs authority root child (S depth)) children).
Proof.
  unfold manifest_child. eapply (reads_bind _ _ _ (λ _, True)); [reads|]. intros entry _.
  eapply reads_bind; [eapply reads_try; unfold os_symlink_metadata; apply reads_query|]. intros file_type Hnode.
  destruct entry; [|by apply reads_ret; repeat constructor]. destruct file_type as [n|]; [|by apply reads_ret; repeat constructor].
  destruct (negb (node_is_dir n)) eqn:Hdir; [by apply reads_ret; repeat constructor|].
  destruct (nd_symlink n); [by apply reads_ret; repeat constructor|]. simpl.
  destruct (excluded_directory name) eqn:Hexcluded; [by apply reads_ret; repeat constructor|].
  eapply reads_bind; [eapply reads_try, reads_os_canonicalize|]. intros [canonical|] Hcanonical; [|by apply reads_ret; repeat constructor].
  destruct (allows_canonical authority canonical) eqn:Hallowed; apply reads_ret; [|by repeat constructor].
  split; [done|]. constructor; [|constructor]. intros root depth Hd Hdepth.
  destruct (opens fs (join_name directory name)) as [f|] eqn:Hf; [|done]. csimpl in Hnode.
  destruct (fs !! f) eqn:Hn; simplify_eq/=. by eapply searched_below; try eassumption; apply negb_false_iff.
Qed.

Lemma reads_collect_length fs {E A B : Type} (f : A → M E (list B)) (P : B → Prop) l :
  (∀ x, reads fs (f x) (λ ys, (length ys ≤ 1)%nat ∧ Forall P ys)) →
  reads fs (collect_each f l) (λ ys, (length ys ≤ length l)%nat ∧ Forall P ys).
Proof.
  intros Hf. induction l as [|x l IH]; simpl; [by apply reads_ret|].
  eapply reads_bind; [apply Hf|]. intros ys [Hys Pys]. eapply reads_bind; [apply IH|]. intros zs [Hzs Pzs].
  apply reads_ret. rewrite length_app. split; [lia|]. by apply Forall_app.
Qed.
Lemma children_length fs d : (length (children fs d) ≤ size fs)%nat.
Proof.
  unfold children. transitivity (length (map_to_list fs).*1); [|by rewrite length_fmap, length_map_to_list].
  induction (map_to_list fs).*1 as [|p l IH]; csimpl; [done|]. destruct (child_name d p); simpl; lia.
Qed.
Lemma reads_manifest_children fs {E : Type} authority directory depth :
  reads fs (manifest_children (E := E) authority directory depth)
    (λ children, (length children ≤ size fs)%nat ∧
       Forall (λ '(child, depth'), ∀ root, searched fs authority root directory depth →
                 searched fs authority root child depth') children).
Proof.
  unfold manifest_children. destruct (Nat.leb_spec MAX_MANIFEST_DEPTH depth) as [|Hdepth].
  { apply reads_ret. split; [simpl; lia|constructor]. }
  eapply reads_bind; [eapply reads_try; unfold os_read_dir; apply reads_query|]. intros [names|] Hnames.
  2: { apply reads_ret. split; [simpl; lia|constructor]. }
  eapply reads_bind; [apply reads_collect_length; intros name; apply reads_manifest_child|]. intros found [Hlength Hfound].
  apply reads_ret. rewrite length_map, (Permutation_length (sort_by_perm _ _)). split.
  - etrans; [exact Hlength|]. destruct (follows fs directory) as [f|]; [|done]. csimpl in Hnames.
    destruct (fs !! f) as [n|]; [|done]. destruct (node_is_dir n); [|done]. injection Hnames as <-. apply children_length.
  - apply Forall_map. rewrite sort_by_perm. eapply Forall_impl; [exact Hfound|]. cbn. intros child Hchild root Hd.
    by apply Hchild.
Qed.

(** *** The end of the search *)

(** Two continuations that agree on what a computation answers. *)
Lemma bind_agree fs {E A B : Type} (m : M E A) (f g : A → M E B) (Q : A → Prop) w :
  reads fs m Q → w_fs w = fs → (∀ a w', Q a → w_fs w' = fs → f a w' = g a w') → (m ≫= f) w = (m ≫= g) w.
Proof.
  intros Hm Hw Hfg. specialize (Hm w Hw). cbv [mbind ST_bind]. destruct (m w) as [w' [a|e]]; [|done].
  destruct Hm as [Hw' Ha]. by apply Hfg.
Qed.
(** The final paths there are. *)
Definition final_paths (fs : Fs) : gset Path := set_map verbatim (dom fs : gset Path).
Lemma size_list_to_set_le (l : list Path) : (size (list_to_set l : gset Path) ≤ length l)%nat.
Proof.
  induction l as [|x l IH]; simpl; [done|]. rewrite size_union_alt, size_singleton.
  assert (size ((list_to_set l : gset Path) ∖ {[x]}) ≤ size (list_to_set l : gset Path))%nat; [|lia].
  apply subseteq_size. set_solver.
Qed.
Lemma final_paths_size fs : (size (final_paths fs) ≤ size fs)%nat.
Proof.
  unfold final_paths, set_map. etrans; [apply size_list_to_set_le|]. rewrite length_fmap.
  change (size (dom fs : gset Path) ≤ size fs)%nat. by rewrite size_dom.
Qed.
Lemma followed_is_final fs p canonical : verbatim <$> follows fs p = Some canonical → canonical ∈ final_paths fs.
Proof.
  intros (f & Hf & ->)%fmap_Some. apply follows_object in Hf as (n & Hn & _).
  unfold final_paths. apply elem_of_map. exists f. split; [done|]. by eapply elem_of_dom_2.
Qed.

(** Entries left on the stack, and those the objects not yet seen can add. *)
Definition search_measure (fs : Fs) (stack : list (Path * nat)) (seen : gset Path) : nat :=
  (length stack + size fs * (size fs - size seen))%nat.
Lemma seen_grows fs seen canonical :
  seen ⊆ final_paths fs → canonical ∈ final_paths fs → canonical ∉ seen →
  (size ({[canonical]} ∪ seen) = S (size seen) ∧ S (size seen) ≤ size fs)%nat.
Proof.
  intros Hseen Hin Hnew. assert (Hsize : size ({[canonical]} ∪ seen) = S (size seen)).
  { rewrite size_union by set_solver. by rewrite size_singleton. }
  split; [done|]. rewrite <- Hsize. etrans; [apply subseteq_size|apply final_paths_size]. set_solver.
Qed.

Lemma manifest_loop_enough fs {E : Type} authority file_name fuel fuel' stack seen found w :
  w_fs w = fs → seen ⊆ final_paths fs →
  (search_measure fs stack seen < fuel)%nat → (search_measure fs stack seen < fuel')%nat →
  manifest_loop (E := E) fuel authority file_name stack seen found w =
  manifest_loop fuel' authority file_name stack seen found w.
Proof.
  revert fuel' stack seen found w. unfold search_measure.
  induction fuel as [|fuel IH]; intros [|fuel'] stack seen found w Hw Hseen Hfuel Hfuel'; [lia..|].
  destruct stack as [|[directory depth] stack]; [done|]. simpl in Hfuel, Hfuel'. cbn [manifest_loop].
  destruct (MAX_MANIFESTS <=? length found)%nat; [done|].
  eapply bind_agree; [eapply reads_try, reads_os_canonicalize|exact Hw|].
  intros [canonical|] w1 Hcanonical Hw1; [|apply IH; (done || lia)].
  destruct (negb (allows_canonical authority canonical)); simpl; [apply IH; (done || lia)|].
  case_bool_decide as Hnew; [apply IH; (done || lia)|].
  apply followed_is_final in Hcanonical. destruct (seen_grows fs seen canonical Hseen Hcanonical Hnew) as [Hsize Hbound].
  eapply bind_agree; [apply reads_is_allowed_file|exact Hw1|]. intros allowed w2 _ Hw2.
  eapply bind_agree; [apply reads_manifest_children|exact Hw2|]. intros children w3 [Hchildren _] Hw3.
  assert ((size fs * (size fs - size seen) = size fs + size fs * (size fs - S (size seen)))%nat) as Hmeasure.
  { replace (size fs - size seen)%nat with (S (size fs - S (size seen)))%nat by lia. lia. }
  apply IH; [done|set_solver|rewrite length_app, Hsize; lia..].
Qed.

Lemma reads_search_loop fs {E : Type} authority root file_name fuel stack seen found :
  Forall (λ '(d, depth), searched fs authority root d depth) stack →
  Forall (project_manifest fs authority root file_name) found → (length found ≤ MAX_MANIFESTS)%nat →
  reads fs (manifest_loop (E := E) fuel authority file_name stack seen found)
    (λ found, Forall (project_manifest fs authority root file_name) found ∧ (length found ≤ MAX_MANIFESTS)%nat).
Proof.
  revert stack seen found. induction fuel as [|fuel IH]; intros stack seen found Hstack Hfound Hlength; [by apply reads_ret|].
  destruct stack as [|[directory depth] stack]; [by apply reads_ret|]. cbn [manifest_loop].
  apply Forall_cons in Hstack as [Hdirectory Hstack].
  destruct (Nat.leb_spec MAX_MANIFESTS (length found)) as [|Hmore]; [by apply reads_ret|].
  eapply reads_bind; [eapply reads_try, reads_os_canonicalize|]. intros [canonical|] _; [|by apply IH].
  destruct (_ || _); [by apply IH|].
  eapply reads_bind; [apply reads_is_allowed_file|]. intros allowed Hallowed.
  eapply reads_bind; [apply reads_manifest_children|]. intros children [_ Hchildren]. apply IH.
  - apply Forall_app. split; [|done]. eapply Forall_impl; [exact Hchildren|]. intros [child depth'] Hchild. by apply Hchild.
  - destruct allowed; [|done]. apply Forall_app. split; [done|]. apply Forall_singleton. exists directory, depth. auto.
  - destruct allowed; [|done]. rewrite length_app. simpl. lia.
Qed.
Lemma dedup_paths_sublist l : dedup_paths l `sublist_of` l.
Proof.
  induction l as [|a [|b l] IH]; [done..|]. cbn [dedup_paths] in *. case_decide; [by apply sublist_cons|by apply sublist_skip].
Qed.
Lemma dedup_sorted_paths (P : Path → Prop) l : Forall P l → Forall P (dedup_paths (sort_by path_leb l)).
Proof.
  intros Hl. apply Forall_forall. intros x Hx. eapply Forall_forall; [exact Hl|].
  rewrite <- (sort_by_perm path_leb l). eapply elem_of_submseteq; [exact Hx|]. apply sublist_submseteq, dedup_paths_sublist.
Qed.
Lemma reads_manifest_files fs {E : Type} self file_name :
  reads fs (manifest_files (E := E) self file_name)
    (λ found, Forall (project_manifest fs (vp_authority self) (vp_project_root self) file_name) found ∧
       (length found ≤ MAX_MANIFESTS)%nat).
Proof.
  intros w Hw. unfold manifest_files. revert w Hw. change (w_fs ?w) with (fs_of w).
  intros w Hw. pose proof (reads_search_loop fs (vp_authority self) (vp_project_root self) file_name (E := E)
    (manifest_fuel (w_fs w)) [(vp_project_root self, 0%nat)] ∅ []) as Hloop.
  eapply (reads_bind fs _ _ _ _ (Hloop _ _ _)); [|exact Hw]. Unshelve.
  - intros found [Hfound Hlength]. apply reads_ret. split; [by apply dedup_sorted_paths|].
    etrans; [|exact Hlength]. rewrite (sublist_length _ _ (dedup_paths_sublist _)). by rewrite sort_by_perm.
  - repeat constructor.
  - constructor.
  - apply Nat.le_0_l.
Qed.

(** The search for manifests ends, whichever calls fail, also
    where links make directories appear again: more steps than the bound it is
    given change nothing. What it finds are at most 24 files, each in a directory
    of the project at most four levels down that no excluded name and no link
    leads to, and each with a final path the authority allows. *)
Theorem manifest_search_ends self file_name more w :
  manifest_loop (E := Empty_set) (manifest_fuel (w_fs w) + more) (vp_authority self) file_name
    [(vp_project_root self, 0%nat)] ∅ [] w =
  manifest_loop (manifest_fuel (w_fs w)) (vp_authority self) file_name [(vp_project_root self, 0%nat)] ∅ [] w ∧
  let '(w', found) := manifest_files (E := Empty_set) self file_name w in
  w_fs w' = w_fs w ∧ ∃ paths, found = Ok paths ∧ (length paths ≤ 24)%nat ∧
    Forall (project_manifest (w_fs w) (vp_authority self) (vp_project_root self) file_name) paths.
Proof.
  split.
  - apply (manifest_loop_enough (w_fs w)); [done|set_solver|unfold search_measure, manifest_fuel; rewrite size_empty; simpl; lia..].
  - pose proof (reads_manifest_files (w_fs w) (E := Empty_set) self file_name w eq_refl) as Hfiles.
    destruct (manifest_files self file_name w) as [w' [paths|[]]]. destruct Hfiles as (Hw & Hpaths & Hlength). eauto 6.
Qed.

(** ** Where the commands come from *)

Section proposals.
Context `{JsonText} `{FilesystemService.Unicode}.

(** The steps a planner may propose. *)
Inductive proposed (fs : Fs) (self : VerificationPlanner) : VerificationStep → Prop :=
  | proposed_instruction path command evidence :
      allowed_file fs (vp_authority self) path → is_supported_project_command command = true →
      (byte_len command ≤ 512)%nat → 0x0A ∉ command → 0x0D ∉ command →
      proposed fs self (step 10 "project_instruction" command "project_instruction" evidence)
  | proposed_script path priority kind arguments evidence :
      project_manifest fs (vp_authority self) (vp_project_root self) (lit "package.json") path →
      (priority, kind, arguments) ∈
        [(20, "changed_file_targeted", "run test:changed"); (20, "changed_file_targeted", "run test:targeted");
         (30, "lint_typecheck", "run lint"); (30, "lint_typecheck", "run typecheck");
         (40, "project_gate", "test"); (40, "project_gate", "run build")]%string →
      (priority = 20 → vp_changed_files self ≠ []) →
      proposed fs self (step priority kind (npm_prefix self path ++ lit " " ++ lit arguments) "package_script" evidence)
  | proposed_crate path locked s :
      project_manifest fs (vp_authority self) (vp_project_root self) (lit "Cargo.toml") path →
      s ∈ cargo_manifest_steps self path locked → proposed fs self s
  | proposed_git :
      proposed fs self (step 50 "git_diff_checks" (lit "git diff --check") "git" (lit "project Git repository")).

Lemma dedup_elem (l : list ustr) x : x ∈ dedup l → x ∈ l.
Proof.
  induction l as [|a [|b l] IH]; [done..|]. cbn [dedup] in *. case_decide.
  - intros Hx%IH. by right.
  - intros [->|Hx%IH]%elem_of_cons; [left|by right].
Qed.
Lemma instruction_spans_supported segments command :
  command ∈ instruction_spans segments →
  is_supported_project_command command = true ∧ (byte_len command ≤ 512)%nat ∧
  (0x0A ∉ command) ∧ (0x0D ∉ command).
Proof.
  induction segments as [segments IH] using (induction_ltof1 _ length). destruct segments as [|prose [|segment segments]]; [set_solver..|].
  cbn [instruction_spans]. intros [Hhere|Hrest]%elem_of_app; [|eapply IH; [|exact Hrest]; unfold ltof; simpl; lia].
  set (candidate := trim segment) in *. clearbody candidate. destruct (existsb _ candidate) eqn:Hbreaks; [set_solver|].
  destruct (Nat.ltb_spec 512 (byte_len candidate)); [set_solver|]. simpl in Hhere.
  destruct (is_negated_instruction prose); [set_solver|]. destruct (is_supported_project_command candidate) eqn:Hsupported; [|set_solver].
  apply list_elem_of_singleton in Hhere as ->. split_and!; [done|done|..]; intros Hin%list_elem_of_In;
    rewrite <- not_true_iff_false in Hbreaks; apply Hbreaks, existsb_exists; eexists; (split; [exact Hin|done]).
Qed.
Lemma instruction_commands_supported content command :
  command ∈ instruction_commands content →
  is_supported_project_command command = true ∧ (byte_len command ≤ 512)%nat ∧
  (0x0A ∉ command) ∧ (0x0D ∉ command).
Proof.
  unfold instruction_commands. intros Hcommand%dedup_elem. rewrite (sort_by_perm ustr_leb) in Hcommand.
  by eapply instruction_spans_supported.
Qed.

Lemma script_steps_proposed fs self path scripts :
  project_manifest fs (vp_authority self) (vp_project_root self) (lit "package.json") path →
  Forall (proposed fs self) (script_steps self path scripts).
Proof.
  intros Hpath. unfold script_steps. cbv zeta.
  assert (Hone : ∀ priority kind (arguments name : string) evidence,
    (priority, kind, arguments) ∈
      [(20, "changed_file_targeted", "run test:changed"); (20, "changed_file_targeted", "run test:targeted");
       (30, "lint_typecheck", "run lint"); (30, "lint_typecheck", "run typecheck");
       (40, "project_gate", "test"); (40, "project_gate", "run build")]%string →
    (priority = 20 → vp_changed_files self ≠ []) →
    Forall (proposed fs self) (if has_script scripts name
      then [step priority kind (npm_prefix self path ++ lit " " ++ lit arguments) "package_script" evidence] else [])).
  { intros. destruct (has_script scripts name); [|constructor]. apply Forall_singleton. by eapply proposed_script. }
  rewrite !Forall_app. split_and!.
  - case_bool_decide as Hchanged; [constructor|]. cbn [flat_map]. rewrite app_nil_r, Forall_app. split.
    + by apply (Hone 20 _ "run test:changed"%string); [apply (bool_decide_unpack _); vm_compute|].
    + by apply (Hone 20 _ "run test:targeted"%string); [apply (bool_decide_unpack _); vm_compute|].
  - cbn [flat_map]. rewrite app_nil_r, Forall_app. split.
    + by apply (Hone 30 _ "run lint"%string); [apply (bool_decide_unpack _); vm_compute|].
    + by apply (Hone 30 _ "run typecheck"%string); [apply (bool_decide_unpack _); vm_compute|].
  - by apply (Hone 40 _ "test"%string); [apply (bool_decide_unpack _); vm_compute|].
  - by apply (Hone 40 _ "run build"%string); [apply (bool_decide_unpack _); vm_compute|].
Qed.

Lemma reads_instruction_steps fs {E : Type} self :
  Forall (allowed_file fs (vp_authority self)) (vp_instruction_paths self) →
  reads fs (instruction_steps (E := E) self) (Forall (proposed fs self)).
Proof.
  intros Hpaths. apply reads_collect_each. intros path Hpath. eapply Forall_forall in Hpath; [|exact Hpaths].
  eapply reads_bind; [eapply reads_try; unfold os_read_to_string; apply reads_query|]. intros content _. apply reads_ret.
  destruct content as [content|]; [|constructor]. apply Forall_map, Forall_forall.
  intros command (Hsupported & Hlength & Hlf & Hcr)%instruction_commands_supported. by eapply proposed_instruction.
Qed.
Lemma reads_package_json_steps fs {E : Type} self :
  reads fs (package_json_steps (E := E) self) (Forall (proposed fs self)).
Proof.
  eapply reads_bind; [apply reads_manifest_files|]. intros manifests [Hmanifests _]. apply reads_collect_each.
  intros path Hpath. eapply Forall_forall in Hpath; [|exact Hmanifests].
  eapply reads_bind; [eapply reads_try; unfold os_read_to_string; apply reads_query|]. intros content _. apply reads_ret.
  cbv zeta. destruct ((_ ≫= get _) ≫= as_object); [by apply script_steps_proposed|constructor].
Qed.
Lemma reads_cargo_steps fs {E : Type} self : reads fs (cargo_steps (E := E) self) (Forall (proposed fs self)).
Proof.
  eapply reads_bind; [apply reads_manifest_files|]. intros manifests [Hmanifests _]. apply reads_collect_each.
  intros path Hpath. eapply Forall_forall in Hpath; [|exact Hmanifests].
  eapply (reads_bind _ _ _ (λ _, True)).
  { destruct (path_parent path); [|by apply reads_ret]. unfold os_is_file, os_metadata. reads. }
  intros locked _. apply reads_ret, Forall_forall. intros s Hs. by eapply proposed_crate.
Qed.
Lemma reads_git_root_above fs {E : Type} fuel directory : reads fs (git_root_above (E := E) fuel directory) (λ _, True).
Proof. revert directory. induction fuel; simpl; reads. Qed.
Lemma reads_plan fs {E : Type} self :
  Forall (allowed_file fs (vp_authority self)) (vp_instruction_paths self) →
  reads fs (plan (E := E) self) (Forall (proposed fs self)).
Proof.
  intros Hpaths. unfold plan.
  eapply reads_bind; [by apply reads_instruction_steps|]. intros instructions Hinstructions.
  eapply reads_bind; [apply reads_package_json_steps|]. intros packages Hpackages.
  eapply reads_bind; [apply reads_cargo_steps|]. intros crates Hcrates.
  eapply reads_bind; [apply reads_git_root_above|]. intros repository _. apply reads_ret, chosen_were_proposed.
  rewrite !Forall_app. split_and!; [done..|]. destruct repository; [|constructor]. apply Forall_singleton, proposed_git.
Qed.

Lemma reads_instruction_loop fs {E : Type} authority fuel directory :
  reads fs (instruction_loop (E := E) fuel authority directory) (Forall (allowed_file fs authority)).
Proof.
  revert directory. induction fuel as [|fuel IH]; intros directory; simpl; [by apply reads_ret|].
  eapply reads_bind.
  { apply reads_collect_each. intros relative _. cbv zeta. eapply reads_bind; [apply reads_is_allowed_file|].
    intros allowed Hallowed. apply (reads_ret _ _ (Forall (allowed_file fs authority))).
    destruct allowed; [|constructor]. by apply Forall_singleton, Hallowed. }
  intros here Hhere. destruct (discovery_stops_at authority directory); [by apply reads_ret|].
  destruct (path_parent directory); [|by apply reads_ret].
  eapply reads_bind; [apply IH|]. intros above Habove. apply reads_ret. by apply Forall_app.
Qed.
Lemma resolved_root_is_allowed fs authority raw :
  reads fs (resolve_existing authority raw) (λ root, allows_canonical authority root = true).
Proof.
  unfold resolve_existing. do 5 (eapply (reads_bind _ _ _ (λ _, True)); [reads|]; intros ? _).
  eapply reads_bind; [apply reads_ensure|]. cbv beta. intros _ Hallowed. by apply reads_ret.
Qed.
Context `{Git}.

(** Whatever the project holds and whichever calls fail, planning its
    verification leaves the file system as it is and runs git only as the git
    tools may. Every command it proposes is a supported one, on one line, from
    an instruction file the authority allows; one of six scripts of npm or the
    checks of cargo, for a manifest found in the directories of the project that are
    searched; or the check of git's differences - and scripts for changed files only if there are any. *)
Theorem plan_only_checks_the_project authority project_path w recorded :
  let '((w', recorded'), planned) := coding_verification_plan authority project_path (w, recorded) in
  w_fs w' = w_fs w ∧ (∃ new, recorded' = recorded ++ new ∧ Forall (confined_run (w_fs w) authority) new) ∧
  ∀ steps, planned = Ok steps → ∃ self chosen,
    vp_authority self = authority ∧ allows_canonical authority (vp_project_root self) = true ∧
    steps = map step_json chosen ∧ Forall (proposed (w_fs w) self) chosen.
Proof.
  assert (Hplan : invokes (w_fs w) (confined_run (w_fs w) authority) (coding_verification_plan authority project_path)
    (λ steps, ∃ self chosen, vp_authority self = authority ∧ allows_canonical authority (vp_project_root self) = true ∧
       steps = map step_json chosen ∧ Forall (proposed (w_fs w) self) chosen)).
  { unfold coding_verification_plan, with_authority. eapply invokes_bind.
    - apply invokes_map_error. eapply invokes_bind; [apply invokes_on_world, resolved_root_is_allowed|]. intros root Hroot.
      eapply (invokes_bind _ _ _ _ (λ _, True)); [apply invokes_on_world; reads|]. intros directory _.
      eapply invokes_bind; [apply invokes_ensure|]. intros _ _.
      eapply invokes_bind; [apply invokes_on_world, reads_instruction_loop|]. intros paths Hpaths.
      eapply invokes_bind; [apply invokes_map_error, changed_paths_is_confined|]. intros changed _.
      apply (invokes_ret _ _ _ (λ self, vp_authority self = authority ∧ allows_canonical authority (vp_project_root self) = true ∧
        Forall (allowed_file (w_fs w) (vp_authority self)) (vp_instruction_paths self))).
      split_and!; [done|done|]. by apply dedup_sorted_paths.
    - intros self (Hauthority & Hroot & Hpaths). eapply invokes_bind; [by apply invokes_on_world, reads_plan|].
      intros chosen Hchosen. apply invokes_ret. eauto 6. }
  specialize (Hplan w recorded eq_refl). destruct (coding_verification_plan _ _ _) as [[w' recorded'] planned].
  destruct Hplan as (Hw & Hnew & Hplan). split_and!; [done|done|]. by intros steps ->.
Qed.
End proposals.
End search.

(** ** A concrete project *)

#[local] Existing Instance demo_json.
#[local] Existing Instance plain_windows.
#[local] Existing Instance ascii_unicode.
#[local] Instance plain_faults : Faults := failing [].
#[local] Instance no_git : Git := {| git_answers _ _ _ _ := Err []; path_directories := [] |}.
(** Every manifest has a script that lints. *)
#[local] Instance lint_scripts : JsonText := {|
  json_of_text _ := Some (obj [("scripts", obj [("lint", js "eslint .")]%string)]%string)
|}.
(** A crate, a package and instructions; the drive is a repository. *)
Definition project_fs : Fs := <[path_of "C:\.git" := new_dir None]> (
  <[path_of "C:\work\AGENTS.md" := new_file (lit "Run `cargo fmt`. Never run `npm test`.") None]> (
  <[path_of "C:\work\core" := new_dir None]> (<[path_of "C:\work\core\Cargo.toml" := new_file [] None]> (
  <[path_of "C:\work\core\Cargo.lock" := new_file [] None]> (
  <[path_of "C:\work\a&calc" := new_dir None]> (<[path_of "C:\work\a&calc\package.json" := new_file [] None]> (
  <[path_of "C:\work\dist" := new_dir None]> (<[path_of "C:\work\dist\package.json" := new_file [] None]> example_fs)))))))).
Definition demo_plan :=
  snd (coding_verification_plan (FilesystemService.svc_authority example_service) (lit ".") (MkWorld project_fs 0 0, [])).

(** The name of a directory is put into the command line of [cmd] as it is; the
    differences that are checked are those of a repository outside the workspace. *)
Example plan_of_a_project :
  (λ steps, map (λ s, default [] (get_str (lit "command") s)) steps) <$> (match demo_plan with Ok steps => Some steps | Err _ => None end) =
  Some (map lit ["cargo fmt"; "cargo clippy --manifest-path core/Cargo.toml --all-targets --all-features --locked -- -D warnings";
                 "npm --prefix a&calc run lint"; "cargo test --manifest-path core/Cargo.toml --locked"; "git diff --check"]%string).
Proof. vm_compute. reflexivity. Qed.
(** Only the command that directly follows the prohibition is taken to be
    prohibited, and only the beginning of a command is compared. *)
Example prohibited_command_is_proposed :
  instruction_commands (lit "Never run `npm test` or `cargo test`.") = [lit "cargo test"].
Proof. vm_compute. reflexivity. Qed.
Example any_ending_is_supported : is_supported_project_command (lit "npm test & rmdir /s /q src") = true.
Proof. vm_compute. reflexivity. Qed.
