(* ===== verification/Update.v ===== *)
(** * Update: release discovery and the single-owner update check

    [src/src-tauri/src/domain/update.rs] (versions, repositories, release links)
    and [src/src-tauri/src/control_plane/update.rs] (the update state, its lease
    and the publisher).  Semantic versions (the semver crate) are the interface
    [Semver].  Strings are their UTF-8 bytes. *)

From S2P Require Import Prelude Text Domain.
#[local] Open Scope N_scope.

(** ** Versions and repositories *)

(** The semver crate: parsing and the order of versions. *)
Class Semver := {
  version : Type;
  version_eq_dec :: EqDecision version;
  version_parse : ustr → option version;
  version_gt : version → version → bool
}.

(* @src domain/update.rs:38-41 ProductVersionError *)
Inductive ProductVersionError := VersionInvalid.

(* @src domain/update.rs:20-29 ProductVersion::parse *)
Definition parse_version `{Semver} (value : ustr) : result ProductVersionError version :=
  let trimmed := trim value in
  let normalized :=
    match strip_prefix (lit "v") trimmed with
    | Some rest => rest
    | None => default trimmed (strip_prefix (lit "V") trimmed)
    end in
  ok_or VersionInvalid (version_parse normalized).

(* @src domain/update.rs:8-8 GITHUB_REPOSITORY_MAX_BYTES *)
Definition GITHUB_REPOSITORY_MAX_BYTES : nat := 200.
(* @src domain/update.rs:9-9 OFFICIAL_GITHUB_REPOSITORY *)
Definition OFFICIAL_GITHUB_REPOSITORY : bytes := lit "zephyr7030/LocalBridge".

(* @src domain/update.rs:43-45 GitHubRepository *)
Record GitHubRepository := MkGitHubRepository { repository_str : bytes }.
(* @src domain/update.rs:101-104 GitHubRepositoryError *)
Inductive GitHubRepositoryError := RepositoryInvalid.

(* @src domain/update.rs:92-99 valid_repository_component *)
Definition valid_repository_component (value : bytes) : bool :=
  negb (bool_decide (value = [])) &&
  forallb (λ b, is_ascii_alphanumeric b || (b =? 0x2D) || (b =? 0x5F) || (b =? 0x2E)) value &&
  negb (bool_decide (value = lit ".")) && negb (bool_decide (value = lit "..")).

(* @src domain/update.rs:48-67 GitHubRepository::new *)
Definition new_repository (value : bytes) : result GitHubRepositoryError GitHubRepository :=
  if bool_decide (value = []) || (GITHUB_REPOSITORY_MAX_BYTES <? length value)%nat
  then Err RepositoryInvalid else
  match split_on (λ c, c =? 0x2F) value with
  | [owner; repository] =>
      if negb (valid_repository_component owner) || negb (valid_repository_component repository)
      then Err RepositoryInvalid else Ok (MkGitHubRepository value)
  | _ => Err RepositoryInvalid
  end.

(* @src domain/update.rs:78-80 GitHubRepository::latest_api_url *)
Definition latest_api_url (r : GitHubRepository) : bytes :=
  (lit "https://api.github.com/repos/" ++ repository_str r ++ lit "/releases/latest")%list.
(* @src domain/update.rs:82-84 GitHubRepository::releases_url *)
Definition releases_url (r : GitHubRepository) : bytes :=
  (lit "https://github.com/" ++ repository_str r ++ lit "/releases")%list.
(* @src domain/update.rs:86-89 GitHubRepository::owns_release_url *)
Definition owns_release_url (r : GitHubRepository) (value : bytes) : bool :=
  bool_decide (value = releases_url r) ||
  starts_with (lit "https://github.com/" ++ repository_str r ++ lit "/releases/")%list value.

#[export] Instance GitHubRepository_eq_dec : EqDecision GitHubRepository.
Proof. solve_decision. Defined.

(* @src domain/update.rs:129-132 ReleaseDiscoveryError *)
Inductive ReleaseDiscoveryError := ForeignReleaseUrl.
(* @src domain/update.rs:134-139 UpdateCheckTrigger *)
Inductive UpdateCheckTrigger := TriggerStartup | TriggerManual.
(* @src control_plane/update.rs:229-232 UpdatePublisherError *)
Inductive UpdatePublisherError := AlreadyBound.
(* @src control_plane/update.rs:234-239 UpdateStartError *)
Inductive UpdateStartError := SourceUnavailableError | AlreadyChecking | ThreadSpawnFailed.
(* @src control_plane/update.rs:241-244 UpdateTransitionError *)
Inductive UpdateTransitionError := NotOwned.
#[export] Instance UpdateCheckTrigger_eq_dec : EqDecision UpdateCheckTrigger.
Proof. solve_decision. Defined.

(* @src control_plane/update.rs:246-252 UpdateCheckLease *)
Record UpdateCheckLease := MkUpdateCheckLease {
  ul_operation_id : string;
  ul_attempts : N;
  ul_terminal : bool
}.
#[export] Instance eta_UpdateCheckLease : Eta UpdateCheckLease := λ r,
  MkUpdateCheckLease (ul_operation_id r) (ul_attempts r) (ul_terminal r).

Section semver.
Context `{Semver}.

(* @src domain/update.rs:106-110 ReleaseDiscovery *)
Record ReleaseDiscovery := MkReleaseDiscovery {
  rd_version : version;
  rd_release_url : bytes
}.
(* @src domain/update.rs:113-126 ReleaseDiscovery::new *)
Definition new_release (repository : GitHubRepository) (v : version) (release_url : bytes) :
    result ReleaseDiscoveryError ReleaseDiscovery :=
  if negb (owns_release_url repository release_url) then Err ForeignReleaseUrl
  else Ok (MkReleaseDiscovery v release_url).

(* @src domain/update.rs:141-181 UpdateLifecycle *)
Inductive UpdateLifecycle :=
  | SourceUnavailable (current_version : version) (reason : string)
  | UpdateIdle (current_version : version) (releases_url : bytes)
  | Checking (current_version : version) (releases_url : bytes) (operation_id : string)
      (trigger : UpdateCheckTrigger) (attempt : N) (started_at_ms : millis)
  | Current (current_version : version) (releases_url : bytes) (operation_id : string)
      (checked_at_ms : millis)
  | Available (current_version latest_version : version) (release_url : bytes)
      (operation_id : string) (checked_at_ms : millis)
  | UpdateFailed (current_version : version) (releases_url : bytes) (operation_id : string)
      (attempts : N) (checked_at_ms : millis) (error : OperationError).

#[export] Instance UpdateLifecycle_eq_dec : EqDecision UpdateLifecycle.
Proof. solve_decision. Defined.

(* @src domain/update.rs:184-205 UpdateLifecycle::current_version *)
Definition current_version (u : UpdateLifecycle) : version :=
  match u with
  | SourceUnavailable v _ | UpdateIdle v _ | Checking v _ _ _ _ _ | Current v _ _ _
  | Available v _ _ _ _ | UpdateFailed v _ _ _ _ _ => v
  end.

(* @src domain/update.rs:207-216 UpdateLifecycle::release_url *)
Definition release_url (u : UpdateLifecycle) : option bytes :=
  match u with
  | SourceUnavailable _ _ => None
  | UpdateIdle _ url | Checking _ url _ _ _ _ | Current _ url _ _ | UpdateFailed _ url _ _ _ _ =>
      Some url
  | Available _ _ url _ _ => Some url
  end.

(** ** The owner of the update state

    Every operation changes the state under its lock and then, after releasing
    it, publishes the new state: the transitions return what they will publish. *)

(* @src control_plane/update.rs:15-23 UpdateStateInner, UpdateStateOwner *)
Record UpdateStateInner := MkUpdateStateInner {
  us_current_version : version;
  us_repository : option GitHubRepository;
  us_state : UpdateLifecycle;
  (** a publisher is bound, and what it was called with so far *)
  us_publisher : bool;
  us_published : list UpdateLifecycle
}.
#[export] Instance eta_UpdateStateInner : Eta UpdateStateInner := λ r,
  MkUpdateStateInner (us_current_version r) (us_repository r) (us_state r) (us_publisher r)
    (us_published r).

(* @src control_plane/update.rs:44-61 UpdateStateOwner::new *)
Definition new_owner (v : version) (repository : option GitHubRepository) : UpdateStateInner :=
  MkUpdateStateInner v repository
    match repository with
    | Some repository => UpdateIdle v (releases_url repository)
    | None => SourceUnavailable v "github_repository_metadata_unavailable"
    end false [].

(** [bind_publisher] sets the slot; then it publishes a snapshot of the state. *)
(* @src control_plane/update.rs:63-76 UpdateStateOwner::bind_publisher *)
Definition bind_publisher (o : UpdateStateInner) :
    UpdateStateInner * result UpdatePublisherError unit :=
  if us_publisher o then (o, Err AlreadyBound) else (o <| us_publisher := true |>, Ok ()).

(* @src control_plane/update.rs:216-226 UpdateStateOwner::publish *)
Definition publish (state : UpdateLifecycle) (o : UpdateStateInner) : UpdateStateInner :=
  if us_publisher o then o <| us_published ::= λ l, (l ++ [state])%list |> else o.

(* @src control_plane/update.rs:90-120 UpdateStateOwner::begin *)
Definition begin (now : millis) (operation_id : string) (trigger : UpdateCheckTrigger)
    (o : UpdateStateInner) :
    UpdateStateInner * result UpdateStartError (UpdateCheckLease * UpdateLifecycle) :=
  match us_repository o with
  | None => (o, Err SourceUnavailableError)
  | Some repository =>
    match us_state o with
    | Checking _ _ _ _ _ _ => (o, Err AlreadyChecking)
    | _ =>
        let next := Checking (us_current_version o) (releases_url repository) operation_id
                      trigger 1 now in
        (o <| us_state := next |>, Ok (MkUpdateCheckLease operation_id 1 false, next))
    end
  end.

(* @src control_plane/update.rs:122-140 UpdateStateOwner::set_attempt *)
Definition set_attempt (operation_id : string) (attempt : N) (o : UpdateStateInner) :
    UpdateStateInner * result UpdateTransitionError UpdateLifecycle :=
  match us_state o with
  | Checking v url active trigger _ started =>
      if bool_decide (active = operation_id) then
        let next := Checking v url active trigger attempt started in
        (o <| us_state := next |>, Ok next)
      else (o, Err NotOwned)
  | _ => (o, Err NotOwned)
  end.

(* @src control_plane/update.rs:142-181 UpdateStateOwner::finish_success *)
Definition finish_success (now : millis) (operation_id : string) (release : ReleaseDiscovery)
    (o : UpdateStateInner) : UpdateStateInner * result UpdateTransitionError UpdateLifecycle :=
  match us_state o with
  | Checking _ url active _ _ _ =>
      if bool_decide (active = operation_id) then
        let next :=
          if version_gt (rd_version release) (us_current_version o)
          then Available (us_current_version o) (rd_version release) (rd_release_url release)
                 operation_id now
          else Current (us_current_version o) url operation_id now in
        (o <| us_state := next |>, Ok next)
      else (o, Err NotOwned)
  | _ => (o, Err NotOwned)
  end.

(* @src control_plane/update.rs:183-214 UpdateStateOwner::finish_failed *)
Definition finish_failed (now : millis) (operation_id : string) (attempts : N)
    (error : OperationError) (o : UpdateStateInner) :
    UpdateStateInner * result UpdateTransitionError UpdateLifecycle :=
  match us_state o with
  | Checking _ url active _ _ _ =>
      if bool_decide (active = operation_id) then
        let next := UpdateFailed (us_current_version o) url operation_id attempts now
                      (for_operation error operation_id) in
        (o <| us_state := next |>, Ok next)
      else (o, Err NotOwned)
  | _ => (o, Err NotOwned)
  end.

(** ** The lease *)

(** The state change and the lease of [UpdateCheckLease::set_attempt]. *)
(* @src control_plane/update.rs:259-263 UpdateCheckLease::set_attempt *)
Definition lease_set_attempt (attempt : N) (lease : UpdateCheckLease) (o : UpdateStateInner) :
    UpdateStateInner * UpdateCheckLease * result UpdateTransitionError UpdateLifecycle :=
  match set_attempt (ul_operation_id lease) attempt o with
  | (o, Ok next) => (o, lease <| ul_attempts := attempt |>, Ok next)
  | (o, Err e) => (o, lease, Err e)
  end.

Definition check_lost : OperationError :=
  new_error "Update.CheckLost" Internal "update check ended without a terminal result" true.

(** What dropping a lease publishes, if anything. *)
(* @src control_plane/update.rs:279-295 UpdateCheckLease::drop *)
Definition drop_lease (now : millis) (lease : UpdateCheckLease) (o : UpdateStateInner) :
    UpdateStateInner * list UpdateLifecycle :=
  if ul_terminal lease then (o, []) else
  match finish_failed now (ul_operation_id lease) (ul_attempts lease) check_lost o with
  | (o, Ok next) => (o, [next])
  | (o, Err _) => (o, [])
  end.

(** [succeed] and [fail] consume the lease: it is dropped at the end. *)
Definition consume_lease (now : millis) (lease : UpdateCheckLease)
    (settled : UpdateStateInner * result UpdateTransitionError UpdateLifecycle) :
    UpdateStateInner * list UpdateLifecycle * result UpdateTransitionError unit :=
  match settled with
  | (o, Ok next) =>
      let '(o, dropped) := drop_lease now (lease <| ul_terminal := true |>) o in
      (o, next :: dropped, Ok ())
  | (o, Err e) => (drop_lease now lease o, Err e)
  end.

(* @src control_plane/update.rs:265-269 UpdateCheckLease::succeed *)
Definition lease_succeed (now : millis) (release : ReleaseDiscovery) (lease : UpdateCheckLease)
    (o : UpdateStateInner) :=
  consume_lease now lease (finish_success now (ul_operation_id lease) release o).

(* @src control_plane/update.rs:271-276 UpdateCheckLease::fail *)
Definition lease_fail (now : millis) (error : OperationError) (lease : UpdateCheckLease)
    (o : UpdateStateInner) :=
  consume_lease now lease
    (finish_failed now (ul_operation_id lease) (ul_attempts lease) error o).

(** ** The update check as a machine *)

(** A [GitHubRepository] is only built by [GitHubRepository::new]. *)
Definition valid_repository (r : GitHubRepository) : Prop := new_repository (repository_str r) = Ok r.

Record UpdateSystem := MkUpdateSystem {
  sy_owner : UpdateStateInner;
  (** the leases that have been handed out and not yet consumed *)
  sy_leases : list UpdateCheckLease;
  (** publications whose state change has happened and that are yet to be made *)
  sy_pending : list UpdateLifecycle
}.
#[export] Instance eta_UpdateSystem : Eta UpdateSystem := λ r,
  MkUpdateSystem (sy_owner r) (sy_leases r) (sy_pending r).

Definition consume (sy : UpdateSystem) (i : nat)
    (r : UpdateStateInner * list UpdateLifecycle) : UpdateSystem :=
  MkUpdateSystem r.1 (delete i (sy_leases sy)) (sy_pending sy ++ r.2)%list.

Inductive update_step : UpdateSystem → UpdateSystem → Prop :=
  | StepBegin now op trigger o lease next sy :
      begin now op trigger (sy_owner sy) = (o, Ok (lease, next)) →
      update_step sy (MkUpdateSystem o (lease :: sy_leases sy) (sy_pending sy ++ [next]))
  | StepAttempt i lease attempt o lease' next sy :
      sy_leases sy !! i = Some lease →
      lease_set_attempt attempt lease (sy_owner sy) = (o, lease', Ok next) →
      update_step sy (MkUpdateSystem o (<[i := lease']> (sy_leases sy)) (sy_pending sy ++ [next]))
  | StepSucceed i lease now v url release sy :
      sy_leases sy !! i = Some lease →
      match us_repository (sy_owner sy) with
      | Some repository => new_release repository v url = Ok release
      | None => False
      end →
      update_step sy (consume sy i (lease_succeed now release lease (sy_owner sy)).1)
  | StepFail i lease now error sy :
      sy_leases sy !! i = Some lease →
      update_step sy (consume sy i (lease_fail now error lease (sy_owner sy)).1)
  | StepDrop i lease now sy :
      sy_leases sy !! i = Some lease →
      update_step sy (consume sy i (drop_lease now lease (sy_owner sy)))
  | StepBind sy :
      update_step sy (sy <| sy_owner ::= λ o, (bind_publisher o).1 |>)
  | StepBindSnapshot sy :
      us_publisher (sy_owner sy) = true →
      update_step sy (sy <| sy_pending ::= λ l, (l ++ [us_state (sy_owner sy)])%list |>)
  | StepPublish i state sy :
      sy_pending sy !! i = Some state →
      update_step sy (sy <| sy_owner ::= publish state |> <| sy_pending ::= delete i |>).

#[export] Instance update_machine : StateMachine UpdateSystem := {|
  sm_init sy := ∃ v repository, (∀ r, repository = Some r → valid_repository r) ∧
    sy = MkUpdateSystem (new_owner v repository) [] [];
  sm_step := update_step
|}.

(** The lease and the state agree, and links stay inside the repository. *)
Definition lease_agrees (sy : UpdateSystem) : Prop :=
  match us_state (sy_owner sy) with
  | Checking _ _ op _ attempt _ =>
      ∃ lease, sy_leases sy = [lease] ∧ ul_operation_id lease = op ∧
               ul_attempts lease = attempt ∧ ul_terminal lease = false
  | _ => sy_leases sy = []
  end.

Definition links_owned (o : UpdateStateInner) : Prop :=
  match us_repository o, release_url (us_state o) with
  | Some repository, Some url => owns_release_url repository url = true
  | None, Some _ => False
  | _, None => True
  end.

Record update_inv (sy : UpdateSystem) : Prop := {
  ui_lease : lease_agrees sy;
  ui_links : links_owned (sy_owner sy);
  ui_version : current_version (us_state (sy_owner sy)) = us_current_version (sy_owner sy);
  ui_valid r : us_repository (sy_owner sy) = Some r → valid_repository r
}.

Lemma releases_url_owned r : owns_release_url r (releases_url r) = true.
Proof. unfold owns_release_url. by rewrite bool_decide_eq_true_2. Qed.

(** The lease at an index is the only one, and the state is its check. *)
Lemma lease_unique sy i lease :
  update_inv sy → sy_leases sy !! i = Some lease →
  i = 0%nat ∧ sy_leases sy = [lease] ∧ ul_terminal lease = false ∧
  ∃ url trigger started, us_state (sy_owner sy) =
    Checking (us_current_version (sy_owner sy)) url (ul_operation_id lease) trigger
      (ul_attempts lease) started.
Proof.
  intros [Hl _ Hv _] Hi. unfold lease_agrees in Hl.
  destruct (us_state (sy_owner sy)) as [| |v url op trigger attempt started| | |] eqn:Hst;
    try by rewrite Hl in Hi.
  destruct Hl as (l & Hl & <- & <- & Ht). rewrite Hl in Hi.
  destruct i as [|i]; [|done]. injection Hi as ->. simpl in Hv. subst v. eauto 10.
Qed.

Lemma consume_inv sy lease o out state :
  update_inv sy → sy_leases sy = [lease] →
  o = sy_owner sy <| us_state := state |> →
  (match state with Checking _ _ _ _ _ _ => False | _ => True end) →
  links_owned o → current_version state = us_current_version (sy_owner sy) →
  update_inv (consume sy 0 (o, out)).
Proof.
  intros [_ _ _ ?] Hl -> Hst Hlinks Hv. split; simpl; [|done..].
  unfold lease_agrees. simpl. rewrite Hl. by destruct state.
Qed.

Lemma checking_links sy url op trigger attempt started :
  update_inv sy →
  us_state (sy_owner sy) = Checking (us_current_version (sy_owner sy)) url op trigger attempt started →
  ∃ repository, us_repository (sy_owner sy) = Some repository ∧ owns_release_url repository url = true.
Proof.
  intros [_ Hl _ _] Hst. unfold links_owned in Hl. rewrite Hst in Hl. simpl in Hl.
  destruct (us_repository (sy_owner sy)); [eauto|done].
Qed.

#[export] Instance update_invariant : Invariant update_inv.
Proof.
  split.
  { intros ? (v & [r|] & Hv & ->); split; simpl; try done; try apply releases_url_owned;
      intros r' [= <-]; by apply Hv. }
  intros sy sy' HI Hs. destruct Hs as [now op trigger o lease next sy Hb
    |i lease attempt o lease' next sy Hi Ha|i lease now v url release sy Hi Hrel
    |i lease now error sy Hi|i lease now sy Hi|sy|sy Hp|i state sy Hi].
  - unfold begin in Hb. destruct (us_repository (sy_owner sy)) as [r|] eqn:Hr; [|done].
    pose proof (ui_lease _ HI) as Hl. unfold lease_agrees in Hl.
    destruct (us_state (sy_owner sy)) eqn:Hst; simplify_eq; (split; simpl; [| | |apply HI]);
      unfold lease_agrees, links_owned; simpl; rewrite ?Hr, ?Hl; eauto using releases_url_owned.
  - destruct (lease_unique _ _ _ HI Hi) as (-> & Hl & Ht & url & trigger & started & Hst).
    destruct (checking_links _ _ _ _ _ _ HI Hst) as (r & Hr & Hown).
    unfold lease_set_attempt, set_attempt in Ha. rewrite Hst in Ha.
    rewrite bool_decide_eq_true_2 in Ha by done. simplify_eq. rewrite Hl. split; simpl.
    + unfold lease_agrees. simpl. by eexists.
    + unfold links_owned. simpl. by rewrite Hr.
    + done.
    + apply HI.
  - destruct (lease_unique _ _ _ HI Hi) as (-> & Hl & Ht & curl & trigger & started & Hst).
    destruct (checking_links _ _ _ _ _ _ HI Hst) as (r & Hr & Hown). rewrite Hr in Hrel.
    unfold new_release in Hrel. destruct (owns_release_url r url) eqn:Hurl; simplify_eq/=.
    unfold lease_succeed, finish_success. rewrite Hst, bool_decide_eq_true_2 by done. simpl.
    destruct (version_gt _ _); (eapply consume_inv; [done..| |done]);
      unfold links_owned; simpl; by rewrite Hr.
  - destruct (lease_unique _ _ _ HI Hi) as (-> & Hl & Ht & url & trigger & started & Hst).
    destruct (checking_links _ _ _ _ _ _ HI Hst) as (r & Hr & Hown).
    unfold lease_fail, finish_failed. rewrite Hst, bool_decide_eq_true_2 by done. simpl.
    eapply consume_inv; [done..| |done]. unfold links_owned. simpl. by rewrite Hr.
  - destruct (lease_unique _ _ _ HI Hi) as (-> & Hl & Ht & url & trigger & started & Hst).
    destruct (checking_links _ _ _ _ _ _ HI Hst) as (r & Hr & Hown).
    unfold drop_lease, finish_failed. rewrite Ht, Hst, bool_decide_eq_true_2 by done.
    eapply consume_inv; [done..| |done]. unfold links_owned. simpl. by rewrite Hr.
  - destruct HI. unfold bind_publisher. split; unfold lease_agrees, links_owned in *; simpl;
      by destruct (us_publisher (sy_owner sy)).
  - by destruct HI.
  - destruct HI. unfold publish. split; unfold lease_agrees, links_owned in *; simpl;
      by destruct (us_publisher (sy_owner sy)).
Qed.

(** ** Properties *)

(** An update check has exactly one owner.  A check is running
    iff exactly one lease is out, and that lease carries its operation id and
    attempt; a new check starts iff the release source is known and none is
    running; and whatever becomes of the lease - success, failure, or being
    dropped - the check ends, so the state never stays "checking". *)
Theorem update_check_single_owner sy (Hr : reachable sy) :
  lease_agrees sy ∧
  (∀ now op trigger, is_ok (begin now op trigger (sy_owner sy)).2 = true ↔
     is_Some (us_repository (sy_owner sy)) ∧ sy_leases sy = []) ∧
  (∀ i lease now, sy_leases sy !! i = Some lease →
     let op := ul_operation_id lease in let v := us_current_version (sy_owner sy) in
     (∃ url, us_state (drop_lease now lease (sy_owner sy)).1 =
        UpdateFailed v url op (ul_attempts lease) now (for_operation check_lost op)) ∧
     (∀ error, ∃ url, let '(o, _, r) := lease_fail now error lease (sy_owner sy) in
        r = Ok () ∧
        us_state o = UpdateFailed v url op (ul_attempts lease) now (for_operation error op)) ∧
     (∀ release, ∃ url, let '(o, _, r) := lease_succeed now release lease (sy_owner sy) in
        r = Ok () ∧
        us_state o = if version_gt (rd_version release) v
                     then Available v (rd_version release) (rd_release_url release) op now
                     else Current v url op now)).
Proof.
  apply (invariant_reachable update_inv) in Hr as HI. split_and!; [apply HI| |].
  - intros now op trigger. pose proof (ui_lease _ HI) as Hl. unfold lease_agrees in Hl.
    unfold begin. destruct (us_repository (sy_owner sy)) as [r|]; [|by split; [|intros [[? ?] _]]].
    destruct (us_state (sy_owner sy)); simpl; try by rewrite Hl.
    destruct Hl as (lease & -> & _). split; [done|by intros [_ ?]].
  - intros i lease now Hi op v.
    destruct (lease_unique _ _ _ HI Hi) as (-> & Hl & Ht & url & trigger & started & Hst).
    unfold lease_fail, lease_succeed, drop_lease, finish_failed, finish_success.
    rewrite Ht, Hst, bool_decide_eq_true_2 by done. split_and!.
    + by exists url.
    + intros error. by exists url.
    + intros release. exists url. by destruct (version_gt _ _).
Qed.

Lemma app_cons_unique (x : N) (l1 l2 t1 t2 : bytes) :
  x ∉ l1 → x ∉ l2 → (l1 ++ x :: t1 = l2 ++ x :: t2)%list → l1 = l2 ∧ t1 = t2.
Proof.
  revert l2. induction l1 as [|a l1 IH]; intros [|b l2] H1 H2 Heq; simplify_eq/=; try done.
  - set_solver.
  - set_solver.
  - rewrite not_elem_of_cons in H1, H2. destruct (IH l2) as [-> ->]; tauto.
Qed.

Lemma split_on_two f s o p :
  split_on f s = [o; p] → ∃ c, f c = true ∧ s = (o ++ c :: p)%list.
Proof.
  assert (∀ s w, split_on f s = [w] → s = w) as Hone.
  { clear. induction s as [|c s IH]; intros w; simpl; [by intros [= <-]|].
    destruct (f c); [by destruct s as [|? s]; simpl; [|destruct (f _); [|destruct (split_on f s)]]|].
    destruct (split_on f s) as [|w' [|]] eqn:Hs; intros [= <-];
      [by destruct s; simpl in Hs; [|destruct (f _); [|destruct (split_on f s)]]|].
    f_equal. by apply IH. }
  revert o. induction s as [|c s IH]; intros o; simpl; [done|]. destruct (f c) eqn:Hc.
  - intros [= <- Hs]. exists c. split; [done|]. by apply Hone in Hs as ->.
  - destruct (split_on f s) as [|w ws]; [done|]. intros [= <- ->].
    destruct (IH w eq_refl) as (c' & ? & ->). by exists c'.
Qed.

Lemma component_no_slash w : valid_repository_component w = true → (0x2F ∉ w).
Proof.
  unfold valid_repository_component. rewrite !andb_true_iff. intros [[[_ Hall] _] _] Hin.
  rewrite forallb_forall in Hall. by specialize (Hall _ (proj1 (list_elem_of_In _ _) Hin)).
Qed.

Lemma valid_repository_parts r :
  valid_repository r → ∃ o p, repository_str r = (o ++ 0x2F :: p)%list ∧ (0x2F ∉ o) ∧ (0x2F ∉ p).
Proof.
  unfold valid_repository, new_repository. destruct (_ || _); [done|].
  destruct (split_on _ _) as [|o [|p [|? ?]]] eqn:Hs; try done.
  destruct (negb _ || negb _) eqn:Hv; [done|]. intros _.
  apply orb_false_iff in Hv as [Ho%negb_false_iff Hp%negb_false_iff].
  apply split_on_two in Hs as (c & Hc%N.eqb_eq & Hr). subst c.
  exists o, p. eauto using component_no_slash.
Qed.

Lemma owns_release_url_shape r url :
  owns_release_url r url = true →
  ∃ rest, url = (lit "https://github.com/" ++ repository_str r ++ 0x2F :: rest)%list.
Proof.
  unfold owns_release_url. rewrite orb_true_iff, bool_decide_eq_true, starts_with_iff.
  intros [->|[v ->]].
  - by exists (lit "releases").
  - exists (lit "releases/" ++ v)%list. by rewrite <-!app_assoc.
Qed.

Lemma owns_release_url_unique r1 r2 url :
  valid_repository r1 → valid_repository r2 →
  owns_release_url r1 url = true → owns_release_url r2 url = true → r1 = r2.
Proof.
  intros (o1 & p1 & H1 & Ho1 & Hp1)%valid_repository_parts
    (o2 & p2 & H2 & Ho2 & Hp2)%valid_repository_parts
    (rest1 & ->)%owns_release_url_shape (rest2 & Heq)%owns_release_url_shape.
  apply app_inv_head in Heq. rewrite H1, H2, <-!app_assoc in Heq. simpl in Heq.
  apply app_cons_unique in Heq as [-> Heq]; [|done..].
  apply app_cons_unique in Heq as [-> _]; [|done..].
  destruct r1, r2. simpl in *. congruence.
Qed.

(** Every link the update state offers belongs to the configured
    repository and to no other valid one: with two path components that cannot
    contain a slash, a release URL determines its repository. *)
Theorem release_links_scoped sy url (Hr : reachable sy)
    (Hurl : release_url (us_state (sy_owner sy)) = Some url) :
  ∃ r, us_repository (sy_owner sy) = Some r ∧ owns_release_url r url = true ∧
       ∀ r', valid_repository r' → owns_release_url r' url = true → r' = r.
Proof.
  apply (invariant_reachable update_inv) in Hr as HI.
  pose proof (ui_links _ HI) as Hl. unfold links_owned in Hl. rewrite Hurl in Hl.
  destruct (us_repository (sy_owner sy)) as [r|] eqn:Hrepo; [|done].
  exists r. split_and!; [done..|]. intros r' Hv' Hown.
  eapply owns_release_url_unique; eauto using ui_valid.
Qed.

(** Publications happen outside the lock: what [bind_publisher] read may be
    published after a newer state, and then stays the last one published. *)
Lemma bind_publisher_may_publish_stale v r op now :
  valid_repository r →
  ∃ sy, reachable sy ∧ sy_pending sy = [] ∧
    last (us_published (sy_owner sy)) = Some (UpdateIdle v (releases_url r)) ∧
    us_state (sy_owner sy) = Checking v (releases_url r) op TriggerStartup 1 now.
Proof.
  intros Hv. assert (reachable (MkUpdateSystem (new_owner v (Some r)) [] [])) as Hr.
  { eexists. split; [|done]. exists v, (Some r). split; [|done]. by intros ? [= <-]. }
  eapply reachable_step in Hr; [|apply StepBind].
  eapply reachable_step in Hr; [|by apply StepBindSnapshot].
  eapply reachable_step in Hr; [|by apply (StepBegin now op TriggerStartup)].
  eapply reachable_step in Hr; [|by apply (StepPublish 1)].
  eapply reachable_step in Hr; [|by apply (StepPublish 0)].
  eexists. by split.
Qed.
End semver.

(** ** Witnesses *)

(** Versions as numbers, written in decimal digits. *)
Definition demo_semver : Semver := {|
  version := N;
  version_eq_dec := _;
  version_parse s := match s with [d] => Some (d - 0x30) | _ => None end;
  version_gt a b := b <? a
|}.
#[local] Existing Instance demo_semver.

Definition demo_repository : GitHubRepository := MkGitHubRepository OFFICIAL_GITHUB_REPOSITORY.

Definition demo_checking : UpdateSystem :=
  let o := begin 5 "op" TriggerManual (new_owner 1 (Some demo_repository)) in
  MkUpdateSystem o.1 [MkUpdateCheckLease "op" 1 false]
    [Checking 1 (releases_url demo_repository) "op" TriggerManual 1 5].

Lemma demo_checking_reachable : reachable demo_checking.
Proof.
  assert (reachable (MkUpdateSystem (new_owner 1 (Some demo_repository)) [] [])) as Hr.
  { eexists. split; [|done]. exists 1, (Some demo_repository). split; [|done]. by intros ? [= <-]. }
  eapply reachable_step in Hr; [|by apply (StepBegin 5 "op" TriggerManual)]. exact Hr.
Qed.

Lemma update_check_single_owner_witness :
  ∃ lease, sy_leases demo_checking = [lease] ∧
    is_ok (begin 6 "next" TriggerStartup (sy_owner demo_checking)).2 = false.
Proof.
  destruct (update_check_single_owner demo_checking demo_checking_reachable) as (_ & Hb & _).
  eexists. split; [done|]. apply not_true_iff_false. rewrite (Hb 6 "next"%string TriggerStartup).
  by intros [_ ?].
Defined.

Lemma release_links_scoped_witness :
  ∃ r, us_repository (sy_owner demo_checking) = Some r ∧
       owns_release_url r (releases_url demo_repository) = true.
Proof.
  destruct (release_links_scoped demo_checking (releases_url demo_repository)
    demo_checking_reachable eq_refl) as (r & ? & ? & _). by exists r.
Defined.
