(* ===== verification/Snapshot.v ===== *)
(** * Snapshot: the versioned projection every reader sees

    [src/src-tauri/src/control_plane/snapshot.rs].  One owner publishes a
    snapshot of the control plane in sections; a section is ready, temporarily
    unavailable or faulted, and may carry a stale value.  The revision changes
    only with the content.  [SettingsProjection::from_app_data] (file-system
    validation of the remembered workspaces) and the blocking [wait_after] are
    not modelled. *)

From S2P Require Import Prelude Text Domain TaskSummary StateModel Scheduler Convergence Update.
#[local] Open Scope N_scope.

(** ** Sections *)

(* @src control_plane/snapshot.rs:16-22 ProjectionAvailability *)
Inductive ProjectionAvailability :=
  | ProjectionReady | TemporarilyUnavailable | ProjectionFault.
#[export] Instance ProjectionAvailability_eq_dec : EqDecision ProjectionAvailability.
Proof. solve_decision. Defined.

(* @src control_plane/snapshot.rs:24-29 ProjectionSection *)
Record ProjectionSection (T : Type) := MkProjectionSection {
  pj_availability : ProjectionAvailability;
  pj_stale : bool;
  pj_value : option T
}.
Arguments MkProjectionSection {T} _ _ _.
Arguments pj_availability {T} _.
Arguments pj_stale {T} _.
Arguments pj_value {T} _.
#[export] Instance ProjectionSection_eq_dec `{EqDecision T} : EqDecision (ProjectionSection T).
Proof. solve_decision. Defined.

Section sections.
Context {T : Type}.

(* @src control_plane/snapshot.rs:32-38 ProjectionSection::ready *)
Definition section_ready (value : T) : ProjectionSection T :=
  MkProjectionSection ProjectionReady false (Some value).
(* @src control_plane/snapshot.rs:40-46 ProjectionSection::unavailable *)
Definition section_unavailable : ProjectionSection T :=
  MkProjectionSection TemporarilyUnavailable false None.
(* @src control_plane/snapshot.rs:48-54 ProjectionSection::fault *)
Definition section_fault : ProjectionSection T :=
  MkProjectionSection ProjectionFault false None.
(* @src control_plane/snapshot.rs:56-62 ProjectionSection::faulted *)
Definition section_faulted (previous : option T) : ProjectionSection T :=
  MkProjectionSection ProjectionFault (bool_decide (is_Some previous)) previous.
(* @src control_plane/snapshot.rs:64-70 ProjectionSection::stale *)
Definition section_stale (previous : option T) : ProjectionSection T :=
  MkProjectionSection TemporarilyUnavailable true previous.
(* @src control_plane/snapshot.rs:84-88 ProjectionSection::ready_value *)
Definition ready_value (s : ProjectionSection T) : option T :=
  if bool_decide (pj_availability s = ProjectionReady) && negb (pj_stale s)
  then pj_value s else None.
(* @src control_plane/snapshot.rs:94-100 ProjectionSection::map *)
Definition section_map {U} (project : T → U) (s : ProjectionSection T) : ProjectionSection U :=
  MkProjectionSection (pj_availability s) (pj_stale s) (project <$> pj_value s).
End sections.

(** ** Projections *)

(* @src control_plane/snapshot.rs:146-151 LastToolProjection *)
Record LastToolProjection := MkLastToolProjection {
  lt_kind : TaskKind;
  lt_summary : option ustr;
  lt_age_ms : N
}.
(* @src control_plane/snapshot.rs:153-160 OutageProjection *)
Record OutageProjection := MkOutageProjection {
  op_generation : N;
  op_operation_id : string;
  op_component : RuntimeComponent;
  op_fault : RuntimeFault;
  op_user_attention_required : bool
}.
(* @src control_plane/snapshot.rs:103-111 RuntimeProjection *)
Record RuntimeProjection := MkRuntimeProjection {
  rp_active : bool;
  rp_state : RuntimeState;
  rp_local_environment_available : option bool;
  rp_current_task_elapsed_ms : option N;
  rp_last_tool : option LastToolProjection;
  rp_outage : option OutageProjection
}.
(* @src control_plane/snapshot.rs:113-119 OnboardingReadiness *)
Record OnboardingReadiness := MkOnboardingReadiness {
  or_local_environment : bool;
  or_coding_service : bool;
  or_openai_tunnel : bool
}.
(* @src control_plane/snapshot.rs:162-169 AuthorityProjection *)
Record AuthorityProjection := MkAuthorityProjection {
  ap_desired : PermissionMode;
  ap_effective : PermissionMode;
  ap_broker : PrivilegeState;
  ap_structured_paths : StructuredPathAuthority;
  ap_reconciliation : AuthorityReconciliation
}.
(* @src control_plane/snapshot.rs:171-178 EffectiveAvailability *)
Inductive EffectiveAvailability :=
  | EffectiveAvailable | EffectiveDisabled | EffectiveReconciling | EffectiveUnavailable.
(* @src control_plane/snapshot.rs:180-186 WorkspaceProjection *)
Record WorkspaceProjection := MkWorkspaceProjection {
  wp_desired_id : option ustr;
  wp_desired_path : option string;
  wp_observed_path : option string;
  wp_effective : EffectiveAvailability
}.
(* @src control_plane/snapshot.rs:188-195 ConnectionProjection *)
Record ConnectionProjection := MkConnectionProjection {
  cpj_desired_tunnel_id : option string;
  cpj_desired_credential_epoch : option N;
  cpj_observed_tunnel_id : option string;
  cpj_observed_credential_epoch : option N;
  cpj_effective : EffectiveAvailability
}.
(* @src control_plane/snapshot.rs:197-203 ProjectProjection *)
Record ProjectProjection := MkProjectProjection {
  pp_id : string;
  pp_display_path : string;
  pp_accessible_path : option string;
  pp_active : bool
}.
(* @src control_plane/snapshot.rs:205-213 SettingsProjection *)
Record SettingsProjection := MkSettingsProjection {
  sp_projects : list ProjectProjection;
  sp_runtime_key_saved : bool;
  sp_runtime_key_length : option N;
  sp_auto_start : bool;
  sp_close_window_continue_running : bool;
  sp_onboarding_complete : bool
}.
(* @src control_plane/snapshot.rs:215-226 SettingsProjection::default *)
Definition default_settings : SettingsProjection :=
  MkSettingsProjection [] false None false true false.
(* @src control_plane/snapshot.rs:266-273 TaskAggregate *)
Record TaskAggregate := MkTaskAggregate {
  ta_foreground_task : option TaskRecord;
  ta_detached_execution : option ExecutionRecord;
  ta_last_task : option TaskRecord;
  ta_last_execution : option ExecutionRecord;
  ta_scheduler : SchedulerSnapshot
}.
(* @src control_plane/snapshot.rs:276-284 TaskAggregate::idle *)
Definition idle_aggregate : TaskAggregate := MkTaskAggregate None None None None idle_snapshot.

#[export] Instance LastToolProjection_eq_dec : EqDecision LastToolProjection.
Proof. solve_decision. Defined.
#[export] Instance OutageProjection_eq_dec : EqDecision OutageProjection.
Proof. solve_decision. Defined.
#[export] Instance RuntimeProjection_eq_dec : EqDecision RuntimeProjection.
Proof. solve_decision. Defined.
#[export] Instance AuthorityProjection_eq_dec : EqDecision AuthorityProjection.
Proof. solve_decision. Defined.
#[export] Instance EffectiveAvailability_eq_dec : EqDecision EffectiveAvailability.
Proof. solve_decision. Defined.
#[export] Instance WorkspaceProjection_eq_dec : EqDecision WorkspaceProjection.
Proof. solve_decision. Defined.
#[export] Instance ConnectionProjection_eq_dec : EqDecision ConnectionProjection.
Proof. solve_decision. Defined.
#[export] Instance ProjectProjection_eq_dec : EqDecision ProjectProjection.
Proof. solve_decision. Defined.
#[export] Instance SettingsProjection_eq_dec : EqDecision SettingsProjection.
Proof. solve_decision. Defined.
#[export] Instance TaskAggregate_eq_dec : EqDecision TaskAggregate.
Proof. solve_decision. Defined.

Definition no_readiness : OnboardingReadiness := MkOnboardingReadiness false false false.

(* @src control_plane/snapshot.rs:122-139 OnboardingReadiness::from_runtime *)
Definition from_runtime (runtime : ProjectionSection RuntimeProjection) : OnboardingReadiness :=
  if negb (bool_decide (pj_availability runtime = ProjectionReady)) || pj_stale runtime
  then no_readiness else
  match pj_value runtime with
  | None => no_readiness
  | Some runtime =>
      MkOnboardingReadiness (default false (rp_local_environment_available runtime))
        match rp_state runtime with
        | StartingTunnel | WaitingTunnelReady | RuntimeReady => true
        | _ => false
        end
        (runtime_is_ready (rp_state runtime))
  end.

(* @src control_plane/snapshot.rs:141-143 OnboardingReadiness::all_ready *)
Definition all_ready (r : OnboardingReadiness) : bool :=
  or_local_environment r && or_coding_service r && or_openai_tunnel r.

(** ** The snapshot and its owner *)

Section semver.
Context `{Semver}.

(** The nine sections, a [SnapshotDraft]; the published snapshot adds the
    revision and the time. *)
(* @src control_plane/snapshot.rs:348-359 SnapshotDraft *)
Record SnapshotDraft := MkSnapshotDraft {
  sd_runtime : ProjectionSection RuntimeProjection;
  sd_authority : ProjectionSection AuthorityProjection;
  sd_scheduler : ProjectionSection SchedulerSnapshot;
  sd_workspace : ProjectionSection WorkspaceProjection;
  sd_connection : ProjectionSection ConnectionProjection;
  sd_settings : ProjectionSection SettingsProjection;
  sd_activity : ProjectionSection TaskAggregate;
  sd_update : ProjectionSection UpdateLifecycle;
  sd_active_faults : list PersistentFault
}.
#[export] Instance eta_SnapshotDraft : Eta SnapshotDraft := λ r,
  MkSnapshotDraft (sd_runtime r) (sd_authority r) (sd_scheduler r) (sd_workspace r)
    (sd_connection r) (sd_settings r) (sd_activity r) (sd_update r) (sd_active_faults r).
#[export] Instance SnapshotDraft_eq_dec : EqDecision SnapshotDraft.
Proof. solve_decision. Defined.

(* @src control_plane/snapshot.rs:287-300 ControlPlaneSnapshot *)
Record ControlPlaneSnapshot := MkControlPlaneSnapshot {
  cps_revision : N;
  cps_captured_at_ms : millis;
  cps_sections : SnapshotDraft
}.

Definition unavailable_draft : SnapshotDraft :=
  MkSnapshotDraft section_unavailable section_unavailable section_unavailable
    section_unavailable section_unavailable section_unavailable section_unavailable
    section_unavailable [].

(* @src control_plane/snapshot.rs:330-346 ControlPlaneSnapshot::default *)
Definition default_snapshot (now : millis) : ControlPlaneSnapshot :=
  MkControlPlaneSnapshot 0 now unavailable_draft.

(* @src control_plane/snapshot.rs:303-305 ControlPlaneSnapshot::onboarding_readiness *)
Definition onboarding_readiness (s : ControlPlaneSnapshot) : OnboardingReadiness :=
  from_runtime (sd_runtime (cps_sections s)).

(** [availability() == Ready && !is_stale() && value().is_some_and(p)]. *)
Definition section_allows {T} (p : T → bool) (s : ProjectionSection T) : bool :=
  bool_decide (pj_availability s = ProjectionReady) && negb (pj_stale s) &&
  match pj_value s with Some v => p v | None => false end.

(* @src control_plane/snapshot.rs:307-327 ControlPlaneSnapshot::work_is_authorized *)
Definition snapshot_work_is_authorized (s : ControlPlaneSnapshot) : bool :=
  let s := cps_sections s in
  section_allows (λ runtime, bool_decide (rp_state runtime = RuntimeReady)) (sd_runtime s) &&
  section_allows (λ workspace, bool_decide (wp_effective workspace = EffectiveAvailable))
    (sd_workspace s) &&
  section_allows (λ connection, bool_decide (cpj_desired_tunnel_id connection = None) ||
                                bool_decide (cpj_effective connection = EffectiveAvailable))
    (sd_connection s).

(* @src control_plane/snapshot.rs:429-462 ControlPlaneSnapshotOwner::publish_locked *)
Definition publish_locked (now : millis) (current : ControlPlaneSnapshot) (draft : SnapshotDraft) :
    ControlPlaneSnapshot :=
  if bool_decide (cps_sections current = draft) then current
  else MkControlPlaneSnapshot (saturating_add u64_max (cps_revision current) 1) now draft.

(* @src control_plane/snapshot.rs:397-406 ControlPlaneSnapshotOwner::initialize *)
Definition initialize (now : millis) (draft : SnapshotDraft) (current : ControlPlaneSnapshot) :
    ControlPlaneSnapshot * option ControlPlaneSnapshot :=
  if negb (cps_revision current =? 0) then (current, None)
  else let next := publish_locked now current draft in (next, Some next).

(* @src control_plane/snapshot.rs:417-427 ControlPlaneSnapshotOwner::update *)
Definition update_snapshot (now : millis) (update : ControlPlaneSnapshot → SnapshotDraft)
    (current : ControlPlaneSnapshot) : ControlPlaneSnapshot :=
  publish_locked now current (update current).

(* @src control_plane/snapshot.rs:464-476 ControlPlaneSnapshotOwner::mark_activity_stale *)
Definition mark_activity_stale (now : millis) : ControlPlaneSnapshot → ControlPlaneSnapshot :=
  update_snapshot now (λ previous, let s := cps_sections previous in
    s <| sd_scheduler := section_stale (pj_value (sd_scheduler s)) |>
      <| sd_activity := section_stale (pj_value (sd_activity s)) |>).

(** The draft of [mark_observation_stale]. *)
Definition observation_stale (s : SnapshotDraft) : SnapshotDraft :=
  s <| sd_runtime := section_stale (pj_value (sd_runtime s)) |>
    <| sd_authority := section_stale (pj_value (sd_authority s)) |>
    <| sd_scheduler := section_stale (pj_value (sd_scheduler s)) |>
    <| sd_workspace := section_stale (pj_value (sd_workspace s)) |>
    <| sd_connection := section_stale (pj_value (sd_connection s)) |>
    <| sd_activity := section_stale (pj_value (sd_activity s)) |>.

(* @src control_plane/snapshot.rs:478-490 ControlPlaneSnapshotOwner::mark_observation_stale *)
Definition mark_observation_stale (now : millis) : ControlPlaneSnapshot → ControlPlaneSnapshot :=
  update_snapshot now (λ previous, observation_stale (cps_sections previous)).

(* @src control_plane/snapshot.rs:492-507 ControlPlaneSnapshotOwner::publish_update *)
Definition publish_update (now : millis) (update : ProjectionSection UpdateLifecycle) :
    ControlPlaneSnapshot → ControlPlaneSnapshot :=
  update_snapshot now (λ previous, cps_sections previous <| sd_update := update |>).

Inductive snapshot_step : ControlPlaneSnapshot → ControlPlaneSnapshot → Prop :=
  | StepInitialize now draft s : snapshot_step s (initialize now draft s).1
  | StepUpdate now update s : snapshot_step s (update_snapshot now update s).

#[export] Instance snapshot_machine : StateMachine ControlPlaneSnapshot := {|
  sm_init s := ∃ now, s = default_snapshot now;
  sm_step := snapshot_step
|}.

(** ** Properties *)

Lemma snapshot_step_publish s s' :
  snapshot_step s s' → s' = s ∨ ∃ now draft, s' = publish_locked now s draft.
Proof.
  intros [now draft s0|now update s0].
  - unfold initialize. destruct (negb _); [by left|right; eauto].
  - right. by eexists _, _.
Qed.

Lemma publish_locked_spec now s draft :
  cps_revision s ≤ u64_max →
  let s' := publish_locked now s draft in
  cps_revision s ≤ cps_revision s' ∧ cps_revision s' ≤ u64_max ∧ cps_sections s' = draft ∧
  (cps_revision s' < u64_max → cps_revision s' = cps_revision s → s' = s).
Proof.
  intros Hs. unfold publish_locked, saturating_add. case_bool_decide as Heq; simpl; [by subst|].
  split_and!; lia || done.
Qed.

(** The revision is a faithful version of what readers see.
    Publishing makes exactly the drafted sections visible; the revision never
    decreases; and, below the saturation point, two snapshots of the same run
    with the same revision are identical, so a reader that waits for a revision
    change misses nothing. *)
Theorem revision_identifies_snapshot s s'
    (Hrev : cps_revision s ≤ u64_max) (Hs : rtc sm_step s s') :
  cps_revision s ≤ cps_revision s' ∧
  (cps_revision s' < u64_max → cps_revision s' = cps_revision s → s' = s) ∧
  (∀ now draft, cps_sections (publish_locked now s' draft) = draft).
Proof.
  cut (cps_revision s ≤ cps_revision s' ∧ cps_revision s' ≤ u64_max ∧
    (cps_revision s' < u64_max → cps_revision s' = cps_revision s → s' = s)).
  { intros (? & Hmax & ?). split_and!; [done..|]. intros now draft.
    by apply (publish_locked_spec now s' draft). }
  revert Hrev. induction Hs as [s|s s1 s' Hs _ IH]; intros Hrev; [done|].
  apply snapshot_step_publish in Hs as [->|(now & draft & ->)]; [auto|].
  destruct (publish_locked_spec now s draft Hrev) as (Hle & Hmax & _ & Hsame).
  destruct (IH Hmax) as (Hle' & Hmax' & Hsame'). split_and!; [lia..|].
  intros Hlt Heq. rewrite Hsame', Hsame by lia. done.
Qed.

Lemma section_allows_ready {T} (p : T → bool) sec :
  section_allows p sec = true → ∃ v, ready_value sec = Some v ∧ p v = true.
Proof.
  unfold section_allows, ready_value. intros [Hr Hv]%andb_true_iff. rewrite Hr.
  destruct (pj_value sec) as [v|]; [by exists v|done].
Qed.

(** Stale knowledge never authorises work.  Once the observation
    is marked stale, work is not authorised and no onboarding stage is ready,
    whatever was known before, while settings, update and faults stay visible;
    and whenever work is authorised the runtime is ready, its workspace is
    available and a wanted connection is available, all from fresh sections. *)
Theorem stale_observation_blocks_work now s :
  (let s' := mark_observation_stale now s in
   snapshot_work_is_authorized s' = false ∧ onboarding_readiness s' = no_readiness ∧
   sd_settings (cps_sections s') = sd_settings (cps_sections s) ∧
   sd_update (cps_sections s') = sd_update (cps_sections s) ∧
   sd_active_faults (cps_sections s') = sd_active_faults (cps_sections s)) ∧
  (snapshot_work_is_authorized s = true →
   let d := cps_sections s in
   (∃ r, ready_value (sd_runtime d) = Some r ∧ rp_state r = RuntimeReady) ∧
   (∃ w, ready_value (sd_workspace d) = Some w ∧ wp_effective w = EffectiveAvailable) ∧
   (∃ c, ready_value (sd_connection d) = Some c ∧
      (cpj_desired_tunnel_id c = None ∨ cpj_effective c = EffectiveAvailable))).
Proof.
  split.
  - intros s'.
    assert (cps_sections s' = observation_stale (cps_sections s)) as Hs
      by (subst s'; unfold mark_observation_stale, update_snapshot, publish_locked;
          by case_bool_decide).
    unfold snapshot_work_is_authorized, onboarding_readiness. rewrite Hs. by split_and!.
  - unfold snapshot_work_is_authorized. rewrite !andb_true_iff.
    intros [[(r & Hr & Hp)%section_allows_ready (w & Hw & Hq)%section_allows_ready]
            (c & Hc & Hc')%section_allows_ready].
    apply bool_decide_eq_true in Hp, Hq. apply orb_true_iff in Hc'.
    rewrite !bool_decide_eq_true in Hc'. split_and!; eauto.
Qed.
End semver.

(** ** Witnesses *)

Definition demo_ready : SnapshotDraft (H:=demo_semver) :=
  unavailable_draft
    <| sd_runtime := section_ready (MkRuntimeProjection true RuntimeReady (Some true) None None None) |>
    <| sd_workspace := section_ready (MkWorkspaceProjection None None None EffectiveAvailable) |>
    <| sd_connection := section_ready (MkConnectionProjection None None None None EffectiveDisabled) |>.

Definition demo_published : ControlPlaneSnapshot (H:=demo_semver) :=
  (initialize 7 demo_ready (default_snapshot 5)).1.

Lemma revision_identifies_snapshot_witness :
  cps_revision demo_published = 1 ∧ cps_revision (default_snapshot (H:=demo_semver) 5) ≤
  cps_revision demo_published.
Proof.
  split; [by vm_compute|].
  apply (revision_identifies_snapshot (default_snapshot (H:=demo_semver) 5) demo_published).
  - by vm_compute.
  - apply rtc_once, StepInitialize.
Defined.

Example published_authorizes :
  snapshot_work_is_authorized demo_published = true ∧
  snapshot_work_is_authorized (mark_observation_stale 9 demo_published) = false.
Proof. by vm_compute. Qed.
