(* ===== verification/DesktopProjection.v ===== *)
(** * DesktopProjection: what the desktop publishes to its readers

    The publishing half of [src/src-tauri/src/app/background.rs]: the runtime's
    observation, the desired state and the broker's state become a draft of
    [Snapshot]'s sections; faults persist between publications; and the interface
    waits until what it shows changes.  The clock is an argument; the lock of the
    runtime's owner is the answer of its [try_lock]. *)

From S2P Require Import Prelude Text Domain TaskSummary StateModel Workspace Scheduler Convergence.
From S2P Require Import Update Snapshot.
#[local] Open Scope N_scope.

(** ** Observations *)

(* @src state/task.rs:51-56 LastToolTiming *)
Record LastToolTiming := MkLastToolTiming {
  ltt_kind : TaskKind;
  ltt_summary : SafeTaskSummary;
  ltt_age_ms : N
}.

(* @src app/background.rs:172-179 DesktopOutageSnapshot *)
Record DesktopOutageSnapshot := MkDesktopOutageSnapshot {
  dos_generation : N;
  dos_request_id : string;
  dos_component : RuntimeComponent;
  dos_fault : RuntimeFault;
  dos_user_attention_required : bool
}.

(* @src app/background.rs:181-191 DesktopRuntimeSnapshot *)
Record DesktopRuntimeSnapshot := MkDesktopRuntimeSnapshot {
  drs_active : bool;
  drs_state : RuntimeState;
  drs_current_task : CurrentTaskStatus;
  drs_current_task_elapsed_ms : option N;
  drs_last_tool : option LastToolTiming;
  drs_configured_workspace : option path;
  drs_connection_profile : option ConnectionProfile;
  drs_outage : option DesktopOutageSnapshot
}.

(* @src app/background.rs:193-206 DesktopRuntimeSnapshot::inactive *)
Definition inactive_snapshot : DesktopRuntimeSnapshot :=
  MkDesktopRuntimeSnapshot false RuntimeStopped StatusIdle None None None None None.

(** ** Waiting for the display to change *)

(* @src app/background.rs:474-491 next_projection_display_wait *)
Definition next_projection_display_wait (activity_active : bool) (last_tool_age_ms : option N) : N :=
  if activity_active then 500 else
  match last_tool_age_ms with
  | None => 30 * 1000
  | Some age =>
      let wait_ms :=
        if age <? 60000 then 1000 - age mod 1000
        else if age <? 3600000 then 60000 - age mod 60000
        else if age <? 86400000 then 86400000 - age
        else 86400000 - age mod 86400000 in
      N.max wait_ms 1
  end.

(** [formatLastToolAge] of [src/src/presentation.ts], line 19: the texts it shows,
    by their number. *)
Inductive AgeDisplay :=
  | SecondsAgo (n : N)
  | MinutesAgo (n : N)
  | MoreThanAnHour
  | MoreThanDays (n : N).

Definition formatLastToolAge (ms : N) : AgeDisplay :=
  if ms <? 60000 then SecondsAgo (ms / 1000)
  else if ms <? 3600000 then MinutesAgo (ms / 60000)
  else if ms <? 86400000 then MoreThanAnHour
  else MoreThanDays (ms / 86400000).

(** ** Faults *)

(** [format!("{fault:?}")]. *)
Definition debug_runtime_fault (fault : RuntimeFault) : string :=
  match fault with
  | WorkspaceMissing => "WorkspaceMissing" | WorkspaceInvalid => "WorkspaceInvalid"
  | RuntimeMissing => "RuntimeMissing" | RuntimeChecksumMismatch => "RuntimeChecksumMismatch"
  | ProcessOwnershipFailed => "ProcessOwnershipFailed" | McpSpawnFailed => "McpSpawnFailed"
  | McpHealthTimeout => "McpHealthTimeout" | McpExited => "McpExited"
  | PolicyBindFailed => "PolicyBindFailed" | PolicyInvalid => "PolicyInvalid"
  | PolicyCapabilityUnknown => "PolicyCapabilityUnknown" | TunnelIdMissing => "TunnelIdMissing"
  | RuntimeKeyMissing => "RuntimeKeyMissing" | SecretStoreFailed => "SecretStoreFailed"
  | SecretInjectionUnsupported => "SecretInjectionUnsupported"
  | TunnelAuthFailed => "TunnelAuthFailed" | TunnelSpawnFailed => "TunnelSpawnFailed"
  | TunnelHealthTimeout => "TunnelHealthTimeout" | TunnelExited => "TunnelExited"
  | PortUnavailable => "PortUnavailable" | ConfigurationInvalid => "ConfigurationInvalid"
  | UserStopped => "UserStopped" | RuntimeUnknown => "Unknown"
  end.
Definition debug_privilege_fault (fault : PrivilegeFault) : string :=
  match fault with
  | UacDenied => "UacDenied" | BrokerLaunchFailed => "BrokerLaunchFailed"
  | HandshakeFailed => "HandshakeFailed" | BrokerExited => "BrokerExited"
  | IpcUnavailable => "IpcUnavailable" | ProtocolMismatch => "ProtocolMismatch"
  | UnauthorizedPeer => "UnauthorizedPeer" | PrivilegeUnknown => "Unknown"
  end.

(** A display that counts units: it changes at the next multiple. *)
Lemma unit_display unit age :
  0 < unit →
  let wait := unit - age mod unit in
  0 < wait ∧ age + wait = unit * (age / unit + 1) ∧
  (∀ k, k < wait → (age + k) / unit = age / unit) ∧ (age + wait) / unit = age / unit + 1.
Proof.
  intros Hu wait. pose proof (N.mod_lt age unit) as Hlt. pose proof (N.div_mod age unit) as Hdiv.
  subst wait. split_and!; [lia|lia|intros k Hk; symmetry|symmetry].
  - apply (N.div_unique _ _ _ (age mod unit + k)); lia.
  - apply (N.div_unique _ _ _ 0); lia.
Qed.

(** The interface is woken exactly when its text changes.  For every
    age of the last tool call, the time [next_projection_display_wait] waits is
    positive; the text that [formatLastToolAge] of the interface shows stays the same
    until then, and is another one at its end. *)
Theorem wait_ends_when_display_changes (age : N) :
  let wait := next_projection_display_wait false (Some age) in
  0 < wait ∧ (∀ k, k < wait → formatLastToolAge (age + k) = formatLastToolAge age) ∧
  formatLastToolAge (age + wait) ≠ formatLastToolAge age.
Proof.
  unfold next_projection_display_wait. cbv zeta.
  destruct (N.ltb_spec age 60000) as [H1|H1]; [|destruct (N.ltb_spec age 3600000) as [H2|H2];
    [|destruct (N.ltb_spec age 86400000) as [H3|H3]]].
  - pose proof (unit_display 1000 age) as (Hp & Hs & Hk & Hn); [lia|].
    assert (age / 1000 < 60) by (apply N.Div0.div_lt_upper_bound; lia).
    rewrite N.max_l by lia. unfold formatLastToolAge. split_and!; [done|intros k Hlt|].
    + rewrite !(proj2 (N.ltb_lt _ 60000)), Hk by lia. done.
    + rewrite (proj2 (N.ltb_lt age 60000)), Hn by lia. repeat case_match; simpl; try done.
      intros [= Heq]. lia.
  - pose proof (unit_display 60000 age) as (Hp & Hs & Hk & Hn); [lia|].
    assert (age / 60000 < 60) by (apply N.Div0.div_lt_upper_bound; lia).
    rewrite N.max_l by lia. unfold formatLastToolAge. split_and!; [done|intros k Hlt|].
    + rewrite !(proj2 (N.ltb_ge _ 60000)), !(proj2 (N.ltb_lt _ 3600000)), Hk by lia. done.
    + rewrite !(proj2 (N.ltb_ge _ 60000)), (proj2 (N.ltb_lt age 3600000)), Hn by lia.
      repeat case_match; simpl; try done. intros [= Heq]. lia.
  - rewrite N.max_l by lia. unfold formatLastToolAge. split_and!; [lia|intros k Hlt|].
    + rewrite !(proj2 (N.ltb_ge _ 60000)), !(proj2 (N.ltb_ge _ 3600000)),
        !(proj2 (N.ltb_lt _ 86400000)) by lia. done.
    + rewrite !(proj2 (N.ltb_ge _ 60000)), !(proj2 (N.ltb_ge _ 3600000)),
        (proj2 (N.ltb_lt age 86400000)), (proj2 (N.ltb_ge _ 86400000)) by lia. done.
  - pose proof (unit_display 86400000 age) as (Hp & Hs & Hk & Hn); [lia|].
    rewrite N.max_l by lia. unfold formatLastToolAge. split_and!; [done|intros k Hlt|].
    + rewrite !(proj2 (N.ltb_ge _ 60000)), !(proj2 (N.ltb_ge _ 3600000)),
        !(proj2 (N.ltb_ge _ 86400000)), Hk by lia. done.
    + rewrite !(proj2 (N.ltb_ge _ 60000)), !(proj2 (N.ltb_ge _ 3600000)),
        !(proj2 (N.ltb_ge _ 86400000)), Hn by lia. intros [= Heq]. lia.
Qed.

Section semver.
Context `{Semver}.

(* @src app/background.rs:644-650 previous_fault *)
Definition previous_fault (snapshot : ControlPlaneSnapshot) (id : string) :
    option PersistentFault :=
  List.find (λ fault, bool_decide (pf_id fault = id)) (sd_active_faults (cps_sections snapshot)).

(* @src app/background.rs:652-666 persistent_fault *)
Definition persistent_fault (now : millis) (previous : option PersistentFault) (id : string)
    (source : FaultSource) (error : OperationError) : PersistentFault :=
  MkPersistentFault id source error
    match previous with Some fault => pf_first_seen_at_ms fault | None => now end now.

Definition is_settings_fault (fault : PersistentFault) : bool :=
  bool_decide (pf_source fault = FaultSettings).

(* @src app/background.rs:668-702 settings_snapshot_draft *)
Definition settings_snapshot_draft (now : millis) (previous : ControlPlaneSnapshot)
    (settings : SettingsProjection) (error : option OperationError) : SnapshotDraft :=
  let s := cps_sections previous in
  let active_faults := List.filter (λ fault, negb (is_settings_fault fault)) (sd_active_faults s) in
  match error with
  | Some error =>
      s <| sd_settings := section_faulted (Some settings) |>
        <| sd_active_faults := active_faults ++
             [persistent_fault now (previous_fault previous "settings") "settings" FaultSettings
                error] |>
  | None =>
      s <| sd_settings := section_ready settings |> <| sd_active_faults := active_faults |>
  end.

(* @src app/background.rs:961-968 DesktopLifecycle::publish_settings_snapshot *)
Definition publish_settings_snapshot (now : millis) (settings : SettingsProjection)
    (error : option OperationError) : ControlPlaneSnapshot → ControlPlaneSnapshot :=
  update_snapshot now (λ previous, settings_snapshot_draft now previous settings error).

(* @src app/background.rs:970-975 DesktopLifecycle::publish_settings_fault *)
Definition publish_settings_fault (now : millis) (error : OperationError) :
    ControlPlaneSnapshot → ControlPlaneSnapshot :=
  update_snapshot now (λ previous,
    let settings := default default_settings (pj_value (sd_settings (cps_sections previous))) in
    settings_snapshot_draft now previous settings (Some error)).

(* @src app/background.rs:977-992 DesktopLifecycle::publish_local_environment_observation *)
Definition publish_local_environment_observation (now : millis) (available : bool) :
    ControlPlaneSnapshot → ControlPlaneSnapshot :=
  update_snapshot now (λ previous, let s := cps_sections previous in
    s <| sd_runtime := section_map (λ runtime,
           MkRuntimeProjection (rp_active runtime) (rp_state runtime) (Some available)
             (rp_current_task_elapsed_ms runtime) (rp_last_tool runtime) (rp_outage runtime))
           (sd_runtime s) |>).

(** ** The observation *)

(* @src app/background.rs:512-534 publish_control_plane_observation *)
Definition runtime_projection (previous : ControlPlaneSnapshot) (runtime : DesktopRuntimeSnapshot) :
    RuntimeProjection :=
  MkRuntimeProjection (drs_active runtime) (drs_state runtime)
    (pj_value (sd_runtime (cps_sections previous)) ≫= rp_local_environment_available)
    (drs_current_task_elapsed_ms runtime)
    ((λ tool, MkLastToolProjection (ltt_kind tool) (summary_as_deref (ltt_summary tool))
        (ltt_age_ms tool)) <$> drs_last_tool runtime)
    ((λ outage, MkOutageProjection (dos_generation outage) (dos_request_id outage)
        (dos_component outage) (dos_fault outage) (dos_user_attention_required outage)) <$>
       drs_outage runtime).

(* @src app/background.rs:536-542 publish_control_plane_observation *)
Definition authority_projection (convergence : ConvergenceSnapshot) (broker : PrivilegeState) :
    AuthorityProjection :=
  let authority := es_authority (cvs_effective convergence) in
  MkAuthorityProjection (ea_configured authority) (ea_execution authority) broker
    (ea_structured_paths authority) (ea_reconciliation authority).

(* @src app/background.rs:543-563 publish_control_plane_observation *)
Definition workspace_projection (convergence : ConvergenceSnapshot) : WorkspaceProjection :=
  MkWorkspaceProjection
    (workspace_id_str <$> (ds_workspace (cvs_desired convergence) ≫= dw_id))
    (dw_execution_path <$> ds_workspace (cvs_desired convergence))
    (os_workspace (cvs_observed convergence))
    match es_workspace (cvs_effective convergence) with
    | WorkspaceAvailable _ => EffectiveAvailable
    | WorkspaceUnavailable _ => EffectiveUnavailable
    end.

(* @src app/background.rs:564-589 publish_control_plane_observation *)
Definition connection_projection (convergence : ConvergenceSnapshot) : ConnectionProjection :=
  let desired := ds_connection (cvs_desired convergence) in
  let observed := os_connection (cvs_observed convergence) in
  MkConnectionProjection
    ((λ profile, tunnel_id_str (cp_tunnel_id profile)) <$> desired)
    (cp_credential_epoch <$> desired)
    ((λ profile, tunnel_id_str (cp_tunnel_id profile)) <$> observed)
    (cp_credential_epoch <$> observed)
    match es_connection (cvs_effective convergence) with
    | ConnectionAvailable _ => EffectiveAvailable
    | ConnectionUnavailable _ => EffectiveUnavailable
    end.

(* @src app/background.rs:590-620 publish_control_plane_observation *)
Definition observed_faults (now : millis) (previous : ControlPlaneSnapshot)
    (runtime : RuntimeState) (broker : PrivilegeState) : list PersistentFault :=
  List.filter is_settings_fault (sd_active_faults (cps_sections previous)) ++
  match runtime with
  | RuntimeFaulted fault =>
      [persistent_fault now (previous_fault previous "runtime") "runtime" FaultRuntime
         (new_error ("Runtime." ++ debug_runtime_fault fault) Unavailable
            "Runtime is unavailable" true)]
  | _ => []
  end ++
  match broker with
  | PrivilegeFaulted fault =>
      [persistent_fault now (previous_fault previous "authority") "authority" FaultAuthority
         (new_error ("Authority." ++ debug_privilege_fault fault) Authorization
            "Privilege broker is unavailable" true)]
  | _ => []
  end.

(* @src app/background.rs:493-642 publish_control_plane_observation *)
Definition publish_control_plane_observation (now : millis) (desired : VersionedDesiredState)
    (broker : PrivilegeState) (runtime : DesktopRuntimeSnapshot) (activity : option TaskAggregate)
    (owner : ControlPlaneSnapshot) : ControlPlaneSnapshot :=
  let convergence := derive desired (MkObservedState broker (drs_state runtime)
    (drs_configured_workspace runtime) (drs_connection_profile runtime)) in
  update_snapshot now (λ previous,
    let s := cps_sections previous in
    let '(scheduler, activity) :=
      match activity with
      | Some activity => (section_ready (ta_scheduler activity), section_ready activity)
      | None => (section_stale (pj_value (sd_scheduler s)), section_stale (pj_value (sd_activity s)))
      end in
    MkSnapshotDraft
      (section_ready (runtime_projection previous runtime))
      (section_ready (authority_projection convergence broker))
      scheduler
      (section_ready (workspace_projection convergence))
      (section_ready (connection_projection convergence))
      (sd_settings s)
      activity
      (sd_update s)
      (observed_faults now previous (drs_state runtime) broker)) owner.

(** [owner] is what [try_lock] of the runtime's owner gave: its snapshot and its
    task aggregate, unless another thread holds it. *)
(* @src app/background.rs:998-1014 DesktopLifecycle::publish_current_observation *)
Definition publish_current_observation (now : millis)
    (owner : option (DesktopRuntimeSnapshot * TaskAggregate)) (desired : VersionedDesiredState)
    (broker : PrivilegeState) (snapshot : ControlPlaneSnapshot) : ControlPlaneSnapshot :=
  match owner with
  | None => mark_observation_stale now snapshot
  | Some (runtime, activity) =>
      publish_control_plane_observation now desired broker runtime (Some activity) snapshot
  end.

(** The time [wait_projection_change_after] waits at most. *)
(* @src app/background.rs:1171-1183 DesktopLifecycle::wait_projection_change_after *)
Definition projection_wait (snapshot : ControlPlaneSnapshot) : N :=
  let s := cps_sections snapshot in
  let activity_active :=
    match pj_value (sd_activity s) with
    | Some activity => bool_decide (is_Some (ta_foreground_task activity)) ||
                       bool_decide (is_Some (ta_detached_execution activity))
    | None => false
    end in
  next_projection_display_wait activity_active
    (lt_age_ms <$> (pj_value (sd_runtime s) ≫= rp_last_tool)).

(** ** Properties of publications *)

Lemma update_snapshot_sections now update s :
  cps_sections (update_snapshot now update s) = update s.
Proof. unfold update_snapshot, publish_locked. by case_bool_decide as Heq. Qed.

(** The observation that [derive] is asked about. *)
Definition observed (broker : PrivilegeState) (runtime : DesktopRuntimeSnapshot) : ObservedState :=
  MkObservedState broker (drs_state runtime) (drs_configured_workspace runtime)
    (drs_connection_profile runtime).

(** C39 (equivalence): readers of the snapshot decide as the control plane does.  Once an
    observation is published, [ControlPlaneSnapshot::work_is_authorized], which
    looks at the projected sections, agrees with [EffectiveState::work_is_authorized]
    of the convergence it was projected from, whenever services are desired; while
    they are not, the control plane refuses, and only a runtime that is still ready
    lets readers go on. *)
Theorem projected_authorization_agrees now desired broker runtime activity s :
  let s' := publish_control_plane_observation now desired broker runtime activity s in
  let effective := cvs_effective (derive desired (observed broker runtime)) in
  work_is_authorized effective =
    snapshot_work_is_authorized s' &&
    bool_decide (ds_services (vds_state desired) = ServicesEnabled) ∧
  (snapshot_work_is_authorized s' = true → drs_state runtime = RuntimeReady).
Proof.
  intros s' effective. unfold s', publish_control_plane_observation, snapshot_work_is_authorized.
  rewrite update_snapshot_sections. fold (observed broker runtime).
  destruct (match activity with Some _ => _ | None => _ end) as [scheduler act].
  unfold section_allows, effective, work_is_authorized. simpl.
  unfold workspace_projection, connection_projection. simpl.
  destruct desired as [revision [permission workspace services connection]]. simpl.
  split; [|by intros [[?%bool_decide_eq_true _]%andb_true_iff _]%andb_true_iff].
  destruct (decide (drs_state runtime = RuntimeReady)) as [Hr|Hr].
  - rewrite Hr. unfold derive_workspace, derive_connection, derive_services. simpl.
    destruct services, workspace as [workspace|], connection as [connection|]; simpl;
      repeat (case_bool_decide; simplify_eq/=); done.
  - rewrite (bool_decide_false (drs_state runtime = RuntimeReady)) by done. simpl.
    assert (runtime_is_ready (drs_state runtime) = false) as Hf by by destruct (drs_state runtime).
    unfold derive_workspace. rewrite Hf. by destruct workspace.
Qed.

(** The faults of a snapshot: at most one of each source, under its own id. *)
Definition fault_key (fault : PersistentFault) : string * FaultSource :=
  (pf_id fault, pf_source fault).
Definition faults_ok (faults : list PersistentFault) : Prop :=
  NoDup (map pf_id faults) ∧
  Forall (λ fault, fault_key fault ∈ [("settings", FaultSettings); ("runtime", FaultRuntime);
                                      ("authority", FaultAuthority)]) faults.

Lemma find_filter {A} (p q : A → bool) (l : list A) (keep : bool) :
  (∀ x, x ∈ l → q x = true → p x = keep) →
  List.find q (List.filter p l) = if keep then List.find q l else None.
Proof.
  induction l as [|x l IH]; intros Hp; [by destruct keep|]. simpl.
  destruct (q x) eqn:Hq.
  - rewrite (Hp x) by (done || by left). destruct keep; simpl; [by rewrite Hq|].
    apply IH. intros y Hy. apply Hp. by right.
  - destruct (p x); simpl; rewrite ?Hq; (rewrite IH; [done|]); intros y Hy; apply Hp; by right.
Qed.

Lemma find_app {A} (q : A → bool) (l1 l2 : list A) :
  List.find q (l1 ++ l2) = match List.find q l1 with Some x => Some x | None => List.find q l2 end.
Proof. induction l1 as [|x l1 IH]; simpl; [done|]. by destruct (q x). Qed.

(** A fault of one of the three sources is found by its id. *)
Lemma settings_fault_id faults fault :
  faults_ok faults → fault ∈ faults → is_settings_fault fault = bool_decide (pf_id fault = "settings"%string).
Proof.
  intros [_ Hf] Hin. rewrite Forall_forall in Hf. specialize (Hf fault Hin).
  unfold is_settings_fault, fault_key in *. rewrite !elem_of_cons in Hf.
  destruct Hf as [[= -> ->]|[[= -> ->]|[[= -> ->]|[]%elem_of_nil]]]; done.
Qed.

Definition same_fault (id : string) (fault : PersistentFault) : bool :=
  bool_decide (pf_id fault = id).

Lemma find_settings_part faults id (settings : bool) :
  faults_ok faults → bool_decide (id = "settings"%string) = settings →
  List.find (same_fault id) (List.filter is_settings_fault faults) =
    (if settings then List.find (same_fault id) faults else None) ∧
  List.find (same_fault id) (List.filter (λ f, negb (is_settings_fault f)) faults) =
    (if settings then None else List.find (same_fault id) faults).
Proof.
  intros Hok Hid. split.
  - apply find_filter. intros x Hx Hs. unfold same_fault in Hs. apply bool_decide_eq_true in Hs.
    by rewrite (settings_fault_id faults), Hs.
  - rewrite (find_filter _ _ _ (negb settings)); [by destruct settings|].
    intros x Hx Hs. unfold same_fault in Hs. apply bool_decide_eq_true in Hs.
    by rewrite (settings_fault_id faults), Hs, Hid.
Qed.

(** ** Every publication keeps the faults well-formed *)

Inductive publication_step : ControlPlaneSnapshot → ControlPlaneSnapshot → Prop :=
  | PublishObservation now desired broker runtime activity s : publication_step s
      (publish_control_plane_observation now desired broker runtime activity s)
  | PublishSettings now settings error s :
      publication_step s (publish_settings_snapshot now settings error s)
  | PublishSettingsFault now error s : publication_step s (publish_settings_fault now error s)
  | PublishEnvironment now available s :
      publication_step s (publish_local_environment_observation now available s)
  | PublishStale now s : publication_step s (mark_observation_stale now s)
  | PublishActivityStale now s : publication_step s (mark_activity_stale now s)
  | PublishUpdate now update s : publication_step s (publish_update now update s).

Definition publications : StateMachine ControlPlaneSnapshot := {|
  sm_init s := ∃ now, s = default_snapshot now;
  sm_step := publication_step
|}.

Definition active_faults (s : ControlPlaneSnapshot) : list PersistentFault :=
  sd_active_faults (cps_sections s).

Lemma faults_ok_sublist faults kept : sublist kept faults → faults_ok faults → faults_ok kept.
Proof.
  intros Hs [Hn Hf]. split.
  - eapply sublist_nodup; [|exact Hn]. by apply (sublist_fmap pf_id).
  - rewrite Forall_forall in *. intros x Hx. apply Hf. by eapply sublist_mem.
Qed.

(** Adding a fault of a source that has none. *)
Lemma faults_ok_snoc faults fault :
  faults_ok faults → fault_key fault ∈ [("settings", FaultSettings); ("runtime", FaultRuntime);
    ("authority", FaultAuthority)]%string →
  pf_id fault ∉ map pf_id faults → faults_ok (faults ++ [fault]).
Proof.
  intros [Hn Hf] Hk Hnew. split.
  - rewrite map_app. apply NoDup_app. split_and!; [done| |apply NoDup_singleton].
    by intros x Hx ->%list_elem_of_singleton.
  - rewrite Forall_app. split; [done|]. by apply Forall_singleton.
Qed.

Lemma settings_faults_ids faults keep id :
  faults_ok faults → (∀ f, f ∈ faults → keep f = true → is_settings_fault f = true) →
  id ≠ "settings"%string → id ∉ map pf_id (List.filter keep faults).
Proof.
  intros Hok Hk Hid (f & -> & [Hin Hf]%filterb_elem)%list_elem_of_fmap.
  specialize (Hk f Hin Hf). rewrite (settings_fault_id faults) in Hk by done.
  by apply bool_decide_eq_true in Hk.
Qed.

Lemma observed_faults_ok now s runtime broker :
  faults_ok (active_faults s) → faults_ok (observed_faults now s runtime broker).
Proof.
  intros Hok. unfold observed_faults. fold (active_faults s).
  assert (faults_ok (List.filter is_settings_fault (active_faults s))) as Hs
    by (eapply faults_ok_sublist; [apply filter_sublist|done]).
  assert (∀ id, id ≠ "settings"%string →
    id ∉ map pf_id (List.filter is_settings_fault (active_faults s))) as Hnot
    by (intros id Hid; by apply settings_faults_ids).
  rewrite app_assoc.
  assert (faults_ok (List.filter is_settings_fault (active_faults s) ++
    match runtime with
    | RuntimeFaulted fault =>
        [persistent_fault now (previous_fault s "runtime") "runtime" FaultRuntime
           (new_error ("Runtime." ++ debug_runtime_fault fault) Unavailable
              "Runtime is unavailable" true)]
    | _ => []
    end)) as Hr.
  { destruct runtime; rewrite ?app_nil_r; try done.
    apply faults_ok_snoc; [done|by right; left|by apply Hnot]. }
  destruct broker; rewrite ?app_nil_r; try done.
  apply faults_ok_snoc; [done|by right; right; left|]. simpl.
  rewrite map_app, elem_of_app. intros [H1|H1]; [by apply (Hnot "authority"%string) in H1|].
  destruct runtime; simpl in H1; rewrite ?elem_of_cons, ?elem_of_nil in H1; naive_solver.
Qed.

Lemma faults_ok_settings now s settings error :
  faults_ok (active_faults s) →
  faults_ok (sd_active_faults (settings_snapshot_draft now s settings error)).
Proof.
  intros Hok. unfold settings_snapshot_draft. fold (active_faults s).
  assert (faults_ok (List.filter (λ f, negb (is_settings_fault f)) (active_faults s))) as Hs
    by (eapply faults_ok_sublist; [apply filter_sublist|done]).
  destruct error as [error|]; simpl; [|done].
  apply faults_ok_snoc; [done|by left|]. simpl.
  intros (f & Hid & [Hin Hf]%filterb_elem)%list_elem_of_fmap.
  rewrite (settings_fault_id (active_faults s)), <-Hid in Hf by done. done.
Qed.

Lemma faults_ok_reachable s : reachable (H:=publications) s → faults_ok (active_faults s).
Proof.
  assert (Invariant (H:=publications) (λ s, faults_ok (active_faults s))) as Hinv.
  { split.
    - intros s0 [now ->]. split; [apply NoDup_nil_2|apply Forall_nil_2].
    - intros s0 s' Hok Hs. destruct Hs as [now desired broker runtime activity s0
        |now settings error s0|now error s0|now available s0|now s0|now s0|now update s0];
        unfold active_faults, publish_control_plane_observation, publish_settings_snapshot,
          publish_settings_fault, publish_local_environment_observation, mark_observation_stale,
          mark_activity_stale, publish_update; rewrite update_snapshot_sections; try done.
      + destruct (match activity with Some _ => _ | None => _ end) as [scheduler act]. simpl.
        by apply observed_faults_ok.
      + by apply faults_ok_settings.
      + by apply faults_ok_settings. }
  apply (invariant_reachable (λ s, faults_ok (active_faults s))).
Qed.

(** The fault a publication leaves under [id], when it concerns that source. *)
Definition continued (now : millis) (s : ControlPlaneSnapshot) (id : string) (source : FaultSource)
    (error : option OperationError) : option PersistentFault :=
  (λ error, persistent_fault now (previous_fault s id) id source error) <$> error.

Definition runtime_error (state : RuntimeState) : option OperationError :=
  match state with
  | RuntimeFaulted fault => Some (new_error ("Runtime." ++ debug_runtime_fault fault) Unavailable
      "Runtime is unavailable" true)
  | _ => None
  end.
Definition authority_error (broker : PrivilegeState) : option OperationError :=
  match broker with
  | PrivilegeFaulted fault => Some (new_error ("Authority." ++ debug_privilege_fault fault)
      Authorization "Privilege broker is unavailable" true)
  | _ => None
  end.

(** A fault is shown as long as it lasts, with the time it began.
    In every reachable snapshot a publication of the observation replaces the
    runtime's and the authority's fault by the present ones - none when there is
    none, and when there was one before, with the time it was first seen - and
    leaves the settings' fault alone; a publication of the settings does the same
    for theirs and leaves the other two alone. *)
Theorem faults_follow_their_source (s : ControlPlaneSnapshot) :
  reachable (H:=publications) s →
  (∀ now desired broker runtime activity,
    let s' := publish_control_plane_observation now desired broker runtime activity s in
    previous_fault s' "runtime" =
      continued now s "runtime" FaultRuntime (runtime_error (drs_state runtime)) ∧
    previous_fault s' "authority" =
      continued now s "authority" FaultAuthority (authority_error broker) ∧
    previous_fault s' "settings" = previous_fault s "settings") ∧
  (∀ now settings error,
    let s' := publish_settings_snapshot now settings error s in
    previous_fault s' "settings" = continued now s "settings" FaultSettings error ∧
    previous_fault s' "runtime" = previous_fault s "runtime" ∧
    previous_fault s' "authority" = previous_fault s "authority").
Proof.
  intros Hok%faults_ok_reachable. pose proof (λ id, find_settings_part _ id _ Hok eq_refl) as Hfind.
  split.
  - intros now desired broker runtime activity s'.
    assert (active_faults s' = observed_faults now s (drs_state runtime) broker) as Hs'.
    { unfold active_faults, s', publish_control_plane_observation. rewrite update_snapshot_sections.
      by destruct (match activity with Some _ => _ | None => _ end). }
    assert (∀ id, previous_fault s' id =
      List.find (same_fault id) (observed_faults now s (drs_state runtime) broker)) as Hp
      by (intros id; by rewrite <-Hs').
    rewrite !Hp. unfold observed_faults. fold (active_faults s).
    rewrite !find_app, !(proj1 (Hfind _)).
    destruct (drs_state runtime), broker; simpl; split_and!; try done;
      unfold previous_fault; fold (active_faults s); fold (same_fault "settings"%string);
      by destruct (List.find _ (active_faults s)).
  - intros now settings error s'.
    assert (active_faults s' = sd_active_faults (settings_snapshot_draft now s settings error)) as Hs'
      by (unfold active_faults, s', publish_settings_snapshot; by rewrite update_snapshot_sections).
    assert (∀ id, previous_fault s' id = List.find (same_fault id)
      (sd_active_faults (settings_snapshot_draft now s settings error))) as Hp
      by (intros id; by rewrite <-Hs').
    rewrite !Hp. unfold settings_snapshot_draft. fold (active_faults s).
    destruct error as [error|]; simpl; rewrite ?find_app, !(proj2 (Hfind _)); simpl;
      split_and!; try done; unfold previous_fault; fold (active_faults s);
      unfold same_fault; by destruct (List.find _ (active_faults s)).
Qed.
End semver.

(** ** Witnesses *)

(** A tunnel that fails twice: the second publication keeps the first time. *)
Definition demo_faulted : DesktopRuntimeSnapshot :=
  MkDesktopRuntimeSnapshot true (RuntimeFaulted TunnelExited) StatusIdle None None None None None.
Definition demo_first : ControlPlaneSnapshot (H:=demo_semver) :=
  publish_control_plane_observation 100 default_versioned PrivilegeDisabled demo_faulted None
    (default_snapshot 5).

Lemma demo_first_reachable : reachable (H:=publications (H:=demo_semver)) demo_first.
Proof.
  exists (default_snapshot 5). split; [by exists 5|]. apply rtc_once, PublishObservation.
Qed.

Lemma faults_follow_their_source_witness :
  pf_first_seen_at_ms <$> previous_fault
    (publish_control_plane_observation 900 default_versioned PrivilegeDisabled demo_faulted None
       demo_first) "runtime" = Some 100.
Proof.
  destruct (faults_follow_their_source demo_first demo_first_reachable) as [Hobs _].
  destruct (Hobs 900 default_versioned PrivilegeDisabled demo_faulted None) as [-> _].
  by vm_compute.
Defined.
