(* ===== verification/DesktopLifecycle.v ===== *)
(** * DesktopLifecycle: starting and stopping the runtime from the desktop

    The controlling half of [src/src-tauri/src/app/background.rs].  Several threads
    start, restart, stop, switch or recover the runtime at once.  They number their
    requests ([runtime_control_generation]), take turns under one lock
    ([runtime_operation]) and give up when a later request has been numbered.

    A thread is where it is between two accesses to shared state ([Thread]);
    [desktop_step] is one piece of it.  The runtime is whatever implements
    [ExitRuntime]; [Orchestrator]'s world does. *)

From S2P Require Import Prelude Text StateModel Convergence DesktopProjection Effects Orchestrator.
From S2P Require Import OrchestratorProperties BrokerProtocol BrokerPipe Broker PrivilegeControl.
#[local] Open Scope N_scope.

(** ** The interface of a runtime *)

(* @src app/background.rs:103-107 DesktopExitError *)
Inductive DesktopExitError := ExitRuntimeError | ExitPrivilegeError.

(** A started runtime obeys its protocol; stopping the tunnel and then finishing
    takes it down, whatever either reports. *)
(* @src app/background.rs:136-138 ExitRuntime *)
Class ExitRuntime (R : Type) := {
  exit_stop_tunnel : R → R * result DesktopExitError unit;
  exit_finish : R → R * result DesktopExitError unit;
  runtime_ok : R → Prop;
  runtime_down : R → Prop;
  exit_stop_ok r : runtime_ok r → runtime_ok (exit_stop_tunnel r).1;
  exit_takes_down r : runtime_ok r → runtime_down (exit_finish (exit_stop_tunnel r).1).1
}.

(** ** Exit in security order *)

(* @src app/background.rs:430-435 ShutdownReport *)
Record ShutdownReport := MkShutdownReport {
  tunnel_stop_failed : bool;
  privilege_stop_failed : bool;
  lower_runtime_stop_failed : bool
}.

Section exit.
Context {R : Type} `{!ExitRuntime R}.
Context {P : Type} `{!Wire P, !Serde BrokerRequestEnvelope, !Serde BrokerResponseEnvelope}.

(* @src app/background.rs:424-428 PrivilegeController::close_gate_and_stop_broker *)
Definition close_gate_and_stop_broker (answers : StopAnswers) (privilege : PrivilegeShared P) :
    PrivilegeShared P * result DesktopExitError unit :=
  let '(privilege, r) := disable answers privilege in
  (privilege, map_err (λ _, ExitPrivilegeError) r).

(* @src app/background.rs:437-454 shutdown_in_security_order *)
Definition shutdown_in_security_order (answers : StopAnswers) (runtime : option R)
    (privilege : PrivilegeShared P) : option R * PrivilegeShared P * ShutdownReport :=
  let '(runtime, tunnel) :=
    match runtime with
    | Some runtime => let '(runtime, r) := exit_stop_tunnel runtime in (Some runtime, negb (is_ok r))
    | None => (None, false)
    end in
  let '(privilege, closed) := close_gate_and_stop_broker answers privilege in
  let '(runtime, lower) :=
    match runtime with
    | Some runtime => let '(runtime, r) := exit_finish runtime in (Some runtime, negb (is_ok r))
    | None => (None, false)
    end in
  (runtime, privilege, MkShutdownReport tunnel (negb (is_ok closed)) lower).
End exit.

(** ** Control by many threads *)

(** Which of the stopping operations a thread performs. *)
Inductive StopKind :=
  | ManualStop          (* stop_services_for_manual_action *)
  | ControlPlaneStop    (* stop_runtime_for_control_plane *)
  | LifecycleShutdown   (* DesktopLifecycle::shutdown *)
  | BackendShutdown.    (* DesktopBackendHandle::shutdown *)

(** [shutdown_with_privilege] leaves the desired services alone. *)
Definition disables_services (kind : StopKind) : bool :=
  match kind with LifecycleShutdown => false | _ => true end.

Section control.
Context {R : Type} `{!ExitRuntime R}.

(** A runtime; the number of the request that started it is not stored by the code. *)
Record Registered := MkRegistered {
  rg_runtime : R;
  rg_request : N
}.

(** The shared state of [DesktopLifecycle] and its handles. *)
(* @src app/background.rs:456-470 DesktopLifecycle *)
Record Desktop := MkDesktop {
  dl_desired : VersionedDesiredState;
  dl_generation : N;
  dl_operation : bool;
  dl_active : option Registered;
  dl_inactive : DesktopRuntimeSnapshot;
  dl_staged : bool;
  dl_cancellations : N
}.
#[export] Instance eta_Desktop : Eta Desktop := λ r,
  MkDesktop (dl_desired r) (dl_generation r) (dl_operation r) (dl_active r) (dl_inactive r)
    (dl_staged r) (dl_cancellations r).

Definition desktop_new : Desktop :=
  MkDesktop default_versioned 0 false None inactive_snapshot false 0.

(** The answers of the environment to one piece of a thread. *)
Record DesktopAnswers := MkDesktopAnswers {
  da_workspace : path;
  da_start : result RuntimeFault R;
  da_operate : R → R
}.

(** Where a thread is.  Between [...Acquire] and the end it holds the lock. *)
Inductive Thread :=
  | StartIntent
  | StartNumber
  | StartAnnounce (g : N)
  | StartAcquire (g : N)
  | StartCheck (g : N)
  | StartOwner (g : N)
  | StartRun (g : N)
  | StartCurrent (g : N) (r : R)
  | StartRegister (g : N) (r : R)
  | StartConfirm (g : N)
  | StartDiscard (g : N) (r : R)
  | RestartIntent
  | RestartNumber
  | RestartAnnounce (g : N)
  | RestartAcquire (g : N)
  | RestartCheck (g : N)
  | RestartTake (g : N)
  | RestartStop (g : N) (r : R)
  | RestartAgain (g : N)
  | StopIntent (kind : StopKind)
  | StopNumber
  | StopAcquire (g : N)
  | StopTake (g : N)
  | StopRuntime (g : N) (r : option R)
  | OperateIntent
  | OperateAcquire
  | OperateRun.

Definition is_current_generation (g : N) (d : Desktop) : bool := dl_generation d =? g.

(* @src app/background.rs:1556-1571 DesktopBackendHandle::publish_starting_if_current *)
Definition publish_starting_if_current (g : N) (workspace : path) (d : Desktop) : Desktop :=
  if negb (is_current_generation g d) then d else
  d <| dl_inactive := MkDesktopRuntimeSnapshot false StartingMcp StatusIdle None None
         (Some workspace) (ds_connection (vds_state (dl_desired d))) None |>.

(* @src app/background.rs:1573-1588 DesktopBackendHandle::publish_fault_if_current *)
Definition publish_fault_if_current (g : N) (workspace : path) (fault : RuntimeFault)
    (d : Desktop) : Desktop :=
  if negb (is_current_generation g d) then d else
  d <| dl_inactive := MkDesktopRuntimeSnapshot false (RuntimeFaulted fault) StatusIdle None None
         (Some workspace) (ds_connection (vds_state (dl_desired d))) None |>.

(** [set_services], [clear_staged_foreground_start], [recovery_cancellation.cancel]. *)
Definition intend (services : ServiceIntent) (d : Desktop) : Desktop :=
  d <| dl_desired ::= λ v, (set_services services v).1 |> <| dl_staged := false |>
    <| dl_cancellations ::= N.succ |>.

(** [fetch_add(1) + 1]; a [u64] that is never exhausted. *)
Definition number_request (d : Desktop) : Desktop * N :=
  let g := dl_generation d + 1 in (d <| dl_generation := g |>, g).

Definition acquire (d : Desktop) : option Desktop :=
  if dl_operation d then None else Some (d <| dl_operation := true |>).
Definition release (d : Desktop) : Desktop := d <| dl_operation := false |>.

(* @src app/background.rs:246-248 ProductionRuntimeOwner::take_active *)
Definition take_active (d : Desktop) : Desktop * option R :=
  (d <| dl_active := None |>, rg_runtime <$> dl_active d).

(** Both stops, whose results only go into the report. *)
Definition take_down (r : R) : R := (exit_finish (exit_stop_tunnel r).1).1.
Definition take_down_failed (r : R) : bool :=
  let '(r, tunnel) := exit_stop_tunnel r in
  negb (is_ok tunnel) || negb (is_ok (exit_finish r).2).

(** What a piece leaves: the shared state, where the thread is next ([None] when it
    is done), and the runtimes it let go of. *)
Record Piece := MkPiece {
  pc_desktop : Desktop;
  pc_next : option Thread;
  pc_dropped : list R
}.
Definition go (d : Desktop) (t : Thread) : Piece := MkPiece d (Some t) [].
Definition finish (d : Desktop) (dropped : list R) : Piece := MkPiece (release d) None dropped.

(* @src app/background.rs:1339-1362 DesktopBackendHandle::start_production_runtime *)
Definition start_piece (a : DesktopAnswers) (t : Thread) (d : Desktop) : option Piece :=
  match t with
  | StartIntent => Some (go (intend ServicesEnabled d) StartNumber)
  | StartNumber => let '(d, g) := number_request d in Some (go d (StartAnnounce g))
  | StartAnnounce g => Some (go (publish_starting_if_current g (da_workspace a) d) (StartAcquire g))
  | StartAcquire g => d ← acquire d; Some (go d (StartCheck g))
  | _ => None
  end.

(* @src app/background.rs:1364-1403 DesktopBackendHandle::start_production_runtime_locked *)
Definition start_locked_piece (a : DesktopAnswers) (t : Thread) (d : Desktop) : option Piece :=
  match t with
  | StartCheck g =>
      Some (if negb (is_current_generation g d) then finish d [] else go d (StartOwner g))
  | StartOwner g =>
      Some (if bool_decide (is_Some (dl_active d)) then finish d [] else go d (StartRun g))
  | StartRun g =>
      Some match da_start a with
           | Ok r => go d (StartCurrent g r)
           | Err fault => finish (publish_fault_if_current g (da_workspace a) fault d) []
           end
  | _ => None
  end.

(* @src app/background.rs:1405-1435 DesktopBackendHandle::activate_runtime_if_current_locked *)
Definition activate_piece (t : Thread) (d : Desktop) : option Piece :=
  match t with
  | StartCurrent g r =>
      Some (go d (if negb (is_current_generation g d) then StartDiscard g r else StartRegister g r))
  | StartRegister g r =>
      Some (if bool_decide (is_Some (dl_active d)) then finish d [r]
            else go (d <| dl_active := Some (MkRegistered r g) |>) (StartConfirm g))
  | StartConfirm g =>
      Some (if is_current_generation g d then finish d [] else
              match take_active d with
              | (d, Some r) => go d (StartDiscard g r)
              | (d, None) => finish d []
              end)
  | StartDiscard g r => Some (finish d [take_down r])
  | _ => None
  end.

(* @src app/background.rs:1438-1492 DesktopBackendHandle::restart_production_runtime *)
Definition restart_piece (a : DesktopAnswers) (t : Thread) (d : Desktop) : option Piece :=
  match t with
  | RestartIntent => Some (go (intend ServicesEnabled d) RestartNumber)
  | RestartNumber => let '(d, g) := number_request d in Some (go d (RestartAnnounce g))
  | RestartAnnounce g =>
      Some (go (publish_starting_if_current g (da_workspace a) d) (RestartAcquire g))
  | RestartAcquire g => d ← acquire d; Some (go d (RestartCheck g))
  | RestartCheck g =>
      Some (if negb (is_current_generation g d) then finish d [] else go d (RestartTake g))
  | RestartTake g =>
      Some match take_active d with
           | (d, Some r) => go d (RestartStop g r)
           | (d, None) => go d (RestartAgain g)
           end
  | RestartStop g r =>
      Some (if take_down_failed r
            then finish (publish_fault_if_current g (da_workspace a) RuntimeUnknown d) [take_down r]
            else MkPiece d (Some (RestartAgain g)) [take_down r])
  | RestartAgain g =>
      Some (if negb (is_current_generation g d) then finish d [] else go d (StartCheck g))
  | _ => None
  end.

(** The runtime that is stopped is dropped at the end of the scope; [inactive] is
    published before the lock is released. *)
(* @src app/background.rs:1102-1152 DesktopLifecycle::stop_services_for_manual_action, stop_runtime_for_control_plane *)
Definition stop_piece (t : Thread) (d : Desktop) : option Piece :=
  match t with
  | StopIntent kind =>
      Some (go (if disables_services kind then intend ServicesDisabled d
                else d <| dl_staged := false |> <| dl_cancellations ::= N.succ |>) StopNumber)
  | StopNumber => let '(d, g) := number_request d in Some (go d (StopAcquire g))
  | StopAcquire g => d ← acquire d; Some (go d (StopTake g))
  | StopTake g => let '(d, r) := take_active d in Some (go d (StopRuntime g r))
  | StopRuntime g r =>
      Some (finish (d <| dl_inactive := inactive_snapshot |>)
        match r with Some r => [take_down r] | None => [] end)
  | _ => None
  end.

(** [switch_runtime_workspace], [manual_retry_after_attention] and the watchdog work
    on the active runtime in place; the first two cancel a recovery before, and the
    watchdog, which only tries the lock, begins by taking it. *)
(* @src app/background.rs:1192-1237 DesktopLifecycle::switch_runtime_workspace, manual_retry_after_attention *)
Definition operate_piece (a : DesktopAnswers) (t : Thread) (d : Desktop) : option Piece :=
  match t with
  | OperateIntent => Some (go (d <| dl_cancellations ::= N.succ |>) OperateAcquire)
  | OperateAcquire => d ← acquire d; Some (go d OperateRun)
  | OperateRun =>
      Some (finish (d <| dl_active ::= fmap (M:=option) (λ g,
        MkRegistered (da_operate a (rg_runtime g)) (rg_request g)) |>) [])
  | _ => None
  end.

Definition desktop_step (a : DesktopAnswers) (t : Thread) (d : Desktop) : option Piece :=
  match t with
  | StartIntent | StartNumber | StartAnnounce _ | StartAcquire _ => start_piece a t d
  | StartCheck _ | StartOwner _ | StartRun _ => start_locked_piece a t d
  | StartCurrent _ _ | StartRegister _ _ | StartConfirm _ | StartDiscard _ _ => activate_piece t d
  | RestartIntent | RestartNumber | RestartAnnounce _ | RestartAcquire _ | RestartCheck _
  | RestartTake _ | RestartStop _ _ | RestartAgain _ => restart_piece a t d
  | StopIntent _ | StopNumber | StopAcquire _ | StopTake _ | StopRuntime _ _ => stop_piece t d
  | OperateIntent | OperateAcquire | OperateRun => operate_piece a t d
  end.
End control.
Arguments Registered : clear implicits.
Arguments Desktop : clear implicits.
Arguments DesktopAnswers : clear implicits.
Arguments Thread : clear implicits.
Arguments Piece : clear implicits.
