(* ===== verification/DesktopLifecycleProperties.v ===== *)
(** * DesktopLifecycleProperties: one runtime at a time, and a stop is final

    Any number of threads run the pieces of [DesktopLifecycle] in any order. *)

From S2P Require Import Prelude Text StateModel Convergence DesktopProjection Effects Orchestrator.
From S2P Require Import OrchestratorProperties BrokerProtocol BrokerPipe Broker PrivilegeControl.
From S2P Require Import DesktopLifecycle.
#[local] Open Scope N_scope.

(** ** The machine *)

Section machine.
Context {R : Type} `{!ExitRuntime R}.
Implicit Types (d : Desktop R) (t : Thread R) (a : DesktopAnswers R).

(** The shared state, the threads, the runtimes that were let go of, and the numbers
    of the stops that are complete. *)
Record DesktopState := MkDesktopState {
  dt_shared : Desktop R;
  dt_threads : list (Thread R);
  dt_dropped : list R;
  dt_stopped : list N
}.

(** Where the public operations begin. *)
Definition begins t : Prop :=
  match t with
  | StartIntent | RestartIntent | StopIntent _ | OperateIntent | OperateAcquire => True
  | _ => False
  end.

(** What the runtime answers keeps to its protocol. *)
Definition answers_ok a : Prop :=
  match da_start a with Ok r => runtime_ok r | Err _ => True end ∧
  ∀ r, runtime_ok r → runtime_ok (da_operate a r).

(** The stop that ends with a piece of [t]. *)
Definition completes t : list N := match t with StopRuntime g _ => [g] | _ => [] end.

Inductive desktop_machine_step : DesktopState → DesktopState → Prop :=
  | desktop_begin d threads dropped stopped t :
      begins t →
      desktop_machine_step (MkDesktopState d threads dropped stopped)
        (MkDesktopState d (t :: threads) dropped stopped)
  | desktop_piece d before t after dropped stopped a piece :
      answers_ok a → desktop_step a t d = Some piece →
      desktop_machine_step (MkDesktopState d (before ++ t :: after) dropped stopped)
        (MkDesktopState (pc_desktop piece) (before ++ option_list (pc_next piece) ++ after)
           (pc_dropped piece ++ dropped) (completes t ++ stopped))
  | desktop_other d threads dropped stopped desired inactive staged cancellations :
      desktop_machine_step (MkDesktopState d threads dropped stopped)
        (MkDesktopState (d <| dl_desired := desired |> <| dl_inactive := inactive |>
           <| dl_staged := staged |> <| dl_cancellations := cancellations |>)
           threads dropped stopped).

#[export] Instance desktop_machine : StateMachine DesktopState := {
  sm_init s := s = MkDesktopState desktop_new [] [] [];
  sm_step := desktop_machine_step
}.

(** ** The invariant *)

Definition holds_lock t : bool :=
  match t with
  | StartCheck _ | StartOwner _ | StartRun _ | StartCurrent _ _ | StartRegister _ _
  | StartConfirm _ | StartDiscard _ _ | RestartCheck _ | RestartTake _ | RestartStop _ _
  | RestartAgain _ | StopTake _ | StopRuntime _ _ | OperateRun => true
  | _ => false
  end.

(** The runtimes a thread holds, and its number. *)
Definition held t : list R :=
  match t with
  | StartCurrent _ r | StartRegister _ r | StartDiscard _ r | RestartStop _ r
  | StopRuntime _ (Some r) => [r]
  | _ => []
  end.
Definition number t : option N :=
  match t with
  | StartAnnounce g | StartAcquire g | StartCheck g | StartOwner g | StartRun g
  | StartCurrent g _ | StartRegister g _ | StartConfirm g | StartDiscard g _
  | RestartAnnounce g | RestartAcquire g | RestartCheck g | RestartTake g | RestartStop g _
  | RestartAgain g | StopAcquire g | StopTake g | StopRuntime g _ => Some g
  | _ => None
  end.

(** The registry is empty while a thread is here. *)
Definition needs_inactive t : bool :=
  match t with
  | StartRun _ | StartCurrent _ _ | StartRegister _ _ | StartDiscard _ _ | RestartStop _ _
  | StopRuntime _ _ => true
  | _ => false
  end.

(** The thread has found its number to be the latest after it took the lock. *)
Definition checked t : bool :=
  match t with
  | StartOwner _ | StartRun _ | StartCurrent _ _ | StartRegister _ _ | StartConfirm _
  | StartDiscard _ _ => true
  | _ => false
  end.

Record thread_ok d (stopped : list N) t : Prop := MkThreadOk {
  to_inactive : needs_inactive t = true → dl_active d = None;
  to_after g : checked t = true → number t = Some g → ∀ gs, gs ∈ stopped → gs < g;
  to_held : Forall runtime_ok (held t)
}.

(** The registered runtime obeys its protocol and was requested after every
    complete stop. *)
Definition active_ok d (stopped : list N) : Prop :=
  ∀ rg, dl_active d = Some rg →
    runtime_ok (rg_runtime rg) ∧ (∀ gs, gs ∈ stopped → gs < rg_request rg) ∧
    rg_request rg ≤ dl_generation d.

Definition numbers (threads : list (Thread R)) : list N := omap number threads.

Record desktop_ok (s : DesktopState) : Prop := MkDesktopOk {
  do_lock : countb holds_lock (dt_threads s) = if dl_operation (dt_shared s) then 1%nat else 0%nat;
  do_threads : Forall (thread_ok (dt_shared s) (dt_stopped s)) (dt_threads s);
  do_active : active_ok (dt_shared s) (dt_stopped s);
  do_unique : NoDup (numbers (dt_threads s) ++ dt_stopped s);
  do_below g : g ∈ numbers (dt_threads s) ++ dt_stopped s → g ≤ dl_generation (dt_shared s);
  do_dropped : Forall runtime_down (dt_dropped s)
}.

(** A thread without the lock asks nothing of the shared state. *)
Lemma thread_ok_unlocked d stopped t : holds_lock t = false → thread_ok d stopped t.
Proof. intros Hl. split; destruct t; simpl in *; try done; apply Forall_nil_2. Qed.

Lemma thread_ok_same d d' stopped t :
  dl_active d' = dl_active d → thread_ok d stopped t → thread_ok d' stopped t.
Proof. intros Ha [? ? ?]. split; [by rewrite Ha|done..]. Qed.

(** ** One piece *)

(** What a piece does to the lock, to the numbers and to the rest. *)
Record piece_ok d (stopped : list N) t (piece : Piece R) : Prop := MkPieceOk {
  po_lock : if holds_lock t
    then dl_operation (pc_desktop piece) =
           match pc_next piece with Some t' => holds_lock t' | None => false end
    else dl_active (pc_desktop piece) = dl_active d ∧ completes t = [] ∧
         match pc_next piece with
         | Some t' => if holds_lock t'
             then dl_operation d = false ∧ dl_operation (pc_desktop piece) = true
             else dl_operation (pc_desktop piece) = dl_operation d
         | None => False
         end;
  po_thread t' : pc_next piece = Some t' → thread_ok (pc_desktop piece) (completes t ++ stopped) t';
  po_active : active_ok (pc_desktop piece) (completes t ++ stopped);
  po_numbers : sublist (option_list (pc_next piece ≫= number) ++ completes t)
                 (option_list (number t)) ∧ dl_generation (pc_desktop piece) = dl_generation d ∨
               number t = None ∧ completes t = [] ∧
                 (pc_next piece ≫= number) = Some (dl_generation d + 1) ∧
                 dl_generation (pc_desktop piece) = dl_generation d + 1;
  po_dropped : Forall runtime_down (pc_dropped piece)
}.

Lemma take_down_down r : runtime_ok r → runtime_down (take_down r).
Proof. apply exit_takes_down. Qed.

Lemma active_ok_none d stopped : dl_active d = None → active_ok d stopped.
Proof. intros Hn rg. by rewrite Hn. Qed.
Lemma active_ok_same d d' stopped :
  dl_active d' = dl_active d → dl_generation d ≤ dl_generation d' →
  active_ok d stopped → active_ok d' stopped.
Proof. intros Ha Hg Hok rg. rewrite Ha. intros Hrg. destruct (Hok rg Hrg) as (? & ? & ?).
  split_and!; [done|done|lia]. Qed.

Lemma not_registered d : bool_decide (is_Some (dl_active d)) = false → dl_active d = None.
Proof. rewrite bool_decide_eq_false. apply eq_None_not_Some. Qed.

(** Symbolic execution of a piece, and the five obligations of [piece_ok]. *)
Ltac run_piece Hstep :=
  simpl in Hstep;
  unfold publish_starting_if_current, publish_fault_if_current, acquire, finish, go, take_active,
    number_request in Hstep;
  repeat match type of Hstep with
  | context [match ?x with _ => _ end] => destruct x eqn:?
  end; simplify_eq/=.
Ltac solve_piece :=
  split; simpl;
  [ try done; try (by auto); try (by split_and!; auto)
  | intros t' [= <-]; try (by apply thread_ok_unlocked); split; simpl; auto; try done;
    try (by repeat constructor; auto)
  | first [ eapply active_ok_same; [| |eassumption]; [done|simpl; lia] | apply active_ok_none; by auto | idtac ]
  | first [ left; split; [|done]; first [done | apply sublist_nil_l] | by right ]
  | first [ apply Forall_nil_2 | apply Forall_singleton, take_down_down | idtac ] ].

(** What a step may assume. *)
Record step_ready d (stopped : list N) t a : Prop := MkStepReady {
  sr_answers : answers_ok a;
  sr_thread : thread_ok d stopped t;
  sr_active : active_ok d stopped;
  sr_lock : holds_lock t = true → dl_operation d = true;
  sr_fresh g gs : number t = Some g → gs ∈ stopped → gs ≤ dl_generation d ∧ gs ≠ g;
  sr_below g : number t = Some g → g ≤ dl_generation d
}.

Lemma start_piece_ok d stopped t a piece :
  step_ready d stopped t a → start_piece a t d = Some piece → piece_ok d stopped t piece.
Proof.
  intros [_ [_ _ _] Hact Hlock _ _] Hstep. destruct t; try done; run_piece Hstep; solve_piece.
Qed.

Lemma start_locked_piece_ok d stopped t a piece :
  step_ready d stopped t a → start_locked_piece a t d = Some piece → piece_ok d stopped t piece.
Proof.
  intros [[Hstart _] [Hin Haft _] Hact Hlock Hnum _] Hstep.
  destruct t; try done; simpl in *; run_piece Hstep; solve_piece.
  - intros g' _ [= <-] gs Hgs. destruct (Hnum g gs) as [Hle Hne]; [done|done|].
    apply negb_false_iff, N.eqb_eq in Heqb. lia.
  - intros _. by apply not_registered.
Qed.

(** A registered runtime that is taken keeps to its protocol. *)
Lemma taken_ok d stopped r :
  active_ok d stopped → rg_runtime <$> dl_active d = Some r → runtime_ok r.
Proof. intros Hact (rg & Hrg & ->)%fmap_Some. by apply Hact. Qed.

Lemma activate_piece_ok d stopped t a piece :
  step_ready d stopped t a → activate_piece t d = Some piece → piece_ok d stopped t piece.
Proof.
  intros [_ [Hin Haft Hheld] Hact Hlock _ Hbelow] Hstep.
  destruct t; try done; simpl in *; rewrite ?Forall_singleton in Hheld; run_piece Hstep; solve_piece.
  - rewrite Hin in Heqb by done. by vm_compute in Heqb.
  - intros rg [= <-]. simpl. split_and!; auto.
  - apply Forall_singleton. by eapply taken_ok.
  - done.
Qed.

Lemma restart_piece_ok d stopped t a piece :
  step_ready d stopped t a → restart_piece a t d = Some piece → piece_ok d stopped t piece.
Proof.
  intros [_ [Hin Haft Hheld] Hact Hlock _ Hbelow] Hstep.
  destruct t; try done; simpl in *; rewrite ?Forall_singleton in Hheld; run_piece Hstep; solve_piece;
    rewrite ?Forall_singleton; first [done | by eapply taken_ok].
Qed.

Lemma stop_piece_ok d stopped t a piece :
  step_ready d stopped t a → stop_piece t d = Some piece → piece_ok d stopped t piece.
Proof.
  intros [_ [Hin Haft Hheld] Hact Hlock _ Hbelow] Hstep.
  destruct t; try done; simpl in *; run_piece Hstep; solve_piece.
  - destruct (rg_runtime <$> dl_active d) as [r|] eqn:Hr; [|apply Forall_nil_2].
    apply Forall_singleton. by eapply taken_ok.
  - by rewrite Forall_singleton in Hheld.
Qed.

Lemma operate_piece_ok d stopped t a piece :
  step_ready d stopped t a → operate_piece a t d = Some piece → piece_ok d stopped t piece.
Proof.
  intros [[_ Hoper] _ Hact Hlock _ _] Hstep.
  destruct t; try done; simpl in *; run_piece Hstep; solve_piece.
  intros rg (rg' & Hrg & ->)%fmap_Some. destruct (Hact rg' Hrg) as (? & ? & ?). simpl. auto.
Qed.

Lemma desktop_step_ok d stopped t a piece :
  step_ready d stopped t a → desktop_step a t d = Some piece → piece_ok d stopped t piece.
Proof.
  intros Hr Hs. destruct t; first
    [ by apply (start_piece_ok _ _ _ a) | by apply (start_locked_piece_ok _ _ _ a)
    | by apply (activate_piece_ok _ _ _ a) | by apply (restart_piece_ok _ _ _ a)
    | by apply (stop_piece_ok _ _ _ a) | by apply (operate_piece_ok _ _ _ a) ].
Qed.

(** ** The invariant is kept *)

Lemma numbers_app l1 l2 : numbers (l1 ++ l2) = numbers l1 ++ numbers l2.
Proof. apply omap_app. Qed.
Lemma numbers_option (o : option (Thread R)) :
  numbers (option_list o) = option_list (o ≫= number).
Proof. destruct o as [t|]; simpl; [|done]. by destruct (number t). Qed.

Lemma unlocked_threads threads :
  countb holds_lock threads = 0%nat → ∀ t, t ∈ threads → holds_lock t = false.
Proof.
  intros Hc t Ht. apply not_true_iff_false. intros Hl. pose proof (countb_pos _ _ _ Ht Hl). lia.
Qed.

Lemma piece_lock d before t after piece stopped :
  piece_ok d stopped t piece →
  countb holds_lock (before ++ t :: after) = (if dl_operation d then 1%nat else 0%nat) →
  countb holds_lock (before ++ option_list (pc_next piece) ++ after) =
    (if dl_operation (pc_desktop piece) then 1%nat else 0%nat).
Proof.
  intros [Hl _ _ _ _] Hc. autorewrite with counts in *.
  destruct (holds_lock t), (dl_operation d); try lia.
  - rewrite Hl. destruct (pc_next piece) as [t'|]; simpl; autorewrite with counts;
      [destruct (holds_lock t')|]; lia.
  - destruct Hl as (_ & _ & Hl). destruct (pc_next piece) as [t'|]; simpl; autorewrite with counts; [|done].
    destruct (holds_lock t'); [by destruct Hl|]. rewrite Hl. lia.
  - destruct Hl as (_ & _ & Hl). destruct (pc_next piece) as [t'|]; simpl; autorewrite with counts; [|done].
    destruct (holds_lock t'); [destruct Hl as [_ ->]|rewrite Hl]; lia.
Qed.

Lemma piece_threads d before t after piece stopped :
  piece_ok d stopped t piece →
  countb holds_lock (before ++ t :: after) = (if dl_operation d then 1%nat else 0%nat) →
  Forall (thread_ok d stopped) (before ++ t :: after) →
  Forall (thread_ok (pc_desktop piece) (completes t ++ stopped))
    (before ++ option_list (pc_next piece) ++ after).
Proof.
  intros [Hl Ht _ _ _] Hc Hall. autorewrite with counts in Hc.
  assert (Forall (thread_ok (pc_desktop piece) (completes t ++ stopped)) before ∧
          Forall (thread_ok (pc_desktop piece) (completes t ++ stopped)) after) as [Hb Ha].
  { apply Forall_app in Hall as [Hb Ha]. apply Forall_cons in Ha as [_ Ha].
    destruct (holds_lock t) eqn:Hlt.
    - assert (countb holds_lock before = 0%nat ∧ countb holds_lock after = 0%nat) as [Hb0 Ha0]
        by (destruct (dl_operation d); lia).
      split; apply Forall_forall; intros t' Ht'; apply thread_ok_unlocked;
        (eapply unlocked_threads; [|exact Ht']); done.
    - destruct Hl as (Hact & -> & _).
      split; (eapply Forall_impl; [eassumption|]); intros t'; by apply thread_ok_same. }
  rewrite !Forall_app. split_and!; [done| |done].
  destruct (pc_next piece) as [t'|]; simpl; [|apply Forall_nil_2].
  apply Forall_singleton. by apply Ht.
Qed.

Lemma piece_numbers d before t after piece stopped :
  piece_ok d stopped t piece →
  let old := numbers (before ++ t :: after) ++ stopped in
  let new := numbers (before ++ option_list (pc_next piece) ++ after) ++ completes t ++ stopped in
  NoDup old → (∀ g, g ∈ old → g ≤ dl_generation d) →
  NoDup new ∧ (∀ g, g ∈ new → g ≤ dl_generation (pc_desktop piece)).
Proof.
  intros [_ _ _ Hn _] old new Hnd Hle.
  assert (new ≡ₚ (option_list (pc_next piece ≫= number) ++ completes t) ++
    numbers before ++ numbers after ++ stopped) as Hnew.
  { unfold new. rewrite !numbers_app, numbers_option. solve_Permutation. }
  assert (old ≡ₚ option_list (number t) ++ numbers before ++ numbers after ++ stopped) as Hold.
  { unfold old. rewrite numbers_app. change (t :: after) with (option_list (Some t) ++ after).
    rewrite numbers_app, numbers_option. simpl. solve_Permutation. }
  setoid_rewrite Hnew. setoid_rewrite Hold in Hle. rewrite Hold in Hnd.
  destruct Hn as [[Hsub Hg]|(Hno & -> & -> & Hg)].
  - assert (sublist ((option_list (pc_next piece ≫= number) ++ completes t) ++
      numbers before ++ numbers after ++ stopped)
      (option_list (number t) ++ numbers before ++ numbers after ++ stopped)) as Hs
      by by apply sublist_app.
    rewrite Hg. split; [by eapply sublist_nodup|]. intros g Hin. apply Hle. by eapply sublist_mem.
  - rewrite Hno in *. simpl in *. rewrite Hg. split.
    + constructor; [|done]. intros Hin. specialize (Hle _ Hin). lia.
    + intros g [->|Hin]%elem_of_cons; [lia|]. specialize (Hle _ Hin). lia.
Qed.

#[export] Instance desktop_ok_invariant : Invariant desktop_ok.
Proof.
  split.
  - intros s ->. split; simpl; try done; try first [apply NoDup_nil_2|apply Forall_nil_2].
    by intros g ?%elem_of_nil.
  - intros s s' [Hlock Hthr Hact Huniq Hbelow Hdrop] Hs. destruct Hs; simpl in *.
    + split; simpl; try done.
      * autorewrite with counts. by destruct t.
      * constructor; [|done]. apply thread_ok_unlocked. by destruct t.
      * by destruct t.
      * intros g. specialize (Hbelow g). by destruct t.
    + assert (∀ g, number t = Some g → g ∈ numbers (before ++ t :: after)) as Hin.
      { intros g Hg. apply list_elem_of_omap. exists t. rewrite elem_of_app, elem_of_cons. auto. }
      assert (step_ready d stopped t a) as Hr.
      { split; [done| |done| | |].
        - rewrite Forall_app, Forall_cons in Hthr. tauto.
        - intros Hl. autorewrite with counts in Hlock. rewrite Hl in Hlock.
          destruct (dl_operation d); [done|lia].
        - intros g gs Hg Hgs. split; [apply Hbelow; rewrite elem_of_app; by right|].
          intros ->. apply NoDup_app in Huniq as (_ & Hdis & _). by apply (Hdis g); [apply Hin|].
        - intros g Hg. apply Hbelow. rewrite elem_of_app. left. by apply Hin. }
      pose proof (desktop_step_ok _ _ _ _ _ Hr H0) as Hp.
      pose proof (piece_numbers _ before _ after _ _ Hp Huniq Hbelow) as [Hu Hb].
      split; simpl; [by eapply piece_lock|by eapply piece_threads|apply Hp|done|done|].
      rewrite Forall_app. split; [apply Hp|done].
    + split; simpl; try done. eapply Forall_impl; [exact Hthr|]. intros t. by apply thread_ok_same.
Qed.

(** ** The theorems *)

(** Every runtime that is up, or was and is not down yet. *)
Definition live (s : DesktopState) : list R :=
  option_list (rg_runtime <$> dl_active (dt_shared s)) ++ (dt_threads s ≫= held).

(** A thread that holds a runtime has the lock, and the registry is empty. *)
Lemma held_cases d stopped t :
  thread_ok d stopped t → held t = [] ∨ (∃ r, held t = [r]) ∧ holds_lock t = true ∧ dl_active d = None.
Proof.
  intros [Hin _ _]. destruct t as [| | | | | | | | | | | | | | | | |g r| | | | | |g [r|]| | |];
    simpl in *; eauto 6.
Qed.

Lemma held_bound d stopped threads :
  Forall (thread_ok d stopped) threads →
  (length (threads ≫= held) ≤ countb holds_lock threads)%nat ∧
  (threads ≫= held ≠ [] → dl_active d = None) ∧ Forall runtime_ok (threads ≫= held).
Proof.
  induction 1 as [|t threads Ht _ (IHl & IHn & IHo)]; csimpl; [by split_and!|].
  autorewrite with counts. rewrite length_app.
  destruct (held_cases _ _ _ Ht) as [->|([r Hr] & Hl & Hnone)]; csimpl.
  - split_and!; [lia|done|done].
  - rewrite Hr, Hl. csimpl. split_and!; [lia|done|]. constructor; [|done].
    pose proof (to_held _ _ _ Ht) as Hok. rewrite Hr in Hok.
    by rewrite Forall_singleton in Hok.
Qed.

(** C38 (invariant): there is never more than one runtime.  However many threads start,
    restart, stop, switch and recover the runtime, in whatever order their pieces
    run and whatever the driver answers: at most one runtime is registered or in the
    hands of a thread, it obeys its protocol, and every runtime that was let go of
    had been taken down first - in particular the error path of [activate_boxed],
    which would drop a running runtime, is never taken. *)
Theorem one_runtime_at_a_time (s : DesktopState) :
  reachable s →
  (length (live s) ≤ 1)%nat ∧ Forall runtime_ok (live s) ∧ Forall runtime_down (dt_dropped s).
Proof.
  intros [Hlock Hthr Hact _ _ Hdrop]%(invariant_reachable desktop_ok).
  destruct (held_bound _ _ _ Hthr) as (Hlen & Hnone & Hok).
  split_and!; [| |done]; unfold live.
  - rewrite length_app. destruct (dl_active (dt_shared s)) as [rg|] eqn:Ha; simpl.
    + destruct (dt_threads s ≫= held) as [|r rs]; [simpl; lia|].
      discriminate Hnone. done.
    + destruct (dl_operation _); lia.
  - apply Forall_app. split; [|done].
    destruct (dl_active (dt_shared s)) as [rg|] eqn:Ha; simpl; [|apply Forall_nil_2].
    apply Forall_singleton. by apply (Hact rg).
Qed.

(** A stop is final.  Once a stop with number [gs] is complete, every
    runtime that is registered was requested later, under a greater number; so when
    no request was numbered after it, nothing is registered, and a start that was
    already on its way when the stop was requested ends without a runtime. *)
Theorem stop_is_final (s : DesktopState) (gs : N) :
  reachable s → gs ∈ dt_stopped s →
  (∀ rg, dl_active (dt_shared s) = Some rg → gs < rg_request rg) ∧
  (dl_generation (dt_shared s) = gs → dl_active (dt_shared s) = None) ∧
  (∀ t g, t ∈ dt_threads s → checked t = true → number t = Some g → gs < g).
Proof.
  intros [_ Hthr Hact _ Hbelow _]%(invariant_reachable desktop_ok) Hgs.
  rewrite Forall_forall in Hthr. split_and!.
  - intros rg Hrg. by apply (Hact rg Hrg).
  - intros Hg. destruct (dl_active (dt_shared s)) as [rg|] eqn:Ha; [|done].
    destruct (Hact rg Ha) as (_ & Hlt & Hle). specialize (Hlt gs Hgs). lia.
  - intros t g Ht Hc Hn. by eapply (to_after _ _ _ (Hthr t Ht)).
Qed.
End machine.

(** ** The orchestrator is such a runtime *)

Section orchestrator.
Context `{!RuntimeDriver}.

(** [RuntimeOrchestrator::...(self).map_err(|_| DesktopExitError::Runtime)]. *)
Definition exit_result {A} (r : option (result OrchestratorError A)) :
    result DesktopExitError unit :=
  match r with Some (Ok _) => Ok () | _ => Err ExitRuntimeError end.

(* @src app/background.rs:292-303 ExitRuntime for RuntimeOrchestrator *)
Definition orchestrator_stop_tunnel (w : World) : World * result DesktopExitError unit :=
  let '(w, r) := stop_tunnel_for_exit w in (w, exit_result r).
Definition orchestrator_finish (w : World) : World * result DesktopExitError unit :=
  let '(w, r) := finish_exit_after_tunnel w in (w, exit_result r).

Lemma orchestrator_stop_tunnel_ok w :
  steady w → let w' := (orchestrator_stop_tunnel w).1 in
  steady w' ∧ ro_ready (w_orchestrator w') = None.
Proof.
  intros Hs. unfold orchestrator_stop_tunnel.
  destruct (wp_run _ _ _ (stop_tunnel_for_exit_spec w Hs)) as (w' & r & -> & ? & _ & ?). done.
Qed.
Lemma orchestrator_finish_down w :
  steady w → ro_ready (w_orchestrator w) = None → all_down (orchestrator_finish w).1.
Proof.
  intros Hs Hn. unfold orchestrator_finish.
  destruct (wp_run _ _ _ (finish_exit_spec w Hs)) as (w' & r & -> & _ & _ & Hd). by apply Hd.
Qed.

#[export] Instance orchestrator_exit : ExitRuntime World.
Proof.
  refine {| exit_stop_tunnel := orchestrator_stop_tunnel; exit_finish := orchestrator_finish;
            runtime_ok := steady; runtime_down := all_down |}.
  - intros w Hw. by apply orchestrator_stop_tunnel_ok.
  - intros w Hw. destruct (orchestrator_stop_tunnel_ok w Hw). by apply orchestrator_finish_down.
Defined.

(** Leaving the application: afterwards the orchestrator owns nothing of the runtime,
    whether its parts answered their stop or not, the privileged gate is closed, and the
    report tells which of the broker and the tunnel failed to stop. *)
Theorem shutdown_takes_everything_down {P} `{!Wire P, !Serde BrokerRequestEnvelope}
    `{!Serde BrokerResponseEnvelope} (answers : StopAnswers) (w : World)
    (privilege : PrivilegeShared P) :
  reachable w →
  let '(w', privilege', report) := shutdown_in_security_order answers (Some w) privilege in
  (∃ w1, w' = Some w1 ∧ all_down w1) ∧
  ps_lifecycle privilege' = LifecycleDisabled ∧
  (privilege_stop_failed report = false ↔ stop_broker answers (ps_lifecycle privilege) = Ok ()) ∧
  (tunnel_stop_failed report = false ↔ (exit_stop_tunnel w).2 = Ok ()).
Proof.
  intros Hs%(invariant_reachable steady). unfold shutdown_in_security_order.
  destruct (exit_stop_tunnel w) as [w1 r1] eqn:H1.
  pose proof (exit_takes_down w Hs) as Hdown. rewrite H1 in Hdown. cbn [fst] in Hdown.
  unfold close_gate_and_stop_broker, disable, replace.
  destruct (exit_finish w1) as [w2 r2] eqn:H2. split_and!.
  - exists w2. split; [done|exact Hdown].
  - done.
  - destruct (stop_broker answers (ps_lifecycle privilege)) as [[]|]; simpl; split; done.
  - destruct r1 as [[]|]; simpl; split; done.
Qed.
End orchestrator.

(** ** Witnesses *)

(** Two starts and a stop, with the demonstration driver of the orchestrator. *)
#[local] Existing Instance demo_driver.
Abbreviation DemoState := (DesktopState (R:=World)).

Definition demo_da : DesktopAnswers World := MkDesktopAnswers "C:\work" (Ok demo_world) (λ w, w).

Lemma demo_da_ok : answers_ok demo_da.
Proof.
  split; [|done]. simpl. exact (invariant_reachable steady demo_world demo_reachable).
Qed.

(** Runs the only thread until it is done or blocked. *)
Fixpoint run_thread (fuel : nat) (s : DemoState) : DemoState :=
  match fuel, dt_threads s with
  | S fuel, t :: after =>
      match desktop_step demo_da t (dt_shared s) with
      | Some piece => run_thread fuel (MkDesktopState (pc_desktop piece)
          (option_list (pc_next piece) ++ after) (pc_dropped piece ++ dt_dropped s)
          (completes t ++ dt_stopped s))
      | None => s
      end
  | _, _ => s
  end.

Lemma run_thread_steps fuel s : rtc sm_step s (run_thread fuel s).
Proof.
  revert s. induction fuel as [|fuel IH]; intros [d threads dropped stopped]; simpl; [done|].
  destruct threads as [|t after]; [done|].
  destruct (desktop_step demo_da t d) as [piece|] eqn:Hp; [|done].
  eapply rtc_l; [|apply IH].
  apply (desktop_piece d [] t after dropped stopped demo_da piece demo_da_ok Hp).
Qed.

Definition with_thread (t : Thread World) (s : DemoState) : DemoState :=
  MkDesktopState (dt_shared s) (t :: dt_threads s) (dt_dropped s) (dt_stopped s).

Lemma with_thread_step t s : begins t → sm_step s (with_thread t s).
Proof. destruct s. by constructor. Qed.

Definition demo_started : DemoState :=
  run_thread 20 (with_thread StartIntent (MkDesktopState desktop_new [] [] [])).
Definition demo_stopped : DemoState := run_thread 20 (with_thread (StopIntent ManualStop) demo_started).

Lemma demo_started_reachable : reachable demo_started.
Proof.
  exists (MkDesktopState desktop_new [] [] []). split; [done|].
  eapply rtc_l; [by apply (with_thread_step StartIntent)|]. apply run_thread_steps.
Qed.
Lemma demo_stopped_reachable : reachable demo_stopped.
Proof.
  destruct demo_started_reachable as (s0 & Hi & Hs). exists s0. split; [done|].
  etrans; [exact Hs|]. eapply rtc_l; [by apply (with_thread_step (StopIntent ManualStop))|].
  apply run_thread_steps.
Qed.

Lemma one_runtime_at_a_time_witness :
  length (live demo_started) = 1%nat ∧ (length (live demo_started) ≤ 1)%nat.
Proof.
  split; [by vm_compute|]. apply (one_runtime_at_a_time demo_started demo_started_reachable).
Defined.

Lemma stop_is_final_witness :
  dt_stopped demo_stopped = [2] ∧ dl_active (dt_shared demo_stopped) = None.
Proof.
  split; [by vm_compute|].
  apply (stop_is_final demo_stopped 2 demo_stopped_reachable); [|by vm_compute].
  vm_compute. by left.
Defined.

(** A started runtime, and a gate that is closed already; the pipe is never used. *)
#[local] Instance demo_wire : Wire unit := λ _ p, (p, Err Disconnected).
#[local] Instance demo_request_codec : Serde BrokerRequestEnvelope :=
  {| to_vec _ := None; from_slice _ := None; from_slice_to_vec _ _ H := ltac:(discriminate H) |}.
#[local] Instance demo_response_codec : Serde BrokerResponseEnvelope :=
  {| to_vec _ := None; from_slice _ := None; from_slice_to_vec _ _ H := ltac:(discriminate H) |}.

Lemma shutdown_takes_everything_down_witness : ∃ w,
  (shutdown_in_security_order (MkStopAnswers (Ok true) (Ok ()) (Ok true)) (Some demo_world)
    (privilege_default (P:=unit))).1.1 = Some w ∧ all_down w.
Proof.
  pose proof (shutdown_takes_everything_down (MkStopAnswers (Ok true) (Ok ()) (Ok true)) demo_world
    (privilege_default (P:=unit)) demo_reachable) as H.
  destruct (shutdown_in_security_order _ _ _) as [[w' p'] report]. apply H.
Defined.

(** The desired state and the number are not one step: a start that is overtaken by a
    whole stop between the two leaves a runtime behind although no services are
    desired. *)
Definition demo_overtaken : DemoState :=
  let started := run_thread 1 (with_thread StartIntent (MkDesktopState desktop_new [] [] [])) in
  let stopped := run_thread 5 (with_thread (StopIntent ManualStop) started) in
  run_thread 20 stopped.

Lemma overtaken_start_runs_undesired :
  reachable demo_overtaken ∧ dt_threads demo_overtaken = [] ∧
  ds_services (vds_state (dl_desired (dt_shared demo_overtaken))) = ServicesDisabled ∧
  is_Some (dl_active (dt_shared demo_overtaken)).
Proof.
  split_and!; [|by vm_compute|by vm_compute|].
  - exists (MkDesktopState desktop_new [] [] []). split; [done|].
    eapply rtc_l; [by apply (with_thread_step StartIntent)|].
    etrans; [apply (run_thread_steps 1)|].
    eapply rtc_l; [by apply (with_thread_step (StopIntent ManualStop))|].
    etrans; [apply (run_thread_steps 5)|]. apply run_thread_steps.
  - vm_compute. by eexists.
Qed.
