(* ===== verification/TunnelHealth.v ===== *)
(** * TunnelHealth: faults of the tunnel and its local health endpoint

    [src/src-tauri/src/tunnel/fault.rs] (faults, their retryability and
    classification) and [src/src-tauri/src/tunnel/health.rs] (the hand-written
    HTTP client that probes the tunnel process).  The socket is the interface
    [HealthTransport]; JSON parsing is a field of it.  An operation that panics
    ends the process. *)

From S2P Require Import Prelude Text Domain TaskSummary StateModel.
From S2P Require Import Supervisor.
#[local] Open Scope N_scope.

(** ** Faults *)

(* @src tunnel/fault.rs:10-14 Retryability *)
Inductive Retryability := Recoverable | NonRecoverable.

(* @src tunnel/fault.rs:16-28 ControlPlaneFault *)
Inductive ControlPlaneFault :=
  | BadRequest | Authentication | FaultAuthorization | TunnelNotFound | RateLimited
  | Server | FaultTimeout | Tls | Network | FaultUnknown.

(* @src tunnel/fault.rs:31-43 ControlPlaneFault::retryability *)
Definition fault_retryability (f : ControlPlaneFault) : Retryability :=
  match f with
  | RateLimited | Server | FaultTimeout | Network => Recoverable
  | BadRequest | Authentication | FaultAuthorization | TunnelNotFound | Tls | FaultUnknown =>
      NonRecoverable
  end.

(* @src credentials/mod.rs:98-104 CredentialStoreError *)
Inductive CredentialStoreError :=
  | InvalidCredentialId | CorruptCredential | SecretTooLarge
  | CredentialWindowsApi (operation : string) (code : N).

(* @src tunnel/fault.rs:84-106 TunnelError *)
Inductive TunnelError :=
  | InvalidInstallRoot | InvalidTunnelId | InvalidMcpTarget | InvalidHealthStateDirectory
  | InvalidControlPlaneOverride | TunnelRuntimeMissing | TunnelRuntimeChecksumMismatch
  | TunnelRuntimeKeyMissing | TunnelSecretStoreFailed (e : CredentialStoreError)
  | TunnelSecretInjectionUnsupported | HealthStateIo | HealthUrlInvalid | HealthUnavailable
  | TunnelSpawnError (e : SupervisorError) | TunnelProcessOwnershipFailed (e : SupervisorError)
  | TunnelHasExited | HealthTimeout | HealthProtocol | ControlPlane (f : ControlPlaneFault)
  | RestartDenied.

(* @src tunnel/fault.rs:109-117 TunnelError::retryability *)
Definition retryability (e : TunnelError) : Retryability :=
  match e with
  | TunnelHasExited | HealthTimeout | HealthUnavailable => Recoverable
  | ControlPlane fault => fault_retryability fault
  | _ => NonRecoverable
  end.

(* @src tunnel/fault.rs:119-156 TunnelError::runtime_fault *)
Definition runtime_fault (e : TunnelError) : RuntimeFault :=
  match e with
  | TunnelRuntimeMissing => RuntimeMissing
  | TunnelRuntimeChecksumMismatch => RuntimeChecksumMismatch
  | TunnelRuntimeKeyMissing => RuntimeKeyMissing
  | TunnelSecretStoreFailed _ => SecretStoreFailed
  | TunnelSecretInjectionUnsupported => SecretInjectionUnsupported
  | TunnelSpawnError _ => TunnelSpawnFailed
  | TunnelProcessOwnershipFailed _ => ProcessOwnershipFailed
  | TunnelHasExited => TunnelExited
  | HealthStateIo | HealthTimeout | HealthUnavailable => TunnelHealthTimeout
  | ControlPlane (Authentication | FaultAuthorization) => TunnelAuthFailed
  | ControlPlane (RateLimited | Server | FaultTimeout | Network) => TunnelHealthTimeout
  | InvalidInstallRoot | InvalidTunnelId | InvalidMcpTarget | InvalidHealthStateDirectory
  | InvalidControlPlaneOverride | HealthUrlInvalid | HealthProtocol | RestartDenied
  | ControlPlane (BadRequest | TunnelNotFound | Tls | FaultUnknown) => ConfigurationInvalid
  end.

(** [lower.contains(a) || lower.contains(b) || ...]. *)
Definition contains_any (patterns : list string) (s : ustr) : bool :=
  existsb (λ p, contains (lit p) s) patterns.

(* @src tunnel/fault.rs:220-265 classify_control_plane_error *)
Definition classify_control_plane_error (message : ustr) : ControlPlaneFault :=
  let lower := to_ascii_lowercase message in
  if contains_any ["400"; "bad request"] lower then BadRequest
  else if contains_any ["401"; "unauthorized"; "invalid api key"] lower then Authentication
  else if contains_any ["403"; "forbidden"; "tunnel_use_forbidden"] lower then FaultAuthorization
  else if contains_any ["404"; "tunnel_not_found"; "not found"] lower then TunnelNotFound
  else if contains_any ["429"; "rate limit"] lower then RateLimited
  else if contains_any ["500"; "502"; "503"; "504"; "server error"] lower then Server
  else if contains_any ["408"; "timeout"; "deadline exceeded"] lower then FaultTimeout
  else if contains_any ["x509"; "certificate"; "tls"] lower then Tls
  else if contains_any ["dial tcp"; "connection refused"; "actively refused"; "no such host";
                        "network"] lower then Network
  else FaultUnknown.

(** ** Endpoints *)

(* @src tunnel/health.rs:11-15 AdminStatus *)
Record AdminStatus := MkAdminStatus {
  as_tunnel_metadata : option (option ustr);
  as_tunnel_metadata_error : option ustr
}.
(* @src tunnel/health.rs:23-24 ConnectorEndpoint *)
Record ConnectorEndpoint := MkConnectorEndpoint { connector_str : ustr }.

(* @src tunnel/health.rs:27-44 ConnectorEndpoint::from_verified_metadata *)
Definition from_verified_metadata (value : ustr) : option ConnectorEndpoint :=
  let value := trim value in
  if (2048 <? byte_len value)%nat || negb (starts_with (lit "https://") value) ||
     existsb is_whitespace value || existsb is_control value
  then None else
  rest ← strip_prefix (lit "https://") value;
  authority ← head (split_on (λ c, (c =? 0x2F) || (c =? 0x3F) || (c =? 0x23)) rest);
  if bool_decide (authority = []) || existsb (N.eqb 0x40) authority then None
  else Some (MkConnectorEndpoint value).

(* @src tunnel/health.rs:51-55 ReadyProbe *)
Record ReadyProbe := MkReadyProbe {
  rp_ready : bool;
  rp_connector_endpoint : option ConnectorEndpoint
}.
(* @src tunnel/health.rs:57-60 HealthEndpoint *)
Record HealthEndpoint := MkHealthEndpoint { he_port : N }.

(** [char::to_digit] and [from_str_radix] of an unsigned type: an optional
    plus sign, then at least one digit, without overflow. *)
Definition to_digit (radix c : N) : option N :=
  let d := if is_ascii_digit c then Some (c - 0x30)
           else if is_ascii_lower c then Some (c - 0x61 + 10)
           else if is_ascii_upper c then Some (c - 0x41 + 10) else None in
  d ← d; if d <? radix then Some d else None.

Fixpoint digits_value (radix max acc : N) (s : ustr) : option N :=
  match s with
  | [] => Some acc
  | c :: s =>
      d ← to_digit radix c;
      let acc := acc * radix + d in
      if max <? acc then None else digits_value radix max acc s
  end.

Definition from_str_radix (radix max : N) (s : ustr) : option N :=
  let digits := match s with 0x2B :: s => s | _ => s end in
  if bool_decide (digits = []) then None else digits_value radix max 0 digits.

Definition u16_max : N := 65535.

(* @src tunnel/health.rs:63-72 HealthEndpoint::parse *)
Definition parse_endpoint (value : ustr) : result TunnelError HealthEndpoint :=
  port ← ok_or HealthUrlInvalid (
    rest ← strip_prefix (lit "http://127.0.0.1:")
             (trim_end_matches (N.eqb 0x2F) (trim value));
    port ← from_str_radix 10 u16_max rest;
    if port =? 0 then None else Some port);
  Ok (MkHealthEndpoint port).

(** ** The HTTP client *)

(** What a call that may panic does. *)
Inductive outcome (A : Type) :=
  | Done (r : result TunnelError A)
  | Panics
  | OutOfFuel.
Arguments Done {A} r.
Arguments Panics {A}.
Arguments OutOfFuel {A}.

(* @src tunnel/health.rs:9-9 MAX_RESPONSE *)
Definition MAX_RESPONSE : nat := 1024 * 1024.
Definition crlf : bytes := [13; 10].

(** One chunk header: the size and the input after it. *)
(* @src tunnel/health.rs:245-253 decode_chunked (the size line) *)
Definition chunk_size (input : bytes) : result TunnelError (N * bytes) :=
  line_end ← ok_or HealthProtocol (find_sub crlf input);
  size_text ← ok_or HealthProtocol (utf8_decode (take line_end input));
  size ← ok_or HealthProtocol
    (from_str_radix 16 usize_max (default [] (head (split_on (N.eqb 0x3B) size_text))));
  Ok (size, drop (line_end + 2) input).

(** [size + 2] is computed on [usize] and wraps, as the release profile has no
    overflow checks; the slice [size..size + 2] panics if it ends before it
    starts. *)
(* @src tunnel/health.rs:242-264 decode_chunked *)
Fixpoint decode_chunked (fuel : nat) (input output : bytes) : outcome bytes :=
  match fuel with
  | O => OutOfFuel
  | S fuel =>
    match chunk_size input with
    | Err e => Done (Err e)
    | Ok (size, input) =>
        if size =? 0 then Done (Ok output) else
        let stop := wrapping_add usize_max size 2 in
        if N.of_nat (length input) <? stop then Done (Err HealthProtocol) else
        if stop <? size then Panics else
        if negb (bool_decide (take 2 (drop (N.to_nat size) input) = crlf))
        then Done (Err HealthProtocol)
        else decode_chunked fuel (drop (N.to_nat size + 2) input)
               (output ++ take (N.to_nat size) input)%list
    end
  end.

(* @src tunnel/health.rs:153-156 HttpResponse *)
Record HttpResponse := MkHttpResponse { http_status : N; http_body : bytes }.

(** The header loop: whether the body is chunked, and its declared length. *)
(* @src tunnel/health.rs:213-225 parse_response (the header loop) *)
Definition scan_header (acc : bool * option N) (line : ustr) : bool * option N :=
  match split_once 0x3A line with
  | None => acc
  | Some (name, value) =>
      let chunked := if eq_ignore_ascii_case name (lit "Transfer-Encoding") &&
                        eq_ignore_ascii_case (trim value) (lit "chunked")
                     then true else acc.1 in
      let content_length := if eq_ignore_ascii_case name (lit "Content-Length")
                            then from_str_radix 10 usize_max (trim value) else acc.2 in
      (chunked, content_length)
  end.

(* @src tunnel/health.rs:202-240 parse_response *)
Definition parse_response (input : bytes) : outcome HttpResponse :=
  let parsed :=
    split ← ok_or HealthProtocol (find_sub (crlf ++ crlf)%list input);
    headers ← ok_or HealthProtocol (utf8_decode (take split input));
    let lines := split_sub (length headers) crlf headers in
    status ← ok_or HealthProtocol (
      line ← head lines;
      value ← split_whitespace line !! 1%nat;
      from_str_radix 10 u16_max value);
    let '(chunked, content_length) := fold_left scan_header (tail lines) (false, None) in
    Ok (status, chunked, content_length, drop (split + 4) input) in
  match parsed with
  | Err e => Done (Err e)
  | Ok (status, chunked, content_length, raw) =>
    let body := if (chunked : bool) then decode_chunked (S (length raw)) raw [] else Done (Ok raw) in
    match body with
    | Done (Ok body) =>
        match content_length with
        | Some expected =>
            if negb (expected =? N.of_nat (length body)) then Done (Err HealthProtocol)
            else Done (Ok (MkHttpResponse status body))
        | None => Done (Ok (MkHttpResponse status body))
        end
    | Done (Err e) => Done (Err e)
    | Panics => Panics
    | OutOfFuel => OutOfFuel
    end
  end.

(** ** The probe *)

(** The loopback socket ([bytes] is what was read, at most [MAX_RESPONSE + 1]
    bytes) and [serde_json::from_slice] of the status document. *)
Class HealthTransport := {
  exchange : N → ustr → option bytes;
  parse_admin_json : bytes → option AdminStatus
}.

Section transport.
Context `{HealthTransport}.

(* @src tunnel/health.rs:158-200 get, get_with_timeouts *)
Definition http_get (port : N) (path : ustr) : outcome HttpResponse :=
  match exchange port path with
  | None => Done (Err HealthUnavailable)
  | Some bytes =>
      if (MAX_RESPONSE <? length bytes)%nat then Done (Err HealthProtocol)
      else parse_response bytes
  end.

(* @src tunnel/health.rs:126-151 parse_admin_status *)
Definition parse_admin_status (body : bytes) : result TunnelError ReadyProbe :=
  admin ← ok_or HealthProtocol (parse_admin_json body);
  match as_tunnel_metadata_error admin with
  | Some error =>
      if negb (bool_decide (trim error = []))
      then Err (ControlPlane (classify_control_plane_error error))
      else Ok (match as_tunnel_metadata admin with
               | None => MkReadyProbe false None
               | Some url => MkReadyProbe true (url ← url; from_verified_metadata url)
               end)
  | None =>
      Ok (match as_tunnel_metadata admin with
          | None => MkReadyProbe false None
          | Some url => MkReadyProbe true (url ← url; from_verified_metadata url)
          end)
  end.

(** The two variants of the probe differ in the timeouts of the socket only. *)
(* @src tunnel/health.rs:79-123 HealthEndpoint::probe_ready_metadata, probe_ready_metadata_with_timeout *)
Definition probe_ready_metadata (self : HealthEndpoint) : outcome ReadyProbe :=
  match http_get (he_port self) (lit "/readyz") with
  | Done (Ok ready) =>
      if negb (http_status ready =? 200) then Done (Ok (MkReadyProbe false None)) else
      match http_get (he_port self) (lit "/api/status") with
      | Done (Ok status) =>
          if negb (http_status status =? 200) then Done (Err HealthProtocol)
          else Done (parse_admin_status (http_body status))
      | Done (Err e) => Done (Err e)
      | Panics => Panics
      | OutOfFuel => OutOfFuel
      end
  | Done (Err e) => Done (Err e)
  | Panics => Panics
  | OutOfFuel => OutOfFuel
  end.
End transport.

(** ** Chunked bodies: reference encoder *)

Definition hex_digit (d : N) : N := if d <? 10 then 48 + d else 87 + d.

Fixpoint to_hex (fuel : nat) (n : N) : bytes :=
  match fuel with
  | O => []
  | S fuel => if n <? 16 then [hex_digit n]
              else (to_hex fuel (n / 16) ++ [hex_digit (n mod 16)])%list
  end.

Definition encode_chunk (chunk : bytes) : bytes :=
  let n := N.of_nat (length chunk) in
  (to_hex 16 n ++ crlf ++ chunk ++ crlf)%list.

(** The chunks, the last chunk, and whatever trailers follow. *)
Definition encode_chunked (chunks : list bytes) (trailer : bytes) : bytes :=
  (concat (map encode_chunk chunks) ++ lit "0" ++ crlf ++ trailer)%list.

Lemma hex_digit_spec d :
  d < 16 → to_digit 16 (hex_digit d) = Some d ∧ hex_digit d < 128 ∧ hex_digit d ≠ 13 ∧
  hex_digit d ≠ 0x3B ∧ hex_digit d ≠ 0x2B.
Proof.
  intros Hd. unfold hex_digit, to_digit.
  assert (∀ P : N → Prop, (∀ i, (i < 16)%nat → P (N.of_nat i)) → P d) as Hall.
  { intros P HP. rewrite <-(N2Nat.id d). apply HP. lia. }
  apply Hall. clear. intros i Hi. do 16 (destruct i as [|i]; [by vm_compute|]). lia.
Qed.

Lemma digits_value_snoc radix max acc s c :
  digits_value radix max acc (s ++ [c]) =
  v ← digits_value radix max acc s; d ← to_digit radix c;
  if max <? v * radix + d then None else Some (v * radix + d).
Proof.
  revert acc. induction s as [|x s IH]; intros acc; simpl.
  - destruct (to_digit radix c) as [d|]; simpl; [|done]. by destruct (max <? _).
  - destruct (to_digit radix x) as [d|]; simpl; [|done].
    destruct (max <? acc * radix + d); [done|]. apply IH.
Qed.

Lemma to_hex_spec fuel n :
  (0 < fuel)%nat → n < 16 ^ N.of_nat fuel → n ≤ usize_max →
  digits_value 16 usize_max 0 (to_hex fuel n) = Some n ∧ to_hex fuel n ≠ [] ∧
  Forall (λ c, c < 128 ∧ c ≠ 13 ∧ c ≠ 0x3B ∧ c ≠ 0x2B) (to_hex fuel n).
Proof.
  revert n. induction fuel as [|fuel IH]; intros n Hf Hn Hmax; [lia|]. cbn [to_hex].
  destruct (n <? 16) eqn:H16.
  - apply N.ltb_lt in H16. destruct (hex_digit_spec n H16) as (Hd & ? & ? & ? & ?).
    split_and!; [|done|by repeat constructor]. cbn [digits_value]. rewrite Hd. cbn [mbind option_bind].
    rewrite N.mul_0_l, N.add_0_l. by rewrite (proj2 (N.ltb_ge _ _) Hmax).
  - apply N.ltb_ge in H16. assert (n mod 16 < 16) as Hm by by apply N.mod_lt.
    destruct (hex_digit_spec _ Hm) as (Hd & ? & ? & ? & ?).
    destruct fuel as [|fuel']; [simpl in Hn; lia|].
    destruct (IH (n / 16)) as (Hv & Hne & Hall); [lia| |lia|].
    { apply N.Div0.div_lt_upper_bound. rewrite Nat2N.inj_succ, N.pow_succ_r' in Hn. lia. }
    split_and!.
    + rewrite digits_value_snoc, Hv. cbn [mbind option_bind]. rewrite Hd.
      cbn [mbind option_bind]. replace (n / 16 * 16 + n mod 16) with n by lia.
      by rewrite (proj2 (N.ltb_ge _ _) Hmax).
    + by destruct (to_hex _ _).
    + apply Forall_app. split; [done|by repeat constructor].
Qed.

Lemma find_sub_crlf u v :
  Forall (λ c, c ≠ 13) u → find_sub crlf (u ++ crlf ++ v)%list = Some (length u).
Proof. apply find_sub_first. Qed.

Lemma utf8_decode_ascii s : Forall (λ c, c < 128) s → utf8_decode s = Some s.
Proof.
  induction 1 as [|c s Hc Hs IH]; [done|]. cbn [utf8_decode].
  assert ((c <? 0x80) = true) as -> by by apply N.ltb_lt. by rewrite IH.
Qed.

Lemma split_on_none f s : Forall (λ c, f c = false) s → split_on f s = [s].
Proof. induction 1 as [|c s Hc Hs IH]; [done|]. cbn [split_on]. by rewrite Hc, IH. Qed.

Lemma chunk_size_line hex size rest :
  digits_value 16 usize_max 0 hex = Some size → hex ≠ [] →
  Forall (λ c, c < 128 ∧ c ≠ 13 ∧ c ≠ 0x3B ∧ c ≠ 0x2B) hex →
  chunk_size (hex ++ crlf ++ rest)%list = Ok (size, rest).
Proof.
  intros Hv Hne Hall. unfold chunk_size.
  rewrite find_sub_crlf by (eapply Forall_impl; [done|naive_solver]). cbn [ok_or mbind result_bind].
  rewrite take_app_length.
  rewrite utf8_decode_ascii by (eapply Forall_impl; [done|naive_solver]).
  cbn [ok_or mbind result_bind].
  rewrite split_on_none.
  2:{ eapply Forall_impl; [done|]. intros c (_ & _ & Hc & _). apply (proj2 (N.eqb_neq 59 c)). congruence. }
  change (default [] (head [hex])) with hex.
  assert (from_str_radix 16 usize_max hex = Some size) as ->.
  { unfold from_str_radix. destruct hex as [|c hex]; [done|].
    apply Forall_cons in Hall as [(_ & _ & _ & Hc) _].
    replace (match c :: hex with 43 :: s => s | _ => c :: hex end) with (c :: hex).
    2:{ destruct c as [|p]; [done|]. repeat (destruct p as [p|p|]; try done). }
    by rewrite bool_decide_eq_false_2. }
  cbn [ok_or mbind result_bind].
  replace (drop (length hex + 2) (hex ++ crlf ++ rest)%list) with rest; [done|].
  by rewrite <-drop_drop, drop_app_length.
Qed.

Lemma take_app_exact {A} (l k : list A) : take (N.to_nat (N.of_nat (length l))) (l ++ k) = l.
Proof. by rewrite Nat2N.id, take_app_length. Qed.

Lemma decode_chunk fuel chunk input output :
  chunk ≠ [] → N.of_nat (length chunk) + 2 ≤ usize_max →
  decode_chunked (S fuel) (encode_chunk chunk ++ input)%list output =
  decode_chunked fuel input (output ++ chunk)%list.
Proof.
  intros Hne Hmax. cbn [decode_chunked]. unfold encode_chunk.
  set (n := N.of_nat (length chunk)) in *.
  assert (16 ^ N.of_nat 16 = usize_max + 1) as Hpow by by vm_compute.
  destruct (to_hex_spec 16 n) as (Hv & Hhex & Hall); [lia|rewrite Hpow; lia|lia|].
  rewrite <-!app_assoc, (chunk_size_line (to_hex 16 n) n (chunk ++ crlf ++ input)%list Hv Hhex Hall).
  clear Hpow Hv Hhex Hall.
  assert (n ≠ 0) as Hn0 by (subst n; destruct chunk; simpl in *; [done|lia]).
  rewrite (proj2 (N.eqb_neq _ _) Hn0), (wrapping_add_exact _ _ _ Hmax).
  assert (drop (N.to_nat n) (chunk ++ crlf ++ input)%list = (crlf ++ input)%list) as Hd
    by (subst n; by rewrite Nat2N.id, drop_app_length).
  rewrite <-drop_drop, Hd. subst n. rewrite take_app_exact.
  rewrite (proj2 (N.ltb_ge _ _)); [|rewrite !length_app; simpl; lia].
  by rewrite (proj2 (N.ltb_ge _ _)) by lia.
Qed.

Lemma split_on_not_nil f s : split_on f s ≠ [].
Proof.
  destruct s as [|c s]; [done|]. cbn [split_on]. destruct (f c); [done|].
  by destruct (split_on f s).
Qed.

Lemma split_on_head f s w :
  head (split_on f s) = Some w →
  ∃ rest, s = (w ++ rest)%list ∧ match rest with [] => True | c :: _ => f c = true end.
Proof.
  revert w. induction s as [|c s IH]; intros w; cbn [split_on].
  - intros [= <-]. by exists [].
  - destruct (f c) eqn:Hc; [intros [= <-]; by exists (c :: s)|].
    pose proof (split_on_not_nil f s) as Hne.
    destruct (split_on f s) as [|w' ws]; [done|]. intros [= <-].
    destruct (IH w' eq_refl) as (rest & -> & ?). by exists rest.
Qed.

Lemma digits_value_bound radix max acc s n :
  acc ≤ max → digits_value radix max acc s = Some n → n ≤ max.
Proof.
  revert acc. induction s as [|c s IH]; intros acc Hacc; cbn [digits_value]; [by intros [= <-]|].
  destruct (to_digit radix c) as [d|]; cbn [mbind option_bind]; [|done].
  destruct (max <? acc * radix + d) eqn:Hm; [done|]. apply IH. by apply N.ltb_ge.
Qed.

Lemma from_str_radix_bound radix max s n : from_str_radix radix max s = Some n → n ≤ max.
Proof.
  unfold from_str_radix. generalize (match s with 43 :: s => s | _ => s end). intros digits.
  case_bool_decide; [done|]. apply digits_value_bound. lia.
Qed.

Lemma encode_chunks_length chunks :
  (length chunks ≤ length (concat (map encode_chunk chunks)))%nat.
Proof.
  induction chunks as [|c chunks IH]; [done|]. cbn [map concat length].
  rewrite length_app. unfold encode_chunk at 1. rewrite !length_app.
  cbn [length crlf]. lia.
Qed.

(** The hand-written chunk decoder inverts chunked encoding:
    for any chunks that are not empty and fit the address space, followed by the
    last chunk and any trailer, it returns exactly their concatenation. *)
Theorem chunked_roundtrip chunks trailer
    (Hchunks : Forall (λ c, c ≠ [] ∧ N.of_nat (length c) + 2 ≤ usize_max) chunks) :
  let input := encode_chunked chunks trailer in
  decode_chunked (S (length input)) input [] = Done (Ok (concat chunks)).
Proof.
  assert (∀ fuel output, (length chunks < fuel)%nat →
    decode_chunked fuel (encode_chunked chunks trailer) output =
    Done (Ok (output ++ concat chunks)%list)) as Hgo.
  { induction Hchunks as [|c chunks [Hne Hmax] Hcs IH]; intros fuel output Hf.
    - destruct fuel as [|fuel]; [simpl in Hf; lia|]. cbn [decode_chunked].
      unfold encode_chunked. cbn [map concat app].
      rewrite (chunk_size_line (lit "0") 0); [by rewrite (app_nil_r output)|done|done|].
      by repeat constructor.
    - destruct fuel as [|fuel]; [simpl in Hf; lia|]. unfold encode_chunked in *.
      cbn [map concat]. rewrite <-app_assoc, decode_chunk by done.
      rewrite IH by (simpl in Hf; lia). by rewrite <-app_assoc. }
  intros input. subst input. rewrite Hgo; [done|]. clear Hgo Hchunks. unfold encode_chunked.
  rewrite length_app. pose proof (encode_chunks_length chunks). lia.
Qed.

Lemma chunked_roundtrip_witness :
  let input := encode_chunked [lit "hello "; lit "world, this chunk has more than 16 bytes"]
                 (lit "X-Trailer: 1" ++ crlf ++ crlf)%list in
  decode_chunked (S (length input)) input [] =
  Done (Ok (lit "hello world, this chunk has more than 16 bytes")).
Proof.
  apply (chunked_roundtrip
           [lit "hello "; lit "world, this chunk has more than 16 bytes"]
           (lit "X-Trailer: 1" ++ crlf ++ crlf)%list).
  apply Forall_cons; split; [split; [done|vm_compute; discriminate]|].
  apply Forall_cons; split; [split; [done|vm_compute; discriminate]|]. apply Forall_nil. exact I.
Defined.

Lemma chunk_size_consumes input size rest :
  chunk_size input = Ok (size, rest) →
  (length rest + 2 ≤ length input)%nat ∧ ∃ pre, input = (pre ++ rest)%list.
Proof.
  unfold chunk_size. destruct (find_sub crlf input) as [i|] eqn:Hi; simpl; [|done].
  destruct (utf8_decode _); simpl; [|done]. destruct (from_str_radix _ _ _); simpl; [|done].
  intros [= -> <-]. apply find_sub_Some in Hi as (u & v & -> & <- & _). split.
  - rewrite length_drop, !length_app. simpl. lia.
  - eexists. symmetry. apply take_drop.
Qed.

Lemma chunk_size_bound input size rest : chunk_size input = Ok (size, rest) → size ≤ usize_max.
Proof.
  unfold chunk_size. destruct (find_sub crlf input); simpl; [|done].
  destruct (utf8_decode _); simpl; [|done].
  destruct (from_str_radix _ _ _) eqn:Hf; simpl; [|done].
  intros [= -> _]. by apply from_str_radix_bound in Hf.
Qed.

(** C31 (termination): the chunk decoder is total up to one overflow.  As
    much fuel as the input is long always suffices; a body it returns is no
    longer than the input; and it panics only on a chunk header that declares a
    size within two of the largest [usize]. *)
Theorem decode_chunked_total fuel input output (Hfuel : (length input < fuel)%nat) :
  match decode_chunked fuel input output with
  | OutOfFuel => False
  | Done (Ok body) => (length body ≤ length output + length input)%nat
  | Done (Err e) => e = HealthProtocol
  | Panics => ∃ pre rest size after, input = (pre ++ rest)%list ∧
      chunk_size rest = Ok (size, after) ∧ usize_max < size + 2
  end.
Proof.
  revert input output Hfuel. induction fuel as [|fuel IH]; intros input output Hf; [lia|].
  cbn [decode_chunked]. destruct (chunk_size input) as [[size rest]|e] eqn:Hc.
  2:{ unfold chunk_size in Hc. destruct (find_sub crlf input); simpl in Hc; [|congruence].
      destruct (utf8_decode _); simpl in Hc; [|congruence].
      destruct (from_str_radix _ _ _); simpl in Hc; congruence. }
  destruct (chunk_size_consumes _ _ _ Hc) as [Hlen (pre & Hpre)].
  destruct (size =? 0); [lia|].
  destruct (_ <? _) eqn:Hfit; [done|]. apply N.ltb_ge in Hfit.
  destruct (N.le_gt_cases (size + 2) usize_max) as [Hexact|Hover].
  2:{ destruct (wrapping_add usize_max size 2 <? size) eqn:Hwrap.
      { exists [], input, size, rest. by split_and!. }
      apply N.ltb_ge in Hwrap. pose proof (chunk_size_bound _ _ _ Hc).
      unfold wrapping_add, usize_max in *. lia. }
  rewrite (wrapping_add_exact _ _ _ Hexact) in Hfit |- *.
  rewrite (proj2 (N.ltb_ge (size + 2) size)) by lia.
  destruct (negb _); [done|].
  assert (length (drop (N.to_nat size + 2) rest) + 2 + N.to_nat size ≤ length rest)%nat as Hd.
  { rewrite length_drop. lia. }
  specialize (IH (drop (N.to_nat size + 2) rest) (output ++ take (N.to_nat size) rest)%list).
  specialize (IH ltac:(lia)). destruct (decode_chunked fuel _ _) as [[body|e]| |]; [|done| |done].
  - rewrite length_app, length_take in IH. lia.
  - destruct IH as (pre' & rest' & size' & after & Heq & Hc' & Hmax).
    exists (pre ++ take (N.to_nat size + 2) rest ++ pre')%list, rest', size', after.
    split_and!; [|done..]. rewrite Hpre at 1. rewrite <-!app_assoc, <-Heq, take_drop. done.
Qed.

(** A body whose declared size is one less than the largest [usize]. *)
Definition overlong_chunk : bytes := (lit "fffffffffffffffe" ++ crlf)%list.

Lemma decode_chunked_total_witness :
  (length overlong_chunk < 19)%nat ∧ decode_chunked 19 overlong_chunk [] = Panics ∧
  ∃ pre rest size after, overlong_chunk = (pre ++ rest)%list ∧
    chunk_size rest = Ok (size, after) ∧ usize_max < size + 2.
Proof.
  split; [vm_compute; lia|]. split; [by vm_compute|].
  exact (decode_chunked_total 19 overlong_chunk [] ltac:(vm_compute; lia)).
Defined.

(** A connector endpoint is only ever an https URL with a host:
    it starts with [https://], has at most 2048 bytes, contains no white space
    and no control character, and its authority is not empty and carries no user
    information; and a health endpoint is a loopback address with a non-zero
    16-bit port. *)
Theorem endpoints_are_vetted value :
  (∀ e, from_verified_metadata value = Some e →
     let url := connector_str e in
     url = trim value ∧ (byte_len url ≤ 2048)%nat ∧
     (∀ c, c ∈ url → is_whitespace c = false ∧ is_control c = false) ∧
     ∃ authority rest, url = (lit "https://" ++ authority ++ rest)%list ∧ authority ≠ [] ∧
       (0x40 ∉ authority) ∧
       match rest with [] => True | c :: _ => c ∈ lit "/?#" end) ∧
  (∀ e, parse_endpoint value = Ok e → 0 < he_port e ∧ he_port e ≤ u16_max ∧
     starts_with (lit "http://127.0.0.1:") (trim_end_matches (N.eqb 0x2F) (trim value)) = true).
Proof.
  split.
  - intros e. unfold from_verified_metadata. set (v := trim value).
    destruct (_ || _ || existsb is_control v) eqn:Hbad; [done|].
    rewrite !orb_false_iff in Hbad. destruct Hbad as [[[Hlen%Nat.ltb_ge Hs%negb_false_iff] Hw] Hc].
    intros (rest & Hrest & (authority & Hauth & He)%bind_Some)%bind_Some.
    destruct (_ || _) eqn:Hno in He; [done|]. simplify_eq. simpl.
    apply orb_false_iff in Hno as [Hne%bool_decide_eq_false Hat].
    split_and!; [done..| |].
    + intros c Hin. split; apply not_true_iff_false; intros Ht.
      * apply not_true_iff_false in Hw. apply Hw, existsb_exists. exists c.
        by rewrite <-list_elem_of_In.
      * apply not_true_iff_false in Hc. apply Hc, existsb_exists. exists c.
        by rewrite <-list_elem_of_In.
    + unfold strip_prefix in Hrest. rewrite Hs in Hrest. injection Hrest as Hrest.
      apply starts_with_iff in Hs as [tl Htl].
      assert (rest = tl) as ->.
      { rewrite <-Hrest, Htl. exact (drop_app_length (lit "https://") tl). }
      apply split_on_head in Hauth as (after & -> & Hafter).
      exists authority, after. split_and!; [done..| |].
      * intros Hin. apply not_true_iff_false in Hat. apply Hat, existsb_exists.
        exists 0x40. by rewrite <-list_elem_of_In.
      * destruct after as [|c after]; [done|]. clear -Hafter.
        rewrite !orb_true_iff, !N.eqb_eq in Hafter.
        destruct Hafter as [[->| ->]| ->]; vm_compute; repeat constructor.
  - intros e. unfold parse_endpoint.
    destruct (strip_prefix _ _) as [rest|] eqn:Hp; simpl; [|done].
    destruct (from_str_radix 10 u16_max rest) as [port|] eqn:Hport; simpl; [|done].
    destruct (port =? 0) eqn:H0; simpl; [done|]. intros [= <-]. simpl. split_and!.
    + apply N.eqb_neq in H0. lia.
    + by eapply from_str_radix_bound.
    + unfold strip_prefix in Hp. revert Hp. generalize (trim_end_matches (N.eqb 0x2F) (trim value)).
      intros u. by destruct (starts_with _ u) eqn:Hu.
Qed.

(** A local process that answers the probe with this response ends the
    application: the size of the chunk overflows [size + 2]. *)
Example response_can_panic :
  parse_response
    (lit "HTTP/1.1 200 OK" ++ crlf ++ lit "Transfer-Encoding: chunked" ++ crlf ++ crlf ++
     overlong_chunk)%list = Panics.
Proof. by vm_compute. Qed.

(** The status codes are searched as substrings of the whole message. *)
Example timeout_classified_as_bad_request :
  classify_control_plane_error (lit "timeout after 4000 ms") = BadRequest ∧
  fault_retryability (classify_control_plane_error (lit "timeout after 4000 ms")) =
    NonRecoverable ∧
  fault_retryability (classify_control_plane_error (lit "timeout after 3 s")) = Recoverable.
Proof. by vm_compute. Qed.
