(* ===== verification/Settings.v ===== *)
(** * Settings: persisted settings, their migration and their store

    [src/src-tauri/src/settings]: [model.rs], [migration.rs] and [store.rs].
    Reading and writing JSON is the interface [SettingsCodec]; the settings file,
    its backup and its temporary file are a small file system whose calls can
    fail. *)

From stdpp Require Import pretty.
From S2P Require Import Prelude Text Domain TaskSummary StateModel Workspace.
#[local] Open Scope N_scope.

(** ** The settings model *)

(* @src settings/model.rs:6-6 CURRENT_SETTINGS_SCHEMA_VERSION *)
Definition CURRENT_SETTINGS_SCHEMA_VERSION : N := 4.

(* @src state/settings.rs:4-8 Settings *)
Record Settings := MkSettings {
  set_permission_mode : PermissionMode;
  set_auto_start_services : bool;
  set_onboarding_complete : bool
}.
(* @src state/settings.rs:10-18 Settings::default *)
Definition default_settings : Settings := MkSettings PermissionEdit false false.

(* @src settings/model.rs:9-13 StoredPermissionMode *)
Inductive StoredPermissionMode := StoredEdit | StoredFull | StoredElevated.
(* @src settings/model.rs:15-23 StoredPermissionMode::from *)
Definition stored_of_mode (m : PermissionMode) : StoredPermissionMode :=
  match m with
  | PermissionEdit => StoredEdit | PermissionFull => StoredFull
  | PermissionElevated => StoredElevated
  end.
(* @src settings/model.rs:25-33 PermissionMode::from *)
Definition mode_of_stored (m : StoredPermissionMode) : PermissionMode :=
  match m with
  | StoredEdit => PermissionEdit | StoredFull => PermissionFull
  | StoredElevated => PermissionElevated
  end.

(* @src settings/model.rs:37-42 StoredSettings *)
Record StoredSettings := MkStoredSettings {
  ss_permission_mode : StoredPermissionMode;
  ss_auto_start_services : bool;
  ss_close_window_continue_running : bool;
  ss_onboarding_complete : bool
}.
(* @src settings/model.rs:51-58 StoredSettings::from_domain *)
Definition stored_from_domain (s : Settings) : StoredSettings :=
  MkStoredSettings (stored_of_mode (set_permission_mode s)) (set_auto_start_services s) true
    (set_onboarding_complete s).
(* @src settings/model.rs:60-66 StoredSettings::to_domain *)
Definition stored_to_domain (s : StoredSettings) : Settings :=
  MkSettings (mode_of_stored (ss_permission_mode s)) (ss_auto_start_services s)
    (ss_onboarding_complete s).

(* @src settings/model.rs:71-75 AppData *)
Record AppData := MkAppData {
  ad_schema_version : N;
  ad_settings : StoredSettings;
  ad_workspace : WorkspacePersistence
}.
(* @src settings/model.rs:77-85 AppData::default *)
Definition default_app_data : AppData :=
  MkAppData CURRENT_SETTINGS_SCHEMA_VERSION (stored_from_domain default_settings)
    default_persistence.

(* @src settings/model.rs:102-105 AppDataValidationError *)
Inductive AppDataValidationError :=
  | WrongSchemaVersion (found expected : N)
  | InvalidWorkspace (e : WorkspaceRegistryError).

(* @src settings/model.rs:88-98 AppData::validate *)
Definition validate_app_data (d : AppData) : result AppDataValidationError unit :=
  if negb (ad_schema_version d =? CURRENT_SETTINGS_SCHEMA_VERSION)
  then Err (WrongSchemaVersion (ad_schema_version d) CURRENT_SETTINGS_SCHEMA_VERSION)
  else map_err InvalidWorkspace (validate_persistence (ad_workspace d)).

(** ** Historical schemas *)

(* @src settings/migration.rs:33-41 LegacyWorkspaceRecord *)
Record LegacyWorkspaceRecord := MkLegacyWorkspace {
  lw_workspace_id : option ustr;
  lw_display_path : path;
  lw_validated_identity : option ustr;
  lw_last_opened_at : N
}.
(* @src settings/migration.rs:65-69 HistoricalStoredSettings *)
Record HistoricalStoredSettings := MkHistoricalSettings {
  hs_permission_mode : StoredPermissionMode;
  hs_auto_start_services : bool;
  hs_onboarding_complete : bool
}.
(* @src settings/migration.rs:45-52 V1 *)
Record V1 := MkV1 {
  v1_schema_version : N;
  v1_permission_mode : StoredPermissionMode;
  v1_auto_start_services : bool;
  v1_onboarding_complete : bool;
  v1_workspace : option LegacyWorkspaceRecord
}.
(* @src settings/migration.rs:56-61 V2 *)
Record V2 := MkV2 {
  v2_schema_version : N;
  v2_settings : HistoricalStoredSettings;
  v2_workspace : option LegacyWorkspaceRecord
}.
(* @src settings/migration.rs:73-77 V3 *)
Record V3 := MkV3 {
  v3_schema_version : N;
  v3_settings : HistoricalStoredSettings;
  v3_workspace : WorkspacePersistence
}.

(* @src settings/migration.rs:14-18 MigrationOutcome *)
Record MigrationOutcome := MkMigrationOutcome {
  mo_data : AppData;
  mo_original_version : N;
  mo_migrated : bool
}.
(* @src settings/migration.rs:21-29 MigrationError *)
Inductive MigrationError :=
  | InvalidJson (detail : string)
  | SchemaVersionMissing
  | SchemaVersionInvalid
  | ConfigurationVersionUnsupported (found current : N)
  | HistoricalSchemaInvalid (version : N) (detail : string)
  | CurrentSchemaInvalid (detail : string)
  | MigrationSerialization (detail : string).

(** [serde_json]: parsing, the typed views of a value, the field
    [schema_version] ([None]: no such field; [Some None]: not a [u64]), and the
    [Debug] text of errors.  A value written from a record reads back as that
    record, under its version. *)
Class SettingsCodec := {
  Value : Type;
  from_slice : bytes → result string Value;
  schema_version_field : Value → option (option N);
  decode_v1 : Value → result string V1;
  decode_v2 : Value → result string V2;
  decode_v3 : Value → result string V3;
  decode_app : Value → result string AppData;
  encode_v2 : V2 → result string Value;
  encode_v3 : V3 → result string Value;
  encode_app : AppData → result string Value;
  to_vec_pretty : AppData → result string bytes;
  debug_workspace_error : WorkspaceRegistryError → string;
  debug_validation_error : AppDataValidationError → string;
  decode_encode_v2 x v : encode_v2 x = Ok v →
    decode_v2 v = Ok x ∧ schema_version_field v = Some (Some (v2_schema_version x));
  decode_encode_v3 x v : encode_v3 x = Ok v →
    decode_v3 v = Ok x ∧ schema_version_field v = Some (Some (v3_schema_version x));
  decode_encode_app x v : encode_app x = Ok v →
    decode_app v = Ok x ∧ schema_version_field v = Some (Some (ad_schema_version x));
  to_vec_pretty_parses x b : to_vec_pretty x = Ok b →
    ∃ v, from_slice (b ++ [0x0A])%list = Ok v ∧ decode_app v = Ok x ∧
      schema_version_field v = Some (Some (ad_schema_version x))
}.

Section migration.
Context `{SettingsCodec}.

(* @src settings/migration.rs:124-131 read_schema_version *)
Definition read_schema_version (value : Value) : result MigrationError N :=
  field ← ok_or SchemaVersionMissing (schema_version_field value);
  raw ← ok_or SchemaVersionInvalid field;
  if u32_max <? raw then Err SchemaVersionInvalid else Ok raw.

(* @src settings/migration.rs:133-155 migrate_v1_to_v2 *)
Definition migrate_v1_to_v2 (value : Value) : result MigrationError Value :=
  old ← map_err (HistoricalSchemaInvalid 1) (decode_v1 value);
  if negb (v1_schema_version old =? 1)
  then Err (HistoricalSchemaInvalid 1 "version tag mismatch") else
  map_err MigrationSerialization (encode_v2 (MkV2 2
    (MkHistoricalSettings (v1_permission_mode old) (v1_auto_start_services old)
       (v1_onboarding_complete old))
    (v1_workspace old))).

Definition not_blank (value : ustr) : option ustr := if blank value then None else Some value.

(** The workspace part of the step from version 2 to 3. *)
(* @src settings/migration.rs:171-225 migrate_v2_to_v3 (the legacy workspace) *)
Definition migrate_workspace (old_workspace : LegacyWorkspaceRecord) :
    result MigrationError WorkspacePersistence :=
  if bool_decide (lw_display_path old_workspace = ""%string)
  then Err (HistoricalSchemaInvalid 2 "legacy workspace display path is empty") else
  let id := value ← lw_workspace_id old_workspace; not_blank value in
  let identity := value ← lw_validated_identity old_workspace; not_blank value in
  match id, identity with
  | Some id, Some identity =>
      id ← map_err (λ e, HistoricalSchemaInvalid 2
                           (String.append "invalid workspace id: " (debug_workspace_error e)))
             (workspace_id_from id);
      entry ← map_err (λ e, HistoricalSchemaInvalid 2
                              (String.append "invalid workspace entry: " (debug_workspace_error e)))
                (entry_from_persisted_claim id (lw_display_path old_workspace) identity
                   (lw_last_opened_at old_workspace));
      '(registry, active_id) ←
        map_err (λ e, HistoricalSchemaInvalid 2
                        (String.append "registry migration failed: " (debug_workspace_error e)))
          (upsert_entry [] entry);
      Ok (MkWorkspacePersistence registry (Some active_id) None)
  | id, identity =>
      Ok (MkWorkspacePersistence [] None (Some (MkPendingConfirmation id
        (lw_display_path old_workspace)
        (match identity with None => ValidatedIdentityMissing
                           | Some _ => PendingWorkspaceIdMissing end))))
  end.

(* @src settings/migration.rs:157-234 migrate_v2_to_v3 *)
Definition migrate_v2_to_v3 (value : Value) : result MigrationError Value :=
  old ← map_err (HistoricalSchemaInvalid 2) (decode_v2 value);
  if negb (v2_schema_version old =? 2)
  then Err (HistoricalSchemaInvalid 2 "version tag mismatch") else
  workspace ← match v2_workspace old with
              | Some old_workspace => migrate_workspace old_workspace
              | None => Ok default_persistence
              end;
  map_err MigrationSerialization (encode_v3 (MkV3 3 (v2_settings old) workspace)).

(* @src settings/migration.rs:236-266 migrate_v3_to_v4 *)
Definition migrate_v3_to_v4 (value : Value) : result MigrationError Value :=
  old ← map_err (HistoricalSchemaInvalid 3) (decode_v3 value);
  if negb (v3_schema_version old =? 3)
  then Err (HistoricalSchemaInvalid 3 "version tag mismatch") else
  let current := MkAppData CURRENT_SETTINGS_SCHEMA_VERSION
    (MkStoredSettings (hs_permission_mode (v3_settings old))
       (hs_auto_start_services (v3_settings old)) true
       (hs_onboarding_complete (v3_settings old)))
    (v3_workspace old) in
  _ ← map_err (λ e, HistoricalSchemaInvalid 3
                 (String.append "migrated current data invalid: " (debug_validation_error e)))
        (validate_app_data current);
  map_err MigrationSerialization (encode_app current).

(** The loop [while version < CURRENT]: every iteration that continues has
    advanced [version] by exactly one, so the difference bounds it. *)
(* @src settings/migration.rs:90-111 migrate_bytes (the loop) *)
Fixpoint migrate_loop (steps : nat) (value : Value) (version : N) : result MigrationError Value :=
  match steps with
  | O => Ok value
  | S steps =>
      if CURRENT_SETTINGS_SCHEMA_VERSION <=? version then Ok value else
      value ← match version with
              | 1 => migrate_v1_to_v2 value
              | 2 => migrate_v2_to_v3 value
              | 3 => migrate_v3_to_v4 value
              | other => Err (HistoricalSchemaInvalid other
                                "no sequential migration step registered")
              end;
      next ← read_schema_version value;
      if negb (next =? version + 1)
      then Err (HistoricalSchemaInvalid version
             (String.append "migration must advance exactly one version, got " (pretty next)))
      else migrate_loop steps value next
  end.

(* @src settings/migration.rs:79-122 migrate_bytes *)
Definition migrate_bytes (bs : bytes) : result MigrationError MigrationOutcome :=
  value ← map_err InvalidJson (from_slice bs);
  original_version ← read_schema_version value;
  if CURRENT_SETTINGS_SCHEMA_VERSION <? original_version
  then Err (ConfigurationVersionUnsupported original_version CURRENT_SETTINGS_SCHEMA_VERSION) else
  value ← migrate_loop (N.to_nat (CURRENT_SETTINGS_SCHEMA_VERSION - original_version))
            value original_version;
  data ← map_err CurrentSchemaInvalid (decode_app value);
  _ ← map_err (λ e, CurrentSchemaInvalid (debug_validation_error e)) (validate_app_data data);
  Ok (MkMigrationOutcome data original_version
        (negb (original_version =? CURRENT_SETTINGS_SCHEMA_VERSION))).
End migration.

(** ** The store *)

(** The files of one store: the settings, the backup, and the temporary file
    of the save in progress. *)
Record Files := MkFiles {
  f_settings : option bytes;
  f_backup : option bytes;
  f_temp : option bytes
}.
#[export] Instance eta_Files : Eta Files := λ r, MkFiles (f_settings r) (f_backup r) (f_temp r).

(** [ReplaceFileW]: it fails either with every file under its own name, or
    with the replaced file moved to the backup's name and the replacement not
    moved ([ERROR_UNABLE_TO_MOVE_REPLACEMENT_2]). *)
Inductive ReplaceOutcome :=
  | Replaced
  | ReplaceUnchanged (message : string)
  | ReplaceMovedAside (message : string).

(** What the operating system answers to each call of a load or a save;
    [None] is success. *)
Record Io := MkIo {
  io_open : option string;
  io_read : option string;
  io_create_parent : option string;
  io_create_temp : option string;
  io_write_temp : option (bytes * string);
  io_remove_backup : option string;
  io_replace : ReplaceOutcome;
  io_move : option string;
  io_remove_temp : option string
}.

(* @src settings/store.rs:156-164 SettingsStoreError *)
Inductive SettingsStoreError :=
  | StoreIo (operation message : string)
  | StoreMigration (e : MigrationError)
  | StoreValidation (message : string)
  | StoreSerialization (message : string).

Section store.
Context `{SettingsCodec}.

(** An operation returns the states of the files after each of its calls,
    the last one, and its result: a crash leaves one of those states. *)
(* @src settings/store.rs:97-135 atomic_replace *)
Definition atomic_replace (io : Io) (fs : Files) :
    list Files * Files * result SettingsStoreError unit :=
  match f_settings fs with
  | Some old =>
      let removed := match f_backup fs, io_remove_backup io with
                     | Some _, Some message => None
                     | Some _, None => Some (fs <| f_backup := None |>)
                     | None, _ => Some fs
                     end in
      match removed with
      | None => ([], fs, Err (StoreIo "remove_stale_backup" (default ""%string (io_remove_backup io))))
      | Some fs =>
          match io_replace io with
          | Replaced => ([fs], MkFiles (f_temp fs) (Some old) None, Ok ())
          | ReplaceUnchanged message => ([fs], fs, Err (StoreIo "replace_file" message))
          | ReplaceMovedAside message =>
              ([fs], fs <| f_settings := None |> <| f_backup := Some old |>,
               Err (StoreIo "replace_file" message))
          end
      end
  | None =>
      match io_move io with
      | None => ([], fs <| f_settings := f_temp fs |> <| f_temp := None |>, Ok ())
      | Some message => ([], fs, Err (StoreIo "move_file" message))
      end
  end.

(** [let _ = fs::remove_file(&temp)]. *)
Definition remove_temp (io : Io) (fs : Files) : Files :=
  match io_remove_temp io with None => fs <| f_temp := None |> | Some _ => fs end.

(* @src settings/store.rs:50-77 SettingsStore::write_atomic *)
Definition write_atomic (io : Io) (bs : bytes) (fs : Files) :
    list Files * Files * result SettingsStoreError unit :=
  match io_create_parent io with
  | Some message => ([], fs, Err (StoreIo "create_parent" message))
  | None =>
  match io_create_temp io with
  | Some message => ([], fs, Err (StoreIo "create_temp" message))
  | None =>
      let created := fs <| f_temp := Some [] |> in
      match io_write_temp io with
      | Some (written, message) =>
          let partial := fs <| f_temp := Some written |> in
          ([created; partial], remove_temp io partial, Err (StoreIo "write_temp" message))
      | None =>
          let written := fs <| f_temp := Some bs |> in
          let '(trace, fs, r) := atomic_replace io written in
          match r with
          | Ok () => (created :: written :: trace, fs, Ok ())
          | Err e => (created :: written :: trace ++ [fs], remove_temp io fs, Err e)%list
          end
      end
  end
  end.

(* @src settings/store.rs:41-48 SettingsStore::save *)
Definition save (io : Io) (data : AppData) (fs : Files) :
    list Files * Files * result SettingsStoreError unit :=
  match validate_app_data data with
  | Err error => ([], fs, Err (StoreValidation (debug_validation_error error)))
  | Ok () =>
      match to_vec_pretty data with
      | Err error => ([], fs, Err (StoreSerialization error))
      | Ok bs => write_atomic io (bs ++ [0x0A])%list fs
      end
  end.

(* @src settings/store.rs:80-86 read_all *)
Definition read_all (io : Io) (content : bytes) : result SettingsStoreError bytes :=
  match io_open io with
  | Some message => Err (StoreIo "open" message)
  | None => match io_read io with
            | Some message => Err (StoreIo "read" message)
            | None => Ok content
            end
  end.

(* @src settings/store.rs:29-39 SettingsStore::load *)
Definition load (io : Io) (fs : Files) : list Files * Files * result SettingsStoreError AppData :=
  match f_settings fs with
  | None => ([], fs, Ok default_app_data)
  | Some content =>
      match original ← read_all io content; map_err StoreMigration (migrate_bytes original) with
      | Err e => ([], fs, Err e)
      | Ok outcome =>
          if mo_migrated outcome then
            let '(trace, fs, r) := save io (mo_data outcome) fs in
            (trace, fs, _ ← r; Ok (mo_data outcome))
          else ([], fs, Ok (mo_data outcome))
      end
  end.
End store.

(** ** Migration: the reference upgrade *)

(** Version 4 of historical settings: the same preferences, and closing the
    window keeps the service running. *)
Definition upgrade_settings (s : HistoricalStoredSettings) : StoredSettings :=
  MkStoredSettings (hs_permission_mode s) (hs_auto_start_services s) true
    (hs_onboarding_complete s).

(** A legacy workspace is selected only if both its id and its identity were
    recorded; otherwise it waits for confirmation. *)
Definition upgrade_workspace (w : option LegacyWorkspaceRecord) : WorkspacePersistence :=
  match w with
  | None => default_persistence
  | Some w =>
      match value ← lw_workspace_id w; not_blank value,
            value ← lw_validated_identity w; not_blank value with
      | Some id, Some claim =>
          MkWorkspacePersistence
            [MkWorkspaceEntry (MkWorkspaceId id) (lw_display_path w)
               (MkPersistedIdentity claim) (lw_last_opened_at w)]
            (Some (MkWorkspaceId id)) None
      | id, None => MkWorkspacePersistence [] None
          (Some (MkPendingConfirmation id (lw_display_path w) ValidatedIdentityMissing))
      | None, Some _ => MkWorkspacePersistence [] None
          (Some (MkPendingConfirmation None (lw_display_path w) PendingWorkspaceIdMissing))
      end
  end.

Definition has_display_path (w : option LegacyWorkspaceRecord) : bool :=
  match w with Some w => negb (bool_decide (lw_display_path w = ""%string)) | None => true end.

Definition upgrade_v2 (old : V2) : AppData :=
  MkAppData 4 (upgrade_settings (v2_settings old)) (upgrade_workspace (v2_workspace old)).
Definition upgrade_v1 (old : V1) : AppData :=
  MkAppData 4
    (MkStoredSettings (v1_permission_mode old) (v1_auto_start_services old) true
       (v1_onboarding_complete old))
    (upgrade_workspace (v1_workspace old)).

Section migration_theorems.
Context `{SettingsCodec}.

Lemma not_blank_Some v w : not_blank v = Some w → w = v ∧ blank v = false.
Proof. unfold not_blank. destruct (blank v); [done|]. by intros [= ->]. Qed.

Lemma migrate_workspace_spec w :
  migrate_workspace w =
  if has_display_path (Some w) then Ok (upgrade_workspace (Some w))
  else Err (HistoricalSchemaInvalid 2 "legacy workspace display path is empty").
Proof.
  unfold migrate_workspace, has_display_path, upgrade_workspace.
  case_bool_decide as Hp; [done|]. cbn [negb].
  destruct (value ← lw_workspace_id w; not_blank value) as [id|] eqn:Hid;
    destruct (value ← lw_validated_identity w; not_blank value) as [ident|] eqn:Hit; try done.
  apply bind_Some in Hid as (v & _ & [-> Hv]%not_blank_Some).
  apply bind_Some in Hit as (u & _ & [-> Hu]%not_blank_Some).
  assert (validate_entry (MkWorkspaceEntry (MkWorkspaceId v) (lw_display_path w)
            (MkPersistedIdentity u) (lw_last_opened_at w)) = Ok ()) as Hve
    by (unfold validate_entry; simpl; by rewrite (bool_decide_eq_false_2 _ Hp), Hv, Hu).
  unfold workspace_id_from, entry_from_persisted_claim, identity_from_claim.
  rewrite Hv, Hu. cbn [map_err mbind result_bind]. rewrite Hve. cbn [map_err mbind result_bind].
  unfold upsert_entry. by rewrite Hve.
Qed.

Lemma upgrade_workspace_valid w :
  has_display_path w = true → valid_persistence (upgrade_workspace w).
Proof.
  assert (valid_registry []) as Hnil
    by (split; [by intros e ?%not_elem_of_nil|constructor|constructor]).
  destruct w as [w|]; [|by split; [done|done|done]].
  unfold has_display_path, upgrade_workspace. case_bool_decide as Hp; [done|]. intros _.
  destruct (value ← lw_workspace_id w; not_blank value) as [id|] eqn:Hid;
    destruct (value ← lw_validated_identity w; not_blank value) as [ident|] eqn:Hit;
    [|by split; simpl; [done|done|intros c [= <-]; exact Hp]..].
  apply bind_Some in Hid as (v & _ & [-> Hv]%not_blank_Some).
  apply bind_Some in Hit as (u & _ & [-> Hu]%not_blank_Some).
  split; simpl; [|intros id [= <-]|done].
  - split; [|apply NoDup_singleton|apply NoDup_singleton].
    intros e ->%list_elem_of_singleton. unfold validate_entry. simpl.
    by rewrite (bool_decide_eq_false_2 _ Hp), Hv, Hu.
  - unfold get_entry, has_id. simpl. rewrite bool_decide_eq_true_2 by done. by eexists.
Qed.

(** What each migration step yields. *)
Lemma migrate_v1_Ok value value' :
  migrate_v1_to_v2 value = Ok value' →
  ∃ old, decode_v1 value = Ok old ∧ v1_schema_version old = 1 ∧
    decode_v2 value' = Ok (MkV2 2 (MkHistoricalSettings (v1_permission_mode old)
      (v1_auto_start_services old) (v1_onboarding_complete old)) (v1_workspace old)) ∧
    schema_version_field value' = Some (Some 2).
Proof.
  unfold migrate_v1_to_v2. destruct (decode_v1 value) as [old|]; simpl; [|done].
  destruct (v1_schema_version old =? 1) eqn:Hv; cbn [negb]; [|done]. intros Henc%map_err_Ok.
  apply decode_encode_v2 in Henc as [? ?]. exists old. apply N.eqb_eq in Hv. done.
Qed.

Lemma migrate_v2_Ok value value' :
  migrate_v2_to_v3 value = Ok value' →
  ∃ old, decode_v2 value = Ok old ∧ v2_schema_version old = 2 ∧
    has_display_path (v2_workspace old) = true ∧
    decode_v3 value' = Ok (MkV3 3 (v2_settings old) (upgrade_workspace (v2_workspace old))) ∧
    schema_version_field value' = Some (Some 3).
Proof.
  unfold migrate_v2_to_v3. destruct (decode_v2 value) as [old|]; cbn [map_err mbind result_bind]; [|done].
  destruct (v2_schema_version old =? 2) eqn:Hv; cbn [negb]; [|done]. apply N.eqb_eq in Hv.
  intros Hm. exists old. destruct (v2_workspace old) as [w|] eqn:Hw.
  - rewrite migrate_workspace_spec in Hm. destruct (has_display_path (Some w)) eqn:Hd; [|done].
    cbn [mbind result_bind] in Hm. apply map_err_Ok, decode_encode_v3 in Hm as [? ?]. done.
  - cbn [mbind result_bind] in Hm. apply map_err_Ok, decode_encode_v3 in Hm as [? ?]. done.
Qed.

Lemma migrate_v3_Ok value value' :
  migrate_v3_to_v4 value = Ok value' →
  ∃ old, decode_v3 value = Ok old ∧ v3_schema_version old = 3 ∧
    decode_app value' = Ok (MkAppData 4 (upgrade_settings (v3_settings old)) (v3_workspace old)) ∧
    schema_version_field value' = Some (Some 4).
Proof.
  unfold migrate_v3_to_v4. destruct (decode_v3 value) as [old|]; cbn [map_err mbind result_bind]; [|done].
  destruct (v3_schema_version old =? 3) eqn:Hv; cbn [negb]; [|done]. apply N.eqb_eq in Hv.
  destruct (validate_app_data _); cbn [map_err mbind result_bind]; [|done].
  intros Henc%map_err_Ok. apply decode_encode_app in Henc as [? ?]. exists old. done.
Qed.

Lemma read_schema_version_Ok value v :
  read_schema_version value = Ok v → schema_version_field value = Some (Some v) ∧ v ≤ u32_max.
Proof.
  unfold read_schema_version. destruct (schema_version_field value) as [[raw|]|]; simpl; [|done..].
  destruct (u32_max <? raw) eqn:Hr; [done|]. intros [= <-]. apply N.ltb_ge in Hr. done.
Qed.

Lemma read_schema_version_field value v :
  schema_version_field value = Some (Some v) → v ≤ u32_max → read_schema_version value = Ok v.
Proof.
  intros Hf Hv. unfold read_schema_version. rewrite Hf. simpl.
  by rewrite (proj2 (N.ltb_ge _ _) Hv).
Qed.

(** The result of the loop, from each version; each is the one before it plus
    one step. *)
Definition upgraded_from (version : N) (value : Value) (d : AppData) : Prop :=
  match version with
  | 1 => ∃ old, decode_v1 value = Ok old ∧ has_display_path (v1_workspace old) = true ∧
           d = upgrade_v1 old
  | 2 => ∃ old, decode_v2 value = Ok old ∧ has_display_path (v2_workspace old) = true ∧
           d = upgrade_v2 old
  | 3 => ∃ old, decode_v3 value = Ok old ∧
           d = MkAppData 4 (upgrade_settings (v3_settings old)) (v3_workspace old)
  | 4 => decode_app value = Ok d
  | _ => False
  end.

Lemma migrate_step_Ok steps value version value' :
  version < 4 → migrate_loop (S steps) value version = Ok value' →
  1 ≤ version ∧ ∃ next,
    match version with
    | 1 => migrate_v1_to_v2 value | 2 => migrate_v2_to_v3 value | 3 => migrate_v3_to_v4 value
    | _ => Err SchemaVersionMissing
    end = Ok next ∧ migrate_loop steps next (version + 1) = Ok value'.
Proof.
  intros Hlt. cbn [migrate_loop].
  rewrite (proj2 (N.leb_gt CURRENT_SETTINGS_SCHEMA_VERSION version) Hlt).
  assert (version = 0 ∨ version = 1 ∨ version = 2 ∨ version = 3) as Hv by lia.
  destruct Hv as [->|[->|[->| ->]]]; [done|..].
  all: match goal with |- context [mbind _ ?m] => destruct m as [next|] eqn:Hm end;
    cbn [mbind result_bind]; [|done].
  all: destruct (read_schema_version next) as [n|]; cbn [mbind result_bind]; [|done].
  all: destruct (n =? _) eqn:Hn; cbn [negb]; [|done]; apply N.eqb_eq in Hn as ->.
  all: intros Hrest; split; [lia|]; by exists next.
Qed.

Lemma migrate_loop_Ok version value value' d :
  version ≤ 4 → migrate_loop (N.to_nat (4 - version)) value version = Ok value' →
  decode_app value' = Ok d → 1 ≤ version ∧ upgraded_from version value d.
Proof.
  intros Hv.
  assert (version = 0 ∨ version = 1 ∨ version = 2 ∨ version = 3 ∨ version = 4) as Hcase by lia.
  destruct Hcase as [->|[->|[->|[->| ->]]]].
  - by intros [? _]%migrate_step_Ok.
  - intros Hl Hdec. split; [done|].
    apply migrate_step_Ok in Hl as (_ & w2 & (o1 & Ho1 & _ & Hd1 & _)%migrate_v1_Ok & Hl); [|lia].
    apply migrate_step_Ok in Hl as (_ & w3 & (o2 & Ho2 & _ & Hp2 & Hd2 & _)%migrate_v2_Ok & Hl); [|lia].
    apply migrate_step_Ok in Hl as (_ & w4 & (o3 & Ho3 & _ & Hd3 & _)%migrate_v3_Ok & Hl); [|lia].
    injection Hl as ->. exists o1. rewrite Hd1 in Ho2. rewrite Hdec in Hd3.
    simplify_eq. rewrite Hd2 in Ho3. by simplify_eq/=.
  - intros Hl Hdec. split; [lia|].
    apply migrate_step_Ok in Hl as (_ & w3 & (o2 & Ho2 & _ & Hp2 & Hd2 & _)%migrate_v2_Ok & Hl); [|lia].
    apply migrate_step_Ok in Hl as (_ & w4 & (o3 & Ho3 & _ & Hd3 & _)%migrate_v3_Ok & Hl); [|lia].
    injection Hl as ->. exists o2. rewrite Hdec in Hd3. rewrite Hd2 in Ho3. by simplify_eq/=.
  - intros Hl Hdec. split; [lia|].
    apply migrate_step_Ok in Hl as (_ & w4 & (o3 & Ho3 & _ & Hd3 & _)%migrate_v3_Ok & Hl); [|lia].
    injection Hl as ->. exists o3. split; [done|]. congruence.
  - intros [= ->] Hdec. split; [lia|done].
Qed.

Definition encoders_total : Prop :=
  (∀ x, is_ok (encode_v2 x) = true) ∧ (∀ x, is_ok (encode_v3 x) = true) ∧
  (∀ x, is_ok (encode_app x) = true).

Lemma validate_app_data_valid d :
  ad_schema_version d = 4 → valid_persistence (ad_workspace d) → validate_app_data d = Ok ().
Proof.
  intros Hv Hw. unfold validate_app_data. rewrite Hv. simpl.
  by apply validate_persistence_iff in Hw as ->.
Qed.

(** Valid documents are migrated, whatever their version. *)
Lemma migrate_loop_from_3 value old :
  encoders_total → decode_v3 value = Ok old → v3_schema_version old = 3 →
  valid_persistence (v3_workspace old) →
  ∃ value', migrate_loop 1 value 3 = Ok value' ∧
    decode_app value' = Ok (MkAppData 4 (upgrade_settings (v3_settings old)) (v3_workspace old)).
Proof.
  intros (_ & _ & Henc) Hdec Hv Hw. cbn [migrate_loop].
  rewrite (proj2 (N.leb_gt CURRENT_SETTINGS_SCHEMA_VERSION 3)) by done.
  unfold migrate_v3_to_v4. rewrite Hdec. cbn [map_err mbind result_bind]. rewrite Hv. cbn [N.eqb negb Pos.eqb].
  rewrite validate_app_data_valid by done. cbn [map_err mbind result_bind].
  match goal with |- context [encode_app ?d] => destruct (is_ok_Ok _ (Henc d)) as [value' Hok] end.
  rewrite Hok. cbn [map_err mbind result_bind]. apply decode_encode_app in Hok as [Hd Hf].
  rewrite (read_schema_version_field value' 4) by done. exists value'. done.
Qed.

Lemma migrate_loop_from_2 value old :
  encoders_total → decode_v2 value = Ok old → v2_schema_version old = 2 →
  has_display_path (v2_workspace old) = true →
  ∃ value', migrate_loop 2 value 2 = Ok value' ∧ decode_app value' = Ok (upgrade_v2 old).
Proof.
  intros Htot Hdec Hv Hp. pose proof Htot as (_ & Henc & _).
  assert (∃ value3, migrate_v2_to_v3 value = Ok value3) as [value3 Hstep].
  { unfold migrate_v2_to_v3. rewrite Hdec. cbn [map_err mbind result_bind].
    rewrite Hv. cbn [N.eqb negb Pos.eqb].
    destruct (v2_workspace old) as [w|]; [rewrite migrate_workspace_spec, Hp|];
      cbn [mbind result_bind];
      match goal with |- context [encode_v3 ?d] => destruct (is_ok_Ok _ (Henc d)) as [v3 Hok] end;
      rewrite Hok; by exists v3. }
  apply migrate_v2_Ok in Hstep as Hs. destruct Hs as (old' & Hold & _ & _ & Hd3 & Hf).
  rewrite Hdec in Hold. injection Hold as <-.
  destruct (migrate_loop_from_3 value3 _ Htot Hd3 eq_refl) as (value' & Hloop & Happ).
  { by apply upgrade_workspace_valid. }
  exists value'. split; [|done]. change (migrate_loop 2 value 2) with
    (value' ← migrate_v2_to_v3 value; next ← read_schema_version value';
     if negb (next =? 3) then Err (HistoricalSchemaInvalid 2
         (String.append "migration must advance exactly one version, got " (pretty next)))
     else migrate_loop 1 value' next).
  rewrite Hstep. cbn [mbind result_bind]. by rewrite (read_schema_version_field value3 3).
Qed.

Lemma migrate_loop_from_1 value old :
  encoders_total → decode_v1 value = Ok old → v1_schema_version old = 1 →
  has_display_path (v1_workspace old) = true →
  ∃ value', migrate_loop 3 value 1 = Ok value' ∧ decode_app value' = Ok (upgrade_v1 old).
Proof.
  intros Htot Hdec Hv Hp. pose proof Htot as (Henc & _ & _).
  assert (∃ value2, migrate_v1_to_v2 value = Ok value2) as [value2 Hstep].
  { unfold migrate_v1_to_v2. rewrite Hdec. cbn [map_err mbind result_bind].
    rewrite Hv. cbn [N.eqb negb Pos.eqb].
    match goal with |- context [encode_v2 ?d] => destruct (is_ok_Ok _ (Henc d)) as [v2 Hok] end.
    rewrite Hok. by exists v2. }
  apply migrate_v1_Ok in Hstep as Hs. destruct Hs as (old' & Hold & _ & Hd2 & Hf).
  rewrite Hdec in Hold. injection Hold as <-.
  destruct (migrate_loop_from_2 value2 _ Htot Hd2 eq_refl Hp) as (value' & Hloop & Happ).
  exists value'. split; [|done]. change (migrate_loop 3 value 1) with
    (value' ← migrate_v1_to_v2 value; next ← read_schema_version value';
     if negb (next =? 2) then Err (HistoricalSchemaInvalid 1
         (String.append "migration must advance exactly one version, got " (pretty next)))
     else migrate_loop 2 value' next).
  rewrite Hstep. cbn [mbind result_bind]. by rewrite (read_schema_version_field value2 2).
Qed.

(** Once the loop has delivered valid current data, [migrate_bytes] returns it. *)
Lemma migrate_bytes_finish bs value version value' d :
  from_slice bs = Ok value → schema_version_field value = Some (Some version) → version ≤ 4 →
  migrate_loop (N.to_nat (4 - version)) value version = Ok value' →
  decode_app value' = Ok d → validate_app_data d = Ok () →
  migrate_bytes bs = Ok (MkMigrationOutcome d version (negb (version =? 4))).
Proof.
  intros Hs Hf Hv Hl Hd Hval. unfold migrate_bytes. rewrite Hs. cbn [map_err mbind result_bind].
  rewrite (read_schema_version_field value version) by (done || (unfold u32_max; lia)).
  cbn [mbind result_bind]. rewrite (proj2 (N.ltb_ge CURRENT_SETTINGS_SCHEMA_VERSION version) Hv).
  unfold CURRENT_SETTINGS_SCHEMA_VERSION. rewrite Hl. cbn [mbind result_bind]. rewrite Hd.
  cbn [map_err mbind result_bind]. by rewrite Hval.
Qed.

(** Settings of every historical version migrate to exactly
    their reference upgrade.  A result is valid current data, says truly whether
    it was migrated, and is the document's upgrade; every well-formed document
    of version 1 or 2 is migrated (its workspace selected only if both its id and
    its identity were recorded); and a document of a later version is refused. *)
Theorem migration_exact bs :
  (∀ out, migrate_bytes bs = Ok out →
     1 ≤ mo_original_version out ≤ 4 ∧
     mo_migrated out = negb (mo_original_version out =? 4) ∧
     validate_app_data (mo_data out) = Ok () ∧
     ∃ value, from_slice bs = Ok value ∧
       schema_version_field value = Some (Some (mo_original_version out)) ∧
       upgraded_from (mo_original_version out) value (mo_data out)) ∧
  (∀ value old, encoders_total → from_slice bs = Ok value →
     schema_version_field value = Some (Some 1) → decode_v1 value = Ok old →
     v1_schema_version old = 1 → has_display_path (v1_workspace old) = true →
     migrate_bytes bs = Ok (MkMigrationOutcome (upgrade_v1 old) 1 true)) ∧
  (∀ value old, encoders_total → from_slice bs = Ok value →
     schema_version_field value = Some (Some 2) → decode_v2 value = Ok old →
     v2_schema_version old = 2 → has_display_path (v2_workspace old) = true →
     migrate_bytes bs = Ok (MkMigrationOutcome (upgrade_v2 old) 2 true)) ∧
  (∀ value v, from_slice bs = Ok value → schema_version_field value = Some (Some v) →
     4 < v → v ≤ u32_max → migrate_bytes bs = Err (ConfigurationVersionUnsupported v 4)).
Proof.
  split_and!.
  - intros out. unfold migrate_bytes.
    destruct (from_slice bs) as [value|] eqn:Hs; cbn [map_err mbind result_bind]; [|done].
    destruct (read_schema_version value) as [v|] eqn:Hv; cbn [mbind result_bind]; [|done].
    apply read_schema_version_Ok in Hv as [Hf _].
    destruct (_ <? v) eqn:Hle; [done|]. apply N.ltb_ge in Hle.
    destruct (migrate_loop _ value v) as [value'|] eqn:Hl; cbn [mbind result_bind]; [|done].
    destruct (decode_app value') as [d|] eqn:Hd; cbn [map_err mbind result_bind]; [|done].
    destruct (validate_app_data d) as [[]|] eqn:Hval; cbn [map_err mbind result_bind]; [|done].
    intros [= <-]. simpl. destruct (migrate_loop_Ok v value value' d Hle Hl Hd).
    split_and!; [done..|]. by exists value.
  - intros value old Htot Hs Hf Hdec Hv Hp.
    destruct (migrate_loop_from_1 value old Htot Hdec Hv Hp) as (value' & Hl & Hd).
    eapply (migrate_bytes_finish bs value 1); try done.
    apply validate_app_data_valid; [done|]. by apply upgrade_workspace_valid.
  - intros value old Htot Hs Hf Hdec Hv Hp.
    destruct (migrate_loop_from_2 value old Htot Hdec Hv Hp) as (value' & Hl & Hd).
    eapply (migrate_bytes_finish bs value 2); try done.
    apply validate_app_data_valid; [done|]. by apply upgrade_workspace_valid.
  - intros value v Hs Hf Hlt Hmax. unfold migrate_bytes. rewrite Hs. cbn [map_err mbind result_bind].
    rewrite (read_schema_version_field value v) by done. cbn [mbind result_bind].
    by rewrite (proj2 (N.ltb_lt CURRENT_SETTINGS_SCHEMA_VERSION v) Hlt).
Qed.
End migration_theorems.

Section store_theorems.
Context `{SettingsCodec}.

(** The settings the files hold after a crash: nothing of the old settings
    [old] has been lost unless [new] replaces it. *)
Definition recoverable (old : option bytes) (new : bytes) (fs : Files) : Prop :=
  f_settings fs = old ∨ (f_settings fs = Some new ∧ (is_Some old → f_backup fs = old)) ∨
  (f_settings fs = None ∧ f_backup fs = old).

Lemma remove_temp_recoverable io old new fs :
  recoverable old new fs → recoverable old new (remove_temp io fs).
Proof. unfold remove_temp. by destruct (io_remove_temp io). Qed.

Lemma atomic_replace_spec io new fs trace fs' r :
  f_temp fs = Some new → atomic_replace io fs = (trace, fs', r) →
  (∀ s, s ∈ trace ++ [fs'] → recoverable (f_settings fs) new s)%list ∧
  (r = Ok () → f_settings fs' = Some new ∧ f_temp fs' = None ∧
     (is_Some (f_settings fs) → f_backup fs' = f_settings fs)).
Proof.
  intros Ht. unfold atomic_replace. destruct (f_settings fs) as [old|] eqn:Hs.
  - destruct (match f_backup fs, io_remove_backup io with
              | Some _, Some _ => None | Some _, None => Some (fs <| f_backup := None |>)
              | None, _ => Some fs end) as [fs1|] eqn:Hrem.
    + assert (f_settings fs1 = Some old ∧ f_temp fs1 = Some new) as [Hs1 Ht1].
      { revert Hrem. repeat case_match; intros; simplify_eq/=; done. }
      destruct (io_replace io); intros [= <- <- <-]; (split; [|done]);
        intros s [->%list_elem_of_singleton| ->%list_elem_of_singleton]%elem_of_app.
      all: unfold recoverable; simpl; rewrite ?Ht1, ?Hs1; naive_solver.
    + intros [= <- <- <-]. split; [|done]. simpl. intros s ->%list_elem_of_singleton. by left.
  - destruct (io_move io); intros [= <- <- <-]; (split; [|done]); simpl;
      intros x ->%list_elem_of_singleton; [by left|].
    right. left. simpl. split; [done|]. by intros [? ?].
Qed.

Lemma write_atomic_spec io bs fs trace fs' r :
  write_atomic io bs fs = (trace, fs', r) →
  (∀ s, s ∈ trace ++ [fs'] → recoverable (f_settings fs) bs s)%list ∧
  (r = Ok () → f_settings fs' = Some bs ∧ f_temp fs' = None ∧
     (is_Some (f_settings fs) → f_backup fs' = f_settings fs)).
Proof.
  unfold write_atomic.
  destruct (io_create_parent io).
  { intros [= <- <- <-]. split; [|done]. intros x ->%list_elem_of_singleton. by left. }
  destruct (io_create_temp io).
  { intros [= <- <- <-]. split; [|done]. intros x ->%list_elem_of_singleton. by left. }
  destruct (io_write_temp io) as [[written message]|].
  { intros [= <- <- <-]. split; [|done].
    intros x [->|[->| ->%list_elem_of_singleton]%elem_of_cons]%elem_of_cons; [by left..|].
    apply remove_temp_recoverable. by left. }
  destruct (atomic_replace io _) as [[trace1 fs1] r1] eqn:Hrep.
  apply (atomic_replace_spec io bs) in Hrep as [Hall Hok]; [|done]. simpl in Hall, Hok.
  destruct r1 as [[]|e]; intros [= <- <- <-].
  - split; [|by intros _; apply Hok].
    intros x [->|[->|Hin]%elem_of_cons]%elem_of_cons; [by left..|by apply Hall].
  - split; [|done]. rewrite <-app_comm_cons, <-app_comm_cons.
    intros s [->|[->|Hin]%elem_of_cons]%elem_of_cons; [by left..|].
    apply elem_of_app in Hin as [Hin|Heq].
    + by apply Hall.
    + apply list_elem_of_singleton in Heq as ->. apply remove_temp_recoverable, Hall.
      apply elem_of_app. right. by left.
Qed.

(** What is written for valid data loads back as it was, whatever else there is. *)
Lemma saved_loads data bs io s :
  validate_app_data data = Ok () → to_vec_pretty data = Ok bs → f_settings s = Some (bs ++ [0x0A])%list →
  io_open io = None → io_read io = None → load io s = ([], s, Ok data).
Proof.
  intros Hval Hvec Hs Ho Hr. unfold load. rewrite Hs. unfold read_all. rewrite Ho, Hr. cbn [mbind result_bind].
  destruct (to_vec_pretty_parses data bs Hvec) as (value & Hparse & Hdec & Hfield).
  assert (ad_schema_version data = 4) as Hv4.
  { unfold validate_app_data in Hval. destruct (_ =? _) eqn:Hv in Hval; [|done]. by apply N.eqb_eq. }
  rewrite Hv4 in Hfield.
  rewrite (migrate_bytes_finish _ value 4 value data); [|done..]. done.
Qed.

(** C23 (safety): A save never loses the settings.  Data that is not valid, or that
    cannot be encoded, touches no file and is refused.  Otherwise, at every point of
    a save and after any failure of it, the settings file holds the old settings or
    the complete encoding of the new ones, or is absent with the old settings in the
    backup; wherever the file holds that encoding it loads as exactly the data; and
    a save that succeeds leaves it there, with the old settings as the backup. *)
Theorem settings_survive_save io data fs :
  let '(trace, fs', r) := save io data fs in
  match validate_app_data data, to_vec_pretty data with
  | Ok (), Ok bs =>
      let new := (bs ++ [0x0A])%list in
      (∀ s, s ∈ (trace ++ [fs'])%list → recoverable (f_settings fs) new s) ∧
      (∀ s io', f_settings s = Some new → io_open io' = None → io_read io' = None →
         load io' s = ([], s, Ok data)) ∧
      (r = Ok () → f_settings fs' = Some new ∧ f_temp fs' = None ∧
         (is_Some (f_settings fs) → f_backup fs' = f_settings fs))
  | _, _ => trace = [] ∧ fs' = fs ∧ is_ok r = false
  end.
Proof.
  unfold save. destruct (validate_app_data data) as [[]|e] eqn:Hval; [|done].
  destruct (to_vec_pretty data) as [bs|e] eqn:Hvec; [|done].
  destruct (write_atomic io (bs ++ [10])%list fs) as [[trace fs'] r] eqn:Hw.
  apply write_atomic_spec in Hw as [Hall Hok]. cbv zeta.
  split_and!; [done| |done]. intros s io' Hs Ho Hr. by eapply saved_loads.
Qed.

(** Where [ReplaceFileW] fails after moving the settings aside, the next load
    finds no file and starts from the defaults: the backup is never read. *)
Lemma moved_aside_loads_defaults io io' data fs bs old message :
  validate_app_data data = Ok () → to_vec_pretty data = Ok bs →
  io_create_parent io = None → io_create_temp io = None → io_write_temp io = None →
  io_remove_backup io = None → io_replace io = ReplaceMovedAside message →
  f_settings fs = Some old →
  let fs' := (save io data fs).1.2 in
  (load io' fs').2 = Ok default_app_data ∧ f_backup fs' = Some old.
Proof.
  intros Hval Hvec Hp Hc Hw Hb Hrep Hs. unfold save. rewrite Hval, Hvec. unfold write_atomic.
  rewrite Hp, Hc, Hw. unfold atomic_replace. simpl. rewrite Hs, Hb, Hrep.
  unfold remove_temp. by destruct (f_backup fs), (io_remove_temp io).
Qed.
End store_theorems.

(** ** A codec and a file *)

#[local] Instance StoredPermissionMode_eq_dec : EqDecision StoredPermissionMode.
Proof. solve_decision. Defined.
#[local] Instance StoredSettings_eq_dec : EqDecision StoredSettings.
Proof. solve_decision. Defined.
#[local] Instance WorkspaceEntry_eq_dec : EqDecision WorkspaceEntry.
Proof. solve_decision. Defined.
#[local] Instance PendingWorkspaceReason_eq_dec : EqDecision PendingWorkspaceReason.
Proof. solve_decision. Defined.
#[local] Instance PendingWorkspaceConfirmation_eq_dec : EqDecision PendingWorkspaceConfirmation.
Proof. solve_decision. Defined.
#[local] Instance WorkspacePersistence_eq_dec : EqDecision WorkspacePersistence.
Proof. solve_decision. Defined.
#[local] Instance AppData_eq_dec : EqDecision AppData.
Proof. solve_decision. Defined.

Inductive demo_value := DemoV1 (v : V1) | DemoV2 (v : V2) | DemoV3 (v : V3) | DemoApp (d : AppData).

Definition demo_v1 : V1 :=
  MkV1 1 StoredFull true true
    (Some (MkLegacyWorkspace (Some (lit "w-1")) "C:\work" (Some (lit "win32-file-id:7:1")) 5)).

Definition demo_decode {A} (view : demo_value → option A) (v : demo_value) : result string A :=
  ok_or "unknown field"%string (view v).
Definition demo_version (v : demo_value) : N :=
  match v with DemoV1 v => v1_schema_version v | DemoV2 v => v2_schema_version v
             | DemoV3 v => v3_schema_version v | DemoApp d => ad_schema_version d end.
Definition as_v1 v := match v with DemoV1 v => Some v | _ => None end.
Definition as_v2 v := match v with DemoV2 v => Some v | _ => None end.
Definition as_v3 v := match v with DemoV3 v => Some v | _ => None end.
Definition as_app v := match v with DemoApp v => Some v | _ => None end.

#[local] Program Instance demo_codec : SettingsCodec := {
  Value := demo_value;
  from_slice := λ bs,
    if bool_decide (bs = [0x31]) then Ok (DemoV1 demo_v1)
    else if bool_decide (bs = [0x34; 0x0A]) then Ok (DemoApp default_app_data)
    else Err "expected value"%string;
  schema_version_field := λ v, Some (Some (demo_version v));
  decode_v1 := demo_decode as_v1;
  decode_v2 := demo_decode as_v2;
  decode_v3 := demo_decode as_v3;
  decode_app := demo_decode as_app;
  encode_v2 := λ v, Ok (DemoV2 v);
  encode_v3 := λ v, Ok (DemoV3 v);
  encode_app := λ v, Ok (DemoApp v);
  to_vec_pretty := λ d, if decide (d = default_app_data) then Ok [0x34] else Err "too large"%string;
  debug_workspace_error := λ _, "WorkspaceRegistryError"%string;
  debug_validation_error := λ _, "AppDataValidationError"%string
}.
Next Obligation. by intros x v [= <-]. Qed.
Next Obligation. by intros x v [= <-]. Qed.
Next Obligation. by intros x v [= <-]. Qed.
Next Obligation.
  intros x b. cbv beta. case_decide as Hd; [|done]. intros [= <-]. subst x.
  by exists (DemoApp default_app_data).
Qed.

Lemma migration_exact_witness :
  encoders_total ∧
  migrate_bytes [0x31] = Ok (MkMigrationOutcome (upgrade_v1 demo_v1) 1 true) ∧
  wp_active (ad_workspace (upgrade_v1 demo_v1)) = Some (MkWorkspaceId (lit "w-1")).
Proof.
  assert (encoders_total) as Htot by done.
  destruct (migration_exact [0x31]) as (_ & Hv1 & _).
  split_and!; [done| |done].
  by apply (Hv1 (DemoV1 demo_v1) demo_v1).
Defined.

Definition demo_io : Io := MkIo None None None None None None Replaced None None.
Definition demo_store : Files := MkFiles (Some [0x31]) (Some [0x30]) None.

Lemma settings_survive_save_witness :
  (save demo_io default_app_data demo_store).2 = Ok () ∧
  load demo_io (save demo_io default_app_data demo_store).1.2 =
    ([], (save demo_io default_app_data demo_store).1.2, Ok default_app_data) ∧
  f_backup (save demo_io default_app_data demo_store).1.2 = Some [0x31].
Proof.
  pose proof (settings_survive_save demo_io default_app_data demo_store) as Hsave.
  destruct (save demo_io default_app_data demo_store) as [[trace fs'] r] eqn:Hs.
  assert (r = Ok ()) as Hr by (vm_compute in Hs; by injection Hs as <- <- <-).
  destruct (validate_app_data default_app_data) as [[]|]; [|destruct Hsave as (_ & _ & ?); by subst].
  destruct (to_vec_pretty default_app_data) as [bs|]; [|destruct Hsave as (_ & _ & ?); by subst].
  destruct Hsave as (_ & Hload & Hok). destruct (Hok Hr) as (Hnew & _ & Hb).
  split_and!; [done|by apply Hload|]. apply Hb. by exists [0x31].
Defined.
